(* ===== verification/_CoqProject ===== *)
-Q . S2P
Prelude.v
DependencyOrder.v
Types.v
PyFloat.v
OrderedDict.v
PySort.v
PyBytes.v
DeviceResources.v
OperatorDispatch.v
Observability.v
ScheduleQueue.v
Admission.v
DevicePipeline.v
Scheduler.v
SchedulerSafety.v
MemoryArena.v
LatentMemory.v
EventBus.v
StateCache.v
ExpertResidency.v
EncoderCaches.v
Context.v
TokenCounts.v
ChunkPlanner.v
MemoryGate.v
VideoFrames.v
SemanticCache.v
BackendEngine.v
OperatorGraph.v
Speculative.v
GraphFusion.v
AdaptiveState.v
AudioRing.v
LayerPrefetch.v
BitPacking.v
NumericCodecs.v
KernelProbe.v
DeviceCapability.v
EncoderPipeline.v
ExecutionPlanner.v
DeviceSelection.v
NumericLayout.v
NumericFormats.v
NumericRequantization.v
ContextReevaluation.v
MultiMac.v
MultiMacExecution.v
VisionBatching.v
ExpertPredictor.v
GenerationAdmission.v
Submission.v
VideoCache.v
PyOrder.v
VideoSampling.v
NumericRouting.v
NumericContainer.v
NumericStream.v
TensorAdmission.v
NumericFileStream.v
NumericPrecision.v
ResidentStore.v
Json.v
RuntimeProtocol.v
ManagedEngine.v
RuntimeWorker.v
CacheContract.v
CoreMLWorkerCache.v
