(* ===== verification/Prelude.v ===== *)
(** * The vLLM-Apple runtime: root of the verification library

    This library models the core of the Python package under [src/vllm_apple]: the
    part of the runtime that decides which request runs where and with how much of
    a Mac's unified memory, the caches and buffers that memory is spent on, and the
    numeric formats model state is stored in.  Python methods are translated to
    executable Rocq functions over explicit state, and the theorems state what the
    components promise each other and the host.

    ** Conventions

    - A method that may raise and writes to its object is a [Py S A] (this file): it
      maps the object's state to a result [Ok a] or [Raise e] together with the
      state left behind, also when it raises.  A pure method that may raise returns
      a [res exn A].  Exceptions carry their message where the code sets one
      (Types.v).
    - A method that holds its object's lock from beginning to end is one transition.
      Where the code gives a lock up, waits, or calls into the host, the
      interference is explicit: either the method is cut into the transitions
      between which other threads may run (EncoderPipeline, EventBus, TokenCounts,
      SchedulerSafety, ExpertResidency, CoreMLWorkerCache), or what the others do is a
      function argument ([ScheduleQueue.dequeue], [DevicePipeline.execute],
      [SemanticCache.retry_pending_releases]).  The flags of leases are tested and set
      without a lock: the theorems on ExpertResidency and CoreMLWorkerCache assume that
      one thread at a time uses a lease, the one on SemanticCache that its calls do not
      overlap, and lemmas next to them show what happens otherwise.
    - Callables, engines, kernels and backends of the host are arguments: programs
      over a state of their own.  Where a theorem needs them to behave, a class or a
      named hypothesis says how ([Speculative], [SemanticCache], [AdaptiveState],
      [LayerPrefetch], [ResidentStore]), and the witness of the theorem instantiates
      it.  The operating system is such a class where files are read
      ([NumericFileStream.OS]; [StableFiles] says that nobody changes them).
    - SHA-256, [uuid4], clocks and the text [repr] gives a float are parameters.
    - Integers are [Z], as Python's are unbounded; bytes are integers below 256 with
      that bound proved; floats are IEEE 754 binary64 ([SpecFloat.spec_float] at
      precision 53, PyFloat.v) wherever the code computes with them, so that
      rounding, overflow and division by zero are part of the model.  32-bit stores
      (AudioRing) and the decoders' limits (NumericCodecs) round to binary32.
    - Dictionaries whose order is observable are association lists in iteration
      order (OrderedDict.v); the others are finite maps.  [sorted] is a stable sort
      (PySort.v).
    - [isinstance] tests that only reject values of the wrong static type have no
      counterpart: the model is typed as the source is annotated.

    ** The parts, and the file that models each

    Scheduling and device resources:
    - DeviceResources: [UnifiedDeviceResourceLedger] of device_resources.py, the
      vector of resources every backend reserves from.  Usage is the sum of the
      active reservations, never beyond capacity; concurrent backends are a
      qualified pair.
    - OperatorDispatch: [KernelCapabilityRegistry] of kernel_probe.py and the
      dispatcher and fallback executor of operator_dispatch.py.  Only the CPU and
      probed, unquarantined backends are selected, in order.
    - KernelProbe: the probe itself; a kernel passes exactly when it is correct on
      every sample and fast enough.
    - DeviceCapability: device_capability.py.  The registry composed from kernel
      probes decides as the probes do, which connects the two registries.
    - DeviceSelection: device_selection.py over the report records of
      device_benchmark.py; the backend selected is the fastest that may be promoted.
    - DevicePipeline, EncoderPipeline: the two executors of device_pipeline.py over
      the ledger, the second as a transition system with its slots, its pool and its
      tasks; slots and reservations are accounted for, and it can be drained.
    - Observability, ScheduleQueue, Admission, Scheduler: scheduler.py and the
      counters of scheduling_observability.py.  [Scheduler] composes the ledger, the
      admission controller, the queue and the policy as [BasicScheduler] does;
      SchedulerSafety has its transition system and invariant.

    Memory:
    - MemoryArena, LatentMemory: the first-fit arena of unified_memory_arena.py with
      its bytes, and the buffer manager over it.  The arena's ranges partition its
      capacity, and a lease's bytes change only through the lease.
    - MemoryGate: telemetry, component budget and admission gate.
    - Context, ExecutionPlanner: context.py and the memory shapes of types.py, and
      the planner of execution.py that uses the recommendation.
    - AdaptiveState: adaptive_state_allocation.py, plans to narrow or evict state.
    - ChunkPlanner: generative_chunk_scheduler.py.

    Caches and streams:
    - OrderedDict: the least-recently-used loop shared by EncoderCaches
      (vision_cache.py, audio_encoder_cache.py, behind the class [SizedLru]),
      SemanticCache (semantic_cache.py, semantic_state.py, elastic_memory.py) and
      TokenCounts (token_count_cache.py).
    - StateCache: hierarchical_state_cache.py, with a file system whose writes,
      deletions and opens may fail.
    - ExpertResidency, LayerPrefetch: leases on expert weights and layers.
    - EventBus, VideoFrames, AudioRing: bounded streams, each proved to refine an
      abstract queue or history.

    Engines and graphs:
    - BackendEngine: inference_request.py, fault_injection.py, backend_engine.py.
    - OperatorGraph: operator_graph_dispatch.py, over BackendEngine.
    - GraphFusion: graph_fusion.py, over OperatorDispatch's registry.
    - Speculative: speculative_execution.py, over the ledger and BackendEngine.

    Numeric formats:
    - BitPacking, NumericCodecs: the packing and the codecs of numeric_codecs.py and
      the MX decoders of numeric_mx.py.
    - NumericFormats, NumericLayout, NumericRequantization: the descriptors and the
      plans of numeric_formats.py, the tile orders of numeric_layout.py, and the
      conversions of numeric_requantization.py and numeric_mx.py to scaled INT8.
    - NumericRouting, NumericContainer, NumericPrecision: numeric_routing.py (which
      route is eligible and cheapest), the metadata readers of numeric_container.py,
      and the execution contracts of numeric_precision.py.
    - NumericStream, NumericFileStream: numeric_streaming.py, tiles in leased buffers
      that are zeroed and closed, and the provider of numeric_file_stream.py over two
      files of the operating system.

    Resident tensors and the runtime protocol, one on top of the other:
    - TensorAdmission: the admission of qwen4_component_loader.py.
    - ResidentStore: qwen4_resident_store.py, over TensorAdmission, NumericStream and
      NumericFileStream; the backend is a class of the host's operations.
    - Json, RuntimeProtocol: qwen4_runtime_protocol.py; Json is the canonical text
      requests are compared by.  The store is the class [Qwen4RuntimeStore].
    - RuntimeWorker: qwen4_runtime_worker.py, the service over the store; the
      operations of ResidentStore are its instance of that class.
    - CacheContract: qwen4_cache_contract.py, the layout of a model's caches, their
      state after any number of tokens and the verification of a state, with
      [inspect_model_architecture] of model.py that the layout starts from.
    - CoreMLWorkerCache: coreml_worker_cache.py, worker processes kept under the
      identity of their model and leased to callers.

    Requests, media and several machines:
    - GenerationAdmission, Submission: generation_admission.py, the gate in front of
      a worker, and submission.py, operations that are queued, run and cancelled;
      both as transition systems.
    - ManagedEngine: managed_engine.py, one engine that a single owner thread drives,
      with its callers and its closers, as a transition system.
    - ContextReevaluation: context_reevaluation.py.
    - ExpertPredictor: expert_predictor.py.
    - VisionBatching, VideoSampling, VideoCache: the batches of vision_batching.py,
      the samplers of video_temporal_sampler.py, and video_cache.py, two tiers under
      one limit.
    - MultiMac, MultiMacExecution: the planner of multi_mac.py and the coordinator of
      multi_mac_execution.py, which runs a plan in waves over clients of the host.

    Shared libraries: this file (results, the state monad, tactics, list and integer
    lemmas, the hint database), Types (enumerations and records), PyFloat,
    OrderedDict, PySort, PyBytes, PyOrder (sorting by tuple keys), DependencyOrder
    (topological orders by rounds, of OperatorGraph and MultiMac), Json.

    ** What the theorems show

    - Accounting invariants over every reachable state: [ledger_accounts_exactly],
      [scheduler_safety], [queue_bounded], [arena_partition], [latent_accounting],
      [residency_bounded], [encoder_pipeline_safe], [semantic_handles_accounted].
    - Isolation and admission: [ledger_coexistence], [lease_isolation],
      [admission_gate_safe], [cache_coherent], [prefetch_releases_all].
    - Refinement of abstract specifications: [video_frames_in_order],
      [ring_is_history_tail], [ring_refines_queue], [encoder_caches_correct].
    - Functional behaviour on every branch: [dispatch_fail_closed],
      [execute_in_order], [dequeue_order], [delivery_accounted],
      [chunk_plan_correct], [registry_execute_correct], [graph_execute_correct],
      [adaptive_plan_correct], [fp8_codec_correct], [probe_gate_correct],
      [selection_correct].
    - Equivalence with a reference: [speculative_output_is_greedy],
      [fusion_preserves_meaning], [composed_decision_exact].
    - Termination, progress and bounds: [dequeue_returns], [speculative_returns],
      [encoder_pipeline_drains], [single_flight_correct], [recommendation_safe],
      [execution_plan_fits].
    - Round trips, errors and well-formedness of data: [packing_round_trip],
      [mx_decode_correct], [affine_tensor_well_formed].
    - Plans over several machines: [fabric_plan_correct] (a plan is feasible and no
      placement is cheaper at its step), [execution_faithful] (a report is the trace
      of a correct run), [planned_execution_completes] (the planner's plans run to
      the end).
    - Exclusion and settlement under interleaving: [admission_exclusive],
      [submissions_settled], [engine_serves_in_order] (requests are answered one at
      a time, in the order they were accepted).
    - Tensors that stay in memory: [admission_exact], [resident_store_exact],
      [numeric_stream_correct], [stream_delivers_source],
      [file_stream_is_conversion] (streaming two files gives the tensor that
      converting their contents in memory gives).
    - The protocol: [protocol_at_most_once], and over the store of tensors
      [worker_session_exact].
    - Caches of the model's runtime: [cache_contract_exact], [worker_cache_correct].
    - Media: [video_cache_correct], [batches_correct], [sampling_correct].
    - Conversions and routes: [layout_repack_correct], [requantized_well_formed],
      [nvfp4_conversion_preserves], [scale_index_blocks], [route_cheapest],
      [eligibility_fail_closed], [metadata_read_exactly].
    - Bounds and counts: [reevaluation_bounded], [predictor_counts].

    ** Loops and fuel

    Loops over collections are structural.  The others take fuel that the caller
    computes, and a lemma shows the fuel is never what ends them: the binary search
    of Context ([search_fuel], the logarithm of its range), the eviction loops of
    LatentMemory, StateCache and the caches (one entry leaves per round, fuel is the
    number of entries and one), [MemoryArena.zero_loop] (chunks of the range),
    [OperatorGraph.topo_loop] (a node leaves per round), [GraphFusion.fuse] (the
    operators left), [Speculative.spec_loop] (the code's own round limit),
    [VideoFrames.drain_loop] (the frames), [BitPacking.refill] and
    [NumericCodecs.chunks] (bits and elements left), [ExecutionPlanner.shrink] (the
    context, which loses a positive block per round), [VideoCache]'s eviction loops
    (the entries), [VideoSampling.fill] (the frames that remain),
    [MultiMac.topo_loop] and [MultiMacExecution.rounds_loop] (the pending stages),
    [NumericStream.zero_blocks] and [consume] (the bytes and the tiles that remain),
    [NumericFileStream.hash_loop] (a byte per round at least) and
    [ResidentStore.fresh_from] (the handles in use, since the draws are distinct).

    ** Not modelled

    - Files: JSON reports, profiles and probe caches ([KernelProbeCache], the load
      and save functions of device_benchmark.py, device_placement.py,
      speculative_execution.py), SQLite and artefact stores.  The exceptions are the
      cold tier of StateCache and NumericFileStream, whose file systems are parameters.
    - HTTP, command line, daemon and service glue (service.py, api.py, cli.py,
      daemon.py), which wire the components to processes and sockets.
    - Code whose substance is calls into Core ML, MLX, Metal, tokenizers or media
      libraries (backends, conversion and generation workers, encoders, decoders),
      and scripts and tools that qualify and measure releases.
    - audio_deadline_scheduler.py: its statistics use the built-in [sum] on floats,
      whose rounding differs between interpreter versions.
    - device_contention.py and scheduling_preference.py (measurements and preferences
      in files), the expert tier on disk (expert_ssd_tier.py, expert_execution.py),
      the vectorised numeric routines and the measured choice among them
      (numeric_vectorized.py, numeric_pipeline.py, numeric_promotion.py): file
      formats and timings around components that are modelled.
    - Of the modelled files: [checked_bytes] and the readers from dictionaries of
      numeric_precision.py, the sockets that carry the runtime protocol, and the
      process and session file of its worker. *)

From stdpp Require Export base tactics option list gmap strings relations pretty.
From Stdlib Require Export ZArith Lia.

#[global] Open Scope Z_scope.

(** ** Results and the state-and-exception monad

    A Python method either returns or raises, and what it wrote to its object
    before raising stays written.  [M E S A] is therefore a state transformer
    that returns the final state in both cases. *)

Inductive res (E A : Type) : Type :=
| Ok (a : A)
| Raise (e : E).
Arguments Ok {E A} a.
Arguments Raise {E A} e.

Definition M (E S A : Type) : Type := S → res E A * S.

Definition ret {E S A} (a : A) : M E S A := λ s, (Ok a, s).
Definition raise {E S A} (e : E) : M E S A := λ s, (Raise e, s).
Definition bind {E S A B} (m : M E S A) (k : A → M E S B) : M E S B :=
  λ s, match m s with
       | (Ok a, s') => k a s'
       | (Raise e, s') => (Raise e, s')
       end.
Definition get {E S} : M E S S := λ s, (Ok s, s).
Definition put {E S} (s : S) : M E S () := λ _, (Ok (), s).
Definition modify {E S} (f : S → S) : M E S () := λ s, (Ok (), f s).
(** [try: m except e: h e] *)
Definition catch {E S A} (m : M E S A) (h : E → M E S A) : M E S A :=
  λ s, match m s with
       | (Ok a, s') => (Ok a, s')
       | (Raise e, s') => h e s'
       end.
(** [try: m finally: f] *)
Definition finally {E S A} (m : M E S A) (f : M E S ()) : M E S A :=
  λ s, let '(r, s') := m s in
       match f s' with
       | (Ok _, s'') => (r, s'')
       | (Raise e, s'') => (Raise e, s'')
       end.
(** A method of a component object used by the object that owns it: the owner's
    state [S] holds the component's state [T]. *)
Definition zoom {E S T A} (proj : S → T) (inj : T → S → S) (m : M E T A) : M E S A :=
  λ s, let '(r, t) := m (proj s) in (r, inj t s).
Definition lift {E S A} (r : res E A) : M E S A := λ s, (r, s).

Declare Scope py_scope.
Delimit Scope py_scope with py.
Notation "'let!' x ':=' m 'in' k" := (bind m (λ x, k))
  (at level 10, x binder, m at level 100, k at level 200) : py_scope.
Notation "m ';;;' k" := (bind m (λ _, k))
  (at level 100, k at level 200, right associativity) : py_scope.
#[global] Open Scope py_scope.

(** The monad laws, up to pointwise equality of the transformers. *)
Lemma bind_ret_l {E S A B} (a : A) (k : A → M E S B) s : bind (ret a) k s = k a s.
Proof. reflexivity. Qed.

Lemma bind_ret_r {E S A} (m : M E S A) s : bind m ret s = m s.
Proof. unfold bind, ret. destruct (m s) as [[?|?] ?]; reflexivity. Qed.

Lemma bind_assoc {E S A B C} (m : M E S A) (f : A → M E S B) (g : B → M E S C) s :
  bind (bind m f) g s = bind m (λ a, bind (f a) g) s.
Proof. unfold bind. destruct (m s) as [[?|?] ?]; reflexivity. Qed.

(** A Python expression guarded by a raise: [if cond: raise e]. *)
Definition guard_raise {E S} (cond : bool) (e : E) : M E S () :=
  if cond then raise e else ret ().

(** [raise e] inside a pure constructor. *)
Definition check {E A} (ok : bool) (e : E) (a : A) : res E A :=
  if ok then Ok a else Raise e.

Definition is_ok {E A} (r : res E A) : bool :=
  match r with Ok _ => true | Raise _ => false end.

(** A [for] loop whose body may raise. *)
Fixpoint fold_res {E A S} (body : S → A → res E S) (l : list A) (s : S) : res E S :=
  match l with
  | [] => Ok s
  | a :: l' => match body s a with Ok s' => fold_res body l' s' | Raise e => Raise e end
  end.

Lemma fold_res_bind {E A B S} (body : S → B → res E S) (g : A → list B) l s :
  fold_res (λ s a, fold_res body (g a) s) l s = fold_res body (l ≫= g) s.
Proof.
  revert s. induction l as [|a l IH]; intros s; [done|]. cbn.
  enough (∀ l1 l2 s, fold_res body (l1 ++ l2) s =
    match fold_res body l1 s with Ok s' => fold_res body l2 s' | Raise e => Raise e end) as ->.
  { destruct (fold_res body (g a) s); [apply IH|done]. }
  clear. intros l1 l2. induction l1 as [|b l1 IH]; intros s; [done|]. cbn.
  destruct (body s b); [apply IH|done].
Qed.

Lemma fold_res_fmap {E A B S} (body : S → B → res E S) (g : A → B) l s :
  fold_res body (g <$> l) s = fold_res (λ s a, body s (g a)) l s.
Proof. revert s. induction l as [|a l IH]; intros s; [done|]. cbn. destruct (body s (g a)); [apply IH|done]. Qed.

(** A loop that only checks its elements. *)
Lemma fold_res_checks {E A} (f : A → res E ()) (l : list A) :
  fold_res (λ _, f) l () = Ok () ↔ ∀ a, a ∈ l → f a = Ok ().
Proof.
  induction l as [|a l IH]; cbn.
  - split; [|done]. intros _ a Ha. by apply elem_of_nil in Ha.
  - destruct (f a) as [[]|e] eqn:E0.
    + rewrite IH. split; [|intros H b Hb; apply H; by right].
      intros H b [->|Hb]%elem_of_cons; [done|by apply H].
    + split; [done|]. intros H. specialize (H a ltac:(left)). congruence.
Qed.

(** [[f(x) for x in l]] *)
Fixpoint map_res {E A B} (f : A → res E B) (l : list A) : res E (list B) :=
  match l with
  | [] => Ok []
  | x :: l' => match f x with
               | Ok y => match map_res f l' with Ok ys => Ok (y :: ys) | Raise e => Raise e end
               | Raise e => Raise e
               end
  end.

Lemma map_res_Ok {E A B} (f : A → res E B) l ys : map_res f l = Ok ys ↔ Forall2 (λ x y, f x = Ok y) l ys.
Proof.
  revert ys. induction l as [|x l IH]; intros ys; cbn.
  - split; [intros [= <-]; constructor|]. by inversion 1.
  - split.
    + destruct (f x) as [y|] eqn:Hfx; [|done]. destruct (map_res f l) as [zs|]; [|done]. intros [= <-].
      constructor; [done|]. by apply IH.
    + inversion 1 as [|? y ? zs Hy Hzs]; subst. rewrite Hy. apply IH in Hzs. by rewrite Hzs.
Qed.
Lemma map_res_impl {E A B} (f : A → res E B) (Q : A → B → Prop) l ys :
  map_res f l = Ok ys → (∀ x y, x ∈ l → f x = Ok y → Q x y) → Forall2 Q l ys.
Proof.
  intros Hm%map_res_Ok HQ. induction Hm as [|x y l ys Hy Hm IH]; constructor.
  - apply HQ; [left|done].
  - apply IH. intros u v Hu. apply HQ. by right.
Qed.
Lemma map_res_total {E A B} (f : A → res E B) l : (∀ x, x ∈ l → is_ok (f x) = true) → is_ok (map_res f l) = true.
Proof.
  induction l as [|x l IH]; intros Hl; cbn; [done|]. specialize (Hl x ltac:(left)) as Hx. destruct (f x); [|done].
  specialize (IH ltac:(intros; apply Hl; by right)). by destruct (map_res f l).
Qed.
Lemma map_res_Raise {E A B} (f : A → res E B) l e : map_res f l = Raise e → ∃ x, x ∈ l ∧ f x = Raise e.
Proof.
  induction l as [|x l IH]; cbn; [done|]. destruct (f x) as [y|e'] eqn:Hfx.
  - destruct (map_res f l); [done|]. intros [= ->]. destruct (IH eq_refl) as (z & Hz & He). exists z. by split; [right|].
  - intros [= ->]. exists x. by split; [left|].
Qed.

(** ** Strings *)

(** Python's [needle in hay] on strings. *)
Fixpoint str_contains (needle hay : string) : bool :=
  String.prefix needle hay ||
  match hay with
  | EmptyString => false
  | String _ h => str_contains needle h
  end.

Definition str_len (s : string) : Z := Z.of_nat (String.length s).
Definition str_eqb (a b : string) : bool := bool_decide (a = b).

(** Python's [sep.join(l)]. *)
Fixpoint str_join (sep : string) (l : list string) : string :=
  match l with
  | [] => ""
  | [s] => s
  | s :: l' => (s +:+ sep +:+ str_join sep l')%string
  end.

(** [s.lower()] on the ASCII letters. *)
Definition char_lower (c : Ascii.ascii) : Ascii.ascii :=
  let n := Ascii.nat_of_ascii c in
  if (Nat.leb 65 n && Nat.leb n 90)%bool then Ascii.ascii_of_nat (n + 32) else c.
Fixpoint str_lower (s : string) : string :=
  match s with
  | EmptyString => EmptyString
  | String c s' => String (char_lower c) (str_lower s')
  end.

(** [str(n)] of an integer. *)
Definition str_of_Z (n : Z) : string := pretty n.

(** The compact JSON text of strings and object members; the strings the program
    puts there are digests and need no escapes. *)
Definition quote : string := String (Ascii.ascii_of_nat 34) EmptyString.
Definition quoted (s : string) : string := (quote +:+ s +:+ quote)%string.
Definition member (name value : string) : string := (quoted name +:+ ":" +:+ value)%string.
Definition json_object (members : list string) : string :=
  ("{" +:+ str_join "," members +:+ "}")%string.
Definition json_array (items : list string) : string :=
  ("[" +:+ str_join "," items +:+ "]")%string.

(** ** Options as Python's [None] *)
Definition is_none {A} (o : option A) : bool := match o with None => true | _ => false end.
Definition is_some {A} (o : option A) : bool := negb (is_none o).

(** ** Integers *)
Definition Zlen {A} (l : list A) : Z := Z.of_nat (length l).
Definition Zsize `{Countable K} {A} (m : gmap K A) : Z := Z.of_nat (size m).
Definition Zsum (l : list Z) : Z := foldr Z.add 0 l.

Lemma Zlen_nonneg {A} (l : list A) : 0 <= Zlen l.
Proof. unfold Zlen. lia. Qed.

Lemma Zsum_app l1 l2 : Zsum (l1 ++ l2) = Zsum l1 + Zsum l2.
Proof. induction l1 as [|x l1 IH]; [reflexivity|]. simpl. rewrite IH. lia. Qed.

Lemma Zsum_perm l1 l2 : l1 ≡ₚ l2 → Zsum l1 = Zsum l2.
Proof. induction 1; simpl; lia. Qed.

Lemma Zsum_nonneg l : Forall (λ x, 0 <= x) l → 0 <= Zsum l.
Proof. induction 1; simpl; lia. Qed.

Lemma Zsum_fmap_cons {A} (f : A → Z) x l : Zsum (f <$> (x :: l)) = f x + Zsum (f <$> l).
Proof. reflexivity. Qed.

Lemma Zsum_map_le {A} (f g : A → Z) l :
  (∀ x, x ∈ l → f x <= g x) → Zsum (f <$> l) <= Zsum (g <$> l).
Proof.
  induction l as [|x l IH]; [done|]. intros H. rewrite !Zsum_fmap_cons.
  apply Z.add_le_mono; [apply H; left|apply IH; intros; apply H; by right].
Qed.

Lemma Zsum_fmap_nonneg {A} (f : A → Z) l : (∀ x, x ∈ l → 0 <= f x) → 0 <= Zsum (f <$> l).
Proof. intros H. apply Zsum_nonneg, Forall_fmap, Forall_forall. exact H. Qed.

Lemma Zsum_elem_le {A} (f : A → Z) l x :
  x ∈ l → (∀ y, y ∈ l → 0 <= f y) → f x <= Zsum (f <$> l).
Proof.
  induction l as [|y l IH]; [set_solver|]. intros Hx Hpos. rewrite Zsum_fmap_cons.
  pose proof (Hpos y ltac:(left)).
  pose proof (Zsum_fmap_nonneg f l ltac:(intros; apply Hpos; by right)).
  apply elem_of_cons in Hx as [->|Hx]; [lia|].
  pose proof (IH Hx ltac:(intros; apply Hpos; by right)). lia.
Qed.

(** ** Sums over dictionaries *)

(** [sum(f(v) for v in d.values())] *)
Definition map_sum `{Countable K} {A} (f : A → Z) (m : gmap K A) : Z :=
  Zsum ((λ p, f p.2) <$> map_to_list m).

Section map_sum.
Context `{Countable K} {A : Type} (f : A → Z).
Implicit Types (m : gmap K A).

Lemma map_sum_empty : map_sum f (∅ : gmap K A) = 0.
Proof. unfold map_sum. by rewrite map_to_list_empty. Qed.

Lemma map_sum_insert m k a :
  m !! k = None → map_sum f (<[k:=a]> m) = f a + map_sum f m.
Proof.
  intros Hk. unfold map_sum.
  rewrite (Zsum_perm _ ((λ p, f p.2) <$> ((k, a) :: map_to_list m))); [done|].
  by apply fmap_Permutation, map_to_list_insert.
Qed.

Lemma map_sum_delete m k a :
  m !! k = Some a → map_sum f (delete k m) = map_sum f m - f a.
Proof.
  intros Hk. rewrite <-(insert_id m k a Hk) at 2.
  rewrite <-insert_delete_eq, map_sum_insert by apply lookup_delete_eq. lia.
Qed.

Lemma map_sum_replace m k a b :
  m !! k = Some a → map_sum f (<[k:=b]> m) = map_sum f m - f a + f b.
Proof.
  intros Hk. rewrite <-insert_delete_eq, map_sum_insert by apply lookup_delete_eq.
  rewrite (map_sum_delete m k a Hk). lia.
Qed.

Lemma map_sum_elem m k a :
  m !! k = Some a → (∀ k' b, m !! k' = Some b → 0 <= f b) → f a <= map_sum f m.
Proof.
  intros Hk Hpos. unfold map_sum.
  apply (Zsum_elem_le (λ p : K * A, f p.2) _ (k, a)).
  - by apply elem_of_map_to_list.
  - intros [k' b] Hb%elem_of_map_to_list. eauto.
Qed.

Lemma map_sum_two m k1 k2 a b :
  m !! k1 = Some a → m !! k2 = Some b → k1 ≠ k2 → (∀ k' c, m !! k' = Some c → 0 <= f c) →
  f a + f b <= map_sum f m.
Proof.
  intros Ha Hb Hne Hpos. pose proof (map_sum_delete m k1 a Ha) as Hd.
  assert (delete k1 m !! k2 = Some b) as Hb' by (by rewrite lookup_delete_ne).
  pose proof (map_sum_elem (delete k1 m) k2 b Hb'
    ltac:(intros k' c Hc; apply (Hpos k'); by apply lookup_delete_Some in Hc as [_ ?])).
  lia.
Qed.

Lemma map_sum_nonneg m : (∀ k a, m !! k = Some a → 0 <= f a) → 0 <= map_sum f m.
Proof.
  intros Hpos. apply Zsum_nonneg, Forall_fmap, Forall_forall.
  intros [k a] Ha%elem_of_map_to_list. cbn. eauto.
Qed.
Lemma map_sum_list_to_map (l : list (K * A)) :
  NoDup l.*1 → map_sum f (list_to_map l) = Zsum ((λ p, f p.2) <$> l).
Proof.
  induction l as [|[k a] l IH]; cbn; [intros _; apply map_sum_empty|].
  intros [Hk Hn]%NoDup_cons. rewrite map_sum_insert by (by apply not_elem_of_list_to_map_1).
  by rewrite IH.
Qed.
End map_sum.
Lemma map_sum_le `{Countable K} {A} (f g : A → Z) (m : gmap K A) :
  (∀ k a, m !! k = Some a → f a <= g a) → map_sum f m <= map_sum g m.
Proof.
  induction m as [|k a m Hk IH] using map_ind; intros Hle; [by rewrite !map_sum_empty|].
  rewrite !map_sum_insert by done. pose proof (Hle k a (lookup_insert_eq _ _ _)).
  assert (map_sum f m <= map_sum g m); [|lia]. apply IH. intros k' b Hb. apply (Hle k').
  rewrite lookup_insert_ne; [done|]. congruence.
Qed.

(** Every value of a dictionary satisfies [P]. *)
Lemma map_Forall_insert_fresh `{Countable K} {A} (P : K → A → Prop) (m : gmap K A) k a :
  map_Forall P m → P k a → map_Forall P (<[k:=a]> m).
Proof. intros Hm Ha. by apply map_Forall_insert_2. Qed.

(** ** Transition systems *)

Section transition.
Context {S : Type} (step : S → S → Prop).

(** Induction over the runs of a transition system. *)
Lemma rtc_invariant (P : S → Prop) s s' :
  (∀ a b, P a → step a b → P b) → P s → rtc step s s' → P s'.
Proof. intros Hstep Hs Hr. induction Hr; eauto. Qed.
End transition.

(** ** Automation *)

(** Turn the boolean tests of the translated conditions into propositions. *)
Ltac breflect :=
  repeat match goal with
  | H : _ && _ = true |- _ => apply andb_prop in H as [? ?]
  | H : _ || _ = false |- _ => apply orb_false_elim in H as [? ?]
  | H : negb _ = true |- _ => apply negb_true_iff in H
  | H : negb _ = false |- _ => apply negb_false_iff in H
  | H : (_ <? _) = true |- _ => apply Z.ltb_lt in H
  | H : (_ <? _) = false |- _ => apply Z.ltb_ge in H
  | H : (_ <=? _) = true |- _ => apply Z.leb_le in H
  | H : (_ <=? _) = false |- _ => apply Z.leb_gt in H
  | H : (_ >? _) = true |- _ => apply Z.gtb_lt in H
  | H : (_ >? _) = false |- _ => rewrite Z.gtb_ltb in H; apply Z.ltb_ge in H
  | H : (_ >=? _) = true |- _ => apply Z.geb_le in H
  | H : (_ >=? _) = false |- _ => rewrite Z.geb_leb in H; apply Z.leb_gt in H
  | H : (_ =? _) = true |- _ => apply Z.eqb_eq in H
  | H : (_ =? _) = false |- _ => apply Z.eqb_neq in H
  | H : bool_decide _ = true |- _ => apply bool_decide_eq_true in H
  | H : bool_decide _ = false |- _ => apply bool_decide_eq_false in H
  end.

(** Case analysis on the tests and matches of a hypothesis that records the run
    of a translated method, keeping the equations. *)
Ltac run_cases H :=
  repeat match type of H with
  | context [match ?x with _ => _ end] => destruct x eqn:?; simplify_eq/=
  end.

(** Case analysis on the tests and matches of the goal. *)
Ltac goal_cases :=
  repeat match goal with
  | |- context [match ?x with _ => _ end] => destruct x eqn:?; simplify_eq/=
  end.

Lemma Zsize_insert_fresh `{Countable K} {A} (m : gmap K A) k a :
  m !! k = None → Zsize (<[k:=a]> m) = Zsize m + 1.
Proof. intros Hk. unfold Zsize. rewrite map_size_insert_None by done. lia. Qed.

Lemma Zsize_delete `{Countable K} {A} (m : gmap K A) k a :
  m !! k = Some a → Zsize (delete k m) = Zsize m - 1.
Proof.
  intros Hk. rewrite <-(insert_delete_id m k a Hk) at 2.
  rewrite Zsize_insert_fresh by apply lookup_delete_eq. lia.
Qed.

Lemma Zsize_nonneg `{Countable K} {A} (m : gmap K A) : 0 <= Zsize m.
Proof. unfold Zsize. lia. Qed.

Lemma Zsize_empty_iff `{Countable K} {A} (m : gmap K A) : Zsize m = 0 ↔ m = ∅.
Proof. unfold Zsize. rewrite <-map_size_empty_iff. lia. Qed.

Create HintDb pydb.
#[export] Hint Resolve Zlen_nonneg map_sum_nonneg map_Forall_insert_fresh : pydb.
Create Rewrite HintDb pyrw.
#[export] Hint Rewrite @map_sum_empty : pyrw.
