(* ===== verification/DependencyOrder.v ===== *)
(** * Orders in which dependencies come first

    The graphs of the program are lists of nodes that name the nodes they depend on.
    The operator graph dispatcher, the Multi-Mac planner and the Multi-Mac executor
    order them in rounds; the facts about such rounds that do not depend on how a
    round is computed are proved here once. *)

From S2P Require Import Prelude.

Module DependencyOrder.

Section order.
Context {A : Type} (name : A → string) (deps : A → list string).
Implicit Types (nodes ordered : list A).

(** [x] depends on [y]. *)
Definition edge nodes (x y : string) : Prop := ∃ n, n ∈ nodes ∧ name n = x ∧ y ∈ deps n.
Definition acyclic nodes : Prop := ∀ x, ¬ tc (edge nodes) x x.
(** Every dependency is a node. *)
Definition closed nodes : Prop := ∀ n d, n ∈ nodes → d ∈ deps n → d ∈ name <$> nodes.
(** Dependencies come earlier in the list. *)
Definition deps_before ordered : Prop :=
  ∀ pre n post, ordered = pre ++ n :: post → ∀ d, d ∈ deps n → d ∈ name <$> pre.

(** A nonempty set in which every node depends on another of the set has a cycle. *)
Lemma stuck_cyclic nodes (C : list string) :
  closed nodes → C ≠ [] → (∀ x, x ∈ C → ∃ y, edge nodes x y ∧ y ∈ C) → ¬ acyclic nodes.
Proof.
  intros Hdeps Hne Hnext Hac. destruct C as [|x C]; [done|]. clear Hne.
  assert (Hsn : sn (edge nodes) x).
  { apply tc_finite_sn; [intros y Hy; by apply (Hac y)|]. exists (name <$> nodes). intros y Hy.
    assert (Hz : ∃ z, edge nodes z y) by (clear -Hy; induction Hy; eauto).
    destruct Hz as (z & n & Hn & _ & Hd). by eapply Hdeps. }
  assert (Hx : x ∈ x :: C) by left. revert Hx Hnext. generalize (x :: C). clear -Hsn.
  intros C Hx Hnext. revert Hx. induction Hsn as [y _ IH]. intros Hy.
  destruct (Hnext y Hy) as (z & Hyz & Hz). by apply (IH z).
Qed.

(** In a list where dependencies come first, edges point backwards. *)
Lemma deps_before_acyclic nodes ordered :
  ordered ≡ₚ nodes → NoDup (name <$> nodes) → deps_before ordered → acyclic nodes.
Proof.
  intros Hp Hnd Hb x Hx.
  assert (Hedge : ∀ x y, edge nodes x y → ∀ i j, (name <$> ordered) !! i = Some x →
                                           (name <$> ordered) !! j = Some y → (j < i)%nat).
  { intros a b (n & Hn & <- & Hd) i j Hi Hj. rewrite <-Hp in Hnd.
    rewrite list_lookup_fmap in Hi. destruct (ordered !! i) as [m|] eqn:Em; [|done]. cbn in Hi.
    rewrite <-Hp in Hn. apply list_elem_of_lookup in Hn as [k Hk].
    assert (k = i) as ->.
    { eapply NoDup_lookup; [exact Hnd| |]; rewrite list_lookup_fmap; [by rewrite Hk|by rewrite Em]. }
    rewrite Em in Hk. simplify_eq. apply list_elem_of_split_length in Em as (pre & post & Hsplit & Hlen).
    pose proof (Hb pre n post Hsplit b Hd) as Hin. apply list_elem_of_lookup in Hin as [k' Hk'].
    assert (k' = j) as <-.
    { eapply NoDup_lookup; [exact Hnd| |done]. rewrite Hsplit, fmap_app. by apply lookup_app_l_Some. }
    apply lookup_lt_Some in Hk'. rewrite length_fmap in Hk'. lia. }
  assert (Hpos : ∀ x y, edge nodes x y → ∃ i, (name <$> ordered) !! i = Some x).
  { intros a b (n & Hn & <- & _). apply list_elem_of_lookup. rewrite Hp. by apply (list_elem_of_fmap_2 name). }
  assert (Htc : ∀ x y, tc (edge nodes) x y → ∀ i j, (name <$> ordered) !! i = Some x →
                                         (name <$> ordered) !! j = Some y → (j < i)%nat).
  { intros a b Hab. induction Hab as [a b Hab|a b d Hab Hbd IH]; intros i j Hi Hj; [by eapply Hedge|].
    assert (∃ k, (name <$> ordered) !! k = Some b) as [k Hk] by (inversion Hbd; subst; by eapply Hpos).
    pose proof (Hedge _ _ Hab i k Hi Hk). pose proof (IH k j Hk Hj). lia. }
  assert (∃ i, (name <$> ordered) !! i = Some x) as [i Hi] by (inversion Hx; subst; by eapply Hpos).
  pose proof (Htc x x Hx i i Hi Hi). lia.
Qed.

(** Nodes whose dependencies are all ordered may follow in any order. *)
Lemma deps_before_app ordered added :
  deps_before ordered → (∀ n d, n ∈ added → d ∈ deps n → d ∈ name <$> ordered) → deps_before (ordered ++ added).
Proof.
  intros Hb Ha pre n post Heq d Hd. apply app_eq_inv in Heq as [(k & -> & Heq)|(k & -> & ->)].
  - destruct k as [|m k]; cbn in Heq; [|injection Heq as -> ->; by eapply Hb].
    rewrite app_nil_r in *. destruct added as [|m added]; [done|]. injection Heq as <- ->.
    by apply (Ha n); [left|].
  - rewrite fmap_app. apply elem_of_app. left. apply (Ha n); [|done]. apply elem_of_app. right. left.
Qed.

Lemma deps_before_prefix pre post : deps_before (pre ++ post) → deps_before pre.
Proof. intros Hb p n q -> d Hd. eapply (Hb p n (q ++ post)); [|done]. by rewrite <-app_assoc. Qed.
Lemma deps_before_elem ordered n d : deps_before ordered → n ∈ ordered → d ∈ deps n → d ∈ name <$> ordered.
Proof.
  intros Hb Hn Hd. apply list_elem_of_split in Hn as (pre & post & ->).
  rewrite fmap_app. apply elem_of_app. left. by eapply Hb.
Qed.

(** Nodes with different names are determined by them. *)
Lemma name_inj nodes n m : NoDup (name <$> nodes) → n ∈ nodes → m ∈ nodes → name n = name m → n = m.
Proof.
  intros Hnd [i Hi]%list_elem_of_lookup [j Hj]%list_elem_of_lookup Heq.
  assert (i = j) as ->; [|by simplify_eq].
  eapply NoDup_lookup; [exact Hnd| |]; rewrite list_lookup_fmap; [by rewrite Hi|rewrite Hj; cbn; by rewrite Heq].
Qed.
Lemma names_permutation nodes ordered :
  NoDup (name <$> nodes) → name <$> ordered ≡ₚ name <$> nodes → (∀ n, n ∈ ordered → n ∈ nodes) → ordered ≡ₚ nodes.
Proof.
  intros Hnd Hp Hsub. assert (Hnd' : NoDup (name <$> ordered)) by by rewrite Hp.
  apply NoDup_Permutation; [by eapply NoDup_fmap_1|by eapply NoDup_fmap_1|]. intros n. split; [apply Hsub|].
  intros Hn. assert (Hi : name n ∈ name <$> ordered) by (rewrite Hp; by apply (list_elem_of_fmap_2 name)).
  apply list_elem_of_fmap in Hi as (m & Heq & Hm). by rewrite (name_inj nodes n m); [|done|done|apply Hsub|].
Qed.

(** What holds between rounds: the names not yet ordered are pending. *)
Record rounds nodes ordered (pending : list string) : Prop := {
  rounds_names : (name <$> ordered) ++ pending ≡ₚ name <$> nodes;
  rounds_sub : ∀ n, n ∈ ordered → n ∈ nodes;
  rounds_before : deps_before ordered;
}.
Lemma rounds_init nodes : rounds nodes [] (name <$> nodes).
Proof.
  split; [done|intros n Hn; by apply elem_of_nil in Hn|]. intros pre n post Heq. by destruct pre.
Qed.
Lemma rounds_step nodes ordered pending added pending' :
  rounds nodes ordered pending → (∀ n, n ∈ added → n ∈ nodes) →
  (name <$> added) ++ pending' ≡ₚ pending →
  (∀ n d, n ∈ added → d ∈ deps n → d ∈ name <$> ordered) → rounds nodes (ordered ++ added) pending'.
Proof.
  intros [H1 H2 H3] Hsub Hp Hd. split.
  - by rewrite fmap_app, <-app_assoc, Hp.
  - intros n [?|?]%elem_of_app; auto.
  - by apply deps_before_app.
Qed.
Lemma rounds_done nodes ordered : NoDup (name <$> nodes) → rounds nodes ordered [] → ordered ≡ₚ nodes.
Proof. intros Hnd [H1 H2 _]. rewrite app_nil_r in H1. by apply names_permutation. Qed.
Lemma rounds_ordered nodes ordered pending d :
  rounds nodes ordered pending → d ∈ name <$> nodes → d ∉ pending → d ∈ name <$> ordered.
Proof. intros [H1 _ _]. rewrite <-H1, elem_of_app. tauto. Qed.
Lemma rounds_pending_NoDup nodes ordered pending : NoDup (name <$> nodes) → rounds nodes ordered pending → NoDup pending.
Proof. intros Hnd [H1 _ _]. rewrite <-H1 in Hnd. by apply NoDup_app in Hnd as (_ & _ & ?). Qed.
Lemma rounds_disjoint nodes ordered pending d :
  NoDup (name <$> nodes) → rounds nodes ordered pending → d ∈ name <$> ordered → d ∉ pending.
Proof. intros Hnd [H1 _ _]. rewrite <-H1 in Hnd. apply NoDup_app in Hnd as (_ & H & _). apply H. Qed.

(** A round with nothing to add, while names are pending, shows a cycle. *)
Lemma rounds_stuck nodes ordered pending :
  closed nodes → rounds nodes ordered pending → pending ≠ [] →
  (∀ n, n ∈ nodes → name n ∈ pending → ∃ d, d ∈ deps n ∧ d ∉ name <$> ordered) → ¬ acyclic nodes.
Proof.
  intros Hc Hr Hne Hopen. apply (stuck_cyclic nodes pending Hc Hne). intros x Hx.
  assert (Hin : x ∈ name <$> nodes) by (rewrite <-(rounds_names _ _ _ Hr); apply elem_of_app; by right).
  apply list_elem_of_fmap in Hin as (n & -> & Hn). destruct (Hopen n Hn Hx) as (d & Hd & Hno).
  exists d. split; [by exists n|]. pose proof (Hc n d Hn Hd) as Hdn.
  rewrite <-(rounds_names _ _ _ Hr), elem_of_app in Hdn. by destruct Hdn.
Qed.

End order.
End DependencyOrder.
