(* ===== verification/Types.v ===== *)
(** * Shared value types (types.py, execution.py, operator_dispatch.py)

    The enumerations of the runtime with their wire values, the exception
    classes the components raise, and the plain records the other files pass
    around.  The static types of the source's annotations are the types of the
    model, so [isinstance] and [type(...) is not int] tests that only reject
    ill-typed arguments have no counterpart. *)

From Stdlib Require Floats.SpecFloat.
From S2P Require Import Prelude.
#[local] Open Scope Z_scope.

(** ** Enumerations *)

Inductive MemoryPressure := MP_NORMAL | MP_WARNING | MP_CRITICAL | MP_UNKNOWN.
Inductive ThermalState := TS_NOMINAL | TS_FAIR | TS_SERIOUS | TS_CRITICAL | TS_UNKNOWN.
Inductive PowerMode := PM_AUTOMATIC | PM_LOW_POWER | PM_HIGH_POWER | PM_UNKNOWN.
Inductive Priority := REALTIME | INTERACTIVE | NORMAL | BACKGROUND.
Inductive Backend := B_CPU | B_MLX_GPU | B_METAL | B_COREML.
Inductive WorkloadPhase :=
| PREFILL | DECODE | SAMPLING | VISION_ENCODER | AUDIO_ENCODER | EMBEDDING
| CLASSIFIER | DRAFT | VERIFY | AUXILIARY.
Inductive ExecutionBackend := VLLM_METAL | NATIVE_MLX | NATIVE_METAL | COREML_DRAFT | CPU.

#[export] Instance MemoryPressure_eq_dec : EqDecision MemoryPressure.
Proof. solve_decision. Defined.
#[export] Instance ThermalState_eq_dec : EqDecision ThermalState.
Proof. solve_decision. Defined.
#[export] Instance PowerMode_eq_dec : EqDecision PowerMode.
Proof. solve_decision. Defined.
#[export] Instance Priority_eq_dec : EqDecision Priority.
Proof. solve_decision. Defined.
#[export] Instance Backend_eq_dec : EqDecision Backend.
Proof. solve_decision. Defined.
#[export] Instance WorkloadPhase_eq_dec : EqDecision WorkloadPhase.
Proof. solve_decision. Defined.
#[export] Instance ExecutionBackend_eq_dec : EqDecision ExecutionBackend.
Proof. solve_decision. Defined.

Definition MemoryPressure_value (p : MemoryPressure) : string :=
  match p with
  | MP_NORMAL => "normal" | MP_WARNING => "warning"
  | MP_CRITICAL => "critical" | MP_UNKNOWN => "unknown"
  end.

Definition MemoryPressure_members : list MemoryPressure :=
  [MP_NORMAL; MP_WARNING; MP_CRITICAL; MP_UNKNOWN].
(** [MemoryPressure(value)] *)
Definition MemoryPressure_of_value (s : string) : option MemoryPressure :=
  List.find (λ p, bool_decide (MemoryPressure_value p = s)) MemoryPressure_members.

Lemma MemoryPressure_round_trip p : MemoryPressure_of_value (MemoryPressure_value p) = Some p.
Proof. by destruct p. Qed.

Definition ThermalState_value (t : ThermalState) : string :=
  match t with
  | TS_NOMINAL => "nominal" | TS_FAIR => "fair" | TS_SERIOUS => "serious"
  | TS_CRITICAL => "critical" | TS_UNKNOWN => "unknown"
  end.

Definition PowerMode_value (p : PowerMode) : string :=
  match p with
  | PM_AUTOMATIC => "automatic" | PM_LOW_POWER => "low_power"
  | PM_HIGH_POWER => "high_power" | PM_UNKNOWN => "unknown"
  end.

Definition Priority_value (p : Priority) : string :=
  match p with
  | REALTIME => "realtime" | INTERACTIVE => "interactive"
  | NORMAL => "normal" | BACKGROUND => "background"
  end.
Definition Priority_members : list Priority := [REALTIME; INTERACTIVE; NORMAL; BACKGROUND].

Definition WorkloadPhase_members : list WorkloadPhase :=
  [PREFILL; DECODE; SAMPLING; VISION_ENCODER; AUDIO_ENCODER; EMBEDDING;
   CLASSIFIER; DRAFT; VERIFY; AUXILIARY].
Definition WorkloadPhase_value (p : WorkloadPhase) : string :=
  match p with
  | PREFILL => "prefill" | DECODE => "decode" | SAMPLING => "sampling"
  | VISION_ENCODER => "vision_encoder" | AUDIO_ENCODER => "audio_encoder"
  | EMBEDDING => "embedding" | CLASSIFIER => "classifier"
  | DRAFT => "draft" | VERIFY => "verify" | AUXILIARY => "auxiliary"
  end.
(** [WorkloadPhase(value)]: the member with that value, or ValueError. *)
Definition WorkloadPhase_of_value (s : string) : option WorkloadPhase :=
  List.find (λ p, bool_decide (WorkloadPhase_value p = s)) WorkloadPhase_members.

Definition ExecutionBackend_members : list ExecutionBackend :=
  [VLLM_METAL; NATIVE_MLX; NATIVE_METAL; COREML_DRAFT; CPU].
Definition ExecutionBackend_value (b : ExecutionBackend) : string :=
  match b with
  | VLLM_METAL => "vllm_metal" | NATIVE_MLX => "native_mlx"
  | NATIVE_METAL => "native_metal" | COREML_DRAFT => "coreml_draft" | CPU => "cpu"
  end.

(** The backends are countable through their position in the enumeration, so they
    can be the keys of finite maps and the elements of finite sets. *)
Definition ExecutionBackend_index (b : ExecutionBackend) : positive :=
  match b with
  | VLLM_METAL => 1 | NATIVE_MLX => 2 | NATIVE_METAL => 3 | COREML_DRAFT => 4 | CPU => 5
  end%positive.
Definition ExecutionBackend_of_index (p : positive) : option ExecutionBackend :=
  match p with
  | 1 => Some VLLM_METAL | 2 => Some NATIVE_MLX | 3 => Some NATIVE_METAL
  | 4 => Some COREML_DRAFT | 5 => Some CPU | _ => None
  end%positive.
Lemma ExecutionBackend_of_to_index b :
  ExecutionBackend_of_index (ExecutionBackend_index b) = Some b.
Proof. by destruct b. Qed.

#[export] Instance ExecutionBackend_countable : Countable ExecutionBackend :=
  {| encode := ExecutionBackend_index; decode := ExecutionBackend_of_index;
     decode_encode := ExecutionBackend_of_to_index |}.

Lemma WorkloadPhase_of_to_value p : WorkloadPhase_of_value (WorkloadPhase_value p) = Some p.
Proof. by destruct p. Qed.

Lemma ExecutionBackend_value_inj b1 b2 :
  ExecutionBackend_value b1 = ExecutionBackend_value b2 → b1 = b2.
Proof. destruct b1, b2; done. Qed.

(** ** Exceptions *)

(** One backend attempt of an operator execution (operator_dispatch.py). *)
Record BackendExecutionAttempt := {
  att_backend : ExecutionBackend;
  att_status : string;
  att_error_code : option string;
}.

(** The places and kinds of injected faults (fault_injection.py). *)
Inductive FaultPoint := BACKEND_EXECUTE | BACKEND_STOP.
Inductive FaultAction := RETRYABLE | FATAL | TIMEOUT.
#[export] Instance FaultPoint_eq_dec : EqDecision FaultPoint.
Proof. solve_decision. Defined.
#[export] Instance FaultAction_eq_dec : EqDecision FaultAction.
Proof. solve_decision. Defined.

(** The exception classes, with the arguments of their constructors. *)
Inductive exn :=
| ValueError (msg : string)
| RuntimeError (msg : string)
| KeyError (msg : string)
| TypeError (msg : string)
| IndexError (msg : string)
| AssertionError
| TimeoutError (msg : string)
| MemoryCapacityError (msg : string)
| ExecutionPlanAdmissionError (msg : string)
| MaintenanceInProgressError (msg : string)
| AdaptiveScheduleCapacityError (msg : string)
| ScheduleQueueFullError (msg : string)
| DeviceResourceCapacityError (msg : string)
| BackendExecutionError (error_code : string) (retryable : bool)
| OperatorFallbackExhaustedError (attempts : list BackendExecutionAttempt)
| QueuedAdmissionError (token : string) (error : exn)
| SubscriptionLimitError (msg : string)
| StopIteration
| OverflowError
| ZeroDivisionError
| MemoryPressureAdmissionError (reason : string)
| OSError (msg : string)
| InferenceRequestCancelled (msg : string)
| InjectedFault (point : FaultPoint) (action : FaultAction)
| BackendEngineFailure (code : string) (retryable : bool)
| MemoryError (msg : string)
| NumericStreamingCancelled (msg : string)
| InferenceEngineBusy (msg : string)
| ModelInspectionError (msg : string)
| BufferError (msg : string).

(** [type(error).__name__] *)
Definition exn_name (e : exn) : string :=
  match e with
  | ValueError _ => "ValueError" | RuntimeError _ => "RuntimeError" | KeyError _ => "KeyError"
  | TypeError _ => "TypeError" | IndexError _ => "IndexError" | AssertionError => "AssertionError"
  | TimeoutError _ => "TimeoutError" | MemoryCapacityError _ => "MemoryCapacityError"
  | ExecutionPlanAdmissionError _ => "ExecutionPlanAdmissionError"
  | MaintenanceInProgressError _ => "MaintenanceInProgressError"
  | AdaptiveScheduleCapacityError _ => "AdaptiveScheduleCapacityError"
  | ScheduleQueueFullError _ => "ScheduleQueueFullError"
  | DeviceResourceCapacityError _ => "DeviceResourceCapacityError"
  | BackendExecutionError _ _ => "BackendExecutionError"
  | OperatorFallbackExhaustedError _ => "OperatorFallbackExhaustedError"
  | QueuedAdmissionError _ _ => "QueuedAdmissionError"
  | SubscriptionLimitError _ => "SubscriptionLimitError" | StopIteration => "StopIteration"
  | OverflowError => "OverflowError" | ZeroDivisionError => "ZeroDivisionError"
  | MemoryPressureAdmissionError _ => "MemoryPressureAdmissionError" | OSError _ => "OSError"
  | InferenceRequestCancelled _ => "InferenceRequestCancelled"
  | InjectedFault _ _ => "InjectedFault" | BackendEngineFailure _ _ => "BackendEngineFailure"
  | MemoryError _ => "MemoryError" | NumericStreamingCancelled _ => "NumericStreamingCancelled"
  | InferenceEngineBusy _ => "InferenceEngineBusy"
  | ModelInspectionError _ => "ModelInspectionError" | BufferError _ => "BufferError"
  end.

(** Methods of a component whose state is [S]. *)
Abbreviation Py S A := (M exn S A).

(** ** Memory description *)

Record MemoryInfo := {
  total_bytes : Z;
  available_bytes : Z;
  process_resident_bytes : Z;
  mem_pressure : MemoryPressure;
  mem_source : string;
}.

(** [MemoryInfo.__post_init__] *)
Definition MemoryInfo_check (m : MemoryInfo) : res exn () :=
  if total_bytes m <=? 0 then Raise (ValueError "total_bytes must be positive")
  else if negb ((0 <=? available_bytes m) && (available_bytes m <=? total_bytes m)) then
    Raise (ValueError "available_bytes must be between zero and total_bytes")
  else Ok ().

Record HardwareInfo := {
  platform : string;
  architecture : string;
  soc : string;
  physical_cpu_count : Z;
  logical_cpu_count : Z;
  gpu_core_count : option Z;
  hw_memory : MemoryInfo;
  is_apple_silicon : bool;
  os_version : string;
  thermal_state : ThermalState;
  power_mode : PowerMode;
}.

(** ** Plans (execution.py, device_placement.py) *)

Record PhaseExecutionPlan := {
  ph_phase : WorkloadPhase;
  ph_backend : ExecutionBackend;
  ph_batch_size : Z;
  ph_state_precision : string;
}.

Record AppleExecutionPlan := {
  plan_schema_version : Z;
  plan_id : string;
  plan_model_id : string;
  plan_hardware_fingerprint : string;
  context_tokens : Z;
  memory_ceiling_bytes : Z;
  estimated_peak_bytes : Z;
  prefill : PhaseExecutionPlan;
  decode : PhaseExecutionPlan;
  plan_fallback_chain : list ExecutionBackend;
  decision_reasons : list string;
  dry_run : bool;
}.

Record DevicePlacement := {
  pl_operator : string;
  pl_phase : WorkloadPhase;
  pl_precision : string;
  pl_dimensions : list Z;
  pl_batch_size : Z;
  pl_backend : ExecutionBackend;
  pl_baseline_backend : ExecutionBackend;
  pl_capability_id : string;
  pl_benchmark_report_id : string;
  pl_improvement_ratio : SpecFloat.spec_float;
}.

Record DevicePlacementPlan := {
  dp_hardware_fingerprint : string;
  dp_environment_fingerprint : string;
  placements : list DevicePlacement;
  created_at_unix_seconds : Z;
  valid_until_unix_seconds : Z;
  dp_plan_id : string;
  dp_schema_version : Z;
}.
