(* ===== verification/PyFloat.v ===== *)
(** * Python floats

    IEEE 754 binary64 as Rocq's executable specification of it: conversion and
    true division of integers with correct rounding, the arithmetic operators
    and comparisons, and truncation by [int]. *)

From S2P Require Import Prelude Types.
From Stdlib Require Import Floats.SpecFloat.

Module PyFloat.

Abbreviation float := spec_float.
Definition prec : Z := 53.
Definition emax : Z := 1024.

(** [float(n)] *)
Definition of_Z (n : Z) : float := binary_normalize prec emax n 0 false.

(** An integer as an unrounded operand. *)
Definition exact (n : Z) : float :=
  match n with
  | Z0 => S754_zero false
  | Zpos p => S754_finite false p 0
  | Zneg p => S754_finite true p 0
  end.

(** [m / n] on integers: the quotient rounded once. *)
Definition int_div (m n : Z) : float := SFdiv prec emax (exact m) (exact n).

Definition fadd : float → float → float := SFadd prec emax.
Definition fsub : float → float → float := SFsub prec emax.
Definition fmul : float → float → float := SFmul prec emax.
Definition fdiv : float → float → float := SFdiv prec emax.
Definition fltb : float → float → bool := SFltb.
Definition fleb : float → float → bool := SFleb.
Definition feqb : float → float → bool := SFeqb.

(** [max(a, b)]: the second only when it is greater. *)
Definition fmax (a b : float) : float := if fltb a b then b else a.

(** [math.isfinite] *)
Definition is_finite (f : float) : bool :=
  match f with S754_zero _ | S754_finite _ _ _ => true | _ => false end.

(** [int(f)] of a finite float: truncation toward zero. *)
Definition trunc (f : float) : Z :=
  match f with
  | S754_finite s m e =>
      let a := if 0 <=? e then Z.pos m * 2 ^ e else Z.pos m / 2 ^ (- e) in
      if s then - a else a
  | _ => 0
  end.

(** [a / d] rounded to the nearest integer, ties to even. *)
Definition round_div (a d : Z) : Z :=
  let q := a / d in
  let r := a mod d in
  if (2 * r <? d) || ((2 * r =? d) && Z.even q) then q else q + 1.

(** A literal with its binary significand and exponent. *)
Definition literal (m : positive) (e : Z) : float := S754_finite false m e.
Definition zero : float := S754_zero false.

(** [math.ldexp]; the results in the code are all normal or exact. *)
Definition ldexp (f : float) (n : Z) : float :=
  match f with
  | S754_finite s m e => binary_normalize prec emax (if s then Z.neg m else Z.pos m) (e + n) s
  | _ => f
  end.
Definition fabs (f : float) : float := SFabs f.
Definition fneg (f : float) : float := SFopp f.
Definition sign_bit (f : float) : bool :=
  match f with S754_zero s | S754_infinity s | S754_finite s _ _ => s | S754_nan => false end.
(** [x / y] of two floats. *)
Definition float_div (x y : float) : res exn float :=
  match y with S754_zero _ => Raise ZeroDivisionError | _ => Ok (fdiv x y) end.
(** [round(x)]: to the nearest integer, ties to even. *)
Definition py_round (f : float) : res exn Z :=
  match f with
  | S754_nan => Raise (ValueError "cannot convert float NaN to integer")
  | S754_infinity _ => Raise OverflowError
  | S754_zero _ => Ok 0
  | S754_finite s m e =>
      let n := if 0 <=? e then Z.pos m * 2 ^ e
               else round_div (Z.pos m) (2 ^ (- e)) in
      Ok (if s then - n else n)
  end.

(** A double stored into [array("f")] and read back: rounded to 24 bits, to infinity
    beyond their range. *)
Definition of_finite (s : bool) (m : positive) : Z := if s then Z.neg m else Z.pos m.
Definition float32 (f : float) : float :=
  match f with
  | S754_finite s m e =>
      match binary_normalize 24 128 (of_finite s m) e s with
      | S754_finite s' m' e' => binary_normalize 53 1024 (of_finite s' m') e' s'
      | g => g
      end
  | _ => f
  end.

(** ** Order

    A float other than nan as a triple whose lexicographic order is the order
    of the floats. *)

Definition is_nan (f : float) : bool := match f with S754_nan => true | _ => false end.

Definition key (f : float) : Z * Z * Z :=
  match f with
  | S754_zero _ | S754_nan => (0, 0, 0)
  | S754_infinity s => (if s then -2 else 2, 0, 0)
  | S754_finite s m e => if s then (-1, - e, Z.neg m) else (1, e, Z.pos m)
  end.

Definition lex_lt (a b : Z * Z * Z) : Prop :=
  let '(a1, a2, a3) := a in let '(b1, b2, b3) := b in
  a1 < b1 ∨ a1 = b1 ∧ (a2 < b2 ∨ a2 = b2 ∧ a3 < b3).

Lemma lex_total a b : lex_lt a b ∨ a = b ∨ lex_lt b a.
Proof.
  destruct a as [[a1 a2] a3], b as [[b1 b2] b3]. cbn.
  destruct (Z.lt_total a1 b1) as [?|[->|?]]; [by left; left| |by right; right; left].
  destruct (Z.lt_total a2 b2) as [?|[->|?]]; [by left; right; split; [|left]| |by right; right; right; split; [|left]].
  destruct (Z.lt_total a3 b3) as [?|[->|?]]; [|by right; left|].
  - left. right. split; [done|]. by right.
  - right. right. right. split; [done|]. by right.
Qed.

Lemma lex_trans a b c : lex_lt a b → lex_lt b c → lex_lt a c.
Proof. destruct a as [[? ?] ?], b as [[? ?] ?], c as [[? ?] ?]. cbn. lia. Qed.

Lemma fltb_key a b :
  is_nan a = false → is_nan b = false → fltb a b = true ↔ lex_lt (key a) (key b).
Proof.
  intros Ha Hb. unfold fltb, SFltb, lex_lt.
  destruct a as [sa|sa| |sa ma ea], b as [sb|sb| |sb mb eb]; try done;
    try destruct sa; try destruct sb; cbn [SFcompare key];
    try (split; [done|lia]); try (split; [lia|done]).
  all: destruct (Z.compare_spec ea eb); [|split; try done; lia..].
  all: rewrite ?Pos.compare_cont_spec; destruct (Pos.compare_spec ma mb); cbn; split; try done; lia.
Qed.

Lemma feqb_key a b :
  is_nan a = false → is_nan b = false → feqb a b = true ↔ key a = key b.
Proof.
  intros Ha Hb. unfold feqb, SFeqb.
  destruct a as [sa|sa| |sa ma ea], b as [sb|sb| |sb mb eb]; try done;
    try destruct sa; try destruct sb; cbn [SFcompare key]; try done.
  all: destruct (Z.compare_spec ea eb);
    rewrite ?Pos.compare_cont_spec; try (destruct (Pos.compare_spec ma mb)); cbn; split; intros Heq;
    try done; try (injection Heq as Heq1 Heq2; lia); subst; f_equal; lia.
Qed.

(** The order in which [heapq] and [sort] place floats other than nan is a total
    preorder. *)
Lemma fltb_irrefl a : fltb a a = false.
Proof.
  destruct (is_nan a) eqn:E; [by destruct a|]. destruct (fltb a a) eqn:F; [|done].
  apply fltb_key in F; [|done..]. destruct (key a) as [[? ?] ?]. cbn in F. lia.
Qed.

Lemma fltb_trans a b c :
  is_nan b = false → fltb a b = true → fltb b c = true → fltb a c = true.
Proof.
  intros Hb H1 H2.
  assert (is_nan a = false) as Ha by (by destruct a). assert (is_nan c = false) as Hc by (by destruct c, b).
  apply fltb_key in H1; [|done..]. apply fltb_key in H2; [|done..]. apply fltb_key; [done..|].
  destruct (key a) as [[? ?] ?], (key b) as [[? ?] ?], (key c) as [[? ?] ?]. cbn in *. lia.
Qed.

Lemma fltb_total a b c :
  is_nan a = false → is_nan b = false → is_nan c = false →
  fltb a b = false → fltb b c = false → fltb a c = false.
Proof.
  intros Ha Hb Hc H1 H2. apply not_true_iff_false in H1, H2. apply not_true_iff_false.
  rewrite fltb_key in H1, H2 |- * by done.
  destruct (key a) as [[? ?] ?], (key b) as [[? ?] ?], (key c) as [[? ?] ?]. cbn in *. lia.
Qed.

(** ** Rounding error of a product

    [int(n * ratio)] for a ratio a little below one does not exceed [n]: each of
    the two roundings adds at most one unit in the last of 53 places. *)

Lemma digits_bounds p : 2 ^ (Z.pos (digits2_pos p) - 1) <= Z.pos p < 2 ^ Z.pos (digits2_pos p).
Proof.
  induction p as [p IH|p IH|]; cbn [digits2_pos]; [..|done];
    rewrite Pos2Z.inj_succ; replace (Z.succ (Z.pos (digits2_pos p)) - 1) with
      (Z.succ (Z.pos (digits2_pos p) - 1)) by lia; rewrite !Z.pow_succ_r by lia; lia.
Qed.

Lemma shr_1_m r : 0 <= shr_m r → shr_m (shr_1 r) = shr_m r / 2 ∧ 0 <= shr_m (shr_1 r).
Proof.
  destruct r as [[|[m|m|]|m] a b]; cbn [shr_1 shr_m]; intros Hr; try lia; (split; [|lia]).
  - done.
  - apply (Z.div_unique _ _ _ 1); lia.
  - apply (Z.div_unique _ _ _ 0); lia.
  - done.
Qed.

Lemma iter_shr_m p r :
  0 <= shr_m r → shr_m (iter_pos shr_1 p r) = shr_m r / 2 ^ Z.pos p ∧ 0 <= shr_m (iter_pos shr_1 p r).
Proof.
  revert r. induction p as [p IH|p IH|]; intros r Hr; cbn [iter_pos].
  - destruct (shr_1_m r Hr) as [E1 H1]. destruct (IH _ H1) as [E2 H2]. destruct (IH _ H2) as [E3 H3].
    split; [|done]. rewrite E3, E2, E1, !Z.div_div by lia. f_equal.
    rewrite Pos2Z.inj_xI, Z.pow_add_r, Z.mul_comm, <-Z.pow_twice_r by lia. lia.
  - destruct (IH _ Hr) as [E2 H2]. destruct (IH _ H2) as [E3 H3].
    split; [|done]. rewrite E3, E2, Z.div_div by lia. f_equal.
    rewrite Pos2Z.inj_xO, <-Z.pow_twice_r by lia. done.
  - by apply shr_1_m.
Qed.

(** The shift to 53 digits divides the significand and adds to the exponent. *)
Lemma shr_fexp_m m e :
  0 <= m → let k := Z.max 0 (fexp prec emax (Zdigits2 m + e) - e) in
  let '(r, e') := shr_fexp prec emax m e loc_Exact in
  shr_m r = m / 2 ^ k ∧ 0 <= shr_m r ∧ e' = e + k ∧ (k = 0 → loc_of_shr_record r = loc_Exact).
Proof.
  intros Hm. unfold shr_fexp, shr. cbn [shr_record_of_loc].
  destruct (fexp prec emax (Zdigits2 m + e) - e) as [|p|p].
  - cbn. rewrite Z.div_1_r. split_and!; try done; lia.
  - change (Z.max 0 (Z.pos p)) with (Z.pos p).
    destruct (iter_shr_m p {| shr_m := m; shr_r := false; shr_s := false |} Hm). by split_and!.
  - cbn. rewrite Z.div_1_r. split_and!; try done; lia.
Qed.

Lemma round_up m l : m <= round_nearest_even m l <= m + 1.
Proof. destruct l as [|[]]; cbn; [lia| |lia..]. destruct (Z.even m); lia. Qed.

Lemma digits_le m d : 0 <= d → 0 <= m < 2 ^ d → Zdigits2 m <= d.
Proof.
  intros Hd Hm. destruct m as [|m|m]; cbn; try lia. pose proof (digits_bounds m) as [H _].
  destruct (Z.le_gt_cases (Z.pos (digits2_pos m)) d); [done|].
  pose proof (Z.pow_le_mono_r 2 d (Z.pos (digits2_pos m) - 1) ltac:(lia) ltac:(lia)). lia.
Qed.

(** The first rounding to 53 digits. *)
Lemma round_first m e :
  -1074 <= e →
  let '(r, e1) := shr_fexp prec emax (Z.pos m) e loc_Exact in
  let q := round_nearest_even (shr_m r) (loc_of_shr_record r) in
  ∃ k, 0 <= k ∧ e1 = e + k ∧ 0 < q <= 2 ^ 53 ∧
    Z.pos m * (2 ^ 52 - 1) <= q * 2 ^ k * 2 ^ 52 <= Z.pos m * (2 ^ 52 + 1).
Proof.
  intros He. pose proof (shr_fexp_m (Z.pos m) e ltac:(done)) as H1.
  destruct (shr_fexp _ _ (Z.pos m) e loc_Exact) as [r1 e1]. cbn zeta in *.
  set (k := Z.max 0 (fexp prec emax (Zdigits2 (Z.pos m) + e) - e)) in *.
  destruct H1 as (Hm1 & Hp1 & -> & Hex1). exists k. split; [lia|]. split; [done|].
  pose proof (digits_bounds m) as [Hd Hd']. cbn [Zdigits2] in k.
  pose proof (round_up (shr_m r1) (loc_of_shr_record r1)) as Hr.
  destruct (decide (k = 0)) as [Hk|Hk].
  - rewrite Hex1 by done. cbn [round_nearest_even]. rewrite Hm1, Hk, Z.div_1_r.
    assert (Z.pos (digits2_pos m) <= 53) by (unfold k, fexp, emin, prec, emax in *; lia).
    pose proof (Z.pow_le_mono_r 2 (Z.pos (digits2_pos m)) 53 ltac:(lia) ltac:(lia)). lia.
  - assert (k = Z.pos (digits2_pos m) - 53) as Hk1 by (unfold k, fexp, emin, prec, emax in *; lia).
    rewrite Hm1 in Hr. replace (Z.pos (digits2_pos m) - 1) with (52 + k) in Hd by lia.
    replace (Z.pos (digits2_pos m)) with (53 + k) in Hd' by lia.
    rewrite Z.pow_add_r in Hd, Hd' by lia.
    assert (0 < 2 ^ k) by (apply Z.pow_pos_nonneg; lia).
    pose proof (Z.mul_div_le (Z.pos m) (2 ^ k) ltac:(lia)).
    pose proof (Z.mul_succ_div_gt (Z.pos m) (2 ^ k) ltac:(lia)).
    pose proof (Z.div_lt_upper_bound (Z.pos m) (2 ^ k) (2 ^ 53) ltac:(lia) ltac:(lia)).
    pose proof (Z.div_le_lower_bound (Z.pos m) (2 ^ k) (2 ^ 52) ltac:(lia) ltac:(lia)). rewrite Hm1.
    split; [lia|]. split; nia.
Qed.

(** A result is within a factor of [1 ± 2^-52] of the exact value, or infinite. *)
Lemma round_aux_spec m e :
  -1074 <= e →
  ∃ m' k, 0 <= k ∧
    binary_round_aux prec emax false (Z.pos m) e loc_Exact =
      (if e + k <=? emax - prec then S754_finite false m' (e + k) else S754_infinity false) ∧
    Z.pos m * (2 ^ 52 - 1) <= Z.pos m' * 2 ^ k * 2 ^ 52 <= Z.pos m * (2 ^ 52 + 1).
Proof.
  intros He. unfold binary_round_aux. pose proof (round_first m e He) as H1.
  destruct (shr_fexp _ _ (Z.pos m) e loc_Exact) as [r1 e1].
  set (q := round_nearest_even (shr_m r1) (loc_of_shr_record r1)) in *. cbn zeta in H1.
  destruct H1 as (k1 & Hk1 & -> & Hq & Hb). clearbody q.
  pose proof (shr_fexp_m q (e + k1) ltac:(lia)) as H2.
  destruct (shr_fexp _ _ q (e + k1) loc_Exact) as [r2 e2]. cbn zeta in H2.
  set (k2 := Z.max 0 (fexp prec emax (Zdigits2 q + (e + k1)) - (e + k1))) in *.
  destruct H2 as (Hm2 & _ & -> & _).
  assert (Hexact : shr_m r2 * 2 ^ k2 = q ∧ 0 <= k2).
  { rewrite Hm2. destruct (decide (q = 2 ^ 53)) as [Hq53|].
    - assert (k2 = 1) as ->; [|by rewrite Hq53]. unfold k2. rewrite Hq53.
      change (Zdigits2 (2 ^ 53)) with 54. unfold fexp, emin, prec, emax. lia.
    - assert (Hq' : 0 <= q < 2 ^ 53) by (split; [lia|]; apply Z.le_neq; split; [apply Hq|done]).
      pose proof (digits_le q 53 ltac:(done) Hq').
      assert (k2 = 0) as -> by (unfold k2, fexp, emin, prec, emax; lia). rewrite Z.div_1_r. lia. }
  destruct Hexact as [Hexact Hk2]. destruct (shr_m r2) as [|p|p] eqn:Er2; [lia| |nia].
  exists p, (k1 + k2). split; [lia|]. rewrite Z.add_assoc. split; [by destruct (_ <=? _)|].
  rewrite (Z.pow_add_r 2 k1 k2) by lia.
  replace (Z.pos p * (2 ^ k1 * 2 ^ k2) * 2 ^ 52) with (q * 2 ^ k1 * 2 ^ 52); [done|].
  rewrite <-Hexact. ring.
Qed.

Lemma iter_xO p m : Z.pos (Pos.iter xO m p) = Z.pos m * 2 ^ Z.pos p.
Proof.
  revert m. induction p as [|p IH] using Pos.peano_ind; intros m; [cbn; lia|].
  rewrite Pos.iter_succ, Pos2Z.inj_succ, Z.pow_succ_r by lia. rewrite Pos2Z.inj_xO, IH. lia.
Qed.

Lemma of_Z_spec n :
  0 < n →
  ∃ m i k, 0 <= i <= 53 ∧ 0 <= k ∧
    of_Z n = (if - i + k <=? emax - prec then S754_finite false m (- i + k) else S754_infinity false) ∧
    Z.pos m * 2 ^ k * 2 ^ 52 <= n * 2 ^ i * (2 ^ 52 + 1).
Proof.
  destruct n as [|n|]; try lia. intros _. unfold of_Z, binary_normalize, binary_round, shl_align.
  destruct (fexp prec emax (Z.pos (digits2_pos n) + 0) - 0) as [|d|d] eqn:Ed; rewrite ?Z.sub_0_r in Ed.
  1,2: destruct (round_aux_spec n 0 ltac:(lia)) as (m & k & Hk & -> & Hb); exists m, 0, k; split_and!; try done; lia.
  assert (Z.pos d <= 53) by (unfold fexp, emin, prec, emax in Ed; lia). rewrite Ed.
  destruct (round_aux_spec (Pos.iter xO n d) (Z.neg d) ltac:(lia)) as (m & k & Hk & -> & Hb).
  rewrite iter_xO in Hb. exists m, (Z.pos d), k. split_and!; try done; lia.
Qed.

Lemma trunc_pos p e : 0 <= trunc (S754_finite false p e).
Proof. cbn [trunc]. destruct (0 <=? e) eqn:E; breflect; [|apply Z.div_pos]; lia. Qed.

(** Truncation of floats of which the first is not greater, scaled to integers. *)
Lemma trunc_mono p e q f g :
  0 <= e + g → 0 <= f + g → 0 <= g → Z.pos p * 2 ^ (e + g) <= Z.pos q * 2 ^ (f + g) →
  trunc (S754_finite false p e) <= trunc (S754_finite false q f).
Proof.
  intros He Hf Hg H.
  assert (Ht : ∀ r x, 0 <= x + g → trunc (S754_finite false r x) = Z.pos r * 2 ^ (x + g) / 2 ^ g).
  { intros r x Hx. cbn [trunc]. destruct (0 <=? x) eqn:E; breflect.
    - rewrite Z.pow_add_r, Z.mul_assoc, Z.div_mul by lia. done.
    - replace (2 ^ g) with (2 ^ (- x) * 2 ^ (x + g)) by (rewrite <-Z.pow_add_r by lia; f_equal; lia).
      by rewrite Z.div_mul_cancel_r by lia. }
  rewrite !Ht by lia. apply Z.div_le_mono; lia.
Qed.

(** [int(n * ratio) <= n] for a positive ratio with [(1 + 2^-52)^2 * ratio <= 1]. *)
Lemma scaled_le n m e :
  0 <= n → -100 <= e <= 0 → Z.pos m * (2 ^ 52 + 1) ^ 2 <= 2 ^ (- e) * 2 ^ 104 →
  0 <= trunc (fmul (of_Z n) (literal m e)) <= n.
Proof.
  intros Hn He Hm. destruct (decide (n = 0)) as [->|Hn0]; [done|].
  destruct (of_Z_spec n ltac:(lia)) as (mx & i & k & Hi & Hk & -> & Hb).
  destruct (- i + k <=? emax - prec); [|done]. unfold fmul, literal, SFmul. cbn [xorb].
  destruct (round_aux_spec (mx * m) (- i + k + e) ltac:(lia)) as (m2 & k2 & Hk2 & -> & _ & Hb2).
  destruct (_ <=? _); [|cbn; lia]. split; [apply trunc_pos|].
  set (A := 2 ^ k2) in *. set (B := 2 ^ k) in *. set (I := 2 ^ i) in *. set (R := 2 ^ (- e)) in *.
  assert (0 < A ∧ 0 < B ∧ 0 < I ∧ 0 < R) as (HA & HB & HI & HR)
    by (unfold A, B, I, R; split_and!; apply Z.pow_pos_nonneg; lia).
  assert (Hmain : Z.pos m2 * (A * B) <= n * (I * R)).
  { apply (Z.mul_le_mono_pos_r _ _ (2 ^ 104)); [lia|].
    transitivity (Z.pos mx * B * 2 ^ 52 * (Z.pos m * (2 ^ 52 + 1))); [nia|].
    transitivity (n * I * (2 ^ 52 + 1) * (Z.pos m * (2 ^ 52 + 1))); [nia|].
    transitivity (n * I * (Z.pos m * (2 ^ 52 + 1) ^ 2)); [nia|]. nia. }
  destruct n as [|n|]; try lia.
  replace (Z.pos n) with (trunc (S754_finite false n 0)) by (cbn; lia).
  apply (trunc_mono _ _ _ _ (i - e)); try lia.
  replace (- i + k + e + k2 + (i - e)) with (k2 + k) by lia.
  replace (0 + (i - e)) with (i + - e) by lia. rewrite !Z.pow_add_r by lia. done.
Qed.

(** [int(n * r1) <= int(n * r2)] for ratios far enough apart. *)
Lemma scaled_mono n m1 e1 m2 e2 :
  0 <= n → -100 <= e1 <= 0 → -100 <= e2 <= 0 →
  Z.pos m1 * 2 ^ (e1 + 100) * (2 ^ 52 + 1) <= Z.pos m2 * 2 ^ (e2 + 100) * (2 ^ 52 - 1) →
  is_finite (fmul (of_Z n) (literal m2 e2)) →
  trunc (fmul (of_Z n) (literal m1 e1)) <= trunc (fmul (of_Z n) (literal m2 e2)).
Proof.
  intros Hn He1 He2 Hm. destruct (decide (n = 0)) as [->|Hn0]; [done|].
  destruct (of_Z_spec n ltac:(lia)) as (mx & i & k & Hi & Hk & -> & _).
  destruct (- i + k <=? emax - prec); [|done]. unfold fmul, literal, SFmul. cbn [xorb].
  destruct (round_aux_spec (mx * m1) (- i + k + e1) ltac:(lia)) as (p1 & k1 & Hk1 & -> & _ & Hb1).
  destruct (round_aux_spec (mx * m2) (- i + k + e2) ltac:(lia)) as (p2 & k2 & Hk2 & -> & Hb2 & _).
  destruct (- i + k + e2 + k2 <=? _); [|done]. intros _.
  destruct (_ <=? _); [|apply trunc_pos].
  apply (trunc_mono _ _ _ _ (i + 100)); try lia.
  replace (- i + k + e1 + k1 + (i + 100)) with (k1 + (k + (e1 + 100))) by lia.
  replace (- i + k + e2 + k2 + (i + 100)) with (k2 + (k + (e2 + 100))) by lia.
  rewrite !(Z.pow_add_r 2 _ (k + _)), !(Z.pow_add_r 2 k) by lia.
  set (A := 2 ^ k1) in *. set (B := 2 ^ k2) in *. set (K := 2 ^ k) in *.
  set (R1 := 2 ^ (e1 + 100)) in *. set (R2 := 2 ^ (e2 + 100)) in *.
  assert (0 < K ∧ 0 < R1 ∧ 0 < R2) as (HK & HR1 & HR2)
    by (unfold K, R1, R2; split_and!; apply Z.pow_pos_nonneg; lia).
  apply (Z.mul_le_mono_pos_r _ _ (2 ^ 52)); [lia|].
  transitivity (Z.pos mx * Z.pos m1 * (2 ^ 52 + 1) * (K * R1)); [nia|].
  transitivity (Z.pos mx * Z.pos m2 * (2 ^ 52 - 1) * (K * R2)); [|nia].
  transitivity (Z.pos mx * K * (Z.pos m1 * R1 * (2 ^ 52 + 1))); [nia|].
  transitivity (Z.pos mx * K * (Z.pos m2 * R2 * (2 ^ 52 - 1))); [|nia]. nia.
Qed.

(** No overflow far from the largest float. *)
Lemma exponent_bound p k x y :
  0 <= k → 0 <= y → Z.pos p * 2 ^ k * 2 ^ 52 <= x * (2 ^ 52 + 1) → x <= 2 ^ y → k <= y + 1.
Proof.
  intros Hk Hy H Hx. destruct (Z.le_gt_cases k (y + 1)) as [|Hgt]; [done|].
  pose proof (Z.pow_le_mono_r 2 (y + 2) k ltac:(lia) ltac:(lia)) as Hp.
  rewrite Z.pow_add_r in Hp by lia. assert (0 < 2 ^ y) by (apply Z.pow_pos_nonneg; lia).
  assert (4 * 2 ^ y * 2 ^ 52 <= 2 ^ y * (2 ^ 52 + 1)); [|lia].
  transitivity (x * (2 ^ 52 + 1)); [|nia]. etransitivity; [|exact H]. nia.
Qed.

Lemma scaled_finite n m e :
  0 <= n < 2 ^ 64 → -100 <= e <= 0 → Z.pos m < 2 ^ 53 →
  is_finite (of_Z n) ∧ is_finite (fmul (of_Z n) (literal m e)).
Proof.
  intros Hn He Hm. destruct (decide (n = 0)) as [->|Hn0]; [done|].
  destruct (of_Z_spec n ltac:(lia)) as (mx & i & k & Hi & Hk & -> & Hb).
  assert (Hni : n * 2 ^ i <= 2 ^ 117).
  { change (2 ^ 117) with (2 ^ 64 * 2 ^ 53). pose proof (Z.pow_le_mono_r 2 i 53 ltac:(lia) ltac:(lia)).
    assert (0 < 2 ^ i) by (apply Z.pow_pos_nonneg; lia). nia. }
  pose proof (exponent_bound _ _ _ 117 Hk ltac:(lia) Hb Hni) as Hk'.
  replace (- i + k <=? emax - prec) with true by (symmetry; apply Z.leb_le; unfold emax, prec; lia).
  split; [done|]. unfold fmul, literal, SFmul. cbn [xorb].
  destruct (round_aux_spec (mx * m) (- i + k + e) ltac:(lia)) as (m2 & k2 & Hk2 & -> & _ & Hb2).
  assert (Hmx : Z.pos mx <= 2 ^ 118).
  { assert (0 < 2 ^ k) by (apply Z.pow_pos_nonneg; lia).
    assert (Z.pos mx * 2 ^ 52 <= 2 ^ 117 * (2 ^ 52 + 1)) by nia. lia. }
  pose proof (exponent_bound m2 k2 (Z.pos (mx * m)) 171 Hk2 ltac:(lia) Hb2) as Hk2'.
  rewrite Pos2Z.inj_mul in Hk2'. change (2 ^ 171) with (2 ^ 118 * 2 ^ 53) in Hk2'.
  replace (- i + k + e + k2 <=? emax - prec) with true; [done|].
  symmetry. apply Z.leb_le. unfold emax, prec. nia.
Qed.

(** ** Division of integers that are not large *)

(** [math.ceil] of a finite float. *)
Definition ceil (f : float) : Z :=
  match f with
  | S754_finite s m e =>
      let v := if s then Z.neg m else Z.pos m in
      if 0 <=? e then v * 2 ^ e else - ((- v) / 2 ^ (- e))
  | _ => 0
  end.

Lemma shr_record_loc m l : shr_m (shr_record_of_loc m l) = m ∧ loc_of_shr_record (shr_record_of_loc m l) = l.
Proof. by destruct l as [|[]]. Qed.

Lemma digits_exact p d : 0 < d → 2 ^ (d - 1) <= Z.pos p < 2 ^ d → Z.pos (digits2_pos p) = d.
Proof.
  intros Hd Hp. pose proof (digits_bounds p) as Hb. destruct (Z.lt_total (Z.pos (digits2_pos p)) d) as [H|[H|H]]; [|done|].
  - pose proof (Z.pow_le_mono_r 2 (Z.pos (digits2_pos p)) (d - 1) ltac:(lia) ltac:(lia)). lia.
  - pose proof (Z.pow_le_mono_r 2 d (Z.pos (digits2_pos p) - 1) ltac:(lia) ltac:(lia)). lia.
Qed.

(** The first rounding of a quotient of 53 or 54 digits, known up to a location. *)
Lemma round_quotient_first p e l :
  2 ^ 52 <= Z.pos p < 2 ^ 54 → -1000 <= e →
  ∃ k, 0 <= k <= 1 ∧ let '(r, e1) := shr_fexp prec emax (Z.pos p) e l in
    e1 = e + k ∧ let v := round_nearest_even (shr_m r) (loc_of_shr_record r) in
    Z.pos p - 1 <= v * 2 ^ k <= Z.pos p + 2 ∧ 2 ^ 52 <= v <= 2 ^ 53 ∧
    (l = loc_Exact → Z.even (Z.pos p) = true ∨ Z.pos p < 2 ^ 53 → v * 2 ^ k = Z.pos p).
Proof.
  intros Hq He. destruct (shr_record_loc (Z.pos p) l) as [Hm Hl].
  destruct (decide (Z.pos p < 2 ^ 53)) as [Hlt|Hge]; unfold shr_fexp, shr; cbn [Zdigits2].
  - exists 0. split; [lia|]. rewrite (digits_exact p 53) by lia.
    replace (fexp prec emax (53 + e) - e) with 0 by (unfold fexp, emin, prec, emax; lia).
    rewrite Hm, Hl. split; [lia|]. cbn zeta. rewrite Z.pow_0_r, Z.mul_1_r.
    pose proof (round_up (Z.pos p) l). split; [lia|]. split; [lia|]. by intros -> _.
  - exists 1. split; [lia|]. rewrite (digits_exact p 54) by lia.
    replace (fexp prec emax (54 + e) - e) with 1 by (unfold fexp, emin, prec, emax; lia).
    cbn [iter_pos]. destruct (shr_1_m (shr_record_of_loc (Z.pos p) l)) as [Hm1 _]; [by rewrite Hm|].
    rewrite Hm in Hm1. split; [done|]. cbn zeta.
    pose proof (round_up (shr_m (shr_1 (shr_record_of_loc (Z.pos p) l)))
      (loc_of_shr_record (shr_1 (shr_record_of_loc (Z.pos p) l)))) as Hr. rewrite Hm1 in *.
    change (2 ^ 1) with 2. pose proof (Z.div_mod (Z.pos p) 2 ltac:(lia)). pose proof (Z.mod_pos_bound (Z.pos p) 2 ltac:(lia)).
    split; [lia|]. split; [lia|]. intros -> [Heven|]; [|lia]. cbn [shr_record_of_loc].
    destruct p as [p|p|]; try done. cbn. lia.
Qed.

Lemma round_quotient q e l :
  2 ^ 52 <= q < 2 ^ 54 → -1000 <= e <= 900 →
  ∃ m k, 0 <= k <= 2 ∧ binary_round_aux prec emax false q e l = S754_finite false m (e + k) ∧
    q - 1 <= Z.pos m * 2 ^ k <= q + 2 ∧ (l = loc_Exact → Z.even q = true ∨ q < 2 ^ 53 → Z.pos m * 2 ^ k = q).
Proof.
  intros Hq He. unfold binary_round_aux. destruct q as [|p|p]; try lia.
  destruct (round_quotient_first p e l Hq ltac:(lia)) as (k1 & Hk1 & Hfirst).
  destruct (shr_fexp _ _ (Z.pos p) e l) as [r1 e1]. destruct Hfirst as [-> (Hb & Hv & Hex)].
  set (v := round_nearest_even _ _) in *. clearbody v.
  pose proof (shr_fexp_m v (e + k1) ltac:(lia)) as H2. destruct (shr_fexp _ _ v (e + k1) loc_Exact) as [r2 e2]. cbn zeta in H2.
  set (k2 := Z.max 0 (fexp prec emax (Zdigits2 v + (e + k1)) - (e + k1))) in *. destruct H2 as (Hm2 & _ & -> & _).
  assert (Hexact : shr_m r2 * 2 ^ k2 = v ∧ 0 <= k2 <= 1).
  { rewrite Hm2. destruct (decide (v = 2 ^ 53)) as [Hq53|].
    - assert (k2 = 1) as ->; [|by rewrite Hq53]. unfold k2. rewrite Hq53.
      change (Zdigits2 (2 ^ 53)) with 54. unfold fexp, emin, prec, emax. lia.
    - pose proof (digits_le v 53 ltac:(done) ltac:(lia)).
      assert (k2 = 0) as -> by (unfold k2, fexp, emin, prec, emax; lia). rewrite Z.div_1_r. lia. }
  destruct Hexact as [Hexact Hk2]. destruct (shr_m r2) as [|m|m] eqn:Er2; [lia| |nia].
  exists m, (k1 + k2). split; [lia|]. replace (e + k1 + k2 <=? emax - prec) with true by (symmetry; apply Z.leb_le; unfold emax, prec; lia).
  rewrite Z.add_assoc. split; [done|]. replace (Z.pos m * 2 ^ (k1 + k2)) with (v * 2 ^ k1); [by split|].
  rewrite Z.pow_add_r by lia. rewrite <-Hexact. ring.
Qed.

(** The quotient, at the scale [2 ^ s]: within two units, and exact when it is whole. *)
Lemma int_div_spec a b :
  0 < a < 2 ^ 45 → 0 < b < 2 ^ 24 →
  ∃ m e s, int_div a b = S754_finite false m e ∧ - s <= e < 0 ∧ 0 < s ∧ 2 * b < 2 ^ s ∧
    let v := Z.pos m * 2 ^ (e + s) in
    (v - 2) * b <= a * 2 ^ s ∧ a * 2 ^ s < (v + 2) * b ∧ ((b | a) → v * b = a * 2 ^ s).
Proof.
  intros Ha Hb. destruct a as [|a|a], b as [|b|b]; try lia. unfold int_div. cbn [exact SFdiv xorb].
  unfold SFdiv_core_binary. cbn [Zdigits2]. pose proof (digits_bounds a) as Hda. pose proof (digits_bounds b) as Hdb.
  set (da := Z.pos (digits2_pos a)) in *. set (db := Z.pos (digits2_pos b)) in *.
  assert (1 <= da <= 45) as Hda'.
  { split; [lia|]. destruct (decide (da <= 45)); [done|]. pose proof (Z.pow_le_mono_r 2 45 (da - 1) ltac:(lia) ltac:(lia)). lia. }
  assert (1 <= db <= 24) as Hdb'.
  { split; [lia|]. destruct (decide (db <= 24)); [done|]. pose proof (Z.pow_le_mono_r 2 24 (db - 1) ltac:(lia) ltac:(lia)). lia. }
  replace (Z.min (fexp prec emax (da + 0 - (db + 0))) (0 - 0)) with (da - db - 53) by (unfold fexp, emin, prec, emax; lia).
  set (s := 53 + db - da). replace (0 - 0 - (da - db - 53)) with s by lia. replace (da - db - 53) with (- s) by lia.
  replace (match s with Z0 => Z.pos a | Z.pos _ => Z.shiftl (Z.pos a) s | Z.neg _ => 0 end) with (Z.pos a * 2 ^ s)
    by (destruct s eqn:Es; [lia|rewrite Z.shiftl_mul_pow2; lia|lia]).
  pose proof (Z.div_mod (Z.pos a * 2 ^ s) (Z.pos b) ltac:(lia)) as Hdm.
  pose proof (Z.mod_pos_bound (Z.pos a * 2 ^ s) (Z.pos b) ltac:(lia)) as Hmod.
  destruct (Z.div_eucl (Z.pos a * 2 ^ s) (Z.pos b)) as [q r] eqn:Eqr.
  replace (Z.pos a * 2 ^ s / Z.pos b) with q in * by (unfold Z.div; by rewrite Eqr).
  replace ((Z.pos a * 2 ^ s) mod Z.pos b) with r in * by (unfold Z.modulo; by rewrite Eqr).
  assert (Hs2 : 2 ^ (da - 1) * 2 ^ s = 2 ^ 52 * 2 ^ db ∧ 2 ^ da * 2 ^ s = 2 ^ 54 * 2 ^ (db - 1)).
  { rewrite <-!Z.pow_add_r by lia. split; f_equal; lia. }
  assert (0 < 2 ^ s) by (apply Z.pow_pos_nonneg; lia).
  assert (Hq : 2 ^ 52 <= q < 2 ^ 54) by nia.
  destruct (round_quotient q (- s) (new_location (Z.pos b) r) Hq ltac:(lia)) as (m & k & Hk & -> & Hv & Hex).
  exists m, (- s + k), s. split; [done|]. split; [lia|]. split; [lia|].
  split. { pose proof (Z.pow_le_mono_r 2 (8 + db) s ltac:(lia) ltac:(lia)) as Hp. rewrite Z.pow_add_r in Hp by lia. lia. }
  replace (- s + k + s) with k by lia. cbn zeta. split; [nia|]. split; [nia|]. intros [n Hn].
  assert (Hr : r = 0 ∧ q = n * 2 ^ s).
  { assert (Hr : r = Z.pos b * (n * 2 ^ s - q)) by (rewrite Hn in Hdm; lia).
    assert (n * 2 ^ s - q = 0) as Hz by nia. rewrite Hr, Hz. lia. }
  destruct Hr as [-> ->].
  rewrite Hex; [lia|..].
  - unfold new_location, new_location_even, new_location_odd. by destruct b.
  - left. rewrite Z.even_mul, Z.even_pow by lia. apply orb_true_r.
Qed.

(** [math.ceil(a / b)] is the exact ceiling. *)
Lemma ceil_int_div a b :
  0 <= a < 2 ^ 45 → 0 < b < 2 ^ 24 → is_finite (int_div a b) = true ∧ ceil (int_div a b) = (a + b - 1) / b.
Proof.
  intros Ha Hb. destruct (decide (a = 0)) as [->|Ha0].
  { destruct b as [|b|b]; try lia. split; [done|]. symmetry. apply Z.div_small. lia. }
  destruct (int_div_spec a b ltac:(lia) Hb) as (m & e & s & -> & He & Hs & Hbs & Hlo & Hhi & Hex). split; [done|].
  cbn [ceil]. destruct (0 <=? e) eqn:E; breflect; [lia|]. set (v := Z.pos m * 2 ^ (e + s)) in *.
  assert (Hv : Z.pos m * 2 ^ s = v * 2 ^ (- e)).
  { unfold v. rewrite <-Z.mul_assoc, <-Z.pow_add_r by lia. do 2 f_equal. lia. }
  assert (0 < 2 ^ s ∧ 0 < 2 ^ (- e) ∧ 0 < 2 ^ (e + s)) as (Hps & Hpe & Hpes) by (split_and!; apply Z.pow_pos_nonneg; lia).
  assert (Hse : 2 ^ s = 2 ^ (- e) * 2 ^ (e + s)) by (rewrite <-Z.pow_add_r by lia; f_equal; lia).
  set (n := (a + b - 1) / b).
  assert (Hn : (n - 1) * b < a <= n * b).
  { pose proof (Z.div_mod (a + b - 1) b ltac:(lia)). pose proof (Z.mod_pos_bound (a + b - 1) b ltac:(lia)).
    fold n in H. split; nia. }
  assert (Hvn : (n - 1) * 2 ^ s < v <= n * 2 ^ s).
  { destruct (decide (a = n * b)) as [Heq|Hne].
    - assert (v * b = a * 2 ^ s) by (apply Hex; by exists n). nia.
    - split; [|nia]. assert ((n - 1) * b + 1 <= a <= n * b - 1) by lia.
      apply Z.lt_nge. intros Hle. assert ((v + 2) * b <= ((n - 1) * 2 ^ s + 2) * b) by nia. nia. }
  assert (Hm : (n - 1) * 2 ^ (- e) < Z.pos m <= n * 2 ^ (- e)) by nia.
  enough (- Z.pos m / 2 ^ (- e) = - n) by lia. symmetry. apply (Z.div_unique _ _ _ (n * 2 ^ (- e) - Z.pos m)); nia.
Qed.

(** ** Conversions that can raise *)

(** [int(n * ratio)]: infinities and nan cannot be converted. *)
Definition scaled (n : Z) (ratio : float) : res exn Z :=
  if negb (is_finite (of_Z n)) then Raise OverflowError
  else let f := fmul (of_Z n) ratio in
       if is_nan f then Raise (ValueError "cannot convert float NaN to integer")
       else check (is_finite f) OverflowError (trunc f).

(** [m / n] of integers *)
Definition true_div (m n : Z) : res exn float :=
  if n =? 0 then Raise ZeroDivisionError
  else let f := int_div m n in check (is_finite f) OverflowError f.

Lemma scaled_Ok n r v :
  scaled n r = Ok v → v = trunc (fmul (of_Z n) r) ∧ is_finite (fmul (of_Z n) r).
Proof.
  unfold scaled, check. destruct (negb _); [done|]. destruct (is_nan _); [done|].
  destruct (is_finite _); [|done]. intros [= <-]. done.
Qed.

Lemma round_aux_nonneg m e l : 0 <= trunc (binary_round_aux prec emax false m e l).
Proof.
  unfold binary_round_aux. destruct (shr_fexp _ _ m e l) as [r e1].
  destruct (shr_fexp _ _ _ e1 _) as [r2 e2].
  destruct (shr_m r2); try (cbn; lia). destruct (e2 <=? _); [apply trunc_pos|cbn; lia].
Qed.

(** ** No operation on finite floats returns nan, a division by zero apart *)

Lemma shr_fexp_nonneg m e l : 0 <= m → 0 <= shr_m (shr_fexp prec emax m e l).1.
Proof.
  intros Hm. unfold shr_fexp, shr.
  assert (Hr : 0 <= shr_m (shr_record_of_loc m l)) by (by destruct l as [|[]]).
  destruct (_ - _) as [|p|p]; cbn [fst]; [done| |done]. by apply (iter_shr_m p _ Hr).
Qed.
Lemma round_aux_not_nan s m e l : 0 <= m → is_nan (binary_round_aux prec emax s m e l) = false.
Proof.
  intros Hm. unfold binary_round_aux. pose proof (shr_fexp_nonneg m e l Hm) as H1.
  destruct (shr_fexp _ _ m e l) as [r1 e1]. cbn [fst] in H1.
  pose proof (round_up (shr_m r1) (loc_of_shr_record r1)) as Hr.
  pose proof (shr_fexp_nonneg (round_nearest_even (shr_m r1) (loc_of_shr_record r1)) e1 loc_Exact ltac:(lia)) as H2.
  destruct (shr_fexp _ _ _ e1 _) as [r2 e2]. cbn [fst] in H2.
  destruct (shr_m r2); [done|by destruct (_ <=? _)|lia].
Qed.
Lemma normalize_not_nan m e s : is_nan (binary_normalize prec emax m e s) = false.
Proof.
  unfold binary_normalize. destruct m as [|m|m]; [done|..];
    unfold binary_round; destruct (shl_align _ _ _); by apply round_aux_not_nan.
Qed.
Lemma fsub_not_nan a b : is_finite a = true → is_finite b = true → is_nan (fsub a b) = false.
Proof.
  destruct a as [sa|sa| |sa ma ea], b as [sb|sb| |sb mb eb]; try done; intros _ _; unfold fsub, SFsub.
  - by destruct sa, sb.
  - apply normalize_not_nan.
Qed.
(** *** The sign of a difference *)

(** A finite float as a multiple of a power of two below its exponent. *)
Definition exponent (f : float) : Z := match f with S754_finite _ _ e => e | _ => 0 end.
Definition multiple (e : Z) (f : float) : Z :=
  match f with S754_finite s m e' => (if s then -1 else 1) * (Z.pos m * 2 ^ (e' - e)) | _ => 0 end.
(** Finite floats compared as numbers. *)
Definition number_le (a b : float) : Prop :=
  is_finite a = true ∧ is_finite b = true ∧
  multiple (Z.min (exponent a) (exponent b)) a <= multiple (Z.min (exponent a) (exponent b)) b.

Lemma shl_align_pos m e ez : ez <= e → Z.pos (shl_align m e ez).1 = Z.pos m * 2 ^ (e - ez).
Proof.
  intros He. unfold shl_align. destruct (ez - e) as [|p|p] eqn:E; cbn [fst].
  - replace (e - ez) with 0 by lia. lia.
  - lia.
  - rewrite iter_xO. do 2 f_equal. lia.
Qed.
Lemma normalize_nonpos m e : m <= 0 → fleb (binary_normalize prec emax m e false) zero = true.
Proof.
  intros Hm. pose proof (normalize_not_nan m e false) as Hn. unfold binary_normalize in *.
  destruct m as [|m|m]; [done|lia|]. unfold binary_round in *. destruct (shl_align _ _ _) as [mz ez].
  unfold binary_round_aux in *. destruct (shr_fexp _ _ _ ez _) as [r1 e1].
  destruct (shr_fexp _ _ _ e1 _) as [r2 e2]. destruct (shr_m r2); [done|by destruct (_ <=? _)|done].
Qed.
(** A float minus one that is not smaller is not positive. *)
Lemma fsub_nonpos a b : number_le a b → fleb (fsub a b) zero = true.
Proof.
  intros (Ha & Hb & Hle). unfold fsub.
  destruct a as [sa|sa| |sa ma ea], b as [sb|sb| |sb mb eb]; try done; cbn [exponent multiple] in Hle.
  - by destruct sa, sb.
  - pose proof (Z.pow_nonneg 2 (eb - Z.min 0 eb)). assert (0 < 2 ^ (eb - Z.min 0 eb)) by (apply Z.pow_pos_nonneg; lia).
    destruct sb; [nia|done].
  - assert (0 < 2 ^ (ea - Z.min ea 0)) by (apply Z.pow_pos_nonneg; lia). destruct sa; [done|nia].
  - cbn [SFsub]. apply normalize_nonpos. unfold cond_Zopp.
    pose proof (shl_align_pos ma ea (Z.min ea eb) ltac:(lia)). pose proof (shl_align_pos mb eb (Z.min ea eb) ltac:(lia)).
    destruct sa, sb; lia.
Qed.

Lemma fmul_not_nan a b : is_finite a = true → is_finite b = true → is_nan (fmul a b) = false.
Proof.
  destruct a as [sa|sa| |sa ma ea], b as [sb|sb| |sb mb eb]; try done; intros _ _.
  unfold fmul, SFmul. by apply round_aux_not_nan.
Qed.
Lemma of_Z_not_nan n : is_nan (of_Z n) = false.
Proof. apply normalize_not_nan. Qed.

Lemma scaled_nonneg n r v : 0 <= n → fltb r zero = false → scaled n r = Ok v → 0 <= v.
Proof.
  intros Hn Hr [-> Hfin]%scaled_Ok. destruct (decide (n = 0)) as [->|].
  { destruct r; cbn; lia. }
  destruct (of_Z_spec n ltac:(lia)) as (mx & i & k & Hi & Hk & Heq & _). rewrite Heq in *.
  destruct (- i + k <=? emax - prec); destruct r as [s|s| |s mr er]; try done; destruct s; try done.
  unfold fmul, SFmul. cbn [xorb]. apply round_aux_nonneg.
Qed.

Lemma scaled_returns n sig ex :
  0 <= n < 2 ^ 64 → -100 <= ex <= 0 → Z.pos sig < 2 ^ 53 → is_ok (scaled n (literal sig ex)).
Proof.
  intros Hn Hex Hsig. destruct (scaled_finite n sig ex Hn Hex Hsig) as [H1 H2].
  unfold scaled, check. destruct (is_finite (of_Z n)); [cbn [negb]|done].
  destruct (fmul _ _); done.
Qed.

Example of_Z_rounds : of_Z (2 ^ 53 + 1) = of_Z (2 ^ 53).
Proof. reflexivity. Qed.

Example third : int_div 1 3 = S754_finite false 6004799503160661 (-54).
Proof. reflexivity. Qed.

Example trunc_half : trunc (int_div 7 2) = 3.
Proof. reflexivity. Qed.

End PyFloat.
