(* ===== verification/OrderedDict.v ===== *)
(** * Insertion-ordered dictionaries

    Python's [dict] and [collections.OrderedDict] as association lists in
    iteration order, with the operations the caches and managers use, and the
    least-recently-used eviction loop they share. *)

From S2P Require Import Prelude.

Module OrderedDict.

Section dict.
Context {K V : Type} `{EqDecision K}.
Implicit Types (d : list (K * V)) (k : K) (v : V).

(** [d.get(k)] *)
Fixpoint od_get k d : option V :=
  match d with
  | [] => None
  | (k', v) :: d' => if decide (k = k') then Some v else od_get k d'
  end.

(** [del d[k]], [d.pop(k, None)] *)
Fixpoint od_del k d : list (K * V) :=
  match d with
  | [] => []
  | (k', v) :: d' => if decide (k = k') then d' else (k', v) :: od_del k d'
  end.

(** [d[k] = v]: in place for a present key, at the end for a new one. *)
Fixpoint od_set k v d : list (K * V) :=
  match d with
  | [] => [(k, v)]
  | (k', v') :: d' => if decide (k = k') then (k, v) :: d' else (k', v') :: od_set k v d'
  end.

(** [d.move_to_end(k)] of a present key. *)
Definition od_move_to_end k d : list (K * V) :=
  match od_get k d with Some v => od_del k d ++ [(k, v)] | None => d end.

Definition od_mem k d : bool := is_some (od_get k d).

(** [sum(f(v) for v in d.values())] *)
Definition od_sum (f : V → Z) d : Z := Zsum ((λ p, f p.2) <$> d).

(** Keys of a dictionary are distinct. *)
Definition od_wf d : Prop := NoDup d.*1.

Lemma od_get_elem k v d : od_get k d = Some v → (k, v) ∈ d.
Proof.
  induction d as [|[k' v'] d IH]; [done|]. cbn. destruct (decide (k = k')) as [->|].
  - intros [= ->]. left.
  - intros. right. by apply IH.
Qed.

Lemma od_get_None k d : od_get k d = None ↔ k ∉ d.*1.
Proof.
  induction d as [|[k' v'] d IH]; cbn; [set_solver|].
  destruct (decide (k = k')) as [->|]; [|rewrite IH; set_solver]. split; [done|set_solver].
Qed.

Lemma od_get_iff k v d : od_wf d → od_get k d = Some v ↔ (k, v) ∈ d.
Proof.
  intros Hwf. split; [apply od_get_elem|]. induction d as [|[k' v'] d IH]; [set_solver|]. cbn.
  apply NoDup_cons in Hwf as [Hk Hwf]. cbn in Hk.
  intros [[= -> ->]|Hin]%elem_of_cons; [by rewrite decide_True|].
  rewrite decide_False; [by apply IH|]. intros ->. apply Hk. by apply (list_elem_of_fmap_2 fst d (k', v)).
Qed.

(** A present key splits the dictionary at its entry. *)
Lemma od_split k v d :
  od_get k d = Some v →
  ∃ d1 d2, d = d1 ++ (k, v) :: d2 ∧ od_del k d = d1 ++ d2 ∧
           ∀ v', od_set k v' d = d1 ++ (k, v') :: d2.
Proof.
  induction d as [|[k' v'] d IH]; [done|]. cbn. destruct (decide (k = k')) as [->|].
  - intros [= ->]. by exists [], d.
  - intros (d1 & d2 & -> & -> & Hs)%IH. exists ((k', v') :: d1), d2. split; [done|]. split; [done|].
    intros. by rewrite Hs.
Qed.

Lemma od_del_None k d : od_get k d = None → od_del k d = d.
Proof.
  induction d as [|[k' v'] d IH]; [done|]. cbn. destruct (decide (k = k')); [done|].
  intros. by rewrite IH.
Qed.

Lemma od_set_new k v d : od_get k d = None → od_set k v d = d ++ [(k, v)].
Proof.
  induction d as [|[k' v'] d IH]; [done|]. cbn. destruct (decide (k = k')); [done|].
  intros. by rewrite IH.
Qed.

Lemma od_del_Permutation k v d : od_get k d = Some v → d ≡ₚ (k, v) :: od_del k d.
Proof. intros (d1 & d2 & -> & -> & _)%od_split. by rewrite Permutation_middle. Qed.

Lemma od_wf_del k d : od_wf d → od_wf (od_del k d).
Proof.
  intros Hwf. destruct (od_get k d) as [v|] eqn:E; [|by rewrite od_del_None].
  unfold od_wf in *. rewrite (od_del_Permutation _ _ _ E) in Hwf. by apply NoDup_cons in Hwf as [_ ?].
Qed.

Lemma od_get_del k d : od_wf d → od_get k (od_del k d) = None.
Proof.
  intros Hwf. apply od_get_None. destruct (od_get k d) as [v|] eqn:E.
  - unfold od_wf in Hwf. rewrite (od_del_Permutation _ _ _ E) in Hwf. by apply NoDup_cons in Hwf as [? _].
  - rewrite od_del_None by done. by apply od_get_None.
Qed.

Lemma od_get_del_ne k k' d : k ≠ k' → od_get k' (od_del k d) = od_get k' d.
Proof.
  intros Hne. induction d as [|[k0 v0] d IH]; [done|]. cbn.
  destruct (decide (k = k0)) as [<-|]; cbn; [by rewrite decide_False|]. by rewrite IH.
Qed.

Lemma od_get_app k d1 d2 :
  od_get k (d1 ++ d2) = match od_get k d1 with Some v => Some v | None => od_get k d2 end.
Proof. induction d1 as [|[k' v'] d1 IH]; [done|]. cbn. by destruct (decide (k = k')). Qed.

Lemma od_wf_snoc k v d : od_wf d → od_get k d = None → od_wf (d ++ [(k, v)]).
Proof.
  intros Hwf Hk%od_get_None. unfold od_wf in *. rewrite fmap_app. cbn.
  apply NoDup_app. split; [done|]. split; [|apply NoDup_singleton].
  intros x Hx ->%list_elem_of_singleton. done.
Qed.

Lemma od_get_snoc k v d : od_get k d = None → od_get k (d ++ [(k, v)]) = Some v.
Proof. intros Hk. rewrite od_get_app, Hk. cbn. by rewrite decide_True. Qed.

Lemma od_get_snoc_ne k k' v d : k ≠ k' → od_get k' (d ++ [(k, v)]) = od_get k' d.
Proof.
  intros Hne. rewrite od_get_app. cbn. rewrite decide_False by done. by destruct (od_get k' d).
Qed.

Lemma od_del_snoc k v d : od_get k d = None → od_del k (d ++ [(k, v)]) = d.
Proof.
  induction d as [|[k' v'] d IH]; cbn; [by rewrite decide_True|].
  destruct (decide (k = k')); [done|]. intros. by rewrite IH.
Qed.

Lemma od_get_snoc_inv k k' v v' d :
  od_get k' (d ++ [(k, v)]) = Some v' → od_get k' d = Some v' ∨ k' = k ∧ v' = v.
Proof.
  rewrite od_get_app. destruct (od_get k' d); [intros [= <-]; by left|]. cbn.
  destruct (decide (k' = k)) as [->|]; [|done]. intros [= <-]. by right.
Qed.

Lemma od_get_set k v d : od_get k (od_set k v d) = Some v.
Proof.
  induction d as [|[k' v'] d IH]; cbn; [by rewrite decide_True|].
  destruct (decide (k = k')); cbn; [by rewrite decide_True|]. by rewrite decide_False.
Qed.

Lemma od_get_set_ne k k' v d : k ≠ k' → od_get k' (od_set k v d) = od_get k' d.
Proof.
  intros Hne. induction d as [|[k0 v0] d IH]; cbn; [by rewrite decide_False|].
  destruct (decide (k = k0)) as [<-|]; cbn; [by rewrite !decide_False|]. by rewrite IH.
Qed.

Lemma od_set_keys k v d : is_Some (od_get k d) → (od_set k v d).*1 = d.*1.
Proof.
  intros [v' Hv]. destruct (od_split _ _ _ Hv) as (d1 & d2 & -> & _ & ->). by rewrite !fmap_app.
Qed.

Lemma od_wf_set k v d : od_wf d → od_wf (od_set k v d).
Proof.
  intros Hwf. destruct (od_get k d) eqn:E.
  - unfold od_wf. by rewrite od_set_keys.
  - rewrite od_set_new by done. by apply od_wf_snoc.
Qed.

Lemma od_length_del k d : is_Some (od_get k d) → Zlen (od_del k d) = Zlen d - 1.
Proof. intros [v Hv]. unfold Zlen. rewrite (od_del_Permutation _ _ _ Hv) at 2. cbn. lia. Qed.

Lemma od_length_set k v d : is_Some (od_get k d) → Zlen (od_set k v d) = Zlen d.
Proof.
  intros [v' Hv]. destruct (od_split _ _ _ Hv) as (d1 & d2 & -> & _ & ->). unfold Zlen.
  by rewrite !length_app.
Qed.

Lemma od_sum_app f d1 d2 : od_sum f (d1 ++ d2) = od_sum f d1 + od_sum f d2.
Proof. unfold od_sum. by rewrite fmap_app, Zsum_app. Qed.

Lemma od_sum_cons f p d : od_sum f (p :: d) = f p.2 + od_sum f d.
Proof. reflexivity. Qed.

Lemma od_sum_nil f : od_sum f [] = 0.
Proof. reflexivity. Qed.

Lemma od_sum_del f k v d : od_get k d = Some v → od_sum f (od_del k d) = od_sum f d - f v.
Proof.
  intros (d1 & d2 & -> & -> & _)%od_split. rewrite !od_sum_app, od_sum_cons. cbn. lia.
Qed.

Lemma od_sum_snoc f k v d : od_sum f (d ++ [(k, v)]) = od_sum f d + f v.
Proof. rewrite od_sum_app, od_sum_cons, od_sum_nil. cbn. lia. Qed.

Lemma od_sum_set f k v v' d :
  od_get k d = Some v → od_sum f (od_set k v' d) = od_sum f d - f v + f v'.
Proof.
  intros (d1 & d2 & -> & _ & ->)%od_split. rewrite !od_sum_app, !od_sum_cons. cbn. lia.
Qed.

Lemma od_sum_nonneg f d : (∀ k v, (k, v) ∈ d → 0 <= f v) → 0 <= od_sum f d.
Proof. intros H. apply Zsum_fmap_nonneg. intros [k v] Hin. by apply (H k). Qed.

(** *** Recency *)

Lemma od_get_move k k' d : od_wf d → od_get k' (od_move_to_end k d) = od_get k' d.
Proof.
  intros Hwf. unfold od_move_to_end. destruct (od_get k d) as [v|] eqn:E; [|done].
  destruct (decide (k = k')) as [<-|].
  - rewrite od_get_snoc; [done|by apply od_get_del].
  - by rewrite od_get_snoc_ne, od_get_del_ne.
Qed.

Lemma od_wf_move k d : od_wf d → od_wf (od_move_to_end k d).
Proof.
  intros Hwf. unfold od_move_to_end. destruct (od_get k d) as [v|] eqn:E; [|done].
  apply od_wf_snoc; [by apply od_wf_del|by apply od_get_del].
Qed.

Lemma od_length_move k d : Zlen (od_move_to_end k d) = Zlen d.
Proof.
  unfold od_move_to_end. destruct (od_get k d) as [v|] eqn:E; [|done].
  pose proof (od_length_del k d ltac:(eauto)). unfold Zlen in *. rewrite length_app. cbn. lia.
Qed.

Lemma od_sum_move f k d : od_sum f (od_move_to_end k d) = od_sum f d.
Proof.
  unfold od_move_to_end. destruct (od_get k d) as [v|] eqn:E; [|done].
  rewrite od_sum_snoc, (od_sum_del _ _ _ _ E). lia.
Qed.

(** *** Eviction

    [while len(d) > entries or size > bytes: _, v = d.popitem(last=False);
    size -= f(v); evictions += 1], with the dictionary, the size and the number
    of evictions at the end. *)
Fixpoint evict_to_limits (f : V → Z) (entries bytes : Z) d (size : Z) : list (K * V) * Z * Z :=
  if (Zlen d >? entries) || (size >? bytes) then
    match d with
    | [] => ([], size, 0)
    | (_, v) :: d' =>
        let '(d'', size', n) := evict_to_limits f entries bytes d' (size - f v) in
        (d'', size', n + 1)
    end
  else (d, size, 0).

(** The loop keeps the longest suffix within the limits: it ends within them,
    keeps the accounting exact, and evicts an entry only when keeping it and all
    later entries would exceed a limit. *)
Lemma evict_spec f entries bytes d :
  0 <= entries → 0 <= bytes →
  ∃ gone kept,
    evict_to_limits f entries bytes d (od_sum f d) = (kept, od_sum f kept, Zlen gone) ∧
    d = gone ++ kept ∧ Zlen kept <= entries ∧ od_sum f kept <= bytes ∧
    (∀ g1 p g2, gone = g1 ++ p :: g2 →
       entries < Zlen (p :: g2 ++ kept) ∨ bytes < od_sum f (p :: g2 ++ kept)).
Proof.
  intros He Hb. induction d as [|[k v] d IH]; cbn [evict_to_limits].
  - exists [], []. change (od_sum f []) with 0. change (Zlen (@nil (K * V))) with 0.
    destruct (_ || _) eqn:E.
    { rewrite orb_true_iff, !Z.gtb_lt in E. lia. }
    split_and!; try done. intros g1 p g2 Hg. by destruct g1.
  - destruct (_ || _) eqn:E.
    + destruct IH as (gone & kept & Heq & -> & Hl & Hs & Hg).
      rewrite od_sum_cons. cbn [snd]. replace (f v + od_sum f (gone ++ kept) - f v)
        with (od_sum f (gone ++ kept)) by lia. rewrite Heq.
      exists ((k, v) :: gone), kept. split_and!; try done.
      { f_equal. unfold Zlen. cbn. lia. }
      intros [|p1 g1] p g2 Hsplit; cbn in Hsplit; [|injection Hsplit as _ Hsplit; by eapply Hg].
      injection Hsplit as <- <-. rewrite orb_true_iff, !Z.gtb_lt in E. destruct E; [by left|by right].
    + exists [], ((k, v) :: d). apply orb_false_iff in E as [E1 E2]. breflect. split_and!; try done.
      intros g1 p g2 Hg. by destruct g1.
Qed.
End dict.

#[global] Arguments od_sum {K V} f d : simpl never.

End OrderedDict.
