(* ===== verification/PySort.v ===== *)
(** * [sorted] with a key

    Python's [sorted] is stable.  It is modelled as insertion sort over a boolean
    order: a permutation of its argument, in order, in which elements the order
    does not separate keep their places. *)

From Stdlib Require Import Sorted.
From S2P Require Import Prelude.

Module PySort.

Section sort.
Context {A : Type} (leb : A → A → bool).

(** Insert before the first element that is not smaller. *)
Fixpoint insert_by (x : A) (l : list A) : list A :=
  match l with
  | [] => [x]
  | y :: l' => if leb x y then x :: l else y :: insert_by x l'
  end.
Definition sorted_by (l : list A) : list A := foldr insert_by [] l.

Lemma insert_by_Permutation x l : insert_by x l ≡ₚ x :: l.
Proof.
  induction l as [|y l IH]; cbn; [done|]. destruct (leb x y); [done|]. rewrite IH. apply perm_swap.
Qed.
Lemma sorted_by_Permutation l : sorted_by l ≡ₚ l.
Proof. induction l as [|x l IH]; cbn; [done|]. by rewrite insert_by_Permutation, IH. Qed.
Lemma elem_of_sorted_by x l : x ∈ sorted_by l ↔ x ∈ l.
Proof. by rewrite sorted_by_Permutation. Qed.
Lemma length_sorted_by l : length (sorted_by l) = length l.
Proof. by rewrite sorted_by_Permutation. Qed.

(** The order is total and transitive on the elements sorted. *)
Context (P : A → Prop).
Hypothesis leb_total : ∀ x y, P x → P y → leb x y = false → leb y x = true.
Hypothesis leb_trans : ∀ x y z, P x → P y → P z → leb x y = true → leb y z = true → leb x z = true.

Lemma insert_by_sorted x l :
  P x → Forall P l → StronglySorted (λ a b, leb a b = true) l →
  StronglySorted (λ a b, leb a b = true) (insert_by x l).
Proof.
  intros Hx Hf. induction 1 as [|y l Hl IH Hy]; cbn; [repeat constructor|].
  apply Forall_cons in Hf as [Hpy Hf]. destruct (leb x y) eqn:E.
  - constructor; [by constructor|]. constructor; [done|]. rewrite Forall_forall in *.
    intros z Hz. eapply (leb_trans x y z); auto.
  - constructor; [by apply IH|]. rewrite insert_by_Permutation. constructor; [by apply leb_total|done].
Qed.
Lemma sorted_by_sorted l : Forall P l → StronglySorted (λ a b, leb a b = true) (sorted_by l).
Proof.
  induction 1 as [|x l Hx Hl IH]; cbn; [constructor|]. apply insert_by_sorted; [done| |done].
  by rewrite sorted_by_Permutation.
Qed.

(** What precedes in the result is not larger. *)
Lemma sorted_by_before l pre x mid y post :
  Forall P l → sorted_by l = pre ++ x :: mid ++ y :: post → leb x y = true.
Proof.
  intros Hf E. pose proof (sorted_by_sorted l Hf) as Hs. rewrite E in Hs. clear E.
  induction pre as [|z pre IH]; cbn in Hs; apply StronglySorted_inv in Hs as [H1 H2]; [|by apply IH].
  rewrite Forall_forall in H2. apply H2. apply elem_of_app. right. left.
Qed.
End sort.

(** ** The order of strings *)

Lemma string_compare_trans a : ∀ b c o,
  String.compare a b = o → String.compare b c = o → String.compare a c = o.
Proof.
  induction a as [|x a IH]; intros [|y b] [|z c] o; cbn; try congruence.
  unfold Ascii.compare.
  destruct (N.compare_spec (Ascii.N_of_ascii x) (Ascii.N_of_ascii y)) as [E1|L1|L1],
    (N.compare_spec (Ascii.N_of_ascii y) (Ascii.N_of_ascii z)) as [E2|L2|L2]; intros H1 H2; subst; try done.
  all: try (rewrite (proj2 (N.compare_eq_iff _ _)) by congruence; by eapply IH).
  all: try (rewrite (proj2 (N.compare_lt_iff _ _)) by lia; done).
  all: try (rewrite (proj2 (N.compare_gt_iff _ _)) by lia; done).
Qed.

Lemma string_leb_trans a b c : String.leb a b = true → String.leb b c = true → String.leb a c = true.
Proof.
  unfold String.leb. destruct (String.compare a b) eqn:E1; [|destruct (String.compare b c) eqn:E2|done]; try done.
  - by apply String.compare_eq_iff in E1 as ->.
  - apply String.compare_eq_iff in E2 as ->. by rewrite E1.
  - by rewrite (string_compare_trans _ _ _ _ E1 E2).
Qed.

Lemma string_leb_total a b : String.leb a b = false → String.leb b a = true.
Proof. intros H. destruct (String.leb_total a b) as [E|E]; [congruence|done]. Qed.

End PySort.
