(* ===== verification/PyBytes.v ===== *)
(** * Python byte strings

    [bytes] as lists of integers below 256, the big-endian text of an integer
    ([int.to_bytes]), and the digits [int(text, 16)] accepts. *)

From Stdlib Require Import Ascii.
From S2P Require Import Prelude Types.

Module PyBytes.

Abbreviation bytes := (list Z).

Definition is_byte (b : Z) : bool := (0 <=? b) && (b <? 256).
Definition bytes_ok (l : bytes) : Prop := Forall (λ b, 0 <= b < 256) l.

(** ** [n.to_bytes(length, "big")] *)

(** The low [8 * length] bits of [n], most significant byte first. *)
Fixpoint be_bytes (length : nat) (n : Z) : bytes :=
  match length with
  | O => []
  | S k => (n / 2 ^ (8 * Z.of_nat k)) mod 256 :: be_bytes k n
  end.

Definition to_bytes_big (length : nat) (n : Z) : res exn bytes :=
  check ((0 <=? n) && (n <? 2 ^ (8 * Z.of_nat length))) OverflowError (be_bytes length n).

(** The text of the characters of a string. *)
Fixpoint ascii_bytes (s : string) : bytes :=
  match s with
  | EmptyString => []
  | String c s' => Z.of_nat (Ascii.nat_of_ascii c) :: ascii_bytes s'
  end.

Lemma length_be_bytes k n : length (be_bytes k n) = k.
Proof. induction k as [|k IH]; cbn; [done|]. by rewrite IH. Qed.

(** The value the bytes stand for. *)
Fixpoint from_bytes_big (l : bytes) : Z :=
  match l with
  | [] => 0
  | b :: l' => b * 2 ^ (8 * Zlen l') + from_bytes_big l'
  end.

Lemma from_be_bytes k n : from_bytes_big (be_bytes k n) = n mod 2 ^ (8 * Z.of_nat k).
Proof.
  induction k as [|k IH]; [cbn; by rewrite Z.mod_1_r|].
  cbn [be_bytes from_bytes_big]. rewrite IH. unfold Zlen. rewrite length_be_bytes.
  set (m := 2 ^ (8 * Z.of_nat k)).
  assert (0 < m) by (apply Z.pow_pos_nonneg; lia).
  replace (2 ^ (8 * Z.of_nat (S k))) with (m * 256)
    by (unfold m; rewrite <-(Z.pow_add_r 2 _ 8) by lia; f_equal; lia).
  rewrite Z.rem_mul_r by lia. lia.
Qed.

Lemma to_bytes_big_inj k n m l :
  to_bytes_big k n = Ok l → to_bytes_big k m = Ok l → n = m.
Proof.
  unfold to_bytes_big, check. intros Hn Hm. run_cases Hn. run_cases Hm. breflect.
  rewrite <-(Z.mod_small n (2 ^ (8 * Z.of_nat k))), <-(Z.mod_small m (2 ^ (8 * Z.of_nat k))) by lia.
  rewrite <-!from_be_bytes. congruence.
Qed.

Lemma to_bytes_big_length k n l : to_bytes_big k n = Ok l → length l = k.
Proof. unfold to_bytes_big, check. intros H. run_cases H. apply length_be_bytes. Qed.

(** The texts of a list of integers, one after the other. *)
Fixpoint concat_bytes (k : nat) (ns : list Z) : res exn bytes :=
  match ns with
  | [] => Ok []
  | n :: ns' =>
      match to_bytes_big k n with
      | Raise e => Raise e
      | Ok b => match concat_bytes k ns' with Ok l => Ok (b ++ l) | Raise e => Raise e end
      end
  end.

Lemma concat_bytes_cons k n ns l :
  concat_bytes k (n :: ns) = Ok l →
  ∃ b l', to_bytes_big k n = Ok b ∧ concat_bytes k ns = Ok l' ∧ l = b ++ l'.
Proof.
  cbn [concat_bytes]. destruct (to_bytes_big k n) as [b|]; [|done].
  destruct (concat_bytes k ns) as [l'|]; [|done]. intros [= <-]. by exists b, l'.
Qed.

(** Texts of one width can be told apart. *)
Lemma concat_bytes_inj k ns ms l :
  k ≠ O → concat_bytes k ns = Ok l → concat_bytes k ms = Ok l → ns = ms.
Proof.
  intros Hk. revert ms l. induction ns as [|n ns IH]; intros [|m ms] l Hn Hm; [done| | |].
  - destruct (concat_bytes_cons _ _ _ _ Hm) as (b & l' & Hb & _ & ->).
    apply to_bytes_big_length in Hb. destruct b; [cbn in Hb; lia|done].
  - destruct (concat_bytes_cons _ _ _ _ Hn) as (b & l' & Hb & _ & ->).
    apply to_bytes_big_length in Hb. destruct b; [cbn in Hb; lia|done].
  - destruct (concat_bytes_cons _ _ _ _ Hn) as (b1 & l1 & Hb1 & Hl1 & ->).
    destruct (concat_bytes_cons _ _ _ _ Hm) as (b2 & l2 & Hb2 & Hl2 & Heq).
    apply app_inj_1 in Heq as [-> ->];
      [|by rewrite (to_bytes_big_length _ _ _ Hb1), (to_bytes_big_length _ _ _ Hb2)].
    f_equal; [by eapply to_bytes_big_inj|by eapply IH].
Qed.

Lemma concat_bytes_ok k ns :
  is_ok (concat_bytes k ns) = forallb (λ n, (0 <=? n) && (n <? 2 ^ (8 * Z.of_nat k))) ns.
Proof.
  induction ns as [|n ns IH]; [done|]. cbn [concat_bytes forallb]. unfold to_bytes_big, check.
  destruct (_ && _); [|done]. rewrite <-IH. by destruct (concat_bytes k ns).
Qed.

(** ** [json.dumps] of a string

    The escapes of the encoder with [ensure_ascii]; strings are ASCII. *)

Definition hex_digit (n : nat) : ascii :=
  ascii_of_nat (if Nat.ltb n 10 then 48 + n else 87 + n)%nat.
Definition json_escape (c : ascii) : string :=
  let n := nat_of_ascii c in
  if Nat.eqb n 34 then String (ascii_of_nat 92) (String c EmptyString)
  else if Nat.eqb n 92 then String c (String c EmptyString)
  else if Nat.eqb n 10 then String (ascii_of_nat 92) "n"
  else if Nat.eqb n 13 then String (ascii_of_nat 92) "r"
  else if Nat.eqb n 9 then String (ascii_of_nat 92) "t"
  else if Nat.eqb n 12 then String (ascii_of_nat 92) "f"
  else if Nat.eqb n 8 then String (ascii_of_nat 92) "b"
  else if Nat.ltb n 32 || Nat.leb 127 n
  then String (ascii_of_nat 92)
         ("u00" +:+ String (hex_digit (n / 16)) (String (hex_digit (n mod 16)) EmptyString))
  else String c EmptyString.
Fixpoint json_escapes (s : string) : string :=
  match s with EmptyString => EmptyString | String c s' => (json_escape c +:+ json_escapes s')%string end.
Definition json_string (s : string) : string := quoted (json_escapes s).
Definition json_bool (b : bool) : string := if b then "true" else "false".

Example json_string_plain : json_string "ab-1" = quoted "ab-1". Proof. reflexivity. Qed.

(** ** [int(text, 16)]

    Surrounding white space, one sign, the prefix [0x] and single underscores
    between digits are accepted. *)

Definition is_space (c : Ascii.ascii) : bool :=
  let n := Ascii.nat_of_ascii c in (Nat.leb 9 n && Nat.leb n 13) || Nat.eqb n 32.
Definition is_hex_digit (c : Ascii.ascii) : bool :=
  let n := Ascii.nat_of_ascii c in
  (Nat.leb 48 n && Nat.leb n 57) || (Nat.leb 65 n && Nat.leb n 70) || (Nat.leb 97 n && Nat.leb n 102).

Fixpoint skip_space (l : list Ascii.ascii) : list Ascii.ascii :=
  match l with c :: l' => if is_space c then skip_space l' else l | [] => [] end.

(** The digits with single underscores between them; what follows them. *)
Fixpoint scan_digits (after_underscore : bool) (l : list Ascii.ascii) : option (list Ascii.ascii) :=
  match l with
  | [] => if after_underscore then None else Some []
  | c :: l' =>
      if is_hex_digit c then scan_digits false l'
      else if Ascii.eqb c "_"%char then if after_underscore then None else scan_digits true l'
      else if after_underscore then None else Some l
  end.

Definition int16_accepts (text : string) : bool :=
  let l := skip_space (String.list_ascii_of_string text) in
  let l := match l with
           | c :: l' => if Ascii.eqb c "+"%char || Ascii.eqb c "-"%char then l' else l
           | [] => [] end in
  let l := match l with
           | c :: x :: l' =>
               if Ascii.eqb c "0"%char && (Ascii.eqb x "x"%char || Ascii.eqb x "X"%char)
               then match l' with u :: l'' => if Ascii.eqb u "_"%char then l'' else l' | [] => [] end
               else l
           | _ => l end in
  match l with
  | c :: _ => is_hex_digit c && match scan_digits false l with
                                | Some rest => bool_decide (skip_space rest = [])
                                | None => false
                                end
  | [] => false
  end.

Example int16_plain : int16_accepts "00ff" = true. Proof. reflexivity. Qed.
Example int16_decorated : int16_accepts " -0x_f_f " = true. Proof. reflexivity. Qed.
Example int16_double_underscore : int16_accepts "f__f" = false. Proof. reflexivity. Qed.
Example int16_no_digits : int16_accepts "0x" = false. Proof. reflexivity. Qed.

End PyBytes.
