(* ===== verification/DeviceResources.v ===== *)
(** * Unified device resource ledger (device_resources.py)

    Atomic bounded accounting of unified memory, CPU threads, GPU queues, ANE
    tasks and bandwidth slots.  Every public method of the class runs under its
    lock, so a method is one transition of the ledger state. *)

From S2P Require Import Prelude Types.

Module DeviceResources.

(** ** Data *)

(** The five fixed keys of the capacity, usage and demand dictionaries. *)
Record Vec := mkVec {
  unified_memory : Z;
  cpu : Z;
  gpu : Z;
  ane : Z;
  bandwidth : Z;
}.

Definition vec_zero : Vec := mkVec 0 0 0 0 0.
Definition vec_map2 (f : Z → Z → Z) (a b : Vec) : Vec :=
  mkVec (f (unified_memory a) (unified_memory b)) (f (cpu a) (cpu b)) (f (gpu a) (gpu b))
        (f (ane a) (ane b)) (f (bandwidth a) (bandwidth b)).
Definition vec_add : Vec → Vec → Vec := vec_map2 Z.add.
Definition vec_sub : Vec → Vec → Vec := vec_map2 Z.sub.
Definition vec_items (a : Vec) : list (string * Z) :=
  [("unified_memory_bytes", unified_memory a); ("cpu_threads", cpu a);
   ("gpu_command_queues", gpu a); ("ane_tasks", ane a); ("bandwidth_slots", bandwidth a)].

(** Componentwise order. *)
Definition vec_le (a b : Vec) : Prop :=
  unified_memory a <= unified_memory b ∧ cpu a <= cpu b ∧ gpu a <= gpu b ∧
  ane a <= ane b ∧ bandwidth a <= bandwidth b.

(** [tuple(key for key in demand if needed[key] > capacity[key])] *)
Definition exhausted_keys (needed capacity : Vec) : list string :=
  let over n c (k : string) := if n >? c then [k] else [] in
  over (unified_memory needed) (unified_memory capacity) "unified_memory_bytes" ++
  over (cpu needed) (cpu capacity) "cpu_threads" ++
  over (gpu needed) (gpu capacity) "gpu_command_queues" ++
  over (ane needed) (ane capacity) "ane_tasks" ++
  over (bandwidth needed) (bandwidth capacity) "bandwidth_slots".

Record DeviceResourceRequest := mkRequest {
  backend : ExecutionBackend;
  unified_memory_bytes : Z;
  cpu_threads : Z;
  gpu_command_queues : Z;
  ane_tasks : Z;
  bandwidth_slots : Z;
}.

Definition demand (r : DeviceResourceRequest) : Vec :=
  mkVec (unified_memory_bytes r) (cpu_threads r) (gpu_command_queues r)
        (ane_tasks r) (bandwidth_slots r).

(** [DeviceResourceRequest.__post_init__] *)
Definition request_valid (r : DeviceResourceRequest) : bool :=
  negb (existsb (λ v, v <? 0)
          [unified_memory_bytes r; cpu_threads r; gpu_command_queues r; ane_tasks r;
           bandwidth_slots r]
        || (bandwidth_slots r <? 1)
        || (cpu_threads r >? 1024)
        || (gpu_command_queues r >? 64)
        || (ane_tasks r >? 64)
        || (bandwidth_slots r >? 64)).

Definition make_request (r : DeviceResourceRequest) : res exn DeviceResourceRequest :=
  check (request_valid r) (ValueError "invalid device resource request") r.

(** [DeviceResourceRequest.for_backend] *)
Definition for_backend (b : ExecutionBackend) (bytes : Z) : res exn DeviceResourceRequest :=
  make_request
    {| backend := b;
       unified_memory_bytes := bytes;
       cpu_threads := if decide (b = CPU) then 1 else 0;
       gpu_command_queues :=
         if decide (b ∈ [VLLM_METAL; NATIVE_MLX; NATIVE_METAL]) then 1 else 0;
       ane_tasks := if decide (b = COREML_DRAFT) then 1 else 0;
       bandwidth_slots := 1 |}.

Record DeviceResourceReservation := mkReservation {
  reservation_id : string;
  request : DeviceResourceRequest;
}.

Record BandwidthContentionEvidence := {
  profile_id : string;
  first_backend : ExecutionBackend;
  second_backend : ExecutionBackend;
  sequential_latency_nanoseconds : Z;
  parallel_latency_nanoseconds : Z;
  sample_count : Z;
  outputs_match : bool;
}.

(** [BandwidthContentionEvidence.__post_init__] *)
Definition evidence_valid (e : BandwidthContentionEvidence) : bool :=
  negb ((str_len (profile_id e) =? 0) || (str_len (profile_id e) >? 128)
        || bool_decide (first_backend e = second_backend e)
        || (sequential_latency_nanoseconds e <? 1)
        || (parallel_latency_nanoseconds e <? 1)
        || negb ((3 <=? sample_count e) && (sample_count e <=? 1024))).

(** [BandwidthContentionEvidence.qualified] *)
Definition qualified (e : BandwidthContentionEvidence) : bool :=
  outputs_match e
  && (parallel_latency_nanoseconds e * 100 <=? sequential_latency_nanoseconds e * 95).

(** [frozenset((a, b))] *)
Definition pair (a b : ExecutionBackend) : gset ExecutionBackend := {[a; b]}.

Definition nul : string := String (Ascii.ascii_of_nat 0) EmptyString.

(** [contention_profile_id], over the digest function of hashlib. *)
Definition contention_profile_id (sha256_hex : string → string)
    (soc os_version architecture : string) : res exn string :=
  if existsb (λ v, bool_decide (v = EmptyString)) [soc; os_version; architecture]
  then Raise (ValueError "contention profile identity is invalid")
  else Ok (sha256_hex (soc +:+ nul +:+ os_version +:+ nul +:+ architecture)).

Record Ledger := mkLedger {
  contention_profile : string;
  capacity : Vec;
  used : Vec;
  reservations : gmap string DeviceResourceRequest;
  qualified_pairs : gset (gset ExecutionBackend);
}.

Definition set_used_reservations (u : Vec) (rs : gmap string DeviceResourceRequest)
    (l : Ledger) : Ledger :=
  mkLedger (contention_profile l) (capacity l) u rs (qualified_pairs l).
Definition set_pairs (q : gset (gset ExecutionBackend)) (l : Ledger) : Ledger :=
  mkLedger (contention_profile l) (capacity l) (used l) (reservations l) q.

(** [UnifiedDeviceResourceLedger.__init__] *)
Definition new_ledger (cap : Vec) (profile : string) : res exn Ledger :=
  if existsb (λ kv : string * Z, kv.2 <? 0) (vec_items cap)
  then Raise (ValueError "invalid device resource capacity")
  else if (bandwidth cap <? 1) || (cpu cap <? 1)
  then Raise (ValueError "CPU and bandwidth capacities must be positive")
  else if (str_len profile =? 0) || (str_len profile >? 128)
  then Raise (ValueError "contention profile ID is invalid")
  else Ok (mkLedger profile cap vec_zero ∅ ∅).

(** ** Operations *)

(** [{value.backend for value in reservations.values()}] *)
Definition active_backends (rs : gmap string DeviceResourceRequest) : gset ExecutionBackend :=
  list_to_set ((λ p, backend p.2) <$> map_to_list rs).

(** Some active backend differs from [b] and is not qualified to run with it. *)
Definition contended (q : gset (gset ExecutionBackend)) (active : gset ExecutionBackend)
    (b : ExecutionBackend) : bool :=
  existsb (λ a, negb (bool_decide (a = b)) && negb (bool_decide (pair a b ∈ q)))
          (elements active).

Definition unavailable (why : string) : exn :=
  DeviceResourceCapacityError ("device resources unavailable: " +:+ why).

(** [reserve]: [uuid] is the value of [uuid.uuid4().hex]. *)
Definition reserve (uuid : string) (r : DeviceResourceRequest)
    (steal_from : option ExecutionBackend) : Py Ledger DeviceResourceReservation := λ l,
  let active := active_backends (reservations l) in
  let steal_bad :=
    match steal_from with
    | None => false
    | Some s =>
        negb (bool_decide (s ∈ active)) || bool_decide (backend r ∈ active)
        || negb (bool_decide (pair s (backend r) ∈ qualified_pairs l))
    end in
  if steal_bad then (Raise (unavailable "work_steal_unqualified_or_busy"), l)
  else if contended (qualified_pairs l) active (backend r)
  then (Raise (unavailable "bandwidth_contention_unqualified"), l)
  else
    match exhausted_keys (vec_add (used l) (demand r)) (capacity l) with
    | [] =>
        (Ok (mkReservation uuid r),
         set_used_reservations (vec_add (used l) (demand r))
                               (<[uuid := r]> (reservations l)) l)
    | keys => (Raise (unavailable (str_join "," keys)), l)
    end.

(** Every two distinct members of the group are a qualified pair. *)
Fixpoint all_pairs_qualified (q : gset (gset ExecutionBackend))
    (bs : list ExecutionBackend) : bool :=
  match bs with
  | [] => true
  | b :: bs' => forallb (λ c, bool_decide (pair b c ∈ q)) bs' && all_pairs_qualified q bs'
  end.

Definition total_demand (rs : list DeviceResourceRequest) : Vec :=
  foldl (λ acc r, vec_add acc (demand r)) vec_zero rs.

Definition insert_reservations (uuids : list string) (requests : list DeviceResourceRequest)
    (rs : gmap string DeviceResourceRequest) : gmap string DeviceResourceRequest :=
  foldl (λ acc ur, <[ur.1 := ur.2]> acc) rs (zip uuids requests).

(** [reserve_many]: [uuids] are the successive values of [uuid.uuid4().hex]. *)
Definition reserve_many (uuids : list string) (requests : list DeviceResourceRequest)
    : Py Ledger (list DeviceResourceReservation) := λ l,
  if negb ((2 <=? Zlen requests) && (Zlen requests <=? 3))
     || negb (bool_decide
          (size (list_to_set (backend <$> requests) : gset ExecutionBackend)
           = length requests))
  then (Raise (ValueError "pipeline requires two or three distinct device backends"), l)
  else
    let combined := total_demand requests in
    let all_backends :=
      elements (active_backends (reservations l)
                ∪ list_to_set (backend <$> requests)) in
    if negb (all_pairs_qualified (qualified_pairs l) all_backends)
    then (Raise (unavailable "bandwidth_contention_unqualified"), l)
    else
      match exhausted_keys (vec_add (used l) combined) (capacity l) with
      | [] =>
          (Ok (zip_with mkReservation uuids requests),
           set_used_reservations (vec_add (used l) combined)
             (insert_reservations uuids requests (reservations l)) l)
      | keys => (Raise (unavailable (str_join "," keys)), l)
      end.

(** [transfer] *)
Definition transfer (rid : string) (r : DeviceResourceRequest)
    : Py Ledger DeviceResourceReservation := λ l,
  match reservations l !! rid with
  | None => (Raise (ValueError "device resource reservation does not exist"), l)
  | Some previous =>
      let others := active_backends (delete rid (reservations l)) in
      if contended (qualified_pairs l) others (backend r)
      then (Raise (unavailable "bandwidth_contention_unqualified"), l)
      else
        match exhausted_keys (vec_add (vec_sub (used l) (demand previous)) (demand r))
                             (capacity l) with
        | [] =>
            (Ok (mkReservation rid r),
             set_used_reservations (vec_add (used l) (vec_sub (demand r) (demand previous)))
                                   (<[rid := r]> (reservations l)) l)
        | keys => (Raise (unavailable (str_join "," keys)), l)
        end
  end.

(** [install_contention_evidence] *)
Definition install_contention_evidence (e : BandwidthContentionEvidence) : Py Ledger bool := λ l,
  if negb (bool_decide (profile_id e = contention_profile l))
  then (Raise (ValueError "bandwidth contention evidence profile mismatch"), l)
  else if negb (qualified e) then (Ok false, l)
  else (Ok true,
        set_pairs ({[pair (first_backend e) (second_backend e)]} ∪ qualified_pairs l) l).

(** [is_contention_pair_qualified] *)
Definition is_contention_pair_qualified (first second : ExecutionBackend) (l : Ledger) : bool :=
  if decide (first = second) then false
  else bool_decide (pair first second ∈ qualified_pairs l).

(** [can_steal] *)
Definition can_steal (source target : ExecutionBackend) (l : Ledger) : bool :=
  let active := active_backends (reservations l) in
  bool_decide (source ∈ active) && negb (bool_decide (target ∈ active))
  && bool_decide (pair source target ∈ qualified_pairs l).

(** [replace_contention_evidence] *)
Definition replace_contention_evidence (evidence : list BandwidthContentionEvidence)
    : Py Ledger () := λ l,
  if negb ((1 <=? Zlen evidence) && (Zlen evidence <=? 16))
     || existsb (λ e, negb (bool_decide (profile_id e = contention_profile l))
                      || negb (qualified e)) evidence
  then (Raise (ValueError "invalid replacement contention evidence"), l)
  else
    let pairs : gset (gset ExecutionBackend) :=
      list_to_set ((λ e, pair (first_backend e) (second_backend e)) <$> evidence) in
    if negb (bool_decide (size pairs = length evidence))
    then (Raise (ValueError "duplicate replacement contention evidence"), l)
    else (Ok (), set_pairs pairs l).

(** [release] *)
Definition release (rid : string) : Py Ledger bool := λ l,
  match reservations l !! rid with
  | None => (Ok false, l)
  | Some r =>
      (Ok true, set_used_reservations (vec_sub (used l) (demand r))
                                      (delete rid (reservations l)) l)
  end.

Record Snapshot := {
  snap_capacity : Vec;
  snap_used : Vec;
  snap_available : Vec;
  snap_active_reservations : Z;
  snap_contention_profile_id : string;
  snap_qualified_contention_pairs : Z;
  snap_contention_profile_loaded : bool;
}.

(** [snapshot] *)
Definition snapshot (l : Ledger) : Snapshot :=
  {| snap_capacity := capacity l;
     snap_used := used l;
     snap_available := vec_sub (capacity l) (used l);
     snap_active_reservations := Zsize (reservations l);
     snap_contention_profile_id := contention_profile l;
     snap_qualified_contention_pairs := Z.of_nat (size (qualified_pairs l));
     snap_contention_profile_loaded := negb (bool_decide (qualified_pairs l = ∅)) |}.

(** ** Lemmas on demand vectors *)

Lemma vec_eq a b :
  unified_memory a = unified_memory b → cpu a = cpu b → gpu a = gpu b → ane a = ane b →
  bandwidth a = bandwidth b → a = b.
Proof. destruct a, b. cbn. congruence. Qed.

(** Decide an equation between vectors by linear arithmetic on the components. *)
Ltac vec_solve := apply vec_eq; cbn in *; lia.

Lemma exhausted_keys_nil n c : exhausted_keys n c = [] ↔ vec_le n c.
Proof.
  unfold exhausted_keys, vec_le. rewrite !app_nil.
  split.
  - intros (H1 & H2 & H3 & H4 & H5).
    repeat match goal with H : (if ?b then _ else _) = [] |- _ => destruct b eqn:?; [done|] end.
    breflect. lia.
  - intros (?&?&?&?&?). repeat split; case_match; breflect; try done; lia.
Qed.

Lemma vec_add_comm a b : vec_add a b = vec_add b a.
Proof. vec_solve. Qed.
Lemma vec_add_assoc a b c : vec_add a (vec_add b c) = vec_add (vec_add a b) c.
Proof. vec_solve. Qed.
Lemma vec_add_zero_r a : vec_add a vec_zero = a.
Proof. vec_solve. Qed.
Lemma vec_add_sub a b : vec_sub (vec_add a b) b = a.
Proof. vec_solve. Qed.

Lemma vec_le_trans a b c : vec_le a b → vec_le b c → vec_le a c.
Proof. unfold vec_le. lia. Qed.

(** The usage a reservation table accounts for. *)
Definition used_of (rs : gmap string DeviceResourceRequest) : Vec :=
  mkVec (map_sum unified_memory_bytes rs) (map_sum cpu_threads rs)
        (map_sum gpu_command_queues rs) (map_sum ane_tasks rs) (map_sum bandwidth_slots rs).

Lemma used_of_empty : used_of ∅ = vec_zero.
Proof. unfold used_of. by rewrite !map_sum_empty. Qed.

Lemma used_of_insert rs k r :
  rs !! k = None → used_of (<[k:=r]> rs) = vec_add (used_of rs) (demand r).
Proof. intros Hk. apply vec_eq; cbn; rewrite map_sum_insert by done; lia. Qed.

Lemma used_of_delete rs k r :
  rs !! k = Some r → used_of (delete k rs) = vec_sub (used_of rs) (demand r).
Proof. intros Hk. apply vec_eq; cbn; by erewrite map_sum_delete. Qed.

Lemma used_of_replace rs k r r' :
  rs !! k = Some r →
  used_of (<[k:=r']> rs) = vec_add (used_of rs) (vec_sub (demand r') (demand r)).
Proof. intros Hk. apply vec_eq; cbn; erewrite map_sum_replace by done; lia. Qed.

Lemma total_demand_acc rs : ∀ acc,
  foldl (λ a r, vec_add a (demand r)) acc rs = vec_add acc (total_demand rs).
Proof.
  unfold total_demand. induction rs as [|r rs IH]; intros acc; cbn.
  - by rewrite vec_add_zero_r.
  - rewrite IH, (IH (vec_add vec_zero _)). vec_solve.
Qed.

Lemma insert_reservations_fresh uuids : ∀ requests rs k,
  k ∉ uuids → insert_reservations uuids requests rs !! k = rs !! k.
Proof.
  unfold insert_reservations.
  induction uuids as [|u us IH]; intros [|r requests] rs k Hk; cbn; try done.
  rewrite IH by set_solver. apply lookup_insert_ne. set_solver.
Qed.

Lemma used_of_insert_reservations uuids : ∀ requests rs,
  NoDup uuids → length uuids = length requests → Forall (λ u, rs !! u = None) uuids →
  used_of (insert_reservations uuids requests rs) =
  vec_add (used_of rs) (total_demand requests).
Proof.
  induction uuids as [|u us IH]; intros [|r requests] rs Hnd Hlen Hf; cbn in *; try done.
  - by rewrite vec_add_zero_r.
  - apply NoDup_cons in Hnd as [Hu Hnd]. apply Forall_cons in Hf as [Hu' Hf].
    change (foldl _ (<[u:=r]> rs) (zip us requests))
      with (insert_reservations us requests (<[u:=r]> rs)).
    rewrite IH; [|done|lia|].
    + rewrite used_of_insert by done.
      change (total_demand (r :: requests))
        with (foldl (λ a r, vec_add a (demand r)) (vec_add vec_zero (demand r)) requests).
      rewrite total_demand_acc. vec_solve.
    + apply Forall_forall. intros k Hk. rewrite lookup_insert_ne by set_solver.
      rewrite Forall_forall in Hf. eauto.
Qed.

Lemma insert_reservations_Forall (P : DeviceResourceRequest → Prop) uuids : ∀ requests rs,
  Forall P requests → map_Forall (λ _, P) rs →
  map_Forall (λ _, P) (insert_reservations uuids requests rs).
Proof.
  unfold insert_reservations.
  induction uuids as [|u us IH]; intros [|r requests] rs HP Hrs; cbn; try done.
  apply Forall_cons in HP as [??]. apply IH; [done|]. by apply map_Forall_insert_2.
Qed.

(** ** Lemmas on the active backends *)

Lemma elem_of_active_backends rs b :
  b ∈ active_backends rs ↔ ∃ k r, rs !! k = Some r ∧ backend r = b.
Proof.
  unfold active_backends. rewrite elem_of_list_to_set, list_elem_of_fmap. split.
  - intros [[k r] [-> Hk]]. exists k, r. by rewrite <-elem_of_map_to_list.
  - intros (k & r & Hk & <-). exists (k, r). by rewrite elem_of_map_to_list.
Qed.

Lemma contended_false q active b :
  contended q active b = false ↔ ∀ a, a ∈ active → a ≠ b → pair a b ∈ q.
Proof.
  unfold contended. split.
  - intros H a Ha Hne.
    destruct (decide (pair a b ∈ q)) as [|Hq]; [done|].
    assert (existsb (λ a, negb (bool_decide (a = b)) && negb (bool_decide (pair a b ∈ q)))
                    (elements active) = true) as Ht.
    { apply existsb_exists. exists a. rewrite <-list_elem_of_In, elem_of_elements.
      by rewrite !bool_decide_eq_false_2. }
    congruence.
  - intros H. apply not_true_is_false. intros [a [Ha Hc]]%existsb_exists.
    rewrite <-list_elem_of_In, elem_of_elements in Ha. breflect. eauto.
Qed.

Lemma pair_comm a b : pair a b = pair b a.
Proof. unfold pair. apply (comm_L (∪)). Qed.

Lemma all_pairs_qualified_spec q bs :
  all_pairs_qualified q bs = true →
  ∀ a b, a ∈ bs → b ∈ bs → a ≠ b → pair a b ∈ q.
Proof.
  induction bs as [|c bs IH]; [set_solver|]. cbn. intros H a b Ha Hb Hne. breflect.
  match goal with H : forallb _ _ = true |- _ => rewrite forallb_forall in H end.
  assert (∀ d, d ∈ bs → pair c d ∈ q) as Hc.
  { intros d Hd. apply (bool_decide_eq_true (pair c d ∈ q)). apply H. by apply list_elem_of_In. }
  apply elem_of_cons in Ha as [->|Ha]; apply elem_of_cons in Hb as [->|Hb]; eauto; [done|].
  rewrite pair_comm. eauto.
Qed.

#[export] Hint Resolve vec_le_trans : pydb.

(** ** Invariant and transition system *)

(** The ledger accounts exactly for its reservations and never overcommits. *)
Record ledger_inv (l : Ledger) : Prop := {
  inv_used : used l = used_of (reservations l);
  inv_capacity : vec_le (used l) (capacity l);
  inv_valid : map_Forall (λ _ r, request_valid r = true) (reservations l);
}.

(** Two active reservations on distinct backends are a qualified pair. *)
Definition coexist (l : Ledger) : Prop :=
  ∀ a b, a ∈ active_backends (reservations l) → b ∈ active_backends (reservations l) →
         a ≠ b → pair a b ∈ qualified_pairs l.

(** The calls other components make, with the values drawn by uuid4. *)
Inductive op :=
| OpReserve (uuid : string) (r : DeviceResourceRequest) (steal : option ExecutionBackend)
| OpReserveMany (uuids : list string) (rs : list DeviceResourceRequest)
| OpTransfer (rid : string) (r : DeviceResourceRequest)
| OpInstall (e : BandwidthContentionEvidence)
| OpReplace (es : list BandwidthContentionEvidence)
| OpRelease (rid : string).

Definition run_op (o : op) : Py Ledger () :=
  match o with
  | OpReserve u r s => reserve u r s ;;; ret ()
  | OpReserveMany us rs => reserve_many us rs ;;; ret ()
  | OpTransfer k r => transfer k r ;;; ret ()
  | OpInstall e => install_contention_evidence e ;;; ret ()
  | OpReplace es => replace_contention_evidence es
  | OpRelease k => release k ;;; ret ()
  end.

(** Requests passed [__post_init__]; identifiers drawn by uuid4 are new. *)
Definition op_ok (o : op) (l : Ledger) : Prop :=
  match o with
  | OpReserve u r _ => request_valid r = true ∧ reservations l !! u = None
  | OpReserveMany us rs =>
      Forall (λ r, request_valid r = true) rs ∧ NoDup us ∧ length us = length rs ∧
      Forall (λ u, reservations l !! u = None) us
  | OpTransfer _ r => request_valid r = true
  | _ => True
  end.

Definition step (l l' : Ledger) : Prop := ∃ o, op_ok o l ∧ (run_op o l).2 = l'.
(** The steps that do not withdraw a qualification. *)
Definition is_replace (o : op) : bool := match o with OpReplace _ => true | _ => false end.
Definition step_keep (l l' : Ledger) : Prop :=
  ∃ o, is_replace o = false ∧ op_ok o l ∧ (run_op o l).2 = l'.

Lemma request_valid_nonneg r :
  request_valid r = true → vec_le vec_zero (demand r).
Proof. unfold request_valid, vec_le. cbn. intros H. breflect. lia. Qed.

(** Split a run of an operation into its branches. *)
Ltac op_branches := repeat case_match; simplify_eq/=.

Lemma vec_sub_le u d c : vec_le u c → vec_le vec_zero d → vec_le (vec_sub u d) c.
Proof. unfold vec_le. cbn. lia. Qed.

Lemma op_preserves_inv o l : op_ok o l → ledger_inv l → ledger_inv (run_op o l).2.
Proof.
  intros Hok Hinv. destruct (Hinv) as [Hu Hc Hv].
  destruct o as [u r st|us rs|k r|e|es|k]; cbn in Hok;
    unfold run_op, bind, ret, reserve, reserve_many, transfer,
      install_contention_evidence, replace_contention_evidence, release.
  - destruct Hok as [Hr Hfresh]. op_branches; try exact Hinv.
    all: split; cbn; [by rewrite used_of_insert, Hu|by apply exhausted_keys_nil|].
    all: by apply map_Forall_insert_2.
  - destruct Hok as (Hr & Hnd & Hlen & Hf). op_branches; try exact Hinv.
    split; cbn; [by rewrite used_of_insert_reservations, Hu|by apply exhausted_keys_nil|].
    by apply (insert_reservations_Forall (λ r, request_valid r = true)).
  - op_branches; try exact Hinv. split; cbn.
    + erewrite used_of_replace by done. by rewrite Hu.
    + replace (vec_add (used l) _)
        with (vec_add (vec_sub (used l) (demand d)) (demand r)) by vec_solve.
      by apply exhausted_keys_nil.
    + by apply map_Forall_insert_2.
  - op_branches; exact Hinv || (split; cbn; done).
  - op_branches; exact Hinv || (split; cbn; done).
  - op_branches; try exact Hinv. split; cbn.
    + erewrite used_of_delete by done. by rewrite Hu.
    + apply vec_sub_le; [done|]. eapply request_valid_nonneg, Hv. eassumption.
    + by apply map_Forall_delete.
Qed.

Lemma active_backends_insert rs k r a :
  a ∈ active_backends (<[k:=r]> rs) → a = backend r ∨ a ∈ active_backends (delete k rs).
Proof.
  rewrite !elem_of_active_backends. intros (k' & r' & Hk & <-).
  destruct (decide (k = k')) as [->|Hne].
  - rewrite lookup_insert_eq in Hk. simplify_eq. by left.
  - rewrite lookup_insert_ne in Hk by done. right. exists k', r'.
    by rewrite lookup_delete_ne.
Qed.

Lemma active_backends_delete rs k a :
  a ∈ active_backends (delete k rs) → a ∈ active_backends rs.
Proof.
  rewrite !elem_of_active_backends. intros (k' & r' & [? Hk]%lookup_delete_Some & <-). eauto.
Qed.

Lemma active_backends_insert_reservations uuids : ∀ requests rs a,
  a ∈ active_backends (insert_reservations uuids requests rs) →
  a ∈ backend <$> requests ∨ a ∈ active_backends rs.
Proof.
  unfold insert_reservations.
  induction uuids as [|u us IH]; intros [|r requests] rs a Ha; cbn in *; auto.
  apply IH in Ha as [Ha|Ha]; [left; by right|].
  apply active_backends_insert in Ha as [->|Ha%active_backends_delete]; [left; left|auto].
Qed.

(** A new active backend qualified against the others keeps the group qualified. *)
Lemma coexist_extend q rs k r :
  (∀ a b, a ∈ active_backends rs → b ∈ active_backends rs → a ≠ b → pair a b ∈ q) →
  contended q (active_backends (delete k rs)) (backend r) = false →
  ∀ a b, a ∈ active_backends (<[k:=r]> rs) → b ∈ active_backends (<[k:=r]> rs) → a ≠ b →
         pair a b ∈ q.
Proof.
  intros Hco Hq a b Ha%active_backends_insert Hb%active_backends_insert Hne.
  rewrite contended_false in Hq.
  destruct Ha as [->|Ha], Hb as [->|Hb]; [done|rewrite pair_comm; by apply Hq|by apply Hq|].
  apply Hco; by eauto using active_backends_delete.
Qed.

Lemma contended_delete q rs k b :
  contended q (active_backends rs) b = false →
  contended q (active_backends (delete k rs)) b = false.
Proof. rewrite !contended_false. eauto using active_backends_delete. Qed.

Lemma op_preserves_coexist o l :
  is_replace o = false → coexist l → coexist (run_op o l).2.
Proof.
  intros Hno Hco. destruct o as [u r st|us rs|k r|e|es|k]; cbn in Hno; [..|done|];
    unfold run_op, bind, ret, reserve, reserve_many, transfer,
      install_contention_evidence, release.
  - op_branches; try exact Hco.
    all: unfold coexist; cbn; by apply coexist_extend; [|apply contended_delete].
  - op_branches; try exact Hco. unfold coexist. cbn. breflect.
    intros a b Ha%active_backends_insert_reservations Hb%active_backends_insert_reservations Hne.
    eapply all_pairs_qualified_spec; [eassumption|..|done];
      rewrite elem_of_elements, elem_of_union, elem_of_list_to_set; tauto.
  - op_branches; try exact Hco. unfold coexist. cbn. by apply coexist_extend.
  - op_branches; try exact Hco. intros a b Ha Hb Hne. apply elem_of_union. right. by apply Hco.
  - op_branches; try exact Hco. intros a b Ha Hb Hne. cbn in *.
    apply Hco; eauto using active_backends_delete.
Qed.

Lemma new_ledger_inv cap p l : new_ledger cap p = Ok l → ledger_inv l.
Proof.
  unfold new_ledger. intros H. run_cases H. split; cbn; [by rewrite used_of_empty| |done].
  unfold vec_le. cbn in *. breflect. lia.
Qed.

(** A run of an operation that raises leaves the ledger as it was. *)
Lemma run_op_raise_same o l e : (run_op o l).1 = Raise e → (run_op o l).2 = l.
Proof.
  destruct o; unfold run_op, bind, ret, reserve, reserve_many, transfer,
    install_contention_evidence, replace_contention_evidence, release; op_branches; done.
Qed.

(** ** Properties *)

(** C1: in every state reachable from a fresh ledger through its public
    operations the usage equals the sum of the demands of the active
    reservations, and no resource is used below zero or beyond its capacity. *)
Theorem ledger_accounts_exactly cap p l0 l :
  new_ledger cap p = Ok l0 → rtc step l0 l →
  used l = used_of (reservations l) ∧ vec_le vec_zero (used l) ∧ vec_le (used l) (capacity l).
Proof.
  intros H0 Hrun. assert (ledger_inv l) as [Hu Hc Hv].
  { eapply rtc_invariant; [|clear Hrun|exact Hrun].
    - intros a b Ha (o & Hok & <-). by apply op_preserves_inv.
    - by eapply new_ledger_inv. }
  split; [done|]. split; [|done]. rewrite Hu. unfold vec_le, used_of. cbn.
  repeat split; apply map_sum_nonneg; intros k r Hk; specialize (Hv k r Hk);
    apply request_valid_nonneg in Hv; unfold vec_le in Hv; cbn in Hv; lia.
Qed.

(** As long as no qualification is withdrawn by
    [replace_contention_evidence], two reservations that are active at the same
    time run on the same backend or on a pair of backends with qualifying
    contention evidence. *)
Theorem ledger_coexistence cap p l0 l k1 r1 k2 r2 :
  new_ledger cap p = Ok l0 → rtc step_keep l0 l →
  reservations l !! k1 = Some r1 → reservations l !! k2 = Some r2 →
  backend r1 ≠ backend r2 → is_contention_pair_qualified (backend r1) (backend r2) l = true.
Proof.
  intros H0 Hrun H1 H2 Hne.
  assert (coexist l) as Hco.
  { eapply rtc_invariant; [|clear Hrun|exact Hrun].
    - intros a b Ha (o & Hno & Hok & <-). by apply op_preserves_coexist.
    - unfold new_ledger in H0. run_cases H0. intros a b Ha.
      by apply elem_of_active_backends in Ha as (? & ? & ? & ?). }
  unfold is_contention_pair_qualified. rewrite decide_False by done.
  apply bool_decide_eq_true, Hco; try done; apply elem_of_active_backends; eauto.
Qed.

(** A reservation for a fallback backend is moved or refused as a whole:
    [transfer] of an active reservation either replaces the demand of that
    reservation and of nothing else, or raises and changes nothing, and it
    succeeds exactly when the other active backends are qualified with the new
    one and the replaced demand fits the capacity. *)
Theorem transfer_atomic rid r l previous :
  ledger_inv l → reservations l !! rid = Some previous →
  let fits := vec_le (vec_add (used_of (delete rid (reservations l))) (demand r)) (capacity l) in
  let qualified := contended (qualified_pairs l)
                     (active_backends (delete rid (reservations l))) (backend r) = false in
  match transfer rid r l with
  | (Ok res, l') =>
      fits ∧ qualified ∧ res = mkReservation rid r ∧
      reservations l' = <[rid := r]> (reservations l) ∧
      used l' = vec_add (vec_sub (used l) (demand previous)) (demand r)
  | (Raise e, l') => l' = l ∧ ¬ (fits ∧ qualified)
  end.
Proof.
  intros [Hu Hc Hv] Hp fits q. subst fits q.
  erewrite used_of_delete by done. rewrite <-Hu. unfold transfer. rewrite Hp.
  destruct (contended _ _ _) eqn:Hq; [split; [done|by intros [_ ?]]|].
  destruct (exhausted_keys _ _) eqn:Hx.
  - apply exhausted_keys_nil in Hx. cbn. repeat split; try done; try apply Hx. vec_solve.
  - split; [done|]. intros [Hfit _]. apply exhausted_keys_nil in Hfit. congruence.
Qed.

(** Releasing a reservation undoes it: after a successful [reserve] under a
    new identifier, [release] of that identifier restores the ledger. *)
Theorem reserve_release uuid r steal l res l' :
  reservations l !! uuid = None → reserve uuid r steal l = (Ok res, l') →
  reservation_id res = uuid ∧ release uuid l' = (Ok true, l).
Proof.
  intros Hf Hrun. unfold reserve in Hrun. run_cases Hrun.
  all: split; [done|]; unfold release, set_used_reservations; cbn;
    rewrite lookup_insert_eq, delete_insert_id, vec_add_sub by done; by destruct l.
Qed.

(** ** Witnesses *)

Definition demo_capacity : Vec := mkVec 100 8 4 2 4.
Definition demo_ledger : Ledger := mkLedger "runtime" demo_capacity vec_zero ∅ ∅.
Definition demo_request (b : ExecutionBackend) : DeviceResourceRequest :=
  match for_backend b 40 with Ok r => r | Raise _ => mkRequest b 0 0 0 0 1 end.
Definition demo_evidence : BandwidthContentionEvidence :=
  {| profile_id := "runtime"; first_backend := CPU; second_backend := NATIVE_MLX;
     sequential_latency_nanoseconds := 1000; parallel_latency_nanoseconds := 900;
     sample_count := 3; outputs_match := true |}.
Definition demo_two : Ledger :=
  (reserve "b" (demo_request NATIVE_MLX) None
    (install_contention_evidence demo_evidence
      (reserve "a" (demo_request CPU) None demo_ledger).2).2).2.

Lemma demo_two_run : rtc step_keep demo_ledger demo_two.
Proof.
  eapply rtc_l; [exists (OpReserve "a" (demo_request CPU) None); done|].
  eapply rtc_l; [exists (OpInstall demo_evidence); done|].
  apply rtc_once. exists (OpReserve "b" (demo_request NATIVE_MLX) None).
  split; [done|]. split; [|reflexivity]. by vm_compute.
Qed.

Lemma step_keep_step l l' : rtc step_keep l l' → rtc step l l'.
Proof. apply rtc_subrel. intros a b (o & _ & ? & ?). by exists o. Qed.

Lemma ledger_accounts_exactly_witness :
  used demo_two = used_of (reservations demo_two) ∧
  vec_le vec_zero (used demo_two) ∧ vec_le (used demo_two) (capacity demo_two).
Proof.
  apply (ledger_accounts_exactly demo_capacity "runtime" demo_ledger).
  - reflexivity.
  - exact (step_keep_step _ _ demo_two_run).
Defined.

Lemma ledger_coexistence_witness :
  is_contention_pair_qualified CPU NATIVE_MLX demo_two = true.
Proof.
  apply (ledger_coexistence demo_capacity "runtime" demo_ledger demo_two
           "a" (demo_request CPU) "b" (demo_request NATIVE_MLX)).
  - reflexivity.
  - exact demo_two_run.
  - vm_compute. reflexivity.
  - vm_compute. reflexivity.
  - discriminate.
Defined.

Lemma demo_two_inv : ledger_inv demo_two.
Proof.
  assert (rtc step demo_ledger demo_two) as Hr by exact (step_keep_step _ _ demo_two_run).
  eapply rtc_invariant; [|clear Hr|exact Hr].
  - intros a b Ha (o & Hok & <-). by apply op_preserves_inv.
  - split; [reflexivity| |apply map_Forall_empty]. unfold vec_le. cbn. lia.
Qed.

Lemma transfer_atomic_witness :
  ∃ e, transfer "a" (demo_request COREML_DRAFT) demo_two = (Raise e, demo_two).
Proof.
  pose proof (transfer_atomic "a" (demo_request COREML_DRAFT) demo_two (demo_request CPU)
                demo_two_inv ltac:(vm_compute; reflexivity)) as H.
  destruct (transfer _ _ _) as [[res|e] l'].
  - destruct H as (_ & Hq & _). vm_compute in Hq. discriminate.
  - destruct H as [-> _]. by exists e.
Defined.

Lemma reserve_release_witness :
  release "a" (reserve "a" (demo_request CPU) None demo_ledger).2 = (Ok true, demo_ledger).
Proof.
  apply (reserve_release "a" (demo_request CPU) None demo_ledger
           (mkReservation "a" (demo_request CPU))); reflexivity.
Defined.

End DeviceResources.
