(* ===== verification/OperatorDispatch.v ===== *)
(** * Probe registry and operator dispatch (kernel_probe.py, operator_dispatch.py)

    The profile-bound capability registry with its sticky quarantine, the
    fail-closed dispatcher over it, and the fallback executor, whose callbacks
    are programs over a state [S] shared with the caller. *)

From Stdlib Require Floats.SpecFloat.
From S2P Require Import Prelude Types.
From stdpp Require Import sorting.
#[local] Open Scope Z_scope.

Module KernelRegistry.

Definition MAX_REGISTRY_ENTRIES : Z := 512.
Definition KERNEL_PROBE_SCHEMA_VERSION : Z := 1.
Definition MAX_PROBE_SAMPLES : Z := 32.

Record KernelProbeResult := {
  schema_version : Z;
  probe_id : string;
  hardware_fingerprint : string;
  environment_fingerprint : string;
  backend : ExecutionBackend;
  operator : string;
  samples_completed : Z;
  baseline_latency_nanoseconds : option Z;
  candidate_latency_nanoseconds : option Z;
  slowdown_ratio : option SpecFloat.spec_float;
  passed : bool;
  quarantined : bool;
  reason : string;
}.

Definition is_lower_hex (c : Ascii.ascii) : bool :=
  bool_decide (c ∈ String.list_ascii_of_string "0123456789abcdef").

(** [KernelProbeResult.__post_init__] *)
Definition result_check (r : KernelProbeResult) : res exn () :=
  if negb (schema_version r =? KERNEL_PROBE_SCHEMA_VERSION)
  then Raise (ValueError "unsupported kernel probe schema version")
  else if eqb (passed r) (quarantined r)
  then Raise (ValueError "probe must be either passed or quarantined")
  else if negb (eqb (passed r) (str_eqb (reason r) "passed"))
  then Raise (ValueError "probe reason does not match status")
  else if negb ((0 <=? samples_completed r) && (samples_completed r <=? MAX_PROBE_SAMPLES))
  then Raise (ValueError "invalid completed sample count")
  else if negb (str_len (probe_id r) =? 24)
          || existsb (λ c, negb (is_lower_hex c)) (String.list_ascii_of_string (probe_id r))
  then Raise (ValueError "invalid probe ID")
  else Ok ().

Record KernelCapabilityRegistry := mkRegistry {
  reg_hardware : string;
  reg_environment : string;
  capacity : Z;
  results : gmap (ExecutionBackend * string) KernelProbeResult;
}.

(** [KernelCapabilityRegistry.__init__] *)
Definition new_registry (hardware environment : string) (cap : Z)
    : res exn KernelCapabilityRegistry :=
  if str_eqb hardware "" || str_eqb environment ""
  then Raise (ValueError "registry fingerprints cannot be empty")
  else if negb ((1 <=? cap) && (cap <=? MAX_REGISTRY_ENTRIES))
  then Raise (ValueError "registry capacity must be between 1 and 512")
  else Ok (mkRegistry hardware environment cap ∅).

(** [existing is not None and existing.quarantined and result.passed] *)
Definition sticky_conflict (existing : option KernelProbeResult) (r : KernelProbeResult) : bool :=
  match existing with Some x => quarantined x && passed r | None => false end.

(** [record] *)
Definition record (r : KernelProbeResult) : Py KernelCapabilityRegistry () := λ g,
  if negb (str_eqb (hardware_fingerprint r) (reg_hardware g))
     || negb (str_eqb (environment_fingerprint r) (reg_environment g))
  then (Raise (ValueError "probe result does not match registry profile"), g)
  else
    let key := (backend r, operator r) in
    let existing := results g !! key in
    if sticky_conflict existing r
    then (Raise (ValueError "quarantine is sticky for the current environment"), g)
    else if is_none existing && (Z.of_nat (size (results g)) >=? capacity g)
    then (Raise (ValueError "kernel capability registry is full"), g)
    else (Ok (), mkRegistry (reg_hardware g) (reg_environment g) (capacity g)
                            (<[key := r]> (results g))).

(** [is_usable] *)
Definition is_usable (b : ExecutionBackend) (op : string) (g : KernelCapabilityRegistry) : bool :=
  match results g !! (b, op) with
  | Some r => passed r && negb (quarantined r)
  | None => false
  end.

(** The order of [sorted(..., key=lambda item: (item[0].value, item[1]))]. *)
Definition key_le (k1 k2 : ExecutionBackend * string) : bool :=
  match String.compare (ExecutionBackend_value k1.1) (ExecutionBackend_value k2.1) with
  | Lt => true
  | Gt => false
  | Eq => String.leb k1.2 k2.2
  end.
Definition entry_le (a b : (ExecutionBackend * string) * KernelProbeResult) : Prop :=
  key_le a.1 b.1 = true.
#[export] Instance entry_le_dec : RelDecision entry_le.
Proof. intros a b. unfold entry_le. apply _. Defined.

(** [snapshot] *)
Definition snapshot (g : KernelCapabilityRegistry) : list KernelProbeResult :=
  snd <$> merge_sort entry_le (map_to_list (results g)).

(** *** Lemmas *)

(** Each result is stored under its own key, and is passed or quarantined. *)
Definition registry_inv (g : KernelCapabilityRegistry) : Prop :=
  (∀ b op r, results g !! (b, op) = Some r →
     backend r = b ∧ operator r = op ∧ passed r = negb (quarantined r)) ∧
  Z.of_nat (size (results g)) <= capacity g.

Lemma result_check_status r : result_check r = Ok () → passed r = negb (quarantined r).
Proof.
  unfold result_check. intros H. run_cases H. by destruct (passed r), (quarantined r).
Qed.

Lemma record_inv r g :
  result_check r = Ok () → registry_inv g → registry_inv (record r g).2.
Proof.
  intros Hr%result_check_status [Hk Hs]. unfold record.
  destruct (_ || _) eqn:E1; [exact (conj Hk Hs)|].
  destruct (sticky_conflict _ _) eqn:E2; [exact (conj Hk Hs)|].
  destruct (is_none _ && _) eqn:E3; [exact (conj Hk Hs)|]. split; cbn.
  - intros b op r' Hl. destruct (decide ((backend r, operator r) = (b, op))) as [Heq|Hne].
    + rewrite Heq, lookup_insert_eq in Hl. simplify_eq. done.
    + rewrite lookup_insert_ne in Hl by done. by apply Hk.
  - destruct (results g !! (backend r, operator r)) as [x|] eqn:Hx.
    + rewrite map_size_insert_Some by eauto. exact Hs.
    + rewrite map_size_insert_None by done. cbn in E3. breflect. lia.
Qed.

Lemma elem_of_snapshot g r : r ∈ snapshot g ↔ ∃ k, results g !! k = Some r.
Proof.
  unfold snapshot. rewrite list_elem_of_fmap. setoid_rewrite merge_sort_Permutation. split.
  - intros [[k r'] [-> Hk%elem_of_map_to_list]]. by exists k.
  - intros [k Hk]. exists (k, r). by rewrite elem_of_map_to_list.
Qed.

(** A quarantined key stays quarantined. *)
Lemma record_sticky b op x r g :
  result_check r = Ok () → registry_inv g →
  results g !! (b, op) = Some x → quarantined x = true →
  ∃ y, results (record r g).2 !! (b, op) = Some y ∧ quarantined y = true.
Proof.
  intros Hr%result_check_status Hinv Hx Hq. unfold record.
  destruct (_ || _) eqn:E1; [eauto|].
  destruct (decide ((backend r, operator r) = (b, op))) as [Heq|Hne].
  - rewrite Heq, Hx. cbn. rewrite Hq. cbn. destruct (passed r) eqn:Hp; [eauto|].
    exists r. cbn. rewrite lookup_insert_eq. by destruct (quarantined r).
  - destruct (sticky_conflict _ _) eqn:E2; [eauto|].
    destruct (is_none _ && _); [eauto|]. exists x. cbn. by rewrite lookup_insert_ne.
Qed.

End KernelRegistry.

Module OperatorDispatch.
Import KernelRegistry.

Record OperatorDispatchRequest := mkDispatchRequest {
  req_operator : string;
  candidates : list ExecutionBackend;
}.

(** [OperatorDispatchRequest.__post_init__] *)
Definition make_dispatch_request (op : string) (cs : list ExecutionBackend)
    : res exn OperatorDispatchRequest :=
  if str_eqb op "" || (str_len op >? 128)
  then Raise (ValueError "operator must contain 1 to 128 characters")
  else if bool_decide (cs = []) || (Zlen cs >? Zlen ExecutionBackend_members)
  then Raise (ValueError "dispatch requires bounded backend candidates")
  else if negb (bool_decide (size (list_to_set cs : gset ExecutionBackend) = length cs))
  then Raise (ValueError "dispatch candidates must be unique")
  else Ok (mkDispatchRequest op cs).

Record OperatorDispatchDecision := {
  dec_operator : string;
  selected : ExecutionBackend;
  fallback_chain : list ExecutionBackend;
  dec_quarantined : list ExecutionBackend;
  unprobed : list ExecutionBackend;
  dec_reason : string;
}.

(** [{(result.backend, result.operator): result for result in snapshot}] *)
Definition results_by_key (rs : list KernelProbeResult)
    : gmap (ExecutionBackend * string) KernelProbeResult :=
  foldl (λ m r, <[(backend r, operator r) := r]> m) ∅ rs.

(** The loop over the candidates, with its three accumulators. *)
Fixpoint classify (results : gmap (ExecutionBackend * string) KernelProbeResult) (op : string)
    (cs : list ExecutionBackend) (acc : list ExecutionBackend * list ExecutionBackend
                                        * list ExecutionBackend)
    : list ExecutionBackend * list ExecutionBackend * list ExecutionBackend :=
  match cs with
  | [] => acc
  | c :: cs' =>
      let '(usable, quar, unpr) := acc in
      classify results op cs'
        (if decide (c = CPU) then (usable ++ [c], quar, unpr)
         else match results !! (c, op) with
              | None => (usable, quar, unpr ++ [c])
              | Some r =>
                  if quarantined r then (usable, quar ++ [c], unpr)
                  else if passed r then (usable ++ [c], quar, unpr)
                  else (usable, quar, unpr)
              end)
  end.

(** [OperatorDispatcher.dispatch] *)
Definition dispatch (g : KernelCapabilityRegistry) (req : OperatorDispatchRequest)
    : res exn OperatorDispatchDecision :=
  let results := results_by_key (snapshot g) in
  let '(usable, quar, unpr) := classify results (req_operator req) (candidates req) ([], [], []) in
  match usable with
  | [] => Raise (RuntimeError "no probed backend or CPU fallback is available")
  | sel :: rest =>
      Ok {| dec_operator := req_operator req; selected := sel; fallback_chain := rest;
            dec_quarantined := quar; unprobed := unpr;
            dec_reason := if decide (sel = CPU) then "accelerator_unavailable_cpu_fallback"
                          else "preferred_probe_passed" |}
  end.

Record OperatorExecutionResult (R : Type) := mkResult {
  value : R;
  res_backend : ExecutionBackend;
  attempts : list BackendExecutionAttempt;
}.
Arguments mkResult {R}. Arguments value {R}. Arguments res_backend {R}. Arguments attempts {R}.

Definition failed (b : ExecutionBackend) (code : string) : BackendExecutionAttempt :=
  {| att_backend := b; att_status := "failed"; att_error_code := Some code |}.
Definition succeeded (b : ExecutionBackend) : BackendExecutionAttempt :=
  {| att_backend := b; att_status := "succeeded"; att_error_code := None |}.

Section executor.
Context {S R : Type}.
Variable operation : ExecutionBackend → Py S R.
Variable validate : option (R → ExecutionBackend → Py S bool).
Variable prepare : option (ExecutionBackend → Py S ()).

(** [prepare(backend)] when given, then [operation(backend)]: the try block. *)
Definition attempt (b : ExecutionBackend) : Py S R :=
  match prepare with Some p => p b ;;; operation b | None => operation b end.

Definition validated (v : R) (b : ExecutionBackend) : Py S bool :=
  match validate with Some f => f v b | None => ret true end.

(** The loop over the fallback chain, [done] being the attempts so far. *)
Fixpoint execute_chain (bs : list ExecutionBackend) (done : list BackendExecutionAttempt)
    : Py S (OperatorExecutionResult R) :=
  match bs with
  | [] => raise (OperatorFallbackExhaustedError done)
  | b :: bs' => λ s,
      match attempt b s with
      | (Raise (BackendExecutionError code retryable), s') =>
          if negb retryable then (Raise (BackendExecutionError code retryable), s')
          else execute_chain bs' (done ++ [failed b code]) s'
      | (Raise (TimeoutError _), s') =>
          execute_chain bs' (done ++ [failed b "backend_timeout"]) s'
      | (Raise e, s') => (Raise e, s')
      | (Ok v, s') =>
          match validated v b s' with
          | (Ok true, s'') => (Ok (mkResult v b (done ++ [succeeded b])), s'')
          | (Ok false, s'') => execute_chain bs' (done ++ [failed b "output_mismatch"]) s''
          | (Raise e, s'') => (Raise e, s'')
          end
      end
  end.

(** [OperatorFallbackExecutor.execute] *)
Definition execute (d : OperatorDispatchDecision) : Py S (OperatorExecutionResult R) :=
  let backends := selected d :: fallback_chain d in
  if (Zlen backends >? Zlen ExecutionBackend_members)
     || negb (bool_decide (size (list_to_set backends : gset ExecutionBackend)
                           = length backends))
  then raise (ValueError "invalid operator fallback chain")
  else execute_chain backends [].
End executor.

(** *** Dispatch *)

Lemma results_by_key_acc rs :
  ∀ (m : gmap (ExecutionBackend * string) KernelProbeResult) k,
  (∀ r, r ∈ rs → (backend r, operator r) ≠ k) →
  foldl (λ m r, <[(backend r, operator r) := r]> m) m rs !! k = m !! k.
Proof.
  induction rs as [|r rs IH]; intros m k Hk; cbn; [done|].
  rewrite IH by set_solver. apply lookup_insert_ne, Hk. left.
Qed.

Lemma results_by_key_Some rs k r :
  results_by_key rs !! k = Some r → r ∈ rs ∧ (backend r, operator r) = k.
Proof.
  unfold results_by_key.
  assert (∀ m : gmap (ExecutionBackend * string) KernelProbeResult,
    foldl (λ m r, <[(backend r, operator r) := r]> m) m rs !! k = Some r →
    (r ∈ rs ∧ (backend r, operator r) = k) ∨ m !! k = Some r) as H.
  { induction rs as [|x rs IH]; intros m; cbn; [auto|]. intros [[??]|Hm]%IH; [set_solver|].
    destruct (decide ((backend x, operator x) = k)) as [<-|Hne].
    - rewrite lookup_insert_eq in Hm. simplify_eq. left. split; [left|done].
    - rewrite lookup_insert_ne in Hm by done. auto. }
  intros [|Hm]%H; [done|]. by rewrite lookup_empty in Hm.
Qed.

Lemma results_by_key_unique rs k r :
  r ∈ rs → (backend r, operator r) = k →
  (∀ r', r' ∈ rs → (backend r', operator r') = k → r' = r) →
  results_by_key rs !! k = Some r.
Proof.
  unfold results_by_key. generalize (∅ : gmap (ExecutionBackend * string) KernelProbeResult).
  induction rs as [|x rs IH]; intros m Hr Hk Hu; [set_solver|]. cbn.
  destruct (decide (k ∈ (λ r, (backend r, operator r)) <$> rs)) as [Hin|Hout].
  - apply list_elem_of_fmap in Hin as (y & Hy & Hin).
    assert (y = r) as -> by (apply Hu; [by right|done]).
    apply IH; [done|done|]. intros; apply Hu; [by right|done].
  - apply elem_of_cons in Hr as [->|Hin].
    + rewrite results_by_key_acc; [rewrite Hk; apply lookup_insert_eq|].
      intros y Hy Heq. apply Hout, list_elem_of_fmap. exists y. split; [congruence|done].
    + destruct Hout. apply list_elem_of_fmap. by exists r.
Qed.

(** The dictionary the dispatcher builds is the registry's own table. *)
Lemma results_by_key_snapshot g k :
  registry_inv g → results_by_key (snapshot g) !! k = results g !! k.
Proof.
  intros [Hk _]. destruct k as [b op]. destruct (results g !! (b, op)) as [r|] eqn:Hr.
  - destruct (Hk _ _ _ Hr) as (Hb & Ho & _). apply results_by_key_unique.
    + apply elem_of_snapshot. eauto.
    + by rewrite Hb, Ho.
    + intros r' [[b' op'] Hr']%elem_of_snapshot Heq.
      destruct (Hk _ _ _ Hr') as (? & ? & _). simplify_eq. congruence.
  - destruct (results_by_key _ !! _) as [r|] eqn:Hs; [|done].
    apply results_by_key_Some in Hs as [[[b' op'] Hin]%elem_of_snapshot Heq].
    destruct (Hk _ _ _ Hin) as (? & ? & _). by simplify_eq.
Qed.

(** A candidate the dispatcher may use: the CPU, or a probed and passed backend. *)
Definition usable_for (g : KernelCapabilityRegistry) (op : string) (b : ExecutionBackend) : bool :=
  bool_decide (b = CPU) || is_usable b op g.

(** The three lists the classification appends to are filters of the candidates. *)
Definition cls_usable (results : gmap (ExecutionBackend * string) KernelProbeResult)
    op (b : ExecutionBackend) : bool :=
  bool_decide (b = CPU) ||
  match results !! (b, op) with
  | Some r => negb (quarantined r) && passed r
  | None => false
  end.
Definition cls_quarantined (results : gmap (ExecutionBackend * string) KernelProbeResult)
    op (b : ExecutionBackend) : bool :=
  negb (bool_decide (b = CPU)) &&
  match results !! (b, op) with Some r => quarantined r | None => false end.
Definition cls_unprobed (results : gmap (ExecutionBackend * string) KernelProbeResult)
    op (b : ExecutionBackend) : bool :=
  negb (bool_decide (b = CPU)) && is_none (results !! (b, op)).

Lemma classify_spec results op cs : ∀ u q n,
  classify results op cs (u, q, n) =
  (u ++ List.filter (cls_usable results op) cs, q ++ List.filter (cls_quarantined results op) cs,
   n ++ List.filter (cls_unprobed results op) cs).
Proof.
  induction cs as [|c cs IH]; intros u q n; cbn; [by rewrite !app_nil_r|].
  unfold cls_usable at 1, cls_quarantined at 1, cls_unprobed at 1.
  destruct (decide (c = CPU)) as [->|Hc].
  - rewrite IH, bool_decide_eq_true_2 by done. cbn. by rewrite <-!app_assoc.
  - rewrite bool_decide_eq_false_2 by done. cbn.
    destruct (results !! (c, op)) as [r|]; cbn; [|by rewrite IH, <-!app_assoc].
    destruct (quarantined r); cbn; [by rewrite IH, <-!app_assoc|].
    destruct (passed r); by rewrite IH, <-?app_assoc.
Qed.

Lemma cls_usable_usable_for g op b :
  registry_inv g → cls_usable (results_by_key (snapshot g)) op b = usable_for g op b.
Proof.
  intros Hinv. unfold cls_usable, usable_for, is_usable. rewrite results_by_key_snapshot by done.
  destruct (results g !! (b, op)) as [r|]; [|done]. by rewrite andb_comm.
Qed.

Lemma dispatch_usable g req :
  registry_inv g →
  match dispatch g req with
  | Ok d => selected d :: fallback_chain d =
              List.filter (usable_for g (req_operator req)) (candidates req)
  | Raise e => e = RuntimeError "no probed backend or CPU fallback is available" ∧
               List.filter (usable_for g (req_operator req)) (candidates req) = []
  end.
Proof.
  intros Hinv. unfold dispatch. rewrite classify_spec. cbn.
  rewrite (filter_ext _ _ (λ b, cls_usable_usable_for g (req_operator req) b Hinv)).
  by destruct (List.filter _ _).
Qed.

(** ** Properties *)

(** C3: dispatch is fail-closed.  The selected backend followed by the fallback
    chain is exactly the sub-sequence of the candidates that are the CPU or hold
    a passed, unquarantined probe for the operator, in the order given; the call
    raises exactly when that sub-sequence is empty, so never when the CPU is a
    candidate. *)
Theorem dispatch_fail_closed g req :
  registry_inv g →
  match dispatch g req with
  | Ok d =>
      selected d :: fallback_chain d =
        List.filter (usable_for g (req_operator req)) (candidates req) ∧
      (selected d ≠ CPU → is_usable (selected d) (req_operator req) g = true) ∧
      (∀ b, b ∈ dec_quarantined d → is_usable b (req_operator req) g = false)
  | Raise e => e = RuntimeError "no probed backend or CPU fallback is available" ∧
               List.filter (usable_for g (req_operator req)) (candidates req) = [] ∧
               CPU ∉ candidates req
  end.
Proof.
  intros Hinv. pose proof (dispatch_usable g req Hinv) as H.
  destruct (dispatch g req) as [d|e] eqn:Hd.
  - split; [done|]. split.
    + intros Hne. assert (selected d ∈ selected d :: fallback_chain d) as Hin by left.
      rewrite H in Hin. apply list_elem_of_In, filter_In in Hin as [_ Hu].
      unfold usable_for in Hu. by rewrite bool_decide_eq_false_2 in Hu.
    + intros b Hb. unfold dispatch in Hd. rewrite classify_spec in Hd. run_cases Hd.
      apply list_elem_of_In, filter_In in Hb as [_ Hq]. unfold cls_quarantined in Hq.
      rewrite results_by_key_snapshot in Hq by done. unfold is_usable. breflect.
      destruct (results g !! _) as [r|]; [|done]. by destruct (passed r), (quarantined r).
  - destruct H as [-> H]. split; [done|]. split; [done|]. intros Hin%list_elem_of_In.
    assert (CPU ∈ List.filter (usable_for g (req_operator req)) (candidates req)) as Hc.
    { apply list_elem_of_In, filter_In. by split. }
    rewrite H in Hc. by apply elem_of_nil in Hc.
Qed.

(** The registry states reachable by recording well-formed probe results. *)
Definition record_step (g g' : KernelCapabilityRegistry) : Prop :=
  ∃ r, result_check r = Ok () ∧ (record r g).2 = g'.

Lemma record_run_inv g g' : rtc record_step g g' → registry_inv g → registry_inv g'.
Proof.
  intros Hrun Hg. eapply rtc_invariant; [|exact Hg|exact Hrun].
  intros a b Ha (r & Hr & <-). by apply record_inv.
Qed.

(** Quarantine is sticky.  Once an operator is quarantined on an accelerator,
    no sequence of probe recordings makes [dispatch] use that accelerator for
    the operator again. *)
Theorem quarantine_sticky g g' b op x cs d :
  registry_inv g → rtc record_step g g' →
  results g !! (b, op) = Some x → quarantined x = true → b ≠ CPU →
  dispatch g' (mkDispatchRequest op cs) = Ok d →
  b ∉ selected d :: fallback_chain d.
Proof.
  intros Hinv Hrun Hx Hq Hb Hd.
  assert (registry_inv g' ∧ ∃ y, results g' !! (b, op) = Some y ∧ quarantined y = true)
    as [Hinv' (y & Hy & Hqy)].
  { refine (rtc_invariant record_step
      (λ g, registry_inv g ∧ ∃ y, results g !! (b, op) = Some y ∧ quarantined y = true)
      g g' _ _ Hrun); [|eauto].
    intros g1 g2 [Hi (y & Hy & Hqy)] (r & Hr & <-).
    split; [by apply record_inv|by eapply record_sticky]. }
  pose proof (dispatch_usable g' (mkDispatchRequest op cs) Hinv') as H. rewrite Hd in H.
  rewrite H. intros [_ Hu]%list_elem_of_In%filter_In. unfold usable_for, is_usable in Hu.
  cbn in Hu. rewrite bool_decide_eq_false_2, Hy, Hqy, andb_false_r in Hu by done. done.
Qed.

(** *** Execution of the fallback chain *)

Section execute_spec.
Context {S R : Type}.
Variable operation : ExecutionBackend → Py S R.
Variable validate : option (R → ExecutionBackend → Py S bool).
Variable prepare : option (ExecutionBackend → Py S ()).

(** What one attempt contributes: the attempt recorded when the loop goes on. *)
Definition soft_failure (b : ExecutionBackend) (s : S) : option (string * S) :=
  match attempt operation prepare b s with
  | (Raise (BackendExecutionError code true), s') => Some (code, s')
  | (Raise (TimeoutError _), s') => Some ("backend_timeout", s')
  | (Ok v, s') =>
      match validated validate v b s' with
      | (Ok false, s'') => Some ("output_mismatch", s'')
      | _ => None
      end
  | _ => None
  end.

(** The backends of [bs] all fail softly from [s], ending in [s'], with [atts]. *)
Inductive all_fail : list ExecutionBackend → S → list BackendExecutionAttempt → S → Prop :=
| all_fail_nil s : all_fail [] s [] s
| all_fail_cons b bs s code s1 atts s2 :
    soft_failure b s = Some (code, s1) → all_fail bs s1 atts s2 →
    all_fail (b :: bs) s (failed b code :: atts) s2.

Lemma all_fail_backends bs s atts s' : all_fail bs s atts s' → att_backend <$> atts = bs.
Proof. induction 1; cbn; congruence. Qed.

(** The loop runs the backends in order: a prefix fails softly, then either the
    chain is exhausted, or one backend succeeds or raises. *)
Lemma execute_chain_run bs : ∀ acc s,
  ∃ tried rest atts s1, bs = tried ++ rest ∧ all_fail tried s atts s1 ∧
  match rest with
  | [] => execute_chain operation validate prepare bs acc s =
            (Raise (OperatorFallbackExhaustedError (acc ++ atts)), s1)
  | b :: _ => soft_failure b s1 = None ∧
      match execute_chain operation validate prepare bs acc s with
      | (Ok r, s2) =>
          r = mkResult (value r) b (acc ++ atts ++ [succeeded b]) ∧
          ∃ s', attempt operation prepare b s1 = (Ok (value r), s') ∧
                validated validate (value r) b s' = (Ok true, s2)
      | (Raise e, s2) =>
          attempt operation prepare b s1 = (Raise e, s2) ∨
          ∃ v s', attempt operation prepare b s1 = (Ok v, s') ∧
                  validated validate v b s' = (Raise e, s2)
      end
  end.
Proof.
  induction bs as [|b bs IH]; intros acc s.
  { exists [], [], [], s. split; [done|]. split; [constructor|]. cbn. by rewrite app_nil_r. }
  assert (∀ code s', soft_failure b s = Some (code, s') →
    execute_chain operation validate prepare (b :: bs) acc s =
    execute_chain operation validate prepare bs (acc ++ [failed b code]) s') as Hstep.
  { intros code s'. unfold soft_failure. cbn. intros H.
    repeat case_match; simplify_eq/=; done. }
  destruct (soft_failure b s) as [[code s']|] eqn:Hsoft.
  - rewrite (Hstep _ _ eq_refl).
    destruct (IH (acc ++ [failed b code]) s') as (tried & rest & atts & s1 & -> & Hf & Hr).
    exists (b :: tried), rest, (failed b code :: atts), s1. split; [done|].
    split; [by econstructor|].
    destruct rest; [rewrite <-app_assoc in Hr; exact Hr|].
    destruct (execute_chain _ _ _ _ _ s') as [[?|?] ?]; [rewrite <-app_assoc in Hr|]; exact Hr.
  - exists [], (b :: bs), [], s. split; [done|]. split; [constructor|]. split; [done|].
    clear IH Hstep. unfold soft_failure in Hsoft. cbn.
    repeat case_match; simplify_eq/=; eauto 10.
Qed.

(** The fallback executor tries the backends of the decision in order and
    each at most once; it returns the value of the first one that neither fails
    softly nor is rejected by the validation, together with one recorded
    attempt per backend tried, and reports exhaustion exactly after a soft
    failure of every backend of the chain. *)
Theorem execute_in_order (d : OperatorDispatchDecision) s :
  match execute operation validate prepare d s with
  | (Ok r, s2) =>
      ∃ tried rest s1 s',
        selected d :: fallback_chain d = tried ++ res_backend r :: rest ∧
        all_fail tried s (take (length tried) (attempts r)) s1 ∧
        attempt operation prepare (res_backend r) s1 = (Ok (value r), s') ∧
        validated validate (value r) (res_backend r) s' = (Ok true, s2) ∧
        att_backend <$> attempts r = tried ++ [res_backend r]
  | (Raise e, s2) =>
      (e = ValueError "invalid operator fallback chain" ∧ s2 = s) ∨
      (∃ atts, e = OperatorFallbackExhaustedError atts ∧
               all_fail (selected d :: fallback_chain d) s atts s2) ∨
      (∃ tried b rest atts s1, selected d :: fallback_chain d = tried ++ b :: rest ∧
         all_fail tried s atts s1 ∧ soft_failure b s1 = None ∧
         (attempt operation prepare b s1 = (Raise e, s2) ∨
          ∃ v s', attempt operation prepare b s1 = (Ok v, s') ∧
                  validated validate v b s' = (Raise e, s2)))
  end.
Proof.
  unfold execute. destruct (_ || _); [by left|].
  destruct (execute_chain_run (selected d :: fallback_chain d) [] s)
    as (tried & rest & atts & s1 & Hbs & Hf & Hr).
  destruct rest as [|b rest].
  - rewrite Hr. right; left. exists atts. by rewrite Hbs, app_nil_r.
  - destruct Hr as [Hsoft Hr]. destruct (execute_chain _ _ _ _ _ s) as [[r|e] s2].
    + destruct Hr as (Hr & s' & Ha & Hv). rewrite Hr. cbn. cbn in Hr.
      pose proof (all_fail_backends _ _ _ _ Hf) as Hb.
      exists tried, rest, s1, s'. split; [done|].
      assert (length tried = length atts) as -> by (by rewrite <-Hb, length_fmap).
      rewrite take_app_length, fmap_app, Hb. done.
    + right; right. by exists tried, b, rest, atts, s1.
Qed.
End execute_spec.

(** ** Witnesses *)

Definition demo_result (b : ExecutionBackend) (ok : bool) : KernelProbeResult :=
  {| schema_version := 1; probe_id := "0123456789abcdef01234567"; hardware_fingerprint := "hw";
     environment_fingerprint := "env"; backend := b; operator := "matmul";
     samples_completed := 3; baseline_latency_nanoseconds := Some 10;
     candidate_latency_nanoseconds := Some 9; slowdown_ratio := None; passed := ok;
     quarantined := negb ok; reason := if ok then "passed" else "output_mismatch" |}.
Definition demo_registry : KernelCapabilityRegistry :=
  (record (demo_result NATIVE_MLX false) (mkRegistry "hw" "env" 512 ∅)).2.
Definition demo_request : OperatorDispatchRequest :=
  mkDispatchRequest "matmul" [NATIVE_MLX; CPU].

Lemma demo_registry_inv : registry_inv demo_registry.
Proof. apply record_inv; [reflexivity|]. split; [done|]. cbn. rewrite map_size_empty. lia. Qed.

Lemma dispatch_fail_closed_witness :
  ∃ d, dispatch demo_registry demo_request = Ok d ∧ selected d :: fallback_chain d = [CPU].
Proof.
  pose proof (dispatch_fail_closed demo_registry demo_request demo_registry_inv) as H.
  destruct (dispatch demo_registry demo_request) as [d|e].
  - exists d. split; [done|]. destruct H as [-> _]. vm_compute. reflexivity.
  - destruct H as [_ H]. exfalso. apply H. right. left.
Defined.

Lemma quarantine_sticky_witness :
  NATIVE_MLX ∉ match dispatch (record (demo_result NATIVE_MLX true) demo_registry).2
                       (mkDispatchRequest "matmul" [NATIVE_MLX; CPU]) with
               | Ok d => selected d :: fallback_chain d
               | Raise _ => []
               end.
Proof.
  destruct (dispatch _ _) as [d|] eqn:Hd; [|by apply not_elem_of_nil].
  refine (quarantine_sticky demo_registry _ NATIVE_MLX "matmul" (demo_result NATIVE_MLX false)
            _ d demo_registry_inv _ _ _ _ Hd).
  - apply rtc_once. exists (demo_result NATIVE_MLX true). split; reflexivity.
  - vm_compute. reflexivity.
  - reflexivity.
  - discriminate.
Defined.

End OperatorDispatch.
