(* ===== verification/Observability.v ===== *)
(** * Scheduling counters (scheduling_observability.py)

    Saturating counters in dictionaries with a fixed set of keys.  Each method
    holds the object's lock while it writes. *)

From S2P Require Import Prelude Types.

Module Observability.

Definition MAX_COUNT : Z := 2147483647.
Definition WAIT_BUCKETS : list string :=
  ["under_1ms"; "1_to_10ms"; "10_to_100ms"; "100ms_or_more"].
Definition ADAPTIVE_STATUSES : list string := ["applied"; "deferred"; "ignored"].

Record SchedulingObservability := mkObs {
  assignments : gmap string Z;
  queue_waits : gmap string Z;
  adaptive : gmap string Z;
  fallback_attempts : Z;
  fallback_exhausted : Z;
  contention_rejections : Z;
  steals : Z;
}.

(** [{key: 0 for key in keys}] *)
Definition zeros (keys : list string) : gmap string Z := list_to_map ((λ k, (k, 0)) <$> keys).

(** [SchedulingObservability.__init__] *)
Definition new_observability : SchedulingObservability :=
  mkObs (zeros (ExecutionBackend_value <$> ExecutionBackend_members)) (zeros WAIT_BUCKETS)
        (zeros ADAPTIVE_STATUSES) 0 0 0 0.

(** [_increment] *)
Definition increment (value amount : Z) : Z := Z.min MAX_COUNT (value + amount).

(** [d[key] = _increment(d[key])] *)
Definition bump (d : gmap string Z) (key : string) : res exn (gmap string Z) :=
  match d !! key with
  | Some v => Ok (<[key := increment v 1]> d)
  | None => Raise (KeyError key)
  end.

(** [assignment] *)
Definition assignment (b : ExecutionBackend) : Py SchedulingObservability () := λ o,
  match bump (assignments o) (ExecutionBackend_value b) with
  | Ok d => (Ok (), mkObs d (queue_waits o) (adaptive o) (fallback_attempts o)
                          (fallback_exhausted o) (contention_rejections o) (steals o))
  | Raise e => (Raise e, o)
  end.

Definition wait_bucket (nanoseconds : Z) : string :=
  if nanoseconds <? 1000000 then "under_1ms"
  else if nanoseconds <? 10000000 then "1_to_10ms"
  else if nanoseconds <? 100000000 then "10_to_100ms"
  else "100ms_or_more".

(** [queue_wait] *)
Definition queue_wait (nanoseconds : Z) : Py SchedulingObservability () := λ o,
  if nanoseconds <? 0 then (Raise (ValueError "negative queue wait"), o)
  else
    match bump (queue_waits o) (wait_bucket nanoseconds) with
    | Ok d => (Ok (), mkObs (assignments o) d (adaptive o) (fallback_attempts o)
                            (fallback_exhausted o) (contention_rejections o) (steals o))
    | Raise e => (Raise e, o)
    end.

(** [fallback] *)
Definition fallback (attempts : Z) (exhausted : bool) : Py SchedulingObservability () := λ o,
  if (attempts <? 0) || (attempts >? Zlen ExecutionBackend_members)
  then (Raise (ValueError "invalid fallback attempt count"), o)
  else (Ok (), mkObs (assignments o) (queue_waits o) (adaptive o)
                     (increment (fallback_attempts o) attempts)
                     (if exhausted then increment (fallback_exhausted o) 1
                      else fallback_exhausted o)
                     (contention_rejections o) (steals o)).

(** [contention_rejection] *)
Definition contention_rejection : Py SchedulingObservability () := λ o,
  (Ok (), mkObs (assignments o) (queue_waits o) (adaptive o) (fallback_attempts o)
                (fallback_exhausted o) (increment (contention_rejections o) 1) (steals o)).

(** [steal] *)
Definition steal : Py SchedulingObservability () := λ o,
  (Ok (), mkObs (assignments o) (queue_waits o) (adaptive o) (fallback_attempts o)
                (fallback_exhausted o) (contention_rejections o) (increment (steals o) 1)).

(** [adaptive_transition] *)
Definition adaptive_transition (status : string) : Py SchedulingObservability () := λ o,
  if is_none (adaptive o !! status)
  then (Raise (ValueError "invalid adaptive transition"), o)
  else
    match bump (adaptive o) status with
    | Ok d => (Ok (), mkObs (assignments o) (queue_waits o) d (fallback_attempts o)
                            (fallback_exhausted o) (contention_rejections o) (steals o))
    | Raise e => (Raise e, o)
    end.

(** ** Invariant *)

Definition counter_ok (v : Z) : Prop := 0 <= v <= MAX_COUNT.
Definition counters_ok (d : gmap string Z) : Prop := map_Forall (λ _ v, counter_ok v) d.

(** Every counter is in range and the key sets are the fixed ones. *)
Record obs_inv (o : SchedulingObservability) : Prop := {
  oi_assignments : counters_ok (assignments o);
  oi_waits : counters_ok (queue_waits o);
  oi_adaptive : counters_ok (adaptive o);
  oi_fallback : counter_ok (fallback_attempts o) ∧ counter_ok (fallback_exhausted o) ∧
                counter_ok (contention_rejections o) ∧ counter_ok (steals o);
  oi_keys : dom (assignments o) = dom (assignments new_observability) ∧
            dom (queue_waits o) = dom (queue_waits new_observability) ∧
            dom (adaptive o) = dom (adaptive new_observability);
}.

Lemma increment_ok v n : counter_ok v → 0 <= n → counter_ok (increment v n).
Proof. unfold counter_ok, increment, MAX_COUNT. lia. Qed.

Lemma bump_spec d k d' :
  counters_ok d → bump d k = Ok d' → counters_ok d' ∧ dom d' = dom d.
Proof.
  unfold bump. intros Hd H. destruct (d !! k) as [v|] eqn:Hk; simplify_eq. split.
  - apply map_Forall_insert_2; [|done]. apply increment_ok; [by apply (Hd k)|lia].
  - rewrite dom_insert_L. apply subseteq_union_1_L, singleton_subseteq_l.
    by apply elem_of_dom_2 in Hk.
Qed.

Lemma bump_total d k : k ∈ dom d → ∃ d', bump d k = Ok d'.
Proof. intros [v Hk]%elem_of_dom. unfold bump. rewrite Hk. eauto. Qed.

#[export] Hint Resolve increment_ok : pydb.

(** The calls made by the scheduler. *)
Inductive obs_op :=
| ObsAssignment (b : ExecutionBackend)
| ObsQueueWait (nanoseconds : Z)
| ObsFallback (attempts : Z) (exhausted : bool)
| ObsContention
| ObsSteal
| ObsAdaptive (status : string).

Definition run_obs (p : obs_op) : Py SchedulingObservability () :=
  match p with
  | ObsAssignment b => assignment b
  | ObsQueueWait n => queue_wait n
  | ObsFallback n e => fallback n e
  | ObsContention => contention_rejection
  | ObsSteal => steal
  | ObsAdaptive s => adaptive_transition s
  end.

Ltac bump_case Hd :=
  match goal with
  | |- context [bump ?d ?k] =>
      destruct (bump d k) eqn:Hb;
      [apply bump_spec in Hb as [Hb1 Hb2]; [|exact Hd]|]
  end.

Lemma run_obs_inv p o : obs_inv o → obs_inv (run_obs p o).2.
Proof.
  intros Hinv. destruct (Hinv) as [Ha Hw Hd (?&?&?&?) (Ka & Kw & Kd)].
  destruct p; cbn; unfold assignment, queue_wait, fallback, contention_rejection, steal,
    adaptive_transition.
  - bump_case Ha; [|exact Hinv]. split; cbn; rewrite ?Hb2; auto.
  - destruct (_ <? _); [exact Hinv|]. bump_case Hw; [|exact Hinv].
    split; cbn; rewrite ?Hb2; auto.
  - destruct (_ || _) eqn:E; [exact Hinv|]. breflect. split; cbn; auto.
    split_and!; auto; [|destruct exhausted; [|done]]; apply increment_ok; done || lia.
  - split; cbn; auto. split_and!; auto; apply increment_ok; done || lia.
  - split; cbn; auto. split_and!; auto; apply increment_ok; done || lia.
  - destruct (is_none _); [exact Hinv|]. bump_case Hd; [|exact Hinv].
    split; cbn; rewrite ?Hb2; auto.
Qed.

Lemma zeros_ok ks : counters_ok (zeros ks).
Proof.
  unfold zeros. induction ks as [|k ks IH]; cbn; [apply map_Forall_empty|].
  apply map_Forall_insert_2; [unfold counter_ok, MAX_COUNT; lia|exact IH].
Qed.

Lemma new_obs_inv : obs_inv new_observability.
Proof.
  split; try apply zeros_ok; [|split_and!; reflexivity].
  cbn. unfold counter_ok, MAX_COUNT. lia.
Qed.

Lemma obs_run_inv l : ∀ o, obs_inv o → obs_inv (foldl (λ o p, (run_obs p o).2) o l).
Proof. induction l as [|p l IH]; intros o Ho; cbn; [done|]. by apply IH, run_obs_inv. Qed.

Lemma elem_dom_zeros ks k : k ∈ ks → k ∈ dom (zeros ks).
Proof.
  unfold zeros. intros Hk. rewrite dom_list_to_map_L, elem_of_list_to_set.
  rewrite <-list_fmap_compose. apply list_elem_of_fmap. by exists k.
Qed.

Lemma wait_bucket_in n : wait_bucket n ∈ WAIT_BUCKETS.
Proof.
  unfold wait_bucket, WAIT_BUCKETS. repeat case_match; rewrite !elem_of_cons; tauto.
Qed.

Lemma assignment_total b o : obs_inv o → (assignment b o).1 = Ok ().
Proof.
  intros [_ _ _ _ (Ka & _ & _)]. unfold assignment.
  destruct (bump_total (assignments o) (ExecutionBackend_value b)) as [d' ->]; [|done].
  rewrite Ka. apply elem_dom_zeros. destruct b; cbn; rewrite !elem_of_cons; tauto.
Qed.

Lemma queue_wait_total n o : obs_inv o → (queue_wait n o).1 = Ok () ↔ 0 <= n.
Proof.
  intros [_ _ _ _ (_ & Kw & _)]. unfold queue_wait.
  destruct (n <? 0) eqn:E; breflect; [split; [done|lia]|].
  destruct (bump_total (queue_waits o) (wait_bucket n)) as [d' ->]; [|done].
  rewrite Kw. apply elem_dom_zeros, wait_bucket_in.
Qed.

Lemma adaptive_transition_total st o :
  obs_inv o → st ∈ ADAPTIVE_STATUSES → (adaptive_transition st o).1 = Ok ().
Proof.
  intros [_ _ _ _ (_ & _ & Kd)] Hst. unfold adaptive_transition.
  assert (st ∈ dom (adaptive o)) as Hin by (rewrite Kd; by apply elem_dom_zeros).
  destruct (bump_total _ _ Hin) as [d' Hb]. rewrite Hb.
  apply elem_of_dom in Hin as [v ->]. done.
Qed.

(** ** Properties *)

(** Telemetry is bounded and total.  After any sequence of calls every
    counter lies between 0 and 2147483647 and the key sets are still the initial
    ones; in such a state recording an assignment or a non-negative queue wait
    never raises. *)
Theorem observability_bounded l :
  let o := foldl (λ o p, (run_obs p o).2) new_observability l in
  obs_inv o ∧
  (∀ b, (assignment b o).1 = Ok ()) ∧
  (∀ n, (queue_wait n o).1 = Ok () ↔ 0 <= n).
Proof.
  intros o. assert (obs_inv o) as Hinv by (apply obs_run_inv, new_obs_inv).
  split; [exact Hinv|]. split.
  - intros b. by apply assignment_total.
  - intros n. by apply queue_wait_total.
Qed.

End Observability.
