(* ===== verification/ScheduleQueue.v ===== *)
(** * Priority schedule queue (scheduler.py, [PriorityScheduleQueue])

    A bounded priority queue with claims: dequeued requests stay claimed until
    the claim is finished, restored or cancelled.  Cancelled requests leave
    tombstones in the heap.  The [heapq] list is modelled by the sequence of its
    entries in increasing order, which is the order [heappop] yields them; the
    values of [uuid.uuid4().hex] and of the clocks are arguments. *)

From S2P Require Import Prelude Types PyFloat.
From stdpp Require Import sorting.
#[local] Open Scope Z_scope.

Module ScheduleQueue.

Record ScheduleRequest := mkRequest {
  operator : string;
  estimated_memory_bytes : Z;
  priority : Priority;
  batch_size : Z;
  phase : option WorkloadPhase;
  estimated_context_tokens : Z;
  precision : option string;
  dimensions : list Z;
}.

(** [ScheduleRequest.__post_init__] *)
Definition request_valid (r : ScheduleRequest) : bool :=
  negb ((estimated_memory_bytes r <? 0) || (batch_size r <=? 0)
        || (estimated_context_tokens r <? 0)
        || match precision r with Some p => str_eqb p "" | None => false end
        || (Zlen (dimensions r) >? 8)
        || existsb (λ v, v <=? 0) (dimensions r)).
Definition make_request (r : ScheduleRequest) : res exn ScheduleRequest :=
  check (request_valid r) (ValueError "invalid schedule request") r.

(** [_RANK] *)
Definition RANK (p : Priority) : Z :=
  match p with REALTIME => 0 | INTERACTIVE => 1 | NORMAL => 2 | BACKGROUND => 3 end.

(** *** The heap *)

Record Entry := mkEntry { e_rank : Z; e_seq : Z; e_token : string }.

(** Tuple comparison [a <= b]. *)
Definition entry_leb (a b : Entry) : bool :=
  if e_rank a =? e_rank b then
    if e_seq a =? e_seq b then String.leb (e_token a) (e_token b) else e_seq a <? e_seq b
  else e_rank a <? e_rank b.

(** [heapq.heappush], [heapq.heapify] *)
Fixpoint heappush (e : Entry) (h : list Entry) : list Entry :=
  match h with
  | [] => [e]
  | x :: h' => if entry_leb e x then e :: x :: h' else x :: heappush e h'
  end.
Definition heapify (l : list Entry) : list Entry := foldr heappush [] l.

Record Queue := mkQueue {
  maximum : Z;
  sequence : Z;
  heap : list Entry;
  requests : gmap string ScheduleRequest;
  enqueued_ns : gmap string Z;
  claimed : gset string;
  claim_entries : gmap string (Z * Z * ScheduleRequest);
}.

(** [__init__] *)
Definition new_queue (maximum_requests : Z) : res exn Queue :=
  if (maximum_requests <=? 0) || (maximum_requests >? 65536)
  then Raise (ValueError "maximum_requests must be between 1 and 65536")
  else Ok (mkQueue maximum_requests 0 [] ∅ ∅ ∅ ∅).

(** [enqueue] *)
Definition enqueue (uuid : string) (now_ns : Z) (r : ScheduleRequest) : Py Queue string := λ q,
  if Zsize (requests q) + Z.of_nat (size (claimed q)) >=? maximum q
  then (Raise (ScheduleQueueFullError "scheduler queue is full"), q)
  else
    (Ok uuid,
     mkQueue (maximum q) (sequence q + 1)
             (heappush (mkEntry (RANK (priority r)) (sequence q) uuid) (heap q))
             (<[uuid := r]> (requests q)) (<[uuid := now_ns]> (enqueued_ns q))
             (claimed q) (claim_entries q)).

(** [_compact_cancelled_locked] *)
Definition compact_cancelled (q : Queue) : Queue :=
  let with_heap h := mkQueue (maximum q) (sequence q) h (requests q) (enqueued_ns q)
                             (claimed q) (claim_entries q) in
  if bool_decide (requests q = ∅) then with_heap []
  else if Zlen (heap q) >? 2 * Zsize (requests q) + 64
  then with_heap (heapify (List.filter (λ e, is_some (requests q !! e_token e)) (heap q)))
  else q.

(** The claim of [token] is dropped with its bookkeeping. *)
Definition drop_claim (token : string) (q : Queue) : Queue :=
  mkQueue (maximum q) (sequence q) (heap q) (requests q) (delete token (enqueued_ns q))
          (claimed q ∖ {[token]}) (delete token (claim_entries q)).

(** [cancel] *)
Definition cancel (token : string) : Py Queue bool := λ q,
  match requests q !! token with
  | Some _ =>
      (Ok true,
       compact_cancelled
         (mkQueue (maximum q) (sequence q) (heap q) (delete token (requests q))
                  (delete token (enqueued_ns q)) (claimed q) (claim_entries q)))
  | None =>
      if decide (token ∈ claimed q) then (Ok true, drop_claim token q) else (Ok false, q)
  end.

(** [finish_claim] *)
Definition finish_claim (token : string) : Py Queue bool := λ q,
  if decide (token ∈ claimed q) then (Ok true, drop_claim token q) else (Ok false, q).

(** [claimed_wait_nanoseconds] *)
Definition claimed_wait_nanoseconds (now_ns : Z) (token : string) (q : Queue) : Z :=
  match enqueued_ns q !! token with
  | Some started => Z.max 0 (now_ns - started)
  | None => 0
  end.

(** [restore_claim]: the entry is popped even when the claim is gone. *)
Definition restore_claim (token : string) : Py Queue bool := λ q,
  let q1 := mkQueue (maximum q) (sequence q) (heap q) (requests q) (enqueued_ns q)
                    (claimed q) (delete token (claim_entries q)) in
  match claim_entries q !! token with
  | None => (Ok false, q1)
  | Some (rank, seq, r) =>
      if decide (token ∈ claimed q) then
        (Ok true,
         mkQueue (maximum q) (sequence q) (heappush (mkEntry rank seq token) (heap q))
                 (<[token := r]> (requests q)) (enqueued_ns q)
                 (claimed q ∖ {[token]}) (delete token (claim_entries q)))
      else (Ok false, q1)
  end.

(** Pop entries until one of a pending request: the inner loop of [dequeue]. *)
Fixpoint pop_live (requests : gmap string ScheduleRequest) (h : list Entry)
    : option (Entry * ScheduleRequest) * list Entry :=
  match h with
  | [] => (None, [])
  | e :: h' =>
      match requests !! e_token e with
      | Some r => (Some (e, r), h')
      | None => pop_live requests h'
      end
  end.

(** The head entry becomes a claim. *)
Definition claim (e : Entry) (r : ScheduleRequest) (h : list Entry) (q : Queue) : Queue :=
  mkQueue (maximum q) (sequence q) h (delete (e_token e) (requests q)) (enqueued_ns q)
          ({[e_token e]} ∪ claimed q)
          (<[e_token e := (e_rank e, e_seq e, r)]> (claim_entries q)).

Definition set_heap (h : list Entry) (q : Queue) : Queue :=
  mkQueue (maximum q) (sequence q) h (requests q) (enqueued_ns q) (claimed q)
          (claim_entries q).

(** One pass of the outer loop of [dequeue]: a claimed request, or no pending one. *)
Definition take_head (q : Queue) : option (string * ScheduleRequest) * Queue :=
  match pop_live (requests q) (heap q) with
  | (Some (e, r), h) => (Some (e_token e, r), claim e r h q)
  | (None, h) => (None, set_heap h q)
  end.

(** The outer loop.  Each element of [waits] is one pass that finds nothing: the
    clock reading of that pass, and what the other threads do to the queue while
    [condition.wait] has released the lock.  [None] as the first component is a
    call that is still waiting when [waits] ends. *)
Fixpoint dequeue_loop (no_wait : bool) (deadline : option PyFloat.float)
    (waits : list (PyFloat.float * (Queue → Queue))) (q : Queue)
    : option (option (string * ScheduleRequest)) * Queue :=
  match take_head q with
  | (Some x, q') => (Some (Some x), q')
  | (None, q') =>
      if no_wait then (Some None, q')
      else
        match waits with
        | [] => (None, q')
        | (now, others) :: waits' =>
            if match deadline with Some d => PyFloat.fleb (PyFloat.fsub d now) PyFloat.zero | None => false end
            then (Some None, q')
            else dequeue_loop no_wait deadline waits' (others q')
        end
  end.

(** [dequeue], [start] being the reading of [time.monotonic] from which the deadline is
    set. *)
Definition dequeue (timeout : option PyFloat.float) (start : PyFloat.float)
    (waits : list (PyFloat.float * (Queue → Queue)))
    : Py Queue (option (option (string * ScheduleRequest))) := λ q,
  match timeout with
  | Some t =>
      if PyFloat.fltb t PyFloat.zero then (Raise (ValueError "queue timeout must not be negative"), q)
      else let '(r, q') := dequeue_loop (PyFloat.feqb t PyFloat.zero) (Some (PyFloat.fadd start t)) waits q in
           (Ok r, q')
  | None => let '(r, q') := dequeue_loop false None waits q in (Ok r, q')
  end.

(** [while self._heap and self._heap[0][2] not in self._requests: heappop] *)
Fixpoint drop_dead (requests : gmap string ScheduleRequest) (h : list Entry) : list Entry :=
  match h with
  | [] => []
  | e :: h' => if is_some (requests !! e_token e) then h else drop_dead requests h'
  end.

(** [peek]: the head's request, looked up with a KeyError when absent. *)
Definition peek : Py Queue (option (string * ScheduleRequest)) := λ q,
  let h := drop_dead (requests q) (heap q) in
  match h with
  | [] => (Ok None, set_heap h q)
  | e :: _ =>
      match requests q !! e_token e with
      | Some r => (Ok (Some (e_token e, r)), set_heap h q)
      | None => (Raise (KeyError (e_token e)), set_heap h q)
      end
  end.

(** [claim_head] *)
Definition claim_head (token : string) : Py Queue (option (string * ScheduleRequest)) := λ q,
  let h := drop_dead (requests q) (heap q) in
  match h with
  | [] => (Ok None, set_heap h q)
  | e :: h' =>
      if negb (str_eqb (e_token e) token) then (Ok None, set_heap h q)
      else match requests q !! token with
           | Some r => (Ok (Some (token, r)), claim e r h' q)
           | None => (Raise (KeyError token), set_heap h' q)
           end
  end.

(** [snapshot] *)
Definition count_priority (p : Priority) (q : Queue) : Z :=
  map_sum (λ r, if decide (priority r = p) then 1 else 0) (requests q).
Definition snapshot (q : Queue) : list (string * Z) :=
  [("queued", Zsize (requests q)); ("dispatching", Z.of_nat (size (claimed q)));
   ("capacity", maximum q)]
  ++ ((λ p, (Priority_value p, count_priority p q)) <$> Priority_members).

(** ** Invariant *)

(** Strictly earlier in the queue: priority first, then submission order. *)
Definition entry_lt (a b : Entry) : Prop :=
  e_rank a < e_rank b ∨ (e_rank a = e_rank b ∧ e_seq a < e_seq b).

Record queue_inv_at (slack : Z) (q : Queue) : Prop := {
  qi_sorted : StronglySorted entry_lt (heap q);
  qi_tokens : NoDup (e_token <$> heap q);
  qi_seqs : NoDup (e_seq <$> heap q);
  qi_live : ∀ t r, requests q !! t = Some r →
    ∃ e, e ∈ heap q ∧ e_token e = t ∧ e_rank e = RANK (priority r);
  qi_seq : ∀ e, e ∈ heap q → e_seq e < sequence q;
  qi_claim : ∀ t rank seq r, claim_entries q !! t = Some (rank, seq, r) →
    rank = RANK (priority r) ∧ seq < sequence q ∧
    (∀ e, e ∈ heap q → e_seq e ≠ seq ∧ e_token e ≠ t);
  qi_claim_seq : ∀ t1 t2 k1 k2 seq r1 r2,
    claim_entries q !! t1 = Some (k1, seq, r1) → claim_entries q !! t2 = Some (k2, seq, r2) →
    t1 = t2;
  qi_claimed : dom (claim_entries q) = claimed q;
  qi_disjoint : ∀ t, t ∈ claimed q → requests q !! t = None;
  qi_enqueued : dom (enqueued_ns q) = dom (requests q) ∪ claimed q;
  qi_capacity : Zsize (requests q) + Z.of_nat (size (claimed q)) <= maximum q;
  qi_tombstones : Zlen (heap q) <= Zsize (requests q) + maximum q + slack;
}.
(** The invariant between calls; inside [cancel] there is one tombstone more. *)
Abbreviation queue_inv := (queue_inv_at 64).

(** A value of uuid4 is none of the tokens the queue has seen. *)
Definition fresh_token (t : string) (q : Queue) : Prop :=
  requests q !! t = None ∧ ¬ (t ∈ claimed q) ∧ ¬ (t ∈ e_token <$> heap q).

(** *** Heap lemmas *)

Lemma heappush_perm e h : heappush e h ≡ₚ e :: h.
Proof.
  induction h as [|x h IH]; cbn; [done|]. destruct (entry_leb e x); [done|].
  rewrite IH. constructor.
Qed.

Lemma elem_of_heappush x e h : x ∈ heappush e h ↔ x = e ∨ x ∈ h.
Proof. by rewrite heappush_perm, elem_of_cons. Qed.

Lemma entry_lt_trans a b c : entry_lt a b → entry_lt b c → entry_lt a c.
Proof. unfold entry_lt. lia. Qed.

Lemma entry_leb_lt a b : e_seq a ≠ e_seq b → if entry_leb a b then entry_lt a b else entry_lt b a.
Proof.
  intros Hne. unfold entry_leb, entry_lt.
  destruct (e_rank a =? e_rank b) eqn:E1; [|destruct (_ <? _) eqn:E2; breflect; lia].
  destruct (e_seq a =? e_seq b) eqn:E3; [breflect; lia|].
  destruct (_ <? _) eqn:E2; breflect; lia.
Qed.

Lemma heappush_sorted e h :
  StronglySorted entry_lt h → (∀ x, x ∈ h → e_seq x ≠ e_seq e) →
  StronglySorted entry_lt (heappush e h).
Proof.
  induction h as [|x h IH]; intros Hs Hne; cbn; [by repeat constructor|].
  apply StronglySorted_inv in Hs as [Hs Hx].
  pose proof (entry_leb_lt e x ltac:(intros ?; apply (Hne x); [left|done])) as Hlt.
  destruct (entry_leb e x).
  - constructor; [by constructor|]. constructor; [done|].
    eapply Forall_impl; [exact Hx|]. intros y Hy. by eapply entry_lt_trans.
  - constructor; [apply IH; [done|intros; apply Hne; by right]|].
    rewrite heappush_perm. by constructor.
Qed.

Lemma heapify_sorted l :
  StronglySorted entry_lt l → heapify l = l.
Proof.
  induction 1 as [|e l Hs IH He]; [done|].
  change (heapify (e :: l)) with (heappush e (heapify l)). rewrite IH.
  destruct l as [|x l]; cbn; [done|]. apply Forall_cons in He as [He _].
  replace (entry_leb e x) with true; [done|]. unfold entry_leb.
  unfold entry_lt in He. destruct (e_rank e =? e_rank x) eqn:E1; breflect.
  - destruct (e_seq e =? e_seq x) eqn:E2; breflect; [lia|]. symmetry. apply Z.ltb_lt. lia.
  - symmetry. apply Z.ltb_lt. lia.
Qed.

Lemma filter_sorted (f : Entry → bool) l :
  StronglySorted entry_lt l → StronglySorted entry_lt (List.filter f l).
Proof.
  induction 1 as [|e l Hs IH He]; cbn; [constructor|]. destruct (f e); [|done].
  constructor; [done|]. rewrite Forall_forall in *. intros x Hx.
  apply list_elem_of_In, filter_In in Hx as [Hx _]. apply He. by apply list_elem_of_In.
Qed.

Lemma elem_of_filter_live {A} (m : gmap string A) x h :
  x ∈ List.filter (λ e, is_some (m !! e_token e)) h ↔ x ∈ h ∧ is_Some (m !! e_token x).
Proof.
  rewrite !list_elem_of_In, filter_In. unfold is_some.
  destruct (m !! e_token x); cbn; split; intros [? H]; (split; [done|]);
    first [done|by eexists|by destruct H].
Qed.

Lemma filter_fmap_NoDup {B} (g : Entry → B) (f : Entry → bool) h :
  NoDup (g <$> h) → NoDup (g <$> List.filter f h).
Proof.
  induction h as [|e h IH]; cbn; [done|]. rewrite NoDup_cons. intros [Hn Hd].
  destruct (f e); [|by apply IH]. rewrite fmap_cons, NoDup_cons. split; [|by apply IH].
  intros (x & Hx & Hin)%list_elem_of_fmap. apply Hn, list_elem_of_fmap. exists x.
  split; [done|]. rewrite list_elem_of_In, filter_In in Hin. apply list_elem_of_In, Hin.
Qed.

Lemma filter_tokens_NoDup (f : Entry → bool) h :
  NoDup (e_token <$> h) → NoDup (e_token <$> List.filter f h).
Proof. apply filter_fmap_NoDup. Qed.

Lemma filter_seqs_NoDup (f : Entry → bool) h :
  NoDup (e_seq <$> h) → NoDup (e_seq <$> List.filter f h).
Proof. apply filter_fmap_NoDup. Qed.

(** Entries of distinct pending tokens are at most as many as the requests. *)
Lemma live_length {A} (m : gmap string A) l :
  NoDup (e_token <$> l) → (∀ e, e ∈ l → is_Some (m !! e_token e)) → Zlen l <= Zsize m.
Proof.
  intros Hnd Hin. unfold Zlen, Zsize.
  rewrite <-(length_fmap e_token l), <-size_dom, <-(size_list_to_set (C := gset string)) by done.
  apply inj_le, subseteq_size. intros t [e [-> He]]%elem_of_list_to_set%list_elem_of_fmap.
  apply elem_of_dom. by apply Hin.
Qed.

(** [pop_live] skips tombstones up to the first entry of a pending request. *)
Lemma pop_live_spec m h :
  match pop_live m h with
  | (Some (e, r), h') => ∃ dead, h = dead ++ e :: h' ∧ m !! e_token e = Some r ∧
                                 ∀ x, x ∈ dead → m !! e_token x = None
  | (None, h') => h' = [] ∧ ∀ x, x ∈ h → m !! e_token x = None
  end.
Proof.
  induction h as [|e h IH]; cbn; [set_solver|].
  destruct (m !! e_token e) as [r|] eqn:He; [exists []; set_solver|].
  destruct (pop_live m h) as [[[e' r']|] h'].
  - destruct IH as (dead & -> & Hr & Hd). exists (e :: dead). split; [done|]. split; [done|].
    intros x [->|Hx]%elem_of_cons; [done|by apply Hd].
  - destruct IH as [-> Hd]. split; [done|]. intros x [->|Hx]%elem_of_cons; [done|by apply Hd].
Qed.

Lemma drop_dead_spec m h :
  ∃ dead, h = dead ++ drop_dead m h ∧ (∀ x, x ∈ dead → m !! e_token x = None) ∧
          match drop_dead m h with e :: _ => is_Some (m !! e_token e) | [] => True end.
Proof.
  induction h as [|e h IH]; cbn; [by exists []; split; [|split; [set_solver|]]|].
  unfold is_some. destruct (m !! e_token e) as [r|] eqn:He; cbn.
  - exists []. split; [done|]. split; [set_solver|]. by rewrite He.
  - destruct IH as (dead & Hh & Hd & Hl). exists (e :: dead). rewrite <-app_comm_cons, <-Hh.
    split; [done|]. split; [|done]. intros x [->|Hx]%elem_of_cons; [done|by apply Hd].
Qed.

(** [peek] and [claim_head] see the head [dequeue] would take. *)
Lemma drop_dead_pop_live m h :
  match drop_dead m h with
  | [] => pop_live m h = (None, [])
  | e :: h' => ∃ r, m !! e_token e = Some r ∧ pop_live m h = (Some (e, r), h')
  end.
Proof.
  induction h as [|e h IH]; cbn; [done|]. unfold is_some.
  destruct (m !! e_token e) as [r|] eqn:He; cbn; [eauto|exact IH].
Qed.

Lemma StronglySorted_app_r {A} (R : A → A → Prop) l1 l2 :
  StronglySorted R (l1 ++ l2) → StronglySorted R l2.
Proof. induction l1; cbn; [done|]. intros [??]%StronglySorted_inv. auto. Qed.

Lemma token_inj h x y :
  NoDup (e_token <$> h) → x ∈ h → y ∈ h → e_token x = e_token y → x = y.
Proof.
  induction h as [|e h IH]; cbn; [set_solver|]. rewrite NoDup_cons. intros [Hn Hd].
  rewrite !elem_of_cons. intros [->|Hx] [->|Hy] Heq; [done| | |by apply IH].
  - destruct Hn. apply list_elem_of_fmap. by exists y.
  - destruct Hn. apply list_elem_of_fmap. by exists x.
Qed.

Lemma sorted_seq_inj h x y :
  StronglySorted entry_lt h → x ∈ h → y ∈ h → x = y ∨ entry_lt x y ∨ entry_lt y x.
Proof.
  induction 1 as [|e l Hs IH He]; [set_solver|]. rewrite Forall_forall in He.
  rewrite !elem_of_cons. intros [->|Hx] [->|Hy]; auto.
Qed.

Lemma size_claim_add (s : gset string) t :
  t ∉ s → Z.of_nat (size ({[t]} ∪ s)) = Z.of_nat (size s) + 1.
Proof. intros Ht. rewrite size_union by set_solver. rewrite size_singleton. lia. Qed.

Lemma size_claim_remove (s : gset string) t :
  t ∈ s → Z.of_nat (size (s ∖ {[t]})) = Z.of_nat (size s) - 1.
Proof.
  intros Ht. rewrite size_difference by set_solver. rewrite size_singleton.
  assert (size s ≠ 0%nat) by (intros H%size_empty_iff; set_solver). lia.
Qed.

(** *** The operations preserve the invariant *)

Lemma enqueue_inv t now r q :
  fresh_token t q → queue_inv q → queue_inv (enqueue t now r q).2.
Proof.
  intros (Hr & Hc & Hh) Hinv. unfold enqueue. destruct (_ >=? _) eqn:E; [exact Hinv|].
  destruct Hinv. breflect. split; cbn.
  - apply heappush_sorted; [done|]. intros x Hx. specialize (qi_seq0 x Hx). cbn. lia.
  - rewrite heappush_perm. cbn. by constructor.
  - rewrite heappush_perm. cbn. constructor; [|done].
    intros (x & Hx & Hin)%list_elem_of_fmap. specialize (qi_seq0 x Hin). lia.
  - intros t' r' Hl. destruct (decide (t = t')) as [->|Hne].
    + rewrite lookup_insert_eq in Hl. simplify_eq.
      eexists. rewrite elem_of_heappush. split; [by left|done].
    + rewrite lookup_insert_ne in Hl by done. destruct (qi_live0 t' r' Hl) as (e & He & ?).
      exists e. rewrite elem_of_heappush. auto.
  - intros e [->|He]%elem_of_heappush; cbn; [lia|]. specialize (qi_seq0 e He). lia.
  - intros t' k s r' Hl. destruct (qi_claim0 _ _ _ _ Hl) as (-> & Hs & He).
    split; [done|]. split; [lia|]. intros e [->|Hin]%elem_of_heappush; [|by apply He].
    cbn. split; [lia|]. intros ->. apply Hc. rewrite <-qi_claimed0. by eapply elem_of_dom_2.
  - done.
  - done.
  - intros t' Ht'. rewrite lookup_insert_ne by congruence. by apply qi_disjoint0.
  - rewrite !dom_insert_L, qi_enqueued0. set_solver.
  - rewrite Zsize_insert_fresh by done. lia.
  - rewrite Zsize_insert_fresh by done. unfold Zlen in *. rewrite heappush_perm. cbn. lia.
Qed.

Lemma drop_claim_inv t q : t ∈ claimed q → queue_inv q → queue_inv (drop_claim t q).
Proof.
  intros Ht []. split; cbn; try done.
  - intros t' k s r [_ Hl]%lookup_delete_Some. by apply (qi_claim0 t').
  - intros t1 t2 k1 k2 s r1 r2 [_ H1]%lookup_delete_Some [_ H2]%lookup_delete_Some.
    by eapply qi_claim_seq0.
  - rewrite dom_delete_L, qi_claimed0. set_solver.
  - intros t' Ht'. apply qi_disjoint0. set_solver.
  - rewrite dom_delete_L, qi_enqueued0.
    assert (t ∉ dom (requests q)) by (rewrite elem_of_dom, qi_disjoint0 by done; by intros []).
    set_solver.
  - rewrite size_claim_remove by done. lia.
Qed.

(** Dropping a prefix of tombstones. *)
Lemma set_heap_inv dead h q :
  heap q = dead ++ h → (∀ x, x ∈ dead → requests q !! e_token x = None) →
  queue_inv q → queue_inv (set_heap h q).
Proof.
  intros Hh Hd []. rewrite Hh in *. split; cbn; try done.
  - by eapply StronglySorted_app_r.
  - rewrite fmap_app, NoDup_app in qi_tokens0. apply qi_tokens0.
  - rewrite fmap_app, NoDup_app in qi_seqs0. apply qi_seqs0.
  - intros t r Hl. destruct (qi_live0 t r Hl) as (e & [He|He]%elem_of_app & <- & ?); [|eauto].
    by rewrite (Hd e He) in Hl.
  - intros e He. apply qi_seq0. set_solver.
  - intros t k s r Hl. destruct (qi_claim0 _ _ _ _ Hl) as (? & ? & He).
    split; [done|]. split; [done|]. intros e Hin. apply He. set_solver.
  - unfold Zlen in *. rewrite length_app in qi_tombstones0. lia.
Qed.

(** The entry of a pending request carries its priority. *)
Lemma entry_rank q e r :
  queue_inv q → e ∈ heap q → requests q !! e_token e = Some r → e_rank e = RANK (priority r).
Proof.
  intros Hinv He Hr. destruct (qi_live _ _ Hinv _ _ Hr) as (e' & He' & Ht & <-).
  by rewrite (token_inj _ e' e (qi_tokens _ _ Hinv) He' He Ht).
Qed.

Lemma claim_inv dead e r h q :
  heap q = dead ++ e :: h → requests q !! e_token e = Some r →
  (∀ x, x ∈ dead → requests q !! e_token x = None) →
  queue_inv q → queue_inv (claim e r h q).
Proof.
  intros Hh Hr Hd Hinv.
  pose proof (entry_rank q e r Hinv ltac:(rewrite Hh; set_solver) Hr) as Hrank.
  apply (set_heap_inv dead (e :: h)) in Hinv; [|done|done].
  assert (e_token e ∉ claimed q) as Hnc.
  { intros Hc. pose proof (qi_disjoint _ _ Hinv _ Hc) as Hx. cbn in Hx. congruence. }
  destruct Hinv. cbn in *.
  apply NoDup_cons in qi_tokens0 as [Hnt Htokens]. apply NoDup_cons in qi_seqs0 as [Hns Hseqs].
  split; cbn.
  - by apply StronglySorted_inv in qi_sorted0 as [? _].
  - done.
  - done.
  - intros t r' [Hne Hl]%lookup_delete_Some. destruct (qi_live0 t r' Hl) as (x & Hx & ? & ?).
    apply elem_of_cons in Hx as [->|Hx]; [done|eauto].
  - intros x Hx. apply qi_seq0. by right.
  - intros t k s r' Hl. destruct (decide (e_token e = t)) as [<-|Hne].
    + rewrite lookup_insert_eq in Hl. simplify_eq. split; [done|].
      split; [apply qi_seq0; left|]. intros x Hx. split; intros Heq;
        [apply Hns|apply Hnt]; apply list_elem_of_fmap; by exists x.
    + rewrite lookup_insert_ne in Hl by done. destruct (qi_claim0 _ _ _ _ Hl) as (? & ? & He).
      split; [done|]. split; [done|]. intros x Hx. apply He. by right.
  - intros t1 t2 k1 k2 s r1 r2.
    assert (∀ t k r', claim_entries q !! t = Some (k, e_seq e, r') → False) as Hno.
    { intros t k r' Hl. destruct (qi_claim0 _ _ _ _ Hl) as (_ & _ & He).
      by destruct (He e ltac:(left)). }
    destruct (decide (e_token e = t1)) as [<-|H1], (decide (e_token e = t2)) as [<-|H2];
      rewrite ?lookup_insert_eq, ?lookup_insert_ne by done; intros Hl1 Hl2; simplify_eq; try done.
    + by apply Hno in Hl2.
    + by apply Hno in Hl1.
    + by eapply qi_claim_seq0.
  - rewrite dom_insert_L, qi_claimed0. done.
  - intros t [->%elem_of_singleton|Ht]%elem_of_union; [apply lookup_delete_eq|].
    rewrite lookup_delete_None. right. by apply qi_disjoint0.
  - rewrite dom_delete_L, qi_enqueued0. apply elem_of_dom_2 in Hr.
    apply set_eq. intros x. destruct (decide (x = e_token e)) as [->|]; set_solver.
  - rewrite (Zsize_delete _ _ r), size_claim_add by done. lia.
  - rewrite (Zsize_delete _ _ r) by done. unfold Zlen in *. cbn in qi_tombstones0. lia.
Qed.

Lemma take_head_inv q : queue_inv q → queue_inv (take_head q).2.
Proof.
  intros Hinv. unfold take_head. pose proof (pop_live_spec (requests q) (heap q)) as H.
  destruct (pop_live _ _) as [[[e r]|] h]; cbn.
  - destruct H as (dead & ? & ? & ?). by eapply claim_inv.
  - destruct H as [-> Hd]. eapply (set_heap_inv (heap q)); [by rewrite app_nil_r|done..].
Qed.

Lemma peek_inv q : queue_inv q → queue_inv (peek q).2.
Proof.
  intros Hinv. destruct (drop_dead_spec (requests q) (heap q)) as (dead & Hh & Hd & _).
  pose proof (set_heap_inv dead (drop_dead (requests q) (heap q)) q Hh Hd Hinv).
  unfold peek. by repeat case_match.
Qed.

Lemma claim_head_inv t q : queue_inv q → queue_inv (claim_head t q).2.
Proof.
  intros Hinv. destruct (drop_dead_spec (requests q) (heap q)) as (dead & Hh & Hd & Hl).
  pose proof (set_heap_inv dead (drop_dead (requests q) (heap q)) q Hh Hd Hinv) as Hset.
  unfold claim_head. destruct (drop_dead _ _) as [|e h'] eqn:Hdd; [done|].
  destruct (negb _) eqn:E; [done|]. unfold str_eqb in E. breflect. subst t.
  destruct Hl as [r Hr]. rewrite Hr. by eapply claim_inv.
Qed.

(** Removing a pending request leaves its entry behind as a tombstone. *)
Lemma forget_request_inv t r q :
  requests q !! t = Some r → queue_inv q →
  queue_inv_at 65 (mkQueue (maximum q) (sequence q) (heap q) (delete t (requests q))
                           (delete t (enqueued_ns q)) (claimed q) (claim_entries q)).
Proof.
  intros Hr Hinv.
  assert (t ∉ claimed q) as Hnc by (intros Hc%(qi_disjoint _ _ Hinv); congruence).
  destruct Hinv. split; cbn; try done.
  - intros t' r' [_ Hl]%lookup_delete_Some. by apply qi_live0.
  - intros t' Ht'. rewrite lookup_delete_None. right. by apply qi_disjoint0.
  - rewrite !dom_delete_L, qi_enqueued0. set_solver.
  - rewrite (Zsize_delete _ _ r) by done. lia.
  - rewrite (Zsize_delete _ _ r) by done. lia.
Qed.

Lemma compact_inv q : queue_inv_at 65 q → queue_inv (compact_cancelled q).
Proof.
  intros Hinv. pose proof (Zsize_nonneg (requests q)). pose proof (qi_capacity _ _ Hinv).
  unfold compact_cancelled. destruct (bool_decide _) eqn:E; breflect.
  - destruct Hinv. split; cbn; try done; try (by constructor).
    + intros t r Hl. rewrite E in Hl. by rewrite lookup_empty in Hl.
    + intros e He. by apply elem_of_nil in He.
    + intros t k s r Hl. destruct (qi_claim0 _ _ _ _ Hl) as (? & ? & _).
      split; [done|]. split; [done|]. intros e He. by apply elem_of_nil in He.
    + unfold Zlen. cbn. lia.
  - destruct (_ >? _) eqn:Hlen; breflect; [|destruct Hinv; split; try done; lia].
    destruct Hinv. rewrite heapify_sorted by by apply filter_sorted.
    assert (∀ e, e ∈ List.filter (λ e, is_some (requests q !! e_token e)) (heap q) →
                 e ∈ heap q) as Hsub by (intros e [? _]%elem_of_filter_live; done).
    split; cbn; try done.
    + by apply filter_sorted.
    + by apply filter_tokens_NoDup.
    + by apply filter_seqs_NoDup.
    + intros t r Hl. destruct (qi_live0 t r Hl) as (e & He & <- & ?). exists e.
      rewrite elem_of_filter_live. eauto.
    + intros e He. apply qi_seq0. eauto.
    + intros t k s r Hl. destruct (qi_claim0 _ _ _ _ Hl) as (? & ? & He).
      split; [done|]. split; [done|]. eauto.
    + assert (Zlen (List.filter (λ e, is_some (requests q !! e_token e)) (heap q))
              <= Zsize (requests q)); [|lia].
      apply live_length; [by apply filter_tokens_NoDup|].
      by intros e [_ ?]%elem_of_filter_live.
Qed.

Lemma cancel_inv t q : queue_inv q → queue_inv (cancel t q).2.
Proof.
  intros Hinv. unfold cancel. destruct (requests q !! t) as [r|] eqn:Hr; cbn.
  - by eapply compact_inv, forget_request_inv.
  - case_decide; [by apply drop_claim_inv|done].
Qed.

Lemma finish_claim_inv t q : queue_inv q → queue_inv (finish_claim t q).2.
Proof. intros Hinv. unfold finish_claim. case_decide; [by apply drop_claim_inv|done]. Qed.

Lemma restore_claim_inv t q : queue_inv q → queue_inv (restore_claim t q).2.
Proof.
  intros Hinv. unfold restore_claim.
  destruct (claim_entries q !! t) as [[[k s] r]|] eqn:Hl.
  - rewrite decide_True by (rewrite <-(qi_claimed _ _ Hinv); by eapply elem_of_dom_2).
    assert (t ∈ claimed q) as Ht by (rewrite <-(qi_claimed _ _ Hinv); by eapply elem_of_dom_2).
    destruct Hinv. destruct (qi_claim0 _ _ _ _ Hl) as (-> & Hs & Hne).
    pose proof (qi_disjoint0 t Ht) as Hnone. split; cbn.
    + apply heappush_sorted; [done|]. intros x Hx. by apply Hne.
    + rewrite heappush_perm. cbn. constructor; [|done].
      intros (x & Hx & Hin)%list_elem_of_fmap. by destruct (Hne x Hin).
    + rewrite heappush_perm. cbn. constructor; [|done].
      intros (x & Hx & Hin)%list_elem_of_fmap. by destruct (Hne x Hin).
    + intros t' r' Hl'. destruct (decide (t = t')) as [->|Hd].
      * rewrite lookup_insert_eq in Hl'. simplify_eq.
        eexists. rewrite elem_of_heappush. split; [by left|done].
      * rewrite lookup_insert_ne in Hl' by done. destruct (qi_live0 t' r' Hl') as (e & ? & ?).
        exists e. rewrite elem_of_heappush. auto.
    + intros e [->|He]%elem_of_heappush; [done|]. by apply qi_seq0.
    + intros t' k' s' r' [Hd Hl']%lookup_delete_Some.
      destruct (qi_claim0 _ _ _ _ Hl') as (? & ? & He). split; [done|]. split; [done|].
      intros e [->|Hin]%elem_of_heappush; [|by apply He]. cbn. split; [|done].
      intros ->. destruct Hd. by eapply qi_claim_seq0.
    + intros t1 t2 k1 k2 s' r1 r2 [_ H1]%lookup_delete_Some [_ H2]%lookup_delete_Some.
      by eapply qi_claim_seq0.
    + rewrite dom_delete_L, qi_claimed0. set_solver.
    + intros t' Ht'. rewrite lookup_insert_ne by set_solver. apply qi_disjoint0. set_solver.
    + rewrite dom_insert_L, qi_enqueued0.
      apply set_eq. intros x. destruct (decide (x = t)) as [->|]; set_solver.
    + rewrite Zsize_insert_fresh, size_claim_remove by done. lia.
    + rewrite Zsize_insert_fresh by done. unfold Zlen in *. rewrite heappush_perm. cbn. lia.
  - cbn. rewrite delete_id by done. by destruct Hinv.
Qed.

(** ** Transition system *)

Inductive op :=
| Enqueue (uuid : string) (now_ns : Z) (r : ScheduleRequest)
| Cancel (t : string)
| FinishClaim (t : string)
| RestoreClaim (t : string)
| TakeHead
| Peek
| ClaimHead (t : string).

Definition run_op (o : op) (q : Queue) : Queue :=
  match o with
  | Enqueue u n r => (enqueue u n r q).2
  | Cancel t => (cancel t q).2
  | FinishClaim t => (finish_claim t q).2
  | RestoreClaim t => (restore_claim t q).2
  | TakeHead => (take_head q).2
  | Peek => (peek q).2
  | ClaimHead t => (claim_head t q).2
  end.

Definition op_ok (o : op) (q : Queue) : Prop :=
  match o with Enqueue u _ _ => fresh_token u q | _ => True end.

Definition step (q q' : Queue) : Prop := ∃ o, op_ok o q ∧ run_op o q = q'.

Lemma step_inv q q' : queue_inv q → step q q' → queue_inv q'.
Proof.
  intros Hinv (o & Hok & <-). destruct o; cbn in *;
    auto using enqueue_inv, cancel_inv, finish_claim_inv, restore_claim_inv, take_head_inv,
      peek_inv, claim_head_inv.
Qed.

Lemma new_queue_inv n q : new_queue n = Ok q → queue_inv q.
Proof.
  unfold new_queue. intros H. run_cases H. breflect.
  split; cbn; try done; try (by constructor); try (by intros ? ?%elem_of_nil);
    rewrite ?dom_empty_L, ?size_empty; unfold Zsize, Zlen; rewrite ?map_size_empty; cbn;
    lia || set_solver.
Qed.

Lemma maximum_step q q' : step q q' → maximum q' = maximum q.
Proof.
  intros (o & _ & <-). destruct o; cbn; unfold enqueue, cancel, compact_cancelled, finish_claim,
    restore_claim, take_head, peek, claim_head, claim, drop_claim, set_heap;
    repeat case_match; done.
Qed.

(** ** Properties *)

(** C5: memory of the queue is bounded.  In every state reachable from an empty
    queue of capacity [n], at most [n] requests are pending or claimed, the heap
    with its tombstones holds at most [2 * n + 64] entries, no token is both
    pending and claimed, and every pending request has an entry in the heap. *)
Theorem queue_bounded n q0 q :
  new_queue n = Ok q0 → rtc step q0 q →
  Zsize (requests q) + Z.of_nat (size (claimed q)) <= n ∧
  Zlen (heap q) <= 2 * n + 64 ∧
  (∀ t, t ∈ claimed q → requests q !! t = None) ∧
  (∀ t r, requests q !! t = Some r → ∃ e, e ∈ heap q ∧ e_token e = t).
Proof.
  intros H0 Hrun.
  assert (queue_inv q ∧ maximum q = n) as [Hinv Hmax].
  { refine (rtc_invariant step (λ q, queue_inv q ∧ maximum q = n) q0 q _ _ Hrun).
    - intros a b [Ha <-] Hs. split; [by eapply step_inv|by apply maximum_step].
    - split; [by eapply new_queue_inv|]. unfold new_queue in H0. by run_cases H0. }
  destruct Hinv. pose proof (Zsize_nonneg (requests q)). repeat split; try done; try lia.
  intros t r (e & ? & ? & _)%qi_live0. eauto.
Qed.

(** The position at which a pending or claimed request is (or was) queued. *)
Definition queued_at (e : Entry) (q : Queue) : Prop :=
  e ∈ heap q ∧ is_Some (requests q !! e_token e).

Lemma dequeue_order_none q :
  queue_inv q → requests q ≠ ∅ → ∃ x q', take_head q = (Some x, q').
Proof.
  intros Hinv Hne. unfold take_head. pose proof (pop_live_spec (requests q) (heap q)) as H.
  destruct (pop_live _ _) as [[[e r]|] h]; [eauto|]. destruct H as [_ Hd]. destruct Hne.
  apply map_empty. intros t. destruct (requests q !! t) as [r|] eqn:Hr; [|done].
  destruct (qi_live _ _ Hinv _ _ Hr) as (e & He & <- & _). by rewrite Hd in Hr.
Qed.

(** Requests leave the queue by priority and, within a priority, in
    submission order: the request [dequeue] claims precedes every other pending
    request in that order, and [dequeue] finds nothing only when no request is
    pending. *)
Theorem dequeue_order q :
  queue_inv q →
  match take_head q with
  | (Some (t, r), q') =>
      requests q !! t = Some r ∧ requests q' = delete t (requests q) ∧ t ∈ claimed q' ∧
      ∃ e, queued_at e q ∧ e_token e = t ∧
        ∀ e', queued_at e' q → e' = e ∨
          (RANK (priority r) < e_rank e' ∨ RANK (priority r) = e_rank e' ∧ e_seq e < e_seq e')
  | (None, q') => requests q = ∅
  end.
Proof.
  intros Hinv. unfold take_head. pose proof (pop_live_spec (requests q) (heap q)) as H.
  destruct (pop_live _ _) as [[[e r]|] h]; cbn.
  - destruct H as (dead & Hh & Hr & Hd).
    split; [done|]. split; [done|]. split; [set_solver|]. exists e.
    assert (e ∈ heap q) as He by (rewrite Hh; set_solver).
    split; [by split; [|exists r]|]. split; [done|]. intros e' [He' [r' Hr']].
    rewrite <-(entry_rank q e r Hinv He Hr).
    rewrite Hh in He'. apply elem_of_app in He' as [He'|[->|He']%elem_of_cons]; [|by left|].
    + rewrite (Hd _ He') in Hr'. done.
    + right. pose proof (qi_sorted _ _ Hinv) as Hs. rewrite Hh in Hs.
      apply StronglySorted_app_r, StronglySorted_inv in Hs as [_ Hs].
      rewrite Forall_forall in Hs. by apply Hs.
  - destruct H as [_ Hd]. apply map_empty. intros t.
    destruct (requests q !! t) as [r|] eqn:Hr; [|done].
    destruct (qi_live _ _ Hinv _ _ Hr) as (e & He & <- & _). by rewrite Hd in Hr.
Qed.

(** A capacity-blocked claim goes back to its original place: claiming the
    head and restoring it gives the queue before the claim, less the tombstones
    in front of it, so that the same request is the head again. *)
Theorem restore_claim_position q t r q1 :
  queue_inv q → take_head q = (Some (t, r), q1) →
  restore_claim t q1 = (Ok true, set_heap (drop_dead (requests q) (heap q)) q) ∧
  (peek (restore_claim t q1).2).1 = Ok (Some (t, r)).
Proof.
  intros Hinv Htake. unfold take_head in Htake.
  pose proof (drop_dead_pop_live (requests q) (heap q)) as Hdd.
  destruct (drop_dead_spec (requests q) (heap q)) as (dead & Hh & Hd & _).
  destruct (drop_dead _ _) as [|e h'] eqn:Hdrop; [by rewrite Hdd in Htake|].
  destruct Hdd as (r' & Hr & Hpop). rewrite Hpop in Htake. simplify_eq.
  assert (e_token e ∉ claimed q) as Hnc by (intros Hc%(qi_disjoint _ _ Hinv); congruence).
  assert (restore_claim (e_token e) (claim e r h' q) = (Ok true, set_heap (e :: h') q)) as Heq.
  { unfold restore_claim, claim, set_heap. cbn. rewrite lookup_insert_eq.
    rewrite decide_True by set_solver. f_equal. f_equal.
    - destruct e as [k s tk]. cbn. destruct h' as [|x h'']; [done|]. cbn.
      pose proof (qi_sorted _ _ Hinv) as Hs. rewrite Hh in Hs.
      apply StronglySorted_app_r in Hs. pose proof (heapify_sorted _ Hs) as Hfix.
      apply StronglySorted_inv in Hs as [Hs' _].
      change (heapify (mkEntry k s tk :: x :: h''))
        with (heappush (mkEntry k s tk) (heapify (x :: h''))) in Hfix.
      by rewrite (heapify_sorted _ Hs') in Hfix.
    - by rewrite insert_delete_eq, insert_id.
    - set_solver.
    - rewrite delete_insert_eq. apply delete_id.
      rewrite <-not_elem_of_dom, (qi_claimed _ _ Hinv). done. }
  rewrite Heq. split; [done|]. unfold peek. cbn. rewrite Hr. cbn. by rewrite Hr.
Qed.

(** A claim is settled once.  Cancelling, finishing or restoring the claim
    of [t] succeeds exactly when [t] is claimed and ends the claim, so at most
    one of two racing calls reports success. *)
Theorem claim_settled_once q t :
  queue_inv q → t ∈ claimed q →
  (finish_claim t q).1 = Ok true ∧ (cancel t q).1 = Ok true ∧ (restore_claim t q).1 = Ok true ∧
  (∀ q', q' = (finish_claim t q).2 ∨ q' = (cancel t q).2 →
     (finish_claim t q').1 = Ok false ∧ (cancel t q').1 = Ok false ∧
     (restore_claim t q').1 = Ok false) ∧
  (finish_claim t (restore_claim t q).2).1 = Ok false.
Proof.
  intros Hinv Ht. pose proof (qi_disjoint _ _ Hinv _ Ht) as Hnone.
  assert (is_Some (claim_entries q !! t)) as [[[k s] r] Hc]
    by (rewrite <-elem_of_dom, (qi_claimed _ _ Hinv); done).
  assert (finish_claim t q = (Ok true, drop_claim t q)) as Hf
    by (unfold finish_claim; by rewrite decide_True).
  assert (cancel t q = (Ok true, drop_claim t q)) as Hk
    by (unfold cancel; rewrite Hnone; by rewrite decide_True).
  rewrite Hf, Hk. unfold restore_claim at 1 3. rewrite Hc, decide_True by done. cbn.
  split_and!; try done.
  - intros q' Hq'. assert (q' = drop_claim t q) as -> by naive_solver.
    unfold finish_claim, cancel, restore_claim. cbn. rewrite Hnone, lookup_delete_eq.
    rewrite !decide_False by set_solver. done.
  - unfold finish_claim. cbn. rewrite decide_False by set_solver. done.
Qed.

(** C25: c25: [dequeue] does not hang.  With a pending request it returns at once, and
    with a timeout it returns as soon as a pass reads the clock at or past the
    deadline, whatever the other threads do during the waits. *)
Theorem dequeue_returns timeout start waits q :
  PyFloat.fltb timeout PyFloat.zero = false → queue_inv q →
  (requests q ≠ ∅ ∨ PyFloat.feqb timeout PyFloat.zero = true ∨
   Exists (λ w : PyFloat.float * (Queue → Queue), PyFloat.number_le (PyFloat.fadd start timeout) w.1) waits) →
  ∃ r q', dequeue (Some timeout) start waits q = (Ok (Some r), q').
Proof.
  intros Ht Hinv H. unfold dequeue. rewrite Ht. set (no_wait := PyFloat.feqb timeout _) in *.
  enough (∃ r q', dequeue_loop no_wait (Some (PyFloat.fadd start timeout)) waits q = (Some r, q'))
    as (r & q' & ->) by eauto.
  destruct H as [Hne|[->|Hex]].
  - pose proof (dequeue_order_none q Hinv Hne) as (x & q' & Hx). destruct waits; cbn; rewrite Hx;
      eauto.
  - destruct waits; cbn; destruct (take_head q) as [[?|] ?]; eauto.
  - clear Hinv. revert q. induction Hex as [[now f] waits Hnow|[now f] waits _ IH]; intros q; cbn [dequeue_loop];
      destruct (take_head q) as [[?|] q1]; eauto; destruct no_wait; eauto.
    + rewrite PyFloat.fsub_nonpos by done. eauto.
    + destruct (PyFloat.fleb _ _); eauto.
Qed.

(** ** Witnesses *)

Definition demo_request (p : Priority) : ScheduleRequest :=
  {| operator := "matmul"; estimated_memory_bytes := 10; priority := p; batch_size := 1;
     phase := None; estimated_context_tokens := 0; precision := None; dimensions := [] |}.
Definition demo_new : Queue := mkQueue 4 0 [] ∅ ∅ ∅ ∅.
Definition demo_queue : Queue :=
  run_op (Enqueue "b" 2 (demo_request REALTIME))
    (run_op (Enqueue "a" 1 (demo_request NORMAL)) demo_new).
Definition demo_claimed : Queue := (take_head demo_queue).2.

Lemma demo_run : rtc step demo_new demo_queue.
Proof.
  eapply rtc_l; [exists (Enqueue "a" 1 (demo_request NORMAL)); split; [|reflexivity]|].
  - split; [done|]. split; refine (bool_decide_eq_false_1 _ _); vm_compute; reflexivity.
  - apply rtc_once. exists (Enqueue "b" 2 (demo_request REALTIME)). split; [|reflexivity].
    split; [vm_compute; reflexivity|]. split; refine (bool_decide_eq_false_1 _ _); vm_compute; reflexivity.
Qed.

Lemma demo_queue_inv : queue_inv demo_queue.
Proof.
  refine (rtc_invariant step queue_inv demo_new demo_queue step_inv _ demo_run).
  by apply (new_queue_inv 4).
Qed.

Lemma demo_claimed_inv : queue_inv demo_claimed.
Proof. apply take_head_inv, demo_queue_inv. Qed.

Lemma queue_bounded_witness :
  Zsize (requests demo_queue) + Z.of_nat (size (claimed demo_queue)) <= 4 ∧
  Zlen (heap demo_queue) <= 2 * 4 + 64.
Proof.
  pose proof (queue_bounded 4 demo_new demo_queue eq_refl demo_run) as (H1 & H2 & _).
  split; [exact H1|exact H2].
Defined.

Lemma dequeue_order_witness :
  requests (take_head demo_queue).2 = delete "b" (requests demo_queue).
Proof.
  pose proof (dequeue_order demo_queue demo_queue_inv) as H.
  change (take_head demo_queue) with
    (Some ("b", demo_request REALTIME), demo_claimed) in *.
  apply H.
Defined.

Lemma restore_claim_position_witness :
  (peek (restore_claim "b" demo_claimed).2).1 = Ok (Some ("b", demo_request REALTIME)).
Proof.
  apply (restore_claim_position demo_queue "b" (demo_request REALTIME) demo_claimed).
  - exact demo_queue_inv.
  - reflexivity.
Defined.

Lemma claim_settled_once_witness :
  (finish_claim "b" (cancel "b" demo_claimed).2).1 = Ok false.
Proof.
  assert ("b" ∈ claimed demo_claimed) as Hb by (refine (bool_decide_eq_true_1 _ _); vm_compute; reflexivity).
  destruct (claim_settled_once demo_claimed "b" demo_claimed_inv Hb) as (_ & _ & _ & H & _).
  apply (H (cancel "b" demo_claimed).2). by right.
Defined.

(** A timeout of half a second: the second pass reads the clock at the deadline. *)
Lemma dequeue_returns_witness :
  ∃ r q', dequeue (Some (PyFloat.literal 1 (-1))) (PyFloat.of_Z 100)
            [(PyFloat.of_Z 100, λ q, q); (PyFloat.literal 201 (-1), λ q, q)] demo_new = (Ok (Some r), q').
Proof.
  apply dequeue_returns.
  - vm_compute. reflexivity.
  - by apply (new_queue_inv 4).
  - right; right. right. left. split; [vm_compute; reflexivity|]. split; [vm_compute; reflexivity|].
    vm_compute. discriminate.
Defined.

End ScheduleQueue.
