(* ===== verification/Admission.v ===== *)
(** * Memory admission and adaptive policy (scheduler.py)

    The hard memory limit for admitted work ([MemoryAdmissionController]) and the
    policy derived from pressure, thermal state and power mode
    ([AdaptiveSchedulingPolicy]).  The controller and the device ledger both
    implement the interface [ReservationLedger] the scheduler releases through. *)

From S2P Require Import Prelude Types DeviceResources ScheduleQueue.

(** ** The interface of a reservation table

    What the scheduler relies on when it returns a reservation: a release ends
    exactly the named reservation, reports whether there was one, and keeps the
    table's own invariant. *)
Class ReservationLedger (L : Type) := {
  rl_inv : L → Prop;
  rl_active : L → gset string;
  rl_release : string → Py L bool;
  rl_release_ok : ∀ k l,
    (rl_release k l).1 = Ok (bool_decide (k ∈ rl_active l)) ∧
    rl_active (rl_release k l).2 = rl_active l ∖ {[k]};
  rl_release_inv : ∀ k l, rl_inv l → rl_inv (rl_release k l).2;
  rl_release_absent : ∀ k l, k ∉ rl_active l → (rl_release k l).2 = l;
}.

Section reservation_ledger.
Context `{ReservationLedger L}.

(** Releasing twice is releasing once. *)
Lemma rl_release_twice k l :
  rl_release k (rl_release k l).2 = (Ok false, (rl_release k l).2).
Proof.
  destruct (rl_release_ok k l) as [_ Hact].
  assert (k ∉ rl_active (rl_release k l).2) as Hk by (rewrite Hact; set_solver).
  pose proof (rl_release_absent k _ Hk) as Hs.
  destruct (rl_release_ok k (rl_release k l).2) as [Hr _].
  rewrite bool_decide_eq_false_2 in Hr by done.
  destruct (rl_release k (rl_release k l).2) as [r l']. cbn in *. by subst.
Qed.
End reservation_ledger.

#[export] Instance device_reservation_ledger : ReservationLedger DeviceResources.Ledger.
Proof.
  refine {| rl_inv := DeviceResources.ledger_inv;
            rl_active l := dom (DeviceResources.reservations l);
            rl_release := DeviceResources.release |}.
  - intros k l. unfold DeviceResources.release.
    destruct (DeviceResources.reservations l !! k) as [r|] eqn:Hk; cbn.
    + rewrite bool_decide_eq_true_2 by by eapply elem_of_dom_2. by rewrite dom_delete_L.
    + apply not_elem_of_dom in Hk. rewrite bool_decide_eq_false_2 by done. set_solver.
  - intros k l Hl.
    exact (DeviceResources.op_preserves_inv (DeviceResources.OpRelease k) l I Hl) ||
    (pose proof (DeviceResources.op_preserves_inv (DeviceResources.OpRelease k) l I Hl) as Hp;
     unfold DeviceResources.run_op, bind, ret in Hp;
     destruct (DeviceResources.release k l) as [[?|?] ?]; exact Hp).
  - intros k l Hk%not_elem_of_dom. unfold DeviceResources.release. by rewrite Hk.
Defined.

Module Admission.

(** ** Reservations *)

Record Reservation := mkReservation {
  reservation_id : string;
  bytes : Z;
  backend : Backend;
  res_priority : Priority;
  created_at_monotonic : Z;
  execution_plan_id : option string;
  kernel_tuning_id : option string;
  device_placement_plan_id : option string;
  device_resource_reservation_id : option string;
}.

Record Controller := mkController {
  capacity : Z;
  reserved : Z;
  reservations : gmap string Reservation;
}.

(** [MemoryAdmissionController.__init__] *)
Definition new_controller (capacity_bytes : Z) : res exn Controller :=
  check (negb (capacity_bytes <? 0)) (ValueError "capacity_bytes cannot be negative")
        (mkController capacity_bytes 0 ∅).

Definition available_bytes (c : Controller) : Z := capacity c - reserved c.

(** [reserve]: [uuid] and [now] are the values of uuid4 and of the clock. *)
Definition reserve (uuid : string) (now : Z) (r : ScheduleQueue.ScheduleRequest)
    (b : Backend) : Py Controller Reservation := λ c,
  let remaining := capacity c - reserved c in
  let needed := ScheduleQueue.estimated_memory_bytes r in
  if needed >? remaining
  then (Raise (MemoryCapacityError
          ("request needs " +:+ str_of_Z needed +:+ " bytes; " +:+ str_of_Z remaining
           +:+ " available")), c)
  else
    let reservation := mkReservation uuid needed b (ScheduleQueue.priority r) now
                                     None None None None in
    (Ok reservation,
     mkController (capacity c) (reserved c + needed) (<[uuid := reservation]> (reservations c))).

(** [release] *)
Definition release (rid : string) : Py Controller bool := λ c,
  match reservations c !! rid with
  | None => (Ok false, c)
  | Some r => (Ok true, mkController (capacity c) (reserved c - bytes r)
                                     (delete rid (reservations c)))
  end.

Record Snapshot := {
  snap_capacity_bytes : Z;
  snap_reserved_bytes : Z;
  snap_available_bytes : Z;
  snap_active_reservations : Z;
}.

(** [snapshot] *)
Definition snapshot (c : Controller) : Snapshot :=
  {| snap_capacity_bytes := capacity c; snap_reserved_bytes := reserved c;
     snap_available_bytes := capacity c - reserved c;
     snap_active_reservations := Zsize (reservations c) |}.

Record controller_inv (c : Controller) : Prop := {
  ci_sum : reserved c = map_sum bytes (reservations c);
  ci_bound : reserved c <= capacity c;
  ci_nonneg : map_Forall (λ _ r, 0 <= bytes r) (reservations c);
}.

Lemma new_controller_inv n c : new_controller n = Ok c → controller_inv c.
Proof.
  unfold new_controller, check. intros H. run_cases H. breflect.
  split; cbn; [by rewrite map_sum_empty|lia|done].
Qed.

Lemma reserve_inv uuid now r b c :
  reservations c !! uuid = None → 0 <= ScheduleQueue.estimated_memory_bytes r →
  controller_inv c → controller_inv (reserve uuid now r b c).2.
Proof.
  intros Hf Hr Hinv. unfold reserve. destruct (_ >? _) eqn:E; [exact Hinv|].
  destruct Hinv as [Hs Hb Hn]. breflect. split; cbn.
  - rewrite map_sum_insert by done. cbn. lia.
  - lia.
  - by apply map_Forall_insert_2.
Qed.

Lemma release_inv rid c : controller_inv c → controller_inv (release rid c).2.
Proof.
  intros Hinv. unfold release. destruct (reservations c !! rid) as [r|] eqn:Hr; [|exact Hinv].
  destruct Hinv as [Hs Hb Hn]. split; cbn.
  - erewrite map_sum_delete by done. lia.
  - pose proof (Hn rid r Hr) as Hpos. cbn in Hpos. lia.
  - by apply map_Forall_delete.
Qed.

#[export] Instance controller_reservation_ledger : ReservationLedger Controller.
Proof.
  refine {| rl_inv := controller_inv; rl_active c := dom (reservations c);
            rl_release := release; rl_release_inv := release_inv |}.
  - intros k c. unfold release. destruct (reservations c !! k) as [r|] eqn:Hk; cbn.
    + rewrite bool_decide_eq_true_2 by by eapply elem_of_dom_2. by rewrite dom_delete_L.
    + apply not_elem_of_dom in Hk. rewrite bool_decide_eq_false_2 by done. set_solver.
  - intros k c Hk%not_elem_of_dom. unfold release. by rewrite Hk.
Defined.

(** A reservation under a new identifier is undone by releasing it. *)
Lemma release_reserve uuid now r b c res c' :
  reservations c !! uuid = None → reserve uuid now r b c = (Ok res, c') →
  release uuid c' = (Ok true, c) ∧ reservation_id res = uuid.
Proof.
  intros Hf H. unfold reserve in H. destruct (_ >? _); simplify_eq. split; [|done].
  unfold release. cbn. rewrite lookup_insert_eq, delete_insert_id by done.
  cbn. destruct c; cbn. do 2 f_equal. lia.
Qed.

(** ** Adaptive scheduling policy *)

Record AdaptiveSchedulingPolicy := mkPolicy {
  pressure : MemoryPressure;
  thermal : ThermalState;
  power : PowerMode;
  level : Z;
  maximum_active_requests : Z;
  maximum_batch_size : Z;
}.

#[export] Instance policy_eq_dec : EqDecision AdaptiveSchedulingPolicy.
Proof. solve_decision. Defined.

Definition PREFERENCES : list string := ["automatic"; "low_power"; "high_performance"].

Definition pressure_level (p : MemoryPressure) : Z :=
  match p with MP_CRITICAL => 2 | MP_WARNING => 1 | _ => 0 end.
Definition thermal_level (t : ThermalState) : Z :=
  match t with TS_CRITICAL => 2 | TS_SERIOUS => 1 | _ => 0 end.
Definition power_level (preference : string) (p : PowerMode) : Z :=
  if str_eqb preference "low_power"
     || (str_eqb preference "automatic" && bool_decide (p = PM_LOW_POWER))
  then 1 else 0.

(** [AdaptiveSchedulingPolicy.from_inputs] *)
Definition from_inputs (p : MemoryPressure) (t : ThermalState) (w : PowerMode)
    (preference : string) : res exn AdaptiveSchedulingPolicy :=
  if negb (bool_decide (preference ∈ PREFERENCES))
  then Raise (ValueError "invalid scheduling preference")
  else
    let lvl := Z.max (Z.max (pressure_level p) (thermal_level t)) (power_level preference w) in
    let pick (l : list Z) := nth (Z.to_nat lvl) l 0 in
    Ok (mkPolicy p t w lvl (pick [1024; 2; 1]) (pick [2147483647; 4; 1])).

(** A policy [from_inputs] produced: its limits are those of its level. *)
Definition policy_ok (p : AdaptiveSchedulingPolicy) : Prop :=
  (level p = 0 ∧ maximum_active_requests p = 1024 ∧ maximum_batch_size p = 2147483647) ∨
  (level p = 1 ∧ maximum_active_requests p = 2 ∧ maximum_batch_size p = 4) ∨
  (level p = 2 ∧ maximum_active_requests p = 1 ∧ maximum_batch_size p = 1).

Lemma from_inputs_ok p t w pref pol : from_inputs p t w pref = Ok pol → policy_ok pol.
Proof.
  unfold from_inputs. destruct (negb _); [done|]. intros H. simplify_eq. unfold policy_ok, power_level.
  destruct p, t; cbn; destruct (_ || _); cbn; tauto.
Qed.

Lemma from_inputs_total p t w pref :
  pref ∈ PREFERENCES → ∃ pol, from_inputs p t w pref = Ok pol.
Proof. intros H. unfold from_inputs. rewrite bool_decide_eq_true_2 by done. eauto. Qed.

(** ** Properties *)

(** The more severe the inputs, the stricter the policy: when pressure and
    thermal state are at least as severe and the power mode saves power whenever
    the other one does, the level does not fall and neither limit grows. *)
Theorem policy_monotone p1 t1 w1 p2 t2 w2 pref pol1 pol2 :
  from_inputs p1 t1 w1 pref = Ok pol1 → from_inputs p2 t2 w2 pref = Ok pol2 →
  pressure_level p1 <= pressure_level p2 → thermal_level t1 <= thermal_level t2 →
  (w1 = PM_LOW_POWER → w2 = PM_LOW_POWER) →
  level pol1 <= level pol2 ∧
  maximum_active_requests pol2 <= maximum_active_requests pol1 ∧
  maximum_batch_size pol2 <= maximum_batch_size pol1.
Proof.
  intros H1 H2 Hp Ht Hw. pose proof (from_inputs_ok _ _ _ _ _ H1) as K1.
  pose proof (from_inputs_ok _ _ _ _ _ H2) as K2.
  assert (level pol1 <= level pol2) as Hl.
  { assert (power_level pref w1 <= power_level pref w2) as Hwl.
    { unfold power_level. destruct (str_eqb pref "low_power"); [done|].
      destruct (str_eqb pref "automatic"); [|done]. cbn.
      destruct (decide (w1 = PM_LOW_POWER)) as [E|E].
      - by rewrite (Hw E), E.
      - rewrite (bool_decide_eq_false_2 (w1 = _)) by done. case_bool_decide; lia. }
    unfold from_inputs in H1, H2. destruct (negb _); [done|]. simplify_eq. cbn. lia. }
  unfold policy_ok in *. lia.
Qed.

Lemma policy_monotone_witness :
  ∃ pol1 pol2, from_inputs MP_NORMAL TS_FAIR PM_AUTOMATIC "automatic" = Ok pol1 ∧
    from_inputs MP_CRITICAL TS_FAIR PM_LOW_POWER "automatic" = Ok pol2 ∧
    maximum_batch_size pol2 <= maximum_batch_size pol1.
Proof.
  do 2 eexists. split; [reflexivity|]. split; [reflexivity|].
  refine (proj2 (proj2 (policy_monotone MP_NORMAL TS_FAIR PM_AUTOMATIC MP_CRITICAL TS_FAIR
    PM_LOW_POWER "automatic" _ _ eq_refl eq_refl _ _ _))); done.
Defined.

End Admission.
