(* ===== verification/DevicePipeline.v ===== *)
(** * Parallel device pipelines (device_pipeline.py, [DevicePipelineExecutor])

    The stages of a group run on a thread pool between one atomic group
    reservation and the release of every member.  What a stage's operation
    returned or raised is data of the call, and what the other threads of the
    process did to the ledger while the pool ran is a function on its state. *)

From S2P Require Import Prelude Types DeviceResources Admission.
Import DeviceResources.

Module DevicePipeline.

Record DevicePipelineStage (R : Type) := mkStage {
  name : string;
  stage_backend : ExecutionBackend;
  stage_memory_bytes : Z;
  outcome : res exn R;
}.
Arguments mkStage {R}. Arguments name {R}. Arguments stage_backend {R}.
Arguments stage_memory_bytes {R}. Arguments outcome {R}.

(** [DevicePipelineStage.__post_init__] *)
Definition stage_valid {R} (s : DevicePipelineStage R) : bool :=
  negb (str_eqb (name s) "" || (str_len (name s) >? 128) || (stage_memory_bytes s <? 0)).

Record DevicePipelineResult (R : Type) := mkPipelineResult {
  outputs : list R;
  backends : list ExecutionBackend;
  elapsed_nanoseconds : Z;
}.
Arguments mkPipelineResult {R}. Arguments outputs {R}. Arguments backends {R}.
Arguments elapsed_nanoseconds {R}.

(** [tuple(f(x) for x in l)], stopping at the first exception. *)
Fixpoint all_ok {E A} (l : list (res E A)) : res E (list A) :=
  match l with
  | [] => Ok []
  | Raise e :: _ => Raise e
  | Ok a :: l' => match all_ok l' with Ok as_ => Ok (a :: as_) | Raise e => Raise e end
  end.

(** [for reservation in reservations: ledger.release(reservation.reservation_id)] *)
Fixpoint release_all (rids : list string) (l : Ledger) : Ledger :=
  match rids with
  | [] => l
  | rid :: rids' => release_all rids' (release rid l).2
  end.

(** [DevicePipelineExecutor.execute]: [others] is the effect of the other threads
    on the ledger while the pool runs, [started] and [ended] the clock readings. *)
Definition execute {R} (uuids : list string) (started ended : Z) (others : Ledger → Ledger)
    (stages : list (DevicePipelineStage R)) : Py Ledger (DevicePipelineResult R) := λ l,
  if negb ((2 <=? Zlen stages) && (Zlen stages <=? 3))
     || negb (bool_decide (size (list_to_set (name <$> stages) : gset string)
                           = length stages))
     || negb (bool_decide (size (list_to_set (stage_backend <$> stages) : gset ExecutionBackend)
                           = length stages))
  then (Raise (ValueError "pipeline requires two or three unique stages and backends"), l)
  else
    match all_ok ((λ s, for_backend (stage_backend s) (stage_memory_bytes s)) <$> stages) with
    | Raise e => (Raise e, l)
    | Ok requests =>
        match reserve_many uuids requests l with
        | (Raise e, l1) => (Raise e, l1)
        | (Ok rs, l1) =>
            let l2 := others l1 in
            let r := match all_ok (outcome <$> stages) with
                     | Ok outs => Ok (mkPipelineResult outs (stage_backend <$> stages)
                                                       (Z.max 1 (ended - started)))
                     | Raise e => Raise e
                     end in
            (r, release_all (reservation_id <$> rs) l2)
        end
    end.

(** ** Lemmas *)

Lemma release_all_inv rids : ∀ l, ledger_inv l → ledger_inv (release_all rids l).
Proof.
  induction rids as [|k rids IH]; intros l Hl; cbn; [done|]. apply IH.
  exact (rl_release_inv (L := Ledger) k l Hl).
Qed.

Lemma release_all_active rids : ∀ l,
  dom (reservations (release_all rids l)) = dom (reservations l) ∖ list_to_set rids.
Proof.
  induction rids as [|k rids IH]; intros l; cbn; [set_solver|]. rewrite IH.
  destruct (rl_release_ok (L := Ledger) k l) as [_ Ha]. cbn in Ha. rewrite Ha. set_solver.
Qed.

Lemma all_ok_length {E A} (l : list (res E A)) as_ : all_ok l = Ok as_ → length as_ = length l.
Proof.
  revert as_. induction l as [|[a|e] l IH]; intros as_ H; cbn in H; simplify_eq; [done|].
  destruct (all_ok l) as [as'|]; simplify_eq. cbn. by rewrite (IH as').
Qed.

Lemma delete_insert_reservations u r us : ∀ requests m,
  u ∉ us → m !! u = None →
  delete u (insert_reservations us requests (<[u:=r]> m)) = insert_reservations us requests m.
Proof.
  unfold insert_reservations.
  induction us as [|v us IH]; intros [|x requests] m Hu Hm; cbn; try by apply delete_insert_id.
  apply not_elem_of_cons in Hu as [Hne Hu].
  rewrite insert_insert_ne by done. apply IH; [done|]. by rewrite lookup_insert_ne.
Qed.

(** Releasing a freshly reserved group restores the ledger. *)
Lemma release_all_group uuids : ∀ requests l,
  NoDup uuids → length uuids = length requests →
  Forall (λ u, reservations l !! u = None) uuids →
  release_all uuids (set_used_reservations (vec_add (used l) (total_demand requests))
                       (insert_reservations uuids requests (reservations l)) l) = l.
Proof.
  induction uuids as [|u us IH]; intros [|r requests] l Hnd Hlen Hf; try done.
  - cbn. rewrite vec_add_zero_r. by destruct l.
  - apply NoDup_cons in Hnd as [Hu Hnd]. apply Forall_cons in Hf as [Hfu Hf].
    change (insert_reservations (u :: us) (r :: requests) (reservations l))
      with (insert_reservations us requests (<[u:=r]> (reservations l))).
    cbn [release_all]. unfold release. cbn [reservations set_used_reservations].
    rewrite insert_reservations_fresh, lookup_insert_eq by done.
    cbn [snd used set_used_reservations].
    unfold set_used_reservations at 1. cbn [contention_profile capacity qualified_pairs].
    rewrite delete_insert_reservations by done.
    replace (vec_sub (vec_add (used l) (total_demand (r :: requests))) (demand r))
      with (vec_add (used l) (total_demand requests)).
    + apply (IH requests l); [done|by injection Hlen|done].
    + change (total_demand (r :: requests))
        with (foldl (λ a r, vec_add a (demand r)) (vec_add vec_zero (demand r)) requests).
      rewrite total_demand_acc. vec_solve.
Qed.

Lemma for_backend_valid b n r : for_backend b n = Ok r → request_valid r = true.
Proof. unfold for_backend, make_request, check. intros H. by run_cases H. Qed.

Lemma all_ok_for_backend {R} (stages : list (DevicePipelineStage R)) : ∀ rs,
  all_ok ((λ s, for_backend (stage_backend s) (stage_memory_bytes s)) <$> stages) = Ok rs →
  Forall (λ r, request_valid r = true) rs ∧ length rs = length stages.
Proof.
  induction stages as [|s stages IH]; intros rs H; cbn in H; simplify_eq; [done|].
  destruct (for_backend _ _) as [r|] eqn:Hr; [|done].
  destruct (all_ok _) as [rs'|] eqn:Hrs; simplify_eq.
  destruct (IH rs' eq_refl) as [Hv Hl]. split; [|cbn; lia].
  constructor; [by eapply for_backend_valid|done].
Qed.

(** A pipeline leaves no reservation behind.  However its stages end, and
    whatever the other threads do to the ledger while they run, none of the
    identifiers drawn for the group is active afterwards and the ledger's
    invariant is kept; when nobody else used the ledger it is exactly as before
    the call. *)
Theorem pipeline_releases {R} uuids started ended others
    (stages : list (DevicePipelineStage R)) l :
  ledger_inv l → NoDup uuids → length uuids = length stages →
  Forall (λ u, reservations l !! u = None) uuids →
  (∀ l1, ledger_inv l1 → ledger_inv (others l1)) →
  let l' := (execute uuids started ended others stages l).2 in
  ledger_inv l' ∧
  (l' = l ∨ ∀ u, u ∈ uuids → reservations l' !! u = None) ∧
  ((∀ l1, others l1 = l1) → l' = l).
Proof.
  intros Hinv Hnd Hlen Hf Hothers. unfold execute.
  destruct (_ || _) eqn:E; [by auto|].
  destruct (all_ok _) as [rs|e] eqn:Hrs; [|by auto].
  apply all_ok_for_backend in Hrs as [Hv Hl].
  assert (op_ok (OpReserveMany uuids rs) l) as Hok by (cbn; rewrite Hl; auto).
  pose proof (op_preserves_inv _ _ Hok Hinv) as Hinv1.
  unfold run_op, bind, ret in Hinv1.
  destruct (reserve_many uuids rs l) as [[got|e] l1] eqn:Hmany; cbn in *.
  - assert (reservation_id <$> got = uuids ∧
      l1 = set_used_reservations (vec_add (used l) (total_demand rs))
             (insert_reservations uuids rs (reservations l)) l) as [Hgot ->].
    { unfold reserve_many in Hmany. run_cases Hmany. split; [|done].
      apply list_eq_same_length with (n := length uuids); [done| |].
      - rewrite length_fmap, length_zip_with. lia.
      - intros i x y Hi Hx Hy. rewrite list_lookup_fmap, lookup_zip_with in Hx.
        rewrite Hy in Hx. cbn in Hx. by destruct (rs !! i); simplify_eq/=. }
    rewrite Hgot. split_and!.
    + apply release_all_inv, Hothers. exact Hinv1.
    + right. intros u Hu. apply not_elem_of_dom. rewrite release_all_active. set_solver.
    + intros Hid. rewrite Hid. apply release_all_group; [done|lia|done].
  - assert (l1 = l) as -> by (unfold reserve_many in Hmany; run_cases Hmany; done). auto.
Qed.

Definition demo_stage (n : string) (b : ExecutionBackend) (o : res exn Z) : DevicePipelineStage Z :=
  mkStage n b 10 o.
Definition demo_ledger : Ledger :=
  (install_contention_evidence demo_evidence DeviceResources.demo_ledger).2.

Lemma pipeline_releases_witness :
  (execute ["x"; "y"] 0 5 (λ l, l)
     [demo_stage "enc" CPU (Ok 1);
      demo_stage "llm" NATIVE_MLX (Raise (RuntimeError "boom"))] demo_ledger).2 = demo_ledger.
Proof.
  apply (pipeline_releases ["x"; "y"] 0 5 (λ l, l)).
  - split; [reflexivity| |apply map_Forall_empty]. split_and!; by vm_compute.
  - repeat constructor; set_solver.
  - reflexivity.
  - repeat constructor.
  - auto.
  - auto.
Defined.

End DevicePipeline.
