(* ===== verification/Scheduler.v ===== *)
(** * The scheduler (scheduler.py, [BasicScheduler])

    The object that owns the memory controller, the device ledger, the request
    queue and the active plans.  Each method that holds the policy lock is one
    transition of the record [Scheduler]; where a method gives the lock up, or
    leaves the queue's lock free for other threads, the model takes what they do
    meanwhile as a function argument ([others]).  Values of uuid4 and of the
    clocks are arguments. *)

From S2P Require Import Prelude Types DeviceResources OperatorDispatch Observability ScheduleQueue Admission DevicePipeline PyFloat.

Module Scheduler.
Import ScheduleQueue Admission.

Record Scheduler := mkScheduler {
  hardware : HardwareInfo;
  memory : Admission.Controller;
  device : DeviceResources.Ledger;
  active_plan : option AppleExecutionPlan;
  pending_plan : option AppleExecutionPlan;
  active_placement : option DevicePlacementPlan;
  pending_placement : option DevicePlacementPlan;
  dispatcher : option KernelRegistry.KernelCapabilityRegistry;
  maintenance_owner : option string;
  queue : ScheduleQueue.Queue;
  queued_active : gmap string Reservation;
  obs : Observability.SchedulingObservability;
  preference : string;
  policy : AdaptiveSchedulingPolicy;
  pending_policy : option AdaptiveSchedulingPolicy;
}.

(** *** Assignments to the attributes *)
Definition with_memory m s :=
  mkScheduler (hardware s) m (device s) (active_plan s) (pending_plan s) (active_placement s)
    (pending_placement s) (dispatcher s) (maintenance_owner s) (queue s) (queued_active s)
    (obs s) (preference s) (policy s) (pending_policy s).
Definition with_device d s :=
  mkScheduler (hardware s) (memory s) d (active_plan s) (pending_plan s) (active_placement s)
    (pending_placement s) (dispatcher s) (maintenance_owner s) (queue s) (queued_active s)
    (obs s) (preference s) (policy s) (pending_policy s).
Definition with_plans a p s :=
  mkScheduler (hardware s) (memory s) (device s) a p (active_placement s)
    (pending_placement s) (dispatcher s) (maintenance_owner s) (queue s) (queued_active s)
    (obs s) (preference s) (policy s) (pending_policy s).
Definition with_placements a p s :=
  mkScheduler (hardware s) (memory s) (device s) (active_plan s) (pending_plan s) a p
    (dispatcher s) (maintenance_owner s) (queue s) (queued_active s)
    (obs s) (preference s) (policy s) (pending_policy s).
Definition with_dispatcher d s :=
  mkScheduler (hardware s) (memory s) (device s) (active_plan s) (pending_plan s)
    (active_placement s) (pending_placement s) d (maintenance_owner s) (queue s)
    (queued_active s) (obs s) (preference s) (policy s) (pending_policy s).
Definition with_owner o s :=
  mkScheduler (hardware s) (memory s) (device s) (active_plan s) (pending_plan s)
    (active_placement s) (pending_placement s) (dispatcher s) o (queue s)
    (queued_active s) (obs s) (preference s) (policy s) (pending_policy s).
Definition with_queue q s :=
  mkScheduler (hardware s) (memory s) (device s) (active_plan s) (pending_plan s)
    (active_placement s) (pending_placement s) (dispatcher s) (maintenance_owner s) q
    (queued_active s) (obs s) (preference s) (policy s) (pending_policy s).
Definition with_queued a s :=
  mkScheduler (hardware s) (memory s) (device s) (active_plan s) (pending_plan s)
    (active_placement s) (pending_placement s) (dispatcher s) (maintenance_owner s) (queue s)
    a (obs s) (preference s) (policy s) (pending_policy s).
Definition with_obs o s :=
  mkScheduler (hardware s) (memory s) (device s) (active_plan s) (pending_plan s)
    (active_placement s) (pending_placement s) (dispatcher s) (maintenance_owner s) (queue s)
    (queued_active s) o (preference s) (policy s) (pending_policy s).
Definition with_preference p s :=
  mkScheduler (hardware s) (memory s) (device s) (active_plan s) (pending_plan s)
    (active_placement s) (pending_placement s) (dispatcher s) (maintenance_owner s) (queue s)
    (queued_active s) (obs s) p (policy s) (pending_policy s).
Definition with_policies a p s :=
  mkScheduler (hardware s) (memory s) (device s) (active_plan s) (pending_plan s)
    (active_placement s) (pending_placement s) (dispatcher s) (maintenance_owner s) (queue s)
    (queued_active s) (obs s) (preference s) a p.

(** Methods of the owned objects, as methods of the scheduler. *)
Definition observe {A} : Py Observability.SchedulingObservability A → Py Scheduler A :=
  zoom obs with_obs.
Definition on_queue {A} : Py Queue A → Py Scheduler A := zoom queue with_queue.
Definition on_memory {A} : Py Controller A → Py Scheduler A := zoom memory with_memory.
Definition on_device {A} : Py DeviceResources.Ledger A → Py Scheduler A :=
  zoom device with_device.

(** *** Construction *)

Definition scheduler_capacity (h : HardwareInfo) (memory_capacity_bytes : Z) : DeviceResources.Vec :=
  DeviceResources.mkVec memory_capacity_bytes (Z.max 1 (logical_cpu_count h))
    (if is_apple_silicon h then 4 else 0) (if is_apple_silicon h then 2 else 0)
    (if is_apple_silicon h then 4 else 1).

(** [__init__] *)
Definition new_scheduler (sha256_hex : string → string) (h : HardwareInfo)
    (memory_capacity_bytes : Z) (d : option KernelRegistry.KernelCapabilityRegistry)
    (maximum_queued_requests : Z) : res exn Scheduler :=
  match new_controller memory_capacity_bytes with
  | Raise e => Raise e
  | Ok m =>
      match DeviceResources.contention_profile_id sha256_hex (soc h) (os_version h)
              (architecture h) with
      | Raise e => Raise e
      | Ok profile =>
          match DeviceResources.new_ledger (scheduler_capacity h memory_capacity_bytes)
                  profile with
          | Raise e => Raise e
          | Ok l =>
              match new_queue maximum_queued_requests with
              | Raise e => Raise e
              | Ok q =>
                  match from_inputs (mem_pressure (hw_memory h)) (thermal_state h)
                          (power_mode h) "automatic" with
                  | Raise e => Raise e
                  | Ok pol =>
                      Ok (mkScheduler h m l None None None None d None q ∅
                            Observability.new_observability "automatic" pol None)
                  end
              end
          end
      end
  end.

(** *** Adaptive policy *)

Definition active_reservations (s : Scheduler) : Z := Zsize (reservations (memory s)).

(** [_has_active_work] *)
Definition has_active_work (s : Scheduler) : bool :=
  negb (snap_active_reservations (snapshot (memory s)) =? 0)
  || negb (DeviceResources.snap_active_reservations
             (DeviceResources.snapshot (device s)) =? 0).

(** [update_adaptive_inputs] *)
Definition update_adaptive_inputs (p : option MemoryPressure) (t : option ThermalState)
    (w : option PowerMode) : Py Scheduler string := λ s,
  let current := policy s in
  let latest := default current (pending_policy s) in
  let p' := match p with Some MP_UNKNOWN => Some (pressure latest) | _ => p end in
  let t' := match t with Some TS_UNKNOWN => Some (thermal latest) | _ => t end in
  let w' := match w with Some PM_UNKNOWN => Some (power latest) | _ => w end in
  match from_inputs (default (pressure latest) p') (default (thermal latest) t')
          (default (power latest) w') (preference s) with
  | Raise e => (Raise e, s)
  | Ok proposed =>
      if decide (proposed = current) then
        (observe (Observability.adaptive_transition "ignored") ;;; ret "ignored"%string)
          (with_policies current None s)
      else if (level proposed <? level current) && has_active_work s then
        (observe (Observability.adaptive_transition "deferred") ;;; ret "deferred"%string)
          (with_policies current (Some proposed) s)
      else
        (observe (Observability.adaptive_transition "applied") ;;; ret "applied"%string)
          (with_policies proposed None s)
  end.

(** [set_scheduling_preference] *)
Definition set_scheduling_preference (pref : string) : Py Scheduler string := λ s,
  if negb (bool_decide (pref ∈ PREFERENCES))
  then (Raise (ValueError "invalid scheduling preference"), s)
  else update_adaptive_inputs None None None (with_preference pref s).

(** [apply_pending_adaptive_policy] *)
Definition apply_pending_adaptive_policy : Py Scheduler (option string) := λ s,
  match pending_policy s with
  | None => (Ok None, s)
  | Some pending =>
      if has_active_work s then (Ok (Some "deferred"%string), s)
      else (observe (Observability.adaptive_transition "applied") ;;;
            ret (Some "applied"%string)) (with_policies pending None s)
  end.

(** [execute_device_pipeline] *)
Definition execute_device_pipeline {R} (uuids : list string) (started ended : Z)
    (others : DeviceResources.Ledger → DeviceResources.Ledger)
    (stages : list (DevicePipeline.DevicePipelineStage R))
    : Py Scheduler (DevicePipeline.DevicePipelineResult R) := λ s,
  if level (policy s) >? 0
  then (Raise (AdaptiveScheduleCapacityError
          "parallel device pipeline disabled under adaptive pressure"), s)
  else
    finally
      (catch (on_device (DevicePipeline.execute uuids started ended others stages))
         (λ e, match e with
               | DeviceResourceCapacityError msg =>
                   if str_contains "contention_unqualified" msg
                   then observe Observability.contention_rejection ;;; raise e
                   else raise e
               | _ => raise e
               end))
      (apply_pending_adaptive_policy ;;; ret ()) s.

(** *** Dispatch *)

Definition CPU_OPERATORS : list string :=
  ["sampling"; "tokenization"; "routing"; "state_read"; "state_write"].
Definition METAL_OPERATORS : list string := ["paged_attention"; "mla"].
Definition GPU_OPERATORS : list string :=
  ["matmul"; "gemm"; "gemv"; "attention"; "convolution"; "image_resize"; "video_decode"].

(** [_dispatch_candidates] *)
Definition dispatch_candidates (op : string) (batch : Z) : list ExecutionBackend :=
  if decide (op ∈ CPU_OPERATORS) then [CPU]
  else if bool_decide (op ∈ ["gemv"; "matmul"]%string) && (batch =? 1) then [CPU; NATIVE_MLX]
  else if decide (op ∈ METAL_OPERATORS) then [NATIVE_METAL; NATIVE_MLX; CPU]
  else if decide (op ∈ GPU_OPERATORS) then [NATIVE_MLX; CPU]
  else [CPU].

(** [_matching_device_placement] *)
Definition matching_device_placement (r : ScheduleRequest) (s : Scheduler)
    : option DevicePlacement :=
  match active_placement s, phase r, precision r with
  | Some plan, Some ph, Some prec =>
      List.find (λ p, str_eqb (pl_operator p) (str_lower (operator r))
                      && bool_decide (pl_phase p = ph) && str_eqb (pl_precision p) prec
                      && bool_decide (pl_dimensions p = dimensions r)
                      && (pl_batch_size p =? batch_size r))
                (placements plan)
  | _, _, _ => None
  end.

(** The candidates of a request, after the placement and the adaptive level. *)
Definition request_candidates (r : ScheduleRequest) (s : Scheduler) : list ExecutionBackend :=
  let candidates := dispatch_candidates (str_lower (operator r)) (batch_size r) in
  let candidates :=
    match matching_device_placement r s with
    | Some p => pl_backend p :: List.filter (λ b, negb (bool_decide (b = pl_backend p))) candidates
    | None => candidates
    end in
  if level (policy s) =? 2 then [CPU] else candidates.

(** [dispatch_decision]; [candidates[0]] of an empty tuple is an IndexError. *)
Definition dispatch_decision (r : ScheduleRequest) (s : Scheduler)
    : res exn OperatorDispatch.OperatorDispatchDecision :=
  let op := str_lower (operator r) in
  let candidates := request_candidates r s in
  match dispatcher s with
  | Some g =>
      match OperatorDispatch.make_dispatch_request op candidates with
      | Ok req => OperatorDispatch.dispatch g req
      | Raise e => Raise e
      end
  | None =>
      match (if is_apple_silicon (hardware s) then candidates else [CPU]) with
      | [] => Raise (IndexError "tuple index out of range")
      | b :: rest =>
          Ok {| OperatorDispatch.dec_operator := op; OperatorDispatch.selected := b;
                OperatorDispatch.fallback_chain := rest;
                OperatorDispatch.dec_quarantined := []; OperatorDispatch.unprobed := [];
                OperatorDispatch.dec_reason := "legacy_policy" |}
      end
  end.

Definition backend_of (b : ExecutionBackend) : Backend :=
  match b with
  | CPU => B_CPU | VLLM_METAL => B_METAL | NATIVE_MLX => B_MLX_GPU
  | NATIVE_METAL => B_METAL | COREML_DRAFT => B_COREML
  end.

(** [choose_backend] *)
Definition choose_backend (r : ScheduleRequest) (s : Scheduler) : res exn Backend :=
  match dispatch_decision r s with
  | Ok d => Ok (backend_of (OperatorDispatch.selected d))
  | Raise e => Raise e
  end.

(** *** Admission *)

(** [_validate_plan_admission] *)
Definition validate_plan_admission (r : ScheduleRequest) (s : Scheduler) : res exn () :=
  match active_plan s with
  | None => Ok ()
  | Some plan =>
      let ph := match phase r with
                | Some ph => ph
                | None => default AUXILIARY (WorkloadPhase_of_value (str_lower (operator r)))
                end in
      let limit := match ph with
                   | PREFILL => Some (ph_batch_size (prefill plan))
                   | DECODE => Some (ph_batch_size (decode plan))
                   | _ => None
                   end in
      match limit with
      | Some n =>
          if batch_size r >? n
          then Raise (ExecutionPlanAdmissionError
                 (WorkloadPhase_value ph +:+ " batch " +:+ str_of_Z (batch_size r)
                  +:+ " exceeds active plan limit " +:+ str_of_Z n))
          else Ok ()
      | None => Ok ()
      end
  end.

(** The reservation returned to the caller carries the active plans and the
    device reservation. *)
Definition annotate (r : Reservation) (device_id : string) (s : Scheduler) : Reservation :=
  mkReservation (reservation_id r) (bytes r) (backend r) (res_priority r)
    (created_at_monotonic r) (plan_id <$> active_plan s) None
    (dp_plan_id <$> active_placement s) (Some device_id).

Definition is_contention_error (e : exn) : bool :=
  match e with
  | DeviceResourceCapacityError msg =>
      str_contains "contention_unqualified" msg
      || str_contains "work_steal_unqualified_or_busy" msg
  | _ => false
  end.

(** The device side of an admission: [for_backend], then [reserve]. *)
Definition reserve_device (dev_uuid : string) (b : ExecutionBackend) (n : Z)
    (steal_from : option ExecutionBackend)
    : Py DeviceResources.Ledger DeviceResources.DeviceResourceReservation := λ l,
  match DeviceResources.for_backend b n with
  | Ok r => DeviceResources.reserve dev_uuid r steal_from l
  | Raise e => (Raise e, l)
  end.

(** [_admit_selected] *)
Definition admit_selected (mem_uuid dev_uuid : string) (now : Z) (r : ScheduleRequest)
    (b : ExecutionBackend) (steal_from : option ExecutionBackend)
    : Py Scheduler Reservation := λ s,
  match maintenance_owner s with
  | Some owner =>
      (Raise (MaintenanceInProgressError ("scheduler maintenance is active: " +:+ owner)), s)
  | None =>
      match validate_plan_admission r s with
      | Raise e => (Raise e, s)
      | Ok _ =>
          if batch_size r >? maximum_batch_size (policy s)
          then (Raise (ExecutionPlanAdmissionError
                  "request batch exceeds adaptive scheduling limit"), s)
          else if snap_active_reservations (snapshot (memory s))
                  >=? maximum_active_requests (policy s)
          then (Raise (AdaptiveScheduleCapacityError
                  "adaptive scheduling concurrency limit reached"), s)
          else
            match on_memory (reserve mem_uuid now r (backend_of b)) s with
            | (Raise e, s1) => (Raise e, s1)
            | (Ok res, s1) =>
                match on_device (reserve_device dev_uuid b (estimated_memory_bytes r)
                                   steal_from) s1 with
                | (Raise e, s2) =>
                    (on_memory (release (reservation_id res)) ;;;
                     if is_contention_error e
                     then observe Observability.contention_rejection ;;; raise e
                     else raise e) s2
                | (Ok dev, s2) =>
                    (observe (Observability.assignment b) ;;;
                     ret (annotate res (DeviceResources.reservation_id dev) s2)) s2
                end
            end
      end
  end.

(** [admit_] *)
Definition admit_ (mem_uuid dev_uuid : string) (now : Z) (r : ScheduleRequest)
    : Py Scheduler Reservation := λ s,
  match dispatch_decision r s with
  | Raise e => (Raise e, s)
  | Ok d => admit_selected mem_uuid dev_uuid now r (OperatorDispatch.selected d) None s
  end.

(** Return both halves of a reservation to their ledgers. *)
Definition release_both (res : Reservation) : Py Scheduler () :=
  on_memory (release (reservation_id res)) ;;;
  match device_resource_reservation_id res with
  | Some id => on_device (DeviceResources.release id) ;;; ret ()
  | None => ret ()
  end.

(** [complete] *)
Definition complete (res : Reservation) : Py Scheduler () :=
  release_both res ;;; apply_pending_adaptive_policy ;;; ret ().

(** *** The queue *)

Record QueuedAdmission := mkAdmission {
  adm_token : string;
  adm_request : ScheduleRequest;
  adm_reservation : Reservation;
}.

(** [submit] *)
Definition submit (uuid : string) (now_ns : Z) (r : ScheduleRequest) : Py Scheduler string :=
  on_queue (enqueue uuid now_ns r).

(** The second critical section of [admit_next]: [others] is what other threads
    do to the queue before the claim is finished. *)
Definition register (token : string) (r : ScheduleRequest) (res : Reservation) (now_ns : Z)
    (others : Queue → Queue) : Py Scheduler (option QueuedAdmission) := λ s,
  let s1 := with_queued (<[token := res]> (queued_active s)) s in
  let wait := claimed_wait_nanoseconds now_ns token (queue s1) in
  let s2 := with_queue (others (queue s1)) s1 in
  match on_queue (finish_claim token) s2 with
  | (Ok true, s3) =>
      (observe (Observability.queue_wait wait) ;;; ret (Some (mkAdmission token r res))) s3
  | (Ok false, s3) =>
      (release_both res ;;; ret None) (with_queued (delete token (queued_active s3)) s3)
  | (Raise e, s3) => (Raise e, s3)
  end.

(** [admit_next]: [others1] acts between the claim and the admission, [others2]
    between the admission and the next critical section, [others3] on the queue
    inside that section.  [Ok None] is a call still waiting for a request. *)
Definition admit_next (timeout : option PyFloat.float) (start : PyFloat.float)
    (waits : list (PyFloat.float * (Queue → Queue)))
    (mem_uuid dev_uuid : string) (now now_ns : Z)
    (others1 others2 : Scheduler → Scheduler) (others3 : Queue → Queue)
    : Py Scheduler (option (option QueuedAdmission)) := λ s,
  match on_queue (dequeue timeout start waits) s with
  | (Raise e, s1) => (Raise e, s1)
  | (Ok None, s1) => (Ok None, s1)
  | (Ok (Some None), s1) => (Ok (Some None), s1)
  | (Ok (Some (Some (token, r))), s1) =>
      match admit_ mem_uuid dev_uuid now r (others1 s1) with
      | (Raise e, s2) =>
          (on_queue (finish_claim token) ;;; raise (QueuedAdmissionError token e)) (others2 s2)
      | (Ok res, s2) =>
          (let! a := register token r res now_ns others3 in ret (Some a)) (others2 s2)
      end
  end.

(** [steal_next]: [others1] acts on the queue between [peek] and [claim_head],
    [others2] before the claim is finished. *)
Definition steal_next (target : ExecutionBackend) (mem_uuid dev_uuid : string)
    (now now_ns : Z) (others1 others2 : Queue → Queue)
    : Py Scheduler (option QueuedAdmission) := λ s,
  if is_some (maintenance_owner s) || is_none (dispatcher s) || (level (policy s) >? 0)
  then (Ok None, s)
  else
    match on_queue peek s with
    | (Raise e, s1) => (Raise e, s1)
    | (Ok None, s1) => (Ok None, s1)
    | (Ok (Some (token, r)), s1) =>
        match dispatch_decision r s1 with
        | Raise e => (Raise e, s1)
        | Ok d =>
            if bool_decide (target = OperatorDispatch.selected d)
               || negb (bool_decide (target ∈ OperatorDispatch.fallback_chain d))
               || negb (DeviceResources.can_steal (OperatorDispatch.selected d) target
                          (device s1))
            then (Ok None, s1)
            else
              match on_queue (claim_head token) (with_queue (others1 (queue s1)) s1) with
              | (Raise e, s2) => (Raise e, s2)
              | (Ok None, s2) => (Ok None, s2)
              | (Ok (Some _), s2) =>
                  match admit_selected mem_uuid dev_uuid now r target
                          (Some (OperatorDispatch.selected d)) s2 with
                  | (Raise (MemoryCapacityError _), s3)
                  | (Raise (DeviceResourceCapacityError _), s3) =>
                      (on_queue (restore_claim token) ;;; ret None) s3
                  | (Raise e, s3) =>
                      (on_queue (finish_claim token) ;;;
                       raise (QueuedAdmissionError token e)) s3
                  | (Ok res, s3) =>
                      let s4 := with_queued (<[token := res]> (queued_active s3)) s3 in
                      let wait := claimed_wait_nanoseconds now_ns token (queue s4) in
                      match on_queue (finish_claim token)
                              (with_queue (others2 (queue s4)) s4) with
                      | (Ok true, s5) =>
                          (observe (Observability.queue_wait wait) ;;;
                           observe Observability.steal ;;;
                           ret (Some (mkAdmission token r res))) s5
                      | (Ok false, s5) =>
                          (complete res ;;; ret None)
                            (with_queued (delete token (queued_active s5)) s5)
                      | (Raise e, s5) => (Raise e, s5)
                      end
                  end
              end
        end
    end.

(** [complete_queued] *)
Definition complete_queued (token : string) : Py Scheduler bool := λ s,
  match queued_active s !! token with
  | None => (Ok false, s)
  | Some res =>
      (release_both res ;;; apply_pending_adaptive_policy ;;; ret true)
        (with_queued (delete token (queued_active s)) s)
  end.

(** [cancel] *)
Definition cancel (token : string) : Py Scheduler bool :=
  let! found := on_queue (ScheduleQueue.cancel token) in
  if found : bool then ret true else complete_queued token.

Definition queue_snapshot (s : Scheduler) : list (string * Z) :=
  ScheduleQueue.snapshot (queue s) ++ [("active"%string, Zsize (queued_active s))].

(** *** Plans, switched only at a safe point *)

Record PlanApplicationDecision := mkDecision {
  pad_plan_id : string;
  pad_status : string;
  pad_replaced_plan_id : option string;
}.

(** [PlanApplicationDecision.__post_init__] *)
Definition decision_valid (d : PlanApplicationDecision) : bool :=
  bool_decide (pad_status d ∈ ["applied"; "deferred"; "ignored"]%string).

(** [memory.snapshot()["active_reservations"]] as a truth value *)
Definition busy (s : Scheduler) : bool :=
  negb (snap_active_reservations (snapshot (memory s)) =? 0).

(** [_validate_execution_plan] *)
Definition validate_execution_plan (p : AppleExecutionPlan) : res exn () :=
  if dry_run p then Raise (ValueError "dry-run execution plans cannot be activated")
  else if estimated_peak_bytes p >? memory_ceiling_bytes p
  then Raise (ValueError "execution plan exceeds its memory ceiling")
  else Ok ().

(** [request_execution_plan] *)
Definition request_execution_plan (p : AppleExecutionPlan)
    : Py Scheduler PlanApplicationDecision := λ s,
  match validate_execution_plan p with
  | Raise e => (Raise e, s)
  | Ok _ =>
      let current := plan_id <$> active_plan s in
      if decide (current = Some (plan_id p)) then
        (Ok (mkDecision (plan_id p) "ignored" current), with_plans (active_plan s) None s)
      else if busy s then
        (Ok (mkDecision (plan_id p) "deferred" (plan_id <$> pending_plan s)),
         with_plans (active_plan s) (Some p) s)
      else (Ok (mkDecision (plan_id p) "applied" current), with_plans (Some p) None s)
  end.

(** [apply_pending_execution_plan] *)
Definition apply_pending_execution_plan : Py Scheduler (option PlanApplicationDecision) := λ s,
  match pending_plan s with
  | None => (Ok None, s)
  | Some p =>
      if busy s then (Ok (Some (mkDecision (plan_id p) "deferred" None)), s)
      else (Ok (Some (mkDecision (plan_id p) "applied" (plan_id <$> active_plan s))),
            with_plans (Some p) None s)
  end.

(** [request_device_placement_plan]: [now] is [int(time.time())]. *)
Definition request_device_placement_plan (now : Z) (p : DevicePlacementPlan)
    : Py Scheduler PlanApplicationDecision := λ s,
  if now >=? valid_until_unix_seconds p
  then (Raise (ValueError "expired device placement plans cannot be activated"), s)
  else
    match dispatcher s with
    | None => (Raise (RuntimeError "device placement requires a probe-gated dispatcher"), s)
    | Some g =>
        if negb (str_eqb (dp_hardware_fingerprint p) (KernelRegistry.reg_hardware g))
           || negb (str_eqb (dp_environment_fingerprint p) (KernelRegistry.reg_environment g))
        then (Raise (ValueError "device placement plan does not match dispatcher profile"), s)
        else
          let current := dp_plan_id <$> active_placement s in
          if decide (current = Some (dp_plan_id p)) then
            (Ok (mkDecision (dp_plan_id p) "ignored" current),
             with_placements (active_placement s) None s)
          else if busy s then
            (Ok (mkDecision (dp_plan_id p) "deferred" (dp_plan_id <$> pending_placement s)),
             with_placements (active_placement s) (Some p) s)
          else (Ok (mkDecision (dp_plan_id p) "applied" current),
                with_placements (Some p) None s)
    end.

(** [apply_pending_device_placement_plan] *)
Definition apply_pending_device_placement_plan
    : Py Scheduler (option PlanApplicationDecision) := λ s,
  match pending_placement s with
  | None => (Ok None, s)
  | Some p =>
      if busy s then (Ok (Some (mkDecision (dp_plan_id p) "deferred" None)), s)
      else (Ok (Some (mkDecision (dp_plan_id p) "applied" (dp_plan_id <$> active_placement s))),
            with_placements (Some p) None s)
  end.

(** [install_operator_dispatcher] *)
Definition install_operator_dispatcher (g : KernelRegistry.KernelCapabilityRegistry)
    : Py Scheduler () := λ s,
  if busy s
  then (Raise (RuntimeError "operator dispatcher requires a scheduler safe point"), s)
  else (Ok (), with_dispatcher (Some g) s).

(** [at_safe_point] *)
Definition at_safe_point {A} (operation : Py Scheduler A) : Py Scheduler (bool * option A) := λ s,
  if busy s then (Ok (false, None), s)
  else (let! a := operation in ret (true, Some a)) s.

(** *** Maintenance lease *)

(** [begin_idle_maintenance] *)
Definition begin_idle_maintenance (owner : string) : Py Scheduler bool := λ s,
  if str_eqb owner "" || (str_len owner >? 64)
  then (Raise (ValueError "maintenance owner must contain 1 to 64 characters"), s)
  else if is_some (maintenance_owner s) then (Ok false, s)
  else if busy s then (Ok false, s)
  else (Ok true, with_owner (Some owner) s).

(** [end_idle_maintenance] *)
Definition end_idle_maintenance (owner : string) : Py Scheduler () := λ s,
  if decide (maintenance_owner s = Some owner) then (Ok (), with_owner None s)
  else (Raise (RuntimeError "scheduler maintenance owner mismatch"), s).

(** *** Execution with fallback *)

(** The [prepare] closure of [execute_with_fallback]. *)
Definition prepare_backend (reservation : option Reservation) (b : ExecutionBackend)
    : Py Scheduler () :=
  match reservation with
  | None => ret ()
  | Some r =>
      match device_resource_reservation_id r with
      | None => raise (BackendExecutionError "resource_reservation_missing" false)
      | Some id =>
          catch
            (let! req := lift (DeviceResources.for_backend b (bytes r)) in
             on_device (DeviceResources.transfer id req) ;;; ret ())
            (λ e, match e with
                  | DeviceResourceCapacityError _ =>
                      raise (BackendExecutionError "fallback_resource_unavailable" true)
                  | _ => raise e
                  end)
      end
  end.

Definition failed_attempts (l : list BackendExecutionAttempt) : Z :=
  Zlen (List.filter (λ a, str_eqb (att_status a) "failed") l).

(** [execute_with_fallback] *)
Definition execute_with_fallback {R} (r : ScheduleRequest)
    (operation : ExecutionBackend → Py Scheduler R)
    (validate : option (R → ExecutionBackend → Py Scheduler bool))
    (reservation : option Reservation)
    : Py Scheduler (OperatorDispatch.OperatorExecutionResult R) :=
  let! result :=
    catch
      (let! d := λ s, (dispatch_decision r s, s) in
       OperatorDispatch.execute operation validate (Some (prepare_backend reservation)) d)
      (λ e, match e with
            | OperatorFallbackExhaustedError atts =>
                observe (Observability.fallback (Zlen atts) true) ;;; raise e
            | _ => raise e
            end) in
  observe (Observability.fallback (failed_attempts (OperatorDispatch.attempts result)) false) ;;;
  ret result.

(** *** Snapshots *)

Record AdaptiveSnapshot := {
  as_level : Z;
  as_maximum_active_requests : Z;
  as_maximum_batch_size : Z;
  as_pressure : string;
  as_thermal : string;
  as_power : string;
  as_preference : string;
  as_pending_level : option Z;
}.

(** [adaptive_scheduling_snapshot] *)
Definition adaptive_scheduling_snapshot (s : Scheduler) : AdaptiveSnapshot :=
  {| as_level := level (policy s);
     as_maximum_active_requests := maximum_active_requests (policy s);
     as_maximum_batch_size := maximum_batch_size (policy s);
     as_pressure := MemoryPressure_value (pressure (policy s));
     as_thermal := ThermalState_value (thermal (policy s));
     as_power := PowerMode_value (power (policy s));
     as_preference := preference s;
     as_pending_level := level <$> pending_policy s |}.

Record ExecutionPlanSnapshot := {
  es_enabled : bool;
  es_active_plan_id : option string;
  es_pending_plan_id : option string;
  es_context_tokens : Z;
  es_prefill_batch_size : Z;
  es_decode_batch_size : Z;
  es_state_precision : option string;
}.

(** [execution_plan_snapshot] *)
Definition execution_plan_snapshot (s : Scheduler) : ExecutionPlanSnapshot :=
  let plan := active_plan s in
  {| es_enabled := is_some plan;
     es_active_plan_id := plan_id <$> plan;
     es_pending_plan_id := plan_id <$> pending_plan s;
     es_context_tokens := default 0 (context_tokens <$> plan);
     es_prefill_batch_size := default 0 ((λ p, ph_batch_size (prefill p)) <$> plan);
     es_decode_batch_size := default 0 ((λ p, ph_batch_size (decode p)) <$> plan);
     es_state_precision := (λ p, ph_state_precision (decode p)) <$> plan |}.

Record PlacementSnapshot := {
  ps_enabled : bool;
  ps_active_plan_id : option string;
  ps_pending_plan_id : option string;
  ps_placement_count : Z;
  ps_valid_until_unix_seconds : option Z;
  ps_placements : list DevicePlacement;
}.

(** [device_placement_snapshot] *)
Definition device_placement_snapshot (s : Scheduler) : PlacementSnapshot :=
  let plan := active_placement s in
  {| ps_enabled := is_some plan;
     ps_active_plan_id := dp_plan_id <$> plan;
     ps_pending_plan_id := dp_plan_id <$> pending_placement s;
     ps_placement_count := default 0 ((λ p, Zlen (placements p)) <$> plan);
     ps_valid_until_unix_seconds := valid_until_unix_seconds <$> plan;
     ps_placements := default [] (placements <$> plan) |}.

(** [maintenance_snapshot] *)
Definition maintenance_snapshot (s : Scheduler) : bool * option string :=
  (is_some (maintenance_owner s), maintenance_owner s).

End Scheduler.
