(* ===== verification/SchedulerSafety.v ===== *)
(** * Safety of the scheduler

    The critical sections of [BasicScheduler] as a transition system, its
    invariant, and the theorems about admission, safe points, maintenance,
    adaptive policy, cancellation and work stealing. *)

From S2P Require Import Prelude Types DeviceResources OperatorDispatch Observability ScheduleQueue Admission DevicePipeline Scheduler PyFloat.

From stdpp Require Import sorting.
#[local] Open Scope Z_scope.

Module SchedulerSafety.
Import ScheduleQueue Admission Scheduler.

(** ** Transition system *)

(** One critical section.  Identifiers drawn by uuid4 are new, requests passed
    their constructor, and the queue and the ledger move by their own steps. *)
Inductive sstep : Scheduler → Scheduler → Prop :=
| st_queue s q : ScheduleQueue.step (queue s) q → sstep s (with_queue q s)
| st_device s l : DeviceResources.step (device s) l → sstep s (with_device l s)
| st_queued s m : sstep s (with_queued m s)
| st_observe s p : sstep s (observe (Observability.run_obs p) s).2
| st_admit mu du now r b steal s :
    request_valid r = true → reservations (memory s) !! mu = None →
    DeviceResources.reservations (device s) !! du = None →
    sstep s (admit_selected mu du now r b steal s).2
| st_release res s : sstep s (release_both res s).2
| st_inputs p t w s : sstep s (update_adaptive_inputs p t w s).2
| st_preference pref s : sstep s (set_scheduling_preference pref s).2
| st_apply s : sstep s (apply_pending_adaptive_policy s).2
| st_plan p s : sstep s (request_execution_plan p s).2
| st_apply_plan s : sstep s (apply_pending_execution_plan s).2
| st_placement now p s : sstep s (request_device_placement_plan now p s).2
| st_apply_placement s : sstep s (apply_pending_device_placement_plan s).2
| st_dispatcher g s : sstep s (install_operator_dispatcher g s).2
| st_begin owner s : sstep s (begin_idle_maintenance owner s).2
| st_end owner s : sstep s (end_idle_maintenance owner s).2.

(** ** Invariant *)

Record sched_inv (s : Scheduler) : Prop := {
  si_memory : controller_inv (memory s);
  si_device : DeviceResources.ledger_inv (device s);
  si_queue : queue_inv (queue s);
  si_obs : Observability.obs_inv (obs s);
  si_preference : preference s ∈ PREFERENCES;
  si_policy : policy_ok (policy s);
  si_pending : ∀ p, pending_policy s = Some p → policy_ok p;
  si_maintenance : is_Some (maintenance_owner s) → reservations (memory s) = ∅;
}.

Lemma busy_false s : busy s = false ↔ reservations (memory s) = ∅.
Proof.
  unfold busy, snapshot. cbn. rewrite negb_false_iff, Z.eqb_eq. apply Zsize_empty_iff.
Qed.

Lemma has_active_work_false s :
  has_active_work s = false ↔
  reservations (memory s) = ∅ ∧ DeviceResources.reservations (device s) = ∅.
Proof.
  unfold has_active_work, snapshot, DeviceResources.snapshot. cbn.
  rewrite orb_false_iff, !negb_false_iff, !Z.eqb_eq, !Zsize_empty_iff. done.
Qed.

(** [for_backend] and [reserve] as steps of the ledger. *)
Lemma reserve_device_step du b n steal l :
  DeviceResources.reservations l !! du = None →
  (reserve_device du b n steal l).2 = l ∨ DeviceResources.step l (reserve_device du b n steal l).2.
Proof.
  intros Hf. unfold reserve_device. destruct (DeviceResources.for_backend b n) as [r|] eqn:Hr;
    [|by left]. right. exists (DeviceResources.OpReserve du r steal).
  split; [split; [by eapply DevicePipeline.for_backend_valid|done]|].
  unfold DeviceResources.run_op, bind, ret.
  by destruct (DeviceResources.reserve du r steal l) as [[?|?] ?].
Qed.

Lemma reserve_device_result du b n steal l res l' :
  reserve_device du b n steal l = (Ok res, l') →
  ∃ r, DeviceResources.for_backend b n = Ok r ∧
       DeviceResources.reserve du r steal l = (Ok res, l') ∧
       DeviceResources.reservation_id res = du.
Proof.
  unfold reserve_device. destruct (DeviceResources.for_backend b n) as [r|]; [|done].
  intros H. exists r. split; [done|]. split; [done|].
  unfold DeviceResources.reserve in H. by run_cases H.
Qed.

Lemma reserve_ok du r steal l res l' :
  DeviceResources.reserve du r steal l = (Ok res, l') →
  l' = DeviceResources.set_used_reservations
         (DeviceResources.vec_add (DeviceResources.used l) (DeviceResources.demand r))
         (<[du:=r]> (DeviceResources.reservations l)) l.
Proof. unfold DeviceResources.reserve. intros H. by run_cases H. Qed.

Lemma reserve_device_raise du b n steal l e l' :
  reserve_device du b n steal l = (Raise e, l') → l' = l.
Proof.
  unfold reserve_device. destruct (DeviceResources.for_backend b n) as [r|]; [|by intros [= _ ->]].
  intros H. unfold DeviceResources.reserve in H. by run_cases H.
Qed.

Lemma device_step_inv l l' :
  DeviceResources.ledger_inv l → DeviceResources.step l l' → DeviceResources.ledger_inv l'.
Proof. intros Hl (o & Hok & <-). by apply DeviceResources.op_preserves_inv. Qed.

Lemma request_bytes_nonneg r : request_valid r = true → 0 <= estimated_memory_bytes r.
Proof. unfold request_valid. intros H. breflect. lia. Qed.

(** *** What an admission does, on every branch *)

(** The conditions [_admit_selected] tests before it reserves anything. *)
Definition admissible (r : ScheduleRequest) (s : Scheduler) : Prop :=
  maintenance_owner s = None ∧ validate_plan_admission r s = Ok () ∧
  batch_size r <= maximum_batch_size (policy s) ∧
  active_reservations s < maximum_active_requests (policy s).

(** The two scheduler states agree except for the telemetry counters. *)
Definition same_but_obs (s s' : Scheduler) : Prop := with_obs (obs s) s' = s.

Lemma same_but_obs_refl s : same_but_obs s s.
Proof. by destruct s. Qed.

Lemma observe_same {A} (m : Py Observability.SchedulingObservability A) s :
  same_but_obs s (observe m s).2.
Proof. unfold same_but_obs, observe, zoom. destruct (m (obs s)). by destruct s. Qed.

Lemma admit_selected_cases mu du now r b steal s :
  reservations (memory s) !! mu = None → Observability.obs_inv (obs s) →
  let '(result, s') := admit_selected mu du now r b steal s in
  match result with
  | Raise e => same_but_obs s s' ∧ obs s' ∈ [obs s; (Observability.contention_rejection (obs s)).2]
  | Ok res =>
      admissible r s ∧ ∃ m dev l,
        reserve mu now r (backend_of b) (memory s) = (Ok m, memory s') ∧
        reserve_device du b (estimated_memory_bytes r) steal (device s) = (Ok dev, l) ∧
        same_but_obs (with_device l (with_memory (memory s') s)) s' ∧
        obs s' = (Observability.assignment b (obs s)).2 ∧
        res = annotate m (DeviceResources.reservation_id dev) s
  end.
Proof.
  intros Hmu Hobs. unfold admit_selected, admissible, active_reservations.
  destruct (maintenance_owner s); [split; [apply same_but_obs_refl|left]|].
  destruct (validate_plan_admission r s) as [[]|]; [|split; [apply same_but_obs_refl|left]].
  destruct (_ >? _) eqn:Eb; [split; [apply same_but_obs_refl|left]|].
  destruct (_ >=? _) eqn:Ea; [split; [apply same_but_obs_refl|left]|]. breflect. cbn in Ea.
  unfold on_memory, zoom. destruct (reserve mu now r _ (memory s)) as [[m|e] c] eqn:Hm.
  - unfold on_device, zoom. cbn [device with_memory].
    destruct (reserve_device du b _ steal (device s)) as [[dev|e] l] eqn:Hd.
    + unfold bind, observe, zoom, ret. cbn [obs with_device with_memory].
      pose proof (Observability.assignment_total b (obs s) Hobs) as Ho.
      destruct (Observability.assignment b (obs s)) as [[[]|ea] o]; [|done]. cbn.
      split; [split_and!; done || lia|]. by exists m, dev, l.
    + apply reserve_device_raise in Hd as ->.
      destruct (release_reserve mu now r (backend_of b) (memory s) m c Hmu Hm) as [Hrel Hid].
      unfold bind, zoom. rewrite Hid. cbn [memory with_device with_memory]. rewrite Hrel. cbn.
      destruct (is_contention_error e); cbn; (split; [by destruct s|]).
      * right. left.
      * left.
  - assert (c = memory s) as -> by (unfold reserve in Hm; by run_cases Hm).
    split; [by destruct s|left].
Qed.

(** *** The critical sections preserve the invariant *)

Lemma observe_inv p s : sched_inv s → sched_inv (observe (Observability.run_obs p) s).2.
Proof.
  intros [???????]. unfold observe, zoom.
  pose proof (Observability.run_obs_inv p (obs s) ltac:(done)).
  destruct (Observability.run_obs p (obs s)) as [r o]. by split.
Qed.

Lemma queue_step_inv q s :
  sched_inv s → ScheduleQueue.step (queue s) q → sched_inv (with_queue q s).
Proof. intros [???????] Hq. split; cbn; try done. by eapply step_inv. Qed.

Lemma device_inv l s :
  sched_inv s → DeviceResources.ledger_inv l → sched_inv (with_device l s).
Proof. intros [???????] Hl. by split. Qed.

Lemma observed_inv o s : sched_inv s → Observability.obs_inv o → sched_inv (with_obs o s).
Proof. intros [???????] Ho. by split. Qed.

(** Rebuild a state from one that agrees with it up to telemetry. *)
Lemma same_but_obs_eq s s' : same_but_obs s s' → s' = with_obs (obs s') s.
Proof. unfold same_but_obs. intros <-. by destruct s'. Qed.

Lemma admit_inv mu du now r b steal s :
  request_valid r = true → reservations (memory s) !! mu = None →
  DeviceResources.reservations (device s) !! du = None →
  sched_inv s → sched_inv (admit_selected mu du now r b steal s).2.
Proof.
  intros Hr Hmu Hdu Hinv.
  pose proof (admit_selected_cases mu du now r b steal s Hmu (si_obs _ Hinv)) as H.
  destruct (admit_selected mu du now r b steal s) as [[res|e] s']; cbn.
  - destruct H as (Hadm & m & dev & l & Hm & Hd & Hsame & Ho & _).
    rewrite (same_but_obs_eq _ _ Hsame). apply observed_inv.
    + pose proof (reserve_inv mu now r (backend_of b) (memory s) Hmu
                    (request_bytes_nonneg r Hr) (si_memory _ Hinv)) as Hc.
      rewrite Hm in Hc. cbn in Hc.
      pose proof (reserve_device_step du b (estimated_memory_bytes r) steal (device s) Hdu) as Hl.
      rewrite Hd in Hl. cbn in Hl.
      assert (DeviceResources.ledger_inv l) as Hl'.
      { destruct Hl as [->|Hl]; [apply Hinv|]. eapply device_step_inv; [apply Hinv|done]. }
      destruct Hinv, Hadm as (Hown & _). split; cbn; try done. rewrite Hown. by intros [].
    + rewrite Ho. exact (Observability.run_obs_inv (Observability.ObsAssignment b) _ (si_obs _ Hinv)).
  - destruct H as [Hsame Ho]. rewrite (same_but_obs_eq _ _ Hsame). apply observed_inv; [done|].
    apply elem_of_cons in Ho as [->|Ho]; [apply Hinv|]. apply list_elem_of_singleton in Ho as ->.
    exact (Observability.run_obs_inv Observability.ObsContention _ (si_obs _ Hinv)).
Qed.

(** Releasing both halves, as one function of the two ledgers. *)
Definition released (res : Reservation) (s : Scheduler) : Scheduler :=
  let s1 := with_memory (release (reservation_id res) (memory s)).2 s in
  match device_resource_reservation_id res with
  | Some id => with_device (DeviceResources.release id (device s)).2 s1
  | None => s1
  end.

Lemma release_both_eq res s : release_both res s = (Ok (), released res s).
Proof.
  unfold release_both, released, bind, on_memory, on_device, zoom, ret.
  destruct (rl_release_ok (L := Controller) (reservation_id res) (memory s)) as [Hm _].
  cbn in Hm. destruct (release _ (memory s)) as [rm m]. cbn in Hm. subst rm. cbn.
  destruct (device_resource_reservation_id res) as [id|]; [|done]. cbn.
  destruct (rl_release_ok (L := DeviceResources.Ledger) id (device s)) as [Hd _].
  cbn in Hd. destruct (DeviceResources.release id (device s)) as [rd d].
  cbn in Hd. by subst rd.
Qed.

Lemma released_inv res s : sched_inv s → sched_inv (released res s).
Proof.
  intros Hinv. unfold released.
  assert (sched_inv (with_memory (release (reservation_id res) (memory s)).2 s)) as Hm.
  { destruct Hinv. split; cbn; try done; [by apply release_inv|].
    intros Ho. pose proof (si_maintenance0 Ho) as He. unfold release. rewrite He.
    by rewrite lookup_empty. }
  destruct (device_resource_reservation_id res) as [id|]; [|exact Hm].
  apply device_inv; [exact Hm|].
  exact (rl_release_inv (L := DeviceResources.Ledger) id _ (si_device _ Hinv)).
Qed.

(** The telemetry call of a policy transition returns. *)
Lemma observe_transition {A} st (a : A) s :
  Observability.obs_inv (obs s) → st ∈ Observability.ADAPTIVE_STATUSES →
  (observe (Observability.adaptive_transition st) ;;; ret a) s =
  (Ok a, with_obs (Observability.adaptive_transition st (obs s)).2 s).
Proof.
  intros Ho Hst. pose proof (Observability.adaptive_transition_total st _ Ho Hst) as Ht.
  unfold bind, observe, zoom, ret. destruct (Observability.adaptive_transition st (obs s)) as [r o].
  cbn in Ht. by subst r.
Qed.

Lemma policies_inv a p s :
  sched_inv s → policy_ok a → (∀ x, p = Some x → policy_ok x) → sched_inv (with_policies a p s).
Proof. intros [???????] Ha Hp. by split. Qed.

(** What an update of the adaptive inputs does, on every branch. *)
Lemma update_cases p t w s :
  sched_inv s →
  ∃ proposed, policy_ok proposed ∧
    let '(result, s') := update_adaptive_inputs p t w s in
    (result = Ok "ignored"%string ∧ proposed = policy s ∧
       same_but_obs (with_policies (policy s) None s) s' ∧
       obs s' = (Observability.adaptive_transition "ignored" (obs s)).2) ∨
    (result = Ok "deferred"%string ∧ level proposed < level (policy s) ∧
       has_active_work s = true ∧
       same_but_obs (with_policies (policy s) (Some proposed) s) s' ∧
       obs s' = (Observability.adaptive_transition "deferred" (obs s)).2) ∨
    (result = Ok "applied"%string ∧
       (level proposed < level (policy s) → has_active_work s = false) ∧
       same_but_obs (with_policies proposed None s) s' ∧
       obs s' = (Observability.adaptive_transition "applied" (obs s)).2).
Proof.
  intros Hinv. unfold update_adaptive_inputs.
  set (latest := default (policy s) (pending_policy s)).
  set (pp := default _ _). set (tt_ := default _ _). set (ww := default (power latest) _).
  destruct (from_inputs_total pp tt_ ww (preference s) (si_preference _ Hinv)) as [proposed Hp].
  exists proposed. split; [by eapply from_inputs_ok|]. rewrite Hp.
  assert (∀ x, x ∈ Observability.ADAPTIVE_STATUSES →
    Observability.obs_inv (obs s) ∧ x ∈ Observability.ADAPTIVE_STATUSES) as Hst
    by (intros x Hx; split; [apply Hinv|done]).
  case_decide as Heq; [|destruct ((level proposed <? level (policy s)) && has_active_work s) eqn:E].
  - rewrite observe_transition by (first [apply Hinv|repeat constructor]).
    left. split_and!; try done.
  - rewrite observe_transition by (first [apply Hinv|repeat constructor]). breflect.
    right; left. split_and!; done.
  - rewrite observe_transition by (first [apply Hinv|repeat constructor]).
    right; right. split_and!; try done.
    intros Hlt. apply andb_false_iff in E as [E|E]; [|done]. breflect. lia.
Qed.

Lemma apply_pending_eq s :
  sched_inv s →
  apply_pending_adaptive_policy s =
  match pending_policy s with
  | None => (Ok None, s)
  | Some p =>
      if has_active_work s then (Ok (Some "deferred"%string), s)
      else (Ok (Some "applied"%string),
            with_obs (Observability.adaptive_transition "applied" (obs s)).2
                     (with_policies p None s))
  end.
Proof.
  intros Hinv. unfold apply_pending_adaptive_policy. destruct (pending_policy s); [|done].
  destruct (has_active_work s); [done|].
  by rewrite observe_transition by (first [apply Hinv|repeat constructor]).
Qed.

Lemma transition_obs_inv st s :
  sched_inv s → Observability.obs_inv (Observability.adaptive_transition st (obs s)).2.
Proof.
  intros Hinv. exact (Observability.run_obs_inv (Observability.ObsAdaptive st) _ (si_obs _ Hinv)).
Qed.

Lemma update_inv p t w s : sched_inv s → sched_inv (update_adaptive_inputs p t w s).2.
Proof.
  intros Hinv. destruct (update_cases p t w s Hinv) as (prop & Hprop & H).
  destruct (update_adaptive_inputs p t w s) as [r s']. cbn.
  destruct H as [(_ & _ & Hs & Ho)|[(_ & _ & _ & Hs & Ho)|(_ & _ & Hs & Ho)]];
    rewrite (same_but_obs_eq _ _ Hs), Ho; apply observed_inv; try by apply transition_obs_inv.
  - by apply policies_inv; [|apply Hinv|].
  - apply policies_inv; [done|apply Hinv|]. intros x [= <-]. done.
  - by apply policies_inv.
Qed.

Lemma preference_inv pref s :
  sched_inv s → pref ∈ PREFERENCES → sched_inv (with_preference pref s).
Proof. intros [???????] Hp. by split. Qed.

Lemma apply_pending_inv s : sched_inv s → sched_inv (apply_pending_adaptive_policy s).2.
Proof.
  intros Hinv. rewrite apply_pending_eq by done.
  destruct (pending_policy s) as [p|] eqn:Hp; [|done]. destruct (has_active_work s); [done|].
  apply observed_inv; [|by apply transition_obs_inv]. apply policies_inv; [done| |done].
  by eapply si_pending.
Qed.

(** Every critical section keeps the invariant. *)
Lemma sstep_inv s s' : sched_inv s → sstep s s' → sched_inv s'.
Proof.
  intros Hinv Hstep. destruct Hstep.
  - by apply queue_step_inv.
  - apply device_inv; [done|]. eapply device_step_inv; [apply Hinv|done].
  - destruct Hinv. by split.
  - by apply observe_inv.
  - by apply admit_inv.
  - rewrite release_both_eq. by apply released_inv.
  - by apply update_inv.
  - unfold set_scheduling_preference. destruct (negb _) eqn:E; [done|]. breflect.
    by apply update_inv, preference_inv.
  - by apply apply_pending_inv.
  - unfold request_execution_plan. destruct Hinv. repeat case_match; by split.
  - unfold apply_pending_execution_plan. destruct Hinv. repeat case_match; by split.
  - unfold request_device_placement_plan. destruct Hinv. repeat case_match; by split.
  - unfold apply_pending_device_placement_plan. destruct Hinv. repeat case_match; by split.
  - unfold install_operator_dispatcher. destruct Hinv. repeat case_match; by split.
  - unfold begin_idle_maintenance. destruct Hinv.
    destruct (_ || _); [by split|]. destruct (is_some _); [by split|].
    destruct (busy s) eqn:Hb; [by split|]. split; cbn; try done. intros _. by apply busy_false.
  - unfold end_idle_maintenance. destruct Hinv. case_decide; [|by split]. by split; cbn.
Qed.

Lemma new_scheduler_inv sha h cap d n s :
  new_scheduler sha h cap d n = Ok s → sched_inv s.
Proof.
  unfold new_scheduler. intros H.
  destruct (new_controller cap) as [c|] eqn:Hc; [|done].
  destruct (DeviceResources.contention_profile_id _ _ _ _) as [prof|]; [|done].
  destruct (DeviceResources.new_ledger _ _) as [l|] eqn:Hl; [|done].
  destruct (new_queue n) as [q|] eqn:Hq; [|done].
  destruct (from_inputs _ _ _ _) as [pol|] eqn:Hpol; [|done]. injection H as <-.
  split; cbn; try done.
  - by eapply new_controller_inv.
  - by eapply DeviceResources.new_ledger_inv.
  - by eapply new_queue_inv.
  - apply Observability.new_obs_inv.
  - left.
  - by eapply from_inputs_ok.
Qed.

Lemma rtc_sstep_inv s s' : sched_inv s → rtc sstep s s' → sched_inv s'.
Proof. intros Hs Hr. eapply rtc_invariant; [exact sstep_inv|exact Hs|exact Hr]. Qed.

(** *** What a critical section may change *)

Lemma released_frame res s :
  policy (released res s) = policy s ∧ active_plan (released res s) = active_plan s ∧
  active_placement (released res s) = active_placement s ∧
  dispatcher (released res s) = dispatcher s.
Proof. unfold released. by destruct (device_resource_reservation_id res). Qed.

Lemma admit_frame mu du now r b steal s :
  sched_inv s → reservations (memory s) !! mu = None →
  let s' := (admit_selected mu du now r b steal s).2 in
  policy s' = policy s ∧ active_plan s' = active_plan s ∧
  active_placement s' = active_placement s ∧ dispatcher s' = dispatcher s.
Proof.
  intros Hinv Hmu s'. subst s'.
  pose proof (admit_selected_cases mu du now r b steal s Hmu (si_obs _ Hinv)) as H.
  destruct (admit_selected mu du now r b steal s) as [[res|e] s'].
  - destruct H as (_ & m & dev & l & _ & _ & Hs & _). by rewrite (same_but_obs_eq _ _ Hs).
  - destruct H as [Hs _]. by rewrite (same_but_obs_eq _ _ Hs).
Qed.

Lemma update_frame p t w s :
  sched_inv s →
  let s' := (update_adaptive_inputs p t w s).2 in
  memory s' = memory s ∧ device s' = device s ∧ active_plan s' = active_plan s ∧
  active_placement s' = active_placement s ∧ dispatcher s' = dispatcher s ∧
  (level (policy s') < level (policy s) → has_active_work s = false).
Proof.
  intros Hinv s'. subst s'. destruct (update_cases p t w s Hinv) as (prop & _ & H).
  destruct (update_adaptive_inputs p t w s) as [r s'].
  destruct H as [(_ & _ & Hs & _)|[(_ & _ & _ & Hs & _)|(_ & Hl & Hs & _)]];
    rewrite (same_but_obs_eq _ _ Hs); cbn; split_and!; try done; lia.
Qed.

Lemma apply_frame s :
  sched_inv s →
  let s' := (apply_pending_adaptive_policy s).2 in
  memory s' = memory s ∧ device s' = device s ∧ active_plan s' = active_plan s ∧
  active_placement s' = active_placement s ∧ dispatcher s' = dispatcher s ∧
  (policy s' ≠ policy s → has_active_work s = false).
Proof.
  intros Hinv s'. subst s'. rewrite apply_pending_eq by done.
  destruct (pending_policy s); [|by split_and!]. by destruct (has_active_work s).
Qed.

(** ** Properties *)

(** C2: capacity and exclusivity hold for every interleaving.  In each state
    reachable from a new scheduler by its critical sections, the memory admitted
    is the sum of the active reservations and within capacity, the device ledger
    accounts exactly and within capacity, the policy's limits are those of its
    level, and no request is active while a maintenance lease is held. *)
Theorem scheduler_safety sha h cap d n s0 s :
  new_scheduler sha h cap d n = Ok s0 → rtc sstep s0 s →
  reserved (memory s) = map_sum bytes (reservations (memory s)) ∧
  reserved (memory s) <= capacity (memory s) ∧
  DeviceResources.used (device s)
    = DeviceResources.used_of (DeviceResources.reservations (device s)) ∧
  DeviceResources.vec_le (DeviceResources.used (device s))
                         (DeviceResources.capacity (device s)) ∧
  policy_ok (policy s) ∧
  (is_Some (maintenance_owner s) → reservations (memory s) = ∅).
Proof.
  intros H0 Hrun.
  assert (sched_inv s) as [[] [] ? ? ? ? ? ?]
    by (eapply rtc_sstep_inv; [by eapply new_scheduler_inv|done]).
  by split_and!.
Qed.

(** The adaptive policy restricts at once and relaxes only when idle: a
    critical section after which the level is lower leaves no active memory or
    device reservation. *)
Theorem policy_relaxes_when_idle s s' :
  sched_inv s → sstep s s' → level (policy s') < level (policy s) →
  reservations (memory s') = ∅ ∧ DeviceResources.reservations (device s') = ∅.
Proof.
  intros Hinv Hstep Hlt. apply has_active_work_false. destruct Hstep; cbn in Hlt; try lia.
  - unfold observe, zoom in Hlt. destruct (Observability.run_obs _ _). cbn in Hlt. lia.
  - destruct (admit_frame mu du now r b steal s Hinv H0) as (Hp & _). rewrite Hp in Hlt. lia.
  - rewrite release_both_eq in Hlt. cbn in Hlt.
    destruct (released_frame res s) as (Hp & _). rewrite Hp in Hlt. lia.
  - destruct (update_frame p t w s Hinv) as (Hm & Hd & _ & _ & _ & Hl).
    unfold has_active_work in *. rewrite Hm, Hd. auto.
  - unfold set_scheduling_preference in *. destruct (negb _) eqn:E; [cbn in Hlt; lia|]. breflect.
    destruct (update_frame None None None _ (preference_inv pref s Hinv E))
      as (Hm & Hd & _ & _ & _ & Hl). unfold has_active_work in *. rewrite Hm, Hd. auto.
  - destruct (apply_frame s Hinv) as (Hm & Hd & _ & _ & _ & Hl).
    unfold has_active_work in *. rewrite Hm, Hd. apply Hl. intros Heq. rewrite Heq in Hlt. lia.
  - unfold request_execution_plan in Hlt. repeat case_match; cbn in Hlt; lia.
  - unfold apply_pending_execution_plan in Hlt. repeat case_match; cbn in Hlt; lia.
  - unfold request_device_placement_plan in Hlt. repeat case_match; cbn in Hlt; lia.
  - unfold apply_pending_device_placement_plan in Hlt. repeat case_match; cbn in Hlt; lia.
  - unfold install_operator_dispatcher in Hlt. repeat case_match; cbn in Hlt; lia.
  - unfold begin_idle_maintenance in Hlt. repeat case_match; cbn in Hlt; lia.
  - unfold end_idle_maintenance in Hlt. repeat case_match; cbn in Hlt; lia.
Qed.

(** The configuration the safe points protect. *)
Definition config (s : Scheduler) :=
  (active_plan s, active_placement s, dispatcher s).

(** A section that tests [busy] either keeps the configuration or ran idle. *)
Definition safe_point (s s' : Scheduler) : Prop :=
  config s' = config s ∨ (busy s = false ∧ memory s' = memory s).

Lemma plan_safe_points s :
  (∀ p, safe_point s (request_execution_plan p s).2) ∧
  safe_point s (apply_pending_execution_plan s).2 ∧
  (∀ now p, safe_point s (request_device_placement_plan now p s).2) ∧
  safe_point s (apply_pending_device_placement_plan s).2 ∧
  (∀ g, safe_point s (install_operator_dispatcher g s).2).
Proof.
  unfold safe_point, request_execution_plan, apply_pending_execution_plan,
    request_device_placement_plan, apply_pending_device_placement_plan,
    install_operator_dispatcher, config.
  split_and!; intros; repeat case_match; cbn;
    first [left; congruence|right; split; congruence].
Qed.

Ltac safe_point_case :=
  match goal with
  | Hne : config ?s' ≠ config ?s |- _ =>
      assert (safe_point s s') as [Heq|[Hb Hm]] by apply plan_safe_points;
      [by destruct Hne|rewrite Hm; by apply busy_false in Hb]
  end.

(** Plans, placements and the dispatcher change only at safe points: a
    critical section that changes any of them finds and leaves no active memory
    reservation. *)
Theorem config_changes_at_safe_point s s' :
  sched_inv s → sstep s s' → config s' ≠ config s →
  reservations (memory s) = ∅ ∧ reservations (memory s') = ∅.
Proof.
  intros Hinv Hstep Hne. destruct Hstep; try (by destruct Hne).
  - unfold observe, zoom in Hne. by destruct (Observability.run_obs _ _).
  - destruct (admit_frame mu du now r b steal s Hinv H0) as (_ & Ha & Hb & Hc).
    unfold config in Hne. by rewrite Ha, Hb, Hc in Hne.
  - rewrite release_both_eq in Hne. cbn in Hne.
    destruct (released_frame res s) as (_ & Ha & Hb & Hc).
    unfold config in Hne. by rewrite Ha, Hb, Hc in Hne.
  - destruct (update_frame p t w s Hinv) as (_ & _ & Ha & Hb & Hc & _).
    unfold config in Hne. by rewrite Ha, Hb, Hc in Hne.
  - unfold set_scheduling_preference in Hne. destruct (negb _) eqn:E; [done|]. breflect.
    destruct (update_frame None None None _ (preference_inv pref s Hinv E))
      as (_ & _ & Ha & Hb & Hc & _).
    unfold config in Hne. by rewrite Ha, Hb, Hc in Hne.
  - destruct (apply_frame s Hinv) as (_ & _ & Ha & Hb & Hc & _).
    unfold config in Hne. by rewrite Ha, Hb, Hc in Hne.
  - safe_point_case.
  - safe_point_case.
  - safe_point_case.
  - safe_point_case.
  - safe_point_case.
  - unfold begin_idle_maintenance in Hne. by repeat case_match.
  - unfold end_idle_maintenance in Hne. by repeat case_match.
Qed.

(** Admission is all or nothing.  Either [_admit_selected] raises and the
    two ledgers, the queue, the plans and the policy are untouched, or every test
    passed, one reservation for the request's bytes is active in both ledgers
    under the identifiers of the result, and the memory fits the capacity. *)
Theorem admission_all_or_nothing mu du now r b steal s :
  sched_inv s → reservations (memory s) !! mu = None →
  let '(result, s') := admit_selected mu du now r b steal s in
  match result with
  | Raise _ => s' = with_obs (obs s') s
  | Ok res =>
      admissible r s ∧
      reservation_id res = mu ∧ device_resource_reservation_id res = Some du ∧
      bytes res = estimated_memory_bytes r ∧ backend res = backend_of b ∧
      reserved (memory s') = reserved (memory s) + estimated_memory_bytes r ∧
      reserved (memory s') <= capacity (memory s') ∧
      (∃ m, reservations (memory s') = <[mu := m]> (reservations (memory s)) ∧
            bytes m = estimated_memory_bytes r) ∧
      (∃ q, DeviceResources.for_backend b (estimated_memory_bytes r) = Ok q ∧
            DeviceResources.reservations (device s')
              = <[du := q]> (DeviceResources.reservations (device s))) ∧
      queue s' = queue s ∧ queued_active s' = queued_active s ∧ policy s' = policy s
  end.
Proof.
  intros Hinv Hmu.
  pose proof (admit_selected_cases mu du now r b steal s Hmu (si_obs _ Hinv)) as H.
  destruct (admit_selected mu du now r b steal s) as [[res|e] s'].
  - destruct H as (Hadm & m & dev & l & Hm & Hd & Hs & _ & ->). split; [done|].
    apply reserve_device_result in Hd as (q & Hq & Hd & ->).
    assert (device s' = l) as Hl by (by rewrite (same_but_obs_eq _ _ Hs)).
    assert (queue s' = queue s ∧ queued_active s' = queued_active s ∧ policy s' = policy s)
      as Hrest by (by rewrite (same_but_obs_eq _ _ Hs)).
    unfold reserve in Hm. destruct (_ >? _) eqn:E; [done|]. injection Hm as <- Hmem.
    rewrite <-Hmem. breflect. split_and!; try apply Hrest; try done; cbn; try lia.
    + by eexists.
    + exists q. split; [done|]. by rewrite Hl, (reserve_ok _ _ _ _ _ _ Hd).
  - destruct H as [Hs _]. by apply same_but_obs_eq.
Qed.

(** What an admission followed by the release of its reservation amounts to. *)
Lemma admit_release mu du now r b steal s res s1 :
  sched_inv s → reservations (memory s) !! mu = None →
  DeviceResources.reservations (device s) !! du = None →
  admit_selected mu du now r b steal s = (Ok res, s1) →
  ∀ s2, memory s2 = memory s1 → device s2 = device s1 →
    released res s2 = with_device (device s) (with_memory (memory s) s2).
Proof.
  intros Hinv Hmu Hdu Hrun s2 Hm2 Hd2.
  pose proof (admit_selected_cases mu du now r b steal s Hmu (si_obs _ Hinv)) as H.
  rewrite Hrun in H. destruct H as (_ & m & dev & l & Hm & Hd & Hs & _ & ->).
  destruct (release_reserve _ _ _ _ _ _ _ Hmu Hm) as [Hrel Hid].
  apply reserve_device_result in Hd as (q & Hq & Hd & Hdev).
  assert (device s1 = l) as Hl by (by rewrite (same_but_obs_eq _ _ Hs)).
  unfold released. cbn. rewrite Hid, Hm2, Hrel, Hd2, Hl, Hdev. cbn. do 2 f_equal.
  rewrite (reserve_ok _ _ _ _ _ _ Hd).
  unfold DeviceResources.release, DeviceResources.set_used_reservations; cbn;
    rewrite lookup_insert_eq, delete_insert_id, DeviceResources.vec_add_sub by done;
    by destruct (device s).
Qed.

(** Completing an admitted request gives back exactly what its admission
    took: after [_admit_selected] and [complete] both ledgers are as before. *)
Theorem admit_complete mu du now r b steal s res s1 :
  sched_inv s → request_valid r = true → reservations (memory s) !! mu = None →
  DeviceResources.reservations (device s) !! du = None →
  admit_selected mu du now r b steal s = (Ok res, s1) →
  ∃ s2, complete res s1 = (Ok (), s2) ∧ memory s2 = memory s ∧ device s2 = device s ∧
        queue s2 = queue s1.
Proof.
  intros Hinv Hr Hmu Hdu Hrun.
  assert (sched_inv s1) as Hinv1
    by (pose proof (admit_inv mu du now r b steal s Hr Hmu Hdu Hinv) as H; by rewrite Hrun in H).
  unfold complete, bind. rewrite release_both_eq.
  pose proof (released_inv res s1 Hinv1) as Hinv2.
  pose proof (admit_release mu du now r b steal s res s1 Hinv Hmu Hdu Hrun s1 eq_refl eq_refl)
    as Heq.
  rewrite (apply_pending_eq _ Hinv2). rewrite Heq. cbn.
  destruct (pending_policy s1); [|cbn; eauto 10].
  destruct (has_active_work _); cbn; eauto 10.
Qed.

(** *** Dispatching from the queue *)

Lemma wait_nonneg now t q : 0 <= claimed_wait_nanoseconds now t q.
Proof. unfold claimed_wait_nanoseconds. case_match; lia. Qed.

(** The second critical section of [admit_next], on its two branches. *)
Lemma register_spec token r res now others s :
  Observability.obs_inv (obs s) →
  let q := others (queue s) in
  if decide (token ∈ claimed q) then
    ∃ o, Observability.obs_inv o ∧ register token r res now others s =
      (Ok (Some (mkAdmission token r res)),
       with_obs o (with_queue (drop_claim token q)
                              (with_queued (<[token := res]> (queued_active s)) s)))
  else
    register token r res now others s =
      (Ok None, released res (with_queued (delete token (<[token:=res]> (queued_active s)))
                                          (with_queue q s))).
Proof.
  intros Hobs q. unfold register, on_queue, zoom. cbn. fold q. unfold finish_claim.
  destruct (decide (token ∈ claimed q)); cbn.
  - unfold bind, observe, zoom, ret. cbn.
    pose proof (proj2 (Observability.queue_wait_total
      (claimed_wait_nanoseconds now token (queue s)) (obs s) Hobs) (wait_nonneg _ _ _)) as Hw.
    pose proof (Observability.run_obs_inv (Observability.ObsQueueWait
      (claimed_wait_nanoseconds now token (queue s))) (obs s) Hobs) as Hi. cbn in Hi.
    destruct (Observability.queue_wait _ (obs s)) as [rw o]. cbn in Hw. subst rw. by exists o.
  - unfold bind. rewrite release_both_eq. reflexivity.
Qed.

Lemma admit_fields mu du now r s res s1 :
  sched_inv s → reservations (memory s) !! mu = None →
  admit_ mu du now r s = (Ok res, s1) →
  queue s1 = queue s ∧ queued_active s1 = queued_active s ∧ Observability.obs_inv (obs s1).
Proof.
  intros Hinv Hmu Hrun. unfold admit_ in Hrun. destruct (dispatch_decision r s) as [d|]; [|done].
  pose proof (admit_selected_cases mu du now r (OperatorDispatch.selected d) None s Hmu
                (si_obs _ Hinv)) as H. rewrite Hrun in H.
  destruct H as (_ & m & dev & l & _ & _ & Hs & Ho & _).
  split_and!; [by rewrite (same_but_obs_eq _ _ Hs)..|]. rewrite Ho.
  exact (Observability.run_obs_inv
           (Observability.ObsAssignment (OperatorDispatch.selected d)) _ (si_obs _ Hinv)).
Qed.

Lemma admit_raise_fields mu du now r s e s1 :
  sched_inv s → reservations (memory s) !! mu = None →
  admit_ mu du now r s = (Raise e, s1) →
  memory s1 = memory s ∧ device s1 = device s ∧ queue s1 = queue s.
Proof.
  intros Hinv Hmu Hrun. unfold admit_ in Hrun.
  destruct (dispatch_decision r s) as [d|]; [|by simplify_eq].
  pose proof (admit_selected_cases mu du now r (OperatorDispatch.selected d) None s Hmu
                (si_obs _ Hinv)) as H. rewrite Hrun in H. destruct H as [Hs _].
  by rewrite (same_but_obs_eq _ _ Hs).
Qed.

Lemma admit_released mu du now r s res s1 :
  sched_inv s → reservations (memory s) !! mu = None →
  DeviceResources.reservations (device s) !! du = None →
  admit_ mu du now r s = (Ok res, s1) →
  ∀ s2, memory s2 = memory s1 → device s2 = device s1 →
    released res s2 = with_device (device s) (with_memory (memory s) s2).
Proof.
  intros Hinv Hmu Hdu Hrun. unfold admit_ in Hrun.
  destruct (dispatch_decision r s) as [d|]; [|done]. by eapply admit_release.
Qed.

(** [admit_next] with a pending request and no other thread between its first
    two sections. *)
Lemma admit_next_unfold token r q1 start mu du now now_ns others s :
  take_head (queue s) = (Some (token, r), q1) →
  admit_next (Some PyFloat.zero) start [] mu du now now_ns (λ s, s) (λ s, s) others s =
  match admit_ mu du now r (with_queue q1 s) with
  | (Raise e, s2) =>
      (on_queue (finish_claim token) ;;; raise (QueuedAdmissionError token e)) s2
  | (Ok res, s2) => (let! a := register token r res now_ns others in ret (Some a)) s2
  end.
Proof.
  intros Htake. unfold admit_next, on_queue at 1, zoom, dequeue. cbn. by rewrite Htake.
Qed.

(** Cancelling a request while it is being dispatched leaks nothing.  When
    the claim of the head request is gone by the time [admit_next] settles it,
    the call reports no admission (or the admission had already failed), both
    ledgers are as before the call, and the request is neither tracked as
    active nor claimed. *)
Theorem cancel_during_dispatch token r q1 start mu du now now_ns others s :
  sched_inv s → reservations (memory s) !! mu = None →
  DeviceResources.reservations (device s) !! du = None →
  take_head (queue s) = (Some (token, r), q1) → token ∉ claimed (others q1) →
  let '(result, s') := admit_next (Some PyFloat.zero) start [] mu du now now_ns (λ s, s) (λ s, s) others s in
  memory s' = memory s ∧ device s' = device s ∧
  match result with
  | Ok (Some None) => queued_active s' = delete token (queued_active s) ∧
                      token ∉ claimed (queue s')
  | Raise (QueuedAdmissionError t _) => t = token ∧ token ∉ claimed (queue s')
  | _ => False
  end.
Proof.
  intros Hinv Hmu Hdu Htake Hgone. rewrite (admit_next_unfold _ _ _ _ _ _ _ _ _ _ Htake).
  assert (sched_inv (with_queue q1 s)) as Hinv1.
  { apply queue_step_inv; [done|]. exists TakeHead. split; [done|]. cbn. by rewrite Htake. }
  destruct (admit_ mu du now r (with_queue q1 s)) as [[res|e] s2] eqn:Ha.
  - destruct (admit_fields _ _ _ _ _ _ _ Hinv1 Hmu Ha) as (Hq & Hqa & Ho).
    pose proof (register_spec token r res now_ns others s2 Ho) as Hreg. cbn in Hreg.
    rewrite Hq in Hreg. cbn in Hreg. rewrite decide_False in Hreg by done.
    unfold bind. rewrite Hreg. cbn.
    rewrite (admit_released _ _ _ _ _ _ _ Hinv1 Hmu Hdu Ha) by done. cbn.
    by rewrite Hqa, delete_insert_eq.
  - destruct (admit_raise_fields _ _ _ _ _ _ _ Hinv1 Hmu Ha) as (Hm & Hd & Hq).
    unfold bind, on_queue, zoom, raise. rewrite Hq. cbn. unfold finish_claim.
    destruct (decide (token ∈ claimed q1)); cbn; rewrite Hm, Hd; split_and!; try done; set_solver.
Qed.

Lemma queued_inv m s : sched_inv s → sched_inv (with_queued m s).
Proof. intros [???????]. by split. Qed.

Lemma complete_queued_spec t res s :
  sched_inv s → queued_active s !! t = Some res →
  ∃ s2, complete_queued t s = (Ok true, s2) ∧ memory s2 = memory (released res s) ∧
        device s2 = device (released res s) ∧ queue s2 = queue s ∧
        queued_active s2 = delete t (queued_active s).
Proof.
  intros Hinv Ht. unfold complete_queued. rewrite Ht. unfold bind. rewrite release_both_eq.
  set (s1 := with_queued _ s).
  assert (sched_inv (released res s1)) as Hrel by apply released_inv, queued_inv, Hinv.
  rewrite (apply_pending_eq _ Hrel).
  assert (memory (released res s1) = memory (released res s) ∧
    device (released res s1) = device (released res s) ∧ queue (released res s1) = queue s ∧
    queued_active (released res s1) = delete t (queued_active s)) as H
    by (unfold released; by destruct (device_resource_reservation_id res)).
  destruct (pending_policy (released res s1)); [destruct (has_active_work (released res s1))|];
    cbn; eexists; (split; [done|exact H]).
Qed.

(** [cancel] of a token the queue no longer knows. *)
Lemma cancel_settled t s :
  requests (queue s) !! t = None → t ∉ claimed (queue s) → cancel t s = complete_queued t s.
Proof.
  intros Hr Hc. unfold cancel, bind, on_queue, zoom, ScheduleQueue.cancel.
  rewrite Hr, decide_False by done. by destruct s.
Qed.

(** An admitted request is tracked until it is cancelled or completed, once.
    After [admit_next] returns an admission with its claim intact, [cancel] of the
    token succeeds, restores both ledgers, and a second [cancel] reports that
    there is nothing to cancel. *)
Theorem admit_then_cancel token r q1 start mu du now now_ns s adm s1 :
  sched_inv s → request_valid r = true → reservations (memory s) !! mu = None →
  DeviceResources.reservations (device s) !! du = None →
  take_head (queue s) = (Some (token, r), q1) →
  admit_next (Some PyFloat.zero) start [] mu du now now_ns (λ s, s) (λ s, s) (λ q, q) s
    = (Ok (Some (Some adm)), s1) →
  adm_token adm = token ∧ adm_request adm = r ∧
  queued_active s1 !! token = Some (adm_reservation adm) ∧
  ∃ s2, cancel token s1 = (Ok true, s2) ∧
        memory s2 = memory s ∧ device s2 = device s ∧ (cancel token s2).1 = Ok false.
Proof.
  intros Hinv Hr Hmu Hdu Htake Hrun. rewrite (admit_next_unfold _ _ _ _ _ _ _ _ _ _ Htake) in Hrun.
  assert (sched_inv (with_queue q1 s)) as Hinv1.
  { apply queue_step_inv; [done|]. exists TakeHead. split; [done|]. cbn. by rewrite Htake. }
  destruct (admit_ mu du now r (with_queue q1 s)) as [[res|e] s2] eqn:Ha;
    [|unfold bind, on_queue, zoom, raise, finish_claim in Hrun; by repeat case_match].
  destruct (admit_fields _ _ _ _ _ _ _ Hinv1 Hmu Ha) as (Hq & Hqa & Ho).
  pose proof (register_spec token r res now_ns (λ q, q) s2 Ho) as Hreg. cbn in Hreg.
  rewrite Hq in Hreg. cbn in Hreg. unfold bind in Hrun.
  destruct (decide (token ∈ claimed q1)) as [Hc|]; [|by rewrite Hreg in Hrun].
  destruct Hreg as (o & Hobs & Hreg). rewrite Hreg in Hrun. cbn in Hrun. injection Hrun as <- <-.
  split; [done|]. split; [done|]. split; [apply lookup_insert_eq|].
  assert (sched_inv s2) as Hinv2.
  { unfold admit_ in Ha. destruct (dispatch_decision r _) as [d|]; [|done].
    pose proof (admit_inv mu du now r (OperatorDispatch.selected d) None (with_queue q1 s)
                  Hr Hmu Hdu Hinv1) as H. by rewrite Ha in H. }
  assert (requests q1 !! token = None) as Hnone by by apply (qi_disjoint _ _ (si_queue _ Hinv1)).
  set (s3 := with_obs _ _).
  assert (sched_inv s3) as Hinv3.
  { apply observed_inv; [|done]. destruct (queued_inv (<[token:=res]> (queued_active s2)) s2 Hinv2).
    split; cbn; try done. apply drop_claim_inv; [done|]. apply (si_queue _ Hinv1). }
  assert (queued_active s3 !! token = Some res) as Hact by apply lookup_insert_eq.
  assert (token ∉ claimed (queue s3)) as Hnc by (cbn; set_solver).
  destruct (complete_queued_spec token res s3 Hinv3 Hact) as (s4 & Hrun & Hm & Hd & Hq4 & Hqa4).
  exists s4. cbn. rewrite (cancel_settled token s3) by done. split; [done|].
  rewrite Hm, Hd, (admit_released _ _ _ _ _ _ _ Hinv1 Hmu Hdu Ha) by done.
  split; [done|]. split; [done|].
  rewrite (cancel_settled token s4) by (rewrite Hq4; done).
  unfold complete_queued. by rewrite Hqa4, lookup_delete_eq.
Qed.

(** *** Work stealing *)

(** The head of the queue: its entry precedes every other pending request's. *)
Definition is_head (token : string) (q : Queue) : Prop :=
  ∃ e, queued_at e q ∧ e_token e = token ∧ ∀ e', queued_at e' q → e' = e ∨ entry_lt e e'.

Lemma peek_head q :
  queue_inv q →
  let h := drop_dead (requests q) (heap q) in
  peek q = (match h with
            | [] => Ok None
            | e :: _ => Ok ((λ r, (e_token e, r)) <$> requests q !! e_token e)
            end, set_heap h q) ∧
  match h with
  | [] => True
  | e :: h' => is_head (e_token e) q ∧ ∃ r, requests q !! e_token e = Some r ∧
                 claim_head (e_token e) (set_heap h q) = (Ok (Some (e_token e, r)), claim e r h' q)
  end.
Proof.
  intros Hinv h. subst h. destruct (drop_dead_spec (requests q) (heap q)) as (dead & Hh & Hd & Hl).
  unfold peek. destruct (drop_dead _ _) as [|e h'] eqn:Hdd; [done|]. destruct Hl as [r Hr].
  rewrite Hr. split; [done|]. split.
  - exists e. split; [split; [rewrite Hh; set_solver|by exists r]|]. split; [done|].
    intros e' [He' [r' Hr']]. rewrite Hh in He'.
    apply elem_of_app in He' as [He'|[->|He']%elem_of_cons]; [by rewrite (Hd _ He') in Hr'|by left|].
    right. pose proof (qi_sorted _ _ Hinv) as Hs. rewrite Hh in Hs.
    apply StronglySorted_app_r, StronglySorted_inv in Hs as [_ Hs].
    rewrite Forall_forall in Hs. by apply Hs.
  - exists r. split; [done|]. unfold claim_head, set_heap. cbn. rewrite Hr. cbn.
    unfold str_eqb. by rewrite bool_decide_eq_true_2.
Qed.

Lemma restore_after_claim e r h q :
  requests q !! e_token e = Some r → e_token e ∉ claimed q →
  ∃ q', restore_claim (e_token e) (claim e r h q) = (Ok true, q') ∧ requests q' = requests q.
Proof.
  intros Hr Hc. unfold restore_claim, claim. cbn. rewrite lookup_insert_eq.
  rewrite decide_True by set_solver. eexists. split; [done|]. cbn.
  by rewrite insert_delete_eq, insert_id.
Qed.

Lemma finish_after_claim e r h q :
  finish_claim (e_token e) (claim e r h q) = (Ok true, drop_claim (e_token e) (claim e r h q)).
Proof. unfold finish_claim. rewrite decide_True; [done|]. cbn. set_solver. Qed.

(** Work stealing takes only the queue head and only onto a qualified idle
    backend.  When [steal_next] returns an admission it is of the request that
    precedes every other pending one, on a probe-approved fallback of the
    dispatcher's choice [d] that had no active work and is qualified with the busy
    selected backend; otherwise both ledgers are untouched, and unless the call
    raises every pending request is still pending. *)
Theorem steal_only_head target mu du now now_ns s :
  sched_inv s → reservations (memory s) !! mu = None →
  DeviceResources.reservations (device s) !! du = None →
  match steal_next target mu du now now_ns (λ q, q) (λ q, q) s with
  | (Ok (Some a), s') =>
      is_head (adm_token a) (queue s) ∧
      requests (queue s') = delete (adm_token a) (requests (queue s)) ∧
      queued_active s' !! adm_token a = Some (adm_reservation a) ∧
      ∃ d, dispatch_decision (adm_request a) s = Ok d ∧
        target ∈ OperatorDispatch.fallback_chain d ∧
        DeviceResources.can_steal (OperatorDispatch.selected d) target (device s) = true
  | (Ok None, s') =>
      requests (queue s') = requests (queue s) ∧ memory s' = memory s ∧ device s' = device s
  | (Raise _, s') => memory s' = memory s ∧ device s' = device s
  end.
Proof.
  intros Hinv Hmu Hdu. unfold steal_next. destruct (_ || _) eqn:Eguard; [done|].
  destruct (peek_head (queue s) (si_queue _ Hinv)) as [Hpeek Hhead].
  unfold on_queue at 1, zoom. rewrite Hpeek. clear Hpeek.
  destruct (drop_dead _ _) as [|e h'] eqn:Hdd; [done|].
  destruct Hhead as (Hhead & r & Hr & Hclaim). rewrite Hr. cbn [fmap option_fmap option_map].
  set (s1 := with_queue (set_heap (e :: h') (queue s)) s).
  change (dispatch_decision r s1) with (dispatch_decision r s).
  destruct (dispatch_decision r s) as [d|err] eqn:Hd; [|done].
  destruct (bool_decide (target = _) || _ || _) eqn:Esteal; [done|]. breflect. change (device s1) with (device s) in *.
  unfold on_queue at 1, zoom. cbn [queue with_queue s1]. rewrite Hclaim.
  set (s2 := with_queue (claim e r h' (queue s)) _).
  assert (e_token e ∉ claimed (queue s)) as Hnc
    by (intros Hc%(qi_disjoint _ _ (si_queue _ Hinv)); congruence).
  pose proof (admit_selected_cases mu du now r target (Some (OperatorDispatch.selected d)) s2 Hmu
                (si_obs _ Hinv)) as Hcases.
  destruct (admit_selected mu du now r target _ s2) as [[res|err] s3].
  - destruct Hcases as (_ & m & dev & l & _ & _ & Hs & Ho & _).
    assert (Observability.obs_inv (obs s3)) as Hobs.
    { rewrite Ho. exact (Observability.run_obs_inv (Observability.ObsAssignment target) _
        (si_obs _ Hinv)). }
    unfold on_queue, zoom. cbn [queue with_queue with_queued].
    assert (queue s3 = claim e r h' (queue s) ∧ queued_active s3 = queued_active s) as [Hq3 Hqa3]
      by (by rewrite (same_but_obs_eq _ _ Hs)).
    rewrite Hq3, finish_after_claim.
    unfold bind, observe, zoom, ret. cbn [obs with_queue with_queued with_obs].
    pose proof (proj2 (Observability.queue_wait_total
      (claimed_wait_nanoseconds now_ns (e_token e) (claim e r h' (queue s))) _ Hobs)
      (wait_nonneg _ _ _)) as Hw.
    destruct (Observability.queue_wait _ (obs s3)) as [rw o]. cbn in Hw. subst rw. cbn.
    split; [done|]. split; [done|]. split; [apply lookup_insert_eq|]. by exists d.
  - destruct Hcases as [Hs _]. rewrite (same_but_obs_eq _ _ Hs).
    destruct (restore_after_claim e r h' (queue s) Hr Hnc) as (q' & Hrest & Hreq).
    destruct err; unfold bind, on_queue, zoom, ret, raise; cbn [queue with_queue with_obs s2];
      first [rewrite Hrest; done|rewrite finish_after_claim; done].
Qed.

(** *** Execution with fallback *)

Lemma prepare_transfers res id b s s' :
  device_resource_reservation_id res = Some id →
  prepare_backend (Some res) b s = (Ok (), s') →
  ∃ q, DeviceResources.for_backend b (bytes res) = Ok q ∧
       DeviceResources.reservations (device s') !! id = Some q.
Proof.
  intros Hid. unfold prepare_backend. rewrite Hid. unfold catch, bind, lift, on_device, zoom, ret.
  destruct (DeviceResources.for_backend b (bytes res)) as [q|e]; [|by destruct e].
  destruct (DeviceResources.transfer id q (device s)) as [[x|e] l] eqn:Ht.
  - intros [= <-]. exists q. split; [done|]. cbn. unfold DeviceResources.transfer in Ht.
    run_cases Ht. apply lookup_insert_eq.
  - by destruct e.
Qed.

Lemma observe_device {A} (m : Py Observability.SchedulingObservability A) s :
  device (observe m s).2 = device s.
Proof. unfold observe, zoom. by destruct (m (obs s)). Qed.

(** A callback that does not touch the device ledger. *)
Definition leaves_device {A} (m : Py Scheduler A) : Prop := ∀ s, device (m s).2 = device s.

(** The device resources held while a fallback executes are those of the
    backend that produced the result: when [execute_with_fallback] succeeds for a
    reservation, and the callbacks leave the ledger alone, the reservation's
    entry in the ledger is the request of the result's backend for its bytes. *)
Theorem fallback_holds_executing_backend {R} r
    (operation : ExecutionBackend → Py Scheduler R)
    (validate : option (R → ExecutionBackend → Py Scheduler bool)) res id s result s' :
  device_resource_reservation_id res = Some id →
  (∀ b, leaves_device (operation b)) →
  (∀ f v b, validate = Some f → leaves_device (f v b)) →
  execute_with_fallback r operation validate (Some res) s = (Ok result, s') →
  ∃ q, DeviceResources.for_backend (OperatorDispatch.res_backend result) (bytes res) = Ok q ∧
       DeviceResources.reservations (device s') !! id = Some q.
Proof.
  intros Hid Hop Hval Hrun. unfold execute_with_fallback, bind at 1, catch in Hrun.
  unfold bind at 1 in Hrun. destruct (dispatch_decision r s) as [d|e] eqn:Hd;
    [|exfalso; destruct e; cbn in Hrun; try discriminate Hrun;
      unfold bind, observe, zoom, raise in Hrun;
      destruct (Observability.fallback _ _ _) as [[?|?] ?]; discriminate Hrun].
  destruct (OperatorDispatch.execute operation validate _ d s) as [[x|e] s1] eqn:Hex;
    [|exfalso; destruct e; cbn in Hrun; try discriminate Hrun;
      unfold bind, observe, zoom, raise in Hrun;
      destruct (Observability.fallback _ _ _) as [[?|?] ?]; discriminate Hrun].
  assert (x = result ∧ device s' = device s1) as [-> ->].
  { unfold bind in Hrun.
    pose proof (observe_device (Observability.fallback
      (failed_attempts (OperatorDispatch.attempts x)) false) s1) as Hdev.
    destruct (observe _ s1) as [[?|?] s2]; [|done]. cbn in Hdev. unfold ret in Hrun. injection Hrun as <- <-. done. }
  unfold OperatorDispatch.execute in Hex. destruct (_ || _); [done|].
  destruct (OperatorDispatch.execute_chain_run operation validate (Some (prepare_backend (Some res)))
    (OperatorDispatch.selected d :: OperatorDispatch.fallback_chain d) [] s)
    as (tried & rest & atts & s2 & _ & _ & Hr).
  destruct rest as [|b rest]; [rewrite Hex in Hr; done|]. destruct Hr as [_ Hr]. rewrite Hex in Hr.
  destruct Hr as (-> & s3 & Hatt & Hv).
  cbn [OperatorDispatch.res_backend OperatorDispatch.value] in *.
  assert (device s1 = device s3) as ->.
  { unfold OperatorDispatch.validated in Hv. destruct validate as [f|]; [|unfold ret in Hv; injection Hv as ->; done].
    pose proof (Hval f (OperatorDispatch.value result) b eq_refl s3) as Hf. by rewrite Hv in Hf. }
  unfold OperatorDispatch.attempt, bind in Hatt. cbv beta iota in Hatt.
  destruct (prepare_backend (Some res) b s2) as [[[]|e] s4] eqn:Hp; [|done].
  pose proof (Hop b s4) as Ho. rewrite Hatt in Ho. cbn in Ho. rewrite Ho.
  by eapply prepare_transfers.
Qed.

(** ** Witnesses *)

Definition demo_hardware : HardwareInfo :=
  {| platform := "Darwin"; architecture := "arm64"; soc := "M4"; physical_cpu_count := 8;
     logical_cpu_count := 8; gpu_core_count := Some 10;
     hw_memory := {| total_bytes := 100; Types.available_bytes := 80; process_resident_bytes := 0;
                     mem_pressure := MP_NORMAL; mem_source := "test" |};
     is_apple_silicon := true; os_version := "26.0"; thermal_state := TS_NOMINAL;
     power_mode := PM_AUTOMATIC |}.
Definition demo_registry : KernelRegistry.KernelCapabilityRegistry :=
  (KernelRegistry.record (OperatorDispatch.demo_result NATIVE_MLX true)
     (KernelRegistry.mkRegistry "hw" "env" 512 ∅)).2.
Definition demo_scheduler : Scheduler :=
  match new_scheduler (λ _, "digest"%string) demo_hardware 100 (Some demo_registry) 8 with
  | Ok s => s
  | Raise _ => mkScheduler demo_hardware (mkController 0 0 ∅) DeviceResources.demo_ledger
                 None None None None None None demo_new ∅ Observability.new_observability
                 "automatic" (mkPolicy MP_NORMAL TS_NOMINAL PM_AUTOMATIC 0 1024 2147483647) None
  end.
Definition demo_work : ScheduleRequest := demo_request NORMAL.
Definition demo_submitted : Scheduler := (submit "t" 5 demo_work demo_scheduler).2.
Definition demo_admitted : Scheduler := (admit_selected "m" "d" 1 demo_work CPU None demo_scheduler).2.

Lemma demo_new_scheduler :
  new_scheduler (λ _, "digest"%string) demo_hardware 100 (Some demo_registry) 8 = Ok demo_scheduler.
Proof. reflexivity. Qed.

Lemma demo_inv : sched_inv demo_scheduler.
Proof. exact (new_scheduler_inv _ _ _ _ _ _ demo_new_scheduler). Qed.

Lemma demo_admit_step : sstep demo_scheduler demo_admitted.
Proof. apply st_admit; reflexivity. Qed.

Lemma demo_submit_step : sstep demo_scheduler demo_submitted.
Proof.
  apply (st_queue demo_scheduler (queue demo_submitted)).
  exists (Enqueue "t" 5 demo_work). split; [|reflexivity].
  split; [reflexivity|]. split; refine (bool_decide_eq_false_1 _ _); vm_compute; reflexivity.
Qed.

Lemma demo_submitted_inv : sched_inv demo_submitted.
Proof. exact (sstep_inv _ _ demo_inv demo_submit_step). Qed.

Lemma scheduler_safety_witness :
  reserved (memory demo_admitted) <= capacity (memory demo_admitted).
Proof.
  exact (proj1 (proj2 (scheduler_safety _ _ _ _ _ _ _ demo_new_scheduler
    (rtc_once _ _ demo_admit_step)))).
Defined.

(** Low-power preference, then back to automatic on the idle scheduler. *)
Definition demo_low_power : Scheduler := (set_scheduling_preference "low_power" demo_scheduler).2.

Lemma policy_relaxes_when_idle_witness :
  reservations (memory (set_scheduling_preference "automatic" demo_low_power).2) = ∅.
Proof.
  refine (proj1 (policy_relaxes_when_idle demo_low_power _ _ (st_preference "automatic" _) _)).
  - exact (sstep_inv _ _ demo_inv (st_preference "low_power" _)).
  - vm_compute. reflexivity.
Defined.

Definition demo_plan : AppleExecutionPlan :=
  let ph p := {| ph_phase := p; ph_backend := CPU; ph_batch_size := 1;
                 ph_state_precision := "fp16" |} in
  {| plan_schema_version := 1; plan_id := "p1"; plan_model_id := "m";
     plan_hardware_fingerprint := "hw"; context_tokens := 256; memory_ceiling_bytes := 100;
     estimated_peak_bytes := 90; prefill := ph PREFILL; decode := ph DECODE;
     plan_fallback_chain := []; decision_reasons := []; dry_run := false |}.

Lemma config_changes_at_safe_point_witness :
  reservations (memory demo_scheduler) = ∅ ∧
  reservations (memory (request_execution_plan demo_plan demo_scheduler).2) = ∅.
Proof.
  apply config_changes_at_safe_point.
  - exact demo_inv.
  - apply st_plan.
  - vm_compute. discriminate.
Defined.

Lemma admission_all_or_nothing_witness :
  reserved (memory demo_admitted) = reserved (memory demo_scheduler) + 10.
Proof.
  pose proof (admission_all_or_nothing "m" "d" 1 demo_work CPU None demo_scheduler
                demo_inv eq_refl) as H.
  unfold demo_admitted. destruct (admit_selected _ _ _ _ _ _ demo_scheduler) as [[res|e] s'] eqn:E.
  - exact (proj1 (proj2 (proj2 (proj2 (proj2 (proj2 H)))))).
  - exfalso. vm_compute in E. discriminate E.
Defined.

Lemma admit_complete_witness :
  ∃ res s2, (admit_selected "m" "d" 1 demo_work CPU None demo_scheduler).1 = Ok res ∧
    complete res demo_admitted = (Ok (), s2) ∧ memory s2 = memory demo_scheduler.
Proof.
  destruct (admit_complete "m" "d" 1 demo_work CPU None demo_scheduler
              (annotate (mkReservation "m" 10 B_CPU NORMAL 1 None None None None) "d"
                        demo_scheduler) demo_admitted)
    as (s2 & H1 & H2 & _); [exact demo_inv|reflexivity|reflexivity|reflexivity|reflexivity|].
  eexists _, s2. split; [reflexivity|]. split; [exact H1|exact H2].
Defined.

Lemma cancel_during_dispatch_witness :
  memory (admit_next (Some PyFloat.zero) PyFloat.zero [] "m" "d" 1 9 (λ s, s) (λ s, s)
            (λ q, (ScheduleQueue.cancel "t" q).2) demo_submitted).2 = memory demo_submitted.
Proof.
  pose proof (cancel_during_dispatch "t" demo_work (take_head (queue demo_submitted)).2 PyFloat.zero "m" "d" 1 9
    (λ q, (ScheduleQueue.cancel "t" q).2) demo_submitted demo_submitted_inv
    eq_refl eq_refl eq_refl ltac:(refine (bool_decide_eq_false_1 _ _); vm_compute; reflexivity)) as H.
  destruct (admit_next _ _ _ _ _ _ _ _ _ _ demo_submitted) as [r s']. exact (proj1 H).
Defined.

Definition demo_claim : res exn (option (option QueuedAdmission)) * Scheduler :=
  admit_next (Some PyFloat.zero) PyFloat.zero [] "m" "d" 1 9 (λ s, s) (λ s, s) (λ q, q) demo_submitted.

Lemma admit_then_cancel_witness :
  match demo_claim with
  | (Ok (Some (Some adm)), s1) =>
      ∃ s2, cancel "t" s1 = (Ok true, s2) ∧ memory s2 = memory demo_submitted
  | _ => False
  end.
Proof.
  destruct demo_claim as [[[[adm|]|]|e] s1] eqn:E;
    try (apply (f_equal (λ x, match x.1 with Ok (Some (Some _)) => true | _ => false end)) in E;
         vm_compute in E; discriminate E).
  destruct (admit_then_cancel "t" demo_work (take_head (queue demo_submitted)).2 PyFloat.zero "m" "d" 1 9
    demo_submitted adm s1 demo_submitted_inv eq_refl eq_refl eq_refl eq_refl E)
    as (_ & _ & _ & s2 & H1 & H2 & _).
  exists s2. split; [exact H1|exact H2].
Defined.

Lemma steal_only_head_witness :
  memory (steal_next NATIVE_MLX "m" "d" 1 9 (λ q, q) (λ q, q) demo_submitted).2
    = memory demo_submitted.
Proof.
  pose proof (steal_only_head NATIVE_MLX "m" "d" 1 9 demo_submitted demo_submitted_inv
                eq_refl eq_refl) as H.
  destruct (steal_next _ _ _ _ _ _ _ demo_submitted) as [[[a|]|e] s'] eqn:E.
  - exfalso. vm_compute in E. discriminate E.
  - exact (proj1 (proj2 H)).
  - exact (proj1 H).
Defined.

Definition demo_operation (b : ExecutionBackend) : Py Scheduler Z := ret 7.

Definition demo_reservation : Reservation :=
  annotate (mkReservation "m" 10 B_CPU NORMAL 1 None None None None) "d" demo_scheduler.
Definition demo_execution : res exn (OperatorDispatch.OperatorExecutionResult Z) * Scheduler :=
  execute_with_fallback demo_work demo_operation None (Some demo_reservation) demo_admitted.

Lemma fallback_holds_executing_backend_witness :
  match demo_execution with
  | (Ok result, s') => ∃ q, DeviceResources.reservations (device s') !! "d"%string = Some q
  | _ => False
  end.
Proof.
  destruct demo_execution as [[result|e] s'] eqn:E;
    try (apply (f_equal (λ x, match x.1 with Ok _ => true | _ => false end)) in E;
         vm_compute in E; discriminate E).
  destruct (fallback_holds_executing_backend demo_work demo_operation None demo_reservation
    "d" demo_admitted result s' eq_refl (λ _ _, eq_refl)
    (λ f v b (H : None = Some f), match H with end) E) as (q & _ & Hq).
  exists q. exact Hq.
Defined.

End SchedulerSafety.
