(* ===== verification/MemoryArena.v ===== *)
(** * Unified-memory arena (unified_memory_arena.py)

    A first-fit allocator over one anonymous mapping, with its free list, lease
    table, byte contents and zeroing on release.  Each method runs under the
    arena's lock and is one transition. *)

From S2P Require Import Prelude Types.

From stdpp Require Import sorting.
#[local] Open Scope Z_scope.

Module MemoryArena.

(** ** Data *)

Definition MAX_UNIFIED_MEMORY_ARENA_BYTES : Z := Z.shiftl 1 40.
Definition MAX_UNIFIED_MEMORY_ALLOCATIONS : Z := 65536.

(** [UnifiedMemoryLease]: the [view] is the range of the mapping. *)
Record UnifiedMemoryLease := mkLease {
  allocation_id : Z;
  offset : Z;
  lease_size : Z;
  released : bool;
}.

Record UnifiedMemoryArena := mkArena {
  capacity_bytes : Z;
  mapping : Z → Z;                    (* byte at each position of the mmap *)
  zero_on_release : bool;
  free : list (Z * Z);                (* (start, length) *)
  allocations : gmap Z (Z * Z);       (* id -> (offset, size) *)
  next_id : Z;
  allocated : Z;
  peak : Z;
  failed : Z;
  closed : bool;
}.

(** [__init__]: an anonymous mapping reads as zero. *)
Definition new_arena (capacity : Z) (zero : bool) : res exn UnifiedMemoryArena :=
  check ((4096 <=? capacity) && (capacity <=? MAX_UNIFIED_MEMORY_ARENA_BYTES))
    (ValueError "invalid Unified Memory arena capacity")
    (mkArena capacity (λ _, 0) zero [(0, capacity)] ∅ 1 0 0 0 false).

(** [_align] *)
Definition align (value alignment : Z) : Z := (value + alignment - 1) / alignment * alignment.

(** The loop of [allocate] over the free list: the offset found and the free
    list with the chosen range replaced by its prefix and suffix. *)
Fixpoint first_fit (size alignment : Z) (ranges : list (Z * Z)) : option (Z * list (Z * Z)) :=
  match ranges with
  | [] => None
  | (start, length) :: rest =>
      let off := align start alignment in
      let prefix := off - start in
      if prefix + size >? length
      then match first_fit size alignment rest with
           | Some (o, rest') => Some (o, (start, length) :: rest')
           | None => None
           end
      else
        let suffix_start := off + size in
        let suffix := start + length - suffix_start in
        Some (off, (if prefix =? 0 then [] else [(start, prefix)])
                   ++ (if suffix =? 0 then [] else [(suffix_start, suffix)]) ++ rest)
  end.

Definition count_failure (a : UnifiedMemoryArena) : UnifiedMemoryArena :=
  mkArena (capacity_bytes a) (mapping a) (zero_on_release a) (free a) (allocations a)
          (next_id a) (allocated a) (peak a) (failed a + 1) (closed a).

(** The arguments [allocate] accepts; [alignment & (alignment - 1)] is zero for
    powers of two. *)
Definition allocation_valid (size alignment : Z) (a : UnifiedMemoryArena) : bool :=
  (1 <=? size) && (size <=? capacity_bytes a) && (1 <=? alignment) && (alignment <=? 65536)
  && (Z.land alignment (alignment - 1) =? 0).

(** [allocate] *)
Definition allocate (size alignment : Z) : Py UnifiedMemoryArena UnifiedMemoryLease := λ a,
  if negb (allocation_valid size alignment a)
  then (Raise (ValueError "invalid Unified Memory allocation"), a)
  else if closed a then (Raise (RuntimeError "Unified Memory arena is closed"), a)
  else if Zsize (allocations a) >=? MAX_UNIFIED_MEMORY_ALLOCATIONS
  then (Raise (ValueError "Unified Memory allocation table is full"), count_failure a)
  else match first_fit size alignment (free a) with
       | Some (off, ranges) =>
           (Ok (mkLease (next_id a) off size false),
            mkArena (capacity_bytes a) (mapping a) (zero_on_release a) ranges
                    (<[next_id a := (off, size)]> (allocations a)) (next_id a + 1)
                    (allocated a + size) (Z.max (peak a) (allocated a + size)) (failed a)
                    (closed a))
       | None => (Raise (ValueError "Unified Memory arena has no aligned free range"),
                  count_failure a)
       end.

(** [m[start:start + count] = bytes(count)] *)
Definition fill (start count : Z) (m : Z → Z) : Z → Z :=
  λ i, if (start <=? i) && (i <? start + count) then 0 else m i.

(** The zeroing loop of [_release]: [chunk] bytes at a time.  A pass writes at
    least one byte, and [zero_range] starts it with a pass for every chunk. *)
Fixpoint zero_loop (fuel : nat) (chunk off size written : Z) (m : Z → Z) : Z → Z :=
  match fuel with
  | O => m
  | S fuel =>
      if written <? size then
        let count := Z.min chunk (size - written) in
        zero_loop fuel chunk off size (written + count) (fill (off + written) count m)
      else m
  end.
Definition zero_range (off size : Z) (m : Z → Z) : Z → Z :=
  let chunk := Z.min size 1048576 in
  zero_loop (Z.to_nat (size / chunk + 1)) chunk off size 0 m.

(** Tuple order of [list.sort]. *)
Definition range_le (r1 r2 : Z * Z) : Prop := r1.1 < r2.1 ∨ r1.1 = r2.1 ∧ r1.2 <= r2.2.
#[export] Instance range_le_dec : RelDecision range_le.
Proof. intros r1 r2. unfold range_le. apply _. Defined.

(** The coalescing loop of [_release]; [acc] is [coalesced] reversed. *)
Fixpoint coalesce_onto (acc ranges : list (Z * Z)) : list (Z * Z) :=
  match ranges with
  | [] => reverse acc
  | (start, length) :: rest =>
      match acc with
      | (previous_start, previous_length) :: acc' =>
          if previous_start + previous_length =? start
          then coalesce_onto ((previous_start, previous_length + length) :: acc') rest
          else coalesce_onto ((start, length) :: acc) rest
      | [] => coalesce_onto [(start, length)] rest
      end
  end.
Definition coalesce (ranges : list (Z * Z)) : list (Z * Z) := coalesce_onto [] ranges.

(** [UnifiedMemoryArena._release] *)
Definition release_allocation (id : Z) : Py UnifiedMemoryArena () := λ a,
  match allocations a !! id with
  | None => (Raise (RuntimeError "Unified Memory allocation is stale"), a)
  | Some (off, size) =>
      (Ok (), mkArena (capacity_bytes a)
                (if zero_on_release a then zero_range off size (mapping a) else mapping a)
                (zero_on_release a)
                (coalesce (merge_sort range_le (free a ++ [(off, size)])))
                (delete id (allocations a)) (next_id a) (allocated a - size) (peak a)
                (failed a) (closed a))
  end.

(** [UnifiedMemoryLease.release]: the lease after the call.  [exported] says whether
    other objects hold buffers of the view, which [memoryview.release] refuses. *)
Definition release (exported : bool) (l : UnifiedMemoryLease) : Py UnifiedMemoryArena UnifiedMemoryLease :=
  if released l then ret l
  else if exported then raise (BufferError "memoryview has exported buffers")
  else release_allocation (allocation_id l) ;;;
       ret (mkLease (allocation_id l) (offset l) (lease_size l) true).

(** A store through the view of a live lease. *)
Definition store (l : UnifiedMemoryLease) (i value : Z) : Py UnifiedMemoryArena () := λ a,
  if released l then (Raise (ValueError "operation forbidden on released memoryview object"), a)
  else if negb ((0 <=? i) && (i <? lease_size l))
  then (Raise (IndexError "index out of bounds on dimension 1"), a)
  else (Ok (), mkArena (capacity_bytes a)
                 (λ j, if j =? offset l + i then value else mapping a j)
                 (zero_on_release a) (free a) (allocations a) (next_id a) (allocated a)
                 (peak a) (failed a) (closed a)).

(** The loop of [trim_free_pages]; [madvise start length m] is the mapping after
    the system call, [None] when it fails. *)
Fixpoint trim_loop (page : Z) (madvise : Z → Z → (Z → Z) → option (Z → Z))
    (ranges : list (Z * Z)) (trimmed : Z) (m : Z → Z) : Z * (Z → Z) :=
  match ranges with
  | [] => (trimmed, m)
  | (start, length) :: rest =>
      let aligned_start := align start page in
      let aligned_end := (start + length) / page * page in
      if aligned_end <=? aligned_start then trim_loop page madvise rest trimmed m
      else match madvise aligned_start (aligned_end - aligned_start) m with
           | None => trim_loop page madvise rest trimmed m
           | Some m' =>
               trim_loop page madvise rest (trimmed + (aligned_end - aligned_start)) m'
           end
  end.

Definition set_mapping (m : Z → Z) (a : UnifiedMemoryArena) : UnifiedMemoryArena :=
  mkArena (capacity_bytes a) m (zero_on_release a) (free a) (allocations a) (next_id a)
          (allocated a) (peak a) (failed a) (closed a).

(** [trim_free_pages]; [advice] is [None] on a platform without the call. *)
Definition trim_free_pages (page : Z) (advice : option (Z → Z → (Z → Z) → option (Z → Z)))
    : Py UnifiedMemoryArena Z := λ a,
  if closed a then (Ok 0, a)
  else match advice with
       | None => (Ok 0, a)
       | Some madvise =>
           let '(trimmed, m) := trim_loop page madvise (free a) 0 (mapping a) in
           (Ok trimmed, set_mapping m a)
       end.

Record UnifiedMemoryArenaSnapshot := {
  snap_capacity_bytes : Z;
  snap_allocated_bytes : Z;
  snap_free_bytes : Z;
  snap_largest_free_range_bytes : Z;
  snap_allocation_count : Z;
  snap_peak_allocated_bytes : Z;
  snap_failed_allocations : Z;
  snap_fragmentation_bytes : Z;
}.

(** [snapshot] *)
Definition snapshot (a : UnifiedMemoryArena) : UnifiedMemoryArenaSnapshot :=
  let total := Zsum (snd <$> free a) in
  let largest := foldr Z.max 0 (snd <$> free a) in
  {| snap_capacity_bytes := capacity_bytes a;
     snap_allocated_bytes := allocated a;
     snap_free_bytes := total;
     snap_largest_free_range_bytes := largest;
     snap_allocation_count := Zsize (allocations a);
     snap_peak_allocated_bytes := peak a;
     snap_failed_allocations := failed a;
     snap_fragmentation_bytes := total - largest |}.

(** [close]; [exported] says whether buffers of the mapping are still held, for
    example by slices of released views, which [mmap.close] refuses. *)
Definition close (exported : bool) : Py UnifiedMemoryArena () := λ a,
  if negb (Zsize (allocations a) =? 0)
  then (Raise (RuntimeError "Unified Memory arena has active allocations"), a)
  else if negb (closed a) && exported
  then (Raise (BufferError "cannot close exported pointers exist"), a)
  else (Ok (), mkArena (capacity_bytes a) (mapping a) (zero_on_release a) (free a)
                       (allocations a) (next_id a) (allocated a) (peak a) (failed a) true).

(** ** Ranges *)

(** 1 when the range holds position [i], else 0. *)
Definition covers (i : Z) (r : Z * Z) : Z := if (r.1 <=? i) && (i <? r.1 + r.2) then 1 else 0.
Definition cover (i : Z) (ranges : list (Z * Z)) : Z := Zsum (covers i <$> ranges).
Definition total (ranges : list (Z * Z)) : Z := Zsum (snd <$> ranges).
(** Each range ends strictly before the next one starts. *)
Definition before (r1 r2 : Z * Z) : Prop := r1.1 + r1.2 < r2.1.
Definition separated (ranges : list (Z * Z)) : Prop := StronglySorted before ranges.
Definition positive_ranges (ranges : list (Z * Z)) : Prop := Forall (λ r, 0 < r.2) ranges.

#[local] Arguments covers : simpl never.
#[local] Arguments cover : simpl never.
#[local] Arguments total : simpl never.

Lemma covers_cases i r :
  (r.1 <= i < r.1 + r.2 ∧ covers i r = 1) ∨ (¬ (r.1 <= i < r.1 + r.2) ∧ covers i r = 0).
Proof.
  unfold covers. destruct (r.1 <=? i) eqn:E1, (i <? r.1 + r.2) eqn:E2; breflect; cbn;
    [left|right..]; split; lia.
Qed.

Lemma covers_nonneg i r : 0 <= covers i r.
Proof. destruct (covers_cases i r) as [[_ ->]|[_ ->]]; lia. Qed.

Lemma cover_nonneg i ranges : 0 <= cover i ranges.
Proof. apply Zsum_fmap_nonneg. intros. apply covers_nonneg. Qed.

Lemma cover_cons i r ranges : cover i (r :: ranges) = covers i r + cover i ranges.
Proof. reflexivity. Qed.

Lemma cover_app i l1 l2 : cover i (l1 ++ l2) = cover i l1 + cover i l2.
Proof. unfold cover. by rewrite fmap_app, Zsum_app. Qed.

Lemma total_app l1 l2 : total (l1 ++ l2) = total l1 + total l2.
Proof. unfold total. by rewrite fmap_app, Zsum_app. Qed.

Lemma cover_perm i l1 l2 : l1 ≡ₚ l2 → cover i l1 = cover i l2.
Proof. intros H. apply Zsum_perm. by rewrite H. Qed.

Lemma total_perm l1 l2 : l1 ≡ₚ l2 → total l1 = total l2.
Proof. intros H. apply Zsum_perm. by rewrite H. Qed.

Lemma cover_elem i ranges :
  1 <= cover i ranges ↔ ∃ r, r ∈ ranges ∧ r.1 <= i < r.1 + r.2.
Proof.
  split.
  - induction ranges as [|r ranges IH]; [done|]. rewrite cover_cons.
    destruct (covers_cases i r) as [[? _]|[_ ->]]; [intros _; exists r; set_solver|].
    intros (r' & ? & ?)%IH. exists r'. set_solver.
  - intros (r & Hr & Hi). etransitivity; [|apply (Zsum_elem_le (covers i) ranges r Hr)].
    + destruct (covers_cases i r) as [[_ ->]|[? _]]; lia.
    + intros. apply covers_nonneg.
Qed.

(** Ranges of a separated list are ordered: two of them never touch. *)
Lemma separated_disjoint ranges r1 r2 :
  separated ranges → r1 ∈ ranges → r2 ∈ ranges →
  r1 = r2 ∨ r1.1 + r1.2 < r2.1 ∨ r2.1 + r2.2 < r1.1.
Proof.
  induction 1 as [|r ranges Hs IH Hr]; [set_solver|]. rewrite Forall_forall in Hr.
  intros [->|?]%elem_of_cons [->|?]%elem_of_cons; unfold before in *; eauto.
Qed.

(** A span without gap lies in one range of a separated list. *)
Lemma span_in_one ranges lo hi :
  separated ranges → lo < hi → (∀ i, lo <= i < hi → 1 <= cover i ranges) →
  ∃ r, r ∈ ranges ∧ r.1 <= lo ∧ hi <= r.1 + r.2.
Proof.
  intros Hsep Hlt Hall. destruct (proj1 (cover_elem lo ranges) (Hall lo ltac:(lia))) as (r & Hr & Hlo).
  exists r. split; [done|]. split; [lia|].
  destruct (decide (hi <= r.1 + r.2)) as [|Hhi]; [done|]. exfalso.
  destruct (proj1 (cover_elem (r.1 + r.2) ranges) (Hall (r.1 + r.2) ltac:(lia))) as (r' & Hr' & Hi).
  destruct (separated_disjoint _ _ _ Hsep Hr Hr') as [<-|?]; lia.
Qed.

(** A separated list that covers exactly [0, n) is that one range. *)
Lemma separated_whole ranges n :
  separated ranges → positive_ranges ranges → 0 < n →
  (∀ i, cover i ranges = if (0 <=? i) && (i <? n) then 1 else 0) → ranges = [(0, n)].
Proof.
  intros Hsep Hpos Hn Hc.
  assert (Hin : ∀ r, r ∈ ranges → 0 <= r.1 ∧ r.1 + r.2 <= n).
  { intros r Hr. pose proof (proj1 (Forall_forall _ _) Hpos r Hr) as Hr0. cbn in Hr0.
    assert (∀ i, r.1 <= i < r.1 + r.2 → 0 <= i < n) as Hi.
    { intros i Hi. pose proof (proj2 (cover_elem i ranges) (ex_intro _ r (conj Hr Hi))) as Hc1.
      rewrite Hc in Hc1. destruct (_ && _) eqn:E; [breflect; lia|lia]. }
    pose proof (Hi r.1 ltac:(lia)). pose proof (Hi (r.1 + r.2 - 1) ltac:(lia)). lia. }
  destruct (span_in_one ranges 0 n Hsep Hn) as (r & Hr & Hlo & Hhi).
  { intros i Hi. rewrite Hc. destruct (_ && _) eqn:E; [lia|].
    rewrite andb_false_iff, Z.leb_gt, Z.ltb_ge in E. lia. }
  assert (∀ r', r' ∈ ranges → r' = (0, n)) as Hone.
  { assert (r = (0, n)) as -> by (destruct (Hin r Hr); destruct r as [s l]; cbn in *; f_equal; lia).
    intros r' Hr'. destruct (Hin r' Hr').
    pose proof (proj1 (Forall_forall _ _) Hpos r' Hr') as Hr0. cbn in Hr0.
    destruct (separated_disjoint _ _ _ Hsep Hr Hr') as [<-|?]; [done|]. cbn in *. lia. }
  destruct ranges as [|r1 [|r2 ranges]]; [set_solver| |].
  - by rewrite (Hone r1 ltac:(left)).
  - exfalso. apply StronglySorted_inv in Hsep as [_ [Hb _]%Forall_cons_1].
    rewrite (Hone r1 ltac:(left)), (Hone r2 ltac:(right; left)) in Hb. unfold before in Hb. cbn in Hb. lia.
Qed.

(** ** Alignment and the search *)

Lemma align_spec v k :
  0 < k → v <= align v k < v + k ∧ align v k mod k = 0 ∧
  ∀ o, v <= o → o mod k = 0 → align v k <= o.
Proof.
  intros Hk. unfold align. pose proof (Z.div_mod (v + k - 1) k ltac:(lia)) as Hd.
  pose proof (Z.mod_pos_bound (v + k - 1) k Hk).
  split; [nia|]. split; [apply Z.mod_mul; lia|].
  intros o Ho Hm. pose proof (Z.div_mod o k ltac:(lia)) as Hod. rewrite Hm in Hod.
  enough ((v + k - 1) / k <= o / k) by nia.
  assert ((v + k - 1) / k < o / k + 1); [|lia]. apply Z.div_lt_upper_bound; nia.
Qed.

(** The pieces left of a chosen range. *)
Definition pieces (off size start length : Z) : list (Z * Z) :=
  (if off - start =? 0 then [] else [(start, off - start)])
  ++ (if start + length - (off + size) =? 0 then [] else [(off + size, start + length - (off + size))]).

(** The search returns the lowest aligned place in the first range that has one. *)
Lemma first_fit_Some size al ranges o ranges' :
  first_fit size al ranges = Some (o, ranges') →
  ∃ pre post start length,
    ranges = pre ++ (start, length) :: post ∧ ranges' = pre ++ pieces o size start length ++ post ∧
    o = align start al ∧ o + size <= start + length.
Proof.
  revert ranges'. induction ranges as [|[s l] rest IH]; intros ranges'; [done|]. cbn.
  destruct (align s al - s + size >? l) eqn:E; breflect.
  - destruct (first_fit size al rest) as [[o' rest']|]; [|done]. intros [= -> <-].
    destruct (IH rest' eq_refl) as (pre & post & s' & l' & -> & -> & ? & ?).
    exists ((s, l) :: pre), post, s', l'. done.
  - intros [= <- <-]. exists [], rest, s, l. unfold pieces. rewrite <-app_assoc. cbn. split_and!; try done. lia.
Qed.

Lemma first_fit_None size al ranges start length :
  first_fit size al ranges = None → (start, length) ∈ ranges →
  start + length < align start al + size.
Proof.
  induction ranges as [|[s l] rest IH]; [set_solver|]. cbn.
  destruct (align s al - s + size >? l) eqn:E; breflect; [|done].
  destruct (first_fit size al rest) as [[o' rest']|]; [done|]. intros _ [[= -> ->]|?]%elem_of_cons; [lia|].
  by apply IH.
Qed.

Lemma pieces_cover i off size start length :
  start <= off → 0 < size → off + size <= start + length →
  cover i (pieces off size start length) + covers i (off, size) = covers i (start, length).
Proof.
  intros. unfold pieces. rewrite cover_app.
  assert (∀ r, cover i [r] = covers i r) as Hone by (intros; unfold cover; cbn; lia).
  assert (cover i [] = 0) as Hnil by done.
  destruct (off - start =? 0) eqn:E1, (start + length - (off + size) =? 0) eqn:E2; breflect;
    rewrite ?Hone, ?Hnil;
    repeat match goal with |- context [covers i ?r] => destruct (covers_cases i r) as [[? ->]|[? ->]] end;
    cbn in *; lia.
Qed.

Lemma pieces_total off size start length :
  total (pieces off size start length) = length - size.
Proof.
  unfold pieces, total. rewrite fmap_app, Zsum_app.
  destruct (off - start =? 0) eqn:E1, (start + length - (off + size) =? 0) eqn:E2; breflect; cbn; lia.
Qed.

Lemma pieces_in off size start length r :
  start <= off → 0 < size → off + size <= start + length → r ∈ pieces off size start length →
  0 < r.2 ∧ start <= r.1 ∧ r.1 + r.2 <= start + length.
Proof.
  intros ???. unfold pieces. rewrite elem_of_app.
  destruct (off - start =? 0) eqn:E1, (start + length - (off + size) =? 0) eqn:E2; breflect;
    rewrite ?list_elem_of_singleton, ?elem_of_nil; intros [?|?]; subst; cbn; try done; lia.
Qed.

Lemma pieces_separated off size start length :
  0 < size → separated (pieces off size start length).
Proof.
  intros. unfold pieces, separated.
  destruct (off - start =? 0), (start + length - (off + size) =? 0); cbn;
    repeat constructor. unfold before. cbn. lia.
Qed.

Lemma separated_app l1 l2 :
  separated (l1 ++ l2) ↔
  separated l1 ∧ separated l2 ∧ ∀ r1 r2, r1 ∈ l1 → r2 ∈ l2 → before r1 r2.
Proof.
  induction l1 as [|r l1 IH]; cbn.
  - split; [|by intros (_ & ? & _)]. intros. split; [constructor|]. split; [done|]. set_solver.
  - split.
    + intros [(?&?&?)%IH Hf]%StronglySorted_inv. apply Forall_app in Hf as [Hf1 Hf2].
      split; [by constructor|]. split; [done|].
      intros r1 r2 [->|?]%elem_of_cons ?; [by eapply Forall_forall in Hf2|eauto].
    + intros ([Hs1 Hf]%StronglySorted_inv & Hs2 & Hb). constructor.
      * apply IH. split; [done|]. split; [done|]. intros. apply Hb; [by right|done].
      * apply Forall_app. split; [done|]. apply Forall_forall. intros. apply Hb; [left|done].
Qed.

Lemma first_fit_separated size al ranges o ranges' :
  0 < al → 0 < size → separated ranges → positive_ranges ranges →
  first_fit size al ranges = Some (o, ranges') → separated ranges' ∧ positive_ranges ranges'.
Proof.
  intros Hal Hsize Hsep Hpos (pre & post & s & l & -> & -> & -> & Hfit)%first_fit_Some.
  destruct (align_spec s al Hal) as [[Hs _] _].
  pose proof (λ r, pieces_in (align s al) size s l r Hs Hsize Hfit) as Hin.
  apply separated_app in Hsep as (H1 & [H2 H2']%StronglySorted_inv & H12).
  rewrite Forall_forall in H2'. split.
  - apply separated_app. split; [done|]. split.
    + apply separated_app. split; [by apply pieces_separated|]. split; [done|].
      intros r1 r2 Hr1 Hr2. pose proof (Hin _ Hr1). pose proof (H2' _ Hr2). unfold before in *. cbn in *. lia.
    + intros r1 r2 Hr1 [Hr2|Hr2]%elem_of_app.
      * pose proof (Hin _ Hr2). pose proof (H12 r1 (s, l) Hr1 ltac:(left)). unfold before in *. cbn in *. lia.
      * apply H12; [done|by right].
  - unfold positive_ranges in *. rewrite !Forall_app, Forall_cons in Hpos. rewrite !Forall_app.
    destruct Hpos as (? & _ & ?). split_and!; try done. apply Forall_forall. intros r Hr. by apply Hin.
Qed.

(** ** Coalescing *)

Lemma positive_cons r ranges : positive_ranges (r :: ranges) ↔ 0 < r.2 ∧ positive_ranges ranges.
Proof. unfold positive_ranges. by rewrite Forall_cons. Qed.

Lemma coalesce_onto_cover i acc ranges :
  positive_ranges acc → positive_ranges ranges →
  cover i (coalesce_onto acc ranges) = cover i acc + cover i ranges.
Proof.
  revert acc. induction ranges as [|[s l] rest IH]; intros acc Ha Hr; cbn [coalesce_onto].
  - rewrite (cover_perm i (reverse acc) acc) by apply reverse_Permutation. change (cover i []) with 0. lia.
  - apply positive_cons in Hr as [Hl Hr]. cbn in Hl. destruct acc as [|[ps pl] acc].
    + rewrite IH by (rewrite ?positive_cons; done). rewrite !cover_cons. change (cover i []) with 0. lia.
    + apply positive_cons in Ha as [Hp Ha]. cbn in Hp. destruct (ps + pl =? s) eqn:E; breflect.
      * rewrite IH by (rewrite ?positive_cons; cbn; try split; done || lia). rewrite !cover_cons.
        repeat match goal with |- context [covers i ?r] => destruct (covers_cases i r) as [[? ->]|[? ->]] end;
          cbn in *; lia.
      * rewrite IH by (rewrite ?positive_cons; done). rewrite !cover_cons. lia.
Qed.

Lemma total_cons r ranges : total (r :: ranges) = r.2 + total ranges.
Proof. reflexivity. Qed.

Lemma coalesce_onto_total acc ranges :
  total (coalesce_onto acc ranges) = total acc + total ranges.
Proof.
  revert acc. induction ranges as [|[s l] rest IH]; intros acc; cbn [coalesce_onto].
  - rewrite (total_perm (reverse acc) acc) by apply reverse_Permutation. change (total []) with 0. lia.
  - destruct acc as [|[ps pl] acc]; [|destruct (ps + pl =? s)]; rewrite IH, !total_cons; cbn;
      change (total []) with 0; lia.
Qed.

(** Ranges in order that may touch but do not overlap. *)
Definition ordered (ranges : list (Z * Z)) : Prop :=
  StronglySorted (λ r1 r2, r1.1 + r1.2 <= r2.1) ranges.

Lemma coalesce_onto_separated acc ranges :
  separated (reverse acc) → positive_ranges acc → positive_ranges ranges → ordered ranges →
  (∀ r, r ∈ ranges → ∀ p, p ∈ acc → p.1 + p.2 <= r.1) →
  separated (coalesce_onto acc ranges) ∧ positive_ranges (coalesce_onto acc ranges).
Proof.
  revert acc. induction ranges as [|[s l] rest IH]; intros acc Hs Ha Hr Ho Hle; cbn [coalesce_onto].
  { split; [done|]. unfold positive_ranges. by rewrite reverse_Permutation. }
  apply positive_cons in Hr as [Hl Hr]. apply StronglySorted_inv in Ho as [Ho Hf].
  rewrite Forall_forall in Hf. cbn in Hl, Hf.
  destruct acc as [|[ps pl] acc].
  - apply IH; try done; [repeat constructor|by rewrite positive_cons|].
    intros r Hin p ->%list_elem_of_singleton. by apply Hf.
  - pose proof (Hle (s, l) ltac:(left) (ps, pl) ltac:(left)) as Hps. cbn in Hps.
    rewrite reverse_cons in Hs. apply separated_app in Hs as (Hs & _ & Hb).
    apply positive_cons in Ha as [Hp Ha]. cbn in Hp. destruct (ps + pl =? s) eqn:E; breflect.
    + apply IH; try done.
      * rewrite reverse_cons. apply separated_app. split; [done|]. split; [repeat constructor|].
        intros r1 r2 H1 ->%list_elem_of_singleton. specialize (Hb r1 (ps, pl) H1 ltac:(left)).
        unfold before in *. cbn in *. lia.
      * apply positive_cons. cbn. split; [lia|done].
      * intros r Hin p [->|?]%elem_of_cons; [cbn; specialize (Hf r Hin); lia|].
        apply Hle; by right.
    + apply IH; try done.
      * rewrite reverse_cons. apply separated_app. split.
        { rewrite reverse_cons. apply separated_app. split; [done|]. split; [repeat constructor|done]. }
        split; [repeat constructor|]. intros r1 r2 H1 ->%list_elem_of_singleton.
        rewrite elem_of_reverse in H1. apply elem_of_cons in H1 as [->|H1]; unfold before; cbn; [lia|].
        specialize (Hb r1 (ps, pl)). rewrite elem_of_reverse in Hb.
        specialize (Hb H1 ltac:(left)). unfold before in Hb. cbn in Hb. lia.
      * by rewrite !positive_cons.
      * intros r Hin p [->|Hp']%elem_of_cons; [by apply Hf|]. apply Hle; [by right|done].
Qed.

(** ** Zeroing *)

Lemma fill_spec start count m i :
  fill start count m i = 0 ∧ start <= i < start + count ∨
  fill start count m i = m i ∧ ¬ (start <= i < start + count).
Proof.
  unfold fill. destruct (start <=? i) eqn:E1, (i <? start + count) eqn:E2; breflect; cbn;
    [left|right..]; split; done || lia.
Qed.

Lemma zero_loop_spec fuel chunk off size written m i :
  1 <= chunk → 0 <= written → size - written <= Z.of_nat fuel * chunk →
  zero_loop fuel chunk off size written m i = 0 ∧ off + written <= i < off + size ∨
  zero_loop fuel chunk off size written m i = m i ∧ ¬ (off + written <= i < off + size).
Proof.
  revert written m. induction fuel as [|fuel IH]; intros written m Hc Hw Hf; cbn [zero_loop].
  { right. split; [done|lia]. }
  destruct (written <? size) eqn:E; breflect; [|right; split; [done|lia]].
  destruct (IH (written + Z.min chunk (size - written)) (fill (off + written)
    (Z.min chunk (size - written)) m)) as [[-> ?]|[-> ?]]; [lia..| |].
  - left. split; [done|lia].
  - destruct (fill_spec (off + written) (Z.min chunk (size - written)) m i) as [[-> ?]|[-> ?]];
      [left|right]; split; done || lia.
Qed.

Lemma zero_range_spec off size m i :
  1 <= size →
  zero_range off size m i = 0 ∧ off <= i < off + size ∨
  zero_range off size m i = m i ∧ ¬ (off <= i < off + size).
Proof.
  intros Hs. unfold zero_range. set (chunk := Z.min size 1048576).
  pose proof (Z.div_mod size chunk ltac:(lia)). pose proof (Z.mod_pos_bound size chunk ltac:(lia)).
  assert (0 <= size / chunk) by (apply Z.div_pos; lia).
  destruct (zero_loop_spec (Z.to_nat (size / chunk + 1)) chunk off size 0 m i)
    as [[-> ?]|[-> ?]]; [lia..|nia|left|right]; split; done || lia.
Qed.

(** ** Invariant *)

Definition inside (n i : Z) : Z := if (0 <=? i) && (i <? n) then 1 else 0.

Record arena_inv (a : UnifiedMemoryArena) : Prop := {
  ai_capacity : 4096 <= capacity_bytes a;
  ai_owner : ∀ i, cover i (free a) + map_sum (covers i) (allocations a)
                  = inside (capacity_bytes a) i;
  ai_separated : separated (free a);
  ai_positive : positive_ranges (free a);
  ai_alloc : ∀ id r, allocations a !! id = Some r → 0 < r.2 ∧ id < next_id a;
  ai_allocated : allocated a = map_sum snd (allocations a);
  ai_total : total (free a) + allocated a = capacity_bytes a;
  ai_peak : allocated a <= peak a <= capacity_bytes a;
  ai_table : Zsize (allocations a) <= MAX_UNIFIED_MEMORY_ALLOCATIONS;
  ai_zero : zero_on_release a = true → ∀ i, cover i (free a) = 1 → mapping a i = 0;
  ai_closed : closed a = true → allocations a = ∅;
}.

Lemma inside_le n i : 0 <= inside n i <= 1.
Proof. unfold inside. destruct (_ && _); lia. Qed.

Lemma allocs_cover_nonneg i a : 0 <= map_sum (covers i) (allocations a).
Proof. apply map_sum_nonneg. intros. apply covers_nonneg. Qed.

(** A position of a live allocation is in no free range. *)
Lemma live_not_free a id r i :
  arena_inv a → allocations a !! id = Some r → r.1 <= i < r.1 + r.2 →
  cover i (free a) = 0 ∧ inside (capacity_bytes a) i = 1.
Proof.
  intros Hinv Hr Hi. pose proof (ai_owner _ Hinv i). pose proof (inside_le (capacity_bytes a) i).
  pose proof (cover_nonneg i (free a)).
  pose proof (map_sum_elem (covers i) _ _ _ Hr ltac:(intros; apply covers_nonneg)).
  destruct (covers_cases i r) as [[_ ?]|[? _]]; lia.
Qed.

(** Two live allocations share no position. *)
Lemma live_disjoint a id1 id2 r1 r2 i :
  arena_inv a → allocations a !! id1 = Some r1 → allocations a !! id2 = Some r2 → id1 ≠ id2 →
  r1.1 <= i < r1.1 + r1.2 → ¬ (r2.1 <= i < r2.1 + r2.2).
Proof.
  intros Hinv H1 H2 Hne Hi Hi2. pose proof (ai_owner _ Hinv i).
  pose proof (inside_le (capacity_bytes a) i). pose proof (cover_nonneg i (free a)).
  pose proof (map_sum_two (covers i) _ _ _ _ _ H1 H2 Hne ltac:(intros; apply covers_nonneg)).
  destruct (covers_cases i r1) as [[_ ?]|[? _]], (covers_cases i r2) as [[_ ?]|[? _]]; lia.
Qed.

Lemma new_arena_inv c z a : new_arena c z = Ok a → arena_inv a.
Proof.
  unfold new_arena, check. destruct (_ && _) eqn:E; [|done]. intros [= <-]. breflect.
  constructor; cbn; rewrite ?map_sum_empty; try done; try lia.
  - intros i. rewrite map_sum_empty, cover_cons. change (cover i []) with 0. unfold inside.
    destruct (covers_cases i (0, c)) as [[? ->]|[? ->]], (0 <=? i) eqn:E1, (i <? c) eqn:E2;
      breflect; cbn in *; lia.
  - repeat constructor.
  - repeat constructor. cbn. lia.
  - rewrite total_cons. change (total []) with 0. cbn. lia.
Qed.

(** The branches of [allocate]. *)
Lemma allocate_cases size al a :
  match allocate size al a with
  | (Ok l, a') =>
      ∃ ranges, allocation_valid size al a = true ∧ closed a = false ∧
        Zsize (allocations a) < MAX_UNIFIED_MEMORY_ALLOCATIONS ∧
        first_fit size al (free a) = Some (offset l, ranges) ∧
        l = mkLease (next_id a) (offset l) size false ∧
        a' = mkArena (capacity_bytes a) (mapping a) (zero_on_release a) ranges
               (<[next_id a := (offset l, size)]> (allocations a)) (next_id a + 1)
               (allocated a + size) (Z.max (peak a) (allocated a + size)) (failed a) (closed a)
  | (Raise e, a') => a' = a ∨ a' = count_failure a
  end.
Proof.
  unfold allocate. destruct (allocation_valid size al a) eqn:Ev; [|by left]. cbn.
  destruct (closed a) eqn:Ec; [by left|].
  destruct (_ >=? _) eqn:Et; breflect; [by right|].
  destruct (first_fit size al (free a)) as [[o ranges]|] eqn:Ef; [|by right]. by exists ranges.
Qed.

Lemma count_failure_inv a : arena_inv a → arena_inv (count_failure a).
Proof. intros []. by constructor. Qed.

(** Taking the chosen place out of the free list. *)
Lemma first_fit_cover size al ranges o ranges' i :
  0 < al → 0 < size → first_fit size al ranges = Some (o, ranges') →
  cover i ranges' + covers i (o, size) = cover i ranges.
Proof.
  intros Hal Hs (pre & post & s & l & -> & -> & -> & Hfit)%first_fit_Some.
  destruct (align_spec s al Hal) as [[? _] _].
  pose proof (pieces_cover i (align s al) size s l ltac:(lia) Hs Hfit).
  rewrite !cover_app, cover_cons. lia.
Qed.

Lemma first_fit_total size al ranges o ranges' :
  first_fit size al ranges = Some (o, ranges') → total ranges' + size = total ranges.
Proof.
  intros (pre & post & s & l & -> & -> & _ & _)%first_fit_Some.
  rewrite !total_app, total_cons, pieces_total. cbn. lia.
Qed.

Lemma allocate_inv size al a : arena_inv a → arena_inv (allocate size al a).2.
Proof.
  intros Hinv. pose proof (allocate_cases size al a) as H.
  destruct (allocate size al a) as [[l|e] a']; cbn; [|destruct H as [->| ->]; [done|by apply count_failure_inv]].
  destruct H as (ranges & Hv & Hc & Ht & Hf & Hl & ->). unfold allocation_valid in Hv. breflect.
  assert (allocations a !! next_id a = None) as Hnew.
  { destruct (allocations a !! next_id a) as [r|] eqn:E; [|done].
    destruct (ai_alloc _ Hinv _ _ E). lia. }
  pose proof (λ i, first_fit_cover size al _ _ _ i ltac:(lia) ltac:(lia) Hf) as Hcov.
  pose proof (first_fit_total _ _ _ _ _ Hf) as Htot.
  destruct (first_fit_separated size al _ _ _ ltac:(lia) ltac:(lia) (ai_separated _ Hinv) (ai_positive _ Hinv) Hf)
    as [Hsep Hpos].
  assert (0 <= total ranges) as Htn.
  { apply Zsum_fmap_nonneg. intros r Hr. pose proof (proj1 (Forall_forall _ _) Hpos r Hr). cbn in *. lia. }
  destruct Hinv. constructor; cbn; try done.
  - intros i. rewrite map_sum_insert by done. rewrite <-ai_owner0, <-(Hcov i). lia.
  - intros id r [[<- <-]|[_ Hr]]%lookup_insert_Some; cbn; [lia|]. destruct (ai_alloc0 _ _ Hr). lia.
  - rewrite map_sum_insert by done. cbn. lia.
  - lia.
  - lia.
  - rewrite Zsize_insert_fresh by done. lia.
  - intros Hz i Hi. apply ai_zero0; [done|]. pose proof (Hcov i). pose proof (covers_nonneg i (offset l, size)).
    pose proof (ai_owner0 i). pose proof (inside_le (capacity_bytes a) i).
    assert (0 <= map_sum (covers i) (allocations a)) by (apply map_sum_nonneg; intros; apply covers_nonneg). lia.
  - congruence.
Qed.

#[export] Instance range_le_total : Total range_le.
Proof. intros r1 r2. unfold range_le. lia. Qed.
#[export] Instance range_le_trans : Transitive range_le.
Proof. intros r1 r2 r3. unfold range_le. lia. Qed.

(** Sorting ranges that overlap nowhere leaves them one after the other. *)
Lemma sorted_ordered ranges :
  StronglySorted range_le ranges → positive_ranges ranges → (∀ i, cover i ranges <= 1) →
  ordered ranges.
Proof.
  induction 1 as [|r ranges Hs IH Hf]; intros Hp Hc; constructor.
  - apply positive_cons in Hp as [_ Hp]. apply IH; [done|]. intros i. specialize (Hc i).
    rewrite cover_cons in Hc. pose proof (covers_nonneg i r). lia.
  - apply positive_cons in Hp as [Hr Hp]. apply Forall_forall. intros r' Hr'.
    pose proof (proj1 (Forall_forall _ _) Hf r' Hr') as Hle.
    pose proof (proj1 (Forall_forall _ _) Hp r' Hr') as Hr0. cbn in Hr0. unfold range_le in Hle.
    destruct (decide (r.1 + r.2 <= r'.1)) as [|Hlt]; [done|]. exfalso. specialize (Hc r'.1).
    rewrite cover_cons in Hc. assert (1 <= cover r'.1 ranges) by (apply cover_elem; exists r'; split; [done|lia]).
    destruct (covers_cases r'.1 r) as [[_ ?]|[? _]]; lia.
Qed.

(** The free list after a release: coverage, size and separation. *)
Lemma returned_range ranges off size :
  separated ranges → positive_ranges ranges → 0 < size →
  (∀ i, cover i ranges + covers i (off, size) <= 1) →
  let ranges' := coalesce (merge_sort range_le (ranges ++ [(off, size)])) in
  (∀ i, cover i ranges' = cover i ranges + covers i (off, size)) ∧
  total ranges' = total ranges + size ∧ separated ranges' ∧ positive_ranges ranges'.
Proof.
  intros Hs Hp Hsize Hc. cbn zeta.
  pose proof (merge_sort_Permutation range_le (ranges ++ [(off, size)])) as Hperm.
  set (sorted := merge_sort range_le (ranges ++ [(off, size)])) in *.
  assert (positive_ranges sorted) as Hps.
  { unfold positive_ranges. rewrite Hperm, Forall_app. split; [done|]. by repeat constructor. }
  assert (∀ i, cover i sorted = cover i ranges + covers i (off, size)) as Hcs.
  { intros i. rewrite (cover_perm i _ _ Hperm), cover_app, cover_cons. change (cover i []) with 0. lia. }
  split; [|split].
  - intros i. unfold coalesce. rewrite coalesce_onto_cover; [|constructor|done].
    rewrite Hcs. change (cover i []) with 0. lia.
  - unfold coalesce. rewrite coalesce_onto_total, (total_perm _ _ Hperm), total_app, total_cons.
    change (total []) with 0. cbn. lia.
  - apply coalesce_onto_separated; [constructor|constructor|done| |set_solver].
    apply sorted_ordered; [|done|intros i; rewrite Hcs; apply Hc].
    apply Sorted_StronglySorted; [apply _|]. apply (Sorted_merge_sort range_le).
Qed.

Lemma release_allocation_inv id a : arena_inv a → arena_inv (release_allocation id a).2.
Proof.
  intros Hinv. unfold release_allocation.
  destruct (allocations a !! id) as [[off size]|] eqn:Hid; [|done]. cbn.
  destruct (ai_alloc _ Hinv _ _ Hid) as [Hsize _]. cbn in Hsize.
  assert (∀ i, cover i (free a) + map_sum (covers i) (delete id (allocations a))
               + covers i (off, size) = inside (capacity_bytes a) i) as Hown.
  { intros i. rewrite (map_sum_delete _ _ _ _ Hid). pose proof (ai_owner _ Hinv i). lia. }
  assert (∀ i, 0 <= map_sum (covers i) (delete id (allocations a))) as Hnn.
  { intros i. apply map_sum_nonneg. intros. apply covers_nonneg. }
  destruct (returned_range (free a) off size) as (Hc & Ht & Hs & Hp);
    [apply Hinv|apply Hinv|done| |].
  { intros i. specialize (Hown i). specialize (Hnn i). pose proof (inside_le (capacity_bytes a) i). lia. }
  destruct Hinv. constructor; cbn; try done.
  - intros i. rewrite Hc. specialize (Hown i). lia.
  - intros id' r [_ Hr]%lookup_delete_Some. eauto.
  - rewrite (map_sum_delete _ _ _ _ Hid). cbn. lia.
  - lia.
  - lia.
  - rewrite (Zsize_delete _ _ _ Hid). lia.
  - intros Hz i Hi. rewrite Hz. rewrite Hc in Hi.
    destruct (zero_range_spec off size (mapping a) i ltac:(lia)) as [[-> _]|[-> Hout]]; [done|].
    apply ai_zero0; [done|]. destruct (covers_cases i (off, size)) as [[? _]|[_ ?]]; [done|lia].
  - intros Hcl. rewrite (ai_closed0 Hcl) in Hid. done.
Qed.

Lemma set_mapping_inv m a :
  arena_inv a → (∀ i, cover i (free a) = 1 → m i = mapping a i ∨ m i = 0) →
  arena_inv (set_mapping m a).
Proof.
  intros [] Hm. constructor; cbn; try done. intros Hz i Hi.
  destruct (Hm i Hi) as [->| ->]; [by apply ai_zero0|done].
Qed.

(** What the code relies on from [madvise]: inside the advised range a byte is
    kept or reads as zero, outside it nothing changes. *)
Definition advice_ok (advice : option (Z → Z → (Z → Z) → option (Z → Z))) : Prop :=
  ∀ f start length m m', advice = Some f → f start length m = Some m' →
  ∀ i, m' i = m i ∨ start <= i < start + length ∧ m' i = 0.

Lemma trim_loop_spec page f ranges trimmed m :
  0 < page → advice_ok (Some f) →
  ∀ i, (trim_loop page f ranges trimmed m).2 i = m i ∨
       1 <= cover i ranges ∧ (trim_loop page f ranges trimmed m).2 i = 0.
Proof.
  intros Hpage Hf. revert trimmed m. induction ranges as [|[s l] rest IH]; intros trimmed m i;
    cbn [trim_loop]; [by left|]. rewrite cover_cons. pose proof (covers_nonneg i (s, l)).
  destruct (_ <=? _) eqn:E.
  { destruct (IH trimmed m i) as [->|[? ->]]; [by left|right; split; [lia|done]]. }
  breflect. destruct (f _ _ m) as [m'|] eqn:Ef.
  - pose proof (Hf _ _ _ _ _ eq_refl Ef i) as Hm. destruct (align_spec s page Hpage) as [[? _] _].
    assert ((s + l) / page * page <= s + l) by (pose proof (Z.mul_div_le (s + l) page); lia).
    destruct (IH (trimmed + ((s + l) / page * page - align s page)) m' i) as [->|[? ->]];
      [|right; split; [lia|done]].
    destruct Hm as [->|[? ->]]; [by left|]. right. split; [|done].
    pose proof (cover_nonneg i rest). destruct (covers_cases i (s, l)) as [[_ ?]|[Hn _]]; [lia|].
    cbn in Hn. lia.
  - destruct (IH trimmed m i) as [->|[? ->]]; [by left|right; split; [lia|done]].
Qed.

Lemma trim_mapping page advice a :
  0 < page → advice_ok advice →
  ∃ m, (trim_free_pages page advice a).2 = set_mapping m a ∧
    ∀ i, m i = mapping a i ∨ 1 <= cover i (free a) ∧ m i = 0.
Proof.
  intros Hp Hok. unfold trim_free_pages.
  assert (a = set_mapping (mapping a) a) as Hself by (by destruct a).
  destruct (closed a); [exists (mapping a); eauto|].
  destruct advice as [f|]; [|exists (mapping a); eauto].
  pose proof (trim_loop_spec page f (free a) 0 (mapping a) Hp Hok) as Hs.
  destruct (trim_loop _ _ _ _ _) as [n m]. exists m. done.
Qed.

Lemma trim_ok page advice a : is_ok (trim_free_pages page advice a).1 = true.
Proof.
  unfold trim_free_pages. destruct (closed a); [done|]. destruct advice as [f|]; [|done].
  by destruct (trim_loop _ _ _ _ _).
Qed.

Lemma trim_inv page advice a :
  0 < page → advice_ok advice → arena_inv a → arena_inv (trim_free_pages page advice a).2.
Proof.
  intros Hp Hok Hinv. destruct (trim_mapping page advice a Hp Hok) as (m & -> & Hm).
  apply set_mapping_inv; [done|]. intros i _. destruct (Hm i) as [?|[_ ?]]; eauto.
Qed.

(** What a successful allocation hands out. *)
Lemma allocate_ok size al a l a' :
  arena_inv a → allocate size al a = (Ok l, a') →
  released l = false ∧ lease_size l = size ∧ capacity_bytes a' = capacity_bytes a ∧
  zero_on_release a' = zero_on_release a ∧ closed a' = closed a ∧
  (zero_on_release a = true → ∀ i, offset l <= i < offset l + size → mapping a' i = 0).
Proof.
  intros Hinv Hrun. pose proof (allocate_cases size al a) as H. rewrite Hrun in H.
  destruct H as (ranges & Hv & _ & _ & Hf & Hl & ->). rewrite Hl. cbn. split_and!; try done.
  intros Hz i Hi. unfold allocation_valid in Hv. breflect. apply (ai_zero _ Hinv); [done|].
  pose proof (first_fit_cover size al _ _ _ i ltac:(lia) ltac:(lia) Hf) as Hcov.
  pose proof (ai_owner _ Hinv i). pose proof (inside_le (capacity_bytes a) i).
  pose proof (cover_nonneg i ranges). pose proof (allocs_cover_nonneg i a).
  destruct (covers_cases i (offset l, size)) as [[_ ?]|[Hn _]]; [lia|cbn in Hn; lia].
Qed.

Lemma allocate_raise size al a e a' :
  allocate size al a = (Raise e, a') →
  (a' = a ∨ a' = count_failure a) ∧ (allocate size al a').1 = Raise e ∧
  (closed a = true ∧ e = RuntimeError "Unified Memory arena is closed" ∨ ∃ m, e = ValueError m).
Proof.
  intros Hrun. pose proof (allocate_cases size al a) as H. rewrite Hrun in H.
  split; [done|]. split.
  - destruct H as [->| ->]; [by rewrite Hrun|]. revert Hrun. unfold allocate, count_failure, allocation_valid.
    cbn. repeat case_match; intros; by simplify_eq.
  - revert Hrun. unfold allocate. destruct (negb _); [intros [= <- _]; eauto|].
    destruct (closed a); [intros [= <- _]; eauto|]. repeat case_match; intros [= <- _]; eauto.
Qed.

Lemma close_inv x a : arena_inv a → arena_inv (close x a).2.
Proof.
  intros Hinv. unfold close. destruct (_ =? 0) eqn:E; cbn; [|done]. breflect.
  destruct (_ && x); [done|].
  apply Zsize_empty_iff in E. destruct Hinv. by constructor.
Qed.

(** ** The arena and the leases handed out *)

Record Sys := mkSys { arena : UnifiedMemoryArena; leases : list UnifiedMemoryLease }.

Inductive sys_step : Sys → Sys → Prop :=
| sys_allocate size al s :
    sys_step s (mkSys (allocate size al (arena s)).2
                  (match (allocate size al (arena s)).1 with
                   | Ok l => leases s ++ [l] | Raise _ => leases s end))
| sys_release x n l s :
    leases s !! n = Some l →
    sys_step s (mkSys (release x l (arena s)).2
                  (match (release x l (arena s)).1 with
                   | Ok l' => <[n := l']> (leases s) | Raise _ => leases s end))
| sys_store n l i v s :
    leases s !! n = Some l → sys_step s (mkSys (store l i v (arena s)).2 (leases s))
| sys_trim page advice s :
    0 < page → advice_ok advice →
    sys_step s (mkSys (trim_free_pages page advice (arena s)).2 (leases s))
| sys_close x s : sys_step s (mkSys (close x (arena s)).2 (leases s)).

(** A lease not yet released is backed by its own entry of the table. *)
Definition lease_live (a : UnifiedMemoryArena) (l : UnifiedMemoryLease) : Prop :=
  released l = false → allocations a !! allocation_id l = Some (offset l, lease_size l).

Record sys_inv (s : Sys) : Prop := {
  sy_arena : arena_inv (arena s);
  sy_ids : NoDup (allocation_id <$> leases s);
  sy_known : ∀ l, l ∈ leases s → allocation_id l < next_id (arena s) ∧ lease_live (arena s) l;
  sy_owned : ∀ id r, allocations (arena s) !! id = Some r →
             ∃ l, l ∈ leases s ∧ allocation_id l = id ∧ released l = false;
}.

Lemma release_cases x l a :
  match release x l a with
  | (Ok l', a') => l' = mkLease (allocation_id l) (offset l) (lease_size l) true ∧
                   (released l = true ∧ a' = a ∧ l' = l ∨
                    released l = false ∧ a' = (release_allocation (allocation_id l) a).2)
  | (Raise e, a') => released l = false ∧ (x = true ∨ allocations a !! allocation_id l = None) ∧ a' = a
  end.
Proof.
  unfold release. destruct (released l) eqn:E.
  - cbn. destruct l; cbn in *; subst. auto.
  - destruct x; [cbn; auto|]. unfold bind, release_allocation.
    destruct (allocations a !! _) as [[o z]|] eqn:Ha; cbn; auto.
Qed.

Lemma release_allocation_allocations id a :
  allocations (release_allocation id a).2 = delete id (allocations a) ∧
  next_id (release_allocation id a).2 = next_id a.
Proof.
  unfold release_allocation. destruct (allocations a !! id) as [[o z]|] eqn:E; [done|].
  by rewrite delete_id.
Qed.

Lemma sys_allocate_inv size al s s' :
  sys_inv s →
  s' = mkSys (allocate size al (arena s)).2
         (match (allocate size al (arena s)).1 with Ok l => leases s ++ [l] | Raise _ => leases s end) →
  sys_inv s'.
Proof.
  intros [Ha Hn Hk Ho] ->. pose proof (allocate_inv size al _ Ha) as Ha'.
  pose proof (allocate_cases size al (arena s)) as H.
  destruct (allocate size al (arena s)) as [[l|e] a']; cbn in *; [|by destruct H as [->| ->]].
  destruct H as (ranges & _ & _ & _ & _ & -> & ->). constructor; cbn in *; [done| | |].
  - rewrite fmap_app. apply NoDup_app. split; [done|]. cbn. split; [|apply NoDup_singleton].
    intros id (l' & He & Hl')%list_elem_of_fmap Hid%list_elem_of_singleton.
    destruct (Hk _ Hl') as [Hlt _]. cbn in *. lia.
  - intros l' [Hl'| ->%list_elem_of_singleton]%elem_of_app.
    + destruct (Hk _ Hl') as [Hlt Hlive]. split; [cbn; lia|]. intros Hr. cbn.
      rewrite lookup_insert_ne by lia. by apply Hlive.
    + split; [cbn; lia|]. intros _. cbn. apply lookup_insert_eq.
  - intros id r [[<- <-]|[_ Hr]]%lookup_insert_Some.
    + eexists. split; [apply elem_of_app; right; by left|]. done.
    + destruct (Ho _ _ Hr) as (l' & ? & ?). exists l'. split; [set_solver|done].
Qed.

Lemma leases_ids_inj s n1 n2 l1 l2 :
  sys_inv s → leases s !! n1 = Some l1 → leases s !! n2 = Some l2 →
  allocation_id l1 = allocation_id l2 → n1 = n2.
Proof.
  intros Hinv H1 H2 He. apply (NoDup_lookup _ n1 n2 (allocation_id l1) (sy_ids _ Hinv)).
  - by rewrite list_lookup_fmap, H1.
  - by rewrite list_lookup_fmap, H2, He.
Qed.

Lemma sys_release_inv x n l s s' :
  sys_inv s → leases s !! n = Some l →
  s' = mkSys (release x l (arena s)).2
         (match (release x l (arena s)).1 with Ok l' => <[n := l']> (leases s) | Raise _ => leases s end) →
  sys_inv s'.
Proof.
  intros Hinv Hl ->. pose proof (release_cases x l (arena s)) as H.
  destruct (release x l (arena s)) as [[l'|e] a']; cbn [fst snd].
  - destruct H as [-> [(Hr & -> & Heq)|(Hr & ->)]].
    { rewrite Heq, list_insert_id by done. by destruct s. }
    destruct (release_allocation_allocations (allocation_id l) (arena s)) as [Had Hnx].
    pose proof (release_allocation_inv (allocation_id l) _ (sy_arena _ Hinv)) as Ha'.
    constructor; cbn [arena leases]; [done| | |].
    + rewrite list_fmap_insert. cbn. rewrite list_insert_id; [apply Hinv|].
      by rewrite list_lookup_fmap, Hl.
    + rewrite Hnx. intros l0 (n0 & H0)%list_elem_of_lookup. destruct (decide (n = n0)) as [<-|Hne].
      * rewrite list_lookup_insert_eq in H0 by (by eapply lookup_lt_Some).
        injection H0 as <-. split; [|done].
        by destruct (sy_known _ Hinv l (list_elem_of_lookup_2 _ _ _ Hl)).
      * rewrite list_lookup_insert_ne in H0 by done.
        destruct (sy_known _ Hinv l0 (list_elem_of_lookup_2 _ _ _ H0)) as [? Hlive].
        split; [done|]. intros Hr0. rewrite Had, lookup_delete_ne; [by apply Hlive|].
        intros He. apply Hne. by eapply (leases_ids_inj s n n0 l l0).
    + rewrite Had. intros id r [Hid Hr']%lookup_delete_Some.
      destruct (sy_owned _ Hinv _ _ Hr') as (l0 & (n0 & H0)%list_elem_of_lookup & He & Hr0).
      exists l0. split; [|done]. apply list_elem_of_lookup. exists n0.
      rewrite list_lookup_insert_ne; [done|]. intros <-. congruence.
  - destruct H as (Hr & Hnone & ->). by destruct s.
Qed.

(** Steps that leave the table, the leases and the identifiers alone. *)
Lemma sys_frame_inv a' s :
  sys_inv s → arena_inv a' → allocations a' = allocations (arena s) →
  next_id a' = next_id (arena s) → sys_inv (mkSys a' (leases s)).
Proof.
  intros [Ha Hn Hk Ho] Ha' Hal Hnx. constructor; cbn; [done|done| |by rewrite Hal].
  rewrite Hnx. intros l Hl. destruct (Hk l Hl). unfold lease_live. by rewrite Hal.
Qed.

Lemma store_cases l i v a :
  (store l i v a).2 = a ∨
  released l = false ∧ 0 <= i < lease_size l ∧
  (store l i v a).2 = set_mapping (λ j, if j =? offset l + i then v else mapping a j) a.
Proof.
  unfold store. destruct (released l); [by left|].
  destruct (0 <=? i) eqn:E1, (i <? lease_size l) eqn:E2; breflect; cbn; try (by left).
  right. done.
Qed.

Lemma sys_step_inv s s' : sys_inv s → sys_step s s' → sys_inv s'.
Proof.
  intros Hinv Hstep. pose proof (sy_arena _ Hinv) as Ha.
  destruct Hstep as [size al s|x n l s Hl|n l i v s Hl|page advice s Hp Hok|x s].
  - by eapply sys_allocate_inv.
  - by eapply sys_release_inv.
  - destruct (store_cases l i v (arena s)) as [->|(Hr & Hi & ->)]; [by destruct s|].
    apply sys_frame_inv; try done. apply set_mapping_inv; [done|]. intros j Hj.
    destruct (sy_known _ Hinv l (list_elem_of_lookup_2 _ _ _ Hl)) as [_ Hlive].
    destruct (j =? offset l + i) eqn:E; [|by left]. breflect. subst j.
    destruct (live_not_free _ _ _ (offset l + i) Ha (Hlive Hr) ltac:(cbn; lia)). lia.
  - destruct (trim_mapping page advice (arena s) Hp Hok) as (m & Heq & Hm).
    rewrite Heq. apply sys_frame_inv; try done. rewrite <-Heq. by apply trim_inv.
  - pose proof (close_inv x _ Ha) as Ha'. unfold close in *. destruct (negb _); [by destruct s|].
    destruct (_ && x); [by destruct s|].
    by apply sys_frame_inv.
Qed.

Lemma sys_run_inv c z a0 s : new_arena c z = Ok a0 → rtc sys_step (mkSys a0 []) s → sys_inv s.
Proof.
  intros Hnew Hrun. apply (rtc_invariant sys_step sys_inv (mkSys a0 []) s sys_step_inv); [|exact Hrun].
  constructor; cbn; [by eapply new_arena_inv|constructor|set_solver|].
  unfold new_arena, check in Hnew. destruct (_ && _); [|done]. injection Hnew as <-. done.
Qed.

(** A released lease can be forgotten. *)
Lemma sys_drop_inv a l1 l l2 :
  sys_inv (mkSys a (l1 ++ l :: l2)) → released l = true → sys_inv (mkSys a (l1 ++ l2)).
Proof.
  intros [Ha Hn Hk Ho] Hr. constructor; cbn in *; [done| | |].
  - rewrite fmap_app in Hn |- *. cbn in Hn. rewrite <-Permutation_middle in Hn.
    by apply NoDup_cons in Hn as [_ ?].
  - intros l' Hl'. apply Hk. set_solver.
  - intros id r (l' & Hl' & He & Hf)%Ho. exists l'. split; [|done].
    rewrite elem_of_app, elem_of_cons in Hl'. rewrite elem_of_app.
    destruct Hl' as [?|[->|?]]; [by left|congruence|by right].
Qed.

(** Parameters of an arena that no operation but [close] changes. *)
Definition same_config (a a' : UnifiedMemoryArena) : Prop :=
  capacity_bytes a' = capacity_bytes a ∧ zero_on_release a' = zero_on_release a ∧
  closed a' = closed a.

(** Releasing an unreleased lease of the system succeeds and removes it. *)
Lemma sys_release_drop a l1 l l2 :
  sys_inv (mkSys a (l1 ++ l :: l2)) → released l = false →
  ∃ l' a', release false l a = (Ok l', a') ∧ sys_inv (mkSys a' (l1 ++ l2)) ∧ same_config a a'.
Proof.
  intros Hinv Hr.
  assert ((l1 ++ l :: l2) !! length l1 = Some l) as Hl by apply list_lookup_middle, eq_refl.
  pose proof (sys_release_inv false (length l1) l (mkSys a (l1 ++ l :: l2)) _ Hinv Hl eq_refl) as Hinv'.
  destruct (sy_known _ Hinv l ltac:(set_solver)) as [_ Hlive]. specialize (Hlive Hr). cbn in Hlive.
  pose proof (release_cases false l a) as Hcases. cbn [arena leases] in Hinv'.
  destruct (release false l a) as [[l'|e] a']; cbn [fst snd] in *; [|destruct Hcases as (_ & [?|?] & _); congruence].
  exists l', a'. split; [done|]. destruct Hcases as [-> [(? & _)|(_ & ->)]]; [congruence|]. split.
  - rewrite insert_app_r_alt in Hinv' by lia. rewrite Nat.sub_diag in Hinv'. cbn in Hinv'.
    by eapply sys_drop_inv.
  - unfold release_allocation. by rewrite Hlive.
Qed.

(** With every lease released the free list is one range. *)
Lemma sys_all_released s :
  sys_inv s → (∀ l, l ∈ leases s → released l = true) →
  free (arena s) = [(0, capacity_bytes (arena s))].
Proof.
  intros Hinv Hall. pose proof (sy_arena _ Hinv) as Ha.
  apply separated_whole; [apply Ha|apply Ha|destruct Ha; lia|].
  intros i. pose proof (ai_owner _ Ha i) as Hi. assert (allocations (arena s) = ∅) as He.
  { apply map_empty. intros id. destruct (allocations (arena s) !! id) as [r|] eqn:E; [|done].
    destruct (sy_owned _ Hinv _ _ E) as (l & Hl & _ & Hf). by rewrite (Hall l Hl) in Hf. }
  rewrite He, map_sum_empty in Hi. unfold inside in Hi. lia.
Qed.

(** The table is the list of the leases of a system with no released lease. *)
Lemma sys_allocated s :
  sys_inv s → (∀ l, l ∈ leases s → released l = false) →
  allocated (arena s) = Zsum (lease_size <$> leases s).
Proof.
  intros Hinv Hall. rewrite (ai_allocated _ (sy_arena _ Hinv)).
  set (pairs := (λ l, (allocation_id l, (offset l, lease_size l))) <$> leases s).
  assert (NoDup pairs.*1) as Hnd.
  { unfold pairs. rewrite <-list_fmap_compose. apply Hinv. }
  assert (allocations (arena s) = list_to_map pairs) as ->.
  { apply map_eq. intros id. apply option_eq. intros r.
    rewrite <-elem_of_list_to_map by done. unfold pairs. rewrite list_elem_of_fmap. split.
    - intros Hr. destruct (sy_owned _ Hinv _ _ Hr) as (l & Hl & <- & Hf).
      destruct (sy_known _ Hinv l Hl) as [_ Hlive]. rewrite (Hlive Hf) in Hr. injection Hr as <-. by exists l.
    - intros (l & [= -> ->] & Hl). destruct (sy_known _ Hinv l Hl) as [_ Hlive]. apply Hlive, Hall, Hl. }
  rewrite map_sum_list_to_map by done. unfold pairs. by rewrite <-list_fmap_compose.
Qed.

(** ** Properties *)

Definition lease_holds (l : UnifiedMemoryLease) (i : Z) : Prop :=
  released l = false ∧ offset l <= i < offset l + lease_size l.

(** C6: the arena is partitioned.  In every state reachable from a new arena by
    allocations, releases, stores, trims and close, each position belongs to
    exactly one free range or live allocation, the byte counts add up to the
    capacity, no two unreleased leases share a position, and once every lease is
    released the free list is one range again. *)
Theorem arena_partition c z a0 s :
  new_arena c z = Ok a0 → rtc sys_step (mkSys a0 []) s →
  let a := arena s in
  (∀ i, cover i (free a) + map_sum (covers i) (allocations a) = inside (capacity_bytes a) i) ∧
  allocated a = map_sum snd (allocations a) ∧ total (free a) + allocated a = capacity_bytes a ∧
  (∀ n1 n2 l1 l2 i, leases s !! n1 = Some l1 → leases s !! n2 = Some l2 → n1 ≠ n2 →
     lease_holds l1 i → ¬ lease_holds l2 i) ∧
  ((∀ l, l ∈ leases s → released l = true) → free a = [(0, capacity_bytes a)]).
Proof.
  intros Hnew Hrun a. pose proof (sys_run_inv _ _ _ _ Hnew Hrun) as Hinv.
  pose proof (sy_arena _ Hinv) as Ha. fold a in Ha.
  split; [apply Ha|]. split; [apply Ha|]. split; [apply Ha|]. split.
  - intros n1 n2 l1 l2 i H1 H2 Hne [Hr1 Hi1] [Hr2 Hi2].
    destruct (sy_known _ Hinv l1 (list_elem_of_lookup_2 _ _ _ H1)) as [_ L1].
    destruct (sy_known _ Hinv l2 (list_elem_of_lookup_2 _ _ _ H2)) as [_ L2].
    refine (live_disjoint _ _ _ _ _ i Ha (L1 Hr1) (L2 Hr2) _ Hi1 Hi2).
    intros He. apply Hne. by eapply (leases_ids_inj s).
  - by apply sys_all_released.
Qed.

(** Allocation is complete and leaks no data.  An accepted request gets an
    aligned range that was entirely free and, with zeroing on release, reads as
    zero; it is refused only when no aligned position starts a free span of the
    requested size. *)
Theorem allocate_complete size al a :
  arena_inv a → allocation_valid size al a = true → closed a = false →
  Zsize (allocations a) < MAX_UNIFIED_MEMORY_ALLOCATIONS →
  match allocate size al a with
  | (Ok l, a') =>
      offset l mod al = 0 ∧ lease_size l = size ∧
      (∀ i, offset l <= i < offset l + size →
         cover i (free a) = 1 ∧ cover i (free a') = 0 ∧
         (zero_on_release a = true → mapping a' i = 0)) ∧
      allocations a' = <[allocation_id l := (offset l, size)]> (allocations a)
  | (Raise e, a') =>
      e = ValueError "Unified Memory arena has no aligned free range" ∧
      ∀ o, o mod al = 0 → ¬ (∀ i, o <= i < o + size → cover i (free a) = 1)
  end.
Proof.
  intros Hinv Hv Hc Ht. unfold allocate. rewrite Hv, Hc. cbn.
  destruct (_ >=? _) eqn:Et; breflect; [lia|].
  unfold allocation_valid in Hv. breflect.
  destruct (first_fit size al (free a)) as [[o ranges]|] eqn:Ef; cbn.
  - pose proof (first_fit_Some _ _ _ _ _ Ef) as (pre & post & s & len & _ & _ & -> & _).
    destruct (align_spec s al ltac:(lia)) as (_ & Hm & _). split; [done|]. split; [done|]. split; [|done].
    intros i Hi. pose proof (first_fit_cover size al _ _ _ i ltac:(lia) ltac:(lia) Ef) as Hcov.
    pose proof (ai_owner _ Hinv i). pose proof (inside_le (capacity_bytes a) i).
    pose proof (cover_nonneg i ranges). pose proof (allocs_cover_nonneg i a).
    destruct (covers_cases i (align s al, size)) as [[_ Hone]|[Hn _]]; [|cbn in Hn; lia].
    assert (cover i (free a) = 1) as Hfree by lia. split; [done|]. split; [lia|].
    intros Hz. by apply (ai_zero _ Hinv).
  - split; [done|]. intros o Hm Hall.
    destruct (span_in_one (free a) o (o + size)) as ([s len] & Hin & Hlo & Hhi);
      [apply Hinv|lia|intros i Hi; rewrite Hall; [lia|done]|].
    pose proof (first_fit_None _ _ _ _ _ Ef Hin). cbn in *.
    destruct (align_spec s al ltac:(lia)) as (_ & _ & Hleast). specialize (Hleast o Hlo Hm). lia.
Qed.

(** Leases are isolated.  A step that changes a byte of an unreleased lease
    and keeps the lease is a store through that very lease: no allocation,
    release, store through another lease, trim or close writes into it. *)
Theorem lease_isolation s s' n l k :
  sys_inv s → sys_step s s' → leases s !! n = Some l → leases s' !! n = Some l →
  lease_holds l (offset l + k) →
  mapping (arena s') (offset l + k) = mapping (arena s) (offset l + k) ∨
  ∃ v, s' = mkSys (store l k v (arena s)).2 (leases s).
Proof.
  intros Hinv Hstep Hl Hl' [Hr Hk]. pose proof (sy_arena _ Hinv) as Ha.
  destruct (sy_known _ Hinv l (list_elem_of_lookup_2 _ _ _ Hl)) as [_ Hlive]. specialize (Hlive Hr).
  destruct Hstep as [size al s|x n' l2 s Hl2|n' l2 i v s Hl2|page advice s Hp Hok|x s]; cbn in *.
  - left. pose proof (allocate_cases size al (arena s)) as H.
    destruct (allocate size al (arena s)) as [[l'|e] a']; cbn; [|by destruct H as [->| ->]].
    by destruct H as (ranges & _ & _ & _ & _ & _ & ->).
  - left. pose proof (release_cases x l2 (arena s)) as H.
    destruct (release x l2 (arena s)) as [[l'|e] a']; cbn in *; [|by destruct H as (_ & _ & ->)].
    destruct H as [-> [(_ & -> & _)|(Hr2 & ->)]]; [done|].
    unfold release_allocation. destruct (allocations (arena s) !! allocation_id l2) as [[o z]|] eqn:E; [|done].
    cbn. destruct (zero_on_release (arena s)); [|done].
    destruct (ai_alloc _ Ha _ _ E) as [Hz _]. cbn in Hz.
    destruct (zero_range_spec o z (mapping (arena s)) (offset l + k) ltac:(lia)) as [[_ Hin]|[-> _]]; [|done].
    exfalso. refine (live_disjoint _ _ _ _ _ (offset l + k) Ha Hlive E _ Hk Hin).
    intros He. assert (n = n') as -> by (by eapply (leases_ids_inj s)).
    rewrite list_lookup_insert_eq in Hl' by (by eapply lookup_lt_Some). injection Hl' as Hl'.
    rewrite <-Hl' in Hr. done.
  - destruct (store_cases l2 i v (arena s)) as [->|(Hr2 & Hi & Heq)]; [by left|].
    destruct (decide (n = n')) as [<-|Hne].
    + rewrite Hl in Hl2. injection Hl2 as <-.
      destruct (decide (i = k)) as [<-|Hik]; [right; by exists v|left].
      rewrite Heq. cbn. destruct (_ =? _) eqn:E; [breflect; lia|done].
    + left. rewrite Heq. cbn. destruct (_ =? _) eqn:E; [|done]. breflect. exfalso.
      destruct (sy_known _ Hinv l2 (list_elem_of_lookup_2 _ _ _ Hl2)) as [_ L2].
      refine (live_disjoint _ _ _ _ _ (offset l + k) Ha Hlive (L2 Hr2) _ Hk _); [|cbn; lia].
      intros He. apply Hne. by eapply (leases_ids_inj s).
  - left. destruct (trim_mapping page advice (arena s) Hp Hok) as (m & -> & Hm). cbn.
    destruct (Hm (offset l + k)) as [?|[Hc _]]; [done|].
    destruct (live_not_free _ _ _ (offset l + k) Ha Hlive Hk). lia.
  - left. unfold close. destruct (negb _); [done|]. by destruct (_ && x).
Qed.

(** ** Witnesses *)

Definition demo_arena : UnifiedMemoryArena :=
  mkArena 8192 (λ _, 0) true [(0, 8192)] ∅ 1 0 0 0 false.
Definition demo_sys : Sys :=
  mkSys (allocate 4096 4096 demo_arena).2 [mkLease 1 0 4096 false].

Lemma demo_arena_new : new_arena 8192 true = Ok demo_arena.
Proof. reflexivity. Qed.

Lemma demo_sys_step : sys_step (mkSys demo_arena []) demo_sys.
Proof. apply (sys_allocate 4096 4096 (mkSys demo_arena [])). Qed.

Lemma arena_partition_witness : total (free (arena demo_sys)) + 4096 = 8192.
Proof.
  destruct (arena_partition 8192 true demo_arena demo_sys demo_arena_new
              (rtc_once _ _ demo_sys_step)) as (_ & _ & Ht & _).
  exact Ht.
Defined.

Lemma allocate_complete_witness :
  match allocate 4096 4096 (arena demo_sys) with
  | (Ok l, _) => offset l mod 4096 = 0
  | _ => False
  end.
Proof.
  pose proof (allocate_complete 4096 4096 (arena demo_sys)
    (sy_arena _ (sys_run_inv _ _ _ _ demo_arena_new (rtc_once _ _ demo_sys_step)))
    eq_refl eq_refl eq_refl) as H.
  destruct (allocate 4096 4096 (arena demo_sys)) as [[l|e] a'] eqn:E.
  - exact (proj1 H).
  - exfalso. apply (f_equal (λ x, is_ok x.1)) in E. vm_compute in E. discriminate E.
Defined.

(** A system call that keeps every byte. *)
Lemma keep_advice_ok : advice_ok (Some (λ _ _ m, Some m)).
Proof. intros f s l m m' [= <-] [= <-] i. by left. Qed.

Lemma lease_isolation_witness :
  mapping (arena (mkSys (trim_free_pages 4096 (Some (λ _ _ m, Some m)) (arena demo_sys)).2
                        (leases demo_sys))) 5 = 0.
Proof.
  destruct (lease_isolation demo_sys _ 0 (mkLease 1 0 4096 false) 5
    (sys_run_inv _ _ _ _ demo_arena_new (rtc_once _ _ demo_sys_step))
    (sys_trim 4096 (Some (λ _ _ m, Some m)) demo_sys eq_refl keep_advice_ok)
    eq_refl eq_refl ltac:(split; [reflexivity|cbn; lia])) as [H|[v H]].
  - exact H.
  - reflexivity.
Defined.

End MemoryArena.
