(* ===== verification/LatentMemory.v ===== *)
(** * Latent buffer manager (latent_memory.py)

    Reusable buffers for latents, backed by leases of the unified-memory arena:
    reuse of an idle buffer of the same shape, eviction of the idle buffer used
    longest ago, and rejection when everything is pinned. *)

From S2P Require Import Prelude Types MemoryArena OrderedDict.

Module LatentMemory.
Import OrderedDict.

(** ** Data *)

Definition MAX_LATENT_BUFFERS : Z := 4096.
Definition MAX_LATENT_BYTES : Z := Z.shiftl 1 38.

Record LatentShape := mkShape { dimensions : list Z; bytes_per_element : Z }.
#[export] Instance LatentShape_eq_dec : EqDecision LatentShape.
Proof. solve_decision. Defined.

(** [byte_count]: [math.prod(dimensions) * bytes_per_element]. *)
Definition byte_count (s : LatentShape) : Z := foldr Z.mul 1 (dimensions s) * bytes_per_element s.

(** [LatentShape.__post_init__] *)
Definition shape_valid (s : LatentShape) : bool :=
  (1 <=? Zlen (dimensions s)) && (Zlen (dimensions s) <=? 5)
  && forallb (λ v, (1 <=? v) && (v <=? 1000000)) (dimensions s)
  && bool_decide (bytes_per_element s ∈ [1; 2; 4])
  && (byte_count s <=? MAX_LATENT_BYTES).

Record LatentEntry := mkEntry {
  shape : LatentShape;
  arena_lease : MemoryArena.UnifiedMemoryLease;
  active : bool;
  last_used : Z;
}.

(** [LatentBufferLease]; its view is that of the entry's arena lease. *)
Record LatentBufferLease := mkBuffer {
  entry_id : Z;
  view : MemoryArena.UnifiedMemoryLease;
  buffer_released : bool;
}.

Record LatentMemoryManager := mkManager {
  arena : MemoryArena.UnifiedMemoryArena;
  maximum_buffers : Z;
  entries : list (Z * LatentEntry);      (* dict, in insertion order *)
  next_id : Z;
  clock : Z;
  hits : Z;
  misses : Z;
  evictions : Z;
  rejections : Z;
}.

(** [__init__] *)
Definition new_manager (a : MemoryArena.UnifiedMemoryArena) (maximum : Z)
    : res exn LatentMemoryManager :=
  check ((1 <=? maximum) && (maximum <=? MAX_LATENT_BUFFERS))
    (ValueError "invalid latent memory configuration")
    (mkManager a maximum [] 1 0 0 0 0 0).

Definition with_arena (a : MemoryArena.UnifiedMemoryArena) (s : LatentMemoryManager) :=
  mkManager a (maximum_buffers s) (entries s) (next_id s) (clock s) (hits s) (misses s)
            (evictions s) (rejections s).
Definition with_entries (d : list (Z * LatentEntry)) (s : LatentMemoryManager) :=
  mkManager (arena s) (maximum_buffers s) d (next_id s) (clock s) (hits s) (misses s)
            (evictions s) (rejections s).
Definition tick (s : LatentMemoryManager) :=
  mkManager (arena s) (maximum_buffers s) (entries s) (next_id s) (clock s + 1) (hits s)
            (misses s) (evictions s) (rejections s).
Definition count (h m e r : Z) (s : LatentMemoryManager) :=
  mkManager (arena s) (maximum_buffers s) (entries s) (next_id s) (clock s) (hits s + h)
            (misses s + m) (evictions s + e) (rejections s + r).

Definition on_arena {A} : Py MemoryArena.UnifiedMemoryArena A → Py LatentMemoryManager A :=
  zoom arena with_arena.

(** [min((last_used, id) for idle entries, default=None)] *)
Fixpoint oldest_idle (d : list (Z * LatentEntry)) : option (Z * Z) :=
  match d with
  | [] => None
  | (id, e) :: d' =>
      if active e then oldest_idle d'
      else match oldest_idle d' with
           | None => Some (last_used e, id)
           | Some (u, i) =>
               if (last_used e <? u) || ((last_used e =? u) && (id <=? i))
               then Some (last_used e, id) else Some (u, i)
           end
  end.

(** [_evict_oldest_idle] *)
Definition evict_oldest_idle : Py LatentMemoryManager bool := λ s,
  match oldest_idle (entries s) with
  | None => (Ok false, s)
  | Some (_, id) =>
      match od_get id (entries s) with
      | None => (Raise (KeyError "pop"), s)
      | Some e =>
          (on_arena (MemoryArena.release false (arena_lease e)) ;;;
           modify (count 0 0 1 0) ;;; ret true)
          (with_entries (od_del id (entries s)) s)
      end
  end.

Definition reject (message : string) {A} : Py LatentMemoryManager A :=
  modify (count 0 0 0 1) ;;; raise (ValueError message).

(** [while len(entries) >= maximum_buffers: ...].  A pass removes an entry or
    raises, so a pass for every entry is enough. *)
Fixpoint make_room (fuel : nat) : Py LatentMemoryManager () :=
  match fuel with
  | O => ret ()
  | S fuel => λ s,
      if Zlen (entries s) >=? maximum_buffers s then
        (let! evicted := evict_oldest_idle in
         if evicted then make_room fuel else reject "latent buffer capacity is pinned") s
      else (Ok (), s)
  end.

(** [while True: try: allocate except ValueError: evict].  A pass returns,
    raises or removes an entry, so one pass more than there are entries is
    enough; the last pass finds nothing to evict. *)
Fixpoint allocate_loop (fuel : nat) (size : Z)
    : Py LatentMemoryManager MemoryArena.UnifiedMemoryLease :=
  match fuel with
  | O => raise (RuntimeError "allocation loop fuel")
  | S fuel =>
      catch (on_arena (MemoryArena.allocate size 4096))
        (λ e, match e with
              | ValueError _ =>
                  let! evicted := evict_oldest_idle in
                  if evicted then allocate_loop fuel size
                  else reject "latent arena capacity is pinned"
              | _ => raise e
              end)
  end.

(** The first idle entry of the shape, in insertion order. *)
Definition reusable (sh : LatentShape) (d : list (Z * LatentEntry)) : option (Z * LatentEntry) :=
  find (λ p, negb (active p.2) && bool_decide (shape p.2 = sh)) d.

(** [acquire] *)
Definition acquire (sh : LatentShape) : Py LatentMemoryManager LatentBufferLease :=
  modify tick ;;; λ s,
  match reusable sh (entries s) with
  | Some (id, e) =>
      let l := arena_lease e in
      let a := arena s in
      (* [_zero_view] writes zeros chunk by chunk over the view *)
      let a' := MemoryArena.set_mapping
                  (MemoryArena.zero_range (MemoryArena.offset l) (MemoryArena.lease_size l)
                     (MemoryArena.mapping a)) a in
      (Ok (mkBuffer id l false),
       count 1 0 0 0 (with_arena a' (with_entries
         (od_set id (mkEntry (shape e) l true (clock s)) (entries s)) s)))
  | None =>
      (modify (count 0 1 0 0) ;;;
       make_room (length (entries s)) ;;;
       let! l := (λ s, allocate_loop (Datatypes.S (length (entries s))) (byte_count sh) s) in
       λ s, (Ok (mkBuffer (next_id s) l false),
             mkManager (arena s) (maximum_buffers s)
               (od_set (next_id s) (mkEntry sh l true (clock s)) (entries s)) (next_id s + 1)
               (clock s) (hits s) (misses s) (evictions s) (rejections s))) s
  end.

(** [LatentMemoryManager._release] *)
Definition release_entry (id : Z) : Py LatentMemoryManager () := λ s,
  match od_get id (entries s) with
  | Some e =>
      if active e then
        (Ok (), with_entries (od_set id (mkEntry (shape e) (arena_lease e) false (clock s + 1))
                                     (entries s)) (tick s))
      else (Raise (RuntimeError "latent buffer lease is stale"), s)
  | None => (Raise (RuntimeError "latent buffer lease is stale"), s)
  end.

(** [LatentBufferLease.release]: the lease after the call. *)
Definition release (b : LatentBufferLease) : Py LatentMemoryManager LatentBufferLease :=
  if buffer_released b then ret b
  else release_entry (entry_id b) ;;; ret (mkBuffer (entry_id b) (view b) true).

(** The loop of [trim] over the identifiers. *)
Fixpoint trim_entries (ids : list Z) (freed : Z) : Py LatentMemoryManager Z :=
  match ids with
  | [] => ret freed
  | id :: ids => λ s,
      match od_get id (entries s) with
      | None => (Raise (KeyError "entry"), s)
      | Some e =>
          if active e then trim_entries ids freed s
          else (on_arena (MemoryArena.release false (arena_lease e)) ;;;
                modify (λ s, count 0 0 1 0 (with_entries (od_del id (entries s)) s)) ;;;
                trim_entries ids (freed + byte_count (shape e))) s
      end
  end.

(** [trim]; the arguments describe the platform's [madvise]. *)
Definition trim (page : Z) (advice : option (Z → Z → (Z → Z) → option (Z → Z)))
    : Py LatentMemoryManager Z := λ s,
  (let! freed := trim_entries (entries s).*1 0 in
   on_arena (MemoryArena.trim_free_pages page advice) ;;; ret freed) s.

(** [close] *)
Definition close (page : Z) (advice : option (Z → Z → (Z → Z) → option (Z → Z)))
    : Py LatentMemoryManager () := λ s,
  if existsb (λ p, active p.2) (entries s)
  then (Raise (RuntimeError "latent memory has active leases"), s)
  else (trim page advice ;;; ret ()) s.

Record Snapshot := {
  snap_buffers : Z;
  snap_active : Z;
  snap_resident_bytes : Z;
  snap_hits : Z;
  snap_misses : Z;
  snap_evictions : Z;
  snap_rejections : Z;
}.

(** [snapshot] *)
Definition snapshot (s : LatentMemoryManager) : Snapshot :=
  {| snap_buffers := Zlen (entries s);
     snap_active := od_sum (λ e, if active e then 1 else 0) (entries s);
     snap_resident_bytes := od_sum (λ e, byte_count (shape e)) (entries s);
     snap_hits := hits s;
     snap_misses := misses s;
     snap_evictions := evictions s;
     snap_rejections := rejections s |}.

(** ** Invariant *)

Definition leases_of (d : list (Z * LatentEntry)) : list MemoryArena.UnifiedMemoryLease :=
  (λ p, arena_lease p.2) <$> d.

(** The entries' leases back the arena, with [extra] leases taken meanwhile. *)
Definition backed (extra : list MemoryArena.UnifiedMemoryLease) (s : LatentMemoryManager) : Prop :=
  MemoryArena.sys_inv (MemoryArena.mkSys (arena s) (leases_of (entries s) ++ extra)).

Definition entry_ok (next : Z) (id : Z) (e : LatentEntry) : Prop :=
  id < next ∧ MemoryArena.released (arena_lease e) = false ∧
  MemoryArena.lease_size (arena_lease e) = byte_count (shape e).

Record dict_inv (s : LatentMemoryManager) : Prop := {
  di_wf : od_wf (entries s);
  di_entry : ∀ id e, (id, e) ∈ entries s → entry_ok (next_id s) id e;
  di_room : Zlen (entries s) <= maximum_buffers s;
  di_maximum : 1 <= maximum_buffers s;
}.
Definition latent_inv (s : LatentMemoryManager) : Prop := backed [] s ∧ dict_inv s.

(** [s'] has the entries of [s] less some idle ones, and the same settings. *)
Record shrinks (s s' : LatentMemoryManager) : Prop := {
  sh_maximum : maximum_buffers s' = maximum_buffers s;
  sh_next : next_id s' = next_id s;
  sh_clock : clock s' = clock s;
  sh_arena : MemoryArena.same_config (arena s) (arena s');
  sh_sub : ∀ id e, od_get id (entries s') = Some e → od_get id (entries s) = Some e;
  sh_active : ∀ id e, od_get id (entries s) = Some e → active e = true →
              od_get id (entries s') = Some e;
}.

Lemma shrinks_refl s : shrinks s s.
Proof. by constructor; try (unfold MemoryArena.same_config). Qed.

Lemma shrinks_trans s1 s2 s3 : shrinks s1 s2 → shrinks s2 s3 → shrinks s1 s3.
Proof.
  intros [A1 B1 C1 (D1 & E1 & F1) G1 H1] [A2 B2 C2 (D2 & E2 & F2) G2 H2].
  constructor; [congruence..| | |]; [unfold MemoryArena.same_config; split_and!; congruence|eauto|eauto].
Qed.

Definition all_active (s : LatentMemoryManager) : Prop :=
  ∀ id e, od_get id (entries s) = Some e → active e = true.

(** *** Eviction *)

Lemma oldest_idle_spec d :
  match oldest_idle d with
  | None => ∀ id e, (id, e) ∈ d → active e = true
  | Some (u, id) =>
      (∃ e, (id, e) ∈ d ∧ active e = false ∧ last_used e = u) ∧
      ∀ id' e', (id', e') ∈ d → active e' = false →
        u < last_used e' ∨ u = last_used e' ∧ id <= id'
  end.
Proof.
  induction d as [|[id e] d IH]; cbn; [set_solver|].
  destruct (active e) eqn:Ha.
  - destruct (oldest_idle d) as [[u i]|].
    + destruct IH as [(e' & ? & ?) Hmin]. split; [exists e'; set_solver|].
      intros id' e0 [[= -> ->]|?]%elem_of_cons ?; [congruence|eauto].
    + intros id' e' [[= -> ->]|?]%elem_of_cons; [done|eauto].
  - destruct (oldest_idle d) as [[u i]|].
    + destruct IH as [(e' & ? & ? & ?) Hmin].
      destruct (_ || _) eqn:E.
      * split; [exists e; set_solver|]. rewrite orb_true_iff, andb_true_iff, Z.ltb_lt, Z.eqb_eq, Z.leb_le in E.
        intros id' e0 [[= -> ->]|Hin]%elem_of_cons Hf; [lia|]. specialize (Hmin _ _ Hin Hf). lia.
      * split; [exists e'; set_solver|].
        rewrite orb_false_iff, andb_false_iff, Z.ltb_ge, Z.eqb_neq, Z.leb_gt in E.
        intros id' e0 [[= -> ->]|Hin]%elem_of_cons Hf; [lia|]. by apply Hmin.
    + split; [exists e; set_solver|].
      intros id' e' [[= -> ->]|Hin]%elem_of_cons Hf; [lia|]. rewrite (IH _ _ Hin) in Hf. done.
Qed.

Lemma leases_of_app d1 d2 : leases_of (d1 ++ d2) = leases_of d1 ++ leases_of d2.
Proof. apply fmap_app. Qed.

(** Releasing the lease of an entry and deleting the entry. *)
Lemma release_and_delete id e extra s :
  backed extra s → dict_inv s → od_get id (entries s) = Some e →
  ∃ l' a', MemoryArena.release false (arena_lease e) (arena s) = (Ok l', a') ∧
    MemoryArena.same_config (arena s) a' ∧
    backed extra (with_arena a' (with_entries (od_del id (entries s)) s)) ∧
    dict_inv (with_arena a' (with_entries (od_del id (entries s)) s)) ∧
    Zlen (od_del id (entries s)) = Zlen (entries s) - 1.
Proof.
  intros Hb Hd He. destruct (od_split _ _ _ He) as (d1 & d2 & Heq & Hdel & _).
  destruct (di_entry _ Hd id e (od_get_elem _ _ _ He)) as (_ & Hr & _).
  unfold backed in Hb. rewrite Heq, leases_of_app in Hb. cbn [leases_of fmap list_fmap snd] in Hb.
  rewrite <-app_assoc in Hb. cbn in Hb.
  destruct (MemoryArena.sys_release_drop _ _ _ _ Hb Hr) as (l' & a' & Hrel & Hinv & Hcfg).
  pose proof (od_length_del id (entries s) ltac:(eauto)) as Hlen.
  exists l', a'. split; [done|]. split; [done|]. split; [|split; [|done]].
  - unfold backed. cbn. by rewrite Hdel, leases_of_app, <-app_assoc.
  - destruct Hd. constructor; cbn; [by apply od_wf_del| |lia|done].
    intros id' e' Hin. apply di_entry0. rewrite Heq. rewrite Hdel in Hin. set_solver.
Qed.

Lemma shrinks_delete id e a' s :
  od_get id (entries s) = Some e → active e = false → od_wf (entries s) →
  MemoryArena.same_config (arena s) a' →
  shrinks s (with_arena a' (with_entries (od_del id (entries s)) s)).
Proof.
  intros He Ha Hwf Hcfg. constructor; cbn; try done; intros id' e' He'.
  - destruct (decide (id = id')) as [<-|]; [by rewrite od_get_del in He'|by rewrite od_get_del_ne in He'].
  - intros Ha'. destruct (decide (id = id')) as [<-|]; [congruence|by rewrite od_get_del_ne].
Qed.

(** Counters are outside the invariant. *)
Lemma count_keeps h m e r extra s :
  backed extra s → dict_inv s → backed extra (count h m e r s) ∧ dict_inv (count h m e r s).
Proof. intros Hb []. split; [done|by constructor]. Qed.

Lemma count_shrinks h m e r s s' : shrinks s s' → shrinks s (count h m e r s').
Proof. intros []. by constructor. Qed.

Lemma evict_cases extra s :
  backed extra s → dict_inv s →
  match evict_oldest_idle s with
  | (Ok true, s') => backed extra s' ∧ dict_inv s' ∧ shrinks s s' ∧
                     Zlen (entries s') = Zlen (entries s) - 1
  | (Ok false, s') => s' = s ∧ all_active s
  | (Raise _, _) => False
  end.
Proof.
  intros Hb Hd. unfold evict_oldest_idle. pose proof (oldest_idle_spec (entries s)) as Hspec.
  destruct (oldest_idle (entries s)) as [[u id]|].
  - destruct Hspec as [(e & Hin & Ha & _) _]. apply od_get_iff in Hin; [|apply Hd]. rewrite Hin.
    destruct (release_and_delete id e extra s Hb Hd Hin) as (l' & a' & Hrel & Hcfg & Hb' & Hd' & Hlen).
    unfold bind, on_arena, zoom. cbn [arena with_entries]. rewrite Hrel. cbn.
    destruct (count_keeps 0 0 1 0 extra _ Hb' Hd') as [Hb2 Hd2]. split; [exact Hb2|]. split; [exact Hd2|].
    split; [|done]. apply count_shrinks. by eapply shrinks_delete; [..|apply Hd|].
  - split; [done|]. intros id e He. by eapply Hspec, od_get_elem.
Qed.

Lemma make_room_spec fuel s :
  latent_inv s → (length (entries s) <= fuel)%nat →
  match make_room fuel s with
  | (Ok (), s') => latent_inv s' ∧ shrinks s s' ∧ Zlen (entries s') < maximum_buffers s'
  | (Raise e, s') =>
      e = ValueError "latent buffer capacity is pinned" ∧ latent_inv s' ∧ shrinks s s' ∧
      all_active s' ∧ Zlen (entries s') = maximum_buffers s'
  end.
Proof.
  revert s. induction fuel as [|fuel IH]; intros s [Hb Hd] Hf; cbn [make_room].
  { split; [done|]. split; [apply shrinks_refl|]. destruct Hd. unfold Zlen in *. lia. }
  destruct (_ >=? _) eqn:E; breflect.
  2:{ split; [done|]. split; [apply shrinks_refl|done]. }
  unfold bind at 1. pose proof (evict_cases [] s Hb Hd) as Hev.
  destruct (evict_oldest_idle s) as [[[]|e] s']; [| |done].
  - destruct Hev as (Hb' & Hd' & Hs & Hl). specialize (IH s' (conj Hb' Hd')).
    unfold Zlen in Hl. specialize (IH ltac:(lia)).
    destruct (make_room fuel s') as [[[]|e] s2].
    + destruct IH as (? & ? & ?). split; [done|]. split; [by eapply shrinks_trans|done].
    + destruct IH as (? & ? & ? & ? & ?). split_and!; try done. by eapply shrinks_trans.
  - destruct Hev as [-> Hall]. cbn. destruct (count_keeps 0 0 0 1 [] s Hb Hd) as [Hb2 Hd2].
    split; [done|]. split; [done|]. split; [apply count_shrinks, shrinks_refl|]. split; [done|].
    cbn. destruct Hd. lia.
Qed.

(** *** Allocation *)

Lemma arena_shrinks a' s : MemoryArena.same_config (arena s) a' → shrinks s (with_arena a' s).
Proof. by constructor. Qed.

Lemma frame_backed a' extra s :
  backed extra s → MemoryArena.arena_inv a' →
  MemoryArena.allocations a' = MemoryArena.allocations (arena s) →
  MemoryArena.next_id a' = MemoryArena.next_id (arena s) → backed extra (with_arena a' s).
Proof. intros Hb Ha Hal Hn. exact (MemoryArena.sys_frame_inv a' _ Hb Ha Hal Hn). Qed.

Lemma dict_inv_arena a' s : dict_inv s → dict_inv (with_arena a' s).
Proof. intros []. by constructor. Qed.

Lemma failure_keeps a' s :
  latent_inv s → (a' = arena s ∨ a' = MemoryArena.count_failure (arena s)) →
  latent_inv (with_arena a' s) ∧ shrinks s (with_arena a' s).
Proof.
  intros [Hb Hd] Ha. split; [split; [|by apply dict_inv_arena]|].
  - destruct Ha as [->| ->]; [by destruct s|].
    apply frame_backed; try done. apply MemoryArena.count_failure_inv, Hb.
  - apply arena_shrinks. destruct Ha as [->| ->]; by unfold MemoryArena.same_config.
Qed.

(** A lease just taken: unreleased, of the size asked for, and reading as zero
    when the arena zeroes on release. *)
Definition fresh_lease (size : Z) (a : MemoryArena.UnifiedMemoryArena)
    (l : MemoryArena.UnifiedMemoryLease) : Prop :=
  MemoryArena.released l = false ∧ MemoryArena.lease_size l = size ∧
  (MemoryArena.zero_on_release a = true →
   ∀ i, MemoryArena.lease_holds l i → MemoryArena.mapping a i = 0).

Definition arena_pinned (size : Z) (s : LatentMemoryManager) : Prop :=
  all_active s ∧ is_ok (MemoryArena.allocate size 4096 (arena s)).1 = false.

Lemma allocate_loop_spec fuel size s :
  latent_inv s → (length (entries s) < fuel)%nat →
  match allocate_loop fuel size s with
  | (Ok l, s') => backed [l] s' ∧ dict_inv s' ∧ shrinks s s' ∧ fresh_lease size (arena s') l
  | (Raise e, s') =>
      latent_inv s' ∧ shrinks s s' ∧
      (MemoryArena.closed (arena s) = true ∧
         e = RuntimeError "Unified Memory arena is closed" ∨
       e = ValueError "latent arena capacity is pinned" ∧ arena_pinned size s')
  end.
Proof.
  revert s. induction fuel as [|fuel IH]; intros s Hinv Hf; [lia|]. cbn [allocate_loop].
  unfold catch, on_arena, zoom at 1. pose proof Hinv as [Hb Hd].
  destruct (MemoryArena.allocate size 4096 (arena s)) as [[l|e] a'] eqn:Hal.
  - pose proof (MemoryArena.sys_allocate_inv size 4096 _ _ Hb eq_refl) as Hsys.
    cbn [MemoryArena.arena MemoryArena.leases] in Hsys. rewrite Hal in Hsys. cbn in Hsys.
    rewrite app_nil_r in Hsys.
    destruct (MemoryArena.allocate_ok size 4096 (arena s) l a') as (Hr & Hs & Hc & Hz & Hcl & Hzero);
      [apply Hb|done|].
    split; [exact Hsys|]. split; [by apply dict_inv_arena|].
    split; [by apply arena_shrinks|]. split; [done|]. split; [done|]. cbn. rewrite Hz.
    intros Hz' i [_ Hi]. apply Hzero; [done|]. by rewrite Hs in Hi.
  - destruct (MemoryArena.allocate_raise _ _ _ _ _ Hal) as (Ha & Hagain & He).
    destruct (failure_keeps a' s Hinv Ha) as [Hinv' Hsh].
    destruct He as [[Hcl ->]|[m ->]]; [split; [done|]; split; [done|by left]|].
    unfold bind at 1. pose proof (evict_cases [] _ (proj1 Hinv') (proj2 Hinv')) as Hev.
    destruct (evict_oldest_idle (with_arena a' s)) as [[[]|e] s'] eqn:Hevict; [| |done].
    + destruct Hev as (Hb' & Hd' & Hs & Hl). unfold Zlen in Hl. cbn in Hl.
      specialize (IH s' (conj Hb' Hd') ltac:(lia)).
      assert (shrinks s s') as Hss by (by eapply shrinks_trans).
      destruct (allocate_loop fuel size s') as [[l|e] s2].
      * destruct IH as (? & ? & ? & ?). split_and!; try done. by eapply shrinks_trans.
      * destruct IH as (? & ? & Hcase). split; [done|]. split; [by eapply shrinks_trans|].
        destruct (sh_arena _ _ Hss) as (_ & _ & Hcl). by rewrite Hcl in Hcase.
    + destruct Hev as [-> Hall]. cbn.
      destruct (count_keeps 0 0 0 1 [] _ (proj1 Hinv') (proj2 Hinv')).
      split; [done|]. split; [by apply count_shrinks|]. right. split; [done|]. split; [done|].
      cbn. by rewrite Hagain.
Qed.

(** ** [acquire] *)

Lemma reusable_Some sh d id e :
  reusable sh d = Some (id, e) → (id, e) ∈ d ∧ active e = false ∧ shape e = sh.
Proof.
  intros [Hin Hp]%find_some. cbn in Hp. breflect. split; [by apply list_elem_of_In|done].
Qed.

Lemma leases_of_set id e e' d :
  od_get id d = Some e → arena_lease e' = arena_lease e →
  leases_of (od_set id e' d) = leases_of d.
Proof.
  intros (d1 & d2 & -> & _ & ->)%od_split Heq. rewrite !leases_of_app. cbn. by rewrite Heq.
Qed.

(** Marking an entry active or idle. *)
Lemma set_entry_inv id e act used s :
  latent_inv s → od_get id (entries s) = Some e →
  latent_inv (with_entries (od_set id (mkEntry (shape e) (arena_lease e) act used) (entries s)) s).
Proof.
  intros [Hb []] He. split.
  - unfold backed in *. cbn. by rewrite (leases_of_set id e).
  - constructor; cbn; [by apply od_wf_set| |by rewrite od_length_set|done].
    intros id' e' Hin. apply od_get_iff in Hin; [|by apply od_wf_set].
    destruct (decide (id = id')) as [<-|].
    + rewrite od_get_set in Hin. injection Hin as <-. apply (di_entry0 id e), (od_get_elem _ _ _ He).
    + rewrite od_get_set_ne in Hin by done. apply di_entry0. by apply od_get_elem.
Qed.

Lemma tick_inv s : latent_inv s → latent_inv (tick s).
Proof. intros [Hb []]. split; [done|by constructor]. Qed.

Lemma count_inv h m e r s : latent_inv s → latent_inv (count h m e r s).
Proof. intros [Hb Hd]. by apply count_keeps. Qed.

(** The lease of an entry lies on a live allocation of positive size. *)
Lemma entry_live id e s :
  latent_inv s → od_get id (entries s) = Some e →
  0 < MemoryArena.lease_size (arena_lease e) ∧
  MemoryArena.allocations (arena s) !! MemoryArena.allocation_id (arena_lease e)
    = Some (MemoryArena.offset (arena_lease e), MemoryArena.lease_size (arena_lease e)).
Proof.
  intros [Hb Hd] He. pose proof (od_get_elem _ _ _ He) as Hin.
  destruct (di_entry _ Hd _ _ Hin) as (_ & Hr & _).
  destruct (MemoryArena.sy_known _ Hb (arena_lease e)) as [_ Hlive].
  { cbn. apply elem_of_app. left. by apply (list_elem_of_fmap_2 (λ p, arena_lease p.2) _ (id, e)). }
  specialize (Hlive Hr). cbn in Hlive. split; [|done].
  by destruct (MemoryArena.ai_alloc _ (MemoryArena.sy_arena _ Hb) _ _ Hlive).
Qed.

Lemma zero_view_inv id e s :
  latent_inv s → od_get id (entries s) = Some e →
  latent_inv (with_arena (MemoryArena.set_mapping
    (MemoryArena.zero_range (MemoryArena.offset (arena_lease e))
       (MemoryArena.lease_size (arena_lease e)) (MemoryArena.mapping (arena s))) (arena s)) s).
Proof.
  intros Hinv He. destruct (entry_live id e s Hinv He) as [Hpos _]. destruct Hinv as [Hb Hd].
  split; [|by apply dict_inv_arena]. apply frame_backed; try done.
  apply MemoryArena.set_mapping_inv; [apply Hb|]. intros i _.
  destruct (MemoryArena.zero_range_spec (MemoryArena.offset (arena_lease e))
    (MemoryArena.lease_size (arena_lease e)) (MemoryArena.mapping (arena s)) i ltac:(lia))
    as [[? _]|[? _]]; [by right|by left].
Qed.

Lemma fresh_id s : latent_inv s → od_get (next_id s) (entries s) = None.
Proof.
  intros [_ Hd]. destruct (od_get (next_id s) (entries s)) as [e|] eqn:E; [|done].
  destruct (di_entry _ Hd _ _ (od_get_elem _ _ _ E)) as [? _]. lia.
Qed.

(** The outcome of the part of [acquire] that makes a new buffer. *)
Lemma acquire_new sh s :
  latent_inv s → reusable sh (entries s) = None →
  match (acquire sh s) with
  | (Ok b, s') =>
      ∃ s2, backed [view b] s2 ∧ dict_inv s2 ∧ shrinks (tick s) s2 ∧
        fresh_lease (byte_count sh) (arena s2) (view b) ∧
        Zlen (entries s2) < maximum_buffers s2 ∧ b = mkBuffer (next_id s2) (view b) false ∧
        s' = mkManager (arena s2) (maximum_buffers s2)
               (od_set (next_id s2) (mkEntry sh (view b) true (clock s2)) (entries s2))
               (next_id s2 + 1) (clock s2) (hits s2) (misses s2) (evictions s2) (rejections s2)
  | (Raise e, s') =>
      latent_inv s' ∧ shrinks (tick s) s' ∧
      (MemoryArena.closed (arena s) = true ∧
         e = RuntimeError "Unified Memory arena is closed" ∨
       e = ValueError "latent arena capacity is pinned" ∧ arena_pinned (byte_count sh) s' ∨
       e = ValueError "latent buffer capacity is pinned" ∧ all_active s' ∧
         Zlen (entries s') = maximum_buffers s')
  end.
Proof.
  intros Hinv Hnone. unfold acquire, bind at 1, modify at 1. cbn [entries tick]. rewrite Hnone.
  unfold bind at 1, modify at 1. set (s1 := count 0 1 0 0 (tick s)).
  assert (latent_inv s1) as Hinv1 by (by apply count_inv, tick_inv).
  assert (shrinks (tick s) s1) as Hs1 by (apply count_shrinks, shrinks_refl).
  pose proof (make_room_spec (length (entries s)) s1 Hinv1 ltac:(done)) as Hroom.
  unfold bind at 1. destruct (make_room _ s1) as [[[]|e] s2].
  - destruct Hroom as (Hinv2 & Hs2 & Hlt). unfold bind at 1.
    pose proof (allocate_loop_spec (Datatypes.S (length (entries s2))) (byte_count sh) s2 Hinv2
                  ltac:(lia)) as Hal.
    pose proof (shrinks_trans _ _ _ Hs1 Hs2) as Hs12.
    destruct (allocate_loop _ _ s2) as [[l|e] s3].
    + destruct Hal as (Hb & Hd & Hs3 & Hfresh). exists s3. cbn [view]. split_and!; try done.
      * by eapply shrinks_trans.
      * assert (length (entries s3) <= length (entries s2))%nat; [|rewrite (sh_maximum _ _ Hs3); unfold Zlen in *; lia].
        assert ((entries s3).*1 ⊆ (entries s2).*1) as Hsub.
        { intros id Hid. destruct (od_get id (entries s3)) as [e|] eqn:E.
          - apply (sh_sub _ _ Hs3), od_get_elem in E. by apply (list_elem_of_fmap_2 fst _ (id, e)).
          - by apply od_get_None in E. }
        rewrite <-(length_fmap fst (entries s3)), <-(length_fmap fst (entries s2)).
        apply submseteq_length, NoDup_submseteq; [apply Hd|done].
    + destruct Hal as (? & Hs3 & Hcase). split; [done|]. split; [by eapply shrinks_trans|].
      destruct (sh_arena _ _ Hs12) as (_ & _ & Hcl). cbn in Hcl. rewrite Hcl in Hcase.
      destruct Hcase as [?|?]; [by left|right; by left].
  - destruct Hroom as (-> & ? & Hs2 & ? & ?). split; [done|].
    split; [by eapply shrinks_trans|]. right. by right.
Qed.

(** Recording the entry of a new lease. *)
Lemma insert_entry_inv sh l s :
  backed [l] s → dict_inv s → MemoryArena.released l = false →
  MemoryArena.lease_size l = byte_count sh → Zlen (entries s) < maximum_buffers s →
  od_get (next_id s) (entries s) = None ∧
  latent_inv (mkManager (arena s) (maximum_buffers s)
    (od_set (next_id s) (mkEntry sh l true (clock s)) (entries s)) (next_id s + 1) (clock s)
    (hits s) (misses s) (evictions s) (rejections s)).
Proof.
  intros Hb Hd Hr Hs Hlt.
  assert (od_get (next_id s) (entries s) = None) as Hnew.
  { destruct (od_get (next_id s) (entries s)) as [e|] eqn:E; [|done].
    destruct (di_entry _ Hd _ _ (od_get_elem _ _ _ E)) as [? _]. lia. }
  split; [done|]. rewrite od_set_new by done. split.
  - unfold backed in *. cbn. rewrite leases_of_app. cbn. by rewrite app_nil_r.
  - destruct Hd. constructor; cbn; [by apply od_wf_snoc| | |done].
    + intros id e [Hin|[= -> ->]%list_elem_of_singleton]%elem_of_app.
      * destruct (di_entry0 _ _ Hin) as (? & ? & ?). split; [lia|done].
      * split; [lia|done].
    + unfold Zlen in *. rewrite length_app. cbn. lia.
Qed.

(** The part of [acquire] that reuses a buffer. *)
Lemma acquire_reuse sh s id e :
  reusable sh (entries s) = Some (id, e) →
  acquire sh s =
    (Ok (mkBuffer id (arena_lease e) false),
     count 1 0 0 0 (with_arena (MemoryArena.set_mapping
       (MemoryArena.zero_range (MemoryArena.offset (arena_lease e))
          (MemoryArena.lease_size (arena_lease e)) (MemoryArena.mapping (arena s))) (arena s))
       (with_entries (od_set id (mkEntry (shape e) (arena_lease e) true (clock s + 1)) (entries s))
          (tick s)))).
Proof. intros Hr. unfold acquire, bind, modify. cbn [entries tick]. by rewrite Hr. Qed.

Lemma acquire_inv sh s : latent_inv s → latent_inv (acquire sh s).2.
Proof.
  intros Hinv. destruct (reusable sh (entries s)) as [[id e]|] eqn:Hr.
  - rewrite (acquire_reuse _ _ _ _ Hr). cbn [snd].
    destruct (reusable_Some _ _ _ _ Hr) as (Hin & _ & _).
    apply od_get_iff in Hin; [|apply Hinv]. apply count_inv.
    pose proof (tick_inv _ (zero_view_inv id e s Hinv Hin)) as Hz.
    exact (set_entry_inv id e true (clock s + 1) _ Hz Hin).
  - pose proof (acquire_new sh s Hinv Hr) as H. destruct (acquire sh s) as [[b|err] s']; cbn.
    + destruct H as (s2 & Hb & Hd & _ & (Hrl & Hsz & _) & Hlt & _ & ->).
      by destruct (insert_entry_inv sh (view b) s2 Hb Hd Hrl Hsz Hlt).
    + by destruct H.
Qed.

Lemma release_entry_inv id s : latent_inv s → latent_inv (release_entry id s).2.
Proof.
  intros Hinv. unfold release_entry. destruct (od_get id (entries s)) as [e|] eqn:He; [|done].
  destruct (active e); [|done]. cbn.
  exact (set_entry_inv id e false (clock s + 1) _ (tick_inv _ Hinv) He).
Qed.

Lemma latent_release_inv b s : latent_inv s → latent_inv (release b s).2.
Proof.
  intros Hinv. unfold release. destruct (buffer_released b); [done|]. unfold bind.
  pose proof (release_entry_inv (entry_id b) s Hinv).
  by destruct (release_entry (entry_id b) s) as [[?|?] ?].
Qed.

(** *** Trimming *)

Lemma trim_entries_spec ids freed s :
  latent_inv s → NoDup ids → (∀ id, id ∈ ids → is_Some (od_get id (entries s))) →
  ∃ n s', trim_entries ids freed s = (Ok n, s') ∧ latent_inv s' ∧ shrinks s s' ∧
    ∀ id e, id ∈ ids → od_get id (entries s') = Some e → active e = true.
Proof.
  revert freed s. induction ids as [|id ids IH]; intros freed s Hinv Hnd Hall; cbn [trim_entries].
  { exists freed, s. split_and!; [done|done|apply shrinks_refl|set_solver]. }
  apply NoDup_cons in Hnd as [Hid Hnd]. destruct (Hall id ltac:(left)) as [e He]. rewrite He.
  destruct (active e) eqn:Ha.
  - destruct (IH freed s Hinv Hnd ltac:(intros; apply Hall; by right)) as (n & s' & -> & Hi & Hs & Hact).
    exists n, s'. split_and!; try done. intros id' e' [->|?]%elem_of_cons Hg; [|eauto].
    apply (sh_sub _ _ Hs) in Hg. congruence.
  - destruct (release_and_delete id e [] s (proj1 Hinv) (proj2 Hinv) He)
      as (l' & a' & Hrel & Hcfg & Hb & Hd & _).
    unfold bind at 1, on_arena, zoom. rewrite Hrel. cbn.
    set (s1 := with_arena a' (with_entries (od_del id (entries s)) s)) in *.
    set (s2 := count 0 0 1 0 _).
    assert (latent_inv s2) as Hinv2 by (exact (count_inv 0 0 1 0 s1 (conj Hb Hd))).
    assert (shrinks s s2) as Hs2.
    { apply (count_shrinks 0 0 1 0). by eapply shrinks_delete; [..|apply Hinv|]. }
    unfold bind, modify. fold s2.
    destruct (IH (freed + byte_count (shape e)) s2 Hinv2 Hnd) as (n & s' & -> & Hi & Hs & Hact).
    { intros id' Hin. cbn. rewrite od_get_del_ne by (intros ->; done). apply Hall. by right. }
    exists n, s'. split_and!; try done; [by eapply shrinks_trans|].
    intros id' e' [->|?]%elem_of_cons Hg; [|eauto].
    apply (sh_sub _ _ Hs) in Hg. cbn in Hg. rewrite od_get_del in Hg; [done|apply Hinv].
Qed.


Lemma trim_spec page advice s :
  0 < page → MemoryArena.advice_ok advice → latent_inv s →
  ∃ n s', trim page advice s = (Ok n, s') ∧ latent_inv s' ∧ shrinks s s' ∧ all_active s'.
Proof.
  intros Hp Hok Hinv. unfold trim, bind at 1.
  destruct (trim_entries_spec (entries s).*1 0 s Hinv) as (n & s1 & -> & Hi & Hs & Hact).
  { apply Hinv. }
  { intros id Hid. destruct (od_get id (entries s)) eqn:E; [eauto|]. by apply od_get_None in E. }
  assert (all_active s1) as Hall.
  { intros id e He. apply (Hact id); [|done]. apply (sh_sub _ _ Hs), od_get_elem in He.
    by apply (list_elem_of_fmap_2 fst _ (id, e)). }
  unfold bind, on_arena, zoom.
  destruct (MemoryArena.trim_mapping page advice (arena s1) Hp Hok) as (m & Heq & _).
  pose proof (MemoryArena.trim_inv page advice (arena s1) Hp Hok
                (MemoryArena.sy_arena _ (proj1 Hi))) as Ha.
  pose proof (MemoryArena.trim_ok page advice (arena s1)) as Hisok.
  destruct (MemoryArena.trim_free_pages page advice (arena s1)) as [[k|e] a']; [|done].
  cbn in Heq, Ha. exists n, (with_arena a' s1). split; [done|]. split; [|split; [|done]].
  - split; [|apply dict_inv_arena, Hi]. subst a'. by apply frame_backed; [apply Hi|..].
  - eapply shrinks_trans; [done|]. apply arena_shrinks. by subst a'.
Qed.

Lemma no_active_iff s :
  latent_inv s → existsb (λ p, active p.2) (entries s) = false ↔
  ∀ id e, od_get id (entries s) = Some e → active e = false.
Proof.
  intros [_ Hd]. split.
  - intros Hex id e He. destruct (active e) eqn:Ha; [|done]. exfalso.
    assert (existsb (λ p, active p.2) (entries s) = true); [|congruence].
    apply existsb_exists. exists (id, e). split; [|done]. by apply list_elem_of_In, od_get_elem.
  - intros Hall. apply not_true_is_false. intros ([id e] & Hin & Ha)%existsb_exists.
    apply list_elem_of_In, od_get_iff in Hin; [|apply Hd]. cbn in Ha. rewrite (Hall _ _ Hin) in Ha. done.
Qed.

(** ** The manager as a transition system *)

(** One call on the manager or one of its buffers; a store goes through the view
    of an active buffer. *)
Inductive lstep : LatentMemoryManager → LatentMemoryManager → Prop :=
| l_acquire sh s : lstep s (acquire sh s).2
| l_release b s : lstep s (release b s).2
| l_store id e i v s :
    od_get id (entries s) = Some e → active e = true →
    lstep s (on_arena (MemoryArena.store (arena_lease e) i v) s).2
| l_trim page advice s :
    0 < page → MemoryArena.advice_ok advice → lstep s (trim page advice s).2
| l_close page advice s :
    0 < page → MemoryArena.advice_ok advice → lstep s (close page advice s).2.

Lemma store_inv id e i v s :
  latent_inv s → od_get id (entries s) = Some e →
  latent_inv (on_arena (MemoryArena.store (arena_lease e) i v) s).2.
Proof.
  intros [Hb Hd] He. unfold on_arena, zoom.
  assert (∃ n, MemoryArena.leases (MemoryArena.mkSys (arena s) (leases_of (entries s) ++ [])) !! n
               = Some (arena_lease e)) as [n Hn].
  { apply list_elem_of_lookup. cbn. apply elem_of_app. left.
    by apply (list_elem_of_fmap_2 (λ p, arena_lease p.2) _ (id, e)), od_get_elem. }
  pose proof (MemoryArena.sys_step_inv _ _ Hb (MemoryArena.sys_store n _ i v _ Hn)) as Hinv.
  cbn in Hinv. destruct (MemoryArena.store (arena_lease e) i v (arena s)) as [r a'].
  split; [exact Hinv|by apply dict_inv_arena].
Qed.

Lemma lstep_inv s s' : latent_inv s → lstep s s' → latent_inv s'.
Proof.
  intros Hinv Hstep.
  destruct Hstep as [sh s|b s|id e i v s He Ha|page advice s Hp Hok|page advice s Hp Hok].
  - by apply acquire_inv.
  - by apply latent_release_inv.
  - by eapply store_inv.
  - by destruct (trim_spec page advice s Hp Hok Hinv) as (n & s' & -> & Hi & _).
  - unfold close. destruct (existsb _ _); [done|]. unfold bind.
    by destruct (trim_spec page advice s Hp Hok Hinv) as (n & s' & -> & Hi & _).
Qed.

Lemma latent_new_inv c z n a s0 :
  MemoryArena.new_arena c z = Ok a → new_manager a n = Ok s0 → latent_inv s0.
Proof.
  intros Ha. unfold new_manager, check. destruct (_ && _) eqn:E; [|done]. intros [= <-]. breflect.
  split.
  - exact (MemoryArena.sys_run_inv _ _ _ _ Ha (rtc_refl _ _)).
  - constructor; cbn; [constructor|set_solver|change (0 <= n); lia|lia].
Qed.

(** ** Properties *)

(** Buffers account for the arena.  In every state the manager reaches on an
    arena of its own, it keeps at most the configured number of buffers, the
    arena's allocated bytes are the bytes of its buffers, different buffers share
    no position, and closing it with no active lease succeeds and leaves the
    whole arena as one free range. *)
Theorem latent_accounting c z n a s0 s page advice :
  MemoryArena.new_arena c z = Ok a → new_manager a n = Ok s0 → rtc lstep s0 s →
  0 < page → MemoryArena.advice_ok advice →
  Zlen (entries s) <= maximum_buffers s ∧
  MemoryArena.allocated (arena s) = snap_resident_bytes (snapshot s) ∧
  (∀ id1 id2 e1 e2 i, od_get id1 (entries s) = Some e1 → od_get id2 (entries s) = Some e2 →
     id1 ≠ id2 → MemoryArena.lease_holds (arena_lease e1) i →
     ¬ MemoryArena.lease_holds (arena_lease e2) i) ∧
  ((∀ id e, od_get id (entries s) = Some e → active e = false) →
   ∃ s', close page advice s = (Ok (), s') ∧ entries s' = [] ∧
         MemoryArena.free (arena s') = [(0, MemoryArena.capacity_bytes (arena s'))]).
Proof.
  intros Ha Hm Hrun Hp Hok.
  assert (latent_inv s) as Hinv.
  { apply (rtc_invariant lstep latent_inv s0 s lstep_inv); [by eapply latent_new_inv|done]. }
  pose proof Hinv as [Hb Hd]. split; [apply Hd|]. split; [|split].
  - pose proof (MemoryArena.sys_allocated _ Hb) as Hal. cbn [MemoryArena.arena MemoryArena.leases] in Hal.
    rewrite app_nil_r in Hal. rewrite Hal; cbn.
    + unfold leases_of, od_sum. rewrite <-list_fmap_compose. f_equal.
      apply list_fmap_ext. intros k [id e] Hk. cbn.
      by destruct (di_entry _ Hd id e (list_elem_of_lookup_2 _ _ _ Hk)) as (_ & _ & ->).
    + intros l ([id e] & -> & Hin)%list_elem_of_fmap.
      by destruct (di_entry _ Hd id e Hin) as (_ & ? & _).
  - intros id1 id2 e1 e2 i H1 H2 Hne [_ Hi1] [_ Hi2].
    destruct (entry_live _ _ _ Hinv H1) as [_ L1]. destruct (entry_live _ _ _ Hinv H2) as [_ L2].
    refine (MemoryArena.live_disjoint _ _ _ _ _ i (MemoryArena.sy_arena _ Hb) L1 L2 _ Hi1 Hi2).
    intros Heq. apply Hne. pose proof (MemoryArena.sy_ids _ Hb) as Hnd. cbn in Hnd.
    rewrite app_nil_r in Hnd. unfold leases_of in Hnd. rewrite <-list_fmap_compose in Hnd.
    apply od_get_elem, list_elem_of_lookup in H1 as [k1 H1].
    apply od_get_elem, list_elem_of_lookup in H2 as [k2 H2].
    assert (k1 = k2) as ->; [|congruence].
    eapply (NoDup_lookup _ k1 k2); [exact Hnd| |]; rewrite list_lookup_fmap.
    + by rewrite H1.
    + rewrite H2. cbn. by rewrite Heq.
  - intros Hidle. unfold close. rewrite (proj2 (no_active_iff s Hinv) Hidle).
    destruct (trim_spec page advice s Hp Hok Hinv) as (k & s' & Htrim & Hi & Hs & Hact).
    unfold bind. rewrite Htrim. exists s'. split; [done|].
    assert (entries s' = []) as He.
    { destruct (entries s') as [|[id e] d] eqn:E; [done|]. exfalso.
      assert (od_get id (entries s') = Some e) as Hg by (rewrite E; cbn; by rewrite decide_True).
      pose proof (Hact _ _ Hg). rewrite (Hidle id e) in *; [done|]. by apply (sh_sub _ _ Hs). }
    split; [done|]. destruct Hi as [Hb' _]. unfold backed in Hb'. rewrite He in Hb'.
    apply (MemoryArena.sys_all_released _ Hb'). cbn. set_solver.
Qed.

(** C29: [acquire] hands out a buffer of the shape that nobody else holds.  The
    buffer was idle or is new, active buffers stay as they were, and when it was
    reused or the arena zeroes on release it reads as zero; the call is refused
    only when the arena is closed or every remaining buffer is pinned and there
    is no room. *)
Theorem acquire_outcome sh s :
  latent_inv s →
  match acquire sh s with
  | (Ok b, s') =>
      latent_inv s' ∧
      (∃ e, od_get (entry_id b) (entries s') = Some e ∧
            active e = true ∧ shape e = sh ∧ arena_lease e = view b) ∧
      (∀ e, od_get (entry_id b) (entries s) = Some e → active e = false) ∧
      (∀ id e, od_get id (entries s) = Some e → active e = true →
               od_get id (entries s') = Some e) ∧
      (MemoryArena.zero_on_release (arena s) = true ∨ is_Some (od_get (entry_id b) (entries s)) →
       ∀ i, MemoryArena.lease_holds (view b) i → MemoryArena.mapping (arena s') i = 0)
  | (Raise e, s') =>
      latent_inv s' ∧
      (∀ id e, od_get id (entries s) = Some e → active e = true →
               od_get id (entries s') = Some e) ∧
      (MemoryArena.closed (arena s) = true ∧
         e = RuntimeError "Unified Memory arena is closed" ∨
       e = ValueError "latent arena capacity is pinned" ∧ arena_pinned (byte_count sh) s' ∨
       e = ValueError "latent buffer capacity is pinned" ∧ all_active s' ∧
         Zlen (entries s') = maximum_buffers s')
  end.
Proof.
  intros Hinv. pose proof (acquire_inv sh s Hinv) as Hinv'.
  destruct (reusable sh (entries s)) as [[id e]|] eqn:Hr.
  - rewrite (acquire_reuse _ _ _ _ Hr) in Hinv' |- *. cbn [snd] in Hinv'.
    destruct (reusable_Some _ _ _ _ Hr) as (Hin & Ha & <-).
    apply od_get_iff in Hin; [|apply Hinv]. cbn [entry_id view]. split; [done|]. split; [|split; [|split]].
    + eexists. split; [apply od_get_set|done].
    + intros e' He'. congruence.
    + intros id' e' He' Ha'. cbn. rewrite od_get_set_ne; [done|]. intros ->. congruence.
    + intros _ i [_ Hi]. cbn. destruct (entry_live id e s Hinv Hin) as [Hpos _].
      by destruct (MemoryArena.zero_range_spec (MemoryArena.offset (arena_lease e))
        (MemoryArena.lease_size (arena_lease e)) (MemoryArena.mapping (arena s)) i ltac:(lia))
        as [[? _]|[_ ?]].
  - pose proof (acquire_new sh s Hinv Hr) as H. pose proof (fresh_id s Hinv) as Hfresh.
    destruct (acquire sh s) as [[b|err] s']; cbn [snd] in Hinv'.
    + destruct H as (s2 & Hb & Hd & Hs & (Hrl & Hsz & Hzero) & Hlt & Heq & ->).
      destruct (insert_entry_inv sh (view b) s2 Hb Hd Hrl Hsz Hlt) as [Hnew _].
      assert (entry_id b = next_id s2) as Hid by (by rewrite Heq).
      assert (next_id s2 = next_id s) as Hn by apply (sh_next _ _ Hs).
      split; [done|]. rewrite Hid. cbn. split; [|split; [|split]].
      * eexists. split; [apply od_get_set|done].
      * intros e'. rewrite Hn, Hfresh. done.
      * intros id' e' He' Ha'. rewrite od_get_set_ne; [by apply (sh_active _ _ Hs)|].
        intros <-. rewrite Hn, Hfresh in He'. done.
      * rewrite Hn, Hfresh. destruct (sh_arena _ _ Hs) as (_ & Hz & _). cbn in Hz.
        intros [Hz'|[? ?]]; [|done]. apply Hzero. by rewrite Hz.
    + destruct H as (_ & Hs & Hcase). split; [done|]. split; [|done].
      intros id e He Ha. by apply (sh_active _ _ Hs).
Qed.

(** ** Witnesses *)

Definition demo_manager : LatentMemoryManager :=
  mkManager MemoryArena.demo_arena 1 [] 1 0 0 0 0 0.
Definition demo_shape : LatentShape := mkShape [8; 16] 4.

Lemma demo_manager_new : new_manager MemoryArena.demo_arena 1 = Ok demo_manager.
Proof. reflexivity. Qed.

Lemma demo_manager_inv : latent_inv demo_manager.
Proof. exact (latent_new_inv _ _ _ _ _ MemoryArena.demo_arena_new demo_manager_new). Qed.

Lemma latent_accounting_witness :
  MemoryArena.allocated (arena (acquire demo_shape demo_manager).2) = 512.
Proof.
  destruct (latent_accounting 8192 true 1 MemoryArena.demo_arena demo_manager
    (acquire demo_shape demo_manager).2 4096 None MemoryArena.demo_arena_new demo_manager_new
    (rtc_once _ _ (l_acquire demo_shape demo_manager)) eq_refl
    ltac:(intros ? ? ? ? ? Hf; discriminate Hf)) as (_ & H & _).
  rewrite H. reflexivity.
Defined.

Lemma acquire_outcome_witness : is_ok (acquire demo_shape demo_manager).1 = true.
Proof.
  pose proof (acquire_outcome demo_shape demo_manager demo_manager_inv) as H.
  destruct (acquire demo_shape demo_manager) as [[b|e] s'] eqn:E; [reflexivity|].
  exfalso. apply (f_equal (λ x, is_ok x.1)) in E. vm_compute in E. discriminate E.
Defined.

End LatentMemory.
