(* ===== verification/EventBus.v ===== *)
(** * Runtime event bus (events.py)

    A ring of the latest events, publishers that never wait, and subscribers that
    resume behind a synthetic gap event when the ring overtook them.  The methods
    of [EventBus] run under its condition variable; a subscriber's wait lets the
    other threads change the bus. *)

From S2P Require Import Prelude Types OrderedDict.

Module EventBus.
Import OrderedDict.

(** Values of a payload: the bus itself writes strings and integers only. *)
Inductive value :=
| VString (s : string)
| VInt (n : Z)
| VObject (id : positive).

Record RuntimeEvent := mkEvent {
  sequence : Z;
  event_id : string;
  type : string;
  timestamp : string;
  payload : list (string * value);
}.

Record EventBus := mkBus {
  capacity : Z;
  max_subscribers : Z;
  events : list RuntimeEvent;
  latest : Z;                        (* _sequence *)
  subscribers : Z;
}.

(** [__init__] *)
Definition new_bus (cap maximum : Z) : res exn EventBus :=
  check (negb ((cap <=? 0) || (maximum <=? 0))) (ValueError "event bus limits must be positive")
    (mkBus cap maximum [] 0 0).

(** [payload.setdefault("request_id", request_id)] *)
Definition with_request_id (request_id : option string) (p : list (string * value))
    : list (string * value) :=
  match request_id with
  | None => p
  | Some r => if od_mem "request_id"%string p then p else od_set "request_id"%string (VString r) p
  end.

(** [publish]; the request id of the context and the time are arguments. *)
Definition publish (request_id : option string) (now event_type : string)
    (p : list (string * value)) : Py EventBus RuntimeEvent := λ b,
  if str_eqb event_type "" then (Raise (ValueError "event_type cannot be empty"), b)
  else
    let n := latest b + 1 in
    let e := mkEvent n (str_of_Z n) event_type now (with_request_id request_id p) in
    let es :=
      if Zlen (events b) <? capacity b then events b ++ [e]
      else <[Z.to_nat ((n - 1) mod capacity b) := e]> (events b) in
    (Ok e, mkBus (capacity b) (max_subscribers b) es n (subscribers b)).

Record Snapshot := {
  snap_capacity : Z;
  snap_retained_events : Z;
  snap_latest_sequence : Z;
  snap_active_subscribers : Z;
  snap_max_subscribers : Z;
}.

(** [snapshot] *)
Definition snapshot (b : EventBus) : Snapshot :=
  {| snap_capacity := capacity b;
     snap_retained_events := Zlen (events b);
     snap_latest_sequence := latest b;
     snap_active_subscribers := subscribers b;
     snap_max_subscribers := max_subscribers b |}.

(** [EventSubscription]: the state of its generator is [next_sequence]. *)
Record EventSubscription := mkSubscription { next_sequence : Z; sub_closed : bool }.

Definition set_subscribers (n : Z) (b : EventBus) : EventBus :=
  mkBus (capacity b) (max_subscribers b) (events b) (latest b) n.

(** [subscribe] *)
Definition subscribe (after_sequence heartbeat : Z) : Py EventBus EventSubscription := λ b,
  if (after_sequence <? 0) || (heartbeat <=? 0)
  then (Raise (ValueError "invalid subscription options"), b)
  else if subscribers b >=? max_subscribers b
  then (Raise (SubscriptionLimitError "runtime event subscriber limit reached"), b)
  else (Ok (mkSubscription (after_sequence + 1) false), set_subscribers (subscribers b + 1) b).

(** [EventSubscription.close], with [_release_subscriber]. *)
Definition close (s : EventSubscription) : Py EventBus EventSubscription := λ b,
  if sub_closed s then (Ok s, b)
  else (Ok (mkSubscription (next_sequence s) true), set_subscribers (subscribers b - 1) b).

(** What the generator yields: an event of the ring, the synthetic gap event, or
    [None] for a heartbeat.  The client sees the same class for the first two. *)
Inductive output :=
| Event (e : RuntimeEvent)
| Gap (e : RuntimeEvent)
| Heartbeat.

Definition gap_event (now : string) (oldest dropped : Z) : RuntimeEvent :=
  mkEvent (oldest - 1) (str_of_Z (oldest - 1)) "stream.gap" now [("dropped_events"%string, VInt dropped)].

(** One resumption of [_iterate].  [waits] lists what each
    [condition.wait(timeout=heartbeat)] reports and what the other threads did to
    the bus meanwhile; [None] means that the generator still waits at the end of
    the list. *)
Fixpoint iterate (now : string) (waits : list (bool * (EventBus → EventBus))) (next : Z)
    (b : EventBus) : res exn (option output) * Z * EventBus :=
  let oldest := latest b - Zlen (events b) + 1 in
  if next <? oldest
  then (Ok (Some (Gap (gap_event now oldest (oldest - next)))), oldest, b)
  else if next <=? latest b
  then match events b !! Z.to_nat ((next - 1) mod capacity b) with
       | Some available => (Ok (Some (Event available)), sequence available + 1, b)
       | None => (Raise (IndexError "list index out of range"), next, b)
       end
  else match waits with
       | [] => (Ok None, next, b)
       | (notified, others) :: waits' =>
           if notified then iterate now waits' next (others b)
           else (Ok (Some Heartbeat), next, others b)
       end.

(** [EventSubscription.__next__]; [Raise] of [StopIteration] once closed. *)
Definition next_event (now : string) (waits : list (bool * (EventBus → EventBus)))
    (s : EventSubscription) : Py EventBus (option output * EventSubscription) := λ b,
  if sub_closed s then (Raise StopIteration, b)
  else match iterate now waits (next_sequence s) b with
       | (Ok o, n, b') => (Ok (o, mkSubscription n false), b')
       | (Raise e, _, b') => (Raise e, b')
       end.

(** A subscriber that takes several events; before each one the other threads
    change the bus. *)
Fixpoint drain (calls : list (string * (EventBus → EventBus) * list (bool * (EventBus → EventBus))))
    (s : EventSubscription) (b : EventBus) : list output * EventSubscription * EventBus :=
  match calls with
  | [] => ([], s, b)
  | (now, others, waits) :: calls' =>
      match next_event now waits s (others b) with
      | (Ok (o, s'), b') =>
          let '(os, s'', b'') := drain calls' s' b' in
          (match o with Some x => x :: os | None => os end, s'', b'')
      | (Raise _, b') => ([], s, b')
      end
  end.

(** ** Abstract specification: the history of all events *)

(** [h] is every event ever published, in order; the ring keeps the last
    [capacity] of them, event number [k] in slot [(k - 1) mod capacity]. *)
Record represents (h : list RuntimeEvent) (b : EventBus) : Prop := {
  rep_capacity : 0 < capacity b;
  rep_latest : latest b = Zlen h;
  rep_length : Zlen (events b) = Z.min (Zlen h) (capacity b);
  rep_slot : ∀ k, Zlen h - capacity b < k → 1 <= k <= Zlen h →
             events b !! Z.to_nat ((k - 1) mod capacity b) = h !! Z.to_nat (k - 1);
  rep_sequence : ∀ k e, h !! k = Some e → sequence e = Z.of_nat k + 1;
}.

(** Other threads only publish, subscribe and close. *)
Definition publishes (others : EventBus → EventBus) : Prop :=
  ∀ h b, represents h b → ∃ h', h `prefix_of` h' ∧ represents h' (others b).

Lemma new_bus_represents cap m b : new_bus cap m = Ok b → represents [] b.
Proof.
  unfold new_bus, check. destruct (negb _) eqn:E; [|done]. intros [= <-]. breflect.
  constructor; cbn; try done; try lia; unfold Zlen in *; cbn in *; lia.
Qed.

Lemma set_subscribers_represents h n b : represents h b → represents h (set_subscribers n b).
Proof. intros []. by constructor. Qed.

(** Slots of different retained numbers are different. *)
Lemma slot_inj c n k1 k2 :
  0 < c → n - c < k1 <= n → n - c < k2 <= n →
  (k1 - 1) mod c = (k2 - 1) mod c → k1 = k2.
Proof.
  intros Hc H1 H2 Heq. pose proof (Z.div_mod (k1 - 1) c ltac:(lia)).
  pose proof (Z.div_mod (k2 - 1) c ltac:(lia)). rewrite Heq in *.
  assert ((k1 - 1) / c = (k2 - 1) / c); nia.
Qed.

Lemma publish_represents h b r now ty p :
  represents h b → ty ≠ "" →
  ∃ e, publish r now ty p b = (Ok e, (publish r now ty p b).2) ∧
       sequence e = Zlen h + 1 ∧ type e = ty ∧
       represents (h ++ [e]) (publish r now ty p b).2.
Proof.
  intros Hrep Hty. unfold publish, str_eqb. rewrite bool_decide_false by done. cbn.
  eexists. split; [done|]. destruct Hrep as [Hc Hl Hlen Hslot Hseq]. cbn. split; [lia|]. split; [done|].
  set (e := mkEvent _ _ _ _ _). assert (Zlen (h ++ [e]) = Zlen h + 1) as Hn.
  { unfold Zlen. rewrite length_app. cbn. lia. }
  pose proof (Zlen_nonneg h) as Hpos.
  constructor; cbn; [done|lia| | |].
  - rewrite Hn. destruct (_ <? _) eqn:E; breflect; unfold Zlen in *;
      rewrite ?length_app, ?length_insert; cbn; lia.
  - rewrite Hn. intros k Hk1 Hk2. destruct (decide (k = Zlen h + 1)) as [->|Hne].
    + rewrite (list_lookup_middle h [] e) by (unfold Zlen; lia).
      destruct (_ <? _) eqn:E; breflect.
      * rewrite Z.mod_small by lia. apply list_lookup_middle. unfold Zlen in *. lia.
      * rewrite Hl. apply list_lookup_insert_eq. rewrite Hlen in E.
        pose proof (Z.mod_pos_bound (Zlen h + 1 - 1) (capacity b) Hc).
        unfold Zlen in *. lia.
    + rewrite (lookup_app_l h) by (unfold Zlen in *; lia). rewrite <-Hslot by lia.
      destruct (_ <? _) eqn:E; breflect.
      * rewrite lookup_app_l; [done|]. rewrite Z.mod_small by lia. unfold Zlen in *. lia.
      * apply list_lookup_insert_ne. intros Heq. apply Hne.
        pose proof (Z.mod_pos_bound (k - 1) (capacity b) Hc).
        pose proof (Z.mod_pos_bound (latest b + 1 - 1) (capacity b) Hc).
        apply (slot_inj (capacity b) (Zlen h + 1)); [lia..|]. rewrite <-Hl. lia.
  - intros k e' [He|[Hk He]]%lookup_app_Some; [by apply Hseq|].
    destruct (k - length h)%nat eqn:E; [|by destruct n]. cbn in He. injection He as <-.
    cbn. unfold Zlen in *. lia.
Qed.

(** ** Delivery *)

Lemma iterate_spec now waits next h b :
  represents h b → Forall (λ w, publishes w.2) waits → 1 <= next →
  let '(r, next', b') := iterate now waits next b in
  ∃ h', h `prefix_of` h' ∧ represents h' b' ∧
  match r with
  | Ok (Some (Event e)) => h' !! Z.to_nat (next - 1) = Some e ∧ next' = next + 1
  | Ok (Some (Gap e)) =>
      next < next' ∧ payload e = [("dropped_events"%string, VInt (next' - next))] ∧
      next' = Zlen h' - capacity b' + 1
  | Ok (Some Heartbeat) | Ok None => next' = next ∧ Zlen h < next
  | Raise _ => False
  end.
Proof.
  revert h b. induction waits as [|[notified others] waits IH]; intros h b Hrep Hw Hn; cbn [iterate];
    pose proof Hrep as [Hc Hl Hlen Hslot Hseq]; rewrite Hlen, Hl.
  all: destruct (next <? _) eqn:E1; breflect;
    [exists h; split; [done|]; split; [done|]; split; [lia|]; split; [done|lia]|].
  all: destruct (next <=? Zlen h) eqn:E2; breflect.
  1,3: pose proof (Hslot next ltac:(lia) ltac:(lia)) as Hs;
    destruct (lookup_lt_is_Some_2 h (Z.to_nat (next - 1))) as [e He]; [unfold Zlen in *; lia|];
    rewrite Hs, He; exists h; split; [done|]; split; [done|]; split; [done|];
    rewrite (Hseq _ _ He); lia.
  - exists h. done.
  - apply Forall_cons in Hw as [Ho Hw]. destruct (Ho h b Hrep) as (h1 & Hp1 & Hrep1).
    destruct notified.
    + specialize (IH h1 (others b) Hrep1 Hw Hn). destruct (iterate now waits next (others b)) as [[r next'] b'].
      destruct IH as (h' & Hp & Hrep' & Hr). exists h'. split; [by etransitivity|]. split; [done|].
      assert (Zlen h <= Zlen h1) by (apply prefix_length in Hp1; unfold Zlen; lia).
      destruct r as [[[e|e|]|]|e]; try done; split; try done; lia.
    + exists h1. split; [done|]. split; [done|]. done.
Qed.

(** The outputs account for the sequence numbers from [next] to [next' - 1], in
    order: each is delivered as the event of that number in the history, or it
    is in the count of a gap event. *)
Fixpoint accounted (h : list RuntimeEvent) (next : Z) (os : list output) (next' : Z) : Prop :=
  match os with
  | [] => next' = next
  | Event e :: os => h !! Z.to_nat (next - 1) = Some e ∧ accounted h (next + 1) os next'
  | Gap e :: os => ∃ n, 0 < n ∧ payload e = [("dropped_events"%string, VInt n)] ∧
                        accounted h (next + n) os next'
  | Heartbeat :: os => accounted h next os next'
  end.

Lemma accounted_prefix h h' next os next' :
  h `prefix_of` h' → accounted h next os next' → accounted h' next os next'.
Proof.
  intros [k ->]. revert next. induction os as [|[e|e|] os IH]; intros next; cbn; [done| | |eauto].
  - intros [He Ha]. split; [|eauto]. by apply lookup_app_l_Some.
  - intros (n & ? & ? & ?). exists n. eauto.
Qed.

(** The calls of a subscriber whose environment only publishes. *)
Definition calls_ok
    (calls : list (string * (EventBus → EventBus) * list (bool * (EventBus → EventBus)))) : Prop :=
  Forall (λ c, publishes c.1.2 ∧ Forall (λ w, publishes w.2) c.2) calls.

(** ** The bus and its subscriptions *)

Record Sys := mkSys { bus : EventBus; subs : list EventSubscription }.

Definition open_count (l : list EventSubscription) : Z :=
  Zsum ((λ s, if sub_closed s then 0 else 1) <$> l).

Inductive sys_step : Sys → Sys → Prop :=
| s_publish r now ty p s : sys_step s (mkSys (publish r now ty p (bus s)).2 (subs s))
| s_subscribe after hb s :
    sys_step s (mkSys (subscribe after hb (bus s)).2
                  (match (subscribe after hb (bus s)).1 with
                   | Ok x => subs s ++ [x] | Raise _ => subs s end))
| s_next n x now waits s :
    subs s !! n = Some x → Forall (λ w, publishes w.2) waits →
    Forall (λ w : bool * (EventBus → EventBus), ∀ b, subscribers (w.2 b) = subscribers b ∧
              max_subscribers (w.2 b) = max_subscribers b) waits →
    sys_step s (mkSys (next_event now waits x (bus s)).2
                  (match (next_event now waits x (bus s)).1 with
                   | Ok (_, x') => <[n := x']> (subs s) | Raise _ => subs s end))
| s_close n x s :
    subs s !! n = Some x →
    sys_step s (mkSys (close x (bus s)).2
                  (match (close x (bus s)).1 with
                   | Ok x' => <[n := x']> (subs s) | Raise _ => subs s end)).

Record sys_inv (s : Sys) : Prop := {
  sy_history : ∃ h, represents h (bus s);
  sy_open : subscribers (bus s) = open_count (subs s);
  sy_limit : subscribers (bus s) <= max_subscribers (bus s);
  sy_next : ∀ x, x ∈ subs s → 1 <= next_sequence x;
}.

#[local] Arguments open_count : simpl never.

Lemma open_count_app l1 l2 : open_count (l1 ++ l2) = open_count l1 + open_count l2.
Proof. unfold open_count. by rewrite fmap_app, Zsum_app. Qed.

Lemma open_count_insert l n x x' :
  l !! n = Some x →
  open_count (<[n := x']> l) = open_count l - (if sub_closed x then 0 else 1)
                               + (if sub_closed x' then 0 else 1).
Proof.
  intros Hx. rewrite <-(take_drop_middle l n x Hx) at 2. rewrite insert_take_drop by (by eapply lookup_lt_Some).
  rewrite !open_count_app. unfold open_count at 2 4. cbn. fold (open_count (drop (Datatypes.S n) l)).
  unfold open_count. lia.
Qed.

Lemma iterate_frame now waits next b :
  Forall (λ w : bool * (EventBus → EventBus), ∀ b, subscribers (w.2 b) = subscribers b ∧
            max_subscribers (w.2 b) = max_subscribers b) waits →
  subscribers (iterate now waits next b).2 = subscribers b ∧
  max_subscribers (iterate now waits next b).2 = max_subscribers b.
Proof.
  intros Hw. revert b. induction Hw as [|[notified others] waits Ho Hw IH]; intros b; cbn [iterate];
    repeat case_match; try done.
  all: destruct (Ho b) as [Hsub Hmax]; cbn in *; try done.
  destruct (IH (others b)). split; congruence.
Qed.

Lemma publish_frame r now ty p b :
  subscribers (publish r now ty p b).2 = subscribers b ∧
  max_subscribers (publish r now ty p b).2 = max_subscribers b.
Proof. unfold publish. by destruct (str_eqb ty ""). Qed.

Lemma bus_step_inv s s' : sys_inv s → sys_step s s' → sys_inv s'.
Proof.
  intros [[h Hh] Ho Hl Hn] Hstep.
  destruct Hstep as [r now ty p s|after hb s|n x now waits s Hx Hw Hf|n x s Hx].
  - destruct (publish_frame r now ty p (bus s)) as [E1 E2].
    constructor; cbn; rewrite ?E1, ?E2; try done. destruct (decide (ty = "")) as [->|Hty].
    + exists h. done.
    + destruct (publish_represents h (bus s) r now ty p Hh Hty) as (e & _ & _ & _ & ?). eauto.
  - unfold subscribe. destruct (_ || _) eqn:E1; [by constructor; eauto|].
    destruct (_ >=? _) eqn:E2; [by constructor; eauto|]. breflect.
    constructor; cbn; [exists h; by apply set_subscribers_represents| |lia|].
    + rewrite open_count_app. unfold open_count at 2. cbn. lia.
    + intros x [?| ->%list_elem_of_singleton]%elem_of_app; [eauto|cbn; lia].
  - pose proof (Hn x (list_elem_of_lookup_2 _ _ _ Hx)) as Hx1.
    unfold next_event. destruct (sub_closed x) eqn:Ec; [by constructor; eauto|].
    pose proof (iterate_spec now waits (next_sequence x) h (bus s) Hh Hw Hx1) as Hit.
    destruct (iterate_frame now waits (next_sequence x) (bus s) Hf) as [E1 E2].
    destruct (iterate now waits (next_sequence x) (bus s)) as [[r next'] b']. cbn in E1, E2.
    destruct Hit as (h' & _ & Hrep & Hr). destruct r as [o|e]; [|done].
    constructor; cbn; [eauto| |congruence|].
    + rewrite (open_count_insert _ _ _ _ Hx), Ec. cbn. lia.
    + intros y (k & Hk)%list_elem_of_lookup. destruct (decide (n = k)) as [<-|].
      * rewrite list_lookup_insert_eq in Hk by (by eapply lookup_lt_Some). injection Hk as <-. cbn.
        destruct o as [[e|e|]|]; lia.
      * rewrite list_lookup_insert_ne in Hk by done. by eapply Hn, list_elem_of_lookup_2.
  - unfold close. destruct (sub_closed x) eqn:Ec.
    + cbn. rewrite list_insert_id by done. by constructor; eauto.
    + constructor; cbn; [exists h; by apply set_subscribers_represents| |lia|].
      * rewrite (open_count_insert _ _ _ _ Hx), Ec. cbn. lia.
      * intros y (k & Hk)%list_elem_of_lookup. destruct (decide (n = k)) as [<-|].
        -- rewrite list_lookup_insert_eq in Hk by (by eapply lookup_lt_Some). injection Hk as <-. cbn.
           by eapply Hn, list_elem_of_lookup_2.
        -- rewrite list_lookup_insert_ne in Hk by done. by eapply Hn, list_elem_of_lookup_2.
Qed.

(** ** Properties *)

(** The ring is the tail of the history.  In every state the bus reaches,
    there is a history of events numbered from 1 of which the ring holds exactly
    the last [min(n, capacity)], event [k] in slot [(k - 1) mod capacity], and the
    subscriber count is the number of open subscriptions and within its limit. *)
Theorem ring_is_history_tail cap m b0 s :
  new_bus cap m = Ok b0 → rtc sys_step (mkSys b0 []) s →
  (∃ h, represents h (bus s) ∧
        snap_retained_events (snapshot (bus s)) = Z.min (Zlen h) (capacity (bus s))) ∧
  subscribers (bus s) = open_count (subs s) ∧
  0 <= subscribers (bus s) <= max_subscribers (bus s).
Proof.
  intros Hnew Hrun. assert (sys_inv s) as [[h Hh] Ho Hl _].
  { apply (rtc_invariant sys_step sys_inv (mkSys b0 []) s bus_step_inv); [|done].
    constructor; cbn; [eexists; by eapply new_bus_represents| | |set_solver];
      unfold new_bus, check in Hnew; destruct (negb _) eqn:E; try done; injection Hnew as <-;
      breflect; [done|cbn; lia]. }
  split; [exists h; split; [done|apply Hh]|]. split; [done|]. split; [|done].
  rewrite Ho. apply Zsum_fmap_nonneg. intros x _. destruct (sub_closed x); lia.
Qed.

(** Delivery is in order, without loss or duplicates.  Whatever the other
    threads publish before and during the waits of a subscriber, the events it
    receives are those of the history in sequence order, every number it skips
    is counted in exactly one gap event, and no call raises. *)
Theorem delivery_accounted calls s h b :
  represents h b → calls_ok calls → sub_closed s = false → 1 <= next_sequence s →
  let '(os, s', b') := drain calls s b in
  ∃ h', h `prefix_of` h' ∧ represents h' b' ∧ sub_closed s' = false ∧
        accounted h' (next_sequence s) os (next_sequence s').
Proof.
  intros Hrep Hok. revert s h b Hrep. induction Hok as [|[[now others] waits] calls [Ho Hw] Hok IH];
    intros s h b Hrep Hc Hn; cbn [drain]; [exists h; done|].
  cbn in Ho, Hw. destruct (Ho h b Hrep) as (h1 & Hp1 & Hrep1). unfold next_event. rewrite Hc.
  pose proof (iterate_spec now waits (next_sequence s) h1 (others b) Hrep1 Hw Hn) as Hit.
  destruct (iterate now waits (next_sequence s) (others b)) as [[r next'] b1].
  destruct Hit as (h2 & Hp2 & Hrep2 & Hr). destruct r as [o|e]; [|done].
  assert (1 <= next') as Hn' by (destruct o as [[e|e|]|]; lia).
  specialize (IH (mkSubscription next' false) h2 b1 Hrep2 eq_refl Hn').
  destruct (drain calls (mkSubscription next' false) b1) as [[os s2] b2].
  destruct IH as (h3 & Hp3 & Hrep3 & Hc3 & Hacc). exists h3.
  split; [by do 2 (etransitivity; [done|])|]. split; [done|]. split; [done|].
  cbn in Hacc. destruct o as [[e|e|]|]; cbn.
  - destruct Hr as [He ->]. split; [|done]. destruct Hp3 as [k ->]. by apply lookup_app_l_Some.
  - destruct Hr as (Hlt & Hpay & _). exists (next' - next_sequence s). split; [lia|]. split; [done|].
    by replace (next_sequence s + (next' - next_sequence s)) with next' by lia.
  - by destruct Hr as [-> _].
  - by destruct Hr as [-> _].
Qed.

(** ** Witnesses *)

Definition demo_bus : EventBus := mkBus 2 1 [] 0 0.
Definition demo_publish (b : EventBus) : EventBus := (publish None "now" "tick" [] b).2.

Lemma demo_bus_new : new_bus 2 1 = Ok demo_bus.
Proof. reflexivity. Qed.

Lemma demo_publish_ok : publishes demo_publish.
Proof.
  intros h b Hrep. destruct (publish_represents h b None "now" "tick" [] Hrep ltac:(discriminate))
    as (e & _ & _ & _ & Hr). exists (h ++ [e]). split; [by exists [e]|exact Hr].
Qed.

Lemma ring_is_history_tail_witness :
  0 <= subscribers (bus (mkSys (demo_publish demo_bus) [])) <= 1.
Proof.
  exact (proj2 (proj2 (ring_is_history_tail 2 1 demo_bus _ demo_bus_new
    (rtc_once _ _ (s_publish None "now" "tick" [] (mkSys demo_bus [])))))).
Defined.

(** Three events are published before the first read and a fourth during a wait:
    the subscriber sees a gap of one, then events 2, 3 and 4. *)
Definition demo_calls : list (string * (EventBus → EventBus) * list (bool * (EventBus → EventBus))) :=
  [("t"%string, λ b, demo_publish (demo_publish (demo_publish b)), []);
   ("t"%string, λ b, b, []); ("t"%string, λ b, b, []); ("t"%string, λ b, b, [(true, demo_publish)])].

Lemma demo_calls_ok : calls_ok demo_calls.
Proof.
  repeat constructor; cbn; try (intros h b Hrep; exists h; split; [reflexivity|exact Hrep]);
    try exact demo_publish_ok.
  intros h b Hrep. destruct (demo_publish_ok h b Hrep) as (h1 & P1 & R1).
  destruct (demo_publish_ok h1 _ R1) as (h2 & P2 & R2).
  destruct (demo_publish_ok h2 _ R2) as (h3 & P3 & R3).
  exists h3. split; [by do 2 (etransitivity; [eassumption|])|exact R3].
Qed.

Lemma delivery_accounted_witness :
  let '(os, s', b') := drain demo_calls (mkSubscription 1 false) demo_bus in
  next_sequence s' = 5 ∧ length os = 4%nat ∧ ∃ h', accounted h' 1 os 5.
Proof.
  pose proof (delivery_accounted demo_calls (mkSubscription 1 false) [] demo_bus
    (new_bus_represents 2 1 demo_bus demo_bus_new) demo_calls_ok eq_refl ltac:(cbn; lia)) as H.
  assert (next_sequence (drain demo_calls (mkSubscription 1 false) demo_bus).1.2 = 5) as Hn
    by (vm_compute; reflexivity).
  assert (length (drain demo_calls (mkSubscription 1 false) demo_bus).1.1 = 4%nat) as Hl
    by (vm_compute; reflexivity).
  destruct (drain demo_calls (mkSubscription 1 false) demo_bus) as [[os s'] b'].
  cbn in Hn, Hl, H. destruct H as (h' & _ & _ & _ & Hacc). rewrite Hn in Hacc.
  split; [exact Hn|]. split; [exact Hl|]. exists h'. exact Hacc.
Defined.

End EventBus.
