(* ===== verification/StateCache.v ===== *)
(** * Hierarchical state cache (hierarchical_state_cache.py)

    A hot tier in memory and a cold tier of private files for KV, prefix and
    embedding state.  The file system is part of the state: other processes may
    change it between two calls, and a write, a deletion or an open may fail. *)

From S2P Require Import Prelude Types OrderedDict.

Module StateCache.
Import OrderedDict.

(** ** Data *)

Definition MAX_HIERARCHICAL_CACHE_ENTRIES : Z := 65536.
Definition MAX_HIERARCHICAL_CACHE_BYTES : Z := Z.shiftl 1 40.

Inductive HierarchicalStateKind := KV | PREFIX | VISION_EMBEDDING | VIDEO_EMBEDDING | AUDIO_EMBEDDING.
#[export] Instance HierarchicalStateKind_eq_dec : EqDecision HierarchicalStateKind.
Proof. solve_decision. Defined.
Definition kind_value (k : HierarchicalStateKind) : string :=
  match k with
  | KV => "kv" | PREFIX => "prefix" | VISION_EMBEDDING => "vision_embedding"
  | VIDEO_EMBEDDING => "video_embedding" | AUDIO_EMBEDDING => "audio_embedding"
  end.

Record HierarchicalStateKey := mkKey { kind : HierarchicalStateKind; fingerprint : string }.
#[export] Instance HierarchicalStateKey_eq_dec : EqDecision HierarchicalStateKey.
Proof. solve_decision. Defined.

Fixpoint all_hex (s : string) : bool :=
  match s with
  | EmptyString => true
  | String c s' =>
      let n := Ascii.nat_of_ascii c in
      ((Nat.leb 48 n && Nat.leb n 57) || (Nat.leb 97 n && Nat.leb n 102))%bool && all_hex s'
  end.
(** [HierarchicalStateKey.__post_init__] *)
Definition key_valid (k : HierarchicalStateKey) : bool :=
  (str_len (fingerprint k) =? 64) && all_hex (fingerprint k).

Record HierarchicalStateValue := mkValue { payload : string; tier : string; sha256_of : string }.

Record ColdEntry := mkCold { path : string; size : Z; sha256_hex : string }.

(** A file: its bytes, whether its type, owner and mode are those of a private
    regular file of the user, and whether [os.open] with [O_NOFOLLOW] opens it (not
    a symbolic link, permission granted). *)
Record File := mkFile { content : string; private_file : bool; openable : bool }.

Record HierarchicalStateCache := mkCache {
  hot_limit : Z * Z;                                     (* entries, bytes *)
  cold_limit : Z * Z;
  hot : list (HierarchicalStateKey * string);
  cold : list (HierarchicalStateKey * ColdEntry);
  hot_bytes : Z;
  cold_bytes : Z;
  hits_hot : Z;
  hits_cold : Z;
  misses : Z;
  promotions : Z;
  spills : Z;
  evictions : Z;
  files : gmap string File;                              (* the root directory *)
}.

(** The checks of [__init__] on the bounds. *)
Definition bounds_valid (hot_entries hot_bytes cold_entries cold_bytes : Z) : bool :=
  (0 <=? hot_entries) && (0 <=? hot_bytes) && (0 <=? cold_entries) && (0 <=? cold_bytes)
  && (hot_entries <=? MAX_HIERARCHICAL_CACHE_ENTRIES)
  && (cold_entries <=? MAX_HIERARCHICAL_CACHE_ENTRIES)
  && (hot_bytes <=? MAX_HIERARCHICAL_CACHE_BYTES)
  && (cold_bytes <=? MAX_HIERARCHICAL_CACHE_BYTES)
  && Bool.eqb (hot_entries =? 0) (hot_bytes =? 0)
  && Bool.eqb (cold_entries =? 0) (cold_bytes =? 0)
  && negb (hot_entries + cold_entries =? 0).

(** [__init__]; [private_root] is the check of the root directory's attributes,
    [fs] what the directory holds. *)
Definition new_cache (hot_entries hot_b cold_entries cold_b : Z) (private_root : bool)
    (fs : gmap string File) : res exn HierarchicalStateCache :=
  if negb (bounds_valid hot_entries hot_b cold_entries cold_b)
  then Raise (ValueError "invalid hierarchical cache bounds")
  else if negb private_root then Raise (ValueError "hierarchical cache root must be private")
  else Ok (mkCache (hot_entries, hot_b) (cold_entries, cold_b) [] [] 0 0 0 0 0 0 0 0 fs).

Definition set_hot (d : list (HierarchicalStateKey * string)) (n : Z) (s : HierarchicalStateCache) :=
  mkCache (hot_limit s) (cold_limit s) d (cold s) n (cold_bytes s) (hits_hot s) (hits_cold s)
          (misses s) (promotions s) (spills s) (evictions s) (files s).
Definition set_cold (d : list (HierarchicalStateKey * ColdEntry)) (n : Z) (fs : gmap string File)
    (s : HierarchicalStateCache) :=
  mkCache (hot_limit s) (cold_limit s) (hot s) d (hot_bytes s) n (hits_hot s) (hits_cold s)
          (misses s) (promotions s) (spills s) (evictions s) fs.
(** Counters: hot hits, cold hits, misses, promotions, spills, evictions. *)
Definition count (hh hc m p sp e : Z) (s : HierarchicalStateCache) :=
  mkCache (hot_limit s) (cold_limit s) (hot s) (cold s) (hot_bytes s) (cold_bytes s)
          (hits_hot s + hh) (hits_cold s + hc) (misses s + m) (promotions s + p) (spills s + sp)
          (evictions s + e) (files s).

Section cache.
(** [hashlib.sha256(...).hexdigest()], and which writes and deletions the disk
    accepts during one call. *)
Variable sha256 : string → string.
Variable write_ok unlink_ok : string → bool.

(** [cache_id] *)
Definition cache_id (k : HierarchicalStateKey) : string :=
  sha256 (kind_value (kind k) +:+ ":" +:+ fingerprint k)%string.
Definition destination (k : HierarchicalStateKey) (digest : string) : string :=
  (cache_id k +:+ "-" +:+ digest +:+ ".bin")%string.

(** [_fits_hot] *)
Definition fits_hot (p : string) (s : HierarchicalStateCache) : bool :=
  negb ((hot_limit s).1 =? 0) && (str_len p <=? (hot_limit s).2).

(** [entry.path.unlink(missing_ok=True)] *)
Definition unlink (file : string) : Py HierarchicalStateCache () := λ s,
  if unlink_ok file then (Ok (), set_cold (cold s) (cold_bytes s) (delete file (files s)) s)
  else (Raise (OSError "unlink"), s).

(** [_delete_cold]: the entry is forgotten first, then its file is deleted. *)
Definition delete_cold (k : HierarchicalStateKey) : Py HierarchicalStateCache () := λ s,
  match od_get k (cold s) with
  | None => (Raise (KeyError "cold"), s)
  | Some e =>
      unlink (path e) (set_cold (od_del k (cold s)) (cold_bytes s - size e) (files s) s)
  end.

(** The eviction loop of [_store_cold].  Each pass removes an entry, so a pass for
    every entry is enough. *)
Fixpoint trim_cold (fuel : nat) : Py HierarchicalStateCache () :=
  match fuel with
  | O => ret ()
  | S fuel => λ s,
      if (Zlen (cold s) >? (cold_limit s).1) || (cold_bytes s >? (cold_limit s).2) then
        match cold s with
        | [] => (Raise StopIteration, s)
        | (victim, _) :: _ =>
            (delete_cold victim ;;; modify (count 0 0 0 0 0 1) ;;; trim_cold fuel) s
        end
      else (Ok (), s)
  end.

(** [_store_cold] *)
Definition store_cold (k : HierarchicalStateKey) (p : string) : Py HierarchicalStateCache bool := λ s,
  if ((cold_limit s).1 =? 0) || (str_len p >? (cold_limit s).2) then (Ok false, s)
  else
    let digest := sha256 p in
    let dest := destination k digest in
    if negb (write_ok dest) then (Raise (OSError "write"), s)
    else
      let s1 := set_cold (od_set k (mkCold dest (str_len p) digest) (cold s))
                         (cold_bytes s + str_len p) (<[dest := mkFile p true true]> (files s)) s in
      (trim_cold (length (cold s1)) ;;; λ s, (Ok (od_mem k (cold s)), s)) s1.

(** [next(candidate for candidate in self._hot if candidate != exclude)] *)
Definition first_candidate (exclude : option HierarchicalStateKey)
    (d : list (HierarchicalStateKey * string)) : option (HierarchicalStateKey * string) :=
  find (λ p, negb (bool_decide (Some p.1 = exclude))) d.

(** [_trim_hot].  Each pass removes an entry, so a pass for every entry is
    enough. *)
Fixpoint trim_hot (fuel : nat) (exclude : option HierarchicalStateKey)
    : Py HierarchicalStateCache () :=
  match fuel with
  | O => ret ()
  | S fuel => λ s,
      if (Zlen (hot s) >? (hot_limit s).1) || (hot_bytes s >? (hot_limit s).2) then
        match first_candidate exclude (hot s) with
        | None => (Raise StopIteration, s)
        | Some (k, p) =>
            (let! stored := store_cold k p in
             modify (if stored then count 0 0 0 0 1 0 else count 0 0 0 0 0 1) ;;;
             trim_hot fuel exclude)
              (set_hot (od_del k (hot s)) (hot_bytes s - str_len p) s)
        end
      else (Ok (), s)
  end.

(** [_remove_locked] *)
Definition remove_locked (k : HierarchicalStateKey) : Py HierarchicalStateCache bool := λ s,
  match od_get k (hot s) with
  | Some p => (Ok true, set_hot (od_del k (hot s)) (hot_bytes s - str_len p) s)
  | None =>
      if od_mem k (cold s) then (delete_cold k ;;; ret true) s else (Ok false, s)
  end.

(** [_read_cold] *)
Definition read_cold (e : ColdEntry) (s : HierarchicalStateCache) : res exn string :=
  match files s !! path e with
  | None => Raise (OSError "no such file")
  | Some f =>
      if negb (openable f) then Raise (OSError "cannot open")
      else if negb (private_file f) || negb (str_len (content f) =? size e)
      then Raise (ValueError "cold state cache entry is unsafe")
      else if negb (str_eqb (sha256 (content f)) (sha256_hex e))
      then Raise (ValueError "cold state cache digest mismatch")
      else Ok (content f)
  end.

(** Adding a payload at the recent end of the hot tier and trimming. *)
Definition hot_insert (k : HierarchicalStateKey) (p : string) (s : HierarchicalStateCache)
    : HierarchicalStateCache :=
  set_hot (od_set k p (hot s)) (hot_bytes s + str_len p) s.

(** [put] *)
Definition put (k : HierarchicalStateKey) (p : string) : Py HierarchicalStateCache string :=
  if negb ((1 <=? str_len p) && (str_len p <=? MAX_HIERARCHICAL_CACHE_BYTES))
  then raise (ValueError "invalid hierarchical cache value")
  else
    remove_locked k ;;; λ s,
    if fits_hot p s then
      (modify (hot_insert k p) ;;;
       (λ s, trim_hot (length (hot s)) None s) ;;; ret "hot"%string) s
    else
      (let! stored := store_cold k p in
       if stored then ret "cold"%string
       else modify (count 0 0 0 0 0 1) ;;; ret "dropped"%string) s.

(** [get] *)
Definition get_value (k : HierarchicalStateKey)
    : Py HierarchicalStateCache (option HierarchicalStateValue) := λ s,
  match od_get k (hot s) with
  | Some p =>
      (Ok (Some (mkValue p "hot" (sha256 p))),
       count 1 0 0 0 0 0 (set_hot (od_move_to_end k (hot s)) (hot_bytes s) s))
  | None =>
      match od_get k (cold s) with
      | None => (Ok None, count 0 0 1 0 0 0 s)
      | Some e =>
          match read_cold e s with
          | Raise (ValueError m) =>
              (delete_cold k ;;; modify (count 0 0 0 0 0 1) ;;; raise (ValueError m)) s
          | Raise x => (Raise x, s)
          | Ok p =>
              let s1 := count 0 1 0 0 0 0
                          (set_cold (od_move_to_end k (cold s)) (cold_bytes s) (files s) s) in
              if fits_hot p s1 then
                (delete_cold k ;;;
                 modify (λ s, count 0 0 0 1 0 0 (hot_insert k p s)) ;;;
                 (λ s, trim_hot (length (hot s)) (Some k) s) ;;;
                 ret (Some (mkValue p "hot" (sha256_hex e)))) s1
              else (Ok (Some (mkValue p "cold" (sha256_hex e))), s1)
          end
      end
  end.

(** [remove] *)
Definition remove (k : HierarchicalStateKey) : Py HierarchicalStateCache bool := remove_locked k.

(** The loop of [clear] over the cold keys. *)
Fixpoint clear_cold (keys : list HierarchicalStateKey) : Py HierarchicalStateCache () :=
  match keys with
  | [] => ret ()
  | k :: keys => delete_cold k ;;; clear_cold keys
  end.

(** [clear] *)
Definition clear : Py HierarchicalStateCache () := λ s,
  clear_cold (cold s).*1 (set_hot [] 0 s).
End cache.

Record Snapshot := {
  snap_hot_entries : Z; snap_hot_bytes : Z;
  snap_cold_entries : Z; snap_cold_bytes : Z;
  snap_hot_hits : Z; snap_cold_hits : Z; snap_misses : Z;
  snap_promotions : Z; snap_spills : Z; snap_evictions : Z;
}.

(** [snapshot] *)
Definition snapshot (s : HierarchicalStateCache) : Snapshot :=
  {| snap_hot_entries := Zlen (hot s); snap_hot_bytes := hot_bytes s;
     snap_cold_entries := Zlen (cold s); snap_cold_bytes := cold_bytes s;
     snap_hot_hits := hits_hot s; snap_cold_hits := hits_cold s; snap_misses := misses s;
     snap_promotions := promotions s; snap_spills := spills s; snap_evictions := evictions s |}.

(** ** Invariants *)

Section proofs.
Variable sha256 : string → string.
Variable write_ok unlink_ok : string → bool.

(** The disk refused a write or a deletion, and the call raised it. *)
Definition io_error (x : exn) : Prop :=
  (∃ m, x = OSError m) ∧ ((∃ dest, write_ok dest = false) ∨ ∃ file, unlink_ok file = false).

Definition limits_ok (s : HierarchicalStateCache) : Prop :=
  0 <= (hot_limit s).1 ∧ 0 <= (hot_limit s).2 ∧ 0 <= (cold_limit s).1 ∧ 0 <= (cold_limit s).2.

(** The tiers hold different keys and their byte counters are exact. *)
Record accounted (s : HierarchicalStateCache) : Prop := {
  ac_hot : od_wf (hot s);
  ac_cold : od_wf (cold s);
  ac_hot_bytes : hot_bytes s = od_sum str_len (hot s);
  ac_cold_bytes : cold_bytes s = od_sum size (cold s);
  ac_disjoint : ∀ k p, od_get k (hot s) = Some p → od_get k (cold s) = None;
  ac_limits : limits_ok s;
  ac_sizes : ∀ k e, od_get k (cold s) = Some e → 0 <= size e;
}.

Definition cold_within (s : HierarchicalStateCache) : Prop :=
  Zlen (cold s) <= (cold_limit s).1 ∧ cold_bytes s <= (cold_limit s).2.
Definition hot_within (s : HierarchicalStateCache) : Prop :=
  Zlen (hot s) <= (hot_limit s).1 ∧ hot_bytes s <= (hot_limit s).2.

(** The operations on the cold tier leave the hot tier and the limits alone. *)
Definition same_hot (s s' : HierarchicalStateCache) : Prop :=
  hot s' = hot s ∧ hot_bytes s' = hot_bytes s ∧ hot_limit s' = hot_limit s ∧
  cold_limit s' = cold_limit s.

(** Payloads only move from the hot tier to the cold one, or disappear. *)
Definition moved (s s' : HierarchicalStateCache) : Prop :=
  (∀ k p, od_get k (hot s') = Some p → od_get k (hot s) = Some p) ∧
  (∀ k e, od_get k (cold s') = Some e →
     od_get k (cold s) = Some e ∨
     ∃ p, od_get k (hot s) = Some p ∧ size e = str_len p ∧ sha256_hex e = sha256 p).

Lemma same_hot_refl s : same_hot s s.
Proof. done. Qed.

Lemma same_hot_trans s1 s2 s3 : same_hot s1 s2 → same_hot s2 s3 → same_hot s1 s3.
Proof. unfold same_hot. intros (?&?&?&?) (?&?&?&?). split_and!; congruence. Qed.

Lemma moved_refl s : moved s s.
Proof. split; eauto. Qed.

Lemma moved_trans s1 s2 s3 : moved s1 s2 → moved s2 s3 → moved s1 s3.
Proof.
  intros [A1 B1] [A2 B2]. split; [eauto|]. intros k e [He|(p & Hp & ?)]%B2; [by apply B1|].
  right. exists p. split; [by apply A1|done].
Qed.

(** Deleting a cold entry forgets it, whether or not its file goes, and keeps the
    accounting. *)
Lemma delete_cold_spec k e s :
  accounted s → od_get k (cold s) = Some e →
  ∃ r s', delete_cold unlink_ok k s = (r, s') ∧
    cold s' = od_del k (cold s) ∧ cold_bytes s' = cold_bytes s - size e ∧
    accounted s' ∧ moved s s' ∧ same_hot s s' ∧
    match r with Ok _ => True | Raise x => io_error x end.
Proof.
  intros [H1 H2 H3 H4 H5 H6 H7] He.
  assert (∀ fs, let s' := set_cold (od_del k (cold s)) (cold_bytes s - size e) fs s in
                accounted s' ∧ moved s s') as Hany.
  { intros fs. split.
    - constructor; cbn; try done; [by apply od_wf_del| | |].
      + rewrite (od_sum_del _ _ _ _ He). lia.
      + intros k' p Hp. specialize (H5 k' p Hp).
        destruct (decide (k = k')) as [<-|]; [by apply od_get_del|]. by rewrite od_get_del_ne.
      + intros k' e' He'. apply (H7 k').
        destruct (decide (k = k')) as [<-|]; [by rewrite od_get_del in He'|].
        by rewrite od_get_del_ne in He'.
    - split; cbn; [done|]. intros k' e' He'. left. destruct (decide (k = k')) as [<-|].
      + by rewrite od_get_del in He'.
      + by rewrite od_get_del_ne in He'. }
  unfold delete_cold, unlink. rewrite He.
  destruct (unlink_ok (path e)) eqn:Eu; (eexists _, _; split; [reflexivity|]).
  - destruct (Hany (delete (path e) (files s))). by split_and!.
  - destruct (Hany (files s)). split_and!; try done. split; [eauto|right; eauto].
Qed.

Lemma count_accounted a b c d e f s : accounted s → accounted (count a b c d e f s).
Proof. intros []. by constructor. Qed.

Lemma trim_cold_spec fuel s :
  accounted s → (length (cold s) <= fuel)%nat →
  let '(r, s') := trim_cold unlink_ok fuel s in
  accounted s' ∧ moved s s' ∧ same_hot s s' ∧
  match r with Ok _ => cold_within s' | Raise x => io_error x end.
Proof.
  revert s. induction fuel as [|fuel IH]; intros s Ha Hf; cbn [trim_cold].
  - assert (cold s = []) as Hnil by (destruct (cold s); [done|cbn in Hf; lia]).
    split_and!; [done|apply moved_refl|done|].
    destruct Ha as [_ _ _ Hb _ (_ & _ & ? & ?) _]. unfold cold_within. rewrite Hb, Hnil. cbn. done.
  - destruct (_ || _) eqn:E.
    2:{ apply orb_false_iff in E as [E1 E2]. breflect.
        split_and!; [done|apply moved_refl|done|done]. }
    destruct (cold s) as [|[v ev] rest] eqn:Hc.
    { exfalso. destruct Ha as [_ _ _ Hb _ (_ & _ & ? & ?) _]. rewrite Hc, od_sum_nil in Hb.
      rewrite Hb, orb_true_iff, !Z.gtb_lt in E. change (Zlen (@nil (HierarchicalStateKey * ColdEntry))) with 0 in E. lia. }
    assert (od_get v (cold s) = Some ev) as Hv by (rewrite Hc; cbn; by rewrite decide_True).
    destruct (delete_cold_spec v ev s Ha Hv) as (r & s1 & Hrun & Hc1 & _ & Ha1 & Hm1 & Hs1 & Hr).
    unfold bind at 1. rewrite Hrun. destruct r as [u|x]; [|done]. unfold bind, modify.
    set (s2 := count 0 0 0 0 0 1 s1).
    assert (cold s2 = rest) as Hc2 by (cbn; rewrite Hc1, Hc; cbn; by rewrite decide_True).
    specialize (IH s2 ltac:(by apply count_accounted) ltac:(rewrite Hc2; cbn in Hf; lia)).
    destruct (trim_cold unlink_ok fuel s2) as [r s']. destruct IH as (Ha' & Hm' & Hs' & Hw').
    split_and!; [done| |by eapply same_hot_trans|done].
    eapply moved_trans; [exact Hm1|exact Hm'].
Qed.

Lemma store_cold_spec k p s :
  accounted s → od_get k (cold s) = None → od_get k (hot s) = None →
  let '(r, s') := store_cold sha256 write_ok unlink_ok k p s in
  accounted s' ∧ same_hot s s' ∧
  (∀ k' e, od_get k' (cold s') = Some e →
     od_get k' (cold s) = Some e ∨ k' = k ∧ size e = str_len p ∧ sha256_hex e = sha256 p) ∧
  match r with
  | Ok stored => (cold_within s → cold_within s') ∧ (stored = true → od_mem k (cold s') = true)
  | Raise x => io_error x
  end.
Proof.
  intros Ha Hk Hkh. unfold store_cold.
  destruct (_ || _) eqn:E; [split_and!; try done; eauto|].
  apply orb_false_iff in E as [E1 E2]. breflect.
  destruct (write_ok _) eqn:Ew; cbn [negb].
  2:{ split_and!; try done; [eauto|]. split; [eauto|left; eauto]. }
  set (e := mkCold _ _ _). set (s1 := set_cold _ _ _ s).
  assert (cold s1 = cold s ++ [(k, e)]) as Hc1 by (by apply od_set_new).
  assert (accounted s1) as Ha1.
  { destruct Ha as [H1 H2 H3 H4 H5 H6 H7]. constructor; try done.
    - by apply (od_wf_set k e).
    - rewrite Hc1, od_sum_snoc. cbn. lia.
    - rewrite Hc1. intros k' p' Hp. rewrite od_get_app, (H5 k' p' Hp). cbn.
      rewrite decide_False; [done|]. cbn in Hp. intros ->. congruence.
    - rewrite Hc1. intros k' e' [He'|[_ ->]]%od_get_snoc_inv; [by apply (H7 k')|].
      cbn. unfold str_len. lia. }
  pose proof (trim_cold_spec (length (cold s1)) s1 Ha1 ltac:(done)) as Htrim.
  unfold bind. destruct (trim_cold unlink_ok _ s1) as [r s'].
  destruct Htrim as (Ha' & Hm' & Hs' & Hw').
  assert (∀ k' e', od_get k' (cold s') = Some e' → od_get k' (cold s) = Some e' ∨
            k' = k ∧ size e' = str_len p ∧ sha256_hex e' = sha256 p) as Hcold.
  { intros k' e' He'. destruct (proj2 Hm' k' e' He') as [He1|(p' & Hp' & ? & ?)].
    - rewrite Hc1, od_get_app in He1. destruct (od_get k' (cold s)) as [e0|] eqn:E0; [left; congruence|].
      cbn in He1. destruct (decide (k' = k)) as [->|]; [|done]. injection He1 as <-. by right.
    - exfalso. cbn in Hp'. pose proof (proj1 Hm' k' p'). destruct Hs' as (Hh & _).
      destruct Ha' as [_ _ _ _ Hd _ _]. rewrite (Hd k' p') in He'; [done|]. by rewrite Hh. }
  destruct r; split_and!; done.
Qed.

(** ** The hot tier *)

Definition same_limits (s s' : HierarchicalStateCache) : Prop :=
  hot_limit s' = hot_limit s ∧ cold_limit s' = cold_limit s.

(** The entry [k] that trimming must not evict: the excluded one, or without
    exclusion the most recent one; it fits the tier on its own. *)
Definition protected (exclude : option HierarchicalStateKey) (k : HierarchicalStateKey) (p : string)
    (s : HierarchicalStateCache) : Prop :=
  od_get k (hot s) = Some p ∧ 1 <= (hot_limit s).1 ∧ str_len p <= (hot_limit s).2 ∧
  (exclude = Some k ∨ exclude = None ∧ ∃ d, hot s = d ++ [(k, p)]).

Lemma fits_hot_true p s :
  limits_ok s → fits_hot p s = true → 1 <= (hot_limit s).1 ∧ str_len p <= (hot_limit s).2.
Proof. unfold fits_hot, limits_ok. intros ??. breflect. lia. Qed.

(** Over the limits there is an entry to evict that is not the protected one. *)
Lemma victim_exists exclude k p s :
  accounted s → protected exclude k p s →
  (Zlen (hot s) >? (hot_limit s).1) || (hot_bytes s >? (hot_limit s).2) = true →
  ∃ v pv, first_candidate exclude (hot s) = Some (v, pv) ∧ od_get v (hot s) = Some pv ∧ v ≠ k ∧
          (exclude = None → ∀ d, hot s = d ++ [(k, p)] → ∃ d', od_del v (hot s) = d' ++ [(k, p)]).
Proof.
  intros Ha (Hk & H1 & H2 & Hex) E. rewrite orb_true_iff, !Z.gtb_lt in E.
  rewrite (ac_hot_bytes _ Ha) in E. unfold first_candidate.
  destruct (find _ (hot s)) as [[v pv]|] eqn:Hf.
  - pose proof (find_some _ _ Hf) as [Hin Hne]. cbn in Hne. breflect.
    apply list_elem_of_In, od_get_iff in Hin; [|apply Ha]. exists v, pv.
    assert (v ≠ k) as Hvk.
    { destruct Hex as [->|[-> [d Hd]]]; [congruence|]. intros ->. rewrite Hd in *.
      destruct d as [|[v0 p0] d].
      - cbn in E. change (Zlen [(k, p)]) with 1 in E. rewrite od_sum_cons, od_sum_nil in E. cbn in E. lia.
      - cbn in Hf. injection Hf as -> ->. destruct Ha as [Hw _ _ _ _ _ _]. unfold od_wf in Hw.
        rewrite Hd in Hw. cbn in Hw. apply NoDup_cons in Hw as [Hn _]. apply Hn.
        rewrite fmap_app. set_solver. }
    split_and!; [done|done|done|]. intros -> d Hd. rewrite Hd in Hf |- *.
    destruct d as [|[v0 p0] d]; cbn in Hf; injection Hf as -> ->; [done|].
    cbn. rewrite decide_True by done. by exists d.
  - exfalso. pose proof (find_none _ _ Hf) as Hall.
    assert (∀ q, q ∈ hot s → exclude = Some q.1) as Hex'.
    { intros q Hq%list_elem_of_In. specialize (Hall q Hq). cbn in Hall. breflect. done. }
    pose proof (Hex' (k, p) (od_get_elem _ _ _ Hk)) as ->. cbn in Hex'.
    pose proof (ac_hot _ Ha) as Hw. unfold od_wf in Hw.
    destruct (hot s) as [|[k1 p1] [|[k2 p2] d]]; [done| |].
    + cbn in Hk. destruct (decide (k = k1)); [|done]. injection Hk as ->.
      change (Zlen [(k1, p)]) with 1 in E. rewrite od_sum_cons, od_sum_nil in E. cbn in E. lia.
    + pose proof (Hex' (k1, p1) ltac:(left)) as [= <-].
      pose proof (Hex' (k2, p2) ltac:(right; left)) as [= <-].
      apply NoDup_cons in Hw as [Hn _]. apply Hn. cbn. left.
Qed.

(** Taking an entry out of the hot tier. *)
Lemma hot_delete_accounted v pv s :
  accounted s → od_get v (hot s) = Some pv →
  let s' := set_hot (od_del v (hot s)) (hot_bytes s - str_len pv) s in
  accounted s' ∧ od_get v (hot s') = None ∧ od_get v (cold s') = None ∧ moved s s'.
Proof.
  intros [H1 H2 H3 H4 H5 H6 H7] Hv. split; [|split; [|split; [|split]]]; cbn.
  - constructor; cbn; try done; [by apply od_wf_del|rewrite (od_sum_del _ _ _ _ Hv); lia|].
    intros k p Hp. apply (H5 k p). destruct (decide (v = k)) as [<-|]; [by rewrite od_get_del in Hp|].
    by rewrite od_get_del_ne in Hp.
  - by apply od_get_del.
  - by eapply H5.
  - intros k p Hp. destruct (decide (v = k)) as [<-|]; [by rewrite od_get_del in Hp|].
    by rewrite od_get_del_ne in Hp.
  - eauto.
Qed.

Lemma trim_hot_spec fuel exclude k p s :
  accounted s → (length (hot s) <= fuel)%nat → protected exclude k p s →
  let '(r, s') := trim_hot sha256 write_ok unlink_ok fuel exclude s in
  accounted s' ∧ moved s s' ∧ same_limits s s' ∧
  match r with
  | Ok _ => hot_within s' ∧ (cold_within s → cold_within s') ∧ od_get k (hot s') = Some p
  | Raise x => io_error x
  end.
Proof.
  revert s. induction fuel as [|fuel IH]; intros s Ha Hf Hp; cbn [trim_hot].
  { destruct Hp as (Hk & _). destruct (hot s); [done|cbn in Hf; lia]. }
  destruct (_ || _) eqn:E.
  2:{ apply orb_false_iff in E as [E1 E2]. breflect. split_and!; try done; apply moved_refl || apply Hp. }
  destruct (victim_exists _ _ _ _ Ha Hp E) as (v & pv & Hcand & Hv & Hvk & Hlast). rewrite Hcand.
  destruct (hot_delete_accounted v pv s Ha Hv) as (Ha1 & Hvh & Hvc & Hm1).
  set (s1 := set_hot _ _ s) in *. unfold bind at 1.
  pose proof (store_cold_spec v pv s1 Ha1 Hvc Hvh) as Hst.
  destruct (store_cold sha256 write_ok unlink_ok v pv s1) as [r2 s2].
  destruct Hst as (Ha2 & (Hh2 & Hb2 & Hl2 & Hc2) & Hcold & Hr2).
  assert (moved s s2) as Hm2.
  { split; rewrite ?Hh2; [apply Hm1|]. intros k' e [He|(-> & Hsz & Hsha)]%Hcold.
    - by apply Hm1.
    - right. by exists pv. }
  destruct r2 as [stored|x]; [|by split_and!]. destruct Hr2 as [Hw2 _].
  unfold bind, modify. set (s3 := (if stored then _ else _) s2).
  assert (accounted s3 ∧ hot s3 = hot s2 ∧ cold s3 = cold s2 ∧ hot_limit s3 = hot_limit s2 ∧
          cold_limit s3 = cold_limit s2 ∧ cold_bytes s3 = cold_bytes s2)
    as (Ha3 & Hh3 & Hcd3 & Hl3 & Hc3 & Hcb3)
    by (unfold s3; destruct stored; split_and!; try done; by apply count_accounted).
  assert (moved s s3) as Hm3 by (unfold moved; rewrite Hh3, Hcd3; exact Hm2).
  assert (hot s3 = od_del v (hot s)) as Hh by (by rewrite Hh3, Hh2).
  specialize (IH s3 Ha3). assert (protected exclude k p s3) as Hp3.
  { destruct Hp as (Hk & H1 & H2 & Hex). unfold protected. rewrite Hh, Hl3, Hl2. cbn.
    rewrite od_get_del_ne by done. split_and!; [done|done|done|].
    destruct Hex as [?|[He [d Hd]]]; [by left|right]. split; [done|]. by apply Hlast with d. }
  assert (length (hot s3) <= fuel)%nat as Hf3.
  { pose proof (od_length_del v (hot s) ltac:(eauto)). rewrite Hh. unfold Zlen in *. lia. }
  specialize (IH Hf3 Hp3). destruct (trim_hot sha256 write_ok unlink_ok fuel exclude s3) as [r s4].
  destruct IH as (Ha4 & Hm4 & [Hl4 Hc4] & Hr). split; [done|]. split; [by eapply moved_trans|].
  split; [split; [by rewrite Hl4, Hl3, Hl2|by rewrite Hc4, Hc3, Hc2]|].
  destruct r as [u|x]; [|done]. destruct Hr as (? & Hcw & ?). split_and!; try done.
  intros Hw. apply Hcw. unfold cold_within in *. rewrite Hcd3, Hcb3, Hc3. by apply Hw2.
Qed.

(** Adding a payload under a new key to the hot tier. *)
Lemma hot_insert_accounted k p s :
  accounted s → od_get k (hot s) = None → od_get k (cold s) = None →
  accounted (hot_insert k p s) ∧ hot (hot_insert k p s) = hot s ++ [(k, p)].
Proof.
  intros [H1 H2 H3 H4 H5 H6 H7] Hh Hc. assert (od_set k p (hot s) = hot s ++ [(k, p)]) as Heq
    by (by apply od_set_new). split; [|done].
  constructor; cbn; rewrite ?Heq; try done; [by apply od_wf_snoc|rewrite od_sum_snoc; lia|].
  intros k' p' Hp. destruct (decide (k = k')) as [<-|]; [done|]. rewrite od_get_snoc_ne in Hp by done.
  by eapply H5.
Qed.

(** [_remove_locked] forgets the key, even when its file cannot be deleted. *)
Lemma remove_locked_spec k s :
  accounted s →
  let '(r, s') := remove_locked unlink_ok k s in
  accounted s' ∧ moved s s' ∧ same_limits s s' ∧
  od_get k (hot s') = None ∧ od_get k (cold s') = None ∧
  (cold_within s → cold_within s') ∧ (hot_within s → hot_within s') ∧
  match r with Ok _ => True | Raise x => io_error x end.
Proof.
  intros Ha. unfold remove_locked. destruct (od_get k (hot s)) as [p|] eqn:Hh.
  - destruct (hot_delete_accounted k p s Ha Hh) as (Ha' & ? & ? & ?).
    split_and!; try done. unfold hot_within. cbn.
    pose proof (od_length_del k (hot s) ltac:(eauto)). unfold str_len. lia.
  - unfold od_mem, is_some, is_none. destruct (od_get k (cold s)) as [e|] eqn:Hc; cbn.
    + destruct (delete_cold_spec k e s Ha Hc)
        as (r & s' & Hrun & Hcd & Hcb & Ha' & Hm & (Hh' & Hb' & Hl' & Hcl') & Hr).
      unfold bind. rewrite Hrun.
      assert (od_get k (hot s') = None) as Hn1 by (by rewrite Hh').
      assert (od_get k (cold s') = None) as Hn2 by (rewrite Hcd; apply od_get_del, Ha).
      assert (cold_within s → cold_within s') as Hcw.
      { unfold cold_within. rewrite Hcd, Hcb, Hcl'.
        pose proof (od_length_del k (cold s) ltac:(eauto)). pose proof (ac_sizes _ Ha _ _ Hc). lia. }
      assert (hot_within s → hot_within s') as Hhw by (unfold hot_within; by rewrite Hh', Hb', Hl').
      destruct r; by split_and!.
    + split_and!; try done. apply moved_refl.
Qed.

(** ** [put] *)

Definition put_args_ok (p : string) : bool :=
  (1 <=? str_len p) && (str_len p <=? MAX_HIERARCHICAL_CACHE_BYTES).

(** What [put] leaves in the tiers: the new payload under [k], and for the other
    keys what was there, possibly spilled to the cold tier. *)
Definition put_moves (k : HierarchicalStateKey) (p : string) (s s' : HierarchicalStateCache) : Prop :=
  (∀ k' q, od_get k' (hot s') = Some q →
     k' ≠ k ∧ od_get k' (hot s) = Some q ∨ k' = k ∧ q = p) ∧
  (∀ k' e, od_get k' (cold s') = Some e →
     k' ≠ k ∧ od_get k' (cold s) = Some e ∨
     ∃ q, (k' ≠ k ∧ od_get k' (hot s) = Some q ∨ k' = k ∧ q = p) ∧ size e = str_len q ∧
          sha256_hex e = sha256 q).

(** The outcomes of [put]. *)
Lemma put_spec k p s :
  accounted s →
  let '(r, s') := put sha256 write_ok unlink_ok k p s in
  accounted s' ∧ same_limits s s' ∧
  (put_args_ok p = true → put_moves k p s s') ∧
  match r with
  | Ok where_ =>
      put_args_ok p = true ∧ (hot_within s → hot_within s') ∧ (cold_within s → cold_within s') ∧
      (where_ = "hot"%string → od_get k (hot s') = Some p) ∧
      (where_ = "cold"%string → od_mem k (cold s') = true)
  | Raise x =>
      put_args_ok p = false ∧ x = ValueError "invalid hierarchical cache value" ∧ s' = s ∨
      put_args_ok p = true ∧ io_error x
  end.
Proof.
  intros Ha. unfold put. fold (put_args_ok p). destruct (put_args_ok p) eqn:Ep; cbn [negb].
  2:{ split_and!; try done; eauto. }
  unfold bind at 1. pose proof (remove_locked_spec k s Ha) as Hrm.
  destruct (remove_locked unlink_ok k s) as [r1 s1].
  destruct Hrm as (Ha1 & Hm1 & Hl1 & Hh1 & Hc1 & Hcw1 & Hhw1 & Hr1).
  destruct r1 as [b|x].
  2:{ split_and!; try done; [|eauto]. intros _. split.
      - intros k' q Hq. left. split; [intros ->; congruence|by apply Hm1].
      - intros k' e He. assert (k' ≠ k) as Hne by (intros ->; congruence).
        destruct (proj2 Hm1 k' e He) as [?|(q & ? & ? & ?)]; [by left|right; exists q; eauto]. }
  destruct (fits_hot p s1) eqn:Ef.
  - unfold bind at 1, modify at 1. destruct (hot_insert_accounted k p s1 Ha1 Hh1 Hc1) as [Ha2 Happ].
    set (s2 := hot_insert k p s1) in *. unfold bind.
    destruct (fits_hot_true p s1 (ac_limits _ Ha1) Ef) as [Hf1 Hf2].
    pose proof (trim_hot_spec (length (hot s2)) None k p s2 Ha2 ltac:(done)) as Htrim.
    assert (protected None k p s2) as Hprot.
    { split; [rewrite Happ; by apply od_get_snoc|]. split; [done|]. split; [done|]. right. eauto. }
    specialize (Htrim Hprot). destruct (trim_hot sha256 write_ok unlink_ok _ None s2) as [r s3].
    destruct Htrim as (Ha3 & [Hmh Hmc] & Hl3 & Hr).
    assert (∀ k' q, od_get k' (hot s2) = Some q →
              k' ≠ k ∧ od_get k' (hot s) = Some q ∨ k' = k ∧ q = p) as Hh2.
    { intros k' q. rewrite Happ. intros [?|[-> ->]]%od_get_snoc_inv; [left|by right].
      split; [intros ->; congruence|by apply Hm1]. }
    assert (same_limits s s3) as Hl by (destruct Hl1, Hl3; cbn in *; split; congruence).
    assert (put_moves k p s s3) as Hmv.
    { split; [intros k' q ?%Hmh; by apply Hh2|].
      intros k' e [He|(q & Hq & ? & ?)]%Hmc; [|right; exists q; split; [by apply Hh2|done]].
      assert (k' ≠ k) as Hne by (intros ->; cbn in He; congruence).
      destruct (proj2 Hm1 k' e He) as [?|(q & ? & ? & ?)]; [by left|right; exists q; eauto]. }
    destruct r as [u|x].
    + destruct Hr as (? & ? & ?). split_and!; try done; eauto.
    + split_and!; try done; eauto.
  - unfold bind at 1. pose proof (store_cold_spec k p s1 Ha1 Hc1 Hh1) as Hst.
    destruct (store_cold sha256 write_ok unlink_ok k p s1) as [r2 s2].
    destruct Hst as (Ha2 & (Hh2 & Hb2 & Hl2 & Hcl2) & Hcold & Hr2).
    assert (same_limits s s2) as Hl by (destruct Hl1; split; congruence).
    assert (put_moves k p s s2) as Hmv.
    { split.
      - intros k' q Hq. rewrite Hh2 in Hq. left. split; [intros ->; congruence|by apply Hm1].
      - intros k' e [He|(-> & ? & ?)]%Hcold; [|right; exists p; eauto].
        assert (k' ≠ k) as Hne by (intros ->; congruence).
        destruct (proj2 Hm1 k' e He) as [?|(q & ? & ? & ?)]; [by left|right; exists q; eauto]. }
    assert (hot_within s → hot_within s2) as Hhw.
    { intros Hw%Hhw1. unfold hot_within in *. by rewrite Hh2, Hb2, Hl2. }
    destruct r2 as [stored|x]; [|split_and!; try done; eauto]. destruct Hr2 as [Hw2 Hmem].
    destruct stored; cbn; split_and!; try done; eauto. by apply count_accounted.
Qed.

(** ** [get] *)

Lemma count_within a b c d e f s :
  (hot_within s → hot_within (count a b c d e f s)) ∧
  (cold_within s → cold_within (count a b c d e f s)).
Proof. done. Qed.

(** The file can be opened for reading. *)
Definition opens (fs : gmap string File) (file : string) : bool :=
  match fs !! file with Some f => openable f | None => false end.

Lemma read_cold_spec e s :
  match read_cold sha256 e s with
  | Ok p => size e = str_len p ∧ sha256_hex e = sha256 p
  | Raise (OSError _) => opens (files s) (path e) = false
  | Raise (ValueError _) => True
  | Raise _ => False
  end.
Proof.
  unfold read_cold, opens. destruct (files s !! path e) as [f|]; [|done].
  destruct (openable f); cbn [negb]; [|done].
  destruct (negb (private_file f) || _) eqn:E1; [done|].
  destruct (negb (str_eqb _ _)) eqn:E2; [done|].
  unfold str_eqb in E2. breflect. done.
Qed.

Lemma touch_hot_accounted k s :
  accounted s → accounted (set_hot (od_move_to_end k (hot s)) (hot_bytes s) s).
Proof.
  intros [H1 H2 H3 H4 H5 H6 H7]. constructor; cbn; try done.
  - by apply od_wf_move.
  - by rewrite od_sum_move.
  - intros k' p. rewrite od_get_move by done. apply H5.
Qed.

Lemma touch_cold_accounted k s :
  accounted s → accounted (set_cold (od_move_to_end k (cold s)) (cold_bytes s) (files s) s).
Proof.
  intros [H1 H2 H3 H4 H5 H6 H7]. constructor; cbn; try done.
  - by apply od_wf_move.
  - by rewrite od_sum_move.
  - intros k' p Hp. rewrite od_get_move by done. by eapply H5.
  - intros k' e. rewrite od_get_move by done. apply H7.
Qed.

(** The promotion of a cold entry that was read. *)
Lemma promote_spec k e p s :
  accounted s → od_get k (cold s) = Some e → od_get k (hot s) = None →
  size e = str_len p → sha256_hex e = sha256 p → fits_hot p s = true →
  let '(r, s') :=
    (delete_cold unlink_ok k ;;;
     modify (λ s, count 0 0 0 1 0 0 (hot_insert k p s)) ;;;
     (λ s, trim_hot sha256 write_ok unlink_ok (length (hot s)) (Some k) s) ;;;
     ret (Some (mkValue p "hot" (sha256_hex e)))) s in
  accounted s' ∧ same_limits s s' ∧
  (∀ k' q, od_get k' (hot s') = Some q → od_get k' (hot s) = Some q ∨ k' = k ∧ q = p) ∧
  (∀ k' e', od_get k' (cold s') = Some e' → od_get k' (cold s) = Some e' ∨
     ∃ q, (od_get k' (hot s) = Some q ∨ k' = k ∧ q = p) ∧ size e' = str_len q ∧
          sha256_hex e' = sha256 q) ∧
  match r with
  | Ok v => v = Some (mkValue p "hot" (sha256_hex e)) ∧ hot_within s' ∧
            (cold_within s → cold_within s')
  | Raise x => io_error x
  end.
Proof.
  intros Ha Hc Hh Hsz Hsha Hfit. unfold bind at 1.
  destruct (delete_cold_spec k e s Ha Hc)
    as (rd & s1 & Hrun & Hcd1 & Hcb1 & Ha1 & Hm1 & (Hh1 & Hb1 & Hl1 & Hcl1) & Hrd).
  rewrite Hrun. destruct rd as [ud|xd].
  2:{ split; [done|]. split; [done|]. split; [intros k' q; rewrite Hh1; by left|]. split; [|done].
      intros k' e' [?|(q & ? & ?)]%Hm1; [by left|right; eauto]. }
  unfold bind at 1, modify at 1.
  assert (od_get k (cold s1) = None) as Hc1 by (rewrite Hcd1; apply od_get_del, Ha).
  destruct (hot_insert_accounted k p s1 Ha1 ltac:(by rewrite Hh1) Hc1) as [Ha2 Happ].
  set (s2 := count 0 0 0 1 0 0 (hot_insert k p s1)).
  assert (accounted s2) as Ha2' by (by apply count_accounted).
  assert (hot s2 = hot s ++ [(k, p)]) as Hh2 by (rewrite <-Hh1; exact Happ).
  destruct (fits_hot_true p s (ac_limits _ Ha) Hfit) as [Hf1 Hf2].
  pose proof (trim_hot_spec (length (hot s2)) (Some k) k p s2 Ha2' ltac:(done)) as Htrim.
  assert (protected (Some k) k p s2) as Hprot.
  { split; [rewrite Hh2; by apply od_get_snoc|]. change (hot_limit s2) with (hot_limit s1).
    rewrite Hl1. split; [done|]. split; [done|]. by left. }
  specialize (Htrim Hprot). unfold bind.
  destruct (trim_hot sha256 write_ok unlink_ok _ (Some k) s2) as [r s3].
  destruct Htrim as (Ha3 & [Hmh Hmc] & Hl3 & Hr).
  assert (∀ k' q, od_get k' (hot s2) = Some q → od_get k' (hot s) = Some q ∨ k' = k ∧ q = p) as Hhq.
  { intros k' q. rewrite Hh2. intros [?|[-> ->]]%od_get_snoc_inv; [by left|by right]. }
  assert (same_limits s s3) as Hl.
  { destruct Hl3 as [Hl3 Hl3']. cbn in Hl3, Hl3'. split; congruence. }
  assert (cold_within s → cold_within s2) as Hcw.
  { unfold cold_within. cbn. rewrite Hcd1, Hcb1, Hcl1. pose proof (od_length_del k (cold s) ltac:(eauto)).
    pose proof (ac_sizes _ Ha _ _ Hc). lia. }
  assert (∀ k' e', od_get k' (cold s3) = Some e' → od_get k' (cold s) = Some e' ∨
     ∃ q, (od_get k' (hot s) = Some q ∨ k' = k ∧ q = p) ∧ size e' = str_len q ∧
          sha256_hex e' = sha256 q) as Hcq.
  { intros k' e' [He|(q & Hq & ? & ?)]%Hmc; [|right; exists q; split; [by apply Hhq|done]].
    left. change (cold s2) with (cold s1) in He. destruct (proj2 Hm1 k' e' He) as [?|(q & Hq & _)]; [done|].
    pose proof (ac_disjoint _ Ha2' k' q) as Hd. rewrite Hh2, od_get_app, Hq in Hd.
    specialize (Hd eq_refl). change (cold s2) with (cold s1) in Hd. congruence. }
  destruct r as [u|x]; cbn.
  - destruct Hr as (? & ? & ?). split_and!; try done; eauto.
  - split; [done|]. split; [done|]. split; [|by split].
    intros k' q ?%Hmh. by apply Hhq.
Qed.

Lemma reliable_no_io_error x :
  (∀ file, write_ok file = true ∧ unlink_ok file = true) → ¬ io_error x.
Proof. intros Hall (_ & [[f Hf]|[f Hf]]); destruct (Hall f); congruence. Qed.

Lemma get_spec k s :
  accounted s →
  let '(r, s') := get_value sha256 write_ok unlink_ok k s in
  accounted s' ∧ same_limits s s' ∧
  (∀ k' q, od_get k' (hot s') = Some q → od_get k' (hot s) = Some q ∨
     ∃ e, od_get k' (cold s) = Some e ∧ size e = str_len q ∧ sha256_hex e = sha256 q) ∧
  (∀ k' e', od_get k' (cold s') = Some e' → od_get k' (cold s) = Some e' ∨
     ∃ q, (od_get k' (hot s) = Some q ∨
           ∃ e, od_get k' (cold s) = Some e ∧ size e = str_len q ∧ sha256_hex e = sha256 q) ∧
          size e' = str_len q ∧ sha256_hex e' = sha256 q) ∧
  ((∀ file, write_ok file = true ∧ unlink_ok file = true) → (hot_within s → hot_within s') ∧ (cold_within s → cold_within s')) ∧
  match r with
  | Ok None => od_get k (hot s) = None ∧ od_get k (cold s) = None
  | Ok (Some v) =>
      sha256_of v = sha256 (payload v) ∧
      (od_get k (hot s) = Some (payload v) ∨
       ∃ e, od_get k (cold s) = Some e ∧ size e = str_len (payload v) ∧
            sha256_hex e = sha256 (payload v))
  | Raise x =>
      ∃ e, od_get k (cold s) = Some e ∧
        match x with
        | ValueError _ => od_get k (cold s') = None
        | _ => io_error x ∨ (∃ m, x = OSError m) ∧ opens (files s) (path e) = false ∧ s' = s
        end
  end.
Proof.
  intros Ha. unfold get_value. destruct (od_get k (hot s)) as [p|] eqn:Hh.
  { split; [by apply count_accounted, touch_hot_accounted|]. split; [done|].
    assert (∀ k', od_get k' (od_move_to_end k (hot s)) = od_get k' (hot s)) as Hmv
      by (intros; apply od_get_move, Ha).
    cbn. split; [intros k' q; rewrite Hmv; by left|]. split; [by left|]. split; [|by split; [|left]].
    intros _. unfold hot_within, cold_within. cbn. by rewrite od_length_move. }
  destruct (od_get k (cold s)) as [e|] eqn:Hc.
  2:{ split; [by apply count_accounted|]. split_and!; try done; eauto. }
  pose proof (read_cold_spec e s) as Hread. destruct (read_cold sha256 e s) as [p|x].
  - destruct Hread as [Hsz Hsha].
    pose proof (touch_cold_accounted k s Ha) as Ha1.
    set (s1 := count 0 1 0 0 0 0 _). assert (accounted s1) as Ha1' by (by apply count_accounted).
    assert (∀ k', od_get k' (cold s1) = od_get k' (cold s)) as Hmv
      by (intros; apply od_get_move, Ha).
    assert (cold_within s → cold_within s1) as Hcw1 by (unfold cold_within; cbn; by rewrite od_length_move).
    destruct (fits_hot p s1) eqn:Ef.
    + pose proof (promote_spec k e p s1 Ha1' ltac:(by rewrite Hmv) Hh Hsz Hsha Ef) as Hp.
      destruct ((delete_cold unlink_ok k ;;; _) s1) as [r s3].
      destruct Hp as (Ha3 & Hl3 & Hhq & Hcq & Hr). split; [done|]. split; [done|]. split.
      { intros k' q [?|[-> ->]]%Hhq; [by left|right; eauto]. }
      split.
      { intros k' e' [He|(q & [?|[-> ->]] & ? & ?)]%Hcq.
        - left. by rewrite <-Hmv.
        - right. exists q. eauto.
        - right. exists p. split; [right; eauto|done]. }
      destruct r as [v|x].
      * destruct Hr as (-> & Hw & Hcw). split; [|cbn; split; [done|right; eauto]].
        intros _. split; [done|]. intros ?. by apply Hcw, Hcw1.
      * split; [intros Hall; by apply (reliable_no_io_error x) in Hall|].
        exists e. split; [done|]. destruct Hr as ([m ->] & ?). left. split; eauto.
    + split; [done|]. split; [done|]. split; [by left|]. split.
      { intros k' e'. rewrite Hmv. by left. }
      split; [done|]. cbn. split; [done|]. right. eauto.
  - destruct x; try done; cycle -1.
    { split_and!; try done; eauto 10. }
    destruct (delete_cold_spec k e s Ha Hc)
      as (rd & s1 & Hrun & Hcd1 & Hcb1 & Ha1 & [Hmh Hmc] & (Hh1 & Hb1 & Hl1 & Hcl1) & Hrd).
    unfold bind. rewrite Hrun.
    assert (cold_within s → cold_within s1) as Hcw.
    { unfold cold_within. rewrite Hcd1, Hcb1, Hcl1.
      pose proof (od_length_del k (cold s) ltac:(eauto)). pose proof (ac_sizes _ Ha _ _ Hc). lia. }
    assert (hot_within s → hot_within s1) as Hhw by (unfold hot_within; by rewrite Hh1, Hb1, Hl1).
    assert (od_get k (cold s1) = None) as Hgone by (rewrite Hcd1; apply od_get_del, Ha).
    assert (∀ k' e', od_get k' (cold s1) = Some e' → od_get k' (cold s) = Some e' ∨
     ∃ q, (od_get k' (hot s) = Some q ∨
           ∃ e, od_get k' (cold s) = Some e ∧ size e = str_len q ∧ sha256_hex e = sha256 q) ∧
          size e' = str_len q ∧ sha256_hex e' = sha256 q) as Hcq.
    { intros k' e' [?|(q & ? & ?)]%Hmc; [by left|right; exists q; eauto]. }
    destruct rd as [u|x]; cbn.
    + split; [by apply count_accounted|]. split_and!; try done; eauto.
    + destruct Hrd as ([m' ->] & Hbad). split; [done|]. split; [done|]. split; [eauto|].
      split; [done|]. split; [done|]. exists e. split; [done|]. left. split; eauto.
Qed.

(** ** [clear] *)

Lemma clear_cold_spec s :
  accounted s → hot s = [] →
  let '(r, s') := clear_cold unlink_ok (cold s).*1 s in
  accounted s' ∧ hot s' = [] ∧ same_limits s s' ∧ moved s s' ∧
  match r with Ok _ => cold s' = [] | Raise x => io_error x end.
Proof.
  remember (cold s) as d eqn:Hd. revert s Hd. induction d as [|[k e] d IH]; intros s Hd Ha Hh; cbn [fmap list_fmap fst clear_cold].
  - split_and!; try done. apply moved_refl.
  - assert (od_get k (cold s) = Some e) as He by (rewrite <-Hd; cbn; by rewrite decide_True).
    destruct (delete_cold_spec k e s Ha He)
      as (rd & s1 & Hrun & Hcd1 & _ & Ha1 & Hm1 & (Hh1 & _ & Hl1 & Hcl1) & Hrd).
    unfold bind. rewrite Hrun. destruct rd as [u|x].
    2:{ split_and!; try done. by rewrite Hh1. }
    assert (d = cold s1) as Hd1 by (rewrite Hcd1, <-Hd; cbn; by rewrite decide_True).
    specialize (IH s1 Hd1 Ha1 ltac:(by rewrite Hh1)).
    destruct (clear_cold unlink_ok _ s1) as [r s'].
    destruct IH as (? & ? & [? ?] & ? & ?). split_and!; try done.
    + unfold same_limits. split; congruence.
    + by eapply moved_trans.
Qed.

Lemma clear_spec s :
  accounted s →
  let '(r, s') := clear unlink_ok s in
  accounted s' ∧ hot s' = [] ∧ same_limits s s' ∧
  (∀ k e, od_get k (cold s') = Some e → od_get k (cold s) = Some e) ∧
  match r with Ok _ => cold s' = [] | Raise x => io_error x end.
Proof.
  intros [H1 H2 H3 H4 H5 H6 H7]. unfold clear.
  pose proof (clear_cold_spec (set_hot [] 0 s)) as Hc. cbn [cold set_hot] in Hc.
  destruct (clear_cold unlink_ok _ _) as [r s'].
  destruct Hc as (? & ? & ? & [_ Hm] & ?); [|done|].
  { constructor; cbn; try done. constructor. }
  split_and!; try done. intros k e [?|(p & Hp & _)]%Hm; done.
Qed.

End proofs.

(** ** The cache as a transition system *)

(** The last payload put under each key and neither removed nor cleared since. *)
Definition Model := HierarchicalStateKey → option string.
Definition model_set (m : Model) (k : HierarchicalStateKey) (v : option string) : Model :=
  λ k', if decide (k' = k) then v else m k'.

(** One call, or a change of the directory by somebody else.  [reliable] is true
    when no write and no deletion of the run fails. *)
Inductive cstep (sha256 : string → string) (reliable : bool)
    : Model * HierarchicalStateCache → Model * HierarchicalStateCache → Prop :=
| c_put w u k p m s :
    (reliable = true → ∀ file, w file = true ∧ u file = true) →
    cstep sha256 reliable (m, s)
      (if put_args_ok p then model_set m k (Some p) else m, (put sha256 w u k p s).2)
| c_get w u k m s :
    (reliable = true → ∀ file, w file = true ∧ u file = true) →
    cstep sha256 reliable (m, s) (m, (get_value sha256 w u k s).2)
| c_remove u k m s :
    (reliable = true → ∀ file, u file = true) →
    cstep sha256 reliable (m, s) (model_set m k None, (remove u k s).2)
| c_clear u m s :
    (reliable = true → ∀ file, u file = true) →
    cstep sha256 reliable (m, s)
      (if (clear u s).1 is Ok _ then λ _, None else m, (clear u s).2)
| c_tamper fs m s : cstep sha256 reliable (m, s) (m, set_cold (cold s) (cold_bytes s) fs s).

(** The tiers hold nothing but the model's payloads; a cold entry records the size
    and digest of its payload. *)
Definition coherent (sha256 : string → string) (m : Model) (s : HierarchicalStateCache) : Prop :=
  (∀ k p, od_get k (hot s) = Some p → m k = Some p) ∧
  (∀ k e, od_get k (cold s) = Some e →
     ∃ p, m k = Some p ∧ size e = str_len p ∧ sha256_hex e = sha256 p).

Record cache_inv (sha256 : string → string) (reliable : bool)
    (c : Model * HierarchicalStateCache) : Prop := {
  ci_accounted : accounted c.2;
  ci_coherent : Inj (=) (=) sha256 → coherent sha256 c.1 c.2;
  ci_within : reliable = true → hot_within c.2 ∧ cold_within c.2;
}.

Lemma put_coherent sha256 k p m s s' :
  coherent sha256 m s → put_moves sha256 k p s s' →
  coherent sha256 (model_set m k (Some p)) s'.
Proof.
  intros [Hh Hc] [Mh Mc]. split.
  - intros k' q [[Hne Hq]|[-> ->]]%Mh; unfold model_set; [rewrite decide_False by done; by apply Hh|].
    by rewrite decide_True.
  - intros k' e [[Hne He]|(q & [[Hne Hq]|[-> ->]] & Hsz)]%Mc; unfold model_set.
    + rewrite decide_False by done. by apply Hc.
    + rewrite decide_False by done. exists q. split; [by apply Hh|done].
    + rewrite decide_True by done. by exists p.
Qed.

Lemma new_cache_inv sha256 reliable he hb ce cb priv fs s :
  new_cache he hb ce cb priv fs = Ok s → cache_inv sha256 reliable (λ _, None, s).
Proof.
  unfold new_cache. destruct (negb (bounds_valid _ _ _ _)) eqn:E; [done|].
  destruct (negb priv); [done|]. intros [= <-]. unfold bounds_valid in E. breflect.
  constructor; cbn.
  - constructor; cbn; try done; constructor.
  - intros _. done.
  - intros _. split; split; cbn; done.
Qed.

Lemma put_keeps_inv sha256 reliable w u k p m s :
  (reliable = true → ∀ file, w file = true ∧ u file = true) →
  cache_inv sha256 reliable (m, s) →
  cache_inv sha256 reliable
    (if put_args_ok p then model_set m k (Some p) else m, (put sha256 w u k p s).2).
Proof.
  intros Hr [Ha Hco Hw]. cbn in *.
  pose proof (put_spec sha256 w u k p s Ha) as Hp. destruct (put sha256 w u k p s) as [r s'].
  destruct Hp as (Ha' & _ & Hmv & Hres). constructor; cbn; [done| |].
  - intros Hinj. specialize (Hco Hinj). destruct (put_args_ok p) eqn:E.
    + by eapply put_coherent; [|apply Hmv].
    + destruct r as [v|x]; [by destruct Hres|]. by destruct Hres as [(_ & _ & ->)|(? & _)].
  - intros Hrel. destruct (Hw Hrel). destruct r as [v|x].
    + destruct Hres as (_ & ? & ? & _). eauto.
    + destruct Hres as [(_ & _ & ->)|(_ & Hio)]; [done|].
      by apply reliable_no_io_error in Hio; [|apply Hr].
Qed.

Lemma get_keeps_inv sha256 reliable w u k m s :
  (reliable = true → ∀ file, w file = true ∧ u file = true) →
  cache_inv sha256 reliable (m, s) →
  cache_inv sha256 reliable (m, (get_value sha256 w u k s).2).
Proof.
  intros Hr [Ha Hco Hw]. cbn in *.
  pose proof (get_spec sha256 w u k s Ha) as Hg. destruct (get_value sha256 w u k s) as [r s'].
  destruct Hg as (Ha' & _ & Hh & Hc & Hb & _). constructor; cbn; [done| |].
  - intros Hinj. destruct (Hco Hinj) as [Ch Cc].
    assert (∀ k' q, (∃ e, od_get k' (cold s) = Some e ∧ size e = str_len q ∧
                          sha256_hex e = sha256 q) → m k' = Some q) as Hread.
    { intros k' q (e & He & _ & Hsha). destruct (Cc k' e He) as (p & Hp & _ & Hsha').
      rewrite Hp. f_equal. apply Hinj. congruence. }
    split.
    + intros k' q [?|?]%Hh; [by apply Ch|by apply Hread].
    + intros k' e [?|(q & [?|?] & ?)]%Hc; [by apply Cc|exists q; split; [by apply Ch|done]|].
      exists q. split; [by apply Hread|done].
  - intros Hrel. destruct (Hw Hrel). destruct (Hb (Hr Hrel)). eauto.
Qed.

Lemma cstep_inv sha256 reliable c c' :
  cache_inv sha256 reliable c → cstep sha256 reliable c c' → cache_inv sha256 reliable c'.
Proof.
  intros Hinv Hstep.
  destruct Hstep as [w u k p m s Hr|w u k m s Hr|u k m s Hr|u m s Hr|fs m s];
    [by apply put_keeps_inv|by apply get_keeps_inv| | |];
    destruct Hinv as [Ha Hco Hw]; cbn in *.
  - pose proof (remove_locked_spec sha256 (λ _, true) u k s Ha) as Hrm. unfold remove.
    destruct (remove_locked u k s) as [r s'].
    destruct Hrm as (Ha' & [Mh Mc] & _ & Hn1 & Hn2 & Wc & Wh & _).
    constructor; cbn; [done| |intros Hrel; destruct (Hw Hrel); eauto].
    intros Hinj. destruct (Hco Hinj) as [Ch Cc]. unfold model_set. split.
    + intros k' q Hq. rewrite decide_False by (intros ->; congruence). by apply Ch, Mh.
    + intros k' e He. rewrite decide_False by (intros ->; congruence).
      destruct (Mc k' e He) as [?|(q & ? & ?)]; [by apply Cc|exists q; split; [by apply Ch|done]].
  - pose proof (clear_spec sha256 (λ _, true) u s Ha) as Hcl.
    destruct (clear u s) as [r s']. destruct Hcl as (Ha' & H1 & [L1 L2] & Hsub & H2).
    pose proof (ac_limits _ Ha') as (? & ? & ? & ?). cbn. constructor; cbn; [done| |].
    + intros Hinj. destruct (Hco Hinj) as [_ Cc]. destruct r as [v|x].
      * split; rewrite ?H1, ?H2; done.
      * split; [by rewrite H1|]. intros k e He%Hsub. by apply Cc.
    + intros Hrel. split.
      * unfold hot_within. rewrite (ac_hot_bytes _ Ha'), H1, !od_sum_nil. split; cbn; done.
      * destruct r as [v|x].
        -- unfold cold_within. rewrite (ac_cold_bytes _ Ha'), H2, !od_sum_nil. split; cbn; done.
        -- by apply reliable_no_io_error in H2; [|intros; split; [|apply Hr]].
  - constructor; cbn; [|done|done]. destruct Ha. by constructor.
Qed.

Lemma cache_run_inv sha256 reliable he hb ce cb priv fs s0 m s :
  new_cache he hb ce cb priv fs = Ok s0 →
  rtc (cstep sha256 reliable) (λ _, None, s0) (m, s) → cache_inv sha256 reliable (m, s).
Proof.
  intros Hnew Hrun.
  apply (rtc_invariant (cstep sha256 reliable) (cache_inv sha256 reliable) _ _
           (cstep_inv sha256 reliable) (new_cache_inv sha256 reliable _ _ _ _ _ _ _ Hnew) Hrun).
Qed.

(** A cold entry whose file is gone or cannot be opened is kept: [get] raises the
    system error and changes nothing, so every later [get] of the key raises again. *)
Lemma unopenable_sticks sha256 w u k e s :
  od_get k (hot s) = None → od_get k (cold s) = Some e → opens (files s) (path e) = false →
  ∃ reason, get_value sha256 w u k s = (Raise (OSError reason), s).
Proof.
  intros Hh Hc Hf. unfold get_value, read_cold. rewrite Hh, Hc. unfold opens in Hf.
  destruct (files s !! path e) as [f|]; [|by eexists]. rewrite Hf. by eexists.
Qed.

(** ** Properties *)

(** Both tiers stay within their limits.  In every state reached while the
    disk accepts the writes and deletions, whatever happens to the files, each tier holds at
    most its number of entries and bytes, the byte counters equal the sizes
    held, and no key is in both tiers. *)
Theorem tiers_bounded sha256 he hb ce cb priv fs s0 m s :
  new_cache he hb ce cb priv fs = Ok s0 → rtc (cstep sha256 true) (λ _, None, s0) (m, s) →
  snap_hot_entries (snapshot s) <= (hot_limit s).1 ∧
  snap_hot_bytes (snapshot s) = od_sum str_len (hot s) ∧
  snap_hot_bytes (snapshot s) <= (hot_limit s).2 ∧
  snap_cold_entries (snapshot s) <= (cold_limit s).1 ∧
  snap_cold_bytes (snapshot s) = od_sum size (cold s) ∧
  snap_cold_bytes (snapshot s) <= (cold_limit s).2 ∧
  (∀ k, od_mem k (hot s) = true → od_mem k (cold s) = false).
Proof.
  intros Hnew Hrun. destruct (cache_run_inv _ _ _ _ _ _ _ _ _ _ _ Hnew Hrun) as [Ha _ Hw].
  destruct (Hw eq_refl) as [[? ?] [? ?]]. cbn in *. split_and!; try done; try apply Ha.
  intros k. unfold od_mem, is_some, is_none. destruct (od_get k (hot s)) as [p|] eqn:E; [|done].
  by rewrite (ac_disjoint _ Ha k p E).
Qed.

(** C7: the cache never serves anything but the last payload put, as far as
    SHA-256 has no collisions (the hypothesis on the digest).  Whatever writes and
    deletions fail and however the files are changed between the calls, [get]
    returns the payload last put under the key, with its digest, or misses, or
    raises for a cold entry; it misses only when neither tier has the key.  It
    raises [ValueError] only for an entry it then has forgotten, and [OSError] only
    when the file could not be opened, which leaves the cache as it was, or when
    the disk refused a write or a deletion.  An entry whose file cannot be opened
    always raises [OSError] and stays.  Right after a [put] that reported the hot
    tier the payload is there. *)
Theorem cache_coherent sha256 he hb ce cb priv fs s0 m s w u k p :
  Inj (=) (=) sha256 →
  new_cache he hb ce cb priv fs = Ok s0 → rtc (cstep sha256 false) (λ _, None, s0) (m, s) →
  match get_value sha256 w u k s with
  | (Ok (Some v), _) => m k = Some (payload v) ∧ sha256_of v = sha256 (payload v)
  | (Ok None, _) => od_get k (hot s) = None ∧ od_get k (cold s) = None
  | (Raise x, s') =>
      ∃ e, od_get k (cold s) = Some e ∧
        match x with
        | ValueError _ => od_get k (cold s') = None
        | OSError _ =>
            opens (files s) (path e) = false ∧ s' = s ∨
            (∃ file, w file = false) ∨ (∃ file, u file = false)
        | _ => False
        end
  end ∧
  (∀ e, od_get k (hot s) = None → od_get k (cold s) = Some e →
        opens (files s) (path e) = false →
        ∃ reason, get_value sha256 w u k s = (Raise (OSError reason), s)) ∧
  ((put sha256 w u k p s).1 = Ok "hot"%string →
   (get_value sha256 w u k (put sha256 w u k p s).2).1 = Ok (Some (mkValue p "hot" (sha256 p)))).
Proof.
  intros Hinj Hnew Hrun. destruct (cache_run_inv _ _ _ _ _ _ _ _ _ _ _ Hnew Hrun) as [Ha Hco _].
  destruct (Hco Hinj) as [Ch Cc]. cbn in *. split; [|split].
  - pose proof (get_spec sha256 w u k s Ha) as Hg. destruct (get_value sha256 w u k s) as [r s'].
    destruct Hg as (_ & _ & _ & _ & _ & Hres). destruct r as [[v|]|x]; try done.
    + destruct Hres as [Hsha [Hh|(e & He & _ & Hd)]]; split; try done; [by apply Ch|].
      destruct (Cc k e He) as (q & Hq & _ & Hd'). rewrite Hq. f_equal. apply Hinj. congruence.
    + destruct Hres as (e & He & Hx). exists e. split; [done|].
      unfold io_error in Hx. destruct x; try done; naive_solver.
  - intros e Hh Hc Hf. by apply unopenable_sticks with e.
  - pose proof (put_spec sha256 w u k p s Ha) as Hp. destruct (put sha256 w u k p s) as [r s']. cbn.
    intros ->. destruct Hp as (_ & _ & _ & _ & _ & _ & Hhot & _). unfold get_value.
    by rewrite (Hhot eq_refl).
Qed.

(** ** Behaviour on I/O errors *)

Definition demo_key (c : string) : HierarchicalStateKey := mkKey KV c.
Definition demo_cache : HierarchicalStateCache :=
  mkCache (2, 4) (1, 4) [] [] 0 0 0 0 0 0 0 0 ∅.
Definition demo_put (k p : string) (s : HierarchicalStateCache) : HierarchicalStateCache :=
  (put (λ x, x) (λ _, true) (λ _, true) (demo_key k) p s).2.

(** A write that fails while [put] spills: the call raises with the hot tier above
    its entry limit, and it stays there until a later [put]. *)
Definition demo_overfull : res exn string * HierarchicalStateCache :=
  put (λ x, x) (λ _, false) (λ _, true) (demo_key "c") "ccc" (demo_put "b" "bb" (demo_put "a" "aa" demo_cache)).

Lemma failed_spill_exceeds_limit :
  demo_overfull.1 = Raise (OSError "write") ∧ hot_bytes demo_overfull.2 = 5 ∧
  (hot_limit demo_overfull.2).2 = 4.
Proof. vm_compute. done. Qed.

(** A promotion whose file cannot be deleted loses the payload: it was read and
    counted as a hit, the call raises, and neither tier has the key any more. *)
Definition demo_lost : res exn (option HierarchicalStateValue) * HierarchicalStateCache :=
  get_value (λ x, x) (λ _, true) (λ _, false) (demo_key "a")
    (set_cold [(demo_key "a", mkCold "f" 2 "aa")] 2 {["f" := mkFile "aa" true true]} demo_cache).

Lemma failed_promotion_loses_payload :
  demo_lost.1 = Raise (OSError "unlink") ∧ hot demo_lost.2 = [] ∧ cold demo_lost.2 = [] ∧
  hits_cold demo_lost.2 = 1.
Proof. vm_compute. done. Qed.

(** ** Witnesses *)

Lemma demo_cache_new : new_cache 2 4 1 4 true ∅ = Ok demo_cache.
Proof. reflexivity. Qed.

Lemma tiers_bounded_witness :
  snap_hot_bytes (snapshot (demo_put "a" "aa" demo_cache)) <= 4.
Proof.
  exact (proj1 (proj2 (proj2 (tiers_bounded (λ x, x) 2 4 1 4 true ∅ demo_cache _
    (demo_put "a" "aa" demo_cache) demo_cache_new
    (rtc_once _ _ (c_put (λ x, x) true (λ _, true) (λ _, true) (demo_key "a") "aa" (λ _, None)
                     demo_cache (λ _ _, conj eq_refl eq_refl))))))).
Defined.

Lemma cache_coherent_witness :
  (get_value (λ x, x) (λ _, true) (λ _, true) (demo_key "a") (demo_put "a" "aa" demo_cache)).1
  = Ok (Some (mkValue "aa" "hot" "aa")).
Proof.
  destruct (cache_coherent (λ x, x) 2 4 1 4 true ∅ demo_cache (λ _, None) demo_cache
    (λ _, true) (λ _, true) (demo_key "a") "aa" ltac:(intros x y H; exact H) demo_cache_new (rtc_refl _ _))
    as (_ & _ & H).
  apply H. vm_compute. reflexivity.
Defined.

End StateCache.
