(* ===== verification/ExpertResidency.v ===== *)
(** * Expert residency manager (expert_residency.py)

    Bounded residency of expert weights owned by a backend: leases that pin an
    expert, eviction of idle experts by recency or by cost and frequency, and
    resizing that waits until leases permit it. *)

From S2P Require Import Prelude Types OrderedDict PyFloat.

From stdpp Require Import sorting.
#[local] Open Scope Z_scope.

Module ExpertResidency.
Import OrderedDict.

(** ** Data *)

Definition MAX_EXPERT_RESIDENCY_ENTRIES : Z := 65536.
Definition MAX_EXPERT_RESIDENCY_BYTES : Z := Z.shiftl 1 40.

Record ExpertKey := mkKey { layer : Z; expert : Z }.
#[export] Instance ExpertKey_eq_dec : EqDecision ExpertKey.
Proof. solve_decision. Defined.

(** [ExpertKey.__post_init__] *)
Definition key_valid (k : ExpertKey) : bool :=
  (0 <=? layer k) && (layer k <? 1000000) && (0 <=? expert k) && (expert k <? 1000000).

(** The backend's handle is an opaque number. *)
Record ExpertResource := mkResource { handle : Z; resident_bytes : Z }.

(** [ExpertResource.__post_init__] *)
Definition resource_valid (r : ExpertResource) : bool :=
  (1 <=? resident_bytes r) && (resident_bytes r <=? MAX_EXPERT_RESIDENCY_BYTES).

Record Entry := mkEntry {
  resource : ExpertResource;
  leases : Z;
  last_used : Z;
  accesses : Z;
  load_nanoseconds : Z;
}.

Record ExpertLease := mkLease {
  lease_key : ExpertKey;
  lease_resource : ExpertResource;
  cache_hit : bool;
  lease_released : bool;
}.

Inductive EvictionPolicy := LRU | COST_FREQUENCY.

Record ExpertResidencyManager := mkManager {
  eviction_policy : EvictionPolicy;
  maximum_entries : Z;
  maximum_bytes : Z;
  pending_bounds : option (Z * Z);
  entries : list (ExpertKey * Entry);
  total_bytes : Z;                       (* _resident_bytes *)
  peak_resident_bytes : Z;
  peak_reserved_bytes : Z;
  clock : Z;
  hits : Z;
  misses : Z;
  evictions : Z;
  rejections : Z;
  loaded : list Z;                       (* handles load_expert returned *)
  given_back : list Z;                   (* handles passed to release_expert *)
}.

Definition bounds_valid (n b : Z) : bool :=
  (1 <=? n) && (n <=? MAX_EXPERT_RESIDENCY_ENTRIES)
  && (1 <=? b) && (b <=? MAX_EXPERT_RESIDENCY_BYTES).

(** [__init__] *)
Definition new_manager (n b : Z) (policy : EvictionPolicy) : res exn ExpertResidencyManager :=
  check (bounds_valid n b) (ValueError "invalid expert residency bounds")
    (mkManager policy n b None [] 0 0 0 0 0 0 0 0 [] []).

(** Field updates. *)
Definition with_bounds (n b : Z) (p : option (Z * Z)) (s : ExpertResidencyManager) :=
  mkManager (eviction_policy s) n b p (entries s) (total_bytes s) (peak_resident_bytes s)
    (peak_reserved_bytes s) (clock s) (hits s) (misses s) (evictions s) (rejections s) (loaded s)
    (given_back s).
Definition with_entries (d : list (ExpertKey * Entry)) (n : Z) (s : ExpertResidencyManager) :=
  mkManager (eviction_policy s) (maximum_entries s) (maximum_bytes s) (pending_bounds s) d n
    (peak_resident_bytes s) (peak_reserved_bytes s) (clock s) (hits s) (misses s) (evictions s)
    (rejections s) (loaded s) (given_back s).
Definition with_peaks (resident reserved : Z) (s : ExpertResidencyManager) :=
  mkManager (eviction_policy s) (maximum_entries s) (maximum_bytes s) (pending_bounds s) (entries s)
    (total_bytes s) resident reserved (clock s) (hits s) (misses s) (evictions s) (rejections s)
    (loaded s) (given_back s).
Definition tick (s : ExpertResidencyManager) :=
  mkManager (eviction_policy s) (maximum_entries s) (maximum_bytes s) (pending_bounds s) (entries s)
    (total_bytes s) (peak_resident_bytes s) (peak_reserved_bytes s) (clock s + 1) (hits s)
    (misses s) (evictions s) (rejections s) (loaded s) (given_back s).
Definition count (h m e r : Z) (s : ExpertResidencyManager) :=
  mkManager (eviction_policy s) (maximum_entries s) (maximum_bytes s) (pending_bounds s) (entries s)
    (total_bytes s) (peak_resident_bytes s) (peak_reserved_bytes s) (clock s) (hits s + h)
    (misses s + m) (evictions s + e) (rejections s + r) (loaded s) (given_back s).
Definition log (l g : list Z) (s : ExpertResidencyManager) :=
  mkManager (eviction_policy s) (maximum_entries s) (maximum_bytes s) (pending_bounds s) (entries s)
    (total_bytes s) (peak_resident_bytes s) (peak_reserved_bytes s) (clock s) (hits s) (misses s)
    (evictions s) (rejections s) (l ++ loaded s) (g ++ given_back s).

Section manager.
(** The backend's [release_expert]: the exception it raises for a handle. *)
Variable release_fails : Z → option exn.

Definition release_expert (r : ExpertResource) : Py ExpertResidencyManager () :=
  modify (log [] [handle r]) ;;;
  match release_fails (handle r) with Some e => raise e | None => ret () end.

(** [_retention_score] *)
Definition retention_score (s : ExpertResidencyManager) (e : Entry) : PyFloat.float :=
  match eviction_policy s with
  | LRU => PyFloat.of_Z (last_used e)
  | COST_FREQUENCY =>
      let age := Z.max 1 (clock s - last_used e) in
      PyFloat.fdiv (PyFloat.int_div (accesses e * load_nanoseconds e)
                                    (resident_bytes (resource e)))
                   (PyFloat.of_Z age)
  end.

(** Tuple order of [(score, last_used, key)]; keys compare by layer, then expert. *)
Definition candidate : Set := PyFloat.float * Z * ExpertKey.
Definition key_leb (a b : ExpertKey) : bool :=
  (layer a <? layer b) || ((layer a =? layer b) && (expert a <=? expert b)).
Definition candidate_leb (a b : candidate) : bool :=
  let '(sa, ua, ka) := a in let '(sb, ub, kb) := b in
  PyFloat.fltb sa sb
  || (PyFloat.feqb sa sb && ((ua <? ub) || ((ua =? ub) && key_leb ka kb))).
Definition candidate_le (a b : candidate) : Prop := candidate_leb a b = true.
#[local] Instance candidate_le_dec : RelDecision candidate_le.
Proof. intros a b. unfold candidate_le. apply _. Defined.

(** The idle experts in eviction order. *)
Definition available (s : ExpertResidencyManager) : list candidate :=
  merge_sort candidate_le
    ((λ p, (retention_score s p.2, last_used p.2, p.1))
       <$> filter (λ p : ExpertKey * Entry, leases p.2 = 0) (entries s)).

(** The loop of [_victims_for]: the victims taken, and the count and size left. *)
Fixpoint take_victims (s : ExpertResidencyManager) (l : list candidate) (count size : Z)
    : list ExpertKey * Z * Z :=
  match l with
  | [] => ([], count, size)
  | (_, _, k) :: l' =>
      if (count <=? maximum_entries s) && (size <=? maximum_bytes s) then ([], count, size)
      else
        let bytes := match od_get k (entries s) with
                     | Some e => resident_bytes (resource e) | None => 0 end in
        let '(ks, c, b) := take_victims s l' (count - 1) (size - bytes) in
        (k :: ks, c, b)
  end.

(** [_victims_for] *)
Definition victims_for (incoming additional : Z) (s : ExpertResidencyManager)
    : option (list ExpertKey) :=
  if incoming >? maximum_bytes s then None
  else
    let '(ks, count, size) :=
      take_victims s (available s) (Zlen (entries s) + additional) (total_bytes s + incoming) in
    if (count >? maximum_entries s) || (size >? maximum_bytes s) then None else Some ks.

(** Eviction before a load: the bytes are subtracted before [release_expert]. *)
Fixpoint evict_first (ks : list ExpertKey) : Py ExpertResidencyManager () :=
  match ks with
  | [] => ret ()
  | k :: ks => λ s,
      match od_get k (entries s) with
      | None => (Raise (KeyError "entry"), s)
      | Some e =>
          (modify (count 0 0 1 0) ;;; release_expert (resource e) ;;; evict_first ks)
            (with_entries (od_del k (entries s)) (total_bytes s - resident_bytes (resource e)) s)
      end
  end.

(** Eviction after a load and in [resize]: [release_expert] comes first. *)
Fixpoint evict_after (ks : list ExpertKey) : Py ExpertResidencyManager () :=
  match ks with
  | [] => ret ()
  | k :: ks => λ s,
      match od_get k (entries s) with
      | None => (Raise (KeyError "entry"), s)
      | Some e =>
          (release_expert (resource e) ;;;
           modify (λ s, count 0 0 1 0
                     (with_entries (entries s) (total_bytes s - resident_bytes (resource e)) s)) ;;;
           evict_after ks)
            (with_entries (od_del k (entries s)) (total_bytes s) s)
      end
  end.

Definition reject (message : string) {A} : Py ExpertResidencyManager A :=
  modify (count 0 0 0 1) ;;; raise (ValueError message).

(** The reservation part of [acquire] for a backend with an upper bound. *)
Definition reserve_bound (bound : Z) : Py ExpertResidencyManager () := λ s,
  if negb ((1 <=? bound) && (bound <=? MAX_EXPERT_RESIDENCY_BYTES))
  then (Raise (ValueError "invalid expert allocation bound"), s)
  else match victims_for bound 1 s with
       | None => reject "expert residency capacity is pinned or insufficient" s
       | Some ks =>
           (evict_first ks ;;;
            modify (λ s, with_peaks (peak_resident_bytes s)
                           (Z.max (peak_reserved_bytes s) (total_bytes s + bound)) s)) s
       end.

(** [acquire].  [bound] is the result of the backend's optional
    [resident_bytes_upper_bound], [load] that of [load_expert], [elapsed] the
    nanoseconds it took. *)
Definition acquire (k : ExpertKey) (bound : option Z) (load : res exn ExpertResource)
    (elapsed : Z) : Py ExpertResidencyManager ExpertLease :=
  modify tick ;;; λ s,
  match od_get k (entries s) with
  | Some e =>
      let e' := mkEntry (resource e) (leases e + 1) (clock s) (Z.min (accesses e + 1) 1000000)
                        (load_nanoseconds e) in
      (Ok (mkLease k (resource e) true false),
       count 1 0 0 0 (with_entries (od_set k e' (entries s)) (total_bytes s) s))
  | None =>
      (modify (count 0 1 0 0) ;;;
       match bound with Some b => reserve_bound b | None => ret () end ;;;
       let! r := lift load in
       modify (log [handle r] []) ;;;
       (if match bound with Some b => resident_bytes r >? b | None => false end
        then modify (count 0 0 0 1) ;;; release_expert r ;;;
             raise (ValueError "expert allocation exceeds backend bound")
        else ret ()) ;;;
       λ s, match victims_for (resident_bytes r) 1 s with
            | None =>
                (modify (count 0 0 0 1) ;;; release_expert r ;;;
                 raise (ValueError "expert residency capacity is pinned")) s
            | Some ks =>
                (catch (evict_after ks) (λ x, release_expert r ;;; raise x) ;;;
                 λ s, let total := total_bytes s + resident_bytes r in
                      let e := mkEntry r 1 (clock s) 1 (Z.max 1 elapsed) in
                      (Ok (mkLease k r false false),
                       with_peaks (Z.max (peak_resident_bytes s) total) (peak_reserved_bytes s)
                         (with_entries (od_set k e (entries s)) total s))) s
            end) s
  end.

(** [resize] *)
Definition resize (n b : Z) : Py ExpertResidencyManager bool := λ s,
  if negb (bounds_valid n b) then (Raise (ValueError "invalid expert residency bounds"), s)
  else
    let s1 := with_bounds n b (pending_bounds s) s in
    match victims_for 0 0 s1 with
    | None => (Ok false, with_bounds (maximum_entries s) (maximum_bytes s) (Some (n, b)) s)
    | Some ks =>
        (evict_after ks ;;;
         modify (λ s, with_bounds (maximum_entries s) (maximum_bytes s) None s) ;;; ret true) s1
    end.

(** The loop of [close]. *)
Fixpoint release_all (l : list (ExpertKey * Entry)) : Py ExpertResidencyManager () :=
  match l with
  | [] => ret ()
  | (_, e) :: l => release_expert (resource e) ;;; release_all l
  end.

(** [close] *)
Definition close : Py ExpertResidencyManager () := λ s,
  if existsb (λ p, negb (leases p.2 =? 0)) (entries s)
  then (Raise (RuntimeError "expert residency has active leases"), s)
  else release_all (entries s) (with_entries [] 0 s).

(** [_release_lease] under the lock: the bounds that wait to be tried again. *)
Definition release_locked (k : ExpertKey) : Py ExpertResidencyManager (option (Z * Z)) := λ s,
  match od_get k (entries s) with
  | None => (Raise (RuntimeError "expert lease is stale"), s)
  | Some e =>
      if leases e <=? 0 then (Raise (RuntimeError "expert lease is stale"), s)
      else
        let e' := mkEntry (resource e) (leases e - 1) (clock s + 1) (accesses e)
                          (load_nanoseconds e) in
        (Ok (pending_bounds s), tick (with_entries (od_set k e' (entries s)) (total_bytes s) s))
  end.

(** What [_release_lease] does after it gave the lock back. *)
Definition retry_bounds (pending : option (Z * Z)) : Py ExpertResidencyManager () :=
  match pending with
  | None => ret ()
  | Some (n, b) => resize n b ;;; ret ()
  end.

(** [_release_lease] *)
Definition release_lease (k : ExpertKey) : Py ExpertResidencyManager () :=
  let! pending := release_locked k in retry_bounds pending.

(** [self._released = True] *)
Definition mark_released (l : ExpertLease) : ExpertLease :=
  mkLease (lease_key l) (lease_resource l) (cache_hit l) true.

(** [ExpertLease.release] by one thread: the lease after the call; the flag is set
    first. *)
Definition release (l : ExpertLease) (s : ExpertResidencyManager)
    : res exn () * ExpertLease * ExpertResidencyManager :=
  if lease_released l then (Ok (), l, s)
  else let '(r, s') := release_lease (lease_key l) s in (r, mark_released l, s').
End manager.

Record Snapshot := {
  snap_entries : Z;
  snap_resident_bytes : Z;
  snap_peak_resident_bytes : Z;
  snap_peak_reserved_bytes : Z;
  snap_maximum_entries : Z;
  snap_maximum_bytes : Z;
  snap_active_leases : Z;
  snap_hits : Z;
  snap_misses : Z;
  snap_evictions : Z;
  snap_rejections : Z;
  snap_resize_pending : bool;
  snap_pending_maximum_entries : option Z;
  snap_pending_maximum_bytes : option Z;
}.

(** [snapshot] *)
Definition snapshot (s : ExpertResidencyManager) : Snapshot :=
  {| snap_entries := Zlen (entries s);
     snap_resident_bytes := total_bytes s;
     snap_peak_resident_bytes := peak_resident_bytes s;
     snap_peak_reserved_bytes := peak_reserved_bytes s;
     snap_maximum_entries := maximum_entries s;
     snap_maximum_bytes := maximum_bytes s;
     snap_active_leases := od_sum leases (entries s);
     snap_hits := hits s;
     snap_misses := misses s;
     snap_evictions := evictions s;
     snap_rejections := rejections s;
     snap_resize_pending := is_some (pending_bounds s);
     snap_pending_maximum_entries := fst <$> pending_bounds s;
     snap_pending_maximum_bytes := snd <$> pending_bounds s |}.

(** ** Invariant *)

Definition bytes_of (e : Entry) : Z := resident_bytes (resource e).
Definition handles (d : list (ExpertKey * Entry)) : list Z := (λ p, handle (resource p.2)) <$> d.

(** Accounting: exact bytes, and every handle the backend produced is resident or
    was given back once, but for those of [x], which a call still holds. *)
Record core (x : list Z) (s : ExpertResidencyManager) : Prop := {
  co_wf : od_wf (entries s);
  co_bytes : total_bytes s = od_sum bytes_of (entries s);
  co_entry : ∀ k e, od_get k (entries s) = Some e → 1 <= bytes_of e ∧ 0 <= leases e;
  co_handles : loaded s ≡ₚ x ++ given_back s ++ handles (entries s);
}.

Definition within (s : ExpertResidencyManager) : Prop :=
  Zlen (entries s) <= maximum_entries s ∧ total_bytes s <= maximum_bytes s.

Record res_inv (s : ExpertResidencyManager) : Prop := {
  ri_core : core [] s;
  ri_within : within s;
  ri_pending : ∀ n b, pending_bounds s = Some (n, b) → bounds_valid n b = true;
}.

(** *** The effect of evicting a list of keys *)

Fixpoint evicted (ks : list ExpertKey) (s : ExpertResidencyManager) : ExpertResidencyManager :=
  match ks with
  | [] => s
  | k :: ks =>
      match od_get k (entries s) with
      | None => s
      | Some e =>
          evicted ks (count 0 0 1 0 (log [] [handle (resource e)]
            (with_entries (od_del k (entries s)) (total_bytes s - bytes_of e) s)))
      end
  end.

Definition idle_keys (ks : list ExpertKey) (s : ExpertResidencyManager) : Prop :=
  NoDup ks ∧ ∀ k, k ∈ ks → ∃ e, od_get k (entries s) = Some e ∧ leases e = 0.

Definition bytes_at (d : list (ExpertKey * Entry)) (k : ExpertKey) : Z :=
  match od_get k d with Some e => resident_bytes (resource e) | None => 0 end.
Definition bytes_sum (ks : list ExpertKey) (d : list (ExpertKey * Entry)) : Z :=
  Zsum (bytes_at d <$> ks).
#[local] Arguments bytes_sum : simpl never.

Lemma bytes_sum_step k ks d : bytes_sum (k :: ks) d = bytes_at d k + bytes_sum ks d.
Proof. reflexivity. Qed.
Lemma bytes_sum_nil d : bytes_sum [] d = 0.
Proof. reflexivity. Qed.

Lemma bytes_sum_cons k ks d e :
  od_get k d = Some e → bytes_sum (k :: ks) d = bytes_of e + bytes_sum ks d.
Proof. intros He. rewrite bytes_sum_step. unfold bytes_at. by rewrite He. Qed.

Lemma bytes_sum_del k ks d : k ∉ ks → bytes_sum ks (od_del k d) = bytes_sum ks d.
Proof.
  intros Hk. unfold bytes_sum. f_equal. apply list_fmap_ext. intros i k' Hk'.
  unfold bytes_at. rewrite od_get_del_ne; [done|]. intros <-. by apply Hk, (list_elem_of_lookup_2 _ i).
Qed.

Lemma idle_keys_cons k ks s :
  idle_keys (k :: ks) s →
  ∃ e, od_get k (entries s) = Some e ∧ leases e = 0 ∧
    idle_keys ks (count 0 0 1 0 (log [] [handle (resource e)]
      (with_entries (od_del k (entries s)) (total_bytes s - bytes_of e) s))).
Proof.
  intros [[Hk Hnd]%NoDup_cons Hall]. destruct (Hall k ltac:(left)) as (e & He & Hl).
  exists e. split; [done|]. split; [done|]. split; [done|]. intros k' Hk'. cbn.
  rewrite od_get_del_ne by (intros ->; done). apply Hall. by right.
Qed.

Lemma evict_runs release_fails ks s :
  (∀ h, release_fails h = None) → idle_keys ks s →
  evict_first release_fails ks s = (Ok (), evicted ks s) ∧
  evict_after release_fails ks s = (Ok (), evicted ks s).
Proof.
  intros Hok. revert s. induction ks as [|k ks IH]; intros s Hks; [done|].
  destruct (idle_keys_cons _ _ _ Hks) as (e & He & _ & Hrest). cbn [evict_first evict_after evicted].
  rewrite He. destruct (IH _ Hrest) as [IH1 IH2].
  unfold bind, modify, release_expert, bind, modify. rewrite Hok. cbn. split; [apply IH1|apply IH2].
Qed.

(** What eviction keeps. *)
Record evicts (x : list Z) (ks : list ExpertKey) (s s' : ExpertResidencyManager) : Prop := {
  ev_core : core x s';
  ev_get : ∀ k, k ∉ ks → od_get k (entries s') = od_get k (entries s);
  ev_gone : ∀ k, k ∈ ks → od_get k (entries s') = None;
  ev_length : Zlen (entries s') = Zlen (entries s) - Zlen ks;
  ev_bytes : total_bytes s' = total_bytes s - bytes_sum ks (entries s);
  ev_entries_max : maximum_entries s' = maximum_entries s;
  ev_bytes_max : maximum_bytes s' = maximum_bytes s;
  ev_pending : pending_bounds s' = pending_bounds s;
  ev_loaded : loaded s' = loaded s;
  ev_clock : clock s' = clock s;
}.

Lemma delete_core x k e n s :
  core x s → od_get k (entries s) = Some e →
  core x (count 0 0 n 0 (log [] [handle (resource e)]
    (with_entries (od_del k (entries s)) (total_bytes s - bytes_of e) s))).
Proof.
  intros [H1 H2 H3 H4] He. constructor; cbn.
  - by apply od_wf_del.
  - rewrite (od_sum_del _ _ _ _ He). lia.
  - intros k' e' He'. apply (H3 k'). destruct (decide (k = k')) as [<-|]; [by rewrite od_get_del in He'|].
    by rewrite od_get_del_ne in He'.
  - rewrite H4. unfold handles. rewrite (od_del_Permutation _ _ _ He) at 1. cbn.
    by rewrite <-Permutation_middle.
Qed.

Lemma evicted_spec x ks s : core x s → idle_keys ks s → evicts x ks s (evicted ks s).
Proof.
  revert s. induction ks as [|k ks IH]; intros s Hc Hks.
  { constructor; cbn; rewrite ?bytes_sum_nil; try done; unfold Zlen; cbn; lia || set_solver. }
  destruct (idle_keys_cons _ _ _ Hks) as (e & He & _ & Hrest). cbn [evicted]. rewrite He.
  destruct (IH _ (delete_core x k e 1 s Hc He) Hrest) as [E1 E2 E3 E4 E5 E6 E7 E8 E9 E10].
  set (s' := evicted ks _) in *. destruct Hks as [[Hk _]%NoDup_cons _].
  cbn in E2, E4, E5, E6, E7, E8, E9, E10. constructor; try done.
  - intros k' [Hne Hn]%not_elem_of_cons. rewrite E2 by done. by apply od_get_del_ne.
  - intros k' [->|?]%elem_of_cons; [|by apply E3]. rewrite E2 by done. apply od_get_del, Hc.
  - rewrite E4, od_length_del by eauto. unfold Zlen. cbn. lia.
  - rewrite E5, (bytes_sum_cons _ _ _ _ He), bytes_sum_del by done. lia.
Qed.

(** *** Victim selection *)

Definition idle_entries (s : ExpertResidencyManager) : list (ExpertKey * Entry) :=
  filter (λ p : ExpertKey * Entry, leases p.2 = 0) (entries s).
Definition pinned_entries (s : ExpertResidencyManager) : list (ExpertKey * Entry) :=
  filter (λ p : ExpertKey * Entry, ¬ leases p.2 = 0) (entries s).

Lemma available_keys s : (available s).*2 ≡ₚ (idle_entries s).*1.
Proof.
  unfold available. rewrite merge_sort_Permutation, <-list_fmap_compose. done.
Qed.

Lemma available_idle x s : core x s → idle_keys (available s).*2 s.
Proof.
  intros Hc. split.
  - rewrite available_keys. unfold idle_entries. apply (sublist_NoDup _ (entries s).*1); [apply Hc|].
    apply fmap_sublist, sublist_filter.
  - intros k Hk. rewrite available_keys in Hk. apply list_elem_of_fmap in Hk as ([k' e] & -> & Hin).
    apply list_elem_of_filter in Hin as [Hl Hin]. exists e. split; [|done].
    apply od_get_iff; [apply Hc|done].
Qed.

Lemma take_victims_spec s l count size ks c b :
  take_victims s l count size = (ks, c, b) →
  ∃ rest, l.*2 = ks ++ rest ∧ c = count - Zlen ks ∧ b = size - bytes_sum ks (entries s) ∧
    (rest = [] ∨ c <= maximum_entries s ∧ b <= maximum_bytes s) ∧
    (∀ ks1 k ks2, ks = ks1 ++ k :: ks2 →
       maximum_entries s < count - Zlen ks1 ∨
       maximum_bytes s < size - bytes_sum ks1 (entries s)).
Proof.
  revert count size ks. induction l as [|[[sc u] k] l IH]; intros count size ks; cbn [take_victims].
  { intros [= <- <- <-]. exists []. split_and!; try done; [unfold Zlen; cbn; lia|rewrite bytes_sum_nil; lia|by left|].
    intros ks1 k ks2 Hs. by destruct ks1. }
  destruct (_ && _) eqn:E.
  - intros [= <- <- <-]. exists ((k :: l.*2)). breflect.
    split_and!; try done; [unfold Zlen; cbn; lia|rewrite bytes_sum_nil; lia|by right|].
    intros ks1 k' ks2 Hs. by destruct ks1.
  - destruct (take_victims s l _ _) as [[ks0 c0] b0] eqn:Et. intros [= <- <- <-].
    destruct (IH _ _ _ Et) as (rest & Hl & Hc & Hb & Hfit & Hmin). exists rest. cbn. rewrite Hl.
    split; [done|]. split; [unfold Zlen in *; cbn; lia|]. split; [rewrite bytes_sum_step; unfold bytes_at; lia|].
    split; [done|]. rewrite andb_false_iff, !Z.leb_gt in E.
    intros [|k1 ks1] k' ks2 Hs; cbn in Hs.
    + rewrite bytes_sum_nil. unfold Zlen. cbn. lia.
    + injection Hs as <- ->. destruct (Hmin ks1 k' ks2 eq_refl) as [?|?]; [left|right].
      * unfold Zlen in *. cbn. lia.
      * rewrite bytes_sum_step. unfold bytes_at. lia.
Qed.

Lemma bytes_sum_perm ks1 ks2 d : ks1 ≡ₚ ks2 → bytes_sum ks1 d = bytes_sum ks2 d.
Proof. intros H. apply Zsum_perm. by rewrite H. Qed.

(** The idle and the pinned entries make up the cache. *)
Lemma idle_pinned x s :
  core x s →
  Zlen (entries s) - Zlen (available s).*2 = Zlen (pinned_entries s) ∧
  total_bytes s - bytes_sum (available s).*2 (entries s) = od_sum bytes_of (pinned_entries s).
Proof.
  intros Hc. rewrite (bytes_sum_perm _ _ _ (available_keys s)).
  assert (Zlen (available s).*2 = Zlen (idle_entries s)) as ->.
  { unfold Zlen. rewrite (available_keys s), length_fmap. done. }
  assert (bytes_sum (idle_entries s).*1 (entries s) = od_sum bytes_of (idle_entries s)) as ->.
  { unfold bytes_sum, od_sum. rewrite <-list_fmap_compose. f_equal. apply list_fmap_ext.
    intros i [k e] Hi%list_elem_of_lookup_2. apply list_elem_of_filter in Hi as [_ Hi]. cbn. unfold bytes_at.
    apply od_get_iff in Hi; [by rewrite Hi|eapply co_wf, Hc]. }
  rewrite (co_bytes _ _ Hc). unfold idle_entries, pinned_entries, od_sum, Zlen.
  pose proof (filter_app_complement (λ p : ExpertKey * Entry, leases p.2 = 0) (entries s)) as Hp.
  split.
  - rewrite <-Hp at 1. rewrite length_app. lia.
  - rewrite <-(Zsum_perm _ _ (fmap_Permutation (λ p, bytes_of p.2) _ _ Hp)) at 1.
    rewrite fmap_app, Zsum_app. lia.
Qed.

(** A request cannot fit even with every idle expert evicted. *)
Definition cannot_fit (incoming additional : Z) (s : ExpertResidencyManager) : Prop :=
  maximum_bytes s < incoming ∨
  maximum_entries s < Zlen (pinned_entries s) + additional ∨
  maximum_bytes s < od_sum bytes_of (pinned_entries s) + incoming.

Lemma victims_for_spec x incoming additional s :
  core x s →
  match victims_for incoming additional s with
  | Some ks =>
      idle_keys ks s ∧
      Zlen (entries s) + additional - Zlen ks <= maximum_entries s ∧
      total_bytes s + incoming - bytes_sum ks (entries s) <= maximum_bytes s ∧
      (∀ ks1 k ks2, ks = ks1 ++ k :: ks2 →
         maximum_entries s < Zlen (entries s) + additional - Zlen ks1 ∨
         maximum_bytes s < total_bytes s + incoming - bytes_sum ks1 (entries s))
  | None => cannot_fit incoming additional s
  end.
Proof.
  intros Hc. unfold victims_for. destruct (incoming >? maximum_bytes s) eqn:E1; breflect; [by left|].
  destruct (take_victims s (available s) _ _) as [[ks c] b] eqn:Et.
  destruct (take_victims_spec _ _ _ _ _ _ _ Et) as (rest & Hl & -> & -> & Hfit & Hmin).
  destruct (available_idle x s Hc) as [Hnd Hidle]. destruct (_ || _) eqn:E2.
  - destruct Hfit as [->|[? ?]]; [|rewrite orb_true_iff, !Z.gtb_lt in E2; lia].
    rewrite app_nil_r in Hl. rewrite <-Hl in E2. destruct (idle_pinned x s Hc) as [Hi1 Hi2].
    rewrite orb_true_iff, !Z.gtb_lt in E2. right. destruct E2; [left|right]; lia.
  - apply orb_false_iff in E2 as [? ?]. breflect. rewrite Hl in Hnd, Hidle.
    split; [split; [by apply NoDup_app in Hnd as [? _]|intros k Hk; apply Hidle; set_solver]|].
    done.
Qed.

(** ** Operations when the backend's release does not fail *)

Section reliable.
Variable release_fails : Z → option exn.
Hypothesis release_ok : ∀ h, release_fails h = None.

(** Other experts than [k] are kept as they are or, when idle, evicted. *)
Definition keeps (k : ExpertKey) (s s' : ExpertResidencyManager) : Prop :=
  (∀ k' e, k' ≠ k → od_get k' (entries s') = Some e → od_get k' (entries s) = Some e) ∧
  (∀ k' e, k' ≠ k → od_get k' (entries s) = Some e → leases e ≠ 0 →
           od_get k' (entries s') = Some e).

Lemma keeps_refl k s : keeps k s s.
Proof. split; eauto. Qed.

Lemma keeps_trans k s1 s2 s3 : keeps k s1 s2 → keeps k s2 s3 → keeps k s1 s3.
Proof. intros [A1 B1] [A2 B2]. split; eauto. Qed.

Lemma evicts_keeps x ks s s' k :
  idle_keys ks s → evicts x ks s s' →
  keeps k s s' ∧ (od_get k (entries s) = None → od_get k (entries s') = None).
Proof.
  intros [_ Hidle] Hev. split; [split|].
  - intros k' e _ He. destruct (decide (k' ∈ ks)) as [Hin|Hn].
    + by rewrite (ev_gone _ _ _ _ Hev k' Hin) in He.
    + by rewrite (ev_get _ _ _ _ Hev k' Hn) in He.
  - intros k' e _ He Hl. rewrite (ev_get _ _ _ _ Hev k'); [done|]. intros Hin.
    destruct (Hidle k' Hin) as (e' & He' & Hl'). congruence.
  - intros Hk. rewrite (ev_get _ _ _ _ Hev k); [done|]. intros Hin.
    destruct (Hidle k Hin) as (e' & He' & _). congruence.
Qed.

Lemma evicted_within x ks n b s s' :
  evicts x ks s s' →
  Zlen (entries s) + n - Zlen ks <= maximum_entries s →
  total_bytes s + b - bytes_sum ks (entries s) <= maximum_bytes s →
  Zlen (entries s') + n <= maximum_entries s' ∧ total_bytes s' + b <= maximum_bytes s'.
Proof.
  intros Hev H1 H2. rewrite (ev_length _ _ _ _ Hev), (ev_bytes _ _ _ _ Hev),
    (ev_entries_max _ _ _ _ Hev), (ev_bytes_max _ _ _ _ Hev). lia.
Qed.

Lemma with_core x s s' :
  core x s → entries s' = entries s → total_bytes s' = total_bytes s → loaded s' = loaded s →
  given_back s' = given_back s → core x s'.
Proof. intros [] H1 H2 H3 H4. constructor; rewrite ?H1, ?H2, ?H3, ?H4; done. Qed.

(** The bounds and settings a call leaves alone. *)
Definition same_bounds (s s' : ExpertResidencyManager) : Prop :=
  maximum_entries s' = maximum_entries s ∧ maximum_bytes s' = maximum_bytes s ∧
  pending_bounds s' = pending_bounds s.

Lemma evicts_bounds x ks s s' : evicts x ks s s' → same_bounds s s'.
Proof. by intros []. Qed.

Lemma same_bounds_trans s1 s2 s3 : same_bounds s1 s2 → same_bounds s2 s3 → same_bounds s1 s3.
Proof. unfold same_bounds. intros (?&?&?) (?&?&?). split_and!; congruence. Qed.

Lemma reserve_bound_spec k bound s :
  core [] s → within s → od_get k (entries s) = None →
  let '(r, s') := reserve_bound release_fails bound s in
  core [] s' ∧ within s' ∧ keeps k s s' ∧ od_get k (entries s') = None ∧ same_bounds s s' ∧
  loaded s' = loaded s ∧
  match r with
  | Ok _ => True
  | Raise x => x = ValueError "invalid expert allocation bound" ∨
               x = ValueError "expert residency capacity is pinned or insufficient" ∧
               cannot_fit bound 1 s'
  end.
Proof.
  intros Hc Hw Hk. unfold reserve_bound. destruct (negb _) eqn:E.
  { split_and!; try done; apply keeps_refl || by left. }
  breflect. pose proof (victims_for_spec [] bound 1 s Hc) as Hv.
  destruct (victims_for bound 1 s) as [ks|].
  - destruct Hv as (Hidle & H1 & H2 & _). unfold bind.
    destruct (evict_runs release_fails ks s release_ok Hidle) as [-> _].
    pose proof (evicted_spec [] ks s Hc Hidle) as Hev. set (s1 := evicted ks s) in *. cbn.
    destruct (evicts_keeps _ _ _ _ k Hidle Hev) as [Hkeep Hnone].
    destruct (evicted_within _ _ _ _ _ _ Hev H1 H2).
    split; [eapply with_core; [apply Hev|done..]|].
    split; [split; cbn; lia|]. split_and!; try done; [by apply Hnone|by destruct Hev..].
  - split_and!; try done; exact (keeps_refl k s) || (by right) || by eapply with_core.
Qed.

(** Handing a just loaded resource back to the backend. *)
Lemma give_back_core r x s :
  core [handle r] s → core [] (log [] [handle r] (count 0 0 0 x s)).
Proof. intros [H1 H2 H3 H4]. constructor; cbn; try done. Qed.

Lemma release_expert_ok r s : release_expert release_fails r s = (Ok (), log [] [handle r] s).
Proof. unfold release_expert, bind, modify. by rewrite release_ok. Qed.

(** The part of [acquire] after a load, from the state in which the new handle is
    held by the call. *)
Definition admit_loaded (k : ExpertKey) (bound : option Z) (r : ExpertResource) (elapsed : Z)
    : Py ExpertResidencyManager ExpertLease :=
  (if match bound with Some b => resident_bytes r >? b | None => false end
   then modify (count 0 0 0 1) ;;; release_expert release_fails r ;;;
        raise (ValueError "expert allocation exceeds backend bound")
   else ret ()) ;;;
  λ s, match victims_for (resident_bytes r) 1 s with
       | None =>
           (modify (count 0 0 0 1) ;;; release_expert release_fails r ;;;
            raise (ValueError "expert residency capacity is pinned")) s
       | Some ks =>
           (catch (evict_after release_fails ks)
              (λ x, release_expert release_fails r ;;; raise x) ;;;
            λ s, let total := total_bytes s + resident_bytes r in
                 let e := mkEntry r 1 (clock s) 1 (Z.max 1 elapsed) in
                 (Ok (mkLease k r false false),
                  with_peaks (Z.max (peak_resident_bytes s) total) (peak_reserved_bytes s)
                    (with_entries (od_set k e (entries s)) total s))) s
       end.

Lemma admit_loaded_spec k bound r elapsed s :
  core [handle r] s → within s → od_get k (entries s) = None → resource_valid r = true →
  let '(o, s') := admit_loaded k bound r elapsed s in
  core [] s' ∧ within s' ∧ keeps k s s' ∧ same_bounds s s' ∧
  match o with
  | Ok l => l = mkLease k r false false ∧
            ∃ e, od_get k (entries s') = Some e ∧ resource e = r ∧ leases e = 1
  | Raise x =>
      od_get k (entries s') = None ∧
      (x = ValueError "expert allocation exceeds backend bound" ∧
         (∃ b, bound = Some b ∧ b < resident_bytes r) ∨
       x = ValueError "expert residency capacity is pinned" ∧ cannot_fit (resident_bytes r) 1 s')
  end.
Proof.
  intros Hc Hw Hk Hr. unfold resource_valid in Hr. breflect. unfold admit_loaded, bind at 1.
  destruct (match bound with Some b => _ | None => _ end) eqn:Eb.
  { unfold bind, modify. rewrite release_expert_ok. cbn. destruct bound as [b|]; [|done]. breflect.
    split; [by apply give_back_core|]. split; [done|]. split; [exact (keeps_refl k s)|]. split_and!; try done. left. eauto. }
  cbn. pose proof (victims_for_spec [handle r] (resident_bytes r) 1 s Hc) as Hv.
  destruct (victims_for (resident_bytes r) 1 s) as [ks|].
  - destruct Hv as (Hidle & H1 & H2 & _). unfold bind at 1, catch.
    destruct (evict_runs release_fails ks s release_ok Hidle) as [_ ->].
    pose proof (evicted_spec [handle r] ks s Hc Hidle) as Hev. set (s1 := evicted ks s) in *.
    destruct (evicts_keeps _ _ _ _ k Hidle Hev) as [Hkeep Hnone]. specialize (Hnone Hk).
    destruct (evicted_within _ _ _ _ _ _ Hev H1 H2) as [W1 W2].
    pose proof (evicts_bounds _ _ _ _ Hev) as Hb.
    set (e := mkEntry r 1 (clock s1) 1 (Z.max 1 elapsed)).
    assert (od_set k e (entries s1) = entries s1 ++ [(k, e)]) as Hset by (by apply od_set_new).
    split; [|split; [|split; [|split; [done|]]]].
    + destruct (ev_core _ _ _ _ Hev) as [C1 C2 C3 C4]. constructor; cbn; rewrite ?Hset.
      * by apply od_wf_snoc.
      * rewrite od_sum_snoc. unfold bytes_of at 2. cbn. lia.
      * intros k' e' [He'|[-> ->]]%od_get_snoc_inv; [by apply (C3 k')|]. unfold bytes_of. cbn. lia.
      * rewrite C4. unfold handles. rewrite fmap_app. cbn.
        rewrite (Permutation_app_comm _ [handle r]). cbn. by rewrite <-!Permutation_middle.
    + split; cbn; rewrite ?Hset; [|lia]. unfold Zlen in *. rewrite length_app. cbn. lia.
    + eapply keeps_trans; [exact Hkeep|]. split; cbn; rewrite ?Hset.
      * intros k' e' Hne [He'|[-> _]]%od_get_snoc_inv; done.
      * intros k' e' Hne He' _. by rewrite od_get_snoc_ne.
    + split; [done|]. exists e. cbn. rewrite Hset. split; [by apply od_get_snoc|done].
  - unfold bind, modify. rewrite release_expert_ok. cbn.
    split; [by apply give_back_core|]. split; [done|]. split; [exact (keeps_refl k s)|].
    split_and!; try done. by right.
Qed.

(** *** [acquire] *)

Lemma acquire_hit k bound load elapsed e s :
  od_get k (entries s) = Some e →
  acquire release_fails k bound load elapsed s =
    (Ok (mkLease k (resource e) true false),
     count 1 0 0 0 (with_entries
       (od_set k (mkEntry (resource e) (leases e + 1) (clock s + 1) (Z.min (accesses e + 1) 1000000)
                          (load_nanoseconds e)) (entries s)) (total_bytes s) (tick s))).
Proof. intros He. unfold acquire, bind, modify. cbn [entries tick]. by rewrite He. Qed.

Lemma acquire_miss k bound load elapsed s :
  od_get k (entries s) = None →
  acquire release_fails k bound load elapsed s =
    (match bound with Some b => reserve_bound release_fails b | None => ret () end ;;;
     let! r := lift load in
     modify (log [handle r] []) ;;; admit_loaded k bound r elapsed) (count 0 1 0 0 (tick s)).
Proof. intros Hk. unfold acquire, bind at 1, modify at 1. cbn [entries tick]. by rewrite Hk. Qed.

(** Changing an entry in place, keeping its resource. *)
Lemma set_entry_core x k e e' s :
  core x s → od_get k (entries s) = Some e → resource e' = resource e → 0 <= leases e' →
  core x (with_entries (od_set k e' (entries s)) (total_bytes s) s) ∧
  Zlen (od_set k e' (entries s)) = Zlen (entries s).
Proof.
  intros [H1 H2 H3 H4] He Hr Hl. split; [|by apply od_length_set; eauto]. constructor; cbn.
  - by apply od_wf_set.
  - rewrite (od_sum_set _ _ _ _ _ He). unfold bytes_of at 3. rewrite Hr. fold (bytes_of e). lia.
  - intros k' e0 H0. destruct (decide (k = k')) as [<-|].
    + rewrite od_get_set in H0. injection H0 as <-. unfold bytes_of. rewrite Hr. split; [|done].
      by apply (H3 k e).
    + rewrite od_get_set_ne in H0 by done. by apply (H3 k').
  - rewrite H4. destruct (od_split _ _ _ He) as (d1 & d2 & Hd & _ & Hset). rewrite Hset, Hd.
    unfold handles. rewrite !fmap_app. cbn. by rewrite Hr.
Qed.

(** What a caller sees of [acquire]. *)
Lemma acquire_spec k bound load elapsed s :
  res_inv s → (∀ r, load = Ok r → resource_valid r = true) →
  let '(o, s') := acquire release_fails k bound load elapsed s in
  res_inv s' ∧ keeps k s s' ∧ same_bounds s s' ∧
  match o with
  | Ok l =>
      lease_key l = k ∧ lease_released l = false ∧
      ∃ e, od_get k (entries s') = Some e ∧ resource e = lease_resource l ∧
           match od_get k (entries s) with
           | Some e0 => leases e = leases e0 + 1 ∧ resource e = resource e0
           | None => leases e = 1
           end
  | Raise x =>
      od_get k (entries s) = None ∧ od_get k (entries s') = None ∧
      (load = Raise x ∨ x = ValueError "invalid expert allocation bound" ∨
       (∃ b, bound = Some b ∧
         (x = ValueError "expert residency capacity is pinned or insufficient" ∧
            cannot_fit b 1 s' ∨
          x = ValueError "expert allocation exceeds backend bound" ∧
            ∃ r, load = Ok r ∧ b < resident_bytes r)) ∨
       x = ValueError "expert residency capacity is pinned" ∧
         ∃ r, load = Ok r ∧ cannot_fit (resident_bytes r) 1 s')
  end.
Proof.
  intros [Hc Hw Hp] Hload. destruct (od_get k (entries s)) as [e|] eqn:Hk.
  - rewrite (acquire_hit _ _ _ _ _ _ Hk).
    set (e' := mkEntry (resource e) (leases e + 1) _ _ _).
    destruct (co_entry _ _ Hc _ _ Hk) as [_ Hl].
    destruct (set_entry_core [] k e e' s Hc Hk eq_refl ltac:(cbn; lia)) as [Hc' Hlen].
    split; [constructor; [by eapply with_core|unfold within in *; cbn in *; by rewrite Hlen|done]|].
    split; [split; cbn; intros k' e0 Hne; by rewrite od_get_set_ne|]. split_and!; try done.
    exists e'. cbn. split; [apply od_get_set|done].
  - rewrite (acquire_miss _ _ _ _ _ Hk). set (s1 := count 0 1 0 0 (tick s)).
    assert (core [] s1) as Hc1 by (by eapply with_core).
    set (stage := match bound with Some b => reserve_bound release_fails b | None => ret () end).
    assert (let '(r, s2) := stage s1 in
      core [] s2 ∧ within s2 ∧ keeps k s1 s2 ∧ od_get k (entries s2) = None ∧ same_bounds s1 s2 ∧
      match r with
      | Ok _ => True
      | Raise x => x = ValueError "invalid expert allocation bound" ∨ ∃ b, bound = Some b ∧
          x = ValueError "expert residency capacity is pinned or insufficient" ∧ cannot_fit b 1 s2
      end) as Hres.
    { subst stage. destruct bound as [b|]; [|by split_and!; try exact (keeps_refl k s1)].
      pose proof (reserve_bound_spec k b s1 Hc1 Hw Hk) as H.
      destruct (reserve_bound release_fails b s1) as [[u|x] s2]; [by destruct H as (?&?&?&?&?&?&?)|].
      destruct H as (?&?&?&?&?&_&[?|[? ?]]); split_and!; try done; [by left|right; eauto]. }
    unfold bind at 1. destruct (stage s1) as [[u|x] s2].
    2:{ destruct Hres as (Hc2 & Hw2 & Hk2 & Hn2 & Hb2 & Hx). pose proof Hb2 as (_ & _ & Hb3).
        split; [constructor; [done|done|intros n b Hb; apply Hp; by rewrite <-Hb, Hb3]|].
        split; [done|]. split; [done|]. split; [done|]. split; [done|]. right.
        destruct Hx as [?|(b & ? & ? & ?)]; [by left|right; left; eauto 6]. }
    destruct Hres as (Hc2 & Hw2 & Hk2 & Hn2 & Hb2 & _). unfold bind at 1, lift.
    destruct load as [r|x].
    2:{ pose proof Hb2 as (_ & _ & Hb3).
        split; [constructor; [done|done|intros n b Hb; apply Hp; by rewrite <-Hb, Hb3]|].
        split; [done|]. split; [done|]. split; [done|]. split; [done|]. by left. }
    unfold bind at 1, modify at 1. set (s3 := log [handle r] [] s2).
    assert (core [handle r] s3) as Hc3.
    { destruct Hc2 as [C1 C2 C3 C4]. constructor; cbn; try done. by rewrite C4. }
    pose proof (admit_loaded_spec k bound r elapsed s3 Hc3 Hw2 Hn2 (Hload r eq_refl)) as Hal.
    destruct (admit_loaded k bound r elapsed s3) as [[l|x] s4];
      destruct Hal as (Hc4 & Hw4 & Hk4 & Hb4 & Ho); pose proof Hb2 as (_ & _ & Hb3);
      pose proof Hb4 as (_ & _ & Hb5); cbn in Hb3, Hb5;
      (split; [constructor; [done|done|intros n b Hb; apply Hp; by rewrite <-Hb, Hb5, Hb3]|]);
      (split; [by eapply keeps_trans|]); (split; [by eapply same_bounds_trans|]).
    + destruct Ho as (-> & e & He & Hr & Hl). split_and!; try done. by exists e.
    + destruct Ho as (Hn & [(-> & b & -> & Hlt)|(-> & Hcf)]); split_and!; try done; right; right.
      * left. exists b. split; [done|]. right. eauto.
      * right. eauto.
Qed.

(** *** [resize] and [_release_lease] *)

Lemma resize_spec n b s k :
  res_inv s → bounds_valid n b = true →
  let '(o, s') := resize release_fails n b s in
  res_inv s' ∧ keeps k s s' ∧
  (od_get k (entries s) = None → od_get k (entries s') = None) ∧
  (∀ e, od_get k (entries s) = Some e → leases e ≠ 0 → od_get k (entries s') = Some e) ∧
  (∀ e, od_get k (entries s') = Some e → od_get k (entries s) = Some e) ∧
  match o with
  | Ok true => maximum_entries s' = n ∧ maximum_bytes s' = b ∧ pending_bounds s' = None
  | Ok false => pending_bounds s' = Some (n, b) ∧ entries s' = entries s
  | Raise _ => False
  end.
Proof.
  intros [Hc Hw Hp] Hb. unfold resize. rewrite Hb. cbn [negb].
  set (s1 := with_bounds n b (pending_bounds s) s).
  assert (core [] s1) as Hc1 by (by eapply with_core).
  pose proof (victims_for_spec [] 0 0 s1 Hc1) as Hv. destruct (victims_for 0 0 s1) as [ks|].
  - destruct Hv as (Hidle & H1 & H2 & _). unfold bind at 1.
    destruct (evict_runs release_fails ks s1 release_ok Hidle) as [_ ->].
    pose proof (evicted_spec [] ks s1 Hc1 Hidle) as Hev. set (s2 := evicted ks s1) in *.
    destruct (evicts_keeps _ _ _ _ k Hidle Hev) as [Hkeep Hnone].
    destruct (evicted_within _ _ _ _ _ _ Hev H1 H2) as [W1 W2]. cbn.
    split; [constructor; [eapply with_core; [apply Hev|done..]|split; cbn; lia|done]|].
    split; [done|]. split; [done|]. split; [|split; [|by destruct Hev]].
    + intros e He Hl. rewrite (ev_get _ _ _ _ Hev k); [done|]. intros Hin.
      destruct (proj2 Hidle k Hin) as (e' & He' & Hl'). cbn in He'. congruence.
    + intros e He. destruct (decide (k ∈ ks)) as [Hin|Hn].
      * by rewrite (ev_gone _ _ _ _ Hev k Hin) in He.
      * by rewrite (ev_get _ _ _ _ Hev k Hn) in He.
  - split; [constructor; [by eapply with_core|done|intros ? ? [= <- <-]; done]|].
    split; [exact (keeps_refl k s)|]. done.
Qed.

Lemma release_locked_spec k s :
  res_inv s →
  let '(o, s') := release_locked k s in
  res_inv s' ∧ keeps k s s' ∧
  match o with
  | Ok pending =>
      pending = pending_bounds s ∧
      ∃ e e', od_get k (entries s) = Some e ∧ 0 < leases e ∧ od_get k (entries s') = Some e' ∧
              resource e' = resource e ∧ leases e' = leases e - 1
  | Raise x => s' = s ∧ ∀ e, od_get k (entries s) = Some e → leases e <= 0
  end.
Proof.
  intros Hinv. pose proof Hinv as [Hc Hw Hp]. unfold release_locked.
  destruct (od_get k (entries s)) as [e|] eqn:Hk; [|split; [done|]; split; [apply keeps_refl|done]].
  destruct (leases e <=? 0) eqn:El; breflect.
  { split; [done|]. split; [apply keeps_refl|]. split; [done|]. by intros ? [= <-]. }
  set (e' := mkEntry (resource e) (leases e - 1) (clock s + 1) (accesses e) (load_nanoseconds e)).
  destruct (set_entry_core [] k e e' s Hc Hk eq_refl ltac:(cbn; lia)) as [Hc' Hlen].
  split; [constructor; [by eapply with_core|unfold within in *; cbn in *; by rewrite Hlen|done]|].
  split; [split; cbn; intros k' e0 Hne; by rewrite od_get_set_ne|]. split; [done|].
  exists e, e'. split; [done|]. split; [lia|]. split; [apply od_get_set|done].
Qed.

(** Trying bounds again keeps every expert that is leased. *)
Lemma retry_bounds_ok pending s :
  res_inv s → (∀ n b, pending = Some (n, b) → bounds_valid n b = true) →
  (retry_bounds release_fails pending s).1 = Ok ().
Proof.
  intros Hs Hp. destruct pending as [[n b]|]; [|done]. unfold retry_bounds, bind.
  pose proof (resize_spec n b s (mkKey 0 0) Hs (Hp n b eq_refl)) as H.
  destruct (resize release_fails n b s) as [[fits|x] s']; [done|]. by destruct H as (_ & _ & _ & _ & _ & []).
Qed.

Lemma release_all_spec d s :
  release_all release_fails d s = (Ok (), log [] (reverse (handles d)) s).
Proof.
  revert s. induction d as [|[k e] d IH]; intros s; cbn [release_all].
  - by destruct s.
  - unfold bind. rewrite release_expert_ok, IH.
    change (handles ((k, e) :: d)) with (handle (resource e) :: handles d).
    rewrite reverse_cons. unfold log. cbn [given_back loaded app]. by rewrite <-app_assoc.
Qed.

Lemma close_spec s :
  res_inv s →
  let '(o, s') := close release_fails s in
  res_inv s' ∧
  match o with
  | Ok _ => entries s' = [] ∧ ∀ k e, od_get k (entries s) = Some e → leases e = 0
  | Raise x => s' = s
  end.
Proof.
  intros [[H1 H2 H3 H4] [W1 W2] Hp]. unfold close. destruct (existsb _ _) eqn:E.
  { split; [|done]. by constructor. }
  rewrite release_all_spec. split.
  - constructor; [constructor; cbn; try done; [constructor|]| |done].
    + rewrite H4, app_nil_r. rewrite reverse_Permutation. by rewrite (Permutation_app_comm (given_back s)).
    + split; cbn; [|unfold within in *; cbn in *].
      * pose proof (Zlen_nonneg (entries s)). change (Zlen (@nil (ExpertKey * Entry))) with 0. lia.
      * assert (0 <= od_sum bytes_of (entries s)); [|lia]. apply od_sum_nonneg.
        intros k e He. apply od_get_iff in He; [|done]. destruct (H3 k e He). lia.
  - split; [done|]. intros k e He. destruct (decide (leases e = 0)) as [|Hne]; [done|]. exfalso.
    assert (existsb (λ p, negb (leases p.2 =? 0)) (entries s) = true); [|congruence].
    apply existsb_exists. exists (k, e). split; [by apply list_elem_of_In, od_get_elem|].
    cbn. by apply negb_true_iff, Z.eqb_neq.
Qed.

(** ** The manager with the leases it handed out *)

(** Where the thread that uses a lease is in [release]: not in it, past the test of
    the flag, past its assignment, or past the lock with bounds to try again. *)
Inductive Stage := Ready | Releasing | Owing | Resizing (n b : Z).
#[export] Instance Stage_eq_dec : EqDecision Stage.
Proof. solve_decision. Defined.

Record Sys := mkSys { mgr : ExpertResidencyManager; held : list (ExpertLease * Stage) }.

(** A lease that is not released, or whose count is still to be given back. *)
Definition counted (p : ExpertLease * Stage) : bool :=
  negb (lease_released p.1) || bool_decide (p.2 = Owing).
Definition counts (k : ExpertKey) (p : ExpertLease * Stage) : Z :=
  if counted p then if decide (lease_key p.1 = k) then 1 else 0 else 0.
Definition lease_count (k : ExpertKey) (ls : list (ExpertLease * Stage)) : Z := Zsum (counts k <$> ls).
#[local] Arguments lease_count : simpl never.

(** Calls of any threads.  [ExpertLease.release] is three or four steps, since it
    holds the lock only for one of them; one thread at a time uses a lease. *)
Inductive sys_step : Sys → Sys → Prop :=
| s_acquire k bound load elapsed s :
    (∀ r, load = Ok r → resource_valid r = true) →
    sys_step s (mkSys (acquire release_fails k bound load elapsed (mgr s)).2
      (match (acquire release_fails k bound load elapsed (mgr s)).1 with
       | Ok l => held s ++ [(l, Ready)] | Raise _ => held s end))
| s_release_test n l s :
    held s !! n = Some (l, Ready) → lease_released l = false →
    sys_step s (mkSys (mgr s) (<[n := (l, Releasing)]> (held s)))
| s_release_set n l s :
    held s !! n = Some (l, Releasing) →
    sys_step s (mkSys (mgr s) (<[n := (mark_released l, Owing)]> (held s)))
| s_release_locked n l s :
    held s !! n = Some (l, Owing) →
    sys_step s (mkSys (release_locked (lease_key l) (mgr s)).2
      (<[n := (l, if (release_locked (lease_key l) (mgr s)).1 is Ok (Some (a, b)) then Resizing a b
                  else Ready)]> (held s)))
| s_release_resize n l a b s :
    held s !! n = Some (l, Resizing a b) →
    sys_step s (mkSys (resize release_fails a b (mgr s)).2 (<[n := (l, Ready)]> (held s)))
| s_resize n b s : sys_step s (mkSys (resize release_fails n b (mgr s)).2 (held s))
| s_close s : sys_step s (mkSys (close release_fails (mgr s)).2 (held s)).

Definition leases_at (s : ExpertResidencyManager) (k : ExpertKey) : Z :=
  match od_get k (entries s) with Some e => leases e | None => 0 end.

Definition resident_as (s : ExpertResidencyManager) (l : ExpertLease) : Prop :=
  ∃ e, od_get (lease_key l) (entries s) = Some e ∧ resource e = lease_resource l.

(** The flag is set exactly from [Owing] on. *)
Definition staged (p : ExpertLease * Stage) : Prop :=
  match p.2 with
  | Ready => True | Releasing => lease_released p.1 = false
  | Owing | Resizing _ _ => lease_released p.1 = true
  end.

Record sys_inv (s : Sys) : Prop := {
  sy_mgr : res_inv (mgr s);
  sy_count : ∀ k, leases_at (mgr s) k = lease_count k (held s);
  sy_resident : ∀ p, p ∈ held s → counted p = true → resident_as (mgr s) p.1;
  sy_staged : ∀ p, p ∈ held s → staged p;
}.

Lemma lease_count_app k l1 l2 : lease_count k (l1 ++ l2) = lease_count k l1 + lease_count k l2.
Proof. unfold lease_count. by rewrite fmap_app, Zsum_app. Qed.

Lemma lease_count_insert k ls n l l' :
  ls !! n = Some l → lease_count k (<[n := l']> ls) = lease_count k ls - counts k l + counts k l'.
Proof.
  intros Hl. rewrite <-(take_drop_middle ls n l Hl) at 2. rewrite insert_take_drop by (by eapply lookup_lt_Some).
  rewrite !lease_count_app. unfold lease_count at 2 4. cbn. unfold lease_count. lia.
Qed.

Lemma counts_nonneg k p : 0 <= counts k p.
Proof. unfold counts. destruct (counted p); [|done]. destruct (decide _); done. Qed.

(** A lease that counts does so at its key. *)
Lemma lease_count_held ls p :
  p ∈ ls → counted p = true → 1 <= lease_count (lease_key p.1) ls.
Proof.
  intros Hl Hr. etransitivity; [|apply (Zsum_elem_le (counts (lease_key p.1)) ls p Hl)].
  - unfold counts. rewrite Hr, decide_True by done. lia.
  - intros q _. apply counts_nonneg.
Qed.

(** Steps that keep leased experts keep what the holders of other keys see. *)
Lemma keeps_leases k s s' :
  core [] s → keeps k s s' → core [] s' → ∀ k', k' ≠ k → leases_at s' k' = leases_at s k'.
Proof.
  intros Hc [K1 K2] Hc' k' Hne. unfold leases_at.
  destruct (od_get k' (entries s')) as [e'|] eqn:E'.
  - by rewrite (K1 k' e' Hne E').
  - destruct (od_get k' (entries s)) as [e|] eqn:E; [|done].
    destruct (decide (leases e = 0)) as [|Hl]; [done|]. rewrite (K2 k' e Hne E Hl) in E'. done.
Qed.

Lemma keeps_resident k s s' ls :
  core [] s → keeps k s s' → (∀ k', leases_at s k' = lease_count k' ls) →
  ∀ p, p ∈ ls → counted p = true → lease_key p.1 ≠ k → resident_as s p.1 → resident_as s' p.1.
Proof.
  intros Hc [_ K2] Hcount p Hl Hr Hne (e & He & Hres). exists e. split; [|done].
  apply K2; [done|done|]. pose proof (lease_count_held ls p Hl Hr) as Hn.
  rewrite <-Hcount in Hn. unfold leases_at in Hn. rewrite He in Hn. lia.
Qed.

Lemma no_entry_no_lease s (ls : list (ExpertLease * Stage)) k :
  (∀ p, p ∈ ls → counted p = true → resident_as s p.1) →
  od_get k (entries s) = None → ∀ p, p ∈ ls → counted p = true → lease_key p.1 ≠ k.
Proof. intros Hres Hn l Hl Hr <-. destruct (Hres l Hl Hr) as (e & He & _). congruence. Qed.

Lemma sys_acquire_inv k bound load elapsed s :
  sys_inv s → (∀ r, load = Ok r → resource_valid r = true) →
  sys_inv (mkSys (acquire release_fails k bound load elapsed (mgr s)).2
    (match (acquire release_fails k bound load elapsed (mgr s)).1 with
     | Ok l => held s ++ [(l, Ready)] | Raise _ => held s end)).
Proof.
  intros [Hm Hcnt Hres Hst] Hload. pose proof (acquire_spec k bound load elapsed (mgr s) Hm Hload) as H.
  destruct (acquire release_fails k bound load elapsed (mgr s)) as [[l|x] s'];
    destruct H as (Hm' & Hk & _ & Ho); cbn [fst snd];
    pose proof (keeps_leases k _ _ (ri_core _ Hm) Hk (ri_core _ Hm')) as Hle.
  - destruct Ho as (Hlk & Hlr & e & He & Hr & Hcase). constructor; cbn; [done| | |].
    + intros k'. rewrite lease_count_app. unfold lease_count at 2. cbn. unfold counts, counted. cbn. rewrite Hlr, Hlk. cbn.
      destruct (decide (k = k')) as [<-|Hne]; [|rewrite Hle, Hcnt by done; lia].
      rewrite <-Hcnt. unfold leases_at. rewrite He. destruct (od_get k (entries (mgr s))); lia.
    + intros p [Hl'| ->%list_elem_of_singleton]%elem_of_app Hr'.
      * destruct (decide (lease_key p.1 = k)) as [Heq|Hne].
        -- destruct (Hres p Hl' Hr') as (e0 & He0 & Hr0). rewrite Heq in He0. rewrite He0 in Hcase.
           exists e. rewrite Heq. split; [done|]. destruct Hcase as [_ ->]. done.
        -- eapply keeps_resident; [apply Hm|done|done|done|done|done|by apply Hres].
      * exists e. cbn. by rewrite Hlk.
    + intros p [Hp| ->%list_elem_of_singleton]%elem_of_app; [by apply Hst|done].
  - destruct Ho as (Hn & Hn' & _). constructor; cbn; [done| | |done].
    + intros k'. destruct (decide (k' = k)) as [->|Hne]; [|by rewrite Hle, Hcnt].
      rewrite <-Hcnt. unfold leases_at. by rewrite Hn, Hn'.
    + intros l' Hl' Hr'. eapply keeps_resident; [apply Hm|done|done|done|done| |by apply Hres].
      by eapply no_entry_no_lease.
Qed.

(** An element of a list one of whose leases moved on. *)
Lemma moved_in (ls : list (ExpertLease * Stage)) n p q x :
  ls !! n = Some p → x ∈ <[n := q]> ls → x = q ∨ x ∈ ls.
Proof.
  intros Hp (i & Hi)%list_elem_of_lookup. destruct (decide (n = i)) as [<-|Hne].
  - rewrite list_lookup_insert_eq in Hi by (by eapply lookup_lt_Some). injection Hi as <-. by left.
  - rewrite list_lookup_insert_ne in Hi by done. right. by eapply list_elem_of_lookup_2.
Qed.

(** A thread moves on in [release] without touching the manager. *)
Lemma restage_inv n p q s :
  sys_inv s → held s !! n = Some p → lease_key q.1 = lease_key p.1 →
  lease_resource q.1 = lease_resource p.1 → counted q = counted p → staged q →
  sys_inv (mkSys (mgr s) (<[n := q]> (held s))).
Proof.
  intros [Hm Hcnt Hres Hst] Hp Hk Hr Hc Hq. constructor; cbn; [done| | |].
  - intros k. rewrite (lease_count_insert _ _ _ _ _ Hp), Hcnt. unfold counts. rewrite Hc, Hk. lia.
  - intros x [->|Hx]%(moved_in _ _ _ _ _ Hp) Hcx; [|by apply Hres].
    destruct (Hres p) as (e & He & Hre); [by eapply list_elem_of_lookup_2|by rewrite <-Hc|].
    exists e. by rewrite Hk, Hr.
  - intros x [->|Hx]%(moved_in _ _ _ _ _ Hp); [done|by apply Hst].
Qed.

(** The locked part of a release that owes its count. *)
Lemma residency_release_inv n l q s :
  sys_inv s → held s !! n = Some (l, Owing) → lease_key q.1 = lease_key l → counted q = false → staged q →
  is_ok (release_locked (lease_key l) (mgr s)).1 = true ∧
  sys_inv (mkSys (release_locked (lease_key l) (mgr s)).2 (<[n := q]> (held s))).
Proof.
  intros [Hm Hcnt Hres Hst] Hl Hqk Hqc Hq. set (k := lease_key l).
  pose proof (list_elem_of_lookup_2 _ _ _ Hl) as Hin. pose proof (release_locked_spec k (mgr s) Hm) as H.
  destruct (release_locked k (mgr s)) as [o s']. destruct H as (Hm' & Hk & Ho). cbn [fst snd].
  assert (counted (l, Owing) = true) as Hcl by (unfold counted; cbn; by rewrite orb_true_r).
  pose proof (lease_count_held (held s) _ Hin Hcl) as Hpos. rewrite <-Hcnt in Hpos. cbn in Hpos. fold k in Hpos.
  destruct o as [u|x].
  2:{ exfalso. destruct Ho as [_ Hle]. unfold leases_at in Hpos.
      destruct (od_get k (entries (mgr s))) as [e|]; [specialize (Hle e eq_refl); lia|lia]. }
  destruct Ho as (_ & e & e' & He & Hpl & He' & Hre & Hle'). split; [done|].
  assert (∀ k', leases_at s' k' = lease_count k' (<[n := q]> (held s))) as Hcnt'.
  { intros k'. rewrite (lease_count_insert _ _ _ _ _ Hl), <-Hcnt. unfold counts. rewrite Hqc, Hcl. cbn. fold k.
    destruct (decide (k = k')) as [<-|Hne].
    - unfold leases_at. rewrite He, He'. lia.
    - rewrite (keeps_leases k _ _ (ri_core _ Hm) Hk (ri_core _ Hm')) by done. lia. }
  constructor; cbn; [done|done| |].
  - intros p [->|Hp]%(moved_in _ _ _ _ _ Hl) Hcp; [congruence|].
    destruct (decide (lease_key p.1 = k)) as [Heq|Hne].
    + exists e'. rewrite Heq. split; [done|]. destruct (Hres p Hp Hcp) as (e0 & He0 & <-). rewrite Heq in He0. congruence.
    + eapply keeps_resident; [apply Hm|done|done|done|done|done|by apply Hres].
  - intros x [->|Hx]%(moved_in _ _ _ _ _ Hl); [done|by apply Hst].
Qed.

Lemma residency_resize_inv n b s :
  sys_inv s → sys_inv (mkSys (resize release_fails n b (mgr s)).2 (held s)).
Proof.
  intros [Hm Hcnt Hres Hst]. destruct (bounds_valid n b) eqn:Hb.
  2:{ unfold resize. rewrite Hb. by constructor. }
  assert (∀ k, let s' := (resize release_fails n b (mgr s)).2 in
            res_inv s' ∧ (∀ e, od_get k (entries (mgr s)) = Some e → leases e ≠ 0 →
                               od_get k (entries s') = Some e) ∧
            (∀ e, od_get k (entries s') = Some e → od_get k (entries (mgr s)) = Some e)) as H.
  { intros k. pose proof (resize_spec n b (mgr s) k Hm Hb) as H.
    destruct (resize release_fails n b (mgr s)) as [o s']. cbn. by destruct H as (?&_&_&?&?&_). }
  constructor; cbn; [apply (H (mkKey 0 0))| | |done].
  - intros k. rewrite <-Hcnt. destruct (H k) as (_ & H1 & H2). unfold leases_at.
    destruct (od_get k (entries (resize _ _ _ _).2)) as [e|] eqn:E; [by rewrite (H2 e eq_refl)|].
    destruct (od_get k (entries (mgr s))) as [e|] eqn:E0; [|done].
    destruct (decide (leases e = 0)) as [|Hne]; [done|]. by specialize (H1 e eq_refl Hne).
  - intros l Hl Hr. destruct (Hres l Hl Hr) as (e & He & Hre). exists e. split; [|done].
    destruct (H (lease_key l.1)) as (_ & H1 & _). apply H1; [done|].
    pose proof (lease_count_held _ l Hl Hr) as Hn. rewrite <-Hcnt in Hn. unfold leases_at in Hn.
    rewrite He in Hn. lia.
Qed.

Lemma residency_close_inv s : sys_inv s → sys_inv (mkSys (close release_fails (mgr s)).2 (held s)).
Proof.
  intros [Hm Hcnt Hres Hst]. pose proof (close_spec (mgr s) Hm) as H.
  destruct (close release_fails (mgr s)) as [o s']. destruct H as [Hm' Ho]. cbn.
  destruct o as [u|x]; [|rewrite Ho; by constructor]. destruct Ho as [He Hz].
  assert (∀ k, leases_at (mgr s) k = 0) as H0.
  { intros k. unfold leases_at. destruct (od_get k (entries (mgr s))) as [e|] eqn:E; [|done]. eauto. }
  constructor; cbn; [done| | |done].
  - intros k. rewrite <-Hcnt, H0. unfold leases_at. by rewrite He.
  - intros l Hl Hr. pose proof (lease_count_held _ l Hl Hr) as Hn. rewrite <-Hcnt, H0 in Hn. lia.
Qed.

Lemma residency_step_inv s s' : sys_inv s → sys_step s s' → sys_inv s'.
Proof.
  intros Hinv Hstep.
  destruct Hstep as [k bound load elapsed s Hload|n l s Hl Hr|n l s Hl|n l s Hl|n l a b s Hl|n b s|s].
  - by apply sys_acquire_inv.
  - by apply (restage_inv _ (l, Ready)).
  - pose proof (sy_staged _ Hinv _ (list_elem_of_lookup_2 _ _ _ Hl)) as Hr. cbn in Hr.
    apply (restage_inv _ (l, Releasing)); try done. unfold counted. cbn. by rewrite Hr.
  - pose proof (sy_staged _ Hinv _ (list_elem_of_lookup_2 _ _ _ Hl)) as Hr. cbn in Hr.
    apply residency_release_inv; try done;
      destruct (release_locked _ _).1 as [[[a b]|]|]; unfold counted, staged; cbn; by rewrite ?Hr.
  - pose proof (sy_staged _ Hinv _ (list_elem_of_lookup_2 _ _ _ Hl)) as Hr. cbn in Hr.
    apply (residency_resize_inv a b) in Hinv. apply (restage_inv n (l, Resizing a b) (l, Ready)) in Hinv; done.
  - by apply residency_resize_inv.
  - by apply residency_close_inv.
Qed.

(** A release by one thread returns, and a second one does nothing. *)
Lemma release_returns n l s :
  sys_inv s → held s !! n = Some (l, Ready) →
  (release release_fails l (mgr s)).1.1 = Ok () ∧ lease_released (release release_fails l (mgr s)).1.2 = true.
Proof.
  intros Hinv Hl. unfold release. destruct (lease_released l) eqn:Hr; [done|].
  assert (Hcl : counted (l, Ready) = true) by (unfold counted; cbn; by rewrite Hr).
  pose proof (lease_count_held _ _ (list_elem_of_lookup_2 _ _ _ Hl) Hcl) as Hpos.
  rewrite <-(sy_count _ Hinv) in Hpos. unfold leases_at in Hpos. cbn in Hpos.
  pose proof (release_locked_spec (lease_key l) (mgr s) (sy_mgr _ Hinv)) as H. unfold release_lease, bind.
  destruct (release_locked (lease_key l) (mgr s)) as [[pending|x] s1]; destruct H as (Hm & _ & Ho).
  - destruct Ho as (-> & _). pose proof (retry_bounds_ok (pending_bounds (mgr s)) s1 Hm (ri_pending _ (sy_mgr _ Hinv))) as Hrb.
    destruct (retry_bounds _ _ s1) as [o s2]. cbn in *. by rewrite Hrb.
  - exfalso. destruct Ho as [_ Hle]. destruct (od_get (lease_key l) (entries (mgr s))) as [e|]; [specialize (Hle e eq_refl)|]; lia.
Qed.

Lemma residency_new_inv n b policy s0 : new_manager n b policy = Ok s0 → sys_inv (mkSys s0 []).
Proof.
  unfold new_manager, check, bounds_valid. destruct (_ && _) eqn:E; [|done]. intros [= <-]. breflect.
  constructor; cbn; [|done|set_solver|set_solver]. constructor; [constructor; cbn; try done; constructor| |done].
  split; cbn; [change (0 <= n)|]; lia.
Qed.

Lemma residency_run_inv n b policy s0 s :
  new_manager n b policy = Ok s0 → rtc sys_step (mkSys s0 []) s → sys_inv s.
Proof.
  intros Hnew Hrun.
  apply (rtc_invariant sys_step sys_inv _ _ residency_step_inv (residency_new_inv _ _ _ _ Hnew) Hrun).
Qed.

(** ** Properties *)

(** C23: residency is bounded and leases pin.  When the backend's release never
    fails, in every state that threads reach which acquire, release, resize and close
    in any interleaving, each lease used by one thread at a time, the resident experts
    are within the current entry and byte limits, the byte counter is exact, every
    handle the backend ever produced is resident or was given back exactly once, and
    the expert of each lease that is not released, or whose release has not given its
    count back, is resident with the very resource leased.  Releasing a lease that no
    thread is in returns. *)
Theorem residency_bounded n b policy s0 s :
  new_manager n b policy = Ok s0 → rtc sys_step (mkSys s0 []) s →
  let m := mgr s in
  snap_entries (snapshot m) <= snap_maximum_entries (snapshot m) ∧
  snap_resident_bytes (snapshot m) <= snap_maximum_bytes (snapshot m) ∧
  snap_resident_bytes (snapshot m) = od_sum bytes_of (entries m) ∧
  loaded m ≡ₚ given_back m ++ handles (entries m) ∧
  (∀ l st, (l, st) ∈ held s → lease_released l = false ∨ st = Owing → resident_as m l) ∧
  (∀ k, leases_at m k = lease_count k (held s)) ∧
  (∀ i l, held s !! i = Some (l, Ready) → (release release_fails l m).1.1 = Ok ()).
Proof.
  intros Hnew Hrun m. pose proof (residency_run_inv _ _ _ _ _ Hnew Hrun) as Hinv.
  pose proof Hinv as [[Hc [W1 W2] _] Hcnt Hres _].
  split_and!; try done; try apply Hc.
  - intros l st Hl Hst. apply (Hres (l, st) Hl). unfold counted. cbn.
    destruct Hst as [->| ->]; [done|by rewrite orb_true_r].
  - intros i l Hl. by apply (release_returns i).
Qed.

(** C35: [acquire] evicts only idle experts and refuses only what cannot fit.  On
    success the expert is resident with one more lease; every other leased expert
    is untouched either way; a refusal other than the loader's own exception is
    for an invalid bound, a resource larger than its announced bound, or a request
    that would not fit even if every idle expert were evicted. *)
Theorem acquire_evicts_idle k bound load elapsed s :
  res_inv s → (∀ r, load = Ok r → resource_valid r = true) →
  let '(o, s') := acquire release_fails k bound load elapsed s in
  (∀ k' e, k' ≠ k → od_get k' (entries s) = Some e → leases e ≠ 0 →
           od_get k' (entries s') = Some e) ∧
  match o with
  | Ok l => resident_as s' l ∧ lease_key l = k ∧ leases_at s' k = leases_at s k + 1
  | Raise x =>
      od_get k (entries s) = None ∧ od_get k (entries s') = None ∧
      (load = Raise x ∨ x = ValueError "invalid expert allocation bound" ∨
       (∃ b, bound = Some b ∧
         (x = ValueError "expert residency capacity is pinned or insufficient" ∧
            cannot_fit b 1 s' ∨
          x = ValueError "expert allocation exceeds backend bound" ∧
            ∃ r, load = Ok r ∧ b < resident_bytes r)) ∨
       x = ValueError "expert residency capacity is pinned" ∧
         ∃ r, load = Ok r ∧ cannot_fit (resident_bytes r) 1 s')
  end.
Proof.
  intros Hinv Hload. pose proof (acquire_spec k bound load elapsed s Hinv Hload) as H.
  destruct (acquire release_fails k bound load elapsed s) as [[l|x] s'];
    destruct H as (_ & [_ Hkeep] & _ & Ho); (split; [exact Hkeep|]); [|exact Ho].
  destruct Ho as (Hk & _ & e & He & Hr & Hcase). split; [exists e; by rewrite Hk|]. split; [done|].
  unfold leases_at. rewrite He. destruct (od_get k (entries s)); lia.
Qed.

End reliable.

(** ** Behaviour when the backend's release fails *)

Definition demo_new : ExpertResidencyManager :=
  mkManager LRU 1 100 None [] 0 0 0 0 0 0 0 0 [] [].
Definition demo_resource (h : Z) : ExpertResource := mkResource h 10.

(** One idle expert is resident. *)
Definition demo_idle : ExpertResidencyManager :=
  (release_lease (λ _, None) (mkKey 0 1)
     (acquire (λ _, None) (mkKey 0 1) None (Ok (demo_resource 7)) 5 demo_new).2).2.

(** Its eviction fails: the entry is gone but its bytes stay in the counter. *)
Lemma failed_release_leaks_bytes :
  let s := (acquire (λ h, if h =? 7 then Some (RuntimeError "backend") else None)
              (mkKey 0 2) None (Ok (demo_resource 8)) 5 demo_idle).2 in
  entries s = [] ∧ total_bytes s = 10.
Proof. vm_compute. done. Qed.

(** Two threads that release one lease at once can both pass the test of the flag:
    the count of another lease goes too, and the next load evicts its expert. *)
Lemma double_release_evicts :
  let k := mkKey 0 1 in
  let take k h s := (acquire (λ _, None) k None (Ok (demo_resource h)) 5 s).2 in
  let twice := take k 7 (take k 7 demo_new) in
  let raced := (release_locked k (release_locked k twice).2).2 in
  leases_at twice k = 2 ∧ od_get k (entries (take (mkKey 0 2) 8 raced)) = None ∧
  given_back (take (mkKey 0 2) 8 raced) = [7].
Proof. vm_compute. done. Qed.

(** ** Witnesses *)

Lemma demo_new_manager : new_manager 1 100 LRU = Ok demo_new.
Proof. reflexivity. Qed.

Lemma demo_resource_valid r : @Ok exn _ (demo_resource 7) = Ok r → resource_valid r = true.
Proof. by intros [= <-]. Qed.

Lemma residency_bounded_witness :
  snap_resident_bytes (snapshot
    (acquire (λ _, None) (mkKey 0 1) None (Ok (demo_resource 7)) 5 demo_new).2) <= 100.
Proof.
  exact (proj1 (proj2 (residency_bounded (λ _, None) (λ _, eq_refl) 1 100 LRU demo_new _
    demo_new_manager (rtc_once _ _ (s_acquire (λ _, None) (mkKey 0 1) None (Ok (demo_resource 7)) 5
       (mkSys demo_new []) demo_resource_valid))))).
Defined.

Lemma acquire_evicts_idle_witness :
  match (acquire (λ _, None) (mkKey 0 1) None (Ok (demo_resource 7)) 5 demo_new).1 with
  | Ok l => lease_key l = mkKey 0 1
  | Raise _ => False
  end.
Proof.
  pose proof (acquire_evicts_idle (λ _, None) (λ _, eq_refl) (mkKey 0 1) None (Ok (demo_resource 7)) 5
    demo_new (sy_mgr _ (residency_new_inv (λ _, None) (λ _, eq_refl) _ _ _ _ demo_new_manager)) demo_resource_valid) as H.
  destruct (acquire _ _ _ _ _ demo_new) as [[l|x] s'] eqn:E.
  - exact (proj1 (proj2 (proj2 H))).
  - exfalso. apply (f_equal (λ p, is_ok p.1)) in E. vm_compute in E. discriminate E.
Defined.

End ExpertResidency.
