(* ===== verification/EncoderCaches.v ===== *)
(** * Caches of encoder outputs (vision_cache.py, audio_encoder_cache.py)

    Two least-recently-used caches with an entry and a byte budget.  What they
    promise is stated once as the class [SizedLru]; the theorems are proved
    against the class and both caches are instances of it. *)

From S2P Require Import Prelude Types OrderedDict.

Module EncoderCaches.
Import OrderedDict.

(** ** Interface *)

(** A cache of values of type [V] keyed by digests, in order of use, with the
    size of each. *)
Class SizedLru (C V : Type) := {
  sl_entries : C → list (string * (V * Z));
  sl_bytes : C → Z;
  sl_max_entries : C → Z;
  sl_max_bytes : C → Z;
  sl_get : string → C → option V * C;
  sl_put : string → V → Z → C → bool * C;
  sl_clear : C → C;
  (* a hit moves the entry to the recent end, a miss changes no entry *)
  sl_get_law d c :
    (sl_get d c).1 = fst <$> od_get d (sl_entries c) ∧
    sl_entries (sl_get d c).2 = od_move_to_end d (sl_entries c) ∧
    sl_bytes (sl_get d c).2 = sl_bytes c ∧
    sl_max_entries (sl_get d c).2 = sl_max_entries c ∧
    sl_max_bytes (sl_get d c).2 = sl_max_bytes c;
  (* an output that fits replaces the entry of its key at the recent end, and the
     oldest entries go until the budgets hold *)
  sl_put_law d v n c :
    od_wf (sl_entries c) →
    (if (1 <=? n) && (n <=? sl_max_bytes c) then
       let old := match od_get d (sl_entries c) with Some (_, m) => m | None => 0 end in
       let '(kept, bytes, _) :=
         evict_to_limits snd (sl_max_entries c) (sl_max_bytes c)
           (od_del d (sl_entries c) ++ [(d, (v, n))]) (sl_bytes c - old + n) in
       (sl_put d v n c).1 = od_mem d kept ∧ sl_entries (sl_put d v n c).2 = kept ∧
       sl_bytes (sl_put d v n c).2 = bytes
     else (sl_put d v n c).1 = false ∧ sl_entries (sl_put d v n c).2 = sl_entries c ∧
          sl_bytes (sl_put d v n c).2 = sl_bytes c) ∧
    sl_max_entries (sl_put d v n c).2 = sl_max_entries c ∧
    sl_max_bytes (sl_put d v n c).2 = sl_max_bytes c;
  sl_clear_law c :
    sl_entries (sl_clear c) = [] ∧ sl_bytes (sl_clear c) = 0 ∧
    sl_max_entries (sl_clear c) = sl_max_entries c ∧
    sl_max_bytes (sl_clear c) = sl_max_bytes c;
}.

(** ** The vision cache *)

Record VisionCacheKey := mkVisionKey {
  image_sha256 : string;
  model_revision : string;
  preprocessing_fingerprint : string;
  encoder_fingerprint : string;
}.

Fixpoint all_hex (s : string) : bool :=
  match s with
  | EmptyString => true
  | String c s' =>
      let n := Ascii.nat_of_ascii c in
      ((Nat.leb 48 n && Nat.leb n 57) || (Nat.leb 97 n && Nat.leb n 102))%bool && all_hex s'
  end.
(** [_is_digest] *)
Definition is_digest (s : string) : bool := (str_len s =? 64) && all_hex s.

(** [VisionCacheKey.__post_init__] *)
Definition vision_key_valid (k : VisionCacheKey) : bool :=
  is_digest (image_sha256 k) && is_digest (model_revision k)
  && is_digest (preprocessing_fingerprint k) && is_digest (encoder_fingerprint k).

(** The JSON text of the key, with sorted names; digests need no escapes. *)
Definition vision_key_json (k : VisionCacheKey) : string :=
  json_object
     [member "encoder" (quoted (encoder_fingerprint k)); member "image" (quoted (image_sha256 k));
      member "model" (quoted (model_revision k));
      member "preprocessing" (quoted (preprocessing_fingerprint k))].

(** [VisionCacheKey.digest] *)
Definition vision_digest (sha256 : string → string) (k : VisionCacheKey) : string :=
  sha256 (vision_key_json k).

Record VisionEncoderCache (V : Type) := mkVision {
  v_maximum_entries : Z;
  v_maximum_bytes : Z;
  v_entries : list (string * (V * Z));        (* digest -> (value, size_bytes) *)
  v_resident_bytes : Z;
  v_hits : Z;
  v_misses : Z;
  v_evictions : Z;
}.
Arguments mkVision {V}.
Arguments v_maximum_entries {V}.
Arguments v_maximum_bytes {V}.
Arguments v_entries {V}.
Arguments v_resident_bytes {V}.
Arguments v_hits {V}.
Arguments v_misses {V}.
Arguments v_evictions {V}.

(** [VisionEncoderCache.__init__] *)
Definition new_vision {V} (n b : Z) : res exn (VisionEncoderCache V) :=
  check ((1 <=? n) && (n <=? 4096) && (1 <=? b) && (b <=? Z.shiftl 1 40))
    (ValueError "invalid vision encoder cache limits") (mkVision n b [] 0 0 0 0).

(** [VisionEncoderCache.get] *)
Definition vision_get {V} (d : string) (c : VisionEncoderCache V) : option V * VisionEncoderCache V :=
  match od_get d (v_entries c) with
  | None => (None, mkVision (v_maximum_entries c) (v_maximum_bytes c) (v_entries c)
                     (v_resident_bytes c) (v_hits c) (v_misses c + 1) (v_evictions c))
  | Some (v, _) =>
      (Some v, mkVision (v_maximum_entries c) (v_maximum_bytes c) (od_move_to_end d (v_entries c))
                 (v_resident_bytes c) (v_hits c + 1) (v_misses c) (v_evictions c))
  end.

(** [VisionEncoderCache.put], with [_evict_to_limits]. *)
Definition vision_put {V} (d : string) (v : V) (size_bytes : Z) (c : VisionEncoderCache V)
    : bool * VisionEncoderCache V :=
  if negb ((1 <=? size_bytes) && (size_bytes <=? v_maximum_bytes c)) then (false, c)
  else
    let old := match od_get d (v_entries c) with Some (_, n) => n | None => 0 end in
    let entries := od_set d (v, size_bytes) (od_del d (v_entries c)) in
    let '(kept, bytes, n) :=
      evict_to_limits snd (v_maximum_entries c) (v_maximum_bytes c) entries
        (v_resident_bytes c - old + size_bytes) in
    (od_mem d kept,
     mkVision (v_maximum_entries c) (v_maximum_bytes c) kept bytes (v_hits c) (v_misses c)
              (v_evictions c + n)).

(** [VisionEncoderCache.get_or_compute]; [compute] gives the value and its size. *)
Definition vision_get_or_compute {V} (d : string) (compute : V * Z) (c : VisionEncoderCache V)
    : V * VisionEncoderCache V :=
  match vision_get d c with
  | (Some v, c') => (v, c')
  | (None, c') => (compute.1, (vision_put d compute.1 compute.2 c').2)
  end.

(** [VisionEncoderCache.clear] *)
Definition vision_clear {V} (c : VisionEncoderCache V) : VisionEncoderCache V :=
  mkVision (v_maximum_entries c) (v_maximum_bytes c) [] 0 (v_hits c) (v_misses c) (v_evictions c).

(** ** The audio cache *)

Record AudioEncoderCacheKey := mkAudioKey {
  audio_sha256 : string;
  audio_encoder_fingerprint : string;
  feature_fingerprint : string;
  sample_rate : Z;
  channels : Z;
  start_sample : Z;
  end_sample : Z;
}.

(** [AudioEncoderCacheKey.__post_init__] *)
Definition audio_key_valid (k : AudioEncoderCacheKey) : bool :=
  is_digest (audio_sha256 k) && is_digest (audio_encoder_fingerprint k)
  && is_digest (feature_fingerprint k)
  && (1 <=? sample_rate k) && (sample_rate k <=? 384000)
  && (1 <=? channels k) && (channels k <=? 32)
  && (0 <=? start_sample k) && (start_sample k <? end_sample k).

Definition audio_key_json (k : AudioEncoderCacheKey) : string :=
  json_object
     [member "audio" (quoted (audio_sha256 k)); member "channels" (str_of_Z (channels k));
      member "encoder" (quoted (audio_encoder_fingerprint k));
      member "end" (str_of_Z (end_sample k)); member "feature" (quoted (feature_fingerprint k));
      member "rate" (str_of_Z (sample_rate k)); member "start" (str_of_Z (start_sample k))].

(** [AudioEncoderCacheKey.digest] *)
Definition audio_digest (sha256 : string → string) (k : AudioEncoderCacheKey) : string :=
  sha256 (audio_key_json k).

Record AudioEncoderCache (V : Type) := mkAudio {
  a_maximum_entries : Z;
  a_maximum_bytes : Z;
  a_entries : list (string * (V * Z));
  a_resident_bytes : Z;
  a_hits : Z;
  a_misses : Z;
  a_evictions : Z;
  a_rejected_oversize : Z;
}.
Arguments mkAudio {V}.
Arguments a_maximum_entries {V}.
Arguments a_maximum_bytes {V}.
Arguments a_entries {V}.
Arguments a_resident_bytes {V}.
Arguments a_hits {V}.
Arguments a_misses {V}.
Arguments a_evictions {V}.
Arguments a_rejected_oversize {V}.

(** [AudioEncoderCache.__init__] *)
Definition new_audio {V} (n b : Z) : res exn (AudioEncoderCache V) :=
  check ((1 <=? n) && (n <=? 8192) && (1 <=? b) && (b <=? Z.shiftl 1 40))
    (ValueError "invalid audio encoder cache limits") (mkAudio n b [] 0 0 0 0 0).

(** [AudioEncoderCache.get] *)
Definition audio_get {V} (d : string) (c : AudioEncoderCache V) : option V * AudioEncoderCache V :=
  match od_get d (a_entries c) with
  | None => (None, mkAudio (a_maximum_entries c) (a_maximum_bytes c) (a_entries c)
                     (a_resident_bytes c) (a_hits c) (a_misses c + 1) (a_evictions c)
                     (a_rejected_oversize c))
  | Some (v, _) =>
      (Some v, mkAudio (a_maximum_entries c) (a_maximum_bytes c) (od_move_to_end d (a_entries c))
                 (a_resident_bytes c) (a_hits c + 1) (a_misses c) (a_evictions c)
                 (a_rejected_oversize c))
  end.

(** [AudioEncoderCache.put] *)
Definition audio_put {V} (d : string) (v : V) (size_bytes : Z) (c : AudioEncoderCache V)
    : bool * AudioEncoderCache V :=
  if negb ((1 <=? size_bytes) && (size_bytes <=? a_maximum_bytes c))
  then (false, mkAudio (a_maximum_entries c) (a_maximum_bytes c) (a_entries c) (a_resident_bytes c)
                 (a_hits c) (a_misses c) (a_evictions c) (a_rejected_oversize c + 1))
  else
    let old := match od_get d (a_entries c) with Some (_, n) => n | None => 0 end in
    let entries := od_set d (v, size_bytes) (od_del d (a_entries c)) in
    let '(kept, bytes, n) :=
      evict_to_limits snd (a_maximum_entries c) (a_maximum_bytes c) entries
        (a_resident_bytes c - old + size_bytes) in
    (od_mem d kept,
     mkAudio (a_maximum_entries c) (a_maximum_bytes c) kept bytes (a_hits c) (a_misses c)
             (a_evictions c + n) (a_rejected_oversize c)).

(** [AudioEncoderCache.get_or_compute] *)
Definition audio_get_or_compute {V} (d : string) (compute : V * Z) (c : AudioEncoderCache V)
    : V * AudioEncoderCache V :=
  match audio_get d c with
  | (Some v, c') => (v, c')
  | (None, c') => (compute.1, (audio_put d compute.1 compute.2 c').2)
  end.

(** [AudioEncoderCache.clear] *)
Definition audio_clear {V} (c : AudioEncoderCache V) : AudioEncoderCache V :=
  mkAudio (a_maximum_entries c) (a_maximum_bytes c) [] 0 (a_hits c) (a_misses c) (a_evictions c)
          (a_rejected_oversize c).

(** ** Both caches implement the interface *)

Lemma od_set_del {W} d (x : W) (e : list (string * W)) :
  od_get d (od_del d e) = None → od_set d x (od_del d e) = od_del d e ++ [(d, x)].
Proof. apply od_set_new. Qed.

#[export, refine] Instance vision_lru V : SizedLru (VisionEncoderCache V) V := {
  sl_entries := v_entries;
  sl_bytes := v_resident_bytes;
  sl_max_entries := v_maximum_entries;
  sl_max_bytes := v_maximum_bytes;
  sl_get := vision_get;
  sl_put := vision_put;
  sl_clear := vision_clear;
}.
Proof.
  - intros d c. unfold vision_get, od_move_to_end. by destruct (od_get d (v_entries c)) as [[v n]|].
  - intros d v n c Hwf. unfold vision_put.
    destruct (_ && _); cbn [negb]; [|done]. rewrite od_set_del by by apply od_get_del.
    by destruct (evict_to_limits _ _ _ _ _) as [[kept bytes] k].
  - done.
Defined.

#[export, refine] Instance audio_lru V : SizedLru (AudioEncoderCache V) V := {
  sl_entries := a_entries;
  sl_bytes := a_resident_bytes;
  sl_max_entries := a_maximum_entries;
  sl_max_bytes := a_maximum_bytes;
  sl_get := audio_get;
  sl_put := audio_put;
  sl_clear := audio_clear;
}.
Proof.
  - intros d c. unfold audio_get, od_move_to_end. by destruct (od_get d (a_entries c)) as [[v n]|].
  - intros d v n c Hwf. unfold audio_put.
    destruct (_ && _); cbn [negb]; [|done]. rewrite od_set_del by by apply od_get_del.
    by destruct (evict_to_limits _ _ _ _ _) as [[kept bytes] k].
  - done.
Defined.

(** ** Every cache of the interface *)

Inductive lru_op (V : Type) :=
| LGet (d : string)
| LPut (d : string) (v : V) (n : Z)
| LClear.
Arguments LGet {V} d.
Arguments LPut {V} d v n.
Arguments LClear {V}.

Section lru.
Context {C V : Type} `{SizedLru C V}.
Implicit Types (c : C) (d : string) (v : V) (ops : list (lru_op V)).

Definition lru_exec c (o : lru_op V) : C :=
  match o with
  | LGet d => (sl_get d c).2
  | LPut d v n => (sl_put d v n c).2
  | LClear => sl_clear c
  end.
Definition lru_run ops c : C := foldl lru_exec c ops.

(** The value last put under [d] with a size the cache takes, if no [clear]
    came after it; the history is given with its last operation first. *)
Fixpoint last_put (max_bytes : Z) d (rev_ops : list (lru_op V)) : option V :=
  match rev_ops with
  | [] => None
  | LClear :: _ => None
  | LPut d' v n :: ops' =>
      if decide (d = d') then if (1 <=? n) && (n <=? max_bytes) then Some v else last_put max_bytes d ops'
      else last_put max_bytes d ops'
  | LGet _ :: ops' => last_put max_bytes d ops'
  end.

Definition lru_limits c : Prop := 1 <= sl_max_entries c ∧ 1 <= sl_max_bytes c.
Definition lru_empty c : Prop := lru_limits c ∧ sl_entries c = [] ∧ sl_bytes c = 0.

Definition lru_ok c : Prop :=
  lru_limits c ∧ od_wf (sl_entries c) ∧ sl_bytes c = od_sum snd (sl_entries c) ∧
  Zlen (sl_entries c) <= sl_max_entries c ∧ sl_bytes c <= sl_max_bytes c.

(** What [put] of an output that fits promises: the output is resident, and
    what left are the oldest entries, each of which could not stay. *)
Definition put_keeps_newest c d v n : Prop :=
  ∃ gone, let kept := sl_entries (sl_put d v n c).2 in
    od_del d (sl_entries c) ++ [(d, (v, n))] = gone ++ kept ∧
    od_get d kept = Some (v, n) ∧
    ∀ g1 p g2, gone = g1 ++ p :: g2 →
      sl_max_entries c < Zlen (p :: g2 ++ kept) ∨ sl_max_bytes c < od_sum snd (p :: g2 ++ kept).

Lemma evict_keeps_last entries bytes (e : list (string * (V * Z))) d v n :
  1 <= entries → 1 <= bytes → n <= bytes → od_wf (e ++ [(d, (v, n))]) →
  ∃ gone kept,
    evict_to_limits snd entries bytes (e ++ [(d, (v, n))]) (od_sum snd e + n)
      = (kept, od_sum snd kept, Zlen gone) ∧
    e ++ [(d, (v, n))] = gone ++ kept ∧ od_get d kept = Some (v, n) ∧ od_wf kept ∧
    Zlen kept <= entries ∧ od_sum snd kept <= bytes ∧
    ∀ g1 p g2, gone = g1 ++ p :: g2 →
      entries < Zlen (p :: g2 ++ kept) ∨ bytes < od_sum snd (p :: g2 ++ kept).
Proof.
  intros He Hb Hn Hwf.
  destruct (evict_spec snd entries bytes (e ++ [(d, (v, n))])) as
    (gone & kept & Heq & Hsplit & Hl & Hs & Hg); [lia|lia|].
  rewrite od_sum_snoc in Heq. cbn in Heq.
  assert (Hkept : od_wf kept).
  { unfold od_wf in *. rewrite Hsplit, fmap_app in Hwf. by apply NoDup_app in Hwf as (_ & _ & ?). }
  exists gone, kept. split_and!; try done. apply od_get_iff; [done|].
  destruct kept as [|k0 kept' _] using rev_ind.
  - exfalso. rewrite app_nil_r in Hsplit. subst gone.
    destruct (Hg e (d, (v, n)) [] eq_refl) as [Hx|Hx].
    + unfold Zlen in Hx. cbn in Hx. lia.
    + rewrite od_sum_cons in Hx. cbn in Hx. change (od_sum snd []) with 0 in Hx. lia.
  - rewrite app_assoc in Hsplit. apply app_inj_tail in Hsplit as [_ <-]. set_solver.
Qed.

Lemma lru_put_ok c d v n :
  lru_ok c →
  lru_ok (sl_put d v n c).2 ∧ (sl_put d v n c).1 = (1 <=? n) && (n <=? sl_max_bytes c) ∧
  sl_max_bytes (sl_put d v n c).2 = sl_max_bytes c ∧
  (if (1 <=? n) && (n <=? sl_max_bytes c) then put_keeps_newest c d v n
   else sl_entries (sl_put d v n c).2 = sl_entries c).
Proof.
  intros ([H1 H2] & Hwf & Hbytes & Hlen & Hmax). unfold lru_ok, lru_limits.
  destruct (sl_put_law d v n c Hwf) as (Hlaw & -> & ->).
  destruct (_ && _) eqn:Hfit; cycle 1.
  { destruct Hlaw as (-> & -> & ->). by split_and!. }
  apply andb_true_iff in Hfit as [Hn1 Hn2]. breflect.
  cbv zeta in Hlaw. set (old := match od_get d (sl_entries c) with Some (_, m) => m | None => 0 end) in Hlaw.
  assert (Hold : sl_bytes c - old = od_sum snd (od_del d (sl_entries c))).
  { rewrite Hbytes. subst old. destruct (od_get d (sl_entries c)) as [[v0 m]|] eqn:E.
    - by rewrite (od_sum_del _ _ _ _ E).
    - rewrite od_del_None by done. lia. }
  rewrite Hold in Hlaw.
  destruct (evict_keeps_last (sl_max_entries c) (sl_max_bytes c) (od_del d (sl_entries c)) d v n)
    as (gone & kept & Heq & Hsplit & Hd & Hkwf & Hkl & Hks & Hg); try done.
  { apply od_wf_snoc; [by apply od_wf_del|by apply od_get_del]. }
  rewrite Heq in Hlaw. destruct Hlaw as (Hr & Hent & Hb). unfold put_keeps_newest.
  rewrite Hr, Hent, Hb. split_and!; try done; [|by exists gone].
  unfold od_mem. by rewrite Hd.
Qed.

Lemma lru_get_ok c d :
  lru_ok c →
  lru_ok (sl_get d c).2 ∧ sl_max_bytes (sl_get d c).2 = sl_max_bytes c ∧
  (∀ d', od_get d' (sl_entries (sl_get d c).2) = od_get d' (sl_entries c)).
Proof.
  intros ([H1 H2] & Hwf & Hbytes & Hlen & Hmax). unfold lru_ok, lru_limits.
  destruct (sl_get_law d c) as (_ & -> & -> & -> & ->).
  rewrite od_sum_move, od_length_move. split_and!; try done; [by apply od_wf_move|].
  intros. by apply od_get_move.
Qed.

Lemma lru_clear_ok c : lru_ok c → lru_ok (sl_clear c) ∧ sl_max_bytes (sl_clear c) = sl_max_bytes c.
Proof.
  intros ([H1 H2] & Hwf & Hbytes & Hlen & Hmax). unfold lru_ok, lru_limits.
  destruct (sl_clear_law c) as (-> & -> & -> & ->). split_and!; try done; try lia.
  - apply NoDup_nil_2.
  - unfold Zlen. cbn. lia.
Qed.

(** An entry after [put] is the new output or one of the old entries. *)
Lemma lru_put_entries c d v n d' w m :
  lru_ok c → od_get d' (sl_entries (sl_put d v n c).2) = Some (w, m) →
  (d' = d ∧ (1 <=? n) && (n <=? sl_max_bytes c) ∧ w = v) ∨
  (od_get d' (sl_entries c) = Some (w, m) ∧
   (d' = d → (1 <=? n) && (n <=? sl_max_bytes c) = false)).
Proof.
  intros Hok Hget. destruct (lru_put_ok c d v n Hok) as (Hok' & _ & _ & Hput).
  destruct (_ && _) eqn:Hfit; [|rewrite Hput in Hget; by right].
  destruct Hput as (gone & Hsplit & Hd & _).
  destruct (decide (d' = d)) as [->|Hne]; [left; by simplify_eq|]. right. split; [|done].
  destruct Hok as (_ & Hwf & _).
  assert (Hwf2 : od_wf (od_del d (sl_entries c) ++ [(d, (v, n))]))
    by (apply od_wf_snoc; [by apply od_wf_del|by apply od_get_del]).
  rewrite <-(od_get_del_ne d d') by done. rewrite <-(od_get_snoc_ne d d' (v, n)) by done.
  apply od_get_iff; [done|]. rewrite Hsplit. apply elem_of_app. right. by apply od_get_elem.
Qed.

Lemma lru_run_ok ops c0 :
  lru_empty c0 →
  lru_ok (lru_run ops c0) ∧ sl_max_bytes (lru_run ops c0) = sl_max_bytes c0 ∧
  (∀ d v n, od_get d (sl_entries (lru_run ops c0)) = Some (v, n) →
     last_put (sl_max_bytes c0) d (reverse ops) = Some v).
Proof.
  intros (Hlim & Hnil & Hz). induction ops as [|o ops IH] using rev_ind.
  - cbn. unfold lru_ok. rewrite Hnil, Hz. destruct Hlim. split_and!; try done; try lia.
    + apply NoDup_nil_2.
    + unfold Zlen. cbn. lia.
  - unfold lru_run in *. rewrite foldl_app, reverse_app. cbn.
    destruct IH as (Hok & Hmax & Hlast). set (c := foldl lru_exec c0 ops) in *.
    destruct o as [d|d v n|]; cbn [lru_exec].
    + destruct (lru_get_ok c d Hok) as (? & -> & Hsame). split_and!; try done.
      intros d' w m. rewrite Hsame. apply Hlast.
    + destruct (lru_put_ok c d v n Hok) as (? & _ & -> & _). split_and!; try done.
      intros d' w m [(-> & Hfit & ->)|[Hold Hrej]]%lru_put_entries; try done.
      * rewrite decide_True by done. rewrite <-Hmax. by rewrite (Is_true_true_1 _ Hfit).
      * case_decide; [rewrite <-Hmax, Hrej by done|]; rewrite ?Hmax; eauto.
    + destruct (lru_clear_ok c Hok) as [? ->]. split_and!; try done.
      intros d' w m. by rewrite (proj1 (sl_clear_law c)).
Qed.

(** The contract of a cache that starts empty. *)
Definition lru_correct c0 : Prop :=
  ∀ ops, let c := lru_run ops c0 in
    Zlen (sl_entries c) <= sl_max_entries c ∧ sl_bytes c <= sl_max_bytes c ∧
    sl_bytes c = od_sum snd (sl_entries c) ∧
    (∀ d v, (sl_get d c).1 = Some v → last_put (sl_max_bytes c0) d (reverse ops) = Some v) ∧
    (∀ d v n, (sl_put d v n c).1 = (1 <=? n) && (n <=? sl_max_bytes c) ∧
       if (1 <=? n) && (n <=? sl_max_bytes c) then put_keeps_newest c d v n
       else sl_entries (sl_put d v n c).2 = sl_entries c).

Lemma lru_is_correct c0 : lru_empty c0 → lru_correct c0.
Proof.
  intros Hempty ops c. destruct (lru_run_ok ops c0 Hempty) as (Hok & Hmax & Hlast).
  fold c in Hok, Hmax, Hlast. pose proof Hok as (_ & _ & ? & ? & ?). split_and!; try done.
  - intros d v. destruct (sl_get_law d c) as (-> & _).
    destruct (od_get d (sl_entries c)) as [[w m]|] eqn:E; [|done]. intros [= <-]. eauto.
  - intros d v n. by destruct (lru_put_ok c d v n Hok) as (_ & -> & _ & ?).
Qed.
End lru.

(** ** Correctness *)

(** C26: a vision or audio encoder cache is a bounded least-recently-used map.
    After any sequence of [get], [put] and [clear] on a cache the constructor
    accepts, the number of entries and the bytes are within the configured limits
    and the byte counter is exact; [get] only ever returns the last output stored
    for the digest since the cache was cleared; [put] answers [True] exactly for
    an output of one byte up to the byte budget, keeps that output, and drops the
    oldest entries only, each of which no longer fits with what is newer; any
    other output changes no entry. *)
Theorem encoder_caches_correct {V} n b :
  (∀ c : VisionEncoderCache V, new_vision n b = Ok c → lru_correct c) ∧
  (∀ c : AudioEncoderCache V, new_audio n b = Ok c → lru_correct c).
Proof.
  split; intros c Hc; apply lru_is_correct; unfold new_vision, new_audio, check in Hc;
    case_match; simplify_eq; breflect; unfold lru_empty, lru_limits; cbn; split_and!; try done; lia.
Qed.

Example encoder_caches_correct_witness :
  lru_correct (mkVision (V:=Z) 2 100 [] 0 0 0 0) ∧
  v_entries (lru_run [LPut "a" 1 40; LPut "b" 2 40; LGet "a"; LPut "c" 3 30]
               (mkVision (V:=Z) 2 100 [] 0 0 0 0)) = [("a", (1, 40)); ("c", (3, 30))].
Proof. split; [by apply (proj1 (encoder_caches_correct 2 100))|reflexivity]. Defined.

End EncoderCaches.
