(* ===== verification/Context.v ===== *)
(** * Context sizing (context.py, ModelMemorySpec and StateMemorySpec of types.py)

    How many tokens of state a machine can hold: the memory left after the
    reserves, three budgets of it, and for each the largest number of tokens, in
    whole blocks, whose state fits. *)

From S2P Require Import Prelude Types PyFloat.

Module Context.
Import PyFloat.

Definition GIB : Z := Z.shiftl 1 30.

(** ** Memory shapes of models *)

Record ModelMemorySpec := {
  mm_model_id : string;
  mm_weights_bytes : Z;
  mm_kv_bytes_per_token : Z;
  mm_workspace_bytes : Z;
  mm_model_max_context : option Z;
}.

Record StateMemorySpec := {
  model_id : string;
  architecture : string;
  weights_bytes : Z;
  kv_bytes_per_token : Z;
  recurrent_state_bytes : Z;
  prefix_state_bytes : Z;
  attention_window_bytes_per_token : Z;
  attention_window_tokens : option Z;
  sparse_index_bytes_per_token : Z;
  sparse_retrieval_bytes_per_token : Z;
  sparse_retrieval_tokens : option Z;
  expert_storage_bytes : Z;
  expert_working_set_bytes : Z;
  ngram_storage_bytes : Z;
  ngram_working_set_bytes : Z;
  mtp_storage_bytes : Z;
  mtp_working_set_bytes : Z;
  scratch_workspace_bytes : Z;
  model_max_context : option Z;
}.

(** [x is not None and x <= 0] *)
Definition nonpositive (o : option Z) : bool :=
  match o with Some x => x <=? 0 | None => false end.

(** [StateMemorySpec.__post_init__] *)
Definition state_spec_check (m : StateMemorySpec) : res exn StateMemorySpec :=
  if str_eqb (model_id m) "" || str_eqb (architecture m) ""
  then Raise (ValueError "model_id and architecture must not be empty")
  else if existsb (λ value, value <? 0)
    [weights_bytes m; kv_bytes_per_token m; recurrent_state_bytes m; prefix_state_bytes m;
     attention_window_bytes_per_token m; sparse_index_bytes_per_token m;
     sparse_retrieval_bytes_per_token m; expert_storage_bytes m; expert_working_set_bytes m;
     ngram_storage_bytes m; ngram_working_set_bytes m; mtp_storage_bytes m;
     mtp_working_set_bytes m; scratch_workspace_bytes m]
  then Raise (ValueError "state memory byte counts must not be negative")
  else if (kv_bytes_per_token m =? 0) && is_none (model_max_context m)
  then Raise (ValueError "bounded-state models require model_max_context")
  else if nonpositive (attention_window_tokens m)
  then Raise (ValueError "attention_window_tokens must be positive")
  else if nonpositive (sparse_retrieval_tokens m)
  then Raise (ValueError "sparse_retrieval_tokens must be positive")
  else if nonpositive (model_max_context m)
  then Raise (ValueError "model_max_context must be positive")
  else Ok m.

(** [ModelMemorySpec.__post_init__] *)
Definition model_spec_check (m : ModelMemorySpec) : res exn ModelMemorySpec :=
  if (mm_weights_bytes m <? 0) || (mm_kv_bytes_per_token m <? 0) || (mm_workspace_bytes m <? 0)
  then Raise (ValueError "invalid model memory specification")
  else if nonpositive (mm_model_max_context m)
  then Raise (ValueError "model_max_context must be positive")
  else if (mm_kv_bytes_per_token m =? 0) && is_none (mm_model_max_context m)
  then Raise (ValueError "bounded-state models require model_max_context")
  else Ok m.

(** [ModelMemorySpec.as_state_memory_spec] *)
Definition as_state_memory_spec (m : ModelMemorySpec) : res exn StateMemorySpec :=
  state_spec_check {|
    model_id := mm_model_id m; architecture := "transformer";
    weights_bytes := mm_weights_bytes m; kv_bytes_per_token := mm_kv_bytes_per_token m;
    recurrent_state_bytes := 0; prefix_state_bytes := 0;
    attention_window_bytes_per_token := 0; attention_window_tokens := None;
    sparse_index_bytes_per_token := 0; sparse_retrieval_bytes_per_token := 0;
    sparse_retrieval_tokens := None; expert_storage_bytes := 0; expert_working_set_bytes := 0;
    ngram_storage_bytes := 0; ngram_working_set_bytes := 0; mtp_storage_bytes := 0;
    mtp_working_set_bytes := 0; scratch_workspace_bytes := mm_workspace_bytes m;
    model_max_context := mm_model_max_context m |}.

(** [min(tokens, limit)] when there is a limit. *)
Definition capped (limit : option Z) (tokens : Z) : Z :=
  match limit with Some l => Z.min tokens l | None => tokens end.

(** [StateMemorySpec.fixed_bytes] *)
Definition fixed_bytes (m : StateMemorySpec) : Z :=
  weights_bytes m + recurrent_state_bytes m + prefix_state_bytes m + expert_working_set_bytes m
  + ngram_working_set_bytes m + mtp_working_set_bytes m + scratch_workspace_bytes m.

(** [StateMemorySpec.state_bytes] *)
Definition state_bytes (m : StateMemorySpec) (tokens : Z) : res exn Z :=
  if tokens <? 0 then Raise (ValueError "tokens must not be negative")
  else
    let window_tokens := capped (attention_window_tokens m) tokens in
    let retrieval_tokens := capped (sparse_retrieval_tokens m) tokens in
    Ok (recurrent_state_bytes m + prefix_state_bytes m + tokens * kv_bytes_per_token m
        + window_tokens * attention_window_bytes_per_token m
        + tokens * sparse_index_bytes_per_token m
        + retrieval_tokens * sparse_retrieval_bytes_per_token m).

(** [StateMemorySpec.total_bytes] *)
Definition state_total_bytes (m : StateMemorySpec) (tokens : Z) : res exn Z :=
  match state_bytes m tokens with
  | Ok s => Ok (weights_bytes m + expert_working_set_bytes m + ngram_working_set_bytes m
                + mtp_working_set_bytes m + scratch_workspace_bytes m + s)
  | Raise e => Raise e
  end.

(** ** The recommendation *)

Record ContextPolicy := {
  os_reserve_ratio : float;
  minimum_os_reserve_bytes : Z;
  safety_headroom_ratio : float;
  minimum_safety_headroom_bytes : Z;
  default_workspace_ratio : float;
  token_block_size : Z;
}.

Definition one : float := of_Z 1.

(** [ContextPolicy.__post_init__] *)
Definition policy_check (p : ContextPolicy) : res exn ContextPolicy :=
  if existsb (λ value, fltb value zero || fleb one value)
       [os_reserve_ratio p; safety_headroom_ratio p; default_workspace_ratio p]
  then Raise (ValueError "policy ratios must be in [0, 1)")
  else if token_block_size p <=? 0 then Raise (ValueError "token_block_size must be positive")
  else Ok p.

(** [ContextPolicy()]: the ratios 0.15, 0.08 and 0.05. *)
Definition default_policy : ContextPolicy := {|
  os_reserve_ratio := literal 5404319552844595 (-55);
  minimum_os_reserve_bytes := 3 * GIB;
  safety_headroom_ratio := literal 5764607523034235 (-56);
  minimum_safety_headroom_bytes := GIB;
  default_workspace_ratio := literal 7205759403792794 (-57);
  token_block_size := 256;
|}.

Record ContextTier := mkTier {
  tier_name : string;
  max_tokens : Z;
  kv_budget_bytes : Z;
}.

Record ContextRecommendation := {
  rec_model_id : string;
  allocatable_bytes : Z;
  os_reserve_bytes : Z;
  safety_headroom_bytes : Z;
  workspace_bytes : Z;
  tiers : list ContextTier;
  limiting_factor : option string;
}.

(** [_aligned_tokens] *)
Definition aligned_tokens (kv_bytes bytes_per_token block_size : Z) : Z :=
  Z.max 0 (kv_bytes / bytes_per_token) / block_size * block_size.

(** The loop [while low < high] of [_maximum_tokens]. *)
Fixpoint search (m : StateMemorySpec) (fixed_state budget block_size : Z)
    (fuel : nat) (low high : Z) : res exn Z :=
  match fuel with
  | O => Ok low
  | S fuel' =>
      if low <? high then
        let middle := (low + high + 1) / 2 in
        let tokens := middle * block_size in
        match state_bytes m tokens with
        | Raise e => Raise e
        | Ok s =>
            if s - fixed_state <=? budget
            then search m fixed_state budget block_size fuel' middle high
            else search m fixed_state budget block_size fuel' low (middle - 1)
        end
      else Ok low
  end.

(** Each pass halves [high - low]. *)
Definition search_fuel (high : Z) : nat := Z.to_nat (Z.log2_up (high + 1)).

(** [_maximum_tokens] *)
Definition maximum_tokens (m : StateMemorySpec) (budget block_size : Z) : res exn Z :=
  let per_token := kv_bytes_per_token m + attention_window_bytes_per_token m in
  if per_token =? 0 then
    match model_max_context m with
    | None => Raise AssertionError
    | Some mx => Ok (mx / block_size * block_size)
    end
  else
    match (match model_max_context m with
           | Some mx => Ok (mx / block_size)
           | None => if kv_bytes_per_token m >? 0
                     then Ok (budget / kv_bytes_per_token m / block_size)
                     else Raise AssertionError
           end) with
    | Raise e => Raise e
    | Ok upper =>
        let fixed_state := recurrent_state_bytes m + prefix_state_bytes m in
        let high := Z.max 0 upper in
        match search m fixed_state budget block_size (search_fuel high) 0 high with
        | Raise e => Raise e
        | Ok low => Ok (low * block_size)
        end
    end.

(** ("safe", 0.70), ("balanced", 0.85), ("aggressive", 0.95) *)
Definition tier_ratios : list (string * (positive * Z)) :=
  [("safe", (6305039478318694%positive, -53)); ("balanced", (7656119366529843%positive, -53));
   ("aggressive", (8556839292003942%positive, -53))].

(** The loop over [tier_ratios]: the tiers and [limited_by_model]. *)
Fixpoint make_tiers (m : StateMemorySpec) (state_capacity block_size : Z)
    (ratios : list (string * (positive * Z))) : res exn (list ContextTier * bool) :=
  match ratios with
  | [] => Ok ([], false)
  | (name, (sig, ex)) :: rest =>
      match scaled state_capacity (literal sig ex) with
      | Raise e => Raise e
      | Ok budget =>
          match maximum_tokens m budget block_size with
          | Raise e => Raise e
          | Ok tokens =>
              let limited :=
                match model_max_context m with
                | Some mx => tokens =? mx / block_size * block_size
                | None => false
                end in
              match make_tiers m state_capacity block_size rest with
              | Raise e => Raise e
              | Ok (ts, l) => Ok (mkTier name tokens budget :: ts, limited || l)
              end
          end
      end
  end.

(** [recommend_state_context] *)
Definition recommend_state_context (memory : MemoryInfo) (m : StateMemorySpec)
    (policy : ContextPolicy) : res exn ContextRecommendation :=
  match scaled (total_bytes memory) (os_reserve_ratio policy),
        scaled (total_bytes memory) (safety_headroom_ratio policy) with
  | Raise e, _ => Raise e
  | Ok _, Raise e => Raise e
  | Ok os_scaled, Ok safety_scaled =>
      let os_reserve := Z.max (minimum_os_reserve_bytes policy) os_scaled in
      let safety := Z.max (minimum_safety_headroom_bytes policy) safety_scaled in
      let capacity_limit := Z.max 0 (total_bytes memory - os_reserve - safety) in
      let availability_limit := Z.max 0 (available_bytes memory - safety) in
      let allocatable := Z.min capacity_limit availability_limit in
      match (if scratch_workspace_bytes m =? 0
             then scaled (weights_bytes m) (default_workspace_ratio policy)
             else Ok (scratch_workspace_bytes m)) with
      | Raise e => Raise e
      | Ok workspace =>
          let fixed := weights_bytes m + recurrent_state_bytes m + prefix_state_bytes m
                       + expert_working_set_bytes m + ngram_working_set_bytes m
                       + mtp_working_set_bytes m + workspace in
          let state_capacity := Z.max 0 (allocatable - fixed) in
          match make_tiers m state_capacity (token_block_size policy) tier_ratios with
          | Raise e => Raise e
          | Ok (ts, limited_by_model) =>
              Ok {| rec_model_id := model_id m; allocatable_bytes := allocatable;
                    os_reserve_bytes := os_reserve; safety_headroom_bytes := safety;
                    workspace_bytes := workspace; tiers := ts;
                    limiting_factor := Some
                      (if state_capacity =? 0 then "insufficient_memory"
                       else if limited_by_model then "model_max_context"
                       else if availability_limit <? capacity_limit
                       then "current_memory_availability" else "physical_memory") |}
          end
      end
  end.

(** [recommend_context] *)
Definition recommend_context (memory : MemoryInfo) (m : ModelMemorySpec) (policy : ContextPolicy)
    : res exn ContextRecommendation :=
  match as_state_memory_spec m with
  | Raise e => Raise e
  | Ok s => recommend_state_context memory s policy
  end.

(** ** The search *)

Definition spec_valid (m : StateMemorySpec) : Prop := state_spec_check m = Ok m.

(** The state of [tokens] tokens beyond the fixed part. *)
Definition load (m : StateMemorySpec) (tokens : Z) : Z :=
  tokens * kv_bytes_per_token m
  + capped (attention_window_tokens m) tokens * attention_window_bytes_per_token m
  + tokens * sparse_index_bytes_per_token m
  + capped (sparse_retrieval_tokens m) tokens * sparse_retrieval_bytes_per_token m.

Lemma spec_valid_fields m :
  spec_valid m →
  (0 <= weights_bytes m ∧ 0 <= kv_bytes_per_token m ∧ 0 <= recurrent_state_bytes m
   ∧ 0 <= prefix_state_bytes m ∧ 0 <= attention_window_bytes_per_token m
   ∧ 0 <= sparse_index_bytes_per_token m ∧ 0 <= sparse_retrieval_bytes_per_token m
   ∧ 0 <= expert_working_set_bytes m ∧ 0 <= ngram_working_set_bytes m
   ∧ 0 <= mtp_working_set_bytes m ∧ 0 <= scratch_workspace_bytes m) ∧
  (kv_bytes_per_token m = 0 → is_Some (model_max_context m)) ∧
  (∀ l, attention_window_tokens m = Some l → 0 < l) ∧
  (∀ l, sparse_retrieval_tokens m = Some l → 0 < l) ∧
  (∀ l, model_max_context m = Some l → 0 < l).
Proof.
  unfold spec_valid, state_spec_check. intros H.
  destruct (_ || _); [done|]. destruct (existsb _ _) eqn:Hneg; [done|].
  destruct (_ && _) eqn:Hkv; [done|]. destruct (nonpositive (attention_window_tokens m)) eqn:Hw; [done|].
  destruct (nonpositive (sparse_retrieval_tokens m)) eqn:Hr; [done|].
  destruct (nonpositive (model_max_context m)) eqn:Hm; [done|].
  cbn in Hneg. rewrite !orb_false_iff in Hneg. breflect. split; [split_and!; lia|].
  split; [|split_and!; intros l Hl; rewrite Hl in *; cbn in *; breflect; lia].
  intros Hz. rewrite Hz in Hkv. destruct (model_max_context m); [by eexists|done].
Qed.

Lemma state_bytes_load m t :
  0 <= t → state_bytes m t = Ok (recurrent_state_bytes m + prefix_state_bytes m + load m t).
Proof.
  intros Ht. unfold state_bytes, load. rewrite (proj2 (Z.ltb_ge t 0)) by lia. f_equal. lia.
Qed.

Lemma capped_mono o t t' : t <= t' → capped o t <= capped o t'.
Proof. destruct o; cbn; lia. Qed.

Lemma load_mono m t t' : spec_valid m → t <= t' → load m t <= load m t'.
Proof.
  intros ((? & ? & ? & ? & ? & ? & ? & _) & _)%spec_valid_fields Ht. unfold load.
  pose proof (capped_mono (attention_window_tokens m) t t' Ht).
  pose proof (capped_mono (sparse_retrieval_tokens m) t t' Ht). nia.
Qed.

Lemma load_0 m : spec_valid m → load m 0 = 0.
Proof.
  intros (_ & _ & Hw & Hr & _)%spec_valid_fields. unfold load, capped.
  destruct (attention_window_tokens m) as [l|] eqn:E1, (sparse_retrieval_tokens m) as [l'|] eqn:E2;
    try specialize (Hw _ eq_refl); try specialize (Hr _ eq_refl); rewrite ?Z.min_l by lia; lia.
Qed.

(** A load bounded by the key/value bytes alone. *)
Lemma load_kv m t : spec_valid m → 0 <= t → t * kv_bytes_per_token m <= load m t.
Proof.
  intros Hm Ht. destruct (spec_valid_fields m Hm) as ((? & ? & ? & ? & ? & ? & ? & _) & _ & Hw & Hr & _).
  unfold load.
  assert (0 <= capped (attention_window_tokens m) t)
    by (destruct (attention_window_tokens m); cbn; [specialize (Hw _ eq_refl)|]; lia).
  assert (0 <= capped (sparse_retrieval_tokens m) t)
    by (destruct (sparse_retrieval_tokens m); cbn; [specialize (Hr _ eq_refl)|]; lia). nia.
Qed.

Lemma search_spec m budget block fuel low high :
  spec_valid m → 0 < block → 0 <= low <= high → high - low < 2 ^ Z.of_nat fuel →
  load m (low * block) <= budget →
  ∃ r, search m (recurrent_state_bytes m + prefix_state_bytes m) budget block fuel low high = Ok r ∧
    low <= r <= high ∧ load m (r * block) <= budget ∧
    ∀ r', r < r' <= high → budget < load m (r' * block).
Proof.
  intros Hm Hb. revert low high. induction fuel as [|fuel IH]; intros low high Hl Hf Hfit; cbn [search].
  { exists low. cbn in Hf. split_and!; try done; lia. }
  destruct (low <? high) eqn:E; breflect; cycle 1.
  { exists low. split_and!; try done; lia. }
  pose proof (Z.div_mod (low + high + 1) 2 ltac:(lia)). pose proof (Z.mod_pos_bound (low + high + 1) 2 ltac:(lia)).
  set (mid := (low + high + 1) / 2) in *. clearbody mid. rewrite Nat2Z.inj_succ, Z.pow_succ_r in Hf by lia.
  rewrite state_bytes_load by nia.
  replace (_ + load m (mid * block) - _) with (load m (mid * block)) by lia.
  destruct (load m (mid * block) <=? budget) eqn:Ef; breflect.
  - destruct (IH mid high) as (r & -> & Hr & Hrf & Hmax); [lia..|]. exists r. split_and!; try done; lia.
  - destruct (IH low (mid - 1)) as (r & -> & Hr & Hrf & Hmax); [lia..|]. exists r.
    split_and!; try done; [lia..|]. intros r' Hr'. destruct (Z.le_gt_cases r' (mid - 1)); [apply Hmax; lia|].
    eapply Z.lt_le_trans; [exact Ef|]. apply load_mono; [done|]. nia.
Qed.

Lemma search_fuel_enough high : 0 <= high → high - 0 < 2 ^ Z.of_nat (search_fuel high).
Proof.
  intros Hh. unfold search_fuel. rewrite Z2Nat.id by apply Z.log2_up_nonneg.
  destruct (decide (high = 0)) as [->|]; [done|].
  pose proof (Z.log2_up_spec (high + 1) ltac:(lia)). lia.
Qed.

(** What [_maximum_tokens] returns when a token costs memory. *)
Definition maximal_tokens (m : StateMemorySpec) (budget block t : Z) : Prop :=
  0 <= t ∧ (block | t) ∧ (∀ mx, model_max_context m = Some mx → t <= mx) ∧
  load m t <= budget ∧
  ∀ t', (block | t') → t < t' → (∀ mx, model_max_context m = Some mx → t' <= mx) → budget < load m t'.

Lemma maximum_tokens_spec m budget block :
  spec_valid m → 0 < block → 0 <= budget →
  kv_bytes_per_token m + attention_window_bytes_per_token m ≠ 0 →
  ∃ t, maximum_tokens m budget block = Ok t ∧ maximal_tokens m budget block t.
Proof.
  intros Hm Hb Hbud Hpt. destruct (spec_valid_fields m Hm) as ((_ & Hkv & _) & Hmax & _ & _ & Hpos).
  unfold maximum_tokens. rewrite (proj2 (Z.eqb_neq _ _) Hpt).
  assert (∃ upper, (match model_max_context m with
           | Some mx => Ok (mx / block)
           | None => if kv_bytes_per_token m >? 0
                     then Ok (budget / kv_bytes_per_token m / block)
                     else Raise AssertionError
           end) = Ok upper ∧ 0 <= upper ∧ (∀ mx, model_max_context m = Some mx → upper = mx / block) ∧
           ∀ r', upper < r' → (∀ mx, model_max_context m = Some mx → r' * block <= mx) →
             budget < load m (r' * block)) as (upper & -> & Hup & Hupm & Hbeyond).
  { destruct (model_max_context m) as [mx|] eqn:Emx.
    - specialize (Hpos _ eq_refl). exists (mx / block). split_and!; try done; [apply Z.div_pos; lia|naive_solver|].
      intros r' Hr' Hle. specialize (Hle _ eq_refl).
      pose proof (Z.div_le_lower_bound mx block r' ltac:(lia) ltac:(lia)). lia.
    - assert (0 < kv_bytes_per_token m) as Hkv'.
      { destruct (decide (kv_bytes_per_token m = 0)) as [Hz|]; [|lia]. by destruct (Hmax Hz). }
      rewrite (proj2 (Z.gtb_lt _ _)) by lia. eexists. split; [done|].
      split; [apply Z.div_pos; [apply Z.div_pos|]; lia|]. split; [done|]. intros r' Hr' _.
      rewrite Z.div_div in Hr' by lia. eapply Z.lt_le_trans; [|apply load_kv; [done|]].
      + pose proof (Z.mul_succ_div_gt budget (kv_bytes_per_token m * block) ltac:(lia)). nia.
      + pose proof (Z.div_pos budget (kv_bytes_per_token m * block) ltac:(lia) ltac:(lia)). nia. }
  rewrite Z.max_r by lia.
  destruct (search_spec m budget block (search_fuel upper) 0 upper) as (r & -> & Hr & Hfit & Hmaxr); try done.
  { by apply search_fuel_enough. }
  { rewrite Z.mul_0_l, load_0 by done. lia. }
  exists (r * block). split; [done|]. split_and!; [nia|by exists r| |done|].
  - intros mx Hmx. specialize (Hupm _ Hmx). pose proof (Z.mul_div_le mx block ltac:(lia)). nia.
  - intros t' [r' ->] Hlt Hle. destruct (Z.le_gt_cases r' upper); [apply Hmaxr; nia|by apply Hbeyond].
Qed.

(** ** Ratios *)

Lemma tier_scaled n name sig ex v :
  (name, (sig, ex)) ∈ tier_ratios → 0 <= n → scaled n (literal sig ex) = Ok v → 0 <= v <= n.
Proof.
  unfold tier_ratios. rewrite !elem_of_cons, elem_of_nil.
  intros [[= _ -> ->]|[[= _ -> ->]|[[= _ -> ->]|[]]]] Hn [-> _]%scaled_Ok; apply scaled_le; lia.
Qed.

Lemma tiers_scaled_mono n v1 v2 v3 :
  0 <= n → scaled n (literal 6305039478318694 (-53)) = Ok v1 →
  scaled n (literal 7656119366529843 (-53)) = Ok v2 →
  scaled n (literal 8556839292003942 (-53)) = Ok v3 → v1 <= v2 <= v3.
Proof.
  intros Hn [-> _]%scaled_Ok [-> F2]%scaled_Ok [-> F3]%scaled_Ok.
  split; apply scaled_mono; try done; lia.
Qed.

Lemma make_tiers_inv m cap block ts l :
  make_tiers m cap block tier_ratios = Ok (ts, l) →
  ∃ b1 t1 b2 t2 b3 t3,
    ts = [mkTier "safe" t1 b1; mkTier "balanced" t2 b2; mkTier "aggressive" t3 b3] ∧
    scaled cap (literal 6305039478318694 (-53)) = Ok b1 ∧
    scaled cap (literal 7656119366529843 (-53)) = Ok b2 ∧
    scaled cap (literal 8556839292003942 (-53)) = Ok b3 ∧
    maximum_tokens m b1 block = Ok t1 ∧ maximum_tokens m b2 block = Ok t2 ∧
    maximum_tokens m b3 block = Ok t3.
Proof.
  unfold tier_ratios. cbn [make_tiers].
  destruct (scaled cap (literal 6305039478318694 _)) as [b1|]; [|done].
  destruct (maximum_tokens m b1 block) as [t1|] eqn:E1; [|done].
  destruct (scaled cap (literal 7656119366529843 _)) as [b2|]; [|done].
  destruct (maximum_tokens m b2 block) as [t2|] eqn:E2; [|done].
  destruct (scaled cap (literal 8556839292003942 _)) as [b3|]; [|done].
  destruct (maximum_tokens m b3 block) as [t3|] eqn:E3; [|done].
  intros [= <- _]. by exists b1, t1, b2, t2, b3, t3.
Qed.

Lemma maximal_tokens_mono m b1 b2 block t1 t2 :
  b1 <= b2 → maximal_tokens m b1 block t1 → maximal_tokens m b2 block t2 → t1 <= t2.
Proof.
  intros Hb (_ & Hd1 & Hm1 & Hf1 & _) (_ & _ & _ & _ & Hmax).
  destruct (Z.le_gt_cases t1 t2); [done|]. specialize (Hmax t1 Hd1 ltac:(lia) Hm1). lia.
Qed.

(** Every number of tokens [_maximum_tokens] returns. *)
Lemma maximum_tokens_cases m budget block t :
  spec_valid m → 0 < block → 0 <= budget → maximum_tokens m budget block = Ok t →
  (kv_bytes_per_token m + attention_window_bytes_per_token m = 0 ∧
   ∃ mx, model_max_context m = Some mx ∧ 0 < mx ∧ t = mx / block * block) ∨
  (kv_bytes_per_token m + attention_window_bytes_per_token m ≠ 0 ∧ maximal_tokens m budget block t).
Proof.
  intros Hm Hb Hbud Ht. destruct (decide (kv_bytes_per_token m + attention_window_bytes_per_token m = 0)) as [Hz|Hz].
  - left. unfold maximum_tokens in Ht. rewrite (proj2 (Z.eqb_eq _ _) Hz) in Ht.
    destruct (model_max_context m) as [mx|] eqn:Emx; [|done]. injection Ht as <-. split; [done|].
    exists mx. split_and!; try done. by apply (proj2 (proj2 (proj2 (proj2 (spec_valid_fields m Hm))))).
  - right. split; [done|]. destruct (maximum_tokens_spec m budget block) as (t' & Ht' & Hmax); try done.
    rewrite Ht' in Ht. by injection Ht as <-.
Qed.

Lemma maximum_tokens_mono m b1 b2 block t1 t2 :
  spec_valid m → 0 < block → 0 <= b1 <= b2 → maximum_tokens m b1 block = Ok t1 →
  maximum_tokens m b2 block = Ok t2 → t1 <= t2.
Proof.
  intros Hm Hb Hbud H1 H2.
  apply maximum_tokens_cases in H1 as [(Hz & mx & Hmx & _ & ->)|[Hz Hmax1]]; [..|done|done|lia];
    apply maximum_tokens_cases in H2 as [(Hz' & mx' & Hmx' & _ & ->)|[Hz' Hmax2]]; try done; try lia.
  - by simplify_eq.
  - by apply (maximal_tokens_mono m b1 b2 block t1 t2 (proj2 Hbud)).
Qed.

(** What one tier guarantees, in terms of the memory left for state. *)
Lemma tier_fits m cap budget block t :
  spec_valid m → 0 < block → 0 <= budget <= cap → maximum_tokens m budget block = Ok t →
  0 <= t ∧ (block | t) ∧ (∀ mx, model_max_context m = Some mx → t <= mx) ∧
  (kv_bytes_per_token m + attention_window_bytes_per_token m ≠ 0 → 0 < t →
   0 < cap ∧ state_bytes m t = Ok (recurrent_state_bytes m + prefix_state_bytes m + load m t)
   ∧ load m t <= cap).
Proof.
  intros Hm Hb Hbud Ht. destruct (maximum_tokens_cases m budget block t Hm Hb ltac:(lia) Ht)
    as [(Hz & mx & Hmx & Hpos & ->)|(Hz & H0 & Hd & Hmx & Hfit & _)].
  - pose proof (Z.mul_div_le mx block Hb). pose proof (Z.div_pos mx block ltac:(lia) ltac:(lia)).
    split_and!; try done; [nia|by exists (mx / block)|]. intros mx' ?. simplify_eq. lia.
  - split_and!; try done. intros _ Hpos. split; [|split; [by apply state_bytes_load|lia]].
    destruct (spec_valid_fields m Hm) as ((? & ? & ? & ? & ? & ? & ? & _) & _ & Hw & Hr & _).
    assert (0 < load m t); [|lia]. unfold load.
    assert (0 < capped (attention_window_tokens m) t)
      by (destruct (attention_window_tokens m); cbn; [specialize (Hw _ eq_refl)|]; lia).
    assert (0 < capped (sparse_retrieval_tokens m) t)
      by (destruct (sparse_retrieval_tokens m); cbn; [specialize (Hr _ eq_refl)|]; lia). nia.
Qed.

(** ** Correctness *)

(** The state of [t] tokens fits a budget, as [_maximum_tokens] tests it. *)
Definition fits (m : StateMemorySpec) (budget t : Z) : Prop :=
  ∃ s, state_bytes m t = Ok s ∧ s - (recurrent_state_bytes m + prefix_state_bytes m) <= budget.

Lemma fits_load m budget t : 0 <= t → fits m budget t ↔ load m t <= budget.
Proof.
  intros Ht. unfold fits. rewrite state_bytes_load by done. split.
  - intros (s & [= <-] & ?). lia.
  - intros. eexists. split; [done|lia].
Qed.

(** For a valid memory shape in which a token costs key/value or window
    bytes, [_maximum_tokens] returns, and what it returns is the largest context
    that fits: a nonnegative multiple of the block size within the declared model
    maximum whose state fits the budget, while the state of every larger such
    multiple does not. *)
Theorem maximum_tokens_optimal m budget block :
  spec_valid m → 0 < block → 0 <= budget →
  kv_bytes_per_token m + attention_window_bytes_per_token m ≠ 0 →
  ∃ t, maximum_tokens m budget block = Ok t ∧
    0 <= t ∧ (block | t) ∧ (∀ mx, model_max_context m = Some mx → t <= mx) ∧ fits m budget t ∧
    ∀ t', (block | t') → t < t' → (∀ mx, model_max_context m = Some mx → t' <= mx) →
      ¬ fits m budget t'.
Proof.
  intros Hm Hb Hbud Hz. destruct (maximum_tokens_spec m budget block Hm Hb Hbud Hz)
    as (t & -> & H0 & Hd & Hmx & Hfit & Hmax). exists t. split_and!; try done.
  - by apply fits_load.
  - intros t' Hd' Hlt Hmx' Hf%fits_load; [|lia]. specialize (Hmax t' Hd' Hlt Hmx'). lia.
Qed.

Definition windowed_spec : StateMemorySpec := {|
  model_id := "m"; architecture := "hybrid"; weights_bytes := 1000; kv_bytes_per_token := 3;
  recurrent_state_bytes := 50; prefix_state_bytes := 10; attention_window_bytes_per_token := 7;
  attention_window_tokens := Some 64; sparse_index_bytes_per_token := 1;
  sparse_retrieval_bytes_per_token := 2; sparse_retrieval_tokens := Some 100;
  expert_storage_bytes := 0; expert_working_set_bytes := 5; ngram_storage_bytes := 0;
  ngram_working_set_bytes := 6; mtp_storage_bytes := 0; mtp_working_set_bytes := 7;
  scratch_workspace_bytes := 20; model_max_context := Some 5000 |}.

Example maximum_tokens_optimal_witness :
  maximum_tokens windowed_spec 6000 16 = Ok 1328 ∧
  ∃ t, maximum_tokens windowed_spec 6000 16 = Ok t ∧ 0 <= t ∧ (16 | t) ∧
    (∀ mx, model_max_context windowed_spec = Some mx → t <= mx) ∧ fits windowed_spec 6000 t ∧
    ∀ t', (16 | t') → t < t' → (∀ mx, model_max_context windowed_spec = Some mx → t' <= mx) →
      ¬ fits windowed_spec 6000 t'.
Proof. split; [reflexivity|]. apply maximum_tokens_optimal; [reflexivity|lia|lia|done]. Defined.

(** The guarantee of one tier, given what its tokens cost against the memory left. *)
Lemma tier_guarantee m block total avail osr sfr ws :
  spec_valid m → 0 <= ws →
  let alloc := Z.min (Z.max 0 (total - osr - sfr)) (Z.max 0 (avail - sfr)) in
  let cap := Z.max 0 (alloc - (weights_bytes m + recurrent_state_bytes m + prefix_state_bytes m
               + expert_working_set_bytes m + ngram_working_set_bytes m
               + mtp_working_set_bytes m + ws)) in
  ∀ n b t,
    0 <= t ∧ (block | t) ∧ (∀ mx, model_max_context m = Some mx → t <= mx) ∧
    (kv_bytes_per_token m + attention_window_bytes_per_token m ≠ 0 → 0 < t →
     0 < cap ∧ state_bytes m t = Ok (recurrent_state_bytes m + prefix_state_bytes m + load m t)
     ∧ load m t <= cap) →
  let tier := mkTier n t b in
    (block | max_tokens tier) ∧ (∀ mx, model_max_context m = Some mx → max_tokens tier <= mx) ∧
    (kv_bytes_per_token m + attention_window_bytes_per_token m ≠ 0 → 0 < max_tokens tier →
     ∃ state, state_bytes m (max_tokens tier) = Ok state ∧
       let used := weights_bytes m + expert_working_set_bytes m + ngram_working_set_bytes m
                   + mtp_working_set_bytes m + ws + state in
       used <= total - osr - sfr ∧ used <= avail - sfr).
Proof.
  intros [Hf _]%spec_valid_fields Hws alloc cap n b t (Ht0 & Hd & Hmx & Hfit). cbn.
  split; [done|]. split; [done|]. intros Hz Hpos. destruct (Hfit Hz Hpos) as (Hcap & Hs & Hload).
  eexists. split; [exact Hs|]. lia.
Qed.

(** C27: a recommendation is safe on the machine it was made for.  Its reserves
    are at least the policy's minimums; the tiers are "safe", "balanced" and
    "aggressive", with budgets and contexts that do not decrease from one to the
    next (in the floating-point arithmetic the code uses); every context is a
    whole number of blocks within the model's maximum; and where a token costs
    key/value or window bytes, a nonempty context together with the weights, the
    working sets and the workspace fits both the physical memory less both
    reserves and the memory available now less the headroom. *)
Theorem recommendation_safe memory m policy r :
  spec_valid m → policy_check policy = Ok policy →
  recommend_state_context memory m policy = Ok r →
  minimum_os_reserve_bytes policy <= os_reserve_bytes r ∧
  minimum_safety_headroom_bytes policy <= safety_headroom_bytes r ∧
  (∃ b1 t1 b2 t2 b3 t3,
    tiers r = [mkTier "safe" t1 b1; mkTier "balanced" t2 b2; mkTier "aggressive" t3 b3] ∧
    0 <= b1 <= b2 ∧ b2 <= b3 ∧ 0 <= t1 <= t2 ∧ t2 <= t3) ∧
  ∀ tier, tier ∈ tiers r →
    (token_block_size policy | max_tokens tier) ∧
    (∀ mx, model_max_context m = Some mx → max_tokens tier <= mx) ∧
    (kv_bytes_per_token m + attention_window_bytes_per_token m ≠ 0 → 0 < max_tokens tier →
     ∃ state, state_bytes m (max_tokens tier) = Ok state ∧
       let used := weights_bytes m + expert_working_set_bytes m + ngram_working_set_bytes m
                   + mtp_working_set_bytes m + workspace_bytes r + state in
       used <= total_bytes memory - os_reserve_bytes r - safety_headroom_bytes r ∧
       used <= available_bytes memory - safety_headroom_bytes r).
Proof.
  intros Hm Hp Hr. unfold recommend_state_context in Hr.
  destruct (scaled _ (os_reserve_ratio policy)) as [os|]; [|done].
  destruct (scaled _ (safety_headroom_ratio policy)) as [sf|]; [|done].
  destruct (if scratch_workspace_bytes m =? 0 then _ else _) as [ws|] eqn:Hws; [|done].
  set (osr := Z.max (minimum_os_reserve_bytes policy) os) in *.
  set (sfr := Z.max (minimum_safety_headroom_bytes policy) sf) in *.
  set (alloc := Z.min _ _) in Hr. cbn zeta in Hr. set (cap := Z.max 0 (alloc - _)) in Hr.
  destruct (make_tiers _ _ _ _) as [[ts l]|] eqn:Hts; [|done].
  apply make_tiers_inv in Hts as (b1 & t1 & b2 & t2 & b3 & t3 & -> & S1 & S2 & S3 & M1 & M2 & M3).
  injection Hr as <-. cbn. destruct (spec_valid_fields m Hm) as [Hf _].
  assert (0 <= cap) as Hcap by lia.
  assert (0 < token_block_size policy ∧ 0 <= ws) as [Hblk Hws0].
  { unfold policy_check in Hp. destruct (existsb _ _) eqn:Hex; [done|].
    destruct (token_block_size policy <=? 0) eqn:E; [done|]. cbn in Hex. rewrite !orb_false_iff in Hex.
    breflect. split; [lia|]. case_match; [|injection Hws; lia].
    eapply scaled_nonneg; [|apply Hex|done]; lia. }
  assert (B1 : 0 <= b1 <= cap) by (eapply (tier_scaled cap "safe"); [|done..]; unfold tier_ratios; set_solver).
  assert (B2 : 0 <= b2 <= cap) by (eapply (tier_scaled cap "balanced"); [|done..]; unfold tier_ratios; set_solver).
  assert (B3 : 0 <= b3 <= cap) by (eapply (tier_scaled cap "aggressive"); [|done..]; unfold tier_ratios; set_solver).
  destruct (tiers_scaled_mono cap b1 b2 b3 Hcap S1 S2 S3) as [H12 H23].
  pose proof (maximum_tokens_mono m b1 b2 _ t1 t2 Hm Hblk ltac:(lia) M1 M2).
  pose proof (maximum_tokens_mono m b2 b3 _ t2 t3 Hm Hblk ltac:(lia) M2 M3).
  pose proof (tier_fits m cap b1 _ t1 Hm Hblk B1 M1) as F1.
  pose proof (tier_fits m cap b2 _ t2 Hm Hblk B2 M2) as F2.
  pose proof (tier_fits m cap b3 _ t3 Hm Hblk B3 M3) as F3.
  split; [lia|]. split; [lia|]. split.
  { exists b1, t1, b2, t2, b3, t3. split; [done|]. lia. }
  pose proof (tier_guarantee m (token_block_size policy) (total_bytes memory) (available_bytes memory)
    osr sfr ws Hm Hws0) as Hgoal. fold alloc cap in Hgoal.
  intros tier [->|[->|[->|[]%not_elem_of_nil]%elem_of_cons]%elem_of_cons]%elem_of_cons; by apply Hgoal.
Qed.

Definition mac_32gb : MemoryInfo := {|
  total_bytes := 32 * GIB; available_bytes := 20 * GIB; process_resident_bytes := 0;
  mem_pressure := MP_NORMAL; mem_source := "sysctl" |}.

Definition model_8gb : StateMemorySpec := {|
  model_id := "m"; architecture := "transformer"; weights_bytes := 8 * GIB;
  kv_bytes_per_token := 131072; recurrent_state_bytes := 0; prefix_state_bytes := 0;
  attention_window_bytes_per_token := 0; attention_window_tokens := None;
  sparse_index_bytes_per_token := 0; sparse_retrieval_bytes_per_token := 0;
  sparse_retrieval_tokens := None; expert_storage_bytes := 0; expert_working_set_bytes := 0;
  ngram_storage_bytes := 0; ngram_working_set_bytes := 0; mtp_storage_bytes := 0;
  mtp_working_set_bytes := 0; scratch_workspace_bytes := 0; model_max_context := None |}.

Definition mac_recommendation : ContextRecommendation :=
  Eval vm_compute in
    match recommend_state_context mac_32gb model_8gb default_policy with
    | Ok r => r
    | Raise _ => {| rec_model_id := ""; allocatable_bytes := 0; os_reserve_bytes := 0;
                    safety_headroom_bytes := 0; workspace_bytes := 0; tiers := [];
                    limiting_factor := None |}
    end.

Example recommendation_safe_witness :
  max_tokens <$> tiers mac_recommendation = [51712; 62720; 70144] ∧
  ∀ tier, tier ∈ tiers mac_recommendation →
    (256 | max_tokens tier) ∧
    (∀ mx, model_max_context model_8gb = Some mx → max_tokens tier <= mx) ∧
    (131072 + 0 ≠ 0 → 0 < max_tokens tier →
     ∃ state, state_bytes model_8gb (max_tokens tier) = Ok state ∧
       let used := 8 * GIB + 0 + 0 + 0 + workspace_bytes mac_recommendation + state in
       used <= 32 * GIB - os_reserve_bytes mac_recommendation
               - safety_headroom_bytes mac_recommendation ∧
       used <= 20 * GIB - safety_headroom_bytes mac_recommendation).
Proof.
  split; [vm_compute; reflexivity|].
  exact (proj2 (proj2 (proj2 (recommendation_safe mac_32gb model_8gb default_policy mac_recommendation
    (eq_refl _) (eq_refl _) ltac:(vm_compute; reflexivity))))).
Defined.

(** The default policy always gives a recommendation on a real machine: nothing
    raises for a valid shape and sizes below 2^64 bytes. *)
Lemma maximum_tokens_returns m budget block :
  spec_valid m → 0 < block → 0 <= budget → is_ok (maximum_tokens m budget block).
Proof.
  intros Hm Hb Hbud.
  destruct (decide (kv_bytes_per_token m + attention_window_bytes_per_token m = 0)) as [Hz|Hz].
  - destruct (spec_valid_fields m Hm) as ((_ & ? & _ & _ & ? & _) & Hmax & _).
    destruct Hmax as [mx Hmx]; [lia|]. unfold maximum_tokens. rewrite (proj2 (Z.eqb_eq _ _) Hz).
    by rewrite Hmx.
  - by destruct (maximum_tokens_spec m budget block Hm Hb Hbud Hz) as (t & -> & _).
Qed.

Lemma make_tiers_returns m cap block ratios :
  spec_valid m → 0 < block → 0 <= cap < 2 ^ 64 → ratios ⊆ tier_ratios →
  is_ok (make_tiers m cap block ratios).
Proof.
  intros Hm Hb Hcap. induction ratios as [|[name [sig ex]] rest IH]; intros Hsub; [done|].
  cbn [make_tiers]. assert (Hin : (name, (sig, ex)) ∈ tier_ratios) by (apply Hsub; left).
  pose proof (scaled_returns cap sig ex Hcap) as Hsc.
  destruct (scaled cap (literal sig ex)) as [b|] eqn:Es; cycle 1.
  { unfold tier_ratios in Hin. rewrite !elem_of_cons, elem_of_nil in Hin.
    destruct Hin as [[= _ -> ->]|[[= _ -> ->]|[[= _ -> ->]|[]]]]; apply Hsc; lia. }
  pose proof (tier_scaled cap name sig ex b Hin ltac:(lia) Es).
  pose proof (maximum_tokens_returns m b block Hm Hb ltac:(lia)) as Ht.
  destruct (maximum_tokens m b block); [|done].
  specialize (IH ltac:(set_solver)). by destruct (make_tiers m cap block rest) as [[ts l]|].
Qed.

Lemma default_recommendation_returns memory m :
  spec_valid m → MemoryInfo_check memory = Ok () → total_bytes memory < 2 ^ 64 →
  weights_bytes m < 2 ^ 64 → is_ok (recommend_state_context memory m default_policy).
Proof.
  intros Hm Hmem Ht Hw. unfold MemoryInfo_check in Hmem.
  destruct (total_bytes memory <=? 0) eqn:E; [done|]. breflect.
  destruct (negb _) eqn:Eav; [done|]. apply negb_false_iff, andb_true_iff in Eav as [Ea1 Ea2]. breflect.
  destruct (spec_valid_fields m Hm) as [Hf _]. unfold recommend_state_context.
  assert (Hs : ∀ n f, 0 <= n < 2 ^ 64 → f ∈ [os_reserve_ratio default_policy;
    safety_headroom_ratio default_policy; default_workspace_ratio default_policy] →
    ∃ v, scaled n f = Ok v ∧ 0 <= v).
  { intros n f Hn Hin. assert (is_ok (scaled n f) ∧ fltb f zero = false) as [Hok Hneg].
    { rewrite !elem_of_cons, elem_of_nil in Hin.
      destruct Hin as [->|[->|[->|[]]]]; (split; [apply scaled_returns; lia|reflexivity]). }
    destruct (scaled n f) as [v|] eqn:Es; [|done]. exists v. split; [done|].
    apply (scaled_nonneg n f v); [lia|done|done]. }
  destruct (Hs (total_bytes memory) (os_reserve_ratio default_policy)) as (os & -> & _); [lia|set_solver|].
  destruct (Hs (total_bytes memory) (safety_headroom_ratio default_policy)) as (sf & -> & _); [lia|set_solver|].
  assert (∃ ws, (if scratch_workspace_bytes m =? 0
    then scaled (weights_bytes m) (default_workspace_ratio default_policy)
    else Ok (scratch_workspace_bytes m)) = Ok ws ∧ 0 <= ws) as (ws & -> & Hws).
  { case_match; [apply Hs; [lia|set_solver]|eexists; split; [done|lia]]. }
  pose proof (make_tiers_returns m (Z.max 0 (Z.min (Z.max 0 (total_bytes memory
      - Z.max (minimum_os_reserve_bytes default_policy) os
      - Z.max (minimum_safety_headroom_bytes default_policy) sf))
    (Z.max 0 (available_bytes memory - Z.max (minimum_safety_headroom_bytes default_policy) sf))
    - (weights_bytes m + recurrent_state_bytes m + prefix_state_bytes m + expert_working_set_bytes m
       + ngram_working_set_bytes m + mtp_working_set_bytes m + ws)))
    (token_block_size default_policy) tier_ratios Hm ltac:(done)) as Hts.
  cbn zeta. destruct (make_tiers _ _ _ _) as [[ts l]|]; [done|].
  apply Hts; [|done].
  assert (0 <= minimum_os_reserve_bytes default_policy) by done.
  assert (0 <= minimum_safety_headroom_bytes default_policy) by done. lia.
Qed.

(** A shape whose tokens cost sparse-attention bytes only skips the budget: the
    recommendation is the model's maximum however little memory there is. *)
Definition sparse_only_spec : StateMemorySpec := {|
  model_id := "m"; architecture := "sparse"; weights_bytes := 0; kv_bytes_per_token := 0;
  recurrent_state_bytes := 0; prefix_state_bytes := 0; attention_window_bytes_per_token := 0;
  attention_window_tokens := None; sparse_index_bytes_per_token := 4096;
  sparse_retrieval_bytes_per_token := 0; sparse_retrieval_tokens := None;
  expert_storage_bytes := 0; expert_working_set_bytes := 0; ngram_storage_bytes := 0;
  ngram_working_set_bytes := 0; mtp_storage_bytes := 0; mtp_working_set_bytes := 0;
  scratch_workspace_bytes := 0; model_max_context := Some 1048576 |}.

Lemma sparse_state_ignores_budget :
  spec_valid sparse_only_spec ∧ maximum_tokens sparse_only_spec 0 256 = Ok 1048576 ∧
  ¬ fits sparse_only_spec 0 1048576.
Proof.
  split; [reflexivity|]. split; [reflexivity|]. intros Hf%fits_load; [|lia].
  by vm_compute in Hf.
Qed.

End Context.
