(* ===== verification/TokenCounts.v ===== *)
(** * Token count cache and single flight (token_count_cache.py)

    Counts of tokens by request fingerprint: a least-recently-used cache whose
    entries expire, and the coalescing of concurrent counts of one request under a
    leader.  Flight states are shared between the flights that joined them, so
    they live in a store and flights refer to them. *)

From S2P Require Import Prelude Types OrderedDict PyFloat.

Module TokenCounts.
Import OrderedDict PyFloat.

(** ** The cache *)

Record TokenCountCache := mkTokens {
  tc_capacity : Z;
  tc_ttl_seconds : float;
  tc_entries : list (string * (Z * float));       (* fingerprint -> (count, created_at) *)
  tc_hits : Z;
  tc_misses : Z;
  tc_evictions : Z;
  tc_expirations : Z;
}.

(** [TokenCountCache.__init__] *)
Definition new_token_cache (capacity : Z) (ttl : float) : res exn TokenCountCache :=
  if (capacity <=? 0) || fleb ttl zero
  then Raise (ValueError "token count cache limits must be positive")
  else Ok (mkTokens capacity ttl [] 0 0 0 0).

(** [TokenCountCache.get] at the time [now] the clock gives. *)
Definition token_get (fingerprint : string) (now : float) (c : TokenCountCache)
    : option Z * TokenCountCache :=
  match od_get fingerprint (tc_entries c) with
  | None => (None, mkTokens (tc_capacity c) (tc_ttl_seconds c) (tc_entries c) (tc_hits c)
                     (tc_misses c + 1) (tc_evictions c) (tc_expirations c))
  | Some (count, created_at) =>
      if fleb (tc_ttl_seconds c) (fsub now created_at) then
        (None, mkTokens (tc_capacity c) (tc_ttl_seconds c) (od_del fingerprint (tc_entries c))
                 (tc_hits c) (tc_misses c + 1) (tc_evictions c) (tc_expirations c + 1))
      else
        (Some count, mkTokens (tc_capacity c) (tc_ttl_seconds c)
                       (od_move_to_end fingerprint (tc_entries c)) (tc_hits c + 1)
                       (tc_misses c) (tc_evictions c) (tc_expirations c))
  end.

(** [TokenCountCache.put]; the loop compares the number of entries only. *)
Definition token_put (fingerprint : string) (count : Z) (now : float) (c : TokenCountCache)
    : res exn TokenCountCache :=
  if str_eqb fingerprint "" || (count <? 0) then Raise (ValueError "invalid token count cache entry")
  else
    let entries := od_move_to_end fingerprint (od_set fingerprint (count, now) (tc_entries c)) in
    let '(kept, _, n) := evict_to_limits (λ _, 0) (tc_capacity c) 0 entries 0 in
    Ok (mkTokens (tc_capacity c) (tc_ttl_seconds c) kept (tc_hits c) (tc_misses c)
                 (tc_evictions c + n) (tc_expirations c)).

(** [TokenCountCache.snapshot] *)
Definition token_snapshot (c : TokenCountCache) : list Z :=
  [tc_capacity c; Zlen (tc_entries c); tc_hits c; tc_misses c; tc_evictions c; tc_expirations c].

(** ** Single flight *)

(** [_FlightState]: the event and the result. *)
Record FlightState := mkFlightState { fs_set : bool; fs_result : option Z }.

Record TokenCountFlight := mkFlight {
  fl_fingerprint : string;
  fl_leader : bool;
  fl_state : option nat;        (* the flight state it shares *)
}.

Record TokenCountSingleFlight := mkSingleFlight {
  sf_capacity : Z;
  sf_entries : list (string * nat);
  sf_store : list FlightState;      (* the flight states made so far *)
  sf_leaders : Z;
  sf_followers : Z;
  sf_bypasses : Z;
  sf_timeouts : Z;
}.

(** [TokenCountSingleFlight.__init__] *)
Definition new_single_flight (capacity : Z) : res exn TokenCountSingleFlight :=
  if capacity <=? 0 then Raise (ValueError "single-flight capacity must be positive")
  else Ok (mkSingleFlight capacity [] [] 0 0 0 0).

(** [TokenCountSingleFlight.join] *)
Definition join (fingerprint : string) : Py TokenCountSingleFlight TokenCountFlight := λ s,
  if str_eqb fingerprint ""
  then (Raise (ValueError "single-flight fingerprint cannot be empty"), s)
  else match od_get fingerprint (sf_entries s) with
  | Some i =>
      (Ok (mkFlight fingerprint false (Some i)),
       mkSingleFlight (sf_capacity s) (sf_entries s) (sf_store s) (sf_leaders s)
         (sf_followers s + 1) (sf_bypasses s) (sf_timeouts s))
  | None =>
      if sf_capacity s <=? Zlen (sf_entries s) then
        (Ok (mkFlight fingerprint true None),
         mkSingleFlight (sf_capacity s) (sf_entries s) (sf_store s) (sf_leaders s)
           (sf_followers s) (sf_bypasses s + 1) (sf_timeouts s))
      else
        let i := length (sf_store s) in
        (Ok (mkFlight fingerprint true (Some i)),
         mkSingleFlight (sf_capacity s) (od_set fingerprint i (sf_entries s))
           (sf_store s ++ [mkFlightState false None]) (sf_leaders s + 1)
           (sf_followers s) (sf_bypasses s) (sf_timeouts s))
  end.

(** [TokenCountSingleFlight.wait] that ends in this state: [event.wait] tells
    whether the event is set by the end of the timeout. *)
Definition wait (flight : TokenCountFlight) (timeout : float)
    : Py TokenCountSingleFlight (option Z) := λ s,
  match fl_state flight with
  | Some i =>
      if fl_leader flight || fleb timeout zero
      then (Raise (ValueError "invalid single-flight follower wait"), s)
      else match sf_store s !! i with
      | Some (mkFlightState true r) => (Ok r, s)
      | _ => (Ok None,
              mkSingleFlight (sf_capacity s) (sf_entries s) (sf_store s) (sf_leaders s)
                (sf_followers s) (sf_bypasses s) (sf_timeouts s + 1))
      end
  | None => (Raise (ValueError "invalid single-flight follower wait"), s)
  end.

(** [TokenCountSingleFlight.complete] *)
Definition complete (flight : TokenCountFlight) (result : option Z)
    : Py TokenCountSingleFlight () := λ s,
  if negb (fl_leader flight)
  then (Raise (ValueError "only a single-flight leader can complete work"), s)
  else match fl_state flight with
  | None => (Ok (), s)
  | Some i =>
      if decide (od_get (fl_fingerprint flight) (sf_entries s) = Some i) then
        (Ok (), mkSingleFlight (sf_capacity s) (od_del (fl_fingerprint flight) (sf_entries s))
                  (<[i := mkFlightState true result]> (sf_store s)) (sf_leaders s)
                  (sf_followers s) (sf_bypasses s) (sf_timeouts s))
      else (Ok (), s)
  end.

(** [TokenCountSingleFlight.snapshot] *)
Definition flight_snapshot (s : TokenCountSingleFlight) : list Z :=
  [sf_capacity s; Zlen (sf_entries s); sf_leaders s; sf_followers s; sf_bypasses s; sf_timeouts s].

(** ** Concurrent clients

    Every method body but the wait for the event runs under the lock, so the
    interleavings of clients are the sequences of calls.  A client uses the
    flights [join] returned.  The history keeps the flights in the order of their
    joins and the completions in order, the last first. *)

Record client_history := mkClients {
  issued : list TokenCountFlight;
  completions : list (TokenCountFlight * option Z);
}.

Inductive flight_step : TokenCountSingleFlight * client_history →
                        TokenCountSingleFlight * client_history → Prop :=
| step_join s h fp f s' :
    join fp s = (Ok f, s') →
    flight_step (s, h) (s', mkClients (issued h ++ [f]) (completions h))
| step_wait s h f timeout r s' :
    f ∈ issued h → wait f timeout s = (Ok r, s') → flight_step (s, h) (s', h)
| step_complete s h f r s' :
    f ∈ issued h → complete f r s = (Ok (), s') →
    flight_step (s, h) (s', mkClients (issued h) ((f, r) :: completions h)).

Definition flight_reachable (capacity : Z) (s : TokenCountSingleFlight) (h : client_history) : Prop :=
  ∃ s0, new_single_flight capacity = Ok s0 ∧ rtc flight_step (s0, mkClients [] []) (s, h).

(** The result of the first completion of a flight state. *)
Fixpoint first_completion (i : nat) (cs : list (TokenCountFlight * option Z)) : option (option Z) :=
  match cs with
  | [] => None
  | (f, r) :: cs' =>
      match first_completion i cs' with
      | Some r' => Some r'
      | None => if decide (fl_state f = Some i) then Some r else None
      end
  end.

Definition is_follower (f : TokenCountFlight) : bool := negb (fl_leader f).
Definition is_bypass (f : TokenCountFlight) : bool := fl_leader f && is_none (fl_state f).
Definition is_owner (f : TokenCountFlight) : bool := fl_leader f && is_some (fl_state f).
Definition count_if (p : TokenCountFlight → bool) (l : list TokenCountFlight) : Z :=
  Zsum ((λ f, if p f then 1 else 0) <$> l).

#[local] Arguments count_if : simpl never.

(** *** Invariant *)

Record flight_inv (capacity : Z) (s : TokenCountSingleFlight) (h : client_history) : Prop := {
  fi_capacity : sf_capacity s = capacity ∧ Zlen (sf_entries s) <= capacity;
  fi_wf : od_wf (sf_entries s);
  (* the leaders of flight states are the joins that made them, in order *)
  fi_owners : fl_state <$> filter (λ f, is_owner f) (issued h) = Some <$> seq 0 (length (sf_store s));
  (* a fingerprint has a running flight state iff its leader did not complete it *)
  fi_running fp i : od_get fp (sf_entries s) = Some i ↔
    mkFlight fp true (Some i) ∈ issued h ∧ first_completion i (completions h) = None;
  fi_results i : (i < length (sf_store s))%nat →
    sf_store s !! i = Some (match first_completion i (completions h) with
                            | Some r => mkFlightState true r | None => mkFlightState false None end);
  fi_completed i r : first_completion i (completions h) = Some r → (i < length (sf_store s))%nat;
  fi_followers f : f ∈ issued h → fl_leader f = false →
    ∃ i, fl_state f = Some i ∧ mkFlight (fl_fingerprint f) true (Some i) ∈ issued h;
  fi_counts : sf_leaders s = count_if is_owner (issued h) ∧
    sf_followers s = count_if is_follower (issued h) ∧ sf_bypasses s = count_if is_bypass (issued h);
}.

Lemma count_if_snoc p l f : count_if p (l ++ [f]) = count_if p l + (if p f then 1 else 0).
Proof. unfold count_if. rewrite fmap_app, Zsum_app. cbn. lia. Qed.

Lemma filter_snoc_false (p : TokenCountFlight → bool) l f :
  p f = false → filter (λ f, p f) (l ++ [f]) = filter (λ f, p f) l.
Proof.
  intros Hf. rewrite filter_app, filter_cons_False; [by rewrite app_nil_r|]. rewrite Hf. by intros [].
Qed.

(** A flight state has one leader. *)
Lemma owner_unique capacity s h f g i :
  flight_inv capacity s h → f ∈ issued h → g ∈ issued h → fl_leader f = true → fl_leader g = true →
  fl_state f = Some i → fl_state g = Some i → f = g.
Proof.
  intros Hinv Hf Hg Lf Lg Sf Sg.
  assert (Hin : ∀ x, x ∈ issued h → fl_leader x = true → fl_state x = Some i →
                     x ∈ filter (λ f, is_owner f) (issued h)).
  { intros x Hx Lx Sx. apply list_elem_of_filter. unfold is_owner. by rewrite Lx, Sx. }
  destruct (proj1 (list_elem_of_lookup _ _) (Hin f Hf Lf Sf)) as [j Hj].
  destruct (proj1 (list_elem_of_lookup _ _) (Hin g Hg Lg Sg)) as [j' Hj'].
  assert (NoDup (fl_state <$> filter (λ f, is_owner f) (issued h))) as Hnd.
  { rewrite (fi_owners _ _ _ Hinv). apply NoDup_fmap_2; [by intros ?? [=]|]. apply NoDup_seq. }
  assert (j = j') as ->; [|by simplify_eq].
  eapply (NoDup_lookup _ _ _ (Some i) Hnd); rewrite list_lookup_fmap.
  - rewrite Hj. cbn. by rewrite Sf.
  - rewrite Hj'. cbn. by rewrite Sg.
Qed.

Lemma owner_state_lt capacity s h f i :
  flight_inv capacity s h → f ∈ issued h → fl_leader f = true → fl_state f = Some i →
  (i < length (sf_store s))%nat.
Proof.
  intros Hinv Hf Lf Sf.
  assert (Some i ∈ fl_state <$> filter (λ f, is_owner f) (issued h)) as Hin.
  { rewrite <-Sf. apply list_elem_of_fmap_2, list_elem_of_filter. unfold is_owner. by rewrite Lf, Sf. }
  rewrite (fi_owners _ _ _ Hinv) in Hin. apply list_elem_of_fmap in Hin as (j & [= ->] & Hj).
  apply elem_of_seq in Hj. lia.
Qed.

Lemma flight_init_inv capacity s0 :
  new_single_flight capacity = Ok s0 → flight_inv capacity s0 (mkClients [] []).
Proof.
  unfold new_single_flight. destruct (_ <=? _) eqn:E; [done|]. intros [= <-]. breflect.
  split; cbn; try done; try lia.
  - unfold Zlen. cbn. lia.
  - apply NoDup_nil_2.
  - intros fp i. set_solver.
  - set_solver.
Qed.

Lemma join_inv capacity s h fp f s' :
  flight_inv capacity s h → join fp s = (Ok f, s') →
  flight_inv capacity s' (mkClients (issued h ++ [f]) (completions h)).
Proof.
  intros Hinv. destruct Hinv as [[Hcap Hlen] Hwf Hown Hrun Hres Hcomp Hfol (Hl & Hfo & Hby)] eqn:HI.
  unfold join. destruct (str_eqb _ _); [done|].
  destruct (od_get fp (sf_entries s)) as [i|] eqn:Hget; [|case_match eqn:Efull].
  - intros [= <- <-]. split; cbn; try done.
    + by rewrite filter_snoc_false.
    + intros fp' j. rewrite Hrun, elem_of_app, list_elem_of_singleton. naive_solver.
    + intros g [Hg| ->%list_elem_of_singleton]%elem_of_app Lg; cbn.
      * destruct (Hfol g Hg Lg) as (j & ? & ?). exists j. rewrite elem_of_app. naive_solver.
      * exists i. split; [done|]. apply elem_of_app. left. by apply Hrun.
    + rewrite !count_if_snoc. cbn. lia.
  - intros [= <- <-]. split; cbn; try done.
    + by rewrite filter_snoc_false.
    + intros fp' j. rewrite Hrun, elem_of_app, list_elem_of_singleton. naive_solver.
    + intros g [Hg| ->%list_elem_of_singleton]%elem_of_app Lg; cbn; [|done].
      destruct (Hfol g Hg Lg) as (j & ? & ?). exists j. rewrite elem_of_app. naive_solver.
    + rewrite !count_if_snoc. cbn. lia.
  - intros [= <- <-]. breflect.
    assert (Hnew : first_completion (length (sf_store s)) (completions h) = None).
    { destruct (first_completion _ _) eqn:E; [|done]. apply Hcomp in E. lia. }
    split; cbn; try done.
    + split; [done|]. rewrite od_set_new by done. unfold Zlen in *. rewrite length_app. cbn. lia.
    + by apply od_wf_set.
    + rewrite filter_app, fmap_app, Hown, length_app. cbn [length]. rewrite seq_app, fmap_app.
      by rewrite filter_cons_True.
    + intros fp' j. rewrite elem_of_app, list_elem_of_singleton. destruct (decide (fp = fp')) as [<-|Hne].
      * rewrite od_get_set. split; [intros [= <-]; split; [by right|done]|].
        intros [[Hin|[= ->]] Hfc]; [|done]. assert (od_get fp (sf_entries s) = Some j) by by apply Hrun.
        congruence.
      * rewrite od_get_set_ne by done. rewrite Hrun. naive_solver.
    + intros j. rewrite length_app. cbn. intros Hj. destruct (decide (j = length (sf_store s))) as [->|].
      * by rewrite list_lookup_middle, Hnew.
      * rewrite lookup_app_l by lia. apply Hres. lia.
    + intros j r Hj%Hcomp. rewrite length_app. lia.
    + intros g [Hg| ->%list_elem_of_singleton]%elem_of_app Lg; cbn; [|done].
      destruct (Hfol g Hg Lg) as (j & ? & ?). exists j. rewrite elem_of_app. naive_solver.
    + rewrite !count_if_snoc. cbn. lia.
Qed.

Lemma wait_inv capacity s h f timeout r s' :
  flight_inv capacity s h → wait f timeout s = (Ok r, s') → flight_inv capacity s' h.
Proof.
  intros Hinv. unfold wait. destruct (fl_state f) as [i|]; [|done]. destruct (_ || _); [done|].
  assert (flight_inv capacity (mkSingleFlight (sf_capacity s) (sf_entries s) (sf_store s) (sf_leaders s)
                (sf_followers s) (sf_bypasses s) (sf_timeouts s + 1)) h) by by destruct Hinv.
  destruct (sf_store s !! i) as [[[] q]|]; intros [= <- <-]; done.
Qed.

Lemma complete_inv capacity s h f r s' :
  flight_inv capacity s h → f ∈ issued h → complete f r s = (Ok (), s') →
  flight_inv capacity s' (mkClients (issued h) ((f, r) :: completions h)).
Proof.
  intros Hinv Hf. pose proof Hinv as [[Hcap Hlen] Hwf Hown Hrun Hres Hcomp Hfol Hcounts].
  unfold complete. destruct f as [fp lead st]. cbn. destruct lead; cbn; [|done].
  destruct st as [i|]; cycle 1.
  { intros [= <-]. split; cbn; try done.
    - intros fp' j. rewrite Hrun. by destruct (first_completion j _).
    - intros j Hj. rewrite Hres by done. by destruct (first_completion j _).
    - intros j q. destruct (first_completion j _) eqn:E; [|done]. intros _. by eapply Hcomp. }
  pose proof (owner_state_lt _ _ _ _ _ Hinv Hf eq_refl eq_refl) as Hi.
  destruct (decide _) as [Hent|Hent]; intros [= <-].
  - pose proof (proj1 (Hrun fp i) Hent) as [_ Hnone]. split; cbn; try done.
    + split; [done|]. rewrite od_length_del by by eexists. lia.
    + by apply od_wf_del.
    + by rewrite length_insert.
    + intros fp' j. destruct (decide (fp = fp')) as [<-|Hne].
      * rewrite od_get_del by done. split; [done|]. intros [Hin Hfc].
        destruct (first_completion j (completions h)) eqn:E; [done|].
        destruct (decide (Some i = Some j)) as [[= <-]|Hij]; [done|].
        assert (od_get fp (sf_entries s) = Some j) by (by apply Hrun). congruence.
      * rewrite od_get_del_ne by done. rewrite Hrun.
        split; intros [Hin Hfc]; (split; [done|]).
        -- rewrite Hfc. rewrite decide_False; [done|]. intros [= <-].
           pose proof (owner_unique _ _ _ _ _ i Hinv Hf Hin eq_refl eq_refl eq_refl eq_refl). congruence.
        -- by destruct (first_completion j _).
    + intros j. rewrite length_insert. intros Hj. destruct (decide (i = j)) as [<-|Hij].
      * rewrite list_lookup_insert_eq by done. rewrite Hnone. by rewrite decide_True.
      * rewrite list_lookup_insert_ne by done. rewrite Hres by done.
        destruct (first_completion j _); [done|]. rewrite decide_False; [done|congruence].
    + intros j q. rewrite length_insert. destruct (first_completion j _) eqn:E; [intros _; by eapply Hcomp|].
      destruct (decide _) as [[= <-]|]; done.
  - assert (Hdone : is_Some (first_completion i (completions h))).
    { destruct (first_completion i _) eqn:E; [done|]. destruct Hent. by apply Hrun. }
    destruct Hdone as [q Hq].
    assert (Hsame : ∀ j, first_completion j ((mkFlight fp true (Some i), r) :: completions h)
                         = first_completion j (completions h)).
    { intros j. cbn. destruct (first_completion j _) eqn:E; [done|]. rewrite decide_False; [done|congruence]. }
    split; cbn [issued completions]; try done; intros; rewrite ?Hsame in *; eauto.
Qed.

Lemma flight_reachable_inv capacity s h : flight_reachable capacity s h → flight_inv capacity s h.
Proof.
  intros (s0 & H0 & Hrtc).
  assert (∀ x y, rtc flight_step x y → flight_inv capacity x.1 x.2 → flight_inv capacity y.1 y.2) as Hgen.
  { intros x y. induction 1 as [|x y z Hstep _ IH]; [done|]. intros Hx. apply IH.
    destruct Hstep; cbn in *; eauto using join_inv, wait_inv, complete_inv. }
  apply (Hgen _ _ Hrtc). by apply flight_init_inv.
Qed.

(** ** Correctness *)

(** C28: identical requests share one count.  However the calls of concurrent
    clients interleave: the running flights are at most the capacity; a flight
    state has exactly one leader, and two leaders of one fingerprint are never both
    running; every follower follows the leader of its own fingerprint; a follower's
    [wait] returns precisely the result its leader completed with first (later
    completions change nothing), and times out with [None] until then; and the
    counters count the joins of each kind. *)
Theorem single_flight_correct capacity s h :
  flight_reachable capacity s h →
  Zlen (sf_entries s) <= capacity ∧
  (NoDup (fl_state <$> filter (λ f, is_owner f) (issued h)) ∧
   ∀ f g, f ∈ issued h → g ∈ issued h → is_owner f → is_owner g →
     fl_fingerprint f = fl_fingerprint g →
     (∀ i, fl_state f = Some i ∨ fl_state g = Some i → first_completion i (completions h) = None) →
     f = g) ∧
  (∀ f, f ∈ issued h → fl_leader f = false →
     ∃ i, fl_state f = Some i ∧ mkFlight (fl_fingerprint f) true (Some i) ∈ issued h ∧
     ∀ timeout, fleb timeout zero = false →
       (wait f timeout s).1 = Ok (match first_completion i (completions h) with
                                  | Some result => result | None => None end) ∧
       (first_completion i (completions h) = None →
        sf_timeouts (wait f timeout s).2 = sf_timeouts s + 1)) ∧
  sf_leaders s = count_if is_owner (issued h) ∧ sf_followers s = count_if is_follower (issued h) ∧
  sf_bypasses s = count_if is_bypass (issued h).
Proof.
  intros Hinv%flight_reachable_inv. split_and!; try apply Hinv.
  - rewrite (fi_owners _ _ _ Hinv). apply NoDup_fmap_2; [by intros ?? [=]|apply NoDup_seq].
  - intros [fp [] [i|]] [fp' [] [j|]] Hf Hg Of Og Hfp Hnone; try done. cbn in Hfp. subst fp'.
    assert (od_get fp (sf_entries s) = Some i)
      by (apply (fi_running _ _ _ Hinv); split; [done|apply Hnone; by left]).
    assert (od_get fp (sf_entries s) = Some j)
      by (apply (fi_running _ _ _ Hinv); split; [done|apply Hnone; by right]). congruence.
  - intros f Hf Lf. destruct (fi_followers _ _ _ Hinv f Hf Lf) as (i & Si & Hl). exists i.
    split; [done|]. split; [done|]. intros timeout Ht.
    pose proof (owner_state_lt _ _ _ _ _ Hinv Hl eq_refl eq_refl) as Hi.
    unfold wait. rewrite Si, Lf, Ht, (fi_results _ _ _ Hinv i Hi). cbn [orb].
    by destruct (first_completion i (completions h)).
Qed.

Definition two_joins : TokenCountSingleFlight :=
  mkSingleFlight 2 [("r", 0%nat)] [mkFlightState false None] 1 1 0 0.
Definition two_flights : client_history :=
  mkClients [mkFlight "r" true (Some 0%nat); mkFlight "r" false (Some 0%nat)] [].

Example single_flight_correct_witness :
  flight_reachable 2 two_joins two_flights ∧ Zlen (sf_entries two_joins) <= 2.
Proof.
  assert (H : flight_reachable 2 two_joins two_flights).
  { exists (mkSingleFlight 2 [] [] 0 0 0 0). split; [reflexivity|].
    eapply rtc_l; [by apply (step_join _ _ "r")|].
    eapply rtc_l; [by apply (step_join _ _ "r")|]. apply rtc_refl. }
  split; [exact H|exact (proj1 (single_flight_correct 2 two_joins two_flights H))].
Defined.

(** *** The cache *)

Definition token_entries_ok (c : TokenCountCache) : Prop :=
  od_wf (tc_entries c) ∧ 0 < tc_capacity c ∧ Zlen (tc_entries c) <= tc_capacity c.

Lemma od_sum_zero {K V} (d : list (K * V)) : od_sum (λ _, 0) d = 0.
Proof. induction d as [|p d IH]; [done|]. by rewrite od_sum_cons, IH. Qed.

(** [get] keeps the bound and drops or refreshes only its own entry; it returns
    the count stored under the fingerprint unless that is older than the limit. *)
Lemma token_get_spec fp now c :
  token_entries_ok c →
  let '(r, c') := token_get fp now c in
  token_entries_ok c' ∧
  r = (match od_get fp (tc_entries c) with
       | Some (count, at_) => if fleb (tc_ttl_seconds c) (fsub now at_) then None else Some count
       | None => None end) ∧
  ∀ fp', fp' ≠ fp → od_get fp' (tc_entries c') = od_get fp' (tc_entries c).
Proof.
  intros (Hwf & Hcap & Hlen). unfold token_get, token_entries_ok.
  destruct (od_get fp (tc_entries c)) as [[count at_]|] eqn:E; [|by split_and!].
  destruct (fleb _ _); cbn; split_and!; try done.
  - by apply od_wf_del.
  - rewrite od_length_del by by eexists. lia.
  - intros. by apply od_get_del_ne.
  - by apply od_wf_move.
  - by rewrite od_length_move.
  - intros. by apply od_get_move.
Qed.

(** [put] keeps the bound and stores the count; what left are the oldest entries,
    and only while there were more than the capacity. *)
Lemma token_put_spec fp count now c c' :
  token_entries_ok c → token_put fp count now c = Ok c' →
  token_entries_ok c' ∧ od_get fp (tc_entries c') = Some (count, now) ∧
  ∃ gone, od_move_to_end fp (od_set fp (count, now) (tc_entries c)) = gone ++ tc_entries c' ∧
    tc_evictions c' = tc_evictions c + Zlen gone ∧
    (gone ≠ [] → Zlen (tc_entries c') = tc_capacity c).
Proof.
  intros (Hwf & Hcap & Hlen). unfold token_put. destruct (_ || _); [done|].
  set (d := od_move_to_end fp (od_set fp (count, now) (tc_entries c))).
  assert (Hd : od_wf d) by (by apply od_wf_move, od_wf_set).
  assert (Hget : ∃ d0, d = d0 ++ [(fp, (count, now))]).
  { unfold d, od_move_to_end. rewrite od_get_set. by eexists. }
  destruct (evict_spec (λ _, 0) (tc_capacity c) 0 d) as (gone & kept & Heq & Hsplit & Hl & _ & Hg); [lia..|].
  rewrite od_sum_zero in Heq. rewrite Heq. intros [= <-]. cbn.
  assert (Hkwf : od_wf kept).
  { unfold od_wf in *. rewrite Hsplit, fmap_app in Hd. by apply NoDup_app in Hd as (_ & _ & ?). }
  assert (Hmin : gone ≠ [] → Zlen kept = tc_capacity c).
  { intros Hne. destruct (exists_last Hne) as (g1 & p & ->).
    destruct (Hg g1 p [] eq_refl) as [Hx|Hx]; [|rewrite od_sum_zero in Hx; lia].
    unfold Zlen in *. cbn in Hx. lia. }
  split_and!; try done; [|by exists gone].
  apply od_get_iff; [done|]. destruct Hget as [d0 Hd0].
  destruct kept as [|k0 kept' _] using rev_ind.
  - rewrite app_nil_r in Hsplit. assert (gone ≠ []) as Hne by (intros ->; rewrite Hd0 in Hsplit; by destruct d0).
    specialize (Hmin Hne). unfold Zlen in Hmin. cbn in Hmin. lia.
  - rewrite Hd0, app_assoc in Hsplit. apply app_inj_tail in Hsplit as [_ <-]. set_solver.
Qed.

End TokenCounts.
