(* ===== verification/ChunkPlanner.v ===== *)
(** * Generative chunk plans (generative_chunk_scheduler.py)

    A video generation divided into temporal chunks and spatial tiles, with the
    attention state each task needs and the memory the plan peaks at. *)

From S2P Require Import Prelude Types OrderedDict.

Module ChunkPlanner.
Import OrderedDict.

Definition MAX_GENERATIVE_CHUNKS : Z := 65536.

Record AttentionStateRegion := mkRegion {
  frame_start : Z;
  frame_count : Z;
  rg_y : Z;
  rg_x : Z;
  rg_height : Z;
  rg_width : Z;
  rg_state_bytes : Z;
}.

(** [AttentionStateRegion.__post_init__] *)
Definition region_check (r : AttentionStateRegion) : res exn AttentionStateRegion :=
  check (negb ((Z.min (Z.min (frame_start r) (rg_y r)) (rg_x r) <? 0)
               || (Z.min (Z.min (Z.min (frame_count r) (rg_height r)) (rg_width r))
                         (rg_state_bytes r) <=? 0)))
    (ValueError "invalid attention state region") r.

Definition int_member (name : string) (n : Z) : string := member name (str_of_Z n).

(** [AttentionStateRegion.state_id] *)
Definition state_id (sha256 : string → string) (r : AttentionStateRegion) : string :=
  sha256 (json_object
    [int_member "frame_count" (frame_count r); int_member "frame_start" (frame_start r);
     int_member "height" (rg_height r); int_member "state_bytes" (rg_state_bytes r);
     int_member "width" (rg_width r); int_member "x" (rg_x r); int_member "y" (rg_y r)]).

Record GenerativeChunkTask := mkTask {
  task_id : string;
  region : AttentionStateRegion;
  temporal_context_start : Z;
  temporal_context_count : Z;
  dependencies : list string;
}.

Record GenerativeChunkPlan := mkPlan {
  plan_id : string;
  pl_frames : Z;
  pl_height : Z;
  pl_width : Z;
  pl_temporal_chunk : Z;
  pl_temporal_overlap : Z;
  pl_tile_height : Z;
  pl_tile_width : Z;
  pl_maximum_concurrency : Z;
  estimated_peak_bytes : Z;
  tasks : list GenerativeChunkTask;
}.

(** The keyword arguments of [build_generative_chunk_plan]. *)
Record ChunkConfig := {
  frames : Z;
  height : Z;
  width : Z;
  temporal_chunk : Z;
  temporal_overlap : Z;
  tile_height : Z;
  tile_width : Z;
  bytes_per_attention_element : Z;
  attention_channels : Z;
  maximum_concurrency : Z;
  memory_ceiling_bytes : Z;
}.

Definition config_valid (c : ChunkConfig) : bool :=
  negb (existsb (λ value, value <=? 0)
          [frames c; height c; width c; temporal_chunk c; tile_height c; tile_width c;
           bytes_per_attention_element c; attention_channels c; maximum_concurrency c;
           memory_ceiling_bytes c]
        || (temporal_overlap c <? 0) || (temporal_chunk c <=? temporal_overlap c)
        || (maximum_concurrency c >? 64)).

(** [range(0, stop, step)] *)
Definition range_step (stop step : Z) : list Z :=
  (λ i, Z.of_nat i * step) <$> seq 0 (Z.to_nat ((stop + step - 1) / step)).

(** The context of the chunk that starts at a frame. *)
Definition context_start (c : ChunkConfig) (t : Z) : Z := Z.max 0 (t - temporal_overlap c).
Definition chunk_frames (c : ChunkConfig) (t : Z) : Z := Z.min (temporal_chunk c) (frames c - t).
Definition context_count (c : ChunkConfig) (t : Z) : Z :=
  t + chunk_frames c t - context_start c t.

Section sha256.
Variable sha256 : string → string.

Record Progress := mkProgress {
  pr_tasks : list GenerativeChunkTask;
  prior_by_tile : list (Z * Z * string);
  maximum_state_bytes : Z;
}.

(** The body of the loops, for a chunk start and a tile corner. *)
Definition plan_tile (c : ChunkConfig) (t y : Z) (p : Progress) (x : Z) : res exn Progress :=
  let tile_h := Z.min (tile_height c) (height c - y) in
  let tile_w := Z.min (tile_width c) (width c - x) in
  let state_bytes := context_count c t * tile_h * tile_w
                     * attention_channels c * bytes_per_attention_element c in
  if state_bytes >? memory_ceiling_bytes c
  then Raise (ValueError "single attention state exceeds memory ceiling")
  else match region_check (mkRegion t (chunk_frames c t) y x tile_h tile_w state_bytes) with
  | Raise e => Raise e
  | Ok r =>
      let id := sha256 (state_id sha256 r +:+ ":" +:+ str_of_Z (context_start c t) +:+ ":"
                        +:+ str_of_Z (context_count c t))%string in
      let deps := match od_get (y, x) (prior_by_tile p) with Some i => [i] | None => [] end in
      Ok (mkProgress (pr_tasks p ++ [mkTask id r (context_start c t) (context_count c t) deps])
                     (od_set (y, x) id (prior_by_tile p))
                     (Z.max (maximum_state_bytes p) state_bytes))
  end.

(** The three nested loops. *)
Definition plan_tasks (c : ChunkConfig) : res exn Progress :=
  fold_res (λ p t,
    fold_res (λ p y, fold_res (plan_tile c t y) (range_step (width c) (tile_width c)) p)
             (range_step (height c) (tile_height c)) p)
    (range_step (frames c) (temporal_chunk c)) (mkProgress [] [] 0).

Definition task_json (t : GenerativeChunkTask) : string :=
  json_object
    [int_member "context_count" (temporal_context_count t);
     int_member "context_start" (temporal_context_start t);
     member "dependencies" (json_array (quoted <$> dependencies t));
     member "state_id" (quoted (state_id sha256 (region t)));
     member "task_id" (quoted (task_id t))].

(** The identity the plan's digest is taken of, with sorted names. *)
Definition identity_json (c : ChunkConfig) (concurrency peak : Z) (ts : list GenerativeChunkTask)
    : string :=
  json_object
    [int_member "attention_channels" (attention_channels c);
     int_member "bytes_per_attention_element" (bytes_per_attention_element c);
     int_member "estimated_peak_bytes" peak; int_member "frames" (frames c);
     int_member "height" (height c); int_member "maximum_concurrency" concurrency;
     member "tasks" (json_array (task_json <$> ts));
     int_member "temporal_chunk" (temporal_chunk c);
     int_member "temporal_overlap" (temporal_overlap c);
     int_member "tile_height" (tile_height c); int_member "tile_width" (tile_width c);
     int_member "width" (width c)].

(** The concurrency the plan allows and the bytes it peaks at. *)
Definition limit_concurrency (c : ChunkConfig) (task_count max_state : Z) : Z * Z :=
  let concurrency := Z.min (maximum_concurrency c) task_count in
  let peak := max_state * concurrency in
  if peak >? memory_ceiling_bytes c then
    let concurrency := Z.max 1 (memory_ceiling_bytes c / max_state) in
    (concurrency, max_state * concurrency)
  else (concurrency, peak).

(** [build_generative_chunk_plan] *)
Definition build_generative_chunk_plan (c : ChunkConfig) : res exn GenerativeChunkPlan :=
  if negb (config_valid c) then Raise (ValueError "invalid generative chunk configuration")
  else
    let task_count := Zlen (range_step (frames c) (temporal_chunk c))
                      * Zlen (range_step (height c) (tile_height c))
                      * Zlen (range_step (width c) (tile_width c)) in
    if task_count >? MAX_GENERATIVE_CHUNKS
    then Raise (ValueError "generative chunk plan exceeds task limit")
    else match plan_tasks c with
    | Raise e => Raise e
    | Ok p =>
        let '(concurrency, peak) :=
          limit_concurrency c (Zlen (pr_tasks p)) (maximum_state_bytes p) in
        Ok (mkPlan (sha256 (identity_json c concurrency peak (pr_tasks p)))
              (frames c) (height c) (width c) (temporal_chunk c) (temporal_overlap c)
              (tile_height c) (tile_width c) concurrency peak (pr_tasks p))
    end.

(** ** The plan as a comprehension *)

Definition tile_state_bytes (c : ChunkConfig) (t y x : Z) : Z :=
  context_count c t * Z.min (tile_height c) (height c - y) * Z.min (tile_width c) (width c - x)
  * attention_channels c * bytes_per_attention_element c.

Definition tile_region (c : ChunkConfig) (t y x : Z) : AttentionStateRegion :=
  mkRegion t (chunk_frames c t) y x (Z.min (tile_height c) (height c - y))
           (Z.min (tile_width c) (width c - x)) (tile_state_bytes c t y x).

Definition tile_task_id (c : ChunkConfig) (t y x : Z) : string :=
  sha256 (state_id sha256 (tile_region c t y x) +:+ ":" +:+ str_of_Z (context_start c t) +:+ ":"
          +:+ str_of_Z (context_count c t))%string.

(** The task of a chunk and a tile depends on the task of the chunk before it on
    the same tile. *)
Definition tile_task (c : ChunkConfig) (t y x : Z) : GenerativeChunkTask :=
  mkTask (tile_task_id c t y x) (tile_region c t y x) (context_start c t) (context_count c t)
    (if t =? 0 then [] else [tile_task_id c (t - temporal_chunk c) y x]).

Definition tile_corners (c : ChunkConfig) : list (Z * Z) :=
  range_step (height c) (tile_height c) ≫= λ y, (y,.) <$> range_step (width c) (tile_width c).

Definition all_tasks (c : ChunkConfig) : list GenerativeChunkTask :=
  range_step (frames c) (temporal_chunk c) ≫= λ t,
    (λ yx, tile_task c t yx.1 yx.2) <$> tile_corners c.
End sha256.

(** ** Ranges *)

Lemma elem_of_range_step stop step v :
  0 < stop → 0 < step → v ∈ range_step stop step ↔ (step | v) ∧ 0 <= v < stop.
Proof.
  intros Hs Hst. unfold range_step. rewrite list_elem_of_fmap. setoid_rewrite elem_of_seq.
  assert (Hq : ∀ i, 0 <= i → i < (stop + step - 1) / step ↔ i * step < stop).
  { intros i Hi. pose proof (Z.div_mod (stop + step - 1) step ltac:(lia)).
    pose proof (Z.mod_pos_bound (stop + step - 1) step Hst). nia. }
  split.
  - intros (i & -> & Hi). split; [by exists (Z.of_nat i)|]. split; [lia|]. apply Hq; lia.
  - intros ([i ->] & H1 & H2). assert (0 <= i) by nia. exists (Z.to_nat i). apply Hq in H2; [|done].
    split; [by rewrite Z2Nat.id|lia].
Qed.

Lemma NoDup_range_step stop step : 0 < step → NoDup (range_step stop step).
Proof.
  intros Hst. unfold range_step. apply NoDup_fmap_2_strong; [|apply NoDup_seq]. intros i j _ _ H. nia.
Qed.

(** The start of the range element that covers a position. *)
Definition start_of (step v : Z) : Z := v / step * step.

Lemma start_of_covers stop step v :
  0 < step → 0 <= v < stop →
  start_of step v ∈ range_step stop step ∧ start_of step v <= v < start_of step v + step.
Proof.
  intros Hst Hv. unfold start_of. pose proof (Z.div_mod v step ltac:(lia)).
  pose proof (Z.mod_pos_bound v step Hst). pose proof (Z.div_pos v step ltac:(lia) Hst).
  rewrite elem_of_range_step by lia. split; [|nia]. split; [by exists (v / step)|nia].
Qed.

Lemma start_of_unique stop step v s :
  0 < stop → 0 < step → s ∈ range_step stop step → s <= v < s + step → s = start_of step v.
Proof.
  intros Hs Hst ([i ->] & _)%elem_of_range_step Hv; [|done..]. unfold start_of. f_equal.
  apply (Z.div_unique _ _ _ (v - i * step)); lia.
Qed.

(** One element of a list gives all that a filter keeps of a comprehension. *)
Lemma filter_bind_unique {A B} (P : B → Prop) `{!∀ b, Decision (P b)} (g : A → list B) l a0 :
  NoDup l → a0 ∈ l → (∀ a, a ∈ l → a ≠ a0 → filter P (g a) = []) →
  filter P (l ≫= g) = filter P (g a0).
Proof.
  intros Hnd Hin Hother. induction l as [|a l IH]; [set_solver|]. cbn. rewrite filter_app.
  apply NoDup_cons in Hnd as [Ha Hnd]. apply elem_of_cons in Hin as [->|Hin].
  - assert (filter P (l ≫= g) = []) as ->; [|by rewrite app_nil_r].
    assert (Hall : ∀ a, a ∈ l → filter P (g a) = [])
      by (intros a' Hal; apply Hother; [by right|intros ->; done]).
    clear -Hall. induction l as [|a l IH]; [done|]. cbn. rewrite filter_app, (Hall a) by left.
    apply IH. intros. apply Hall. by right.
  - rewrite (Hother a); [|by left|by intros ->]. cbn. apply IH; [done..|].
    intros. apply Hother; [by right|done].
Qed.

Lemma filter_fmap_unique {A B} (P : B → Prop) `{!∀ b, Decision (P b)} (g : A → B) l a0 :
  NoDup l → a0 ∈ l → P (g a0) → (∀ a, a ∈ l → a ≠ a0 → ¬ P (g a)) → filter P (g <$> l) = [g a0].
Proof.
  intros Hnd Hin HP Hother.
  replace (g <$> l) with (l ≫= λ a, [g a]) by (clear; induction l; cbn; by f_equal).
  rewrite (filter_bind_unique P (λ a, [g a]) l a0); [|done..|].
  - by rewrite filter_cons_True.
  - intros a Ha Hne. rewrite filter_cons_False; [done|by apply Hother].
Qed.

(** ** The loops build the comprehension *)

Section plan.
Variable sha256 : string → string.
Variable c : ChunkConfig.
Hypothesis Hvalid : config_valid c = true.

Lemma config_fields :
  (0 < frames c ∧ 0 < height c ∧ 0 < width c ∧ 0 < temporal_chunk c ∧ 0 < tile_height c
   ∧ 0 < tile_width c ∧ 0 < bytes_per_attention_element c ∧ 0 < attention_channels c
   ∧ 0 < maximum_concurrency c ∧ 0 < memory_ceiling_bytes c) ∧
  0 <= temporal_overlap c < temporal_chunk c ∧ maximum_concurrency c <= 64.
Proof.
  pose proof Hvalid as H. unfold config_valid in H. apply negb_true_iff in H.
  cbn in H. rewrite !orb_false_iff in H. breflect. lia.
Qed.

Definition in_plan (t : Z) (yx : Z * Z) : Prop :=
  t ∈ range_step (frames c) (temporal_chunk c) ∧ yx ∈ tile_corners c.

Lemma elem_of_tile_corners y x :
  (y, x) ∈ tile_corners c ↔
  y ∈ range_step (height c) (tile_height c) ∧ x ∈ range_step (width c) (tile_width c).
Proof.
  unfold tile_corners. split.
  - by intros (y' & (x' & [= -> ->] & Hx)%list_elem_of_fmap & Hy)%list_elem_of_bind.
  - intros [Hy Hx]. apply list_elem_of_bind. exists y. split; [|done]. apply list_elem_of_fmap. by exists x.
Qed.

Lemma NoDup_tile_corners : NoDup (tile_corners c).
Proof.
  pose proof config_fields. unfold tile_corners. apply NoDup_bind.
  - intros y1 y2 yx _ _ (x1 & -> & _)%list_elem_of_fmap (x2 & [= -> _] & _)%list_elem_of_fmap. done.
  - intros y _. apply NoDup_fmap_2; [by intros ?? [=]|apply NoDup_range_step; lia].
  - apply NoDup_range_step. lia.
Qed.

Lemma tile_bounds t y x :
  in_plan t (y, x) →
  0 <= t < frames c ∧ 0 <= y < height c ∧ 0 <= x < width c ∧ 0 < chunk_frames c t ∧
  chunk_frames c t <= context_count c t ∧ 0 < tile_state_bytes c t y x.
Proof.
  pose proof config_fields. intros [Ht Hyx]. apply elem_of_tile_corners in Hyx as [Hy Hx].
  apply elem_of_range_step in Ht as [_ Ht]; [|lia..]. apply elem_of_range_step in Hy as [_ Hy]; [|lia..].
  apply elem_of_range_step in Hx as [_ Hx]; [|lia..].
  assert (0 < chunk_frames c t) by (unfold chunk_frames; lia).
  assert (chunk_frames c t <= context_count c t) by (unfold context_count, context_start; lia).
  split_and!; try lia. unfold tile_state_bytes. repeat apply Z.mul_pos_pos; lia.
Qed.

Lemma plan_tile_spec t y x p :
  in_plan t (y, x) →
  plan_tile sha256 c t y p x =
    if tile_state_bytes c t y x >? memory_ceiling_bytes c
    then Raise (ValueError "single attention state exceeds memory ceiling")
    else Ok (mkProgress
      (pr_tasks p ++ [mkTask (tile_task_id sha256 c t y x) (tile_region c t y x) (context_start c t)
                        (context_count c t)
                        (match od_get (y, x) (prior_by_tile p) with Some i => [i] | None => [] end)])
      (od_set (y, x) (tile_task_id sha256 c t y x) (prior_by_tile p))
      (Z.max (maximum_state_bytes p) (tile_state_bytes c t y x))).
Proof.
  intros Hin. pose proof (tile_bounds t y x Hin) as (? & ? & ? & ? & ? & Hpos). pose proof config_fields.
  unfold plan_tile. fold (tile_state_bytes c t y x). destruct (_ >? _); [done|].
  unfold region_check, check. cbn.
  rewrite (proj2 (Z.ltb_ge _ _)) by lia. rewrite (proj2 (Z.leb_gt _ _)) by lia. done.
Qed.

(** The largest state of the tasks so far. *)
Definition peak_ok (p : Progress) : Prop :=
  (∀ tk, tk ∈ pr_tasks p → rg_state_bytes (region tk) <= maximum_state_bytes p) ∧
  maximum_state_bytes p <= memory_ceiling_bytes c ∧
  (pr_tasks p = [] ∧ maximum_state_bytes p = 0 ∨
   ∃ tk, tk ∈ pr_tasks p ∧ rg_state_bytes (region tk) = maximum_state_bytes p).

(** The id a tile's entry holds when chunk [t] starts. *)
Definition prior_id (t : Z) (yx : Z * Z) : option string :=
  if t =? 0 then None else Some (tile_task_id sha256 c (t - temporal_chunk c) yx.1 yx.2).

Definition too_big (t : Z) (yx : Z * Z) : bool :=
  tile_state_bytes c t yx.1 yx.2 >? memory_ceiling_bytes c.

Lemma chunk_loop t l p :
  NoDup l → (∀ yx, yx ∈ l → in_plan t yx) → peak_ok p →
  (∀ yx, yx ∈ l → od_get yx (prior_by_tile p) = prior_id t yx) →
  if existsb (too_big t) l
  then fold_res (λ p yx, plan_tile sha256 c t yx.1 p yx.2) l p
       = Raise (ValueError "single attention state exceeds memory ceiling")
  else ∃ p', fold_res (λ p yx, plan_tile sha256 c t yx.1 p yx.2) l p = Ok p' ∧
    pr_tasks p' = pr_tasks p ++ ((λ yx, tile_task sha256 c t yx.1 yx.2) <$> l) ∧ peak_ok p' ∧
    ∀ yx, od_get yx (prior_by_tile p') =
      if decide (yx ∈ l) then Some (tile_task_id sha256 c t yx.1 yx.2)
      else od_get yx (prior_by_tile p).
Proof.
  revert p. induction l as [|[y x] l IH]; intros p Hnd Hin Hpeak Hprior; cbn [existsb fold_res fst snd].
  { exists p. cbn. rewrite app_nil_r. split_and!; try done. }
  apply NoDup_cons in Hnd as [Hyx Hnd]. pose proof (Hin (y, x) ltac:(left)) as Hin0.
  rewrite plan_tile_spec by done. unfold too_big at 1. cbn [fst snd].
  destruct (tile_state_bytes c t y x >? memory_ceiling_bytes c) eqn:Ebig; [done|]. cbn [orb].
  rewrite (Hprior (y, x)) by left.
  set (p1 := mkProgress _ _ _). specialize (IH p1 Hnd ltac:(intros; apply Hin; by right)).
  assert (Htasks : pr_tasks p1 = pr_tasks p ++ [tile_task sha256 c t y x]).
  { unfold p1, tile_task, prior_id. cbn. by destruct (t =? 0). }
  assert (Hget : ∀ yx, od_get yx (prior_by_tile p1) =
    if decide (yx = (y, x)) then Some (tile_task_id sha256 c t y x) else od_get yx (prior_by_tile p)).
  { intros yx. cbn. case_decide as Hd; [subst; apply od_get_set|by apply od_get_set_ne]. }
  assert (Hpeak1 : peak_ok p1).
  { destruct Hpeak as (Hle & Hceil & Hmax). unfold peak_ok. rewrite Htasks.
    change (maximum_state_bytes p1) with (Z.max (maximum_state_bytes p) (tile_state_bytes c t y x)).
    breflect. pose proof (tile_bounds t y x Hin0) as (_ & _ & _ & _ & _ & Hpos).
    assert (Hnew : rg_state_bytes (region (tile_task sha256 c t y x)) = tile_state_bytes c t y x) by done.
    split_and!; [|lia|].
    - intros tk [Htk| ->%list_elem_of_singleton]%elem_of_app; [specialize (Hle _ Htk)|]; lia.
    - right. destruct (Z.le_gt_cases (maximum_state_bytes p) (tile_state_bytes c t y x)).
      + exists (tile_task sha256 c t y x). split; [set_solver|lia].
      + destruct Hmax as [[_ Hz]|(tk & Htk & Heq)]; [lia|]. exists tk. split; [set_solver|lia]. }
  assert (Hprior1 : ∀ yx, yx ∈ l → od_get yx (prior_by_tile p1) = prior_id t yx).
  { intros yx Hl. rewrite Hget, decide_False by (intros ->; done). apply Hprior. by right. }
  specialize (IH Hpeak1 Hprior1).
  destruct (existsb (too_big t) l); [done|].
  destruct IH as (p' & -> & Ht' & Hpk' & Hget'). exists p'. split; [done|]. split; [|split; [done|]].
  - rewrite Ht', Htasks, <-app_assoc. done.
  - intros yx. rewrite Hget', Hget. destruct (decide (yx = (y, x))) as [->|Hne].
    + rewrite decide_False by done. by rewrite decide_True by left.
    + destruct (decide (yx ∈ l)) as [Hl|Hl], (decide (yx ∈ (y, x) :: l)) as [Hc|Hc]; try done; set_solver.
Qed.

(** The chunks from index [k] on. *)
Definition starts_from (k n : nat) : list Z := (λ i, Z.of_nat i * temporal_chunk c) <$> seq k n.

Lemma chunks_loop k n p :
  starts_from 0 (k + n) = range_step (frames c) (temporal_chunk c) → peak_ok p →
  (∀ yx, yx ∈ tile_corners c →
     od_get yx (prior_by_tile p) = prior_id (Z.of_nat k * temporal_chunk c) yx) →
  let body p t := fold_res (λ p yx, plan_tile sha256 c t yx.1 p yx.2) (tile_corners c) p in
  if existsb (λ t, existsb (too_big t) (tile_corners c)) (starts_from k n)
  then fold_res body (starts_from k n) p
       = Raise (ValueError "single attention state exceeds memory ceiling")
  else ∃ p', fold_res body (starts_from k n) p = Ok p' ∧ peak_ok p' ∧
    pr_tasks p' = pr_tasks p ++ (starts_from k n ≫= λ t,
                    (λ yx, tile_task sha256 c t yx.1 yx.2) <$> tile_corners c).
Proof.
  intros Hrange Hpeak Hprior body. pose proof config_fields. revert k p Hrange Hpeak Hprior.
  induction n as [|n IH]; intros k p Hrange Hpeak Hprior; cbn [starts_from seq fmap list_fmap existsb fold_res].
  { exists p. cbn. rewrite app_nil_r. by split_and!. }
  set (t := Z.of_nat k * temporal_chunk c).
  assert (Hin : ∀ yx, yx ∈ tile_corners c → in_plan t yx).
  { intros yx Hyx. split; [|done]. rewrite <-Hrange. unfold starts_from, t.
    apply list_elem_of_fmap. exists k. split; [done|]. apply elem_of_seq. lia. }
  pose proof (chunk_loop t (tile_corners c) p NoDup_tile_corners Hin Hpeak Hprior) as Hchunk.
  change (existsb (λ t0, existsb (too_big t0) (tile_corners c)) ((λ i, Z.of_nat i * temporal_chunk c) <$> seq (S k) n))
    with (existsb (λ t0, existsb (too_big t0) (tile_corners c)) (starts_from (S k) n)).
  unfold body at 1 3. destruct (existsb (too_big t) (tile_corners c)); cbn [orb].
  { by rewrite Hchunk. }
  destruct Hchunk as (p1 & -> & Ht1 & Hpk1 & Hget1).
  specialize (IH (S k) p1). replace (S k + n)%nat with (k + S n)%nat in IH by lia.
  specialize (IH Hrange Hpk1).
  assert (Hnext : ∀ yx, yx ∈ tile_corners c →
    od_get yx (prior_by_tile p1) = prior_id (Z.of_nat (S k) * temporal_chunk c) yx).
  { intros yx Hyx. rewrite Hget1, decide_True by done. unfold prior_id.
    rewrite (proj2 (Z.eqb_neq _ _)) by nia. do 2 f_equal. unfold t. lia. }
  specialize (IH Hnext). destruct (existsb _ (starts_from (S k) n)); [done|].
  destruct IH as (p' & Hp' & Hpk' & Ht'). exists p'. split; [done|]. split; [done|].
  rewrite Ht', Ht1, <-app_assoc. done.
Qed.

Lemma fold_res_ext {E A S} (f g : S → A → res E S) l s :
  (∀ s a, f s a = g s a) → fold_res f l s = fold_res g l s.
Proof.
  intros Hfg. revert s. induction l as [|a l IH]; intros s; [done|]. cbn. rewrite Hfg.
  destruct (g s a); [apply IH|done].
Qed.

Lemma plan_tasks_flat :
  plan_tasks sha256 c =
  fold_res (λ p t, fold_res (λ p yx, plan_tile sha256 c t yx.1 p yx.2) (tile_corners c) p)
    (range_step (frames c) (temporal_chunk c)) (mkProgress [] [] 0).
Proof.
  unfold plan_tasks. apply fold_res_ext. intros p t. unfold tile_corners. rewrite <-fold_res_bind.
  apply fold_res_ext. intros p' y. by rewrite fold_res_fmap.
Qed.

Lemma plan_tasks_spec :
  if existsb (λ t, existsb (too_big t) (tile_corners c)) (range_step (frames c) (temporal_chunk c))
  then plan_tasks sha256 c = Raise (ValueError "single attention state exceeds memory ceiling")
  else ∃ p, plan_tasks sha256 c = Ok p ∧ peak_ok p ∧ pr_tasks p = all_tasks sha256 c.
Proof.
  pose proof config_fields. rewrite plan_tasks_flat.
  set (n := Z.to_nat ((frames c + temporal_chunk c - 1) / temporal_chunk c)).
  change (range_step (frames c) (temporal_chunk c)) with (starts_from 0 n).
  pose proof (chunks_loop 0 n (mkProgress [] [] 0)) as Hloop. cbn zeta in Hloop.
  apply Hloop; [done| |by intros].
  unfold peak_ok. cbn. split_and!; [set_solver|lia|by left].
Qed.

Definition covers (f v u : Z) (tk : GenerativeChunkTask) : Prop :=
  let r := region tk in
  frame_start r <= f < frame_start r + frame_count r ∧ rg_y r <= v < rg_y r + rg_height r
  ∧ rg_x r <= u < rg_x r + rg_width r.
#[global] Instance covers_dec f v u tk : Decision (covers f v u tk).
Proof. unfold covers. apply _. Defined.

Lemma all_tasks_cover f v u :
  0 <= f < frames c → 0 <= v < height c → 0 <= u < width c →
  filter (covers f v u) (all_tasks sha256 c) =
    [tile_task sha256 c (start_of (temporal_chunk c) f) (start_of (tile_height c) v)
               (start_of (tile_width c) u)].
Proof.
  intros Hf Hv Hu. pose proof config_fields as Hc.
  destruct (start_of_covers (frames c) (temporal_chunk c) f) as [Htin Ht]; [lia..|].
  destruct (start_of_covers (height c) (tile_height c) v) as [Hyin Hy]; [lia..|].
  destruct (start_of_covers (width c) (tile_width c) u) as [Hxin Hx]; [lia..|].
  unfold all_tasks. rewrite (filter_bind_unique _ _ _ (start_of (temporal_chunk c) f)); [|..].
  - rewrite (filter_fmap_unique _ _ _ (start_of (tile_height c) v, start_of (tile_width c) u)); [done|..].
    + apply NoDup_tile_corners.
    + by apply elem_of_tile_corners.
    + unfold covers, chunk_frames. cbn. unfold chunk_frames. lia.
    + intros [y x] [Hyr Hxr]%elem_of_tile_corners Hne (_ & Hcy & Hcx). cbn in Hcy, Hcx. apply Hne. f_equal.
      * apply (start_of_unique (height c)); [lia..|done|lia].
      * apply (start_of_unique (width c)); [lia..|done|lia].
  - apply NoDup_range_step. lia.
  - done.
  - intros t Htr Hne. destruct (filter _ _) as [|tk l] eqn:Efil; [done|]. exfalso.
    assert (tk ∈ tk :: l) as Htk by left. rewrite <-Efil in Htk.
    apply list_elem_of_filter in Htk as [(Hcf & _) (yx & -> & _)%list_elem_of_fmap]. cbn in Hcf. unfold chunk_frames in Hcf.
    apply Hne. apply (start_of_unique (frames c)); [lia..|done|lia].
Qed.
End plan.

(** ** Correctness *)

Definition state_fits (c : ChunkConfig) : Prop :=
  ∀ t y x, t ∈ range_step (frames c) (temporal_chunk c) → y ∈ range_step (height c) (tile_height c) →
    x ∈ range_step (width c) (tile_width c) → tile_state_bytes c t y x <= memory_ceiling_bytes c.

Definition grid_size (c : ChunkConfig) : Z :=
  Zlen (range_step (frames c) (temporal_chunk c)) * Zlen (range_step (height c) (tile_height c))
  * Zlen (range_step (width c) (tile_width c)).

Lemma too_big_spec c :
  existsb (λ t, existsb (too_big c t) (tile_corners c)) (range_step (frames c) (temporal_chunk c)) = false
  ↔ state_fits c.
Proof.
  unfold state_fits, too_big. rewrite <-not_true_iff_false, existsb_exists.
  setoid_rewrite existsb_exists. split.
  - intros Hno t y x Ht Hy Hx. apply Z.nlt_ge. intros Hlt. apply Hno. exists t.
    split; [by apply list_elem_of_In|]. exists (y, x).
    split; [by apply list_elem_of_In, elem_of_tile_corners|]. cbn. lia.
  - intros Hfit (t & Ht%list_elem_of_In & [y x] & Hyx%list_elem_of_In & Hbig).
    apply elem_of_tile_corners in Hyx as [Hy Hx]. specialize (Hfit t y x Ht Hy Hx). cbn in Hbig. lia.
Qed.

Lemma limit_concurrency_spec c n m :
  1 <= n → 0 < m <= memory_ceiling_bytes c → 0 < maximum_concurrency c →
  let '(k, peak) := limit_concurrency c n m in
  1 <= k <= Z.min (maximum_concurrency c) n ∧ peak = m * k ∧ peak <= memory_ceiling_bytes c.
Proof.
  intros Hn Hm Hc. unfold limit_concurrency.
  destruct (_ >? _) eqn:E; breflect; [|lia].
  pose proof (Z.div_le_lower_bound (memory_ceiling_bytes c) m 1 ltac:(lia) ltac:(lia)).
  pose proof (Z.mul_div_le (memory_ceiling_bytes c) m ltac:(lia)).
  rewrite Z.max_r by lia. split; [nia|]. split; [done|lia].
Qed.

(** A plan divides the generation exactly and stays in memory.
    [build_generative_chunk_plan] returns a plan precisely for a valid
    configuration with at most 65536 tasks none of which needs more state than the
    ceiling.  In the plan every voxel of every frame is in the region of one task
    and one only, namely the task of its chunk and its tile, which depends on the
    task of the chunk before on the same tile; the concurrency is at least one and
    at most what was asked for and the number of tasks; and the estimated peak is
    that concurrency times the largest state of a task and within the ceiling. *)
Theorem chunk_plan_correct sha256 c :
  (is_ok (build_generative_chunk_plan sha256 c) ↔
     config_valid c = true ∧ grid_size c <= MAX_GENERATIVE_CHUNKS ∧ state_fits c) ∧
  ∀ plan, build_generative_chunk_plan sha256 c = Ok plan →
    (∀ f v u, 0 <= f < frames c → 0 <= v < height c → 0 <= u < width c →
       filter (covers f v u) (tasks plan) =
         [tile_task sha256 c (start_of (temporal_chunk c) f) (start_of (tile_height c) v)
                    (start_of (tile_width c) u)]) ∧
    1 <= pl_maximum_concurrency plan <= Z.min (maximum_concurrency c) (Zlen (tasks plan)) ∧
    estimated_peak_bytes plan <= memory_ceiling_bytes c ∧
    ∃ tk, tk ∈ tasks plan ∧
      (∀ tk', tk' ∈ tasks plan → rg_state_bytes (region tk') <= rg_state_bytes (region tk)) ∧
      estimated_peak_bytes plan = rg_state_bytes (region tk) * pl_maximum_concurrency plan.
Proof.
  unfold build_generative_chunk_plan. fold (grid_size c).
  destruct (config_valid c) eqn:Hvalid; [cbn [negb]|split; [naive_solver|done]].
  destruct (grid_size c >? MAX_GENERATIVE_CHUNKS) eqn:Hgrid; breflect.
  { split; [split; [done|lia]|done]. }
  pose proof (plan_tasks_spec sha256 c Hvalid) as Hspec. pose proof (too_big_spec c) as Hbig.
  destruct (existsb _ _).
  { rewrite Hspec. split; [|done]. split; [done|]. intros (_ & _ & Hfit). by apply Hbig in Hfit. }
  destruct Hspec as (p & -> & Hpeak & Htasks). pose proof (config_fields c Hvalid) as Hc.
  pose proof (all_tasks_cover sha256 c Hvalid) as Hcover. rewrite <-Htasks in Hcover.
  destruct Hpeak as (Hle & Hceil & Hmax).
  destruct (limit_concurrency c _ _) as [k peak] eqn:Elim. split.
  { split; [intros _; split_and!; [done|lia|by apply Hbig]|done]. }
  intros plan [= <-]. cbn.
  specialize (Hcover 0 0 0 ltac:(lia) ltac:(lia) ltac:(lia)) as H0.
  assert (Hin0 : tile_task sha256 c (start_of (temporal_chunk c) 0) (start_of (tile_height c) 0)
                   (start_of (tile_width c) 0) ∈ pr_tasks p).
  { apply (list_elem_of_filter (covers 0 0 0)). rewrite H0. by left. }
  destruct Hmax as [[Hnil _]|(tk & Htk & Heq)]; [rewrite Hnil in Hin0; set_solver|].
  assert (Hpos : 0 < maximum_state_bytes p).
  { rewrite Htasks in Htk. unfold all_tasks in Htk.
    apply list_elem_of_bind in Htk as (t & (yx & -> & Hyx)%list_elem_of_fmap & Ht).
    rewrite <-Heq. destruct yx as [y x]. apply (tile_bounds c Hvalid t y x). by split. }
  assert (Hlen : 1 <= Zlen (pr_tasks p)).
  { unfold Zlen. destruct (pr_tasks p); [set_solver|]. cbn. lia. }
  pose proof (limit_concurrency_spec c (Zlen (pr_tasks p)) (maximum_state_bytes p)) as Hlim.
  rewrite Elim in Hlim. destruct Hlim as (Hk & -> & Hpk); [lia..|].
  split_and!; try done; try lia. exists tk. split; [done|]. split; [|by rewrite Heq].
  intros tk' Htk'. rewrite Heq. by apply Hle.
Qed.

Definition demo_config : ChunkConfig := {|
  frames := 5; height := 6; width := 4; temporal_chunk := 2; temporal_overlap := 1;
  tile_height := 4; tile_width := 4; bytes_per_attention_element := 2; attention_channels := 8;
  maximum_concurrency := 4; memory_ceiling_bytes := 1600 |}.

Example demo_plan :
  match build_generative_chunk_plan (λ s, s) demo_config with
  | Ok plan => pl_maximum_concurrency plan = 2 ∧ estimated_peak_bytes plan = 1536
               ∧ Zlen (tasks plan) = 6
  | Raise _ => False
  end.
Proof. vm_compute. done. Qed.

Example chunk_plan_correct_witness :
  is_ok (build_generative_chunk_plan (λ s, s) demo_config) ∧
  ∀ plan, build_generative_chunk_plan (λ s, s) demo_config = Ok plan →
    filter (covers 3 5 2) (tasks plan) = [tile_task (λ s, s) demo_config 2 4 0].
Proof.
  split.
  - apply (proj1 (chunk_plan_correct (λ s, s) demo_config)). split; [done|]. split; [done|].
    apply too_big_spec. vm_compute. reflexivity.
  - intros plan Hplan.
    apply (proj1 (proj2 (chunk_plan_correct (λ s, s) demo_config) plan Hplan) 3 5 2); cbn; lia.
Defined.

End ChunkPlanner.
