(* ===== verification/MemoryGate.v ===== *)
(** * Memory telemetry, budget and admission gate
    (memory_telemetry.py, memory_budget.py, memory_admission.py)

    What the runtime knows about Unified Memory, the budget of the model's
    components, and the gate that rejects requests under memory pressure and
    ramps admission up again after it. *)

From S2P Require Import Prelude Types OrderedDict PyFloat ScheduleQueue.

(** ** Telemetry *)

Module Telemetry.
Import PyFloat.

Record UnifiedMemoryTelemetry := {
  t_total : Z;
  t_available : Z;
  t_os_source : string;
  t_control_resident : Z;
  t_control_peak : Z;
  t_backend_resident : option Z;
  t_backend_peak : option Z;
  t_allocator_current : option Z;
  t_allocator_peak : option Z;
  t_allocator_source : option string;
  t_kv_used : option Z;
  t_kv_capacity : option Z;
  t_kv_ratio : option float;
  t_kv_source : option string;
  t_iogpu : option Z;
  t_iogpu_peak : option Z;
  t_iogpu_source : option string;
  t_pressure : MemoryPressure;
  t_pressure_notifications : Z;
}.

(** [UnifiedMemoryTelemetry.__init__] *)
Definition new_telemetry (total available : Z) (os_source : string) (p : MemoryPressure)
    : res exn UnifiedMemoryTelemetry :=
  if (total <=? 0) || negb ((0 <=? available) && (available <=? total))
  then Raise (ValueError "invalid unified memory capacity")
  else Ok {|
    t_total := total; t_available := available; t_os_source := os_source;
    t_control_resident := 0; t_control_peak := 0; t_backend_resident := None;
    t_backend_peak := None; t_allocator_current := None; t_allocator_peak := None;
    t_allocator_source := None; t_kv_used := None; t_kv_capacity := None; t_kv_ratio := None;
    t_kv_source := None; t_iogpu := None; t_iogpu_peak := None; t_iogpu_source := None;
    t_pressure := p; t_pressure_notifications := 0 |}.

(** [_validate_bytes] *)
Definition negative_bytes (values : list (option Z)) : bool :=
  existsb (λ v, match v with Some n => n <? 0 | None => false end) values.
Definition negative_error : exn := ValueError "memory telemetry values must not be negative".

(** [x or 0], [s is None or not s] *)
Definition or_zero (v : option Z) : Z := match v with Some n => n | None => 0 end.

(** [update_os] *)
Definition update_os (available control : Z) (backend : option Z) (source : option string)
    (t : UnifiedMemoryTelemetry) : res exn UnifiedMemoryTelemetry :=
  if negative_bytes [Some available; Some control; backend] then Raise negative_error
  else if available >? t_total t then Raise (ValueError "available memory exceeds unified memory")
  else Ok {|
    t_total := t_total t; t_available := available;
    t_os_source := match source with Some s => s | None => t_os_source t end;
    t_control_resident := control; t_control_peak := Z.max (t_control_peak t) control;
    t_backend_resident := backend;
    t_backend_peak := match backend with
                      | Some b => Some (Z.max (or_zero (t_backend_peak t)) b)
                      | None => t_backend_peak t end;
    t_allocator_current := t_allocator_current t; t_allocator_peak := t_allocator_peak t;
    t_allocator_source := t_allocator_source t; t_kv_used := t_kv_used t;
    t_kv_capacity := t_kv_capacity t; t_kv_ratio := t_kv_ratio t; t_kv_source := t_kv_source t;
    t_iogpu := t_iogpu t; t_iogpu_peak := t_iogpu_peak t; t_iogpu_source := t_iogpu_source t;
    t_pressure := t_pressure t; t_pressure_notifications := t_pressure_notifications t |}.

(** [update_allocator] *)
Definition update_allocator (current : Z) (source : string) (peak : option Z)
    (t : UnifiedMemoryTelemetry) : res exn UnifiedMemoryTelemetry :=
  if negative_bytes [Some current; peak] then Raise negative_error
  else if str_eqb source "" then Raise (ValueError "allocator source must not be empty")
  else Ok {|
    t_total := t_total t; t_available := t_available t; t_os_source := t_os_source t;
    t_control_resident := t_control_resident t; t_control_peak := t_control_peak t;
    t_backend_resident := t_backend_resident t; t_backend_peak := t_backend_peak t;
    t_allocator_current := Some current;
    t_allocator_peak := Some (Z.max (Z.max (or_zero (t_allocator_peak t)) current) (or_zero peak));
    t_allocator_source := Some source; t_kv_used := t_kv_used t;
    t_kv_capacity := t_kv_capacity t; t_kv_ratio := t_kv_ratio t; t_kv_source := t_kv_source t;
    t_iogpu := t_iogpu t; t_iogpu_peak := t_iogpu_peak t; t_iogpu_source := t_iogpu_source t;
    t_pressure := t_pressure t; t_pressure_notifications := t_pressure_notifications t |}.

(** [update_backend_resident] *)
Definition update_backend_resident (resident : Z) (source : option string)
    (t : UnifiedMemoryTelemetry) : res exn UnifiedMemoryTelemetry :=
  if negative_bytes [Some resident] then Raise negative_error
  else Ok {|
    t_total := t_total t; t_available := t_available t;
    t_os_source := match source with Some s => s | None => t_os_source t end;
    t_control_resident := t_control_resident t; t_control_peak := t_control_peak t;
    t_backend_resident := Some resident;
    t_backend_peak := Some (Z.max (or_zero (t_backend_peak t)) resident);
    t_allocator_current := t_allocator_current t; t_allocator_peak := t_allocator_peak t;
    t_allocator_source := t_allocator_source t; t_kv_used := t_kv_used t;
    t_kv_capacity := t_kv_capacity t; t_kv_ratio := t_kv_ratio t; t_kv_source := t_kv_source t;
    t_iogpu := t_iogpu t; t_iogpu_peak := t_iogpu_peak t; t_iogpu_source := t_iogpu_source t;
    t_pressure := t_pressure t; t_pressure_notifications := t_pressure_notifications t |}.

(** The telemetry with other key/value cache fields. *)
Definition set_kv (used capacity : option Z) (ratio : option float) (source : string)
    (t : UnifiedMemoryTelemetry) : UnifiedMemoryTelemetry := {|
  t_total := t_total t; t_available := t_available t; t_os_source := t_os_source t;
  t_control_resident := t_control_resident t; t_control_peak := t_control_peak t;
  t_backend_resident := t_backend_resident t; t_backend_peak := t_backend_peak t;
  t_allocator_current := t_allocator_current t; t_allocator_peak := t_allocator_peak t;
  t_allocator_source := t_allocator_source t; t_kv_used := used; t_kv_capacity := capacity;
  t_kv_ratio := ratio; t_kv_source := Some source; t_iogpu := t_iogpu t;
  t_iogpu_peak := t_iogpu_peak t; t_iogpu_source := t_iogpu_source t;
  t_pressure := t_pressure t; t_pressure_notifications := t_pressure_notifications t |}.

(** [update_kv_cache] *)
Definition update_kv_cache (used capacity : Z) (source : string) (t : UnifiedMemoryTelemetry)
    : res exn UnifiedMemoryTelemetry :=
  if negative_bytes [Some used; Some capacity] then Raise negative_error
  else if (used >? capacity) || str_eqb source "" then Raise (ValueError "invalid KV cache telemetry")
  else Ok (set_kv (Some used) (Some capacity) None source t).

(** [update_kv_ratio] *)
Definition update_kv_ratio (ratio : float) (source : string) (t : UnifiedMemoryTelemetry)
    : res exn UnifiedMemoryTelemetry :=
  if negb (fleb zero ratio && fleb ratio (of_Z 1)) || str_eqb source ""
  then Raise (ValueError "invalid KV cache ratio telemetry")
  else Ok (set_kv None None (Some ratio) source t).

(** [update_iogpu] *)
Definition update_iogpu (current : Z) (source : string) (t : UnifiedMemoryTelemetry)
    : res exn UnifiedMemoryTelemetry :=
  if negative_bytes [Some current] then Raise negative_error
  else if str_eqb source "" then Raise (ValueError "IOGPU source must not be empty")
  else Ok {|
    t_total := t_total t; t_available := t_available t; t_os_source := t_os_source t;
    t_control_resident := t_control_resident t; t_control_peak := t_control_peak t;
    t_backend_resident := t_backend_resident t; t_backend_peak := t_backend_peak t;
    t_allocator_current := t_allocator_current t; t_allocator_peak := t_allocator_peak t;
    t_allocator_source := t_allocator_source t; t_kv_used := t_kv_used t;
    t_kv_capacity := t_kv_capacity t; t_kv_ratio := t_kv_ratio t; t_kv_source := t_kv_source t;
    t_iogpu := Some current; t_iogpu_peak := Some (Z.max (or_zero (t_iogpu_peak t)) current);
    t_iogpu_source := Some source; t_pressure := t_pressure t;
    t_pressure_notifications := t_pressure_notifications t |}.

(** [update_pressure] *)
Definition update_pressure (p : MemoryPressure) (t : UnifiedMemoryTelemetry)
    : UnifiedMemoryTelemetry := {|
  t_total := t_total t; t_available := t_available t; t_os_source := t_os_source t;
  t_control_resident := t_control_resident t; t_control_peak := t_control_peak t;
  t_backend_resident := t_backend_resident t; t_backend_peak := t_backend_peak t;
  t_allocator_current := t_allocator_current t; t_allocator_peak := t_allocator_peak t;
  t_allocator_source := t_allocator_source t; t_kv_used := t_kv_used t;
  t_kv_capacity := t_kv_capacity t; t_kv_ratio := t_kv_ratio t; t_kv_source := t_kv_source t;
  t_iogpu := t_iogpu t; t_iogpu_peak := t_iogpu_peak t; t_iogpu_source := t_iogpu_source t;
  t_pressure := p;
  t_pressure_notifications :=
    t_pressure_notifications t + (if bool_decide (p = t_pressure t) then 0 else 1) |}.

Record MemoryTelemetrySnapshot := {
  unified_total_bytes : Z;
  unified_available_bytes : Z;
  control_resident_bytes : Z;
  control_resident_peak_bytes : Z;
  backend_resident_bytes : option Z;
  backend_resident_peak_bytes : option Z;
  allocator_current_bytes : option Z;
  allocator_peak_bytes : option Z;
  allocator_resident_peak_delta_bytes : option Z;
  kv_used_bytes : option Z;
  kv_capacity_bytes : option Z;
  kv_usage_ratio : option float;
  iogpu_bytes : option Z;
  iogpu_peak_bytes : option Z;
  pressure : string;
  pressure_notifications : Z;
  os_source : string;
  allocator_source : option string;
  kv_source : option string;
  iogpu_source : option string;
}.

(** [snapshot]; the quotient of two stored byte counts is at most one and does
    not raise. *)
Definition snapshot (t : UnifiedMemoryTelemetry) : MemoryTelemetrySnapshot := {|
  unified_total_bytes := t_total t; unified_available_bytes := t_available t;
  control_resident_bytes := t_control_resident t; control_resident_peak_bytes := t_control_peak t;
  backend_resident_bytes := t_backend_resident t; backend_resident_peak_bytes := t_backend_peak t;
  allocator_current_bytes := t_allocator_current t; allocator_peak_bytes := t_allocator_peak t;
  allocator_resident_peak_delta_bytes :=
    match t_allocator_peak t, t_backend_peak t with
    | Some a, Some b => Some (b - a) | _, _ => None end;
  kv_used_bytes := t_kv_used t; kv_capacity_bytes := t_kv_capacity t;
  kv_usage_ratio :=
    match t_kv_used t, t_kv_capacity t with
    | Some u, Some n => Some (if n =? 0 then zero else int_div u n)
    | _, _ => t_kv_ratio t end;
  iogpu_bytes := t_iogpu t; iogpu_peak_bytes := t_iogpu_peak t;
  pressure := MemoryPressure_value (t_pressure t);
  pressure_notifications := t_pressure_notifications t; os_source := t_os_source t;
  allocator_source := t_allocator_source t; kv_source := t_kv_source t;
  iogpu_source := t_iogpu_source t |}.

(** *** Invariant *)

Definition peak_bounds (current peak : option Z) : Prop :=
  ∀ n, current = Some n → 0 <= n ∧ ∃ p, peak = Some p ∧ n <= p.

Record telemetry_ok (t : UnifiedMemoryTelemetry) : Prop := {
  to_available : 0 < t_total t ∧ 0 <= t_available t <= t_total t;
  to_control : 0 <= t_control_resident t <= t_control_peak t;
  to_backend : peak_bounds (t_backend_resident t) (t_backend_peak t);
  to_allocator : peak_bounds (t_allocator_current t) (t_allocator_peak t);
  to_iogpu : peak_bounds (t_iogpu t) (t_iogpu_peak t);
  (* a ratio is reported either directly or through byte counts *)
  to_kv : ∀ u n, t_kv_used t = Some u → t_kv_capacity t = Some n → 0 <= u <= n ∧ t_kv_ratio t = None;
}.

(** One update through the public operations. *)
Inductive telemetry_step : UnifiedMemoryTelemetry → UnifiedMemoryTelemetry → Prop :=
| tstep_os a c b src t t' : update_os a c b src t = Ok t' → telemetry_step t t'
| tstep_allocator c src pk t t' : update_allocator c src pk t = Ok t' → telemetry_step t t'
| tstep_backend r src t t' : update_backend_resident r src t = Ok t' → telemetry_step t t'
| tstep_kv u n src t t' : update_kv_cache u n src t = Ok t' → telemetry_step t t'
| tstep_ratio r src t t' : update_kv_ratio r src t = Ok t' → telemetry_step t t'
| tstep_iogpu c src t t' : update_iogpu c src t = Ok t' → telemetry_step t t'
| tstep_pressure p t : telemetry_step t (update_pressure p t).

Definition telemetry_reachable (t : UnifiedMemoryTelemetry) : Prop :=
  ∃ total available src p t0, new_telemetry total available src p = Ok t0 ∧ rtc telemetry_step t0 t.

Lemma peak_bounds_max old n : 0 <= n → peak_bounds (Some n) (Some (Z.max (or_zero old) n)).
Proof. intros Hn m [= <-]. split; [done|]. eexists. split; [done|]. lia. Qed.

Lemma telemetry_step_ok t t' : telemetry_ok t → telemetry_step t t' → telemetry_ok t'.
Proof.
  intros [Hav Hco Hba Hal Hio Hkv] Hstep.
  destruct Hstep as [a c b src t t' H|c src pk t t' H|r src t t' H|u n src t t' H|r src t t' H
                    |c src t t' H|p t].
  - unfold update_os in H. destruct (negative_bytes _) eqn:En; [done|].
    destruct (_ >? _) eqn:Ea; [done|]. cbn in En. rewrite !orb_false_iff in En. breflect.
    injection H as <-. split; cbn; try done; [lia|lia|].
    destruct b as [b|]; [|done]. apply peak_bounds_max. lia.
  - unfold update_allocator in H. destruct (negative_bytes _) eqn:En; [done|].
    destruct (str_eqb _ _); [done|]. cbn in En. rewrite !orb_false_iff in En. breflect.
    injection H as <-. split; cbn; try done. intros m [= <-]. split; [lia|]. eexists. split; [done|]. lia.
  - unfold update_backend_resident in H. destruct (negative_bytes _) eqn:En; [done|].
    cbn in En. rewrite !orb_false_iff in En. breflect. injection H as <-. split; cbn; try done.
    apply peak_bounds_max. lia.
  - unfold update_kv_cache in H. destruct (negative_bytes _) eqn:En; [done|].
    destruct (_ || _) eqn:Eu; [done|]. cbn in En. rewrite !orb_false_iff in En.
    apply orb_false_iff in Eu as [Eu _]. breflect. injection H as <-. split; cbn; try done.
    intros u' n' [= <-] [= <-]. split; [lia|done].
  - unfold update_kv_ratio in H. destruct (_ || _); [done|]. injection H as <-. by split.
  - unfold update_iogpu in H. destruct (negative_bytes _) eqn:En; [done|].
    destruct (str_eqb _ _); [done|]. cbn in En. rewrite !orb_false_iff in En. breflect.
    injection H as <-. split; cbn; try done. apply peak_bounds_max. lia.
  - by split.
Qed.

Lemma telemetry_reachable_ok t : telemetry_reachable t → telemetry_ok t.
Proof.
  intros (total & available & src & p & t0 & H0 & Hrtc).
  assert (Ht0 : telemetry_ok t0).
  { unfold new_telemetry in H0. destruct (_ || _) eqn:E; [done|]. apply orb_false_iff in E as [E1 E2].
    apply negb_false_iff, andb_true_iff in E2. destruct E2. breflect. injection H0 as <-.
    split; cbn; try done; lia. }
  clear H0. induction Hrtc; eauto using telemetry_step_ok.
Qed.

End Telemetry.

(** ** Component budget *)

Module Budget.
Import OrderedDict.

Definition COMPONENT_NAMES : list string :=
  ["weights"; "kv"; "recurrent"; "prefix"; "window"; "experts"; "ngram"; "mtp"; "scratch";
   "metal_heap"; "coreml"].
(** [name in ADDITIVE_COMPONENTS] *)
Definition additive (name : string) : bool :=
  existsb (str_eqb name) COMPONENT_NAMES && negb (str_eqb name "metal_heap").

Record MemoryBudgetComponent := mkComponent {
  current_bytes : option Z;
  peak_bytes : option Z;
  c_source : option string;
  accounting : string;
}.

Record UnifiedMemoryBudgetLedger := mkBudget {
  b_capacity : Z;
  b_components : list (string * MemoryBudgetComponent);
}.

(** [UnifiedMemoryBudgetLedger.__init__] *)
Definition new_budget (capacity : Z) : res exn UnifiedMemoryBudgetLedger :=
  if capacity <=? 0 then Raise (ValueError "memory budget capacity must be positive")
  else Ok (mkBudget capacity
    ((λ name, (name, mkComponent None None None
                       (if additive name then "additive" else "overlap_envelope")))
     <$> COMPONENT_NAMES)).

(** [update] *)
Definition update (name : string) (current : option Z) (source : option string)
    (b : UnifiedMemoryBudgetLedger) : res exn UnifiedMemoryBudgetLedger :=
  match od_get name (b_components b) with
  | None => Raise (ValueError "unknown memory budget component")
  | Some previous =>
      if (match current with Some n => n <? 0 | None => false end)
      then Raise (ValueError "memory budget bytes must not be negative")
      else if negb (eqb (is_none current) (is_none source)) || bool_decide (source = Some "")
      then Raise (ValueError "memory budget value and source must both be known or unknown")
      else
        let peak := match current with
                    | Some n => Some (Z.max (match peak_bytes previous with Some p => p | None => 0 end) n)
                    | None => peak_bytes previous
                    end in
        Ok (mkBudget (b_capacity b)
              (od_set name (mkComponent current peak source (accounting previous)) (b_components b)))
  end.

Record MemoryBudgetSnapshot := mkBudgetSnapshot {
  capacity_bytes : Z;
  known_component_bytes : Z;
  known_remaining_bytes : Z;
  overcommitted_bytes : Z;
  unknown_components : list string;
  overlap_envelope_bytes : option Z;
  components : list (string * MemoryBudgetComponent);
}.

Definition current_or_zero (c : MemoryBudgetComponent) : Z :=
  match current_bytes c with Some n => n | None => 0 end.

(** [snapshot] *)
Definition budget_snapshot (b : UnifiedMemoryBudgetLedger) : res exn MemoryBudgetSnapshot :=
  let cs := b_components b in
  let known := Zsum ((λ p, current_or_zero p.2) <$> filter (λ p, additive p.1) cs) in
  let unknown := filter (λ name, additive name &&
                   match od_get name cs with Some c => is_none (current_bytes c) | None => false end)
                   COMPONENT_NAMES in
  match od_get "metal_heap" cs with
  | None => Raise (KeyError "metal_heap")
  | Some heap =>
      Ok (mkBudgetSnapshot (b_capacity b) known (Z.max 0 (b_capacity b - known))
            (Z.max 0 (known - b_capacity b)) unknown (current_bytes heap) cs)
  end.

(** *** Invariant *)

Record budget_ok (b : UnifiedMemoryBudgetLedger) : Prop := {
  bo_capacity : 0 < b_capacity b;
  bo_names : (b_components b).*1 = COMPONENT_NAMES;
  bo_peaks name c : od_get name (b_components b) = Some c →
    Telemetry.peak_bounds (current_bytes c) (peak_bytes c);
}.

Lemma new_budget_ok capacity b : new_budget capacity = Ok b → budget_ok b.
Proof.
  unfold new_budget. destruct (_ <=? _) eqn:E; [done|]. intros [= <-]. breflect. split; cbn [b_capacity b_components].
  - lia.
  - done.
  - intros name c Hc%od_get_elem n Hn.
    repeat (apply elem_of_cons in Hc as [[= -> ->]|Hc]; [done|]). by apply not_elem_of_nil in Hc.
Qed.

Lemma update_ok name current source b b' :
  budget_ok b → update name current source b = Ok b' → budget_ok b'.
Proof.
  intros [Hc Hn Hp]. unfold update. destruct (od_get name (b_components b)) as [prev|] eqn:Eprev; [|done].
  destruct (match current with Some n => _ | None => false end) eqn:Eneg; [done|].
  destruct (_ || _); [done|]. intros [= <-]. split; cbn [b_capacity b_components]; [done| |].
  - by rewrite od_set_keys by by eexists.
  - intros name' c. destruct (decide (name = name')) as [<-|Hne].
    + rewrite od_get_set. intros [= <-]. cbn. destruct current as [n|]; [|by intros ? [=]].
      breflect. intros m [= <-]. split; [done|]. eexists. split; [done|]. lia.
    + rewrite od_get_set_ne by done. apply Hp.
Qed.

(** A snapshot never raises, and accounts for the capacity. *)
Lemma budget_snapshot_spec b :
  budget_ok b →
  ∃ s, budget_snapshot b = Ok s ∧ capacity_bytes s = b_capacity b ∧
    known_remaining_bytes s - overcommitted_bytes s = capacity_bytes s - known_component_bytes s ∧
    0 <= known_component_bytes s ∧ (overcommitted_bytes s = 0 ∨ known_remaining_bytes s = 0).
Proof.
  intros [Hc Hn Hp]. unfold budget_snapshot.
  assert (od_wf (b_components b)) as Hwf by (unfold od_wf; rewrite Hn; by apply (bool_decide_unpack _)).
  destruct (od_get "metal_heap" (b_components b)) as [heap|] eqn:Eh; cycle 1.
  { exfalso. apply od_get_None in Eh. apply Eh. rewrite Hn. by apply (bool_decide_unpack _). }
  eexists. split; [done|]. cbn. split; [done|]. split; [lia|]. split; [|lia].
  apply Zsum_fmap_nonneg. intros [name c] [_ Hin]%list_elem_of_filter. cbn. unfold current_or_zero.
  apply od_get_iff in Hin; [|done]. specialize (Hp _ _ Hin).
  destruct (current_bytes c) as [n|]; [|lia]. by destruct (Hp n eq_refl).
Qed.

End Budget.

(** ** Admission gate *)

Module Gate.
Import PyFloat Telemetry Budget.

Record MemoryPressureAdmissionGate := mkGate {
  recovery_boundaries : float * float * float;
  effective : MemoryPressure;
  admitted : Z;
  rejected : Z;
  last_rejection_reason : option string;
  recovery_started : option float;
}.

(** [_STAGES]: the largest batch and context and the share of memory. *)
Definition STAGES (stage : nat) : Z * Z * float :=
  match stage with
  | 0%nat => (1, 4096, literal 4503599627370496 (-55))
  | 1%nat => (2, 8192, literal 4503599627370496 (-54))
  | _ => (4, 32768, literal 4503599627370496 (-53))
  end.

(** [MemoryPressureAdmissionGate.__init__]; three numbers are sorted when none is
    less than the one before it. *)
Definition new_gate (boundaries : float * float * float) : res exn MemoryPressureAdmissionGate :=
  let '(b0, b1, b2) := boundaries in
  if fleb b0 zero || fleb b1 zero || fleb b2 zero || fltb b1 b0 || fltb b2 b1
  then Raise (ValueError "invalid recovery boundaries")
  else Ok (mkGate boundaries MP_UNKNOWN 0 0 None None).

(** The stage of an elapsed time, [None] after the last boundary. *)
Definition stage_of (boundaries : float * float * float) (elapsed : float) : option nat :=
  let '(b0, b1, b2) := boundaries in
  if fltb elapsed b0 then Some 0%nat else if fltb elapsed b1 then Some 1%nat
  else if fltb elapsed b2 then Some 2%nat else None.

(** [_recovery_stage_locked] at the time [now]. *)
Definition recovery_stage (now : float) (g : MemoryPressureAdmissionGate)
    : option nat * MemoryPressureAdmissionGate :=
  match recovery_started g with
  | None => (None, g)
  | Some t0 =>
      match stage_of (recovery_boundaries g) (fmax zero (fsub now t0)) with
      | Some stage => (Some stage, g)
      | None => (None, mkGate (recovery_boundaries g) (effective g) (admitted g) (rejected g)
                         (last_rejection_reason g) None)
      end
  end.

Definition pressure_rank (p : MemoryPressure) : Z :=
  match p with MP_UNKNOWN => -1 | MP_NORMAL => 0 | MP_WARNING => 1 | MP_CRITICAL => 2 end.

(** The pressure the byte counts show: below 0.08 or 0.18 available, or 0.92 or
    0.82 in use. *)
Definition derived_pressure (available_ratio observed_ratio : float) : MemoryPressure :=
  if fltb available_ratio (literal 5764607523034235 (-56))
     || fleb (literal 8286623314361713 (-53)) observed_ratio then MP_CRITICAL
  else if fltb available_ratio (literal 6485183463413514 (-55))
          || fleb (literal 7385903388887613 (-53)) observed_ratio then MP_WARNING
  else MP_NORMAL.

(** [effective_pressure] *)
Definition effective_pressure (m : MemoryTelemetrySnapshot) : res exn MemoryPressure :=
  match MemoryPressure_of_value (pressure m) with
  | None => Raise (ValueError "not a valid MemoryPressure")
  | Some native =>
      match true_div (unified_available_bytes m) (unified_total_bytes m) with
      | Raise e => Raise e
      | Ok available_ratio =>
          let observed := Z.max (or_zero (backend_resident_bytes m)) (or_zero (iogpu_bytes m)) in
          match true_div observed (unified_total_bytes m) with
          | Raise e => Raise e
          | Ok observed_ratio =>
              let derived := derived_pressure available_ratio observed_ratio in
              Ok (if pressure_rank derived <=? pressure_rank native then native else derived)
          end
      end
  end.

(** The reasons [admit] looks for before it takes the lock. *)
Definition static_reason (p : MemoryPressure) (r : ScheduleQueue.ScheduleRequest)
    (m : MemoryTelemetrySnapshot) (budget : option MemoryBudgetSnapshot)
    (maximum_context_tokens : option Z) : option string :=
  let est := ScheduleQueue.estimated_memory_bytes r in
  if match maximum_context_tokens with
     | Some n => ScheduleQueue.estimated_context_tokens r >? n | None => false end
  then Some "backend_context_capacity_exceeded"
  else if match budget with Some b => overcommitted_bytes b >? 0 | None => false end
  then Some "memory_budget_overcommitted"
  else if match budget with
          | Some b => known_component_bytes b + est >? capacity_bytes b | None => false end
  then Some "memory_budget_exceeded"
  else if bool_decide (p = MP_CRITICAL)
          && negb (bool_decide (ScheduleQueue.priority r = REALTIME)
                   || bool_decide (ScheduleQueue.priority r = INTERACTIVE))
  then Some "critical_memory_pressure"
  else if bool_decide (p = MP_WARNING) && bool_decide (ScheduleQueue.priority r = BACKGROUND)
  then Some "warning_memory_pressure_background"
  else if est >? unified_available_bytes m then Some "insufficient_unified_memory"
  else None.

(** The limits of a recovery stage. *)
Definition stage_reason (stage : nat) (r : ScheduleQueue.ScheduleRequest)
    (m : MemoryTelemetrySnapshot) : res exn (option string) :=
  let '(max_batch, max_context, fraction) := STAGES stage in
  if ScheduleQueue.batch_size r >? max_batch then Ok (Some "recovery_batch_limited")
  else if ScheduleQueue.estimated_context_tokens r >? max_context
  then Ok (Some "recovery_context_limited")
  else match scaled (unified_available_bytes m) fraction with
  | Raise e => Raise e
  | Ok n => Ok (if ScheduleQueue.estimated_memory_bytes r >? n
                then Some "recovery_memory_limited" else None)
  end.

(** [admit]; [now] is what the clock reads if it is read. *)
Definition gate_admit (r : ScheduleQueue.ScheduleRequest) (m : MemoryTelemetrySnapshot)
    (budget : option MemoryBudgetSnapshot) (maximum_context_tokens : option Z) (now : float)
    : Py MemoryPressureAdmissionGate () := λ g,
  match effective_pressure m with
  | Raise e => (Raise e, g)
  | Ok p =>
      let reason := static_reason p r m budget maximum_context_tokens in
      let g := mkGate (recovery_boundaries g) p (admitted g) (rejected g)
                      (last_rejection_reason g) (recovery_started g) in
      let '(stage, g) := if bool_decide (p = MP_NORMAL) then recovery_stage now g else (None, g) in
      match (match stage, reason with
             | Some s, None => stage_reason s r m
             | _, _ => Ok reason
             end) with
      | Raise e => (Raise e, g)
      | Ok None =>
          (Ok (), mkGate (recovery_boundaries g) (effective g) (admitted g + 1) (rejected g)
                         (last_rejection_reason g) (recovery_started g))
      | Ok (Some reason) =>
          (Raise (MemoryPressureAdmissionError reason),
           mkGate (recovery_boundaries g) (effective g) (admitted g) (rejected g + 1)
                  (Some reason) (recovery_started g))
      end
  end.

(** [refresh] *)
Definition refresh (m : MemoryTelemetrySnapshot) (now : float)
    : Py MemoryPressureAdmissionGate () := λ g,
  match effective_pressure m with
  | Raise e => (Raise e, g)
  | Ok p =>
      let started :=
        match p with
        | MP_NORMAL => match effective g with
                       | MP_WARNING | MP_CRITICAL => Some now
                       | _ => recovery_started g end
        | MP_WARNING | MP_CRITICAL => None
        | MP_UNKNOWN => recovery_started g
        end in
      (Ok (), mkGate (recovery_boundaries g) p (admitted g) (rejected g)
                (if bool_decide (p = MP_NORMAL) then None else last_rejection_reason g) started)
  end.

Record MemoryAdmissionSnapshot := mkGateSnapshot {
  s_effective_pressure : string;
  s_admitted : Z;
  s_rejected : Z;
  s_last_rejection_reason : option string;
  s_recovery_stage : option nat;
  s_limits : option (Z * Z * float);
}.

(** [snapshot] *)
Definition gate_snapshot (now : float) (g : MemoryPressureAdmissionGate)
    : MemoryAdmissionSnapshot * MemoryPressureAdmissionGate :=
  let '(stage, g) := recovery_stage now g in
  (mkGateSnapshot (MemoryPressure_value (effective g)) (admitted g) (rejected g)
     (last_rejection_reason g) stage (STAGES <$> stage), g).

(** *** What an admission guarantees *)

Lemma effective_pressure_native t p :
  effective_pressure (snapshot t) = Ok p → pressure_rank (t_pressure t) <= pressure_rank p.
Proof.
  unfold effective_pressure. cbn [pressure snapshot]. rewrite MemoryPressure_round_trip.
  destruct (true_div _ _) as [a|]; [|done]. destruct (true_div _ _) as [o|]; [|done].
  intros [= <-]. case_match; breflect; lia.
Qed.

Definition within_stage (stage : nat) (r : ScheduleQueue.ScheduleRequest)
    (m : MemoryTelemetrySnapshot) : Prop :=
  let '(max_batch, max_context, fraction) := STAGES stage in
  ScheduleQueue.batch_size r <= max_batch ∧
  ScheduleQueue.estimated_context_tokens r <= max_context ∧
  ∃ n, scaled (unified_available_bytes m) fraction = Ok n ∧
       ScheduleQueue.estimated_memory_bytes r <= n.

Lemma stage_reason_None stage r m : stage_reason stage r m = Ok None → within_stage stage r m.
Proof.
  unfold stage_reason, within_stage. destruct (STAGES stage) as [[b n] f].
  destruct (_ >? b) eqn:E1; [done|]. destruct (_ >? n) eqn:E2; [done|].
  destruct (scaled _ f) as [k|]; [|done]. destruct (_ >? k) eqn:E3; [done|]. breflect. intros _.
  split; [lia|]. split; [lia|]. exists k. split; [done|lia].
Qed.

Lemma static_reason_None p r m b n :
  static_reason p r m b n = None →
  ScheduleQueue.estimated_memory_bytes r <= unified_available_bytes m ∧
  (∀ k, n = Some k → ScheduleQueue.estimated_context_tokens r <= k) ∧
  (∀ s, b = Some s → overcommitted_bytes s <= 0 ∧
     known_component_bytes s + ScheduleQueue.estimated_memory_bytes r <= capacity_bytes s) ∧
  (p = MP_CRITICAL → ScheduleQueue.priority r = REALTIME ∨ ScheduleQueue.priority r = INTERACTIVE) ∧
  (p = MP_WARNING → ScheduleQueue.priority r ≠ BACKGROUND).
Proof.
  unfold static_reason. intros H.
  destruct (match n with Some _ => _ | None => _ end) eqn:E1 in H; [done|].
  destruct (match b with Some _ => _ | None => _ end) eqn:E2 in H; [done|].
  destruct (match b with Some _ => _ | None => _ end) eqn:E3 in H; [done|].
  destruct (_ && negb _) eqn:E4 in H; [done|]. destruct (_ && _) eqn:E5 in H; [done|].
  destruct (_ >? _) eqn:E6 in H; [done|]. breflect. split_and!.
  - lia.
  - intros k ->. breflect. lia.
  - intros s ->. breflect. lia.
  - intros ->. rewrite bool_decide_true in E4 by done. apply negb_false_iff, orb_true_iff in E4.
    rewrite !bool_decide_eq_true in E4. done.
  - intros ->. rewrite bool_decide_true in E5 by done. by apply bool_decide_eq_false in E5.
Qed.

Lemma gate_admit_Ok r m b n now g g' :
  gate_admit r m b n now g = (Ok (), g') →
  ∃ p, effective_pressure m = Ok p ∧ static_reason p r m b n = None ∧
    admitted g' = admitted g + 1 ∧ rejected g' = rejected g ∧
    (p = MP_NORMAL → ∀ t0 stage, recovery_started g = Some t0 →
       stage_of (recovery_boundaries g) (fmax zero (fsub now t0)) = Some stage →
       within_stage stage r m).
Proof.
  unfold gate_admit. destruct (effective_pressure m) as [p|]; [|done]. set (g1 := mkGate _ _ _ _ _ _).
  destruct (bool_decide (p = MP_NORMAL)) eqn:Ep.
  - unfold recovery_stage. cbn [recovery_started recovery_boundaries g1].
    destruct (recovery_started g) as [t0|]; [destruct (stage_of _ _) as [stage|] eqn:Est|].
    + destruct (static_reason _ _ _ _ _) eqn:Es; [done|]. destruct (stage_reason _ _ _) as [[|]|] eqn:Er; try done.
      intros [= <-]. exists p. split_and!; try done. intros _ ? ? [= <-]. rewrite Est. intros [= <-].
      by apply stage_reason_None.
    + destruct (static_reason _ _ _ _ _) eqn:Es; [done|]. intros [= <-]. exists p. split_and!; try done.
      intros _ ? ? [= <-]. by rewrite Est.
    + destruct (static_reason _ _ _ _ _) eqn:Es; [done|]. intros [= <-]. exists p. by split_and!.
  - destruct (static_reason _ _ _ _ _) eqn:Es; [done|]. intros [= <-]. exists p. split_and!; try done.
    intros ->. by rewrite bool_decide_true in Ep.
Qed.

(** *** The ramp *)

Inductive gate_op :=
| OAdmit (r : ScheduleQueue.ScheduleRequest) (m : MemoryTelemetrySnapshot)
    (b : option MemoryBudgetSnapshot) (n : option Z) (now : float)
| ORefresh (m : MemoryTelemetrySnapshot) (now : float)
| OSnapshot (now : float).

Definition gate_exec (g : MemoryPressureAdmissionGate) (o : gate_op) : MemoryPressureAdmissionGate :=
  match o with
  | OAdmit r m b n now => (gate_admit r m b n now g).2
  | ORefresh m now => (refresh m now g).2
  | OSnapshot now => (gate_snapshot now g).2
  end.

(** An operation that sees normal pressure and a time before the last boundary. *)
Definition calm (t0 : float) (bs : float * float * float) (o : gate_op) : Prop :=
  let early now := is_Some (stage_of bs (fmax zero (fsub now t0))) in
  match o with
  | OAdmit _ m _ _ now => effective_pressure m = Ok MP_NORMAL ∧ early now
  | ORefresh m now => effective_pressure m = Ok MP_NORMAL
  | OSnapshot now => early now
  end.

Definition ramping (t0 : float) (bs : float * float * float) (g : MemoryPressureAdmissionGate) : Prop :=
  recovery_boundaries g = bs ∧ effective g = MP_NORMAL ∧ recovery_started g = Some t0.

Lemma calm_ramping t0 bs o g : ramping t0 bs g → calm t0 bs o → ramping t0 bs (gate_exec g o).
Proof.
  intros (Hb & He & Hs). destruct o as [r m b n now|m now|now]; cbn.
  - intros [Hm [stage Hst]]. unfold gate_admit. rewrite Hm. cbn [bool_decide]. unfold recovery_stage.
    rewrite bool_decide_true by done. cbn [recovery_started recovery_boundaries]. rewrite Hs, Hb, Hst.
    destruct (match static_reason _ _ _ _ _ with None => _ | _ => _ end) as [[|]|]; by split_and!.
  - intros Hm. unfold refresh. rewrite Hm, He. by split_and!.
  - intros [stage Hst]. unfold gate_snapshot, recovery_stage. rewrite Hs, Hb, Hst. by split_and!.
Qed.

Lemma calm_run t0 bs ops g : ramping t0 bs g → Forall (calm t0 bs) ops → ramping t0 bs (foldl gate_exec g ops).
Proof. intros Hg Hops. revert g Hg. induction Hops; cbn; eauto using calm_ramping. Qed.

(** *** Correctness *)

(** C4: the admission gate is safe.  A request it admits fits the memory that is
    available, the backend's context and, with a budget, the capacity its
    components leave; under critical native pressure it is real-time or
    interactive and under warning pressure it is not background; and the
    admission is counted.  Once [refresh] sees pressure end, then for as long as
    normal pressure is all that is seen and the last boundary is not reached,
    every admitted request keeps to the batch, context and share of the memory of
    the stage its time falls in. *)
Theorem admission_gate_safe :
  (∀ r t b n now g g', gate_admit r (snapshot t) b n now g = (Ok (), g') →
     ScheduleQueue.estimated_memory_bytes r <= t_available t ∧
     (∀ k, n = Some k → ScheduleQueue.estimated_context_tokens r <= k) ∧
     (∀ s, b = Some s → overcommitted_bytes s <= 0 ∧
        known_component_bytes s + ScheduleQueue.estimated_memory_bytes r <= capacity_bytes s) ∧
     (t_pressure t = MP_CRITICAL →
        ScheduleQueue.priority r = REALTIME ∨ ScheduleQueue.priority r = INTERACTIVE) ∧
     (t_pressure t = MP_WARNING → ScheduleQueue.priority r ≠ BACKGROUND) ∧
     admitted g' = admitted g + 1 ∧ rejected g' = rejected g) ∧
  (∀ g0 m0 t0 ops r m b n now g' stage,
     effective g0 = MP_WARNING ∨ effective g0 = MP_CRITICAL →
     effective_pressure m0 = Ok MP_NORMAL →
     Forall (calm t0 (recovery_boundaries g0)) ops → effective_pressure m = Ok MP_NORMAL →
     stage_of (recovery_boundaries g0) (fmax zero (fsub now t0)) = Some stage →
     gate_admit r m b n now (foldl gate_exec (refresh m0 t0 g0).2 ops) = (Ok (), g') →
     within_stage stage r m).
Proof.
  split.
  - intros r t b n now g g' (p & Hp & Hnone & Ha & Hr & _)%gate_admit_Ok.
    apply effective_pressure_native in Hp. apply static_reason_None in Hnone as (? & ? & ? & Hc & Hw).
    split_and!; try done; intros Ht; rewrite Ht in Hp; destruct p; cbn in Hp; try lia; eauto.
    destruct (Hc eq_refl) as [-> | ->]; done.
  - intros g0 m0 t0 ops r m b n now g' stage Hg0 Hm0 Hops Hm Hst.
    assert (Hramp : ramping t0 (recovery_boundaries g0) (refresh m0 t0 g0).2).
    { unfold refresh, ramping. rewrite Hm0. destruct Hg0 as [-> | ->]; by split_and!. }
    pose proof (calm_run _ _ _ _ Hramp Hops) as (Hb & _ & Hs).
    intros (p & Hp & _ & _ & _ & Hstage)%gate_admit_Ok. rewrite Hm in Hp. injection Hp as <-.
    apply (Hstage eq_refl t0); [done|by rewrite Hb].
Qed.

Definition demo_telemetry (available : Z) (p : MemoryPressure) : MemoryTelemetrySnapshot :=
  match new_telemetry 1000 available "fixture" p with
  | Ok t => snapshot t
  | Raise _ => snapshot (update_pressure p {|
      t_total := 1; t_available := 0; t_os_source := ""; t_control_resident := 0;
      t_control_peak := 0; t_backend_resident := None; t_backend_peak := None;
      t_allocator_current := None; t_allocator_peak := None; t_allocator_source := None;
      t_kv_used := None; t_kv_capacity := None; t_kv_ratio := None; t_kv_source := None;
      t_iogpu := None; t_iogpu_peak := None; t_iogpu_source := None; t_pressure := p;
      t_pressure_notifications := 0 |})
  end.
Definition demo_request (n batch : Z) : ScheduleQueue.ScheduleRequest :=
  ScheduleQueue.mkRequest "decode" n NORMAL batch None 0 None [].
Definition demo_boundaries : float * float * float := (of_Z 5, of_Z 15, of_Z 30).
Definition pressed_gate : MemoryPressureAdmissionGate :=
  mkGate demo_boundaries MP_CRITICAL 0 0 None None.

(** The ramp at work: 62 bytes are an eighth of the 500 available, 63 are not. *)
Example ramp_limits :
  let g := (refresh (demo_telemetry 500 MP_NORMAL) (of_Z 100) pressed_gate).2 in
  is_ok (gate_admit (demo_request 62 1) (demo_telemetry 500 MP_NORMAL) None None (of_Z 104) g).1 = true ∧
  (gate_admit (demo_request 63 1) (demo_telemetry 500 MP_NORMAL) None None (of_Z 104) g).1
    = Raise (MemoryPressureAdmissionError "recovery_memory_limited").
Proof. split; vm_compute; reflexivity. Qed.

Example admission_gate_safe_witness :
  within_stage 1 (demo_request 100 2) (demo_telemetry 500 MP_NORMAL).
Proof.
  refine (proj2 admission_gate_safe pressed_gate (demo_telemetry 500 MP_NORMAL) (of_Z 100)
    [OAdmit (demo_request 10 1) (demo_telemetry 500 MP_NORMAL) None None (of_Z 101); OSnapshot (of_Z 102)]
    (demo_request 100 2) (demo_telemetry 500 MP_NORMAL) None None (of_Z 107) _ 1%nat _ _ _ _ _ _).
  - by right.
  - vm_compute. reflexivity.
  - repeat constructor; vm_compute; eauto.
  - vm_compute. reflexivity.
  - vm_compute. reflexivity.
  - vm_compute. reflexivity.
Defined.

(** An admission that sees normal pressure before [refresh] does records it as the
    pressure in effect, and the ramp never starts: full-size work is admitted in
    the first second after critical pressure. *)
Lemma admission_skips_recovery :
  let g1 := (gate_admit (demo_request 10 1) (demo_telemetry 500 MP_NORMAL) None None (of_Z 100)
               pressed_gate).2 in
  let g2 := (refresh (demo_telemetry 500 MP_NORMAL) (of_Z 100) g1).2 in
  recovery_started g2 = None ∧
  (gate_admit (demo_request 400 32) (demo_telemetry 500 MP_NORMAL) None None (of_Z 101) g2).1 = Ok ().
Proof. split; vm_compute; reflexivity. Qed.

End Gate.
