(* ===== verification/VideoFrames.v ===== *)
(** * Video frame scheduler (video_frame_scheduler.py)

    Decoded frames in presentation order: a bounded queue that presents the next
    frame whose time has come and drops the ones that are too late.  The [heapq]
    list is modelled by its entries in increasing order, which is the order
    [heappop] yields them and the only thing the class observes of it. *)

From stdpp Require Import gmap sorting.
From S2P Require Import Prelude Types PyFloat.

Module VideoFrames.
Import PyFloat.

Section payload.
Context {T : Type}.

Record ScheduledVideoFrame := mkFrame {
  frame_id : string;
  presentation_seconds : float;
  duration_seconds : float;
  payload : T;
  keyframe : bool;
}.

(** [ScheduledVideoFrame.__post_init__] *)
Definition frame_check (f : ScheduledVideoFrame) : res exn ScheduledVideoFrame :=
  check (negb (str_eqb (frame_id f) "" || (str_len (frame_id f) >? 128)
         || negb (is_finite (presentation_seconds f)) || fltb (presentation_seconds f) zero
         || negb (is_finite (duration_seconds f)) || fleb (duration_seconds f) zero))
    (ValueError "invalid scheduled video frame") f.

Record VideoFrameDecision := mkDecision {
  d_frame : ScheduledVideoFrame;
  action : string;
  lateness_seconds : float;
}.

Definition Entry : Type := float * Z * ScheduledVideoFrame.
Definition e_pts (e : Entry) : float := e.1.1.
Definition e_seq (e : Entry) : Z := e.1.2.
Definition e_frame (e : Entry) : ScheduledVideoFrame := e.2.
Definition e_id (e : Entry) : string := frame_id (e_frame e).

(** Tuple comparison; sequence numbers differ, so it never reaches the frame. *)
Definition entry_ltb (a b : Entry) : bool :=
  if feqb (e_pts a) (e_pts b) then e_seq a <? e_seq b else fltb (e_pts a) (e_pts b).

Fixpoint heappush (e : Entry) (h : list Entry) : list Entry :=
  match h with
  | [] => [e]
  | x :: h' => if entry_ltb x e then x :: heappush e h' else e :: x :: h'
  end.

Record VideoFrameScheduler := mkVideo {
  maximum_frames : Z;
  maximum_lateness_seconds : float;
  maximum_reorder_seconds : float;
  heap : list Entry;
  identifiers : gset string;
  cancelled_ids : gset string;
  sequence : Z;
  latest_submitted_pts : float;
  submitted : Z;
  presented : Z;
  late_drops : Z;
  rejected : Z;
  cancelled : Z;
  maximum_lateness : float;
}.

(** [VideoFrameScheduler.__init__] *)
Definition new_video (n : Z) (lateness reorder : float) : res exn VideoFrameScheduler :=
  if negb ((1 <=? n) && (n <=? 65536)) || negb (is_finite lateness) || fltb lateness zero
     || negb (is_finite reorder) || fltb reorder zero
  then Raise (ValueError "invalid video frame scheduler configuration")
  else Ok (mkVideo n lateness reorder [] ∅ ∅ 0 zero 0 0 0 0 0 zero).

(** [submit] *)
Definition submit (f : ScheduledVideoFrame) (s : VideoFrameScheduler) : bool * VideoFrameScheduler :=
  if bool_decide (frame_id f ∈ identifiers s) || (maximum_frames s <=? Z.of_nat (size (identifiers s)))
     || fltb (presentation_seconds f) (fsub (latest_submitted_pts s) (maximum_reorder_seconds s))
  then (false, mkVideo (maximum_frames s) (maximum_lateness_seconds s) (maximum_reorder_seconds s)
          (heap s) (identifiers s) (cancelled_ids s) (sequence s) (latest_submitted_pts s)
          (submitted s) (presented s) (late_drops s) (rejected s + 1) (cancelled s)
          (maximum_lateness s))
  else (true, mkVideo (maximum_frames s) (maximum_lateness_seconds s) (maximum_reorder_seconds s)
          (heappush (presentation_seconds f, sequence s, f) (heap s)) ({[frame_id f]} ∪ identifiers s)
          (cancelled_ids s) (sequence s + 1)
          (fmax (latest_submitted_pts s) (presentation_seconds f))
          (submitted s + 1) (presented s) (late_drops s) (rejected s) (cancelled s)
          (maximum_lateness s)).

(** [cancel] *)
Definition cancel (id : string) (s : VideoFrameScheduler) : bool * VideoFrameScheduler :=
  if bool_decide (id ∉ identifiers s) || bool_decide (id ∈ cancelled_ids s) then (false, s)
  else (true, mkVideo (maximum_frames s) (maximum_lateness_seconds s) (maximum_reorder_seconds s)
          (heap s) (identifiers s) ({[id]} ∪ cancelled_ids s) (sequence s) (latest_submitted_pts s)
          (submitted s) (presented s) (late_drops s) (rejected s) (cancelled s + 1)
          (maximum_lateness s)).

Definition set_queue (h : list Entry) (ids cids : gset string) (s : VideoFrameScheduler)
    : VideoFrameScheduler :=
  mkVideo (maximum_frames s) (maximum_lateness_seconds s) (maximum_reorder_seconds s) h ids cids
    (sequence s) (latest_submitted_pts s) (submitted s) (presented s) (late_drops s) (rejected s)
    (cancelled s) (maximum_lateness s).

(** The decision on a frame whose time has come. *)
Definition decide_frame (pts now : float) (f : ScheduledVideoFrame) (s : VideoFrameScheduler)
    : VideoFrameDecision * VideoFrameScheduler :=
  let lateness := fmax zero (fsub now pts) in
  let maximum := fmax (maximum_lateness s) lateness in
  if fltb (maximum_lateness_seconds s) lateness then
    (mkDecision f "dropped_late" lateness,
     mkVideo (maximum_frames s) (maximum_lateness_seconds s) (maximum_reorder_seconds s) (heap s)
       (identifiers s) (cancelled_ids s) (sequence s) (latest_submitted_pts s) (submitted s)
       (presented s) (late_drops s + 1) (rejected s) (cancelled s) maximum)
  else
    (mkDecision f "present" lateness,
     mkVideo (maximum_frames s) (maximum_lateness_seconds s) (maximum_reorder_seconds s) (heap s)
       (identifiers s) (cancelled_ids s) (sequence s) (latest_submitted_pts s) (submitted s)
       (presented s + 1) (late_drops s) (rejected s) (cancelled s) maximum).

(** The loop of [pop_ready], by recursion on the heap. *)
Fixpoint pop_loop (h : list Entry) (now : float) (s : VideoFrameScheduler)
    : option VideoFrameDecision * VideoFrameScheduler :=
  match h with
  | [] => (None, set_queue [] (identifiers s) (cancelled_ids s) s)
  | e :: h' =>
      if fltb now (e_pts e) then (None, set_queue (e :: h') (identifiers s) (cancelled_ids s) s)
      else
        let ids := identifiers s ∖ {[e_id e]} in
        if bool_decide (e_id e ∈ cancelled_ids s)
        then pop_loop h' now (set_queue h' ids (cancelled_ids s ∖ {[e_id e]}) s)
        else let '(d, s') := decide_frame (e_pts e) now (e_frame e)
                               (set_queue h' ids (cancelled_ids s) s) in
             (Some d, s')
  end.

(** [pop_ready] *)
Definition pop_ready (now : float) : Py VideoFrameScheduler (option VideoFrameDecision) := λ s,
  if negb (is_finite now) || fltb now zero
  then (Raise (ValueError "invalid video media time"), s)
  else let '(d, s') := pop_loop (heap s) now s in (Ok d, s').

(** The loop of [drain_late]; a pass that goes on takes a frame off the heap. *)
Fixpoint drain_loop (fuel : nat) (now : float) : Py VideoFrameScheduler (list VideoFrameDecision) :=
  match fuel with
  | O => ret []
  | S fuel' =>
      let! decision := pop_ready now in
      match decision with
      | None => ret []
      | Some d =>
          if str_eqb (action d) "present" then ret [d]
          else let! ds := drain_loop fuel' now in ret (d :: ds)
      end
  end.

(** [drain_late] *)
Definition drain_late (now : float) : Py VideoFrameScheduler (list VideoFrameDecision) := λ s,
  drain_loop (S (length (heap s))) now s.

(** [snapshot]: depth, submitted, presented, late drops, rejected, cancelled. *)
Definition queue_depth (s : VideoFrameScheduler) : Z :=
  Z.of_nat (size (identifiers s)) - Z.of_nat (size (cancelled_ids s)).
Definition video_snapshot (s : VideoFrameScheduler) : list Z * float :=
  ([queue_depth s; submitted s; presented s; late_drops s; rejected s; cancelled s],
   maximum_lateness s).

(** ** The queue as a list of waiting frames *)

(** The frames that wait and are not cancelled, in order of presentation. *)
Definition active (s : VideoFrameScheduler) : list Entry :=
  filter (λ e, e_id e ∉ cancelled_ids s) (heap s).

Definition entry_lt (a b : Entry) : Prop := entry_ltb a b = true.
Definition timed (e : Entry) : Prop := is_nan (e_pts e) = false.

Lemma entry_lt_key a b :
  timed a → timed b →
  entry_lt a b ↔ lex_lt (key (e_pts a)) (key (e_pts b)) ∨
                 key (e_pts a) = key (e_pts b) ∧ e_seq a < e_seq b.
Proof.
  intros Ha Hb. unfold entry_lt, entry_ltb.
  destruct (feqb (e_pts a) (e_pts b)) eqn:E.
  - apply feqb_key in E; [|done..]. rewrite Z.ltb_lt, E. split; [by right|]. intros [Hlt|[_ ?]]; [|done].
    destruct (key (e_pts b)) as [[? ?] ?]. cbn in Hlt. lia.
  - rewrite fltb_key by done. split; [by left|]. intros [|[Heq _]]; [done|].
    apply (feqb_key (e_pts a) (e_pts b)) in Heq; [congruence|done..].
Qed.

Lemma frame_lt_trans a b c : timed a → timed b → timed c → entry_lt a b → entry_lt b c → entry_lt a c.
Proof.
  intros Ha Hb Hc. rewrite !entry_lt_key by done. intros [H1|[H1 Hs1]] [H2|[H2 Hs2]].
  - left. by eapply lex_trans.
  - left. by rewrite <-H2.
  - left. by rewrite H1.
  - right. split; [congruence|lia].
Qed.

Lemma entry_lt_total a b : timed a → timed b → e_seq a ≠ e_seq b → entry_ltb a b = false → entry_lt b a.
Proof.
  intros Ha Hb Hne Hf. apply not_true_iff_false in Hf. change (¬ entry_lt a b) in Hf.
  rewrite entry_lt_key in Hf |- * by done.
  destruct (lex_total (key (e_pts a)) (key (e_pts b))) as [?|[Heq|?]]; [tauto| |by left].
  right. split; [done|]. destruct (Z.lt_total (e_seq a) (e_seq b)) as [?|[?|?]]; tauto.
Qed.

(** A later entry of a future frame is in the future. *)
Lemma future_mono now a b :
  timed a → timed b → entry_lt a b → fltb now (e_pts a) = true → fltb now (e_pts b) = true.
Proof.
  intros Ha Hb Hlt Hnow. assert (is_nan now = false) as Hn by (by destruct now).
  apply fltb_key in Hnow; [|done..]. apply fltb_key; [done..|].
  apply entry_lt_key in Hlt as [Hlt|[<- _]]; [|done..]. by eapply lex_trans.
Qed.

Lemma elem_of_framepush e h x : x ∈ heappush e h ↔ x = e ∨ x ∈ h.
Proof.
  induction h as [|y h IH]; cbn; [set_solver|]. destruct (entry_ltb y e); set_solver.
Qed.

Lemma framepush_Permutation e h : heappush e h ≡ₚ e :: h.
Proof.
  induction h as [|y h IH]; cbn; [done|]. destruct (entry_ltb y e); [|done].
  rewrite IH. apply Permutation_swap.
Qed.

Lemma framepush_sorted e h :
  timed e → Forall timed h → Forall (λ x, e_seq x ≠ e_seq e) h →
  StronglySorted entry_lt h → StronglySorted entry_lt (heappush e h).
Proof.
  intros He Hh Hseq Hs. induction Hs as [|x h Hs IH Hx]; cbn.
  { repeat constructor. }
  apply Forall_cons in Hh as [Htx Hh], Hseq as [Hsx Hseq].
  destruct (entry_ltb x e) eqn:E.
  - constructor; [by apply IH|]. apply Forall_forall. intros y [->|Hy]%elem_of_framepush; [done|].
    exact (proj1 (Forall_forall _ _) Hx y Hy).
  - assert (entry_lt e x) as Hex by (by apply entry_lt_total).
    constructor; [by constructor|]. constructor; [done|]. apply Forall_forall. intros y Hy.
    apply (frame_lt_trans e x y); try done;
      [exact (proj1 (Forall_forall _ _) Hh y Hy)|exact (proj1 (Forall_forall _ _) Hx y Hy)].
Qed.

Record video_inv (s : VideoFrameScheduler) : Prop := {
  vi_sorted : StronglySorted entry_lt (heap s);
  vi_timed : Forall timed (heap s);
  vi_seq : Forall (λ e, e_seq e < sequence s) (heap s);
  vi_ids : NoDup (e_id <$> heap s) ∧ identifiers s = list_to_set (e_id <$> heap s);
  vi_cancelled : cancelled_ids s ⊆ identifiers s;
  vi_bound : Z.of_nat (size (identifiers s)) <= maximum_frames s;
  vi_counts : submitted s = presented s + late_drops s + cancelled s + queue_depth s;
}.

Inductive video_step : VideoFrameScheduler → VideoFrameScheduler → Prop :=
| vstep_submit f s : frame_check f = Ok f → video_step s (submit f s).2
| vstep_cancel id s : video_step s (cancel id s).2
| vstep_pop now s : video_step s (pop_ready now s).2
| vstep_drain now s : video_step s (drain_late now s).2.

Definition video_reachable (s : VideoFrameScheduler) : Prop :=
  ∃ n lateness reorder s0, new_video n lateness reorder = Ok s0 ∧ rtc video_step s0 s.

Lemma frame_check_timed f q : frame_check f = Ok f → timed (presentation_seconds f, q, f).
Proof.
  unfold frame_check, check. destruct (negb _) eqn:E; [|done]. intros _.
  apply negb_true_iff in E. rewrite !orb_false_iff, !negb_false_iff in E. breflect. unfold timed. cbn.
  destruct E as ((((_ & Hfin) & _) & _) & _). by destruct (presentation_seconds f).
Qed.

Lemma submit_inv f s : video_inv s → frame_check f = Ok f → video_inv (submit f s).2.
Proof.
  intros [Hso Hti Hsq [Hnd Hids] Hca Hbo Hco] Hf. unfold submit.
  destruct (_ || _) eqn:E; [by split|]. rewrite !orb_false_iff in E.
  destruct E as [[Hnew%bool_decide_eq_false Hfull] _]. breflect.
  assert (Hni : frame_id f ∉ e_id <$> heap s) by (rewrite Hids, elem_of_list_to_set in Hnew; done).
  split; cbn.
  - apply framepush_sorted; try done; [by apply frame_check_timed|].
    eapply Forall_impl; [exact Hsq|]. cbn. intros e ?. lia.
  - rewrite framepush_Permutation. constructor; [by apply frame_check_timed|done].
  - rewrite framepush_Permutation. constructor; [cbn; lia|].
    eapply Forall_impl; [exact Hsq|]. cbn. intros e ?. lia.
  - split; [rewrite framepush_Permutation; by constructor|]. rewrite Hids.
    apply set_eq. intros x. rewrite elem_of_union, !elem_of_list_to_set, elem_of_singleton.
    rewrite framepush_Permutation. cbn. by rewrite elem_of_cons.
  - set_solver.
  - rewrite size_union, size_singleton by set_solver. lia.
  - unfold queue_depth in *. cbn. rewrite size_union, size_singleton by set_solver. lia.
Qed.

Lemma video_cancel_inv id s : video_inv s → video_inv (cancel id s).2.
Proof.
  intros [Hso Hti Hsq Hids Hca Hbo Hco]. unfold cancel. destruct (_ || _) eqn:E; [by split|].
  apply orb_false_iff in E as [E1%bool_decide_eq_false E2%bool_decide_eq_false].
  apply dec_stable in E1. split; cbn; try done; [set_solver|].
  unfold queue_depth in *. cbn. rewrite size_union, size_singleton by set_solver. lia.
Qed.

Lemma filter_ext_in {A} (P Q : A → Prop) `{!∀ x, Decision (P x), !∀ x, Decision (Q x)} (l : list A) :
  (∀ x, x ∈ l → P x ↔ Q x) → filter P l = filter Q l.
Proof.
  induction l as [|x l IH]; [done|]. intros Hiff.
  rewrite !filter_cons, IH by (intros; apply Hiff; by right).
  pose proof (Hiff x ltac:(left)). repeat case_decide; tauto.
Qed.

(** Taking the first frame off the heap. *)
Lemma head_id e h s :
  video_inv s → heap s = e :: h →
  e_id e ∈ identifiers s ∧ identifiers s ∖ {[e_id e]} = list_to_set (e_id <$> h) ∧
  size (identifiers s) = S (size (identifiers s ∖ {[e_id e]})).
Proof.
  intros [_ _ _ [Hnd Hids] _ _ _] Hh. rewrite Hh in Hnd, Hids. cbn in *.
  apply NoDup_cons in Hnd as [Hni Hnd].
  assert (Hrest : identifiers s ∖ {[e_id e]} = list_to_set (e_id <$> h)).
  { rewrite Hids. apply set_eq. intros x. rewrite elem_of_difference, elem_of_union, elem_of_singleton,
      elem_of_list_to_set. split; [tauto|]. intros Hx. split; [by right|]. intros ->. done. }
  split_and!; [set_solver|done|]. rewrite Hrest, Hids, size_union, size_singleton; [done|].
  apply elem_of_disjoint. intros x ->%elem_of_singleton. by rewrite elem_of_list_to_set.
Qed.

(** The decision the scheduler owes a frame at a time. *)
Definition decision (s : VideoFrameScheduler) (now : float) (e : Entry) : VideoFrameDecision :=
  let lateness := fmax zero (fsub now (e_pts e)) in
  mkDecision (e_frame e)
    (if fltb (maximum_lateness_seconds s) lateness then "dropped_late" else "present") lateness.

Definition same_config (s s' : VideoFrameScheduler) : Prop :=
  maximum_frames s' = maximum_frames s ∧ maximum_lateness_seconds s' = maximum_lateness_seconds s.

Lemma pop_loop_spec now s :
  video_inv s →
  let '(d, s') := pop_loop (heap s) now s in
  video_inv s' ∧ same_config s s' ∧
  match active s with
  | e :: rest => if fltb now (e_pts e) then d = None ∧ active s' = active s
                 else d = Some (decision s now e) ∧ active s' = rest
  | [] => d = None ∧ active s' = []
  end ∧ (length (heap s') + (if is_some d then 1 else 0) <= length (heap s))%nat.
Proof.
  remember (heap s) as h eqn:Hh. revert s Hh. induction h as [|e h IH]; intros s Hh Hinv; cbn [pop_loop].
  { split; [by destruct Hinv; rewrite <-Hh in *; split|]. split; [done|]. unfold active. rewrite <-Hh. done. }
  destruct (head_id e h s Hinv (eq_sym Hh)) as (Hin & Hrest & Hsize).
  pose proof Hinv as [Hso Hti Hsq [Hnd _] Hca Hbo Hco]. rewrite <-Hh in Hso, Hti, Hsq, Hnd.
  apply StronglySorted_inv in Hso as [Hso Hfirst]. apply Forall_cons in Hti as [Hte Hti], Hsq as [Hsqe Hsq].
  cbn in Hnd. apply NoDup_cons in Hnd as [Hni Hnd].
  assert (Hactive : active s = if decide (e_id e ∉ cancelled_ids s)
                               then e :: filter (λ e, e_id e ∉ cancelled_ids s) h
                               else filter (λ e, e_id e ∉ cancelled_ids s) h).
  { unfold active. rewrite <-Hh. by rewrite filter_cons. }
  destruct (fltb now (e_pts e)) eqn:Enow.
  - split; [|split; [done|split; [|cbn; lia]]].
    + destruct Hinv as [Hso' Hti' Hsq' Hids' _ _ _]. rewrite <-Hh in *. by split.
    + unfold active. cbn [set_queue heap cancelled_ids]. rewrite Hh.
      destruct (filter _ (heap s)) as [|x l] eqn:Ef; [done|].
      assert (fltb now (e_pts x) = true) as ->; [|done].
      assert (Hx : x ∈ x :: l) by left. rewrite <-Ef in Hx. apply list_elem_of_filter in Hx as [_ Hx].
      rewrite <-Hh in Hx. apply elem_of_cons in Hx as [->|Hx]; [done|].
      apply (future_mono now e x); try done;
        [exact (proj1 (Forall_forall _ _) Hti x Hx)|exact (proj1 (Forall_forall _ _) Hfirst x Hx)].
  - destruct (bool_decide (e_id e ∈ cancelled_ids s)) eqn:Ec.
    + apply bool_decide_eq_true in Ec. set (s1 := set_queue h _ _ s).
      assert (Hinv1 : video_inv s1).
      { unfold s1. split; cbn; try done; [set_solver|lia|]. unfold queue_depth in *. cbn.
        rewrite (size_difference (cancelled_ids s)), size_singleton by set_solver.
        assert (1 <= size (cancelled_ids s))%nat; [|lia].
        rewrite <-(size_singleton (C:=gset string) (e_id e)). apply subseteq_size. set_solver. }
      specialize (IH s1 eq_refl Hinv1).
      destruct (pop_loop h now s1) as [d s'] eqn:Epop. destruct IH as (Hinv' & Hcfg & Hact & Hlen).
      split; [done|]. split; [exact Hcfg|]. split; [|cbn; lia].
      assert (active s1 = active s) as Hs1; [|by rewrite Hs1 in Hact].
      rewrite Hactive, decide_False by tauto. unfold active. cbn.
      apply filter_ext_in. intros x Hx. rewrite elem_of_difference, elem_of_singleton.
      assert (e_id x ≠ e_id e); [|tauto]. intros Heq. apply Hni. rewrite <-Heq. by apply list_elem_of_fmap_2.
    + apply bool_decide_eq_false in Ec. set (s1 := set_queue h _ _ s).
      assert (Hs1 : active s1 = filter (λ e, e_id e ∉ cancelled_ids s) h) by done.
      rewrite Hactive, decide_True by done. rewrite Enow. cbn [length].
      unfold decide_frame. fold (decision s now e).
      destruct (fltb (maximum_lateness_seconds s1) _) eqn:Elate; (split; [|split; [done|split; [|cbn; lia]]]).
      2, 4: split; [|exact Hs1]; unfold decision; cbn in Elate; by rewrite Elate.
      all: unfold s1; split; cbn; try done; [set_solver|lia|]; unfold queue_depth in *; cbn; lia.
Qed.
(** What [drain_late] returns: the frames that are too late and the first one that
    is not. *)
Fixpoint drained (s : VideoFrameScheduler) (now : float) (l : list Entry) : list VideoFrameDecision :=
  match l with
  | [] => []
  | e :: l' =>
      if fltb now (e_pts e) then []
      else if str_eqb (action (decision s now e)) "present" then [decision s now e]
      else decision s now e :: drained s now l'
  end.

Lemma drained_config s s' now l : same_config s s' → drained s' now l = drained s now l.
Proof.
  intros [_ Hcfg]. assert (∀ e, decision s' now e = decision s now e) as Hd
    by (intros e; unfold decision; by rewrite Hcfg).
  induction l as [|e l IH]; [done|]. cbn [drained]. by rewrite Hd, IH.
Qed.

Definition valid_time (now : float) : Prop := is_finite now = true ∧ fltb now zero = false.

Lemma pop_ready_valid now s :
  valid_time now → pop_ready now s = (Ok (pop_loop (heap s) now s).1, (pop_loop (heap s) now s).2).
Proof. intros [Hf Hz]. unfold pop_ready. rewrite Hf, Hz. cbn. by destruct (pop_loop _ _ _). Qed.

Lemma drain_loop_spec fuel now s :
  video_inv s → valid_time now → (length (heap s) < fuel)%nat →
  let '(r, s') := drain_loop fuel now s in
  video_inv s' ∧ same_config s s' ∧ r = Ok (drained s now (active s)) ∧
  active s' = drop (length (drained s now (active s))) (active s).
Proof.
  revert s. induction fuel as [|fuel IH]; intros s Hinv Hnow Hfuel; [lia|]. cbn [drain_loop].
  unfold bind at 1. rewrite pop_ready_valid by done. pose proof (pop_loop_spec now s Hinv) as Hpop.
  destruct (pop_loop (heap s) now s) as [d s1]. cbn [fst snd].
  destruct Hpop as (Hinv1 & Hcfg & Hact & Hlen).
  destruct (active s) as [|e rest] eqn:Ea.
  { destruct Hact as [-> Hact]. unfold ret. by rewrite Hact. }
  cbn [drained]. destruct (fltb now (e_pts e)); destruct Hact as [-> Hact].
  { unfold ret. by rewrite Hact. }
  destruct (str_eqb _ _) eqn:Epres; [unfold ret; rewrite Hact; by split_and!|].
  cbn [is_some] in Hlen. specialize (IH s1 Hinv1 Hnow). unfold bind.
  destruct (drain_loop fuel now s1) as [r s2]. destruct IH as (Hinv2 & Hcfg2 & -> & Hact2); [cbn in Hlen; lia|].
  unfold ret. rewrite (drained_config s s1) in * by done. rewrite Hact2, Hact. split_and!; try done.
  destruct Hcfg, Hcfg2. split; congruence.
Qed.

Lemma video_reachable_inv s : video_reachable s → video_inv s.
Proof.
  intros (n & lateness & reorder & s0 & H0 & Hrtc).
  assert (Hs0 : video_inv s0).
  { unfold new_video in H0. destruct (_ || _) eqn:E; [done|]. injection H0 as <-.
    rewrite !orb_false_iff in E. destruct E as [[[[Hn _] _] _] _]. breflect.
    split; cbn; try done; try constructor; rewrite ?size_empty; try lia; constructor. }
  clear H0. induction Hrtc as [s|s s1 s2 Hstep _ IH]; [done|]. apply IH.
  destruct Hstep as [f s Hf|id s|now s|now s].
  - by apply submit_inv.
  - by apply video_cancel_inv.
  - unfold pop_ready. destruct (_ || _); [done|]. pose proof (pop_loop_spec now s Hs0) as Hp.
    destruct (pop_loop _ _ _) as [d s']. apply Hp.
  - unfold drain_late. destruct (is_finite now) eqn:Ef; [destruct (fltb now zero) eqn:Ez|].
    1, 3: cbn [drain_loop]; unfold bind, pop_ready; rewrite Ef, ?Ez; exact Hs0.
    pose proof (drain_loop_spec (S (length (heap s))) now s Hs0 (conj Ef Ez) ltac:(lia)) as Hd.
    destruct (drain_loop _ _ _) as [r s']. apply Hd.
Qed.

Lemma size_active s : video_inv s → Zlen (active s) = queue_depth s.
Proof.
  intros [_ _ _ [Hnd Hids] Hca _ _]. unfold queue_depth, Zlen.
  assert (Hact : identifiers s ∖ cancelled_ids s = list_to_set (e_id <$> active s)).
  { rewrite Hids. apply set_eq. intros x.
    rewrite elem_of_difference, !elem_of_list_to_set, !list_elem_of_fmap. unfold active.
    setoid_rewrite list_elem_of_filter. split.
    - intros ((e & -> & He) & Hx). by exists e.
    - intros (e & -> & Hx & He). split; [by exists e|done]. }
  assert (Hndf : NoDup (e_id <$> active s)).
  { unfold active. clear -Hnd. induction (heap s) as [|e h IH]; [constructor|]. rewrite filter_cons.
    cbn in Hnd. apply NoDup_cons in Hnd as [Hni Hnd]. case_decide; [|by apply IH]. cbn.
    constructor; [|by apply IH]. intros (x & Hx & [_ Hin]%list_elem_of_filter)%list_elem_of_fmap.
    apply Hni. rewrite Hx. by apply list_elem_of_fmap_2. }
  rewrite <-(length_fmap e_id), <-(size_list_to_set (C:=gset string)) by done.
  rewrite <-Hact, size_difference by done. apply subseteq_size in Hca. lia.
Qed.

End payload.

#[global] Arguments ScheduledVideoFrame : clear implicits.
#[global] Arguments VideoFrameScheduler : clear implicits.
#[global] Arguments VideoFrameDecision : clear implicits.
#[global] Arguments Entry : clear implicits.

(** ** Correctness *)

(** C24: live frames are presented in order or dropped late.  In every state
    reachable through the public operations the frames that wait are at most the
    capacity and as many as [queue_depth] says, ordered by presentation time and,
    for equal times, by submission, and every submitted frame is presented,
    dropped, cancelled or waiting.  At a valid time [pop_ready] hands out precisely
    the first waiting frame, when its time has come, marked as dropped iff its
    lateness exceeds the limit, and otherwise nothing; [drain_late] returns, and
    hands out the late frames at the head of the queue and the first frame after
    them that is on time, and nothing else leaves the queue. *)
Theorem video_frames_in_order {T} (s : VideoFrameScheduler T) :
  video_reachable s →
  (StronglySorted entry_lt (active s) ∧ Zlen (active s) = queue_depth s ∧
   queue_depth s <= maximum_frames s ∧
   submitted s = presented s + late_drops s + cancelled s + Zlen (active s)) ∧
  ∀ now, valid_time now →
    (let '(r, s') := pop_ready now s in
     match active s with
     | e :: rest => if fltb now (e_pts e) then r = Ok None ∧ active s' = e :: rest
                    else r = Ok (Some (decision s now e)) ∧ active s' = rest
     | [] => r = Ok None ∧ active s' = []
     end) ∧
    (let '(r, s') := drain_late now s in
     r = Ok (drained s now (active s)) ∧
     active s' = drop (length (drained s now (active s))) (active s)).
Proof.
  intros Hinv%video_reachable_inv. pose proof (size_active s Hinv) as Hsize.
  pose proof Hinv as [Hso Hti Hsq Hids Hca Hbo Hco]. split; [split_and!|].
  - unfold active. clear -Hso. induction Hso as [|e h Hso IH He]; [constructor|]. rewrite filter_cons.
    case_decide; [|done]. constructor; [done|]. apply Forall_forall.
    intros x [_ Hx]%list_elem_of_filter. exact (proj1 (Forall_forall _ _) He x Hx).
  - done.
  - unfold queue_depth in *. lia.
  - lia.
  - intros now Hnow. split.
    + rewrite pop_ready_valid by done. pose proof (pop_loop_spec now s Hinv) as Hp.
      destruct (pop_loop _ _ _) as [d s']. destruct Hp as (_ & _ & Hact & _). cbn.
      destruct (active s) as [|e rest]; [|destruct (fltb now (e_pts e))]; by destruct Hact as [-> ->].
    + unfold drain_late.
      pose proof (drain_loop_spec (S (length (heap s))) now s Hinv Hnow ltac:(lia)) as Hd.
      destruct (drain_loop _ _ _) as [r s']. destruct Hd as (_ & _ & ? & ?). done.
Qed.

Definition demo_frame (id : string) (pts : Z) : ScheduledVideoFrame Z :=
  mkFrame id (of_Z pts) (of_Z 1) pts false.
Definition demo_new : VideoFrameScheduler Z :=
  mkVideo 4 (of_Z 1) (of_Z 10) [] ∅ ∅ 0 zero 0 0 0 0 0 zero.
Definition demo_video : VideoFrameScheduler Z :=
  (submit (demo_frame "b" 3) (submit (demo_frame "a" 7) demo_new).2).2.

Example video_frames_in_order_witness :
  let '(r, s') := pop_ready (of_Z 5) demo_video in
  match active demo_video with
  | e :: rest => if fltb (of_Z 5) (e_pts e) then r = Ok None ∧ active s' = e :: rest
                 else r = Ok (Some (decision demo_video (of_Z 5) e)) ∧ active s' = rest
  | [] => r = Ok None ∧ active s' = []
  end.
Proof.
  assert (Hreach : video_reachable demo_video).
  { exists 4, (of_Z 1), (of_Z 10), demo_new. split; [reflexivity|].
    eapply rtc_l; [by apply (vstep_submit (demo_frame "a" 7))|].
    eapply rtc_l; [by apply (vstep_submit (demo_frame "b" 3))|]. apply rtc_refl. }
  exact (proj1 (proj2 (video_frames_in_order demo_video Hreach) (of_Z 5) (conj eq_refl eq_refl))).
Defined.

Example demo_pop : (pop_ready (of_Z 5) demo_video).1
  = Ok (Some (mkDecision (demo_frame "b" 3) "dropped_late" (of_Z 2))).
Proof. vm_compute. reflexivity. Qed.

End VideoFrames.
