(* ===== verification/SemanticCache.v ===== *)
(** * Semantic anchors and their backend state
      (semantic_cache.py, semantic_state.py, elastic_memory.py)

    [SemanticAnchorCache] is a least-recently-used map from a session and a prefix
    to the metadata of a state the backend holds; [SemanticStateCoordinator] pairs
    it with the backend that owns the states; [ElasticMemoryController] resizes it
    under memory pressure.  The backend is an interface whose operations may raise. *)

From S2P Require Import Prelude Types OrderedDict PyBytes.

Module SemanticCache.
Import OrderedDict PyBytes.

Definition MAX_ANCHOR_ENTRIES : Z := 4096.
Definition MAX_ANCHOR_STATE_BYTES : Z := Z.shiftl 1 40.
Definition MAX_PREFIX_TOKENS : Z := 1048576.
Definition MAX_STATE_HANDLE_BYTES : Z := 512.
Definition MAX_PENDING_RELEASES : Z := 1024.

(** ** Anchors *)

Inductive SemanticAnchorKind := TURN | TOOL_CALL | TOOL_RESULT | THINKING.

Record SemanticAnchor := mkAnchor {
  session_fingerprint : string;
  prefix_fingerprint : string;
  token_position : Z;
  kind : SemanticAnchorKind;
  state_handle : string;
  state_bytes : Z;
}.

(** [_validate_sha256] *)
Definition validate_sha256 (name value : string) : res exn () :=
  if negb (str_len value =? 64) then Raise (ValueError (name +:+ " must be SHA-256"))
  else check (int16_accepts value) (ValueError (name +:+ " must be SHA-256")) ().

(** [SemanticAnchor.__post_init__] *)
Definition anchor_check (a : SemanticAnchor) : res exn () :=
  match validate_sha256 "session fingerprint" (session_fingerprint a) with
  | Raise e => Raise e
  | Ok _ =>
  match validate_sha256 "prefix fingerprint" (prefix_fingerprint a) with
  | Raise e => Raise e
  | Ok _ =>
      if negb ((1 <=? token_position a) && (token_position a <=? MAX_PREFIX_TOKENS))
      then Raise (ValueError "semantic anchor token position is invalid")
      else check (negb (str_eqb (state_handle a) ""
                        || (str_len (state_handle a) >? MAX_STATE_HANDLE_BYTES)
                        || negb ((1 <=? state_bytes a) && (state_bytes a <=? MAX_ANCHOR_STATE_BYTES))))
             (ValueError "semantic anchor state metadata is invalid") ()
  end end.

Abbreviation Key := (string * string)%type.
Definition anchor_key (a : SemanticAnchor) : Key := (session_fingerprint a, prefix_fingerprint a).

(** [semantic_prefix_fingerprint]; the tokens are integers, never booleans. *)
Definition prefix_tag : bytes := ascii_bytes "vllm-apple-semantic-prefix-v1" ++ [0].
Definition semantic_prefix_fingerprint (sha256 : bytes → string) (token_ids : list Z) : res exn string :=
  if bool_decide (token_ids = []) || (Zlen token_ids >? MAX_PREFIX_TOKENS)
     || existsb (λ t, negb ((0 <=? t) && (t <? Z.shiftl 1 64))) token_ids
  then Raise (ValueError "semantic prefix tokens are invalid or unbounded")
  else match concat_bytes 8 token_ids with
       | Ok l => Ok (sha256 (prefix_tag ++ l))
       | Raise e => Raise e
       end.

(** ** The cache *)

Record SemanticAnchorCache := mkCache {
  capacity_entries : Z;
  capacity_bytes : Z;
  resident_bytes : Z;
  evictions : Z;
  entries : list (Key * SemanticAnchor);
}.

(** [_validate_capacity] *)
Definition validate_capacity (n b : Z) : res exn () :=
  check ((1 <=? n) && (n <=? MAX_ANCHOR_ENTRIES) && (1 <=? b) && (b <=? MAX_ANCHOR_STATE_BYTES))
    (ValueError "semantic cache capacity is invalid") ().

(** [SemanticAnchorCache.__init__] *)
Definition new_cache (n b : Z) : res exn SemanticAnchorCache :=
  match validate_capacity n b with
  | Raise e => Raise e
  | Ok _ => Ok (mkCache n b 0 0 [])
  end.

(** The loop of [_evict_to_budget] over the entries [es]; [popitem] of an empty
    dictionary raises. *)
Fixpoint evict_loop (n b : Z) (es : list (Key * SemanticAnchor)) (resident evictions : Z)
    (evicted : list SemanticAnchor) : res exn (list SemanticAnchor) * SemanticAnchorCache :=
  if (Zlen es >? n) || (resident >? b) then
    match es with
    | [] => (Raise (KeyError "dictionary is empty"), mkCache n b resident evictions [])
    | (_, a) :: es' =>
        evict_loop n b es' (resident - state_bytes a) (evictions + 1) (evicted ++ [a])
    end
  else (Ok evicted, mkCache n b resident evictions es).

(** [_evict_to_budget] *)
Definition evict_to_budget : Py SemanticAnchorCache (list SemanticAnchor) := λ c,
  evict_loop (capacity_entries c) (capacity_bytes c) (entries c) (resident_bytes c) (evictions c) [].

(** [SemanticAnchorCache.put] *)
Definition anchor_put (a : SemanticAnchor) : Py SemanticAnchorCache (list SemanticAnchor) := λ c,
  if state_bytes a >? capacity_bytes c
  then (Raise (ValueError "semantic anchor exceeds cache byte capacity"), c)
  else
    let previous := od_get (anchor_key a) (entries c) in
    let es := od_del (anchor_key a) (entries c) in
    let resident := match previous with
                    | Some p => resident_bytes c - state_bytes p
                    | None => resident_bytes c end in
    let evicted := match previous with
                   | Some p => if str_eqb (state_handle p) (state_handle a) then [] else [p]
                   | None => [] end in
    let c1 := mkCache (capacity_entries c) (capacity_bytes c) (resident + state_bytes a) (evictions c)
                (od_set (anchor_key a) a es) in
    (let! more := evict_to_budget in ret (evicted ++ more)) c1.

(** The boundary checks of [deepest_reusable], with the previous position. *)
Definition check_boundary (previous : Z) (b : Z * string) : res exn Z :=
  if negb ((previous <? b.1) && (b.1 <=? MAX_PREFIX_TOKENS))
  then Raise (ValueError "semantic prefix boundaries must be strictly increasing")
  else match validate_sha256 "prefix fingerprint" b.2 with Ok _ => Ok b.1 | Raise e => Raise e end.

(** The search of [deepest_reusable] over the reversed boundaries. *)
Fixpoint search_boundaries (session : string) (bs : list (Z * string))
    (es : list (Key * SemanticAnchor)) : option (Key * SemanticAnchor) :=
  match bs with
  | [] => None
  | (position, fingerprint) :: bs' =>
      match od_get (session, fingerprint) es with
      | Some a =>
          if token_position a =? position then Some ((session, fingerprint), a)
          else search_boundaries session bs' es
      | None => search_boundaries session bs' es
      end
  end.

Definition set_entries (es : list (Key * SemanticAnchor)) (c : SemanticAnchorCache) :=
  mkCache (capacity_entries c) (capacity_bytes c) (resident_bytes c) (evictions c) es.

(** [SemanticAnchorCache.deepest_reusable] *)
Definition deepest_reusable (session : string) (boundaries : list (Z * string))
    : Py SemanticAnchorCache (option SemanticAnchor) := λ c,
  match validate_sha256 "session fingerprint" session with
  | Raise e => (Raise e, c)
  | Ok _ =>
  match fold_res check_boundary boundaries 0 with
  | Raise e => (Raise e, c)
  | Ok _ =>
      match search_boundaries session (rev boundaries) (entries c) with
      | Some (key, a) => (Ok (Some a), set_entries (od_move_to_end key (entries c)) c)
      | None => (Ok None, c)
      end
  end end.

(** [SemanticAnchorCache.resize] *)
Definition cache_resize (n b : Z) : Py SemanticAnchorCache (list SemanticAnchor) := λ c,
  match validate_capacity n b with
  | Raise e => (Raise e, c)
  | Ok _ => evict_to_budget (mkCache n b (resident_bytes c) (evictions c) (entries c))
  end.

(** [SemanticAnchorCache.discard] *)
Definition discard (session prefix : string) : Py SemanticAnchorCache (option SemanticAnchor) := λ c,
  match validate_sha256 "session fingerprint" session with
  | Raise e => (Raise e, c)
  | Ok _ =>
  match validate_sha256 "prefix fingerprint" prefix with
  | Raise e => (Raise e, c)
  | Ok _ =>
      match od_get (session, prefix) (entries c) with
      | None => (Ok None, c)
      | Some a => (Ok (Some a), mkCache (capacity_entries c) (capacity_bytes c)
                                  (resident_bytes c - state_bytes a) (evictions c)
                                  (od_del (session, prefix) (entries c)))
      end
  end end.

(** [SemanticAnchorCache.clear] *)
Definition cache_clear (c : SemanticAnchorCache) : list SemanticAnchor * SemanticAnchorCache :=
  ((entries c).*2, mkCache (capacity_entries c) (capacity_bytes c) 0
                     (evictions c + Zlen (entries c)) []).

(** [SemanticAnchorCache.snapshot] *)
Record SemanticCacheSnapshot := mkCacheSnapshot {
  cs_capacity_entries : Z;
  cs_capacity_bytes : Z;
  cs_entry_count : Z;
  cs_resident_bytes : Z;
  cs_evictions : Z;
}.
Definition cache_snapshot (c : SemanticAnchorCache) : SemanticCacheSnapshot :=
  mkCacheSnapshot (capacity_entries c) (capacity_bytes c) (Zlen (entries c)) (resident_bytes c)
    (evictions c).

(** ** The coordinator *)

Record BackendStateReference := mkReference { handle : string; ref_state_bytes : Z }.

(** [SemanticStateBackend]: the operations of the backend, over its own state. *)
Record SemanticStateBackend (W : Type) := mkBackend {
  capture_semantic_state :
    string → string → Z → SemanticAnchorKind → Py W (option BackendStateReference);
  restore_semantic_state : string → Py W bool;
  release_semantic_state : string → Py W ();
}.
Arguments mkBackend {W}.
Arguments capture_semantic_state {W}.
Arguments restore_semantic_state {W}.
Arguments release_semantic_state {W}.

Record SemanticRestoreResult := mkRestore {
  reused : bool;
  restored_position : option Z;
  restored_kind : option SemanticAnchorKind;
}.

Record SemanticStateCoordinator (W : Type) := mkCoordinator {
  cache : SemanticAnchorCache;
  captures : Z;
  hits : Z;
  misses : Z;
  restore_failures : Z;
  release_failures : Z;
  dropped_release_handles : Z;
  pending : list (string * ());
  world : W;
}.
Arguments mkCoordinator {W}.
Arguments cache {W}.
Arguments captures {W}.
Arguments hits {W}.
Arguments misses {W}.
Arguments restore_failures {W}.
Arguments release_failures {W}.
Arguments dropped_release_handles {W}.
Arguments pending {W}.
Arguments world {W}.

(** [SemanticStateCoordinator.__init__] *)
Definition new_coordinator {W} (c : SemanticAnchorCache) (w : W) : SemanticStateCoordinator W :=
  mkCoordinator c 0 0 0 0 0 0 [] w.

Section coordinator.
Context {W : Type} (backend : SemanticStateBackend W).
(** The optional event publisher, with the event name, the anchor and the number
    of evicted anchors of its payload. *)
Context (event_publisher : option (string → SemanticAnchor → Z → Py W ())).

Abbreviation Coordinator := (SemanticStateCoordinator W).

Definition on_world {A} (m : Py W A) : Py Coordinator A :=
  zoom world (λ w s, mkCoordinator (cache s) (captures s) (hits s) (misses s) (restore_failures s)
                       (release_failures s) (dropped_release_handles s) (pending s) w) m.
Definition on_cache {A} (m : Py SemanticAnchorCache A) : Py Coordinator A :=
  zoom cache (λ c s, mkCoordinator c (captures s) (hits s) (misses s) (restore_failures s)
                       (release_failures s) (dropped_release_handles s) (pending s) (world s)) m.

(** The increments of the counters. *)
Definition count (dc dh dm df : Z) (s : Coordinator) : Coordinator :=
  mkCoordinator (cache s) (captures s + dc) (hits s + dh) (misses s + dm) (restore_failures s + df)
    (release_failures s) (dropped_release_handles s) (pending s) (world s).

(** [while len(pending) > MAX_PENDING_RELEASES: popitem(last=False); dropped += 1] *)
Fixpoint drop_oldest (p : list (string * ())) (dropped : Z) : list (string * ()) * Z :=
  match p with
  | [] => ([], dropped)
  | _ :: p' => if Zlen p >? MAX_PENDING_RELEASES then drop_oldest p' (dropped + 1) else (p, dropped)
  end.

(** [_release_handle] *)
Definition release_handle (h : string) : Py Coordinator () :=
  catch (on_world (release_semantic_state backend h))
    (λ _, modify (λ s,
       let '(p, dropped) :=
         drop_oldest (od_move_to_end h (od_set h () (pending s))) (dropped_release_handles s) in
       mkCoordinator (cache s) (captures s) (hits s) (misses s) (restore_failures s)
         (release_failures s + 1) dropped p (world s))).

(** [_release] *)
Fixpoint release_anchors (l : list SemanticAnchor) : Py Coordinator () :=
  match l with
  | [] => ret ()
  | a :: l' => release_handle (state_handle a) ;;; release_anchors l'
  end.

(** [_publish] *)
Definition publish (name : string) (a : SemanticAnchor) (evicted : Z) : Py Coordinator () :=
  match event_publisher with
  | None => ret ()
  | Some f => on_world (f name a evicted)
  end.

(** [SemanticStateCoordinator.capture] *)
Definition capture (session prefix : string) (position : Z) (k : SemanticAnchorKind)
    : Py Coordinator (option SemanticAnchor) :=
  let! reference := on_world (capture_semantic_state backend session prefix position k) in
  match reference with
  | None => ret None
  | Some r =>
      let a := mkAnchor session prefix position k (handle r) (ref_state_bytes r) in
      let! evicted :=
        catch (let! _ := lift (anchor_check a) in on_cache (anchor_put a))
          (λ e, release_handle (handle r) ;;; raise e) in
      release_anchors evicted ;;;
      modify (count 1 0 0 0) ;;;
      publish "semantic_cache.capture" a (Zlen evicted) ;;;
      ret (Some a)
  end.

(** [SemanticStateCoordinator.restore_deepest] *)
Definition restore_deepest (session : string) (boundaries : list (Z * string))
    : Py Coordinator SemanticRestoreResult :=
  let! found := on_cache (deepest_reusable session boundaries) in
  match found with
  | None => modify (count 0 0 1 0) ;;; ret (mkRestore false None None)
  | Some a =>
      let! restored := on_world (restore_semantic_state backend (state_handle a)) in
      if (restored : bool) then
        modify (count 0 1 0 0) ;;;
        publish "semantic_cache.hit" a 0 ;;;
        ret (mkRestore true (Some (token_position a)) (Some (kind a)))
      else
        let! removed := on_cache (discard (session_fingerprint a) (prefix_fingerprint a)) in
        match removed with Some r => release_anchors [r] | None => ret () end ;;;
        modify (count 0 0 1 1) ;;;
        ret (mkRestore false None None)
  end.

(** [SemanticStateCoordinator.resize] *)
Definition coordinator_resize (n b : Z) : Py Coordinator Z :=
  let! evicted := on_cache (cache_resize n b) in
  release_anchors evicted ;;;
  ret (Zlen evicted).

Definition forget_pending (h : string) (s : Coordinator) : Coordinator :=
  mkCoordinator (cache s) (captures s) (hits s) (misses s) (restore_failures s) (release_failures s)
    (dropped_release_handles s) (od_del h (pending s)) (world s).

(** The loop of [retry_pending_releases] over the handles read at its start.  The lock
    is not held between the reading and the releases: [others] is what other threads do
    before each of them. *)
Fixpoint retry_loop (others : list (Coordinator → Coordinator)) (handles : list string) (released : Z)
    : Py Coordinator Z :=
  match handles with
  | [] => ret released
  | h :: handles' =>
      match others with f :: _ => modify f | [] => ret () end ;;;
      let! ok := catch (on_world (release_semantic_state backend h) ;;; ret true) (λ _, ret false) in
      if (ok : bool) then modify (forget_pending h) ;;; retry_loop (tail others) handles' (released + 1)
      else retry_loop (tail others) handles' released
  end.

(** [SemanticStateCoordinator.retry_pending_releases] *)
Definition retry_pending_releases (others : list (Coordinator → Coordinator)) : Py Coordinator Z :=
  let! s := get in retry_loop others (pending s).*1 0.

(** [SemanticStateCoordinator.close] *)
Definition coordinator_close (others : list (Coordinator → Coordinator)) : Py Coordinator () :=
  let! gone := on_cache (λ c, let '(l, c') := cache_clear c in (Ok l, c')) in
  release_anchors gone ;;;
  retry_pending_releases others ;;;
  ret ().

(** [SemanticStateCoordinator.snapshot], without the constant [enabled]. *)
Definition coordinator_snapshot (s : Coordinator) : list (string * Z) :=
  let c := cache_snapshot (cache s) in
  [("capacity_entries", cs_capacity_entries c); ("capacity_bytes", cs_capacity_bytes c);
   ("entry_count", cs_entry_count c); ("resident_bytes", cs_resident_bytes c);
   ("evictions", cs_evictions c); ("captures", captures s); ("hits", hits s);
   ("misses", misses s); ("restore_failures", restore_failures s);
   ("release_failures", release_failures s); ("pending_releases", Zlen (pending s));
   ("dropped_release_handles", dropped_release_handles s)].

End coordinator.

(** ** The elastic controller *)

Record ElasticMemoryController (W : Type) := mkElastic {
  semantic_state : SemanticStateCoordinator W;
  normal_entries : Z;
  normal_bytes : Z;
  current_pressure : MemoryPressure;
  pending_pressure : option MemoryPressure;
  adjustments : Z;
  deferred : Z;
  last_evicted : Z;
}.
Arguments mkElastic {W}.
Arguments semantic_state {W}.
Arguments normal_entries {W}.
Arguments normal_bytes {W}.
Arguments current_pressure {W}.
Arguments pending_pressure {W}.
Arguments adjustments {W}.
Arguments deferred {W}.
Arguments last_evicted {W}.

Record ElasticMemoryDecision := mkDecision {
  decision_pressure : MemoryPressure;
  decision_status : string;
  target_entries : Z;
  target_bytes : Z;
  evicted_entries : Z;
}.

(** [ElasticMemoryDecision.__post_init__] *)
Definition decision_check (d : ElasticMemoryDecision) : res exn ElasticMemoryDecision :=
  if negb (bool_decide (decision_status d ∈ ["applied"; "deferred"; "ignored"]))
  then Raise (ValueError "elastic memory decision status is invalid")
  else check (negb ((target_entries d <? 0) || (target_bytes d <? 0) || (evicted_entries d <? 0)))
         (ValueError "elastic memory decision values are invalid") d.

(** [ElasticMemoryController._target] *)
Definition target (n b : Z) (p : MemoryPressure) : Z * Z :=
  let divisor := match p with
                 | MP_NORMAL | MP_UNKNOWN => 1
                 | MP_WARNING => 2
                 | MP_CRITICAL => 8
                 end in
  (Z.max 1 (n / divisor), Z.max 1 (b / divisor)).

Section elastic.
Context {W : Type} (backend : SemanticStateBackend W).
Abbreviation Controller := (ElasticMemoryController W).

(** [ElasticMemoryController.__init__] *)
Definition new_elastic (s : SemanticStateCoordinator W) : res exn Controller :=
  let n := capacity_entries (cache s) in
  let b := capacity_bytes (cache s) in
  if (n <=? 0) || (b <=? 0)
  then Raise (ValueError "elastic memory controller requires an enabled cache")
  else Ok (mkElastic s n b MP_NORMAL None 0 0 0).

Definition on_state {A} (m : Py (SemanticStateCoordinator W) A) : Py Controller A :=
  zoom semantic_state (λ s e, mkElastic s (normal_entries e) (normal_bytes e) (current_pressure e)
                                (pending_pressure e) (adjustments e) (deferred e) (last_evicted e)) m.

(** [ElasticMemoryController.request] *)
Definition request (p : MemoryPressure) (safe_to_apply : bool) : Py Controller ElasticMemoryDecision :=
  let! e := get in
  let '(n, b) := target (normal_entries e) (normal_bytes e) p in
  if bool_decide (p = MP_UNKNOWN) then lift (decision_check (mkDecision p "ignored" n b 0))
  else if negb safe_to_apply then
    modify (λ e, mkElastic (semantic_state e) (normal_entries e) (normal_bytes e) (current_pressure e)
                   (Some p) (adjustments e) (deferred e + 1) (last_evicted e)) ;;;
    lift (decision_check (mkDecision p "deferred" n b 0))
  else
    let! evicted := on_state (coordinator_resize backend n b) in
    modify (λ e, mkElastic (semantic_state e) (normal_entries e) (normal_bytes e) p None
                   (adjustments e + 1) (deferred e) evicted) ;;;
    lift (decision_check (mkDecision p "applied" n b evicted)).

(** [ElasticMemoryController.apply_pending] *)
Definition apply_pending (safe_to_apply : bool) : Py Controller (option ElasticMemoryDecision) :=
  let! e := get in
  match pending_pressure e with
  | None => ret None
  | Some p =>
      if negb safe_to_apply then
        let '(n, b) := target (normal_entries e) (normal_bytes e) p in
        let! d := lift (decision_check (mkDecision p "deferred" n b 0)) in ret (Some d)
      else let! d := request p safe_to_apply in ret (Some d)
  end.

(** The numbers of [ElasticMemoryController.snapshot]. *)
Definition elastic_snapshot (e : Controller) : list (string * Z) :=
  let c := cache_snapshot (cache (semantic_state e)) in
  [("normal_capacity_entries", normal_entries e); ("normal_capacity_bytes", normal_bytes e);
   ("current_capacity_entries", cs_capacity_entries c);
   ("current_capacity_bytes", cs_capacity_bytes c); ("adjustments", adjustments e);
   ("deferred_adjustments", deferred e); ("last_evicted_entries", last_evicted e)].
End elastic.

(** ** The cache is a bounded least-recently-used map *)

Abbreviation bytes_of := (od_sum state_bytes).

Record cache_inv (c : SemanticAnchorCache) : Prop := {
  ci_wf : od_wf (entries c);
  ci_key : ∀ k a, (k, a) ∈ entries c → k = anchor_key a ∧ anchor_check a = Ok ();
  ci_bytes : resident_bytes c = bytes_of (entries c);
  ci_entries_bound : Zlen (entries c) <= capacity_entries c;
  ci_bytes_bound : resident_bytes c <= capacity_bytes c;
  ci_capacity : validate_capacity (capacity_entries c) (capacity_bytes c) = Ok ();
}.

Lemma capacity_pos n b : validate_capacity n b = Ok () → 1 <= n ∧ 1 <= b.
Proof. unfold validate_capacity, check. intros H. run_cases H. breflect. lia. Qed.

Lemma anchor_check_bytes a : anchor_check a = Ok () → 1 <= state_bytes a ∧ state_handle a ≠ "".
Proof.
  unfold anchor_check, check. intros H. run_cases H. breflect. unfold str_eqb in *. breflect.
  split; [lia|done].
Qed.

(** The loop evicts from the old end, reports what it evicted in order, keeps the
    accounting, never runs out of entries, and evicts an entry only when keeping
    it and all later ones would exceed a limit. *)
Lemma evict_loop_spec n b es ev out :
  0 <= n → 0 <= b →
  ∃ gone kept, es = gone ++ kept ∧
    evict_loop n b es (bytes_of es) ev out =
      (Ok (out ++ gone.*2), mkCache n b (bytes_of kept) (ev + Zlen gone) kept) ∧
    Zlen kept <= n ∧ bytes_of kept <= b ∧
    (∀ g1 p g2, gone = g1 ++ p :: g2 →
       n < Zlen (p :: g2 ++ kept) ∨ b < bytes_of (p :: g2 ++ kept)).
Proof.
  intros Hn Hb. revert ev out. induction es as [|[k a] es IH]; intros ev out; cbn [evict_loop].
  - exists [], []. change (bytes_of []) with 0. change (Zlen (@nil (Key * SemanticAnchor))) with 0.
    destruct (_ || _) eqn:E; [rewrite orb_true_iff, !Z.gtb_lt in E; lia|].
    split_and!; try done. { by rewrite app_nil_r, Z.add_0_r. } intros g1 p g2 Hg. by destruct g1.
  - destruct (_ || _) eqn:E.
    + rewrite od_sum_cons. cbn [snd].
      replace (state_bytes a + bytes_of es - state_bytes a) with (bytes_of es) by lia.
      destruct (IH (ev + 1) (out ++ [a])) as (gone & kept & -> & Heq & Hl & Hs & Hg). rewrite Heq.
      exists ((k, a) :: gone), kept. split_and!; try done.
      { rewrite <-app_assoc. f_equal. f_equal. unfold Zlen. cbn. lia. }
      intros [|p1 g1] p g2 Hsplit; cbn in Hsplit; [|injection Hsplit as _ Hsplit; by eapply Hg].
      injection Hsplit as <- <-. rewrite orb_true_iff, !Z.gtb_lt in E.
      change (state_bytes a + bytes_of (gone ++ kept)) with (bytes_of ((k, a) :: gone ++ kept)) in E.
      destruct E; [by left|by right].
    + exists [], ((k, a) :: es). apply orb_false_iff in E as [E1 E2]. breflect.
      split_and!; try done. { by rewrite app_nil_r, Z.add_0_r. }
      intros g1 p g2 Hg. by destruct g1.
Qed.

Lemma cache_inv_evict n b es ev :
  validate_capacity n b = Ok () → od_wf es →
  (∀ k a, (k, a) ∈ es → k = anchor_key a ∧ anchor_check a = Ok ()) →
  ∃ gone kept, es = gone ++ kept ∧
    evict_loop n b es (bytes_of es) ev [] = (Ok gone.*2, mkCache n b (bytes_of kept) (ev + Zlen gone) kept) ∧
    cache_inv (mkCache n b (bytes_of kept) (ev + Zlen gone) kept) ∧
    (∀ g1 p g2, gone = g1 ++ p :: g2 →
       n < Zlen (p :: g2 ++ kept) ∨ b < bytes_of (p :: g2 ++ kept)).
Proof.
  intros Hcap Hwf Hkey. destruct (capacity_pos _ _ Hcap) as [Hn Hb].
  destruct (evict_loop_spec n b es ev [] ltac:(lia) ltac:(lia)) as (gone & kept & -> & Heq & Hl & Hs & Hg).
  exists gone, kept. split_and!; try done. split; cbn; try done.
  - unfold od_wf in *. rewrite fmap_app in Hwf. by apply NoDup_app in Hwf as (_ & _ & ?).
  - intros k a Hin. apply Hkey. apply elem_of_app. by right.
Qed.

Lemma new_anchor_cache_inv n b c : new_cache n b = Ok c → cache_inv c.
Proof.
  unfold new_cache. destruct (validate_capacity n b) as [[]|] eqn:E; [|done]. intros [= <-].
  destruct (capacity_pos _ _ E). split; cbn; try done; try lia.
  - constructor.
  - intros k a Hin. by apply elem_of_nil in Hin.
  - unfold Zlen. cbn. lia.
Qed.

(** An entry that fits alone is not evicted when it is the last. *)
Lemma kept_last gone kept k a es n b :
  es ++ [(k, a)] = gone ++ kept → 1 <= n → state_bytes a <= b →
  (∀ g1 (p : Key * SemanticAnchor) g2, gone = g1 ++ p :: g2 →
     n < Zlen (p :: g2 ++ kept) ∨ b < bytes_of (p :: g2 ++ kept)) →
  ∃ kept', kept = kept' ++ [(k, a)].
Proof.
  intros Heq Hn Hb Hg. destruct kept as [|p kept _] using rev_ind.
  - rewrite app_nil_r in Heq. destruct (Hg es (k, a) [] ltac:(done)) as [H|H]; [unfold Zlen in H; cbn in H; lia|].
    change (bytes_of ((k, a) :: [] ++ [])) with (state_bytes a + 0) in H. lia.
  - rewrite app_assoc in Heq. apply app_inj_tail in Heq as [_ <-]. by exists kept.
Qed.

(** What [put] does to the entries before it evicts. *)
Definition stored (a : SemanticAnchor) (c : SemanticAnchorCache) : list (Key * SemanticAnchor) :=
  od_del (anchor_key a) (entries c) ++ [(anchor_key a, a)].

(** The anchor [put] replaces, when its state is another one. *)
Definition replaced (a : SemanticAnchor) (c : SemanticAnchorCache) : list SemanticAnchor :=
  match od_get (anchor_key a) (entries c) with
  | Some p => if str_eqb (state_handle p) (state_handle a) then [] else [p]
  | None => []
  end.

Lemma anchor_put_spec a c :
  cache_inv c → anchor_check a = Ok () →
  if state_bytes a >? capacity_bytes c
  then anchor_put a c = (Raise (ValueError "semantic anchor exceeds cache byte capacity"), c)
  else ∃ gone kept, stored a c = gone ++ (kept ++ [(anchor_key a, a)]) ∧
    (anchor_put a c).1 = Ok (replaced a c ++ gone.*2) ∧
    entries (anchor_put a c).2 = kept ++ [(anchor_key a, a)] ∧
    evictions (anchor_put a c).2 = evictions c + Zlen gone ∧
    cache_inv (anchor_put a c).2 ∧
    (∀ g1 p g2, gone = g1 ++ p :: g2 →
       capacity_entries c < Zlen (p :: g2 ++ entries (anchor_put a c).2) ∨
       capacity_bytes c < bytes_of (p :: g2 ++ entries (anchor_put a c).2)).
Proof.
  intros Hc Ha. destruct (_ >? _) eqn:E; unfold anchor_put; rewrite E; [done|]. breflect.
  pose proof (ci_wf _ Hc) as Hwf. destruct (anchor_check_bytes _ Ha) as [Hpos _].
  assert (Hset : od_set (anchor_key a) a (od_del (anchor_key a) (entries c)) = stored a c)
    by (apply od_set_new; by apply od_get_del).
  assert (Hres : match od_get (anchor_key a) (entries c) with
                 | Some p => resident_bytes c - state_bytes p | None => resident_bytes c end
                 + state_bytes a = bytes_of (stored a c)).
  { unfold stored. rewrite od_sum_snoc, (ci_bytes _ Hc). destruct (od_get _ _) as [p|] eqn:Ep.
    - by rewrite (od_sum_del _ _ _ _ Ep).
    - by rewrite od_del_None. }
  assert (Hswf : od_wf (stored a c)) by (apply od_wf_snoc; [by apply od_wf_del|by apply od_get_del]).
  assert (Hkey : ∀ k b, (k, b) ∈ stored a c → k = anchor_key b ∧ anchor_check b = Ok ()).
  { intros k b [Hin|Hin]%elem_of_app.
    - apply (ci_key _ Hc). apply od_get_iff in Hin; [|by apply od_wf_del]. apply od_get_elem.
      destruct (decide (anchor_key a = k)) as [<-|]; [by rewrite od_get_del in Hin|].
      by rewrite od_get_del_ne in Hin.
    - apply list_elem_of_singleton in Hin. by simplify_eq. }
  destruct (cache_inv_evict _ _ (stored a c) (evictions c) (ci_capacity _ Hc) Hswf Hkey)
    as (gone & kept & Hsplit & Heq & Hinv & Hg).
  unfold bind, evict_to_budget. cbn [capacity_entries capacity_bytes entries resident_bytes evictions].
  rewrite Hset, Hres, Heq. cbn [fst snd ret].
  (* the new anchor fits alone, so it is kept *)
  destruct (capacity_pos _ _ (ci_capacity _ Hc)) as [Hn _].
  destruct (kept_last gone kept _ _ _ _ _ Hsplit Hn E Hg) as [kept' ->].
  by exists gone, kept'.
Qed.

Lemma anchor_resize_spec n b c :
  cache_inv c →
  match validate_capacity n b with
  | Raise e => cache_resize n b c = (Raise e, c)
  | Ok _ => ∃ gone kept, entries c = gone ++ kept ∧
      cache_resize n b c = (Ok gone.*2, mkCache n b (bytes_of kept) (evictions c + Zlen gone) kept) ∧
      cache_inv (cache_resize n b c).2 ∧
      (∀ g1 p g2, gone = g1 ++ p :: g2 →
         n < Zlen (p :: g2 ++ kept) ∨ b < bytes_of (p :: g2 ++ kept))
  end.
Proof.
  intros Hc. unfold cache_resize. destruct (validate_capacity n b) as [[]|] eqn:E; [|done].
  unfold evict_to_budget. cbn [capacity_entries capacity_bytes entries resident_bytes evictions].
  rewrite (ci_bytes _ Hc).
  destruct (cache_inv_evict n b (entries c) (evictions c) E (ci_wf _ Hc) (ci_key _ Hc))
    as (gone & kept & Hs & Heq & Hinv & Hg).
  exists gone, kept. by rewrite Heq.
Qed.

(** ** The deepest boundary *)

(** The positions of acceptable boundaries increase from above [previous]. *)
Fixpoint boundaries_ok (previous : Z) (bs : list (Z * string)) : Prop :=
  match bs with
  | [] => True
  | (p, f) :: bs' =>
      previous < p <= MAX_PREFIX_TOKENS ∧ validate_sha256 "prefix fingerprint" f = Ok () ∧
      boundaries_ok p bs'
  end.

Lemma check_boundaries bs : ∀ previous,
  is_ok (fold_res check_boundary bs previous) ↔ boundaries_ok previous bs.
Proof.
  induction bs as [|[p f] bs IH]; intros previous; cbn [fold_res boundaries_ok]; [done|].
  unfold check_boundary at 1. cbn [fst snd].
  destruct (negb _) eqn:E; cbn.
  { split; [done|]. intros [H _]. rewrite negb_true_iff, andb_false_iff, Z.ltb_ge, Z.leb_gt in E. lia. }
  breflect. destruct (validate_sha256 _ f) as [[]|].
  - rewrite IH. intuition lia.
  - split; [done|]. by intros (_ & ? & _).
Qed.

(** A boundary whose prefix is cached at its position. *)
Definition matches (session : string) (es : list (Key * SemanticAnchor)) (b : Z * string)
    (a : SemanticAnchor) : Prop :=
  od_get (session, b.2) es = Some a ∧ token_position a = b.1.

Lemma boundary_search_spec session es bs :
  match search_boundaries session bs es with
  | Some (k, a) => ∃ b1 b b2, bs = b1 ++ b :: b2 ∧ k = (session, b.2) ∧ matches session es b a ∧
      ∀ b' a', b' ∈ b1 → ¬ matches session es b' a'
  | None => ∀ b' a', b' ∈ bs → ¬ matches session es b' a'
  end.
Proof.
  induction bs as [|[p f] bs IH]; cbn [search_boundaries]; [intros b' a' []%elem_of_nil|].
  assert (Hno : (∀ a', ¬ matches session es (p, f) a') → ∀ b1 : list (Z * string),
    (∀ b' a', b' ∈ b1 → ¬ matches session es b' a') →
    ∀ b' a', b' ∈ (p, f) :: b1 → ¬ matches session es b' a').
  { intros H1 b1 H2 b' a' [->|Hin]%elem_of_cons; [apply H1|by apply H2]. }
  destruct (od_get (session, f) es) as [a|] eqn:Ea; [destruct (token_position a =? p) eqn:Ep|].
  - breflect. exists [], (p, f), bs. split_and!; try done. intros b' a' []%elem_of_nil.
  - assert (H1 : ∀ a', ¬ matches session es (p, f) a').
    { intros a' [Ha Hp]. cbn in Ha, Hp. breflect. congruence. }
    destruct (search_boundaries session bs es) as [[k a1]|]; [|by apply Hno].
    destruct IH as (b1 & b & b2 & -> & Hk & Hm & Hb). exists ((p, f) :: b1), b, b2.
    split_and!; try done. by apply Hno.
  - assert (H1 : ∀ a', ¬ matches session es (p, f) a') by (intros a' [Ha _]; cbn in Ha; congruence).
    destruct (search_boundaries session bs es) as [[k a1]|]; [|by apply Hno].
    destruct IH as (b1 & b & b2 & -> & Hk & Hm & Hb). exists ((p, f) :: b1), b, b2.
    split_and!; try done. by apply Hno.
Qed.

Lemma deepest_inv session bs c : cache_inv c → cache_inv (deepest_reusable session bs c).2.
Proof.
  intros Hc. unfold deepest_reusable. destruct (validate_sha256 _ _) as [[]|]; [|done].
  destruct (fold_res _ _ _) as [?|]; [|done]. destruct (search_boundaries _ _ _) as [[k x]|]; [|done].
  destruct Hc as [Hwf Hk Hb Hn Hm Hv]. cbn. split; cbn; try done.
  - by apply od_wf_move.
  - intros k' a' Hin. apply Hk. apply od_get_elem. rewrite <-(od_get_move k) by done.
    apply od_get_iff; [by apply od_wf_move|done].
  - by rewrite od_sum_move.
  - by rewrite od_length_move.
Qed.

Lemma discard_inv s p c : cache_inv c → cache_inv (discard s p c).2.
Proof.
  intros Hc. unfold discard. destruct (validate_sha256 _ s) as [[]|]; [|done].
  destruct (validate_sha256 _ p) as [[]|]; [|done]. destruct (od_get _ _) as [a|] eqn:Ea; [|done].
  destruct Hc as [Hwf Hk Hb Hn Hm Hv]. pose proof (od_get_elem _ _ _ Ea) as Hin.
  destruct (Hk _ _ Hin) as [_ Hca]. apply anchor_check_bytes in Hca as [Hpos _].
  cbn. split; cbn; try done.
  - by apply od_wf_del.
  - intros k' a' Hin'. apply Hk. rewrite (od_del_Permutation _ _ _ Ea). by right.
  - by rewrite (od_sum_del _ _ _ _ Ea), Hb.
  - rewrite od_length_del by eauto. lia.
  - lia.
Qed.

(** ** Which states the backend holds *)

(** What a backend promises about the set of states it holds: capturing adds a
    new state, releasing removes the state or raises and keeps it, and nothing
    else changes the set. *)
Class BackendContract {W} (backend : SemanticStateBackend W)
    (publisher : option (string → SemanticAnchor → Z → Py W ())) (live : W → gset string) := {
  capture_law s p n k w :
    match capture_semantic_state backend s p n k w with
    | (Ok (Some r), w') => (handle r ∉ live w) ∧ live w' = ({[handle r]} ∪ live w)
    | (_, w') => live w' = live w
    end;
  restore_law h w : live (restore_semantic_state backend h w).2 = live w;
  release_law h w :
    match release_semantic_state backend h w with
    | (Ok _, w') => live w' = live w ∖ {[h]}
    | (Raise _, w') => live w' = live w
    end;
  publish_law f n a e w : publisher = Some f → live (f n a e w).2 = live w;
}.

(** The states [V] are those of the handles [L], each once, and [dropped] others. *)
Definition accounted (V : gset string) (dropped : Z) (L : list string) : Prop :=
  NoDup L ∧ ∃ D : gset string, V = (list_to_set L ∪ D) ∧ D ## list_to_set L ∧ Z.of_nat (size D) = dropped.

Lemma accounted_perm V d L L' : L ≡ₚ L' → accounted V d L → accounted V d L'.
Proof.
  intros HL [Hnd (D & HV & Hd & Hs)]. split; [by rewrite <-HL|]. exists D.
  assert ((list_to_set L : gset string) = list_to_set L') as <- by (by apply leibniz_equiv, list_to_set_perm).
  done.
Qed.

Lemma accounted_release V d h L : accounted V d (h :: L) → accounted (V ∖ {[h]}) d L.
Proof.
  intros [[Hh Hnd]%NoDup_cons (D & -> & Hd & Hs)]. split; [done|]. exists D.
  rewrite list_to_set_cons in *. split_and!; [|set_solver|done].
  assert (h ∉ (list_to_set L : gset string)) by (by rewrite elem_of_list_to_set). set_solver.
Qed.

Lemma accounted_capture V d h L : accounted V d L → h ∉ V → accounted ({[h]} ∪ V) d (h :: L).
Proof.
  intros [Hnd (D & -> & Hd & Hs)] Hh. split.
  { constructor; [|done]. intros Hin. apply Hh, elem_of_union_l. by rewrite elem_of_list_to_set. }
  exists D. rewrite list_to_set_cons. set_solver.
Qed.

Lemma accounted_drop V d g L : accounted V d (g ++ L) → accounted V (d + Zlen g) L.
Proof.
  intros [Hnd (D & -> & Hd & Hs)]. apply NoDup_app in Hnd as (Hg & Hgl & HL). split; [done|].
  exists (list_to_set g ∪ D). rewrite list_to_set_app_L in *. split_and!.
  - set_solver.
  - apply disjoint_union_l. split; [|set_solver]. intros x Hx Hx'.
    rewrite elem_of_list_to_set in Hx. rewrite elem_of_list_to_set in Hx'. by eapply Hgl.
  - rewrite size_union by set_solver. rewrite size_list_to_set by done. unfold Zlen. lia.
Qed.

Lemma accounted_size V d L : accounted V d L → Z.of_nat (size V) = Zlen L + d.
Proof.
  intros [Hnd (D & -> & Hd & Hs)]. rewrite size_union by set_solver.
  rewrite size_list_to_set by done. unfold Zlen. lia.
Qed.

Definition cached (c : SemanticAnchorCache) : list string := state_handle <$> (entries c).*2.

Lemma drop_oldest_spec p d :
  ∃ g p', p = g ++ p' ∧ drop_oldest p d = (p', d + Zlen g) ∧ Zlen p' <= MAX_PENDING_RELEASES.
Proof.
  revert d. induction p as [|x p IH]; intros d; cbn [drop_oldest].
  - exists [], []. split_and!; [done|by rewrite Z.add_0_r|done].
  - destruct (_ >? _) eqn:E; breflect.
    + destruct (IH (d + 1)) as (g & p' & -> & -> & Hl). exists (x :: g), p'. split_and!; [done| |done].
      f_equal. unfold Zlen. cbn. lia.
    + exists [], (x :: p). split_and!; [done|by rewrite Z.add_0_r|done].
Qed.

(** The handles in the cache before and after each operation. *)
Lemma cached_put a c evicted :
  cache_inv c → anchor_check a = Ok () → state_handle a ∉ cached c →
  (anchor_put a c).1 = Ok evicted →
  state_handle a :: cached c ≡ₚ cached (anchor_put a c).2 ++ (state_handle <$> evicted).
Proof.
  intros Hc Ha Hfresh Hev. pose proof (anchor_put_spec a c Hc Ha) as Hp.
  destruct (_ >? _); [by rewrite Hp in Hev|].
  destruct Hp as (gone & kept & Hs & Hout & Hent & _). rewrite Hev in Hout. injection Hout as ->.
  assert (Hold : cached c ≡ₚ (state_handle <$> replaced a c) ++
                   (state_handle <$> (od_del (anchor_key a) (entries c)).*2)).
  { unfold cached, replaced. destruct (od_get _ _) as [p|] eqn:Ep; [|by rewrite od_del_None].
    assert (str_eqb (state_handle p) (state_handle a) = false) as ->.
    { unfold str_eqb. apply bool_decide_eq_false. intros Heq. apply Hfresh. rewrite <-Heq.
      apply od_get_elem in Ep. unfold cached. apply (list_elem_of_fmap_2 _ _ p).
      by apply (list_elem_of_fmap_2 snd _ (anchor_key a, p)). }
    by rewrite (od_del_Permutation _ _ _ Ep) at 1. }
  rewrite Hold. unfold cached at 1. rewrite Hent, fmap_app. unfold stored in Hs.
  apply (f_equal (λ l, state_handle <$> l.*2)) in Hs. rewrite !fmap_app in Hs. cbn in Hs.
  rewrite !fmap_app in *. cbn.
  rewrite (Permutation_cons_append _ (state_handle a)), <-app_assoc, Hs. solve_Permutation.
Qed.

Lemma cached_resize n b c evicted :
  cache_inv c → (cache_resize n b c).1 = Ok evicted →
  cached c ≡ₚ cached (cache_resize n b c).2 ++ (state_handle <$> evicted).
Proof.
  intros Hc Hev. pose proof (anchor_resize_spec n b c Hc) as H. destruct (validate_capacity n b); [|by rewrite H in Hev].
  destruct H as (gone & kept & Hs & Heq & _). rewrite Heq in *. injection Hev as <-.
  unfold cached. rewrite Hs, !fmap_app. cbn. apply Permutation_app_comm.
Qed.

Lemma cached_discard s p c r :
  (discard s p c).1 = Ok r →
  cached c ≡ₚ cached (discard s p c).2 ++ (state_handle <$> (match r with Some a => [a] | None => [] end)).
Proof.
  unfold discard. destruct (validate_sha256 _ s) as [[]|]; [|done].
  destruct (validate_sha256 _ p) as [[]|]; [|done]. destruct (od_get _ _) as [a|] eqn:Ea; intros [= <-].
  - unfold cached. cbn. rewrite (od_del_Permutation _ _ _ Ea) at 1. cbn. apply Permutation_cons_append.
  - cbn. by rewrite app_nil_r.
Qed.

Lemma cached_deepest s bs c : cached (deepest_reusable s bs c).2 ≡ₚ cached c.
Proof.
  unfold deepest_reusable. destruct (validate_sha256 _ s) as [[]|]; [|done].
  destruct (fold_res _ _ _); [|done]. destruct (search_boundaries _ _ _) as [[k b]|]; [|done].
  cbn. unfold cached. cbn. unfold od_move_to_end. destruct (od_get k _) as [v|] eqn:E; [|done].
  rewrite (od_del_Permutation _ _ _ E) at 2. by rewrite <-Permutation_cons_append.
Qed.

Section handles.
Context {W : Type} (backend : SemanticStateBackend W)
  (publisher : option (string → SemanticAnchor → Z → Py W ())) (live : W → gset string)
  `{!BackendContract backend publisher live}.
Abbreviation Coordinator := (SemanticStateCoordinator W).
Implicit Types (s : Coordinator).

(** The states of the backend are those of the cached anchors, of the pending
    releases, of the handles [X] in hand, and the dropped ones. *)
Definition holds (X : list string) s : Prop :=
  cache_inv (cache s) ∧ Zlen (pending s) <= MAX_PENDING_RELEASES ∧
  accounted (live (world s)) (dropped_release_handles s) (cached (cache s) ++ (pending s).*1 ++ X).

Definition on_world_set s (w : W) : Coordinator :=
  mkCoordinator (cache s) (captures s) (hits s) (misses s) (restore_failures s) (release_failures s)
    (dropped_release_handles s) (pending s) w.

Lemma holds_perm X Y s : X ≡ₚ Y → holds X s → holds Y s.
Proof. intros HX (Hc & Hp & Ha). split_and!; try done. eapply accounted_perm; [|done]. by rewrite HX. Qed.

Lemma holds_wf X s : holds X s → NoDup (pending s).*1.
Proof. intros (_ & _ & [Hnd _]). apply NoDup_app in Hnd as (_ & _ & Hnd). by apply NoDup_app in Hnd as (? & _ & _). Qed.

Lemma release_handle_holds h X s :
  holds (h :: X) s →
  (release_handle backend h s).1 = Ok () ∧ holds X (release_handle backend h s).2 ∧
  cache (release_handle backend h s).2 = cache s.
Proof.
  intros (Hc & Hp & Ha). unfold release_handle, catch, on_world, zoom, modify.
  pose proof (release_law h (world s)) as Hlaw.
  destruct (release_semantic_state backend h (world s)) as [[[]|e] w'].
  - split_and!; [done| |done]. split_and!; [done|done|]. cbn. rewrite Hlaw.
    apply accounted_release. eapply accounted_perm; [|done]. solve_Permutation.
  - destruct Ha as [Hnd HD].
    assert (Hfresh : od_get h (pending s) = None).
    { apply od_get_None. intros Hin. apply NoDup_app in Hnd as (_ & _ & Hnd).
      apply NoDup_app in Hnd as (_ & Hd & _). apply (Hd h Hin). left. }
    cbn. rewrite (od_set_new h) by done.
    assert (Hmove : od_move_to_end h (pending s ++ [(h, ())]) = pending s ++ [(h, ())]).
    { unfold od_move_to_end. rewrite od_get_snoc by done.
      assert (od_del h (pending s ++ [(h, ())]) = pending s) as ->; [|done].
      apply od_del_snoc. done. }
    rewrite Hmove.
    destruct (drop_oldest_spec (pending s ++ [(h, ())]) (dropped_release_handles s))
      as (g & p' & Hsplit & -> & Hl).
    split_and!; [done| |done]. split_and!; [done|done|]. cbn. rewrite Hlaw.
    replace (Zlen g) with (Zlen g.*1) by (unfold Zlen; by rewrite length_fmap).
    apply accounted_drop. eapply accounted_perm; [|split; [exact Hnd|exact HD]].
    apply (f_equal (fmap fst)) in Hsplit. rewrite !fmap_app in Hsplit. cbn in Hsplit.
    transitivity (cached (cache s) ++ ((pending s).*1 ++ [h]) ++ X); [solve_Permutation|].
    rewrite Hsplit. solve_Permutation.
Qed.

Lemma release_anchors_holds l : ∀ X s,
  holds ((state_handle <$> l) ++ X) s →
  (release_anchors backend l s).1 = Ok () ∧ holds X (release_anchors backend l s).2 ∧
  cache (release_anchors backend l s).2 = cache s.
Proof.
  induction l as [|a l IH]; intros X s Hs; cbn [release_anchors]; [done|].
  destruct (release_handle_holds _ _ s Hs) as (H1 & H2 & H3). unfold bind.
  destruct (release_handle backend (state_handle a) s) as [[[]|e] s']; [|done]. cbn in *.
  destruct (IH X s' H2) as (? & ? & ?). split_and!; [done|done|congruence].
Qed.

Lemma holds_count X a b c d s : holds X s → holds X (count a b c d s).
Proof. done. Qed.

Lemma publish_holds name a n X s : holds X s → holds X (publish publisher name a n s).2.
Proof.
  intros (Hc & Hp & Ha). pose proof (λ f, publish_law f name a n (world s)) as Hlaw.
  unfold publish. destruct publisher as [f|]; [|done].
  unfold on_world, zoom. specialize (Hlaw f eq_refl) as Hl.
  destruct (f name a n (world s)) as [r w']. cbn in *. split_and!; [done|done|]. cbn. by rewrite Hl.
Qed.

Lemma anchor_put_holds a X s r c' :
  holds (state_handle a :: X) s → anchor_check a = Ok () → anchor_put a (cache s) = (r, c') →
  let s' := mkCoordinator c' (captures s) (hits s) (misses s) (restore_failures s)
              (release_failures s) (dropped_release_handles s) (pending s) (world s) in
  match r with
  | Ok evicted => holds ((state_handle <$> evicted) ++ X) s'
  | Raise _ => holds (state_handle a :: X) s'
  end.
Proof.
  intros (Hc & Hp & Hacc) Ha Heq. pose proof (anchor_put_spec a _ Hc Ha) as Hput.
  destruct (_ >? _); rewrite Heq in Hput; [by injection Hput as -> ->|].
  destruct Hput as (gone & kept & _ & Hout & _ & _ & Hinv & _). cbn in Hout, Hinv. subst r.
  split_and!; [done|done|]. cbn. eapply accounted_perm; [|done].
  assert (Hfresh : state_handle a ∉ cached (cache s)).
  { intros Hin. destruct Hacc as [Hnd _]. apply NoDup_app in Hnd as (_ & Hd & _). apply (Hd _ Hin).
    apply elem_of_app. right. left. }
  pose proof (cached_put a _ _ Hc Ha Hfresh ltac:(by rewrite Heq)) as HP. rewrite Heq in HP. cbn in HP.
  transitivity ((state_handle a :: cached (cache s)) ++ (pending s).*1 ++ X); [solve_Permutation|].
  rewrite HP. solve_Permutation.
Qed.

(** Storing a captured state: the handles of the evicted anchors are left to
    release, and on failure the captured handle is. *)
Lemma try_store_holds a X s :
  holds (state_handle a :: X) s →
  match catch (let! _ := lift (anchor_check a) in on_cache (anchor_put a))
          (λ e, release_handle backend (state_handle a) ;;; raise e) s with
  | (Ok evicted, s') => holds ((state_handle <$> evicted) ++ X) s'
  | (Raise _, s') => holds X s'
  end.
Proof.
  intros Hs. assert (Hfail : ∀ e s2, holds (state_handle a :: X) s2 →
    match (release_handle backend (state_handle a) ;;; raise e : Py Coordinator (list SemanticAnchor)) s2 with
    | (Ok evicted, s') => holds ((state_handle <$> evicted) ++ X) s'
    | (Raise _, s') => holds X s'
    end).
  { intros e s2 Hs2. destruct (release_handle_holds _ _ s2 Hs2) as (H1 & H2 & _). unfold bind.
    destruct (release_handle backend _ s2) as [[[]|] s3]; done. }
  unfold catch, bind at 1, lift. destruct (anchor_check a) as [[]|e] eqn:Ea; cbv beta iota; [|by apply Hfail].
  unfold on_cache, zoom. destruct (anchor_put a (cache s)) as [[evicted|e] c'] eqn:Eput; cbv beta iota;
    pose proof (anchor_put_holds a X s _ _ Hs Ea Eput) as Hs2; cbn in Hs2; [done|by apply Hfail].
Qed.

Lemma capture_holds session prefix position k s :
  holds [] s → holds [] (capture backend publisher session prefix position k s).2.
Proof.
  intros (Hc & Hp & Hacc). unfold capture, bind at 1, on_world, zoom.
  pose proof (capture_law session prefix position k (world s)) as Hlaw.
  destruct (capture_semantic_state backend session prefix position k (world s)) as [[[r|]|e] w'];
    cbn in Hlaw; cbv beta iota; [|split_and!; [done|done|cbn; by rewrite Hlaw]..].
  destruct Hlaw as [Hfresh Hlive]. set (s1 := mkCoordinator _ _ _ _ _ _ _ _ w').
  set (a := mkAnchor session prefix position k (handle r) (ref_state_bytes r)).
  assert (Hs1 : holds (state_handle a :: []) s1).
  { split_and!; [done|done|]. cbn. rewrite Hlive. eapply accounted_perm; [|by apply accounted_capture].
    solve_Permutation. }
  pose proof (try_store_holds a [] s1 Hs1) as Hs2. unfold bind at 1.
  change (handle r) with (state_handle a).
  destruct (catch _ _ s1) as [[evicted|e] s2]; [|done].
  destruct (release_anchors_holds _ _ _ Hs2) as (H1 & H2 & _). unfold bind at 1.
  destruct (release_anchors backend evicted s2) as [[[]|] s3]; [|done].
  unfold bind at 1, modify. unfold bind.
  pose proof (publish_holds "semantic_cache.capture" a (Zlen evicted) [] _ (holds_count [] 1 0 0 0 _ H2)) as H4.
  by destruct (publish publisher _ a _ _) as [[[]|] s4].
Qed.

Lemma restore_holds session bs s :
  holds [] s → holds [] (restore_deepest backend publisher session bs s).2.
Proof.
  intros (Hc & Hp & Hacc). unfold restore_deepest, bind at 1, on_cache, zoom.
  pose proof (deepest_inv session bs _ Hc) as Hc1. pose proof (cached_deepest session bs (cache s)) as Hp1.
  destruct (deepest_reusable session bs (cache s)) as [r c1]. cbn in Hc1, Hp1.
  set (s1 := mkCoordinator c1 _ _ _ _ _ _ _ _).
  assert (Hs1 : holds [] s1).
  { split_and!; [done|done|]. cbn. eapply accounted_perm; [|done]. by rewrite Hp1. }
  clearbody s1. clear Hc1 Hp1 Hc Hp Hacc. destruct r as [[a|]|e]; [|done|done].
  unfold bind at 1, on_world, zoom. pose proof (restore_law (state_handle a) (world s1)) as Hl.
  destruct (restore_semantic_state backend _ _) as [r w2]. cbn in Hl. set (s2 := mkCoordinator _ _ _ _ _ _ _ _ w2).
  assert (Hs2 : holds [] s2).
  { destruct Hs1 as (? & ? & ?). split_and!; [done|done|]. cbn. by rewrite Hl. }
  clearbody s2. clear Hl. destruct r as [[]|e]; [| |done].
  - unfold bind, modify.
    pose proof (publish_holds "semantic_cache.hit" a 0 [] _ (holds_count [] 0 1 0 0 _ Hs2)) as H4.
    by destruct (publish publisher _ a _ _) as [[[]|] s4].
  - unfold bind at 1. destruct Hs2 as (Hc & Hp & Hacc).
    pose proof (discard_inv (session_fingerprint a) (prefix_fingerprint a) _ Hc) as Hci.
    pose proof (cached_discard (session_fingerprint a) (prefix_fingerprint a) (cache s2)) as Hcd.
    destruct (discard _ _ (cache s2)) as [[removed|e] c3] eqn:Ed.
    2:{ cbn. split_and!; [done|done|]. cbn. unfold discard in Ed. by run_cases Ed. }
    specialize (Hcd _ eq_refl). cbn in Hcd, Hci. set (s3 := mkCoordinator c3 _ _ _ _ _ _ _ _).
    assert (Hs3 : holds ((state_handle <$> (match removed with Some a => [a] | None => [] end)) ++ []) s3).
    { split_and!; [done|done|]. cbn. eapply accounted_perm; [|done]. rewrite Hcd. solve_Permutation. }
    clearbody s3. destruct removed as [x|]; [|done].
    destruct (release_anchors_holds [x] [] s3 Hs3) as (H1 & H2 & _). unfold bind at 1.
    by destruct (release_anchors backend [x] s3) as [[[]|] s4].
Qed.

Lemma resize_holds n b s : holds [] s → holds [] (coordinator_resize backend n b s).2.
Proof.
  intros (Hc & Hp & Hacc). unfold coordinator_resize, bind at 1, on_cache, zoom.
  pose proof (anchor_resize_spec n b _ Hc) as Hr. pose proof (cached_resize n b (cache s)) as Hcr.
  destruct (validate_capacity n b) as [[]|e]; [|by rewrite Hr].
  destruct Hr as (gone & kept & _ & Heq & Hci & _). specialize (Hcr gone.*2 Hc). rewrite Heq in *.
  specialize (Hcr eq_refl). cbn in Hcr, Hci. cbn. set (s1 := mkCoordinator _ _ _ _ _ _ _ _ _).
  assert (Hs1 : holds ((state_handle <$> gone.*2) ++ []) s1).
  { split_and!; [done|done|]. cbn. eapply accounted_perm; [|done]. rewrite Hcr. solve_Permutation. }
  destruct (release_anchors_holds _ _ _ Hs1) as (H1 & H2 & _). unfold bind.
  by destruct (release_anchors backend gone.*2 s1) as [[[]|] s2].
Qed.

(** One attempt to release a pending handle. *)
Lemma retry_one h s :
  holds [] s → h ∈ (pending s).*1 →
  match release_semantic_state backend h (world s) with
  | (Ok _, w') => holds [] (forget_pending h (on_world_set s w'))
  | (Raise _, w') => holds [] (on_world_set s w')
  end.
Proof.
  intros (Hc & Hp & Hacc) Hin. pose proof (release_law h (world s)) as Hlaw.
  assert (is_Some (od_get h (pending s))) as [[] Hget].
  { destruct (od_get h (pending s)) eqn:E; [by eexists|]. by apply od_get_None in E. }
  destruct (release_semantic_state backend h (world s)) as [[[]|e] w'].
  - split_and!; [done| |].
    + unfold forget_pending, on_world_set. cbn. rewrite od_length_del by done. lia.
    + cbn. rewrite Hlaw. apply accounted_release. eapply accounted_perm; [|done].
      rewrite (od_del_Permutation _ _ _ Hget) at 1. cbn. solve_Permutation.
  - split_and!; [done|done|]. cbn. by rewrite Hlaw.
Qed.

Lemma retry_loop_cons h hs n s :
  retry_loop backend [] (h :: hs) n s =
  match release_semantic_state backend h (world s) with
  | (Ok _, w') => retry_loop backend [] hs (n + 1) (forget_pending h (on_world_set s w'))
  | (Raise _, w') => retry_loop backend [] hs n (on_world_set s w')
  end.
Proof.
  cbn [retry_loop]. unfold bind, catch, on_world, zoom, ret, modify.
  by destruct (release_semantic_state backend h (world s)) as [[[]|e] w'].
Qed.

Lemma retry_loop_holds hs : ∀ n s,
  holds [] s → (∀ h, h ∈ hs → h ∈ (pending s).*1) → NoDup hs →
  holds [] (retry_loop backend [] hs n s).2 ∧ is_ok (retry_loop backend [] hs n s).1 ∧
  cache (retry_loop backend [] hs n s).2 = cache s ∧
  ((∀ h w, is_ok (release_semantic_state backend h w).1) →
   ∀ h, h ∈ (pending (retry_loop backend [] hs n s).2).*1 → h ∈ (pending s).*1 ∧ h ∉ hs).
Proof.
  induction hs as [|h hs IH]; intros n s Hs Hin Hnd.
  { split_and!; try done. intros _ h Hh. split; [done|apply not_elem_of_nil]. }
  apply NoDup_cons in Hnd as [Hh Hnd]. pose proof (retry_one h s Hs ltac:(apply Hin; left)) as H1.
  rewrite retry_loop_cons.
  destruct (release_semantic_state backend h (world s)) as [[[]|e] w'] eqn:Er.
  - assert (Hkeep : ∀ x, x ∈ hs → x ∈ (pending (forget_pending h (on_world_set s w'))).*1).
    { intros x Hx. cbn. assert (x ≠ h) by (by intros ->). pose proof (Hin x ltac:(by right)) as Hx'.
      destruct (od_get x (pending s)) eqn:Eo; [|by apply od_get_None in Eo].
      rewrite <-(od_get_del_ne h) in Eo by done. apply od_get_elem in Eo.
      by apply (list_elem_of_fmap_2 fst _ (x, u)). }
    destruct (IH (n + 1) _ H1 Hkeep Hnd) as (Hh1 & Hok & Hca & Hp). split_and!; [done|done|done|].
    intros Hrel x Hx. destruct (Hp Hrel x Hx) as [Hx1 Hx2]. cbn in Hx1.
    destruct (od_get h (pending s)) as [[]|] eqn:Eg.
    + assert (x ≠ h).
      { intros ->. apply (proj1 (od_get_None h _)) in Hx1; [done|]. apply od_get_del. by eapply holds_wf. }
      split; [|by apply not_elem_of_cons]. rewrite (od_del_Permutation _ _ _ Eg). by right.
    + rewrite od_del_None in Hx1 by done. apply od_get_None in Eg. split; [done|].
      apply not_elem_of_cons. split; [by intros ->|done].
  - destruct (IH n _ H1 ltac:(intros x Hx; apply (Hin x); by right) Hnd) as (Hh1 & Hok & Hca & Hp).
    split_and!; [done|done|done|]. intros Hrel. pose proof (Hrel h (world s)) as Hno. by rewrite Er in Hno.
Qed.

Lemma retry_holds s :
  holds [] s → holds [] (retry_pending_releases backend [] s).2 ∧
  cache (retry_pending_releases backend [] s).2 = cache s ∧
  ((∀ h w, is_ok (release_semantic_state backend h w).1) → pending (retry_pending_releases backend [] s).2 = []).
Proof.
  intros Hs. unfold retry_pending_releases, bind, get.
  destruct (retry_loop_holds (pending s).*1 0 s Hs ltac:(done) (holds_wf _ _ Hs)) as (H1 & _ & H2 & H3).
  split_and!; [done|done|]. intros Hrel. specialize (H3 Hrel). apply elem_of_nil_inv. intros [h []] Hh.
  destruct (H3 h) as [H4 H5]; [by apply (list_elem_of_fmap_2 fst _ (h, ()))|done].
Qed.

Definition emptied s : Coordinator :=
  mkCoordinator (cache_clear (cache s)).2 (captures s) (hits s) (misses s) (restore_failures s)
    (release_failures s) (dropped_release_handles s) (pending s) (world s).

Lemma close_unfold s :
  coordinator_close backend [] s =
  match release_anchors backend (entries (cache s)).*2 (emptied s) with
  | (Ok _, s2) => match retry_pending_releases backend [] s2 with
                  | (Ok _, s3) => (Ok (), s3)
                  | (Raise e, s3) => (Raise e, s3)
                  end
  | (Raise e, s2) => (Raise e, s2)
  end.
Proof. reflexivity. Qed.

Lemma close_holds s :
  holds [] s → holds [] (coordinator_close backend [] s).2 ∧
  entries (cache (coordinator_close backend [] s).2) = [] ∧
  ((∀ h w, is_ok (release_semantic_state backend h w).1) → pending (coordinator_close backend [] s).2 = []).
Proof.
  intros (Hc & Hp & Hacc). rewrite close_unfold.
  assert (Hs1 : holds ((state_handle <$> (entries (cache s)).*2) ++ []) (emptied s)).
  { destruct Hc. destruct (capacity_pos _ _ ci_capacity0). split_and!; [split; cbn; try done; try lia|done|].
    - constructor.
    - intros k a Hin. by apply elem_of_nil in Hin.
    - unfold Zlen. cbn. lia.
    - cbn. eapply accounted_perm; [|done]. unfold cached. solve_Permutation. }
  destruct (release_anchors_holds _ _ _ Hs1) as (H1 & H2 & H3).
  destruct (release_anchors backend _ (emptied s)) as [[[]|] s2]; [|done]. cbn in H2, H3.
  destruct (retry_holds s2 H2) as (H4 & H5 & H6).
  destruct (retry_pending_releases backend [] s2) as [[n|e] s3]; cbn in H4, H5, H6 |- *;
    (split_and!; [done|by rewrite H5, H3|done]).
Qed.

(** One public operation of the coordinator, with no other one under way. *)
Inductive coordinator_step : Coordinator → Coordinator → Prop :=
| StepCapture f p n k s : coordinator_step s (capture backend publisher f p n k s).2
| StepRestore f bs s : coordinator_step s (restore_deepest backend publisher f bs s).2
| StepResize n b s : coordinator_step s (coordinator_resize backend n b s).2
| StepRetry s : coordinator_step s (retry_pending_releases backend [] s).2
| StepClose s : coordinator_step s (coordinator_close backend [] s).2.

Lemma coordinator_step_holds s s' : holds [] s → coordinator_step s s' → holds [] s'.
Proof.
  intros Hs Hst. destruct Hst.
  - by apply capture_holds.
  - by apply restore_holds.
  - by apply resize_holds.
  - by apply retry_holds.
  - by apply close_holds.
Qed.

Lemma new_coordinator_holds c w :
  cache_inv c → entries c = [] → live w = ∅ → holds [] (new_coordinator c w).
Proof.
  intros Hc He Hl. split_and!; [done|done|]. cbn. rewrite Hl. unfold cached. rewrite He. cbn.
  split; [constructor|]. exists ∅. split_and!; set_solver.
Qed.

(** C29: no state of the backend is lost or released twice.  In every state the
    coordinator reaches by calls that do not overlap, with a backend that keeps its contract, the cached and the
    pending handles are distinct and all of them are held by the backend, the
    backend holds exactly one state per cached anchor, pending release and counted
    drop, and at most 1024 releases are pending; after [close] with releases that
    succeed only the counted drops remain. *)
Theorem semantic_handles_accounted n b c w s :
  new_cache n b = Ok c → live w = ∅ →
  rtc coordinator_step (new_coordinator c w) s →
  NoDup (cached (cache s) ++ (pending s).*1) ∧
  (∀ h, h ∈ cached (cache s) ++ (pending s).*1 → h ∈ live (world s)) ∧
  Z.of_nat (size (live (world s))) =
    Zlen (entries (cache s)) + Zlen (pending s) + dropped_release_handles s ∧
  Zlen (pending s) <= MAX_PENDING_RELEASES ∧
  ((∀ h w, is_ok (release_semantic_state backend h w).1) →
   let s' := (coordinator_close backend [] s).2 in
   Z.of_nat (size (live (world s'))) = dropped_release_handles s').
Proof.
  intros Hnew Hl Hrun. assert (Hsize : ∀ x, holds [] x → Z.of_nat (size (live (world x))) =
    Zlen (entries (cache x)) + Zlen (pending x) + dropped_release_handles x).
  { intros x (_ & _ & Hacc). rewrite (accounted_size _ _ _ Hacc). unfold Zlen, cached.
    rewrite !length_app, !length_fmap. cbn. lia. }
  assert (Hs : holds [] s).
  { eapply rtc_invariant; [apply coordinator_step_holds| |exact Hrun].
    apply new_coordinator_holds; [by eapply new_anchor_cache_inv| |done].
    unfold new_cache in Hnew. by destruct (validate_capacity n b); simplify_eq. }
  pose proof Hs as (Hc & Hp & Hacc). rewrite app_nil_r in Hacc. destruct Hacc as [Hnd (D & HD & _)].
  split_and!; [done| |by apply Hsize|done|].
  - intros h Hh. rewrite HD. apply elem_of_union_l. by rewrite elem_of_list_to_set.
  - intros Hrel. destruct (close_holds s Hs) as (H1 & H2 & H3). cbn zeta.
    rewrite (Hsize _ H1), H2, (H3 Hrel). unfold Zlen. cbn. lia.
Qed.
End handles.

(** The anchor cache is a bounded least-recently-used map.  In a state that
    respects the limits, [put] refuses exactly the anchors larger than the byte
    capacity and otherwise stores the anchor as the most recent, reports the state
    it replaced and the oldest anchors it had to evict, and respects the limits
    again; [resize] to a valid capacity evicts and reports only the oldest anchors
    that no longer fit; [discard] and [clear] report what they remove. *)
Theorem semantic_cache_lru a c n b session prefix :
  cache_inv c → anchor_check a = Ok () → validate_capacity n b = Ok () →
  (if state_bytes a >? capacity_bytes c then (anchor_put a c).2 = c ∧ ¬ is_ok (anchor_put a c).1
   else ∃ gone kept, stored a c = gone ++ kept ∧
     anchor_put a c = (Ok (replaced a c ++ gone.*2), (anchor_put a c).2) ∧
     entries (anchor_put a c).2 = kept ∧ od_get (anchor_key a) kept = Some a ∧
     cache_inv (anchor_put a c).2 ∧
     (∀ g1 p g2, gone = g1 ++ p :: g2 →
        capacity_entries c < Zlen (p :: g2 ++ kept) ∨ capacity_bytes c < bytes_of (p :: g2 ++ kept))) ∧
  (∃ gone kept, entries c = gone ++ kept ∧ (cache_resize n b c).1 = Ok gone.*2 ∧
     entries (cache_resize n b c).2 = kept ∧ cache_inv (cache_resize n b c).2 ∧
     capacity_entries (cache_resize n b c).2 = n ∧ capacity_bytes (cache_resize n b c).2 = b ∧
     (∀ g1 p g2, gone = g1 ++ p :: g2 →
        n < Zlen (p :: g2 ++ kept) ∨ b < bytes_of (p :: g2 ++ kept))) ∧
  cache_inv (discard session prefix c).2 ∧
  (∀ r, (discard session prefix c).1 = Ok r →
     r = od_get (session, prefix) (entries c) ∧ od_get (session, prefix) (entries (discard session prefix c).2) = None) ∧
  (cache_clear c).1 = (entries c).*2.
Proof.
  intros Hc Ha Hcap. split_and!; [| |by apply discard_inv| |done].
  - pose proof (anchor_put_spec a c Hc Ha) as H. destruct (_ >? _); [rewrite H; split; [done|by intros []]|].
    destruct H as (gone & kept & Hs & Hout & Hent & _ & Hinv & Hg). exists gone, (kept ++ [(anchor_key a, a)]).
    split_and!; [done|by rewrite <-Hout, <-surjective_pairing|done| |done|by rewrite Hent in Hg].
    apply od_get_iff; [rewrite <-Hent; apply Hinv|]. apply elem_of_app. right. left.
  - pose proof (anchor_resize_spec n b c Hc) as H. rewrite Hcap in H.
    destruct H as (gone & kept & Hs & Heq & Hinv & Hg). exists gone, kept. rewrite Heq in *. done.
  - intros r. unfold discard. destruct (validate_sha256 _ session) as [[]|]; [|done].
    destruct (validate_sha256 _ prefix) as [[]|]; [|done].
    destruct (od_get _ _) as [x|] eqn:E; intros [= <-]; [|done]. split; [done|].
    apply od_get_del, Hc.
Qed.

(** C97: [deepest_reusable] finds the deepest reusable prefix.  It raises, changing
    nothing, exactly when the session is no digest or the boundaries are not
    strictly increasing positions of digests; otherwise it returns the anchor of
    the last boundary whose prefix is cached at that position, which becomes the
    most recent, and nothing when there is none; no anchor is gained or lost. *)
Theorem deepest_reusable_correct session bs c :
  cache_inv c →
  let valid := validate_sha256 "session fingerprint" session = Ok () ∧ boundaries_ok 0 bs in
  match deepest_reusable session bs c with
  | (Raise _, c') => ¬ valid ∧ c' = c
  | (Ok None, c') => valid ∧ c' = c ∧ ∀ b a, b ∈ bs → ¬ matches session (entries c) b a
  | (Ok (Some a), c') => valid ∧ cache_inv c' ∧ entries c' ≡ₚ entries c ∧
      ∃ b1 b b2 es, bs = b1 ++ b :: b2 ∧ matches session (entries c) b a ∧
        (∀ b' a', b' ∈ b2 → ¬ matches session (entries c) b' a') ∧
        entries c' = es ++ [((session, b.2), a)]
  end.
Proof.
  intros Hc valid. pose proof (deepest_inv session bs c Hc) as Hinv. pose proof (check_boundaries bs 0) as Hb.
  unfold deepest_reusable in *. unfold valid.
  destruct (validate_sha256 _ session) as [[]|]; [|by split; [intros [? _]|]].
  destruct (fold_res _ bs 0) as [z|e]; cbn in Hb; [|split; [by intros [_ ?%Hb]|done]].
  pose proof (boundary_search_spec session (entries c) (rev bs)) as Hsearch.
  destruct (search_boundaries session (rev bs) (entries c)) as [[k a]|].
  - destruct Hsearch as (b1 & b & b2 & Hrev & -> & Hm & Hno). split_and!; [done|by apply Hb|done| |].
    + cbn. unfold od_move_to_end. destruct (od_get _ _) as [v|] eqn:E; [|done].
      rewrite (od_del_Permutation _ _ _ E) at 2. by rewrite <-Permutation_cons_append.
    + exists (rev b2), b, (rev b1), (od_del (session, b.2) (entries c)). split_and!; [|done| |].
      * apply (f_equal (@rev _)) in Hrev. rewrite rev_involutive, rev_app_distr in Hrev. cbn in Hrev.
        by rewrite Hrev, <-app_assoc.
      * intros b' a' Hin. apply Hno. apply list_elem_of_In. apply list_elem_of_In in Hin.
        by apply in_rev in Hin.
      * cbn. unfold od_move_to_end. destruct Hm as [-> _]. done.
  - split_and!; [done|by apply Hb|done|]. intros b a Hin. apply Hsearch.
    apply list_elem_of_In. rewrite <-in_rev. by apply list_elem_of_In.
Qed.

(** ** Invariants of the cache alone *)

Section cache_only.
Context {W : Type} (backend : SemanticStateBackend W)
  (publisher : option (string → SemanticAnchor → Z → Py W ())) (P : SemanticAnchorCache → Prop).
Hypothesis P_put : ∀ a c, P c → anchor_check a = Ok () → P (anchor_put a c).2.
Hypothesis P_deepest : ∀ f bs c, P c → P (deepest_reusable f bs c).2.
Hypothesis P_discard : ∀ f p c, P c → P (discard f p c).2.
Abbreviation Coordinator := (SemanticStateCoordinator W).
Implicit Types (s : Coordinator).

Lemma release_handle_cache h s :
  is_ok (release_handle backend h s).1 ∧ cache (release_handle backend h s).2 = cache s.
Proof.
  unfold release_handle, catch, on_world, zoom, modify.
  destruct (release_semantic_state backend h (world s)) as [[[]|e] w']; [done|]. by destruct (drop_oldest _ _).
Qed.

Lemma release_anchors_cache l : ∀ s,
  is_ok (release_anchors backend l s).1 ∧ cache (release_anchors backend l s).2 = cache s.
Proof.
  induction l as [|a l IH]; intros s; cbn [release_anchors]; [done|]. unfold bind.
  destruct (release_handle_cache (state_handle a) s) as [H1 H2].
  destruct (release_handle backend _ s) as [[[]|e] s']; [|done]. cbn in H2. rewrite <-H2. apply IH.
Qed.

Lemma publish_cache name a n s : cache (publish publisher name a n s).2 = cache s.
Proof.
  unfold publish. destruct publisher as [f|]; [|done]. unfold on_world, zoom. by destruct (f _ _ _ _).
Qed.

Lemma capture_cache f p n k s :
  P (cache s) → P (cache (capture backend publisher f p n k s).2).
Proof.
  intros Hs. unfold capture, bind at 1, on_world, zoom.
  destruct (capture_semantic_state _ _ _ _ _ _) as [[[r|]|e] w']; cbv beta iota; [|done..].
  set (s1 := mkCoordinator _ _ _ _ _ _ _ _ w'). change (P (cache s1)) in Hs.
  set (a := mkAnchor f p n k (handle r) (ref_state_bytes r)).
  assert (Hfail : ∀ e s2, P (cache s2) →
    P (cache ((release_handle backend (handle r) ;;; raise e : Py Coordinator (list SemanticAnchor)) s2).2)).
  { intros e s2 Hs2. destruct (release_handle_cache (handle r) s2) as [H1 H2]. unfold bind.
    destruct (release_handle backend _ s2) as [[[]|] s3]; cbn in *; by rewrite H2. }
  assert (Htry : P (cache (catch (let! _ := lift (anchor_check a) in on_cache (anchor_put a))
                             (λ e, release_handle backend (handle r) ;;; raise e) s1).2)).
  { unfold catch, bind at 1, lift. destruct (anchor_check a) as [[]|e] eqn:Ea; cbv beta iota; [|by apply Hfail].
    unfold on_cache, zoom. pose proof (P_put a _ Hs Ea) as Hp.
    destruct (anchor_put a (cache s1)) as [[ev|e] c']; cbv beta iota; [done|by apply Hfail]. }
  unfold bind at 1. destruct (catch _ _ s1) as [[ev|e] s2]; [|done]. cbn in Htry.
  destruct (release_anchors_cache ev s2) as [H1 H2]. unfold bind at 1.
  destruct (release_anchors backend ev s2) as [[[]|] s3]; [|done]. cbn in H2. unfold bind at 1, modify. unfold bind.
  pose proof (publish_cache "semantic_cache.capture" a (Zlen ev) (count 1 0 0 0 s3)) as H3.
  destruct (publish publisher _ a _ _) as [[[]|] s4]; cbn in H3; cbn; by rewrite H3, H2.
Qed.

Lemma restore_cache f bs s :
  P (cache s) → P (cache (restore_deepest backend publisher f bs s).2).
Proof.
  intros Hs. unfold restore_deepest, bind at 1, on_cache, zoom. apply (P_deepest f bs) in Hs.
  destruct (deepest_reusable f bs (cache s)) as [[[a|]|e] c1]; cbv beta iota; [|done..].
  set (s1 := mkCoordinator c1 _ _ _ _ _ _ _ _). change (P (cache s1)) in Hs.
  unfold bind at 1, on_world, zoom. destruct (restore_semantic_state _ _ _) as [[[]|e] w2]; cbv beta iota; [| |done].
  - set (s2 := mkCoordinator _ _ _ _ _ _ _ _ w2). unfold bind, modify.
    pose proof (publish_cache "semantic_cache.hit" a 0 (count 0 1 0 0 s2)) as H3.
    destruct (publish publisher _ a _ _) as [[[]|] s4]; cbn in H3; cbn; by rewrite H3.
  - unfold bind at 1. cbn [cache]. clearbody s1.
    apply (P_discard (session_fingerprint a) (prefix_fingerprint a)) in Hs.
    destruct (discard _ _ (cache s1)) as [[removed|e] c3]; cbv beta iota; [|done].
    set (s3 := mkCoordinator c3 _ _ _ _ _ _ _ _). destruct removed as [x|]; [|done].
    destruct (release_anchors_cache [x] s3) as [H1 H2]. unfold bind at 1.
    destruct (release_anchors backend [x] s3) as [[[]|] s4]; cbn in H2; cbn; by rewrite H2.
Qed.

Lemma retry_cache s : cache (retry_pending_releases backend [] s).2 = cache s.
Proof.
  unfold retry_pending_releases, bind, get. generalize 0. generalize (pending s).*1. intros hs.
  revert s. induction hs as [|h hs IH]; intros s n; [done|]. rewrite retry_loop_cons.
  destruct (release_semantic_state _ _ _) as [[[]|e] w']; rewrite IH; done.
Qed.
End cache_only.

(** ** The elastic controller *)

Definition capacity (c : SemanticAnchorCache) : Z * Z := (capacity_entries c, capacity_bytes c).

Lemma evict_loop_capacity n b es : ∀ r ev out, capacity (evict_loop n b es r ev out).2 = (n, b).
Proof. induction es as [|[k a] es IH]; intros r ev out; cbn [evict_loop]; destruct (_ || _); done. Qed.

Lemma put_capacity a c : capacity (anchor_put a c).2 = capacity c.
Proof.
  unfold anchor_put, bind, evict_to_budget. destruct (_ >? _); [done|].
  cbn [capacity_entries capacity_bytes entries resident_bytes evictions].
  match goal with |- context [evict_loop ?n ?b ?es ?r ?ev ?out] =>
    pose proof (evict_loop_capacity n b es r ev out) as H; destruct (evict_loop n b es r ev out) as [[?|?] ?] end.
  all: exact H.
Qed.

Lemma deepest_capacity f bs c : capacity (deepest_reusable f bs c).2 = capacity c.
Proof. unfold deepest_reusable. goal_cases; done. Qed.

Lemma discard_capacity f p c : capacity (discard f p c).2 = capacity c.
Proof. unfold discard. goal_cases; done. Qed.

Lemma put_inv a c : cache_inv c → anchor_check a = Ok () → cache_inv (anchor_put a c).2.
Proof.
  intros Hc Ha. pose proof (anchor_put_spec a c Hc Ha) as H. destruct (_ >? _); [by rewrite H|].
  by destruct H as (gone & kept & _ & _ & _ & _ & ? & _).
Qed.

Lemma target_valid n b p : validate_capacity n b = Ok () →
  validate_capacity (target n b p).1 (target n b p).2 = Ok ().
Proof.
  assert (∀ x d, 1 <= x → 1 <= d → 1 <= Z.max 1 (x / d) <= x) as Hdiv.
  { intros x d Hx Hd. pose proof (Z.div_le_upper_bound x d x ltac:(lia) ltac:(nia)). lia. }
  assert (∃ d, 1 <= d ∧ target n b p = (Z.max 1 (n / d), Z.max 1 (b / d))) as (d & Hd & ->)
    by (destruct p; eexists; (split; [|reflexivity]); lia).
  unfold validate_capacity, check. cbn [fst snd]. destruct (_ && _) eqn:E; [|done]. intros _. breflect.
  pose proof (Hdiv n d ltac:(lia) Hd). pose proof (Hdiv b d ltac:(lia) Hd).
  rewrite !(proj2 (Z.leb_le _ _)) by lia. done.
Qed.

Section elastic_theorem.
Context {W : Type} (backend : SemanticStateBackend W)
  (publisher : option (string → SemanticAnchor → Z → Py W ())).
Abbreviation Controller := (ElasticMemoryController W).
Implicit Types (e : Controller).

(** An operation of the controller, or one of the coordinator in between. *)
Inductive elastic_step : Controller → Controller → Prop :=
| ElasticRequest p safe e : elastic_step e (request backend p safe e).2
| ElasticApply safe e : elastic_step e (apply_pending backend safe e).2
| ElasticCapture f p n k e : elastic_step e (on_state (capture backend publisher f p n k) e).2
| ElasticRestore f bs e : elastic_step e (on_state (restore_deepest backend publisher f bs) e).2
| ElasticRetry e : elastic_step e (on_state (retry_pending_releases backend []) e).2.

(** The controller with another coordinator state and bookkeeping. *)
Definition elastic_ok e : Prop :=
  cache_inv (cache (semantic_state e)) ∧
  validate_capacity (normal_entries e) (normal_bytes e) = Ok () ∧
  capacity (cache (semantic_state e)) = target (normal_entries e) (normal_bytes e) (current_pressure e) ∧
  current_pressure e ≠ MP_UNKNOWN ∧ pending_pressure e ≠ Some MP_UNKNOWN.

Lemma decision_ok p st n b k :
  st ∈ ["applied"; "deferred"; "ignored"] → 0 <= n → 0 <= b → 0 <= k →
  decision_check (mkDecision p st n b k) = Ok (mkDecision p st n b k).
Proof.
  intros Hst Hn Hb Hk. unfold decision_check, check. cbn. rewrite bool_decide_true by done. cbn.
  by rewrite !(proj2 (Z.ltb_ge _ _)) by lia.
Qed.

Lemma target_pos n b p : 1 <= (target n b p).1 ∧ 1 <= (target n b p).2.
Proof. unfold target. destruct p; cbn; lia. Qed.

(** The outcome of [request]. *)
Lemma request_spec p safe e :
  elastic_ok e →
  let '(n, b) := target (normal_entries e) (normal_bytes e) p in
  let '(r, e') := request backend p safe e in
  elastic_ok e' ∧ normal_entries e' = normal_entries e ∧ normal_bytes e' = normal_bytes e ∧
  if bool_decide (p = MP_UNKNOWN) then r = Ok (mkDecision p "ignored" n b 0) ∧ e' = e
  else if safe then
    ∃ k, r = Ok (mkDecision p "applied" n b k) ∧ capacity (cache (semantic_state e')) = (n, b) ∧
         current_pressure e' = p ∧ pending_pressure e' = None ∧
         k = Zlen (entries (cache (semantic_state e))) - Zlen (entries (cache (semantic_state e')))
  else r = Ok (mkDecision p "deferred" n b 0) ∧ semantic_state e' = semantic_state e ∧
       current_pressure e' = current_pressure e ∧ pending_pressure e' = Some p.
Proof.
  intros He. pose proof (target_pos (normal_entries e) (normal_bytes e) p) as Hpos.
  pose proof (target_valid _ _ p (proj1 (proj2 He))) as Hvalid.
  unfold request, bind at 1, get. destruct (target _ _ p) as [n b] eqn:Et. cbn [fst snd] in *.
  destruct (bool_decide (p = MP_UNKNOWN)) eqn:Ep; breflect; [|destruct safe; cbn [negb]].
  - unfold lift. rewrite decision_ok by first [set_solver | lia]. done.
  - destruct He as (Hc & Hcap & _ & Hcur & _). unfold bind at 1, on_state, zoom, coordinator_resize, bind at 1.
    unfold on_cache, zoom. pose proof (anchor_resize_spec n b _ Hc) as Hr. rewrite Hvalid in Hr.
    destruct Hr as (gone & kept & Hsplit & Heq & Hinv & _). rewrite Heq in *. cbv beta iota. cbn [snd] in Hinv.
    set (s1 := mkCoordinator _ _ _ _ _ _ _ _ _).
    destruct (release_anchors_cache backend gone.*2 s1) as [H1 H2]. unfold bind at 1.
    destruct (release_anchors backend gone.*2 s1) as [[[]|] s2]; [|done]. cbn in H2. cbv beta iota.
    unfold bind, ret, modify, lift. cbv beta iota. rewrite decision_ok by first [set_solver | unfold Zlen; lia].
    unfold elastic_ok. cbn. rewrite H2. split_and!; try done.
    exists (Zlen gone.*2). split_and!; try done. rewrite Hsplit. unfold Zlen. rewrite length_app, length_fmap. cbn. lia.
  - unfold bind, modify, lift. rewrite decision_ok by first [set_solver | lia].
    destruct He as (Hc & Hcap & Heq & Hcur & Hpend). split_and!; try done. split_and!; try done. cbn. congruence.
Qed.

Lemma on_state_ok {A} (m : Py (SemanticStateCoordinator W) A) e c :
  capacity (cache (semantic_state e)) = c →
  cache_inv (cache (m (semantic_state e)).2) ∧ capacity (cache (m (semantic_state e)).2) = c →
  elastic_ok e → elastic_ok (on_state m e).2.
Proof.
  intros Hcap [Hinv Hc] (_ & Hv & Ht & Hcur & Hp). unfold on_state, zoom.
  destruct (m (semantic_state e)) as [r s']. split_and!; try done. cbn in *. congruence.
Qed.

Lemma elastic_pending_eq safe e :
  apply_pending backend safe e =
  match pending_pressure e with
  | None => (Ok None, e)
  | Some p =>
      if safe then
        match request backend p true e with
        | (Ok d, e') => (Ok (Some d), e')
        | (Raise x, e') => (Raise x, e')
        end
      else
        let '(n, b) := target (normal_entries e) (normal_bytes e) p in
        (match decision_check (mkDecision p "deferred" n b 0) with
         | Ok d => Ok (Some d) | Raise x => Raise x end, e)
  end.
Proof.
  unfold apply_pending, bind, get, ret. cbv beta iota. destruct (pending_pressure e) as [p|]; [|done].
  destruct safe; cbn [negb]; [done|].
  destruct (target (normal_entries e) (normal_bytes e) p) as [n b]. unfold lift. by destruct (decision_check _).
Qed.

Lemma elastic_step_normal e e' :
  elastic_step e e' → (normal_entries e', normal_bytes e') = (normal_entries e, normal_bytes e).
Proof.
  assert (Hreq : ∀ p safe e, normal_entries (request backend p safe e).2 = normal_entries e ∧
                             normal_bytes (request backend p safe e).2 = normal_bytes e).
  { intros p safe x. unfold request, bind, get. cbv beta iota.
    destruct (target (normal_entries x) (normal_bytes x) p) as [n b].
    destruct (bool_decide _); [done|]. destruct safe; cbn [negb]; [|done]. unfold on_state, zoom. cbv beta iota.
    by destruct (coordinator_resize backend n b (semantic_state x)) as [[k|x'] s']. }
  assert (Hon : ∀ A (m : Py (SemanticStateCoordinator W) A) e,
    normal_entries (on_state m e).2 = normal_entries e ∧ normal_bytes (on_state m e).2 = normal_bytes e).
  { intros A m x. unfold on_state, zoom. by destruct (m _). }
  intros Hst. destruct Hst as [p safe e|safe e|f p n k e|f bs e|e].
  1: by destruct (Hreq p safe e) as [-> ->].
  2-4: by edestruct Hon as [-> ->].
  rewrite elastic_pending_eq. destruct (pending_pressure e) as [p|]; [|done].
  destruct safe; [|by destruct (target (normal_entries e) (normal_bytes e) p)].
  destruct (Hreq p true e) as [H1 H2].
  destruct (request backend p true e) as [[d|x] e']; cbn in *; by rewrite H1, H2.
Qed.

Lemma elastic_step_ok e e' : elastic_ok e → elastic_step e e' → elastic_ok e'.
Proof.
  intros He Hst. pose proof He as (Hc & _). set (c := capacity (cache (semantic_state e))).
  set (P x := cache_inv x ∧ capacity x = c). assert (HP : P (cache (semantic_state e))) by done.
  assert (Hput : ∀ a x, P x → anchor_check a = Ok () → P (anchor_put a x).2).
  { intros a x [Hi Hx] Ha. split; [by apply put_inv|by rewrite put_capacity]. }
  assert (Hdeep : ∀ f bs x, P x → P (deepest_reusable f bs x).2).
  { intros f bs x [Hi Hx]. split; [by apply deepest_inv|by rewrite deepest_capacity]. }
  assert (Hdisc : ∀ f p x, P x → P (discard f p x).2).
  { intros f p x [Hi Hx]. split; [by apply discard_inv|by rewrite discard_capacity]. }
  destruct Hst as [p safe e|safe e|f p n k e|f bs e|e].
  - pose proof (request_spec p safe e He) as H. destruct (target _ _ p).
    by destruct (request backend p safe e) as [r e'], H as [? _].
  - rewrite elastic_pending_eq. destruct (pending_pressure e) as [p|]; [|done].
    destruct safe; [|by destruct (target (normal_entries e) (normal_bytes e) p)].
    pose proof (request_spec p true e He) as H. destruct (target _ _ p).
    destruct (request backend p true e) as [[d|x] e'], H as [? _]; done.
  - eapply on_state_ok; [done| |done]. by apply (capture_cache backend publisher P).
  - eapply on_state_ok; [done| |done]. by apply (restore_cache backend publisher P).
  - eapply on_state_ok; [done| |done]. by rewrite retry_cache.
Qed.

(** The elastic controller keeps the cache at the size the pressure asks for.
    Whatever the coordinator does in between, the capacity is always that of the
    pressure last applied: the normal one, half of it under warning, an eighth
    under critical pressure, at least one entry and byte.  A safe request always
    succeeds, resizes at once and reports how many anchors it evicted; an unsafe one
    is only remembered, and the next safe [apply_pending] applies the latest
    remembered pressure. *)
Theorem elastic_follows_pressure s0 e0 e p :
  new_elastic s0 = Ok e0 → cache_inv (cache s0) → rtc elastic_step e0 e → p ≠ MP_UNKNOWN →
  cache_inv (cache (semantic_state e)) ∧
  capacity (cache (semantic_state e)) = target (normal_entries e) (normal_bytes e) (current_pressure e) ∧
  (normal_entries e, normal_bytes e) = capacity (cache s0) ∧
  (let '(n, b) := target (normal_entries e) (normal_bytes e) p in
   let safe := request backend p true e in let later := request backend p false e in
   (∃ k, safe.1 = Ok (mkDecision p "applied" n b k) ∧
      k = Zlen (entries (cache (semantic_state e))) - Zlen (entries (cache (semantic_state safe.2)))) ∧
   capacity (cache (semantic_state safe.2)) = (n, b) ∧
   later.1 = Ok (mkDecision p "deferred" n b 0) ∧ semantic_state later.2 = semantic_state e ∧
   (∃ d, (apply_pending backend true later.2).1 = Ok (Some d) ∧ decision_pressure d = p ∧
      decision_status d = "applied" ∧
      capacity (cache (semantic_state (apply_pending backend true later.2).2)) = (n, b))).
Proof.
  intros Hnew Hc Hrun Hp.
  assert (He0 : elastic_ok e0 ∧ (normal_entries e0, normal_bytes e0) = capacity (cache s0)).
  { unfold new_elastic in Hnew. destruct (_ || _); simplify_eq. split; [|done].
    destruct Hc as [Hwf Hk Hb Hn Hm Hv] eqn:E. split_and!; try done. cbn.
    unfold target, capacity. destruct (capacity_pos _ _ Hv). rewrite !Z.div_1_r, !Z.max_r by lia. done. }
  assert (He : elastic_ok e ∧ (normal_entries e, normal_bytes e) = capacity (cache s0)).
  { eapply (rtc_invariant elastic_step
      (λ e, elastic_ok e ∧ (normal_entries e, normal_bytes e) = capacity (cache s0))); [|exact He0|exact Hrun].
    intros a b [Ha Hn] Hst. split; [by eapply elastic_step_ok|]. rewrite <-Hn. by apply elastic_step_normal. }
  destruct He as [He Hn]. split_and!; [by apply He|by apply He|done|].
  pose proof (request_spec p true e He) as H1. pose proof (request_spec p false e He) as H2.
  rewrite bool_decide_false in H1, H2 by done.
  destruct (target _ _ p) as [n b] eqn:Et. cbn zeta.
  destruct (request backend p true e) as [r1 e1], (request backend p false e) as [r2 e2].
  destruct H1 as (_ & _ & _ & k & -> & Hcap & _ & _ & Hk).
  destruct H2 as (He2 & Hne & Hnb & -> & Hs2 & Hcur2 & Hp2).
  split_and!; [by exists k|done|done|done|]. cbn [fst snd].
  rewrite elastic_pending_eq, Hp2.
  pose proof (request_spec p true e2 He2) as H3. rewrite bool_decide_false, Hne, Hnb, Et in H3 by done.
  destruct (request backend p true e2) as [r3 e3]. destruct H3 as (_ & _ & _ & k' & -> & Hcap3 & _).
  by eexists.
Qed.
End elastic_theorem.

(** ** Prefix fingerprints *)

(** A prefix within the limits has a fingerprint, and the hashed texts of different
    prefixes differ. *)
Lemma prefix_fingerprint_ok sha ts :
  is_ok (semantic_prefix_fingerprint sha ts) =
  bool_decide (ts ≠ []) && (Zlen ts <=? MAX_PREFIX_TOKENS) &&
  forallb (λ t, (0 <=? t) && (t <? 2 ^ 64)) ts.
Proof.
  unfold semantic_prefix_fingerprint. change (Z.shiftl 1 64) with (2 ^ 64).
  assert (Hex : existsb (λ t, negb ((0 <=? t) && (t <? 2 ^ 64))) ts =
                negb (forallb (λ t, (0 <=? t) && (t <? 2 ^ 64)) ts)).
  { induction ts as [|t ts IH]; [done|]. cbn [existsb forallb]. rewrite IH. by destruct (_ && _).  }
  rewrite Hex. rewrite bool_decide_not.
  rewrite Z.gtb_ltb, Z.ltb_antisym.
  pose proof (concat_bytes_ok 8 ts) as Hok. change (8 * Z.of_nat 8) with 64 in Hok. rewrite <-Hok.
  destruct (bool_decide (ts = [])), (Zlen ts <=? MAX_PREFIX_TOKENS); try done; cbn [negb orb andb].
  destruct (concat_bytes 8 ts); done.
Qed.

Lemma prefix_text_injective ts us l :
  concat_bytes 8 ts = Ok l → concat_bytes 8 us = Ok l → ts = us.
Proof. by apply concat_bytes_inj. Qed.

(** [_validate_sha256] accepts texts that are no SHA-256 digests: [int(value, 16)]
    allows a sign, a prefix, underscores and surrounding space. *)
Lemma sha256_check_accepts_decorated :
  validate_sha256 "prefix fingerprint"
    "  -0x_0000000000000000000000000000000000000000000000000000000f  " = Ok ().
Proof. reflexivity. Qed.

(** ** Examples *)

Fixpoint text_of (n : nat) (c : Ascii.ascii) : string :=
  match n with O => "" | S n' => String c (text_of n' c) end.
Definition demo_digest (c : Ascii.ascii) : string := text_of 64 c.
Definition demo_session : string := demo_digest (Ascii.ascii_of_nat 97).
Definition demo_prefix : string := demo_digest (Ascii.ascii_of_nat 98).
Definition demo_anchor : SemanticAnchor := mkAnchor demo_session demo_prefix 7 TURN "state-1" 10.
Definition demo_cache : SemanticAnchorCache :=
  mkCache 4 64 10 0 [(anchor_key demo_anchor, demo_anchor)].

Lemma demo_cache_inv : cache_inv demo_cache.
Proof.
  split; cbn; try done; try lia.
  - apply NoDup_singleton.
  - intros k a Hin. apply list_elem_of_singleton in Hin. simplify_eq. by vm_compute.
Qed.

(** A backend that keeps a set of states and names new ones freshly. *)
Definition demo_backend : SemanticStateBackend (gset string) := mkBackend
  (λ _ _ _ _ w, (Ok (Some (mkReference (fresh w) 10)), {[fresh w]} ∪ w))
  (λ _ w, (Ok true, w))
  (λ h w, (Ok (), w ∖ {[h]})).

#[export] Instance demo_contract : BackendContract demo_backend None id.
Proof. split; cbn; [intros; split; [apply is_fresh|done]|done|done|done]. Qed.

Lemma semantic_cache_lru_witness :
  (anchor_put (mkAnchor demo_session demo_session 9 TURN "state-2" 60) demo_cache).1 =
    Ok [demo_anchor] ∧
  (cache_clear demo_cache).1 = (entries demo_cache).*2.
Proof.
  split; [by vm_compute|].
  apply (semantic_cache_lru (mkAnchor demo_session demo_session 9 TURN "state-2" 60) demo_cache 2 32
           demo_session demo_prefix); [apply demo_cache_inv|by vm_compute|by vm_compute].
Defined.

Lemma deepest_reusable_correct_witness :
  match deepest_reusable demo_session [(3, demo_session); (7, demo_prefix)] demo_cache with
  | (Ok (Some a), c') => entries c' ≡ₚ entries demo_cache
  | _ => False
  end.
Proof.
  pose proof (deepest_reusable_correct demo_session [(3, demo_session); (7, demo_prefix)] demo_cache
                demo_cache_inv) as H.
  cbv zeta in H.
  destruct (deepest_reusable demo_session [(3, demo_session); (7, demo_prefix)] demo_cache)
    as [[[a|]|e] c'] eqn:E.
  - apply H.
  - vm_compute in E. discriminate E.
  - vm_compute in E. discriminate E.
Defined.

Lemma semantic_handles_accounted_witness :
  let s := (capture demo_backend None demo_session demo_prefix 7 TURN
              (new_coordinator (mkCache 4 64 0 0 []) (∅ : gset string))).2 in
  Z.of_nat (size (world s)) = Zlen (entries (cache s)) + Zlen (pending s) + dropped_release_handles s.
Proof.
  intros s. refine (proj1 (proj2 (proj2 (semantic_handles_accounted demo_backend None id 4 64
    (mkCache 4 64 0 0 []) ∅ s eq_refl eq_refl _)))).
  eapply rtc_l; [apply StepCapture|apply rtc_refl].
Defined.

Lemma elastic_follows_pressure_witness :
  let e := (request demo_backend MP_CRITICAL true
              (mkElastic (new_coordinator demo_cache (∅ : gset string)) 4 64 MP_NORMAL None 0 0 0)).2 in
  capacity (cache (semantic_state e)) = target (normal_entries e) (normal_bytes e) (current_pressure e).
Proof.
  intros e. refine (proj1 (proj2 (elastic_follows_pressure demo_backend None
    (new_coordinator demo_cache (∅ : gset string))
    (mkElastic (new_coordinator demo_cache ∅) 4 64 MP_NORMAL None 0 0 0) e MP_WARNING
    eq_refl demo_cache_inv _ _))); [|done].
  eapply rtc_l; [apply ElasticRequest|apply rtc_refl].
Defined.

(** *** Retries that overlap *)

(** A backend that counts the releases of each handle, and never fails. *)
Definition counting_backend : SemanticStateBackend (list string) := mkBackend
  (λ _ _ _ _ l, (Ok None, l)) (λ _ l, (Ok true, l)) (λ h l, (Ok (), h :: l)).
Definition pending_one : SemanticStateCoordinator (list string) :=
  mkCoordinator demo_cache 0 0 0 0 0 0 [("state-9"%string, ())] [].
(** Two threads that retry at once both read the pending handle, and both release it. *)
Lemma overlapping_retries_release_twice :
  world (retry_pending_releases counting_backend
           [λ s, (retry_pending_releases counting_backend [] s).2] pending_one).2
  = ["state-9"; "state-9"]%string.
Proof. vm_compute. done. Qed.

End SemanticCache.
