(* ===== verification/BackendEngine.v ===== *)
(** * Exchangeable backend engines
      (inference_request.py, fault_injection.py, backend_engine.py)

    The cancellation check of a request, the deterministic fault injector, and the
    registry that runs a request on the first candidate engine that can serve it.
    Engines, the cancellation signal and the clock belong to the host, whose state
    is [W]. *)

From S2P Require Import Prelude Types OrderedDict PyFloat.

Module BackendEngine.
Import OrderedDict PyFloat.

(** ** Request contexts *)

Record InferenceRequestContext (W : Type) := mkContext {
  request_id : string;
  deadline : float;
  is_set : Py W bool;            (* cancellation.is_set() *)
}.
Arguments mkContext {W}.
Arguments request_id {W}.
Arguments deadline {W}.
Arguments is_set {W}.

(** [InferenceRequestContext.__post_init__] *)
Definition context_check {W} (c : InferenceRequestContext W) : res exn () :=
  check ((1 <=? str_len (request_id c)) && (str_len (request_id c) <=? 128) && is_finite (deadline c))
    (ValueError "invalid inference request context") ().

(** [remaining_seconds] at the time [now]. *)
Definition remaining_seconds {W} (c : InferenceRequestContext W) (now : float) : float :=
  fmax zero (fsub (deadline c) now).

(** [raise_if_cancelled]; [monotonic] is the clock. *)
Definition raise_if_cancelled {W} (monotonic : Py W float) (c : InferenceRequestContext W) : Py W () :=
  let! cancelled := is_set c in
  if (cancelled : bool) then raise (InferenceRequestCancelled "inference request client disconnected")
  else
    let! now := monotonic in
    guard_raise (fleb (remaining_seconds c now) zero)
      (InferenceRequestCancelled "inference request timed out").

(** ** Fault injection *)

Definition MAX_FAULT_RULES : Z := 32.

Record FaultRule := mkRule {
  rule_point : FaultPoint;
  rule_action : FaultAction;
  trigger_on_hit : Z;
  repeat_rule : bool;
}.

(** [FaultRule.__post_init__] *)
Definition rule_check (r : FaultRule) : res exn () :=
  check ((1 <=? trigger_on_hit r) && (trigger_on_hit r <=? 1000000))
    (ValueError "invalid fault injection rule") ().

(** A counter for each member of [FaultPoint]. *)
Record ByPoint := mkByPoint { at_execute : Z; at_stop : Z }.
Definition at_point (p : FaultPoint) (b : ByPoint) : Z :=
  match p with BACKEND_EXECUTE => at_execute b | BACKEND_STOP => at_stop b end.
Definition incr_point (p : FaultPoint) (b : ByPoint) : ByPoint :=
  match p with
  | BACKEND_EXECUTE => mkByPoint (at_execute b + 1) (at_stop b)
  | BACKEND_STOP => mkByPoint (at_execute b) (at_stop b + 1)
  end.

Record DeterministicFaultInjector := mkInjector {
  rules : list FaultRule;
  hits : ByPoint;
  injections : ByPoint;
}.

(** [DeterministicFaultInjector.__init__] *)
Definition new_injector (rs : list FaultRule) : res exn DeterministicFaultInjector :=
  check (negb ((Zlen rs >? MAX_FAULT_RULES) || negb (bool_decide (NoDup (rule_point <$> rs)))))
    (ValueError "fault injection rules must be bounded and unique")
    (mkInjector rs (mkByPoint 0 0) (mkByPoint 0 0)).

Definition rule_at (p : FaultPoint) (rs : list FaultRule) : option FaultRule :=
  List.find (λ r, bool_decide (rule_point r = p)) rs.

(** [DeterministicFaultInjector.hit] *)
Definition hit (p : FaultPoint) : Py DeterministicFaultInjector () := λ i,
  let i1 := mkInjector (rules i) (incr_point p (hits i)) (injections i) in
  match rule_at p (rules i) with
  | None => (Ok (), i1)
  | Some r =>
      let n := at_point p (hits i1) in
      if (if repeat_rule r then n >=? trigger_on_hit r else n =? trigger_on_hit r)
      then (Raise (InjectedFault p (rule_action r)), mkInjector (rules i) (hits i1) (incr_point p (injections i)))
      else (Ok (), i1)
  end.

(** ** Descriptors and requests *)

Definition MAX_BACKEND_METADATA_VALUES : Z := 128.
Definition MAX_BACKEND_TELEMETRY_KEYS : Z := 256.

(** Some character is a control character. *)
Fixpoint has_control (s : string) : bool :=
  match s with
  | EmptyString => false
  | String c s' => Nat.ltb (Ascii.nat_of_ascii c) 32 || has_control s'
  end.

(** [_values] *)
Definition values_check (values : list string) (label : string) : res exn () :=
  check (negb (bool_decide (values = []) || (Zlen values >? MAX_BACKEND_METADATA_VALUES)
               || negb (bool_decide (NoDup values))
               || existsb (λ v, negb ((1 <=? str_len v) && (str_len v <=? 128)) || has_control v) values))
    (ValueError ("invalid backend engine " +:+ label)) ().

Record BackendEngineDescriptor := mkDescriptor {
  d_backend : ExecutionBackend;
  version : string;
  model_architectures : list string;
  precisions : list string;
  phases : list WorkloadPhase;
  operators : list string;
  isolation : string;
  d_schema_version : Z;
}.

(** The checks of a constructor, one after the other. *)
Fixpoint all_checks (l : list (res exn ())) : res exn () :=
  match l with
  | [] => Ok ()
  | Ok _ :: l' => all_checks l'
  | Raise e :: _ => Raise e
  end.

(** [BackendEngineDescriptor.__post_init__] *)
Definition descriptor_check (d : BackendEngineDescriptor) : res exn () :=
  all_checks
    [check (d_schema_version d =? 1) (ValueError "invalid backend engine descriptor version") ();
     values_check [version d] "version";
     values_check (model_architectures d) "model architectures";
     values_check (precisions d) "precisions";
     values_check (operators d) "operators";
     check (negb (bool_decide (phases d = []) || negb (bool_decide (NoDup (phases d)))))
       (ValueError "invalid backend engine phases") ();
     check (bool_decide (isolation d ∈ ["in_process"; "dedicated_thread"; "subprocess"]))
       (ValueError "invalid backend engine isolation") ()].

Record BackendEngineRequest (P : Type) := mkEngineRequest {
  operator : string;
  phase : WorkloadPhase;
  precision : string;
  model_architecture : string;
  candidates : list ExecutionBackend;
  payload : P;
}.
Arguments mkEngineRequest {P}.
Arguments operator {P}.
Arguments phase {P}.
Arguments precision {P}.
Arguments model_architecture {P}.
Arguments candidates {P}.
Arguments payload {P}.

(** [BackendEngineRequest.__post_init__] *)
Definition request_check {P} (r : BackendEngineRequest P) : res exn () :=
  all_checks
    [values_check [operator r] "request operator";
     values_check [precision r] "request precision";
     values_check [model_architecture r] "request architecture";
     check (negb (bool_decide (candidates r = [])
                  || (Zlen (candidates r) >? Zlen ExecutionBackend_members)
                  || negb (bool_decide (NoDup (candidates r)))))
       (ValueError "invalid backend engine request") ()].

Record BackendEngineAttempt := mkAttempt {
  at_backend : ExecutionBackend;
  at_status : string;
  at_reason : option string;
}.

(** [BackendEngineAttempt.__post_init__]; [_values((None,))] raises too. *)
Definition make_attempt (b : ExecutionBackend) (status : string) (reason : option string)
    : res exn BackendEngineAttempt :=
  if negb (bool_decide (status ∈ ["rejected"; "failed"; "succeeded"]))
  then Raise (ValueError "invalid backend engine attempt status")
  else if str_eqb status "succeeded" && is_some reason
  then Raise (ValueError "successful backend engine attempt cannot have a reason")
  else if negb (str_eqb status "succeeded")
  then match reason with
       | None => Raise (ValueError "invalid backend engine attempt reason")
       | Some r => match values_check [r] "attempt reason" with
                   | Ok _ => Ok (mkAttempt b status reason)
                   | Raise e => Raise e
                   end
       end
  else Ok (mkAttempt b status reason).

Record BackendEngineResult (R : Type) := mkEngineResult {
  value : R;
  backend : ExecutionBackend;
  attempts : list BackendEngineAttempt;
}.
Arguments mkEngineResult {R}.
Arguments value {R}.
Arguments backend {R}.
Arguments attempts {R}.

(** ** The registry *)

(** [BackendEngine]: an engine of the host. *)
Record Engine (W P R : Type) := mkEngine {
  descriptor : BackendEngineDescriptor;
  ready : W → bool;
  engine_execute : BackendEngineRequest P → InferenceRequestContext W → Py W R;
  stop : Py W ();
}.
Arguments mkEngine {W P R}.
Arguments descriptor {W P R}.
Arguments ready {W P R}.
Arguments engine_execute {W P R}.
Arguments stop {W P R}.

(** The mutable part of [BackendEngineRegistry], with the host's state. *)
Record RegistryState (W : Type) := mkRegistry {
  fault_injector : option DeterministicFaultInjector;
  telemetry : gmap (string * string * string) Z;
  telemetry_overflow : Z;
  world : W;
}.
Arguments mkRegistry {W}.
Arguments fault_injector {W}.
Arguments telemetry {W}.
Arguments telemetry_overflow {W}.
Arguments world {W}.

Section registry.
Context {W P R : Type} (monotonic : Py W float).
Abbreviation Engines := (list (ExecutionBackend * Engine W P R)).
Abbreviation State := (RegistryState W).

(** [BackendEngineRegistry.__init__] *)
Definition new_registry (engines : list (Engine W P R)) (i : option DeterministicFaultInjector) (w : W)
    : res exn (Engines * State) :=
  check (negb (bool_decide (engines = []) || (Zlen engines >? Zlen ExecutionBackend_members)
               || negb (bool_decide (NoDup ((λ e, d_backend (descriptor e)) <$> engines)))))
    (ValueError "backend engine registry entries are invalid")
    ((λ e, (d_backend (descriptor e), e)) <$> engines, mkRegistry i ∅ 0 w).

Definition on_world {A} (m : Py W A) : Py State A :=
  zoom world (λ w s, mkRegistry (fault_injector s) (telemetry s) (telemetry_overflow s) w) m.

(** [if self._fault_injector is not None: self._fault_injector.hit(point)] *)
Definition hit_injector (p : FaultPoint) : Py State () := λ s,
  match fault_injector s with
  | None => (Ok (), s)
  | Some i => let '(r, i') := hit p i in
              (r, mkRegistry (Some i') (telemetry s) (telemetry_overflow s) (world s))
  end.

(** [_record_attempt] *)
Definition record_attempt (b : ExecutionBackend) (status reason : string) (s : State) : State :=
  let key := (ExecutionBackend_value b, status, reason) in
  match telemetry s !! key with
  | Some n => mkRegistry (fault_injector s) (<[key := n + 1]> (telemetry s)) (telemetry_overflow s) (world s)
  | None =>
      if Zsize (telemetry s) <? MAX_BACKEND_TELEMETRY_KEYS
      then mkRegistry (fault_injector s) (<[key := 1]> (telemetry s)) (telemetry_overflow s) (world s)
      else mkRegistry (fault_injector s) (telemetry s) (telemetry_overflow s + 1) (world s)
  end.

(** [_ineligible_reason] *)
Definition ineligible_reason (e : option (Engine W P R)) (r : BackendEngineRequest P) (w : W)
    : option string :=
  match e with
  | None => Some "backend_unregistered"
  | Some e =>
      let d := descriptor e in
      if negb (ready e w) then Some "backend_not_ready"
      else if negb (bool_decide (operator r ∈ operators d)) then Some "operator_unsupported"
      else if negb (bool_decide (phase r ∈ phases d)) then Some "phase_unsupported"
      else if negb (bool_decide (precision r ∈ precisions d)) then Some "precision_unsupported"
      else if negb (bool_decide (model_architecture r ∈ model_architectures d))
      then Some "architecture_unsupported"
      else None
  end.

Definition FaultAction_value (a : FaultAction) : string :=
  match a with RETRYABLE => "retryable" | FATAL => "fatal" | TIMEOUT => "timeout" end.

(** The code and retryability of an injected fault. *)
Definition injected_code (a : FaultAction) : string * bool :=
  match a with
  | TIMEOUT => ("injected_backend_timeout", true)
  | _ => ("injected_backend_" +:+ FaultAction_value a, bool_decide (a = RETRYABLE))
  end.

(** [attempts.append(...)] with its telemetry. *)
Definition note_attempt (b : ExecutionBackend) (status : string) (reason : option string)
    (telemetry_reason : string) (done_ : list BackendEngineAttempt) : Py State (list BackendEngineAttempt) :=
  let! a := lift (make_attempt b status reason) in
  modify (record_attempt b status telemetry_reason) ;;;
  ret (done_ ++ [a]).

(** The loop of [BackendEngineRegistry.execute] over the candidates left. *)
Fixpoint execute_chain (engines : Engines) (r : BackendEngineRequest P) (c : InferenceRequestContext W)
    (left : list ExecutionBackend) (done_ : list BackendEngineAttempt)
    : Py State (BackendEngineResult R) := λ s,
  match left with
  | [] => (Raise (BackendEngineFailure "backend_engine_fallback_exhausted" false), s)
  | b :: left' =>
      let engine := od_get b engines in
      match ineligible_reason engine r (world s), engine with
      | Some reason, _ =>
          (let! done' := note_attempt b "rejected" (Some reason) reason done_ in
           execute_chain engines r c left' done') s
      | None, None => (Raise AssertionError, s)
      | None, Some e =>
          match on_world (raise_if_cancelled monotonic c) s with
          | (Raise x, s1) => (Raise x, s1)
          | (Ok _, s1) =>
              match (hit_injector BACKEND_EXECUTE ;;; on_world (engine_execute e r c)) s1 with
              | (Ok v, s2) =>
                  (on_world (raise_if_cancelled monotonic c) ;;;
                   let! done' := note_attempt b "succeeded" None "none" done_ in
                   ret (mkEngineResult v b done')) s2
              | (Raise (InjectedFault _ action), s2) =>
                  let '(code, retryable) := injected_code action in
                  (let! done' := note_attempt b "failed" (Some code) code done_ in
                   if (retryable : bool) then execute_chain engines r c left' done'
                   else raise (BackendEngineFailure code false)) s2
              | (Raise (BackendEngineFailure code retryable), s2) =>
                  (let! done' := note_attempt b "failed" (Some code) code done_ in
                   if (retryable : bool) then execute_chain engines r c left' done'
                   else raise (BackendEngineFailure code retryable)) s2
              | (Raise x, s2) => (Raise x, s2)
              end
          end
      end
  end.

(** [BackendEngineRegistry.execute] *)
Definition execute (engines : Engines) (r : BackendEngineRequest P) (c : InferenceRequestContext W)
    : Py State (BackendEngineResult R) :=
  execute_chain engines r c (candidates r) [].

(** The loop of [stop_all]; [except Exception] takes every modelled exception. *)
Fixpoint stop_loop (engines : Engines) (failures : list (string * string)) : Py State (list (string * string)) :=
  match engines with
  | [] => ret failures
  | (b, e) :: engines' => λ s,
      match (hit_injector BACKEND_STOP ;;; on_world (stop e)) s with
      | (Ok _, s') => stop_loop engines' failures s'
      | (Raise x, s') => stop_loop engines' (failures ++ [(ExecutionBackend_value b, exn_name x)]) s'
      end
  end.

(** The text of the list of failures in an f-string. *)
Definition repr_failures (l : list (string * string)) : string :=
  ("[" +:+ str_join ", " ((λ p, "('" +:+ p.1 +:+ "', '" +:+ p.2 +:+ "')") <$> l) +:+ "]")%string.

(** [BackendEngineRegistry.stop_all] *)
Definition stop_all (engines : Engines) : Py State () :=
  let! failures := stop_loop (rev engines) [] in
  match failures with
  | [] => ret ()
  | _ => raise (RuntimeError ("backend engine shutdown failures: " +:+ repr_failures failures))
  end.

(** The counts of [telemetry_snapshot]; the overflow count is a field. *)
Definition telemetry_count (b : ExecutionBackend) (status reason : string) (s : State) : Z :=
  default 0 (telemetry s !! (ExecutionBackend_value b, status, reason)).

(** ** Lemmas *)

(** Telemetry keeps to its bound and counts from one. *)
Definition telemetry_inv (s : State) : Prop :=
  Zsize (telemetry s) <= MAX_BACKEND_TELEMETRY_KEYS ∧ map_Forall (λ _ n, 1 <= n) (telemetry s).
(** All attempts the telemetry has seen. *)
Definition telemetry_total (s : State) : Z := map_sum id (telemetry s) + telemetry_overflow s.

Lemma record_attempt_spec b st rs s :
  telemetry_inv s →
  telemetry_inv (record_attempt b st rs s) ∧
  telemetry_total (record_attempt b st rs s) = telemetry_total s + 1.
Proof.
  intros [Hn Hf]. unfold record_attempt, telemetry_inv, telemetry_total.
  destruct (telemetry s !! _) as [n|] eqn:E.
  - cbn. split; [split|].
    + unfold Zsize in *. rewrite map_size_insert_Some by eauto. done.
    + apply map_Forall_insert_2; [|done]. specialize (Hf _ _ E). cbn in Hf. lia.
    + rewrite (map_sum_replace id _ _ n _ E). unfold id. lia.
  - destruct (_ <? _) eqn:Eb; breflect; cbn; (split; [split|]).
    + rewrite Zsize_insert_fresh by done. unfold MAX_BACKEND_TELEMETRY_KEYS in *. lia.
    + by apply map_Forall_insert_2.
    + rewrite map_sum_insert by done. unfold id. lia.
    + done.
    + done.
    + lia.
Qed.

Lemma on_world_telemetry {A} (m : Py W A) s :
  telemetry (on_world m s).2 = telemetry s ∧ telemetry_overflow (on_world m s).2 = telemetry_overflow s.
Proof. unfold on_world, zoom. by destruct (m (world s)). Qed.

Lemma hit_injector_telemetry p s :
  telemetry (hit_injector p s).2 = telemetry s ∧
  telemetry_overflow (hit_injector p s).2 = telemetry_overflow s.
Proof. unfold hit_injector. destruct (fault_injector s) as [i|]; [|done]. by destruct (hit p i). Qed.

(** Nothing that leaves the telemetry alone matters to it. *)
Lemma telemetry_same s s' :
  telemetry s' = telemetry s ∧ telemetry_overflow s' = telemetry_overflow s → telemetry_inv s →
  telemetry_inv s' ∧ telemetry_total s' = telemetry_total s.
Proof. intros [H1 H2] Hs. unfold telemetry_inv, telemetry_total in *. by rewrite H1, H2. Qed.

Lemma attempt_telemetry p (m : Py W R) s :
  telemetry ((hit_injector p ;;; on_world m) s).2 = telemetry s ∧
  telemetry_overflow ((hit_injector p ;;; on_world m) s).2 = telemetry_overflow s.
Proof.
  unfold bind. destruct (hit_injector_telemetry p s) as [H1 H2].
  destruct (hit_injector p s) as [[[]|x] s1]; [|done]. cbn in H1, H2.
  destruct (on_world_telemetry m s1) as [H3 H4]. by rewrite H3, H4.
Qed.

Lemma note_attempt_spec b st reason tr done_ s :
  telemetry_inv s →
  match note_attempt b st reason tr done_ s with
  | (Ok l, s') => l = done_ ++ [mkAttempt b st reason] ∧ telemetry_inv s' ∧
                  telemetry_total s' = telemetry_total s + 1
  | (Raise _, s') => s' = s
  end.
Proof.
  intros Hs. unfold note_attempt, bind, lift, modify, ret, make_attempt.
  destruct (record_attempt_spec b st tr s Hs). repeat case_match; simplify_eq/=; done.
Qed.

(** What the loop has done when it returns or raises. *)
Lemma execute_chain_spec engines r c left : ∀ done_ s,
  telemetry_inv s →
  match execute_chain engines r c left done_ s with
  | (Ok res, s') => ∃ pre b post tried e w,
      left = pre ++ b :: post ∧ backend res = b ∧
      attempts res = done_ ++ tried ++ [mkAttempt b "succeeded" None] ∧
      at_backend <$> tried = pre ∧
      Forall (λ a, at_status a = "rejected" ∨ at_status a = "failed") tried ∧
      od_get b engines = Some e ∧ ineligible_reason (Some e) r w = None ∧
      telemetry_inv s' ∧ telemetry_total s' = telemetry_total s + Zlen tried + 1
  | (Raise _, s') => telemetry_inv s' ∧
      telemetry_total s <= telemetry_total s' <= telemetry_total s + Zlen left
  end.
Proof.
  induction left as [|b left IH]; intros done_ s Hs; cbn [execute_chain].
  { split; [done|]. unfold Zlen. cbn. lia. }
  (* after an unsuccessful candidate *)
  assert (Hnext : ∀ st rs tr s0, telemetry_inv s0 → telemetry_total s0 = telemetry_total s →
    (st = "rejected" ∨ st = "failed") → ∀ (retry : bool) x,
    match (let! done' := note_attempt b st rs tr done_ in
           if retry then execute_chain engines r c left done' else raise x) s0 with
    | (Ok res, s') => ∃ pre b0 post tried e w,
        b :: left = pre ++ b0 :: post ∧ backend res = b0 ∧
        attempts res = done_ ++ tried ++ [mkAttempt b0 "succeeded" None] ∧
        at_backend <$> tried = pre ∧
        Forall (λ a, at_status a = "rejected" ∨ at_status a = "failed") tried ∧
        od_get b0 engines = Some e ∧ ineligible_reason (Some e) r w = None ∧
        telemetry_inv s' ∧ telemetry_total s' = telemetry_total s + Zlen tried + 1
    | (Raise _, s') => telemetry_inv s' ∧
        telemetry_total s <= telemetry_total s' <= telemetry_total s + Zlen (b :: left)
    end).
  { intros st rs tr s0 Hs0 Ht0 Hst retry x. unfold bind. pose proof (note_attempt_spec b st rs tr done_ s0 Hs0) as Hn.
    assert (Zlen (b :: left) = Zlen left + 1) by (unfold Zlen; cbn; lia). pose proof (Zlen_nonneg left).
    destruct (note_attempt b st rs tr done_ s0) as [[l|y] s1]; [|subst s1; split; [done|lia]].
    destruct Hn as (-> & Hs1 & Ht1). destruct retry; [|split; [done|cbn; lia]].
    specialize (IH (done_ ++ [mkAttempt b st rs]) s1 Hs1).
    destruct (execute_chain engines r c left _ s1) as [[res|y] s2]; [|destruct IH; split; [done|lia]].
    destruct IH as (pre & b0 & post & tried & e & w & -> & Hb & Ha & Hp & Hf & He & Hi & Hs2 & Ht2).
    exists (b :: pre), b0, post, (mkAttempt b st rs :: tried), e, w. split_and!; try done.
    - rewrite Ha, <-app_assoc. done.
    - cbn. by rewrite Hp.
    - by constructor.
    - unfold Zlen in *. cbn. lia. }
  destruct (ineligible_reason _ _ _) as [reason|] eqn:Ei.
  { apply (Hnext "rejected" (Some reason) reason s Hs eq_refl ltac:(by left) true AssertionError). }
  destruct (od_get b engines) as [e|] eqn:Ee; [|done].
  destruct (telemetry_same _ _ (on_world_telemetry (raise_if_cancelled monotonic c) s) Hs) as [Hs1 Ht1].
  pose proof (Zlen_nonneg (b :: left)).
  destruct (on_world (raise_if_cancelled monotonic c) s) as [[[]|x] s1]; [|split; [done|cbn in Ht1; lia]].
  destruct (telemetry_same _ _ (attempt_telemetry BACKEND_EXECUTE (engine_execute e r c) s1) Hs1) as [Hs2 Ht2].
  destruct ((hit_injector BACKEND_EXECUTE ;;; on_world (engine_execute e r c)) s1) as [[v|x] s2].
  - cbn in *. unfold bind at 1.
    destruct (telemetry_same _ _ (on_world_telemetry (raise_if_cancelled monotonic c) s2) Hs2) as [Hs3 Ht3].
    destruct (on_world (raise_if_cancelled monotonic c) s2) as [[[]|x] s3]; [|split; [done|cbn in Ht3; lia]].
    cbn in *. unfold bind. pose proof (note_attempt_spec b "succeeded" None "none" done_ s3 Hs3) as Hn.
    destruct (note_attempt b "succeeded" None "none" done_ s3) as [[l|y] s4]; [|subst s4; split; [done|lia]].
    destruct Hn as (-> & Hs4 & Ht4). exists [], b, left, [], e, (world s). split_and!; try done.
    unfold Zlen. cbn. lia.
  - cbn [snd] in Hs2, Ht2, Ht1. assert (Ht : telemetry_total s2 = telemetry_total s) by congruence.
    destruct x; try (split; [done|lia]).
    + destruct (injected_code action) as [code retryable]. by apply Hnext; auto.
    + by apply Hnext; auto.
Qed.

(** [stop_all] stops every engine whatever the others do. *)
Lemma stop_loop_world (engines : Engines) fs s :
  fault_injector s = None →
  (stop_loop engines fs s).2 =
    mkRegistry None (telemetry s) (telemetry_overflow s)
      (foldl (λ w p, (stop p.2 w).2) (world s) engines).
Proof.
  revert fs s. induction engines as [|[b e] engines IH]; intros fs s Hi; cbn [stop_loop foldl].
  { destruct s; cbn in *. by subst. }
  unfold bind, hit_injector, on_world, zoom. rewrite Hi. cbv beta iota. cbn [snd].
  destruct (stop e (world s)) as [[[]|x] w'] eqn:Es; cbv beta iota; by rewrite IH.
Qed.
Lemma stop_loop_failures (engines : Engines) : ∀ fs s,
  fault_injector s = None →
  ∃ fs', (stop_loop engines fs s).1 = Ok (fs ++ fs') ∧
    (fs' = [] ↔ ∀ pre b e post, engines = pre ++ (b, e) :: post →
       is_ok (stop e (foldl (λ w p, (stop p.2 w).2) (world s) pre)).1).
Proof.
  induction engines as [|[b e] engines IH]; intros fs s Hi; cbn [stop_loop].
  { exists []. rewrite app_nil_r. split; [done|]. split; [|done]. by intros _ [|? ?] ? ? ? ?. }
  unfold bind, hit_injector, on_world, zoom. rewrite Hi. cbv beta iota.
  destruct (stop e (world s)) as [[[]|x] w'] eqn:Es; cbv beta iota.
  - destruct (IH fs (mkRegistry None (telemetry s) (telemetry_overflow s) w') eq_refl) as (fs' & H1 & H2).
    rewrite Hi. exists fs'. split; [done|]. rewrite H2. cbn. split; intros H pre b' e' post Heq.
    + destruct pre as [|[b1 e1] pre]; cbn in Heq; simplify_eq; cbn; [by rewrite Es|].
      rewrite Es. by eapply H.
    + specialize (H ((b, e) :: pre) b' e' post ltac:(by rewrite Heq)). cbn in H. by rewrite Es in H.
  - destruct (IH (fs ++ [(ExecutionBackend_value b, exn_name x)])
                (mkRegistry None (telemetry s) (telemetry_overflow s) w') eq_refl) as (fs' & H1 & H2).
    rewrite Hi, H1, <-app_assoc. eexists. split; [done|]. split; [done|]. intros H.
    specialize (H [] b e engines eq_refl). cbn in H. by rewrite Es in H.
Qed.

(** ** What a run of the chain is

    Why an engine is passed over, and when it can serve. *)
Definition able (e : Engine W P R) (r : BackendEngineRequest P) (w : W) : Prop :=
  ready e w = true ∧ operator r ∈ operators (descriptor e) ∧ phase r ∈ phases (descriptor e) ∧
  precision r ∈ precisions (descriptor e) ∧ model_architecture r ∈ model_architectures (descriptor e).
Inductive refused (engines : Engines) (r : BackendEngineRequest P) (b : ExecutionBackend) (w : W) : string → Prop :=
| refused_unregistered : od_get b engines = None → refused engines r b w "backend_unregistered"
| refused_not_ready e : od_get b engines = Some e → ready e w = false → refused engines r b w "backend_not_ready"
| refused_operator e : od_get b engines = Some e → ready e w = true → (operator r ∉ operators (descriptor e)) → refused engines r b w "operator_unsupported"
| refused_phase e : od_get b engines = Some e → ready e w = true → operator r ∈ operators (descriptor e) →
    (phase r ∉ phases (descriptor e)) → refused engines r b w "phase_unsupported"
| refused_precision e : od_get b engines = Some e → ready e w = true → operator r ∈ operators (descriptor e) →
    phase r ∈ phases (descriptor e) → (precision r ∉ precisions (descriptor e)) → refused engines r b w "precision_unsupported"
| refused_architecture e : od_get b engines = Some e → ready e w = true → operator r ∈ operators (descriptor e) → phase r ∈ phases (descriptor e) →
    precision r ∈ precisions (descriptor e) → (model_architecture r ∉ model_architectures (descriptor e)) → refused engines r b w "architecture_unsupported".
(** The code a failure is recorded under, and whether the next candidate may be tried. *)
Inductive fails_as : exn → string → bool → Prop :=
| fails_engine code retryable : fails_as (BackendEngineFailure code retryable) code retryable
| fails_timeout p : fails_as (InjectedFault p TIMEOUT) "injected_backend_timeout" true
| fails_retryable p : fails_as (InjectedFault p RETRYABLE) "injected_backend_retryable" true
| fails_fatal p : fails_as (InjectedFault p FATAL) "injected_backend_fatal" false.

Section chain.
Context (engines : Engines) (r : BackendEngineRequest P) (c : InferenceRequestContext W).
Abbreviation poll := (on_world (raise_if_cancelled monotonic c)).
Abbreviation call e := (hit_injector BACKEND_EXECUTE ;;; on_world (engine_execute e r c)).
(** Backend [b] was called in [s], and what came of it. *)
Definition called (b : ExecutionBackend) (s : State) (outcome : res exn R) (s' : State) : Prop :=
  ∃ e s1, od_get b engines = Some e ∧ able e r (world s) ∧ poll s = (Ok (), s1) ∧ call e s1 = (outcome, s').
(** Candidates tried without success, the attempts they left and the state after them. *)
Inductive tries : list ExecutionBackend → State → list BackendEngineAttempt → State → Prop :=
| tries_nil s : tries [] s [] s
| tries_rejected b l s reason a s' : refused engines r b (world s) reason →
    tries l (record_attempt b "rejected" reason s) a s' → tries (b :: l) s (mkAttempt b "rejected" (Some reason) :: a) s'
| tries_failed b l s x code s1 a s' : called b s (Raise x) s1 → fails_as x code true →
    tries l (record_attempt b "failed" code s1) a s' → tries (b :: l) s (mkAttempt b "failed" (Some code) :: a) s'.
(** A candidate at which the run stops: cancelled before or after its call, failed for good,
    failed otherwise, or failed with a code no attempt can carry. *)
Inductive stopped (b : ExecutionBackend) (s : State) : exn → State → Prop :=
| stopped_before e x s' : od_get b engines = Some e → able e r (world s) → poll s = (Raise x, s') → stopped b s x s'
| stopped_after v s1 x s' : called b s (Ok v) s1 → poll s1 = (Raise x, s') → stopped b s x s'
| stopped_fatal x code s1 : called b s (Raise x) s1 → fails_as x code false →
    stopped b s (BackendEngineFailure code false) (record_attempt b "failed" code s1)
| stopped_error x s1 : called b s (Raise x) s1 → (∀ code retryable, ¬ fails_as x code retryable) → stopped b s x s1
| stopped_code x code retryable y s1 : called b s (Raise x) s1 → fails_as x code retryable →
    make_attempt b "failed" (Some code) = Raise y → stopped b s y s1.

Lemma ineligible_spec b w : match ineligible_reason (od_get b engines) r w with
  | Some reason => refused engines r b w reason ∧ make_attempt b "rejected" (Some reason) = Ok (mkAttempt b "rejected" (Some reason))
  | None => ∃ e, od_get b engines = Some e ∧ able e r w
  end.
Proof.
  unfold ineligible_reason. destruct (od_get b engines) as [e|] eqn:Ee; [|by split; [constructor|]].
  destruct (ready e w) eqn:Er; cbn [negb]; [|by split; [econstructor|]].
  repeat (case_bool_decide; cbn [negb]; [|by split; [econstructor|]]). by exists e.
Qed.
(** The outcomes of a call that raised. *)
Lemma fails_as_injected p a : fails_as (InjectedFault p a) (injected_code a).1 (injected_code a).2.
Proof. destruct a; constructor. Qed.
(** After an unsuccessful call the chain goes on or stops. *)
Definition chain_outcome (left : list ExecutionBackend) (done_ : list BackendEngineAttempt) (s : State) (o : res exn (BackendEngineResult R) * State) : Prop :=
  match o with
  | (Ok res, s') => ∃ pre post tried s1 s2 s3,
      left = pre ++ backend res :: post ∧ tries pre s tried s1 ∧ called (backend res) s1 (Ok (value res)) s2 ∧ poll s2 = (Ok (), s3) ∧
      attempts res = done_ ++ tried ++ [mkAttempt (backend res) "succeeded" None] ∧ s' = record_attempt (backend res) "succeeded" "none" s3
  | (Raise x, s') =>
      (∃ tried, tries left s tried s' ∧ x = BackendEngineFailure "backend_engine_fallback_exhausted" false) ∨
      ∃ pre b post tried s1, left = pre ++ b :: post ∧ tries pre s tried s1 ∧ stopped b s1 x s'
  end.
(** One more candidate in front. *)
Lemma outcome_cons b left done_ a s s1 o : chain_outcome left (done_ ++ [a]) s1 o →
  (∀ l tried s', tries l s1 tried s' → tries (b :: l) s (a :: tried) s') → chain_outcome (b :: left) done_ s o.
Proof.
  intros Ho Hcons. destruct o as [[res|x] s']; cbn in *.
  - destruct Ho as (pre & post & tried & s2 & s3 & s4 & -> & Ht & Hc & Hp & Ha & ->). exists (b :: pre), post, (a :: tried), s2, s3, s4.
    split; [done|]. split; [by apply Hcons|]. split; [done|]. split; [done|]. split; [by rewrite Ha, <-app_assoc|done].
  - destruct Ho as [(tried & Ht & ->)|(pre & b' & post & tried & s2 & -> & Ht & Hst)]; [left; eauto|right].
    exists (b :: pre), b', post, (a :: tried), s2. split; [done|]. split; [by apply Hcons|done].
Qed.
Lemma outcome_stopped b left done_ s x s' : stopped b s x s' → chain_outcome (b :: left) done_ s (Raise x, s').
Proof. intros Hst. right. exists [], b, left, [], s. split; [done|]. split; [constructor|done]. Qed.
(** A failure is noted, and then the next candidate is tried or the failure raised. *)
Lemma failure_outcome b left done_ s x code (retryable : bool) s1 y :
  called b s (Raise x) s1 → fails_as x code retryable → y = BackendEngineFailure code retryable →
  (∀ d s0, chain_outcome left d s0 (execute_chain engines r c left d s0)) →
  chain_outcome (b :: left) done_ s
    ((let! done' := note_attempt b "failed" (Some code) code done_ in
      if retryable then execute_chain engines r c left done' else raise y) s1).
Proof.
  intros Hc Hf -> IH. unfold bind, note_attempt at 1, bind at 1, lift. destruct (make_attempt b "failed" (Some code)) as [a|z] eqn:Ea.
  - assert (a = mkAttempt b "failed" (Some code)) as -> by (unfold make_attempt in Ea; repeat case_match; congruence).
    unfold bind, modify, ret. destruct retryable.
    + eapply outcome_cons; [apply IH|]. intros l tried s' Ht. by econstructor.
    + apply outcome_stopped. by eapply stopped_fatal.
  - apply outcome_stopped. by eapply stopped_code.
Qed.
Lemma execute_chain_outcome left : ∀ done_ s, chain_outcome left done_ s (execute_chain engines r c left done_ s).
Proof.
  induction left as [|b left IH]; intros done_ s; cbn [execute_chain].
  { left. exists []. by split; [constructor|]. }
  pose proof (ineligible_spec b (world s)) as Hi. destruct (ineligible_reason (od_get b engines) r (world s)) as [reason|].
  { destruct Hi as [Hr Hm]. unfold bind, note_attempt, bind, lift. rewrite Hm. unfold modify, ret.
    eapply outcome_cons; [apply IH|]. intros l tried s' Ht. by constructor. }
  destruct Hi as (e & He & Hable). rewrite He. destruct (poll s) as [[[]|x] s1] eqn:Ep; [|apply outcome_stopped; by eapply stopped_before].
  destruct (call e s1) as [[v|x] s2] eqn:Ec.
  - assert (Hcall : called b s (Ok v) s2) by by exists e, s1. unfold bind at 1. destruct (poll s2) as [[[]|x] s3] eqn:Ep2; [|apply outcome_stopped; by eapply stopped_after].
    unfold bind, note_attempt, bind, lift, make_attempt, modify, ret. cbn. exists [], left, [], s, s2, s3. split; [done|]. split; [constructor|done].
  - assert (Hcall : called b s (Raise x) s2) by by exists e, s1.
    assert (Hother : (∀ code retryable, ¬ fails_as x code retryable) → chain_outcome (b :: left) done_ s (Raise x, s2)) by (intros Hno; apply outcome_stopped; by apply stopped_error).
    destruct x; try (apply Hother; intros code' retry' Hf; inversion Hf; fail).
    + pose proof (fails_as_injected point action) as Hf. destruct (injected_code action) as [code retryable] eqn:Ei. cbn in Hf.
      destruct retryable; [by apply (failure_outcome b left done_ s _ code true s2 (BackendEngineFailure code true) Hcall Hf eq_refl IH)|].
      by apply (failure_outcome b left done_ s _ code false s2 _ Hcall Hf eq_refl IH).
    + by apply (failure_outcome b left done_ s _ code retryable s2 _ Hcall (fails_engine _ _) eq_refl IH).
Qed.
Lemma tries_backends l s tried s' : tries l s tried s' → at_backend <$> tried = l.
Proof. induction 1 as [| |]; cbn; [done|by f_equal..]. Qed.
End chain.

(** C30: a request runs on its first candidate able to serve it.  When [execute]
    returns, every candidate before the chosen one was either rejected, because it is
    not registered, not ready or lacks the operator, the phase, the precision or the
    architecture, or was called and failed in a way that allows the next one; the
    chosen one is registered and able, was called once, its value is the result, and
    the attempts list says so.  When it raises, either all candidates were tried in
    vain, or after such a prefix one was cancelled, failed for good, or raised
    something else.  The telemetry keeps to its bound and counts every attempt, of
    failed executions too.  Without fault injection [stop_all] stops every engine once
    in reverse order, whatever the others do, and raises exactly when one of them
    did. *)
Theorem registry_execute_correct engines r c s :
  telemetry_inv s →
  match execute engines r c s with
  | (Ok res, s') => ∃ pre post tried s1 s2 s3,
      candidates r = pre ++ backend res :: post ∧ tries engines r c pre s tried s1 ∧
      called engines r c (backend res) s1 (Ok (value res)) s2 ∧ on_world (raise_if_cancelled monotonic c) s2 = (Ok (), s3) ∧
      s' = record_attempt (backend res) "succeeded" "none" s3 ∧
      attempts res = tried ++ [mkAttempt (backend res) "succeeded" None] ∧ at_backend <$> tried = pre ∧
      Forall (λ a, at_status a = "rejected" ∨ at_status a = "failed") tried ∧
      telemetry_inv s' ∧ telemetry_total s' = telemetry_total s + Zlen (attempts res)
  | (Raise x, s') => telemetry_inv s' ∧
      telemetry_total s <= telemetry_total s' <= telemetry_total s + Zlen (candidates r) ∧
      ((∃ tried, tries engines r c (candidates r) s tried s' ∧ x = BackendEngineFailure "backend_engine_fallback_exhausted" false) ∨
       ∃ pre b post tried s1, candidates r = pre ++ b :: post ∧ tries engines r c pre s tried s1 ∧ stopped engines r c b s1 x s')
  end ∧
  (fault_injector s = None →
   world (stop_all engines s).2 = foldl (λ w p, (stop p.2 w).2) (world s) (rev engines) ∧
   (is_ok (stop_all engines s).1 ↔ ∀ pre b e post, rev engines = pre ++ (b, e) :: post →
      is_ok (stop e (foldl (λ w p, (stop p.2 w).2) (world s) pre)).1)).
Proof.
  intros Hs. split.
  - pose proof (execute_chain_spec engines r c (candidates r) [] s Hs) as H. pose proof (execute_chain_outcome engines r c (candidates r) [] s) as Ho.
    unfold execute. destruct (execute_chain engines r c (candidates r) [] s) as [[res|x] s']; cbn in Ho; [|by destruct H].
    destruct H as (pre & b & post & tried & e & w & Hc & Hb & Ha & Hp & Hf & He & Hi & Hs' & Ht).
    destruct Ho as (pre' & post' & tried' & s1 & s2 & s3 & Hc' & Htr & Hcall & Hpoll & Ha' & Hst). cbn in Ha, Ha'.
    rewrite Ha in Ha'. apply app_inj_tail in Ha' as [<- _]. pose proof (tries_backends _ _ _ _ _ _ _ Htr) as Hpre.
    exists pre', post', tried, s1, s2, s3. split_and!; try done; [by rewrite Ha, Hb|]. rewrite Ht, Ha. unfold Zlen.
    rewrite !length_app. cbn. lia.
  - intros Hi. pose proof (stop_loop_world (rev engines) [] s Hi) as Hw.
    destruct (stop_loop_failures (rev engines) [] s Hi) as (fs & H1 & H2).
    unfold stop_all, bind. destruct (stop_loop (rev engines) [] s) as [r0 s']. cbn in Hw, H1. subst r0 s'.
    destruct fs as [|f fs]; cbn; (split; [done|]); rewrite <-H2; done.
Qed.
End registry.

Definition demo_descriptor (b : ExecutionBackend) : BackendEngineDescriptor :=
  mkDescriptor b "1" ["llama"] ["fp16"] [DECODE] ["matmul"] "in_process" 1.
Definition demo_engine (b : ExecutionBackend) (r : res exn Z) : Engine Z () Z :=
  mkEngine (demo_descriptor b) (λ _, true) (λ _ _ w, (r, w + 1)) (λ w, (Ok (), w)).
Definition demo_engines : list (ExecutionBackend * Engine Z () Z) :=
  [(NATIVE_MLX, demo_engine NATIVE_MLX (Raise (BackendEngineFailure "oom" true)));
   (CPU, demo_engine CPU (Ok 7))].
Definition demo_request : BackendEngineRequest () :=
  mkEngineRequest "matmul" DECODE "fp16" "llama" [COREML_DRAFT; NATIVE_MLX; CPU] ().
Definition demo_context : InferenceRequestContext Z :=
  mkContext "r1" (of_Z 100) (λ w, (Ok false, w)).
Definition demo_clock : Py Z float := λ w, (Ok (of_Z 5), w).
Definition demo_state : RegistryState Z := mkRegistry None ∅ 0 0.

Example demo_registry_run : (execute demo_clock demo_engines demo_request demo_context demo_state).1 =
  Ok (mkEngineResult 7 CPU
        [mkAttempt COREML_DRAFT "rejected" (Some "backend_unregistered");
         mkAttempt NATIVE_MLX "failed" (Some "oom"); mkAttempt CPU "succeeded" None]).
Proof. vm_compute. reflexivity. Qed.

Lemma registry_execute_correct_witness :
  world (stop_all demo_engines demo_state).2 = 0 ∧
  telemetry_inv (execute demo_clock demo_engines demo_request demo_context demo_state).2.
Proof.
  assert (Hs : telemetry_inv demo_state) by (split; [done|apply map_Forall_empty]).
  destruct (registry_execute_correct demo_clock demo_engines demo_request demo_context demo_state Hs)
    as [H1 H2].
  split; [rewrite (proj1 (H2 eq_refl)); reflexivity|].
  destruct (execute demo_clock demo_engines demo_request demo_context demo_state) as [[res|x] s'].
  - by destruct H1 as (? & ? & ? & ? & ? & ? & _ & _ & _ & _ & _ & _ & _ & _ & ? & _).
  - exact (proj1 H1).
Defined.

End BackendEngine.
