(* ===== verification/OperatorGraph.v ===== *)
(** * Dispatch of operator graphs (operator_graph_dispatch.py)

    A bounded graph of operators is ordered so that every operator follows its
    dependencies, its phase edges and its synchronisation budget are checked, and
    each operator then runs once through the backend registry with the values of
    its dependencies. *)

From stdpp Require Import sorting.
From S2P Require Import Prelude Types OrderedDict PyFloat BackendEngine DependencyOrder.

Module OperatorGraph.
Import OrderedDict PyFloat BackendEngine DependencyOrder.

Definition MAX_OPERATOR_GRAPH_NODES : Z := 64.
Definition MAX_OPERATOR_GRAPH_EDGES : Z := 256.
Definition MAX_OPERATOR_SYNC_NANOSECONDS : Z := 60000000000.

(** [_ALLOWED_PHASE_PREDECESSORS.get(phase)] *)
Definition allowed_predecessors (p : WorkloadPhase) : option (list WorkloadPhase) :=
  match p with
  | PREFILL => Some [VISION_ENCODER; AUDIO_ENCODER; EMBEDDING; AUXILIARY]
  | DECODE => Some [PREFILL; DECODE; VERIFY; AUXILIARY]
  | SAMPLING => Some [PREFILL; DECODE; VERIFY; AUXILIARY]
  | VERIFY => Some [DRAFT; DECODE; AUXILIARY]
  | _ => None
  end.

(** A payload of a node: an object with named fields, or something else ([None]).
    [V] is the type of the values the engines return. *)
Abbreviation Fields A := (list (string * A)).

Record OperatorGraphNode (A : Type) := mkNode {
  node_id : string;
  request : BackendEngineRequest (option (Fields A));
  dependencies : list string;
  synchronization_nanoseconds : Z;
}.
Arguments mkNode {A}.
Arguments node_id {A}.
Arguments request {A}.
Arguments dependencies {A}.
Arguments synchronization_nanoseconds {A}.

(** [OperatorGraphNode.__post_init__] *)
Definition node_check {A} (n : OperatorGraphNode A) : res exn () :=
  check (negb (str_eqb (node_id n) "" || (str_len (node_id n) >? 128)
               || negb (bool_decide (NoDup (dependencies n)))
               || bool_decide (node_id n ∈ dependencies n)
               || negb ((0 <=? synchronization_nanoseconds n)
                        && (synchronization_nanoseconds n <=? MAX_OPERATOR_SYNC_NANOSECONDS))))
    (ValueError "invalid operator graph node") ().

(** ** The order *)

(** The order of [sorted] on strings. *)
Definition string_le (a b : string) : Prop := String.leb a b = true.
#[export] Instance string_le_dec a b : Decision (string_le a b).
Proof. unfold string_le. apply _. Defined.

(** [dict]s from identifiers to nodes and to the dependencies still open. *)
Definition by_id {A} (nodes : list (OperatorGraphNode A)) : list (string * OperatorGraphNode A) :=
  (λ n, (node_id n, n)) <$> nodes.
Abbreviation Remaining := (list (string * gset string)).
Definition remaining_of {A} (nodes : list (OperatorGraphNode A)) : Remaining :=
  (λ n, (node_id n, list_to_set (dependencies n))) <$> nodes.

(** [sorted(identifier for identifier, dependencies in remaining.items() if not dependencies)] *)
Definition ready_ids (r : Remaining) : list string :=
  merge_sort string_le ((filter (λ p, p.2 = ∅) r).*1).

(** [del remaining[identifier]] for the ready ones, then [difference_update(ready)]. *)
Definition advance (ready : list string) (r : Remaining) : Remaining :=
  (λ p, (p.1, p.2 ∖ list_to_set ready)) <$> filter (λ p, p.1 ∉ ready) r.

(** [for identifier in ready: ordered.append(by_id[identifier])] *)
Definition append_ready {A} (ids : list (string * OperatorGraphNode A)) (ready : list string)
    (ordered : list (OperatorGraphNode A)) : res exn (list (OperatorGraphNode A)) :=
  fold_res (λ o i, match od_get i ids with Some n => Ok (o ++ [n]) | None => Raise (KeyError i) end)
    ready ordered.

(** [while remaining: ...] with at most [fuel] rounds. *)
Fixpoint topo_loop {A} (fuel : nat) (ids : list (string * OperatorGraphNode A)) (r : Remaining)
    (ordered : list (OperatorGraphNode A)) : res exn (list (OperatorGraphNode A)) :=
  match r with
  | [] => Ok ordered
  | _ =>
      match fuel with
      | O => Raise AssertionError
      | S fuel' =>
          match ready_ids r with
          | [] => Raise (ValueError "operator graph contains a cycle")
          | ready =>
              match append_ready ids ready ordered with
              | Ok ordered' => topo_loop fuel' ids (advance ready r) ordered'
              | Raise e => Raise e
              end
          end
      end
  end.

(** [_topological_order]; every round removes a node, so a round per node suffices. *)
Definition topological_order {A} (nodes : list (OperatorGraphNode A)) : res exn (list (OperatorGraphNode A)) :=
  if bool_decide (nodes = []) || (Zlen nodes >? MAX_OPERATOR_GRAPH_NODES)
     || negb (bool_decide (NoDup (node_id <$> nodes)))
     || (Zsum ((λ n, Zlen (dependencies n)) <$> nodes) >? MAX_OPERATOR_GRAPH_EDGES)
  then Raise (ValueError "invalid operator graph")
  else if existsb (λ n, existsb (λ d, negb (od_mem d (by_id nodes))) (dependencies n)) nodes
  then Raise (ValueError "operator graph dependency is missing")
  else topo_loop (length nodes) (by_id nodes) (remaining_of nodes) [].

(** [_validate_phase_dependencies] *)
Definition validate_phase_dependencies {A} (nodes : list (OperatorGraphNode A)) : res exn () :=
  fold_res (λ _ n,
    match allowed_predecessors (phase (request n)) with
    | None => Ok ()
    | Some allowed =>
        fold_res (λ _ d,
          match od_get d (by_id nodes) with
          | None => Raise (KeyError d)
          | Some m =>
              if bool_decide (phase (request m) ∈ allowed) then Ok ()
              else Raise (ValueError ("operator graph phase dependency is invalid: " +:+
                     WorkloadPhase_value (phase (request m)) +:+ "->" +:+
                     WorkloadPhase_value (phase (request n))))
          end) (dependencies n) ()
    end) nodes ().

(** ** Execution *)

(** The payload an engine receives: the fields of the node's payload, and under
    the reserved key [_dependencies] the values of its dependencies. *)
Record GraphPayload (A V : Type) := mkPayload {
  fields : Fields A;
  dependency_values : list (string * V);
}.
Arguments mkPayload {A V}.
Arguments fields {A V}.
Arguments dependency_values {A V}.

Record OperatorGraphResult (V : Type) := mkGraphResult {
  values : list (string * V);
  backend_results : list (string * BackendEngineResult V);
  graph_synchronization : Z;
}.
Arguments mkGraphResult {V}.
Arguments values {V}.
Arguments backend_results {V}.
Arguments graph_synchronization {V}.

Section dispatcher.
Context {W A V : Type} (monotonic : Py W float).
Context (engines : list (ExecutionBackend * Engine W (GraphPayload A V) V)).
Abbreviation State := (RegistryState W).

(** [{dependency: values[dependency] for dependency in node.dependencies}] *)
Definition collect (vs : list (string * V)) (ds : list string) : res exn (list (string * V)) :=
  fold_res (λ acc d, match od_get d vs with
                     | Some v => Ok (od_set d v acc)
                     | None => Raise (KeyError d)
                     end) ds [].

Definition with_payload (n : OperatorGraphNode A) (p : GraphPayload A V)
    : BackendEngineRequest (GraphPayload A V) :=
  mkEngineRequest (operator (request n)) (phase (request n)) (precision (request n))
    (model_architecture (request n)) (candidates (request n)) p.

(** The body of the loop over the ordered nodes. *)
Definition run_node (c : InferenceRequestContext W) (n : OperatorGraphNode A)
    (vs : list (string * V)) (rs : list (string * BackendEngineResult V))
    : Py State (list (string * V) * list (string * BackendEngineResult V)) :=
  on_world (raise_if_cancelled monotonic c) ;;;
  match payload (request n) with
  | None => raise (ValueError "operator graph payload must be an object")
  | Some fs =>
      let! ds := lift (collect vs (dependencies n)) in
      if od_mem "_dependencies" fs
      then raise (ValueError "operator graph payload reserves _dependencies")
      else
        let q := with_payload n (mkPayload fs ds) in
        let! _ := lift (request_check q) in          (* replace(...) checks again *)
        let! r := BackendEngine.execute monotonic engines q c in
        ret (od_set (node_id n) (value r) vs, rs ++ [(node_id n, r)])
  end.

Fixpoint run_nodes (c : InferenceRequestContext W) (ordered : list (OperatorGraphNode A))
    (vs : list (string * V)) (rs : list (string * BackendEngineResult V))
    : Py State (list (string * V) * list (string * BackendEngineResult V)) :=
  match ordered with
  | [] => ret (vs, rs)
  | n :: ordered' =>
      let! p := run_node c n vs rs in run_nodes c ordered' p.1 p.2
  end.

(** [OperatorGraphDispatcher.execute] *)
Definition graph_execute (nodes : list (OperatorGraphNode A)) (c : InferenceRequestContext W)
    (maximum_synchronization_nanoseconds : Z) : Py State (OperatorGraphResult V) :=
  let! ordered := lift (topological_order nodes) in
  let! _ := lift (validate_phase_dependencies nodes) in
  let synchronization := Zsum (synchronization_nanoseconds <$> ordered) in
  if negb ((0 <=? maximum_synchronization_nanoseconds)
           && (maximum_synchronization_nanoseconds <=? MAX_OPERATOR_SYNC_NANOSECONDS))
     || (synchronization >? maximum_synchronization_nanoseconds)
  then raise (ValueError "operator graph synchronization budget exceeded")
  else
    let! p := run_nodes c ordered [] [] in
    ret (mkGraphResult p.1 p.2 synchronization).
End dispatcher.

(** ** The order is topological *)

Section order.
Context {A : Type}.
Implicit Types (nodes : list (OperatorGraphNode A)).

Definition well_formed nodes : Prop :=
  nodes ≠ [] ∧ Zlen nodes <= MAX_OPERATOR_GRAPH_NODES ∧ NoDup (node_id <$> nodes) ∧
  Zsum ((λ n, Zlen (dependencies n)) <$> nodes) <= MAX_OPERATOR_GRAPH_EDGES ∧
  closed node_id dependencies nodes.

(** What holds between the rounds of the loop. *)
Record topo_inv nodes (r : Remaining) (ordered : list (OperatorGraphNode A)) : Prop := {
  ti_rounds : rounds node_id dependencies nodes ordered r.*1;
  ti_open : ∀ i s, (i, s) ∈ r → ∃ n, n ∈ nodes ∧ node_id n = i ∧
    s = list_to_set (dependencies n) ∖ list_to_set (node_id <$> ordered);
}.

Lemma by_id_get nodes n : NoDup (node_id <$> nodes) → n ∈ nodes → od_get (node_id n) (by_id nodes) = Some n.
Proof.
  intros Hnd Hn. apply od_get_iff.
  - unfold od_wf, by_id. rewrite <-list_fmap_compose. done.
  - unfold by_id. by apply (list_elem_of_fmap_2 (λ n, (node_id n, n))).
Qed.

Lemma by_id_inv nodes i n : od_get i (by_id nodes) = Some n → n ∈ nodes ∧ node_id n = i.
Proof.
  intros H%od_get_elem. unfold by_id in H. apply list_elem_of_fmap in H as (m & Heq & Hm). by simplify_eq.
Qed.

Lemma ready_elem r i : i ∈ ready_ids r ↔ (i, ∅) ∈ r.
Proof.
  unfold ready_ids. rewrite merge_sort_Permutation, list_elem_of_fmap. split.
  - intros ([j s] & -> & Hin). apply list_elem_of_filter in Hin as [Hs Hin]. cbn in *. by subst.
  - intros Hin. exists (i, ∅). split; [done|]. by apply list_elem_of_filter.
Qed.

(** Appending nodes by their names. *)
Lemma append_ready_spec nodes ready : ∀ ordered,
  NoDup (node_id <$> nodes) → (∀ i, i ∈ ready → i ∈ node_id <$> nodes) →
  ∃ added, append_ready (by_id nodes) ready ordered = Ok (ordered ++ added) ∧
    node_id <$> added = ready ∧ (∀ n, n ∈ added → n ∈ nodes).
Proof.
  unfold append_ready. induction ready as [|i ready IH]; intros ordered Hnd Hr; cbn [fold_res].
  { exists []. rewrite app_nil_r. split_and!; try done. intros n Hn. by apply elem_of_nil in Hn. }
  pose proof (Hr i ltac:(left)) as Hi. apply list_elem_of_fmap in Hi as (n & -> & Hn). rewrite (by_id_get nodes n) by done.
  destruct (IH (ordered ++ [n]) Hnd) as (added & Heq & Hids & Hsub); [intros j Hj; apply Hr; by right|].
  exists (n :: added). rewrite Heq, <-app_assoc. split_and!; [done|cbn; by rewrite Hids|].
  intros m [->|Hm]%elem_of_cons; [done|by apply Hsub].
Qed.

Lemma advance_keys ready r : (advance ready r).*1 = filter (λ i, i ∉ ready) r.*1.
Proof.
  unfold advance. induction r as [|[i s] r IH]; [done|]. rewrite fmap_cons, !filter_cons. cbn [fst].
  destruct (decide (i ∉ ready)); cbn; by rewrite IH.
Qed.

(** The ready names have their dependencies ordered, and conversely. *)
Lemma ready_open nodes r ordered i :
  topo_inv nodes r ordered → i ∈ ready_ids r →
  ∃ n, n ∈ nodes ∧ node_id n = i ∧ ∀ d, d ∈ dependencies n → d ∈ node_id <$> ordered.
Proof.
  intros [_ Hopen] Hi%ready_elem. destruct (Hopen _ _ Hi) as (n & Hn & Hni & He). exists n. split_and!; [done|done|].
  intros d Hd. destruct (decide (d ∈ node_id <$> ordered)) as [|Hno]; [done|]. exfalso.
  assert (Hin : d ∈ (∅ : gset string)).
  { rewrite He. apply elem_of_difference. by rewrite !elem_of_list_to_set. }
  by apply elem_of_empty in Hin.
Qed.

(** One round of the loop. *)
Lemma topo_round nodes r ordered :
  NoDup (node_id <$> nodes) → topo_inv nodes r ordered →
  ∃ ordered', append_ready (by_id nodes) (ready_ids r) ordered = Ok ordered' ∧
    topo_inv nodes (advance (ready_ids r) r) ordered'.
Proof.
  intros Hnd Hinv. pose proof Hinv as [Hrounds Hopen].
  pose proof (rounds_pending_NoDup _ _ _ _ _ Hnd Hrounds) as Hndr.
  destruct (append_ready_spec nodes (ready_ids r) ordered Hnd) as (added & Heq & Hadd & Hs).
  { intros i Hi. destruct (ready_open _ _ _ _ Hinv Hi) as (n & Hn & <- & _). by apply (list_elem_of_fmap_2 node_id). }
  exists (ordered ++ added). split; [done|]. split.
  - eapply rounds_step; [done|done| |].
    + rewrite advance_keys, Hadd. apply NoDup_Permutation; [|done|].
      * apply NoDup_app. split_and!.
        -- unfold ready_ids. rewrite merge_sort_Permutation.
           eapply sublist_NoDup; [done|apply fmap_sublist, sublist_filter].
        -- intros i Hi Hf. by apply list_elem_of_filter in Hf as [? _].
        -- by apply NoDup_filter.
      * intros i. rewrite elem_of_app, list_elem_of_filter, ready_elem. split.
        -- intros [Hi|[_ Hi]]; [|done]. by apply (list_elem_of_fmap_2 fst _ (i, ∅)).
        -- intros Hi. destruct (decide (i ∈ ready_ids r)) as [Hr|Hr]; [left; by apply ready_elem|].
           right. split; [|done]. by rewrite <-?ready_elem.
    + intros n d Hn Hd. assert (Hi : node_id n ∈ ready_ids r) by (rewrite <-Hadd; by apply (list_elem_of_fmap_2 node_id)).
      destruct (ready_open _ _ _ _ Hinv Hi) as (m & Hm & Hid & Hdm).
      rewrite (name_inj node_id nodes m n) in Hdm; auto.
  - intros i s Hin. unfold advance in Hin. apply list_elem_of_fmap in Hin as ([j s0] & Heq' & Hin).
    apply list_elem_of_filter in Hin as [_ Hin]. cbn in Heq'. simplify_eq.
    destruct (Hopen _ _ Hin) as (n & Hn & Hni & ->). exists n. split_and!; [done|done|].
    rewrite fmap_app, Hadd, list_to_set_app_L. set_solver.
Qed.

(** When no node is ready, every open node depends on an open one. *)
Lemma topo_stuck nodes r ordered :
  NoDup (node_id <$> nodes) → closed node_id dependencies nodes →
  topo_inv nodes r ordered → r ≠ [] → ready_ids r = [] → ¬ acyclic node_id dependencies nodes.
Proof.
  intros Hnd Hdeps [Hrounds Hopen] Hr Hready. apply (rounds_stuck _ _ _ _ _ Hdeps Hrounds); [by destruct r|].
  intros n Hn Hp. apply list_elem_of_fmap in Hp as ([i s] & Hi & Hin). cbn in Hi. subst i.
  destruct (Hopen _ _ Hin) as (m & Hm & Hid & ->). rewrite (name_inj node_id nodes m n) in Hin by done.
  destruct (set_choose_or_empty (list_to_set (dependencies n) ∖ list_to_set (node_id <$> ordered) : gset string))
    as [[d Hd]|Hemp].
  - apply elem_of_difference in Hd as [Hd Ho]. rewrite elem_of_list_to_set in Hd, Ho. by exists d.
  - apply leibniz_equiv in Hemp. rewrite Hemp in Hin. apply ready_elem in Hin. rewrite Hready in Hin.
    by apply elem_of_nil in Hin.
Qed.

Lemma length_advance ready r : (length (advance ready r) <= length r)%nat.
Proof. unfold advance. rewrite length_fmap. apply length_filter. Qed.

Lemma length_advance_lt r : ready_ids r ≠ [] → (length (advance (ready_ids r) r) < length r)%nat.
Proof.
  intros Hne. destruct (ready_ids r) as [|i l] eqn:E; [done|]. assert (Hi : i ∈ ready_ids r) by (rewrite E; left).
  apply ready_elem in Hi. unfold advance. rewrite length_fmap. eapply length_filter_lt; [exact Hi|].
  cbn. intros H. apply H. left.
Qed.

Lemma topo_loop_spec nodes fuel : ∀ r ordered,
  NoDup (node_id <$> nodes) → closed node_id dependencies nodes →
  topo_inv nodes r ordered → (length r <= fuel)%nat →
  match topo_loop fuel (by_id nodes) r ordered with
  | Ok l => l ≡ₚ nodes ∧ deps_before node_id dependencies l
  | Raise e => e = ValueError "operator graph contains a cycle" ∧ ¬ acyclic node_id dependencies nodes
  end.
Proof.
  induction fuel as [|fuel IH]; intros r ordered Hnd Hdeps Hinv Hlen;
    (destruct r as [|p r];
      [cbn; pose proof (ti_rounds _ _ _ Hinv) as Hr; split; [by eapply rounds_done|apply (rounds_before _ _ _ _ _ Hr)]|]);
    [cbn in Hlen; lia|].
  cbn [topo_loop]. destruct (ready_ids (p :: r)) as [|i l] eqn:Er.
  { split; [done|]. by eapply topo_stuck. }
  destruct (topo_round nodes (p :: r) ordered Hnd Hinv) as (ordered' & Heq & Hinv').
  rewrite <-Er, Heq. apply IH; [done|done|done|].
  pose proof (length_advance_lt (p :: r) ltac:(by rewrite Er)). lia.
Qed.

Lemma topo_init nodes : topo_inv nodes (remaining_of nodes) [].
Proof.
  split.
  - unfold remaining_of. rewrite <-list_fmap_compose. apply rounds_init.
  - intros i s Hin. unfold remaining_of in Hin. apply list_elem_of_fmap in Hin as (n & Heq & Hn). simplify_eq.
    exists n. split_and!; [done|done|]. cbn. set_solver.
Qed.

(** The two tests before the loop accept exactly the well-formed graphs. *)
Lemma topo_checks nodes :
  if bool_decide (nodes = []) || (Zlen nodes >? MAX_OPERATOR_GRAPH_NODES)
     || negb (bool_decide (NoDup (node_id <$> nodes)))
     || (Zsum ((λ n, Zlen (dependencies n)) <$> nodes) >? MAX_OPERATOR_GRAPH_EDGES)
  then ¬ well_formed nodes ∧ True
  else if existsb (λ n, existsb (λ d, negb (od_mem d (by_id nodes))) (dependencies n)) nodes
  then ¬ well_formed nodes ∧ True
  else well_formed nodes.
Proof.
  destruct (_ || _) eqn:E1.
  - split; [|done]. intros (H1 & H2 & H3 & H4 & _).
    rewrite !orb_true_iff, negb_true_iff, !Z.gtb_lt, bool_decide_eq_true, bool_decide_eq_false in E1.
    destruct E1 as [[[E|E]|E]|E]; [done|lia|done|lia].
  - breflect.
    destruct (existsb _ nodes) eqn:E2.
    + split; [|done]. intros (_ & _ & _ & _ & H5). apply existsb_exists in E2 as (n & Hn & E2).
      apply existsb_exists in E2 as (d & Hd & E2). apply list_elem_of_In in Hn, Hd.
      specialize (H5 n d Hn Hd). apply negb_true_iff in E2. unfold od_mem, is_some in E2.
      destruct (od_get d (by_id nodes)) eqn:Eg; [done|]. apply od_get_None in Eg. apply Eg.
      unfold by_id. rewrite <-list_fmap_compose. done.
    + split_and!; try done; try lia. intros n d Hn Hd.
      destruct (od_get d (by_id nodes)) as [m|] eqn:Eg.
      * apply by_id_inv in Eg as [Hm <-]. by apply (list_elem_of_fmap_2 node_id).
      * exfalso. enough (existsb (λ n, existsb (λ d, negb (od_mem d (by_id nodes))) (dependencies n)) nodes = true)
          by congruence.
        apply existsb_exists. exists n. split; [by apply list_elem_of_In|]. apply existsb_exists. exists d.
        split; [by apply list_elem_of_In|]. unfold od_mem. by rewrite Eg.
Qed.
End order.

(** What execution needs of the order. *)
Lemma topo_order_facts {A} (nodes : list (OperatorGraphNode A)) :
  match topological_order nodes with
  | Ok ordered => NoDup (node_id <$> nodes) ∧ ordered ≡ₚ nodes ∧ deps_before node_id dependencies ordered
  | Raise e => True
  end.
Proof.
  pose proof (topo_checks nodes) as Hchk. unfold topological_order.
  destruct (_ || _) eqn:E1; [done|]. destruct (existsb _ nodes) eqn:E2; [done|].
  pose proof Hchk as (_ & _ & Hnd & _ & Hdeps).
  pose proof (topo_loop_spec nodes (length nodes) (remaining_of nodes) [] Hnd Hdeps (topo_init nodes)
                ltac:(unfold remaining_of; by rewrite length_fmap)) as H.
  by destruct (topo_loop _ _ _ _).
Qed.

(** C94: [_topological_order] orders exactly the well-formed acyclic graphs.  It
    returns the nodes, each once, every node after all its dependencies, and the
    graph then has no cycle; it raises only for a graph that is too large, has
    duplicate identifiers or a missing dependency, or has a cycle, which is the
    error it then names.  The loop always ends. *)
Theorem topological_order_correct {A} (nodes : list (OperatorGraphNode A)) :
  match topological_order nodes with
  | Ok ordered => well_formed nodes ∧ acyclic node_id dependencies nodes ∧ ordered ≡ₚ nodes ∧
      deps_before node_id dependencies ordered
  | Raise e => ¬ (well_formed nodes ∧ acyclic node_id dependencies nodes) ∧
      (well_formed nodes ↔ e = ValueError "operator graph contains a cycle")
  end.
Proof.
  pose proof (topo_checks nodes) as Hchk. unfold topological_order.
  destruct (_ || _) eqn:E1; [by destruct Hchk as [H _]; split; [intros [? _]|split; [|done]]|].
  destruct (existsb _ nodes) eqn:E2; [by destruct Hchk as [H _]; split; [intros [? _]|split; [|done]]|].
  assert (Hwf : well_formed nodes) by by apply Hchk.
  pose proof Hwf as (_ & _ & Hnd & _ & Hdeps).
  pose proof (topo_loop_spec nodes (length nodes) (remaining_of nodes) [] Hnd Hdeps (topo_init nodes)
                ltac:(unfold remaining_of; by rewrite length_fmap)) as H.
  destruct (topo_loop _ _ _ _) as [ordered|e].
  - destruct H as [Hp Hb]. split_and!; [done| |done|done]. by eapply deps_before_acyclic.
  - destruct H as [-> Hcyc]. split; [by intros [_ ?]|done].
Qed.

(** ** Every operator runs once, after its dependencies *)

(** The phase edges the table allows. *)
Definition phases_ok {A} (nodes : list (OperatorGraphNode A)) : Prop :=
  ∀ n d m allowed, n ∈ nodes → d ∈ dependencies n → od_get d (by_id nodes) = Some m →
    allowed_predecessors (phase (request n)) = Some allowed → phase (request m) ∈ allowed.

Lemma validate_phases_ok {A} (nodes : list (OperatorGraphNode A)) :
  validate_phase_dependencies nodes = Ok () → phases_ok nodes.
Proof.
  unfold validate_phase_dependencies. intros H n d m allowed Hn Hd Hm Ha.
  rewrite fold_res_checks in H. specialize (H n Hn). rewrite Ha in H.
  rewrite fold_res_checks in H. specialize (H d Hd). rewrite Hm in H.
  by destruct (bool_decide _) eqn:E; breflect.
Qed.

Lemma collect_spec {V} (vs : list (string * V)) ds acc : ∀ acc0,
  fold_res (λ acc d, match od_get d vs with
                     | Some v => Ok (od_set d v acc)
                     | None => Raise (KeyError d)
                     end) ds acc0 = Ok acc →
  ∀ k, od_get k acc = if decide (k ∈ ds) then od_get k vs else od_get k acc0.
Proof.
  induction ds as [|d ds IH]; intros acc0; cbn [fold_res].
  { intros [= ->] k. by rewrite decide_False by apply not_elem_of_nil. }
  destruct (od_get d vs) as [v|] eqn:Ed; [|done]. intros H k. rewrite (IH _ H k).
  destruct (decide (k ∈ ds)) as [Hk|Hk]; [by rewrite decide_True by (by right)|].
  destruct (decide (k = d)) as [->|Hne].
  - rewrite od_get_set, decide_True by left. done.
  - rewrite od_get_set_ne, decide_False; [done| |done]. by rewrite not_elem_of_cons.
Qed.

Section run.
Context {W A V : Type} (monotonic : Py W float).
Context (engines : list (ExecutionBackend * Engine W (GraphPayload A V) V)).
Abbreviation State := (RegistryState W).
Implicit Types (vs : list (string * V)) (rs : list (string * BackendEngineResult V)).

(** The node ran: its payload had its fields and the values [vs] of its
    dependencies, and the registry returned [r]. *)
Definition ran_with (c : InferenceRequestContext W) (n : OperatorGraphNode A) vs
    (r : BackendEngineResult V) : Prop :=
  ∃ fs ds s1 s2, payload (request n) = Some fs ∧ od_get "_dependencies" fs = None ∧
    BackendEngine.execute monotonic engines (with_payload n (mkPayload fs ds)) c s1 = (Ok r, s2) ∧
    ∀ k, od_get k ds = if decide (k ∈ dependencies n) then od_get k vs else None.

Lemma run_node_spec c n vs rs s p s' :
  run_node monotonic engines c n vs rs s = (Ok p, s') →
  ∃ r, p = (od_set (node_id n) (value r) vs, rs ++ [(node_id n, r)]) ∧ ran_with c n vs r.
Proof.
  unfold run_node, bind at 1. destruct (on_world _ s) as [[[]|e] s1]; [|done].
  destruct (payload (request n)) as [fs|] eqn:Ep; [|done].
  unfold bind at 1, lift. destruct (collect vs (dependencies n)) as [ds|e] eqn:Ec; [|done].
  destruct (od_mem "_dependencies" fs) eqn:Em; [done|]. unfold bind at 1, lift.
  destruct (request_check _) as [[]|e]; [|done]. unfold bind.
  destruct (BackendEngine.execute monotonic engines _ c s1) as [[r|e] s2] eqn:Er; [|done].
  intros [= <- <-]. exists r. split; [done|]. exists fs, ds, s1, s2. split_and!; [done| |done|].
  - unfold od_mem, is_some in Em. by destruct (od_get "_dependencies" fs).
  - intros k. by rewrite (collect_spec vs _ _ [] Ec).
Qed.

(** The loop over nodes whose identifiers are new and whose dependencies are
    ordered before them. *)
Lemma run_nodes_spec c : ∀ ordered vs rs s p s',
  run_nodes monotonic engines c ordered vs rs s = (Ok p, s') →
  NoDup (rs.*1 ++ (node_id <$> ordered)) →
  (∀ i r, (i, r) ∈ rs → od_get i vs = Some (value r)) →
  ∃ rs', p.2 = rs ++ rs' ∧ rs'.*1 = node_id <$> ordered ∧
    (∀ i r, (i, r) ∈ p.2 → od_get i p.1 = Some (value r)) ∧
    (∀ k, k ∉ node_id <$> ordered → od_get k p.1 = od_get k vs) ∧
    (∀ pre n post, ordered = pre ++ n :: post → ∃ vs' r, (node_id n, r) ∈ p.2 ∧ ran_with c n vs' r ∧
       ∀ k, k ∉ node_id <$> (n :: post) → od_get k p.1 = od_get k vs').
Proof.
  induction ordered as [|n ordered IH]; intros vs rs s p s' Hrun Hnd Hvs; cbn [run_nodes] in Hrun.
  { injection Hrun as <- <-. exists []. rewrite app_nil_r. split_and!; try done. by intros [|??] ???. }
  unfold bind in Hrun. destruct (run_node monotonic engines c n vs rs s) as [[q|e] s1] eqn:En; [|done].
  destruct (run_node_spec _ _ _ _ _ _ _ En) as (r & -> & Hran). cbn [fst snd] in Hrun.
  rewrite fmap_cons in Hnd. apply NoDup_app in Hnd as (Hr & Hd & Ho). apply NoDup_cons in Ho as [Hn Ho].
  destruct (IH _ _ _ _ _ Hrun) as (rs' & Hp & Hk & Hv & Hother & Htrace).
  - rewrite fmap_app. cbn. rewrite <-app_assoc. apply NoDup_app. split_and!; [done|done|by constructor].
  - intros i x [Hin|Hin]%elem_of_app.
    + rewrite od_get_set_ne; [by apply Hvs|]. intros <-. apply (Hd (node_id n)); [|left].
      by apply (list_elem_of_fmap_2 fst _ (node_id n, x)).
    + apply list_elem_of_singleton in Hin. simplify_eq. by rewrite od_get_set.
  - exists ((node_id n, r) :: rs'). split_and!.
    + by rewrite Hp, <-app_assoc.
    + cbn. by rewrite Hk.
    + done.
    + intros k [Hne Hko]%not_elem_of_cons. rewrite Hother by done. by rewrite od_get_set_ne.
    + intros [|n' pre] m post Heq; cbn in Heq; simplify_eq.
      * exists vs, r. split_and!; [|done|].
        { rewrite Hp. apply elem_of_app. left. apply elem_of_app. right. left. }
        intros k [Hne Hko]%not_elem_of_cons. rewrite Hother by done. by rewrite od_get_set_ne.
      * by eapply Htrace.
Qed.

(** An operator graph runs each operator once, after its dependencies and
    with their values.  A run that returns executed the nodes of a topological
    order whose phase edges the table allows and whose synchronisation fits the
    budget; each node's payload had exactly its own fields and the values its
    dependencies returned; the values reported are those the registry returned.  A
    graph that fails its checks raises before any engine runs. *)
Theorem graph_execute_correct (nodes : list (OperatorGraphNode A)) c budget s :
  match graph_execute monotonic engines nodes c budget s with
  | (Ok res, _) => ∃ ordered,
      topological_order nodes = Ok ordered ∧ phases_ok nodes ∧
      graph_synchronization res = Zsum (synchronization_nanoseconds <$> nodes) ∧
      graph_synchronization res <= budget <= MAX_OPERATOR_SYNC_NANOSECONDS ∧
      (backend_results res).*1 = node_id <$> ordered ∧
      (∀ i r, (i, r) ∈ backend_results res → od_get i (values res) = Some (value r)) ∧
      (∀ n, n ∈ nodes → ∃ r, (node_id n, r) ∈ backend_results res ∧ ran_with c n (values res) r)
  | (Raise _, s') =>
      (¬ is_ok (topological_order nodes) ∨ ¬ is_ok (validate_phase_dependencies nodes) ∨
       ¬ (Zsum (synchronization_nanoseconds <$> nodes) <= budget <= MAX_OPERATOR_SYNC_NANOSECONDS)) →
      s' = s
  end.
Proof.
  pose proof (topo_order_facts nodes) as Hfacts. unfold graph_execute, bind at 1, lift.
  destruct (topological_order nodes) as [ordered|e] eqn:Et; [|done].
  destruct Hfacts as (Hnd & Hperm & Hbefore). unfold bind at 1, lift.
  destruct (validate_phase_dependencies nodes) as [[]|e] eqn:Ev; [|done].
  assert (Hsum : Zsum (synchronization_nanoseconds <$> ordered) = Zsum (synchronization_nanoseconds <$> nodes))
    by (apply Zsum_perm; by rewrite Hperm).
  destruct (_ || _) eqn:Eb; [done|]. breflect. unfold bind.
  destruct (run_nodes monotonic engines c ordered [] [] s) as [[p|e] s1] eqn:Er.
  2:{ intros [[]|[[]|Hno]]; [done|done|lia]. }
  cbn. destruct (run_nodes_spec c ordered [] [] s p s1 Er) as (rs & Hp & Hk & Hv & _ & Htrace).
  { cbn. by rewrite Hperm. } { intros i r Hin. by apply elem_of_nil in Hin. }
  cbn in Hp. exists ordered. rewrite Hsum, Hp in *. split_and!; try done; try lia.
  { by apply validate_phases_ok. }
  intros n Hn. rewrite <-Hperm in Hn. apply list_elem_of_split in Hn as (pre & post & Hsplit).
  destruct (Htrace pre n post Hsplit) as (vs' & r & Hin & (fs & ds & s2 & s3 & Hfs & Hres & Hex & Hds) & Hsame).
  exists r. split; [done|]. exists fs, ds, s2, s3. split_and!; try done. intros k. rewrite Hds.
  destruct (decide (k ∈ dependencies n)) as [Hd|]; [|done]. symmetry. apply Hsame.
  pose proof (Hbefore pre n post Hsplit k Hd) as Hpre. rewrite <-Hperm, Hsplit, fmap_app in Hnd.
  apply NoDup_app in Hnd as (_ & Hdis & _). by apply Hdis.
Qed.
End run.

(** ** An example *)

Definition demo_node (i : string) (p : WorkloadPhase) (ds : list string) : OperatorGraphNode Z :=
  mkNode i (mkEngineRequest "matmul" p "fp16" "llama" [CPU] (Some [("x", 1)])) ds 5.
Definition demo_nodes : list (OperatorGraphNode Z) :=
  [demo_node "decode" DECODE ["prefill"]; demo_node "prefill" PREFILL []].
Definition demo_graph_engine : Engine Z (GraphPayload Z Z) Z :=
  mkEngine (mkDescriptor CPU "1" ["llama"] ["fp16"] [PREFILL; DECODE] ["matmul"] "in_process" 1)
    (λ _, true) (λ q _ w, (Ok (10 + Zlen (dependency_values (payload q))), w + 1)) (λ w, (Ok (), w)).

Example demo_order :
  match topological_order demo_nodes with Ok l => node_id <$> l | Raise _ => [] end = ["prefill"; "decode"].
Proof. vm_compute. reflexivity. Qed.

Example demo_cycle : topological_order [demo_node "a" DECODE ["b"]; demo_node "b" DECODE ["a"]]
  = Raise (ValueError "operator graph contains a cycle").
Proof. vm_compute. reflexivity. Qed.

Example demo_graph_run :
  (graph_execute demo_clock [(CPU, demo_graph_engine)] demo_nodes demo_context 100 demo_state).1 =
  Ok (mkGraphResult [("prefill", 10); ("decode", 11)]
        [("prefill", mkEngineResult 10 CPU [mkAttempt CPU "succeeded" None]);
         ("decode", mkEngineResult 11 CPU [mkAttempt CPU "succeeded" None])] 10).
Proof. vm_compute. reflexivity. Qed.

End OperatorGraph.
