(* ===== verification/Speculative.v ===== *)
(** * Speculative execution (speculative_execution.py)

    A draft backend proposes tokens, a verifying backend returns its own choices
    for them, and the agreed prefix with the verifier's next token is committed.
    Each stage holds a reservation of the device ledger.  The executors, the
    publisher and the cancellation signal are callables of the host over the state
    of the process: the ledger and the host's own state [W]. *)

From Stdlib Require Import Ascii.
From S2P Require Import Prelude Types OrderedDict PyFloat PyBytes DeviceResources BackendEngine.

Module Speculative.
Import PyFloat PyBytes DeviceResources.

Definition MAX_DRAFT_TOKENS : Z := 64.
Definition MAX_OUTPUT_TOKENS : Z := 65536.
Definition MAX_SPECULATIVE_ROUNDS : Z := 4096.
Definition DRAFT_BACKENDS : list ExecutionBackend := [CPU; COREML_DRAFT].
Definition VERIFY_BACKENDS : list ExecutionBackend := [VLLM_METAL; NATIVE_MLX; NATIVE_METAL].

(** ** Profiles *)

Record SpeculativeExecutionProfile := mkProfile {
  model_hash : string;
  precision : string;
  draft_backend : ExecutionBackend;
  verify_backend : ExecutionBackend;
  profile_sample_count : Z;
  baseline_latency_nanoseconds : Z;
  speculative_latency_nanoseconds : Z;
  outputs_agree : bool;                        (* outputs_match *)
  speculative_profile_id : string;             (* profile_id *)
}.

(** The JSON text hashed by [_profile_id], with sorted names. *)
Definition profile_json (p : SpeculativeExecutionProfile) : string :=
  json_object
    [member "baseline_latency_nanoseconds" (str_of_Z (baseline_latency_nanoseconds p));
     member "draft_backend" (json_string (ExecutionBackend_value (draft_backend p)));
     member "model_hash" (json_string (model_hash p));
     member "outputs_match" (json_bool (outputs_agree p));
     member "precision" (json_string (precision p));
     member "sample_count" (str_of_Z (profile_sample_count p));
     member "speculative_latency_nanoseconds" (str_of_Z (speculative_latency_nanoseconds p));
     member "verify_backend" (json_string (ExecutionBackend_value (verify_backend p)))].

Definition profile_tag : bytes := ascii_bytes "vllm-apple-speculative-profile-v1" ++ [0].
Definition tokens_tag : bytes := ascii_bytes "vllm-apple-speculative-tokens-v1" ++ [0].

(** The state of the process: the device ledger and the host's own state. *)
Record Process (W : Type) := mkProcess { ledger : Ledger; world : W }.
Arguments mkProcess {W}.
Arguments ledger {W}.
Arguments world {W}.

Section sha256.
Variable sha256 : bytes → string.              (* hashlib.sha256(...).hexdigest() *)

(** [_profile_id] *)
Definition profile_digest (p : SpeculativeExecutionProfile) : string :=
  sha256 (profile_tag ++ ascii_bytes (profile_json p)).

(** [SpeculativeExecutionProfile.__post_init__] *)
Definition profile_check (p : SpeculativeExecutionProfile) : res exn SpeculativeExecutionProfile :=
  check (negb (negb (str_len (model_hash p) =? 64) || str_eqb (precision p) ""
               || negb (bool_decide (draft_backend p ∈ DRAFT_BACKENDS))
               || negb (bool_decide (verify_backend p ∈ VERIFY_BACKENDS))
               || negb ((3 <=? profile_sample_count p) && (profile_sample_count p <=? 1024))
               || (baseline_latency_nanoseconds p <=? 0) || (speculative_latency_nanoseconds p <=? 0)
               || negb (str_len (speculative_profile_id p) =? 64)
               || negb (str_eqb (speculative_profile_id p) (profile_digest p))))
    (ValueError "invalid speculative execution profile") p.

(** [SpeculativeExecutionProfile.create]: the digest of the other fields. *)
Definition create_profile (p : SpeculativeExecutionProfile) : res exn SpeculativeExecutionProfile :=
  profile_check (mkProfile (model_hash p) (precision p) (draft_backend p) (verify_backend p)
    (profile_sample_count p) (baseline_latency_nanoseconds p) (speculative_latency_nanoseconds p)
    (outputs_agree p) (profile_digest p)).

(** [_tokens_hash] *)
Definition tokens_hash (tokens : list Z) : res exn string :=
  match concat_bytes 8 tokens with
  | Ok l => Ok (sha256 (tokens_tag ++ l))
  | Raise e => Raise e
  end.

(** [SpeculativeExecutionProfile.qualified] *)
Definition profile_qualified (p : SpeculativeExecutionProfile) : bool :=
  outputs_agree p
  && (speculative_latency_nanoseconds p * 100 <=? baseline_latency_nanoseconds p * 95).

(** ** Results *)

Record SpeculativeExecutionResult := mkResult {
  token_ids : list Z;
  drafted_tokens : Z;
  accepted_draft_tokens : Z;
  verifier_corrections : Z;
  result_rounds : Z;
  elapsed_nanoseconds : Z;
  output_fingerprint : string;
  result_profile_id : string;
}.

(** [SpeculativeExecutionResult.__post_init__]; tokens are integers. *)
Definition result_check (r : SpeculativeExecutionResult) : res exn SpeculativeExecutionResult :=
  if bool_decide (token_ids r = []) || (Zlen (token_ids r) >? MAX_OUTPUT_TOKENS)
     || existsb (λ t, t <? 0) (token_ids r)
     || negb ((1 <=? result_rounds r) && (result_rounds r <=? MAX_SPECULATIVE_ROUNDS))
     || (drafted_tokens r <? Zlen (token_ids r))
     || negb ((0 <=? accepted_draft_tokens r) && (accepted_draft_tokens r <=? drafted_tokens r))
     || negb ((0 <=? verifier_corrections r) && (verifier_corrections r <=? result_rounds r))
     || (elapsed_nanoseconds r <=? 0)
  then Raise (ValueError "invalid speculative execution result")
  else match tokens_hash (token_ids r) with
       | Raise e => Raise e
       | Ok h => check (negb (negb (str_eqb (output_fingerprint r) h)
                              || negb (str_len (result_profile_id r) =? 64)))
                   (ValueError "invalid speculative execution result") r
       end.

(** [_validated_tokens] *)
Definition validated_tokens (tokens : list Z) (maximum : Z) (label : string) : res exn (list Z) :=
  check (negb ((Zlen tokens >? maximum) || existsb (λ t, t <? 0) tokens))
    (ValueError (label +:+ " backend returned invalid tokens")) tokens.

(** The number of leading positions at which the two lists agree. *)
Fixpoint matching (proposal authoritative : list Z) : Z :=
  match proposal, authoritative with
  | l :: proposal', r :: authoritative' => if l =? r then 1 + matching proposal' authoritative' else 0
  | _, _ => 0
  end.

(** ** The executor *)

(** [HeterogeneousSpeculativeExecutor.__init__] *)
Record HeterogeneousSpeculativeExecutor := mkExecutor {
  profile : SpeculativeExecutionProfile;
  draft_memory_bytes : Z;
  verify_memory_bytes : Z;
  maximum_draft_tokens : Z;
}.
Definition new_executor (p : SpeculativeExecutionProfile) (draft_bytes verify_bytes maximum : Z)
    : res exn HeterogeneousSpeculativeExecutor :=
  check (negb (negb (profile_qualified p) || (draft_bytes <? 0) || (verify_bytes <? 0)
               || negb ((1 <=? maximum) && (maximum <=? MAX_DRAFT_TOKENS))))
    (ValueError "invalid or unqualified speculative executor configuration")
    (mkExecutor p draft_bytes verify_bytes maximum).

Section executor.
Context {W : Type}.
Abbreviation State := (Process W).
Context (uuid4 : State → string) (monotonic_ns : Py State Z).
Context (x : HeterogeneousSpeculativeExecutor).
Context (raise_if_cancelled : Py State ()).                       (* of the request context *)
Context (draft : list Z → Z → Py State (list Z)).
Context (verify : list Z → list Z → Py State (list Z)).
Context (publish : option (list Z → Py State ())).

Definition on_ledger {A} (m : Py Ledger A) : Py State A :=
  zoom ledger (λ l s, mkProcess l (world s)) m.

(** [_run_stage] *)
Definition run_stage {A} (b : ExecutionBackend) (bytes : Z) (operation : Py State A) : Py State A :=
  let! request := lift (for_backend b bytes) in
  let! s := get in
  let! reservation := on_ledger (reserve (uuid4 s) request None) in
  finally operation (on_ledger (release (reservation_id reservation)) ;;; ret ()).

(** The local variables of the loop of [execute]. *)
Record Progress := mkProgress {
  output : list Z;
  drafted : Z;
  accepted : Z;
  corrections : Z;
  rounds : Z;
}.

(** What a round commits, of the tokens both stages returned. *)
Definition commit (maximum : Z) (p : Progress) (proposal authoritative : list Z) : list Z * Progress :=
  let m := matching proposal authoritative in
  let committed := if m <? Zlen authoritative then take (Z.to_nat (m + 1)) authoritative
                   else authoritative in
  let committed := if Zlen (output p) + Zlen committed >? maximum
                   then take (Z.to_nat (maximum - Zlen (output p))) committed else committed in
  (committed,
   mkProgress (output p ++ committed) (drafted p + Zlen proposal) (accepted p + m)
     (corrections p + (if m <? Zlen authoritative then 1 else 0)) (rounds p + 1)).

(** One round of the loop of [execute], after its first two checks. *)
Definition round (maximum : Z) (p : Progress) : Py State Progress :=
  let count := Z.min (maximum_draft_tokens x) (maximum - Zlen (output p)) in
  let! raw := run_stage (draft_backend (profile x)) (draft_memory_bytes x) (draft (output p) count) in
  let! proposal := lift (validated_tokens raw count "draft") in
  if bool_decide (proposal = []) then raise (RuntimeError "draft backend returned no token")
  else
    raise_if_cancelled ;;;
    let! raw := run_stage (verify_backend (profile x)) (verify_memory_bytes x) (verify (output p) proposal) in
    let! authoritative := lift (validated_tokens raw (Zlen proposal) "verify") in
    if bool_decide (authoritative = []) then raise (RuntimeError "verify backend returned no token")
    else
      let '(committed, p') := commit maximum p proposal authoritative in
      raise_if_cancelled ;;;
      match publish with Some f => f committed | None => ret () end ;;;
      ret p'.

(** The loop of [execute]; the round limit bounds it before the fuel does. *)
Fixpoint spec_loop (fuel : nat) (maximum : Z) (p : Progress) : Py State Progress :=
  if Zlen (output p) <? maximum then
    raise_if_cancelled ;;;
    if rounds p >=? MAX_SPECULATIVE_ROUNDS
    then raise (RuntimeError "speculative execution round limit exceeded")
    else match fuel with
         | O => raise AssertionError
         | S fuel' => let! p' := round maximum p in spec_loop fuel' maximum p'
         end
  else ret p.

(** [HeterogeneousSpeculativeExecutor.execute] *)
Definition spec_execute (maximum_output_tokens : Z) : Py State SpeculativeExecutionResult :=
  if negb ((1 <=? maximum_output_tokens) && (maximum_output_tokens <=? MAX_OUTPUT_TOKENS))
  then raise (ValueError "invalid speculative execution request")
  else
    let! started := monotonic_ns in
    let! p := spec_loop (Z.to_nat MAX_SPECULATIVE_ROUNDS) maximum_output_tokens (mkProgress [] 0 0 0 0) in
    let! ended := monotonic_ns in
    let! h := lift (tokens_hash (output p)) in
    lift (result_check (mkResult (output p) (drafted p) (accepted p) (corrections p) (rounds p)
                          (Z.max 1 (ended - started)) h (speculative_profile_id (profile x)))).
End executor.

(** ** The adapter to the backend registry *)

(** The payloads of the two operators. *)
Inductive SpeculativePayload :=
| DraftPayload (prefix_token_ids : list Z) (maximum_tokens : Z)
| VerifyPayload (prefix_token_ids proposed_token_ids : list Z).

Section adapter.
Context {W : Type} (monotonic : Py W float).
Context (engines : list (ExecutionBackend * BackendEngine.Engine W SpeculativePayload (list Z))).
Context (p : SpeculativeExecutionProfile) (architecture : string).

(** [BackendRegistrySpeculativeAdapter.__init__] *)
Definition adapter_check : res exn () :=
  check (profile_qualified p && (1 <=? str_len architecture) && (str_len architecture <=? 128))
    (ValueError "invalid speculative backend registry adapter") ().

Definition speculative_request (op : string) (ph : WorkloadPhase) (b : ExecutionBackend)
    (payload : SpeculativePayload) : res exn (BackendEngine.BackendEngineRequest SpeculativePayload) :=
  let r := BackendEngine.mkEngineRequest op ph (precision p) architecture [b] payload in
  match BackendEngine.request_check r with Ok _ => Ok r | Raise e => Raise e end.

(** [BackendRegistrySpeculativeAdapter.draft] *)
Definition adapter_draft (prefix : list Z) (maximum_tokens : Z) (c : BackendEngine.InferenceRequestContext W)
    : Py (BackendEngine.RegistryState W) (list Z) :=
  let! q := lift (speculative_request "speculative.draft" DRAFT (draft_backend p)
                    (DraftPayload prefix maximum_tokens)) in
  let! r := BackendEngine.execute monotonic engines q c in
  if bool_decide (BackendEngine.backend r = draft_backend p)
  then lift (validated_tokens (BackendEngine.value r) maximum_tokens "draft")
  else raise (RuntimeError "speculative draft backend identity mismatch").

(** [BackendRegistrySpeculativeAdapter.verify] *)
Definition adapter_verify (prefix proposed : list Z) (c : BackendEngine.InferenceRequestContext W)
    : Py (BackendEngine.RegistryState W) (list Z) :=
  let! q := lift (speculative_request "speculative.verify" VERIFY (verify_backend p)
                    (VerifyPayload prefix proposed)) in
  let! r := BackendEngine.execute monotonic engines q c in
  if bool_decide (BackendEngine.backend r = verify_backend p)
  then lift (validated_tokens (BackendEngine.value r) (Zlen proposed) "verify")
  else raise (RuntimeError "speculative verify backend identity mismatch").
End adapter.
End sha256.

(** ** The output is the verifier's greedy decoding *)

(** The reference: [n] tokens, each the choice of [next] after those before. *)
Fixpoint greedy (next : list Z → Z) (n : nat) : list Z :=
  match n with
  | O => []
  | S k => let l := greedy next k in l ++ [next l]
  end.

Lemma greedy_length next n : length (greedy next n) = n.
Proof. induction n as [|n IH]; cbn; [done|]. rewrite length_app, IH. cbn. lia. Qed.

(** Tokens each chosen after those before extend the reference. *)
Lemma greedy_extend next n c :
  (∀ i t, c !! i = Some t → t = next (greedy next n ++ take i c)) →
  greedy next n ++ c = greedy next (n + length c).
Proof.
  induction c as [|t c IH] using rev_ind; intros Hc; [by rewrite app_nil_r, Nat.add_0_r|].
  rewrite length_app, Nat.add_assoc, Nat.add_1_r. cbn [length]. rewrite app_assoc, IH.
  - cbn [greedy]. f_equal. f_equal. rewrite <-IH.
    + rewrite (Hc (length c) t); [by rewrite take_app_length|]. by apply list_lookup_middle.
    + intros i u Hi. rewrite (Hc i u); [|by apply lookup_app_l_Some].
      rewrite take_app_le; [done|]. apply lookup_lt_Some in Hi. lia.
  - intros i u Hi. rewrite (Hc i u); [|by apply lookup_app_l_Some].
    rewrite take_app_le; [done|]. apply lookup_lt_Some in Hi. lia.
Qed.

Lemma greedy_prefix next n m : (n <= m)%nat → take n (greedy next m) = greedy next n.
Proof.
  induction m as [|m IH]; intros Hn; [by assert (n = 0%nat) as -> by lia|].
  destruct (decide (n = S m)) as [->|]; [apply take_ge; by rewrite greedy_length|].
  cbn. rewrite take_app_le by (rewrite greedy_length; lia). apply IH. lia.
Qed.

Lemma matching_spec l r :
  0 <= matching l r <= Zlen l ∧ matching l r <= Zlen r ∧
  take (Z.to_nat (matching l r)) l = take (Z.to_nat (matching l r)) r ∧
  (∀ a b, l !! Z.to_nat (matching l r) = Some a → r !! Z.to_nat (matching l r) = Some b → a ≠ b).
Proof.
  revert r. induction l as [|a l IH]; intros [|b r]; cbn [matching]; unfold Zlen in *; cbn [length];
    try (split_and!; try done; lia).
  destruct (a =? b) eqn:E; breflect.
  - destruct (IH r) as (H1 & H2 & H3 & H4). rewrite Z2Nat.inj_add by lia. cbn [Nat.add].
    change (Z.to_nat 1) with 1%nat. cbn [Nat.add take lookup list_lookup]. subst b.
    split_and!; try lia; [by rewrite H3|done].
  - split_and!; try done; try lia. cbn. intros ? ? [= <-] [= <-]. done.
Qed.

(** A verifier that answers, at each proposed position, with the choice of [next]
    after the prefix and the proposal up to there. *)
Definition verifies (next : list Z → Z) (prefix proposal answer : list Z) : Prop :=
  ∀ i t, answer !! i = Some t → t = next (prefix ++ take i proposal).

Lemma result_check_same sha r :
  match result_check sha r with Ok r' => r' = r | Raise _ => True end.
Proof.
  unfold result_check, check. by repeat case_match; simplify_eq.
Qed.

Lemma tokens_hash_total sha l :
  Forall (λ t, 0 <= t < 2 ^ 64) l → ∃ h, tokens_hash sha l = Ok h.
Proof.
  intros Hf. unfold tokens_hash. assert (Hk : is_ok (concat_bytes 8 l) = true).
  { rewrite concat_bytes_ok. apply forallb_forall. intros t Ht%list_elem_of_In.
    rewrite Forall_forall in Hf. specialize (Hf t Ht). change (8 * Z.of_nat 8) with 64.
    apply andb_true_intro. split; [apply Z.leb_le|apply Z.ltb_lt]; lia. }
  destruct (concat_bytes 8 l); [by eexists|done].
Qed.

(** The counters of the loop. *)
Record counts_ok (maximum : Z) (p : Progress) : Prop := {
  co_maximum : Zlen (output p) <= maximum;
  co_drafted : Zlen (output p) <= drafted p;
  co_accepted : 0 <= accepted p <= drafted p;
  co_corrections : 0 <= corrections p <= rounds p;
  co_rounds : 0 <= rounds p <= Zlen (output p);
  co_started : 1 <= Zlen (output p) → 1 <= rounds p;
}.

Lemma result_check_ok sha maximum p t h i :
  counts_ok maximum p ∧ output p ≠ [] ∧ Zlen (output p) = maximum ∧ maximum <= MAX_SPECULATIVE_ROUNDS ∧
  Forall (λ t, 0 <= t) (output p) ∧ tokens_hash sha (output p) = Ok h ∧ str_len i = 64 →
  let r := mkResult (output p) (drafted p) (accepted p) (corrections p) (rounds p) (Z.max 1 t) h i in
  result_check sha r = Ok r.
Proof.
  intros ([Hx Hd Ha Hc Hr Hs] & Hne & Hlen & Hm & Hf & Hh & Hi). cbn zeta. unfold result_check.
  cbn [token_ids drafted_tokens accepted_draft_tokens verifier_corrections result_rounds elapsed_nanoseconds
       output_fingerprint result_profile_id].
  assert (Hpos : 1 <= Zlen (output p)) by (destruct (output p); [done|unfold Zlen; cbn; lia]).
  assert (He : existsb (λ t, t <? 0) (output p) = false).
  { apply not_true_is_false. intros (u & Hu & Hn)%existsb_exists. rewrite Forall_forall in Hf.
    apply list_elem_of_In, Hf in Hu. breflect. lia. }
  specialize (Hs Hpos). unfold check, str_eqb. rewrite He, Hh, Hi, !bool_decide_eq_false_2 by done.
  rewrite bool_decide_eq_true_2 by done. cbn [orb negb].
  unfold MAX_SPECULATIVE_ROUNDS, MAX_OUTPUT_TOKENS in *.
  rewrite Z.gtb_ltb, (proj2 (Z.leb_gt (Z.max 1 t) 0)) by lia.
  by rewrite !(proj2 (Z.ltb_ge _ _)), !(proj2 (Z.leb_le _ _)) by lia.
Qed.

(** A round commits a nonempty part of the answer, one token past the agreement at
    most, and counts it. *)
Lemma commit_counts maximum p proposal answer c p' :
  (length answer <= length proposal)%nat → 1 <= Zlen answer → Zlen (output p) < maximum →
  commit maximum p proposal answer = (c, p') →
  output p' = output p ++ c ∧ rounds p' = rounds p + 1 ∧ 1 <= Zlen c ∧
  (∃ j, c = take j answer ∧ (j <= Z.to_nat (matching proposal answer + 1))%nat) ∧
  (counts_ok maximum p → counts_ok maximum p').
Proof.
  intros Hlen Hne Hmax. unfold commit. destruct (matching_spec proposal answer) as (Hm & Hm' & _ & _).
  set (m := matching proposal answer) in *.
  set (c0 := if m <? Zlen answer then take (Z.to_nat (m + 1)) answer else answer).
  set (c1 := if Zlen (output p) + Zlen c0 >? maximum then take (Z.to_nat (maximum - Zlen (output p))) c0 else c0).
  intros [= <- <-]. cbn [output rounds].
  assert (Hc0 : ∃ k, c0 = take k answer ∧ (k <= Z.to_nat (m + 1))%nat ∧ (1 <= k)%nat).
  { unfold c0. destruct (m <? Zlen answer) eqn:E; breflect.
    - exists (Z.to_nat (m + 1)). split_and!; [done|lia|lia].
    - exists (Z.to_nat m). assert (Z.to_nat m = length answer) as Hk by (unfold Zlen in *; lia).
      split_and!; [by rewrite take_ge by lia|lia|unfold Zlen in *; lia]. }
  destruct Hc0 as (k & Hk & Hkm & Hk1).
  assert (Hc : ∃ j, c1 = take j answer ∧ (j <= Z.to_nat (m + 1))%nat ∧ (1 <= j)%nat).
  { unfold c1. destruct (_ >? _) eqn:E; breflect; [|exists k; split_and!; [done|lia|lia]]. rewrite Hk.
    exists (Nat.min (Z.to_nat (maximum - Zlen (output p))) k). rewrite take_take. split_and!; [done|lia|lia]. }
  assert (Hbound : Zlen (output p) + Zlen c1 <= maximum).
  { unfold c1. destruct (_ >? _) eqn:E; breflect; [|done]. unfold Zlen in *. rewrite length_take. lia. }
  clearbody c1. destruct Hc as (j & -> & Hj & Hj1).
  assert (Hlj : 1 <= Zlen (take j answer) <= Zlen proposal) by (unfold Zlen in *; rewrite length_take; lia).
  split_and!; [done|done|lia|by exists j|]. intros [Hx Hd Ha Hc Hr _].
  assert (Happ : Zlen (output p ++ take j answer) = Zlen (output p) + Zlen (take j answer))
    by (unfold Zlen; rewrite length_app; lia).
  split; cbn [output drafted accepted corrections rounds]; destruct (m <? Zlen answer); lia.
Qed.

(** What a round commits continues the greedy decoding, whatever was proposed. *)
Lemma commit_greedy next maximum p proposal answer c p' :
  verifies next (output p) proposal answer →
  (length answer <= length proposal)%nat → 1 <= Zlen answer → Zlen (output p) < maximum →
  output p = greedy next (length (output p)) →
  commit maximum p proposal answer = (c, p') → output p' = greedy next (length (output p')).
Proof.
  intros Hv Hlen Hne Hmax Hgr Hc.
  destruct (commit_counts _ _ _ _ _ _ Hlen Hne Hmax Hc) as (-> & _ & _ & (j & -> & Hj) & _).
  destruct (matching_spec proposal answer) as (Hm & Hm' & Hpre & _). set (m := matching proposal answer) in *.
  assert (Htake : ∀ i, (i <= Z.to_nat m)%nat → take i proposal = take i answer).
  { intros i Hi. apply (f_equal (take i)) in Hpre. rewrite !take_take, Nat.min_l in Hpre by lia. done. }
  rewrite length_app. transitivity (greedy next (length (output p)) ++ take j answer); [by rewrite <-Hgr|].
  apply greedy_extend. intros i t Hi. rewrite <-Hgr.
  pose proof (lookup_lt_Some _ _ _ Hi) as Hil. rewrite length_take in Hil.
  rewrite lookup_take_lt in Hi by lia. rewrite (Hv i t Hi). f_equal. f_equal.
  rewrite Htake by lia. rewrite take_take. f_equal. lia.
Qed.

Section correctness.
Context {W : Type}.
Abbreviation State := (Process W).
Context (sha256 : bytes → string) (uuid4 : State → string) (monotonic_ns : Py State Z).
Context (x : HeterogeneousSpeculativeExecutor) (raise_if_cancelled : Py State ()).
Context (draft : list Z → Z → Py State (list Z)) (verify : list Z → list Z → Py State (list Z)).
Context (publish : option (list Z → Py State ())).
Abbreviation run_stage := (run_stage uuid4).
Abbreviation round := (round uuid4 x raise_if_cancelled draft verify publish).
Abbreviation spec_loop := (spec_loop uuid4 x raise_if_cancelled draft verify publish).
Abbreviation spec_execute := (spec_execute sha256 uuid4 monotonic_ns x raise_if_cancelled draft verify publish).
Implicit Types (s : State) (p : Progress).

(** An operation that leaves a view of the host's state alone. *)
Definition quiet {A B} (view : W → B) (m : Py State A) : Prop :=
  ∀ s, view (world (m s).2) = view (world s).

Lemma run_stage_inv {A} b n (op : Py State A) s a s' :
  run_stage b n op s = (Ok a, s') → ∃ s1 s2, op s1 = (Ok a, s2) ∧ world s1 = world s.
Proof.
  unfold Speculative.run_stage, bind at 1, lift. destruct (for_backend b n) as [q|]; [|done].
  unfold bind at 1, get. unfold bind at 1, on_ledger at 1, zoom.
  destruct (reserve _ _ _ _) as [[r|e] l1]; cbv beta iota; [|done]. unfold finally.
  destruct (op (mkProcess l1 (world s))) as [[a'|e] s1] eqn:Eo; unfold bind, on_ledger, zoom, ret; cbv beta iota.
  - destruct (release _ _) as [[?|?] l2]; cbv beta iota; [|done]. intros [= <- <-].
    by exists (mkProcess l1 (world s)), s1.
  - destruct (release _ _) as [[?|?] l2]; done.
Qed.

Lemma run_stage_quiet {A B} (view : W → B) b n (op : Py State A) :
  quiet view op → quiet view (run_stage b n op).
Proof.
  intros Hq s. unfold Speculative.run_stage, bind at 1, lift. destruct (for_backend b n) as [q|]; [|done].
  unfold bind at 1, get. unfold bind at 1, on_ledger at 1, zoom.
  destruct (reserve _ _ _ _) as [[r|e] l1]; cbv beta iota; [|done]. unfold finally.
  specialize (Hq (mkProcess l1 (world s))).
  destruct (op (mkProcess l1 (world s))) as [[a'|e] s1]; unfold bind, on_ledger, zoom, ret; cbv beta iota;
    destruct (release _ _) as [[?|?] l2]; done.
Qed.

(** ** Safety *)

Section safety.
Context (next : list Z → Z) (published : W → list Z) (base : list Z) (maximum : Z).
Hypothesis verify_next : ∀ prefix proposal s a s',
  verify prefix proposal s = (Ok a, s') → verifies next prefix proposal a.
Hypothesis cancel_quiet : quiet published raise_if_cancelled.
Hypothesis draft_quiet : ∀ prefix n, quiet published (draft prefix n).
Hypothesis verify_quiet : ∀ prefix proposal, quiet published (verify prefix proposal).
(** The publisher hands on the tokens, or fails after some of them. *)
Hypothesis publish_appends : ∀ f c s, publish = Some f →
  match f c s with
  | (Ok _, s') => published (world s') = published (world s) ++ c
  | (Raise _, s') => ∃ k, published (world s') = published (world s) ++ take k c
  end.

(** What a publisher, if any, has been given. *)
Definition handed (l : list Z) : list Z := if publish is Some _ then l else [].

Record progress_ok p s : Prop := {
  po_greedy : output p = greedy next (length (output p));
  po_published : published (world s) = base ++ handed (output p);
  po_counts : counts_ok maximum p;
}.

(** After an exception the publisher has been given a prefix of the reference. *)
Definition published_prefix s : Prop :=
  ∃ k, (k <= Z.to_nat maximum)%nat ∧ published (world s) = base ++ handed (greedy next k).

Lemma published_same p s s' :
  progress_ok p s → published (world s') = published (world s) → published_prefix s'.
Proof.
  intros [Hg Hp [Hm _ _ _ _ _]] Hs. exists (length (output p)). unfold Zlen in *.
  split; [lia|]. by rewrite Hs, Hp, <-Hg.
Qed.

Lemma publish_committed p p' s c :
  progress_ok p s → output p' = output p ++ c → output p' = greedy next (length (output p')) →
  Zlen (output p') <= maximum →
  match (match publish with Some f => f c | None => ret () end) s with
  | (Ok _, s') => published (world s') = base ++ handed (output p')
  | (Raise _, s') => published_prefix s'
  end.
Proof.
  intros Hok Ho Hg Hm. unfold published_prefix, handed. pose proof (po_published _ _ Hok) as Hp.
  unfold handed in Hp. pose proof publish_appends as Hpub. destruct publish as [f|]; [|done].
  specialize (Hpub f c s eq_refl). destruct (f c s) as [[[]|e] s'].
  - by rewrite Hpub, Hp, Ho, <-app_assoc.
  - destruct Hpub as [k Hk]. rewrite Hk, Hp, <-app_assoc.
    exists (length (output p) + length (take k c))%nat. unfold Zlen in Hm.
    rewrite Ho, length_app in Hm. split; [rewrite length_take; lia|]. f_equal.
    rewrite <-(greedy_prefix next _ (length (output p'))) by (rewrite Ho, length_app, length_take; lia).
    rewrite <-Hg, Ho. rewrite take_app_ge by lia. f_equal.
    replace (length (output p) + length (take k c) - length (output p))%nat with (length (take k c)) by lia.
    rewrite length_take. destruct (Nat.le_gt_cases k (length c)); [by rewrite Nat.min_l|].
    rewrite Nat.min_r by lia. by rewrite !take_ge by lia.
Qed.

Lemma round_safe p s :
  progress_ok p s → Zlen (output p) < maximum →
  match round maximum p s with
  | (Ok p', s') => progress_ok p' s' ∧ rounds p' = rounds p + 1 ∧ Zlen (output p) < Zlen (output p')
  | (Raise _, s') => published_prefix s'
  end.
Proof.
  intros Hok Hmax. unfold Speculative.round. set (count := Z.min _ _). unfold bind at 1.
  pose proof (run_stage_quiet published (draft_backend (profile x)) (draft_memory_bytes x) _
                (draft_quiet (output p) count) s) as Hq1.
  destruct (run_stage _ _ (draft (output p) count) s) as [[raw|e] s1]; [|by eapply published_same].
  cbn in Hq1. unfold bind at 1, lift, validated_tokens, check.
  destruct (negb _) eqn:Ev; [|by eapply published_same]. breflect.
  case_bool_decide as Hne; [by eapply published_same|]. unfold bind at 1. specialize (cancel_quiet s1) as Hq2.
  destruct (raise_if_cancelled s1) as [[[]|e] s2]; [|eapply published_same; [done|cbn in *; congruence]].
  cbn in Hq2. unfold bind at 1.
  pose proof (run_stage_quiet published (verify_backend (profile x)) (verify_memory_bytes x) _
                (verify_quiet (output p) raw) s2) as Hq3.
  destruct (run_stage _ _ (verify (output p) raw) s2) as [[answer|e] s3] eqn:Er;
    [|eapply published_same; [done|cbn in *; congruence]].
  cbn in Hq3. assert (Hs3 : published (world s3) = published (world s)) by congruence.
  unfold bind at 1, lift, validated_tokens, check.
  destruct (negb _) eqn:Ea; [|by eapply published_same]. breflect.
  case_bool_decide as Hna; [by eapply published_same|].
  destruct (run_stage_inv _ _ _ _ _ _ Er) as (s4 & s5 & Hvs & _). apply verify_next in Hvs.
  destruct (commit maximum p raw answer) as [c p'] eqn:Ec.
  assert (Hla : (length answer <= length raw)%nat) by (unfold Zlen in *; lia).
  assert (Hna' : 1 <= Zlen answer) by (destruct answer; [done|unfold Zlen; cbn; lia]).
  destruct (commit_counts _ _ _ _ _ _ Hla Hna' Hmax Ec) as (Ho & Hr & Hc1 & _ & Hco).
  pose proof (commit_greedy _ _ _ _ _ _ _ Hvs Hla Hna' Hmax (po_greedy _ _ Hok) Ec) as Hg'.
  pose proof (Hco (po_counts _ _ Hok)) as Hcnt.
  assert (Hlen : Zlen (output p') = Zlen (output p) + Zlen c) by (rewrite Ho; unfold Zlen; rewrite length_app; lia).
  unfold bind at 1. specialize (cancel_quiet s3) as Hq4.
  destruct (raise_if_cancelled s3) as [[[]|e] s6]; [|eapply published_same; [done|cbn in *; congruence]].
  cbn in Hq4. unfold bind.
  assert (Hok6 : progress_ok p s6).
  { destruct Hok as [Hg Hp Hcn]. split; [done| |done]. rewrite Hq4, Hs3. exact Hp. }
  pose proof (publish_committed p p' s6 c Hok6 Ho Hg' (co_maximum _ _ Hcnt)) as Hpub.
  destruct ((match publish with Some f => f c | None => ret () end) s6) as [[[]|e] s7]; [|done].
  cbn. split; [by split|lia].
Qed.

Lemma spec_loop_safe fuel p s :
  progress_ok p s →
  match spec_loop fuel maximum p s with
  | (Ok p', s') => progress_ok p' s' ∧ Zlen (output p') = maximum
  | (Raise _, s') => published_prefix s'
  end.
Proof.
  revert p s. induction fuel as [|fuel IH]; intros p s Hok; cbn [Speculative.spec_loop];
    (destruct (_ <? _) eqn:Em; breflect;
      [|split; [done|]; pose proof (co_maximum _ _ (po_counts _ _ Hok)); lia]);
    unfold bind at 1; specialize (cancel_quiet s) as Hq;
    (destruct (raise_if_cancelled s) as [[[]|e] s1]; [|by eapply published_same]);
    cbn in Hq; (destruct (rounds p >=? _); [by eapply published_same|]); [by eapply published_same|].
  unfold bind. assert (Hok1 : progress_ok p s1) by (destruct Hok; split; [done|by rewrite Hq|done]).
  pose proof (round_safe p s1 Hok1 Em) as Hr.
  destruct (round maximum p s1) as [[p'|e] s2]; [|done]. apply IH, Hr.
Qed.

(** C31: whatever the draft backend proposes, a run that returns has produced the
    verifier's own greedy decoding of the requested length, has counted it within
    its bounds and has handed exactly that to the publisher; a run that raises, at
    any point, has handed on a prefix of the same decoding. *)
Theorem speculative_output_is_greedy s :
  quiet published monotonic_ns → published (world s) = base →
  match spec_execute maximum s with
  | (Ok r, s') => token_ids r = greedy next (Z.to_nat maximum) ∧
      published (world s') = base ++ handed (token_ids r) ∧
      accepted_draft_tokens r <= drafted_tokens r ∧ verifier_corrections r <= result_rounds r <= maximum
  | (Raise _, s') => published_prefix s'
  end.
Proof.
  intros Hclock Hb. unfold Speculative.spec_execute.
  assert (Hnil : ∀ s', published (world s') = base → published_prefix s').
  { intros s' Hs'. exists 0%nat. split; [lia|]. unfold handed. rewrite Hs'. destruct publish; by rewrite app_nil_r. }
  destruct (negb _) eqn:Eg; breflect; [by apply Hnil|]. unfold bind at 1. specialize (Hclock s) as Hq.
  destruct (monotonic_ns s) as [[t0|e] s1]; cbn in Hq; [|apply Hnil; congruence]. unfold bind at 1.
  assert (Hok : progress_ok (mkProgress [] 0 0 0 0) s1).
  { split; cbn; [done| |split; unfold Zlen; cbn; lia]. unfold handed. destruct publish; rewrite app_nil_r; congruence. }
  pose proof (spec_loop_safe (Z.to_nat MAX_SPECULATIVE_ROUNDS) _ s1 Hok) as Hl.
  destruct (spec_loop _ _ _ s1) as [[p|e] s2]; [|done]. destruct Hl as [Hok2 Hlen]. unfold bind at 1.
  specialize (Hclock s2) as Hq2.
  destruct (monotonic_ns s2) as [[t1|e] s3]; cbn in Hq2; [|by eapply published_same].
  unfold bind, lift. destruct (tokens_hash _ _) as [h|e]; [|by eapply published_same].
  pose proof (result_check_same sha256) as Hrc.
  specialize (Hrc (mkResult (output p) (drafted p) (accepted p) (corrections p) (rounds p)
                     (Z.max 1 (t1 - t0)) h (speculative_profile_id (profile x)))).
  destruct (result_check _ _) as [r|e]; [subst r|by eapply published_same].
  destruct Hok2 as [Hg Hp [Hm Hd Ha Hc Hr _]]. cbn. rewrite Hq2.
  assert (Hn : length (output p) = Z.to_nat maximum) by (unfold Zlen in Hlen; lia).
  split_and!; [by rewrite Hg, Hn|done|lia..].
Qed.
End safety.


(** ** Liveness *)

Section liveness.
Context (ready : W → Prop) (l0 : Ledger) (maximum : Z).

(** An operation that returns a result of the given kind, with the ledger as it was. *)
Definition settles {A} (m : Py State A) (good : A → Prop) : Prop :=
  ∀ s, ready (world s) → ∃ r s', m s = (Ok r, s') ∧ ledger s' = ledger s ∧ ready (world s') ∧ good r.
(** The ledger has room for a stage. *)
Definition fits (b : ExecutionBackend) (n : Z) : Prop :=
  ∃ q, for_backend b n = Ok q ∧ ∀ u, ∃ r l', reserve u q None l0 = (Ok r, l').
Definition tokens_within (n : Z) (l : list Z) : Prop := l ≠ [] ∧ Zlen l <= n ∧ Forall (λ t, 0 <= t < 2 ^ 64) l.

Hypothesis uuid_fresh : ∀ s, reservations l0 !! uuid4 s = None.
Hypothesis draft_fits : fits (draft_backend (profile x)) (draft_memory_bytes x).
Hypothesis verify_fits : fits (verify_backend (profile x)) (verify_memory_bytes x).
Hypothesis clock_settles : settles monotonic_ns (λ _, True).
Hypothesis cancel_settles : settles raise_if_cancelled (λ _, True).
Hypothesis draft_settles : ∀ prefix n, 1 <= n → settles (draft prefix n) (tokens_within n).
Hypothesis verify_settles : ∀ prefix proposal, proposal ≠ [] →
  settles (verify prefix proposal) (tokens_within (Zlen proposal)).
Hypothesis publish_settles : ∀ f c, publish = Some f → settles (f c) (λ _, True).
Hypothesis some_draft : 1 <= maximum_draft_tokens x.

(** A stage gives back what it reserved. *)
Lemma run_stage_settles {A} b n (op : Py State A) good s :
  fits b n → settles op good → ready (world s) → ledger s = l0 →
  ∃ r s', run_stage b n op s = (Ok r, s') ∧ ledger s' = l0 ∧ ready (world s') ∧ good r.
Proof.
  intros (q & Hq & Hroom) Hop Hrd Hl. unfold Speculative.run_stage, bind at 1, lift. rewrite Hq.
  unfold bind at 1, get. unfold bind at 1, on_ledger at 1, zoom. rewrite Hl.
  destruct (Hroom (uuid4 s)) as (r & l' & Hr). rewrite Hr. cbv beta iota.
  destruct (reserve_release _ _ _ _ _ _ (uuid_fresh s) Hr) as [Hid Hrel]. unfold finally.
  destruct (Hop (mkProcess l' (world s)) Hrd) as (v & s1 & -> & Hl1 & Hr1 & Hg).
  cbn in Hl1. unfold bind, on_ledger, zoom, ret. rewrite Hl1, Hid, Hrel. cbv beta iota.
  exists v, (mkProcess l0 (world s1)). done.
Qed.

Lemma validated_within n m l label :
  tokens_within n l → n <= m → validated_tokens l m label = Ok l.
Proof.
  intros (_ & Hl & Hf) Hm. unfold validated_tokens, check. rewrite (proj2 (negb_true_iff _)); [done|].
  apply orb_false_intro; [rewrite Z.gtb_ltb; apply Z.ltb_ge; lia|].
  apply not_true_is_false. intros (t & Ht & Hn)%existsb_exists. rewrite Forall_forall in Hf.
  apply list_elem_of_In, Hf in Ht. breflect. lia.
Qed.

Definition token_range (p : Progress) : Prop := Forall (λ t, 0 <= t < 2 ^ 64) (output p).

Lemma round_settles p s :
  ready (world s) → ledger s = l0 → counts_ok maximum p → token_range p → Zlen (output p) < maximum →
  ∃ p' s', round maximum p s = (Ok p', s') ∧ ledger s' = l0 ∧ ready (world s') ∧
    counts_ok maximum p' ∧ token_range p' ∧ rounds p' = rounds p + 1 ∧ Zlen (output p) < Zlen (output p').
Proof.
  intros Hrd Hl Hco Hra Hmax. unfold Speculative.round. set (count := Z.min _ _).
  assert (Hn : 1 <= count) by (unfold count; lia). unfold bind at 1.
  destruct (run_stage_settles _ _ _ _ s draft_fits (draft_settles (output p) count Hn) Hrd Hl)
    as (raw & s1 & -> & Hl1 & Hr1 & Hraw).
  unfold bind at 1, lift. rewrite (validated_within count) by done. rewrite bool_decide_eq_false_2 by apply Hraw.
  unfold bind at 1. destruct (cancel_settles s1 Hr1) as ([] & s2 & -> & Hl2 & Hr2 & _). unfold bind at 1.
  destruct (run_stage_settles _ _ _ _ s2 verify_fits (verify_settles (output p) raw (proj1 Hraw)) Hr2
              ltac:(congruence)) as (answer & s3 & -> & Hl3 & Hr3 & Hans).
  unfold bind at 1, lift. rewrite (validated_within (Zlen raw)) by done.
  rewrite bool_decide_eq_false_2 by apply Hans.
  destruct (commit maximum p raw answer) as [c p'] eqn:Ec. destruct Hans as (Hne & Hla & Hfa).
  destruct (commit_counts maximum p raw answer c p' ltac:(unfold Zlen in *; lia)
              ltac:(destruct answer; [done|unfold Zlen; cbn; lia]) Hmax Ec) as (Ho & Hr & Hc1 & (j & Hj & _) & Hco').
  assert (Hlen : Zlen (output p') = Zlen (output p) + Zlen c) by (rewrite Ho; unfold Zlen; rewrite length_app; lia).
  assert (Hra' : token_range p').
  { unfold token_range. rewrite Ho, Forall_app. split; [done|]. rewrite Hj. by apply Forall_take. }
  unfold bind at 1. destruct (cancel_settles s3 Hr3) as ([] & s4 & -> & Hl4 & Hr4 & _). unfold bind.
  assert (Hpub : ∃ s5, match publish with Some f => f c | None => ret () end s4 = (Ok (), s5) ∧
    ledger s5 = l0 ∧ ready (world s5)).
  { pose proof publish_settles as Hps. destruct publish as [f|]; [|exists s4; split_and!; [done|congruence|done]].
    destruct (Hps f c eq_refl s4 Hr4) as ([] & s5 & ? & ? & ? & _). exists s5. split_and!; [done|congruence|done]. }
  destruct Hpub as (s5 & -> & Hl5 & Hr5). exists p', s5. split_and!; try done; [by apply Hco'|lia].
Qed.

Lemma spec_loop_settles fuel p s :
  ready (world s) → ledger s = l0 → counts_ok maximum p → token_range p →
  maximum - Zlen (output p) <= Z.of_nat fuel → rounds p + (maximum - Zlen (output p)) <= MAX_SPECULATIVE_ROUNDS →
  ∃ p' s', spec_loop fuel maximum p s = (Ok p', s') ∧ ledger s' = l0 ∧ ready (world s') ∧
    counts_ok maximum p' ∧ token_range p' ∧ Zlen (output p') = maximum.
Proof.
  revert p s. induction fuel as [|fuel IH]; intros p s Hrd Hl Hco Hra Hfuel Hrounds; cbn [Speculative.spec_loop];
    (destruct (_ <? _) eqn:Em; breflect;
      [|exists p, s; split_and!; try done; pose proof (co_maximum _ _ Hco); lia]); [lia|].
  unfold bind at 1. destruct (cancel_settles s Hrd) as ([] & s1 & -> & Hl1 & Hr1 & _).
  rewrite Z.geb_leb. destruct (_ <=? _) eqn:Er; breflect; [lia|]. unfold bind.
  destruct (round_settles p s1 Hr1 ltac:(congruence) Hco Hra Em)
    as (p' & s2 & -> & Hl2 & Hr2 & Hco2 & Hra2 & Hrr & Hlt).
  apply IH; try done; lia.
Qed.

(** With stages that return in-range tokens, room in the ledger for each and no
    cancellation, a request of at most as many tokens as the round limit returns
    every token it asked for, however few of the proposals are accepted, and leaves
    the device ledger as it found it. *)
Theorem speculative_returns s :
  ready (world s) → ledger s = l0 → 1 <= maximum <= MAX_SPECULATIVE_ROUNDS →
  str_len (speculative_profile_id (profile x)) = 64 →
  ∃ r s', spec_execute maximum s = (Ok r, s') ∧ ledger s' = l0 ∧ Zlen (token_ids r) = maximum.
Proof.
  intros Hrd Hl Hmax Hid. unfold Speculative.spec_execute.
  assert (Hm : MAX_SPECULATIVE_ROUNDS <= MAX_OUTPUT_TOKENS) by (unfold MAX_SPECULATIVE_ROUNDS, MAX_OUTPUT_TOKENS; lia).
  rewrite !(proj2 (Z.leb_le _ _)) by lia. cbn [negb andb].
  unfold bind at 1. destruct (clock_settles s Hrd) as (t0 & s1 & -> & Hl1 & Hr1 & _). unfold bind at 1.
  destruct (spec_loop_settles (Z.to_nat MAX_SPECULATIVE_ROUNDS) (mkProgress [] 0 0 0 0) s1)
    as (p & s2 & -> & Hl2 & Hr2 & Hco & Hra & Hlen); [done|congruence| |constructor|..].
  { split; unfold Zlen; cbn; lia. }
  { unfold Zlen; cbn. lia. }
  { unfold Zlen; cbn. lia. }
  unfold bind at 1. destruct (clock_settles s2 Hr2) as (t1 & s3 & -> & Hl3 & _ & _). unfold bind, lift.
  destruct (tokens_hash_total sha256 (output p) Hra) as [h Hh]. rewrite Hh.
  rewrite (result_check_ok sha256 maximum); [|split_and!; try done; try lia..].
  - eexists _, s3. split_and!; [done|congruence|done].
  - intros E. rewrite E in Hlen. unfold Zlen in Hlen. cbn in Hlen. lia.
  - eapply Forall_impl; [exact Hra|]. cbn. lia.
Qed.
End liveness.
End correctness.

(** ** A run: a verifier that counts, a draft that is right about half the time *)

Definition demo_next (prefix : list Z) : Z := Zlen prefix mod 256.
Definition demo_draft (prefix : list Z) (n : Z) : Py (Process (list Z)) (list Z) :=
  ret (take (Z.to_nat n) [demo_next prefix; 7; 7]).
Definition demo_verify (prefix proposal : list Z) : Py (Process (list Z)) (list Z) :=
  ret (map (λ i, demo_next (prefix ++ take i proposal)) (seq 0 (length proposal))).
Definition demo_publish (c : list Z) : Py (Process (list Z)) () :=
  modify (λ s, mkProcess (ledger s) (world s ++ c)).
Definition demo_id : string := String.string_of_list_ascii (repeat "a"%char 64).
Definition demo_executor : HeterogeneousSpeculativeExecutor :=
  mkExecutor (mkProfile demo_id "fp16" CPU NATIVE_MLX 3 100 50 true demo_id) 64 64 3.
Definition demo_state : Process (list Z) := mkProcess demo_ledger [].
Definition demo_execute : Z → Py (Process (list Z)) SpeculativeExecutionResult :=
  spec_execute (λ _, demo_id) (λ _, "r") (ret 0) demo_executor (ret ()) demo_draft demo_verify (Some demo_publish).

Example demo_execute_ok :
  let '(r, s) := demo_execute 5 demo_state in
  (match r with Ok r => (token_ids r, drafted_tokens r, accepted_draft_tokens r, result_rounds r) | Raise _ => ([], 0, 0, 0) end,
   world s) = (([0; 1; 2; 3; 4], 7, 3, 3), [0; 1; 2; 3; 4]).
Proof. vm_compute. reflexivity. Qed.

Lemma demo_verifies prefix proposal s a s' :
  demo_verify prefix proposal s = (Ok a, s') → verifies demo_next prefix proposal a.
Proof.
  intros [= <- <-] i t Hi. rewrite list_lookup_fmap in Hi. apply fmap_Some in Hi as (k & Hk & ->).
  by apply lookup_seq in Hk as [-> _].
Qed.

Lemma speculative_output_is_greedy_witness :
  match demo_execute 5 demo_state with
  | (Ok r, s') => token_ids r = greedy demo_next 5 ∧ world s' = token_ids r
  | (Raise _, _) => False
  end.
Proof.
  pose proof (speculative_output_is_greedy (λ _, demo_id) (λ _, "r") (ret 0) demo_executor (ret ()) demo_draft
    demo_verify (Some demo_publish) demo_next (λ w, w) [] 5 demo_verifies (λ _, eq_refl) (λ _ _ _, eq_refl)
    (λ _ _ _, eq_refl)
    (λ f c s H, match H in _ = o return match o with Some g => match g c s with
       | (Ok _, s') => world s' = world s ++ c
       | (Raise _, s') => ∃ k, world s' = world s ++ take k c end | None => True end with eq_refl => eq_refl end)
    demo_state (λ _, eq_refl) eq_refl) as Hg.
  fold (demo_execute 5 demo_state) in Hg.
  assert (Hok : is_ok (demo_execute 5 demo_state).1 = true) by (vm_compute; reflexivity).
  destruct (demo_execute 5 demo_state) as [[r|e] s']; [|done].
  split; [exact (proj1 Hg)|]. exact (proj1 (proj2 Hg)).
Defined.

Lemma demo_ledger_fits b : b = CPU ∨ b = NATIVE_MLX → fits demo_ledger b 64.
Proof.
  intros [-> | ->]; (eexists; split; [reflexivity|]; intros u; eexists _, _; reflexivity).
Qed.

Lemma demo_draft_settles prefix n :
  1 <= n → settles (λ _, True) (demo_draft prefix n) (tokens_within n).
Proof.
  intros Hn s _. eexists _, s. split_and!; [done..|]. split_and!.
  - destruct (Z.to_nat n) eqn:E; [lia|done].
  - unfold Zlen. rewrite length_take. lia.
  - apply Forall_take. repeat constructor; unfold demo_next; pose proof (Z.mod_pos_bound (Zlen prefix) 256); lia.
Qed.

Lemma demo_verify_settles prefix proposal :
  proposal ≠ [] → settles (λ _, True) (demo_verify prefix proposal) (tokens_within (Zlen proposal)).
Proof.
  intros Hn s _. eexists _, s. split_and!; [done..|]. split_and!.
  - by destruct proposal.
  - unfold Zlen. rewrite length_map, length_seq. lia.
  - apply Forall_fmap, Forall_forall. intros i _. cbn. unfold demo_next.
    pose proof (Z.mod_pos_bound (Zlen (prefix ++ take i proposal)) 256). lia.
Qed.

Lemma speculative_returns_witness :
  ∃ r s', demo_execute 5 demo_state = (Ok r, s') ∧ ledger s' = demo_ledger ∧ Zlen (token_ids r) = 5.
Proof.
  apply (speculative_returns _ _ _ _ _ _ _ _ (λ _, True) demo_ledger 5).
  - reflexivity.
  - apply demo_ledger_fits. by left.
  - apply demo_ledger_fits. by right.
  - intros s _. by eexists _, s.
  - intros s _. by eexists _, s.
  - intros prefix n Hn. by apply demo_draft_settles.
  - intros prefix proposal Hn. by apply demo_verify_settles.
  - intros f c [= <-] s _. by eexists _, _.
  - cbn. lia.
  - exact I.
  - reflexivity.
  - unfold MAX_SPECULATIVE_ROUNDS. lia.
  - reflexivity.
Defined.

End Speculative.
