(* ===== verification/GraphFusion.v ===== *)
(** * Fusion of operator sequences (graph_fusion.py)

    A pass over a list of operators replaces each occurrence of a rule's pattern by
    one fused operator, where the kernel registry holds passing evidence for it. *)

From Stdlib Require Import Sorted.
From S2P Require Import Prelude Types PySort OperatorDispatch.

Module GraphFusion.
Import PySort OperatorDispatch.KernelRegistry.

Record FusionRule := mkRule { pattern : list string; fused_operator : string }.

(** [FusionRule.__post_init__] *)
Definition rule_check (r : FusionRule) : res exn () :=
  check (negb ((Zlen (pattern r) <? 2) || (Zlen (pattern r) >? 8)
               || existsb (λ i, str_eqb i "" || (str_len i >? 128)) (pattern r)
               || str_eqb (fused_operator r) "" || (str_len (fused_operator r) >? 128)))
    (ValueError "invalid graph fusion rule") ().

Definition DEFAULT_MLX_FUSION_RULES : list FusionRule :=
  [mkRule ["dequant_q4"; "matmul"; "silu"] "fused_q4_silu";
   mkRule ["rms_norm"; "rope"] "fused_rmsnorm_rope";
   mkRule ["moe_route"; "expert_gemm"] "fused_moe"].

Record GraphFusionResult := mkResult { operators : list string; applied : list string }.

(** The key of the rules' order is [-len(rule.pattern)]. *)
Definition longer_first (r1 r2 : FusionRule) : bool := Zlen (pattern r2) <=? Zlen (pattern r1).

(** [CapabilityGatedGraphFusionPass.__init__] *)
Record CapabilityGatedGraphFusionPass := mkPass {
  pass_registry : KernelCapabilityRegistry;
  rules : list FusionRule;
}.
Definition new_pass (g : KernelCapabilityRegistry) (rs : list FusionRule)
    : res exn CapabilityGatedGraphFusionPass :=
  check ((1 <=? Zlen rs) && (Zlen rs <=? 64) && bool_decide (NoDup (pattern <$> rs)))
    (ValueError "invalid graph fusion pass configuration") (mkPass g (sorted_by longer_first rs)).

Section pass.
Context (p : CapabilityGatedGraphFusionPass).

(** The condition of the generator in [apply], on the operators from [index] on. *)
Definition rule_applies (ops : list string) (r : FusionRule) : bool :=
  bool_decide (take (length (pattern r)) ops = pattern r)
  && is_usable NATIVE_MLX (fused_operator r) (pass_registry p).

(** The loop of [apply]: [ops] are the operators from [index] on, and each round
    consumes at least one of them. *)
Fixpoint fuse (fuel : nat) (ops output applied : list string) : GraphFusionResult :=
  match ops with
  | [] => mkResult output applied
  | op :: ops' =>
      match fuel with
      | O => mkResult output applied
      | S fuel' =>
          match List.find (rule_applies ops) (rules p) with
          | None => fuse fuel' ops' (output ++ [op]) applied
          | Some r => fuse fuel' (drop (length (pattern r)) ops) (output ++ [fused_operator r])
                        (applied ++ [fused_operator r])
          end
      end
  end.

(** [apply] *)
Definition apply (ops : list string) : res exn GraphFusionResult :=
  if (Zlen ops >? 4096) || existsb (λ i, str_eqb i "") ops
  then Raise (ValueError "invalid operator graph")
  else Ok (fuse (length ops) ops [] []).

(** ** What the pass does *)

(** The operators one round consumes, what it emits, and the rule it used. *)
Inductive segment : list string → string → option FusionRule → list string → Prop :=
| seg_kept op rest :
    (∀ r, r ∈ rules p → rule_applies (op :: rest) r = false) →
    segment [op] op None rest
| seg_fused r rest :
    r ∈ rules p → is_usable NATIVE_MLX (fused_operator r) (pass_registry p) = true →
    (∀ r', r' ∈ rules p → rule_applies (pattern r ++ rest) r' = true → Zlen (pattern r') <= Zlen (pattern r)) →
    segment (pattern r) (fused_operator r) (Some r) rest.

(** A cut of the operators into such rounds. *)
Inductive cut : list string → list string → list FusionRule → Prop :=
| cut_nil : cut [] [] []
| cut_cons seg out r rest outs rs :
    segment seg out r rest → cut rest outs rs →
    cut (seg ++ rest) (out :: outs) (match r with Some r => r :: rs | None => rs end).

Lemma find_first {A} (f : A → bool) l x :
  List.find f l = Some x → ∃ pre post, l = pre ++ x :: post ∧ f x = true ∧ ∀ y, y ∈ pre → f y = false.
Proof.
  induction l as [|y l IH]; cbn; [done|]. destruct (f y) eqn:E.
  - intros [= ->]. exists [], l. split_and!; [done|done|]. intros z Hz. by apply elem_of_nil in Hz.
  - intros (pre & post & -> & Hx & Hpre)%IH. exists (y :: pre), post. split_and!; [done|done|].
    intros z [->|Hz]%elem_of_cons; auto.
Qed.

Definition pass_ok : Prop :=
  StronglySorted (λ a b, longer_first a b = true) (rules p) ∧ ∀ r, r ∈ rules p → (2 <= length (pattern r))%nat.

Lemma sorted_longest pre r post r' :
  StronglySorted (λ a b, longer_first a b = true) (pre ++ r :: post) → r' ∈ post →
  Zlen (pattern r') <= Zlen (pattern r).
Proof.
  induction pre as [|z pre IH]; cbn; intros [H1 H2]%StronglySorted_inv Hr'; [|by apply IH].
  rewrite Forall_forall in H2. specialize (H2 r' Hr'). unfold longer_first in H2. by breflect.
Qed.

Lemma fuse_spec fuel ops output done_ :
  pass_ok → (length ops <= fuel)%nat →
  ∃ outs rs, cut ops outs rs ∧ fuse fuel ops output done_ = mkResult (output ++ outs) (done_ ++ (fused_operator <$> rs)).
Proof.
  intros [Hsorted Hlen]. revert ops output done_. induction fuel as [|fuel IH]; intros [|op ops] output done_ Hfuel;
    cbn [length] in Hfuel; try lia; cbn [fuse].
  1, 2: exists [], []; split; [constructor|]; cbn; by rewrite !app_nil_r.
  destruct (List.find _ _) as [r|] eqn:Ef.
  - destruct (find_first _ _ _ Ef) as (pre & post & Hrules & Hr & Hpre).
    apply andb_prop in Hr as [Htake Hu]. apply bool_decide_eq_true in Htake.
    assert (Hin : r ∈ rules p) by (rewrite Hrules; apply elem_of_app; right; left).
    specialize (Hlen r Hin). assert (Hops : op :: ops = pattern r ++ drop (length (pattern r)) (op :: ops))
      by (rewrite <-Htake at 1; by rewrite take_drop).
    destruct (IH (drop (length (pattern r)) (op :: ops)) (output ++ [fused_operator r])
                 (done_ ++ [fused_operator r])) as (outs & rs & Hcut & ->).
    { rewrite length_drop. cbn [length]. lia. }
    exists (fused_operator r :: outs), (r :: rs). rewrite <-!app_assoc. split; [|done]. rewrite Hops.
    refine (cut_cons _ _ (Some r) _ _ _ _ Hcut). constructor; [done|done|].
    intros r' Hin'. rewrite <-Hops. intros Happ. rewrite Hrules in Hin', Hsorted.
    apply elem_of_app in Hin' as [Hp|[->|Hp]%elem_of_cons]; [by rewrite (Hpre _ Hp) in Happ|done|].
    by eapply sorted_longest.
  - destruct (IH ops (output ++ [op]) done_ ltac:(lia)) as (outs & rs & Hcut & ->).
    exists (op :: outs), rs. rewrite <-!app_assoc. split; [|done].
    refine (cut_cons [op] _ None _ _ _ _ Hcut). constructor. intros r Hr.
    by apply (List.find_none _ _ Ef), list_elem_of_In.
Qed.

(** ** The meaning of a sequence is preserved *)

(** Operators as transformers of a state, run in order. *)
Definition run {S} (sem : string → S → S) (ops : list string) (s : S) : S :=
  foldl (λ s op, sem op s) s ops.

Lemma cut_run {S} (sem : string → S → S) ops outs rs :
  (∀ r s, r ∈ rules p → is_usable NATIVE_MLX (fused_operator r) (pass_registry p) = true →
     sem (fused_operator r) s = run sem (pattern r) s) →
  cut ops outs rs → ∀ s, run sem outs s = run sem ops s.
Proof.
  intros Hsem. induction 1 as [|seg out r rest outs rs Hseg Hcut IH]; intros s; [done|].
  unfold run in *. rewrite foldl_app. cbn [foldl]. rewrite IH. f_equal. destruct Hseg; [done|]. by apply Hsem.
Qed.

Lemma cut_length ops outs rs : pass_ok → cut ops outs rs → Zlen outs + Zlen rs <= Zlen ops.
Proof.
  intros [_ Hlen]. induction 1 as [|seg out r rest outs rs Hseg Hcut IH]; [done|]. unfold Zlen in *.
  rewrite length_app. destruct Hseg as [|r rest Hr]; cbn [length]; [|specialize (Hlen r Hr)]; lia.
Qed.

End pass.

Lemma new_pass_ok g rs p :
  Forall (λ r, rule_check r = Ok ()) rs → new_pass g rs = Ok p →
  pass_ok p ∧ pass_registry p = g ∧ rules p ≡ₚ rs.
Proof.
  unfold new_pass, check. intros Hrs Hnew. destruct (_ && _); [|done]. injection Hnew as <-. cbn.
  split_and!; [|done|apply sorted_by_Permutation]. split.
  - cbn. apply (sorted_by_sorted longer_first (λ _, True)); [..|by apply Forall_true];
      unfold longer_first; intros; breflect; apply Z.leb_le; lia.
  - cbn. intros r Hr%elem_of_sorted_by. rewrite Forall_forall in Hrs. specialize (Hrs r Hr).
    unfold rule_check, check in Hrs. destruct (negb _) eqn:E; [|done]. breflect. unfold Zlen in *. lia.
Qed.

(** C32: a fused graph computes what the graph did.  [apply] raises exactly for more
    than 4096 operators or an unnamed one.  Otherwise its output comes from a cut of
    the operators, left to right, into single operators no usable rule starts at and
    patterns of usable rules, the longest that start there, each replaced by its
    fused operator; the operators applied are those, in order; and whenever the
    fused operators of the usable rules compute what their patterns do, the output
    computes what the input did, with at least one operator less per fusion. *)
Theorem fusion_preserves_meaning g rs p ops :
  Forall (λ r, rule_check r = Ok ()) rs → new_pass g rs = Ok p →
  match apply p ops with
  | Raise _ => Zlen ops > 4096 ∨ EmptyString ∈ ops
  | Ok r => Zlen ops <= 4096 ∧ (EmptyString ∉ ops) ∧
      ∃ used, cut p ops (operators r) used ∧ applied r = fused_operator <$> used ∧
      Zlen (operators r) + Zlen used <= Zlen ops ∧
      ∀ S (sem : string → S → S) s,
        (∀ r s, r ∈ rs → is_usable NATIVE_MLX (fused_operator r) g = true →
           sem (fused_operator r) s = run sem (pattern r) s) →
        run sem (operators r) s = run sem ops s
  end.
Proof.
  intros Hrs Hnew. destruct (new_pass_ok _ _ _ Hrs Hnew) as (Hok & Hg & Hp). unfold apply.
  assert (Hex : existsb (λ i, str_eqb i "") ops = true ↔ EmptyString ∈ ops).
  { rewrite existsb_exists. split.
    - intros (i & Hi & He). unfold str_eqb in He. apply bool_decide_eq_true in He as ->. by apply list_elem_of_In.
    - intros Hi. exists EmptyString. split; [by apply list_elem_of_In|]. by apply bool_decide_eq_true. }
  destruct (_ || _) eqn:E.
  - apply orb_prop in E as [E|E]; [left; breflect; lia|right; by apply Hex].
  - apply orb_false_elim in E as [E1 E2]. split; [breflect; lia|].
    split; [intros Hi%Hex; congruence|].
    destruct (fuse_spec p (length ops) ops [] [] Hok ltac:(lia)) as (outs & used & Hcut & ->).
    exists used. cbn [operators applied app]. split_and!; [done|done|by eapply cut_length|].
    intros S sem s Hsem. eapply cut_run; [|done]. intros r s' Hr. rewrite Hp in Hr. rewrite Hg. by apply Hsem.
Qed.

(** ** A run *)

Definition demo_probe (op : string) : KernelProbeResult :=
  {| schema_version := 1; probe_id := "000000000000000000000000"; hardware_fingerprint := "h";
     environment_fingerprint := "e"; backend := NATIVE_MLX; operator := op; samples_completed := 3;
     baseline_latency_nanoseconds := Some 10; candidate_latency_nanoseconds := Some 5;
     slowdown_ratio := None; passed := true; quarantined := false; reason := "passed" |}.
Definition demo_registry : KernelCapabilityRegistry :=
  mkRegistry "h" "e" 8 {[(NATIVE_MLX, "fused_moe") := demo_probe "fused_moe"]}.
Definition demo_pass : CapabilityGatedGraphFusionPass :=
  mkPass demo_registry (sorted_by longer_first DEFAULT_MLX_FUSION_RULES).

Example demo_apply :
  apply demo_pass ["rms_norm"; "rope"; "moe_route"; "expert_gemm"; "silu"] =
  Ok (mkResult ["rms_norm"; "rope"; "fused_moe"; "silu"] ["fused_moe"]).
Proof. vm_compute. reflexivity. Qed.

(** Each operator appends its name; the fused one appends both. *)
Definition demo_sem (op : string) (s : list string) : list string :=
  if str_eqb op "fused_moe" then s ++ ["moe_route"; "expert_gemm"] else s ++ [op].

Lemma fusion_preserves_meaning_witness :
  run demo_sem ["rms_norm"; "rope"; "fused_moe"; "silu"] [] = ["rms_norm"; "rope"; "moe_route"; "expert_gemm"; "silu"].
Proof.
  pose proof (fusion_preserves_meaning demo_registry DEFAULT_MLX_FUSION_RULES demo_pass
    ["rms_norm"; "rope"; "moe_route"; "expert_gemm"; "silu"]
    ltac:(repeat constructor) ltac:(reflexivity)) as H.
  rewrite demo_apply in H. destruct H as (_ & _ & used & _ & _ & _ & Hrun).
  etransitivity; [apply (Hrun _ demo_sem [])|reflexivity].
  intros r s Hr Hu. repeat apply elem_of_cons in Hr as [->|Hr]; [| | |by apply elem_of_nil in Hr];
    vm_compute in Hu; try discriminate.
  unfold run, demo_sem. change (s ++ ["moe_route"; "expert_gemm"] = (s ++ ["moe_route"]) ++ ["expert_gemm"]).
  by rewrite <-app_assoc.
Defined.

End GraphFusion.
