(* ===== verification/AdaptiveState.v ===== *)
(** * Adaptive allocation of inference state (adaptive_state_allocation.py)

    Under memory pressure the allocator plans to narrow the precision of states and,
    when pressure is critical, to evict them, the oldest first; the coordinator has
    the backend carry out a plan as one transaction, or remembers the pressure until
    the scheduler is at a safe point. *)

From Stdlib Require Import Sorted.
From S2P Require Import Prelude Types PySort PyFloat.

Module AdaptiveState.
Import PySort PyFloat.

Definition MAX_STATE_RECORDS : Z := 65536.
(** [_PRECISION_BYTES.get] *)
Definition precision_bytes (p : string) : option Z :=
  if str_eqb p "fp32" then Some 4 else if str_eqb p "bf16" then Some 2
  else if str_eqb p "fp16" then Some 2 else if str_eqb p "int8" then Some 1 else None.
(** [_PRECISION_BYTES[p]] of a precision that a check has found in the table. *)
Definition width (p : string) : Z := default 0 (precision_bytes p).

Inductive AdaptiveStateKind := KV | RECURRENT | PREFIX | ATTENTION_WINDOW | EXPERT | WORKSPACE.

Record AdaptiveStateRecord := mkRecord {
  state_id : string;
  kind : AdaptiveStateKind;
  resident_bytes : Z;
  age_seconds : float;
  precision : string;
  promoted_precisions : list string;
  pinned : bool;
}.

#[export] Instance AdaptiveStateKind_eq_dec : EqDecision AdaptiveStateKind.
Proof. solve_decision. Defined.
#[export] Instance float_eq_dec : EqDecision float.
Proof. solve_decision. Defined.
#[export] Instance AdaptiveStateRecord_eq_dec : EqDecision AdaptiveStateRecord.
Proof. solve_decision. Defined.

(** [AdaptiveStateRecord.__post_init__] *)
Definition record_check (r : AdaptiveStateRecord) : res exn () :=
  check (negb (str_eqb (state_id r) "" || (str_len (state_id r) >? 256)
               || negb ((1 <=? resident_bytes r) && (resident_bytes r <=? 2 ^ 40))
               || negb (fleb zero (age_seconds r) && fleb (age_seconds r) (of_Z (365 * 24 * 3600)))
               || is_none (precision_bytes (precision r))
               || bool_decide (promoted_precisions r = [])
               || negb (bool_decide (precision r ∈ promoted_precisions r))
               || negb (bool_decide (NoDup (promoted_precisions r)))
               || existsb (λ v, is_none (precision_bytes v)) (promoted_precisions r)))
    (ValueError "invalid adaptive state record") ().

Record AdaptiveStateAction := mkAction {
  action_id : string;
  action : string;
  source_precision : string;
  target_precision : option string;
  source_bytes : Z;
  target_bytes : Z;
  reason : string;
}.

(** [AdaptiveStateAction.__post_init__] *)
Definition action_check (x : AdaptiveStateAction) : res exn AdaptiveStateAction :=
  if negb (bool_decide (action x ∈ ["retain"; "reprecision"; "evict"]))
  then Raise (ValueError "invalid adaptive state action")
  else if is_none (precision_bytes (source_precision x))
  then Raise (ValueError "invalid adaptive state source precision")
  else if str_eqb (action x) "evict" then
    check (is_none (target_precision x) && (target_bytes x =? 0))
      (ValueError "evicted adaptive state must have zero target") x
  else
    check (match target_precision x with Some p => is_some (precision_bytes p) | None => false end
           && negb (target_bytes x <=? 0))
      (ValueError "invalid adaptive state target") x.

Record AdaptiveStatePlan := mkPlan {
  plan_pressure : MemoryPressure;
  plan_source : Z;
  plan_target : Z;
  actions : list AdaptiveStateAction;
}.
Definition bytes_released (p : AdaptiveStatePlan) : Z := plan_source p - plan_target p.

(** ** The allocator *)

(** The order of the candidates: key [(-age_seconds, state_id)]. *)
Definition older_first (a b : AdaptiveStateRecord) : bool :=
  if feqb (age_seconds a) (age_seconds b) then String.leb (state_id a) (state_id b)
  else fltb (age_seconds b) (age_seconds a).
(** The order of the precisions: key [(_PRECISION_BYTES[value], value)]. *)
Definition narrower_first (p q : string) : bool :=
  if width p =? width q then String.leb p q else width p <? width q.
(** [sorted(record.promoted_precisions, ...)[0]] *)
Definition narrowest (r : AdaptiveStateRecord) : string :=
  default "" (head (sorted_by narrower_first (promoted_precisions r))).

(** [selected]: what a state becomes: precision, bytes, reason. *)
Abbreviation Selected := (gmap string (string * Z * string)).
Definition choice_bytes (c : string * Z * string) : Z := c.1.2.

(** The first loop over the candidates. *)
Fixpoint narrow (cands : list AdaptiveStateRecord) (limit target : Z) (sel : Selected) : Z * Selected :=
  match cands with
  | [] => (target, sel)
  | r :: cands' =>
      if target <=? limit then (target, sel)
      else
        let promoted := narrowest r in
        if width promoted <? width (precision r) then
          let size := Z.max 1 (resident_bytes r * width promoted / width (precision r)) in
          narrow cands' limit (target - (resident_bytes r - size))
            (<[state_id r := (promoted, size, "pressure_precision")]> sel)
        else narrow cands' limit target sel
  end.

(** The second loop, for critical pressure. *)
Fixpoint evict (cands : list AdaptiveStateRecord) (limit target : Z) (sel : Selected) : Z * Selected :=
  match cands with
  | [] => (target, sel)
  | r :: cands' =>
      if target <=? limit then (target, sel)
      else
        let '(target, sel) :=
          match sel !! state_id r with
          | Some c => (target + (resident_bytes r - choice_bytes c), delete (state_id r) sel)
          | None => (target, sel)
          end in
        evict cands' limit (target - resident_bytes r) (<[state_id r := ("", 0, "critical_age_eviction")]> sel)
  end.

(** The action of a record. *)
Definition action_of (sel : Selected) (r : AdaptiveStateRecord) : res exn AdaptiveStateAction :=
  match sel !! state_id r with
  | None => action_check (mkAction (state_id r) "retain" (precision r) (Some (precision r)) (resident_bytes r)
              (resident_bytes r) (if pinned r then "pinned" else "within_budget"))
  | Some c =>
      if choice_bytes c =? 0
      then action_check (mkAction (state_id r) "evict" (precision r) None (resident_bytes r) 0 c.2)
      else action_check (mkAction (state_id r) "reprecision" (precision r) (Some c.1.1) (resident_bytes r)
             (choice_bytes c) c.2)
  end.

Definition limit_for (p : MemoryPressure) (source : Z) : Z :=
  match p with
  | MP_WARNING => source * 3 / 4
  | MP_CRITICAL => source / 2
  | _ => source
  end.

(** [AdaptiveStateAllocator.plan] *)
Definition plan (records : list AdaptiveStateRecord) (pressure : MemoryPressure)
    : res exn AdaptiveStatePlan :=
  if (Zlen records >? MAX_STATE_RECORDS) || negb (bool_decide (NoDup (state_id <$> records)))
  then Raise (ValueError "invalid adaptive state allocation input")
  else
    let source := Zsum (resident_bytes <$> records) in
    let limit := limit_for pressure source in
    let pressure := match pressure with MP_UNKNOWN => MP_NORMAL | p => p end in
    let cands := sorted_by older_first (filter (λ r, pinned r = false) records) in
    let '(target, sel) := narrow cands limit source ∅ in
    let '(target, sel) :=
      if (target >? limit) && bool_decide (pressure = MP_CRITICAL) then evict cands limit target sel
      else (target, sel) in
    match fold_res (λ l r, match action_of sel r with Ok x => Ok (l ++ [x]) | Raise e => Raise e end) records [] with
    | Ok l => Ok (mkPlan pressure source target l)
    | Raise e => Raise e
    end.

(** ** Lemmas of the allocator *)

(** The bytes of a state after the plan. *)
Definition after (sel : Selected) (r : AdaptiveStateRecord) : Z :=
  match sel !! state_id r with Some c => choice_bytes c | None => resident_bytes r end.
Definition narrow_choice (r : AdaptiveStateRecord) : string * Z * string :=
  (narrowest r, Z.max 1 (resident_bytes r * width (narrowest r) / width (precision r)), "pressure_precision").
Definition evict_choice : string * Z * string := ("", 0, "critical_age_eviction").
Definition narrowable (r : AdaptiveStateRecord) : Prop := width (narrowest r) < width (precision r).

Definition checked (r : AdaptiveStateRecord) : Prop := record_check r = Ok ().

Lemma checked_fields r :
  checked r → 1 <= resident_bytes r ∧ is_nan (age_seconds r) = false ∧ promoted_precisions r ≠ [] ∧
  is_some (precision_bytes (precision r)) = true ∧
  ∀ v, v ∈ promoted_precisions r → is_some (precision_bytes v) = true.
Proof.
  unfold checked, record_check, check. destruct (negb _) eqn:E; [|done]. intros _.
  apply negb_true_iff in E. rewrite !orb_false_iff in E.
  destruct E as [[[[[[[[_ _] Hb] Ha] Hw] Hne] _] _] Hp]. split_and!.
  - breflect. lia.
  - apply negb_false_iff, andb_prop in Ha as [Ha _]. by destruct (age_seconds r).
  - by apply bool_decide_eq_false in Hne.
  - unfold is_some. by rewrite Hw.
  - intros v Hv. unfold is_some. apply negb_true_iff, not_true_is_false. intros Hn.
    apply not_true_iff_false in Hp. apply Hp, existsb_exists. exists v. by rewrite list_elem_of_In in Hv.
Qed.

Lemma width_pos p : is_some (precision_bytes p) = true → 1 <= width p.
Proof. unfold width, precision_bytes. repeat case_match; cbn; try done; lia. Qed.

Lemma narrowest_promoted r : promoted_precisions r ≠ [] → narrowest r ∈ promoted_precisions r.
Proof.
  intros H. unfold narrowest. pose proof (sorted_by_Permutation narrower_first (promoted_precisions r)) as Hp.
  destruct (sorted_by _ _) as [|p l]; [by apply Permutation_nil_l in Hp|].
  rewrite <-Hp. left.
Qed.

Lemma narrow_choice_bytes r : checked r → narrowable r → 1 <= choice_bytes (narrow_choice r) <= resident_bytes r.
Proof.
  intros Hr Hn. destruct (checked_fields r Hr) as (Hb & _ & Hne & Hw & Hp). unfold choice_bytes, narrow_choice. cbn.
  pose proof (width_pos _ (Hp _ (narrowest_promoted r Hne))). unfold narrowable in Hn.
  assert (resident_bytes r * width (narrowest r) / width (precision r) <= resident_bytes r)
    by (apply Z.div_le_upper_bound; nia). lia.
Qed.

Section loops.
Context (records : list AdaptiveStateRecord).
Hypothesis ids : NoDup (state_id <$> records).

Definition total (sel : Selected) : Z := Zsum (after sel <$> records).

Lemma total_insert sel r c :
  r ∈ records → total (<[state_id r := c]> sel) = total sel - after sel r + choice_bytes c.
Proof.
  unfold total. revert ids. induction records as [|x l IH]; intros Hnd Hr; [by apply elem_of_nil in Hr|].
  rewrite !Zsum_fmap_cons. cbn in Hnd. apply NoDup_cons in Hnd as [Hx Hnd].
  assert (Hsame : ∀ y, state_id y ≠ state_id r → after (<[state_id r := c]> sel) y = after sel y)
    by (intros y Hy; unfold after; by rewrite lookup_insert_ne by done).
  apply elem_of_cons in Hr as [->|Hr].
  - unfold after at 1. rewrite lookup_insert_eq.
    rewrite (list_fmap_ext (after (<[state_id x := c]> sel)) (after sel) l); [lia|].
    intros i y Hy. apply Hsame. intros Heq. apply Hx. rewrite <-Heq. apply list_elem_of_fmap_2.
    by eapply list_elem_of_lookup_2.
  - rewrite (IH Hnd Hr), Hsame; [lia|]. intros Heq. apply Hx. rewrite Heq. by apply list_elem_of_fmap_2.
Qed.

Lemma record_unique r r' : r ∈ records → r' ∈ records → state_id r = state_id r' → r = r'.
Proof.
  revert ids. induction records as [|x l IH]; cbn; intros Hnd Hr Hr' Heq; [by apply elem_of_nil in Hr|].
  apply NoDup_cons in Hnd as [Hx Hnd].
  apply elem_of_cons in Hr as [->|Hr]; apply elem_of_cons in Hr' as [->|Hr']; [done| | |by apply IH].
  - exfalso. apply Hx. rewrite Heq. by apply list_elem_of_fmap_2.
  - exfalso. apply Hx. rewrite <-Heq. by apply list_elem_of_fmap_2.
Qed.

(** The candidates: distinct records of the list. *)
Definition candidates (cands : list AdaptiveStateRecord) : Prop :=
  NoDup cands ∧ ∀ r, r ∈ cands → r ∈ records.

Lemma candidates_cons r cands : candidates (r :: cands) → r ∈ records ∧ (r ∉ cands) ∧ candidates cands.
Proof.
  intros [[Hr Hnd]%NoDup_cons Hin]. split_and!; [apply Hin; left|done|]. split; [done|]. intros x Hx. apply Hin. by right.
Qed.

(** The states the first loop narrows: an initial part of those that can be. *)
Lemma narrow_spec limit cands sel :
  candidates cands → (∀ r, r ∈ cands → sel !! state_id r = None) →
  ∃ sel', narrow cands limit (total sel) sel = (total sel', sel') ∧
    (∀ r, r ∈ records → sel' !! state_id r = sel !! state_id r ∨
       r ∈ cands ∧ narrowable r ∧ sel' !! state_id r = Some (narrow_choice r)) ∧
    (total sel' <= limit ∨ ∀ r, r ∈ cands → narrowable r → sel' !! state_id r = Some (narrow_choice r)) ∧
    (total sel <= limit → sel' = sel).
Proof.
  revert sel. induction cands as [|r cands IH]; intros sel Hc Hsel; cbn [narrow].
  { exists sel. split_and!; [done|by left|right; intros r Hr; by apply elem_of_nil in Hr|done]. }
  destruct (candidates_cons _ _ Hc) as (Hr & Hnr & Hc').
  destruct (total sel <=? limit) eqn:El; breflect.
  { exists sel. split_and!; [done|by left|by left|done]. }
  destruct (width (narrowest r) <? width (precision r)) eqn:Ew; breflect.
  - set (sel1 := <[state_id r := narrow_choice r]> sel).
    assert (Ht : total sel - (resident_bytes r - choice_bytes (narrow_choice r)) = total sel1).
    { unfold sel1. rewrite total_insert by done. unfold after. rewrite (Hsel r) by left. lia. }
    fold (narrow_choice r). change (Z.max 1 _) with (choice_bytes (narrow_choice r)). rewrite Ht. fold sel1.
    assert (Hne : ∀ x, x ∈ cands → state_id x ≠ state_id r).
    { intros x Hx Heq. apply Hnr. rewrite <-(record_unique x r); [done|by apply Hc'|done|done]. }
    destruct (IH sel1 Hc') as (sel' & Hrun & Hch & Hall & _).
    { intros x Hx. unfold sel1. rewrite lookup_insert_ne by (by apply not_eq_sym, Hne). apply Hsel. by right. }
    exists sel'. assert (Hown : sel' !! state_id r = Some (narrow_choice r)).
    { destruct (Hch r Hr) as [->|[? _]]; [unfold sel1; by rewrite lookup_insert_eq|done]. }
    split_and!; [done| |destruct Hall as [?|Hall]; [by left|right]|lia].
    + intros x Hx. destruct (Hch x Hx) as [Heq|[? ?]]; [|right; split; [by right|done]].
      destruct (decide (state_id x = state_id r)) as [Hid|Hid].
      * right. rewrite (record_unique x r) by done. split; [left|done].
      * left. rewrite Heq. unfold sel1. by rewrite lookup_insert_ne by done.
    + intros x [->|Hx]%elem_of_cons Hn; [done|by apply Hall].
  - destruct (IH sel Hc') as (sel' & Hrun & Hch & Hall & _); [intros x Hx; apply Hsel; by right|].
    exists sel'. split_and!; [done| |destruct Hall as [?|Hall]; [by left|right]|lia].
    + intros x Hx. destruct (Hch x Hx) as [?|[? ?]]; [by left|right; split; [by right|done]].
    + intros x [->|Hx]%elem_of_cons Hn; [unfold narrowable in Hn; lia|by apply Hall].
Qed.

(** The second loop evicts an initial part of the candidates, no more than needed. *)
Lemma eviction_spec limit cands sel :
  candidates cands →
  ∃ sel' pre post, evict cands limit (total sel) sel = (total sel', sel') ∧ cands = pre ++ post ∧
    (∀ r, r ∈ pre → sel' !! state_id r = Some evict_choice) ∧
    (∀ r, r ∈ records → r ∉ pre → sel' !! state_id r = sel !! state_id r) ∧
    (total sel' <= limit ∨ post = []).
Proof.
  revert sel. induction cands as [|r cands IH]; intros sel Hc; cbn [evict].
  { exists sel, [], []. split_and!; [done|done|by intros r Hr%elem_of_nil|done|by right]. }
  destruct (candidates_cons _ _ Hc) as (Hr & Hnr & Hc'). destruct (total sel <=? limit) eqn:El; breflect.
  { exists sel, [], (r :: cands). split_and!; [done|done|by intros x Hx%elem_of_nil|done|by left]. }
  set (sel1 := <[state_id r := evict_choice]> sel).
  assert (Hstep : (let '(t, s) := match sel !! state_id r with
      | Some c => (total sel + (resident_bytes r - choice_bytes c), delete (state_id r) sel)
      | None => (total sel, sel) end in
    evict cands limit (t - resident_bytes r) (<[state_id r := ("", 0, "critical_age_eviction")]> s)) =
    evict cands limit (total sel1) sel1).
  { unfold sel1. rewrite total_insert by done. unfold after. destruct (sel !! state_id r) as [c|] eqn:Ec.
    - rewrite insert_delete_eq. change (choice_bytes evict_choice) with 0. f_equal. lia.
    - change (choice_bytes evict_choice) with 0. f_equal. lia. }
  rewrite Hstep. destruct (IH sel1 Hc') as (sel' & pre & post & Hrun & -> & Hpre & Hoth & Hend).
  exists sel', (r :: pre), post. split_and!; [done|done| | |done].
  - assert (Hrp : r ∉ pre) by (intros Hx; apply Hnr, elem_of_app; by left).
    intros x [->|Hx]%elem_of_cons; [|by apply Hpre]. rewrite Hoth by done. unfold sel1. by rewrite lookup_insert_eq.
  - intros x Hx [Hxr Hxp]%not_elem_of_cons. rewrite Hoth by done. unfold sel1.
    rewrite lookup_insert_ne; [done|]. intros Heq. apply Hxr. by apply record_unique.
Qed.
End loops.

(** What a plan may do with a record. *)
Inductive action_for (r : AdaptiveStateRecord) : AdaptiveStateAction → Prop :=
| for_retain why : action_for r
    (mkAction (state_id r) "retain" (precision r) (Some (precision r)) (resident_bytes r) (resident_bytes r) why)
| for_reprecision q n why :
    pinned r = false → q ∈ promoted_precisions r → width q < width (precision r) → 1 <= n <= resident_bytes r →
    action_for r (mkAction (state_id r) "reprecision" (precision r) (Some q) (resident_bytes r) n why)
| for_evict why : pinned r = false →
    action_for r (mkAction (state_id r) "evict" (precision r) None (resident_bytes r) 0 why).

(** The choices the loops make. *)
Definition choices_ok (records : list AdaptiveStateRecord) (sel : Selected) : Prop :=
  ∀ r, r ∈ records → match sel !! state_id r with
  | None => True
  | Some c => pinned r = false ∧ (c = evict_choice ∨ narrowable r ∧ c = narrow_choice r)
  end.

Lemma action_of_ok records sel r :
  choices_ok records sel → r ∈ records → checked r →
  ∃ x, action_of sel r = Ok x ∧ action_for r x ∧ target_bytes x = after sel r ∧
    (action x = "evict" ↔ sel !! state_id r = Some evict_choice) ∧
    (action x = "retain" ↔ sel !! state_id r = None).
Proof.
  intros Hch Hr Hc. specialize (Hch r Hr). destruct (checked_fields r Hc) as (Hb & _ & Hne & Hw & Hp).
  unfold action_of, after. destruct (sel !! state_id r) as [c|] eqn:Es.
  - destruct Hch as [Hpin [->|[Hn ->]]].
    + cbn. unfold action_check, check. cbn. apply negb_true_iff in Hw. rewrite Hw. cbn.
      eexists. split_and!; [done|by constructor|done|done|done].
    + pose proof (narrow_choice_bytes r Hc Hn) as Hbytes. destruct (choice_bytes _ =? 0) eqn:E0; breflect; [lia|].
      pose proof (narrowest_promoted r Hne) as Hq. unfold action_check, check. cbn.
      apply negb_true_iff in Hw. rewrite Hw, (Hp _ Hq). unfold choice_bytes, narrow_choice in Hbytes. cbn in Hbytes.
      rewrite (proj2 (Z.leb_gt _ 0)) by lia. cbn. eexists. split_and!; [done|by constructor|done|done|done].
  - unfold action_check, check. cbn. rewrite Hw. apply negb_true_iff in Hw. rewrite Hw.
    rewrite (proj2 (Z.leb_gt (resident_bytes r) 0)) by lia. cbn. eexists. split_and!; [done|constructor|done|done|done].
Qed.

Lemma actions_ok {A B} (f : A → res exn B) (P : A → B → Prop) l acc :
  (∀ r, r ∈ l → ∃ x, f r = Ok x ∧ P r x) →
  ∃ xs, fold_res (λ l r, match f r with Ok x => Ok (l ++ [x]) | Raise e => Raise e end) l acc = Ok (acc ++ xs) ∧
    Forall2 P l xs.
Proof.
  revert acc. induction l as [|r l IH]; intros acc Hl; cbn.
  { exists []. split; [by rewrite app_nil_r|constructor]. }
  destruct (Hl r ltac:(left)) as (x & -> & Hx). destruct (IH (acc ++ [x])) as (xs & -> & Hxs); [intros; apply Hl; by right|].
  exists (x :: xs). split; [by rewrite <-app_assoc|by constructor].
Qed.

Definition aged (r : AdaptiveStateRecord) : Prop := is_nan (age_seconds r) = false.
Lemma older_first_iff a b :
  aged a → aged b →
  older_first a b = true ↔ lex_lt (key (age_seconds b)) (key (age_seconds a)) ∨
    key (age_seconds a) = key (age_seconds b) ∧ String.leb (state_id a) (state_id b) = true.
Proof.
  unfold aged. intros Ha Hb. unfold older_first. destruct (feqb (age_seconds a) (age_seconds b)) eqn:E.
  - apply feqb_key in E; [|done..]. rewrite E. split; [by right|]. intros [H|[_ H]]; [|done].
    destruct (key (age_seconds b)) as [[? ?] ?]. cbn in H. lia.
  - apply not_true_iff_false in E. rewrite feqb_key in E by done. rewrite fltb_key by done.
    split; [by left|]. by intros [H|[H _]].
Qed.
Lemma older_first_total a b : aged a → aged b → older_first a b = false → older_first b a = true.
Proof.
  intros Ha Hb H. apply not_true_iff_false in H. rewrite older_first_iff in * by done.
  destruct (lex_total (key (age_seconds b)) (key (age_seconds a))) as [?|[Heq|?]]; [tauto| |tauto].
  right. split; [done|]. apply string_leb_total, not_true_iff_false. intros Hl. apply H. by right.
Qed.
Lemma older_first_trans a b c :
  aged a → aged b → aged c → older_first a b = true → older_first b c = true → older_first a c = true.
Proof.
  intros Ha Hb Hc. rewrite !older_first_iff by done. intros [H1|[E1 L1]] [H2|[E2 L2]].
  - left. by eapply lex_trans.
  - left. by rewrite <-E2.
  - left. by rewrite E1.
  - right. split; [congruence|by eapply string_leb_trans].
Qed.
Lemma older_first_antisym a b :
  aged a → aged b → older_first a b = true → older_first b a = true → state_id a = state_id b.
Proof.
  intros Ha Hb. rewrite !older_first_iff by done.
  destruct (key (age_seconds a)) as [[? ?] ?], (key (age_seconds b)) as [[? ?] ?].
  intros [H1|[E1 L1]] [H2|[E2 L2]]; cbn in *; simplify_eq; try lia.
  by apply String.leb_antisym.
Qed.

Lemma candidates_before records cands pre post x y :
  Forall checked records → cands = sorted_by older_first records → cands = pre ++ post →
  x ∈ pre → y ∈ post → older_first x y = true.
Proof.
  intros Hall -> Hc (p1 & p2 & ->)%list_elem_of_split (q1 & q2 & ->)%list_elem_of_split.
  eapply (sorted_by_before older_first aged older_first_total older_first_trans records p1 x (p2 ++ q1) y q2).
  - eapply Forall_impl; [exact Hall|]. intros r Hr. apply (checked_fields r Hr).
  - by rewrite Hc, <-!app_assoc.
Qed.

(** The state of the loops at the end of [plan]. *)
Definition final_choice (pressure : MemoryPressure) (records : list AdaptiveStateRecord) : Z * Selected :=
  let source := Zsum (resident_bytes <$> records) in
  let limit := limit_for pressure source in
  let cands := sorted_by older_first (filter (λ r, pinned r = false) records) in
  let '(target, sel) := narrow cands limit source ∅ in
  if (target >? limit) && bool_decide (pressure = MP_CRITICAL) then evict cands limit target sel else (target, sel).

(** A candidate older than one of an initial part is in it too. *)
Lemma older_in_prefix records pre post r r' :
  Forall checked records → NoDup (state_id <$> records) →
  sorted_by older_first (filter (λ r, pinned r = false) records) = pre ++ post →
  r ∈ pre → r' ∈ records → pinned r' = false → older_first r' r = true → r' ∈ pre.
Proof.
  intros Hall Hids Heq Hr Hr' Hpin Hold. set (unpinned := filter (λ r, pinned r = false) records) in *.
  assert (Hsub : ∀ x, x ∈ unpinned ↔ pinned x = false ∧ x ∈ records)
    by (intros x; apply (list_elem_of_filter (λ r, pinned r = false))).
  assert (Hr'c : r' ∈ pre ++ post) by (rewrite <-Heq; by apply elem_of_sorted_by, Hsub).
  apply elem_of_app in Hr'c as [|Hpost]; [done|]. exfalso.
  assert (Hru : r ∈ unpinned) by (rewrite <-(elem_of_sorted_by older_first), Heq; apply elem_of_app; by left).
  apply Hsub in Hru as [_ Hru]. rewrite Forall_forall in Hall.
  assert (Hb : older_first r r' = true).
  { eapply (candidates_before unpinned _ pre post); [|done..]. apply Forall_forall.
    intros x [_ Hx]%Hsub. by apply Hall. }
  assert (Hid : state_id r = state_id r') by (apply older_first_antisym; try done; by apply checked_fields, Hall).
  apply (record_unique records Hids) in Hid as <-; [|done..].
  assert (Hnd : NoDup (pre ++ post)).
  { rewrite <-Heq, sorted_by_Permutation. apply NoDup_filter. by eapply NoDup_fmap_1. }
  apply NoDup_app in Hnd as (_ & Hd & _). by apply (Hd r).
Qed.

(** What the plan has chosen, of valid distinct records. *)
Lemma final_choice_spec pressure records :
  Forall checked records → NoDup (state_id <$> records) →
  let source := Zsum (resident_bytes <$> records) in
  let limit := limit_for pressure source in
  ∃ sel, final_choice pressure records = (total records sel, sel) ∧ choices_ok records sel ∧
    (pressure = MP_NORMAL ∨ pressure = MP_UNKNOWN → sel = ∅) ∧
    (∀ r, r ∈ records → sel !! state_id r = Some evict_choice → pressure = MP_CRITICAL ∧
       ∀ r', r' ∈ records → pinned r' = false → older_first r' r = true → sel !! state_id r' = Some evict_choice) ∧
    (total records sel <= limit ∨ ∀ r, r ∈ records → pinned r = false →
       if decide (pressure = MP_CRITICAL) then sel !! state_id r = Some evict_choice
       else narrowable r → sel !! state_id r = Some (narrow_choice r)).
Proof.
  intros Hall Hids source limit. unfold final_choice. fold source. fold limit.
  set (unpinned := filter (λ r, pinned r = false) records). set (cands := sorted_by older_first unpinned).
  assert (Hin : ∀ r, r ∈ cands ↔ pinned r = false ∧ r ∈ records).
  { intros r. unfold cands, unpinned. rewrite elem_of_sorted_by.
    apply (list_elem_of_filter (λ r, pinned r = false)). }
  assert (Hc : candidates records cands).
  { split; [|intros r Hr; by apply Hin]. unfold cands. rewrite sorted_by_Permutation. apply NoDup_filter.
    by eapply NoDup_fmap_1. }
  assert (Hsrc : source = total records ∅).
  { done. }
  rewrite Hsrc.
  destruct (narrow_spec records Hids limit cands ∅ Hc) as (sel1 & -> & Hch & Hlim & Hnone); [done|].
  assert (Hok1 : choices_ok records sel1).
  { intros r Hr. destruct (Hch r Hr) as [->|(Hrc & Hn & ->)]; [by rewrite lookup_empty|].
    split; [by apply Hin in Hrc as [? _]|by right]. }
  assert (Hno : ∀ r, r ∈ records → sel1 !! state_id r ≠ Some evict_choice).
  { intros r Hr He. destruct (Hch r Hr) as [E|(_ & _ & E)]; rewrite E in He; [by rewrite lookup_empty in He|].
    unfold narrow_choice, evict_choice in He. simplify_eq. }
  assert (Hcalm : pressure = MP_NORMAL ∨ pressure = MP_UNKNOWN → sel1 = ∅).
  { intros Hp. apply Hnone. rewrite <-Hsrc. unfold limit, limit_for. by destruct Hp as [-> | ->]. }
  destruct (_ && _) eqn:E.
  - apply andb_prop in E as [_ ->%bool_decide_eq_true].
    destruct (eviction_spec records Hids limit cands sel1 Hc) as (sel & pre & post & -> & Heq & Hpre & Hoth & Hend).
    exists sel. assert (Hev : ∀ r, r ∈ records → sel !! state_id r = Some evict_choice → r ∈ pre).
    { intros r Hr He. destruct (decide (r ∈ pre)) as [|Hn]; [done|]. rewrite Hoth in He by done. by apply Hno in He. }
    split_and!; [done| | | |].
    + intros r Hr. destruct (decide (r ∈ pre)) as [Hp|Hn]; [|rewrite Hoth by done; by apply Hok1].
      rewrite (Hpre r Hp). split; [|by left]. apply Hin. rewrite Heq. apply elem_of_app. by left.
    + by intros [?|?].
    + intros r Hr He. split; [done|]. intros r' Hr' Hpin Hold. apply Hpre.
      by eapply (older_in_prefix records pre post r); [..|apply Hev| | |].
    + destruct Hend as [?| ->]; [by left|right]. intros r Hr Hpin. rewrite decide_True by done. apply Hpre.
      rewrite app_nil_r in Heq. rewrite <-Heq. by apply Hin.
  - exists sel1. split_and!; [done|done|done| |].
    + intros r Hr He. by apply Hno in He.
    + destruct Hlim as [?|Hlim]; [by left|]. destruct (decide (pressure = MP_CRITICAL)) as [->|Hp].
      * rewrite bool_decide_eq_true_2 in E by done. left. rewrite andb_true_r in E. by breflect.
      * right. intros r Hr Hpin Hn. apply Hlim; [by apply Hin|done].
Qed.

(** The allocator plans what the pressure asks for and accounts for it.  It
    raises only for too many records or a repeated identifier.  Otherwise the plan
    has one action per record, in order: pinned states are retained, a narrowed one
    gets a promoted precision of smaller width and no more bytes than before; the
    plan's totals are the sums over its actions; nothing changes under normal
    pressure and only critical pressure evicts, no state while an older unpinned
    one is kept; and the target meets the limit of the pressure unless every
    unpinned state has been evicted or, under warning, narrowed as far as its
    promoted precisions allow. *)
Theorem adaptive_plan_correct records pressure :
  Forall checked records →
  match plan records pressure with
  | Raise _ => Zlen records > MAX_STATE_RECORDS ∨ ¬ NoDup (state_id <$> records)
  | Ok p =>
      Forall2 action_for records (actions p) ∧
      plan_source p = Zsum (source_bytes <$> actions p) ∧ plan_target p = Zsum (target_bytes <$> actions p) ∧
      0 <= plan_target p <= plan_source p ∧
      (pressure = MP_NORMAL ∨ pressure = MP_UNKNOWN → plan_target p = plan_source p) ∧
      (∀ i r x, records !! i = Some r → actions p !! i = Some x → action x = "evict" → pressure = MP_CRITICAL ∧
         ∀ j r' x', records !! j = Some r' → actions p !! j = Some x' →
           pinned r' = false → older_first r' r = true → action x' = "evict") ∧
      (plan_target p <= limit_for pressure (plan_source p) ∨
       ∀ i r x, records !! i = Some r → actions p !! i = Some x → pinned r = false →
         if decide (pressure = MP_CRITICAL) then action x = "evict" else narrowable r → action x = "reprecision")
  end.
Proof.
  intros Hall. unfold plan. destruct (_ || _) eqn:Eb.
  { apply orb_prop in Eb as [E|E]; [left; breflect; lia|right].
    by apply negb_true_iff, bool_decide_eq_false in E. }
  apply orb_false_elim in Eb as [_ Hids%negb_false_iff%bool_decide_eq_true].
  destruct (final_choice_spec pressure records Hall Hids) as (sel & Hrun & Hok & Hcalm & Hev & Hlim).
  rewrite Forall_forall in Hall.
  destruct (actions_ok (action_of sel) (λ r x, action_for r x ∧ target_bytes x = after sel r ∧
    (action x = "evict" ↔ sel !! state_id r = Some evict_choice) ∧ (action x = "retain" ↔ sel !! state_id r = None))
    records []) as (xs & Hxs & Hfor).
  { intros r Hr. by eapply action_of_ok; [| |apply Hall]. }
  unfold final_choice in Hrun. destruct (narrow _ _ _ _) as [t1 s1].
  assert (Hcrit : bool_decide (match pressure with MP_UNKNOWN => MP_NORMAL | p => p end = MP_CRITICAL) =
    bool_decide (pressure = MP_CRITICAL)) by by destruct pressure.
  rewrite Hcrit, Hrun, Hxs. cbn [app actions plan_source plan_target].
  assert (Hafter : target_bytes <$> xs = after sel <$> records).
  { apply list_eq_Forall2, Forall2_fmap, Forall2_flip. eapply Forall2_impl; [exact Hfor|]. by intros r x (_ & ? & _). }
  assert (Hfor' : Forall2 action_for records xs) by (eapply Forall2_impl; [exact Hfor|]; by intros r x [? _]).
  assert (Hbytes : source_bytes <$> xs = resident_bytes <$> records).
  { apply list_eq_Forall2, Forall2_fmap, Forall2_flip. eapply Forall2_impl; [exact Hfor'|]. by intros r x []. }
  assert (Hle : ∀ r, r ∈ records → 0 <= after sel r <= resident_bytes r).
  { intros r Hr. apply list_elem_of_lookup in Hr as [i Hi].
    destruct (Forall2_lookup_l _ _ _ _ _ Hfor Hi) as (x & Hx & Hax & <- & _).
    pose proof (checked_fields r (Hall r ltac:(by eapply list_elem_of_lookup_2))). inversion Hax; cbn; lia. }
  split_and!; [done|by rewrite Hbytes|by rewrite Hafter| | | | |].
  - apply Zsum_fmap_nonneg. intros r Hr. by apply Hle.
  - apply Zsum_map_le. intros r Hr. by apply Hle.
  - intros Hp. rewrite (Hcalm Hp). reflexivity.
  - intros i r x Hr Hx Hact. destruct (Forall2_lookup_lr _ _ _ _ _ _ Hfor Hr Hx) as (_ & _ & He & _).
    destruct (Hev r ltac:(by eapply list_elem_of_lookup_2) (proj1 He Hact)) as [-> Hold]. split; [done|].
    intros j r' x' Hr' Hx' Hpin Hof. destruct (Forall2_lookup_lr _ _ _ _ _ _ Hfor Hr' Hx') as (_ & _ & He' & _).
    apply He', Hold; [by eapply list_elem_of_lookup_2|done..].
  - destruct Hlim as [?|Hlim]; [by left|right]. intros i r x Hr Hx Hpin.
    specialize (Hlim r ltac:(by eapply list_elem_of_lookup_2) Hpin).
    destruct (Forall2_lookup_lr _ _ _ _ _ _ Hfor Hr Hx) as (Hax & _ & He & Hret).
    destruct (decide (pressure = MP_CRITICAL)); [by apply He|]. intros Hn. specialize (Hlim Hn).
    assert (Hx1 : action x ≠ "evict") by (intros Hc%He; rewrite Hc in Hlim; discriminate).
    assert (Hx2 : action x ≠ "retain") by (intros Hc%Hret; rewrite Hc in Hlim; discriminate).
    by destruct Hax.
Qed.

(** *** A plan *)

Definition demo_record (i : string) (n : Z) (age : Z) (pin : bool) : AdaptiveStateRecord :=
  mkRecord i KV n (of_Z age) "fp16" ["fp16"; "int8"] pin.
Definition demo_records : list AdaptiveStateRecord :=
  [demo_record "a" 100 10 false; demo_record "b" 100 30 false; demo_record "c" 100 20 true].

Lemma adaptive_plan_correct_witness :
  ∃ p, plan demo_records MP_CRITICAL = Ok p ∧ Forall2 action_for demo_records (actions p) ∧
    (action <$> actions p, plan_target p) = (["reprecision"; "evict"; "retain"], 150).
Proof.
  pose proof (adaptive_plan_correct demo_records MP_CRITICAL ltac:(repeat constructor)) as H.
  destruct (plan demo_records MP_CRITICAL) as [p|e] eqn:E; [|vm_compute in E; discriminate].
  exists p. split; [done|]. split; [exact (proj1 H)|]. clear H. revert E. vm_compute. by intros [= <-].
Defined.

(** ** The coordinator *)

Record AdaptiveStateDecision := mkDecision {
  decision_pressure : MemoryPressure;
  status : string;
  decision_source : Z;
  decision_target : Z;
  reprecisioned : Z;
  evicted : Z;
}.
(** [AdaptiveStateDecision.__post_init__] *)
Definition decision_check (d : AdaptiveStateDecision) : res exn AdaptiveStateDecision :=
  check (bool_decide (status d ∈ ["applied"; "deferred"; "ignored"])
         && negb (Z.min (Z.min (decision_source d) (decision_target d)) (Z.min (reprecisioned d) (evicted d)) <? 0))
    (ValueError "invalid adaptive state decision") d.

Definition count_actions (name : string) (p : AdaptiveStatePlan) : Z :=
  Zlen (filter (λ x, action x = name) (actions p)).
(** [_decision] *)
Definition decision (p : AdaptiveStatePlan) (s : string) : res exn AdaptiveStateDecision :=
  decision_check (mkDecision (plan_pressure p) s (plan_source p) (plan_target p)
    (count_actions "reprecision" p) (count_actions "evict" p)).

Record AdaptiveStateCoordinator (W : Type) := mkCoordinator {
  pending : option MemoryPressure;
  applied : Z;
  rollbacks : Z;
  last_released : Z;
  world : W;
}.
Arguments mkCoordinator {W}. Arguments pending {W}. Arguments applied {W}. Arguments rollbacks {W}.
Arguments last_released {W}. Arguments world {W}.

(** [AdaptiveStateBackend], with transactions of type [T]. *)
Record AdaptiveStateBackend (W T : Type) := mkBackend {
  adaptive_state_records : Py W (list AdaptiveStateRecord);
  begin_adaptive_state : AdaptiveStatePlan → Py W T;
  commit : T → Py W ();
  rollback : T → Py W ();
}.
Arguments mkBackend {W T}. Arguments adaptive_state_records {W T}. Arguments begin_adaptive_state {W T}.
Arguments commit {W T}. Arguments rollback {W T}.

(** [AdaptiveStateCoordinator.__init__] *)
Definition new_coordinator {W} (w : W) : AdaptiveStateCoordinator W := mkCoordinator None 0 0 0 w.

Section coordinator.
Context {W T : Type} (backend : AdaptiveStateBackend W T).
Abbreviation State := (AdaptiveStateCoordinator W).

Definition on_world {A} (m : Py W A) : Py State A :=
  zoom world (λ w s, mkCoordinator (pending s) (applied s) (rollbacks s) (last_released s) w) m.
Definition set_pending (p : option MemoryPressure) : Py State () :=
  modify (λ s, mkCoordinator p (applied s) (rollbacks s) (last_released s) (world s)).

(** [AdaptiveStateCoordinator.request] *)
Definition request (pressure : MemoryPressure) (safe_to_apply : bool) : Py State AdaptiveStateDecision :=
  let! records := on_world (adaptive_state_records backend) in
  let! p := lift (plan records pressure) in
  if negb safe_to_apply then set_pending (Some pressure) ;;; lift (decision p "deferred")
  else if bool_decide (filter (λ x, action x ≠ "retain") (actions p) = [])
  then set_pending None ;;; lift (decision p "ignored")
  else
    let! t := on_world (begin_adaptive_state backend p) in
    catch (on_world (commit backend t))
      (λ e, finally (on_world (rollback backend t))
              (modify (λ s, mkCoordinator (pending s) (applied s) (rollbacks s + 1) (last_released s) (world s))) ;;;
            raise e) ;;;
    modify (λ s, mkCoordinator None (applied s + 1) (rollbacks s) (bytes_released p) (world s)) ;;;
    lift (decision p "applied").

(** [AdaptiveStateCoordinator.apply_pending] *)
Definition apply_pending (safe_to_apply : bool) : Py State (option AdaptiveStateDecision) :=
  let! s := get in
  match pending s with
  | None => ret None
  | Some p => let! d := request p safe_to_apply in ret (Some d)
  end.
End coordinator.

(** What a backend promises about the part of its state that plans change: reading
    the records and opening a transaction leave it alone, and rolling back a failed
    commit restores it. *)
Class TransactionalBackend {W T V} (backend : AdaptiveStateBackend W T) (view : W → V) : Prop := {
  records_quiet w : view (adaptive_state_records backend w).2 = view w;
  begin_quiet p w : view (begin_adaptive_state backend p w).2 = view w;
  rollback_restores t e w w1 w2 :
    commit backend t w = (Raise e, w1) → rollback backend t w1 = (Ok (), w2) → view w2 = view w;
}.

Section atomic.
Context {W T V : Type} (backend : AdaptiveStateBackend W T) (view : W → V).
Context `{!TransactionalBackend backend view}.
Hypothesis rollback_succeeds : ∀ t w, is_ok (rollback backend t w).1 = true.

(** A request that does not report [applied] leaves the backend's states as they
    were, whatever fails, and counts a rollback exactly when a commit failed; the
    pressure stays pending when the request is deferred or fails. *)
Theorem adaptive_request_atomic pressure safe (s : AdaptiveStateCoordinator W) :
  match request backend pressure safe s with
  | (Ok d, s') => rollbacks s' = rollbacks s ∧
      (status d = "applied" ∧ safe = true ∧ pending s' = None ∧ applied s' = applied s + 1 ∨
       status d = "ignored" ∧ safe = true ∧ pending s' = None ∧ applied s' = applied s ∧ view (world s') = view (world s) ∨
       status d = "deferred" ∧ safe = false ∧ pending s' = Some pressure ∧ applied s' = applied s ∧
       view (world s') = view (world s))
  | (Raise _, s') => rollbacks s <= rollbacks s' <= rollbacks s + 1 ∧
      (view (world s') = view (world s) ∨ applied s' = applied s + 1)
  end.
Proof.
  assert (Hdec : ∀ p st, match decision p st with Ok d => status d = st | Raise _ => True end).
  { intros p st. unfold decision, decision_check, check. by case_match; [case_match; simplify_eq|]. }
  unfold request, bind at 1, on_world at 1, zoom. pose proof (records_quiet (world s)) as H1.
  destruct (adaptive_state_records backend (world s)) as [[rs|e] w1]; cbv beta iota; cbn in H1;
    [|split; [cbn; lia|by left]].
  unfold bind at 1, lift at 1. destruct (plan rs pressure) as [p|e]; [|split; [cbn; lia|by left]].
  destruct safe; cbn [negb].
  2: { unfold bind, set_pending, modify, lift. specialize (Hdec p "deferred").
       destruct (decision p "deferred") as [d|e]; [split; [done|by right; right]|split; [cbn; lia|by left]]. }
  destruct (bool_decide _).
  { unfold bind, set_pending, modify, lift. specialize (Hdec p "ignored").
    destruct (decision p "ignored") as [d|e]; [split; [done|by right; left]|split; [cbn; lia|by left]]. }
  unfold bind at 1, on_world at 1, zoom. cbn [world pending applied rollbacks last_released].
  pose proof (begin_quiet p w1) as H2.
  destruct (begin_adaptive_state backend p w1) as [[t|e] w2]; cbv beta iota; cbn in H2;
    [|split; [cbn; lia|left; cbn; congruence]].
  unfold bind at 1, catch, on_world at 1, zoom. cbn [world pending applied rollbacks last_released].
  destruct (commit backend t w2) as [[[]|e] w3] eqn:Ec; cbv beta iota.
  - unfold bind, modify, lift. cbn [rollbacks applied]. specialize (Hdec p "applied").
    destruct (decision p "applied") as [d|e]; [split; [done|by left]|split; [cbn; lia|by right]].
  - unfold bind, finally, on_world, zoom, modify, raise. cbn [world pending applied rollbacks last_released].
    pose proof (rollback_succeeds t w3) as Hrb. pose proof (rollback_restores t e w2 w3) as Hrr.
    destruct (rollback backend t w3) as [[[]|e'] w4]; [|done]. cbn.
    split; [lia|]. left. rewrite (Hrr w4) by done. congruence.
Qed.
End atomic.

End AdaptiveState.
