(* ===== verification/AudioRing.v ===== *)
(** * The audio ring buffer (audio_ring_buffer.py)

    A preallocated array of interleaved 32-bit samples between a producer, whose
    frames beyond the free space are refused, and a consumer, which is handed the
    frames there are.  The specification is a bounded queue of samples. *)

From Stdlib Require Import SpecFloat.
From S2P Require Import Prelude Types PyFloat.

Module AudioRing.
Import PyFloat.

Record AudioRingBuffer := mkRing {
  capacity_frames : Z;
  channels : Z;
  samples : list float;
  read_position : Z;
  write_position : Z;
  available_frames : Z;
  written_frames : Z;
  read_frames : Z;
  overflow_frames : Z;
  underrun_frames : Z;
}.

(** [AudioRingBuffer.__init__] *)
Definition new_ring (capacity channels : Z) : res exn AudioRingBuffer :=
  check ((2 <=? capacity) && (capacity <=? 10000000) && (1 <=? channels) && (channels <=? 32))
    (ValueError "invalid audio ring buffer shape")
    (mkRing capacity channels (replicate (Z.to_nat (capacity * channels)) zero) 0 0 0 0 0 0 0).

(** [l[i]] and [l[i] = v] at the indices of the loops. *)
Definition index {A} (l : list A) (i : Z) : res exn A :=
  match l !! Z.to_nat i with Some v => Ok v | None => Raise (IndexError "index out of range") end.
Definition store {A} (i : Z) (v : A) : Py (list A) () := λ l,
  if i <? Zlen l then (Ok (), <[Z.to_nat i := v]> l)
  else (Raise (IndexError "assignment index out of range"), l).

(** [for i in range(n): body(i)] *)
Fixpoint for_range {S} (n : nat) (body : Z → Py S ()) : Py S () :=
  match n with
  | O => ret ()
  | S k => for_range k body ;;; body (Z.of_nat k)
  end.

(** The body of the loops of [write_from], on the buffer's samples. *)
Definition write_sample (b : AudioRingBuffer) (input : list float) (frame channel : Z) : Py (list float) () :=
  let target_frame := (write_position b + frame) mod capacity_frames b in
  let! value := lift (index input (frame * channels b + channel)) in
  if is_finite value then store (target_frame * channels b + channel) (float32 value)
  else raise (ValueError "audio samples must be finite").

(** [AudioRingBuffer.write_from] *)
Definition write_from (input : list float) (frame_count : Z) : Py AudioRingBuffer Z := λ b,
  if (frame_count <? 0) || (Zlen input <? frame_count * channels b)
  then (Raise (ValueError "invalid audio producer input"), b)
  else
    let accepted := Z.min frame_count (capacity_frames b - available_frames b) in
    match for_range (Z.to_nat accepted) (λ frame, for_range (Z.to_nat (channels b)) (write_sample b input frame))
            (samples b) with
    | (Raise e, l) =>
        (Raise e, mkRing (capacity_frames b) (channels b) l (read_position b) (write_position b)
                    (available_frames b) (written_frames b) (read_frames b) (overflow_frames b) (underrun_frames b))
    | (Ok _, l) =>
        (Ok accepted,
         mkRing (capacity_frames b) (channels b) l (read_position b)
           ((write_position b + accepted) mod capacity_frames b) (available_frames b + accepted)
           (written_frames b + accepted) (read_frames b) (overflow_frames b + (frame_count - accepted))
           (underrun_frames b))
    end.

(** The body of the loops of [read_into], on the caller's output. *)
Definition read_sample (b : AudioRingBuffer) (frame channel : Z) : Py (list float) () :=
  let source_frame := (read_position b + frame) mod capacity_frames b in
  let! value := lift (index (samples b) (source_frame * channels b + channel)) in
  store (frame * channels b + channel) value.

(** [AudioRingBuffer.read_into]; the caller's output is part of the state. *)
Definition read_into (frame_count : Z) : Py (AudioRingBuffer * list float) Z := λ '(b, output),
  if (frame_count <? 0) || (Zlen output <? frame_count * channels b)
  then (Raise (ValueError "invalid audio consumer output"), (b, output))
  else
    let consumed := Z.min frame_count (available_frames b) in
    match for_range (Z.to_nat consumed) (λ frame, for_range (Z.to_nat (channels b)) (read_sample b frame)) output with
    | (Raise e, output) => (Raise e, (b, output))
    | (Ok _, output) =>
        (Ok consumed,
         (mkRing (capacity_frames b) (channels b) (samples b)
            ((read_position b + consumed) mod capacity_frames b) (write_position b) (available_frames b - consumed)
            (written_frames b) (read_frames b + consumed) (overflow_frames b)
            (underrun_frames b + (frame_count - consumed)), output))
    end.

(** [AudioRingBuffer.clear] *)
Definition clear (b : AudioRingBuffer) : AudioRingBuffer :=
  mkRing (capacity_frames b) (channels b) (samples b) 0 0 0 (written_frames b) (read_frames b)
    (overflow_frames b) (underrun_frames b).

(** [AudioRingBuffer.snapshot] *)
Record AudioRingBufferSnapshot := mkSnapshot {
  snap_capacity : Z; snap_channels : Z; snap_available : Z; snap_free : Z;
  snap_written : Z; snap_read : Z; snap_overflow : Z; snap_underrun : Z;
}.
Definition ring_snapshot (b : AudioRingBuffer) : AudioRingBufferSnapshot :=
  mkSnapshot (capacity_frames b) (channels b) (available_frames b) (capacity_frames b - available_frames b)
    (written_frames b) (read_frames b) (overflow_frames b) (underrun_frames b).

(** ** The specification: a bounded queue of samples *)

Record Queue := mkQueue {
  q_samples : list float;
  q_written : Z; q_read : Z; q_overflow : Z; q_underrun : Z;
}.

Section queue.
Context (capacity ch : Z).

Definition q_frames (q : Queue) : Z := Zlen (q_samples q) / ch.

Definition q_write (input : list float) (n : Z) (q : Queue) : res exn Z * Queue :=
  if (n <? 0) || (Zlen input <? n * ch) then (Raise (ValueError "invalid audio producer input"), q)
  else
    let accepted := Z.min n (capacity - q_frames q) in
    let fresh := take (Z.to_nat (accepted * ch)) input in
    if forallb is_finite fresh
    then (Ok accepted, mkQueue (q_samples q ++ (float32 <$> fresh)) (q_written q + accepted) (q_read q)
                         (q_overflow q + (n - accepted)) (q_underrun q))
    else (Raise (ValueError "audio samples must be finite"), q).

Definition q_read_into (output : list float) (n : Z) (q : Queue) : res exn Z * list float * Queue :=
  if (n <? 0) || (Zlen output <? n * ch) then (Raise (ValueError "invalid audio consumer output"), output, q)
  else
    let consumed := Z.min n (q_frames q) in
    let k := Z.to_nat (consumed * ch) in
    (Ok consumed, take k (q_samples q) ++ drop k output,
     mkQueue (drop k (q_samples q)) (q_written q) (q_read q + consumed) (q_overflow q)
       (q_underrun q + (n - consumed))).
End queue.

(** The calls of the two threads, one after another. *)
Inductive call := Write (input : list float) (n : Z) | Read (output : list float) (n : Z) | Clear.
(** What a call returns, and the output of a read. *)
Abbreviation outcome := (res exn Z * list float)%type.

Definition ring_call (c : call) (b : AudioRingBuffer) : outcome * AudioRingBuffer :=
  match c with
  | Write input n => let '(r, b') := write_from input n b in (r, [], b')
  | Read output n => let '(r, (b', output')) := read_into n (b, output) in (r, output', b')
  | Clear => (Ok 0, [], clear b)
  end.
Definition queue_call (capacity ch : Z) (c : call) (q : Queue) : outcome * Queue :=
  match c with
  | Write input n => let '(r, q') := q_write capacity ch input n q in (r, [], q')
  | Read output n => q_read_into ch output n q
  | Clear => (Ok 0, [], mkQueue [] (q_written q) (q_read q) (q_overflow q) (q_underrun q))
  end.
Fixpoint ring_run (cs : list call) (b : AudioRingBuffer) : list outcome * AudioRingBuffer :=
  match cs with
  | [] => ([], b)
  | c :: cs' => let '(o, b') := ring_call c b in let '(os, b'') := ring_run cs' b' in (o :: os, b'')
  end.
Fixpoint queue_run (capacity ch : Z) (cs : list call) (q : Queue) : list outcome * Queue :=
  match cs with
  | [] => ([], q)
  | c :: cs' => let '(o, q') := queue_call capacity ch c q in
      let '(os, q'') := queue_run capacity ch cs' q' in (o :: os, q'')
  end.

(** ** Lemmas *)

Lemma for_range_S {S} n (body : Z → Py S ()) s :
  for_range (Datatypes.S n) body s = bind (for_range n body) (λ _, body (Z.of_nat n)) s.
Proof. done. Qed.

(** Two nested loops are one loop over the samples. *)
Lemma for_range_app {S} n m (body : Z → Py S ()) s :
  for_range (n + m) body s = bind (for_range n body) (λ _, for_range m (λ i, body (Z.of_nat n + i))) s.
Proof.
  induction m as [|m IH] in s |- *.
  - rewrite Nat.add_0_r. unfold bind. cbn. unfold ret. by destruct (for_range n body s) as [[[]|] ?].
  - rewrite Nat.add_succ_r, for_range_S. unfold bind at 1. rewrite IH. unfold bind.
    destruct (for_range n body s) as [[[]|] s']; [|done]. rewrite for_range_S. unfold bind.
    destruct (for_range m _ s') as [[[]|] s'']; [|done]. by rewrite Nat2Z.inj_add.
Qed.

Lemma for_range_ext {S} n (f g : Z → Py S ()) s :
  (∀ i s, 0 <= i < Z.of_nat n → f i s = g i s) → for_range n f s = for_range n g s.
Proof.
  induction n as [|n IH] in s |- *; intros H; [done|]. rewrite !for_range_S. unfold bind.
  rewrite IH by (intros; apply H; lia). destruct (for_range n g s) as [[[]|] s']; [|done]. apply H. lia.
Qed.

Lemma for_range_flat {S} n ch (body : Z → Z → Py S ()) s :
  (0 < ch)%nat →
  for_range n (λ i, for_range ch (body i)) s =
  for_range (n * ch) (λ k, body (k / Z.of_nat ch) (k mod Z.of_nat ch)) s.
Proof.
  intros Hch. induction n as [|n IH] in s |- *; [done|]. rewrite for_range_S, Nat.mul_succ_l, for_range_app.
  unfold bind. rewrite IH. destruct (for_range (n * ch) _ s) as [[[]|] s']; [|done].
  apply for_range_ext. intros i s'' Hi. rewrite Nat2Z.inj_mul.
  rewrite Z.div_add_l, Z.div_small, Z.add_0_r by lia.
  rewrite (Z.add_comm (_ * _)), Z.mod_add, Z.mod_small by lia. done.
Qed.

(** A loop that stores the values of [v], stopping at the first error. *)
Lemma stores_spec {A} (pos : Z → Z) (v : Z → res exn A) n (l : list A) :
  (∀ i, 0 <= i < Z.of_nat n → 0 <= pos i < Zlen l) →
  (∀ i j, 0 <= i < Z.of_nat n → 0 <= j < Z.of_nat n → pos i = pos j → i = j) →
  let '(r, l') := for_range n (λ i, let! x := lift (v i) in store (pos i) x) l in
  length l' = length l ∧
  (∀ p, (∀ i, 0 <= i < Z.of_nat n → Z.to_nat (pos i) ≠ p) → l' !! p = l !! p) ∧
  match r with
  | Ok _ => ∀ i, 0 <= i < Z.of_nat n → ∃ x, v i = Ok x ∧ l' !! Z.to_nat (pos i) = Some x
  | Raise e => ∃ i, 0 <= i < Z.of_nat n ∧ v i = Raise e ∧ ∀ j, 0 <= j < i → is_ok (v j) = true
  end.
Proof.
  intros Hpos Hinj. induction n as [|n IH]; [cbn; split_and!; [done|done|lia]|].
  rewrite for_range_S. unfold bind at 1.
  specialize (IH ltac:(intros; apply Hpos; lia) ltac:(intros; apply Hinj; lia || done)).
  destruct (for_range n _ l) as [[[]|e] l'].
  - destruct IH as (Hlen & Hoth & Hall). unfold bind, lift. destruct (v (Z.of_nat n)) as [x|e] eqn:Ev.
    + unfold store. pose proof (Hpos (Z.of_nat n) ltac:(lia)) as Hp.
      rewrite (proj2 (Z.ltb_lt _ _)) by (unfold Zlen in *; lia).
      split_and!; [by rewrite length_insert| |].
      * intros p Hne. rewrite list_lookup_insert_ne by (apply Hne; lia). apply Hoth. intros i Hi. apply Hne. lia.
      * intros i Hi. destruct (decide (i = Z.of_nat n)) as [->|Hn].
        { exists x. split; [done|]. apply list_lookup_insert_eq. unfold Zlen in *. lia. }
        destruct (Hall i ltac:(lia)) as (y & Hy & Hl). exists y. split; [done|].
        rewrite list_lookup_insert_ne; [done|]. intros Heq. apply Hn, Hinj; [lia..|].
        pose proof (Hpos i ltac:(lia)). lia.
    + split_and!; [done| |].
      * intros p Hne. apply Hoth. intros i Hi. apply Hne. lia.
      * exists (Z.of_nat n). split_and!; [lia..|done|]. intros j Hj. by destruct (Hall j ltac:(lia)) as (x & -> & _).
  - destruct IH as (Hlen & Hoth & i & Hi & He). split_and!; [done| |].
    + intros p Hne. apply Hoth. intros j Hj. apply Hne. lia.
    + exists i. split; [lia|done].
Qed.

(** ** The positions of the queue's samples in the array *)

Section positions.
Context (cap ch : Z).
Hypothesis cap_pos : 0 < cap.
Hypothesis ch_pos : 0 < ch.

Definition pos (rp i : Z) : Z := ((rp + i / ch) mod cap) * ch + i mod ch.

Lemma pos_range rp i : 0 <= pos rp i < cap * ch.
Proof.
  unfold pos. pose proof (Z.mod_pos_bound (rp + i / ch) cap cap_pos). pose proof (Z.mod_pos_bound i ch ch_pos). nia.
Qed.

Lemma pos_shift rp n k : pos rp (n * ch + k) = pos ((rp + n) mod cap) k.
Proof.
  unfold pos. rewrite Z.div_add_l, Z.add_assoc, Zplus_mod_idemp_l by lia.
  by rewrite (Z.add_comm (n * ch)), Z.mod_add by lia.
Qed.

Lemma pos_inj rp i j : 0 <= i < cap * ch → 0 <= j < cap * ch → pos rp i = pos rp j → i = j.
Proof.
  intros Hi Hj. unfold pos. intros Heq.
  pose proof (Z.mod_pos_bound i ch ch_pos). pose proof (Z.mod_pos_bound j ch ch_pos).
  assert (Hm : (rp + i / ch) mod cap = (rp + j / ch) mod cap ∧ i mod ch = j mod ch).
  { apply (Z.div_mod_unique ch); [by left|by left|]. lia. }
  destruct Hm as [Hm Hr]. assert (Hdi : 0 <= i / ch < cap) by (split; [apply Z.div_pos|apply Z.div_lt_upper_bound]; lia).
  assert (Hdj : 0 <= j / ch < cap) by (split; [apply Z.div_pos|apply Z.div_lt_upper_bound]; lia).
  assert (Hd : i / ch = j / ch).
  { apply (f_equal (λ x, (x - rp) mod cap)) in Hm. rewrite !Zminus_mod_idemp_l in Hm.
    rewrite !Z.add_simpl_l in Hm. by rewrite !Z.mod_small in Hm by lia. }
  rewrite (Z.div_mod i ch), (Z.div_mod j ch) by lia. by rewrite Hd, Hr.
Qed.
End positions.

(** ** The ring implements the queue *)

Record represents (b : AudioRingBuffer) (q : Queue) : Prop := {
  rep_capacity : 0 < capacity_frames b;
  rep_channels : 0 < channels b;
  rep_length : Zlen (samples b) = capacity_frames b * channels b;
  rep_write : write_position b = (read_position b + available_frames b) mod capacity_frames b;
  rep_available : 0 <= available_frames b <= capacity_frames b;
  rep_size : Zlen (q_samples q) = available_frames b * channels b;
  rep_samples i : 0 <= i < available_frames b * channels b →
    samples b !! Z.to_nat (pos (capacity_frames b) (channels b) (read_position b) i) = q_samples q !! Z.to_nat i;
  rep_counters : (written_frames b, read_frames b, overflow_frames b, underrun_frames b) =
    (q_written q, q_read q, q_overflow q, q_underrun q);
}.

Lemma rep_frames b q : represents b q → q_frames (channels b) q = available_frames b.
Proof. intros []. unfold q_frames. rewrite rep_size0. apply Z.div_mul. lia. Qed.

(** What a write stores for the [k]th sample of its input. *)
Definition written (input : list float) (k : Z) : res exn float :=
  match index input k with
  | Ok f => if is_finite f then Ok (float32 f) else Raise (ValueError "audio samples must be finite")
  | Raise e => Raise e
  end.

Lemma write_loop b input k s :
  0 < channels b →
  write_sample b input (k / channels b) (k mod channels b) s =
  (let! x := lift (written input k) in
   store (pos (capacity_frames b) (channels b) (write_position b) k) x) s.
Proof.
  intros Hch. unfold write_sample, written, pos. replace (k / channels b * channels b + k mod channels b) with k
    by (rewrite (Z.div_mod k (channels b)) at 1 by lia; lia).
  unfold bind, lift. destruct (index input k) as [f|e]; [|done]. by destruct (is_finite f).
Qed.

(** The two loops of [write_from] and [read_into], as stores at the queue's places. *)
Lemma store_loops (ch n : Z) (body : Z → Z → Py (list float) ()) v (place : Z → Z) l :
  0 < ch → 0 <= n →
  (∀ k s, body (k / ch) (k mod ch) s = (let! x := lift (v k) in store (place k) x) s) →
  (∀ i, 0 <= i < n * ch → 0 <= place i < Zlen l) →
  (∀ i j, 0 <= i < n * ch → 0 <= j < n * ch → place i = place j → i = j) →
  let '(r, l') := for_range (Z.to_nat n) (λ f, for_range (Z.to_nat ch) (body f)) l in
  length l' = length l ∧
  (∀ p, (∀ i, 0 <= i < n * ch → Z.to_nat (place i) ≠ p) → l' !! p = l !! p) ∧
  match r with
  | Ok _ => ∀ i, 0 <= i < n * ch → ∃ x, v i = Ok x ∧ l' !! Z.to_nat (place i) = Some x
  | Raise e => ∃ i, 0 <= i < n * ch ∧ v i = Raise e ∧ ∀ j, 0 <= j < i → is_ok (v j) = true
  end.
Proof.
  intros Hch Hn Hbody Hplace Hinj. rewrite for_range_flat by lia.
  rewrite (for_range_ext _ _ (λ k, let! x := lift (v k) in store (place k) x)).
  2: { intros k s _. rewrite Z2Nat.id by lia. apply Hbody. }
  assert (Hcount : Z.of_nat (Z.to_nat n * Z.to_nat ch) = n * ch) by lia.
  pose proof (stores_spec place v (Z.to_nat n * Z.to_nat ch) l) as Hst. rewrite Hcount in Hst. by apply Hst.
Qed.

Lemma written_ok input k :
  0 <= k < Zlen input → ∃ f, input !! Z.to_nat k = Some f ∧
    written input k = if is_finite f then Ok (float32 f) else Raise (ValueError "audio samples must be finite").
Proof.
  intros Hk. destruct (lookup_lt_is_Some_2 input (Z.to_nat k)) as [f Hf]; [unfold Zlen in *; lia|].
  exists f. split; [done|]. unfold written, index. by rewrite Hf.
Qed.

Lemma forallb_false {A} (f : A → bool) l : forallb f l = false → ∃ x, x ∈ l ∧ f x = false.
Proof.
  induction l as [|x l IH]; cbn; [done|]. destruct (f x) eqn:E; [|by exists x; split; [left|]].
  intros (y & Hy & Hf)%IH. exists y. split; [by right|done].
Qed.

(** The samples accepted are finite exactly when no store fails. *)
Lemma written_finite input m :
  0 <= m <= Zlen input →
  if forallb is_finite (take (Z.to_nat m) input)
  then ∀ k, 0 <= k < m → written input k = Ok (float32 (default zero (input !! Z.to_nat k)))
  else ∃ k, 0 <= k < m ∧ is_ok (written input k) = false.
Proof.
  intros Hm. destruct (forallb _ _) eqn:E.
  - intros k Hk. destruct (written_ok input k) as (f & Hf & ->); [lia|]. rewrite Hf. cbn.
    rewrite forallb_forall in E. rewrite E; [done|]. apply list_elem_of_In, list_elem_of_lookup.
    exists (Z.to_nat k). by rewrite lookup_take_lt by lia.
  - destruct (forallb_false _ _ E) as (f & Hf & Hn). apply list_elem_of_lookup in Hf as [i Hi].
    pose proof (lookup_lt_Some _ _ _ Hi) as Hil. rewrite length_take in Hil.
    rewrite lookup_take_lt in Hi by lia. exists (Z.of_nat i). split; [lia|].
    destruct (written_ok input (Z.of_nat i)) as (g & Hg & ->); [unfold Zlen; lia|].
    rewrite Nat2Z.id in Hg. assert (f = g) as -> by congruence. by rewrite Hn.
Qed.

Lemma write_refines b q input n :
  represents b q →
  let '(r, b') := write_from input n b in
  let '(r', q') := q_write (capacity_frames b) (channels b) input n q in
  r = r' ∧ represents b' q'.
Proof.
  intros Hr. pose proof Hr as [Hcap Hch Hlen Hwp Hav Hsz Hs Hcnt]. unfold write_from, q_write.
  destruct (_ || _) eqn:Eb; [done|]. apply orb_false_elim in Eb as [E1 E2]. breflect.
  rewrite (rep_frames b q Hr). set (cap := capacity_frames b) in *. set (ch := channels b) in *.
  set (acc := Z.min n (cap - available_frames b)). assert (Hacc : 0 <= acc <= cap - available_frames b) by lia.
  assert (Hin : 0 <= acc * ch <= Zlen input) by nia.
  assert (Htot : 0 <= available_frames b * ch ∧ available_frames b * ch + acc * ch <= cap * ch) by nia.
  pose proof (store_loops ch acc (write_sample b input) (written input)
    (pos cap ch (write_position b)) (samples b) Hch ltac:(lia) ltac:(intros; by apply write_loop)) as Hst.
  specialize (Hst ltac:(intros; rewrite Hlen; by apply pos_range)
                  ltac:(intros i j ? ?; apply (pos_inj cap ch); [done..|nia|nia])).
  pose proof (written_finite input (acc * ch) Hin) as Hfin.
  assert (Hplace : ∀ k, pos cap ch (write_position b) k = pos cap ch (read_position b) (available_frames b * ch + k))
    by (intros k; rewrite Hwp; symmetry; by apply pos_shift).
  assert (Hold : ∀ (l' : list float), (∀ p, (∀ i, 0 <= i < acc * ch → Z.to_nat (pos cap ch (write_position b) i) ≠ p) →
      l' !! p = samples b !! p) → ∀ i, 0 <= i < available_frames b * ch →
      l' !! Z.to_nat (pos cap ch (read_position b) i) = q_samples q !! Z.to_nat i).
  { intros l' Hoth i Hi. rewrite <-Hs by done. apply Hoth. intros k Hk. rewrite Hplace. intros Heq.
    assert (pos cap ch (read_position b) (available_frames b * ch + k) = pos cap ch (read_position b) i) as Hp.
    { pose proof (pos_range cap ch Hcap Hch (read_position b) i).
      pose proof (pos_range cap ch Hcap Hch (read_position b) (available_frames b * ch + k)). lia. }
    apply (pos_inj cap ch) in Hp; lia. }
  destruct (for_range _ _ _) as [[[]|e] l'] eqn:El, (forallb _ _); destruct Hst as (Hlen' & Hoth & Hres).
  - split; [done|]. split; cbn; fold cap ch; unfold Zlen in *; try done; try lia.
    + rewrite Hwp, Zplus_mod_idemp_l. f_equal. lia.
    + rewrite length_app, length_fmap, length_take. lia.
    + intros i Hi. destruct (decide (i < available_frames b * ch)) as [Hlt|Hge].
      { rewrite lookup_app_l by lia. apply Hold; [done|lia]. }
      destruct (Hres (i - available_frames b * ch) ltac:(lia)) as (x & Hx & Hl').
      rewrite Hplace in Hl'. replace (available_frames b * ch + (i - available_frames b * ch)) with i in Hl' by lia.
      rewrite Hl', lookup_app_r by lia. rewrite list_lookup_fmap, lookup_take_lt by lia.
      rewrite (Hfin (i - available_frames b * ch)) in Hx by lia. injection Hx as <-.
      replace (Z.to_nat i - length (q_samples q))%nat with (Z.to_nat (i - available_frames b * ch)) by lia.
      destruct (lookup_lt_is_Some_2 input (Z.to_nat (i - available_frames b * ch))) as [f Hf]; [lia|]. by rewrite Hf.
    + congruence.
  - destruct Hfin as (k & Hk & Hno). destruct (Hres k Hk) as (x & Hx & _). by rewrite Hx in Hno.
  - destruct Hres as (k & Hk & Hx & _). by rewrite (Hfin k Hk) in Hx.
  - destruct Hres as (k & Hk & Hx & _). destruct (written_ok input k) as (f & _ & Hf); [lia|].
    rewrite Hf in Hx. destruct (is_finite f); [done|]. injection Hx as <-. split; [done|].
    split; cbn; fold cap ch; unfold Zlen in *; try done; [lia|]. by apply Hold.
Qed.

Lemma read_loop b k s :
  0 < channels b →
  read_sample b (k / channels b) (k mod channels b) s =
  (let! x := lift (index (samples b) (pos (capacity_frames b) (channels b) (read_position b) k)) in store k x) s.
Proof.
  intros Hch. unfold read_sample, pos. replace (k / channels b * channels b + k mod channels b) with k
    by (rewrite (Z.div_mod k (channels b)) at 1 by lia; lia). done.
Qed.

Lemma read_refines b q output n :
  represents b q →
  let '(r, (b', out)) := read_into n (b, output) in
  q_read_into (channels b) output n q = (r, out, snd (q_read_into (channels b) output n q)) ∧
  represents b' (snd (q_read_into (channels b) output n q)).
Proof.
  intros Hr. pose proof Hr as [Hcap Hch Hlen Hwp Hav Hsz Hs Hcnt]. unfold read_into, q_read_into.
  destruct (_ || _) eqn:Eb; [done|]. apply orb_false_elim in Eb as [E1 E2]. breflect.
  rewrite (rep_frames b q Hr). set (cap := capacity_frames b) in *. set (ch := channels b) in *.
  set (n' := Z.min n (available_frames b)). assert (Hn' : 0 <= n' <= available_frames b) by lia.
  assert (Hout : 0 <= n' * ch <= Zlen output) by nia.
  pose proof (store_loops ch n' (read_sample b)
    (λ k, index (samples b) (pos cap ch (read_position b) k)) (λ k, k) output Hch ltac:(lia)) as Hst.
  specialize (Hst ltac:(intros; by apply read_loop) ltac:(intros; lia)
    ltac:(intros i j _ _ Heq; exact Heq)).
  assert (Htot : 0 <= n' * ch ∧ n' * ch <= available_frames b * ch ∧ available_frames b * ch <= cap * ch) by nia.
  destruct (for_range _ _ _) as [[[]|e] out]; destruct Hst as (Hlen' & Hoth & Hres).
  - split.
    + cbn. f_equal. f_equal. apply list_eq. intros i. unfold Zlen in *.
      destruct (decide (Z.of_nat i < n' * ch)) as [Hi|Hi].
      * rewrite lookup_app_l by (rewrite length_take; lia). rewrite lookup_take_lt by lia.
        destruct (Hres (Z.of_nat i) ltac:(lia)) as (x & Hx & Ho). unfold index in Hx.
        rewrite (Hs (Z.of_nat i)) in Hx by lia. rewrite Nat2Z.id in *. by destruct (q_samples q !! i); simplify_eq.
      * rewrite lookup_app_r by (rewrite length_take; lia). rewrite lookup_drop, length_take, Nat.min_l by lia.
        replace (Z.to_nat (n' * ch) + (i - Z.to_nat (n' * ch)))%nat with i by lia.
        symmetry. apply Hoth. intros j Hj. lia.
    + cbn [snd]. split; cbn; fold cap ch; unfold Zlen in *; try done; try lia.
      * rewrite Hwp, Zplus_mod_idemp_l. f_equal. lia.
      * rewrite length_drop. lia.
      * intros i Hi. rewrite <-pos_shift by done. rewrite Hs by lia. rewrite lookup_drop. f_equal. lia.
      * congruence.
  - exfalso. destruct Hres as (i & Hi & He & _). unfold index in He. rewrite (Hs i) in He by lia.
    destruct (lookup_lt_is_Some_2 (q_samples q) (Z.to_nat i)) as [x Hx]; [unfold Zlen in *; lia|]. by rewrite Hx in He.
Qed.

Lemma call_refines c b q :
  represents b q →
  let '(o, b') := ring_call c b in
  let '(o', q') := queue_call (capacity_frames b) (channels b) c q in
  o = o' ∧ represents b' q' ∧ capacity_frames b' = capacity_frames b ∧ channels b' = channels b.
Proof.
  intros Hr. assert (Hshape : ∀ c, capacity_frames (ring_call c b).2 = capacity_frames b ∧
    channels (ring_call c b).2 = channels b).
  { intros [i n|o n|]; cbn; [unfold write_from|unfold read_into|done]; by repeat case_match; simplify_eq. }
  specialize (Hshape c). destruct c as [i n|o n|]; unfold ring_call, queue_call in *.
  - pose proof (write_refines b q i n Hr) as H. destruct (write_from i n b) as [r b'].
    destruct (q_write _ _ _ _ _) as [r' q']. destruct H as [-> H]. done.
  - pose proof (read_refines b q o n Hr) as H. destruct (read_into n (b, o)) as [r [b' o']].
    destruct (q_read_into _ _ _ _) as [[r' o''] q']. cbn in H, Hshape.
    destruct H as [H1 H2]. by injection H1 as -> ->.
  - split_and!; try done. destruct Hr. split; cbn; try done; try lia.
Qed.

(** C33: the ring is a bounded queue.  Whatever is written, read and cleared, every
    call returns and hands out what a queue of the ring's capacity would: a write
    appends the frames that fit, rounded to 32 bits, counts the others as overflow
    and appends nothing when one of them has a sample that is not finite; a read
    hands out the oldest frames, in order, leaves the rest of the caller's output
    alone and counts the missing ones as underrun; and the snapshot is the queue's. *)
Theorem ring_refines_queue capacity ch b cs :
  new_ring capacity ch = Ok b →
  let '(os, b') := ring_run cs b in
  let '(os', q') := queue_run capacity ch cs (mkQueue [] 0 0 0 0) in
  os = os' ∧ 0 <= available_frames b' <= capacity ∧
  ring_snapshot b' = mkSnapshot capacity ch (q_frames ch q') (capacity - q_frames ch q') (q_written q') (q_read q')
    (q_overflow q') (q_underrun q').
Proof.
  unfold new_ring, check. destruct (_ && _) eqn:E; [|done]. intros [= <-]. breflect.
  set (b0 := mkRing _ _ _ _ _ _ _ _ _ _). set (q0 := mkQueue _ _ _ _ _).
  assert (Hr : represents b0 q0).
  { split; cbn; try done; try lia. unfold Zlen. rewrite length_replicate. lia. }
  assert (Hshape : capacity_frames b0 = capacity ∧ channels b0 = ch) by done.
  generalize dependent b0. generalize dependent q0. induction cs as [|c cs IH]; intros q b Hr [Hc Hch]; cbn.
  - split_and!; [done|destruct Hr; lia|destruct Hr; lia|]. unfold ring_snapshot. pose proof (rep_frames b q Hr) as Hf.
    rewrite Hch in Hf. injection (rep_counters b q Hr) as -> -> -> ->. by rewrite Hf, Hc, Hch.
  - pose proof (call_refines c b q Hr) as Hstep. rewrite Hc, Hch in Hstep. destruct (ring_call c b) as [o b1].
    destruct (queue_call capacity ch c q) as [o' q1]. destruct Hstep as (-> & Hr1 & Hc1 & Hch1).
    specialize (IH q1 b1 Hr1 (conj Hc1 Hch1)).
    destruct (ring_run cs b1) as [os b2], (queue_run capacity ch cs q1) as [os' q2].
    by destruct IH as (-> & ? & ?).
Qed.

(** ** Samples beyond 32 bits, and interleaved calls *)

(** A sample [1e39] passes the check and is stored as an infinity. *)
Lemma finite_sample_stored_infinite :
  let f := of_Z (10 ^ 39) in is_finite f = true ∧ is_finite (float32 f) = false.
Proof. vm_compute. done. Qed.

(** The producer's and the consumer's update of the shared frame count are each a
    load and a store. *)
Inductive micro := ProducerLoad | ProducerStore (accepted : Z) | ConsumerLoad | ConsumerStore (consumed : Z).
Definition micro_step (m : micro) (s : Z * Z * Z) : Z * Z * Z :=
  let '(available, p, c) := s in
  match m with
  | ProducerLoad => (available, available, c)
  | ProducerStore n => (p + n, p, c)
  | ConsumerLoad => (available, p, available)
  | ConsumerStore n => (c - n, p, c)
  end.
(** A run of both in turn keeps the count, one interleaved run loses a write and
    another a read. *)
Lemma interleaved_count_lost :
  (foldl (λ s m, micro_step m s) (2, 0, 0) [ProducerLoad; ProducerStore 1; ConsumerLoad; ConsumerStore 1]).1.1 = 2 ∧
  (foldl (λ s m, micro_step m s) (2, 0, 0) [ProducerLoad; ConsumerLoad; ProducerStore 1; ConsumerStore 1]).1.1 = 1 ∧
  (foldl (λ s m, micro_step m s) (2, 0, 0) [ProducerLoad; ConsumerLoad; ConsumerStore 1; ProducerStore 1]).1.1 = 3.
Proof. done. Qed.

(** ** A run *)

Definition demo_calls : list call :=
  [Write [of_Z 1; of_Z 2; of_Z 3; of_Z 4; of_Z 5; of_Z 6] 3; Read (replicate 2 zero) 1;
   Write [of_Z 7; of_Z 8] 1; Read (replicate 6 zero) 3; Write [S754_nan; zero] 1].

Lemma ring_refines_queue_witness :
  ∃ b, new_ring 2 2 = Ok b ∧
  (ring_run demo_calls b).1 = (queue_run 2 2 demo_calls (mkQueue [] 0 0 0 0)).1 ∧
  (ring_run demo_calls b).1.*1 = [Ok 2; Ok 1; Ok 1; Ok 2; Raise (ValueError "audio samples must be finite")].
Proof.
  eexists. split; [reflexivity|]. split; [|vm_compute; reflexivity].
  pose proof (ring_refines_queue 2 2 _ demo_calls eq_refl) as H.
  destruct (ring_run _ _) as [os b'], (queue_run _ _ _ _) as [os' q']. exact (proj1 H).
Defined.

End AudioRing.
