(* ===== verification/LayerPrefetch.v ===== *)
(** * Layer prefetch (layer_prefetch.py)

    While a layer is consumed, one worker thread loads the next; a prefetch that
    failed is repeated on demand, and every resource loaded is released whatever
    fails.  The worker may run a load at any point between the calls of the main
    thread: when it is submitted, after the layer before was consumed, after it was
    released, or when its result is waited for; a load not yet started can be
    cancelled.  A schedule chooses, and the theorems hold for every schedule. *)

From S2P Require Import Prelude Types.

Module LayerPrefetch.

Definition MAX_PREFETCH_LAYERS : Z := 4096.

(** [LayerResidencyBackend] *)
Record LayerResidencyBackend (W R : Type) := mkBackend {
  load_layer : Z → Py W R;
  release_layer : Z → R → Py W ();
}.
Arguments mkBackend {W R}. Arguments load_layer {W R}. Arguments release_layer {W R}.

Record LayerPrefetchReport (X : Type) := mkReport {
  results : list X;
  layer_count : Z;
  prefetched_layers : Z;
  prefetch_failures : Z;
  on_demand_fallbacks : Z;
  released_layers : Z;
}.
Arguments mkReport {X}. Arguments results {X}. Arguments layer_count {X}. Arguments prefetched_layers {X}.
Arguments prefetch_failures {X}. Arguments on_demand_fallbacks {X}. Arguments released_layers {X}.

(** The points between the calls of the main thread at which the worker can run. *)
Inductive moment := AtSubmit | AfterConsume | AfterRelease | AtWait.
#[global] Instance moment_eq_dec : EqDecision moment.
Proof. solve_decision. Defined.

(** A future of the executor: what its load returned, once it has run. *)
Record Future (R : Type) := mkFuture { future_layer : Z; outcome : option (res exn R) }.
Arguments mkFuture {R}. Arguments future_layer {R}. Arguments outcome {R}.

(** The process and the local variables of [execute]. *)
Record State (W R X : Type) := mkState {
  world : W;
  future : option (Future R);
  done_results : list X;
  prefetched : Z;
  failures : Z;
  fallbacks : Z;
  released : Z;
}.
Arguments mkState {W R X}. Arguments world {W R X}. Arguments future {W R X}. Arguments done_results {W R X}.
Arguments prefetched {W R X}. Arguments failures {W R X}. Arguments fallbacks {W R X}. Arguments released {W R X}.

Section execute.
Context {W R X : Type} (backend : LayerResidencyBackend W R).
Context (consume : Z → R → Py W X) (cancelled : W → bool).
(** When the worker runs the load of a layer. *)
Context (when : Z → moment).
Abbreviation St := (State W R X).

Definition on_world {A} (m : Py W A) : Py St A :=
  zoom world (λ w s, mkState w (future s) (done_results s) (prefetched s) (failures s) (fallbacks s) (released s)) m.
Definition set_future (f : option (Future R)) : Py St () :=
  modify (λ s, mkState (world s) f (done_results s) (prefetched s) (failures s) (fallbacks s) (released s)).
Definition count (dp df db dr : Z) : Py St () :=
  modify (λ s, mkState (world s) (future s) (done_results s) (prefetched s + dp) (failures s + df)
                 (fallbacks s + db) (released s + dr)).
Definition append_result (x : X) : Py St () :=
  modify (λ s, mkState (world s) (future s) (done_results s ++ [x]) (prefetched s) (failures s) (fallbacks s)
                 (released s)).

(** Run a load and keep what it returned, as a future does. *)
Definition attempt (layer : Z) : Py St (res exn R) := λ s,
  let '(r, w) := load_layer backend layer (world s) in
  (Ok r, mkState w (future s) (done_results s) (prefetched s) (failures s) (fallbacks s) (released s)).

(** The worker's turn between two calls of the main thread. *)
Definition worker_turn (now : moment) : Py St () := λ s,
  match future s with
  | Some (mkFuture layer None) =>
      if decide (when layer = now) then (let! r := attempt layer in set_future (Some (mkFuture layer (Some r)))) s
      else (Ok (), s)
  | _ => (Ok (), s)
  end.

(** [executor.submit(self._backend.load_layer, layer)], assigned to [future]. *)
Definition submit (layer : Z) : Py St () :=
  set_future (Some (mkFuture layer None)) ;;; worker_turn AtSubmit.

(** [future.result()] *)
Definition future_result (f : Future R) : Py St R :=
  match outcome f with
  | Some r => lift r
  | None => let! r := attempt (future_layer f) in
            set_future (Some (mkFuture (future_layer f) (Some r))) ;;; lift r
  end.

Definition check_cancelled : Py St () :=
  let! s := get in if cancelled (world s) then raise (RuntimeError "layer prefetch cancelled") else ret ().

(** The body of the loop of [execute]: [next] is the layer after [layer]. *)
Definition layer_step (layer : Z) (next : option Z) : Py St () :=
  check_cancelled ;;;
  let! s := get in
  match future s with
  | None => raise AssertionError
  | Some f =>
      let! resource :=
        catch (let! r := future_result f in count 1 0 0 0 ;;; ret r)
          (λ _, count 0 1 0 0 ;;; check_cancelled ;;;
                let! r := on_world (load_layer backend layer) in count 0 0 1 0 ;;; ret r) in
      match next with Some l => submit l | None => set_future None end ;;;
      finally
        (finally (finally (let! x := on_world (consume layer resource) in append_result x) (worker_turn AfterConsume))
           (on_world (release_layer backend layer resource) ;;; count 0 0 0 1))
        (worker_turn AfterRelease)
  end.

Fixpoint layer_loop (layers : list Z) : Py St () :=
  match layers with
  | [] => ret ()
  | layer :: layers' => layer_step layer (head layers') ;;; layer_loop layers'
  end.

(** The [finally] of [execute]. *)
Definition settle_future : Py St () :=
  let! s := get in
  match future s with
  | None => ret ()
  | Some f =>
      match outcome f with
      | None => set_future None                             (* future.cancel() *)
      | Some (Raise _) => ret ()
      | Some (Ok orphan) => on_world (release_layer backend (future_layer f) orphan) ;;; count 0 0 0 1
      end
  end.

(** [LayerPrefetchCoordinator.execute] *)
Definition prefetch_execute (layers : list Z) : Py W (LayerPrefetchReport X) := λ w,
  match layers with
  | first :: _ =>
      if (Zlen layers >? MAX_PREFETCH_LAYERS) || negb (bool_decide (NoDup layers)) || existsb (λ l, l <? 0) layers
      then (Raise (ValueError "invalid layer prefetch request"), w)
      else
        let '(r, s) := (submit first ;;; finally (layer_loop layers) settle_future)
                         (mkState w None [] 0 0 0 0) in
        match r with
        | Raise e => (Raise e, world s)
        | Ok _ => (Ok (mkReport (done_results s) (Zlen layers) (prefetched s) (failures s) (fallbacks s) (released s)),
                   world s)
        end
  | [] => (Raise (ValueError "invalid layer prefetch request"), w)
  end.
End execute.

(** ** Every layer loaded is released *)

(** What a backend promises: it holds what it has loaded until it is released, and
    releasing what it holds succeeds. *)
Class HoldsLayers {W R} (backend : LayerResidencyBackend W R) (held : W → list (Z * R)) : Prop := {
  load_holds l w : match load_layer backend l w with
    | (Ok r, w') => held w' ≡ₚ (l, r) :: held w
    | (Raise _, w') => held w' ≡ₚ held w end;
  release_drops l r w : (l, r) ∈ held w →
    ∃ w', release_layer backend l r w = (Ok (), w') ∧ held w ≡ₚ (l, r) :: held w';
}.

Section balanced.
Context {W R X : Type} (backend : LayerResidencyBackend W R) (held : W → list (Z * R)).
Context `{!HoldsLayers backend held}.
Context (consume : Z → R → Py W X) (cancelled : W → bool) (when : Z → moment).
Hypothesis consume_quiet : ∀ l r w, held (consume l r w).2 ≡ₚ held w.
Abbreviation St := (State W R X).
Implicit Types (s : St) (base own : list (Z * R)).

(** Calls of the backend's two methods, in any number. *)
Definition backend_call (w w' : W) : Prop := (∃ l, w' = (load_layer backend l w).2) ∨ ∃ l r, w' = (release_layer backend l r w).2.
Abbreviation backend_calls := (rtc backend_call).
(** From [w] to [w'] the layers were consumed in order, each once and with a resource of its
    own that the backend held, with calls of the backend and nothing else around; [xs] is
    what consuming gave. *)
Inductive consumed : list Z → W → list X → W → Prop :=
| consumed_nil w w' : backend_calls w w' → consumed [] w [] w'
| consumed_cons l r x ls xs w w1 w2 w' :
    backend_calls w w1 → (l, r) ∈ held w1 → consume l r w1 = (Ok x, w2) → consumed ls w2 xs w' → consumed (l :: ls) w (x :: xs) w'.

Lemma load_called l w : backend_calls w (load_layer backend l w).2.
Proof. apply rtc_once. left. by exists l. Qed.
Lemma release_called l r w : backend_calls w (release_layer backend l r w).2.
Proof. apply rtc_once. right. by exists l, r. Qed.
Lemma consumed_before ls xs w0 w w' : backend_calls w0 w → consumed ls w xs w' → consumed ls w0 xs w'.
Proof.
  intros H0 Hc. destruct Hc as [v v' Hv|l r x ls xs v w1 w2 v' Hv Hin Hx Hr]; [apply consumed_nil; by transitivity v|].
  eapply (consumed_cons _ _ _ _ _ _ w1); [by transitivity v|done..].
Qed.
Lemma consumed_after ls xs w w' w1 : consumed ls w xs w' → backend_calls w' w1 → consumed ls w xs w1.
Proof. induction 1 as [w w' Hw|l r x ls xs w w2 w3 w' Hw Hin Hc _ IH]; intros H1; [apply consumed_nil; by transitivity w'|]. eapply consumed_cons; eauto. Qed.
Lemma consumed_length ls xs w w' : consumed ls w xs w' → length xs = length ls.
Proof. induction 1 as [|l r x ls xs w w1 w2 w' _ _ _ _ IH]; [done|]. cbn. by rewrite IH. Qed.

(** What a future holds. *)
Definition future_held (f : option (Future R)) : list (Z * R) :=
  match f with
  | Some f => match outcome f with Some (Ok r) => [(future_layer f, r)] | _ => [] end
  | None => []
  end.
(** The process holds what it held at the start, what the main thread owns, and what the
    future has loaded. *)
Definition owning own base s : Prop := held (world s) ≡ₚ own ++ future_held (future s) ++ base.
Abbreviation settled := (owning []).
(** The counters of two states agree, but for the future and the world. *)
Definition same_counts s s' : Prop :=
  (done_results s', prefetched s', failures s', fallbacks s', released s') =
  (done_results s, prefetched s, failures s, fallbacks s, released s).
(** A step of the worker or of the bookkeeping around it. *)
Record quiet own base s s' : Prop := {
  q_owning : owning own base s';
  q_counts : same_counts s s';
  q_calls : backend_calls (world s) (world s');
}.
Definition pending s : option Z := option_map future_layer (future s).

Lemma worker_settled own base m s : owning own base s →
  ∃ s', worker_turn backend when m s = (Ok (), s') ∧ pending s' = pending s ∧ quiet own base s s'.
Proof.
  intros Hs. assert (Hid : quiet own base s s) by (by split; [|done|]). unfold worker_turn, pending.
  destruct (future s) as [[l [o|]]|] eqn:Ef; [by exists s; rewrite Ef| |by exists s; rewrite Ef].
  destruct (decide _) as [_|_]; [|by exists s; rewrite Ef]. unfold bind, attempt, set_future, modify. pose proof (load_holds l (world s)) as Hl.
  pose proof (load_called l (world s)) as Hc. unfold owning in Hs. rewrite Ef in Hs. cbn in Hs.
  destruct (load_layer backend l (world s)) as [[r|e] w]; (eexists; split; [done|]; split; [done|]; split; [|done|exact Hc]); unfold owning; cbn.
  - rewrite Hl, Hs. apply Permutation_middle.
  - by rewrite Hl.
Qed.
Lemma submit_settled own base l s : held (world s) ≡ₚ own ++ base →
  ∃ s', submit backend when l s = (Ok (), s') ∧ pending s' = Some l ∧ quiet own base s s'.
Proof.
  intros Hh. unfold submit, bind, set_future, modify. set (s1 := mkState _ _ _ _ _ _ _).
  destruct (worker_settled own base AtSubmit s1) as (s' & Hw & Hp & [Ho Hc Hr]); [done|]. rewrite Hw. exists s'. split; [done|]. split; [by rewrite Hp|]. by split.
Qed.
Lemma future_result_settled base f s :
  settled base s → future s = Some f →
  let '(r, s') := future_result backend f s in
  same_counts s s' ∧ backend_calls (world s) (world s') ∧
  match r with
  | Ok r => held (world s') ≡ₚ (future_layer f, r) :: base ∧ settled base s'
  | Raise _ => held (world s') ≡ₚ base ∧ settled base s'
  end.
Proof.
  unfold owning. intros Hs Hf. unfold future_result. rewrite Hf in Hs. unfold future_held in Hs.
  destruct (outcome f) as [r|] eqn:Eo; rewrite ?Eo in Hs.
  - unfold lift. split; [done|]. split; [done|]. rewrite Hf. unfold future_held. rewrite Eo. by destruct r.
  - unfold bind, attempt, set_future, modify, lift. pose proof (load_holds (future_layer f) (world s)) as Hl. pose proof (load_called (future_layer f) (world s)) as Hc.
    destruct (load_layer backend (future_layer f) (world s)) as [[r|e] w];
      (split; [done|]; split; [done|]; cbn; split; by rewrite Hl, Hs).
Qed.

(** What the loop body starts from, of the state it is in. *)
Lemma resource_settled base f s :
  settled base s → future s = Some f →
  let '(r, s') := catch (let! r := future_result backend f in count 1 0 0 0 ;;; ret r)
    (λ _, count 0 1 0 0 ;;; check_cancelled cancelled ;;;
          let! r := on_world (load_layer backend (future_layer f)) in count 0 0 1 0 ;;; ret r) s in
  match r with
  | Ok r => held (world s') ≡ₚ (future_layer f, r) :: base ∧ backend_calls (world s) (world s') ∧ done_results s' = done_results s ∧
      released s' = released s ∧ prefetched s' + fallbacks s' = prefetched s + fallbacks s + 1 ∧
      failures s' - fallbacks s' = failures s - fallbacks s
  | Raise _ => settled base s'
  end.
Proof.
  intros Hs Hf. pose proof (future_result_settled base f s Hs Hf) as Hr. unfold catch, bind at 1.
  destruct (future_result backend f s) as [[r|e] s1]; destruct Hr as (Hc & Hcall & Hh & Hs1); unfold same_counts in Hc;
    injection Hc as Hc1 Hc2 Hc3 Hc4 Hc5.
  - unfold bind, count, modify, ret. cbn. split_and!; [done|done|done|lia..].
  - unfold bind at 1, count at 1, modify at 1. cbv beta iota. set (s2 := mkState _ _ _ _ _ _ _).
    assert (Hs2 : settled base s2) by done. unfold bind at 1, check_cancelled, bind at 1, get. cbv beta iota.
    destruct (cancelled (world s2)); [done|]. unfold ret at 1, bind at 1, on_world, zoom. cbv beta iota.
    pose proof (load_holds (future_layer f) (world s2)) as Hl. pose proof (load_called (future_layer f) (world s2)) as Hlc.
    change (world s2) with (world s1) in *.
    destruct (load_layer backend (future_layer f) (world s1)) as [[r|e'] w]; cbv beta iota.
    + unfold bind, count, modify, ret. cbn. rewrite Hl. split_and!; [by rewrite Hh|by etrans|done|lia..].
    + unfold owning in *. cbn. cbn in Hs2. by rewrite Hl.
Qed.
(** The consumer and the release of its resource, with the worker's turns between. *)
Lemma consume_settled base l r s :
  owning [(l, r)] base s →
  let '(res, s') := finally (finally (finally (let! x := on_world (consume l r) in append_result x) (worker_turn backend when AfterConsume))
      (on_world (release_layer backend l r) ;;; count 0 0 0 1)) (worker_turn backend when AfterRelease) s in
  settled base s' ∧ pending s' = pending s ∧
  match res with
  | Ok _ => ∃ x w2, consume l r (world s) = (Ok x, w2) ∧ backend_calls w2 (world s') ∧ done_results s' = done_results s ++ [x] ∧
      released s' = released s + 1 ∧ prefetched s' = prefetched s ∧ fallbacks s' = fallbacks s ∧ failures s' = failures s
  | Raise _ => True
  end.
Proof.
  intros Hs. unfold finally at 1 2 3, bind at 1, on_world at 1, zoom at 1. pose proof (consume_quiet l r (world s)) as Hq.
  assert (Hend : ∀ s1, owning [(l, r)] base s1 → ∃ s2 s3 s4, worker_turn backend when AfterConsume s1 = (Ok (), s2) ∧
    (on_world (release_layer backend l r) ;;; count 0 0 0 1) s2 = (Ok (), s3) ∧ worker_turn backend when AfterRelease s3 = (Ok (), s4) ∧
    settled base s4 ∧ pending s4 = pending s1 ∧ backend_calls (world s1) (world s4) ∧
    (done_results s4, prefetched s4, failures s4, fallbacks s4, released s4) = (done_results s1, prefetched s1, failures s1, fallbacks s1, released s1 + 1)).
  { intros s1 H1. destruct (worker_settled _ base AfterConsume s1 H1) as (s2 & Hw2 & Hp2 & [Ho2 Hc2 Hr2]).
    destruct (release_drops l r (world s2)) as (w & Hrw & Hp); [unfold owning in Ho2; rewrite Ho2; left|]. set (s3 := mkState w (future s2) (done_results s2) (prefetched s2 + 0) (failures s2 + 0) (fallbacks s2 + 0) (released s2 + 1)).
    assert (H3 : settled base s3).
    { unfold owning in *. cbn in *. apply (Permutation_cons_inv (a := (l, r))). by rewrite <-Hp, Ho2. }
    destruct (worker_settled _ base AfterRelease s3 H3) as (s4 & Hw4 & Hp4 & [Ho4 Hc4 Hr4]). exists s2, s3, s4.
    assert (Hrun : (on_world (release_layer backend l r) ;;; count 0 0 0 1) s2 = (Ok (), s3)) by (unfold bind, on_world, zoom, count, modify; by rewrite Hrw).
    split; [done|]. split; [done|]. split; [done|]. split; [done|]. split; [rewrite Hp4; unfold pending in *; cbn; by rewrite <-Hp2|].
    split; [etrans; [exact Hr2|]; etrans; [|exact Hr4]; pose proof (release_called l r (world s2)) as Hrel; rewrite Hrw in Hrel; exact Hrel|].
    unfold same_counts in *. rewrite Hc4. cbn. injection Hc2 as -> -> -> -> ->. do 2 f_equal; [do 2 f_equal; [f_equal|]|]; lia. }
  destruct (consume l r (world s)) as [[x|e] w]; cbn in Hq; cbv beta iota.
  - unfold append_result, modify. cbv beta iota. cbn [future done_results prefetched failures fallbacks released world].
    destruct (Hend (mkState w (future s) (done_results s ++ [x]) (prefetched s) (failures s) (fallbacks s) (released s))) as (s2 & s3 & s4 & -> & -> & -> & H4 & Hp & Hr & Hc).
    { unfold owning in *. cbn. by rewrite Hq. }
    split; [done|]. split; [done|]. injection Hc as -> -> -> -> ->. exists x, w. by split_and!.
  - destruct (Hend (mkState w (future s) (done_results s) (prefetched s) (failures s) (fallbacks s) (released s))) as (s2 & s3 & s4 & -> & -> & -> & H4 & Hp & _).
    { unfold owning in *. cbn. by rewrite Hq. }
    done.
Qed.

Lemma layer_step_settled base layer next f s :
  settled base s → future s = Some f → future_layer f = layer →
  let '(r, s') := layer_step backend consume cancelled when layer next s in
  settled base s' ∧
  match r with
  | Ok _ => pending s' = next ∧ (∃ x w1 resource w2, backend_calls (world s) w1 ∧ (layer, resource) ∈ held w1 ∧ consume layer resource w1 = (Ok x, w2) ∧
        backend_calls w2 (world s') ∧ done_results s' = done_results s ++ [x]) ∧
      released s' = released s + 1 ∧ prefetched s' + fallbacks s' = prefetched s + fallbacks s + 1 ∧
      failures s' - fallbacks s' = failures s - fallbacks s
  | Raise _ => True
  end.
Proof.
  intros Hs Hf <-. unfold layer_step, bind at 1. unfold check_cancelled at 1, bind at 1, get at 1.
  destruct (cancelled (world s)); [done|]. unfold ret at 1, bind at 1, get at 1. rewrite Hf. unfold bind at 1.
  pose proof (resource_settled base f s Hs Hf) as Hr.
  destruct (catch _ _ s) as [[r|e] s1]; [|done]. destruct Hr as (Hh & Hcalls & Hd & Hrel & Hp & Hfail). unfold bind at 1.
  assert (Hsub : ∃ s2, match next with Some l => submit backend when l | None => set_future None end s1 = (Ok (), s2) ∧
    pending s2 = next ∧ quiet [(future_layer f, r)] base s1 s2).
  { destruct next as [l|]; [by apply submit_settled|]. eexists. split; [reflexivity|]. by split. }
  destruct Hsub as (s2 & -> & Hn & [Ho Hc Hr2]). unfold same_counts in Hc. injection Hc as Hc1 Hc2 Hc3 Hc4 Hc5.
  pose proof (consume_settled base (future_layer f) r s2 Ho) as Hcon. destruct (finally _ _ s2) as [[[]|e] s3]; [|by destruct Hcon].
  destruct Hcon as (H3 & Hp3 & x & w2 & Hx & Hw2 & Hd3 & Hr3 & Hp3' & Hf3 & Hf3'). split; [done|]. split; [congruence|]. split; [|lia].
  exists x, (world s2), r, w2. split; [by etrans|]. split; [unfold owning in Ho; rewrite Ho; left|]. split; [done|]. split; [done|]. by rewrite Hd3, Hc1, Hd.
Qed.

Lemma layer_loop_settled base layers s :
  settled base s → pending s = head layers →
  let '(r, s') := layer_loop backend consume cancelled when layers s in
  settled base s' ∧
  match r with
  | Ok _ => future s' = None ∧ (∃ xs, consumed layers (world s) xs (world s') ∧ done_results s' = done_results s ++ xs) ∧
      released s' = released s + Zlen layers ∧
      prefetched s' + fallbacks s' = prefetched s + fallbacks s + Zlen layers ∧
      failures s' - fallbacks s' = failures s - fallbacks s
  | Raise _ => True
  end.
Proof.
  revert s. induction layers as [|l layers IH]; intros s Hs Hf; cbn [layer_loop].
  - unfold ret. split; [done|]. unfold Zlen, pending in *. cbn in *. split_and!; try lia; [by destruct (future s)|].
    exists []. split; [by constructor|]. by rewrite app_nil_r.
  - unfold bind at 1. unfold pending in Hf. destruct (future s) as [f|] eqn:Ef; [|done]. cbn in Hf. injection Hf as Hl.
    pose proof (layer_step_settled base l (head layers) f s Hs Ef Hl) as Hstep.
    destruct (layer_step _ _ _ _ l (head layers) s) as [[[]|e] s1]; [|by destruct Hstep].
    destruct Hstep as (Hs1 & Hf1 & (x & w1 & r & w2 & Hw1 & Hin & Hx & Hw2 & Hd) & Hr & Hp & Hfl). specialize (IH s1 Hs1 Hf1).
    destruct (layer_loop _ _ _ _ layers s1) as [[[]|e] s2]; [|by destruct IH]. destruct IH as (? & ? & (xs & Hxs & Hds) & ? & ? & ?).
    split; [done|]. unfold Zlen in *. cbn [length]. split_and!; try done; [|lia..].
    exists (x :: xs). split; [|by rewrite Hds, Hd, <-app_assoc]. econstructor; [done..|]. by eapply consumed_before.
Qed.

Lemma settle_future_settled base s :
  settled base s →
  ∃ s', settle_future backend s = (Ok (), s') ∧ held (world s') ≡ₚ base ∧ (future s = None → s' = s).
Proof.
  unfold owning, settle_future, bind at 1, get. intros Hs. destruct (future s) as [f|] eqn:Ef; [|by exists s].
  cbn in Hs. destruct (outcome f) as [[r|e]|]; [|by exists s|by eexists].
  unfold bind, on_world, zoom.
  destruct (release_drops (future_layer f) r (world s)) as (w & -> & Hp); [rewrite Hs; left|].
  eexists. split_and!; [done| |done]. apply (Permutation_cons_inv (a := (future_layer f, r))). cbn. by rewrite <-Hp, Hs.
Qed.

(** C34: whatever a layer's load or its consumer does and whenever the run is
    cancelled, and however the prefetch thread is scheduled, the backend ends up
    holding what it held before: every resource loaded, also one prefetched for a
    layer the run never reached, is released once.  A run that returns consumed the
    layers in order, each once and with a resource the backend held for it, and its
    results are what consuming them gave; it released one resource per layer and
    repeated exactly the prefetches that failed. *)
Theorem prefetch_releases_all layers w :
  match prefetch_execute backend consume cancelled when layers w with
  | (Ok r, w') => held w' ≡ₚ held w ∧ consumed layers w (results r) w' ∧ length (results r) = length layers ∧ layer_count r = Zlen layers ∧
      released_layers r = Zlen layers ∧ prefetched_layers r + on_demand_fallbacks r = Zlen layers ∧
      prefetch_failures r = on_demand_fallbacks r
  | (Raise _, w') => held w' ≡ₚ held w
  end.
Proof.
  unfold prefetch_execute. destruct layers as [|first layers]; [done|]. destruct (_ || _); [done|].
  unfold bind. set (s0 := mkState _ _ _ _ _ _ _).
  destruct (submit_settled [] (held w) first s0) as (s1 & -> & Hf & [Hs1 Hc Hw1]); [done|].
  unfold finally. pose proof (layer_loop_settled (held w) (first :: layers) s1 Hs1 Hf) as Hloop. unfold same_counts in Hc.
  injection Hc as Hc1 Hc2 Hc3 Hc4 Hc5.
  destruct (layer_loop _ _ _ _ _ s1) as [r s2]. destruct Hloop as [Hs2 Hr].
  destruct (settle_future_settled (held w) s2 Hs2) as (s3 & -> & Hh & Hsame).
  destruct r as [[]|e]; [|done]. destruct Hr as (Hn & (xs & Hxs & Hd) & Hrel & Hp & Hfl). rewrite (Hsame Hn) in *.
  rewrite Hc1 in Hd. cbn in *. rewrite Hd. split_and!; [done|by eapply consumed_before| |done|lia..].
  by apply consumed_length in Hxs.
Qed.
End balanced.

(** ** A run *)

Fixpoint take_out (x : Z * Z) (l : list (Z * Z)) : option (list (Z * Z)) :=
  match l with
  | [] => None
  | y :: l' => if decide (x = y) then Some l' else option_map (cons y) (take_out x l')
  end.
Definition demo_backend : LayerResidencyBackend (list (Z * Z)) Z :=
  mkBackend (λ l w, if bool_decide (l = 2) && bool_decide (w ≠ []) then (Raise (OSError "busy"), w)
                    else (Ok (10 * l), (l, 10 * l) :: w))
            (λ l r w, match take_out (l, r) w with Some w' => (Ok (), w') | None => (Raise (KeyError "layer"), w) end).
Definition demo_consume (l r : Z) : Py (list (Z * Z)) Z := if l =? 9 then raise (RuntimeError "no") else ret (r + 1).

(** The prefetch of layer 2 fails while layer 1 is held and succeeds on demand. *)
Example demo_prefetch :
  (prefetch_execute demo_backend demo_consume (λ _, false) (λ _, AtSubmit) [1; 2; 3] []) =
  (Ok (mkReport [11; 21; 31] 3 2 1 1 3), []).
Proof. vm_compute. reflexivity. Qed.
(** A consumer that fails leaves the orphan of the next layer to be released. *)
Example demo_orphan :
  (prefetch_execute demo_backend demo_consume (λ _, false) (λ _, AtSubmit) [1; 9; 3] []) = (Raise (RuntimeError "no"), []).
Proof. vm_compute. reflexivity. Qed.


Lemma take_out_elem x l : x ∈ l → ∃ l', take_out x l = Some l' ∧ l ≡ₚ x :: l'.
Proof.
  induction l as [|y l IH]; intros Hx; [by apply elem_of_nil in Hx|]. cbn. destruct (decide (x = y)) as [->|Hn].
  - by exists l.
  - apply elem_of_cons in Hx as [|Hx]; [done|]. destruct (IH Hx) as (l' & -> & Hp). exists (y :: l'). split; [done|].
    rewrite Hp. apply perm_swap.
Qed.

#[local] Instance demo_holds : HoldsLayers demo_backend (λ w, w).
Proof.
  split; [intros l w|intros l r w Hin]; cbn.
  - destruct (_ && _); done.
  - destruct (take_out_elem _ _ Hin) as (w' & -> & Hp). by exists w'.
Qed.

Lemma prefetch_releases_all_witness :
  match prefetch_execute demo_backend demo_consume (λ _, false) (λ _, AtSubmit) [1; 2; 3] [] with
  | (Ok r, w') => w' ≡ₚ [] ∧ prefetch_failures r = on_demand_fallbacks r
  | (Raise _, _) => False
  end.
Proof.
  pose proof (prefetch_releases_all demo_backend (λ w, w) demo_consume (λ _, false) (λ _, AtSubmit)) as H.
  specialize (H ltac:(intros l r w; unfold demo_consume; by destruct (l =? 9)) [1; 2; 3] []).
  rewrite demo_prefetch in *. split; [apply H|apply H].
Defined.

End LayerPrefetch.
