(* ===== verification/BitPacking.v ===== *)
(** * Packed codes (numeric_codecs.py, [_pack], [_unpack]; numeric_mx.py, [_unpack_lsb])

    Codes of a few bits each are packed into bytes, the first code in the lowest
    bits.  The specification reads both sides as digits of one integer: the bytes
    are its digits to base 256, the codes its digits to base [2 ^ bits]. *)

From S2P Require Import Prelude Types PyBytes.

Module BitPacking.
Import PyBytes.

(** ** The operations *)

(** The body of the loop of [_pack]: [result[bit // 8] |= code << (bit % 8)]. *)
Definition pack_code (bits : Z) (st : Z * bytes) (code : Z) : res exn (Z * bytes) :=
  let '(index, result) := st in
  if negb ((0 <=? code) && (code <=? Z.shiftl 1 bits - 1))
  then Raise (ValueError "numeric code is out of range")
  else
    let bit := index * bits in
    match result !! Z.to_nat (bit / 8) with
    | None => Raise (IndexError "bytearray index out of range")
    | Some b =>
        let v := Z.lor b (Z.shiftl code (bit mod 8)) in
        if v <? 256 then Ok (index + 1, <[Z.to_nat (bit / 8) := v]> result)
        else Raise (ValueError "byte must be in range(0, 256)")
    end.

(** [_pack] *)
Definition pack (codes : list Z) (bits : Z) : res exn bytes :=
  match fold_res (pack_code bits) codes (0, replicate (Z.to_nat ((Zlen codes * bits + 7) / 8)) 0) with
  | Ok (_, result) => Ok result
  | Raise e => Raise e
  end.

(** [_unpack]; the indices are within the payload, whose length was checked. *)
Definition unpack_code (payload : bytes) (bits index : Z) : Z :=
  Z.land (Z.shiftr (default 0 (payload !! Z.to_nat (index * bits / 8))) (index * bits mod 8)) (Z.shiftl 1 bits - 1).
Definition unpack (payload : bytes) (bits elements : Z) : res exn (list Z) :=
  if negb (Zlen payload =? (elements * bits + 7) / 8)
  then Raise (ValueError "packed numeric payload size mismatch")
  else
    let codes := (λ i : nat, unpack_code payload bits (Z.of_nat i)) <$> seq 0 (Z.to_nat elements) in
    let used := elements * bits mod 8 in
    if negb (used =? 0) && negb (Z.shiftr (default 0 (last payload)) used =? 0)
    then Raise (ValueError "packed numeric payload padding is nonzero")
    else Ok codes.

(** The inner loop of [_unpack_lsb]: [while available < bits]. *)
Fixpoint refill (fuel : nat) (packed : bytes) (bits accumulator available offset : Z) : res exn (Z * Z * Z) :=
  if available <? bits then
    match fuel with
    | O => Raise AssertionError
    | S fuel' =>
        match packed !! Z.to_nat offset with
        | None => Raise (IndexError "index out of range")
        | Some b => refill fuel' packed bits (Z.lor accumulator (Z.shiftl b available)) (available + 8) (offset + 1)
        end
    end
  else Ok (accumulator, available, offset).
(** The outer loop of [_unpack_lsb]; a code of at most eight bits needs one byte. *)
Fixpoint unpack_loop (n : nat) (packed : bytes) (bits accumulator available offset : Z) : res exn (list Z) :=
  match n with
  | O => Ok []
  | S n' =>
      match refill (Z.to_nat bits) packed bits accumulator available offset with
      | Raise e => Raise e
      | Ok (accumulator, available, offset) =>
          match unpack_loop n' packed bits (Z.shiftr accumulator bits) (available - bits) offset with
          | Ok l => Ok (Z.land accumulator (Z.shiftl 1 bits - 1) :: l)
          | Raise e => Raise e
          end
      end
  end.
(** [_unpack_lsb] *)
Definition unpack_lsb (packed : bytes) (bits elements : Z) : res exn (list Z) :=
  unpack_loop (Z.to_nat elements) packed bits 0 0 0.

(** ** Digits *)

(** The integer with the given digits to base [2 ^ w], the lowest first. *)
Fixpoint join (w : Z) (l : list Z) : Z :=
  match l with
  | [] => 0
  | c :: l' => c + 2 ^ w * join w l'
  end.
Definition digits_ok (w : Z) (l : list Z) : Prop := Forall (λ c, 0 <= c < 2 ^ w) l.
Definition digit (w N i : Z) : Z := (N / 2 ^ (w * i)) mod 2 ^ w.

Section digits.
Context (w : Z).
Hypothesis w_pos : 0 < w.

Lemma join_nonneg l : digits_ok w l → 0 <= join w l.
Proof. induction 1; cbn; [done|]. pose proof (Z.pow_pos_nonneg 2 w). nia. Qed.

Lemma join_testbit l n :
  digits_ok w l → 0 <= n →
  Z.testbit (join w l) n = match l !! Z.to_nat (n / w) with Some c => Z.testbit c (n mod w) | None => false end.
Proof.
  intros Hl. revert n. induction Hl as [|c l Hc Hl IH]; intros n Hn; [by rewrite Z.bits_0|]. cbn [join].
  assert (Hlow : Z.testbit (c + 2 ^ w * join w l) n =
    if n <? w then Z.testbit c n else Z.testbit (join w l) (n - w)).
  { destruct (n <? w) eqn:E; breflect.
    - rewrite <-(Z.mod_pow2_bits_low _ w) by lia. rewrite Z.mul_comm, Z.mod_add, Z.mod_small by lia. done.
    - replace n with ((n - w) + w) at 1 by lia. rewrite <-Z.div_pow2_bits by lia.
      rewrite Z.mul_comm, Z.div_add, Z.div_small by lia. done. }
  rewrite Hlow. destruct (n <? w) eqn:E; breflect.
  - by rewrite Z.div_small, Z.mod_small by lia.
  - rewrite IH by lia. assert (Hd : n / w = (n - w) / w + 1)
      by (replace n with ((n - w) + 1 * w) at 1 by lia; by rewrite Z.div_add by lia).
    assert (Hm : n mod w = (n - w) mod w)
      by (replace n with ((n - w) + 1 * w) at 1 by lia; by rewrite Z.mod_add by lia).
    assert (0 <= (n - w) / w) by (apply Z.div_pos; lia). rewrite Hd, Hm, Z2Nat.inj_add by lia.
    change (Z.to_nat 1) with 1%nat. by rewrite Nat.add_1_r.
Qed.

Lemma join_lt l : digits_ok w l → join w l < 2 ^ (w * Zlen l).
Proof.
  induction 1 as [|c l Hc Hl IH]; cbn [join]; unfold Zlen in *; cbn [length].
  - rewrite Z.mul_0_r. done.
  - rewrite Nat2Z.inj_succ, Z.mul_succ_r, Z.add_comm, Z.pow_add_r by lia.
    pose proof (Z.pow_pos_nonneg 2 w). nia.
Qed.

Lemma join_digit l i c : digits_ok w l → l !! Z.to_nat i = Some c → 0 <= i → digit w (join w l) i = c.
Proof.
  intros Hl Hc Hi. apply Z.bits_inj'. intros n Hn. unfold digit.
  destruct (decide (n < w)) as [Hlt|Hge].
  - rewrite Z.mod_pow2_bits_low, Z.div_pow2_bits, join_testbit by first [done | nia].
    replace (n + w * i) with (i * w + n) by lia.
    rewrite Z.div_add_l, (Z.div_small n), Z.add_0_r, Hc by lia.
    by rewrite Z.add_comm, Z.mod_add, Z.mod_small by lia.
  - rewrite Z.mod_pow2_bits_high by lia.
    assert (Hcr : 0 <= c < 2 ^ w).
    { unfold digits_ok in Hl. rewrite Forall_forall in Hl. apply Hl. by eapply list_elem_of_lookup_2. }
    rewrite <-(Z.mod_small c (2 ^ w)) by done. by rewrite Z.mod_pow2_bits_high by lia.
Qed.

Lemma digit_range N i : 0 <= digit w N i < 2 ^ w.
Proof. apply Z.mod_pos_bound. by apply Z.pow_pos_nonneg; lia. Qed.

Lemma digit_shift N i : 0 <= i → digit w (N / 2 ^ w) i = digit w N (i + 1).
Proof.
  intros Hi. unfold digit. rewrite Z.div_div by (try apply Z.pow_pos_nonneg; try apply Z.pow_nonzero; nia).
  rewrite <-Z.pow_add_r by nia. do 3 f_equal. lia.
Qed.

Lemma digit_of_mod N i m : 0 <= i → w * (i + 1) <= m → digit w (N mod 2 ^ m) i = digit w N i.
Proof.
  intros Hi Hm. apply Z.bits_inj'. intros n Hn. unfold digit.
  destruct (decide (n < w)) as [Hlt|Hge]; [|by rewrite !Z.mod_pow2_bits_high by lia].
  by rewrite !Z.mod_pow2_bits_low, !Z.div_pow2_bits, Z.mod_pow2_bits_low by nia.
Qed.

(** The first [n] digits of an integer, and the integer they are digits of. *)
Definition digits (N : Z) (n : nat) : list Z := (λ i : nat, digit w N (Z.of_nat i)) <$> seq 0 n.
Lemma digits_S N n : digits N (S n) = N mod 2 ^ w :: digits (N / 2 ^ w) n.
Proof.
  unfold digits. cbn [seq fmap list_fmap]. f_equal.
  - unfold digit. by rewrite Z.mul_0_r, Z.div_1_r.
  - rewrite <-seq_shift, <-list_fmap_compose. apply list_fmap_ext. intros i x Hx. cbn.
    rewrite digit_shift by lia. f_equal. lia.
Qed.
Lemma join_digits N n : 0 <= N < 2 ^ (w * Z.of_nat n) → join w (digits N n) = N.
Proof.
  revert N. induction n as [|n IH]; intros N HN.
  - rewrite Z.mul_0_r in HN. cbn in *. lia.
  - rewrite digits_S. cbn [join]. pose proof (Z.pow_pos_nonneg 2 w).
    rewrite IH; [pose proof (Z.div_mod N (2 ^ w)); lia|].
    rewrite Nat2Z.inj_succ, Z.mul_succ_r, Z.pow_add_r in HN by lia.
    split; [apply Z.div_pos; lia|]. apply Z.div_lt_upper_bound; lia.
Qed.
Lemma digits_digits_ok N n : digits_ok w (digits N n).
Proof. apply Forall_fmap, Forall_forall. intros i _. apply digit_range. Qed.
Lemma digits_join l : digits_ok w l → digits (join w l) (length l) = l.
Proof.
  intros Hl. apply list_eq. intros i. unfold digits. rewrite list_lookup_fmap.
  destruct (decide (i < length l)%nat) as [Hi|Hi].
  - rewrite lookup_seq_lt by done. cbn. destruct (lookup_lt_is_Some_2 l i Hi) as [c Hc]. rewrite Hc. f_equal.
    apply join_digit; [done|by rewrite Nat2Z.id|lia].
  - rewrite lookup_seq_ge by lia. by rewrite lookup_ge_None_2 by lia.
Qed.
Lemma join_inj l l' : digits_ok w l → digits_ok w l' → length l = length l' → join w l = join w l' → l = l'.
Proof. intros Hl Hl' Hlen Heq. rewrite <-(digits_join l), <-(digits_join l') by done. congruence. Qed.
Lemma join_replicate n : join w (replicate n 0) = 0.
Proof. induction n as [|n IH]; cbn; [done|]. rewrite IH. lia. Qed.
Lemma join_snoc l c : join w (l ++ [c]) = join w l + 2 ^ (w * Zlen l) * c.
Proof.
  induction l as [|x l IH]; cbn [join app]; unfold Zlen in *; cbn [length].
  - change (Z.of_nat 0) with 0. rewrite !Z.mul_0_r, Z.pow_0_r. lia.
  - rewrite IH, Nat2Z.inj_succ, Z.mul_succ_r, Z.add_comm, Z.pow_add_r by lia. lia.
Qed.
End digits.

Lemma join_insert w l p b v :
  l !! p = Some b → join w (<[p := v]> l) = join w l + 2 ^ (w * Z.of_nat p) * (v - b).
Proof.
  revert p. induction l as [|c l IH]; intros [|p] Hp; try done.
  - injection Hp as ->. change (<[0%nat := v]> (b :: l)) with (v :: l). cbn [join].
    change (Z.of_nat 0) with 0. rewrite Z.mul_0_r, Z.pow_0_r. lia.
  - change (<[S p := v]> (c :: l)) with (c :: <[p := v]> l). cbn [join]. rewrite (IH p Hp). destruct (decide (0 <= w)) as [Hw|Hw].
    + replace (w * Z.of_nat (S p)) with (w + w * Z.of_nat p) by lia. rewrite Z.pow_add_r by nia. lia.
    + rewrite !(Z.pow_neg_r 2 w), (Z.pow_neg_r 2 (w * Z.of_nat (S p))) by nia. lia.
Qed.

Lemma join_lookup_le w l p b : 0 < w → digits_ok w l → l !! p = Some b → 2 ^ (w * Z.of_nat p) * b <= join w l.
Proof.
  intros Hw Hl Hp. assert (Hz : digits_ok w (<[p := 0]> l)).
  { apply Forall_insert; [done|]. pose proof (Z.pow_pos_nonneg 2 w). lia. }
  pose proof (join_insert w l p b 0 Hp) as Hi. pose proof (join_nonneg w Hw _ Hz). lia.
Qed.

Lemma join_app w l l' : 0 < w → join w (l ++ l') = join w l + 2 ^ (w * Zlen l) * join w l'.
Proof.
  intros Hw. induction l as [|x l IH]; cbn [join app]; unfold Zlen in *; cbn [length].
  - change (Z.of_nat 0) with 0. rewrite !Z.mul_0_r, Z.pow_0_r. lia.
  - rewrite IH, Nat2Z.inj_succ, Z.mul_succ_r, (Z.add_comm _ w), Z.pow_add_r by lia. lia.
Qed.

(** Joining two bit fields that do not overlap. *)
Lemma lor_shiftl a c s : 0 <= s → 0 <= a < 2 ^ s → Z.lor a (Z.shiftl c s) = a + c * 2 ^ s.
Proof.
  intros Hs Ha. rewrite <-Z.shiftl_mul_pow2 by done. symmetry.
  assert (Hd : Z.land a (Z.shiftl c s) = 0).
  { apply Z.bits_inj'. intros n Hn. rewrite Z.land_spec, Z.bits_0. destruct (decide (n < s)) as [Hlt|Hge].
    - by rewrite Z.shiftl_spec_low, andb_false_r by lia.
    - rewrite <-(Z.mod_small a (2 ^ s)) by done. by rewrite Z.mod_pow2_bits_high by lia. }
  by rewrite Z.add_nocarry_lxor, Z.lxor_lor by done.
Qed.

Lemma mask_ones bits N : 0 <= bits → Z.land N (Z.shiftl 1 bits - 1) = N mod 2 ^ bits.
Proof. intros Hb. rewrite Z.shiftl_1_l, Z.sub_1_r, <-Z.ones_equiv. by apply Z.land_ones. Qed.

(** ** Packing *)

Section packing.
Context (bits : Z).
Hypothesis bits_ok : 0 < bits <= 8.
Hypothesis bits_divide : (bits | 8).

(** The place of a code: the byte it is in and the bits before it in that byte. *)
Lemma place i :
  0 <= i → let p := i * bits / 8 in let s := i * bits mod 8 in
  i * bits = 8 * p + s ∧ 0 <= s ∧ s + bits <= 8 ∧ 0 <= p.
Proof.
  intros Hi. cbn zeta. pose proof (Z.div_mod (i * bits) 8) as H1. pose proof (Z.mod_pos_bound (i * bits) 8) as H2.
  destruct bits_divide as [k Hk]. split_and!; [lia|lia| |apply Z.div_pos; nia].
  assert (Hs : (i * bits mod 8) = (i mod k) * bits).
  { rewrite Hk. rewrite (Z.mul_comm k bits), (Z.mul_comm i bits), Z.mul_mod_distr_l by nia. lia. }
  assert (i mod k < k) by (apply Z.mod_pos_bound; nia). nia.
Qed.

Lemma pack_code_spec index result pre c :
  bytes_ok result → digits_ok bits pre → index = Zlen pre → join 8 result = join bits pre →
  (index + 1) * bits <= 8 * Zlen result →
  if decide (0 <= c < 2 ^ bits)
  then ∃ result', pack_code bits (index, result) c = Ok (index + 1, result') ∧ bytes_ok result' ∧
         length result' = length result ∧ join 8 result' = join bits (pre ++ [c])
  else pack_code bits (index, result) c = Raise (ValueError "numeric code is out of range").
Proof.
  intros Hr Hpre -> Hj Hlen. unfold pack_code. rewrite Z.shiftl_1_l. pose proof (Z.pow_pos_nonneg 2 bits) as Hpow.
  destruct (decide _) as [Hc|Hc]; cbn zeta.
  2: { destruct (negb _) eqn:E; [done|]. exfalso. apply Hc. breflect. lia. }
  rewrite (proj2 (Z.leb_le _ _)), (proj2 (Z.leb_le _ _)) by lia. cbn [andb negb].
  pose proof (place (Zlen pre) (Zlen_nonneg pre)) as (Hp & Hs0 & Hs & Hp0).
  set (p := Zlen pre * bits / 8) in *. set (s := Zlen pre * bits mod 8) in *.
  destruct (lookup_lt_is_Some_2 result (Z.to_nat p)) as [b Hb]; [unfold Zlen in *; nia|]. rewrite Hb.
  assert (Hbr : 0 <= b < 256).
  { unfold bytes_ok in Hr. rewrite Forall_forall in Hr. apply Hr. by eapply list_elem_of_lookup_2. }
  assert (Hbs : b < 2 ^ s).
  { pose proof (join_lookup_le 8 result (Z.to_nat p) b ltac:(lia) Hr Hb) as Hle. rewrite Z2Nat.id in Hle by lia.
    pose proof (join_lt bits ltac:(lia) pre Hpre) as Hlt. rewrite <-Hj in Hlt.
    rewrite (Z.mul_comm bits), Hp, Z.pow_add_r in Hlt by lia. pose proof (Z.pow_pos_nonneg 2 (8 * p)). nia. }
  rewrite lor_shiftl by lia.
  assert (Hv : b + c * 2 ^ s < 256).
  { pose proof (Z.pow_pos_nonneg 2 s). assert (b + c * 2 ^ s < 2 ^ (s + bits)) by (rewrite Z.pow_add_r by lia; nia).
    pose proof (Z.pow_le_mono_r 2 (s + bits) 8). lia. }
  rewrite (proj2 (Z.ltb_lt _ _)) by lia. eexists. split; [done|].
  pose proof (Z.pow_pos_nonneg 2 s). split_and!.
  - apply Forall_insert; [done|]. nia.
  - apply length_insert.
  - rewrite (join_insert 8 result _ b) by done. rewrite join_snoc by lia. rewrite Hj, Z2Nat.id by lia.
    rewrite (Z.mul_comm bits), Hp, Z.pow_add_r by lia. lia.
Qed.

Lemma pack_loop_spec codes pre result :
  bytes_ok result → digits_ok bits pre → join 8 result = join bits pre →
  (Zlen pre + Zlen codes) * bits <= 8 * Zlen result →
  match fold_res (pack_code bits) codes (Zlen pre, result) with
  | Ok (_, result') => digits_ok bits codes ∧ bytes_ok result' ∧ length result' = length result ∧
      join 8 result' = join bits (pre ++ codes)
  | Raise e => ¬ digits_ok bits codes ∧ e = ValueError "numeric code is out of range"
  end.
Proof.
  revert pre result. induction codes as [|c codes IH]; intros pre result Hr Hpre Hj Hlen; cbn [fold_res].
  { rewrite app_nil_r. by split_and!; [constructor|..]. }
  assert (Hl1 : Zlen (c :: codes) = Zlen codes + 1) by (unfold Zlen; cbn; lia).
  pose proof (Zlen_nonneg codes). pose proof (pack_code_spec (Zlen pre) result pre c Hr Hpre eq_refl Hj ltac:(nia)) as Hc.
  destruct (decide _) as [Hin|Hout].
  - destruct Hc as (result' & -> & Hr' & Hlen' & Hj').
    assert (Hl2 : Zlen pre + 1 = Zlen (pre ++ [c])) by (unfold Zlen; rewrite length_app; cbn; lia). rewrite Hl2.
    assert (Hpre' : digits_ok bits (pre ++ [c])) by (apply Forall_app; split; [done|by constructor]).
    specialize (IH (pre ++ [c]) result' Hr' Hpre' Hj' ltac:(unfold Zlen in *; rewrite Hlen'; lia)).
    destruct (fold_res _ _ _) as [[i r]|e].
    + destruct IH as (H1 & H2 & H3 & H4). split_and!; [by constructor|done|congruence|by rewrite H4, <-app_assoc].
    + destruct IH as [H1 H2]. split; [|done]. intros Hd. apply H1. by inversion Hd.
  - rewrite Hc. split; [|done]. intros Hd. apply Hout. by inversion Hd.
Qed.

Lemma pack_spec codes :
  match pack codes bits with
  | Ok p => digits_ok bits codes ∧ bytes_ok p ∧ Zlen p = (Zlen codes * bits + 7) / 8 ∧ join 8 p = join bits codes
  | Raise e => ¬ digits_ok bits codes ∧ e = ValueError "numeric code is out of range"
  end.
Proof.
  unfold pack. set (n := (Zlen codes * bits + 7) / 8). assert (Hn : 8 * n <= Zlen codes * bits + 7 < 8 * n + 8).
  { pose proof (Z.div_mod (Zlen codes * bits + 7) 8). pose proof (Z.mod_pos_bound (Zlen codes * bits + 7) 8). lia. }
  pose proof (Zlen_nonneg codes) as Hl. assert (0 <= n) by nia.
  pose proof (pack_loop_spec codes [] (replicate (Z.to_nat n) 0)) as Hloop.
  assert (Hlr : Zlen (replicate (Z.to_nat n) 0) = n) by (unfold Zlen; rewrite length_replicate; lia).
  rewrite Hlr in Hloop. change (Zlen []) with 0 in Hloop.
  specialize (Hloop ltac:(apply Forall_replicate; lia) ltac:(constructor) ltac:(by rewrite join_replicate) ltac:(lia)).
  destruct (fold_res _ _ _) as [[i r]|e]; [|done]. destruct Hloop as (H1 & H2 & H3 & H4).
  split_and!; [done|done| |done]. unfold Zlen in *. rewrite H3. done.
Qed.

(** ** Unpacking *)

Lemma unpack_code_digit payload i :
  bytes_ok payload → 0 <= i → unpack_code payload bits i = digit bits (join 8 payload) i.
Proof.
  intros Hp Hi. unfold unpack_code. rewrite mask_ones by lia. pose proof (place i Hi) as (Hq & Hs0 & Hs & Hp0).
  set (p := i * bits / 8) in *. set (s := i * bits mod 8) in *. apply Z.bits_inj'. intros n Hn. unfold digit.
  destruct (decide (n < bits)) as [Hlt|Hge]; [|by rewrite !Z.mod_pow2_bits_high by lia].
  rewrite !Z.mod_pow2_bits_low, Z.shiftr_spec, Z.div_pow2_bits, join_testbit by first [done | nia].
  replace (n + bits * i) with (p * 8 + (n + s)) by lia.
  rewrite Z.div_add_l, (Z.div_small (n + s)), Z.add_0_r by lia.
  replace (p * 8 + (n + s)) with ((n + s) + p * 8) by lia. rewrite Z.mod_add, Z.mod_small by lia.
  destruct (payload !! Z.to_nat p); [done|]. by rewrite Z.bits_0.
Qed.

(** The padding is zero exactly when the integer has no bit beyond the codes. *)
Lemma padding_zero payload n :
  bytes_ok payload → 0 <= n → Zlen payload = (n * bits + 7) / 8 →
  let used := n * bits mod 8 in
  negb (used =? 0) && negb (Z.shiftr (default 0 (last payload)) used =? 0) = false ↔
  join 8 payload < 2 ^ (bits * n).
Proof.
  intros Hp Hn Hlen used. pose proof (place n Hn) as (Hq & Hs0 & _ & Hp0). fold used in Hq, Hs0.
  set (q := n * bits / 8) in *. pose proof (join_lt 8 ltac:(lia) payload Hp) as Hlt.
  assert (Hu : used < 8) by (apply Z.mod_pos_bound; lia).
  replace (n * bits + 7) with (q * 8 + (used + 7)) in Hlen by lia. rewrite Z.div_add_l in Hlen by lia.
  destruct (used =? 0) eqn:E; breflect.
  { split; [|done]. intros _. rewrite E in Hlen. change ((0 + 7) / 8) with 0 in Hlen.
    rewrite Hlen in Hlt. replace (bits * n) with (8 * (q + 0)) by lia. done. }
  assert (Hd1 : (used + 7) / 8 = 1) by (symmetry; apply (Z.div_unique_pos (used + 7) 8 1 (used - 1)); lia).
  rewrite Hd1 in Hlen. cbn [negb andb].
  destruct (last payload) as [b|] eqn:El.
  2: { apply last_None in El as ->. unfold Zlen in Hlen. cbn in Hlen. lia. }
  apply last_Some in El as [l' ->]. cbn [default]. unfold bytes_ok in Hp. apply Forall_app in Hp as [Hl' Hb].
  apply Forall_inv in Hb. assert (Hq' : Zlen l' = q) by (unfold Zlen in *; rewrite length_app in Hlen; cbn in Hlen; lia).
  rewrite join_app by lia. rewrite Hq'. cbn [join]. rewrite Z.mul_0_r, Z.add_0_r.
  replace (bits * n) with (8 * q + used) by lia. rewrite Z.pow_add_r by lia.
  pose proof (join_lt 8 ltac:(lia) l' Hl') as Hlow. rewrite Hq' in Hlow. pose proof (join_nonneg 8 ltac:(lia) l' Hl').
  pose proof (Z.pow_pos_nonneg 2 (8 * q) ltac:(lia) ltac:(lia)). pose proof (Z.pow_pos_nonneg 2 used ltac:(lia) Hs0).
  rewrite Z.shiftr_div_pow2 by lia. change (id b) with b.
  split.
  - intros Hz. apply negb_false_iff, Z.eqb_eq, Z.div_small_iff in Hz; [nia|lia].
  - intros Hz. apply negb_false_iff, Z.eqb_eq, Z.div_small. split; [lia|]. nia.
Qed.

Lemma unpack_spec payload n :
  bytes_ok payload → 0 <= n →
  match unpack payload bits n with
  | Ok codes => codes = digits bits (join 8 payload) (Z.to_nat n) ∧ Zlen payload = (n * bits + 7) / 8 ∧
      join 8 payload < 2 ^ (bits * n)
  | Raise _ => ¬ (Zlen payload = (n * bits + 7) / 8 ∧ join 8 payload < 2 ^ (bits * n))
  end.
Proof.
  intros Hp Hn. unfold unpack. destruct (Zlen payload =? _) eqn:E; cbn [negb]; breflect; [|by intros [? _]].
  pose proof (padding_zero payload n Hp Hn E) as Hpad. cbv zeta in Hpad |- *.
  destruct (_ && _); [intros [_ Hlt]; apply (proj2 Hpad) in Hlt; discriminate|].
  split_and!; [|done|by apply Hpad]. unfold digits. apply list_fmap_ext. intros i x Hx.
  apply unpack_code_digit; [done|lia].
Qed.

Lemma unpack_pack codes p : pack codes bits = Ok p → unpack p bits (Zlen codes) = Ok codes.
Proof.
  intros Hpk. pose proof (pack_spec codes) as Hs. rewrite Hpk in Hs. destruct Hs as (Hdig & Hok & Hlen & Hj).
  pose proof (unpack_spec p (Zlen codes) Hok (Zlen_nonneg codes)) as Hu.
  destruct (unpack p bits (Zlen codes)) as [l|e]; [|exfalso; apply Hu; split; [done|]].
  - destruct Hu as (-> & _ & _). rewrite Hj. unfold Zlen. by rewrite Nat2Z.id, digits_join by (done || lia).
  - rewrite Hj. by apply join_lt; [lia|].
Qed.
End packing.

(** ** Reading codes of any width up to a byte *)

Lemma join_take w l k : 0 < w → digits_ok w l → (k <= length l)%nat → join w (take k l) = join w l mod 2 ^ (w * Z.of_nat k).
Proof.
  intros Hw Hl Hk. rewrite <-(take_drop k l) at 2. rewrite join_app by done.
  assert (Hz : Zlen (take k l) = Z.of_nat k) by (unfold Zlen; rewrite length_take; lia). rewrite Hz.
  rewrite Z.mul_comm, Z.mod_add by (apply Z.pow_nonzero; lia). symmetry. apply Z.mod_small.
  assert (Ht : digits_ok w (take k l)) by by apply Forall_take.
  pose proof (join_lt w Hw _ Ht). rewrite Hz in *. by split; [apply join_nonneg|].
Qed.

(** The accumulator holds the bits of the bytes read that no code has taken yet. *)
Definition accumulated (packed : bytes) (bits i acc available offset : Z) : Prop :=
  0 <= offset <= Zlen packed ∧ 0 <= available ∧ 8 * offset = bits * i + available ∧
  acc = join 8 (take (Z.to_nat offset) packed) / 2 ^ (bits * i).

Lemma refill_spec packed bits i acc available offset :
  bytes_ok packed → 0 < bits <= 8 → 0 <= i → bits * (i + 1) <= 8 * Zlen packed →
  accumulated packed bits i acc available offset →
  ∃ acc' available' offset', refill (Z.to_nat bits) packed bits acc available offset = Ok (acc', available', offset') ∧
    accumulated packed bits i acc' available' offset' ∧ bits <= available'.
Proof.
  intros Hp Hb Hi Hlen (Ho & Ha & Hoff & Hacc).
  assert (Hfuel : ∃ f, Z.to_nat bits = S f) by (exists (Nat.pred (Z.to_nat bits)); lia). destruct Hfuel as [f ->].
  cbn [refill]. destruct (available <? bits) eqn:E; breflect; [|by exists acc, available, offset].
  assert (Hlt : offset < Zlen packed) by nia.
  destruct (lookup_lt_is_Some_2 packed (Z.to_nat offset)) as [b Hlb]; [unfold Zlen in *; lia|]. rewrite Hlb.
  assert (Hend : ∀ fuel a, refill fuel packed bits a (available + 8) (offset + 1) = Ok (a, available + 8, offset + 1)).
  { intros fuel a. destruct fuel; cbn [refill]; by rewrite (proj2 (Z.ltb_ge _ _)) by lia. }
  rewrite Hend. eexists _, _, _. split; [done|]. split; [|lia]. split_and!; [lia|lia|lia|lia|].
  pose proof (join_lt 8 ltac:(lia) (take (Z.to_nat offset) packed) ltac:(by apply Forall_take)) as Hjl.
  pose proof (join_nonneg 8 ltac:(lia) (take (Z.to_nat offset) packed) ltac:(by apply Forall_take)) as Hj0.
  assert (Hz : Zlen (take (Z.to_nat offset) packed) = offset) by (unfold Zlen in *; rewrite length_take; lia).
  rewrite Hz, Hoff, Z.pow_add_r in Hjl by nia. pose proof (Z.pow_pos_nonneg 2 (bits * i) ltac:(lia) ltac:(nia)) as Hpow.
  rewrite lor_shiftl; [|lia|].
  - replace (Z.to_nat (offset + 1)) with (S (Z.to_nat offset)) by lia.
    rewrite (take_S_r _ _ _ Hlb), join_snoc by lia. rewrite Hz, Hoff, Z.pow_add_r, Hacc by nia.
    replace (2 ^ (bits * i) * 2 ^ available * b) with ((b * 2 ^ available) * 2 ^ (bits * i)) by lia.
    by rewrite Z.div_add by lia.
  - rewrite Hacc. split; [by apply Z.div_pos|]. apply Z.div_lt_upper_bound; lia.
Qed.

Lemma unpack_loop_spec packed bits n i acc available offset :
  bytes_ok packed → 0 < bits <= 8 → 0 <= i → bits * (i + Z.of_nat n) <= 8 * Zlen packed →
  accumulated packed bits i acc available offset →
  unpack_loop n packed bits acc available offset =
  Ok ((λ k : nat, digit bits (join 8 packed) (i + Z.of_nat k)) <$> seq 0 n).
Proof.
  intros Hp Hb. revert i acc available offset. induction n as [|n IH]; intros i acc available offset Hi Hlen Hacc; [done|].
  cbn [unpack_loop]. destruct (refill_spec packed bits i acc available offset Hp Hb Hi ltac:(nia) Hacc)
    as (a & v & o & -> & (Ho & Hv0 & Hoff & Ha) & Hv).
  pose proof (Z.pow_pos_nonneg 2 (bits * i) ltac:(lia) ltac:(nia)) as Hpow.
  pose proof (Z.pow_pos_nonneg 2 bits ltac:(lia) ltac:(lia)) as Hpow'.
  rewrite (IH (i + 1)); [|lia|lia|].
  - cbn [seq fmap list_fmap]. f_equal. f_equal.
    + rewrite mask_ones by lia. rewrite Z.add_0_r, <-(digit_of_mod bits ltac:(lia) (join 8 packed) i (8 * o)) by lia.
      unfold digit. rewrite Ha, join_take by first [lia | done | unfold Zlen in *; lia]. by rewrite Z2Nat.id by lia.
    + rewrite <-seq_shift, <-list_fmap_compose. apply list_fmap_ext. intros k x _. cbn. f_equal. lia.
  - split_and!; [lia|lia|lia|lia|]. rewrite Z.shiftr_div_pow2, Ha, Z.div_div, <-Z.pow_add_r by nia. do 2 f_equal. lia.
Qed.

(** Packing and unpacking codes of two, four or eight bits are inverse to each
    other.  [_pack] accepts exactly the codes in range and what it packs unpacks to
    them; a payload [_unpack] accepts is the packing of what it returns, and one it
    refuses is the packing of no codes of that number; the reader of the MX formats
    returns the same codes. *)
Theorem packing_round_trip bits n codes payload :
  bits ∈ [2; 4; 8] → bytes_ok payload → 0 <= n →
  match pack codes bits with
  | Ok p => unpack p bits (Zlen codes) = Ok codes
  | Raise e => e = ValueError "numeric code is out of range" ∧ ¬ Forall (λ c, 0 <= c < 2 ^ bits) codes
  end ∧
  match unpack payload bits n with
  | Ok l => Zlen l = n ∧ pack l bits = Ok payload ∧ unpack_lsb payload bits n = Ok l
  | Raise _ => ∀ l, Zlen l = n → pack l bits ≠ Ok payload
  end.
Proof.
  intros Hbits Hp Hn. assert (Hb : 0 < bits <= 8 ∧ (bits | 8)).
  { repeat apply elem_of_cons in Hbits as [->|Hbits]; [split; [lia|]..|by apply elem_of_nil in Hbits];
      [by exists 4|by exists 2|by exists 1]. }
  destruct Hb as [Hb Hd]. split.
  - pose proof (pack_spec bits Hb Hd codes) as Hs. destruct (pack codes bits) as [p|e] eqn:Hpk; [|by destruct Hs].
    by apply unpack_pack.
  - pose proof (unpack_spec bits Hb Hd payload n Hp Hn) as Hu.
    destruct (unpack payload bits n) as [l|e].
    + destruct Hu as (-> & Hlen & Hlt). pose proof (digits_digits_ok bits ltac:(lia) (join 8 payload) (Z.to_nat n)) as Hdig.
      assert (Hll : Zlen (digits bits (join 8 payload) (Z.to_nat n)) = n)
        by (unfold Zlen, digits; rewrite length_fmap, length_seq; lia).
      split_and!; [done| |].
      * pose proof (pack_spec bits Hb Hd (digits bits (join 8 payload) (Z.to_nat n))) as Hs.
        destruct (pack _ _) as [p|e]; [|by destruct Hs]. destruct Hs as (_ & Hok & Hlen' & Hj).
        rewrite Hll in Hlen'. f_equal. apply (join_inj 8); [lia|done|done|unfold Zlen in *; lia|].
        rewrite Hj. apply join_digits; [lia|]. split; [apply join_nonneg; [lia|done]|]. by rewrite Z2Nat.id by lia.
      * unfold unpack_lsb. assert (Hbits8 : n * bits + 7 < 8 * Zlen payload + 8).
        { rewrite Hlen. pose proof (Z.div_mod (n * bits + 7) 8). pose proof (Z.mod_pos_bound (n * bits + 7) 8). lia. }
        rewrite (unpack_loop_spec payload bits (Z.to_nat n) 0) by first [done | lia |
          split_and!; [lia|apply Zlen_nonneg|lia|lia|by rewrite Z.mul_0_r]].
        f_equal.
    + intros l Hl Hpk. pose proof (pack_spec bits Hb Hd l) as Hs. rewrite Hpk in Hs.
      destruct Hs as (Hdig & _ & Hlen & Hj). apply Hu. rewrite <-Hl. split; [done|]. rewrite Hj.
      by apply join_lt; [lia|].
Qed.

Lemma packing_round_trip_witness :
  pack [1; 15; 8] 4 = Ok [241; 8] ∧ unpack [241; 8] 4 3 = Ok [1; 15; 8] ∧ pack [1; 15; 8] 4 = Ok [241; 8].
Proof.
  destruct (packing_round_trip 4 3 [1; 15; 8] [241; 8]) as [H1 H2].
  - right. left.
  - repeat constructor; lia.
  - lia.
  - split; [vm_compute; reflexivity|]. split; [exact H1|]. exact (proj1 (proj2 H2)).
Defined.

End BitPacking.
