(* ===== verification/NumericCodecs.v ===== *)
(** * Reference codecs (numeric_codecs.py, numeric_mx.py)

    Eight-bit floats, the four-bit codebook, groupwise affine quantisation and the
    block-scaled MX formats, over the packing of [BitPacking], in the floating-point
    arithmetic of the code. *)

From Stdlib Require Import SpecFloat.
From S2P Require Import Prelude Types PyBytes PyFloat BitPacking.

Module NumericCodecs.
Import PyBytes PyFloat BitPacking.

Definition MAX_CODEC_ELEMENTS : Z := 65536.

(** ** Functions of the language *)

(** [min] and [max] keep the first of the smallest and largest. *)
Fixpoint min_from (cur : float) (l : list float) : float :=
  match l with [] => cur | x :: l' => min_from (if fltb x cur then x else cur) l' end.
Fixpoint max_from (cur : float) (l : list float) : float :=
  match l with [] => cur | x :: l' => max_from (if fltb cur x then x else cur) l' end.
(** [min(items, key=lambda item: (distance, ...))] over tuples of a float and integers. *)
Fixpoint lex_Z (a b : list Z) : bool :=
  match a, b with
  | x :: a', y :: b' => (x <? y) || ((x =? y) && lex_Z a' b')
  | _, _ => false
  end.
Definition key_less (a b : float * list Z) : bool :=
  if feqb a.1 b.1 then lex_Z a.2 b.2 else fltb a.1 b.1.
Fixpoint min_by {A} (key : A → float * list Z) (cur : A) (l : list A) : A :=
  match l with [] => cur | x :: l' => min_by key (if key_less (key x) (key cur) then x else cur) l' end.

(** [_validate_values]; the values are floats. *)
Definition validate_values (values : list float) : res exn () :=
  check ((1 <=? Zlen values) && (Zlen values <=? MAX_CODEC_ELEMENTS) && forallb is_finite values)
    (ValueError "invalid numeric codec values") ().

(** ** Eight-bit floats *)

(** [_fp8_parameters]: exponent bits, mantissa bits, bias, and whether there is one
    NaN and no infinity. *)
Definition fp8_parameters (variant : string) : res exn (Z * Z * Z * bool) :=
  if str_eqb variant "e4m3fn" then Ok (4, 3, 7, true)
  else if str_eqb variant "e5m2" then Ok (5, 2, 15, false)
  else Raise (ValueError "unsupported FP8 variant").

(** The body of the loop of [decode_fp8]. *)
Definition decode_code (p : Z * Z * Z * bool) (code : Z) : res exn float :=
  let '(exponent_bits, mantissa_bits, bias, finite_nan) := p in
  let exponent_mask := Z.shiftl 1 exponent_bits - 1 in
  let mantissa_mask := Z.shiftl 1 mantissa_bits - 1 in
  let sign := of_Z (if negb (Z.land code 128 =? 0) then -1 else 1) in
  let exponent := Z.land (Z.shiftr code mantissa_bits) exponent_mask in
  let mantissa := Z.land code mantissa_mask in
  let fraction := int_div mantissa (Z.shiftl 1 mantissa_bits) in
  if exponent =? 0 then Ok (fmul sign (ldexp fraction (1 - bias)))
  else if finite_nan && (exponent =? exponent_mask) && (mantissa =? mantissa_mask)
  then Raise (ValueError "FP8 payload contains NaN")
  else if negb finite_nan && (exponent =? exponent_mask)
  then Raise (ValueError "FP8 payload contains nonfinite value")
  else Ok (fmul sign (ldexp (fadd (of_Z 1) fraction) (exponent - bias))).

(** [decode_fp8] *)
Definition decode_fp8 (payload : bytes) (variant : string) : res exn (list float) :=
  if negb ((1 <=? Zlen payload) && (Zlen payload <=? MAX_CODEC_ELEMENTS))
  then Raise (ValueError "invalid FP8 payload")
  else match fp8_parameters variant with
       | Raise e => Raise e
       | Ok p => map_res (decode_code p) payload
       end.

(** The codebook of [encode_fp8]: the codes that decode, with their values. *)
Definition fp8_codebook (variant : string) : list (Z * float) :=
  omap (λ c : nat, match decode_fp8 [Z.of_nat c] variant with
                   | Ok [v] => Some (Z.of_nat c, v)
                   | _ => None
                   end) (seq 0 256).

(** The loop body of [encode_fp8]. *)
Definition encode_value (codebook : list (Z * float)) (maximum value : float) : res exn Z :=
  if fltb maximum (fabs value) then Raise (ValueError "FP8 value overflows finite range")
  else if feqb value zero then Ok (if sign_bit value then 128 else 0)
  else
    match filter (λ p, sign_bit p.2 = sign_bit value) codebook with
    | [] => Raise (ValueError "min() arg is an empty sequence")
    | p :: ps => Ok (min_by (λ q, (fabs (fsub q.2 value), [Z.land q.1 1; q.1])) p ps).1
    end.

(** [encode_fp8] *)
Definition encode_fp8 (values : list float) (variant : string) : res exn bytes :=
  match validate_values values with
  | Raise e => Raise e
  | Ok _ =>
      match fp8_codebook variant with
      | [] => Raise (ValueError "max() arg is an empty sequence")
      | p :: ps => map_res (encode_value (p :: ps) (max_from (fabs p.2) ((λ q, fabs q.2) <$> ps))) values
      end
  end.

(** ** The four-bit codebook *)

Definition NF4_CODEBOOK : list float :=
  [S754_finite true 4503599627370496 (-52); S754_finite true 6270747278311424 (-53);
   S754_finite true 4729437597728768 (-53); S754_finite true 7114201008963584 (-54);
   S754_finite true 5124040402403328 (-54); S754_finite true 6657164412190720 (-55);
   S754_finite true 6560846549352448 (-56); zero;
   S754_finite false 5734364918841344 (-56); S754_finite false 5798121560866816 (-55);
   S754_finite false 8867130170671104 (-55); S754_finite false 6087339826741248 (-54);
   S754_finite false 7939122492604416 (-54); S754_finite false 5067603458392064 (-53);
   S754_finite false 6511816276443136 (-53); S754_finite false 4503599627370496 (-52)].
Definition nf4_value (code : Z) : float := default S754_nan (NF4_CODEBOOK !! Z.to_nat code).
Definition nf4_code (value : float) : Z :=
  min_by (λ c, (fabs (fsub (nf4_value c) value), [c])) 0 (Z.of_nat <$> seq 1 15).

(** [encode_nf4] *)
Definition encode_nf4 (values : list float) : res exn bytes :=
  match validate_values values with
  | Raise e => Raise e
  | Ok _ => pack (nf4_code <$> values) 4
  end.
(** [decode_nf4] *)
Definition decode_nf4 (payload : bytes) (elements : Z) : res exn (list float) :=
  if negb ((1 <=? elements) && (elements <=? MAX_CODEC_ELEMENTS))
  then Raise (ValueError "invalid NF4 element count")
  else match unpack payload 4 elements with
       | Ok l => Ok (nf4_value <$> l)
       | Raise e => Raise e
       end.

(** ** Groupwise affine quantisation *)

Record GroupwiseAffineTensor := mkAffine {
  payload : bytes;
  bits : Z;
  signed : bool;
  group_size : Z;
  elements : Z;
  scales : list float;
  zero_points : list Z;
}.

(** [GroupwiseAffineTensor.values] *)
Definition affine_values (t : GroupwiseAffineTensor) : res exn (list float) :=
  match unpack (payload t) (bits t) (elements t) with
  | Raise e => Raise e
  | Ok codes =>
      map_res (λ '(index, code),
        match zero_points t !! Z.to_nat (index / group_size t), scales t !! Z.to_nat (index / group_size t) with
        | Some z, Some s => Ok (fmul (of_Z (code - z)) s)
        | _, _ => Raise (IndexError "tuple index out of range")
        end) (zip (Z.of_nat <$> seq 0 (length codes)) codes)
  end.

Definition clamp (lo hi n : Z) : Z := Z.max lo (Z.min hi n).

(** The scale, zero point and codes of one group. *)
Definition quantize_group (qmin qmax : Z) (group : list float) : res exn (float * Z * list Z) :=
  match group with
  | [] => Raise (ValueError "min() arg is an empty sequence")
  | x :: xs =>
      let lower := min_from x xs in
      let upper := max_from x xs in
      let scale := if negb (feqb upper lower) then fdiv (fsub upper lower) (of_Z (qmax - qmin)) else of_Z 1 in
      match float_div lower scale with
      | Raise e => Raise e
      | Ok d =>
          match py_round (fsub (of_Z qmin) d) with
          | Raise e => Raise e
          | Ok z =>
              let zero_point := clamp qmin qmax z in
              match map_res (λ v, match float_div v scale with
                                  | Raise e => Raise e
                                  | Ok d => match py_round d with
                                            | Raise e => Raise e
                                            | Ok n => Ok (clamp qmin qmax (n + zero_point) - qmin)
                                            end
                                  end) group with
              | Raise e => Raise e
              | Ok codes => Ok (scale, zero_point - qmin, codes)
              end
          end
      end
  end.

(** The groups of the loop of [quantize_groupwise_affine]. *)
Fixpoint chunks (fuel : nat) (size : Z) (l : list float) : list (list float) :=
  match l, fuel with
  | [], _ | _, O => []
  | _, S fuel' => take (Z.to_nat size) l :: chunks fuel' size (drop (Z.to_nat size) l)
  end.

(** [quantize_groupwise_affine] *)
Definition quantize_groupwise_affine (values : list float) (bits : Z) (signed : bool) (group_size : Z)
    : res exn GroupwiseAffineTensor :=
  match validate_values values with
  | Raise e => Raise e
  | Ok _ =>
      if negb (bool_decide (bits ∈ [2; 4; 8])) || negb ((1 <=? group_size) && (group_size <=? Zlen values))
      then Raise (ValueError "invalid groupwise affine configuration")
      else
        let '(qmin, qmax) := if signed then (- Z.shiftl 1 (bits - 1), Z.shiftl 1 (bits - 1) - 1)
                             else (0, Z.shiftl 1 bits - 1) in
        match map_res (quantize_group qmin qmax) (chunks (length values) group_size values) with
        | Raise e => Raise e
        | Ok groups =>
            match pack (groups ≫= snd) bits with
            | Raise e => Raise e
            | Ok p => Ok (mkAffine p bits signed group_size (Zlen values)
                            ((λ g, g.1.1) <$> groups) ((λ g, g.1.2) <$> groups))
            end
        end
  end.

(** ** The MX formats *)

Definition MX_BLOCK_SIZE : Z := 32.
Definition MAX_REFERENCE_ELEMENTS : Z := 65536.
Inductive MXElementFormat := FP4_E2M1 | FP6_E2M3 | FP6_E3M2 | FP8_E4M3 | FP8_E5M2.
#[export] Instance MXElementFormat_eq_dec : EqDecision MXElementFormat.
Proof. solve_decision. Defined.
(** [_FIELDS]: bits, exponent bits, mantissa bits, bias. *)
Definition mx_fields (f : MXElementFormat) : Z * Z * Z * Z :=
  match f with
  | FP4_E2M1 => (4, 2, 1, 1) | FP6_E2M3 => (6, 2, 3, 1) | FP6_E3M2 => (6, 3, 2, 3)
  | FP8_E4M3 => (8, 4, 3, 7) | FP8_E5M2 => (8, 5, 2, 15)
  end.
Definition element_bits (f : MXElementFormat) : Z := (mx_fields f).1.1.1.

Record MXFormatAdapter := mkMX { element_format : MXElementFormat; mx_elements : Z }.
(** [MXFormatAdapter.__post_init__]; the other fields have one admitted value. *)
Definition mx_check (a : MXFormatAdapter) : res exn () :=
  check ((1 <=? mx_elements a) && (mx_elements a <=? MAX_REFERENCE_ELEMENTS))
    (ValueError "unsupported MX format adapter") ().
Definition packed_bytes (a : MXFormatAdapter) : Z := (mx_elements a * element_bits (element_format a) + 7) / 8.
Definition scale_count (a : MXFormatAdapter) : Z := (mx_elements a + MX_BLOCK_SIZE - 1) / MX_BLOCK_SIZE.

(** [_decode_e8m0] *)
Definition decode_e8m0 (code : Z) : res exn float :=
  if code =? 255 then Raise (ValueError "MX E8M0 NaN scale is not executable")
  else Ok (ldexp (of_Z 1) (code - 127)).

(** [_decode_element] *)
Definition decode_element (f : MXElementFormat) (code : Z) : res exn float :=
  let '(bits, exponent_bits, mantissa_bits, bias) := mx_fields f in
  let negative := negb (Z.shiftr code (bits - 1) =? 0) in
  let mantissa_mask := Z.shiftl 1 mantissa_bits - 1 in
  let mantissa := Z.land code mantissa_mask in
  let exponent := Z.land (Z.shiftr code mantissa_bits) (Z.shiftl 1 exponent_bits - 1) in
  let maximum_exponent := Z.shiftl 1 exponent_bits - 1 in
  if bool_decide (f = FP8_E5M2) && (exponent =? maximum_exponent)
  then Raise (ValueError "MX FP8 E5M2 Inf/NaN element is not executable")
  else if bool_decide (f = FP8_E4M3) && (exponent =? maximum_exponent) && (mantissa =? mantissa_mask)
  then Raise (ValueError "MX FP8 E4M3 NaN element is not executable")
  else
    let fraction := int_div mantissa (Z.shiftl 1 mantissa_bits) in
    let magnitude := if exponent =? 0 then ldexp fraction (1 - bias)
                     else ldexp (fadd (of_Z 1) fraction) (exponent - bias) in
    Ok (if negative then fneg (fabs magnitude) else fabs magnitude).

(** [3.4028234663852886e38] *)
Definition F32_MAX : float := S754_finite false 9007198717870080 75.

(** [decode_mx] *)
Definition decode_mx (a : MXFormatAdapter) (packed scales : bytes) : res exn (list float) :=
  let b := element_bits (element_format a) in
  if negb (Zlen packed =? packed_bytes a) then Raise (ValueError "MX packed payload size mismatch")
  else if negb (Zlen scales =? scale_count a) then Raise (ValueError "MX scale count mismatch")
  else
    let unused_bits := Zlen packed * 8 - mx_elements a * b in
    if negb (unused_bits =? 0) && negb (Z.shiftr (default 0 (last packed)) (8 - unused_bits) =? 0)
    then Raise (ValueError "MX unused packing bits must be zero")
    else
      match map_res decode_e8m0 scales with
      | Raise e => Raise e
      | Ok decoded =>
          match unpack_lsb packed b (mx_elements a) with
          | Raise e => Raise e
          | Ok codes =>
              map_res (λ '(index, code),
                match decode_element (element_format a) code with
                | Raise e => Raise e
                | Ok value =>
                    match decoded !! Z.to_nat (index / MX_BLOCK_SIZE) with
                    | None => Raise (IndexError "tuple index out of range")
                    | Some scale =>
                        let scaled := fmul value scale in
                        if negb (is_finite scaled) || fltb F32_MAX (fabs scaled)
                        then Raise (ValueError "MX decoded value exceeds finite F32 range")
                        else Ok scaled
                    end
                end) (zip (Z.of_nat <$> seq 0 (length codes)) codes)
          end
      end.

(** ** Lemmas *)

(** [min_by] returns an element whose key no other is below. *)
Lemma fltb_nonnan a b : fltb a b = true → is_nan a = false ∧ is_nan b = false.
Proof. by destruct a, b. Qed.

(** On keys without nan the order of tuples is the lexicographic one, so [min]
    returns an element whose key no other is below. *)
Section minimum.
Context {A} (k : A → float * list Z) (P : A → Prop).
Hypothesis k_not_nan : ∀ x, P x → is_nan (k x).1 = false.

Lemma key_less_iff x y :
  P x → P y → key_less (k x) (k y) = true ↔
    lex_lt (key (k x).1) (key (k y).1) ∨ key (k x).1 = key (k y).1 ∧ lex_Z (k x).2 (k y).2 = true.
Proof.
  intros Hx%k_not_nan Hy%k_not_nan. unfold key_less. destruct (feqb _ _) eqn:E.
  - apply feqb_key in E; [|done..]. rewrite E. split; [by right|]. intros [H|[_ H]]; [|done].
    destruct (key (k y).1) as [[? ?] ?]. cbn in H. lia.
  - apply not_true_iff_false in E. rewrite feqb_key in E by done. rewrite fltb_key by done.
    split; [by left|]. by intros [H|[H _]].
Qed.
Lemma lex_lt_irrefl a : ¬ lex_lt a a.
Proof. destruct a as [[? ?] ?]. cbn. lia. Qed.
(** The first component of the key of the minimum is least. *)
Lemma min_by_spec cur l :
  Forall P (cur :: l) →
  min_by k cur l ∈ cur :: l ∧ ∀ x, x ∈ cur :: l → fltb (k x).1 (k (min_by k cur l)).1 = false.
Proof.
  revert cur. induction l as [|y l IH]; intros cur Hall; cbn [min_by].
  - split; [left|]. intros x ->%list_elem_of_singleton. apply fltb_irrefl.
  - apply Forall_cons in Hall as [Hcur Hall]. pose proof Hall as [Hy Hl]%Forall_cons.
    set (best := if key_less (k y) (k cur) then y else cur).
    assert (Hbest : P best ∧ fltb (k cur).1 (k best).1 = false ∧ fltb (k y).1 (k best).1 = false).
    { unfold best. pose proof (k_not_nan _ Hcur) as Hnc. pose proof (k_not_nan _ Hy) as Hny.
      destruct (key_less (k y) (k cur)) eqn:E; (split_and!; [done|..]); try apply fltb_irrefl.
      - apply key_less_iff in E; [|done..]. apply not_true_iff_false. rewrite fltb_key by done. intros H.
        destruct E as [E|[E _]]; [|rewrite E in H; by apply lex_lt_irrefl in H].
        by apply (lex_lt_irrefl (key (k cur).1)), (lex_trans _ _ _ H).
      - apply not_true_iff_false in E. apply not_true_iff_false. rewrite fltb_key by done. intros H.
        apply E, key_less_iff; [done..|by left]. }
    destruct Hbest as (Hb & Hbc & Hby). destruct (IH best ltac:(by constructor)) as [Hin Hmin]. fold best.
    assert (Hr : P (min_by k best l)).
    { apply elem_of_cons in Hin as [->|Hin]; [done|]. rewrite Forall_forall in Hl. by apply Hl. }
    split.
    + apply elem_of_cons in Hin as [->|Hin]; [unfold best; destruct (key_less _ _); set_solver|set_solver].
    + pose proof (Hmin best ltac:(left)) as Hbr.
      intros x [->|[->|Hx]%elem_of_cons]%elem_of_cons; [| |apply Hmin; by right];
        eapply (fltb_total _ (k best).1); try done; by apply k_not_nan.
Qed.
End minimum.

Definition finite_codes (variant : string) : list Z := (fp8_codebook variant).*1.
Definition round_trips (variant : string) : bool :=
  match encode_fp8 ((fp8_codebook variant).*2) variant with
  | Ok l => bool_decide (l = finite_codes variant)
  | Raise _ => false
  end.
Lemma fp8_codebooks_round_trip : round_trips "e4m3fn" = true ∧ round_trips "e5m2" = true.
Proof. split; vm_compute; reflexivity. Qed.

(** *** Eight-bit floats *)

Definition largest_of (variant : string) : float := of_Z (if str_eqb variant "e4m3fn" then 448 else 57344).
Definition codebook_maximum (cb : list (Z * float)) : float :=
  match cb with p :: ps => max_from (fabs p.2) ((λ q, fabs q.2) <$> ps) | [] => zero end.
#[export] Instance float_eq_decision : EqDecision float.
Proof. solve_decision. Defined.
(** What the computation of a codebook shows. *)
Definition codebook_facts (variant : string) : bool :=
  forallb (λ p, is_finite p.2) (fp8_codebook variant)
  && bool_decide ((0, S754_zero false) ∈ fp8_codebook variant)
  && bool_decide ((128, S754_zero true) ∈ fp8_codebook variant)
  && bool_decide (codebook_maximum (fp8_codebook variant) = largest_of variant).
Lemma codebook_facts_spec variant :
  codebook_facts variant = true →
  (∀ p, p ∈ fp8_codebook variant → is_finite p.2 = true) ∧ (0, S754_zero false) ∈ fp8_codebook variant ∧
  (128, S754_zero true) ∈ fp8_codebook variant ∧ codebook_maximum (fp8_codebook variant) = largest_of variant.
Proof.
  unfold codebook_facts.
  intros [[[Hf Hz1]%andb_prop Hz2]%andb_prop Hm]%andb_prop. apply bool_decide_eq_true in Hz1, Hz2, Hm.
  rewrite forallb_forall in Hf. split_and!; [|exact Hz1|exact Hz2|exact Hm].
  intros p Hp. by apply Hf, list_elem_of_In.
Qed.
Lemma round_trips_spec variant :
  round_trips variant = true → encode_fp8 ((fp8_codebook variant).*2) variant = Ok ((fp8_codebook variant).*1).
Proof.
  unfold round_trips, finite_codes. destruct (encode_fp8 _ _); [|discriminate].
  intros ->%bool_decide_eq_true. reflexivity.
Qed.

Definition fp8_variants : list string := ["e4m3fn"; "e5m2"].
Lemma codebook_computed variant :
  variant ∈ fp8_variants → codebook_facts variant = true ∧ round_trips variant = true ∧ is_ok (fp8_parameters variant) = true.
Proof.
  intros [->|[->|Hv%elem_of_nil]%elem_of_cons]%elem_of_cons; [| |destruct Hv].
  - split; [vm_compute; reflexivity|]. split; [exact (proj1 fp8_codebooks_round_trip)|reflexivity].
  - split; [vm_compute; reflexivity|]. split; [exact (proj2 fp8_codebooks_round_trip)|reflexivity].
Qed.

Lemma elem_of_codebook variant c v :
  (c, v) ∈ fp8_codebook variant ↔ 0 <= c < 256 ∧ decode_fp8 [c] variant = Ok [v].
Proof.
  unfold fp8_codebook. rewrite list_elem_of_omap. split.
  - intros (k & Hk & Hd). apply elem_of_seq in Hk. revert Hd. case_match eqn:E; [|done].
    destruct a as [|x [|]]; try done. intros [= <- <-]. split; [lia|done].
  - intros [Hc Hd]. exists (Z.to_nat c). rewrite elem_of_seq. split; [lia|]. by rewrite Z2Nat.id, Hd by lia.
Qed.

Lemma decode_one variant p c : fp8_parameters variant = Ok p → decode_fp8 [c] variant = map_res (decode_code p) [c].
Proof. intros Hp. unfold decode_fp8. by rewrite Hp. Qed.

#[local] Opaque fp8_codebook round_trips codebook_facts.

(** The nearest value of the codebook with the sign of the value encoded. *)
Definition nearest (variant : string) (v : float) (c : Z) : Prop :=
  ∃ d, (c, d) ∈ fp8_codebook variant ∧ sign_bit d = sign_bit v ∧
    ∀ c' d', (c', d') ∈ fp8_codebook variant → sign_bit d' = sign_bit v →
      fltb (fabs (fsub d' v)) (fabs (fsub d v)) = false.

Lemma fabs_not_nan f : is_nan (fabs f) = is_nan f.
Proof. by destruct f. Qed.
Lemma fabs_nonneg f : fltb (fabs f) zero = false.
Proof. by destruct f. Qed.

Lemma encode_value_spec variant v :
  variant ∈ fp8_variants → is_finite v = true →
  match encode_value (fp8_codebook variant) (largest_of variant) v with
  | Ok c => nearest variant v c
  | Raise _ => fltb (largest_of variant) (fabs v) = true
  end.
Proof.
  intros Hv Hfin. destruct (codebook_computed variant Hv) as (Hf & _ & _).
  apply codebook_facts_spec in Hf as (Hf & Hz1 & Hz2 & _).
  unfold encode_value. destruct (fltb _ _) eqn:Em; [done|]. destruct (feqb v zero) eqn:Ez.
  - assert (Hvz : ∃ s, v = S754_zero s) by (destruct v as [s|s| |s m e]; [by exists s|done|done|by destruct s]).
    destruct Hvz as [s ->]. exists (S754_zero s). cbn [sign_bit]. destruct s.
    all: split_and!; [done|done|]; intros c' d' _ _; apply fabs_nonneg.
  - set (P := λ q : Z * float, is_finite q.2 = true).
    assert (Hall : Forall P (filter (λ p, sign_bit p.2 = sign_bit v) (fp8_codebook variant))).
    { apply Forall_forall. intros q [_ Hq]%list_elem_of_filter. by apply Hf. }
    assert (Hne : filter (λ p, sign_bit p.2 = sign_bit v) (fp8_codebook variant) ≠ []).
    { intros E. assert (Hin : (if sign_bit v then (128, S754_zero true) else (0, S754_zero false)) ∈
        filter (λ p, sign_bit p.2 = sign_bit v) (fp8_codebook variant))
        by (apply list_elem_of_filter; by destruct (sign_bit v)).
      rewrite E in Hin. by apply elem_of_nil in Hin. }
    destruct (filter _ _) as [|p ps] eqn:E; [done|].
    pose proof (min_by_spec (λ q : Z * float, (fabs (fsub q.2 v), [Z.land q.1 1; q.1])) P) as Hmin.
    specialize (Hmin ltac:(intros q Hq; cbn; rewrite fabs_not_nan; by apply fsub_not_nan) p ps Hall).
    set (r := min_by _ p ps) in *. destruct Hmin as [Hin Hmin]. rewrite <-E in Hin, Hmin. exists r.2.
    apply list_elem_of_filter in Hin as [Hs Hin]. split_and!; [by destruct r|done|].
    intros c' d' Hcd Hsd. apply (Hmin (c', d')). by apply list_elem_of_filter.
Qed.

Lemma encode_unfold variant values :
  variant ∈ fp8_variants → validate_values values = Ok () →
  encode_fp8 values variant = map_res (encode_value (fp8_codebook variant) (largest_of variant)) values.
Proof.
  intros Hv Hok. destruct (codebook_computed variant Hv) as (Hf & _ & _).
  apply codebook_facts_spec in Hf as (_ & Hz & _ & Hm). unfold encode_fp8. rewrite Hok.
  destruct (fp8_codebook variant) as [|p ps]; [by apply elem_of_nil in Hz|].
  unfold codebook_maximum in Hm. by rewrite Hm.
Qed.

(** A value of the codebook is encoded as its code. *)
Lemma encode_codebook variant c v :
  variant ∈ fp8_variants → (c, v) ∈ fp8_codebook variant →
  encode_value (fp8_codebook variant) (largest_of variant) v = Ok c.
Proof.
  intros Hv Hin. destruct (codebook_computed variant Hv) as (_ & Hr & _). apply round_trips_spec in Hr.
  assert (Hval : validate_values ((fp8_codebook variant).*2) = Ok ()).
  { unfold encode_fp8 in Hr. destruct (validate_values _) as [[]|]; [done|discriminate]. }
  rewrite encode_unfold in Hr by done. apply map_res_Ok in Hr. apply list_elem_of_lookup in Hin as [i Hi].
  assert (H1 : (fp8_codebook variant).*1 !! i = Some c) by (by rewrite list_lookup_fmap, Hi).
  assert (H2 : (fp8_codebook variant).*2 !! i = Some v) by (by rewrite list_lookup_fmap, Hi).
  exact (Forall2_lookup_lr _ _ _ _ _ _ Hr H2 H1).
Qed.

(** C35: the eight-bit codecs round to nearest and are inverse on what they can
    represent.  [encode_fp8] fails only for invalid values or one beyond the largest
    finite value of the format, 448 or 57344, and otherwise gives each value the code
    of a nearest value of its sign; [decode_fp8] of bytes either raises or gives
    values which [encode_fp8] turns back into the same bytes. *)
Theorem fp8_codec_correct variant values payload :
  variant ∈ fp8_variants → bytes_ok payload →
  match encode_fp8 values variant with
  | Ok codes => Forall2 (nearest variant) values codes
  | Raise _ => validate_values values ≠ Ok () ∨
      ∃ v, v ∈ values ∧ fltb (largest_of variant) (fabs v) = true
  end ∧
  match decode_fp8 payload variant with
  | Ok l => length l = length payload ∧ encode_fp8 l variant = Ok payload
  | Raise _ => payload = [] ∨ MAX_CODEC_ELEMENTS < Zlen payload ∨
      ∃ c, c ∈ payload ∧ ∀ v, (c, v) ∉ fp8_codebook variant
  end.
Proof.
  intros Hv Hb. destruct (codebook_computed variant Hv) as (Hf & _ & Hp).
  apply codebook_facts_spec in Hf as (Hf & _). split.
  - destruct (validate_values values) as [[]|e] eqn:Ev; [|unfold encode_fp8; rewrite Ev; by left].
    rewrite encode_unfold by done. unfold validate_values, check in Ev. destruct (_ && _) eqn:E; [|done].
    apply andb_prop in E as [_ Hfin]. rewrite forallb_forall in Hfin.
    assert (Hin : ∀ v, v ∈ values → is_finite v = true) by (intros v ?; by apply Hfin, list_elem_of_In).
    destruct (map_res _ values) as [codes|e] eqn:Em.
    + eapply map_res_impl; [exact Em|]. intros v c Hv' He.
      pose proof (encode_value_spec variant v Hv (Hin v Hv')) as Hs. by rewrite He in Hs.
    + apply map_res_Raise in Em as (v & Hv' & He). right. exists v. split; [done|].
      pose proof (encode_value_spec variant v Hv (Hin v Hv')) as Hs. by rewrite He in Hs.
  - destruct (fp8_parameters variant) as [p|] eqn:Ep; [|done]. unfold decode_fp8. rewrite Ep.
    destruct (negb _) eqn:El.
    { apply negb_true_iff, andb_false_iff in El as [El|El]; breflect; [left|right; left; lia].
      destruct payload; [done|]. unfold Zlen in El. cbn in El. lia. }
    assert (Hone : ∀ c v, c ∈ payload → decode_code p c = Ok v → (c, v) ∈ fp8_codebook variant).
    { intros c v Hc Hd. apply elem_of_codebook. unfold bytes_ok in Hb. rewrite Forall_forall in Hb.
      split; [by apply Hb|]. rewrite (decode_one _ _ _ Ep). cbn. by rewrite Hd. }
    destruct (map_res (decode_code p) payload) as [l|e] eqn:Em.
    + assert (Hl : length l = length payload) by (apply map_res_Ok, Forall2_length in Em; done). split; [done|].
      rewrite encode_unfold; [|done|].
      * apply map_res_Ok, Forall2_flip. eapply map_res_impl; [exact Em|]. intros c v Hc Hd.
        by apply encode_codebook, Hone.
      * unfold validate_values, check. unfold Zlen in *. rewrite Hl.
        apply negb_false_iff, andb_prop in El as [-> ->]. cbn [andb].
        rewrite (proj2 (forallb_forall _ _)); [done|]. intros v Hv'%list_elem_of_In.
        apply list_elem_of_lookup in Hv' as [i Hi]. apply map_res_Ok in Em.
        destruct (Forall2_lookup_r _ _ _ _ _ Em Hi) as (c & Hc & Hd). apply (Hf (c, v)).
        apply Hone; [by eapply list_elem_of_lookup_2|done].
    + apply map_res_Raise in Em as (c & Hc & Hd). right. right. exists c. split; [done|].
      intros v [_ Hcv]%elem_of_codebook. rewrite (decode_one _ _ _ Ep) in Hcv. cbn in Hcv. by rewrite Hd in Hcv.
Qed.

(** *** The MX formats *)

Lemma element_bits_range f : 4 <= element_bits f <= 8.
Proof. destruct f; cbn; lia. Qed.

Lemma indexed_lookup {A} (l : list A) i p :
  zip (Z.of_nat <$> seq 0 (length l)) l !! i = Some p → p.1 = Z.of_nat i ∧ l !! i = Some p.2.
Proof.
  intros Hp. rewrite lookup_zip_with in Hp. apply bind_Some in Hp as (x & Hx & (y & Hy & [= <-])%bind_Some).
  rewrite list_lookup_fmap in Hx. apply fmap_Some in Hx as (k & Hk & ->). apply lookup_seq in Hk as [-> _]. done.
Qed.
Lemma length_indexed {A} (l : list A) : length (zip (Z.of_nat <$> seq 0 (length l)) l) = length l.
Proof. rewrite length_zip_with, length_fmap, length_seq. lia. Qed.

(** C36: decoding an MX tensor is total up to its checks and stays within 32-bit
    floats.  [decode_mx] raises nothing but a [ValueError]; otherwise it returns one
    finite value per element, at most the largest 32-bit float in magnitude: the
    value of the element's code, read from its bits of the packed bytes, times the
    power of two of its block. *)
Theorem mx_decode_correct a packed scales :
  mx_check a = Ok () → bytes_ok packed →
  match decode_mx a packed scales with
  | Raise e => ∃ m, e = ValueError m
  | Ok l => Zlen l = mx_elements a ∧ ∀ i v, l !! i = Some v →
      is_finite v = true ∧ fltb F32_MAX (fabs v) = false ∧
      ∃ x c s, decode_element (element_format a)
                 (digit (element_bits (element_format a)) (join 8 packed) (Z.of_nat i)) = Ok x ∧
        scales !! Z.to_nat (Z.of_nat i / MX_BLOCK_SIZE) = Some c ∧ decode_e8m0 c = Ok s ∧ v = fmul x s
  end.
Proof.
  intros Ha Hp. unfold mx_check, check in Ha. destruct (_ && _) eqn:E; [|done]. breflect. clear Ha.
  unfold decode_mx. pose proof (element_bits_range (element_format a)) as Hbits.
  set (b := element_bits (element_format a)) in *. set (n := mx_elements a) in *.
  destruct (negb (_ =? packed_bytes a)) eqn:E1; [by eexists|].
  destruct (negb (_ =? scale_count a)) eqn:E2; [by eexists|]. breflect. cbn zeta.
  destruct (_ && _); [by eexists|].
  assert (Hlen : b * n <= 8 * Zlen packed).
  { unfold packed_bytes in E1. fold n b in E1. rewrite E1. pose proof (Z.div_mod (n * b + 7) 8).
    pose proof (Z.mod_pos_bound (n * b + 7) 8). lia. }
  destruct (map_res decode_e8m0 scales) as [decoded|e] eqn:Ed.
  2: { apply map_res_Raise in Ed as (c & _ & Hc). unfold decode_e8m0 in Hc. case_match; [injection Hc as <-; by eexists|done]. }
  apply map_res_Ok in Ed. unfold unpack_lsb.
  rewrite (unpack_loop_spec packed b (Z.to_nat n) 0) by first [done | lia |
    split_and!; [lia|apply Zlen_nonneg|lia|lia|by rewrite Z.mul_0_r]].
  set (codes := (λ k : nat, digit b (join 8 packed) (0 + Z.of_nat k)) <$> seq 0 (Z.to_nat n)).
  assert (Hcodes : length codes = Z.to_nat n) by (unfold codes; by rewrite length_fmap, length_seq).
  assert (Hscale : ∀ i : nat, (i < Z.to_nat n)%nat → ∃ c s, scales !! Z.to_nat (Z.of_nat i / MX_BLOCK_SIZE) = Some c ∧
    decode_e8m0 c = Ok s ∧ decoded !! Z.to_nat (Z.of_nat i / MX_BLOCK_SIZE) = Some s).
  { intros i Hi. destruct (lookup_lt_is_Some_2 scales (Z.to_nat (Z.of_nat i / MX_BLOCK_SIZE))) as [c Hc].
    - unfold scale_count, MX_BLOCK_SIZE, Zlen in *. fold n in E2.
      assert (Z.of_nat i / 32 < (n + 32 - 1) / 32); [|pose proof (Z.div_pos (Z.of_nat i) 32); lia].
      apply Z.lt_le_trans with (Z.of_nat i / 32 + 1); [lia|]. rewrite <-Z.div_add by lia. apply Z.div_le_mono; lia.
    - destruct (Forall2_lookup_l _ _ _ _ _ Ed Hc) as (s & Hs & Hd). by exists c, s. }
  match goal with |- match map_res ?f ?l with _ => _ end => destruct (map_res f l) as [l'|e] eqn:Em end.
  - apply map_res_Ok in Em. pose proof (Forall2_length _ _ _ Em) as Hl. rewrite length_indexed, Hcodes in Hl.
    split; [unfold Zlen; lia|]. intros i v Hv. pose proof (lookup_lt_Some _ _ _ Hv) as Hi.
    destruct (Forall2_lookup_r _ _ _ _ _ Em Hv) as ([k code] & Hk & Hcode).
    apply indexed_lookup in Hk as [Hk Hc]. cbn in Hk, Hc. subst k. unfold codes in Hc.
    rewrite list_lookup_fmap, lookup_seq_lt in Hc by lia. injection Hc as <-. rewrite Z.add_0_l in *.
    destruct (Hscale i ltac:(lia)) as (c & s & Hc & Hd & Hds). rewrite Hds in Hcode. cbn [Nat.add] in *.
    destruct (decode_element _ _) as [x|] eqn:Ex; [|done]. destruct (_ || _) eqn:Ef; [done|]. injection Hcode as <-.
    apply orb_false_elim in Ef as [Ef1 Ef2]. breflect. split_and!; [done|done|]. by exists x, c, s.
  - apply map_res_Raise in Em as ([k code] & Hin & He). apply list_elem_of_lookup in Hin as [i Hi].
    pose proof (lookup_lt_Some _ _ _ Hi) as Hil. rewrite length_indexed, Hcodes in Hil.
    apply indexed_lookup in Hi as [Hk Hc]. cbn in Hk, Hc. subst k.
    destruct (Hscale i Hil) as (c & s & _ & _ & Hds). rewrite Hds in He.
    destruct (decode_element _ _) as [x|e'] eqn:Ex; [case_match; [injection He as <-; by eexists|done]|].
    injection He as <-. unfold decode_element in Ex. destruct (mx_fields _) as [[[? ?] ?] ?].
    repeat case_match; simplify_eq; by eexists.
Qed.

(** *** Affine quantisation *)

Lemma chunks_spec fuel size l :
  0 < size → (length l <= fuel)%nat →
  chunks fuel size l ≫= id = l ∧ Zlen (chunks fuel size l) = (Zlen l + size - 1) / size ∧
  Forall (λ g, g ≠ []) (chunks fuel size l).
Proof.
  intros Hs. revert l. induction fuel as [|fuel IH]; intros [|x l] Hf; cbn [chunks length] in *; try lia.
  1, 2: split_and!; [done| |constructor]; unfold Zlen; cbn; symmetry; apply Z.div_small; lia.
  destruct (IH (drop (Z.to_nat size) (x :: l))) as (H1 & H2 & H3); [rewrite length_drop; cbn [length]; lia|].
  split_and!.
  - change ((?a :: ?b) ≫= id) with (a ++ (b ≫= id)). rewrite H1. apply take_drop.
  - assert (Hc : ∀ (a : list float) b, Zlen (a :: b) = 1 + Zlen b) by (intros; unfold Zlen; cbn; lia).
    unfold Zlen in *. cbn [length] in *. rewrite Nat2Z.inj_succ, H2, length_drop. cbn [length].
    destruct (decide (size <= Z.of_nat (S (length l)))) as [Hle|Hgt].
    + replace (Z.of_nat (S (length l)) + size - 1) with ((Z.of_nat (S (length l) - Z.to_nat size) + size - 1) + 1 * size) by lia.
      rewrite Z.div_add by lia. lia.
    + replace (S (length l) - Z.to_nat size)%nat with 0%nat by lia.
      rewrite (Z.div_small (Z.of_nat 0 + size - 1)) by lia. apply (Z.div_unique_pos _ _ _ (Z.of_nat (length l))); lia.
  - constructor; [|done]. destruct (Z.to_nat size) eqn:E; [lia|done].
Qed.

Lemma clamp_range lo hi n : lo <= hi → lo <= clamp lo hi n <= hi.
Proof. unfold clamp. lia. Qed.

Lemma quantize_group_spec qmin qmax g s z codes :
  qmin <= qmax → quantize_group qmin qmax g = Ok (s, z, codes) →
  0 <= z <= qmax - qmin ∧ length codes = length g ∧ Forall (λ c, 0 <= c <= qmax - qmin) codes.
Proof.
  intros Hq. unfold quantize_group. destruct g as [|x xs]; [done|]. destruct (float_div _ _) as [d|]; [|done].
  destruct (py_round _) as [z0|]; [|done].
  match goal with |- context [map_res ?f ?l] => destruct (map_res f l) as [cs|] eqn:Em end; [|done].
  intros [= <- <- <-]. pose proof (clamp_range qmin qmax z0 Hq). split; [lia|]. apply map_res_Ok in Em.
  split; [symmetry; by eapply Forall2_length|]. apply Forall_forall. intros c Hc. apply list_elem_of_lookup in Hc as [i Hi].
  destruct (Forall2_lookup_r _ _ _ _ _ Em Hi) as (v & _ & Hv).
  destruct (float_div v _) as [dv|]; [|done]. destruct (py_round dv) as [n|]; [|done]. injection Hv as <-.
  pose proof (clamp_range qmin qmax (n + clamp qmin qmax z0) Hq). lia.
Qed.

(** The limits of the codes: [2 ^ bits] of them. *)
Lemma code_limits bits (signed : bool) qmin qmax :
  1 <= bits →
  (if signed then (- Z.shiftl 1 (bits - 1), Z.shiftl 1 (bits - 1) - 1) else (0, Z.shiftl 1 bits - 1)) = (qmin, qmax) →
  qmax - qmin = 2 ^ bits - 1 ∧ qmin <= qmax.
Proof.
  intros Hb. rewrite !Z.shiftl_1_l. pose proof (Z.pow_pos_nonneg 2 (bits - 1) ltac:(lia) ltac:(lia)).
  assert (2 ^ bits = 2 * 2 ^ (bits - 1)) by (rewrite <-Z.pow_succ_r by lia; f_equal; lia).
  destruct signed; intros [= <- <-]; lia.
Qed.

Lemma groups_spec qmin qmax cs groups :
  qmin <= qmax → Forall2 (λ g r, quantize_group qmin qmax g = Ok r) cs groups →
  length groups = length cs ∧ Forall (λ r, 0 <= r.1.2 <= qmax - qmin) groups ∧
  length (groups ≫= snd) = length (cs ≫= id) ∧ Forall (λ c, 0 <= c <= qmax - qmin) (groups ≫= snd).
Proof.
  intros Hq. induction 1 as [|g [[s z] codes] cs groups Hg Hgs IH]; [done|]. destruct IH as (H1 & H2 & H3 & H4).
  destruct (quantize_group_spec _ _ _ _ _ _ Hq Hg) as (Hz & Hl & Hc).
  change ((?a :: ?b) ≫= id) with (a ++ (b ≫= id)). change (((s, z, codes) :: groups) ≫= snd) with (codes ++ (groups ≫= snd)).
  rewrite !length_app. split_and!; [cbn; lia|by constructor|lia|by apply Forall_app].
Qed.

(** What the affine quantiser returns can be read back.  A returned tensor has
    one scale and zero point per group of the values, zero points and codes of the
    given number of bits, and a payload which unpacks to one code per value, so
    that [values] returns one float per value quantised. *)
Theorem affine_tensor_well_formed values bits signed g t :
  quantize_groupwise_affine values bits signed g = Ok t →
  elements t = Zlen values ∧ Zlen (scales t) = (Zlen values + g - 1) / g ∧ Zlen (zero_points t) = Zlen (scales t) ∧
  Forall (λ z, 0 <= z < 2 ^ bits) (zero_points t) ∧
  ∃ codes l, unpack (payload t) bits (elements t) = Ok codes ∧ Forall (λ c, 0 <= c < 2 ^ bits) codes ∧
    affine_values t = Ok l ∧ Zlen l = Zlen values.
Proof.
  unfold quantize_groupwise_affine. destruct (validate_values values) as [[]|]; [|done].
  destruct (_ || _) eqn:E; [done|]. apply orb_false_elim in E as [Eb Eg]. apply negb_false_iff in Eb, Eg.
  apply bool_decide_eq_true in Eb. breflect.
  destruct (if signed then _ else _) as [qmin qmax] eqn:Eq.
  assert (Hb : 0 < bits <= 8 ∧ (bits | 8)).
  { repeat apply elem_of_cons in Eb as [->|Eb]; [split; [lia|]..|by apply elem_of_nil in Eb];
      [by exists 4|by exists 2|by exists 1]. }
  destruct Hb as [Hb Hd]. destruct (code_limits bits signed qmin qmax ltac:(lia) Eq) as [Hq Hle].
  destruct (chunks_spec (length values) g values ltac:(lia) ltac:(lia)) as (Hcat & Hlen & _).
  set (cs := chunks (length values) g values) in *.
  destruct (map_res _ cs) as [groups|] eqn:Em; [|done]. apply map_res_Ok in Em.
  destruct (pack (groups ≫= snd) bits) as [p|] eqn:Ep; [|done]. intros [= <-].
  destruct (groups_spec qmin qmax cs groups Hle Em) as (Hgl & Hzp & Hcl & Hcr). rewrite Hcat in Hcl.
  pose proof (unpack_pack bits Hb Hd _ _ Ep) as Hun. assert (Hzl : Zlen (groups ≫= snd) = Zlen values) by (unfold Zlen; lia).
  rewrite Hzl in Hun. cbn [elements scales zero_points payload]. split_and!.
  - done.
  - rewrite <-Hlen. unfold Zlen. by rewrite length_fmap, Hgl.
  - unfold Zlen. by rewrite !length_fmap.
  - apply Forall_fmap. eapply Forall_impl; [exact Hzp|]. cbn. intros [[? z] ?] ?. cbn in *. lia.
  - exists (groups ≫= snd). unfold affine_values.
    cbn [elements scales zero_points payload NumericCodecs.bits group_size]. rewrite Hun.
    match goal with |- context [map_res ?f ?l] => pose proof (map_res_total f l) as Htot; destruct (map_res f l) as [l'|] eqn:El end.
    + exists l'. split_and!; [done| |done|].
      * eapply Forall_impl; [exact Hcr|]. cbn. lia.
      * apply map_res_Ok, Forall2_length in El. rewrite length_indexed in El. unfold Zlen in *. lia.
    + exfalso. apply diff_false_true, Htot. intros [k c] Hin. apply list_elem_of_lookup in Hin as [i Hi].
      pose proof (lookup_lt_Some _ _ _ Hi) as Hil. rewrite length_indexed in Hil.
      apply indexed_lookup in Hi as [Hk _]. cbn in Hk. subst k.
      assert (Hi' : 0 <= Z.of_nat i / g < Zlen groups).
      { assert (Hgz : Zlen groups = (Zlen values + g - 1) / g) by (rewrite <-Hlen; unfold Zlen; by rewrite Hgl). rewrite Hgz.
        split; [apply Z.div_pos; lia|]. apply Z.lt_le_trans with (Z.of_nat i / g + 1); [lia|].
        rewrite <-Z.div_add by lia. apply Z.div_le_mono; unfold Zlen in *; lia. }
      rewrite !list_lookup_fmap.
      destruct (lookup_lt_is_Some_2 groups (Z.to_nat (Z.of_nat i / g))) as [q Hq']; [unfold Zlen in *; lia|].
      by rewrite Hq'.
Qed.

(** A range that underflows: the scale of subnormal values is zero, and the quantiser
    divides by it.  A range that overflows: the scale is infinite, and the quantiser
    returns a tensor whose values are not numbers. *)
Definition tiny : float := S754_finite false 1 (-1074).
Definition huge : float := S754_finite false 6755399441055744 971.
Lemma subnormal_range_divides_by_zero :
  validate_values [tiny; zero] = Ok () ∧ quantize_groupwise_affine [tiny; zero] 8 false 2 = Raise ZeroDivisionError.
Proof. by vm_compute. Qed.
Lemma wide_range_loses_values :
  validate_values [huge; SFopp huge] = Ok () ∧
  match quantize_groupwise_affine [huge; SFopp huge] 8 false 2 with
  | Ok t => affine_values t = Ok [S754_nan; S754_nan]
  | Raise _ => False
  end.
Proof. by vm_compute. Qed.

(** A range away from zero: the zero point is clamped to the codes, and both values
    come back as the width of the range. *)
Lemma offset_range_saturates :
  match quantize_groupwise_affine [of_Z 5; of_Z 6] 8 false 2 with
  | Ok t => affine_values t = Ok [of_Z 1; of_Z 1]
  | Raise _ => False
  end.
Proof. by vm_compute. Qed.

(** ** Witnesses *)

Lemma fp8_codec_correct_witness :
  "e5m2" ∈ fp8_variants ∧ bytes_ok [0; 62; 188] ∧ encode_fp8 [of_Z 3; of_Z (-5)] "e5m2" = Ok [66; 197] ∧
  match encode_fp8 [of_Z 3; of_Z (-5)] "e5m2" with
  | Ok codes => Forall2 (nearest "e5m2") [of_Z 3; of_Z (-5)] codes
  | Raise _ => validate_values [of_Z 3; of_Z (-5)] ≠ Ok () ∨
      ∃ v, v ∈ [of_Z 3; of_Z (-5)] ∧ fltb (largest_of "e5m2") (fabs v) = true
  end ∧
  match decode_fp8 [0; 62; 188] "e5m2" with
  | Ok l => length l = length [0; 62; 188] ∧ encode_fp8 l "e5m2" = Ok [0; 62; 188]
  | Raise _ => [0; 62; 188] = [] ∨ MAX_CODEC_ELEMENTS < Zlen [0; 62; 188] ∨
      ∃ c, c ∈ [0; 62; 188] ∧ ∀ v, (c, v) ∉ fp8_codebook "e5m2"
  end.
Proof.
  assert (Hv : "e5m2" ∈ fp8_variants) by (right; left).
  assert (Hb : bytes_ok [0; 62; 188]) by (repeat constructor; lia).
  split; [exact Hv|]. split; [exact Hb|]. split; [vm_compute; reflexivity|].
  exact (fp8_codec_correct "e5m2" [of_Z 3; of_Z (-5)] [0; 62; 188] Hv Hb).
Defined.

(** Three FP4 elements, 1, -6 and 0.5, at scale 4. *)
Lemma mx_decode_correct_witness :
  let a := mkMX FP4_E2M1 3 in
  let packed := [242; 1] in
  mx_check a = Ok () ∧ bytes_ok packed ∧
  decode_mx a packed [129] = Ok [of_Z 4; of_Z (-24); of_Z 2] ∧
  match decode_mx a packed [129] with
  | Raise e => ∃ m, e = ValueError m
  | Ok l => Zlen l = mx_elements a ∧ ∀ i v, l !! i = Some v →
      is_finite v = true ∧ fltb F32_MAX (fabs v) = false ∧
      ∃ x c s, decode_element (element_format a)
                 (digit (element_bits (element_format a)) (join 8 packed) (Z.of_nat i)) = Ok x ∧
        [129] !! Z.to_nat (Z.of_nat i / MX_BLOCK_SIZE) = Some c ∧ decode_e8m0 c = Ok s ∧ v = fmul x s
  end.
Proof.
  intros a packed. assert (Ha : mx_check a = Ok ()) by reflexivity.
  assert (Hb : bytes_ok packed) by (repeat constructor; lia).
  split; [exact Ha|]. split; [exact Hb|]. split; [vm_compute; reflexivity|].
  exact (mx_decode_correct a packed [129] Ha Hb).
Defined.

Lemma affine_tensor_well_formed_witness :
  let values := [of_Z 0; of_Z 3; of_Z 5; of_Z 6; of_Z 9] in
  match quantize_groupwise_affine values 4 true 2 with
  | Ok t =>
      elements t = Zlen values ∧ Zlen (scales t) = (Zlen values + 2 - 1) / 2 ∧ Zlen (zero_points t) = Zlen (scales t) ∧
      Forall (λ z, 0 <= z < 2 ^ 4) (zero_points t) ∧
      ∃ codes l, unpack (payload t) 4 (elements t) = Ok codes ∧ Forall (λ c, 0 <= c < 2 ^ 4) codes ∧
        affine_values t = Ok l ∧ Zlen l = Zlen values
  | Raise _ => False
  end.
Proof.
  intros values. destruct (quantize_groupwise_affine values 4 true 2) as [t|] eqn:E.
  - exact (affine_tensor_well_formed values 4 true 2 t E).
  - vm_compute in E. discriminate E.
Defined.

End NumericCodecs.
