(* ===== verification/KernelProbe.v ===== *)
(** * Running a kernel probe (kernel_probe.py)

    The comparison of a candidate kernel with its baseline: correctness sample by
    sample, then the ratio of the medians, in the floating-point arithmetic of the
    code.  The kernels are programs over a state shared with the caller. *)

From S2P Require Import Prelude Types PyFloat PySort PyBytes OperatorDispatch.

Module KernelProbe.
Import PyFloat PySort PyBytes KernelRegistry.

Definition PROBE_SUITE_VERSION : Z := 8.

Record KernelMeasurement := mkMeasurement {
  output_digest : string;
  latency_nanoseconds : Z;
  numeric_values : option (list float);
}.

Definition lower_hex (s : string) : bool := forallb is_lower_hex (String.list_ascii_of_string s).

(** [KernelMeasurement.__post_init__] *)
Definition measurement_check (m : KernelMeasurement) : res exn () :=
  if negb (str_len (output_digest m) =? 64) || negb (lower_hex (output_digest m))
  then Raise (ValueError "output_digest must be lowercase SHA-256")
  else if latency_nanoseconds m <=? 0 then Raise (ValueError "latency must be positive")
  else match numeric_values m with
       | None => Ok ()
       | Some l => check ((1 <=? Zlen l) && (Zlen l <=? 4096) && forallb is_finite l)
                     (ValueError "numeric probe values must be finite and bounded") ()
       end.

Record KernelProbeConfig := mkConfig {
  cfg_hardware : string;
  cfg_environment : string;
  cfg_backend : ExecutionBackend;
  cfg_operator : string;
  samples : Z;
  maximum_slowdown_ratio : float;
  maximum_absolute_error : option float;
}.

Definition within (lo hi n : Z) : bool := (lo <=? n) && (n <=? hi).

(** [KernelProbeConfig.__post_init__] *)
Definition config_check (c : KernelProbeConfig) : res exn () :=
  if negb (within 1 128 (str_len (cfg_hardware c))) || negb (within 1 128 (str_len (cfg_environment c)))
  then Raise (ValueError "probe fingerprints cannot be empty")
  else if str_eqb (cfg_operator c) "" || (str_len (cfg_operator c) >? 128)
  then Raise (ValueError "operator must contain 1 to 128 characters")
  else if negb (within 1 MAX_PROBE_SAMPLES (samples c))
  then Raise (ValueError "samples must be between 1 and 32")
  else if negb (is_finite (maximum_slowdown_ratio c)) || fltb (maximum_slowdown_ratio c) (of_Z 1)
  then Raise (ValueError "maximum slowdown ratio must be finite and at least 1")
  else match maximum_absolute_error c with
       | None => Ok ()
       | Some e => check (is_finite e && negb (fltb e zero))
                     (ValueError "maximum absolute error must be finite and non-negative") ()
       end.

(** [_measurements_match] *)
Definition measurements_match (reference measured : KernelMeasurement) (tolerance : option float) : bool :=
  if str_eqb (output_digest reference) (output_digest measured) then true
  else match tolerance, numeric_values reference, numeric_values measured with
       | Some e, Some expected, Some actual =>
           if negb (Zlen expected =? Zlen actual) then false
           else forallb (λ p, fleb (SpecFloat.SFabs (fsub p.1 p.2)) e) (zip expected actual)
       | _, _, _ => false
       end.

(** [_median] *)
Definition median (values : list Z) : option Z :=
  sorted_by Z.leb values !! Z.to_nat (Zlen values / 2).

(** [round(ratio, 6)]: the decimal nearest to the exact value, then the float
    nearest to it. *)
Definition round6 (f : float) : float :=
  match f with
  | SpecFloat.S754_finite s m e =>
      let n := if 0 <=? e then Z.pos m * 2 ^ e * 1000000 else round_div (Z.pos m * 1000000) (2 ^ (- e)) in
      int_div (if s then - n else n) 1000000
  | _ => f
  end.

Record Samples := mkSamples {
  baseline_latencies : list Z;
  candidate_latencies : list Z;
  completed : Z;
}.

Section probe.
Context {S : Type}.
Context (sha256 : string → string).          (* hashlib.sha256(...).hexdigest() of ASCII text *)
Context (float_repr : float → string).       (* repr(x) *)
Context (baseline candidate : Py S KernelMeasurement).

(** The loop of [run_kernel_probe] with its [try]: the reason and the samples. *)
Fixpoint sample_loop (c : KernelProbeConfig) (n : nat) (acc : Samples) : S → (string * Samples) * S := λ s,
  match n with
  | O => (("passed", acc), s)
  | Datatypes.S n' =>
      match baseline s with
      | (Raise _, s1) => (("probe_error", acc), s1)
      | (Ok reference, s1) =>
          match candidate s1 with
          | (Raise _, s2) => (("probe_error", acc), s2)
          | (Ok measured, s2) =>
              if negb (measurements_match reference measured (maximum_absolute_error c))
              then (("correctness_mismatch", acc), s2)
              else sample_loop c n'
                     (mkSamples (baseline_latencies acc ++ [latency_nanoseconds reference])
                        (candidate_latencies acc ++ [latency_nanoseconds measured]) (completed acc + 1)) s2
          end
      end
  end.

(** The JSON text of the identity, with sorted names. *)
Definition identity_json (c : KernelProbeConfig) : string :=
  json_object
    [member "backend" (json_string (ExecutionBackend_value (cfg_backend c)));
     member "environment_fingerprint" (json_string (cfg_environment c));
     member "hardware_fingerprint" (json_string (cfg_hardware c));
     member "maximum_absolute_error"
       (match maximum_absolute_error c with None => "null" | Some e => float_repr e end);
     member "maximum_slowdown_ratio" (float_repr (maximum_slowdown_ratio c));
     member "operator" (json_string (cfg_operator c));
     member "samples" (str_of_Z (samples c));
     member "schema_version" (str_of_Z KERNEL_PROBE_SCHEMA_VERSION)].
Definition probe_id_of (c : KernelProbeConfig) : string := String.substring 0 24 (sha256 (identity_json c)).

(** The ratio of the medians, when both exist. *)
Definition median_ratio (b k : option Z) : res exn (option float) :=
  match b, k with
  | Some b, Some k => match true_div k b with Ok r => Ok (Some r) | Raise e => Raise e end
  | _, _ => Ok None
  end.

(** [run_kernel_probe] *)
Definition run_kernel_probe (c : KernelProbeConfig) : Py S KernelProbeResult := λ s,
  let '((reason, acc), s') := sample_loop c (Z.to_nat (samples c)) (mkSamples [] [] 0) s in
  let baseline_median := median (baseline_latencies acc) in
  let candidate_median := median (candidate_latencies acc) in
  match median_ratio baseline_median candidate_median with
  | Raise e => (Raise e, s')
  | Ok ratio =>
      let reason :=
        match ratio with
        | Some r => if str_eqb reason "passed" && fltb (maximum_slowdown_ratio c) r
                    then "performance_regression" else reason
        | None => reason
        end in
      let passed := str_eqb reason "passed" && (completed acc =? samples c) in
      let r := {| schema_version := KERNEL_PROBE_SCHEMA_VERSION; probe_id := probe_id_of c;
                  hardware_fingerprint := cfg_hardware c; environment_fingerprint := cfg_environment c;
                  backend := cfg_backend c; operator := cfg_operator c; samples_completed := completed acc;
                  baseline_latency_nanoseconds := baseline_median;
                  candidate_latency_nanoseconds := candidate_median;
                  slowdown_ratio := round6 <$> ratio;
                  passed := passed; quarantined := negb passed; reason := reason |} in
      match result_check r with Ok _ => (Ok r, s') | Raise e => (Raise e, s') end
  end.

End probe.

(** [build_environment_fingerprint] *)
Definition build_environment_fingerprint (sha256 : string → string)
    (platform os_version toolchain_version mlx_version backend_version : string) : res exn string :=
  let values := [str_of_Z PROBE_SUITE_VERSION; platform; os_version; toolchain_version; mlx_version; backend_version] in
  if existsb (λ v, str_eqb v "" || (str_len v >? 128)) values
  then Raise (ValueError "environment components must contain 1 to 128 characters")
  else Ok (String.substring 0 24 (sha256 (json_object
    [member "backend_version" (json_string backend_version);
     member "mlx_version" (json_string mlx_version);
     member "os_version" (json_string os_version);
     member "platform" (json_string platform);
     member "probe_suite_version" (json_string (str_of_Z PROBE_SUITE_VERSION));
     member "toolchain_version" (json_string toolchain_version)]))).

(** ** Lemmas *)

Lemma list_ascii_substring n : ∀ s,
  String.list_ascii_of_string (String.substring 0 n s) = take n (String.list_ascii_of_string s).
Proof. induction n as [|n IH]; intros [|c s]; cbn; try done. by rewrite IH. Qed.
Lemma length_list_ascii s : length (String.list_ascii_of_string s) = String.length s.
Proof. induction s as [|c s IH]; cbn; [done|]. by rewrite IH. Qed.
Lemma str_len_list s : str_len s = Zlen (String.list_ascii_of_string s).
Proof. unfold str_len, Zlen. by rewrite length_list_ascii. Qed.

(** The first 24 digits of a digest. *)
Lemma digest_prefix d :
  str_len d = 64 → lower_hex d = true →
  str_len (String.substring 0 24 d) = 24 ∧ lower_hex (String.substring 0 24 d) = true.
Proof.
  unfold lower_hex. rewrite !str_len_list, list_ascii_substring. unfold Zlen. intros Hl Hh. split.
  - rewrite length_take. lia.
  - rewrite forallb_forall in *. intros c Hc%list_elem_of_In. apply Hh, list_elem_of_In.
    apply list_elem_of_lookup in Hc as [i Hi]. apply lookup_take_Some in Hi as [Hi _]. by eapply list_elem_of_lookup_2.
Qed.

Lemma median_elem l m : median l = Some m → m ∈ l.
Proof. unfold median. intros Hm%list_elem_of_lookup_2. by apply elem_of_sorted_by in Hm. Qed.
Lemma median_Some l : l ≠ [] → is_Some (median l).
Proof.
  intros Hl. unfold median. apply lookup_lt_is_Some_2. rewrite length_sorted_by. unfold Zlen.
  assert (0 < Z.of_nat (length l)) by (destruct l; [done|cbn; lia]).
  pose proof (Z.div_lt (Z.of_nat (length l)) 2). pose proof (Z.div_pos (Z.of_nat (length l)) 2). lia.
Qed.

Section theory.
Context {S : Type} (sha256 : string → string) (float_repr : float → string).
Context (baseline candidate : Py S KernelMeasurement).
Hypothesis sha256_hex : ∀ t, str_len (sha256 t) = 64 ∧ lower_hex (sha256 t) = true.
(** The kernels return measurements, which the constructor has checked. *)
Hypothesis baseline_measures : ∀ s m s', baseline s = (Ok m, s') → measurement_check m = Ok ().
Hypothesis candidate_measures : ∀ s m s', candidate s = (Ok m, s') → measurement_check m = Ok ().

(** [n] samples taken from a state, baseline and candidate in turn. *)
Inductive sampled : nat → S → list (KernelMeasurement * KernelMeasurement) → S → Prop :=
| sampled_nil s : sampled 0 s [] s
| sampled_cons n s r s1 m s2 l s' :
    baseline s = (Ok r, s1) → candidate s1 = (Ok m, s2) → sampled n s2 l s' →
    sampled (Datatypes.S n) s ((r, m) :: l) s'.

Definition all_match (c : KernelProbeConfig) (l : list (KernelMeasurement * KernelMeasurement)) : Prop :=
  Forall (λ p, measurements_match p.1 p.2 (maximum_absolute_error c) = true) l.
Definition latencies (l : list KernelMeasurement) : list Z := latency_nanoseconds <$> l.
(** The candidate's median is within the slowdown ratio of the baseline's. *)
Definition fast_enough (c : KernelProbeConfig) (l : list (KernelMeasurement * KernelMeasurement)) : Prop :=
  ∃ b k, median (latencies l.*1) = Some b ∧ median (latencies l.*2) = Some k ∧
    fltb (maximum_slowdown_ratio c) (int_div k b) = false.

Lemma sample_loop_spec c n acc s reason acc' s' :
  sample_loop baseline candidate c n acc s = ((reason, acc'), s') →
  ∃ l s'', sampled (length l) s l s'' ∧ all_match c l ∧ (length l <= n)%nat ∧
    baseline_latencies acc' = baseline_latencies acc ++ latencies l.*1 ∧
    candidate_latencies acc' = candidate_latencies acc ++ latencies l.*2 ∧
    completed acc' = completed acc + Zlen l ∧
    (reason = "passed" ∧ length l = n ∧ s'' = s' ∨
     (reason = "probe_error" ∨ reason = "correctness_mismatch") ∧
     ¬ ∃ l2 s2, sampled n s l2 s2 ∧ all_match c l2).
Proof.
  revert acc s. induction n as [|n IH]; intros acc s; cbn.
  - intros [= <- <- <-]. exists [], s. rewrite !app_nil_r. unfold Zlen. cbn. split_and!; try done; try lia; [constructor..|by left].
  - assert (Hstop : ∀ why, (why = "probe_error" ∨ why = "correctness_mismatch") →
      (¬ ∃ l2 s2, sampled (Datatypes.S n) s l2 s2 ∧ all_match c l2) →
      ∃ l s'', sampled (length l) s l s'' ∧ all_match c l ∧ (length l <= Datatypes.S n)%nat ∧
        baseline_latencies acc = baseline_latencies acc ++ latencies l.*1 ∧
        candidate_latencies acc = candidate_latencies acc ++ latencies l.*2 ∧
        completed acc = completed acc + Zlen l ∧
        (why = "passed" ∧ length l = Datatypes.S n ∧ s'' = s' ∨ (why = "probe_error" ∨ why = "correctness_mismatch") ∧
         ¬ ∃ l2 s2, sampled (Datatypes.S n) s l2 s2 ∧ all_match c l2)).
    { intros why Hw Hn. exists [], s. rewrite !app_nil_r. unfold Zlen. cbn. split_and!; try done; try lia; [constructor..|by right]. }
    destruct (baseline s) as [[r|e] s1] eqn:Hr.
    2: { intros [= <- <- <-]. apply Hstop; [by left|]. intros (l2 & s2 & Hs & _). inversion Hs. congruence. }
    destruct (candidate s1) as [[m|e] s2] eqn:Hm.
    2: { intros [= <- <- <-]. apply Hstop; [by left|]. intros (l2 & s3 & Hs & _). inversion Hs. congruence. }
    destruct (measurements_match r m _) eqn:Hmatch; cbn [negb].
    + intros (l & s'' & Hs & Hall & Hl & Hb & Hc & Hn & Hwhy)%IH. cbn in Hb, Hc, Hn.
      exists ((r, m) :: l), s''. rewrite Hb, Hc, Hn, <-!app_assoc. unfold Zlen. cbn. split_and!; try done; try lia.
      * by econstructor.
      * by constructor.
      * destruct Hwhy as [(-> & Hlen & ->)|[Hwhy Hno]]; [left; split_and!; [done|lia|done]|right]. split; [done|].
        intros (l2 & s3 & Hs2 & Hall2). apply Hno. inversion Hs2; subst. inversion Hall2; subst.
        assert (s5 = s2) as -> by congruence. by eexists _, _.
    + intros [= <- <- <-]. apply Hstop; [by right|]. intros (l2 & s3 & Hs & Hall). inversion Hs; subst.
      inversion Hall; subst. cbn in *. congruence.
Qed.

Lemma sampled_positive n s l s' :
  sampled n s l s' → Forall (λ b, 0 < b) (latencies l.*1) ∧ Forall (λ b, 0 < b) (latencies l.*2).
Proof.
  induction 1 as [|n s r s1 m s2 l s' Hr Hm Hs [IH1 IH2]]; [by split; constructor|].
  assert (Hpos : ∀ x, measurement_check x = Ok () → 0 < latency_nanoseconds x).
  { intros x Hx. unfold measurement_check in Hx. run_cases Hx; breflect; lia. }
  split; constructor; eauto.
Qed.
Lemma sampled_functional n s l1 s1 l2 s2 : sampled n s l1 s1 → sampled n s l2 s2 → l1 = l2 ∧ s1 = s2.
Proof.
  intros H1. revert l2 s2. induction H1 as [|n s r s1 m s1' l s' Hr Hm Hs IH]; intros l2 s2 H2; inversion H2; subst; [done|].
  assert (r0 = r ∧ s3 = s1) as [-> ->] by (split; congruence).
  assert (m0 = m ∧ s4 = s1') as [-> ->] by (split; congruence).
  edestruct IH as [-> ->]; [done|]. done.
Qed.

Lemma probe_id_ok c :
  str_len (probe_id_of sha256 float_repr c) = 24 ∧ lower_hex (probe_id_of sha256 float_repr c) = true.
Proof. destruct (sha256_hex (identity_json float_repr c)) as [H1 H2]. by apply digest_prefix. Qed.

Lemma median_ratio_spec b k :
  Forall (λ x, 0 < x) b →
  match median_ratio (median b) (median k) with
  | Ok (Some r) => ∃ mb mk, median b = Some mb ∧ median k = Some mk ∧ r = int_div mk mb
  | Ok None => b = [] ∨ k = []
  | Raise e => e = OverflowError
  end.
Proof.
  intros Hb. rewrite Forall_forall in Hb. unfold median_ratio.
  assert (Hnil : ∀ l, median l = None → l = []).
  { intros [|x l] Hl; [done|]. destruct (median_Some (x :: l)) as [m Hm]; [done|congruence]. }
  destruct (median b) as [mb|] eqn:Eb; [|left; by apply Hnil].
  destruct (median k) as [mk|] eqn:Ek; [|right; by apply Hnil].
  apply median_elem, Hb in Eb. unfold true_div, check. destruct (mb =? 0) eqn:E; [breflect; lia|].
  destruct (is_finite _); [|done]. by exists mb, mk.
Qed.

(** The reason after the comparison of the medians, and whether the probe passed. *)
Definition final_reason (c : KernelProbeConfig) (ratio : option float) (reason : string) : string :=
  match ratio with
  | Some r => if str_eqb reason "passed" && fltb (maximum_slowdown_ratio c) r
              then "performance_regression" else reason
  | None => reason
  end.
Definition correct_and_fast (c : KernelProbeConfig) (s : S) : Prop :=
  ∃ l s', sampled (Z.to_nat (samples c)) s l s' ∧ all_match c l ∧ fast_enough c l.

Lemma final_reason_spec c s reason acc s' ratio :
  1 <= samples c → sample_loop baseline candidate c (Z.to_nat (samples c)) (mkSamples [] [] 0) s = ((reason, acc), s') →
  median_ratio (median (baseline_latencies acc)) (median (candidate_latencies acc)) = Ok ratio →
  0 <= completed acc <= samples c ∧
  (str_eqb (final_reason c ratio reason) "passed" && (completed acc =? samples c)
   = str_eqb (final_reason c ratio reason) "passed") ∧
  (str_eqb (final_reason c ratio reason) "passed" = true ↔ correct_and_fast c s).
Proof.
  intros Hc El Er. apply sample_loop_spec in El as (l & s'' & Hs & Hall & Hl & Hb & Hk & Hn & Hwhy). cbn in Hb, Hk, Hn.
  split; [unfold Zlen in *; lia|].
  destruct (sampled_positive _ _ _ _ Hs) as [Hpb _]. rewrite Hb, Hk in Er.
  pose proof (median_ratio_spec (latencies l.*1) (latencies l.*2) Hpb) as Hratio. rewrite Er in Hratio.
  destruct Hwhy as [(-> & Hlen & ->)|[Hwhy Hno]].
  - rewrite (proj2 (Z.eqb_eq _ _)), andb_true_r by (rewrite Hn; unfold Zlen; lia). split; [done|]. rewrite Hlen in Hs.
    transitivity (fast_enough c l).
    2: { split; [by exists l, s'|]. intros (l2 & s2 & Hs2 & _ & Hf). by destruct (sampled_functional _ _ _ _ _ _ Hs Hs2) as [<- _]. }
    destruct ratio as [r|].
    + destruct Hratio as (mb & mk & Hmb & Hmk & ->). unfold final_reason, fast_enough. rewrite Hmb, Hmk. cbn.
      destruct (fltb _ _) eqn:Ef; cbn; [split; [done|]|split; [by exists mb, mk|done]].
      intros (? & ? & [= <-] & [= <-] & ?). congruence.
    + destruct Hratio as [H|H]; apply fmap_nil_inv, fmap_nil_inv in H as ->; cbn in Hlen; lia.
  - assert (Hr : str_eqb (final_reason c ratio reason) "passed" = false) by (destruct ratio, Hwhy as [-> | ->]; done).
    rewrite Hr. split; [done|]. split; [done|]. intros (l2 & s2 & Hs2 & Hall2 & _). exfalso. eauto.
Qed.

Lemma built_result_check c n b k ratio reason :
  0 <= n <= MAX_PROBE_SAMPLES →
  let p := str_eqb reason "passed" in
  result_check {| schema_version := KERNEL_PROBE_SCHEMA_VERSION; probe_id := probe_id_of sha256 float_repr c;
    hardware_fingerprint := cfg_hardware c; environment_fingerprint := cfg_environment c;
    backend := cfg_backend c; operator := cfg_operator c; samples_completed := n;
    baseline_latency_nanoseconds := b; candidate_latency_nanoseconds := k; slowdown_ratio := ratio;
    passed := p; quarantined := negb p; reason := reason |} = Ok ().
Proof.
  intros Hn p. subst p. unfold result_check. cbn. destruct (probe_id_ok c) as [-> Hid].
  assert (Hex : existsb (λ x, negb (is_lower_hex x)) (String.list_ascii_of_string (probe_id_of sha256 float_repr c)) = false).
  { apply not_true_iff_false. intros (x & Hx & Hx')%existsb_exists. unfold lower_hex in Hid.
    rewrite forallb_forall in Hid. by rewrite Hid in Hx'. }
  rewrite Hex, (proj2 (Z.leb_le 0 n)), (proj2 (Z.leb_le n _)) by lia. by destruct (str_eqb reason "passed").
Qed.

(** A probe admits exactly the kernels it should.  [run_kernel_probe] raises
    nothing but an overflow; its result passes the checks of the constructor, and is
    passed if and only if every sample of both kernels was measured, each measured
    value agreed with its reference, and the ratio of the medians is within the
    limit; recorded for an operator not probed before, it makes the kernel usable
    exactly when it passed. *)
Theorem probe_gate_correct c g s :
  config_check c = Ok () → reg_hardware g = cfg_hardware c → reg_environment g = cfg_environment c →
  results g !! (cfg_backend c, cfg_operator c) = None → Zsize (results g) < capacity g →
  match (run_kernel_probe sha256 float_repr baseline candidate c s).1 with
  | Raise e => e = OverflowError
  | Ok r => result_check r = Ok () ∧ (passed r = true ↔ correct_and_fast c s) ∧
      is_usable (cfg_backend c) (cfg_operator c) (record r g).2 = passed r
  end.
Proof.
  intros Hc Hh He Hnew Hroom. unfold run_kernel_probe.
  destruct (sample_loop _ _ _ _ _ _) as [[reason acc] s'] eqn:El.
  assert (Hsamples : 1 <= samples c <= 32).
  { unfold config_check, within, MAX_PROBE_SAMPLES in Hc. run_cases Hc; breflect; lia. }
  destruct (median_ratio _ _) as [ratio|e] eqn:Er.
  - destruct (final_reason_spec c s reason acc s' ratio) as (Hn & Hp & Hiff); [lia|done..|].
    fold (final_reason c ratio reason). rewrite Hp, built_result_check by (unfold MAX_PROBE_SAMPLES; lia).
    cbn [fst passed]. split; [by apply built_result_check; unfold MAX_PROBE_SAMPLES; lia|]. split; [exact Hiff|].
    unfold record, str_eqb. cbn. rewrite Hh, He, !bool_decide_eq_true_2 by done. cbn. rewrite Hnew. cbn.
    destruct (_ >=? _) eqn:Eg; [breflect; unfold Zsize in Hroom; lia|]. cbn. unfold is_usable. cbn. rewrite lookup_insert_eq. cbn.
    by destruct (bool_decide _).
  - apply sample_loop_spec in El as (l & s'' & Hs & _ & _ & Hb & Hk & _). cbn in Hb, Hk.
    destruct (sampled_positive _ _ _ _ Hs) as [Hpb _]. cbn [fst]. rewrite Hb, Hk in Er.
    pose proof (median_ratio_spec (latencies l.*1) (latencies l.*2) Hpb) as Hratio. by rewrite Er in Hratio.
Qed.
End theory.

(** ** Witness *)

Definition demo_digest : string := "0123456789abcdef0123456789abcdef0123456789abcdef0123456789abcdef".
Definition demo_kernel (latency : Z) : Py Z KernelMeasurement := λ n,
  (Ok (mkMeasurement demo_digest (Z.max 1 (latency + n)) None), n + 1).
Definition demo_config : KernelProbeConfig :=
  mkConfig "m3" "env" NATIVE_MLX "matmul" 3 (SpecFloat.S754_finite false 5629499534213120 (-52)) None.
Definition demo_registry : KernelCapabilityRegistry := mkRegistry "m3" "env" 8 ∅.
Definition demo_run (latency : Z) : res exn KernelProbeResult :=
  (run_kernel_probe (λ _, demo_digest) (λ _, "1.25") (demo_kernel 100) (demo_kernel latency) demo_config 0).1.

Example fast_kernel_passes :
  match demo_run 110 with Ok r => passed r | _ => false end = true.
Proof. by vm_compute. Qed.
Example slow_kernel_is_quarantined :
  match demo_run 150 with Ok r => quarantined r && str_eqb (reason r) "performance_regression" | _ => false end = true.
Proof. by vm_compute. Qed.

Lemma demo_kernel_measures latency s m s' : demo_kernel latency s = (Ok m, s') → measurement_check m = Ok ().
Proof.
  intros [= <- <-]. unfold measurement_check. cbn [output_digest latency_nanoseconds numeric_values].
  rewrite (proj2 (Z.leb_gt _ _)) by lia. reflexivity.
Qed.
Lemma probe_gate_correct_witness :
  match demo_run 110 with
  | Raise e => e = OverflowError
  | Ok r => result_check r = Ok () ∧
      (passed r = true ↔ correct_and_fast (demo_kernel 100) (demo_kernel 110) demo_config 0) ∧
      is_usable NATIVE_MLX "matmul" (record r demo_registry).2 = passed r
  end.
Proof.
  apply (probe_gate_correct (λ _, demo_digest) (λ _, "1.25") (demo_kernel 100) (demo_kernel 110)).
  - intros t. split; vm_compute; reflexivity.
  - intros s m s' Hm. exact (demo_kernel_measures 100 s m s' Hm).
  - intros s m s' Hm. exact (demo_kernel_measures 110 s m s' Hm).
  - reflexivity.
  - reflexivity.
  - reflexivity.
  - reflexivity.
  - vm_compute. reflexivity.
Defined.

End KernelProbe.
