(* ===== verification/DeviceCapability.v ===== *)
(** * Device capabilities and their composition from kernel probes (device_capability.py)

    The versioned capability contract of a backend, the registry that decides the
    eligible backends of a workload, and the registry composed from kernel probes. *)

From stdpp Require Import sorting.
From S2P Require Import Prelude Types PyBytes OperatorDispatch KernelProbe.
#[local] Open Scope Z_scope.

Module DeviceCapability.
Import PyBytes.

Definition DEVICE_CAPABILITY_SCHEMA_VERSION : Z := 1.
Definition MAX_DEVICE_CAPABILITIES : Z := 64.
Definition MAX_ELIGIBILITY_VALUES : Z := 128.

Inductive ComputeDevice := DEV_CPU | DEV_GPU | DEV_ANE.
#[export] Instance ComputeDevice_eq_dec : EqDecision ComputeDevice.
Proof. solve_decision. Defined.
Definition ComputeDevice_value (d : ComputeDevice) : string :=
  match d with DEV_CPU => "cpu" | DEV_GPU => "gpu" | DEV_ANE => "ane" end.

(** [_BACKEND_DEVICE] *)
Definition backend_device (b : ExecutionBackend) : ComputeDevice :=
  match b with
  | CPU => DEV_CPU
  | VLLM_METAL | NATIVE_MLX | NATIVE_METAL => DEV_GPU
  | COREML_DRAFT => DEV_ANE
  end.

(** [not 1 <= len(value) <= 128] *)
Definition bad_length (s : string) : bool := negb ((1 <=? str_len s) && (str_len s <=? 128)).
Definition has_control (s : string) : bool :=
  existsb (λ c, Z.of_nat (Ascii.nat_of_ascii c) <? 32) (String.list_ascii_of_string s).
Definition has_duplicates {A} `{EqDecision A} (l : list A) : bool := negb (bool_decide (NoDup l)).

(** [_bounded_values] *)
Definition bounded_values (values : list string) (label : string) : res exn () :=
  if bool_decide (values = []) || (Zlen values >? MAX_ELIGIBILITY_VALUES) || has_duplicates values
     || existsb (λ v, bad_length v || has_control v) values
  then Raise (ValueError ("invalid device capability " +:+ label)) else Ok ().

Record DeviceCapability := mkCapability {
  cap_backend : ExecutionBackend;
  cap_device : ComputeDevice;
  backend_version : string;
  cap_hardware : string;
  cap_environment : string;
  operators : list string;
  phases : list WorkloadPhase;
  precisions : list string;
  status : string;
  cap_reason : string;
  evidence_ids : list string;
  cap_schema_version : Z;
}.

(** The tests of [DeviceCapability.__post_init__], in order. *)
Definition capability_text_check (c : DeviceCapability) : res exn () :=
  if bad_length (backend_version c) then Raise (ValueError "invalid device capability backend version")
  else if bad_length (cap_hardware c) then Raise (ValueError "invalid device capability hardware fingerprint")
  else if bad_length (cap_environment c) then Raise (ValueError "invalid device capability environment fingerprint")
  else if bad_length (cap_reason c) then Raise (ValueError "invalid device capability reason")
  else Ok ().
Definition capability_status_check (c : DeviceCapability) : res exn () :=
  if bool_decide (phases c = []) || has_duplicates (phases c)
  then Raise (ValueError "invalid device capability phases")
  else if negb (bool_decide (status c ∈ ["available"; "unavailable"; "quarantined"]))
  then Raise (ValueError "invalid device capability status")
  else if str_eqb (status c) "available" && negb (str_eqb (cap_reason c) "probe_passed")
  then Raise (ValueError "available capability requires passing probe evidence")
  else if negb (str_eqb (status c) "available") && str_eqb (cap_reason c) "probe_passed"
  then Raise (ValueError "unusable capability cannot have passing evidence")
  else if (Zlen (evidence_ids c) >? MAX_ELIGIBILITY_VALUES) || has_duplicates (evidence_ids c)
          || existsb (λ v, negb (str_len v =? 24) || negb (KernelProbe.lower_hex v)) (evidence_ids c)
          || (str_eqb (status c) "available" && bool_decide (evidence_ids c = []))
  then Raise (ValueError "invalid device capability evidence")
  else Ok ().

(** [DeviceCapability.__post_init__] *)
Definition capability_check (c : DeviceCapability) : res exn DeviceCapability :=
  if negb (cap_schema_version c =? DEVICE_CAPABILITY_SCHEMA_VERSION)
  then Raise (ValueError "unsupported device capability schema version")
  else if negb (bool_decide (backend_device (cap_backend c) = cap_device c))
  then Raise (ValueError "backend and compute device do not match")
  else match capability_text_check c with Raise e => Raise e | Ok _ =>
       match bounded_values (operators c) "operators" with Raise e => Raise e | Ok _ =>
       match bounded_values (precisions c) "precisions" with Raise e => Raise e | Ok _ =>
       match capability_status_check c with Raise e => Raise e | Ok _ => Ok c end end end end.

(** [to_dict] as JSON text with sorted names, and [capability_id]. *)
Definition capability_json (c : DeviceCapability) : string :=
  json_object
    [member "backend" (json_string (ExecutionBackend_value (cap_backend c)));
     member "backend_version" (json_string (backend_version c));
     member "device" (json_string (ComputeDevice_value (cap_device c)));
     member "environment_fingerprint" (json_string (cap_environment c));
     member "evidence_ids" (json_array (json_string <$> evidence_ids c));
     member "hardware_fingerprint" (json_string (cap_hardware c));
     member "operators" (json_array (json_string <$> operators c));
     member "phases" (json_array (json_string <$> (WorkloadPhase_value <$> phases c)));
     member "precisions" (json_array (json_string <$> precisions c));
     member "reason" (json_string (cap_reason c));
     member "schema_version" (str_of_Z (cap_schema_version c));
     member "status" (json_string (status c))].
Definition capability_id (sha256 : string → string) (c : DeviceCapability) : string :=
  String.substring 0 24 (sha256 (capability_json c)).

(** [device_capability_from_probe] *)
Definition device_capability_from_probe (r : KernelRegistry.KernelProbeResult) (device : ComputeDevice)
    (version : string) (ps : list WorkloadPhase) (precs : list string) : res exn DeviceCapability :=
  let passed := KernelRegistry.passed r in
  capability_check
    (mkCapability (KernelRegistry.backend r) device version
       (KernelRegistry.hardware_fingerprint r) (KernelRegistry.environment_fingerprint r)
       [KernelRegistry.operator r] ps precs
       (if passed then "available" else "quarantined")
       (if passed then "probe_passed" else KernelRegistry.reason r)
       [KernelRegistry.probe_id r] DEVICE_CAPABILITY_SCHEMA_VERSION).

Record DeviceEligibilityRequest := mkRequest {
  req_operator : string;
  req_phase : WorkloadPhase;
  req_precision : string;
  req_candidates : list ExecutionBackend;
}.

(** [DeviceEligibilityRequest.__post_init__] *)
Definition eligibility_check (r : DeviceEligibilityRequest) : res exn DeviceEligibilityRequest :=
  match bounded_values [req_operator r] "operator" with Raise e => Raise e | Ok _ =>
  match bounded_values [req_precision r] "precision" with Raise e => Raise e | Ok _ =>
    if bool_decide (req_candidates r = []) || (Zlen (req_candidates r) >? Zlen ExecutionBackend_members)
       || has_duplicates (req_candidates r)
    then Raise (ValueError "invalid device eligibility request") else Ok r
  end end.

Record DeviceEligibilityDecision := mkDecision {
  selected : ExecutionBackend;
  fallback_chain : list ExecutionBackend;
  rejected : list (ExecutionBackend * string);
}.

Record DeviceCapabilityRegistry := mkRegistry {
  hardware_fingerprint : string;
  environment_fingerprint : string;
  entries : gmap (ExecutionBackend * string) DeviceCapability;
}.

(** [DeviceCapabilityRegistry.__init__] *)
Definition new_registry (hardware environment : string) : res exn DeviceCapabilityRegistry :=
  if str_eqb hardware "" || str_eqb environment ""
  then Raise (ValueError "device registry fingerprints cannot be empty")
  else Ok (mkRegistry hardware environment ∅).

(** [existing is not None and existing.status == "quarantined" and capability.status == "available"] *)
Definition lifts_quarantine (existing : option DeviceCapability) (c : DeviceCapability) : bool :=
  match existing with
  | Some x => str_eqb (status x) "quarantined" && str_eqb (status c) "available"
  | None => false
  end.

(** [record] *)
Definition record (c : DeviceCapability) : Py DeviceCapabilityRegistry () := λ d,
  if negb (str_eqb (cap_hardware c) (hardware_fingerprint d))
     || negb (str_eqb (cap_environment c) (environment_fingerprint d))
  then (Raise (ValueError "device capability does not match registry profile"), d)
  else match operators c with
       | [op] =>
           let key := (cap_backend c, op) in
           let existing := entries d !! key in
           if lifts_quarantine existing c
           then (Raise (ValueError "device capability quarantine is sticky"), d)
           else if is_none existing && (Zsize (entries d) >=? MAX_DEVICE_CAPABILITIES)
           then (Raise (ValueError "device capability registry is full"), d)
           else (Ok (), mkRegistry (hardware_fingerprint d) (environment_fingerprint d) (<[key := c]> (entries d)))
       | _ => (Raise (ValueError "device registry entries require exactly one operator"), d)
       end.

(** Why a backend is rejected in [decide], if it is. *)
Definition rejection (d : DeviceCapabilityRegistry) (r : DeviceEligibilityRequest) (b : ExecutionBackend)
    : option string :=
  match entries d !! (b, req_operator r) with
  | None => Some "unprobed"
  | Some c =>
      if negb (str_eqb (status c) "available") then Some (status c)
      else if negb (bool_decide (req_operator r ∈ operators c)) then Some "operator_ineligible"
      else if negb (bool_decide (req_phase r ∈ phases c)) then Some "phase_ineligible"
      else if negb (bool_decide (req_precision r ∈ precisions c)) then Some "precision_ineligible"
      else None
  end.

(** The loop of [decide]. *)
Fixpoint decide_loop (d : DeviceCapabilityRegistry) (r : DeviceEligibilityRequest) (bs : list ExecutionBackend)
    (eligible : list ExecutionBackend) (rej : list (ExecutionBackend * string))
    : list ExecutionBackend * list (ExecutionBackend * string) :=
  match bs with
  | [] => (eligible, rej)
  | b :: bs' =>
      match rejection d r b with
      | Some why => decide_loop d r bs' eligible (rej ++ [(b, why)])
      | None => decide_loop d r bs' (eligible ++ [b]) rej
      end
  end.

(** [decide] *)
Definition decide (d : DeviceCapabilityRegistry) (r : DeviceEligibilityRequest)
    : res exn DeviceEligibilityDecision :=
  match decide_loop d r (req_candidates r) [] [] with
  | ([], _) => Raise (RuntimeError "device capability fallback chain is exhausted")
  | (b :: bs, rej) => Ok (mkDecision b bs rej)
  end.

Definition entry_le (a b : (ExecutionBackend * string) * DeviceCapability) : Prop :=
  KernelRegistry.key_le a.1 b.1 = true.
#[export] Instance capability_entry_le_dec : RelDecision entry_le.
Proof. intros a b. unfold entry_le. apply _. Defined.

(** [snapshot] *)
Definition snapshot (d : DeviceCapabilityRegistry) : list DeviceCapability :=
  snd <$> merge_sort entry_le (map_to_list (entries d)).

Section compose.
Context (backend_versions : ExecutionBackend → option string).
Context (phases_by_operator : string → option (list WorkloadPhase)).
Context (precisions_by_operator : string → option (list string)).

(** The capability of one probe result, with its metadata. *)
Definition composed_capability (r : KernelRegistry.KernelProbeResult) : res exn DeviceCapability :=
  match backend_versions (KernelRegistry.backend r), phases_by_operator (KernelRegistry.operator r),
        precisions_by_operator (KernelRegistry.operator r) with
  | Some version, Some ps, Some precs =>
      device_capability_from_probe r (backend_device (KernelRegistry.backend r)) version ps precs
  | _, _, _ => Raise (ValueError "device capability composition metadata is incomplete")
  end.

(** The loop of [compose_device_capability_registry]. *)
Fixpoint compose_loop (rs : list KernelRegistry.KernelProbeResult) (d : DeviceCapabilityRegistry)
    : res exn DeviceCapabilityRegistry :=
  match rs with
  | [] => Ok d
  | r :: rs' =>
      match composed_capability r with
      | Raise e => Raise e
      | Ok c => match record c d with (Ok _, d') => compose_loop rs' d' | (Raise e, _) => Raise e end
      end
  end.

(** [compose_device_capability_registry] *)
Definition compose_device_capability_registry (g : KernelRegistry.KernelCapabilityRegistry)
    : res exn DeviceCapabilityRegistry :=
  match new_registry (KernelRegistry.reg_hardware g) (KernelRegistry.reg_environment g) with
  | Raise e => Raise e
  | Ok d => compose_loop (KernelRegistry.snapshot g) d
  end.
End compose.

(** ** Lemmas *)

Lemma capability_check_same c c' : capability_check c = Ok c' → c' = c.
Proof. unfold capability_check. intros H. run_cases H. done. Qed.
Lemma bounded_values_error l label e : bounded_values l label = Raise e → ∃ m, e = ValueError m.
Proof. unfold bounded_values. intros H. run_cases H. by eexists. Qed.
Lemma capability_text_error c e : capability_text_check c = Raise e → ∃ m, e = ValueError m.
Proof. unfold capability_text_check. intros H. run_cases H; by eexists. Qed.
Lemma capability_status_error c e : capability_status_check c = Raise e → ∃ m, e = ValueError m.
Proof. unfold capability_status_check. intros H. run_cases H; by eexists. Qed.
Lemma capability_check_error c e : capability_check c = Raise e → ∃ m, e = ValueError m.
Proof.
  unfold capability_check. intros H.
  run_cases H; eauto using bounded_values_error, capability_text_error, capability_status_error.
Qed.

Lemma record_spec c op d :
  operators c = [op] →
  match record c d with
  | (Ok _, d') => hardware_fingerprint d' = hardware_fingerprint d ∧
      environment_fingerprint d' = environment_fingerprint d ∧
      entries d' = <[(cap_backend c, op) := c]> (entries d) ∧ Zsize (entries d') <= Z.max (Zsize (entries d)) MAX_DEVICE_CAPABILITIES
  | (Raise e, d') => d' = d ∧ ∃ m, e = ValueError m
  end.
Proof.
  intros Hop. unfold record. rewrite Hop. destruct (_ || _); [by eauto|]. destruct (lifts_quarantine _ _); [by eauto|].
  destruct (_ && _) eqn:E; [by eauto|]. cbn. split_and!; try done.
  destruct (entries d !! (cap_backend c, op)) as [x|] eqn:Ex; cbn in E.
  - unfold Zsize. rewrite map_size_insert_Some by eauto. lia.
  - rewrite Zsize_insert_fresh by done. breflect. lia.
Qed.

Lemma decide_loop_spec d r bs el rej :
  decide_loop d r bs el rej =
  (el ++ filter (λ b, rejection d r b = None) bs, rej ++ omap (λ b, (b,.) <$> rejection d r b) bs).
Proof.
  revert el rej. induction bs as [|b bs IH]; intros el rej; cbn [decide_loop].
  - by rewrite !app_nil_r.
  - cbn [omap list_omap]. rewrite filter_cons. destruct (rejection d r b) as [why|] eqn:E; cbn.
    + rewrite decide_False by done. by rewrite IH, <-app_assoc.
    + rewrite decide_True by done. by rewrite IH, <-app_assoc.
Qed.

Definition probe_key (r : KernelRegistry.KernelProbeResult) : ExecutionBackend * string :=
  (KernelRegistry.backend r, KernelRegistry.operator r).

Lemma snapshot_keys g :
  KernelRegistry.registry_inv g → NoDup (probe_key <$> KernelRegistry.snapshot g).
Proof.
  intros [Hk _]. unfold KernelRegistry.snapshot. rewrite <-list_fmap_compose.
  assert (Hsame : (probe_key ∘ snd) <$> map_to_list (KernelRegistry.results g) = fst <$> map_to_list (KernelRegistry.results g)).
  { apply Forall_fmap_ext_1, Forall_forall. intros [[b op] r] Hr%elem_of_map_to_list.
    destruct (Hk b op r Hr) as (Hb & Ho & _). unfold probe_key. cbn. by rewrite Hb, Ho. }
  rewrite (fmap_Permutation _ _ _ (merge_sort_Permutation _ _)), Hsame. apply NoDup_fst_map_to_list.
Qed.

Section composition.
Context (backend_versions : ExecutionBackend → option string).
Context (phases_by_operator : string → option (list WorkloadPhase)).
Context (precisions_by_operator : string → option (list string)).
#[local] Abbreviation composed := (composed_capability backend_versions phases_by_operator precisions_by_operator).
#[local] Abbreviation loop := (compose_loop backend_versions phases_by_operator precisions_by_operator).

(** What the composition makes of a probe result. *)
Record capability_of (r : KernelRegistry.KernelProbeResult) (c : DeviceCapability) : Prop := {
  of_backend : cap_backend c = KernelRegistry.backend r;
  of_operators : operators c = [KernelRegistry.operator r];
  of_status : status c = if KernelRegistry.passed r then "available" else "quarantined";
  of_phases : phases_by_operator (KernelRegistry.operator r) = Some (phases c);
  of_precisions : precisions_by_operator (KernelRegistry.operator r) = Some (precisions c);
}.

Lemma composed_spec r :
  match composed r with Ok c => capability_of r c | Raise e => ∃ m, e = ValueError m end.
Proof.
  unfold composed_capability. destruct (backend_versions _) as [v|]; [|by eexists].
  destruct (phases_by_operator _) as [ps|] eqn:Eps; [|by eexists].
  destruct (precisions_by_operator _) as [precs|] eqn:Eprecs; [|by eexists].
  destruct (device_capability_from_probe _ _ _ _ _) as [c|e] eqn:Ec; [|by eapply capability_check_error].
  apply capability_check_same in Ec as ->. by split.
Qed.

Lemma compose_loop_spec rs d :
  NoDup (probe_key <$> rs) →
  match loop rs d with
  | Ok d' => (∀ r, r ∈ rs → ∃ c, entries d' !! probe_key r = Some c ∧ capability_of r c) ∧
      (∀ k, k ∉ probe_key <$> rs → entries d' !! k = entries d !! k)
  | Raise e => ∃ m, e = ValueError m
  end.
Proof.
  revert d. induction rs as [|r rs IH]; intros d Hnd; cbn [compose_loop]; [by split; [set_solver|done]|].
  rewrite fmap_cons in Hnd. apply NoDup_cons in Hnd as [Hr Hnd].
  pose proof (composed_spec r) as Hc. destruct (composed r) as [c|e]; [|done].
  pose proof (record_spec c _ d (of_operators _ _ Hc)) as Hrec.
  destruct (record c d) as [[[]|e] d1]; [|by destruct Hrec]. destruct Hrec as (_ & _ & He & _).
  specialize (IH d1 Hnd). destruct (loop rs d1) as [d'|e]; [|done]. destruct IH as [Hin Hout].
  rewrite (of_backend _ _ Hc) in He. fold (probe_key r) in He. split.
  - intros r' [->|Hr']%elem_of_cons; [|by apply Hin]. exists c. rewrite (Hout _ Hr), He. by rewrite lookup_insert_eq.
  - intros k Hk. rewrite fmap_cons, not_elem_of_cons in Hk. destruct Hk as [Hk1 Hk2].
    by rewrite (Hout k Hk2), He, lookup_insert_ne.
Qed.

(** The kernel probe supports a backend for a request, with the metadata given. *)
Definition supported (g : KernelRegistry.KernelCapabilityRegistry) (r : DeviceEligibilityRequest)
    (b : ExecutionBackend) : bool :=
  KernelRegistry.is_usable b (req_operator r) g
  && match phases_by_operator (req_operator r) with Some ps => bool_decide (req_phase r ∈ ps) | None => false end
  && match precisions_by_operator (req_operator r) with
     | Some ps => bool_decide (req_precision r ∈ ps) | None => false end.

Lemma composed_rejection g d r b :
  KernelRegistry.registry_inv g →
  compose_device_capability_registry backend_versions phases_by_operator precisions_by_operator g = Ok d →
  (rejection d r b = None ↔ supported g r b = true) ∧
  (rejection d r b = Some "unprobed" ↔ KernelRegistry.results g !! (b, req_operator r) = None) ∧
  (rejection d r b = Some "quarantined" ↔
     ∃ p, KernelRegistry.results g !! (b, req_operator r) = Some p ∧ KernelRegistry.quarantined p = true).
Proof.
  intros Hinv Hd. unfold compose_device_capability_registry, new_registry in Hd. destruct (_ || _); [done|].
  pose proof (compose_loop_spec _ (mkRegistry (KernelRegistry.reg_hardware g) (KernelRegistry.reg_environment g) ∅)
    (snapshot_keys g Hinv)) as Hs. rewrite Hd in Hs. destruct Hs as [Hin Hout].
  unfold rejection, supported, KernelRegistry.is_usable. destruct Hinv as [Hk _].
  destruct (KernelRegistry.results g !! (b, req_operator r)) as [p|] eqn:Ep.
  - destruct (Hk _ _ _ Ep) as (Hb & Ho & Hq).
    destruct (Hin p ltac:(apply KernelRegistry.elem_of_snapshot; eauto)) as (c & Hc & Hof).
    unfold probe_key in Hc. rewrite Hb, Ho in Hc. rewrite Hc.
    rewrite (of_status _ _ Hof), (of_operators _ _ Hof), <-Ho, (of_phases _ _ Hof), (of_precisions _ _ Hof).
    rewrite (bool_decide_eq_true_2 (KernelRegistry.operator p ∈ [_])) by left.
    destruct (KernelRegistry.passed p), (KernelRegistry.quarantined p) eqn:Eq; try done; cbn.
    + do 2 destruct (bool_decide _); cbn; split_and!; try done; (split; [done|]); intros (? & [= <-] & ?); congruence.
    + split_and!; try done. split; [by exists p|done].
  - rewrite Hout; [cbn [entries]; rewrite lookup_empty|].
    + split_and!; try done. split; [done|]. by intros (? & ? & _).
    + intros (p & Hp1 & (k & Hp2)%KernelRegistry.elem_of_snapshot)%list_elem_of_fmap. destruct k as [b' op'].
      destruct (Hk _ _ _ Hp2) as (H1 & H2 & _). unfold probe_key in Hp1. congruence.
Qed.

(** A registry composed from kernel probes decides as the probes do.  The
    composition raises nothing but a [ValueError]; for every request the composed
    registry selects the first candidate with a passed, unquarantined probe whose
    operator was given the phase and the precision, falls back to the others in
    order, rejects every other candidate, as unprobed or quarantined exactly when
    the kernel registry says so, and raises exactly when no candidate is left. *)
Theorem composed_decision_exact g :
  KernelRegistry.registry_inv g →
  match compose_device_capability_registry backend_versions phases_by_operator precisions_by_operator g with
  | Raise e => ∃ m, e = ValueError m
  | Ok d => ∀ r,
      match decide d r with
      | Ok dec =>
          selected dec :: fallback_chain dec = filter (λ b, supported g r b = true) (req_candidates r) ∧
          (rejected dec).*1 = filter (λ b, supported g r b ≠ true) (req_candidates r) ∧
          ∀ b why, (b, why) ∈ rejected dec →
            (why = "unprobed" ↔ KernelRegistry.results g !! (b, req_operator r) = None) ∧
            (why = "quarantined" ↔ ∃ p, KernelRegistry.results g !! (b, req_operator r) = Some p ∧
                                        KernelRegistry.quarantined p = true)
      | Raise e => e = RuntimeError "device capability fallback chain is exhausted" ∧
          ∀ b, b ∈ req_candidates r → supported g r b = false
      end
  end.
Proof.
  intros Hinv. destruct (compose_device_capability_registry _ _ _ g) as [d|e] eqn:Hd.
  - intros r. pose proof (composed_rejection g d r) as Hrej. unfold decide. rewrite decide_loop_spec. cbn [app].
    assert (Hel : filter (λ b, rejection d r b = None) (req_candidates r) = filter (λ b, supported g r b = true) (req_candidates r)).
    { apply list_filter_iff. intros b. apply (Hrej b Hinv Hd). }
    assert (Hre : (omap (λ b, (b,.) <$> rejection d r b) (req_candidates r)).*1 = filter (λ b, supported g r b ≠ true) (req_candidates r)).
    { clear Hel. induction (req_candidates r) as [|b bs IH]; [done|]. cbn [omap list_omap]. rewrite filter_cons.
      destruct (Hrej b Hinv Hd) as [Hb _]. destruct (rejection d r b) as [why|]; cbn.
      - rewrite decide_True by (intros Hs; by apply Hb in Hs). by rewrite <-IH.
      - rewrite decide_False by (intros Hs; by apply Hs, Hb). done. }
    destruct (filter (λ b, rejection d r b = None) _) as [|b bs] eqn:Ef.
    + split; [done|]. intros b Hb. apply not_true_iff_false. intros Hs.
      assert (b ∈ filter (λ b, supported g r b = true) (req_candidates r)) as Hin by by apply list_elem_of_filter.
      rewrite <-Hel in Hin. by apply elem_of_nil in Hin.
    + cbn [selected fallback_chain rejected]. split_and!; [done|done|]. intros b' why Hin.
      apply list_elem_of_omap in Hin as (b2 & _ & Hw). destruct (rejection d r b2) as [w|] eqn:Ew; [|done].
      injection Hw as -> ->. destruct (Hrej b' Hinv Hd) as (_ & Hu & Hq). rewrite <-Hu, <-Hq, Ew. split; split; congruence.
  - unfold compose_device_capability_registry, new_registry in Hd. destruct (_ || _); [injection Hd as <-; by eexists|].
    pose proof (compose_loop_spec _ (mkRegistry (KernelRegistry.reg_hardware g) (KernelRegistry.reg_environment g) ∅)
      (snapshot_keys g Hinv)) as Hs. by rewrite Hd in Hs.
Qed.
End composition.

(** The quarantine of the registry is lifted in two steps: an unavailable capability
    may replace a quarantined one, and an available one may replace that. *)
Definition demo_capability (s reason : string) : DeviceCapability :=
  mkCapability NATIVE_MLX DEV_GPU "1" "m3" "env" ["matmul"] [PREFILL] ["fp16"] s reason
    ["0123456789abcdef01234567"] 1.
Lemma quarantine_lifted_in_two_steps :
  let quarantined := demo_capability "quarantined" "correctness_mismatch" in
  let unavailable := demo_capability "unavailable" "busy" in
  let available := demo_capability "available" "probe_passed" in
  capability_check quarantined = Ok quarantined ∧ capability_check unavailable = Ok unavailable ∧
  capability_check available = Ok available ∧
  let d := (record quarantined (mkRegistry "m3" "env" ∅)).2 in
  (record available d).1 = Raise (ValueError "device capability quarantine is sticky") ∧
  decide (record available (record unavailable d).2).2 (mkRequest "matmul" PREFILL "fp16" [NATIVE_MLX]) =
    Ok (mkDecision NATIVE_MLX [] []).
Proof. vm_compute. repeat split. Qed.

(** ** Witness *)

Definition demo_probe (b : ExecutionBackend) (ok : bool) : KernelRegistry.KernelProbeResult :=
  {| KernelRegistry.schema_version := 1; KernelRegistry.probe_id := "0123456789abcdef01234567";
     KernelRegistry.hardware_fingerprint := "m3"; KernelRegistry.environment_fingerprint := "env";
     KernelRegistry.backend := b; KernelRegistry.operator := "matmul"; KernelRegistry.samples_completed := 3;
     KernelRegistry.baseline_latency_nanoseconds := Some 10; KernelRegistry.candidate_latency_nanoseconds := Some 9;
     KernelRegistry.slowdown_ratio := None; KernelRegistry.passed := ok; KernelRegistry.quarantined := negb ok;
     KernelRegistry.reason := if ok then "passed" else "probe_error" |}.
Definition demo_kernels : KernelRegistry.KernelCapabilityRegistry :=
  (KernelRegistry.record (demo_probe NATIVE_MLX true)
    (KernelRegistry.record (demo_probe VLLM_METAL false) (KernelRegistry.mkRegistry "m3" "env" 8 ∅)).2).2.
Lemma demo_kernels_inv : KernelRegistry.registry_inv demo_kernels.
Proof.
  apply KernelRegistry.record_inv; [reflexivity|]. apply KernelRegistry.record_inv; [reflexivity|].
  split; [done|]. cbn. rewrite map_size_empty. lia.
Qed.

Lemma composed_decision_exact_witness :
  let versions := λ _ : ExecutionBackend, Some "1" in
  let phases := λ op, if str_eqb op "matmul" then Some [PREFILL; DECODE] else None in
  let precisions := λ _ : string, Some ["fp16"] in
  let r := mkRequest "matmul" DECODE "fp16" [VLLM_METAL; NATIVE_METAL; NATIVE_MLX] in
  match compose_device_capability_registry versions phases precisions demo_kernels with
  | Raise e => ∃ m, e = ValueError m
  | Ok d =>
      decide d r = Ok (mkDecision NATIVE_MLX [] [(VLLM_METAL, "quarantined"); (NATIVE_METAL, "unprobed")]) ∧
      match decide d r with
      | Ok dec =>
          selected dec :: fallback_chain dec = filter (λ b, supported phases precisions demo_kernels r b = true) (req_candidates r)
      | Raise _ => False
      end
  end.
Proof.
  intros versions phases precisions r.
  pose proof (composed_decision_exact versions phases precisions demo_kernels demo_kernels_inv) as H.
  destruct (compose_device_capability_registry versions phases precisions demo_kernels) as [d|e] eqn:Hd; [|exact H].
  vm_compute in Hd. injection Hd as <-. split; [vm_compute; reflexivity|].
  specialize (H r). destruct (decide _ r) as [dec|e] eqn:E; [exact (proj1 H)|].
  vm_compute in E. discriminate E.
Defined.

End DeviceCapability.
