(* ===== verification/EncoderPipeline.v ===== *)
(** * The asynchronous encoder and language-model pipeline (device_pipeline.py)

    Promotion of fixed graphs to the Neural Engine, and [AsyncEncoderLLMPipeline]:
    a bounded pool of two-stage tasks over the shared device ledger.  A task is a
    state machine that the threads of the pool, or the caller of [execute_inline],
    advance one call of the ledger at a time; what the encoder and the consumer
    return is the choice of the environment, which also uses the ledger. *)

From S2P Require Import Prelude Types DeviceResources OperatorDispatch KernelProbe DeviceCapability.

Module EncoderPipeline.
Import DeviceResources.

(** ** Routes *)

Inductive ANEAuxiliaryWorkload := W_VISION_ENCODER | W_AUDIO_ENCODER | W_EMBEDDING | W_CLASSIFIER.
Definition ANEAuxiliaryWorkload_value (w : ANEAuxiliaryWorkload) : string :=
  match w with
  | W_VISION_ENCODER => "vision_encoder" | W_AUDIO_ENCODER => "audio_encoder"
  | W_EMBEDDING => "embedding" | W_CLASSIFIER => "classifier"
  end.

Record ANEAuxiliaryRoute := mkRoute {
  workload : ANEAuxiliaryWorkload;
  route_operator : string;
  route_precision : string;
  route_capability_id : string;
}.

(** [require_ane_auxiliary_route] *)
Definition require_ane_auxiliary_route (sha256 : string → string) (d : DeviceCapability.DeviceCapabilityRegistry)
    (w : ANEAuxiliaryWorkload) (op precision : string) : res exn ANEAuxiliaryRoute :=
  if negb (String.prefix (ANEAuxiliaryWorkload_value w +:+ "@") op)
  then Raise (ValueError "ANE auxiliary operator does not match workload")
  else
    match DeviceCapability.eligibility_check (DeviceCapability.mkRequest op AUXILIARY precision [COREML_DRAFT]) with
    | Raise e => Raise e
    | Ok request =>
        match DeviceCapability.decide d request with
        | Raise e => Raise e
        | Ok decision =>
            match List.find (λ c, bool_decide (DeviceCapability.cap_backend c = DeviceCapability.selected decision)
                                  && bool_decide (DeviceCapability.operators c = [op]))
                    (DeviceCapability.snapshot d) with
            | Some c =>
                if str_eqb (DeviceCapability.status c) "available"
                then Ok (mkRoute w op precision (DeviceCapability.capability_id sha256 c))
                else Raise (RuntimeError "ANE auxiliary capability evidence is unavailable")
            | None => Raise (RuntimeError "ANE auxiliary capability evidence is unavailable")
            end
        end
    end.

(** ** Tasks *)

Record EncoderLLMPipelineResult (R : Type) := mkResult {
  output : R;
  encoder_backend : ExecutionBackend;
  llm_backend : ExecutionBackend;
  capability_id : string;
  elapsed_nanoseconds : Z;
}.
Arguments mkResult {R}. Arguments output {R}. Arguments encoder_backend {R}. Arguments llm_backend {R}.
Arguments capability_id {R}. Arguments elapsed_nanoseconds {R}.

(** Where the run of [_execute] for a task stands.  A settled task has its outcome,
    or none when its future was cancelled; retiring it returns its slot. *)
Inductive Phase (V R : Type) :=
| Queued
| Encoding (started : Z) (rid : string)
| Encoded (started : Z) (value : V)
| Consuming (started : Z) (rid : string) (value : V)
| Settled (outcome : option (res exn (EncoderLLMPipelineResult R)))
| Retired (outcome : option (res exn (EncoderLLMPipelineResult R))).
Arguments Queued {V R}. Arguments Encoding {V R}. Arguments Encoded {V R}. Arguments Consuming {V R}.
Arguments Settled {V R}. Arguments Retired {V R}.

Record Task (V R : Type) := mkTask {
  task_route : ANEAuxiliaryRoute;
  encoder_memory_bytes : Z;
  task_llm_backend : ExecutionBackend;
  llm_memory_bytes : Z;
  inline : bool;
  phase : Phase V R;
}.
Arguments mkTask {V R}. Arguments task_route {V R}. Arguments encoder_memory_bytes {V R}.
Arguments task_llm_backend {V R}. Arguments llm_memory_bytes {V R}. Arguments inline {V R}. Arguments phase {V R}.

Record AsyncEncoderLLMPipeline (V R : Type) := mkPipeline {
  ledger : Ledger;
  capability_registry : DeviceCapability.DeviceCapabilityRegistry;
  maximum_pending : Z;
  slots : Z;
  closed : bool;
  tasks : list (Task V R);
}.
Arguments mkPipeline {V R}. Arguments ledger {V R}. Arguments capability_registry {V R}.
Arguments maximum_pending {V R}. Arguments slots {V R}. Arguments closed {V R}. Arguments tasks {V R}.

Definition GPU_BACKENDS : list ExecutionBackend := [VLLM_METAL; NATIVE_MLX; NATIVE_METAL].

Section pipeline.
Context {V R : Type} (sha256 : string → string).
#[local] Abbreviation Pipeline := (AsyncEncoderLLMPipeline V R).
#[local] Abbreviation task := (Task V R).

(** [AsyncEncoderLLMPipeline.__init__] *)
Definition new_pipeline (l : Ledger) (d : DeviceCapability.DeviceCapabilityRegistry) (maximum : Z) : res exn Pipeline :=
  check ((1 <=? maximum) && (maximum <=? 64)) (ValueError "invalid asynchronous encoder pipeline configuration")
    (mkPipeline l d maximum maximum false []).
(** The threads of the pool. *)
Definition workers (p : Pipeline) : Z := Z.min (maximum_pending p) 8.

Definition set_slots_tasks (n : Z) (ts : list task) (p : Pipeline) : Pipeline :=
  mkPipeline (ledger p) (capability_registry p) (maximum_pending p) n (closed p) ts.
Definition set_ledger_tasks (l : Ledger) (ts : list task) (p : Pipeline) : Pipeline :=
  mkPipeline l (capability_registry p) (maximum_pending p) (slots p) (closed p) ts.

(** The checks [submit] and [execute_inline] begin with. *)
Definition request_check (r : ANEAuxiliaryRoute) (encoder_bytes : Z) (llm : ExecutionBackend) (llm_bytes : Z)
    (p : Pipeline) : res exn () :=
  if negb (bool_decide (llm ∈ GPU_BACKENDS)) || (encoder_bytes <? 0) || (llm_bytes <? 0)
  then Raise (ValueError "invalid encoder LLM pipeline request")
  else
    match require_ane_auxiliary_route sha256 (capability_registry p) (workload r) (route_operator r) (route_precision r) with
    | Raise e => Raise e
    | Ok current =>
        check (str_eqb (route_capability_id current) (route_capability_id r))
          (RuntimeError "ANE auxiliary capability evidence is stale") ()
    end.

(** The slot taken under the lock. *)
Definition take_slot : Py Pipeline () := λ p,
  if closed p then (Raise (RuntimeError "encoder LLM pipeline is closed"), p)
  else if slots p <=? 0 then (Raise (RuntimeError "encoder LLM pipeline queue is full"), p)
  else (Ok (), set_slots_tasks (slots p - 1) (tasks p) p).

(** [submit]: [refused] is what the pool raised instead of queueing the work. *)
Definition submit (refused : option exn) (r : ANEAuxiliaryRoute) (encoder_bytes : Z) (llm : ExecutionBackend)
    (llm_bytes : Z) : Py Pipeline nat := λ p,
  match request_check r encoder_bytes llm llm_bytes p with
  | Raise e => (Raise e, p)
  | Ok _ =>
      match take_slot p with
      | (Raise e, p') => (Raise e, p')
      | (Ok _, p') =>
          match refused with
          | Some e => (Raise e, set_slots_tasks (slots p' + 1) (tasks p') p')
          | None => (Ok (length (tasks p')),
                     set_slots_tasks (slots p') (tasks p' ++ [mkTask r encoder_bytes llm llm_bytes false Queued]) p')
          end
      end
  end.

(** The part of [execute_inline] before it calls [_execute]. *)
Definition enter_inline (r : ANEAuxiliaryRoute) (encoder_bytes : Z) (llm : ExecutionBackend) (llm_bytes : Z)
    : Py Pipeline nat := λ p,
  match request_check r encoder_bytes llm llm_bytes p with
  | Raise e => (Raise e, p)
  | Ok _ =>
      match take_slot p with
      | (Raise e, p') => (Raise e, p')
      | (Ok _, p') =>
          (Ok (length (tasks p')),
           set_slots_tasks (slots p') (tasks p' ++ [mkTask r encoder_bytes llm llm_bytes true Queued]) p')
      end
  end.

(** [_consume_checked] *)
Definition consume_checked {W} (raise_if_cancelled : Py W ()) (consume : V → Py W R) (value : V) : Py W R :=
  raise_if_cancelled ;;; let! result := consume value in raise_if_cancelled ;;; ret result.

(** [self._ledger.reserve(DeviceResourceRequest.for_backend(backend, bytes))] *)
Definition reserve_backend (uuid : string) (b : ExecutionBackend) (bytes : Z) : Py Ledger string :=
  let! request := lift (for_backend b bytes) in
  let! reservation := reserve uuid request None in
  ret (reservation_id reservation).

(** What moves a task on: the thread begins the next stage, drawing an identifier
    and reading the clock, or a callable ends; an inline request may find its
    context cancelled before it starts. *)
Inductive Event :=
| Begin (uuid : string) (now : Z)
| EncodeEnds (r : res exn V)
| ConsumeEnds (r : res exn R) (now : Z)
| CancelledAtStart (e : exn).

(** [_execute], one call of the ledger at a time. *)
Definition advance (ev : Event) (t : task) (l : Ledger) : option (Phase V R * Ledger) :=
  match phase t, ev with
  | Queued, CancelledAtStart e => if inline t then Some (Settled (Some (Raise e)), l) else None
  | Queued, Begin uuid now =>
      match reserve_backend uuid COREML_DRAFT (encoder_memory_bytes t) l with
      | (Ok rid, l') => Some (Encoding now rid, l')
      | (Raise e, l') => Some (Settled (Some (Raise e)), l')
      end
  | Encoding started rid, EncodeEnds r =>
      let l' := (release rid l).2 in
      match r with
      | Ok v => Some (Encoded started v, l')
      | Raise e => Some (Settled (Some (Raise e)), l')
      end
  | Encoded started v, Begin uuid _ =>
      match reserve_backend uuid (task_llm_backend t) (llm_memory_bytes t) l with
      | (Ok rid, l') => Some (Consuming started rid v, l')
      | (Raise e, l') => Some (Settled (Some (Raise e)), l')
      end
  | Consuming started rid _, ConsumeEnds r now =>
      let l' := (release rid l).2 in
      match r with
      | Ok x => Some (Settled (Some (Ok (mkResult x COREML_DRAFT (task_llm_backend t)
                        (route_capability_id (task_route t)) (Z.max 1 (now - started))))), l')
      | Raise e => Some (Settled (Some (Raise e)), l')
      end
  | _, _ => None
  end.

Definition with_phase (ph : Phase V R) (t : task) : task :=
  mkTask (task_route t) (encoder_memory_bytes t) (task_llm_backend t) (llm_memory_bytes t) (inline t) ph.
Definition is_queued (t : task) : bool := match phase t with Queued => true | _ => false end.
(** A future of the pool that has not started can be cancelled. *)
Definition cancel_task (t : task) : task :=
  if negb (inline t) && is_queued t then with_phase (Settled None) t else t.

(** The done callback, and the [finally] of [execute_inline]. *)
Definition retire (i : nat) (p : Pipeline) : Pipeline :=
  match tasks p !! i with
  | Some t => match phase t with
              | Settled o => set_slots_tasks (slots p + 1) (<[i := with_phase (Retired o) t]> (tasks p)) p
              | _ => p
              end
  | None => p
  end.

(** [close]: the flag under the lock, then the shutdown of the pool, which cancels
    what has not started. *)
Definition close_flag (p : Pipeline) : Pipeline :=
  mkPipeline (ledger p) (capability_registry p) (maximum_pending p) (slots p) true (tasks p).
Definition shutdown (p : Pipeline) : Pipeline := set_slots_tasks (slots p) (cancel_task <$> tasks p) p.

(** ** The system

    The pipeline with the identifiers its tasks have drawn for reservations. *)

Record System := mkSystem { pipe : Pipeline; drawn : gset string }.

(** The reservation a task holds, and the request it was made for. *)
Definition holding (t : task) : option string :=
  match phase t with Encoding _ rid | Consuming _ rid _ => Some rid | _ => None end.
Definition requested (t : task) : res exn DeviceResourceRequest :=
  match phase t with
  | Consuming _ _ _ => for_backend (task_llm_backend t) (llm_memory_bytes t)
  | _ => for_backend COREML_DRAFT (encoder_memory_bytes t)
  end.
Definition is_retired (t : task) : bool := match phase t with Retired _ => true | _ => false end.
(** The task occupies a thread of the pool. *)
Definition on_pool (t : task) : bool :=
  negb (inline t) && match phase t with Encoding _ _ | Encoded _ _ | Consuming _ _ _ => true | _ => false end.
Definition count (f : task → bool) (ts : list task) : Z := Zsum ((λ t, Z.b2z (f t)) <$> ts).
Definition outstanding (p : Pipeline) : Z := count (λ t, negb (is_retired t)) (tasks p).
Definition busy (p : Pipeline) : Z := count on_pool (tasks p).

(** A queued task of the pool starts when a thread is free. *)
Definition may_happen (p : Pipeline) (t : task) (ev : Event) : Prop :=
  match ev with Begin _ _ => is_queued t = true → inline t = true ∨ busy p < workers p | _ => True end.
(** Identifiers drawn by uuid4 are new. *)
Definition fresh (ev : Event) (s : System) : Prop :=
  match ev with
  | Begin uuid _ => (uuid ∉ drawn s) ∧ reservations (ledger (pipe s)) !! uuid = None
  | _ => True
  end.
Definition draw (ev : Event) (s : System) : gset string :=
  match ev with Begin uuid _ => {[uuid]} ∪ drawn s | _ => drawn s end.
(** Other components use the ledger under their own identifiers. *)
Definition foreign (o : op) (s : System) : Prop :=
  match o with
  | OpReserve u _ _ => u ∉ drawn s
  | OpReserveMany us _ => Forall (λ u, ¬ (u ∈ drawn s)) us
  | OpTransfer k _ | OpRelease k => k ∉ drawn s
  | _ => True
  end.

Inductive step : System → System → Prop :=
| step_submit refused r eb llm lb s :
    step s (mkSystem (submit refused r eb llm lb (pipe s)).2 (drawn s))
| step_inline r eb llm lb s :
    step s (mkSystem (enter_inline r eb llm lb (pipe s)).2 (drawn s))
| step_advance i t ev ph l s :
    tasks (pipe s) !! i = Some t → may_happen (pipe s) t ev → fresh ev s →
    advance ev t (ledger (pipe s)) = Some (ph, l) →
    step s (mkSystem (set_ledger_tasks l (<[i := with_phase ph t]> (tasks (pipe s))) (pipe s)) (draw ev s))
| step_cancel i t s :
    tasks (pipe s) !! i = Some t →
    step s (mkSystem (set_slots_tasks (slots (pipe s)) (<[i := cancel_task t]> (tasks (pipe s))) (pipe s)) (drawn s))
| step_retire i s : step s (mkSystem (retire i (pipe s)) (drawn s))
| step_close s : step s (mkSystem (close_flag (pipe s)) (drawn s))
| step_shutdown s : closed (pipe s) = true → step s (mkSystem (shutdown (pipe s)) (drawn s))
| step_ledger o s :
    op_ok o (ledger (pipe s)) → foreign o s →
    step s (mkSystem (set_ledger_tasks (run_op o (ledger (pipe s))).2 (tasks (pipe s)) (pipe s)) (drawn s))
| step_registry c s :
    step s (mkSystem (mkPipeline (ledger (pipe s)) (DeviceCapability.record c (capability_registry (pipe s))).2
                        (maximum_pending (pipe s)) (slots (pipe s)) (closed (pipe s)) (tasks (pipe s))) (drawn s)).

(** ** The invariant *)

Record inv (maximum : Z) (s : System) : Prop := {
  inv_ledger : ledger_inv (ledger (pipe s));
  inv_maximum : maximum_pending (pipe s) = maximum ∧ 1 <= maximum;
  inv_slots : 0 <= slots (pipe s) ∧ slots (pipe s) + outstanding (pipe s) = maximum;
  inv_busy : busy (pipe s) <= workers (pipe s);
  inv_held i t rid : tasks (pipe s) !! i = Some t → holding t = Some rid →
    rid ∈ drawn s ∧ ∃ r, requested t = Ok r ∧ reservations (ledger (pipe s)) !! rid = Some r;
  inv_drawn rid : rid ∈ drawn s → is_Some (reservations (ledger (pipe s)) !! rid) →
    ∃ i t, tasks (pipe s) !! i = Some t ∧ holding t = Some rid;
  inv_distinct i j t u rid : tasks (pipe s) !! i = Some t → tasks (pipe s) !! j = Some u →
    holding t = Some rid → holding u = Some rid → i = j;
}.

Lemma count_insert f ts i t t' :
  ts !! i = Some t → count f (<[i := t']> ts) = count f ts - Z.b2z (f t) + Z.b2z (f t').
Proof.
  revert i. induction ts as [|u ts IH]; intros [|i] Hi; [done..| |].
  - injection Hi as ->. unfold count. cbn. lia.
  - change (<[S i := t']> (u :: ts)) with (u :: <[i := t']> ts). unfold count in *. rewrite !Zsum_fmap_cons, (IH i Hi). lia.
Qed.
Lemma count_app f ts t : count f (ts ++ [t]) = count f ts + Z.b2z (f t).
Proof. unfold count. rewrite fmap_app, Zsum_app. cbn. lia. Qed.

(** Two tasks the invariant does not tell apart. *)
Record alike (t u : task) : Prop := {
  alike_holding : holding u = holding t;
  alike_requested : holding t ≠ None → requested u = requested t;
  alike_retired : is_retired u = is_retired t;
  alike_pool : on_pool u = on_pool t;
}.
Lemma alike_refl t : alike t t.
Proof. by split. Qed.
Lemma cancel_alike t : alike t (cancel_task t).
Proof.
  unfold cancel_task. destruct (negb (inline t) && is_queued t) eqn:E; [|apply alike_refl].
  apply andb_prop in E as [_ E]. unfold is_queued in E. destruct t as [? ? ? ? inl ph]. cbn in *.
  by destruct ph.
Qed.
Lemma count_alike f ts us :
  (∀ t u, alike t u → f u = f t) → Forall2 alike ts us → count f us = count f ts.
Proof.
  intros Hf. unfold count. induction 1 as [|t u ts us Htu Hs IH]; [done|]. by rewrite !Zsum_fmap_cons, IH, (Hf t u Htu).
Qed.
Lemma inv_alike m s s' :
  inv m s → ledger (pipe s') = ledger (pipe s) → maximum_pending (pipe s') = maximum_pending (pipe s) →
  slots (pipe s') = slots (pipe s) → drawn s' = drawn s → Forall2 alike (tasks (pipe s)) (tasks (pipe s')) → inv m s'.
Proof.
  intros [H1 H2 H3 H4 H5 H6 H7] El Em Es Ed Ht.
  assert (Hback : ∀ i u, tasks (pipe s') !! i = Some u → ∃ t, tasks (pipe s) !! i = Some t ∧ alike t u).
  { intros i u Hu. by destruct (Forall2_lookup_r _ _ _ _ _ Ht Hu) as (t & ? & ?); exists t. }
  split; rewrite ?El, ?Em, ?Es, ?Ed; try done.
  - unfold outstanding. rewrite (count_alike _ (tasks (pipe s))); [done| |done]. intros t u Htu. by rewrite (alike_retired _ _ Htu).
  - unfold busy, workers. rewrite Em, (count_alike _ (tasks (pipe s))); [done| |done]. intros t u Htu. by rewrite (alike_pool _ _ Htu).
  - intros i u rid (t & Hi & Ha)%Hback Hh. rewrite (alike_holding _ _ Ha) in Hh.
    rewrite (alike_requested _ _ Ha) by congruence. by eapply H5.
  - intros rid Hr Hs. destruct (H6 rid Hr Hs) as (i & t & Hi & Hh). destruct (Forall2_lookup_l _ _ _ _ _ Ht Hi) as (u & Hu & Ha).
    exists i, u. by rewrite (alike_holding _ _ Ha).
  - intros i j u1 u2 rid (t1 & Hi & Ha1)%Hback (t2 & Hj & Ha2)%Hback Hh1 Hh2.
    rewrite (alike_holding _ _ Ha1) in Hh1. rewrite (alike_holding _ _ Ha2) in Hh2. by eapply H7.
Qed.
Lemma Forall2_alike_refl ts : Forall2 alike ts ts.
Proof. apply Forall_Forall2_diag, Forall_forall. intros. apply alike_refl. Qed.

(** ** Steps preserve it *)

Lemma backend_request_valid b n r : for_backend b n = Ok r → request_valid r = true.
Proof. unfold for_backend, make_request, check. intros H. by run_cases H. Qed.

Lemma reserve_backend_spec uuid b n l :
  match reserve_backend uuid b n l with
  | (Ok rid, l') => rid = uuid ∧ ∃ r, for_backend b n = Ok r ∧ l' = (run_op (OpReserve uuid r None) l).2 ∧
      reservations l' = <[uuid := r]> (reservations l)
  | (Raise _, l') => l' = l
  end.
Proof.
  unfold reserve_backend, bind, lift. destruct (for_backend b n) as [r|e]; [|done].
  destruct (reserve uuid r None l) as [[rv|e] l'] eqn:E; unfold ret.
  - assert (rv = mkReservation uuid r ∧ reservations l' = <[uuid := r]> (reservations l)) as [-> Hl].
    { unfold reserve in E. by run_cases E. }
    split; [done|]. exists r. unfold run_op, bind, ret. by rewrite E.
  - unfold reserve in E. by run_cases E.
Qed.

Lemma release_reservations rid l : reservations (release rid l).2 = delete rid (reservations l).
Proof.
  unfold release. destruct (reservations l !! rid) eqn:E; cbn; [done|]. by rewrite delete_id.
Qed.

Lemma ledger_release_inv rid l : ledger_inv l → ledger_inv (release rid l).2.
Proof.
  intros Hl. pose proof (op_preserves_inv (OpRelease rid) l I Hl) as Hp. unfold run_op, bind, ret in Hp.
  unfold release in *. by destruct (reservations l !! rid).
Qed.

(** A task that moves on reserves, releases, or leaves the ledger alone. *)
Inductive effect (ev : Event) (t t' : task) (l l' : Ledger) : Prop :=
| no_effect : holding t = None → holding t' = None → l' = l → effect ev t t' l l'
| reserves uuid now r : ev = Begin uuid now → holding t = None → holding t' = Some uuid → requested t' = Ok r →
    request_valid r = true → l' = (run_op (OpReserve uuid r None) l).2 →
    reservations l' = <[uuid := r]> (reservations l) → effect ev t t' l l'
| releases rid : holding t = Some rid → holding t' = None → l' = (release rid l).2 → effect ev t t' l l'.

Lemma advance_spec ev t l ph l' :
  advance ev t l = Some (ph, l') →
  effect ev t (with_phase ph t) l l' ∧ is_retired t = false ∧ is_retired (with_phase ph t) = false ∧
  (on_pool t = false → on_pool (with_phase ph t) = true →
     is_queued t = true ∧ inline t = false ∧ ∃ u n, ev = Begin u n).
Proof.
  unfold advance, on_pool, is_queued. destruct t as [rt eb llm lb inl p]. cbn -[reserve_backend release].
  destruct p as [|st rid|st v|st rid v|o|o], ev as [uuid now|r|r now|e]; try done.
  - pose proof (reserve_backend_spec uuid COREML_DRAFT eb l) as Hr. destruct (reserve_backend _ _ _ _) as [[rid|e] l1].
    + destruct Hr as (-> & r & Hf & Hl & Hres). intros [= <- <-]. split_and!; try done.
      * eapply reserves; try done. by eapply backend_request_valid.
      * destruct inl; [done|]. intros _ _. split_and!; [done..|by exists uuid, now].
    + subst l1. intros [= <- <-]. split_and!; try done; [by apply no_effect|]. intros _. by destruct inl.
  - destruct inl; [|done]. intros [= <- <-]. split_and!; try done. by apply no_effect.
  - destruct r as [v|e]; intros [= <- <-]; (split_and!; [by eapply releases|done|done|by destruct inl]).
  - pose proof (reserve_backend_spec uuid llm lb l) as Hr. destruct (reserve_backend _ _ _ _) as [[rid|e] l1].
    + destruct Hr as (-> & r & Hf & Hl & Hres). intros [= <- <-]. split_and!; try done.
      * eapply reserves; try done. by eapply backend_request_valid.
      * by destruct inl.
    + subst l1. intros [= <- <-]. split_and!; try done; [by apply no_effect|]. intros _. by destruct inl.
  - destruct r as [v'|e]; intros [= <- <-]; (split_and!; [by eapply releases|done|done|by destruct inl]).
Qed.

(** The reservations of the pipeline after a change of the ledger. *)
Record held_inv (ts : list task) (rs : gmap string DeviceResourceRequest) (d : gset string) : Prop := {
  held_here i t rid : ts !! i = Some t → holding t = Some rid → rid ∈ d ∧ ∃ r, requested t = Ok r ∧ rs !! rid = Some r;
  held_by_task rid : rid ∈ d → is_Some (rs !! rid) → ∃ i t, ts !! i = Some t ∧ holding t = Some rid;
  held_once i j t u rid : ts !! i = Some t → ts !! j = Some u → holding t = Some rid → holding u = Some rid → i = j;
}.
Lemma inv_held_inv m s : inv m s → held_inv (tasks (pipe s)) (reservations (ledger (pipe s))) (drawn s).
Proof. intros []. by split. Qed.

Lemma lookup_insert_cases (ts : list task) i j t u :
  (i < length ts)%nat → <[i := t]> ts !! j = Some u → i = j ∧ u = t ∨ i ≠ j ∧ ts !! j = Some u.
Proof.
  intros Hi Hj. destruct (decide (i = j)) as [->|Hne].
  - left. rewrite list_lookup_insert_eq in Hj by done. by injection Hj as <-.
  - right. by rewrite list_lookup_insert_ne in Hj.
Qed.

Lemma effect_held ev t t' l l' ts i d :
  ts !! i = Some t → effect ev t t' l l' → held_inv ts (reservations l) d →
  (∀ uuid now, ev = Begin uuid now → (uuid ∉ d) ∧ reservations l !! uuid = None) →
  held_inv (<[i := t']> ts) (reservations l') (match ev with Begin uuid _ => {[uuid]} ∪ d | _ => d end).
Proof.
  intros Hi Heff [H1 H2 H3] Hfresh. pose proof (lookup_lt_Some _ _ _ Hi) as Hlt.
  set (d' := match ev with Begin uuid _ => _ | _ => d end).
  assert (Hd : ∀ rid, rid ∈ d → rid ∈ d') by (unfold d'; destruct ev; set_solver).
  assert (Hnew : ∀ rid, rid ∈ d' → rid ∈ d ∨ ∃ now, ev = Begin rid now).
  { intros rid. unfold d'. destruct ev as [u n| | |]; [|auto..]. intros [->%elem_of_singleton|]%elem_of_union; [right; by exists n|auto]. }
  destruct Heff as [Ht Ht' ->|uuid now r -> Ht Ht' Hreq _ _ Hrs|rid Ht Ht' ->].
  - split.
    + intros j u rid [[<- ->]|[Hne Hj]]%lookup_insert_cases Hh; [congruence| |done]. destruct (H1 _ _ _ Hj Hh). auto.
    + intros rid [Hr|[now ->]]%Hnew Hs; [|destruct (Hfresh _ _ eq_refl) as [_ E]; rewrite E in Hs; by destruct Hs].
      destruct (H2 rid Hr Hs) as (j & u & Hj & Hh). exists j, u. split; [|done].
      rewrite list_lookup_insert_ne; [done|]. intros <-. congruence.
    + intros j k u v rid [[<- ->]|[? Hj]]%lookup_insert_cases [[<- ->]|[? Hk]]%lookup_insert_cases Hu Hv; try done; try congruence. by eapply H3.
  - destruct (Hfresh uuid now eq_refl) as [Hnd Hnone]. rewrite Hrs. split.
    + intros j u rid [[<- ->]|[Hne Hj]]%lookup_insert_cases Hh; [| |done].
      * assert (rid = uuid) as -> by congruence. split; [set_solver|]. exists r. by rewrite lookup_insert_eq.
      * destruct (H1 _ _ _ Hj Hh) as (Hin & r' & Hr' & Hl). split; [auto|]. exists r'. split; [done|].
        rewrite lookup_insert_ne; [done|]. intros ->. done.
    + intros rid Hr Hs. destruct (decide (rid = uuid)) as [->|Hne]; [exists i, t'; by rewrite list_lookup_insert_eq|].
      rewrite lookup_insert_ne in Hs by done. apply elem_of_union in Hr as [->%elem_of_singleton|Hr]; [done|].
      destruct (H2 rid Hr Hs) as (j & u & Hj & Hh). exists j, u. split; [|done].
      rewrite list_lookup_insert_ne; [done|]. intros <-. congruence.
    + intros j k u v rid [[<- ->]|[? Hj]]%lookup_insert_cases [[<- ->]|[? Hk]]%lookup_insert_cases Hu Hv; try done; [| |by eapply H3].
      * assert (rid = uuid) as -> by congruence. by destruct (H1 _ _ _ Hk Hv) as [? _].
      * assert (rid = uuid) as -> by congruence. by destruct (H1 _ _ _ Hj Hu) as [? _].
  - rewrite release_reservations. split.
    + intros j u rid' [[<- ->]|[Hne Hj]]%lookup_insert_cases Hh; [congruence| |done].
      destruct (H1 _ _ _ Hj Hh) as (Hin & r' & Hr' & Hl). split; [auto|]. exists r'. split; [done|].
      rewrite lookup_delete_ne; [done|]. intros ->. apply Hne. by eapply H3.
    + intros rid' Hr Hs. destruct (decide (rid = rid')) as [->|Hne]; [rewrite lookup_delete_eq in Hs; by destruct Hs|].
      rewrite lookup_delete_ne in Hs by done.
      apply Hnew in Hr as [Hr|[now ->]]; [|destruct (Hfresh _ _ eq_refl) as [_ E]; rewrite E in Hs; by destruct Hs].
      destruct (H2 rid' Hr Hs) as (j & u & Hj & Hh). exists j, u. split; [|done].
      rewrite list_lookup_insert_ne; [done|]. intros <-. congruence.
    + intros j k u v rid' [[<- ->]|[? Hj]]%lookup_insert_cases [[<- ->]|[? Hk]]%lookup_insert_cases Hu Hv; try done; try congruence. by eapply H3.
Qed.

(** Other components leave the pipeline's identifiers alone. *)
Lemma foreign_lookup o s rid :
  op_ok o (ledger (pipe s)) → foreign o s → rid ∈ drawn s →
  reservations (run_op o (ledger (pipe s))).2 !! rid = reservations (ledger (pipe s)) !! rid.
Proof.
  intros Hok Hf Hr. destruct o as [u r st|us rs|k r|e|es|k]; cbn in Hf;
    unfold run_op, bind, ret, reserve, reserve_many, transfer, install_contention_evidence, replace_contention_evidence, release.
  - op_branches; try done; by rewrite lookup_insert_ne by (intros ->; by apply Hf).
  - op_branches; try done. rewrite insert_reservations_fresh; [done|]. rewrite Forall_forall in Hf. intros Hin. by eapply Hf.
  - op_branches; try done; by rewrite lookup_insert_ne by (intros ->; by apply Hf).
  - op_branches; done.
  - op_branches; done.
  - op_branches; try done; by rewrite lookup_delete_ne by (intros ->; by apply Hf).
Qed.
Lemma held_inv_ext ts rs rs' d : held_inv ts rs d → (∀ rid, rid ∈ d → rs' !! rid = rs !! rid) → held_inv ts rs' d.
Proof.
  intros [H1 H2 H3] Heq. split; [|intros rid Hr; rewrite (Heq _ Hr); by apply H2|done].
  intros i t rid Hi Hh. destruct (H1 _ _ _ Hi Hh) as [Hr Hex]. by rewrite (Heq _ Hr).
Qed.
(** A task that holds nothing changes nothing. *)
Lemma held_inv_app ts t rs d : held_inv ts rs d → holding t = None → held_inv (ts ++ [t]) rs d.
Proof.
  intros [H1 H2 H3] Ht.
  assert (Hold : ∀ i u rid, (ts ++ [t]) !! i = Some u → holding u = Some rid → ts !! i = Some u).
  { intros i u rid Hi Hh. apply lookup_app_Some in Hi as [Hi|[_ Hi]]; [done|].
    apply list_lookup_singleton_Some in Hi as [_ ->]. congruence. }
  split.
  - intros i u rid Hi Hh. eauto.
  - intros rid Hr Hs. destruct (H2 rid Hr Hs) as (i & u & Hi & Hh). exists i, u. split; [|done]. by apply lookup_app_l_Some.
  - intros i j u v rid Hi Hj Hu Hv. eauto.
Qed.
Lemma held_inv_idle ts i t t' rs d :
  ts !! i = Some t → holding t = None → holding t' = None → held_inv ts rs d → held_inv (<[i := t']> ts) rs d.
Proof.
  intros Hi Ht Ht' [H1 H2 H3]. pose proof (lookup_lt_Some _ _ _ Hi) as Hlt. split.
  - intros j u rid [[<- ->]|[Hne Hj]]%lookup_insert_cases Hh; [congruence|by eapply H1|done].
  - intros rid Hr Hs. destruct (H2 rid Hr Hs) as (j & u & Hj & Hh). exists j, u. split; [|done].
    rewrite list_lookup_insert_ne; [done|]. intros <-. congruence.
  - intros j k u v rid [[<- ->]|[? Hj]]%lookup_insert_cases [[<- ->]|[? Hk]]%lookup_insert_cases Hu Hv; try done; try congruence.
    by eapply H3.
Qed.

(** The parts of the invariant that count slots and threads. *)
Record counted (m : Z) (p : Pipeline) : Prop := {
  counted_maximum : maximum_pending p = m ∧ 1 <= m;
  counted_slots : 0 <= slots p ∧ slots p + outstanding p = m;
  counted_busy : busy p <= workers p;
}.
Lemma inv_parts m s :
  inv m s ↔ ledger_inv (ledger (pipe s)) ∧ counted m (pipe s) ∧
    held_inv (tasks (pipe s)) (reservations (ledger (pipe s))) (drawn s).
Proof. split; [intros []; split_and!; [done|by split|by split]|]. by intros (? & [] & []); split. Qed.

(** What [submit] and [execute_inline] do to the pipeline. *)
Inductive entered (p p' : Pipeline) : Prop :=
| entered_refused : p' = p → entered p p'
| entered_queued t : 0 < slots p → phase t = Queued → p' = set_slots_tasks (slots p - 1) (tasks p ++ [t]) p → entered p p'.
Lemma take_slot_spec p :
  match take_slot p with
  | (Raise _, p') => p' = p
  | (Ok _, p') => p' = set_slots_tasks (slots p - 1) (tasks p) p ∧ 0 < slots p
  end.
Proof. unfold take_slot. destruct (closed p); [done|]. destruct (_ <=? _) eqn:E; [done|]. breflect. split; [done|lia]. Qed.
Lemma submit_entered refused r eb llm lb p : entered p (submit refused r eb llm lb p).2.
Proof.
  unfold submit. destruct (request_check _ _ _ _ _) as [_|e]; [|by apply entered_refused].
  pose proof (take_slot_spec p) as Hs. destruct (take_slot p) as [[_|e] p']; [|by apply entered_refused].
  destruct Hs as [-> Hs]. destruct refused as [e|]; cbn.
  - apply entered_refused. destruct p. unfold set_slots_tasks. cbn. f_equal. lia.
  - (eapply entered_queued; [done|..|reflexivity]; done).
Qed.
Lemma inline_entered r eb llm lb p : entered p (enter_inline r eb llm lb p).2.
Proof.
  unfold enter_inline. destruct (request_check _ _ _ _ _) as [_|e]; [|by apply entered_refused].
  pose proof (take_slot_spec p) as Hs. destruct (take_slot p) as [[_|e] p']; [|by apply entered_refused].
  destruct Hs as [-> Hs]. (eapply entered_queued; [done|..|reflexivity]; done).
Qed.
Lemma entered_inv m p p' d : entered p p' → inv m (mkSystem p d) → inv m (mkSystem p' d).
Proof.
  intros [->|t Hs Ht ->]; [done|]. rewrite !inv_parts. cbn. intros (H1 & [H2 H3 H4] & H5). split_and!; [done| |].
  - split; [done| |]; unfold outstanding, busy, workers in *; cbn [tasks slots maximum_pending set_slots_tasks set_ledger_tasks] in *; rewrite count_app; unfold on_pool at 2 || unfold is_retired at 2; rewrite Ht; cbn [negb Z.b2z].
    + lia.
    + rewrite andb_false_r. cbn [Z.b2z]. lia.
  - apply held_inv_app; [done|]. unfold holding. by rewrite Ht.
Qed.

Lemma advance_inv m s i t ev ph l :
  tasks (pipe s) !! i = Some t → may_happen (pipe s) t ev → fresh ev s →
  advance ev t (ledger (pipe s)) = Some (ph, l) → inv m s →
  inv m (mkSystem (set_ledger_tasks l (<[i := with_phase ph t]> (tasks (pipe s))) (pipe s)) (draw ev s)).
Proof.
  intros Hi Hmay Hfresh Hadv. rewrite !inv_parts. cbn. intros (Hl & [H2 H3 H4] & Hh).
  destruct (advance_spec _ _ _ _ _ Hadv) as (Heff & Hr & Hr' & Hpool). split_and!.
  - destruct Heff as [_ _ ->|uuid now r -> _ _ _ Hv -> _|rid _ _ ->]; [done| |].
    + apply op_preserves_inv; [|done]. cbn. by destruct Hfresh.
    + by apply ledger_release_inv.
  - split; [done| |]; unfold outstanding, busy, workers in *; cbn [tasks slots maximum_pending set_slots_tasks set_ledger_tasks] in *; rewrite (count_insert _ _ _ t) by done.
    + by rewrite Hr, Hr', Z.sub_add.
    + destruct (on_pool t) eqn:Et, (on_pool (with_phase ph t)) eqn:Et'; cbn; try lia.
      destruct (Hpool eq_refl eq_refl) as (Hq & Hin & u & n & ->). destruct (Hmay Hq) as [?|Hb]; [congruence|].
      unfold busy, workers in Hb. lia.
  - unfold draw. eapply effect_held; [done|done|done|]. intros uuid now ->. exact Hfresh.
Qed.

Lemma retire_inv m s i : inv m s → inv m (mkSystem (retire i (pipe s)) (drawn s)).
Proof.
  intros Hinv. unfold retire. destruct (tasks (pipe s) !! i) as [t|] eqn:Hi; [|by destruct s].
  destruct (phase t) as [|? ?|? ?|? ? ?|o|o] eqn:Ep; try by destruct s.
  revert Hinv. rewrite !inv_parts. cbn. intros (H1 & [H2 H3 H4] & H5). split_and!; [done| |].
  - split; [done| |]; unfold outstanding, busy, workers in *; cbn [tasks slots maximum_pending set_slots_tasks set_ledger_tasks] in *; rewrite (count_insert _ _ _ t) by done;
      unfold is_retired at 2 3 || unfold on_pool at 2 3; unfold with_phase; cbn [phase inline]; rewrite Ep, ?andb_false_r; cbn [Z.b2z negb]; lia.
  - eapply held_inv_idle; try done; unfold holding, with_phase; by rewrite ?Ep.
Qed.

Lemma pipeline_step_inv m s s' : step s s' → inv m s → inv m s'.
Proof.
  destruct 1 as [refused r eb llm lb s|r eb llm lb s|i t ev ph l s Hi Hmay Hf Ha|i t s Hi|i s|s|s _|o s Hok Hf|c s]; intros Hinv.
  - eapply entered_inv; [apply submit_entered|]. by destruct s.
  - eapply entered_inv; [apply inline_entered|]. by destruct s.
  - by eapply advance_inv.
  - eapply inv_alike; [done..|]. cbn. rewrite <-(list_insert_id (tasks (pipe s)) i t) at 1 by done.
    apply Forall2_insert; [apply Forall2_alike_refl|apply cancel_alike].
  - by apply retire_inv.
  - eapply inv_alike; [done..|]. apply Forall2_alike_refl.
  - eapply inv_alike; [done..|]. cbn. apply Forall2_fmap_r, Forall_Forall2_diag, Forall_forall. intros. apply cancel_alike.
  - revert Hinv. rewrite !inv_parts. cbn. intros (H1 & [H2 H3 H4] & H5). split_and!; [by apply op_preserves_inv|by split|].
    eapply held_inv_ext; [exact H5|]. intros rid Hr. by apply foreign_lookup.
  - eapply inv_alike; [done..|]. apply Forall2_alike_refl.
Qed.

Lemma new_pipeline_inv l d m p :
  new_pipeline l d m = Ok p → ledger_inv l → inv m (mkSystem p ∅).
Proof.
  unfold new_pipeline, check. intros H Hl. run_cases H. breflect. split; cbn; try done.
  - unfold outstanding, count. cbn. lia.
  - unfold busy, workers, count. cbn. lia.
Qed.
Lemma reachable_inv l d m p s :
  new_pipeline l d m = Ok p → ledger_inv l → rtc step (mkSystem p ∅) s → inv m s.
Proof.
  intros Hp Hl Hrun. eapply (rtc_invariant step (inv m)); [|by eapply new_pipeline_inv|exact Hrun].
  intros a b Ha Hab. by eapply pipeline_step_inv.
Qed.

(** ** Draining

    The steps that finish tasks, when the callables of a task end as
    [encode_outcome] and [consume_outcome] say. *)
Context (encode_outcome : nat → res exn V) (consume_outcome : nat → V → res exn R).
Definition as_chosen (i : nat) (t : task) (ev : Event) : Prop :=
  match phase t, ev with
  | Queued, Begin _ _ | Encoded _ _, Begin _ _ => True
  | Encoding _ _, EncodeEnds r => r = encode_outcome i
  | Consuming _ _ v, ConsumeEnds r _ => r = consume_outcome i v
  | _, _ => False
  end.
Inductive drain_step : System → System → Prop :=
| drain_advance i t ev ph l s :
    tasks (pipe s) !! i = Some t → as_chosen i t ev → may_happen (pipe s) t ev → fresh ev s →
    advance ev t (ledger (pipe s)) = Some (ph, l) →
    drain_step s (mkSystem (set_ledger_tasks l (<[i := with_phase ph t]> (tasks (pipe s))) (pipe s)) (draw ev s))
| drain_retire i s : drain_step s (mkSystem (retire i (pipe s)) (drawn s)).
Lemma drain_step_step s s' : drain_step s s' → step s s'.
Proof. destruct 1; by econstructor. Qed.

(** The steps a task still has to take. *)
Definition remaining (t : task) : Z :=
  match phase t with
  | Queued => 5 | Encoding _ _ => 4 | Encoded _ _ => 3 | Consuming _ _ _ => 2 | Settled _ => 1 | Retired _ => 0
  end.
Definition work (ts : list task) : Z := Zsum (remaining <$> ts).
Lemma work_insert ts i t t' : ts !! i = Some t → work (<[i := t']> ts) = work ts - remaining t + remaining t'.
Proof.
  revert i. induction ts as [|u ts IH]; intros [|i] Hi; [done..| |].
  - injection Hi as ->. unfold work. cbn. lia.
  - change (<[S i := t']> (u :: ts)) with (u :: <[i := t']> ts). unfold work in *. rewrite !Zsum_fmap_cons, (IH i Hi). lia.
Qed.
Lemma work_nonneg ts : 0 <= work ts.
Proof. apply Zsum_fmap_nonneg. intros t _. unfold remaining. destruct (phase t); lia. Qed.

Lemma advance_remaining ev t l ph l' : advance ev t l = Some (ph, l') → remaining (with_phase ph t) < remaining t.
Proof.
  unfold advance, remaining. destruct t as [rt eb llm lb inl p]. cbn -[reserve_backend release].
  destruct p as [|st rid|st v|st rid v|o|o], ev as [uuid now|r|r now|e]; try done.
  all: repeat case_match; intros; simplify_eq; cbn; lia.
Qed.
(** Unless it is queued or retired, a task can always go on. *)
Lemma task_can_go s i t :
  tasks (pipe s) !! i = Some t → is_retired t = false → is_queued t = false ∨ busy (pipe s) < workers (pipe s) →
  ∃ s', drain_step s s' ∧ work (tasks (pipe s')) < work (tasks (pipe s)).
Proof.
  intros Hi Hr Hq.
  assert (Hgo : ∀ ev ph l, as_chosen i t ev → may_happen (pipe s) t ev → fresh ev s → advance ev t (ledger (pipe s)) = Some (ph, l) →
    ∃ s', drain_step s s' ∧ work (tasks (pipe s')) < work (tasks (pipe s))).
  { intros ev ph l Hc Hm Hf Ha. eexists. split; [by eapply drain_advance|]. cbn [pipe tasks set_ledger_tasks]. rewrite (work_insert _ _ t) by done.
    apply advance_remaining in Ha. lia. }
  set (uuid := stdpp.base.fresh (drawn s ∪ dom (reservations (ledger (pipe s))))).
  assert (Hfresh : ∀ now, fresh (Begin uuid now) s).
  { intros now. pose proof (is_fresh (drawn s ∪ dom (reservations (ledger (pipe s))))) as Hn. split; [set_solver|].
    apply not_elem_of_dom. set_solver. }
  destruct (phase t) as [|st rid|st v|st rid v|o|o] eqn:Ep.
  - destruct (advance (Begin uuid 0) t (ledger (pipe s))) as [[ph l]|] eqn:Ea.
    + eapply Hgo; [|..|exact Ea]; [unfold as_chosen; by rewrite Ep| |done].
      intros _. right. destruct Hq as [Hq|Hq]; [unfold is_queued in Hq; by rewrite Ep in Hq|done].
    + unfold advance in Ea. rewrite Ep in Ea. by repeat case_match.
  - destruct (advance (EncodeEnds (encode_outcome i)) t (ledger (pipe s))) as [[ph l]|] eqn:Ea.
    + eapply Hgo; [..|exact Ea]; [unfold as_chosen; by rewrite Ep|exact I|exact I].
    + unfold advance in Ea. rewrite Ep in Ea. by repeat case_match.
  - destruct (advance (Begin uuid 0) t (ledger (pipe s))) as [[ph l]|] eqn:Ea.
    + eapply Hgo; [|..|exact Ea]; [unfold as_chosen; by rewrite Ep| |done]. intros Hqq. unfold is_queued in Hqq. by rewrite Ep in Hqq.
    + unfold advance in Ea. rewrite Ep in Ea. by repeat case_match.
  - destruct (advance (ConsumeEnds (consume_outcome i v) 0) t (ledger (pipe s))) as [[ph l]|] eqn:Ea.
    + eapply Hgo; [..|exact Ea]; [unfold as_chosen; by rewrite Ep|exact I|exact I].
    + unfold advance in Ea. rewrite Ep in Ea. by repeat case_match.
  - exists (mkSystem (retire i (pipe s)) (drawn s)). split; [apply drain_retire|]. unfold retire. rewrite Hi, Ep.
    cbn [pipe tasks set_slots_tasks]. rewrite (work_insert _ _ t) by done. unfold remaining, with_phase. rewrite Ep. cbn [phase]. lia.
  - unfold is_retired in Hr. by rewrite Ep in Hr.
Qed.

Lemma count_zero f ts : (∀ t, t ∈ ts → f t = false) → count f ts = 0.
Proof.
  intros Hf. unfold count. induction ts as [|t ts IH]; [done|]. rewrite Zsum_fmap_cons, IH, (Hf t) by set_solver. done.
Qed.
Lemma system_can_go m s :
  inv m s → Exists (λ t, is_retired t = false) (tasks (pipe s)) →
  ∃ s', drain_step s s' ∧ work (tasks (pipe s')) < work (tasks (pipe s)).
Proof.
  intros Hinv Hex. destruct (decide (Exists (λ t, is_retired t = false ∧ is_queued t = false) (tasks (pipe s)))) as [Hgo|Hall].
  - apply Exists_exists in Hgo as (t & [i Hi]%list_elem_of_lookup & Hr & Hq). by apply (task_can_go s i t); [..|left].
  - apply Exists_exists in Hex as (t & [i Hi]%list_elem_of_lookup & Hr). apply (task_can_go s i t); [done..|right].
    destruct Hinv as [_ [Hm H1] _ _ _ _ _]. unfold busy, workers. rewrite count_zero; [lia|]. intros u Hu.
    apply not_true_iff_false. intros Hp. apply Hall, Exists_exists. exists u. split; [done|].
    unfold on_pool, is_retired, is_queued in *. by destruct (phase u); rewrite ?andb_false_r in Hp.
Qed.
Lemma drained m n s :
  inv m s → (Z.to_nat (work (tasks (pipe s))) < n)%nat →
  ∃ s', rtc drain_step s s' ∧ Forall (λ t, is_retired t = true) (tasks (pipe s')).
Proof.
  revert s. induction n as [|n IH]; intros s Hinv Hn; [lia|].
  destruct (decide (Exists (λ t, is_retired t = false) (tasks (pipe s)))) as [Hex|Hno].
  - destruct (system_can_go m s Hinv Hex) as (s1 & Hs & Hw). pose proof (work_nonneg (tasks (pipe s1))).
    destruct (IH s1) as (s' & Hrun & Hall); [by eapply pipeline_step_inv; [eapply drain_step_step|]|lia|].
    exists s'. split; [by eapply rtc_l|done].
  - exists s. split; [constructor|]. apply Forall_forall. intros t Ht. apply not_false_iff_true. intros Hr.
    apply Hno, Exists_exists. by exists t.
Qed.

(** C22: the pipeline accounts for its slots and its reservations.  In every state
    the pipeline can reach, however its threads and the other users of the ledger
    interleave, the free slots and the unfinished tasks add up to the limit; no more
    tasks run than the pool has threads; every reservation the pipeline ever made
    that is still active belongs to exactly one task, for the request of the stage
    that task is in, so that a task never holds both devices, and the ledger keeps
    its own invariant. *)
Theorem encoder_pipeline_safe l d m p s :
  new_pipeline l d m = Ok p → ledger_inv l → rtc step (mkSystem p ∅) s →
  let rs := reservations (ledger (pipe s)) in
  ledger_inv (ledger (pipe s)) ∧
  0 <= slots (pipe s) ∧ slots (pipe s) + outstanding (pipe s) = m ∧ busy (pipe s) <= Z.min m 8 ∧
  (∀ rid, rid ∈ drawn s → (is_Some (rs !! rid) ↔ ∃ i t, tasks (pipe s) !! i = Some t ∧ holding t = Some rid)) ∧
  (∀ i t rid, tasks (pipe s) !! i = Some t → holding t = Some rid →
     (∃ r, requested t = Ok r ∧ rs !! rid = Some r) ∧
     ∀ j u, tasks (pipe s) !! j = Some u → holding u = Some rid → i = j).
Proof.
  intros Hp Hl Hrun. pose proof (reachable_inv _ _ _ _ _ Hp Hl Hrun) as [H1 [H2 _] [H3 H4] H5 H6 H7 H8].
  unfold workers in H5. rewrite H2 in H5. split_and!; try done.
  - intros rid Hr. split; [by apply H7|]. intros (i & t & Hi & Hh). destruct (H6 _ _ _ Hi Hh) as (_ & r & _ & Hs). by exists r.
  - intros i t rid Hi Hh. split; [by destruct (H6 _ _ _ Hi Hh)|]. intros j u Hj Hu. by eapply H8.
Qed.

(** The pipeline can always be drained.  From every state it can reach, and
    whatever the encoders and consumers return, the tasks already admitted can run to
    their end without cancelling any: then every slot is free again and none of the
    reservations ever made by the pipeline is active. *)
Theorem encoder_pipeline_drains l d m p s :
  new_pipeline l d m = Ok p → ledger_inv l → rtc step (mkSystem p ∅) s →
  ∃ s', rtc drain_step s s' ∧ Forall (λ t, is_retired t = true) (tasks (pipe s')) ∧ slots (pipe s') = m ∧
    ∀ rid, rid ∈ drawn s' → reservations (ledger (pipe s')) !! rid = None.
Proof.
  intros Hp Hl Hrun. pose proof (reachable_inv _ _ _ _ _ Hp Hl Hrun) as Hinv.
  destruct (drained m _ s Hinv (Nat.lt_succ_diag_r _)) as (s' & Hdrain & Hall). exists s'. split; [done|]. split; [done|].
  assert (Hinv' : inv m s').
  { eapply (rtc_invariant drain_step (inv m)); [|exact Hinv|exact Hdrain]. intros a b Ha Hab.
    eapply pipeline_step_inv; [by apply drain_step_step|done]. }
  rewrite Forall_forall in Hall. destruct Hinv' as [_ _ [_ H4] _ _ H7 _]. split.
  - unfold outstanding in H4. rewrite count_zero in H4; [lia|]. intros t Ht. by rewrite Hall.
  - intros rid Hr. apply eq_None_not_Some. intros Hs. destruct (H7 rid Hr Hs) as (i & t & Hi & Hh).
    apply list_elem_of_lookup_2, Hall in Hi. unfold is_retired, holding in *. by destruct (phase t).
Qed.

End pipeline.
(** ** Witnesses *)

Definition demo_sha (_ : string) : string := KernelProbe.demo_digest.
Definition demo_capability : DeviceCapability.DeviceCapability :=
  DeviceCapability.mkCapability COREML_DRAFT DeviceCapability.DEV_ANE "1" "m3" "env" ["embedding@e5"] [AUXILIARY] ["fp16"]
    "available" "probe_passed" ["0123456789abcdef01234567"] 1.
Definition demo_devices : DeviceCapability.DeviceCapabilityRegistry :=
  (DeviceCapability.record demo_capability (DeviceCapability.mkRegistry "m3" "env" ∅)).2.
Definition demo_route : ANEAuxiliaryRoute :=
  mkRoute W_EMBEDDING "embedding@e5" "fp16" (DeviceCapability.capability_id demo_sha demo_capability).
Example route_found :
  require_ane_auxiliary_route demo_sha demo_devices W_EMBEDDING "embedding@e5" "fp16" = Ok demo_route.
Proof. by vm_compute. Qed.

Definition demo_pipeline : AsyncEncoderLLMPipeline Z Z := mkPipeline DeviceResources.demo_ledger demo_devices 2 2 false [].
Definition demo_task : Task Z Z := mkTask demo_route 10 NATIVE_MLX 20 false Queued.
(** One task submitted and encoding. *)
Definition demo_submitted : System := mkSystem (submit demo_sha None demo_route 10 NATIVE_MLX 20 demo_pipeline).2 ∅.
Definition demo_encoding : System :=
  match tasks (pipe demo_submitted) !! 0%nat with
  | Some t => match advance (Begin "u1" 7) t (ledger (pipe demo_submitted)) with
              | Some (ph, l) => mkSystem (set_ledger_tasks l (<[0%nat := with_phase ph t]> (tasks (pipe demo_submitted)))
                                            (pipe demo_submitted)) {["u1"]}
              | None => demo_submitted
              end
  | None => demo_submitted
  end.
Lemma demo_ledger_ok : ledger_inv DeviceResources.demo_ledger.
Proof. split; [reflexivity| |apply map_Forall_empty]. split_and!; by vm_compute. Qed.
Lemma demo_encoding_run : rtc (step demo_sha) (mkSystem demo_pipeline ∅) demo_encoding.
Proof.
  eapply rtc_l; [exact (step_submit demo_sha None demo_route 10 NATIVE_MLX 20 (mkSystem demo_pipeline ∅))|].
  assert (Ht : tasks (pipe demo_submitted) !! 0%nat = Some demo_task) by (by vm_compute).
  destruct (advance (Begin "u1" 7) demo_task (ledger (pipe demo_submitted)))
    as [[ph l]|] eqn:Ha; [|by vm_compute in Ha].
  replace demo_encoding with (mkSystem (set_ledger_tasks l (<[0%nat := with_phase ph demo_task]>
    (tasks (pipe demo_submitted))) (pipe demo_submitted)) (draw (Begin "u1" 7) demo_submitted)).
  2: { unfold demo_encoding. rewrite Ht, Ha. f_equal. }
  apply rtc_once. eapply step_advance; [exact Ht| | |exact Ha].
  - intros _. right. by vm_compute.
  - split; [apply not_elem_of_empty|]. by vm_compute.
Qed.

Lemma encoder_pipeline_safe_witness :
  let s := demo_encoding in
  let rs := reservations (ledger (pipe s)) in
  slots (pipe s) = 1 ∧
  ledger_inv (ledger (pipe s)) ∧
  0 <= slots (pipe s) ∧ slots (pipe s) + outstanding (pipe s) = 2 ∧ busy (pipe s) <= Z.min 2 8 ∧
  (∀ rid, rid ∈ drawn s → (is_Some (rs !! rid) ↔ ∃ i t, tasks (pipe s) !! i = Some t ∧ holding t = Some rid)) ∧
  (∀ i t rid, tasks (pipe s) !! i = Some t → holding t = Some rid →
     (∃ r, requested t = Ok r ∧ rs !! rid = Some r) ∧
     ∀ j u, tasks (pipe s) !! j = Some u → holding u = Some rid → i = j).
Proof.
  split; [vm_compute; reflexivity|].
  exact (encoder_pipeline_safe demo_sha DeviceResources.demo_ledger demo_devices 2 demo_pipeline demo_encoding
           eq_refl demo_ledger_ok demo_encoding_run).
Defined.

Lemma encoder_pipeline_drains_witness :
  ∃ s', rtc (drain_step (λ _, Ok 1) (λ _ v, Ok (v + 1))) demo_encoding s' ∧
    Forall (λ t, is_retired t = true) (tasks (pipe s')) ∧ slots (pipe s') = 2 ∧
    ∀ rid, rid ∈ drawn s' → reservations (ledger (pipe s')) !! rid = None.
Proof.
  exact (encoder_pipeline_drains demo_sha (λ _, Ok 1) (λ _ v, Ok (v + 1)) DeviceResources.demo_ledger demo_devices 2
           demo_pipeline demo_encoding eq_refl demo_ledger_ok demo_encoding_run).
Defined.

End EncoderPipeline.
