(* ===== verification/ExecutionPlanner.v ===== *)
(** * The execution planner (execution.py)

    From a memory recommendation and a chip profile to an execution plan: the context
    that fits, the backend, the state precision and the batch limits. *)

From S2P Require Import Prelude Types PyFloat Context.

Module ExecutionPlanner.
Import PyFloat Context.

Definition EXECUTION_SCHEMA_VERSION : Z := 1.

Record AppleChipProfile := mkChip {
  profile_version : Z;
  hardware_fingerprint : string;
  soc : string;
  total_memory_bytes : Z;
  backends : list ExecutionBackend;
  precisions : list string;
  chip_platform : string;
  chip_architecture : string;
  chip_os_version : string;
  chip_gpu_core_count : option Z;
  capability_issues : list string;
  measured_memory_bandwidth_bytes_per_second : option Z;
  metal_launch_latency_nanoseconds : option Z;
}.

Definition inference_backends : list ExecutionBackend := [VLLM_METAL; NATIVE_MLX; NATIVE_METAL; CPU].

(** [AppleChipProfile.__post_init__] *)
Definition chip_check (c : AppleChipProfile) : res exn AppleChipProfile :=
  if (profile_version c <=? 0) || str_eqb (hardware_fingerprint c) "" || str_eqb (soc c) ""
  then Raise (ValueError "invalid chip profile identity")
  else if (total_memory_bytes c <=? 0) || bool_decide (backends c = [])
  then Raise (ValueError "chip profile requires memory and at least one backend")
  else if bool_decide (precisions c = [])
  then Raise (ValueError "chip profile requires at least one precision")
  else if nonpositive (chip_gpu_core_count c)
  then Raise (ValueError "gpu_core_count must be positive")
  else if negb (existsb (λ b, bool_decide (b ∈ inference_backends)) (backends c))
  then Raise (ValueError "chip profile requires a main-model inference backend")
  else Ok c.

(** [_preferred_backend] *)
Definition preferred_backend (available : list ExecutionBackend) : res exn ExecutionBackend :=
  match List.find (λ b, bool_decide (b ∈ available)) inference_backends with
  | Some b => Ok b
  | None => Raise StopIteration
  end.

Definition under_pressure (p : MemoryPressure) : bool := bool_decide (p ∈ [MP_WARNING; MP_CRITICAL]).

(** [_state_precision] *)
Definition state_precision (pressure : MemoryPressure) (available : list string) : res exn string :=
  let usual :=
    if bool_decide ("fp16" ∈ available) then Ok "fp16"
    else match available with p :: _ => Ok p | [] => Raise (IndexError "tuple index out of range") end in
  if under_pressure pressure
  then match List.find (λ p, bool_decide (p ∈ available)) ["int8"; "q8"; "fp16"] with
       | Some p => Ok p
       | None => usual
       end
  else usual.

(** [_prefill_batch_limit] *)
Definition prefill_batch_limit (pressure : MemoryPressure) (thermal : ThermalState) (power : PowerMode) : Z :=
  if under_pressure pressure then 1
  else if bool_decide (thermal ∈ [TS_SERIOUS; TS_CRITICAL]) then 1
  else if bool_decide (power = PM_LOW_POWER) then 1
  else if bool_decide (thermal ∈ [TS_FAIR; TS_UNKNOWN]) then 2
  else if bool_decide (power = PM_UNKNOWN) then 2
  else 4.

(** The loop that gives up blocks of the context until the peak fits. *)
Fixpoint shrink (fuel : nat) (m : StateMemorySpec) (ceiling block tokens peak : Z) : res exn (Z * Z) :=
  match fuel with
  | O => Ok (tokens, peak)
  | S fuel' =>
      if (0 <? tokens) && (ceiling <? peak) then
        let tokens := Z.max 0 (tokens - block) in
        match state_total_bytes m tokens with
        | Raise e => Raise e
        | Ok peak => shrink fuel' m ceiling block tokens peak
        end
      else Ok (tokens, peak)
  end.

(** The fields whose canonical JSON text names the plan. *)
Record PlanSeed := mkSeed {
  seed_model : StateMemorySpec;
  seed_memory : MemoryInfo;
  seed_chip : AppleChipProfile;
  seed_context_tokens : Z;
  seed_backend : ExecutionBackend;
  seed_precision : string;
  seed_thermal_state : ThermalState;
  seed_power_mode : PowerMode;
}.

Section planner.
(** The hexadecimal SHA-256 of the seed's JSON text. *)
Context (seed_digest : PlanSeed → string).

(** The context asked for, and the reasons so far. *)
Definition requested_context (balanced : Z) (factor : option string) (requested : option Z)
    : res exn (Z * list string) :=
  let first := "context:" +:+ default "None" factor in
  match requested with
  | None => Ok (balanced, [first])
  | Some n =>
      if n <=? 0 then Raise (ValueError "requested_context_tokens must be positive")
      else let tokens := Z.min balanced n in
           Ok (tokens, [first; if tokens =? n then "context:requested" else "context:clamped"])
  end.

(** [AppleExecutionPlanner.plan] *)
Definition plan (policy : ContextPolicy) (m : StateMemorySpec) (memory : MemoryInfo) (chip : AppleChipProfile)
    (requested : option Z) (thermal : ThermalState) (power : PowerMode) (dry : bool) : res exn AppleExecutionPlan :=
  if negb (total_bytes memory =? total_memory_bytes chip)
  then Raise (ValueError "memory and chip profile totals must match")
  else
    match recommend_state_context memory m policy with
    | Raise e => Raise e
    | Ok recommendation =>
        match List.find (λ t, str_eqb (tier_name t) "balanced") (tiers recommendation) with
        | None => Raise StopIteration
        | Some balanced =>
            match requested_context (max_tokens balanced) (limiting_factor recommendation) requested with
            | Raise e => Raise e
            | Ok (tokens, reasons) =>
                match preferred_backend (backends chip), state_precision (mem_pressure memory) (precisions chip) with
                | Raise e, _ => Raise e
                | Ok _, Raise e => Raise e
                | Ok backend, Ok precision =>
                    let batch := prefill_batch_limit (mem_pressure memory) thermal power in
                    let prefill_batch := if bool_decide (backend = CPU) then 1 else batch in
                    let reasons := reasons ++ ["thermal:" +:+ ThermalState_value thermal;
                                               "power:" +:+ PowerMode_value power] in
                    let ceiling := allocatable_bytes recommendation in
                    match state_total_bytes m tokens with
                    | Raise e => Raise e
                    | Ok peak =>
                        match shrink (Z.to_nat tokens) m ceiling (token_block_size policy) tokens peak with
                        | Raise e => Raise e
                        | Ok (tokens, peak) =>
                            if ceiling <? peak
                            then Raise (ValueError "model fixed memory exceeds the safe memory ceiling")
                            else
                              let seed := mkSeed m memory chip tokens backend precision thermal power in
                              Ok {| plan_schema_version := EXECUTION_SCHEMA_VERSION;
                                    plan_id := String.substring 0 24 (seed_digest seed);
                                    plan_model_id := model_id m;
                                    plan_hardware_fingerprint := hardware_fingerprint chip;
                                    context_tokens := tokens;
                                    memory_ceiling_bytes := ceiling;
                                    estimated_peak_bytes := peak;
                                    prefill := {| ph_phase := PREFILL; ph_backend := backend;
                                                  ph_batch_size := prefill_batch; ph_state_precision := precision |};
                                    decode := {| ph_phase := DECODE; ph_backend := backend;
                                                 ph_batch_size := 1; ph_state_precision := precision |};
                                    plan_fallback_chain := filter (λ b, b ≠ backend) (backends chip);
                                    decision_reasons := reasons;
                                    dry_run := dry |}
                        end
                    end
                end
            end
        end
    end.
End planner.

(** ** Lemmas *)

(** The memory of the model with a context of [tokens]. *)
Definition memory_of (m : StateMemorySpec) (tokens : Z) : Z := fixed_bytes m + load m tokens.
Lemma state_total_memory m t : 0 <= t → state_total_bytes m t = Ok (memory_of m t).
Proof.
  intros Ht. unfold state_total_bytes. rewrite state_bytes_load by done. unfold memory_of, fixed_bytes. f_equal. lia.
Qed.
Lemma memory_of_mono m t u : spec_valid m → t <= u → memory_of m t <= memory_of m u.
Proof. intros Hm Htu. pose proof (load_mono m t u Hm Htu). unfold memory_of. lia. Qed.

(** The loop stops at the first context, block by block downwards, that fits. *)
Lemma shrink_spec fuel m ceiling block tokens :
  0 < block → 0 <= tokens <= Z.of_nat fuel →
  ∃ t, shrink fuel m ceiling block tokens (memory_of m tokens) = Ok (t, memory_of m t) ∧ 0 <= t <= tokens ∧
    (t = 0 ∨ memory_of m t <= ceiling) ∧
    ∀ u, t < u <= tokens → (block | tokens - u) → ceiling < memory_of m u.
Proof.
  revert tokens. induction fuel as [|fuel IH]; intros tokens Hb Hf; cbn [shrink].
  - exists tokens. split_and!; try done; try lia.
  - destruct (0 <? tokens) eqn:Et; cbn [andb].
    2: { breflect. exists tokens. split_and!; try done; try lia. }
    destruct (ceiling <? memory_of m tokens) eqn:Ec; breflect.
    2: { exists tokens. split_and!; try done; try lia. }
    cbn zeta. rewrite state_total_memory by lia. destruct (IH (Z.max 0 (tokens - block)) Hb ltac:(lia)) as (t & -> & Ht & Hfit & Hmax).
    exists t. split_and!; try done; try lia. intros u Hu Hd. destruct (decide (u = tokens)) as [->|Hne]; [done|].
    assert (block <= tokens - u) by (apply Z.divide_pos_le; [lia|done]). apply Hmax; [lia|].
    replace (Z.max 0 (tokens - block) - u) with ((tokens - u) - block) by lia.
    apply Z.divide_sub_r; [done|apply Z.divide_refl].
Qed.

Lemma recommend_balanced memory m policy r :
  spec_valid m → policy_check policy = Ok policy → recommend_state_context memory m policy = Ok r →
  ∃ b t, List.find (λ t, str_eqb (tier_name t) "balanced") (tiers r) = Some (mkTier "balanced" t b) ∧ 0 <= t.
Proof.
  intros Hm Hp Hr. unfold recommend_state_context in Hr.
  destruct (scaled _ (os_reserve_ratio policy)) as [os|]; [|done].
  destruct (scaled _ (safety_headroom_ratio policy)) as [sf|]; [|done].
  destruct (if scratch_workspace_bytes m =? 0 then _ else _) as [ws|]; [|done]. cbn zeta in Hr.
  set (cap := Z.max 0 (_ - _)) in Hr. assert (Hcap : 0 <= cap) by lia. clearbody cap.
  destruct (make_tiers _ _ _ _) as [[ts l]|] eqn:Hts; [|done].
  apply make_tiers_inv in Hts as (b1 & t1 & b2 & t2 & b3 & t3 & -> & _ & S2 & _ & _ & M2 & _).
  injection Hr as <-. exists b2, t2. split; [done|].
  assert (Hblk : 0 < token_block_size policy) by (unfold policy_check in Hp; run_cases Hp; breflect; lia).
  assert (B2 : 0 <= b2 <= cap) by (eapply (tier_scaled cap "balanced"); [|done..]; unfold tier_ratios; set_solver).
  apply maximum_tokens_cases in M2 as [(_ & mx & _ & Hmx & ->)|[_ (Ht & _)]]; [|lia|done..|lia].
  apply Z.mul_nonneg_nonneg; [apply Z.div_pos; lia|lia].
Qed.

Lemma preferred_backend_spec chip :
  chip_check chip = Ok chip →
  ∃ b, preferred_backend (backends chip) = Ok b ∧ b ∈ backends chip ∧
    ∀ pre post, inference_backends = pre ++ b :: post → ∀ x, x ∈ pre → x ∉ backends chip.
Proof.
  intros Hc. unfold chip_check in Hc. repeat (destruct (_ || _); [done|]).
  destruct (bool_decide (precisions chip = [])); [done|]. destruct (nonpositive _); [done|].
  destruct (existsb _ _) eqn:E; [|done]. apply existsb_exists in E as (b & Hb%list_elem_of_In & Hi%bool_decide_eq_true).
  unfold preferred_backend, inference_backends in *. cbn [List.find].
  repeat match goal with
  | |- context [bool_decide (?x ∈ backends chip)] => destruct (decide (x ∈ backends chip));
      [rewrite (bool_decide_eq_true_2 (x ∈ backends chip)) by done|rewrite (bool_decide_eq_false_2 (x ∈ backends chip)) by done]
  end.
  1-4: eexists; split; [done|]; split; [done|]; intros pre post Heq x Hx;
    repeat (destruct pre as [|? pre]; [set_solver|]; injection Heq as <- Heq); by destruct pre.
  set_solver.
Qed.

Lemma state_precision_returns pressure chip :
  chip_check chip = Ok chip → ∃ p, state_precision pressure (precisions chip) = Ok p ∧ p ∈ precisions chip.
Proof.
  intros Hc. assert (Hne : precisions chip ≠ []) by (unfold chip_check in Hc; by run_cases Hc; breflect).
  assert (Husual : ∃ p, (if bool_decide ("fp16" ∈ precisions chip) then Ok "fp16"
    else match precisions chip with p :: _ => Ok p | [] => Raise (IndexError "tuple index out of range") end) = Ok p ∧
    p ∈ precisions chip).
  { destruct (bool_decide _) eqn:E; [exists "fp16"; by breflect|]. destruct (precisions chip) as [|p ps]; [done|].
    exists p. split; [done|left]. }
  unfold state_precision. destruct (under_pressure pressure); [|done].
  destruct (List.find _ _) as [p|] eqn:Ef; [|done]. apply List.find_some in Ef as [_ Hp%bool_decide_eq_true]. by exists p.
Qed.

(** What the backend, the batches and the precision are meant to be. *)
Definition preferred_of (available : list ExecutionBackend) (b : ExecutionBackend) : Prop :=
  b ∈ available ∧
  match b with
  | VLLM_METAL => True
  | NATIVE_MLX => VLLM_METAL ∉ available
  | NATIVE_METAL => (VLLM_METAL ∉ available) ∧ (NATIVE_MLX ∉ available)
  | CPU => (VLLM_METAL ∉ available) ∧ (NATIVE_MLX ∉ available) ∧ (NATIVE_METAL ∉ available)
  | _ => False
  end.
Definition constrained (pressure : MemoryPressure) (thermal : ThermalState) (power : PowerMode) : Prop :=
  pressure = MP_WARNING ∨ pressure = MP_CRITICAL ∨ thermal = TS_SERIOUS ∨ thermal = TS_CRITICAL ∨ power = PM_LOW_POWER.
Definition doubtful (thermal : ThermalState) (power : PowerMode) : Prop :=
  thermal = TS_FAIR ∨ thermal = TS_UNKNOWN ∨ power = PM_UNKNOWN.
Definition batch_of (limited unsure : Prop) (batch : Z) : Prop :=
  (limited → batch = 1) ∧ (¬ limited → unsure → batch = 2) ∧ (¬ limited → ¬ unsure → batch = 4).
Definition precision_of (pressure : MemoryPressure) (available : list string) (p : string) : Prop :=
  let pressed := pressure = MP_WARNING ∨ pressure = MP_CRITICAL in
  (pressed → ("int8" ∈ available) → p = "int8") ∧
  (pressed → ("int8" ∉ available) → ("q8" ∈ available) → p = "q8") ∧
  ((¬ pressed ∨ ("int8" ∉ available) ∧ ("q8" ∉ available)) →
   (("fp16" ∈ available) → p = "fp16") ∧ (("fp16" ∉ available) → head available = Some p)).

Lemma preferred_backend_meaning available b : preferred_backend available = Ok b → preferred_of available b.
Proof.
  unfold preferred_backend, inference_backends. cbn [List.find].
  repeat match goal with |- context [bool_decide (?x ∈ available)] =>
    destruct (decide (x ∈ available));
      [rewrite (bool_decide_eq_true_2 (x ∈ available)) by done|rewrite (bool_decide_eq_false_2 (x ∈ available)) by done] end;
  by intros [= <-].
Qed.
Lemma under_pressure_spec pressure : under_pressure pressure = true ↔ pressure = MP_WARNING ∨ pressure = MP_CRITICAL.
Proof. unfold under_pressure. rewrite bool_decide_eq_true, elem_of_cons, list_elem_of_singleton. done. Qed.
Lemma prefill_batch_meaning pressure thermal power :
  batch_of (constrained pressure thermal power) (doubtful thermal power) (prefill_batch_limit pressure thermal power).
Proof. unfold batch_of, constrained, doubtful. destruct pressure, thermal, power; vm_compute; naive_solver. Qed.
Lemma state_precision_meaning pressure available p : state_precision pressure available = Ok p → precision_of pressure available p.
Proof.
  unfold state_precision, precision_of. rewrite <-under_pressure_spec.
  assert (Hno : ∀ b, bool_decide ("fp16" ∈ available) = b → (if b then Ok "fp16"
    else match available with q :: _ => Ok q | [] => Raise (IndexError "tuple index out of range") end) = Ok p →
    (("fp16" ∈ available) → p = "fp16") ∧ (("fp16" ∉ available) → head available = Some p)).
  { intros b Hb. destruct b; breflect; [by intros [= <-]|]. destruct available; [done|]. by intros [= <-]. }
  specialize (Hno _ eq_refl). destruct (under_pressure pressure); [|naive_solver]. cbn [List.find].
  destruct (bool_decide ("int8" ∈ available)) eqn:E1; breflect; [intros [= <-]; naive_solver|].
  destruct (bool_decide ("q8" ∈ available)) eqn:E2; breflect; [intros [= <-]; naive_solver|].
  destruct (bool_decide ("fp16" ∈ available)) eqn:E3; [intros [= <-]|]; naive_solver.
Qed.

Definition start_context (balanced : Z) (requested : option Z) : Z :=
  match requested with Some n => Z.min balanced n | None => balanced end.
Lemma requested_context_spec b f requested :
  0 <= b →
  match requested_context b f requested with
  | Ok (t, _) => t = start_context b requested ∧ 0 <= t
  | Raise e => ∃ n, requested = Some n ∧ n <= 0
  end.
Proof.
  intros Hb. unfold requested_context, start_context. destruct requested as [n|]; [|done].
  destruct (n <=? 0) eqn:E; breflect; [by exists n|]. split; [done|lia].
Qed.


(** ** Witness *)

Definition demo_model : StateMemorySpec := {|
  model_id := "m"; architecture := "transformer"; weights_bytes := 4 * GIB; kv_bytes_per_token := 131072;
  recurrent_state_bytes := 0; prefix_state_bytes := 0; attention_window_bytes_per_token := 0;
  attention_window_tokens := None; sparse_index_bytes_per_token := 0;
  sparse_retrieval_bytes_per_token := 0; sparse_retrieval_tokens := None;
  expert_storage_bytes := 0; expert_working_set_bytes := 0; ngram_storage_bytes := 0;
  ngram_working_set_bytes := 0; mtp_storage_bytes := 0; mtp_working_set_bytes := 0;
  scratch_workspace_bytes := 0; model_max_context := Some 32768 |}.
Definition demo_memory : MemoryInfo := {|
  total_bytes := 16 * GIB; available_bytes := 10 * GIB; process_resident_bytes := 0;
  mem_pressure := MP_WARNING; mem_source := "test" |}.
Definition demo_chip : AppleChipProfile :=
  mkChip 1 "hw" "m3" (16 * GIB) [CPU; NATIVE_MLX] ["fp16"; "int8"] "darwin" "arm64" "15" (Some 10) [] None None.
Definition demo_plan : res exn AppleExecutionPlan :=
  plan (λ _, "0123456789abcdef01234567") default_policy demo_model demo_memory demo_chip (Some 4096) TS_NOMINAL
    PM_AUTOMATIC true.


End ExecutionPlanner.
