(* ===== verification/DeviceSelection.v ===== *)
(** * Selecting a measured backend (device_selection.py, device_benchmark.py)

    Benchmark reports and the gate that promotes a backend over the baseline: the same
    output, enough samples, no more memory, and an end-to-end latency low enough in the
    floating-point arithmetic of the code. *)

From S2P Require Import Prelude Types PyFloat PySort OperatorDispatch KernelProbe DeviceCapability.

Module DeviceSelection.
Import PyFloat PySort.

Definition DEVICE_BENCHMARK_SCHEMA_VERSION : Z := 1.
Definition MAX_DEVICE_BENCHMARK_SAMPLES : Z := 64.
Definition MAX_BENCHMARK_DIMENSIONS : Z := 8.

Record DeviceBenchmarkConfig := mkConfig {
  operator : string;
  backend : ExecutionBackend;
  phase : WorkloadPhase;
  precision : string;
  dimensions : list Z;
  batch_size : Z;
  samples : Z;
}.
Definition in_range (lo hi n : Z) : bool := (lo <=? n) && (n <=? hi).

(** [DeviceBenchmarkConfig.__post_init__] *)
Definition config_check (c : DeviceBenchmarkConfig) : res exn () :=
  check (in_range 1 128 (str_len (operator c)) && in_range 1 128 (str_len (precision c))
         && in_range 1 MAX_BENCHMARK_DIMENSIONS (Zlen (dimensions c))
         && forallb (in_range 1 1048576) (dimensions c) && in_range 1 65536 (batch_size c)
         && in_range 1 MAX_DEVICE_BENCHMARK_SAMPLES (samples c))
    (ValueError "invalid device benchmark configuration") ().

Record DeviceBenchmarkMeasurement := mkMeasurement {
  total_nanoseconds : Z;
  execution_nanoseconds : Z;
  conversion_nanoseconds : Z;
  synchronization_nanoseconds : Z;
  work_items : Z;
  peak_memory_bytes : option Z;
  energy_microjoules : option float;
  output_digest : string;
}.

(** [DeviceBenchmarkMeasurement.__post_init__] *)
Definition measurement_check (m : DeviceBenchmarkMeasurement) : res exn () :=
  let components := [execution_nanoseconds m; conversion_nanoseconds m; synchronization_nanoseconds m] in
  check ((0 <? total_nanoseconds m) && forallb (λ v, 0 <=? v) components
         && (Zsum components <=? total_nanoseconds m) && (0 <? work_items m)
         && match peak_memory_bytes m with Some p => 0 <=? p | None => true end
         && match energy_microjoules m with Some e => is_finite e && negb (fltb e zero) | None => true end
         && (str_len (output_digest m) =? 64) && KernelProbe.lower_hex (output_digest m))
    (ValueError "invalid device benchmark measurement") ().

Record DeviceBenchmarkReport := mkReport {
  hardware_fingerprint : string;
  environment_fingerprint : string;
  capability_id : string;
  config : DeviceBenchmarkConfig;
  measurements : list DeviceBenchmarkMeasurement;
  cold_load_nanoseconds : option Z;
}.

(** [DeviceBenchmarkReport.__post_init__] *)
Definition report_check (r : DeviceBenchmarkReport) : res exn () :=
  if str_eqb (hardware_fingerprint r) "" || str_eqb (environment_fingerprint r) ""
     || negb (str_len (capability_id r) =? 24) || negb (KernelProbe.lower_hex (capability_id r))
     || negb (Zlen (measurements r) =? samples (config r))
     || match cold_load_nanoseconds r with Some n => n <=? 0 | None => false end
  then Raise (ValueError "invalid device benchmark report")
  else if negb (Z.of_nat (size (list_to_set (output_digest <$> measurements r) : gset string)) =? 1)
  then Raise (ValueError "device benchmark output changed between samples")
  else Ok ().

(** [int(statistics.median(values))] of integers: the mean of the middle two, as a
    float, when there are evenly many. *)
Definition int_median (values : list Z) : res exn Z :=
  let ordered := sorted_by Z.leb values in
  let n := Zlen ordered in
  if n =? 0 then Raise (ValueError "no median for empty data")
  else if Z.odd n then Ok (default 0 (ordered !! Z.to_nat (n / 2)))
  else match true_div (default 0 (ordered !! Z.to_nat (n / 2 - 1)) + default 0 (ordered !! Z.to_nat (n / 2))) 2 with
       | Ok f => Ok (trunc f)
       | Raise e => Raise e
       end.

(** [n > f] of an integer and a float, compared exactly. *)
Definition exceeds (n : Z) (f : float) : bool :=
  match f with
  | SpecFloat.S754_zero _ => 0 <? n
  | SpecFloat.S754_infinity s => s
  | SpecFloat.S754_nan => false
  | SpecFloat.S754_finite s m e =>
      let v := if s then Z.neg m else Z.pos m in
      if 0 <=? e then v * 2 ^ e <? n else v <? n * 2 ^ (- e)
  end.

(** [n * f] of an integer and a float. *)
Definition times (n : Z) (f : float) : res exn float :=
  check (is_finite (of_Z n)) OverflowError (fmul (of_Z n) f).

(** The values of [to_dict] the selection reads; computing them the method also
    computes the medians of the parts and the throughput, which can overflow. *)
Record Payload := mkPayload {
  median_total_nanoseconds : Z;
  payload_peak : option Z;
  payload_digest : string;
}.
Definition maximum (l : list Z) : option Z := match l with [] => None | x :: l' => Some (foldl Z.max x l') end.
Definition payload_of (r : DeviceBenchmarkReport) : res exn Payload :=
  match true_div (Zsum (total_nanoseconds <$> measurements r)) 1000000000 with
  | Raise e => Raise e
  | Ok seconds =>
      match int_median (total_nanoseconds <$> measurements r), int_median (execution_nanoseconds <$> measurements r),
            int_median (conversion_nanoseconds <$> measurements r), int_median (synchronization_nanoseconds <$> measurements r) with
      | Ok total, Ok _, Ok _, Ok _ =>
          if negb (is_finite (of_Z (Zsum (work_items <$> measurements r)))) then Raise OverflowError
          else if feqb seconds zero then Raise ZeroDivisionError
          else match measurements r with
               | [] => Raise (IndexError "tuple index out of range")
               | m :: _ => Ok (mkPayload total (maximum (omap peak_memory_bytes (measurements r))) (output_digest m))
               end
      | Raise e, _, _, _ | _, Raise e, _, _ | _, _, Raise e, _ | _, _, _, Raise e => Raise e
      end
  end.

(** [_effective_latency] *)
Definition effective_latency (r : DeviceBenchmarkReport) (runs : Z) : res exn Z :=
  match payload_of r with
  | Raise e => Raise e
  | Ok p =>
      match true_div (default 0 (cold_load_nanoseconds r)) runs with
      | Ok f => Ok (median_total_nanoseconds p + ceil f)
      | Raise e => Raise e
      end
  end.

Record DevicePlacementCandidate := mkCandidate {
  cand_backend : ExecutionBackend;
  cand_report_id : string;
  effective_latency_nanoseconds : Z;
  eligible : bool;
  rejection_reasons : list string;
}.
(** [DevicePlacementCandidate.__post_init__] *)
Definition candidate_check (c : DevicePlacementCandidate) : res exn DevicePlacementCandidate :=
  check (negb (negb (str_len (cand_report_id c) =? 24) || (effective_latency_nanoseconds c <=? 0)
               || eqb (eligible c) (negb (bool_decide (rejection_reasons c = [])))))
    (ValueError "invalid device placement candidate") c.

Record DevicePlacementDecision := mkDecision {
  selected : ExecutionBackend;
  baseline : ExecutionBackend;
  improvement_ratio : float;
  candidates : list DevicePlacementCandidate;
}.
(** [DevicePlacementDecision.__post_init__] *)
Definition decision_check (d : DevicePlacementDecision) : res exn DevicePlacementDecision :=
  check (fleb zero (improvement_ratio d) && fltb (improvement_ratio d) (of_Z 1)
         && negb (bool_decide (candidates d = []))
         && bool_decide (selected d ∈ cand_backend <$> filter (λ c, eligible c = true) (candidates d))
         && bool_decide (baseline d ∈ cand_backend <$> candidates d))
    (ValueError "invalid device placement decision") d.

(** What makes two reports comparable. *)
Definition identity (r : DeviceBenchmarkReport)
    : string * string * string * WorkloadPhase * string * list Z * Z :=
  (hardware_fingerprint r, environment_fingerprint r, operator (config r), phase (config r), precision (config r),
   dimensions (config r), batch_size (config r)).

Record Settings := mkSettings {
  baseline_backend : ExecutionBackend;
  minimum_samples : Z;
  minimum_improvement_ratio : float;
  cold_load_amortization_runs : Z;
  require_peak_memory : bool;
}.

Section selection.
(** [report_id]: the prefix of the digest of the report's JSON text. *)
Context (report_id : DeviceBenchmarkReport → string).

(** The reasons of the loop of [select_measured_device_backend], against the
    baseline's latency, digest and peak. *)
Definition reasons (s : Settings) (base_latency : Z) (base : Payload) (r : DeviceBenchmarkReport) (latency : Z)
    (p : Payload) : res exn (list string) :=
  let short := if Zlen (measurements r) <? minimum_samples s then ["insufficient_samples"] else [] in
  let differs := if str_eqb (payload_digest p) (payload_digest base) then [] else ["output_mismatch"] in
  let peak :=
    if require_peak_memory s && is_none (payload_peak p) then ["peak_memory_unknown"]
    else match payload_peak base, payload_peak p with
         | Some b, Some q => if q >? b then ["peak_memory_regression"] else []
         | _, _ => []
         end in
  if bool_decide (backend (config r) = baseline_backend s) then Ok (short ++ differs ++ peak)
  else
    match times base_latency (fsub (of_Z 1) (minimum_improvement_ratio s)) with
    | Raise e => Raise e
    | Ok limit => Ok (short ++ differs ++ peak ++ (if exceeds latency limit then ["insufficient_latency_improvement"] else []))
    end.

(** The loop over the reports: the candidates and the eligible reports. *)
Fixpoint judge (s : Settings) (base_latency : Z) (base : Payload) (rs : list DeviceBenchmarkReport)
    : res exn (list DevicePlacementCandidate * list (Z * DeviceBenchmarkReport)) :=
  match rs with
  | [] => Ok ([], [])
  | r :: rs' =>
      match payload_of r, effective_latency r (cold_load_amortization_runs s) with
      | Raise e, _ => Raise e
      | Ok _, Raise e => Raise e
      | Ok p, Ok latency =>
          match reasons s base_latency base r latency p with
          | Raise e => Raise e
          | Ok why =>
              let fine := bool_decide (why = []) in
              match candidate_check (mkCandidate (backend (config r)) (report_id r) latency fine why) with
              | Raise e => Raise e
              | Ok c =>
                  match judge s base_latency base rs' with
                  | Raise e => Raise e
                  | Ok (cs, el) => Ok (c :: cs, if fine then (latency, r) :: el else el)
                  end
              end
          end
      end
  end.

(** The order of [min(eligible_reports, key=...)]. *)
Definition quicker (a b : Z * DeviceBenchmarkReport) : bool :=
  (a.1 <? b.1) || ((a.1 =? b.1) && String.ltb (ExecutionBackend_value (backend (config a.2)))
                                               (ExecutionBackend_value (backend (config b.2)))).
Fixpoint quickest (best : Z * DeviceBenchmarkReport) (l : list (Z * DeviceBenchmarkReport)) : Z * DeviceBenchmarkReport :=
  match l with [] => best | x :: l' => quickest (if quicker x best then x else best) l' end.

(** The bounds the function checks first. *)
Definition settings_ok (s : Settings) (rs : list DeviceBenchmarkReport) : bool :=
  in_range 1 (Zlen ExecutionBackend_members) (Zlen rs) && in_range 1 64 (minimum_samples s)
  && is_finite (minimum_improvement_ratio s) && fleb zero (minimum_improvement_ratio s)
  && fltb (minimum_improvement_ratio s) (of_Z 1) && in_range 1 1000000 (cold_load_amortization_runs s).

(** [select_measured_device_backend] *)
Definition select_measured_device_backend (s : Settings) (rs : list DeviceBenchmarkReport)
    : res exn DevicePlacementDecision :=
  if negb (settings_ok s rs) then Raise (ValueError "invalid device placement selection bounds")
  else if negb (match rs with r :: rs' => forallb (λ q, bool_decide (identity q = identity r)) rs' | [] => false end)
          || negb (bool_decide (NoDup ((λ r, backend (config r)) <$> rs)))
  then Raise (ValueError "device placement reports are not directly comparable")
  else
    match List.find (λ r, bool_decide (backend (config r) = baseline_backend s)) rs with
    | None => Raise (ValueError "device placement baseline evidence is unavailable")
    | Some base =>
        if Zlen (measurements base) <? minimum_samples s
        then Raise (ValueError "device placement baseline evidence is unavailable")
        else
          match payload_of base, effective_latency base (cold_load_amortization_runs s) with
          | Raise e, _ => Raise e
          | Ok _, Raise e => Raise e
          | Ok payload, Ok base_latency =>
              match judge s base_latency payload rs with
              | Raise e => Raise e
              | Ok (cs, el) =>
                  match el with
                  | [] => Raise (RuntimeError "device placement baseline failed its correctness gate")
                  | x :: el' =>
                      if negb (existsb (λ q, bool_decide (backend (config q.2) = baseline_backend s)) el)
                      then Raise (RuntimeError "device placement baseline failed its correctness gate")
                      else
                        let best := (quickest x el').2 in
                        match effective_latency best (cold_load_amortization_runs s) with
                        | Raise e => Raise e
                        | Ok latency =>
                            match true_div latency base_latency with
                            | Raise e => Raise e
                            | Ok ratio =>
                                decision_check (mkDecision (backend (config best)) (baseline_backend s)
                                                  (fmax zero (fsub (of_Z 1) ratio)) cs)
                            end
                        end
                  end
              end
          end
    end.
End selection.

(** ** Lemmas *)

Section selection_spec.
Context (report_id : DeviceBenchmarkReport → string).

(** A report and its candidate: the latency, and the reasons as the code has them. *)
Definition judged (s : Settings) (base_latency : Z) (base : Payload) (r : DeviceBenchmarkReport)
    (c : DevicePlacementCandidate) : Prop :=
  cand_backend c = backend (config r) ∧ cand_report_id c = report_id r ∧
  effective_latency r (cold_load_amortization_runs s) = Ok (effective_latency_nanoseconds c) ∧
  0 < effective_latency_nanoseconds c ∧
  ∃ p, payload_of r = Ok p ∧
    reasons s base_latency base r (effective_latency_nanoseconds c) p = Ok (rejection_reasons c) ∧
    eligible c = bool_decide (rejection_reasons c = []).

Lemma candidate_check_Ok c c' : candidate_check c = Ok c' → c' = c ∧ 0 < effective_latency_nanoseconds c.
Proof. unfold candidate_check, check. intros H. run_cases H. breflect. done. Qed.

Lemma judge_spec s bl b rs cs el :
  judge report_id s bl b rs = Ok (cs, el) →
  Forall2 (judged s bl b) rs cs ∧
  ∀ x, x ∈ el ↔ ∃ i c, rs !! i = Some x.2 ∧ cs !! i = Some c ∧ eligible c = true ∧ x.1 = effective_latency_nanoseconds c.
Proof.
  revert cs el. induction rs as [|r rs IH]; intros cs el; cbn [judge].
  - intros [= <- <-]. split; [constructor|]. intros x. split; [by intros ?%elem_of_nil|]. by intros (i & c & Hi & _).
  - destruct (payload_of r) as [p|] eqn:Ep; [|done].
    destruct (effective_latency r _) as [l|] eqn:El; [|done].
    destruct (reasons s bl b r l p) as [why|] eqn:Er; [|done].
    destruct (candidate_check _) as [c|] eqn:Ec; [|done]. apply candidate_check_Ok in Ec as [-> Hpos].
    destruct (judge _ _ _ _ rs) as [[cs' el']|]; [|done]. intros [= <- <-]. destruct (IH cs' el' eq_refl) as [Hj Hel].
    cbn in Hpos. split.
    { constructor; [|done]. unfold judged. cbn. split_and!; try done. by exists p. }
    intros x. assert (Htail : (∃ i c, rs !! i = Some x.2 ∧ cs' !! i = Some c ∧ eligible c = true ∧ x.1 = effective_latency_nanoseconds c) ↔
      ∃ i c, (r :: rs) !! S i = Some x.2 ∧ (mkCandidate (backend (config r)) (report_id r) l (bool_decide (why = [])) why :: cs') !! S i = Some c ∧
        eligible c = true ∧ x.1 = effective_latency_nanoseconds c) by done.
    case_bool_decide as Hw.
    + rewrite elem_of_cons, Hel, Htail. split.
      * intros [->|(i & c & H)]; [|by exists (S i), c]. exists 0%nat. eexists. split_and!; done.
      * intros ([|i] & c & Hi & Hc & He & Hl); [left|right; by exists i, c]. injection Hi as ->. injection Hc as <-.
        cbn in Hl. by destruct x; cbn in *; subst.
    + rewrite Hel, Htail. split; [intros (i & c & H); by exists (S i), c|].
      intros ([|i] & c & Hi & Hc & He & Hl); [|by exists i, c]. injection Hc as <-. done.
Qed.

Lemma quickest_spec x l : quickest x l ∈ x :: l ∧ ∀ y, y ∈ x :: l → (quickest x l).1 <= y.1.
Proof.
  revert x. induction l as [|y l IH]; intros x; cbn [quickest].
  - split; [left|]. by intros y ->%list_elem_of_singleton.
  - set (best := if quicker y x then y else x). destruct (IH best) as [Hin Hmin].
    assert (Hb : (best = y ∨ best = x) ∧ best.1 <= y.1 ∧ best.1 <= x.1).
    { unfold best, quicker. destruct (_ || _) eqn:E; [apply orb_prop in E as [E|E]|apply orb_false_elim in E as [E _]]; breflect; auto with lia. }
    destruct Hb as (Hb & Hby & Hbx). split.
    + apply elem_of_cons in Hin as [Hin|Hin]; [|set_solver]. rewrite Hin. destruct Hb as [-> | ->]; set_solver.
    + pose proof (Hmin best ltac:(left)). intros z [->|[->|Hz]%elem_of_cons]%elem_of_cons; try lia. apply Hmin. by right.
Qed.

Lemma find_baseline s rs base :
  List.find (λ r, bool_decide (backend (config r) = baseline_backend s)) rs = Some base →
  base ∈ rs ∧ backend (config base) = baseline_backend s.
Proof. intros [Hin Hb%bool_decide_eq_true]%List.find_some. split; [by apply list_elem_of_In|done]. Qed.

(** What a report without reasons satisfies. *)
Record promoted (s : Settings) (base_latency : Z) (base : Payload) (r : DeviceBenchmarkReport) (latency : Z) (p : Payload) : Prop := {
  enough_samples : minimum_samples s <= Zlen (measurements r);
  same_output : payload_digest p = payload_digest base;
  peak_known : require_peak_memory s = true → is_Some (payload_peak p);
  no_more_memory b q : payload_peak base = Some b → payload_peak p = Some q → q <= b;
  fast_enough : backend (config r) = baseline_backend s ∨
    ∃ limit, times base_latency (fsub (of_Z 1) (minimum_improvement_ratio s)) = Ok limit ∧ exceeds latency limit = false;
}.
Lemma no_reasons s bl b r l p : reasons s bl b r l p = Ok [] → promoted s bl b r l p.
Proof.
  unfold reasons. intros H.
  assert (Hparts : (if Zlen (measurements r) <? minimum_samples s then ["insufficient_samples"] else []) = [] ∧
    (if str_eqb (payload_digest p) (payload_digest b) then [] else ["output_mismatch"]) = [] ∧
    (if require_peak_memory s && is_none (payload_peak p) then ["peak_memory_unknown"]
     else match payload_peak b, payload_peak p with
          | Some b, Some q => if q >? b then ["peak_memory_regression"] else [] | _, _ => [] end) = [] ∧
    (backend (config r) = baseline_backend s ∨ ∃ limit,
       times bl (fsub (of_Z 1) (minimum_improvement_ratio s)) = Ok limit ∧ exceeds l limit = false)).
  { destruct (bool_decide _) eqn:Eb.
    - injection H as H. apply app_nil in H as [H1 [H2 H3]%app_nil]. breflect. by split_and!; [..|left].
    - destruct (times _ _) as [limit|]; [|done]. injection H as H. apply app_nil in H as [H1 [H2 [H3 H4]%app_nil]%app_nil].
      split_and!; [done..|right]. exists limit. split; [done|]. by destruct (exceeds l limit). }
  destruct Hparts as (H1 & H2 & H3 & H4). split; [| | | |done].
  - destruct (_ <? _) eqn:E; [done|]. breflect. lia.
  - destruct (str_eqb _ _) eqn:E; [|done]. unfold str_eqb in E. by breflect.
  - intros Hreq. rewrite Hreq in H3. destruct (payload_peak p); [by eexists|done].
  - intros x q Hx Hq. rewrite Hx, Hq, andb_false_r in H3. destruct (q >? x) eqn:E; [done|]. breflect. lia.
Qed.

(** The backend selected is the fastest one that may be promoted.  A decision
    names one of the reported backends: its report has enough samples, the output
    and no more peak memory than the baseline, and unless it is the baseline its
    latency beats the baseline's by the margin asked for; no eligible report, the
    baseline included, is faster; and every report, in order, has a candidate with
    its latency and the reasons it was rejected for, if any. *)
Theorem selection_correct s rs d :
  select_measured_device_backend report_id s rs = Ok d →
  baseline d = baseline_backend s ∧
  ∃ base pb lb best p l,
    base ∈ rs ∧ backend (config base) = baseline_backend s ∧ payload_of base = Ok pb ∧
    effective_latency base (cold_load_amortization_runs s) = Ok lb ∧
    best ∈ rs ∧ backend (config best) = selected d ∧ payload_of best = Ok p ∧
    effective_latency best (cold_load_amortization_runs s) = Ok l ∧ promoted s lb pb best l p ∧ l <= lb ∧
    Forall2 (judged s lb pb) rs (candidates d) ∧
    ∀ c, c ∈ candidates d → eligible c = true → l <= effective_latency_nanoseconds c.
Proof.
  unfold select_measured_device_backend. destruct (negb (settings_ok s rs)); [done|]. destruct (negb _ || negb _) eqn:Ecmp; [done|].
  apply orb_false_elim in Ecmp as [_ Hnd%negb_false_iff%bool_decide_eq_true].
  destruct (List.find _ rs) as [base|] eqn:Ebase; [|done]. apply find_baseline in Ebase as [Hbase Hbb].
  destruct (Zlen (measurements base) <? _); [done|]. destruct (payload_of base) as [pb|] eqn:Epb; [|done].
  destruct (effective_latency base _) as [lb|] eqn:Elb; [|done].
  destruct (judge _ _ _ _ rs) as [[cs [|x el]]|] eqn:Ej; [done| |done]. apply judge_spec in Ej as [Hj Hel].
  destruct (negb (existsb _ _)) eqn:Egate; [done|]. apply negb_false_iff, existsb_exists in Egate as (y & Hy & Hyb%bool_decide_eq_true).
  apply list_elem_of_In in Hy. destruct (quickest_spec x el) as [Hin Hmin]. set (best := quickest x el) in *. clearbody best.
  destruct (effective_latency best.2 _) as [l|] eqn:El; [|done]. destruct (true_div l lb) as [ratio|]; [|done].
  unfold decision_check, check. destruct (_ && _); [|done]. intros [= <-]. cbn. split; [done|].
  assert (Hlat : ∀ z, z ∈ x :: el → z.2 ∈ rs ∧ effective_latency z.2 (cold_load_amortization_runs s) = Ok z.1 ∧
    ∃ p, payload_of z.2 = Ok p ∧ promoted s lb pb z.2 z.1 p).
  { intros z (i & c & Hi & Hc & He & Hz)%Hel. destruct (Forall2_lookup_lr _ _ _ _ _ _ Hj Hi Hc) as (_ & _ & Hl & _ & p & Hp & Hr & Hel').
    rewrite Hz. split_and!; [by eapply list_elem_of_lookup_2|done|]. exists p. split; [done|]. apply no_reasons.
    rewrite He in Hel'. symmetry in Hel'. apply bool_decide_eq_true in Hel'. by rewrite <-Hel'. }
  destruct (Hlat best Hin) as (Hbrs & Hbl & p & Hbp & Hprom). rewrite Hbl in El. injection El as <-.
  exists base, pb, lb, best.2, p, best.1. split_and!; try done.
  - destruct (Hlat y Hy) as (Hyrs & Hyl & _). assert (y.2 = base) as Hyeq.
    { apply list_elem_of_lookup in Hyrs as [i Hi]. apply list_elem_of_lookup in Hbase as [j Hj'].
      assert (i = j) as ->; [|congruence]. eapply (NoDup_lookup _ i j (baseline_backend s) Hnd); rewrite list_lookup_fmap.
      - by rewrite Hi; cbn; rewrite Hyb.
      - by rewrite Hj'; cbn; rewrite Hbb. }
    rewrite Hyeq, Elb in Hyl. injection Hyl as ->. by apply Hmin.
  - intros c [i Hc]%list_elem_of_lookup He. destruct (Forall2_lookup_r _ _ _ _ _ Hj Hc) as (r & Hr & _).
    apply (Hmin (effective_latency_nanoseconds c, r)), Hel. by exists i, c.
Qed.
End selection_spec.

(** ** Witness *)

Definition demo_digest : string := KernelProbe.demo_digest.
Definition demo_measurement (n : Z) : DeviceBenchmarkMeasurement := mkMeasurement n n 0 0 8 (Some 100) None demo_digest.
Definition demo_report (b : ExecutionBackend) (n : Z) : DeviceBenchmarkReport :=
  mkReport "m3" "env" "0123456789abcdef01234567" (mkConfig "matmul" b AUXILIARY "fp32" [8; 8; 8] 1 4)
    [demo_measurement n; demo_measurement (n + 3); demo_measurement n; demo_measurement (n + 2)] None.
Definition demo_reports : list DeviceBenchmarkReport :=
  [demo_report CPU 1000; demo_report NATIVE_MLX 700; demo_report NATIVE_METAL 980].
(** The margin of 0.05. *)
Definition demo_settings : Settings := mkSettings CPU 3 (literal 7205759403792794 (-57)) 1 false.

Lemma selection_correct_witness :
  match select_measured_device_backend (λ _, "0123456789abcdef01234567") demo_settings demo_reports with
  | Ok d =>
      selected d = NATIVE_MLX ∧
      (rejection_reasons <$> candidates d) = [[]; []; ["insufficient_latency_improvement"]] ∧
      ∃ base pb lb best p l, base ∈ demo_reports ∧ best ∈ demo_reports ∧ backend (config best) = selected d ∧
        promoted demo_settings lb pb best l p ∧ l <= lb
  | Raise _ => False
  end.
Proof.
  destruct (select_measured_device_backend (λ _, "0123456789abcdef01234567") demo_settings demo_reports) as [d|e] eqn:E.
  - destruct (selection_correct (λ _, "0123456789abcdef01234567") demo_settings demo_reports d E)
      as (_ & base & pb & lb & best & p & l & Hb & _ & _ & _ & Hbest & Hsel & _ & _ & Hp & Hl & _).
    split; [|split].
    + vm_compute in E. injection E as <-. reflexivity.
    + vm_compute in E. injection E as <-. reflexivity.
    + exists base, pb, lb, best, p, l. split; [exact Hb|]. split; [exact Hbest|]. split; [exact Hsel|]. split; [exact Hp|exact Hl].
  - vm_compute in E. discriminate E.
Defined.

End DeviceSelection.
