(* ===== verification/NumericLayout.v ===== *)
(** * Storage layouts of packed tensors (numeric_layout.py)

    Exporters store a matrix of codes in row, column, padded, tiled or Morton order.
    A layout maps every logical coordinate to a place of the storage; repacking
    reads the matrix back in row-major order and insists on the padding code
    everywhere else. *)

From S2P Require Import Prelude Types PyBytes PyFloat BitPacking.

Module NumericLayout.
Import PyBytes PyFloat BitPacking.

Definition MAX_LAYOUT_ELEMENTS : Z := 65536.

Record NumericLayoutDescriptor := mkLayout {
  rows : Z;
  columns : Z;
  order : string;
  row_stride : option Z;
  tile_rows : option Z;
  tile_columns : option Z;
  padding_code : Z;
}.

(** [_power_of_two] *)
Definition power_of_two (value : option Z) : bool :=
  match value with Some v => (0 <? v) && (Z.land v (v - 1) =? 0) | None => false end.

(** [_morton]: the bits of the column and of the row, interleaved. *)
Definition morton_bit (row column : Z) (result : Z) (bit : nat) : Z :=
  let b := Z.of_nat bit in
  Z.lor (Z.lor result (Z.shiftl (Z.land (Z.shiftr column b) 1) (2 * b)))
        (Z.shiftl (Z.land (Z.shiftr row b) 1) (2 * b + 1)).
Definition morton (row column : Z) : Z := foldl (morton_bit row column) 0 (seq 0 4).

(** [math.ceil(a / b)] *)
Definition ceil_ratio (a b : Z) : res exn Z :=
  match true_div a b with Ok f => Ok (ceil f) | Raise e => Raise e end.

Definition logical_elements (l : NumericLayoutDescriptor) : Z := rows l * columns l.

(** [storage_elements]; its [assert]s hold of every descriptor. *)
Definition storage_elements (l : NumericLayoutDescriptor) : res exn Z :=
  if str_eqb (order l) "row_padded" then
    match row_stride l with Some stride => Ok (rows l * stride) | None => Raise AssertionError end
  else if String.prefix "tile_" (order l) then
    match tile_rows l, tile_columns l with
    | Some tr, Some tc =>
        match ceil_ratio (rows l) tr, ceil_ratio (columns l) tc with
        | Ok r, Ok c => Ok (r * c * tr * tc)
        | Raise e, _ | _, Raise e => Raise e
        end
    | _, _ => Raise AssertionError
    end
  else Ok (logical_elements l).

(** The fields an order uses, as [__post_init__] requires them. *)
Definition order_valid (l : NumericLayoutDescriptor) : bool :=
  if str_eqb (order l) "contiguous_row_major" || str_eqb (order l) "column_major"
  then is_none (row_stride l) && is_none (tile_rows l) && is_none (tile_columns l)
  else if str_eqb (order l) "row_padded"
  then match row_stride l with Some stride => columns l <=? stride | None => false end
       && is_none (tile_rows l) && is_none (tile_columns l)
  else if str_eqb (order l) "tile_row_major" || str_eqb (order l) "tile_morton"
  then is_none (row_stride l)
       && match tile_rows l, tile_columns l with
          | Some tr, Some tc =>
              (1 <=? tr) && (tr <=? 16) && (1 <=? tc) && (tc <=? 16)
              && (negb (str_eqb (order l) "tile_morton")
                  || ((tr =? tc) && power_of_two (tile_rows l) && power_of_two (tile_columns l)))
          | _, _ => false
          end
  else false.

(** [NumericLayoutDescriptor.__post_init__] *)
Definition layout_check (l : NumericLayoutDescriptor) : res exn () :=
  if negb ((1 <=? rows l * columns l) && (rows l * columns l <=? MAX_LAYOUT_ELEMENTS)
           && (0 <=? padding_code l) && (padding_code l <=? 15))
  then Raise (ValueError "invalid numeric layout shape")
  else if negb (order_valid l) then Raise (ValueError "unsupported numeric layout")
  else match storage_elements l with
       | Raise e => Raise e
       | Ok n => check (n <=? MAX_LAYOUT_ELEMENTS * 4) (ValueError "unsupported numeric layout") ()
       end.

(** [storage_index] *)
Definition storage_index (l : NumericLayoutDescriptor) (row column : Z) : res exn Z :=
  if negb ((0 <=? row) && (row <? rows l) && (0 <=? column) && (column <? columns l))
  then Raise (ValueError "numeric layout coordinate is out of range")
  else if str_eqb (order l) "contiguous_row_major" then Ok (row * columns l + column)
  else if str_eqb (order l) "column_major" then Ok (column * rows l + row)
  else if str_eqb (order l) "row_padded" then
    match row_stride l with Some stride => Ok (row * stride + column) | None => Raise AssertionError end
  else
    match tile_rows l, tile_columns l with
    | Some tr, Some tc =>
        match ceil_ratio (columns l) tc with
        | Raise e => Raise e
        | Ok tile_column_count =>
            if (tr =? 0) || (tc =? 0) then Raise ZeroDivisionError
            else
              let tile_offset := (row / tr * tile_column_count + column / tc) * tr * tc in
              Ok (if str_eqb (order l) "tile_row_major"
                  then tile_offset + row mod tr * tc + column mod tc
                  else tile_offset + morton (row mod tr) (column mod tc))
        end
    | _, _ => Raise AssertionError
    end.

(** [for row in range(rows) for column in range(columns)] *)
Definition range (n : Z) : list Z := Z.of_nat <$> seq 0 (Z.to_nat n).
Definition coordinates (l : NumericLayoutDescriptor) : list (Z * Z) :=
  range (rows l) ≫= λ r, (λ c, (r, c)) <$> range (columns l).
Definition logical_indices (l : NumericLayoutDescriptor) : res exn (list Z) :=
  map_res (λ p, storage_index l p.1 p.2) (coordinates l).

(** What the two functions below share: the codes at the logical places, in
    row-major order, when every other place holds the padding code. *)
Definition read_logical (storage : list Z) (l : NumericLayoutDescriptor) (n : Z) : res exn (list Z) :=
  match logical_indices l with
  | Raise e => Raise e
  | Ok indices =>
      if existsb (λ i, negb (bool_decide (i ∈ indices)) && negb (default 0 (storage !! Z.to_nat i) =? padding_code l))
           (range n)
      then Raise (ValueError "numeric layout padding code mismatch")
      else map_res (λ i, match storage !! Z.to_nat i with
                         | Some b => Ok b
                         | None => Raise (IndexError "index out of range")
                         end) indices
  end.

(** [repack_bytes] *)
Definition repack_bytes (payload : bytes) (l : NumericLayoutDescriptor) : res exn bytes :=
  match storage_elements l with
  | Raise e => Raise e
  | Ok n =>
      if negb (Zlen payload =? n) then Raise (ValueError "numeric byte layout payload is invalid")
      else read_logical payload l n
  end.

(** [_nibble] *)
Definition nibble (payload : bytes) (order : string) (index : Z) : res exn Z :=
  let shift := if str_eqb order "low_nibble_first" then 4 * (index mod 2) else 4 * (1 - index mod 2) in
  match payload !! Z.to_nat (index / 2) with
  | Some b => Ok (Z.land (Z.shiftr b shift) 15)
  | None => Raise (IndexError "index out of range")
  end.

(** The output loop of [repack_packed_nibbles]. *)
Definition put_nibble (output : res exn bytes) (p : Z * Z) : res exn bytes :=
  match output with
  | Raise e => Raise e
  | Ok out =>
      let '(index, code) := p in
      match out !! Z.to_nat (index / 2) with
      | Some b => Ok (<[Z.to_nat (index / 2) := Z.lor b (Z.shiftl code (4 * (index mod 2)))]> out)
      | None => Raise (IndexError "bytearray index out of range")
      end
  end.
Definition pack_nibbles (logical : list Z) : res exn bytes :=
  foldl put_nibble (Ok (replicate (Z.to_nat ((Zlen logical + 1) / 2)) 0)) (zip (range (Zlen logical)) logical).

Definition nibble_orders : list string := ["low_nibble_first"; "high_nibble_first"].

(** [repack_packed_nibbles] *)
Definition repack_packed_nibbles (packed : bytes) (l : NumericLayoutDescriptor) (nibble_order : string)
    : res exn bytes :=
  match storage_elements l with
  | Raise e => Raise e
  | Ok n =>
      if negb (Zlen packed =? (n + 1) / 2) || negb (bool_decide (nibble_order ∈ nibble_orders))
      then Raise (ValueError "numeric packed layout payload is invalid")
      else
        match map_res (nibble packed nibble_order) (range n) with
        | Raise e => Raise e
        | Ok storage_codes =>
            let trailing := if n mod 2 =? 0 then Ok (padding_code l) else nibble packed nibble_order n in
            match trailing with
            | Raise e => Raise e
            | Ok t =>
                if negb (t =? padding_code l) then Raise (ValueError "numeric layout trailing padding code mismatch")
                else match read_logical storage_codes l n with
                     | Raise e => Raise e
                     | Ok logical => pack_nibbles logical
                     end
            end
        end
  end.

(** ** Exporter adapters *)

(** [_identifier]; [isalnum] of ASCII text. *)
Definition is_alnum (c : Ascii.ascii) : bool :=
  let n := Ascii.nat_of_ascii c in
  ((48 <=? n)%nat && (n <=? 57)%nat) || ((65 <=? n)%nat && (n <=? 90)%nat) || ((97 <=? n)%nat && (n <=? 122)%nat).
Definition identifier (value : string) : bool :=
  (1 <=? str_len value) && (str_len value <=? 128)
  && forallb (λ c, is_alnum c || existsb (Ascii.eqb c) (String.list_ascii_of_string "._-")) (String.list_ascii_of_string value).

Record NumericExporterLayoutAdapter := mkAdapter {
  exporter_id : string;
  recipe_id : string;
  value_layout : NumericLayoutDescriptor;
  scale_layout : NumericLayoutDescriptor;
  nibble_order : string;
}.
Definition adapter_check (a : NumericExporterLayoutAdapter) : res exn () :=
  check (identifier (exporter_id a) && identifier (recipe_id a) && bool_decide (nibble_order a ∈ nibble_orders))
    (ValueError "invalid numeric exporter layout adapter") ().
Definition repack_values (a : NumericExporterLayoutAdapter) (packed : bytes) : res exn bytes :=
  repack_packed_nibbles packed (value_layout a) (nibble_order a).
Definition repack_scales (a : NumericExporterLayoutAdapter) (scales : bytes) : res exn bytes :=
  repack_bytes scales (scale_layout a).

(** [NumericExporterLayoutRegistry] *)
Definition NumericExporterLayoutRegistry := gmap (string * string) NumericExporterLayoutAdapter.
Definition adapter_key (a : NumericExporterLayoutAdapter) : string * string := (exporter_id a, recipe_id a).
Definition new_registry (adapters : list NumericExporterLayoutAdapter) : res exn NumericExporterLayoutRegistry :=
  if is_none (head adapters) || (Zlen adapters >? 256) || negb (bool_decide (NoDup (adapter_key <$> adapters)))
  then Raise (ValueError "invalid numeric exporter layout registry")
  else Ok (list_to_map ((λ a, (adapter_key a, a)) <$> adapters)).
Definition resolve (r : NumericExporterLayoutRegistry) (exporter recipe : string)
    : res exn NumericExporterLayoutAdapter :=
  match r !! (exporter, recipe) with
  | Some a => Ok a
  | None => Raise (ValueError "unsupported numeric exporter layout")
  end.

(** ** Places *)

(** Two digits of a mixed radix. *)
Lemma flat_range A w a b : 0 <= a < A → 0 <= b < w → 0 <= a * w + b < A * w.
Proof. nia. Qed.
Lemma flat_inj w a b a' b' : 0 <= b < w → 0 <= b' < w → a * w + b = a' * w + b' → a = a' ∧ b = b'.
Proof.
  intros Hb Hb' H. assert (a = a') as ->; [|lia].
  rewrite (Z.div_unique_pos (a * w + b) w a b), (Z.div_unique_pos (a' * w + b') w a' b') by lia. by f_equal.
Qed.

Lemma ceil_ratio_spec a b : 0 <= a <= 65536 → 1 <= b <= 16 → ceil_ratio a b = Ok ((a + b - 1) / b).
Proof.
  intros Ha Hb. unfold ceil_ratio, true_div, check. destruct (b =? 0) eqn:E; breflect; [lia|].
  destruct (ceil_int_div a b) as [-> ->]; [lia..|done].
Qed.
Lemma tile_of x w n : 0 <= x < n → 1 <= w → 0 <= x / w < (n + w - 1) / w.
Proof.
  intros Hx Hw. split; [apply Z.div_pos; lia|]. apply Z.lt_le_trans with (x / w + 1); [lia|].
  replace (x / w + 1) with ((x + 1 * w) / w) by (rewrite Z.div_add; lia). apply Z.div_le_mono; lia.
Qed.

(** A Morton code gives its coordinates back. *)
Definition unmorton_bit (n : Z) (from : Z) (bit : nat) : Z := Z.b2z (Z.testbit n (2 * Z.of_nat bit + from)).
Definition unmorton (from n : Z) : Z := foldr (λ bit acc, unmorton_bit n from bit + 2 * acc) 0 (seq 0 4).
Definition morton_ok (size row column : Z) : bool :=
  let m := morton row column in
  (0 <=? m) && (m <? size * size) && (unmorton 1 m =? row) && (unmorton 0 m =? column).
Lemma morton_table :
  forallb (λ size, forallb (λ r, forallb (morton_ok size r) (range size)) (range size)) [1; 2; 4; 8; 16] = true.
Proof. vm_compute. reflexivity. Qed.

Lemma elem_of_range i n : i ∈ range n ↔ 0 <= i < n.
Proof.
  unfold range. rewrite list_elem_of_fmap. split.
  - intros (k & -> & Hk%elem_of_seq). lia.
  - intros Hi. exists (Z.to_nat i). split; [lia|]. apply elem_of_seq. lia.
Qed.
Lemma NoDup_range n : NoDup (range n).
Proof. apply NoDup_fmap_2; [apply _|apply NoDup_seq]. Qed.

Lemma power_of_two_cases v : 1 <= v <= 16 → power_of_two (Some v) = true → v ∈ [1; 2; 4; 8; 16].
Proof.
  intros Hv. assert (v ∈ range 17) as Hin by (apply elem_of_range; lia).
  assert (Hall : Forall (λ v, power_of_two (Some v) = true → v ∈ [1; 2; 4; 8; 16]) (range 17)).
  { apply Forall_forall. intros x Hx. apply list_elem_of_In in Hx.
    vm_compute in Hx. repeat (destruct Hx as [<-|Hx]; [vm_compute; intros; try done; set_solver|]). done. }
  rewrite Forall_forall in Hall. by apply Hall.
Qed.
Lemma morton_spec size r c r' c' :
  1 <= size <= 16 → power_of_two (Some size) = true → 0 <= r < size → 0 <= c < size → 0 <= r' < size → 0 <= c' < size →
  0 <= morton r c < size * size ∧ (morton r c = morton r' c' → r = r' ∧ c = c').
Proof.
  intros Hs Hp Hr Hc Hr' Hc'. pose proof morton_table as Ht. rewrite forallb_forall in Ht.
  specialize (Ht size). rewrite <-list_elem_of_In in Ht. specialize (Ht (power_of_two_cases _ Hs Hp)).
  assert (Hok : ∀ a b, 0 <= a < size → 0 <= b < size → morton_ok size a b = true).
  { intros a b Ha Hb. rewrite forallb_forall in Ht. specialize (Ht a). rewrite <-list_elem_of_In, elem_of_range in Ht.
    specialize (Ht Ha). rewrite forallb_forall in Ht. specialize (Ht b). rewrite <-list_elem_of_In, elem_of_range in Ht. auto. }
  pose proof (Hok r c Hr Hc) as H1. pose proof (Hok r' c' Hr' Hc') as H2. unfold morton_ok in H1, H2.
  cbv zeta in H1, H2. breflect. split; [lia|]. intros Heq. rewrite Heq in *. split; congruence.
Qed.

(** What a layout's places are: within the storage, and distinct. *)
Record places (l : NumericLayoutDescriptor) (n : Z) (f : Z → Z → Z) : Prop := {
  pl_storage : storage_elements l = Ok n;
  pl_index : ∀ r c, 0 <= r < rows l → 0 <= c < columns l → storage_index l r c = Ok (f r c) ∧ 0 <= f r c < n;
  pl_inj : ∀ r c r' c', 0 <= r < rows l → 0 <= c < columns l → 0 <= r' < rows l → 0 <= c' < columns l →
    f r c = f r' c' → r = r' ∧ c = c';
}.

Definition tile_inner (o : string) (tc a b : Z) : Z := if str_eqb o "tile_row_major" then a * tc + b else morton a b.

Section tiles.
Context (o : string) (tr tc : Z).
Hypothesis tr_range : 1 <= tr <= 16.
Hypothesis tc_range : 1 <= tc <= 16.
Hypothesis square : negb (str_eqb o "tile_morton")
  || ((tr =? tc) && power_of_two (Some tr) && power_of_two (Some tc)) = true.
Hypothesis known : str_eqb o "tile_row_major" || str_eqb o "tile_morton" = true.

Lemma tile_inner_spec a b a' b' :
  0 <= a < tr → 0 <= b < tc → 0 <= a' < tr → 0 <= b' < tc →
  0 <= tile_inner o tc a b < tr * tc ∧ (tile_inner o tc a b = tile_inner o tc a' b' → a = a' ∧ b = b').
Proof.
  intros Ha Hb Ha' Hb'. unfold tile_inner. destruct (str_eqb o "tile_row_major") eqn:E.
  - split; [by apply flat_range|by apply flat_inj].
  - cbn in known. rewrite known in square. cbn [negb orb] in square. apply andb_prop in square as [[<-%Z.eqb_eq Hp]%andb_prop _].
    by apply morton_spec.
Qed.

Lemma tile_index_spec R C r c r' c' :
  0 <= r < R → 0 <= c < C → 0 <= r' < R → 0 <= c' < C →
  let f r c := (r / tr * ((C + tc - 1) / tc) + c / tc) * tr * tc + tile_inner o tc (r mod tr) (c mod tc) in
  0 <= f r c < (R + tr - 1) / tr * ((C + tc - 1) / tc) * tr * tc ∧ (f r c = f r' c' → r = r' ∧ c = c').
Proof.
  intros Hr Hc Hr' Hc' f. unfold f. clear f.
  pose proof (Z.mod_pos_bound r tr). pose proof (Z.mod_pos_bound c tc).
  pose proof (Z.mod_pos_bound r' tr). pose proof (Z.mod_pos_bound c' tc).
  destruct (tile_inner_spec (r mod tr) (c mod tc) (r' mod tr) (c' mod tc)) as [Hin Hinj]; [lia..|].
  destruct (tile_inner_spec (r' mod tr) (c' mod tc) (r mod tr) (c mod tc)) as [Hin' _]; [lia..|].
  pose proof (tile_of r tr R Hr ltac:(lia)) as Htr. pose proof (tile_of c tc C Hc ltac:(lia)) as Htc.
  pose proof (tile_of c' tc C Hc' ltac:(lia)) as Htc'.
  rewrite <-!(Z.mul_assoc _ tr tc). split.
  - apply flat_range; [|done]. by apply flat_range.
  - intros [Houter Hm]%flat_inj; [|done..]. apply flat_inj in Houter as [Hr1 Hc1]; [|done..].
    destruct (Hinj Hm) as [Hr2 Hc2].
    rewrite (Z.div_mod r tr), (Z.div_mod r' tr), (Z.div_mod c tc), (Z.div_mod c' tc) by lia. by rewrite Hr1, Hc1, Hr2, Hc2.
Qed.
End tiles.

(** Decide the comparisons of string literals in the goal. *)
Ltac compare_literals :=
  repeat match goal with
  | |- context [str_eqb ?a ?b] =>
      let v := eval vm_compute in (str_eqb a b) in
      match v with true => change (str_eqb a b) with true | false => change (str_eqb a b) with false end
  end; cbv iota.

Lemma in_shape l r c :
  0 <= r < rows l → 0 <= c < columns l →
  negb ((0 <=? r) && (r <? rows l) && (0 <=? c) && (c <? columns l)) = false.
Proof. intros Hr Hc. by rewrite !(proj2 (Z.leb_le _ _)), !(proj2 (Z.ltb_lt _ _)) by lia. Qed.

Lemma places_rows l : order l = "contiguous_row_major" → places l (rows l * columns l) (λ r c, r * columns l + c).
Proof.
  intros Ho. split.
  - unfold storage_elements. by rewrite Ho.
  - intros r c Hr Hc. unfold storage_index. rewrite in_shape, Ho by done. split; [done|by apply flat_range].
  - intros r c r' c' ???? Heq. by apply flat_inj in Heq.
Qed.
Lemma places_columns l : order l = "column_major" → places l (rows l * columns l) (λ r c, c * rows l + r).
Proof.
  intros Ho. split.
  - unfold storage_elements. by rewrite Ho.
  - intros r c Hr Hc. unfold storage_index. rewrite in_shape, Ho by done. split; [done|].
    rewrite (Z.mul_comm (rows l)). by apply flat_range.
  - intros r c r' c' ???? [??]%flat_inj; done.
Qed.
Lemma places_padded l stride :
  order l = "row_padded" → row_stride l = Some stride → columns l <= stride →
  places l (rows l * stride) (λ r c, r * stride + c).
Proof.
  intros Ho Hs Hle. split.
  - unfold storage_elements. by rewrite Ho, Hs.
  - intros r c Hr Hc. unfold storage_index. rewrite in_shape, Ho, Hs by done. split; [done|]. apply flat_range; lia.
  - intros r c r' c' ???? Heq. apply flat_inj in Heq; lia.
Qed.
Lemma places_tiled l tr tc :
  1 <= rows l <= 65536 → 1 <= columns l <= 65536 →
  str_eqb (order l) "tile_row_major" || str_eqb (order l) "tile_morton" = true →
  tile_rows l = Some tr → tile_columns l = Some tc → 1 <= tr <= 16 → 1 <= tc <= 16 →
  negb (str_eqb (order l) "tile_morton") || ((tr =? tc) && power_of_two (Some tr) && power_of_two (Some tc)) = true →
  places l ((rows l + tr - 1) / tr * ((columns l + tc - 1) / tc) * tr * tc)
    (λ r c, (r / tr * ((columns l + tc - 1) / tc) + c / tc) * tr * tc + tile_inner (order l) tc (r mod tr) (c mod tc)).
Proof.
  intros Hrows Hcols Ho Htr Htc Hr Hc Hsq. split.
  - unfold storage_elements. rewrite Htr, Htc, !ceil_ratio_spec by lia.
    apply orb_true_iff in Ho as [Ho|Ho]; unfold str_eqb in Ho; breflect; by rewrite Ho.
  - intros r c Hrr Hcc. destruct (tile_index_spec (order l) tr tc Hr Hc Hsq Ho (rows l) (columns l) r c r c) as [Hin _]; [done..|].
    split; [|done]. unfold storage_index. rewrite in_shape, Htr, Htc, ceil_ratio_spec by (done || lia).
    rewrite (proj2 (Z.eqb_neq tr 0)), (proj2 (Z.eqb_neq tc 0)) by lia.
    unfold tile_inner. apply orb_true_iff in Ho as [Ho|Ho]; unfold str_eqb in Ho; breflect; rewrite Ho; compare_literals; by rewrite ?Z.add_assoc.
  - intros r c r' c' ???? Heq.
    by apply (tile_index_spec (order l) tr tc Hr Hc Hsq Ho (rows l) (columns l) r c r' c').
Qed.

(** A descriptor the constructor accepts, of a shape that is not negative, has places. *)
Lemma layout_places l : layout_check l = Ok () → 1 <= rows l → ∃ n f, places l n f ∧ 0 <= padding_code l <= 15 ∧ 0 <= n.
Proof.
  unfold layout_check, MAX_LAYOUT_ELEMENTS. intros Hc Hr. destruct (negb (_ && _ && _ && _)) eqn:Es; [done|].
  apply negb_false_iff in Es. breflect. destruct (order_valid l) eqn:Ev; [|done]. clear Hc.
  assert (0 < columns l) as Hpos by (apply (Z.mul_pos_cancel_l (rows l)); lia).
  assert (1 <= columns l <= 65536 ∧ rows l <= 65536) as (Hcol & Hrow) by nia.
  assert (Hpl : ∃ n f, places l n f).
  { unfold order_valid in Ev. destruct (str_eqb (order l) "contiguous_row_major" || _) eqn:Eplain.
    { apply orb_true_iff in Eplain as [E|E]; unfold str_eqb in E; breflect;
        [by eexists _, _; apply places_rows|by eexists _, _; apply places_columns]. }
    destruct (str_eqb (order l) "row_padded") eqn:Epad.
    { unfold str_eqb in Epad. breflect. destruct (row_stride l) as [stride|] eqn:Est; [|done]. breflect.
      by eexists _, _; apply (places_padded l stride). }
    destruct (_ || _) eqn:Et in Ev; [|done]. apply andb_prop in Ev as [_ Ev].
    destruct (tile_rows l) as [tr|] eqn:Etr, (tile_columns l) as [tc|] eqn:Etc; try done.
    apply andb_prop in Ev as [Ev Hsq]. breflect. by eexists _, _; apply (places_tiled l tr tc). }
  destruct Hpl as (n & f & Hpl). exists n, f. split; [done|]. split; [lia|].
  destruct (pl_index _ _ _ Hpl 0 0); lia.
Qed.

(** ** Storing and reading back

    The reference the repacking functions are compared with: the row-major elements
    written at their places in a storage full of padding. *)

Definition store (padding n : Z) (indices logical : list Z) : list Z :=
  foldr (λ p acc, <[Z.to_nat p.1 := p.2]> acc) (replicate (Z.to_nat n) padding) (zip indices logical).

Section store.
Context (padding n : Z).

Lemma length_store indices logical : length (store padding n indices logical) = Z.to_nat n.
Proof.
  unfold store. generalize (zip indices logical) as ps. induction ps as [|p ps IH]; cbn; [apply length_replicate|].
  by rewrite length_insert.
Qed.

Lemma store_outside indices logical i :
  Forall (λ i, 0 <= i < n) indices → 0 <= i < n → i ∉ indices → store padding n indices logical !! Z.to_nat i = Some padding.
Proof.
  intros Hin Hi. revert logical. induction Hin as [|j indices Hj _ IH]; intros logical Hni.
  - unfold store. cbn. apply lookup_replicate. split; [done|lia].
  - apply not_elem_of_cons in Hni as [Hne Hni]. destruct logical as [|b logical].
    + unfold store. cbn. apply lookup_replicate. split; [done|lia].
    + change (store padding n (j :: indices) (b :: logical)) with (<[Z.to_nat j := b]> (store padding n indices logical)).
      rewrite list_lookup_insert_ne by lia. by apply IH.
Qed.

Lemma store_inside indices logical k i b :
  Forall (λ i, 0 <= i < n) indices → NoDup indices → indices !! k = Some i → logical !! k = Some b →
  store padding n indices logical !! Z.to_nat i = Some b.
Proof.
  intros Hin. revert logical k. induction Hin as [|j indices Hj Hin IH]; intros logical k Hnd Hk Hb; [done|].
  apply NoDup_cons in Hnd as [Hj' Hnd]. destruct logical as [|c logical]; [done|].
  change (store padding n (j :: indices) (c :: logical)) with (<[Z.to_nat j := c]> (store padding n indices logical)).
  destruct k as [|k]; cbn in Hk, Hb.
  - injection Hk as ->. injection Hb as ->. apply list_lookup_insert_eq. rewrite length_store. lia.
  - assert (i ≠ j) by (intros ->; apply Hj'; by eapply list_elem_of_lookup_2).
    assert (0 <= i) by (rewrite Forall_forall in Hin; apply Hin; by eapply list_elem_of_lookup_2).
    rewrite list_lookup_insert_ne by lia. by apply (IH _ k).
Qed.
End store.

Lemma elem_of_coordinates l r c : (r, c) ∈ coordinates l ↔ 0 <= r < rows l ∧ 0 <= c < columns l.
Proof.
  unfold coordinates. rewrite list_elem_of_bind. split.
  - intros (r' & (c' & [= -> ->] & Hc%elem_of_range)%list_elem_of_fmap & Hr%elem_of_range). done.
  - intros [Hr Hc]. exists r. rewrite list_elem_of_fmap, elem_of_range. split; [|done]. exists c. by rewrite elem_of_range.
Qed.
Lemma NoDup_coordinates l : NoDup (coordinates l).
Proof.
  apply NoDup_bind.
  - intros r r' p _ _ (? & -> & _)%list_elem_of_fmap (? & [= ->] & _)%list_elem_of_fmap. done.
  - intros r _. apply NoDup_fmap_2; [|apply NoDup_range]. by intros x y [= ->].
  - apply NoDup_range.
Qed.
Lemma length_bind_const {A B} (f : A → list B) m l : (∀ x, length (f x) = m) → length (l ≫= f) = (length l * m)%nat.
Proof. intros Hf. induction l as [|x l IH]; cbn; [done|]. by rewrite length_app, Hf, IH. Qed.
Lemma lookup_bind_const {A B} (f : A → list B) m l i j :
  (∀ x, length (f x) = m) → (j < m)%nat → (l ≫= f) !! (i * m + j)%nat = l !! i ≫= λ x, f x !! j.
Proof.
  intros Hf Hj. revert i. induction l as [|x l IH]; intros i; cbn; [done|]. destruct i as [|i]; cbn.
  - rewrite lookup_app_l by (rewrite Hf; lia). done.
  - rewrite lookup_app_r by (rewrite Hf; lia). rewrite Hf, <-IH. f_equal. lia.
Qed.
Lemma range_lookup n i : 0 <= i < n → range n !! Z.to_nat i = Some i.
Proof. intros Hi. unfold range. rewrite list_lookup_fmap, lookup_seq_lt by lia. cbn. f_equal. lia. Qed.
Lemma length_range n : length (range n) = Z.to_nat n.
Proof. unfold range. by rewrite length_fmap, length_seq. Qed.

Lemma length_row l (r : Z) : length ((λ c, (r, c)) <$> range (columns l)) = Z.to_nat (columns l).
Proof. by rewrite length_fmap, length_range. Qed.
Lemma length_coordinates l : 0 <= rows l → 0 <= columns l → Zlen (coordinates l) = logical_elements l.
Proof.
  intros Hr Hc. unfold coordinates, logical_elements, Zlen.
  rewrite (length_bind_const _ _ _ (length_row l)), length_range. lia.
Qed.
Lemma coordinates_lookup l r c :
  0 <= r < rows l → 0 <= c < columns l → coordinates l !! Z.to_nat (r * columns l + c) = Some (r, c).
Proof.
  intros Hr Hc. unfold coordinates.
  replace (Z.to_nat (r * columns l + c)) with (Z.to_nat r * Z.to_nat (columns l) + Z.to_nat c)%nat by nia.
  rewrite (lookup_bind_const _ _ _ _ _ (length_row l)) by lia. rewrite range_lookup by done. cbn.
  by rewrite list_lookup_fmap, range_lookup.
Qed.

(** The places of a layout, as the loops compute them. *)
Record indices_ok (l : NumericLayoutDescriptor) (n : Z) (indices : list Z) : Prop := {
  ix_storage : storage_elements l = Ok n;
  ix_nonneg : 0 <= n;
  ix_logical : logical_indices l = Ok indices;
  ix_distinct : NoDup indices;
  ix_inside : Forall (λ i, 0 <= i < n) indices;
  ix_count : Zlen indices = logical_elements l;
  ix_lookup : ∀ r c i, storage_index l r c = Ok i → indices !! Z.to_nat (r * columns l + c) = Some i;
}.

Lemma layout_indices l : layout_check l = Ok () → 1 <= rows l → ∃ n indices, indices_ok l n indices ∧ 0 <= padding_code l <= 15.
Proof.
  intros Hc Hr. destruct (layout_places l Hc Hr) as (n & f & [Hn Hi Hj] & Hp & Hn0).
  assert (0 <= columns l).
  { unfold layout_check in Hc. destruct (negb _) eqn:E in Hc; [done|]. breflect. nia. }
  set (g := λ p : Z * Z, f p.1 p.2). exists n, (g <$> coordinates l). split; [|done].
  assert (Hm : logical_indices l = Ok (g <$> coordinates l)).
  { unfold logical_indices. apply map_res_Ok. apply Forall2_fmap_r, Forall_Forall2_diag, Forall_forall.
    intros [r c] [Hr1 Hc1]%elem_of_coordinates. destruct (Hi r c Hr1 Hc1) as [Heq _]. exact Heq. }
  split; try done.
  - apply NoDup_fmap_2_strong; [|apply NoDup_coordinates].
    intros [r c] [r' c'] [??]%elem_of_coordinates [??]%elem_of_coordinates Heq. by destruct (Hj r c r' c') as [-> ->].
  - apply Forall_forall. intros i ([r c] & -> & [??]%elem_of_coordinates)%list_elem_of_fmap. by apply Hi.
  - unfold Zlen. rewrite length_fmap. apply length_coordinates; [lia|done].
  - intros r c i Hrc. assert (0 <= r < rows l ∧ 0 <= c < columns l) as [Hr' Hc'].
    { unfold storage_index in Hrc. destruct (negb _) eqn:E in Hrc; [done|]. breflect. lia. }
    destruct (Hi r c Hr' Hc') as [Heq _]. rewrite list_lookup_fmap, coordinates_lookup by done. cbn. unfold g. cbn. congruence.
Qed.

Section reading.
Context (l : NumericLayoutDescriptor) (n : Z) (indices : list Z).
Hypothesis Hix : indices_ok l n indices.

(** Reading succeeds exactly on what storing produces, and gives it back. *)
Lemma read_logical_spec storage out :
  length storage = Z.to_nat n →
  read_logical storage l n = Ok out ↔ length out = length indices ∧ storage = store (padding_code l) n indices out.
Proof.
  intros Hlen. destruct Hix as [_ Hn Hlog Hnd Hin _ _]. unfold read_logical. rewrite Hlog. split.
  - destruct (existsb _ _) eqn:Epad; [done|]. intros Hout%map_res_Ok.
    split; [symmetry; by eapply Forall2_length|]. apply list_eq_same_length with (n := Z.to_nat n); [by rewrite length_store|done|].
    intros k x y Hk Hx Hy. set (i := Z.of_nat k). assert (Hik : k = Z.to_nat i) by lia. rewrite Hik in Hx, Hy.
    destruct (decide (i ∈ indices)) as [Hmem|Hmem].
    + apply list_elem_of_lookup in Hmem as [q Hq]. destruct (Forall2_lookup_l _ _ _ _ _ Hout Hq) as (b & Hb & Hib).
      erewrite store_inside in Hy by done. destruct (storage !! Z.to_nat i) as [b'|]; congruence.
    + rewrite store_outside in Hy by (done || lia).
      destruct (decide (x = y)) as [|Hne]; [done|]. exfalso.
      enough (existsb (λ i, negb (bool_decide (i ∈ indices)) && negb (default 0 (storage !! Z.to_nat i) =? padding_code l)) (range n) = true) by congruence.
      apply existsb_exists. exists i. split; [apply list_elem_of_In, elem_of_range; lia|].
      rewrite bool_decide_eq_false_2 by done. rewrite Hx. cbn. apply negb_true_iff, Z.eqb_neq. congruence.
  - intros [Hlo ->]. destruct (existsb _ _) eqn:Epad.
    + apply existsb_exists in Epad as (i & Hi%list_elem_of_In%elem_of_range & Hbad). breflect.
      rewrite store_outside in H0 by done. done.
    + apply map_res_Ok. apply Forall2_same_length_lookup. split; [done|]. intros k i b Hi Hb.
      by erewrite store_inside.
Qed.
End reading.

(** ** Nibbles *)

Lemma half_place i : 0 <= i → i * 4 / 8 = i / 2 ∧ i * 4 mod 8 = 4 * (i mod 2).
Proof. intros Hi. split; Z.to_euclidean_division_equations; lia. Qed.

(** The output loop is the packing of four-bit codes of [BitPacking]. *)
Lemma put_nibbles_pack codes : ∀ k result out j,
  fold_res (pack_code 4) codes (Z.of_nat k, result) = Ok (j, out) →
  foldl put_nibble (Ok result) (zip (Z.of_nat <$> seq k (length codes)) codes) = Ok out.
Proof.
  induction codes as [|c codes IH]; intros k result out j; cbn [fold_res length seq fmap list_fmap zip zip_with foldl].
  { by intros [= _ ->]. }
  destruct (pack_code 4 (Z.of_nat k, result) c) as [[k' result']|] eqn:Ec; [|done]. intros Hrun.
  unfold pack_code in Ec. destruct (negb _) in Ec; [done|]. cbv zeta in Ec.
  destruct (half_place (Z.of_nat k)) as [Hq Hm]; [lia|]. rewrite Hq, Hm in Ec. cbn [put_nibble].
  destruct (result !! _) as [b|]; [|done]. destruct (_ <? 256); [|done]. injection Ec as <- <-.
  replace (Z.of_nat k + 1) with (Z.of_nat (S k)) in Hrun by lia. by apply (IH _ _ _ _ Hrun).
Qed.
Lemma pack_nibbles_spec codes : digits_ok 4 codes → pack_nibbles codes = pack codes 4 ∧ is_ok (pack codes 4) = true.
Proof.
  intros Hd. pose proof (pack_spec 4 ltac:(lia) ltac:(by exists 2) codes) as Hp.
  destruct (pack codes 4) as [out|e] eqn:E; [|by destruct Hp]. split; [|done]. unfold pack in E. unfold pack_nibbles, range.
  replace ((Zlen codes * 4 + 7) / 8) with ((Zlen codes + 1) / 2) in E by (Z.to_euclidean_division_equations; lia).
  destruct (fold_res _ _ _) as [[j out']|] eqn:Ef; [|done]. injection E as ->. unfold Zlen at 2. rewrite Nat2Z.id.
  by apply (put_nibbles_pack codes 0 _ _ j).
Qed.

Lemma nibble_digit packed o i b : nibble packed o i = Ok b → 0 <= b < 16.
Proof.
  unfold nibble. destruct (packed !! _) as [x|]; [|done]. intros [= <-]. change 15 with (Z.ones 4).
  rewrite Z.land_ones by lia. apply Z.mod_pos_bound. lia.
Qed.
(** Two codes in a byte: in the low order the first is the remainder by 16, in the high
    order the quotient. *)
Fixpoint nibble_bytes (order : string) (codes : list Z) : bytes :=
  match codes with
  | x :: y :: codes' => (if str_eqb order "low_nibble_first" then x + 16 * y else 16 * x + y) :: nibble_bytes order codes'
  | _ => []
  end.
Lemma nibble_shift b packed o i : 0 <= i → nibble (b :: packed) o (i + 2) = nibble packed o i.
Proof.
  intros Hi. unfold nibble. replace ((i + 2) mod 2) with (i mod 2) by (Z.to_euclidean_division_equations; lia).
  replace (Z.to_nat ((i + 2) / 2)) with (S (Z.to_nat (i / 2))) by (Z.to_euclidean_division_equations; lia). done.
Qed.
Lemma byte_nibbles b packed o :
  nibble (b :: packed) o 0 = Ok (if str_eqb o "low_nibble_first" then b mod 16 else (b / 16) mod 16) ∧
  nibble (b :: packed) o 1 = Ok (if str_eqb o "low_nibble_first" then (b / 16) mod 16 else b mod 16).
Proof.
  unfold nibble. change 15 with (Z.ones 4). change (Z.to_nat (0 / 2)) with 0%nat. change (Z.to_nat (1 / 2)) with 0%nat. change (0 mod 2) with 0. change (1 mod 2) with 1.
  change ((b :: packed) !! 0%nat) with (Some b). cbv beta iota.
  destruct (str_eqb o "low_nibble_first"); rewrite !Z.land_ones, !Z.shiftr_div_pow2 by lia; rewrite ?Z.mul_0_r, ?Z.mul_1_r, ?Z.sub_diag, ?Z.sub_0_r, ?Z.mul_0_r, ?Z.mul_1_r; change (2 ^ 0) with 1; rewrite Z.div_1_r; done.
Qed.
Lemma pair_induction (P : list Z → Prop) : P [] → (∀ x, P [x]) → (∀ x y l, P l → P (x :: y :: l)) → ∀ l, P l.
Proof.
  intros H0 H1 H2 l. enough (P l ∧ ∀ x, P (x :: l)) by naive_solver. induction l as [|y l [IH1 IH2]]; [by split|]. split; [done|]. intros x. by apply H2.
Qed.
Lemma nibble_bytes_length o codes : Nat.Even (length codes) → (2 * length (nibble_bytes o codes))%nat = length codes.
Proof.
  induction codes as [|x|x y codes IH] using pair_induction; cbn; [done|by intros [k Hk]; lia|]. intros [k Hk]. destruct k as [|k]; [lia|].
  specialize (IH ltac:(exists k; lia)). lia.
Qed.
Lemma nibble_bytes_ok o codes : digits_ok 4 codes → bytes_ok (nibble_bytes o codes).
Proof.
  unfold digits_ok. change (2 ^ 4) with 16. induction codes as [|x|x y codes IH] using pair_induction; [constructor..|].
  intros [Hx [Hy Hd]%Forall_cons]%Forall_cons. constructor; [destruct (str_eqb _ _); lia|by apply IH].
Qed.
(** The codes are read back in their order. *)
Lemma nibble_bytes_get o codes i c : digits_ok 4 codes → Nat.Even (length codes) → codes !! i = Some c → nibble (nibble_bytes o codes) o (Z.of_nat i) = Ok c.
Proof.
  unfold digits_ok. change (2 ^ 4) with 16. revert i. induction codes as [|x|x y codes IH] using pair_induction; intros i; [done|by intros _ [k Hk]; cbn in Hk; lia|].
  intros [Hx [Hy Hd]%Forall_cons]%Forall_cons [k Hk] Hi. cbn [nibble_bytes]. destruct i as [|[|i]].
  - injection Hi as <-. change (Z.of_nat 0) with 0. destruct (byte_nibbles (if str_eqb o "low_nibble_first" then x + 16 * y else 16 * x + y) (nibble_bytes o codes) o) as [-> _].
    destruct (str_eqb _ _); f_equal; Z.to_euclidean_division_equations; lia.
  - injection Hi as <-. destruct (byte_nibbles (if str_eqb o "low_nibble_first" then x + 16 * y else 16 * x + y) (nibble_bytes o codes) o) as [_ Hn].
    change (Z.of_nat 1) with 1. rewrite Hn. destruct (str_eqb _ _); f_equal; Z.to_euclidean_division_equations; lia.
  - replace (Z.of_nat (S (S i))) with (Z.of_nat i + 2) by lia. rewrite nibble_shift by lia. apply IH; [done| |done]. destruct k as [|k]; [cbn in Hk; lia|]. exists k. cbn in Hk. lia.
Qed.
(** Bytes with the same nibbles are the same. *)
Lemma nibbles_determine o p q : bytes_ok p → bytes_ok q → length p = length q →
  (∀ i, 0 <= i < 2 * Zlen p → nibble p o i = nibble q o i) → p = q.
Proof.
  intros Hp. revert q. induction Hp as [|b p Hb Hp IH]; intros [|c q] Hq Hlen Hn; try done. apply Forall_cons in Hq as [Hc Hq].
  assert (Hlt : 2 <= 2 * Zlen (b :: p)) by (unfold Zlen; cbn; lia).
  pose proof (Hn 0 ltac:(lia)) as H0. pose proof (Hn 1 ltac:(lia)) as H1. destruct (byte_nibbles b p o) as [B0 B1], (byte_nibbles c q o) as [C0 C1].
  rewrite B0, C0 in H0. rewrite B1, C1 in H1. injection H0 as H0. injection H1 as H1. f_equal.
  - destruct (str_eqb _ _); Z.to_euclidean_division_equations; lia.
  - apply IH; [done|by injection Hlen|]. intros i Hi. rewrite <-(nibble_shift b p), <-(nibble_shift c q) by lia. apply Hn. unfold Zlen in *. cbn. lia.
Qed.

Section packed.
Context (l : NumericLayoutDescriptor) (n : Z) (indices : list Z).
Hypothesis Hix : indices_ok l n indices.
Hypothesis Hpad : 0 <= padding_code l <= 15.

Lemma repack_bytes_spec payload out :
  repack_bytes payload l = Ok out ↔ length out = length indices ∧ payload = store (padding_code l) n indices out.
Proof.
  unfold repack_bytes. rewrite (ix_storage _ _ _ Hix). pose proof (ix_nonneg _ _ _ Hix).
  destruct (Zlen payload =? n) eqn:E; breflect; cbn [negb].
  - apply read_logical_spec; [done|]. unfold Zlen in E. lia.
  - split; [done|]. intros [_ ->]. unfold Zlen in E. rewrite length_store in E. lia.
Qed.

(** What [repack_packed_nibbles] reads. *)
Record nibbles_of (packed : bytes) (o : string) (codes : list Z) : Prop := {
  nb_size : Zlen packed = (n + 1) / 2;
  nb_codes : map_res (nibble packed o) (range n) = Ok codes;
  nb_trailing : n mod 2 ≠ 0 → nibble packed o n = Ok (padding_code l);
}.

Lemma repack_nibbles_spec packed o out :
  o ∈ nibble_orders →
  repack_packed_nibbles packed l o = Ok out ↔
    ∃ codes, length codes = length indices ∧ pack codes 4 = Ok out ∧
             nibbles_of packed o (store (padding_code l) n indices codes).
Proof.
  intros Ho. unfold repack_packed_nibbles. rewrite (ix_storage _ _ _ Hix), (bool_decide_eq_true_2 _ Ho). cbn [negb].
  rewrite orb_false_r. split.
  - destruct (Zlen packed =? _) eqn:E; [|done]. breflect. cbn [negb].
    destruct (map_res _ _) as [storage|] eqn:Es; [|done]. destruct (if n mod 2 =? 0 then _ else _) as [t|] eqn:Et; [|done].
    destruct (t =? padding_code l) eqn:Ep; [|done]. breflect. cbn [negb].
    destruct (read_logical storage l n) as [codes|] eqn:Er; [|done]. intros Hout.
    assert (Hd : digits_ok 4 storage).
    { apply map_res_Ok in Es. apply Forall_forall. intros b [k Hk]%list_elem_of_lookup.
      destruct (Forall2_lookup_r _ _ _ _ _ Es Hk) as (i & _ & Hb). by eapply nibble_digit. }
    assert (length storage = Z.to_nat n) as Hlen by (apply map_res_Ok, Forall2_length in Es; by rewrite <-Es, length_range).
    pose proof (proj1 (read_logical_spec l n indices Hix storage codes Hlen) Er) as [Hlc Hst].
    exists codes. split; [done|]. assert (Hdc : digits_ok 4 codes).
    { apply Forall_forall. intros b [k Hk]%list_elem_of_lookup.
      destruct (lookup_lt_is_Some_2 indices k) as [i Hi]; [rewrite <-Hlc; by eapply lookup_lt_Some|].
      pose proof (store_inside (padding_code l) n indices codes k i b (ix_inside _ _ _ Hix) (ix_distinct _ _ _ Hix) Hi Hk) as Hb.
      rewrite <-Hst in Hb. unfold digits_ok in Hd. rewrite Forall_forall in Hd. apply Hd. by eapply list_elem_of_lookup_2. }
    destruct (pack_nibbles_spec codes Hdc) as [Hpk _]. rewrite <-Hpk. split; [done|].
    split; [done|by rewrite <-Hst|]. intros Hodd. destruct (n mod 2 =? 0) eqn:E2; breflect; [done|]. congruence.
  - intros (codes & Hlc & Hpk & [Hs Hc Ht]). rewrite Hs, Z.eqb_refl, Hc. cbn [negb].
    assert (Htr : (if n mod 2 =? 0 then Ok (padding_code l) : res exn Z else nibble packed o n) = Ok (padding_code l)).
    { destruct (n mod 2 =? 0) eqn:E2; breflect; [done|by apply Ht]. }
    rewrite Htr, Z.eqb_refl. cbn [negb].
    assert (Hr : read_logical (store (padding_code l) n indices codes) l n = Ok codes).
    { apply (read_logical_spec l n indices Hix); [apply length_store|done]. }
    rewrite Hr. pose proof (pack_spec 4 ltac:(lia) ltac:(by exists 2) codes) as Hp. rewrite Hpk in Hp.
    destruct Hp as [Hd _]. by destruct (pack_nibbles_spec codes Hd) as [-> _].
Qed.

Lemma store_digits codes : digits_ok 4 codes → digits_ok 4 (store (padding_code l) n indices codes).
Proof.
  intros Hd. unfold store. assert (Hz : Forall (λ p : Z * Z, 0 <= p.2 < 2 ^ 4) (zip indices codes)).
  { apply Forall_forall. intros [i b] Hp. apply elem_of_zip_r in Hp. unfold digits_ok in Hd. rewrite Forall_forall in Hd. by apply Hd. }
  induction Hz as [|p ps Hp _ IH]; cbn; [apply Forall_replicate; lia|]. by apply Forall_insert.
Qed.

(** The storage with the padding code that fills the last byte. *)
Definition padded (codes : list Z) : list Z := codes ++ (if n mod 2 =? 0 then [] else [padding_code l]).
Lemma padded_even codes : Zlen codes = n → Nat.Even (length (padded codes)) ∧ Zlen (padded codes) = n + n mod 2.
Proof.
  intros Hn. pose proof (ix_nonneg _ _ _ Hix). assert (Hz : Zlen (padded codes) = n + n mod 2).
  { unfold padded, Zlen in *. rewrite length_app. destruct (n mod 2 =? 0) eqn:E; breflect; cbn; Z.to_euclidean_division_equations; lia. }
  split; [|done]. unfold Zlen in *. exists (Z.to_nat ((n + n mod 2) / 2)). Z.to_euclidean_division_equations. lia.
Qed.
(** A payload holds the codes exactly when it is the bytes of their pairs. *)
Lemma nibbles_of_bytes packed o codes : bytes_ok packed → digits_ok 4 codes → Zlen codes = n →
  nibbles_of packed o codes ↔ packed = nibble_bytes o (padded codes).
Proof.
  intros Hb Hd Hn. destruct (padded_even codes Hn) as [Heven Hlen]. pose proof (ix_nonneg _ _ _ Hix) as Hn0.
  assert (Hdp : digits_ok 4 (padded codes)).
  { apply Forall_app. split; [done|]. destruct (n mod 2 =? 0); repeat constructor; lia. }
  pose proof (nibble_bytes_length o _ Heven) as Hsize.
  assert (Hget : ∀ p, (∀ i c, codes !! i = Some c → nibble p o (Z.of_nat i) = Ok c) ↔ map_res (nibble p o) (range n) = Ok codes).
  { intros p. rewrite map_res_Ok, Forall2_same_length_lookup, length_range. split.
    - intros Hg. split; [unfold Zlen in Hn; lia|]. intros k i c Hk Hc. unfold range in Hk. rewrite list_lookup_fmap in Hk. apply fmap_Some in Hk as (k' & Hk' & ->).
      apply lookup_seq in Hk' as [-> _]. by apply Hg.
    - intros [_ Hg] i c Hi. apply (Hg i _ c); [|done]. unfold range. rewrite list_lookup_fmap, lookup_seq_lt; [done|]. apply lookup_lt_Some in Hi. unfold Zlen in Hn. lia. }
  split.
  - intros [Hs Hc Ht]. apply (nibbles_determine o); [done|by apply nibble_bytes_ok|unfold Zlen in *; Z.to_euclidean_division_equations; lia|].
    intros i Hi. assert (Hi2 : 0 <= i < Zlen (padded codes)) by (rewrite Hlen; rewrite Hs in Hi; Z.to_euclidean_division_equations; lia).
    destruct (lookup_lt_is_Some_2 (padded codes) (Z.to_nat i)) as [c Hci]; [unfold Zlen in Hi2; lia|].
    rewrite <-(Z2Nat.id i) by lia. rewrite (nibble_bytes_get o _ _ _ Hdp Heven Hci). apply lookup_app_Some in Hci as [Hci|[Hge Hci]].
    + by apply (proj2 (Hget packed) Hc).
    + destruct (n mod 2 =? 0) eqn:E; breflect; [done|]. apply list_lookup_singleton_Some in Hci as [Hz <-]. rewrite <-(Ht E). f_equal. unfold Zlen in Hn. lia.
  - intros ->. constructor.
    + unfold Zlen in *. Z.to_euclidean_division_equations. lia.
    + apply Hget. intros i c Hi. apply nibble_bytes_get; [done|done|]. by apply lookup_app_l_Some.
    + intros Hodd. rewrite <-(Z2Nat.id n) by done. apply nibble_bytes_get; [done|done|]. unfold padded. rewrite (proj2 (Z.eqb_neq _ _) Hodd).
      rewrite lookup_app_r by (unfold Zlen in Hn; lia). replace (Z.to_nat n - length codes)%nat with 0%nat by (unfold Zlen in Hn; lia). done.
Qed.
Lemma store_size codes : Zlen (store (padding_code l) n indices codes) = n.
Proof. unfold Zlen. rewrite length_store. pose proof (ix_nonneg _ _ _ Hix). lia. Qed.
End packed.

(** ** Correctness *)

(** C38: repacking is a bijection between the storages a layout accepts and the
    matrices in row-major order.  A descriptor the constructor accepts, with at least
    one row, gives every coordinate a place of its own within the storage;
    [repack_bytes] returns a matrix exactly for the storage that holds each element at
    its place and the padding code elsewhere, and [repack_packed_nibbles] returns the
    packing of a matrix of codes exactly for the payload whose bytes are the pairs of
    that storage's codes, the first of a pair being the low half of its byte in the
    low order and the high half in the high order, with the padding code last when
    the codes are odd in number. *)
Theorem layout_repack_correct l :
  layout_check l = Ok () → 1 <= rows l →
  ∃ n indices, indices_ok l n indices ∧
    (∀ payload out, repack_bytes payload l = Ok out ↔
       length out = length indices ∧ payload = store (padding_code l) n indices out) ∧
    (∀ packed o out, bytes_ok packed → o ∈ nibble_orders → repack_packed_nibbles packed l o = Ok out ↔
       ∃ codes, digits_ok 4 codes ∧ length codes = length indices ∧ pack codes 4 = Ok out ∧
                packed = nibble_bytes o (padded l n (store (padding_code l) n indices codes))) ∧
    (∀ codes o, digits_ok 4 codes → length codes = length indices → o ∈ nibble_orders →
       repack_packed_nibbles (nibble_bytes o (padded l n (store (padding_code l) n indices codes))) l o = pack codes 4 ∧
       is_ok (pack codes 4) = true).
Proof.
  intros Hc Hr. destruct (layout_indices l Hc Hr) as (n & indices & Hix & Hpad). exists n, indices. split; [done|].
  split; [intros; by apply repack_bytes_spec|].
  assert (Hnib : ∀ packed o out, bytes_ok packed → o ∈ nibble_orders → repack_packed_nibbles packed l o = Ok out ↔
       ∃ codes, digits_ok 4 codes ∧ length codes = length indices ∧ pack codes 4 = Ok out ∧
                packed = nibble_bytes o (padded l n (store (padding_code l) n indices codes))).
  { intros packed o out Hb Ho. rewrite (repack_nibbles_spec l n indices Hix packed o out Ho). split.
    - intros (codes & Hl & Hp & Hn). assert (Hd : digits_ok 4 codes).
      { pose proof (pack_spec 4 ltac:(lia) ltac:(by exists 2) codes) as Hps. rewrite Hp in Hps. apply Hps. }
      exists codes. split; [done|]. split; [done|]. split; [done|].
      by apply (nibbles_of_bytes l n indices Hix Hpad); [done|apply store_digits|eapply store_size|].
    - intros (codes & Hd & Hl & Hp & ->). exists codes. split; [done|]. split; [done|].
      apply (nibbles_of_bytes l n indices Hix Hpad); [done|by apply store_digits|by eapply store_size|done]. }
  split; [exact Hnib|]. intros codes o Hd Hl Ho. destruct (pack_nibbles_spec codes Hd) as [_ Hok]. split; [|done].
  destruct (pack codes 4) as [out|] eqn:E; [|done]. apply Hnib; [|done|by exists codes].
  apply nibble_bytes_ok. apply Forall_app. split; [by apply store_digits|]. destruct (n mod 2 =? 0); repeat constructor; lia.
Qed.

(** The registry resolves every adapter it was given, and nothing else. *)
Lemma resolve_spec adapters r exporter recipe a :
  new_registry adapters = Ok r →
  resolve r exporter recipe = Ok a ↔ a ∈ adapters ∧ adapter_key a = (exporter, recipe).
Proof.
  unfold new_registry, resolve. destruct (_ || _ || _) eqn:E; [done|]. intros [= <-]. breflect.
  set (pairs := (λ a, (adapter_key a, a)) <$> adapters).
  assert (Hnd : NoDup pairs.*1) by (unfold pairs; by rewrite <-list_fmap_compose).
  assert (Hin : ∀ k a, (k, a) ∈ pairs ↔ a ∈ adapters ∧ adapter_key a = k).
  { intros k b. unfold pairs. rewrite list_elem_of_fmap. split.
    - intros (b' & Heq & Hb). inversion Heq; subst. by split.
    - intros [Hb <-]. by exists b. }
  rewrite <-Hin, elem_of_list_to_map by done. destruct (list_to_map pairs !! _); split; congruence.
Qed.

(** ** A shape the constructor should refuse

    The check bounds the product of the two sides, which two negative sides pass:
    such a layout has storage, but no coordinates, and an all-padding payload of any
    content repacks to an empty matrix. *)
Lemma negative_shape_accepted :
  let l := mkLayout (-2) (-3) "contiguous_row_major" None None None 0 in
  layout_check l = Ok () ∧ logical_elements l = 6 ∧ repack_bytes [0; 0; 0; 0; 0; 0] l = Ok [].
Proof. vm_compute. done. Qed.

(** ** Witnesses *)

Definition demo_tiled : NumericLayoutDescriptor := mkLayout 3 5 "tile_morton" None (Some 4) (Some 4) 7.

Lemma layout_repack_correct_witness :
  ∃ n indices, indices_ok demo_tiled n indices ∧ n = 32 ∧
    repack_bytes (store 7 n indices (range 15)) demo_tiled = Ok (range 15).
Proof.
  destruct (layout_repack_correct demo_tiled eq_refl ltac:(cbn; lia)) as (n & indices & Hix & Hb & _).
  exists n, indices. split; [exact Hix|]. split; [by destruct Hix as [[= <-] _ _ _ _ _ _]|].
  apply Hb. split; [|done]. destruct Hix as [_ _ _ _ _ Hc _]. change (Zlen indices = 15) in Hc.
  change (15%nat = length indices). unfold Zlen in Hc. lia.
Defined.

End NumericLayout.
