(* ===== verification/NumericFormats.v ===== *)
(** * Numeric formats and their conversion (numeric_formats.py)

    Descriptors of packed formats, the geometry of block scales, the registry that
    plans conversions, and the reference conversion of NVFP4 codes to scaled
    eight-bit integers, in the floating-point arithmetic of the code. *)

From Stdlib Require Import SpecFloat.
From S2P Require Import Prelude Types PyFloat PyBytes BitPacking NumericLayout.

Module NumericFormats.
Import PyBytes PyFloat NumericLayout.

Definition MAX_REFERENCE_ELEMENTS : Z := 65536.
Definition E2M1_TWICE : list Z := [0; 1; 2; 3; 4; 6; 8; 12].

#[export] Instance float_eq_dec : EqDecision float.
Proof. solve_decision. Defined.

Record NumericFormatDescriptor := mkFormat {
  encoding : string;
  elements : Z;
  block_size : Z;
  packing : string;
  scale_encoding : string;
  layout : string;
  value_multiplier : float;
  fmt_schema_version : Z;
}.
#[export] Instance format_eq_dec : EqDecision NumericFormatDescriptor.
Proof. solve_decision. Defined.
Definition identifier_ok (s : string) : bool := (0 <? str_len s) && (str_len s <=? 64).
(** [NumericFormatDescriptor.__post_init__] *)
Definition format_check (d : NumericFormatDescriptor) : res exn () :=
  if negb (fmt_schema_version d =? 1) then Raise (ValueError "unsupported descriptor version")
  else if negb ((0 <? elements d) && (elements d <=? MAX_REFERENCE_ELEMENTS))
  then Raise (ValueError "reference element count must be in 1..65536")
  else if block_size d <=? 0 then Raise (ValueError "invalid block size")
  else if negb (is_finite (value_multiplier d)) || fleb (value_multiplier d) zero
  then Raise (ValueError "invalid value multiplier")
  else check (forallb identifier_ok [encoding d; packing d; scale_encoding d; layout d])
         (ValueError "invalid format identifier") ().
(** [replace(descriptor, elements=n)] *)
Definition with_elements (d : NumericFormatDescriptor) (n : Z) : NumericFormatDescriptor :=
  mkFormat (encoding d) n (block_size d) (packing d) (scale_encoding d) (layout d) (value_multiplier d)
    (fmt_schema_version d).

Record ConversionPlan := mkPlan {
  plan_source : NumericFormatDescriptor;
  plan_target : NumericFormatDescriptor;
  plan_adapter : string;
  plan_schema_version : Z;
}.
#[export] Instance plan_eq_dec : EqDecision ConversionPlan.
Proof. solve_decision. Defined.

(** ** Geometry *)

Inductive ScaleAxis := Axis (n : Z) | Axes (l : list Z).
Record TensorGeometry := mkGeometry {
  shape : list Z;
  scale_axis : ScaleAxis;
  geo_block_size : Z;
  geo_schema_version : Z;
}.
#[export] Instance axis_eq_dec : EqDecision ScaleAxis.
Proof. solve_decision. Defined.
#[export] Instance geometry_eq_dec : EqDecision TensorGeometry.
Proof. solve_decision. Defined.
Definition prod (l : list Z) : Z := foldr Z.mul 1 l.
Definition scale_axes (g : TensorGeometry) : list Z := match scale_axis g with Axis n => [n] | Axes l => l end.
Definition geo_elements (g : TensorGeometry) : Z := prod (shape g).
(** [axes == tuple(sorted(axes))] without duplicates *)
Fixpoint increasing (l : list Z) : bool :=
  match l with x :: ((y :: _) as l') => (x <? y) && increasing l' | _ => true end.
(** [TensorGeometry.__post_init__] *)
Definition geometry_check (g : TensorGeometry) : res exn () :=
  if negb (geo_schema_version g =? 1) then Raise (ValueError "unsupported geometry version")
  else if negb ((1 <=? Zlen (shape g)) && (Zlen (shape g) <=? 8) && forallb (λ n, 0 <? n) (shape g))
  then Raise (ValueError "shape must contain 1..8 positive integer dimensions")
  else if MAX_REFERENCE_ELEMENTS <? geo_elements g
  then Raise (ValueError "geometry exceeds reference element limit")
  else if is_none (head (scale_axes g)) || negb (increasing (scale_axes g))
          || existsb (λ a, negb ((0 <=? a) && (a <? Zlen (shape g)))) (scale_axes g)
  then Raise (ValueError "scale axes must be sorted unique nonnegative in-range integers")
  else check ((0 <? geo_block_size g) && (geo_block_size g <=? MAX_REFERENCE_ELEMENTS))
         (ValueError "invalid geometry block size") ().

Definition indexed {A} (l : list A) : list (Z * A) := zip (range (Zlen l)) l.
(** [scale_shape] *)
Definition scale_shape (g : TensorGeometry) : list Z :=
  (λ p : Z * Z, if bool_decide (p.1 ∈ scale_axes g) then (p.2 + geo_block_size g - 1) / geo_block_size g else p.2)
    <$> indexed (shape g).
Definition geo_scale_count (g : TensorGeometry) : Z := prod (scale_shape g).

(** The loop of [scale_index] over the axes from the last to the first. *)
Fixpoint coordinates (sizes : list Z) (flat : Z) : list Z * Z :=
  match sizes with
  | [] => ([], flat)
  | size :: sizes' => let '(cs, flat) := coordinates sizes' flat in (flat mod size :: cs, flat / size)
  end.
(** [coordinates[axis] //= block_size] for the blocked axes. *)
Definition block_coordinates (g : TensorGeometry) (cs : list Z) : list Z :=
  foldl (λ cs axis, match cs !! Z.to_nat axis with
                    | Some c => <[Z.to_nat axis := c / geo_block_size g]> cs
                    | None => cs
                    end) cs (scale_axes g).
Definition flatten (sizes cs : list Z) : Z := foldl (λ index p, index * p.1 + p.2) 0 (zip sizes cs).
(** [scale_index] *)
Definition scale_index (g : TensorGeometry) (flat_index : Z) : res exn Z :=
  if negb ((0 <=? flat_index) && (flat_index <? geo_elements g))
  then Raise (ValueError "element index out of range")
  else Ok (flatten (scale_shape g) (block_coordinates g (coordinates (shape g) flat_index).1)).

Record TensorConversionPlan := mkTensorPlan {
  format_plan : ConversionPlan;
  plan_geometry : TensorGeometry;
  tensor_plan_schema_version : Z;
}.
#[export] Instance tensor_plan_eq_dec : EqDecision TensorConversionPlan.
Proof. solve_decision. Defined.
(** [TensorConversionPlan.__post_init__] *)
Definition tensor_plan_check (p : TensorConversionPlan) : res exn TensorConversionPlan :=
  if negb (tensor_plan_schema_version p =? 1) then Raise (ValueError "unsupported tensor plan version")
  else check (forallb (λ d, (elements d =? geo_elements (plan_geometry p)) && (block_size d =? geo_block_size (plan_geometry p)))
                [plan_source (format_plan p); plan_target (format_plan p)])
         (ValueError "format and geometry mismatch") p.

(** ** The registry *)

Record ConversionAdapter := mkAdapter {
  adapter_id : string;
  adapter_source : NumericFormatDescriptor;
  adapter_target : NumericFormatDescriptor;
}.
Definition id_char (c : Ascii.ascii) : bool :=
  let n := Ascii.nat_of_ascii c in
  ((97 <=? n)%nat && (n <=? 122)%nat) || ((48 <=? n)%nat && (n <=? 57)%nat) || (n =? 95)%nat.
(** [ConversionAdapter.__post_init__] *)
Definition adapter_check (a : ConversionAdapter) : res exn () :=
  if negb ((0 <? str_len (adapter_id a)) && (str_len (adapter_id a) <=? 128)
           && forallb id_char (String.list_ascii_of_string (adapter_id a)))
  then Raise (ValueError "invalid adapter identifier")
  else check ((elements (adapter_source a) =? 1) && (elements (adapter_target a) =? 1))
         (ValueError "adapter templates must have one element") ().

Definition ConversionRegistry := list ConversionAdapter.
(** [ConversionRegistry.__post_init__] and [register] *)
Definition registry_check (r : ConversionRegistry) : res exn ConversionRegistry :=
  if 256 <? Zlen r then Raise (ValueError "registry requires at most 256 immutable adapter entries")
  else check (bool_decide (NoDup (adapter_id <$> r))) (ValueError "duplicate adapter identifier") r.
Definition register (r : ConversionRegistry) (a : ConversionAdapter) : res exn ConversionRegistry := registry_check (r ++ [a]).

(** The candidates of [plan]. *)
Definition candidate (source : NumericFormatDescriptor) (wanted : option string) (a : ConversionAdapter)
    : option ConversionPlan :=
  if bool_decide (with_elements source 1 = adapter_source a)
     && match wanted with None => true | Some id => str_eqb id (adapter_id a) end
  then Some (mkPlan source (with_elements (adapter_target a) (elements source)) (adapter_id a) 1)
  else None.
(** [ConversionRegistry.plan] *)
Definition plan (r : ConversionRegistry) (source : NumericFormatDescriptor) (target : option NumericFormatDescriptor)
    (wanted : option string) : res exn ConversionPlan :=
  let candidates := omap (candidate source wanted) r in
  let candidates := match target with None => candidates | Some t => filter (λ p, plan_target p = t) candidates end in
  match candidates with
  | [] => Raise (ValueError "unsupported numeric format route")
  | [p] => Ok p
  | _ => Raise (ValueError "ambiguous numeric format route; specify target or adapter_id")
  end.
(** [plan_tensor] *)
Definition plan_tensor (r : ConversionRegistry) (source : NumericFormatDescriptor) (g : TensorGeometry)
    (target : option NumericFormatDescriptor) (wanted : option string) : res exn TensorConversionPlan :=
  match plan r source target wanted with
  | Raise e => Raise e
  | Ok p => tensor_plan_check (mkTensorPlan p g 1)
  end.

Definition default_format (encoding packing : string) (multiplier : float) : NumericFormatDescriptor :=
  mkFormat encoding 1 16 packing "e4m3fn" "contiguous_1d" multiplier 1.
Definition SCALED_INT8_TEMPLATE : NumericFormatDescriptor :=
  default_format "scaled_int8" "signed_byte" (literal 4503599627370496 (-53)).
Definition one : float := literal 4503599627370496 (-52).
Definition DEFAULT_CONVERSION_REGISTRY : ConversionRegistry :=
  [mkAdapter "nvfp4_int8_cpu_reference_v1" (default_format "nvfp4_e2m1" "low_nibble_first" one) SCALED_INT8_TEMPLATE;
   mkAdapter "nvfp4_high_nibble_int8_cpu_reference_v1" (default_format "nvfp4_e2m1" "high_nibble_first" one)
     SCALED_INT8_TEMPLATE].
Definition conversion_plan (source : NumericFormatDescriptor) : res exn ConversionPlan :=
  plan DEFAULT_CONVERSION_REGISTRY source None None.

(** ** NVFP4 *)

(** [_scale] *)
Definition scale (code : Z) : res exn float :=
  if 127 <=? code then Raise (ValueError "block scale must be nonnegative finite E4M3FN")
  else
    let exponent := Z.shiftr code 3 in
    let mantissa := Z.land code 7 in
    Ok (if exponent =? 0 then ldexp (of_Z mantissa) (-9)
        else ldexp (fadd (of_Z 1) (int_div mantissa 8)) (exponent - 7)).

(** The plan of a format, with its geometry or without. *)
Definition AnyPlan : Type := ConversionPlan + TensorConversionPlan.
Definition plan_for (d : NumericFormatDescriptor) (geometry : option TensorGeometry) : res exn AnyPlan :=
  match geometry with
  | None => match conversion_plan d with Ok p => Ok (inl p) | Raise e => Raise e end
  | Some g => match plan_tensor DEFAULT_CONVERSION_REGISTRY d g None None with Ok p => Ok (inr p) | Raise e => Raise e end
  end.
Definition scale_overflow (global_scale : float) (code : Z) : res exn () :=
  match scale code with
  | Raise e => Raise e
  | Ok s => check (is_finite (fmul (fmul s global_scale) (of_Z 6))) (ValueError "reference scale overflow") ()
  end.
Definition last_nibble (packing : string) (packed : bytes) : Z :=
  let b := default 0 (last packed) in
  if str_eqb packing "low_nibble_first" then Z.shiftr b 4 else Z.land b 15.
(** [_validate_inputs] *)
Definition validate_inputs (d : NumericFormatDescriptor) (packed scales : bytes) (global_scale : float)
    (geometry : option TensorGeometry) : res exn AnyPlan :=
  match plan_for d geometry with
  | Raise e => Raise e
  | Ok p =>
      if negb (Zlen packed =? (elements d + 1) / 2) then Raise (ValueError "packed payload size mismatch")
      else
        let scale_count := match geometry with None => (elements d + 15) / 16 | Some g => geo_scale_count g end in
        if negb (Zlen scales =? scale_count) then Raise (ValueError "block scale count mismatch")
        else if negb (is_finite global_scale) || fltb global_scale zero
        then Raise (ValueError "invalid global scale")
        else match map_res (scale_overflow global_scale) scales with
             | Raise e => Raise e
             | Ok _ =>
                 if negb (elements d mod 2 =? 0) && negb (last_nibble (packing d) packed =? 0)
                 then Raise (ValueError "unused padding nibble must be zero")
                 else Ok p
             end
  end.

(** [_codes] *)
Definition codes (packed : bytes) (n : Z) (packing : string) : res exn (list Z) :=
  if negb (bool_decide (packing ∈ nibble_orders)) then Raise (ValueError "unsupported packed nibble order")
  else map_res (nibble packed packing) (range n).

(** The scale of an element. *)
Definition element_scale (scales : bytes) (geometry : option TensorGeometry) (index : Z) : res exn float :=
  match match geometry with None => Ok (index / 16) | Some g => scale_index g index end with
  | Raise e => Raise e
  | Ok i => match scales !! Z.to_nat i with
            | Some code => scale code
            | None => Raise (IndexError "index out of range")
            end
  end.

Definition copysign (f : float) (negative : bool) : float := if negative then fneg (fabs f) else fabs f.
Definition twice (code : Z) : Z := default 0 (E2M1_TWICE !! Z.to_nat (Z.land code 7)).
Definition is_negative (code : Z) : bool := negb (Z.land code 8 =? 0).
Definition decode_code (scales : bytes) (global_scale : float) (geometry : option TensorGeometry) (p : Z * Z)
    : res exn float :=
  match element_scale scales geometry p.1 with
  | Raise e => Raise e
  | Ok s => Ok (fmul (fmul (copysign (int_div (twice p.2) 2) (is_negative p.2)) s) global_scale)
  end.
(** [decode_nvfp4] *)
Definition decode_nvfp4 (d : NumericFormatDescriptor) (packed scales : bytes) (global_scale : float)
    (geometry : option TensorGeometry) : res exn (list float) :=
  match validate_inputs d packed scales global_scale geometry with
  | Raise e => Raise e
  | Ok _ =>
      match codes packed (elements d) (packing d) with
      | Raise e => Raise e
      | Ok cs => map_res (decode_code scales global_scale geometry) (indexed cs)
      end
  end.

Record ScaledInt8Tensor := mkScaled {
  tensor_plan : AnyPlan;
  payload : bytes;
  block_scales : bytes;
  global_scale : float;
  source_digest : string;
  target_digest : string;
}.
Definition plan_format (p : AnyPlan) : ConversionPlan := match p with inl p => p | inr p => format_plan p end.
Definition geometry_of (p : AnyPlan) : option TensorGeometry :=
  match p with inl _ => None | inr p => Some (plan_geometry p) end.
Definition allowed : list Z := E2M1_TWICE ≫= λ m, [Z.land m 255; Z.land (- m) 255].

Definition is_hex64 (s : string) : bool :=
  (str_len s =? 64)
  && forallb (λ c, let n := Ascii.nat_of_ascii c in
       ((48 <=? n)%nat && (n <=? 57)%nat) || ((97 <=? n)%nat && (n <=? 102)%nat)) (String.list_ascii_of_string s).

Section digests.
(** SHA-256 of bytes and of text in hexadecimal, the digest of a plan's fields, and
    [float.hex]. *)
Context (sha_bytes : bytes → string) (sha_text : string → string).
Context (plan_id : AnyPlan → string) (float_hex : float → string).

Definition spaced (name value : string) : string := (quoted name +:+ ": " +:+ value)%string.
(** [numeric_content_digest_from_hashes] *)
Definition numeric_content_digest_from_hashes (p : AnyPlan) (payload_sha256 scales_sha256 : string) (g : float)
    (role : string) : res exn string :=
  if negb (is_hex64 payload_sha256 && is_hex64 scales_sha256) then Raise (ValueError "invalid numeric content SHA-256")
  else if negb (bool_decide (role ∈ ["source"; "target"])) then Raise (ValueError "invalid numeric content digest role")
  else if negb (is_finite g) then Raise (ValueError "invalid numeric content global scale")
  else Ok (sha_text ("{" +:+ str_join ", "
         [spaced "global_scale" (quoted (float_hex g)); spaced "payload_sha256" (quoted payload_sha256);
          spaced "plan_id" (quoted (plan_id p)); spaced "role" (quoted role);
          spaced "scales_sha256" (quoted scales_sha256); spaced "version" "1"] +:+ "}")%string).
(** [_content_digest] *)
Definition content_digest (p : AnyPlan) (payload scales : bytes) (g : float) (role : string) : res exn string :=
  numeric_content_digest_from_hashes p (sha_bytes payload) (sha_bytes scales) g role.

(** [ScaledInt8Tensor.__post_init__] *)
Definition scaled_check (t : ScaledInt8Tensor) : res exn ScaledInt8Tensor :=
  let fp := plan_format (tensor_plan t) in
  match plan DEFAULT_CONVERSION_REGISTRY (plan_source fp) None (Some (plan_adapter fp)) with
  | Raise e => Raise e
  | Ok p =>
      if negb (bool_decide (fp = p)) then Raise (ValueError "unsupported conversion plan")
      else if negb (Zlen (payload t) =? elements (plan_target fp)) then Raise (ValueError "INT8 payload size mismatch")
      else if existsb (λ b, negb (bool_decide (b ∈ allowed))) (payload t) then Raise (ValueError "invalid reference INT8 value")
      else match validate_inputs (plan_source fp) (replicate (Z.to_nat ((elements (plan_source fp) + 1) / 2)) 0)
                   (block_scales t) (global_scale t) (geometry_of (tensor_plan t)) with
           | Raise e => Raise e
           | Ok _ =>
               if negb (is_hex64 (source_digest t)) then Raise (ValueError "invalid source digest")
               else match content_digest (tensor_plan t) (payload t) (block_scales t) (global_scale t) "target" with
                    | Raise e => Raise e
                    | Ok x => check (str_eqb (target_digest t) x) (ValueError "target content digest mismatch") t
                    end
           end
  end.

(** [reference_values] *)
Definition reference_value (t : ScaledInt8Tensor) (p : Z * Z) : res exn float :=
  match element_scale (block_scales t) (geometry_of (tensor_plan t)) p.1 with
  | Raise e => Raise e
  | Ok s => Ok (fmul (fmul (int_div (if p.2 <? 128 then p.2 else p.2 - 256) 2) s) (global_scale t))
  end.
Definition reference_values (t : ScaledInt8Tensor) : res exn (list float) :=
  map_res (reference_value t) (indexed (payload t)).

Definition int8_of (code : Z) : Z := Z.land ((if is_negative code then -1 else 1) * twice code) 255.
(** [convert_nvfp4_to_int8] *)
Definition convert_nvfp4_to_int8 (d : NumericFormatDescriptor) (packed scales : bytes) (g : float)
    (geometry : option TensorGeometry) : res exn ScaledInt8Tensor :=
  match validate_inputs d packed scales g geometry with
  | Raise e => Raise e
  | Ok p =>
      match codes packed (elements d) (packing d) with
      | Raise e => Raise e
      | Ok cs =>
          let payload := int8_of <$> cs in
          match content_digest p packed scales g "source", content_digest p payload scales g "target" with
          | Ok source, Ok target => scaled_check (mkScaled p payload scales g source target)
          | Raise e, _ | _, Raise e => Raise e
          end
      end
  end.

(** [verify_source] *)
Definition same_tensor (t u : ScaledInt8Tensor) : bool :=
  bool_decide (tensor_plan t = tensor_plan u)
  && bool_decide (payload t = payload u) && bool_decide (block_scales t = block_scales u)
  && feqb (global_scale t) (global_scale u)
  && str_eqb (source_digest t) (source_digest u) && str_eqb (target_digest t) (target_digest u).
Definition verify_source (t : ScaledInt8Tensor) (d : NumericFormatDescriptor) (packed scales : bytes) (g : float)
    (geometry : option TensorGeometry) : res exn () :=
  match convert_nvfp4_to_int8 d packed scales g geometry with
  | Raise e => Raise e
  | Ok expected => check (same_tensor t expected) (ValueError "conversion source or output mismatch") ()
  end.
End digests.

(** ** Places of scales

    Mixed-radix numbers: [value sizes cs] has the coordinates [cs] as its digits. *)

Fixpoint value (sizes cs : list Z) : Z :=
  match sizes, cs with
  | size :: sizes', c :: cs' => c * prod sizes' + value sizes' cs'
  | _, _ => 0
  end.
Definition within (sizes cs : list Z) : Prop := Forall2 (λ size c, 0 <= c < size) sizes cs.

Lemma prod_pos sizes : Forall (λ n, 0 < n) sizes → 0 < prod sizes.
Proof. unfold prod. induction 1; cbn; [lia|]. by apply Z.mul_pos_pos. Qed.
Lemma within_pos sizes cs : within sizes cs → Forall (λ n, 0 < n) sizes.
Proof. induction 1; constructor; [lia|done]. Qed.
Lemma value_range sizes cs : within sizes cs → 0 <= value sizes cs < prod sizes.
Proof. induction 1 as [|size c sizes cs Hc _ IH]; [cbn; lia|]. exact (flat_range size (prod sizes) c (value sizes cs) Hc IH). Qed.
Lemma value_inj sizes cs ds : within sizes cs → within sizes ds → value sizes cs = value sizes ds → cs = ds.
Proof.
  intros Hc. revert ds. induction Hc as [|size c sizes cs Hc Hcs IH]; intros ds Hd; inversion Hd as [|? d ? ds' Hd1 Hd2]; subst; [done|].
  cbn. intros [-> Hv]%flat_inj; [by f_equal; apply IH|by apply value_range..].
Qed.

Lemma flatten_value sizes cs : length sizes = length cs → flatten sizes cs = value sizes cs.
Proof.
  unfold flatten. intros Hl. enough (H : ∀ a, foldl (λ index p, index * p.1 + p.2) a (zip sizes cs) = a * prod sizes + value sizes cs).
  { by rewrite H. }
  revert cs Hl. induction sizes as [|size sizes IH]; intros [|c cs] Hl a; try done; cbn; [lia|].
  unfold zip in IH. rewrite IH by (cbn in Hl; lia). fold (prod sizes). lia.
Qed.
Lemma coordinates_spec sizes flat :
  Forall (λ n, 0 < n) sizes →
  let '(cs, q) := coordinates sizes flat in within sizes cs ∧ flat = q * prod sizes + value sizes cs.
Proof.
  intros Hs. revert flat. induction Hs as [|size sizes Hsize Hs IH]; intros flat; cbn; [split; [constructor|lia]|].
  specialize (IH flat). destruct (coordinates sizes flat) as [cs q]. destruct IH as [Hw ->]. cbn.
  split; [constructor; [apply Z.mod_pos_bound; lia|done]|]. fold (prod sizes).
  pose proof (Z.div_mod q size ltac:(lia)) as Hq. rewrite Hq at 1. ring.
Qed.
Lemma coordinates_of sizes flat :
  Forall (λ n, 0 < n) sizes → 0 <= flat < prod sizes →
  within sizes (coordinates sizes flat).1 ∧ value sizes (coordinates sizes flat).1 = flat.
Proof.
  intros Hs Hf. pose proof (coordinates_spec sizes flat Hs) as Hc. destruct (coordinates sizes flat) as [cs q]. cbn.
  destruct Hc as [Hw Hq]. split; [done|]. pose proof (value_range _ _ Hw) as Hv.
  cbn in Hv. set (P := prod sizes) in *. set (v := value sizes cs) in *.
  assert (q = 0) as ->; [|lia]. destruct (Z.lt_trichotomy q 0) as [H|[H|H]]; [nia|done|nia].
Qed.

Lemma indexed_elem {A} (l : list A) i x : indexed l !! i = Some x ↔ ∃ y, l !! i = Some y ∧ x = (Z.of_nat i, y).
Proof.
  unfold indexed. rewrite lookup_zip_with. unfold range. rewrite list_lookup_fmap. destruct (decide (i < length l)%nat) as [Hi|Hi].
  - rewrite lookup_seq_lt by (unfold Zlen; lia). destruct (lookup_lt_is_Some_2 l i Hi) as [y ->]. cbn. split.
    + intros [= <-]. by exists y.
    + by intros (? & [= <-] & ->).
  - rewrite (lookup_ge_None_2 l i) by lia. split; [|by intros (? & ? & _)].
    destruct (_ <$> _); cbn; done.
Qed.
Lemma length_with_index {A} (l : list A) : length (indexed l) = length l.
Proof. unfold indexed. rewrite length_zip_with, length_range. unfold Zlen. lia. Qed.

Lemma increasing_NoDup l : increasing l = true → NoDup l ∧ ∀ x, head l = Some x → Forall (λ y, x <= y) l.
Proof.
  induction l as [|x l IH]; intros Hl; [split; [constructor|done]|]. destruct l as [|y l].
  { split; [apply NoDup_singleton|]. intros ? [= ->]. by repeat constructor. }
  cbn in Hl. breflect. destruct IH as [Hnd Hle]; [done|]. specialize (Hle y eq_refl). split.
  - constructor; [|done]. intros Hin. rewrite Forall_forall in Hle. apply Hle in Hin. lia.
  - intros ? [= ->]. constructor; [lia|]. eapply Forall_impl; [exact Hle|]. cbn. lia.
Qed.

Section geometry.
Context (g : TensorGeometry).
Hypothesis Hg : geometry_check g = Ok ().

Lemma geometry_facts :
  Forall (λ n, 0 < n) (shape g) ∧ NoDup (scale_axes g) ∧ Forall (λ a, 0 <= a < Zlen (shape g)) (scale_axes g) ∧
  0 < geo_block_size g ∧ geo_elements g <= MAX_REFERENCE_ELEMENTS.
Proof.
  unfold geometry_check, check in Hg. destruct (negb (_ =? 1)); [done|]. destruct (negb (_ && _ && _)) eqn:Eshape; [done|].
  destruct (_ <? geo_elements g) eqn:Esize; [done|]. destruct (_ || _ || _) eqn:Eaxes; [done|].
  destruct ((0 <? geo_block_size g) && _) eqn:Eblock; [|done]. apply negb_false_iff, andb_prop in Eshape as [_ Hpos].
  apply orb_false_elim in Eaxes as [Einc Erange]. breflect. split_and!; try lia.
  - apply Forall_forall. intros n Hn. rewrite forallb_forall in Hpos. apply Z.ltb_lt, Hpos. by apply list_elem_of_In.
  - by apply increasing_NoDup.
  - apply Forall_forall. intros a Ha. destruct (negb ((0 <=? a) && (a <? Zlen (shape g)))) eqn:Ea; breflect; [|done].
    exfalso. apply not_true_iff_false in Erange. apply Erange, existsb_exists. exists a. split; [by apply list_elem_of_In|].
    by rewrite Ea.
Qed.

(** A blocked axis has its coordinate divided by the block size. *)
Lemma block_coordinates_lookup cs a :
  block_coordinates g cs !! a =
    (λ c, if bool_decide (Z.of_nat a ∈ scale_axes g) then c / geo_block_size g else c) <$> cs !! a.
Proof.
  destruct geometry_facts as (_ & Hnd & Hr & _). unfold block_coordinates. clear Hg.
  revert cs. induction Hnd as [|x axes Hx Hnd IH]; intros cs; cbn [foldl].
  { rewrite bool_decide_eq_false_2 by set_solver. by destruct (cs !! a). }
  apply Forall_cons in Hr as [Hx0 Hr]. rewrite IH by done. clear IH.
  destruct (decide (Z.of_nat a = x)) as [Heq|Hne].
  - subst x. rewrite Nat2Z.id. rewrite (bool_decide_eq_false_2 (Z.of_nat a ∈ axes)) by done.
    rewrite bool_decide_eq_true_2 by left. destruct (cs !! a) as [c|] eqn:Ec; [|by rewrite Ec].
    rewrite list_lookup_insert_eq by (by eapply lookup_lt_Some). done.
  - rewrite (bool_decide_ext (Z.of_nat a ∈ x :: axes) (Z.of_nat a ∈ axes)) by set_solver.
    destruct (cs !! Z.to_nat x) as [c|]; [|done]. rewrite list_lookup_insert_ne by lia. done.
Qed.

Lemma scale_shape_lookup a :
  scale_shape g !! a = (λ n, if bool_decide (Z.of_nat a ∈ scale_axes g) then (n + geo_block_size g - 1) / geo_block_size g else n)
                         <$> shape g !! a.
Proof.
  unfold scale_shape. rewrite list_lookup_fmap. destruct (shape g !! a) as [n|] eqn:E.
  - rewrite (proj2 (indexed_elem (shape g) a (Z.of_nat a, n))); [done|]. by exists n.
  - destruct (indexed (shape g) !! a) as [p|] eqn:Ei; [|done]. apply indexed_elem in Ei as (y & Hy & _). congruence.
Qed.
Lemma block_coordinates_within cs : within (shape g) cs → within (scale_shape g) (block_coordinates g cs).
Proof.
  intros Hw. destruct geometry_facts as (_ & _ & _ & Hb & _). apply Forall2_same_length_lookup. split.
  - apply Forall2_length in Hw. unfold scale_shape. rewrite length_fmap, length_with_index, Hw. symmetry.
    unfold block_coordinates. generalize (scale_axes g) as axes. intros axes. clear Hw. revert cs.
    induction axes as [|a axes IH]; intros cs; cbn; [done|]. rewrite IH.
    destruct (cs !! Z.to_nat a); [apply length_insert|done].
  - intros a size c Hsize Hc. rewrite scale_shape_lookup in Hsize. rewrite block_coordinates_lookup in Hc.
    apply fmap_Some in Hsize as (n & Hn & ->). apply fmap_Some in Hc as (x & Hx & ->).
    pose proof (Forall2_lookup_lr _ _ _ _ _ _ Hw Hn Hx) as Hxn. cbn in Hxn.
    destruct (bool_decide _); [by apply tile_of; [|lia]|done].
Qed.

(** The place of an element among the scales, from its coordinates. *)
Definition same_block (cs ds : list Z) : Prop :=
  ∀ a c d, cs !! a = Some c → ds !! a = Some d →
    if bool_decide (Z.of_nat a ∈ scale_axes g) then c / geo_block_size g = d / geo_block_size g else c = d.

Lemma scale_index_value i :
  0 <= i < geo_elements g →
  let cs := (coordinates (shape g) i).1 in
  within (shape g) cs ∧ value (shape g) cs = i ∧
  scale_index g i = Ok (value (scale_shape g) (block_coordinates g cs)) ∧ within (scale_shape g) (block_coordinates g cs).
Proof.
  intros Hi cs. destruct geometry_facts as (Hs & _). destruct (coordinates_of (shape g) i Hs Hi) as [Hw Hv].
  fold cs in Hw, Hv. pose proof (block_coordinates_within cs Hw) as Hbw. split_and!; try done.
  unfold scale_index. rewrite (proj2 (Z.leb_le 0 i)), (proj2 (Z.ltb_lt i _)) by lia. cbn [negb andb]. f_equal.
  apply flatten_value. by eapply Forall2_length.
Qed.

Lemma same_block_iff cs ds :
  within (shape g) cs → within (shape g) ds → block_coordinates g cs = block_coordinates g ds ↔ same_block cs ds.
Proof.
  intros Hc Hd. split.
  - intros Heq a c d Ha Hda. pose proof (block_coordinates_lookup cs a) as H1. pose proof (block_coordinates_lookup ds a) as H2.
    rewrite Heq, H2, Ha, Hda in H1. cbn in H1. by destruct (bool_decide _); injection H1.
  - intros Hs. apply list_eq. intros a. rewrite !block_coordinates_lookup.
    destruct (cs !! a) as [c|] eqn:E1, (ds !! a) as [d|] eqn:E2; cbn; [|..|done].
    + specialize (Hs a c d E1 E2). destruct (bool_decide _); congruence.
    + apply lookup_lt_Some in E1. apply lookup_ge_None in E2. apply Forall2_length in Hc, Hd. lia.
    + apply lookup_lt_Some in E2. apply lookup_ge_None in E1. apply Forall2_length in Hc, Hd. lia.
Qed.
End geometry.

(** Every element has exactly one block scale.  For a geometry the constructor
    accepts, [scale_index] returns a place below the number of scales for every
    element index, the coordinates it computes are those of the element in row-major
    order, and two elements share a scale if and only if their coordinates fall in
    the same block on every blocked axis and agree on the others. *)
Theorem scale_index_blocks g i j :
  geometry_check g = Ok () → 0 <= i < geo_elements g → 0 <= j < geo_elements g →
  let ci := (coordinates (shape g) i).1 in let cj := (coordinates (shape g) j).1 in
  within (shape g) ci ∧ flatten (shape g) ci = i ∧
  ∃ k, scale_index g i = Ok k ∧ 0 <= k < geo_scale_count g ∧ (scale_index g j = Ok k ↔ same_block g ci cj).
Proof.
  intros Hg Hi Hj ci cj. destruct (scale_index_value g Hg i Hi) as (Hwi & Hvi & Hsi & Hbi).
  destruct (scale_index_value g Hg j Hj) as (Hwj & _ & Hsj & Hbj). fold ci in Hwi, Hvi, Hsi, Hbi. fold cj in Hwj, Hsj, Hbj.
  split; [done|]. split; [by rewrite flatten_value by by eapply Forall2_length|].
  eexists. split; [exact Hsi|]. split; [by apply value_range|]. rewrite Hsj, <-same_block_iff by done. split.
  - intros [= Heq]. symmetry. by eapply value_inj.
  - by intros ->.
Qed.

(** ** Planning *)

(** A plan exists exactly when one adapter, and only one, offers a route. *)
Lemma plan_spec r source target wanted p :
  plan r source target wanted = Ok p ↔
    filter (λ p, target = None ∨ target = Some (plan_target p)) (omap (candidate source wanted) r) = [p].
Proof.
  unfold plan. destruct target as [t|].
  - rewrite (list_filter_iff (λ p, Some t = None ∨ Some t = Some (plan_target p)) (λ p, plan_target p = t)) by (intros; naive_solver).
    destruct (filter _ _) as [|q [|]]; split; try done; by intros [= ->].
  - rewrite (list_filter_iff (λ p, None = None ∨ None = Some (plan_target p)) (λ _, True)) by (intros; naive_solver).
    assert (Hall : ∀ l : list ConversionPlan, filter (λ _, True) l = l).
    { induction l as [|x l IH]; [done|]. rewrite filter_cons_True by done. by rewrite IH. }
    rewrite Hall. destruct (omap _ _) as [|q [|]]; split; try done; by intros [= ->].
Qed.

Lemma default_plan source p :
  conversion_plan source = Ok p →
  plan_source p = source ∧ elements (plan_target p) = elements source ∧ packing source ∈ nibble_orders ∧
  plan DEFAULT_CONVERSION_REGISTRY source None (Some (plan_adapter p)) = Ok p.
Proof.
  unfold conversion_plan, plan, DEFAULT_CONVERSION_REGISTRY. cbn [omap list_omap]. unfold candidate. cbn [adapter_source adapter_target adapter_id].
  destruct (bool_decide (with_elements source 1 = default_format "nvfp4_e2m1" "low_nibble_first" one)) eqn:E1,
           (bool_decide (with_elements source 1 = default_format "nvfp4_e2m1" "high_nibble_first" one)) eqn:E2;
    cbn; try done; intros [= <-]; cbn; split_and!; try done; breflect.
  - apply (f_equal packing) in E1. cbn in E1. rewrite E1. by left.
  - apply (f_equal packing) in E2. cbn in E2. rewrite E2. right. by left.
Qed.

Lemma plan_for_spec d geometry p :
  plan_for d geometry = Ok p →
  conversion_plan d = Ok (plan_format p) ∧ geometry_of p = geometry ∧
  match geometry with None => True | Some g => geo_elements g = elements d end.
Proof.
  unfold plan_for. destruct geometry as [g|].
  - unfold plan_tensor. fold (conversion_plan d). destruct (conversion_plan d) as [q|] eqn:E; [|done].
    unfold tensor_plan_check, check. cbn [negb Z.eqb]. destruct (forallb _ _) eqn:Ef; [|done]. intros [= <-]. cbn in *.
    breflect. apply default_plan in E as (<- & _). split_and!; first [done|lia].
  - destruct (conversion_plan d); [|done]. by intros [= <-].
Qed.

(** ** The conversion of NVFP4 *)

Lemma fmul_finite_inv a b : is_finite (fmul a b) = true → is_finite a = true ∧ is_finite b = true.
Proof. by destruct a, b. Qed.
Lemma fmul_zero_finite s f : is_finite f = true → ∃ s', fmul (S754_zero s) f = S754_zero s'.
Proof. destruct f; try done; intros _; by eexists. Qed.

Lemma feqb_refl f : is_finite f = true → feqb f f = true.
Proof.
  destruct f as [| | |s m e]; try done. intros _. unfold feqb, SFeqb, SFcompare. rewrite Z.compare_refl.
  destruct s; rewrite ?Pos.compare_cont_refl; done.
Qed.

(** Equal numbers: identical, or zeros whose signs may differ. *)
Definition same_number (x y : float) : Prop := x = y ∨ ∃ s s', x = S754_zero s ∧ y = S754_zero s'.

Record validated (d : NumericFormatDescriptor) (packed scales : bytes) (g : float) (geometry : option TensorGeometry)
    (p : AnyPlan) : Prop := {
  va_plan : plan_for d geometry = Ok p;
  va_packed : Zlen packed = (elements d + 1) / 2;
  va_scales : Zlen scales = match geometry with None => (elements d + 15) / 16 | Some g => geo_scale_count g end;
  va_global : is_finite g = true ∧ fltb g zero = false;
  va_codes : Forall (λ c, ∃ s, scale c = Ok s ∧ is_finite (fmul (fmul s g) (of_Z 6)) = true) scales;
  va_padding : elements d mod 2 ≠ 0 → last_nibble (packing d) packed = 0;
}.
Lemma scale_overflow_all g scales us :
  map_res (scale_overflow g) scales = Ok us ↔
    us = replicate (length scales) () ∧ Forall (λ c, ∃ s, scale c = Ok s ∧ is_finite (fmul (fmul s g) (of_Z 6)) = true) scales.
Proof.
  assert (H1 : ∀ c u, scale_overflow g c = Ok u ↔ ∃ s, scale c = Ok s ∧ is_finite (fmul (fmul s g) (of_Z 6)) = true).
  { intros c []. unfold scale_overflow, check. destruct (scale c) as [s|]; [|split; [done|by intros (? & ? & _)]].
    destruct (is_finite _) eqn:E; split; try done; [intros _; by exists s|by intros (? & [= <-] & ?); congruence]. }
  rewrite map_res_Ok. split.
  - intros Hf. split; [|by eapply Forall2_Forall_l; [exact Hf|]; apply Forall_forall; intros u _ c Hc; apply (H1 c u)].
    apply Forall2_length in Hf. rewrite Hf. clear. induction us as [|[] us IH]; cbn; [done|]. by f_equal.
  - intros [-> Hf]. induction Hf as [|c l Hc _ IH]; cbn; constructor; [by apply H1|done].
Qed.
Lemma validate_spec d packed scales g geometry p :
  validate_inputs d packed scales g geometry = Ok p ↔ validated d packed scales g geometry p.
Proof.
  unfold validate_inputs. split.
  - destruct (plan_for d geometry) as [q|] eqn:Ep; [|done]. destruct (Zlen packed =? _) eqn:E1; [|done].
    destruct (Zlen scales =? _) eqn:E2; [|done]. destruct (_ || fltb g zero) eqn:E3; [done|].
    destruct (map_res _ _) as [u|] eqn:E4; [|done]. destruct (_ && negb (last_nibble _ _ =? 0)) eqn:E5; [done|].
    intros [= ->]. apply orb_false_elim in E3 as [E3 E3']. apply scale_overflow_all in E4 as [_ E4]. cbn [negb] in *. breflect.
    split; try done. intros Hodd. rewrite (proj2 (Z.eqb_neq _ _) Hodd) in E5. cbn in E5. by breflect.
  - intros [Hp H1 H2 [H3 H4] H5 H6]. rewrite Hp, H1, H2, !Z.eqb_refl, H3, H4. cbn [negb orb].
    rewrite (proj2 (scale_overflow_all g scales _)) by done.
    destruct (elements d mod 2 =? 0) eqn:E; [done|]. breflect. by rewrite H6.
Qed.
Lemma validate_raises d packed scales g geometry e :
  validate_inputs d packed scales g geometry = Raise e → ∃ m, e = ValueError m.
Proof.
  unfold validate_inputs. destruct (plan_for d geometry) as [q|e'] eqn:Ep.
  - destruct (negb _); [intros [= <-]; by eexists|]. destruct (negb _); [intros [= <-]; by eexists|].
    destruct (_ || _); [intros [= <-]; by eexists|]. destruct (map_res _ _) as [u|e''] eqn:E4.
    + destruct (_ && _); [intros [= <-]; by eexists|done].
    + intros [= <-]. apply map_res_Raise in E4 as (c & _ & Hc). unfold scale_overflow, scale, check in Hc.
      destruct (127 <=? c); [injection Hc as <-; by eexists|]. destruct (is_finite _); [done|]. injection Hc as <-. by eexists.
  - intros [= <-]. unfold plan_for, conversion_plan, plan_tensor, plan, tensor_plan_check, check in Ep.
    destruct geometry; repeat case_match; simplify_eq; by eexists.
Qed.

Section inputs.
Context (d : NumericFormatDescriptor) (packed scales : bytes) (g : float) (geometry : option TensorGeometry) (p : AnyPlan).
Hypothesis Hd : format_check d = Ok ().
Hypothesis Hgeo : ∀ geo, geometry = Some geo → geometry_check geo = Ok ().
Hypothesis Hv : validated d packed scales g geometry p.

Lemma elements_positive : 0 < elements d.
Proof. unfold format_check in Hd. destruct (negb _) in Hd; [done|]. destruct (negb _) eqn:E in Hd; [done|]. breflect. lia. Qed.

Lemma codes_total :
  ∃ cs, codes packed (elements d) (packing d) = Ok cs ∧ Zlen cs = elements d ∧ Forall (λ c, 0 <= c < 16) cs.
Proof.
  destruct Hv as [Hp Hlen _ _ _ _]. apply plan_for_spec in Hp as (Hp & _ & _). apply default_plan in Hp as (_ & _ & Hpk & _).
  unfold codes. rewrite (bool_decide_eq_true_2 _ Hpk). cbn [negb]. pose proof elements_positive as Hpos.
  assert (Htot : is_ok (map_res (nibble packed (packing d)) (range (elements d))) = true).
  { apply map_res_total. intros i Hi%elem_of_range. unfold nibble.
    destruct (lookup_lt_is_Some_2 packed (Z.to_nat (i / 2))) as [b ->]; [|done].
    unfold Zlen in Hlen. Z.to_euclidean_division_equations; lia. }
  destruct (map_res _ _) as [cs|] eqn:E; [|done]. exists cs. split; [done|]. apply map_res_Ok in E. split.
  - apply Forall2_length in E. rewrite length_range in E. unfold Zlen. lia.
  - eapply Forall2_Forall_r; [exact E|]. apply Forall_forall. intros i _ c Hc. by eapply nibble_digit.
Qed.

Lemma element_scale_total i :
  0 <= i < elements d → ∃ s, element_scale scales geometry i = Ok s ∧ is_finite s = true.
Proof.
  intros Hi. destruct Hv as [Hp _ Hs _ Hc _]. apply plan_for_spec in Hp as (_ & _ & Hel).
  assert (Hplace : ∃ k, match geometry with None => Ok (i / 16) | Some g => scale_index g i end = Ok k ∧ 0 <= k < Zlen scales).
  { rewrite Hs. destruct geometry as [geo|].
    - rewrite <-Hel in Hi. destruct (scale_index_value geo (Hgeo geo eq_refl) i Hi) as (_ & _ & -> & Hw).
      eexists. split; [done|]. by apply value_range.
    - eexists. split; [done|]. Z.to_euclidean_division_equations; lia. }
  destruct Hplace as (k & Hk & Hkr). unfold element_scale. rewrite Hk.
  destruct (lookup_lt_is_Some_2 scales (Z.to_nat k)) as [c Hck]; [unfold Zlen in Hkr; lia|]. rewrite Hck.
  rewrite Forall_forall in Hc. destruct (Hc c) as (s & -> & Hfin); [by eapply list_elem_of_lookup_2|].
  exists s. split; [done|]. apply fmul_finite_inv in Hfin as [Hfin _]. by apply fmul_finite_inv in Hfin as [? _].
Qed.
End inputs.

(** The sixteen codes: the eight-bit integer is the code's value doubled. *)
Definition decoded (code : Z) : float := copysign (int_div (twice code) 2) (is_negative code).
Definition restored (code : Z) : float := let v := int8_of code in int_div (if v <? 128 then v else v - 256) 2.
Definition code_ok (code : Z) : bool :=
  bool_decide (int8_of code ∈ allowed)
  && match decoded code, restored code with
     | S754_zero _, S754_zero _ => true
     | x, y => bool_decide (x = y)
     end.
Lemma codes_table : forallb code_ok (range 16) = true.
Proof. vm_compute. reflexivity. Qed.
Lemma code_ok_all c : 0 <= c < 16 → code_ok c = true.
Proof. intros Hc. pose proof codes_table as Ht. rewrite forallb_forall in Ht. apply Ht, list_elem_of_In. by apply elem_of_range. Qed.

Lemma values_agree c s g :
  0 <= c < 16 → is_finite s = true → is_finite g = true →
  same_number (fmul (fmul (decoded c) s) g) (fmul (fmul (restored c) s) g).
Proof.
  intros Hc Hs Hg. pose proof (code_ok_all c Hc) as Hok. unfold code_ok in Hok. apply andb_prop in Hok as [_ Hok].
  destruct (decide (decoded c = restored c)) as [->|Hne]; [by left|]. right.
  destruct (decoded c) as [s1| | |], (restored c) as [s2| | |]; breflect; try done.
  destruct (fmul_zero_finite s1 s Hs) as [a ->], (fmul_zero_finite s2 s Hs) as [b ->].
  destruct (fmul_zero_finite a g Hg) as [a' ->], (fmul_zero_finite b g Hg) as [b' ->]. by exists a', b'.
Qed.

(** Decoding and restoring element by element. *)
Lemma conversion_values d packed scales g geometry p cs t :
  format_check d = Ok () → (∀ geo, geometry = Some geo → geometry_check geo = Ok ()) →
  validated d packed scales g geometry p → codes packed (elements d) (packing d) = Ok cs →
  Zlen cs = elements d → Forall (λ c, 0 <= c < 16) cs →
  tensor_plan t = p → payload t = int8_of <$> cs → block_scales t = scales → global_scale t = g →
  ∃ vs ws, decode_nvfp4 d packed scales g geometry = Ok vs ∧ reference_values t = Ok ws ∧ Forall2 same_number vs ws.
Proof.
  intros Hd Hgeo Hv Hcs Hlen Hdig Htp Htl Hbs Hgs. pose proof (va_plan _ _ _ _ _ _ Hv) as Hp.
  apply plan_for_spec in Hp as (_ & Hg & _). pose proof (va_global _ _ _ _ _ _ Hv) as [Hfin _].
  unfold decode_nvfp4. rewrite (proj2 (validate_spec _ _ _ _ _ _) Hv), Hcs. unfold reference_values. rewrite Htl.
  assert (Hstep : ∀ i c, cs !! i = Some c → ∃ x y, decode_code scales g geometry (Z.of_nat i, c) = Ok x ∧
    reference_value t (Z.of_nat i, int8_of c) = Ok y ∧ same_number x y).
  { intros i c Hi. pose proof (lookup_lt_Some _ _ _ Hi) as Hlt.
    destruct (element_scale_total d packed scales g geometry p Hgeo Hv (Z.of_nat i)) as (s & Hs & Hsf); [unfold Zlen in Hlen; lia|].
    unfold decode_code, reference_value. cbn [fst snd]. rewrite Hbs, Htp, Hg, Hs, Hgs. do 2 eexists. split; [done|]. split; [done|].
    apply values_agree; [|done..]. rewrite Forall_forall in Hdig. apply Hdig. by eapply list_elem_of_lookup_2. }
  clear - Hstep. unfold indexed. unfold Zlen. rewrite length_fmap.
  assert (Hgen : ∀ k, (∀ i c, cs !! i = Some c → ∃ x y, decode_code scales g geometry (Z.of_nat (k + i), c) = Ok x ∧
    reference_value t (Z.of_nat (k + i), int8_of c) = Ok y ∧ same_number x y) →
    ∃ vs ws, map_res (decode_code scales g geometry) (zip (Z.of_nat <$> seq k (length cs)) cs) = Ok vs ∧
      map_res (reference_value t) (zip (Z.of_nat <$> seq k (length cs)) (int8_of <$> cs)) = Ok ws ∧ Forall2 same_number vs ws).
  { clear Hstep. induction cs as [|c cs IH]; intros k Hall.
    - exists [], []. split_and!; [done..|constructor].
    - destruct (Hall 0%nat c eq_refl) as (x & y & Hx & Hy & Hxy). rewrite Nat.add_0_r in Hx, Hy.
      destruct (IH (S k)) as (vs & ws & Hvs & Hws & Hf).
      { intros i c' Hi. specialize (Hall (S i) c' Hi). by rewrite Nat.add_succ_r in Hall. }
      exists (x :: vs), (y :: ws). unfold zip in *. cbn. rewrite Hx, Hy, Hvs, Hws. split_and!; [done..|by constructor]. }
  unfold range. rewrite Nat2Z.id. apply Hgen. intros i c Hi. by apply Hstep.
Qed.

Section conversion.
Context (sha_bytes : bytes → string) (sha_text : string → string).
Context (plan_id : AnyPlan → string) (float_hex : float → string).
Hypothesis sha_bytes_hex : ∀ b, is_hex64 (sha_bytes b) = true.
Hypothesis sha_text_hex : ∀ s, is_hex64 (sha_text s) = true.
Abbreviation digest := (content_digest sha_bytes sha_text plan_id float_hex).
Abbreviation convert := (convert_nvfp4_to_int8 sha_bytes sha_text plan_id float_hex).

Lemma digest_total p payload scales g role :
  is_finite g = true → role ∈ ["source"; "target"] → ∃ x, digest p payload scales g role = Ok x ∧ is_hex64 x = true.
Proof.
  intros Hg Hr. unfold content_digest, numeric_content_digest_from_hashes.
  rewrite !sha_bytes_hex, (bool_decide_eq_true_2 _ Hr), Hg. cbn [negb andb]. eexists. by split.
Qed.

Lemma zero_padding d n : last_nibble (packing d) (replicate n 0) = 0.
Proof.
  unfold last_nibble. assert (default 0 (last (replicate n 0)) = 0) as ->.
  { destruct (last (replicate n 0)) as [x|] eqn:E; [|done]. apply last_Some_elem_of, elem_of_replicate in E as [-> _]. done. }
  by destruct (str_eqb _ _).
Qed.

(** The constructor of the result accepts it. *)
Lemma conversion_constructs d packed scales g geometry p cs :
  format_check d = Ok () → validated d packed scales g geometry p → Zlen cs = elements d → Forall (λ c, 0 <= c < 16) cs →
  ∃ t, scaled_check sha_bytes sha_text plan_id float_hex t = Ok t ∧ tensor_plan t = p ∧ payload t = int8_of <$> cs ∧
       block_scales t = scales ∧ global_scale t = g ∧
       digest p packed scales g "source" = Ok (source_digest t) ∧ digest p (int8_of <$> cs) scales g "target" = Ok (target_digest t).
Proof.
  intros Hd [Hp Hlen Hs [Hg Hg'] Hc Hpad] Hcs Hdig. pose proof (elements_positive d Hd) as Hpos.
  pose proof (plan_for_spec _ _ _ Hp) as (Hfp & Hgeo & _). pose proof (default_plan _ _ Hfp) as (Hsrc & Htgt & Hpk & Hplan).
  destruct (digest_total p packed scales g "source" Hg ltac:(left)) as (x & Hx & Hxh).
  destruct (digest_total p (int8_of <$> cs) scales g "target" Hg ltac:(right; left)) as (y & Hy & _).
  exists (mkScaled p (int8_of <$> cs) scales g x y). split; [|by split_and!].
  unfold scaled_check. cbn [tensor_plan payload block_scales global_scale source_digest target_digest].
  rewrite Hsrc, Hplan, (bool_decide_eq_true_2 (plan_format p = plan_format p)) by done. cbn [negb].
  assert (Hl : Zlen (int8_of <$> cs) = elements (plan_target (plan_format p))) by (unfold Zlen; rewrite length_fmap; unfold Zlen in Hcs; lia).
  rewrite Hl, Z.eqb_refl. cbn [negb].
  assert (Hall : existsb (λ b, negb (bool_decide (b ∈ allowed))) (int8_of <$> cs) = false).
  { apply not_true_iff_false. intros (b & (c & -> & Hc')%list_elem_of_In%list_elem_of_fmap & Hb)%existsb_exists.
    rewrite Forall_forall in Hdig. pose proof (code_ok_all c (Hdig c Hc')) as Hok. unfold code_ok in Hok.
    apply andb_prop in Hok as [Hok _]. by rewrite Hok in Hb. }
  rewrite Hall, Hgeo. rewrite (proj2 (validate_spec d (replicate (Z.to_nat ((elements d + 1) / 2)) 0) scales g geometry p)).
  - rewrite Hxh, Hy. cbn [negb]. unfold check, str_eqb. by rewrite (bool_decide_eq_true_2 (y = y)).
  - split; try done.
    + unfold Zlen. rewrite length_replicate. apply Z2Nat.id, Z.div_pos; lia.
    + intros _. apply zero_padding.
Qed.

(** The eight-bit conversion keeps every value.  For a format and a geometry
    their constructors accept, converting fails exactly as decoding does, and only
    with a [ValueError]; otherwise the result passes its constructor and
    [verify_source] against the input it came from, has one allowed byte per
    element, and its reference values are the decoded ones, up to the sign of
    zeros. *)
Theorem nvfp4_conversion_preserves d packed scales g geometry :
  format_check d = Ok () → (∀ geo, geometry = Some geo → geometry_check geo = Ok ()) →
  match convert d packed scales g geometry with
  | Ok t =>
      verify_source sha_bytes sha_text plan_id float_hex t d packed scales g geometry = Ok () ∧
      Zlen (payload t) = elements d ∧ Forall (λ b, b ∈ allowed) (payload t) ∧
      ∃ vs ws, decode_nvfp4 d packed scales g geometry = Ok vs ∧ reference_values t = Ok ws ∧ Forall2 same_number vs ws
  | Raise e => decode_nvfp4 d packed scales g geometry = Raise e ∧ ∃ m, e = ValueError m
  end.
Proof.
  intros Hd Hgeo. destruct (validate_inputs d packed scales g geometry) as [p|e] eqn:Ev.
  2: { unfold convert_nvfp4_to_int8, decode_nvfp4. rewrite Ev. split; [done|]. by eapply validate_raises. }
  pose proof (proj1 (validate_spec _ _ _ _ _ _) Ev) as Hv.
  destruct (codes_total d packed scales g geometry p Hd Hv) as (cs & Hcs & Hlen & Hdig).
  destruct (conversion_constructs d packed scales g geometry p cs Hd Hv Hlen Hdig) as (t & Hck & Htp & Htl & Hbs & Hgs & Hsd & Htd).
  assert (Hconv : convert d packed scales g geometry = Ok t).
  { unfold convert_nvfp4_to_int8. rewrite Ev, Hcs. cbv zeta. rewrite Hsd, Htd. rewrite <-Hck. f_equal. destruct t. cbn in *. by subst. }
  rewrite Hconv. split_and!.
  - unfold verify_source. rewrite Hconv. unfold check, same_tensor. rewrite !bool_decide_eq_true_2 by done.
    unfold str_eqb. rewrite !bool_decide_eq_true_2 by done. cbn [andb].
    rewrite feqb_refl; [done|]. rewrite Hgs. apply (va_global _ _ _ _ _ _ Hv).
  - rewrite Htl. unfold Zlen in *. by rewrite length_fmap.
  - rewrite Htl. apply Forall_fmap. eapply Forall_impl; [exact Hdig|]. intros c Hc. pose proof (code_ok_all c Hc) as Hok.
    unfold code_ok in Hok. apply andb_prop in Hok as [Hok _]. by breflect.
  - by apply (conversion_values d packed scales g geometry p cs t).
Qed.
End conversion.

(** ** Witnesses *)

Definition demo_digest : string := "0123456789abcdef0123456789abcdef0123456789abcdef0123456789abcdef".
Definition demo_geometry : TensorGeometry := mkGeometry [2; 20] (Axis 1) 16 1.
Definition demo_format : NumericFormatDescriptor := with_elements (default_format "nvfp4_e2m1" "low_nibble_first" one) 40.

Lemma scale_index_blocks_witness :
  geometry_check demo_geometry = Ok () ∧
  ∃ k, scale_index demo_geometry 37 = Ok k ∧ (scale_index demo_geometry 36 = Ok k ↔
    same_block demo_geometry (coordinates [2; 20] 37).1 (coordinates [2; 20] 36).1).
Proof.
  split; [reflexivity|].
  destruct (scale_index_blocks demo_geometry 37 36 eq_refl ltac:(vm_compute; done) ltac:(vm_compute; done)) as (_ & _ & k & Hk & _ & Hj).
  exists k. split; [exact Hk|exact Hj].
Defined.

Lemma nvfp4_conversion_preserves_witness :
  match convert_nvfp4_to_int8 (λ _, demo_digest) (λ _, demo_digest) (λ _, demo_digest) (λ _, "0x1p+0")
          demo_format (replicate 20 191) [56; 48; 40; 0] one (Some demo_geometry) with
  | Ok t => Zlen (payload t) = 40 ∧ ∃ vs ws, decode_nvfp4 demo_format (replicate 20 191) [56; 48; 40; 0] one (Some demo_geometry) = Ok vs ∧
              reference_values t = Ok ws ∧ Forall2 same_number vs ws
  | Raise _ => False
  end.
Proof.
  assert (Hgeo : ∀ geo, Some demo_geometry = Some geo → geometry_check geo = Ok ()) by (intros geo [= <-]; reflexivity).
  pose proof (nvfp4_conversion_preserves (λ _, demo_digest) (λ _, demo_digest) (λ _, demo_digest) (λ _, "0x1p+0")
    (λ _, eq_refl) (λ _, eq_refl) demo_format (replicate 20 191) [56; 48; 40; 0] one (Some demo_geometry) eq_refl Hgeo) as H.
  destruct (convert_nvfp4_to_int8 _ _ _ _ _ _ _ _ _) as [t|e] eqn:E.
  - destruct H as (_ & Hl & _ & Hv). split; [exact Hl|exact Hv].
  - exfalso. vm_compute in E. discriminate E.
Defined.

End NumericFormats.
