(* ===== verification/NumericRequantization.v ===== *)
(** * Requantisation to symmetric eight-bit integers
      (numeric_requantization.py, [convert_mx_to_int8] of numeric_mx.py)

    Groups of values are scaled by their largest magnitude and rounded to signed
    bytes; the route is compared with the conversion of [NumericFormats] that keeps
    the values. *)

From Stdlib Require Import SpecFloat.
From S2P Require Import Prelude Types PyFloat PyBytes BitPacking NumericCodecs NumericLayout NumericFormats.

Module NumericRequantization.
Import PyBytes PyFloat.

Definition MAX_REQUANTIZATION_ELEMENTS : Z := 65536.

Record Int8ExecutionCapability := mkCapability {
  accumulator : string;
  scale_granularities : list string;
  signed : bool;
}.
(** [Int8ExecutionCapability.__post_init__] *)
Definition capability_check (c : Int8ExecutionCapability) : res exn () :=
  check (bool_decide (accumulator c ∈ ["int32"; "fp32"]) && is_some (head (scale_granularities c))
         && bool_decide (NoDup (scale_granularities c))
         && forallb (λ g, bool_decide (g ∈ ["tensor"; "group"; "nvfp4_block"])) (scale_granularities c))
    (ValueError "invalid INT8 execution capability") ().

Record SymmetricInt8Tensor := mkTensor {
  payload : bytes;
  scales : list float;
  group_size : Z;
  elements : Z;
  output_sha256 : string;
}.

(** [struct.pack("<f", x)] and [struct.pack("<d", x)]: the little-endian bytes of a
    float with [p] bits of precision in [8 * k] bits. *)
Definition ieee_bits (p width : Z) (f : float) : Z :=
  let exponent_bits := width - p in
  let sign (s : bool) := if s then 2 ^ (width - 1) else 0 in
  match f with
  | S754_zero s => sign s
  | S754_infinity s => sign s + (2 ^ exponent_bits - 1) * 2 ^ (p - 1)
  | S754_nan => (2 ^ exponent_bits - 1) * 2 ^ (p - 1) + 2 ^ (p - 2)
  | S754_finite s m e =>
      if Z.pos m <? 2 ^ (p - 1) then sign s + Z.pos m
      else sign s + (e + p + 2 ^ (exponent_bits - 1) - 2) * 2 ^ (p - 1) + (Z.pos m - 2 ^ (p - 1))
  end.
Definition le_bytes (k : nat) (n : Z) : bytes := reverse (be_bytes k n).
Definition pack_f32 (f : float) : res exn bytes :=
  if is_finite f && negb (is_finite (float32 f)) then Raise OverflowError
  else Ok (le_bytes 4 (ieee_bits 24 32
         match f with S754_finite s m e => binary_normalize 24 128 (of_finite s m) e s | _ => f end)).
Definition pack_f64 (f : float) : bytes := le_bytes 8 (ieee_bits 53 64 f).
Abbreviation range := NumericLayout.range.
Example pack_f32_one : pack_f32 (of_Z 1) = Ok [0; 0; 128; 63].
Proof. reflexivity. Qed.
Example pack_f64_minus_two : pack_f64 (of_Z (-2)) = [0; 0; 0; 0; 0; 0; 0; 192].
Proof. reflexivity. Qed.

(** A byte read as a signed one. *)
Definition signed_byte (b : Z) : Z := if b <? 128 then b else b - 256.

(** [SymmetricInt8Tensor.values] *)
Definition tensor_value (t : SymmetricInt8Tensor) (p : Z * Z) : res exn float :=
  if group_size t =? 0 then Raise ZeroDivisionError
  else match scales t !! Z.to_nat (p.1 / group_size t) with
       | Some s => Ok (fmul (of_Z (signed_byte p.2)) s)
       | None => Raise (IndexError "tuple index out of range")
       end.
Definition values (t : SymmetricInt8Tensor) : res exn (list float) :=
  if negb (Zlen (payload t) =? elements t) then Raise (ValueError "unpack requires a buffer of the format's size")
  else map_res (tensor_value t) (NumericFormats.indexed (payload t)).

(** The scale and the codes of a group. *)
Definition group_scale (group : list float) : res exn float :=
  match fabs <$> group with
  | [] => Raise (ValueError "max() arg is an empty sequence")
  | x :: xs => let maximum := NumericCodecs.max_from x xs in
               Ok (if feqb maximum zero then of_Z 1 else fdiv maximum (of_Z 127))
  end.
Definition value_code (scale value : float) : res exn Z :=
  match float_div value scale with
  | Raise e => Raise e
  | Ok d => match py_round d with Raise e => Raise e | Ok n => Ok (Z.max (-127) (Z.min 127 n)) end
  end.
Definition quantize_group (group : list float) : res exn (float * list Z) :=
  match group_scale group with
  | Raise e => Raise e
  | Ok scale => match map_res (value_code scale) group with Raise e => Raise e | Ok codes => Ok (scale, codes) end
  end.

Record Int8RouteMetrics := mkMetrics {
  route : string;
  scale_granularity : string;
  maximum_absolute_error : float;
  rmse : float;
  storage_bytes : Z;
  compatible : bool;
  incompatibility_reason : option string;
  metrics_sha256 : string;
}.
Record Int8RouteComparison := mkComparison {
  preserving : Int8RouteMetrics;
  requantized : Int8RouteMetrics;
  comparison_accumulator : string;
}.

(** [_compatibility_reason] *)
Definition compatibility_reason (c : Int8ExecutionCapability) (granularity : string) : option string :=
  if negb (signed c) then Some "signed_int8_unsupported"
  else if negb (bool_decide (granularity ∈ scale_granularities c)) then Some "scale_granularity_unsupported"
  else None.
Definition supports (c : Int8ExecutionCapability) (granularity : string) : bool :=
  signed c && bool_decide (granularity ∈ scale_granularities c).

Section routes.
(** SHA-256 of bytes in hexadecimal; the built-in [sum] of floats, whose rounding
    depends on the version of the interpreter. *)
Context (sha256 : bytes → string) (float_sum : list float → float).

(** [requantize_symmetric_int8] *)
Definition requantize_symmetric_int8 (vs : list float) (size : Z) : res exn SymmetricInt8Tensor :=
  if negb ((1 <=? Zlen vs) && (Zlen vs <=? MAX_REQUANTIZATION_ELEMENTS) && (1 <=? size) && (size <=? Zlen vs)
           && forallb is_finite vs)
  then Raise (ValueError "invalid symmetric INT8 requantization")
  else
    match map_res quantize_group (NumericCodecs.chunks (length vs) size vs) with
    | Raise e => Raise e
    | Ok groups =>
        let codes := groups ≫= snd in
        let payload := (λ c, Z.land c 255) <$> codes in
        match map_res pack_f32 groups.*1 with
        | Raise e => Raise e
        | Ok packed =>
            Ok (mkTensor payload groups.*1 size (Zlen vs)
                  (sha256 (ascii_bytes "vllm-apple-symmetric-int8-v1" ++ [0] ++ payload ++ (packed ≫= id))))
        end
    end.

(** [convert_mx_to_int8] *)
Definition convert_mx_to_int8 (a : NumericCodecs.MXFormatAdapter) (packed mx_scales : bytes) (size : Z)
    : res exn SymmetricInt8Tensor :=
  match NumericCodecs.decode_mx a packed mx_scales with
  | Raise e => Raise e
  | Ok vs => requantize_symmetric_int8 vs size
  end.

Definition maximum (l : list float) : res exn float :=
  match l with [] => Raise (ValueError "max() arg is an empty sequence") | x :: xs => Ok (NumericCodecs.max_from x xs) end.
(** [compare_nvfp4_int8_routes] *)
Definition compare_nvfp4_int8_routes (t : NumericFormats.ScaledInt8Tensor) (size : Z) (c : Int8ExecutionCapability)
    : res exn Int8RouteComparison :=
  match NumericFormats.reference_values t with
  | Raise e => Raise e
  | Ok reference =>
      match requantize_symmetric_int8 reference size with
      | Raise e => Raise e
      | Ok q =>
          let digest := sha256 (ascii_bytes "vllm-apple-preserving-int8-v1" ++ [0] ++ NumericFormats.payload t
                          ++ NumericFormats.block_scales t ++ pack_f64 (NumericFormats.global_scale t)) in
          let kept := mkMetrics "nvfp4_scaled_int8_preserving" "nvfp4_block" zero zero
            (Zlen (NumericFormats.payload t) + Zlen (NumericFormats.block_scales t) + 8)
            (supports c "nvfp4_block") (compatibility_reason c "nvfp4_block") digest in
          match values q with
          | Raise e => Raise e
          | Ok restored =>
              let errors := zip_with (λ x y, fabs (fsub x y)) reference restored in
              let granularity := if size =? Zlen reference then "tensor" else "group" in
              match maximum errors with
              | Raise e => Raise e
              | Ok worst =>
                  let mean := fdiv (float_sum ((λ v, fmul v v) <$> errors)) (of_Z (Zlen errors)) in
                  Ok (mkComparison kept
                        (mkMetrics "symmetric_int8_requantized" granularity worst (SFsqrt prec emax mean)
                           (Zlen (payload q) + 4 * Zlen (scales q)) (supports c granularity)
                           (compatibility_reason c granularity) (output_sha256 q))
                        (accumulator c))
              end
          end
      end
  end.
End routes.

(** ** Signs *)

(** Neither zero nor NaN, with the sign [s] when it is a number. *)
Definition signed_as (s : bool) (f : float) : Prop :=
  match f with S754_zero s' | S754_infinity s' | S754_finite s' _ _ => s' = s | S754_nan => True end.
Lemma round_aux_sign s m e l : signed_as s (binary_round_aux prec emax s m e l).
Proof.
  unfold binary_round_aux. destruct (shr_fexp _ _ _ _ _) as [r1 e1]. destruct (shr_fexp _ _ _ _ _) as [r2 e2].
  destruct (shr_m r2); [done| |done]. by destruct (_ <=? _).
Qed.
Lemma fdiv_sign a b : signed_as false b → signed_as (sign_bit a) (fdiv a b).
Proof.
  destruct a as [s|s| |s m e], b as [s'|s'| |s' m' e']; cbn; try done; intros ->; try by destruct s.
  unfold fdiv, SFdiv. destruct (SFdiv_core_binary _ _ _ _ _ _) as [[mz ez] lz]. rewrite xorb_false_r. apply round_aux_sign.
Qed.
Lemma fmul_sign a b : signed_as false b → signed_as (sign_bit a) (fmul a b).
Proof.
  destruct a as [s|s| |s m e], b as [s'|s'| |s' m' e']; cbn; try done; intros ->; try by destruct s.
  unfold fmul, SFmul. rewrite xorb_false_r. apply round_aux_sign.
Qed.
Lemma py_round_sign s f n : signed_as s f → py_round f = Ok n → if s then n <= 0 else 0 <= n.
Proof.
  destruct f as [s'|s'| |s' m e]; cbn; try done; [intros _ [= <-]; by destruct s|]. intros -> [= <-].
  assert (0 <= (if 0 <=? e then Z.pos m * 2 ^ e else round_div (Z.pos m) (2 ^ (- e)))).
  { destruct (0 <=? e) eqn:E; breflect; [lia|]. unfold round_div. assert (0 < 2 ^ (- e)) by (apply Z.pow_pos_nonneg; lia).
    pose proof (Z.div_pos (Z.pos m) (2 ^ (- e)) ltac:(lia) ltac:(lia)). destruct (_ || _); lia. }
  destruct s; lia.
Qed.

(** The code of a value has its sign, or is zero. *)
Lemma value_code_sign scale v c :
  signed_as false scale → value_code scale v = Ok c →
  -127 <= c <= 127 ∧ if sign_bit v then c <= 0 else 0 <= c.
Proof.
  intros Hs. unfold value_code. destruct (float_div v scale) as [d|] eqn:Ed; [|done].
  destruct (py_round d) as [n|] eqn:En; [|done]. intros [= <-]. split; [lia|].
  assert (Hd : signed_as (sign_bit v) d).
  { unfold float_div in Ed. destruct scale; try done; injection Ed as <-; by apply fdiv_sign. }
  pose proof (py_round_sign _ _ _ Hd En). destruct (sign_bit v); lia.
Qed.
Lemma max_from_sign l : ∀ x, signed_as false x → Forall (signed_as false) l → signed_as false (NumericCodecs.max_from x l).
Proof.
  induction l as [|y l IH]; intros x Hx Hl; cbn; [done|]. apply Forall_cons in Hl as [Hy Hl].
  apply IH; [|done]. by destruct (fltb x y).
Qed.
Lemma group_scale_sign group s : group_scale group = Ok s → signed_as false s.
Proof.
  unfold group_scale. assert (Hall : Forall (signed_as false) (fabs <$> group)).
  { apply Forall_fmap, Forall_true. by intros []. }
  destruct (fabs <$> group) as [|x xs]; [done|]. apply Forall_cons in Hall as [Hx Hxs].
  pose proof (max_from_sign xs x Hx Hxs) as Hm. set (m := NumericCodecs.max_from x xs) in *. clearbody m.
  destruct (feqb m zero); intros [= <-]; [done|]. pose proof (fdiv_sign m (of_Z 127) eq_refl) as Hd.
  destruct m; cbn in Hm; subst; done.
Qed.

(** The byte of a code is read back as the code. *)
Lemma byte_of_code c : -127 <= c <= 127 → signed_byte (Z.land c 255) = c.
Proof.
  intros Hc. change 255 with (Z.ones 8). rewrite Z.land_ones by lia. unfold signed_byte. change (2 ^ 8) with 256.
  destruct (_ <? 128) eqn:E; breflect; Z.to_euclidean_division_equations; lia.
Qed.

(** A restored value is never on the other side of zero. *)
Definition keeps_sign (v r : float) : Prop :=
  (fltb zero r = true → sign_bit v = false) ∧ (fltb r zero = true → sign_bit v = true).
Lemma of_Z_code_sign c : -127 <= c <= 127 → if decide (c = 0) then of_Z c = S754_zero false else sign_bit (of_Z c) = (c <? 0).
Proof.
  intros Hc. assert (Htab : forallb (λ n, let c := n - 127 in
    match of_Z c with S754_zero false => c =? 0 | f => negb (c =? 0) && Bool.eqb (sign_bit f) (c <? 0) end)
    (range 255) = true) by (vm_compute; reflexivity).
  rewrite forallb_forall in Htab. specialize (Htab (c + 127)). cbv zeta in Htab.
  replace (c + 127 - 127) with c in Htab by lia.
  assert (Hin : In (c + 127) (range 255)) by (apply list_elem_of_In, NumericLayout.elem_of_range; lia).
  specialize (Htab Hin). destruct (decide (c = 0)) as [->|Hne]; [done|].
  assert (Hb : Bool.eqb (sign_bit (of_Z c)) (c <? 0) = true); [|by apply eqb_prop].
  destruct (of_Z c) as [[]|?| |? ? ?]; try (by apply andb_prop in Htab as [_ Htab]). apply Z.eqb_eq in Htab. lia.
Qed.
Lemma restored_sign v c s :
  signed_as false s → -127 <= c <= 127 → (if sign_bit v then c <= 0 else 0 <= c) → keeps_sign v (fmul (of_Z c) s).
Proof.
  intros Hs Hc Hv. unfold keeps_sign. pose proof (of_Z_code_sign c Hc) as Hz. destruct (decide (c = 0)) as [->|Hne].
  - rewrite Hz. by destruct s.
  - pose proof (fmul_sign (of_Z c) s Hs) as Hr. rewrite Hz in Hr. set (r := fmul (of_Z c) s) in *. clearbody r.
    destruct (c <? 0) eqn:E; breflect.
    + destruct (sign_bit v); [|lia]. split; [|done]. intros Hlt. by destruct r as [[]|[]| |[]]; cbn in Hr, Hlt.
    + destruct (sign_bit v); [lia|]. split; [done|]. intros Hlt. by destruct r as [[]|[]| |[]]; cbn in Hr, Hlt.
Qed.

(** ** Well-formedness and errors *)

Lemma mx_group_codes g s codes :
  quantize_group g = Ok (s, codes) →
  signed_as false s ∧ length codes = length g ∧
  Forall2 (λ v c, -127 <= c <= 127 ∧ if sign_bit v then c <= 0 else 0 <= c) g codes.
Proof.
  unfold quantize_group. destruct (group_scale g) as [s'|] eqn:Es; [|done]. destruct (map_res _ _) as [cs|] eqn:Em; [|done].
  intros [= -> ->]. pose proof (group_scale_sign _ _ Es) as Hs. split; [done|].
  split; [by apply map_res_Ok, Forall2_length in Em|]. eapply map_res_impl; [exact Em|]. intros v c _. by apply value_code_sign.
Qed.

(** The codes of all groups, each with its scale, in order. *)
Lemma groups_codes cs groups :
  Forall2 (λ g r, quantize_group g = Ok r) cs groups →
  Forall (signed_as false) groups.*1 ∧ length groups = length cs ∧
  Forall2 (λ v c, -127 <= c <= 127 ∧ if sign_bit v then c <= 0 else 0 <= c) (cs ≫= id) (groups ≫= snd).
Proof.
  induction 1 as [|g [s codes] cs groups Hg _ IH]; [by split_and!|]. destruct IH as (H1 & H2 & H3).
  apply mx_group_codes in Hg as (Hs & _ & Hf).
  change ((?a :: ?b) ≫= id) with (a ++ (b ≫= id)). change (((s, codes) :: groups) ≫= snd) with (codes ++ (groups ≫= snd)).
  split_and!; [by constructor|cbn; lia|by apply Forall2_app].
Qed.

(** Quotients of finite numbers are numbers. *)
Lemma fdiv_not_nan a b :
  is_finite a = true → is_nan b = false → (∀ s, b ≠ S754_zero s) → is_nan (fdiv a b) = false.
Proof.
  intros Ha Hb Hz. destruct a as [s|s| |s m e], b as [s'|s'| |s' m' e']; try done; try by destruct (Hz s').
  unfold fdiv, SFdiv. destruct (SFdiv_core_binary _ _ _ _ _ _) as [[mz ez] lz] eqn:E. apply round_aux_not_nan.
  unfold SFdiv_core_binary in E. cbv zeta in E.
  set (m0 := match _ with Z0 => Z.pos m | Z.pos _ => _ | Z.neg _ => 0 end) in E.
  assert (0 <= m0). { unfold m0. destruct (_ - _ - _); [lia| |lia]. apply Z.shiftl_nonneg. lia. }
  clearbody m0. destruct (Z.div_eucl m0 (Z.pos m')) as [q r] eqn:Eq. injection E as <- _ _.
  replace q with (m0 / Z.pos m') by (unfold Z.div; by rewrite Eq). apply Z.div_pos; lia.
Qed.
Lemma group_scale_number g s : Forall (λ v, is_finite v = true) g → group_scale g = Ok s → is_nan s = false.
Proof.
  intros Hg. unfold group_scale. assert (Hall : Forall (λ v, is_finite v = true) (fabs <$> g)).
  { apply Forall_fmap. eapply Forall_impl; [exact Hg|]. by intros []. }
  destruct (fabs <$> g) as [|x xs]; [done|]. apply Forall_cons in Hall as [Hx Hxs].
  assert (Hm : is_finite (NumericCodecs.max_from x xs) = true).
  { clear Hg. revert x Hx. induction Hxs as [|y xs Hy _ IH]; intros x Hx; cbn; [done|]. apply IH. by destruct (fltb x y). }
  destruct (feqb _ zero); intros [= <-]; [done|]. by apply fdiv_not_nan.
Qed.

(** The bytes of a result restore values with the signs of the originals. *)
Lemma restore_spec vs codes t :
  payload t = (λ c, Z.land c 255) <$> codes → elements t = Zlen vs → 1 <= group_size t →
  Zlen (scales t) = (Zlen vs + group_size t - 1) / group_size t → Forall (signed_as false) (scales t) →
  Forall2 (λ v c, -127 <= c <= 127 ∧ if sign_bit v then c <= 0 else 0 <= c) vs codes →
  ∃ rs, values t = Ok rs ∧ Forall2 keeps_sign vs rs.
Proof.
  intros Hp He Hg Hs Hsign Hvc. pose proof (Forall2_length _ _ _ Hvc) as Hlen.
  unfold values. assert (Hl : Zlen (payload t) = elements t) by (rewrite Hp, He; unfold Zlen; by rewrite length_fmap, Hlen).
  rewrite Hl, Z.eqb_refl. cbn [negb].
  assert (Hstep : ∀ i v b, vs !! i = Some v → payload t !! i = Some b →
    ∃ r, tensor_value t (Z.of_nat i, b) = Ok r ∧ keeps_sign v r).
  { intros i v b Hv Hb. rewrite Hp, list_lookup_fmap in Hb. apply fmap_Some in Hb as (c & Hc & ->).
    destruct (Forall2_lookup_lr _ _ _ _ _ _ Hvc Hv Hc) as [Hr Hsg]. unfold tensor_value. cbn [fst snd].
    rewrite (proj2 (Z.eqb_neq _ _)), (byte_of_code c Hr) by lia.
    pose proof (NumericLayout.tile_of (Z.of_nat i) (group_size t) (Zlen vs)) as Hk.
    apply lookup_lt_Some in Hv. destruct (lookup_lt_is_Some_2 (scales t) (Z.to_nat (Z.of_nat i / group_size t))) as [s Hs'];
      [unfold Zlen in *; lia|]. rewrite Hs'. eexists. split; [done|]. apply restored_sign; [|done..].
    rewrite Forall_forall in Hsign. apply Hsign. by eapply list_elem_of_lookup_2. }
  assert (Htot : is_ok (map_res (tensor_value t) (NumericFormats.indexed (payload t))) = true).
  { apply map_res_total. intros [k b] [i Hi]%list_elem_of_lookup. apply NumericFormats.indexed_elem in Hi as (b' & Hb & [= -> ->]).
    destruct (lookup_lt_is_Some_2 vs i) as [v Hv]; [apply lookup_lt_Some in Hb; unfold Zlen in *; lia|].
    by destruct (Hstep i v b' Hv Hb) as (r & -> & _). }
  destruct (map_res _ _) as [rs|] eqn:Em; [|done]. exists rs. split; [done|]. apply map_res_Ok in Em.
  pose proof (Forall2_length _ _ _ Em) as Hlr. rewrite NumericFormats.length_with_index in Hlr.
  apply Forall2_same_length_lookup. split; [unfold Zlen in *; lia|]. intros i v r Hv Hr.
  destruct (Forall2_lookup_r _ _ _ _ _ Em Hr) as ([k b] & Hib & Hb). apply NumericFormats.indexed_elem in Hib as (b' & Hb' & [= -> ->]).
  destruct (Hstep i v b' Hv Hb') as (r' & Hr' & Hk). congruence.
Qed.

(** ** What the scales and the bytes are *)

(** The integer nearest to a float, the even one of two as near. *)
Definition rounds_to (d : float) (n : Z) : Prop :=
  match d with
  | S754_zero _ => n = 0
  | S754_finite s m e =>
      let a := if s then Z.neg m else Z.pos m in
      if 0 <=? e then n = a * 2 ^ e
      else 2 * Z.abs (a - n * 2 ^ (- e)) <= 2 ^ (- e) ∧ (2 * Z.abs (a - n * 2 ^ (- e)) = 2 ^ (- e) → Z.Even n)
  | _ => False
  end.
(** The largest magnitude of the values [k * size], [k * size + 1], ... of a group. *)
Definition in_group (vs : list float) (size : Z) (k : nat) (v : float) : Prop :=
  ∃ j : nat, vs !! j = Some v ∧ Z.of_nat j / size = Z.of_nat k.
Definition group_maximum (vs : list float) (size : Z) (k : nat) (m : float) : Prop :=
  (∃ v, in_group vs size k v ∧ m = fabs v) ∧ ∀ v, in_group vs size k v → fltb m (fabs v) = false.
(** The scale of a group with that maximum. *)
Definition scale_of (m s : float) : Prop :=
  (feqb m zero = true ∧ s = of_Z 1) ∨ (feqb m zero = false ∧ s = fdiv m (of_Z 127)).

Lemma round_div_nearest a d : 0 <= a → 0 < d →
  2 * Z.abs (a - round_div a d * d) <= d ∧ (2 * Z.abs (a - round_div a d * d) = d → Z.Even (round_div a d)).
Proof.
  intros Ha Hd. unfold round_div. pose proof (Z.div_mod a d ltac:(lia)) as Hq. pose proof (Z.mod_pos_bound a d Hd) as Hr.
  set (q := a / d) in *. set (r := a mod d) in *. clearbody q r.
  destruct (Z.ltb_spec (2 * r) d); cbn [orb]; [split; nia|]. destruct (Z.eqb_spec (2 * r) d) as [He|He]; cbn [andb].
  - destruct (Z.even q) eqn:Eq.
    + split; [nia|]. intros _. by apply Z.even_spec.
    + split; [nia|]. intros _. apply Z.even_spec. by rewrite Z.add_1_r, Z.even_succ, <-Z.negb_even, Eq.
  - split; nia.
Qed.
Lemma py_round_nearest d n : py_round d = Ok n → rounds_to d n.
Proof.
  unfold py_round, rounds_to. destruct d as [s|s| |s m e]; try done; [by intros [= <-]|]. intros [= <-].
  destruct (Z.leb_spec 0 e); [by destruct s; lia|]. assert (Hd : 0 < 2 ^ (- e)) by (apply Z.pow_pos_nonneg; lia).
  destruct (round_div_nearest (Z.pos m) (2 ^ (- e)) ltac:(lia) Hd) as [H1 H2]. set (q := round_div (Z.pos m) (2 ^ (- e))) in *. clearbody q.
  destruct s; [|done]. change (Z.neg m) with (- Z.pos m).
  replace (- Z.pos m - - q * 2 ^ (- e)) with (- (Z.pos m - q * 2 ^ (- e))) by lia. rewrite Z.abs_opp. split; [done|].
  intros He. destruct (H2 He) as [x Hx]. exists (- x). lia.
Qed.
(** [max] of numbers. *)
Lemma max_from_greatest l : ∀ x, is_nan x = false → Forall (λ y, is_nan y = false) l →
  NumericCodecs.max_from x l ∈ x :: l ∧ ∀ y, y ∈ x :: l → fltb (NumericCodecs.max_from x l) y = false.
Proof.
  induction l as [|z l IH]; intros x Hx Hl; cbn [NumericCodecs.max_from].
  - split; [left|]. intros y ->%list_elem_of_singleton. apply fltb_irrefl.
  - apply Forall_cons in Hl as [Hz Hl]. set (b := if fltb x z then z else x).
    assert (Hb : is_nan b = false ∧ b ∈ [x; z] ∧ fltb b x = false ∧ fltb b z = false).
    { unfold b. destruct (fltb x z) eqn:E; (split; [done|]); (split; [set_solver|]); split; try apply fltb_irrefl; try done.
      apply not_true_iff_false. intros Hzx. pose proof (fltb_trans x z x Hz E Hzx) as Hxx. by rewrite fltb_irrefl in Hxx. }
    destruct Hb as (Hnb & Hin & Hbx & Hbz). destruct (IH b Hnb Hl) as [Hm Hge]. pose proof (Hge b ltac:(left)) as Hmb.
    assert (Hnm : is_nan (NumericCodecs.max_from b l) = false).
    { apply elem_of_cons in Hm as [->|Hm]; [done|]. rewrite Forall_forall in Hl. by apply Hl. }
    split; [apply elem_of_cons in Hm as [->|Hm]; set_solver|].
    intros y [->|[->|Hy]%elem_of_cons]%elem_of_cons; [by eapply (fltb_total _ b)|by eapply (fltb_total _ b)|]. apply Hge. by right.
Qed.
Lemma group_scale_spec g : g ≠ [] → Forall (λ v, is_finite v = true) g →
  ∃ m s, group_scale g = Ok s ∧ scale_of m s ∧ (∃ v, v ∈ g ∧ m = fabs v) ∧ ∀ v, v ∈ g → fltb m (fabs v) = false.
Proof.
  intros Hne Hg. destruct g as [|x g]; [done|]. unfold group_scale. cbn [fmap list_fmap].
  assert (Hall : Forall (λ y, is_nan y = false) (fabs <$> x :: g)) by (apply Forall_fmap; eapply Forall_impl; [exact Hg|]; by intros []).
  apply Forall_cons in Hall as [Hx Hxs]. destruct (max_from_greatest _ _ Hx Hxs) as [Hin Hmax].
  set (m := NumericCodecs.max_from _ _) in *. clearbody m. exists m. eexists. split; [done|]. split; [|split].
  - unfold scale_of. destruct (feqb m zero); auto.
  - apply (list_elem_of_fmap fabs (x :: g)) in Hin as (v & -> & Hv). by exists v.
  - intros v Hv. apply Hmax. apply (list_elem_of_fmap fabs (x :: g)). by exists v.
Qed.
(** Value [i] is in chunk [i / size]; codes are where their values are. *)
Lemma chunk_at fuel size l (groups : list (float * list Z)) :
  0 < size → (length l <= fuel)%nat → Forall2 (λ g r, length r.2 = length g) (NumericCodecs.chunks fuel size l) groups →
  ∀ (i : nat) v, l !! i = Some v → let k := Z.to_nat (Z.of_nat i / size) in
    ∃ g r o, NumericCodecs.chunks fuel size l !! k = Some g ∧ groups !! k = Some r ∧ g !! o = Some v ∧ (groups ≫= snd) !! i = r.2 !! o.
Proof.
  intros Hs. revert l groups. induction fuel as [|fuel IH]; intros l groups Hf Hg i v Hi k; [destruct l; [done|cbn in Hf; lia]|].
  destruct l as [|x l]; [done|]. cbn [NumericCodecs.chunks] in *. set (n := Z.to_nat size) in *.
  inversion Hg as [|g r cs groups' Hlen Hrest]; subst. change ((r :: groups') ≫= snd) with (r.2 ++ (groups' ≫= snd)).
  destruct (decide (i < n)%nat) as [Hlt|Hge].
  - assert (k = O) as -> by (unfold k; rewrite Z.div_small by lia; done). exists (take n (x :: l)), r, i.
    split; [done|]. split; [done|]. rewrite lookup_take_lt by done. split; [done|]. apply lookup_app_l.
    rewrite Hlen, length_take. apply lookup_lt_Some in Hi. lia.
  - pose proof (lookup_lt_Some _ _ _ Hi) as Hil. destruct (IH (drop n (x :: l)) groups' ltac:(rewrite length_drop; cbn in *; lia) Hrest (i - n)%nat v) as (g & r' & o & H1 & H2 & H3 & H4).
    { rewrite lookup_drop. by replace (n + (i - n))%nat with i by lia. }
    assert (k = S (Z.to_nat (Z.of_nat (i - n) / size))) as ->.
    { unfold k. replace (Z.of_nat i) with (Z.of_nat (i - n) + 1 * size) by lia. rewrite Z.div_add by lia. pose proof (Z.div_pos (Z.of_nat (i - n)) size). lia. }
    exists g, r', o. split; [done|]. split; [done|]. split; [done|]. rewrite lookup_app_r by (rewrite Hlen, length_take; lia).
    rewrite Hlen, length_take. by replace (n `min` length (x :: l))%nat with n by lia.
Qed.
Lemma chunk_elements fuel size l : 0 < size → (length l <= fuel)%nat → ∀ (k : nat) g v, NumericCodecs.chunks fuel size l !! k = Some g → v ∈ g ↔ in_group l size k v ∧ v ∈ g.
Proof.
  intros Hs. revert l. induction fuel as [|fuel IH]; intros l Hf k g v Hk; [by destruct l|]. split; [|by intros []]. intros Hv. split; [|done].
  destruct l as [|x l]; [done|]. cbn [NumericCodecs.chunks] in Hk. set (n := Z.to_nat size) in *. destruct k as [|k].
  - injection Hk as <-. apply list_elem_of_lookup in Hv as [j Hj]. exists j. apply lookup_take_Some in Hj as [Hj Hlt]. split; [done|]. apply Z.div_small. lia.
  - destruct (proj1 (IH (drop n (x :: l)) ltac:(rewrite length_drop; cbn in *; lia) k g v Hk) Hv) as [(j & Hj & Hd) _].
    exists (n + j)%nat. rewrite lookup_drop in Hj. split; [done|]. replace (Z.of_nat (n + j)) with (Z.of_nat j + 1 * size) by lia.
    rewrite Z.div_add by lia. lia.
Qed.
(** The scale of a chunk is the scale of its group. *)
Lemma chunk_scale vs size k g : 1 <= size → forallb is_finite vs = true → NumericCodecs.chunks (length vs) size vs !! k = Some g →
  ∃ m s, group_scale g = Ok s ∧ scale_of m s ∧ group_maximum vs size k m.
Proof.
  intros Hs Hfin Hk. destruct (NumericCodecs.chunks_spec (length vs) size vs ltac:(lia) ltac:(lia)) as (_ & _ & Hne).
  rewrite Forall_forall in Hne. specialize (Hne g (list_elem_of_lookup_2 _ _ _ Hk)).
  pose proof (chunk_elements (length vs) size vs ltac:(lia) ltac:(lia) k g) as Hin.
  assert (Hg : Forall (λ v, is_finite v = true) g).
  { apply Forall_forall. intros v Hv. apply Hin in Hv as [(j & Hj & _) _]; [|done]. rewrite forallb_forall in Hfin. apply Hfin, list_elem_of_In. by eapply list_elem_of_lookup_2. }
  destruct (group_scale_spec g Hne Hg) as (m & s & Hsc & Hof & (v & Hv & ->) & Hmax). exists (fabs v), s. split; [done|]. split; [done|]. split.
  - exists v. split; [|done]. by apply (Hin v Hk).
  - intros w (j & Hj & Hd). apply Hmax.
    set (shadow := map (λ c : list float, (zero, map (λ _, 0) c)) (NumericCodecs.chunks (length vs) size vs)).
    assert (Hshadow : Forall2 (λ (c : list float) (r : float * list Z), length r.2 = length c) (NumericCodecs.chunks (length vs) size vs) shadow).
    { unfold shadow. clear. induction (NumericCodecs.chunks _ _ _); constructor; [apply length_map|done]. }
    destruct (chunk_at (length vs) size vs shadow ltac:(lia) ltac:(lia) Hshadow j w Hj) as (g' & r & o & Hg' & _ & Ho & _).
    rewrite Hd, Nat2Z.id in Hg'. assert (g' = g) as -> by congruence. by eapply list_elem_of_lookup_2.
Qed.
(** Why a group with a scale cannot be quantised. *)
Lemma quantize_group_fails g s e : Forall (λ v, is_finite v = true) g → group_scale g = Ok s → quantize_group g = Raise e →
  (e = OverflowError ∧ ∃ v, v ∈ g ∧ is_finite (fdiv v s) = false) ∨ (e = ZeroDivisionError ∧ ∃ b, s = S754_zero b).
Proof.
  intros Hfin Hs. unfold quantize_group. rewrite Hs. destruct (map_res _ _) as [cs|x] eqn:Em; [done|]. intros [= <-].
  apply map_res_Raise in Em as (v & Hv & Hc). unfold value_code in Hc. destruct (float_div v s) as [d|y] eqn:Ed.
  - destruct (py_round d) as [n|y] eqn:En; [done|]. injection Hc as <-. left.
    assert (Hd : d = fdiv v s) by (unfold float_div in Ed; destruct s; congruence).
    assert (Hnn : is_nan d = false).
    { rewrite Forall_forall in Hfin. rewrite Hd. apply fdiv_not_nan; [by apply Hfin|by eapply group_scale_number; [apply Forall_forall|]|]. intros b ->. done. }
    unfold py_round in En. destruct d; try done. injection En as <-. split; [done|]. exists v. by rewrite <-Hd.
  - injection Hc as <-. right. unfold float_div in Ed. destruct s; try done. injection Ed as <-. split; [done|by eexists].
Qed.
Lemma pack_f32_range f e : pack_f32 f = Raise e → e = OverflowError ∧ is_finite (float32 f) = false.
Proof. unfold pack_f32. destruct (is_finite f), (is_finite (float32 f)); cbn; by intros [= <-]. Qed.
(** The code of a value, and what is restored from it. *)
Lemma group_code g s codes o v c : quantize_group g = Ok (s, codes) → g !! o = Some v → codes !! o = Some c →
  ∃ n, rounds_to (fdiv v s) n ∧ c = Z.max (-127) (Z.min 127 n).
Proof.
  unfold quantize_group. destruct (group_scale g) as [s'|] eqn:Es; [|done]. destruct (map_res _ _) as [cs|] eqn:Em; [|done]. intros [= -> ->] Hv Hc.
  apply map_res_Ok in Em. pose proof (Forall2_lookup_lr _ _ _ _ _ _ Em Hv Hc) as Hvc. cbn in Hvc. unfold value_code in Hvc.
  destruct (float_div v s) as [d|] eqn:Ed; [|done]. destruct (py_round d) as [n|] eqn:En; [|done]. injection Hvc as <-. exists n. split; [|done].
  assert (fdiv v s = d) as -> by (unfold float_div in Ed; destruct s; congruence). by apply py_round_nearest.
Qed.
Lemma values_at t rs i b : values t = Ok rs → payload t !! i = Some b → ∃ r, rs !! i = Some r ∧ tensor_value t (Z.of_nat i, b) = Ok r.
Proof.
  unfold values. destruct (negb _); [done|]. intros Hm Hb. apply map_res_Ok in Hm.
  assert (Hi : NumericFormats.indexed (payload t) !! i = Some (Z.of_nat i, b)) by (apply NumericFormats.indexed_elem; by exists b).
  destruct (Forall2_lookup_l _ _ _ _ _ Hm Hi) as (r & Hr & Ht). by exists r.
Qed.
(** Everything a result of quantising the chunks says of scales and bytes. *)
Lemma requantized_scales vs size groups k s : 1 <= size → forallb is_finite vs = true →
  Forall2 (λ g r, quantize_group g = Ok r) (NumericCodecs.chunks (length vs) size vs) groups → groups.*1 !! k = Some s →
  ∃ m, group_maximum vs size k m ∧ scale_of m s.
Proof.
  intros Hs Hfin Hg Hk. rewrite list_lookup_fmap in Hk. apply fmap_Some in Hk as ([s' codes] & Hk & ->). destruct (Forall2_lookup_r _ _ _ _ _ Hg Hk) as (g & Hgk & Hq).
  destruct (chunk_scale vs size k g Hs Hfin Hgk) as (m & s & Hsc & Hof & Hm). exists m. split; [done|].
  unfold quantize_group in Hq. rewrite Hsc in Hq. destruct (map_res _ _); [|done]. injection Hq as <- _. done.
Qed.
Lemma requantized_codes vs size groups (i : nat) v : 1 <= size →
  Forall2 (λ g r, quantize_group g = Ok r) (NumericCodecs.chunks (length vs) size vs) groups → vs !! i = Some v →
  ∃ s c n, groups.*1 !! Z.to_nat (Z.of_nat i / size) = Some s ∧ (groups ≫= snd) !! i = Some c ∧ rounds_to (fdiv v s) n ∧ c = Z.max (-127) (Z.min 127 n).
Proof.
  intros Hs Hg Hi. assert (Hlens : Forall2 (λ (g : list float) (r : float * list Z), length r.2 = length g) (NumericCodecs.chunks (length vs) size vs) groups).
  { eapply Forall2_impl; [exact Hg|]. intros g [s codes] Hq. by apply mx_group_codes in Hq as (_ & ? & _). }
  destruct (chunk_at (length vs) size vs groups ltac:(lia) ltac:(lia) Hlens i v Hi) as (g & [s codes] & o & Hgk & Hr & Ho & Hc). cbn [snd] in Hc.
  pose proof (Forall2_lookup_lr _ _ _ _ _ _ Hg Hgk Hr) as Hq. pose proof (Forall2_lookup_lr _ _ _ _ _ _ Hlens Hgk Hr) as Hl. cbn in Hq, Hl.
  destruct (lookup_lt_is_Some_2 codes o) as [c Hco]; [rewrite Hl; by eapply lookup_lt_Some|]. destruct (group_code g s codes o v c Hq Ho Hco) as (n & Hn & Hcn).
  exists s, c, n. split; [by rewrite list_lookup_fmap, Hr|]. split; [congruence|done].
Qed.

Lemma chunk_fails vs size k g e : 1 <= size → forallb is_finite vs = true → NumericCodecs.chunks (length vs) size vs !! k = Some g →
  quantize_group g = Raise e → ∃ m s, group_maximum vs size k m ∧ scale_of m s ∧
    ((e = OverflowError ∧ (is_finite (float32 s) = false ∨ ∃ v, in_group vs size k v ∧ is_finite (fdiv v s) = false)) ∨
     (e = ZeroDivisionError ∧ feqb m zero = false ∧ ∃ b, s = S754_zero b)).
Proof.
  intros Hs Efin Hk Hr. destruct (chunk_scale vs size k g Hs Efin Hk) as (m & s & Hsc & Hof & Hm). exists m, s. split; [done|]. split; [done|].
  assert (Hin : ∀ v, v ∈ g → in_group vs size k v) by (intros v Hv; by apply (chunk_elements (length vs) size vs ltac:(lia) ltac:(lia) k g v Hk)).
  assert (Hfin : Forall (λ v, is_finite v = true) g).
  { apply Forall_forall. intros v (j & Hj & _)%Hin. rewrite forallb_forall in Efin. apply Efin, list_elem_of_In. by eapply list_elem_of_lookup_2. }
  destruct (quantize_group_fails g s e Hfin Hsc Hr) as [[-> (v & Hv & Hd)]|[-> [b ->]]]; [left; split; [done|]; right; exists v; auto|].
  right. split; [done|]. split; [|by exists b]. by destruct Hof as [[_ Hof]|[? _]].
Qed.


(** ** A maximum too small to be divided

    127 divides the smallest subnormal numbers to zero. *)
Definition tiny : float := S754_finite false 1 (-1074).
Lemma tiny_maximum_divides_by_zero sha256 :
  is_finite tiny = true ∧ requantize_symmetric_int8 sha256 [tiny] 1 = Raise ZeroDivisionError.
Proof. by split; vm_compute. Qed.
(** The default group of [convert_mx_to_int8] is a block, which a shorter tensor does not have. *)
Lemma short_tensor_refused sha256 :
  let a := NumericCodecs.mkMX NumericCodecs.FP8_E4M3 8 in
  is_ok (NumericCodecs.decode_mx a (replicate 8 56) [127]) = true ∧
  convert_mx_to_int8 sha256 a (replicate 8 56) [127] NumericCodecs.MX_BLOCK_SIZE =
    Raise (ValueError "invalid symmetric INT8 requantization").
Proof. by split; vm_compute. Qed.

End NumericRequantization.
