(* ===== verification/ContextReevaluation.v ===== *)
(** * Re-evaluation of the context size (context_reevaluation.py)

    After a sample of the backend's key/value capacity, and while the machine is hot,
    requests are admitted with less context than was configured.  Every method holds
    the lock. *)

From S2P Require Import Prelude Types.

Module ContextReevaluation.

Record ContextReevaluationSnapshot := mkSnapshot {
  enabled : bool;
  status : string;
  configured_context_tokens : option Z;
  effective_context_tokens : option Z;
  capacity_context_tokens : option Z;
  kv_capacity_bytes : option Z;
  snap_kv_bytes_per_token : option Z;
  snap_weights_bytes : option Z;
  snap_source : option string;
  snap_reevaluations : Z;
}.

Record ContextCapacityReevaluator := mkReevaluator {
  configured : Z;
  kv_bytes_per_token : Z;
  weights_bytes : Z;
  capacity : option Z;
  capacity_tokens : option Z;
  source : option string;
  reevaluations : Z;
  thermal_state : ThermalState;
  workload_tokens : list Z;
}.

(** [ContextCapacityReevaluator.__init__] *)
Definition new_reevaluator (configured_tokens kv_bytes weights : Z) : res exn ContextCapacityReevaluator :=
  if (Z.min configured_tokens kv_bytes <=? 0) || (weights <? 0)
  then Raise (ValueError "invalid context reevaluation inputs")
  else Ok (mkReevaluator configured_tokens kv_bytes weights None None None 0 TS_UNKNOWN []).

(** [min(self._configured, self._capacity_tokens)], when there is a capacity. *)
Definition base_tokens (r : ContextCapacityReevaluator) : Z :=
  match capacity_tokens r with Some c => Z.min (configured r) c | None => configured r end.

(** The ratios of [_effective_tokens_locked]. *)
Definition ratios (t : ThermalState) : option ((Z * Z) * (Z * Z)) :=
  match t with
  | TS_NOMINAL | TS_UNKNOWN => None
  | TS_FAIR => Some ((7, 8), (3, 4))
  | TS_SERIOUS => Some ((3, 4), (1, 2))
  | TS_CRITICAL => Some ((1, 2), (1, 2))
  end.
Definition maximum (l : list Z) (default : Z) : Z :=
  match l with [] => default | x :: l' => foldl Z.max x l' end.
Definition throttled (base : Z) (ratio : (Z * Z) * (Z * Z)) (workload : list Z) : Z :=
  let upper := base * ratio.1.1 / ratio.1.2 in
  let lower := base * ratio.2.1 / ratio.2.2 in
  let demand := maximum workload upper in
  let target := Z.max lower (Z.min upper ((demand * 5 + 3) / 4)) in
  Z.max 1 (target / 16 * 16).
(** [_effective_tokens_locked] *)
Definition effective_tokens (r : ContextCapacityReevaluator) : Z :=
  match ratios (thermal_state r) with
  | None => base_tokens r
  | Some ratio => throttled (base_tokens r) ratio (workload_tokens r)
  end.

(** [deque(maxlen=64).append] *)
Definition append64 (x : Z) (l : list Z) : list Z := let l := l ++ [x] in drop (length l - 64) l.

(** [observe_workload] *)
Definition observe_workload (tokens : Z) : Py ContextCapacityReevaluator bool := λ r,
  if tokens <=? 0 then (Raise (ValueError "invalid context workload sample"), r)
  else
    let r' := mkReevaluator (configured r) (kv_bytes_per_token r) (weights_bytes r) (capacity r) (capacity_tokens r)
                (source r) (reevaluations r) (thermal_state r)
                (append64 (Z.min tokens (configured r)) (workload_tokens r)) in
    (Ok (negb (effective_tokens r =? effective_tokens r')), r').

(** [update_thermal_state] *)
Definition update_thermal_state (t : ThermalState) : Py ContextCapacityReevaluator bool := λ r,
  if bool_decide (t = thermal_state r) then (Ok false, r)
  else (Ok true, mkReevaluator (configured r) (kv_bytes_per_token r) (weights_bytes r) (capacity r) (capacity_tokens r)
                   (source r) (reevaluations r) t (workload_tokens r)).

(** [update] *)
Definition update (capacity_bytes : Z) (src : string) : Py ContextCapacityReevaluator bool := λ r,
  if (capacity_bytes <? 0) || str_eqb src "" then (Raise (ValueError "invalid backend KV capacity"), r)
  else if bool_decide (capacity r = Some capacity_bytes) && bool_decide (source r = Some src) then (Ok false, r)
  else (Ok true, mkReevaluator (configured r) (kv_bytes_per_token r) (weights_bytes r) (Some capacity_bytes)
                   (Some (capacity_bytes / kv_bytes_per_token r)) (Some src) (reevaluations r + 1)
                   (thermal_state r) (workload_tokens r)).

(** [snapshot] *)
Definition snapshot (r : ContextCapacityReevaluator) : ContextReevaluationSnapshot :=
  let status :=
    match capacity_tokens r with
    | None => "pending"
    | Some c => if effective_tokens r <? base_tokens r then "dynamic_reduced"
                else if c <? configured r then "reduced" else "sufficient"
    end in
  mkSnapshot true status (Some (configured r)) (Some (effective_tokens r)) (capacity_tokens r) (capacity r)
    (Some (kv_bytes_per_token r)) (Some (weights_bytes r)) (source r) (reevaluations r).

Definition disabled_snapshot : ContextReevaluationSnapshot :=
  mkSnapshot false "disabled" None None None None None None None 0.

(** ** Reachable states *)

Inductive op := Observe (tokens : Z) | Heat (t : ThermalState) | Capacity (bytes : Z) (src : string).
Definition run (o : op) (r : ContextCapacityReevaluator) : res exn bool * ContextCapacityReevaluator :=
  match o with
  | Observe n => observe_workload n r
  | Heat t => update_thermal_state t r
  | Capacity b s => update b s r
  end.
Definition step (r r' : ContextCapacityReevaluator) : Prop := ∃ o, r' = (run o r).2.

Record inv (n kv : Z) (r : ContextCapacityReevaluator) : Prop := {
  inv_configured : configured r = n;
  inv_kv : kv_bytes_per_token r = kv;
  inv_positive : 0 < n ∧ 0 < kv;
  inv_capacity : capacity_tokens r = (λ c, c / kv) <$> capacity r;
  inv_capacity_nonneg : ∀ c, capacity r = Some c → 0 <= c;
  inv_samples : (length (workload_tokens r) <= 64)%nat ∧ Forall (λ x, 0 < x <= n) (workload_tokens r);
}.

Lemma new_inv n kv w r : new_reevaluator n kv w = Ok r → inv n kv r.
Proof.
  unfold new_reevaluator. destruct (_ || _) eqn:E; [done|]. intros [= <-]. breflect.
  split; cbn; try done; [lia|]. split; [lia|constructor].
Qed.
Lemma append64_length x l : (length (append64 x l) <= 64)%nat.
Proof. unfold append64. rewrite length_drop. lia. Qed.
Lemma run_inv n kv o r : inv n kv r → inv n kv (run o r).2.
Proof.
  intros [H1 H2 H3 H4 H5 H6]. destruct o as [t|t|b s]; cbn [run].
  - unfold observe_workload. destruct (t <=? 0) eqn:E; [by split|]. breflect. split; cbn; try done.
    split; [apply append64_length|]. unfold append64. apply Forall_drop, Forall_app. split; [apply H6|]. repeat constructor; lia.
  - unfold update_thermal_state. destruct (bool_decide _); by split.
  - unfold update. destruct (_ || _) eqn:E; [by split|]. destruct (_ && _); [by split|]. breflect.
    split; cbn; try done; [by rewrite H2|]. intros c [= <-]. lia.
Qed.
Lemma reevaluator_inv n kv w r0 r : new_reevaluator n kv w = Ok r0 → rtc step r0 r → inv n kv r.
Proof.
  intros Hn Hr. apply (rtc_invariant step (inv n kv) r0 r); [|by eapply new_inv|done].
  intros a b Ha [o ->]. by apply run_inv.
Qed.

Lemma base_range n kv r : inv n kv r → 0 <= base_tokens r <= n.
Proof.
  intros [H1 _ [H3 H3'] H4 H5 _]. unfold base_tokens. rewrite H4, H1. destruct (capacity r) as [c|]; cbn; [|lia].
  pose proof (Z.div_pos c kv (H5 c eq_refl) H3'). lia.
Qed.

Lemma ratios_range t p : ratios t = Some p →
  0 < p.1.1 <= p.1.2 ∧ 0 < p.2.1 <= p.2.2 ∧ ∀ b, 0 <= b → 0 <= b * p.2.1 / p.2.2 <= b * p.1.1 / p.1.2 ∧ b * p.1.1 / p.1.2 <= b.
Proof.
  destruct t; try done; intros [= <-]; cbn [fst snd]; (split; [lia|]); (split; [lia|]);
    intros b Hb; Z.to_euclidean_division_equations; lia.
Qed.

(** Throttling stays between the two ratios of the base, in whole blocks of 16. *)
Lemma throttled_spec t p base w :
  ratios t = Some p → 0 <= base →
  let e := throttled base p w in
  1 <= e ∧ (1 <= base → e <= base) ∧ e <= Z.max 1 (base * p.1.1 / p.1.2) ∧ base * p.2.1 / p.2.2 < e + 16 ∧ (e = 1 ∨ (16 | e)).
Proof.
  intros Hr Hb. destruct (ratios_range t p Hr) as (_ & _ & Hrange). specialize (Hrange base Hb). unfold throttled. cbv zeta.
  set (upper := base * p.1.1 / p.1.2) in *. set (lower := base * p.2.1 / p.2.2) in *.
  set (d := (maximum w upper * 5 + 3) / 4). set (target := Z.max lower (Z.min upper d)).
  assert (lower <= target <= upper) by lia. pose proof (Z.div_mod target 16). pose proof (Z.mod_pos_bound target 16).
  split; [lia|]. split; [lia|]. split; [lia|]. split; [lia|].
  destruct (Z.max_spec 1 (target / 16 * 16)) as [[_ ->]|[_ ->]]; [right; by eexists|by left].
Qed.

(** Hotter is never more. *)
Definition heat (t : ThermalState) : Z :=
  match t with TS_NOMINAL | TS_UNKNOWN => 0 | TS_FAIR => 1 | TS_SERIOUS => 2 | TS_CRITICAL => 3 end.
Definition with_thermal (t : ThermalState) (r : ContextCapacityReevaluator) : ContextCapacityReevaluator := (update_thermal_state t r).2.
Lemma effective_with_thermal t r :
  effective_tokens (with_thermal t r) =
    match ratios t with None => base_tokens r | Some p => throttled (base_tokens r) p (workload_tokens r) end.
Proof. unfold with_thermal, update_thermal_state. destruct (bool_decide _) eqn:E; breflect; [subst|]; done. Qed.

Lemma throttled_monotone t u p q base w :
  heat t <= heat u → ratios t = Some p → ratios u = Some q → 0 <= base →
  throttled base q w <= throttled base p w.
Proof.
  intros Hle Hp Hq Hb.
  assert (Hup : base * q.1.1 / q.1.2 <= base * p.1.1 / p.1.2 ∧ base * q.2.1 / q.2.2 <= base * p.2.1 / p.2.2).
  { destruct t, u; try done; try (cbn in Hle; lia); injection Hp as <-; injection Hq as <-; cbn [fst snd];
      Z.to_euclidean_division_equations; lia. }
  destruct Hup as [Hup Hlow]. unfold throttled. cbv zeta.
  set (u1 := base * q.1.1 / q.1.2) in *. set (u2 := base * p.1.1 / p.1.2) in *.
  set (l1 := base * q.2.1 / q.2.2) in *. set (l2 := base * p.2.1 / p.2.2) in *.
  assert (Hd : Z.max l1 (Z.min u1 ((maximum w u1 * 5 + 3) / 4)) <= Z.max l2 (Z.min u2 ((maximum w u2 * 5 + 3) / 4))).
  { destruct w as [|x w]; cbn [maximum]; [|lia].
    pose proof (Z.div_le_mono (u1 * 5 + 3) (u2 * 5 + 3) 4 ltac:(lia) ltac:(lia)). lia. }
  apply Z.max_le_compat_l, Z.mul_le_mono_nonneg_r; [lia|]. by apply Z.div_le_mono.
Qed.

(** The context admitted is bounded and monotone.  In every reachable state the
    effective context lies between nothing and the configured context and, when any
    context fits, within the capacity sampled; without heat it is exactly the
    smaller of the two, and under heat a multiple of 16 (or 1) between the two ratios
    of it; a hotter machine never gets more; the workload window holds at most 64
    samples; and [observe_workload] reports exactly a change of the effective
    context. *)
Theorem reevaluation_bounded n kv w r0 r :
  new_reevaluator n kv w = Ok r0 → rtc step r0 r →
  (1 <= base_tokens r → 0 < effective_tokens r <= base_tokens r) ∧ 0 <= effective_tokens r <= n ∧
  (∀ c, capacity r = Some c → base_tokens r * kv <= c) ∧ (length (workload_tokens r) <= 64)%nat ∧
  match ratios (thermal_state r) with
  | None => effective_tokens r = base_tokens r
  | Some p => base_tokens r * p.2.1 / p.2.2 < effective_tokens r + 16 ∧
              effective_tokens r <= Z.max 1 (base_tokens r * p.1.1 / p.1.2) ∧
              (effective_tokens r = 1 ∨ (16 | effective_tokens r))
  end ∧
  (∀ t u, heat t <= heat u → 1 <= base_tokens r →
     effective_tokens (with_thermal u r) <= effective_tokens (with_thermal t r)) ∧
  (∀ tokens, (observe_workload tokens r).1 = Ok false → effective_tokens (observe_workload tokens r).2 = effective_tokens r).
Proof.
  intros Hn Hr. pose proof (reevaluator_inv _ _ _ _ _ Hn Hr) as Hinv. pose proof (base_range _ _ _ Hinv) as Hb.
  pose proof Hinv as [H1 _ [H3 H3'] H4 H5 [H6 _]].
  assert (Heff : match ratios (thermal_state r) with
    | None => effective_tokens r = base_tokens r
    | Some p => effective_tokens r = throttled (base_tokens r) p (workload_tokens r)
    end) by (unfold effective_tokens; by destruct (ratios _)).
  split_and!.
  - intros Hpos. destruct (ratios (thermal_state r)) as [p|] eqn:Ep; [|lia].
    destruct (throttled_spec _ _ (base_tokens r) (workload_tokens r) Ep ltac:(lia)) as (? & ? & _). lia.
  - destruct (ratios (thermal_state r)) as [p|] eqn:Ep; [|lia].
    destruct (throttled_spec _ _ (base_tokens r) (workload_tokens r) Ep ltac:(lia)) as (? & ? & _). lia.
  - destruct (ratios (thermal_state r)) as [p|] eqn:Ep; [|lia].
    destruct (throttled_spec _ _ (base_tokens r) (workload_tokens r) Ep ltac:(lia)) as (? & Hle & Hle' & _ & _).
    assert (base_tokens r * p.1.1 / p.1.2 <= base_tokens r) by (apply (ratios_range _ _ Ep); lia). lia.
  - intros c Hc. unfold base_tokens. rewrite H4, Hc. cbn. pose proof (Z.mul_div_le c kv H3'). nia.
  - done.
  - destruct (ratios (thermal_state r)) as [p|] eqn:Ep; [|done]. rewrite Heff.
    destruct (throttled_spec _ _ (base_tokens r) (workload_tokens r) Ep ltac:(lia)) as (_ & _ & ? & ? & ?). done.
  - intros t u Htu Hpos. rewrite !effective_with_thermal.
    destruct (ratios t) as [p|] eqn:Ep, (ratios u) as [q|] eqn:Eq; try lia.
    + eapply throttled_monotone; [exact Htu|done..|lia].
    + destruct t, u; cbn in *; done || lia.
    + destruct (throttled_spec _ _ (base_tokens r) (workload_tokens r) Eq ltac:(lia)) as (_ & ? & _). lia.
  - intros tokens. unfold observe_workload. destruct (tokens <=? 0); [done|]. intros [= Heq]. breflect. cbn. congruence.
Qed.

(** ** No capacity

    When the sampled capacity holds no token, a cool machine admits none, and a warm
    one admits one. *)
Definition demo_new : ContextCapacityReevaluator := mkReevaluator 4096 100 0 None None None 0 TS_UNKNOWN [].
Definition demo_full : ContextCapacityReevaluator := (update 99 "mlx" demo_new).2.
Lemma heat_exceeds_empty_capacity :
  capacity_tokens demo_full = Some 0 ∧ effective_tokens demo_full = 0 ∧ effective_tokens (with_thermal TS_FAIR demo_full) = 1.
Proof. done. Qed.

(** ** Witness *)

Definition demo_hot : ContextCapacityReevaluator := (update_thermal_state TS_SERIOUS demo_new).2.
Lemma reevaluation_bounded_witness :
  effective_tokens demo_hot = 3072 ∧ effective_tokens (with_thermal TS_CRITICAL demo_hot) <= effective_tokens demo_hot.
Proof.
  assert (Hr : rtc step demo_new demo_hot) by (apply rtc_once; by exists (Heat TS_SERIOUS)).
  destruct (reevaluation_bounded 4096 100 0 demo_new demo_hot eq_refl Hr) as (_ & _ & _ & _ & _ & Hm & _).
  split; [reflexivity|]. exact (Hm TS_SERIOUS TS_CRITICAL ltac:(done) ltac:(done)).
Defined.

End ContextReevaluation.
