(* ===== verification/MultiMac.v ===== *)
(** * Plans over several machines (multi_mac.py)

    Stages of a computation are placed, one after the other in an order that respects
    their dependencies, on the healthy nodes of a fabric: each on the node that has its
    modality, enough memory left and links from the nodes of its dependencies, at the
    least transfer cost.  [plan_id] is the SHA-256 digest of a JSON text, and the order
    in which a set is traversed is the interpreter's: both are parameters. *)

From S2P Require Import Prelude Types PySort DependencyOrder.

Module MultiMac.
Import PySort DependencyOrder.

Definition MAX_FABRIC_NODES : Z := 64.
Definition MAX_FABRIC_LINKS : Z := 2016.
Definition MAX_FABRIC_STAGES : Z := 1024.
Definition MAX_STATE_SHARDS : Z := 4096.
Definition INT64_MAX : Z := 2 ^ 63 - 1.

Inductive FabricTransport := THUNDERBOLT | ETHERNET.
Inductive StageKind := PIPELINE | MODALITY.
Definition FabricTransport_value (t : FabricTransport) : string :=
  match t with THUNDERBOLT => "thunderbolt" | ETHERNET => "ethernet" end.

Record FabricNode := mkNode {
  node_id : string;
  memory_capacity_bytes : Z;
  modalities : list string;
  healthy : bool;
}.
Record FabricLink := mkLink {
  source : string;
  destination : string;
  transport : FabricTransport;
  bandwidth_bytes_per_second : Z;
  latency_microseconds : Z;
  mtu_bytes : Z;
  authenticated : bool;
  measurement_id : string;
}.
Record FabricStage := mkStage {
  stage_id : string;
  kind : StageKind;
  required_modality : string;
  resident_bytes : Z;
  output_bytes : Z;
  dependencies : list string;
  checkpointable : bool;
}.
Record DistributedStateShard := mkShard {
  shard_id : string;
  digest : string;
  size_bytes : Z;
  replica_nodes : list string;
}.
Record StagePlacement := mkPlacement {
  placed_stage : string;
  placed_node : string;
  reserved_bytes : Z;
}.
Record FabricTransfer := mkTransfer {
  source_stage : string;
  destination_stage : string;
  source_node : string;
  destination_node : string;
  transfer_transport : FabricTransport;
  bytes : Z;
  estimated_microseconds : Z;
  transfer_measurement_id : string;
}.
Record MultiMacExecutionPlan := mkPlan {
  plan_id : string;
  placements : list StagePlacement;
  transfers : list FabricTransfer;
  state_sources : list (string * string);
  failed_nodes : list string;
}.

(** ** Checks of the data *)

(** The first check that fails. *)
Definition checks (l : list (res exn ())) : res exn () := fold_res (λ _ r, r) l ().

Definition visible (c : Ascii.ascii) : bool :=
  let n := Z.of_nat (Ascii.nat_of_ascii c) in negb ((n <? 33) || (n >? 126)).
(** [_identifier] *)
Definition identifier (value label : string) : res exn () :=
  check ((1 <=? str_len value) && (str_len value <=? 128) && forallb visible (String.list_ascii_of_string value))
    (ValueError ("invalid fabric " +:+ label +:+ " identifier")) ().

(** [FabricNode.__post_init__] *)
Definition node_check (n : FabricNode) : res exn () :=
  checks ([identifier (node_id n) "node";
           check ((0 <? memory_capacity_bytes n) && (memory_capacity_bytes n <=? INT64_MAX))
             (ValueError "invalid fabric node memory capacity") ();
           check (negb (bool_decide (modalities n = []) || (Zlen (modalities n) >? 16)
                        || negb (bool_decide (NoDup (modalities n)))))
             (ValueError "invalid fabric node modalities") ()]
          ++ ((λ m, identifier m "modality") <$> modalities n)).

(** [FabricLink.__post_init__] *)
Definition link_check (l : FabricLink) : res exn () :=
  checks [identifier (source l) "link source"; identifier (destination l) "link destination";
          identifier (measurement_id l) "measurement";
          check (negb (str_eqb (source l) (destination l))) (ValueError "invalid fabric link identity") ();
          check ((0 <? bandwidth_bytes_per_second l) && (bandwidth_bytes_per_second l <=? INT64_MAX)
                 && (0 <? latency_microseconds l) && (latency_microseconds l <=? 60000000)
                 && (576 <=? mtu_bytes l) && (mtu_bytes l <=? 1048576) && authenticated l)
            (ValueError "fabric link is not qualified") ()].

(** [FabricStage.__post_init__] *)
Definition stage_check (s : FabricStage) : res exn () :=
  checks ([identifier (stage_id s) "stage"; identifier (required_modality s) "stage modality";
           check ((0 <? resident_bytes s) && (resident_bytes s <=? INT64_MAX)
                  && (0 <=? output_bytes s) && (output_bytes s <=? INT64_MAX)
                  && (Zlen (dependencies s) <=? MAX_FABRIC_STAGES)
                  && bool_decide (NoDup (dependencies s)) && bool_decide (stage_id s ∉ dependencies s))
             (ValueError "invalid fabric stage resources or dependencies") ()]
          ++ ((λ d, identifier d "stage dependency") <$> dependencies s)).

Definition hex_digit (c : Ascii.ascii) : bool :=
  let n := Z.of_nat (Ascii.nat_of_ascii c) in ((48 <=? n) && (n <=? 57)) || ((97 <=? n) && (n <=? 102)).
(** [DistributedStateShard.__post_init__] *)
Definition shard_check (s : DistributedStateShard) : res exn () :=
  checks ([identifier (shard_id s) "state shard";
           check ((str_len (digest s) =? 64) && forallb hex_digit (String.list_ascii_of_string (digest s))
                  && (0 <? size_bytes s) && (size_bytes s <=? INT64_MAX)
                  && negb (bool_decide (replica_nodes s = [])) && (Zlen (replica_nodes s) <=? MAX_FABRIC_NODES)
                  && bool_decide (NoDup (replica_nodes s)))
             (ValueError "invalid distributed state shard") ()]
          ++ ((λ n, identifier n "state replica node") <$> replica_nodes s)).

(** ** Costs and order *)

(** [_link_cost], with the division rounded up. *)
Definition link_cost (l : FabricLink) (payload : Z) : Z :=
  latency_microseconds l
  + (payload * 1000000 + bandwidth_bytes_per_second l - 1) / bandwidth_bytes_per_second l.

(** [{key(value): value for value in l}] *)
Definition dict_of `{Countable K} {A} (key : A → K) (l : list A) : gmap K A := foldl (λ m a, <[key a := a]> m) ∅ l.
(** [{stage.stage_id: stage for stage in stages}] *)
Definition stages_by_id (stages : list FabricStage) : gmap string FabricStage := dict_of stage_id stages.

(** [ready] of [_topological_stages] *)
Definition is_ready (by_id : gmap string FabricStage) (pending : gset string) (i : string) : bool :=
  match by_id !! i with
  | Some s => forallb (λ d, bool_decide (d ∉ pending)) (dependencies s)
  | None => false
  end.
Definition ready_stages (by_id : gmap string FabricStage) (pending : gset string) : list string :=
  sorted_by String.leb (filter (λ i, is_ready by_id pending i = true) (elements pending)).
(** [while pending: ...] with at most [fuel] rounds. *)
Fixpoint topo_loop (fuel : nat) (by_id : gmap string FabricStage) (pending : gset string)
    (ordered : list FabricStage) : res exn (list FabricStage) :=
  if bool_decide (pending = ∅) then Ok ordered
  else match fuel with
  | O => Raise AssertionError
  | S fuel' =>
      match ready_stages by_id pending with
      | [] => Raise (ValueError "fabric stage graph contains a cycle")
      | ready => topo_loop fuel' by_id (pending ∖ list_to_set ready) (ordered ++ omap (λ i, by_id !! i) ready)
      end
  end.
(** [_topological_stages]; a round per stage suffices. *)
Definition topological_stages (stages : list FabricStage) : res exn (list FabricStage) :=
  let by_id := stages_by_id stages in
  if existsb (λ s, existsb (λ d, is_none (by_id !! d)) (dependencies s)) stages
  then Raise (ValueError "fabric stage references an unknown dependency")
  else topo_loop (length stages) by_id (dom by_id) [].

(** ** Planning *)

Abbreviation LinkTable := (gmap (string * string) FabricLink).
(** One turn of [for pair in ...]: a cheaper link, for one byte, replaces. *)
Definition put_link (l : FabricLink) (pair : string * string) (m : LinkTable) : LinkTable :=
  match m !! pair with
  | Some current => if link_cost l 1 <? link_cost current 1 then <[pair := l]> m else m
  | None => <[pair := l]> m
  end.
(** [for link in links: ...] *)
Definition link_table (ids : list string) (links : list FabricLink) : res exn LinkTable :=
  fold_res (λ m l,
    if bool_decide (source l ∉ ids) || bool_decide (destination l ∉ ids)
    then Raise (ValueError "fabric link references an unknown node")
    else Ok (put_link l (destination l, source l) (put_link l (source l, destination l) m))) links ∅.

(** The ids of the nodes that are down, sorted. *)
Definition failed_of (nodes : list FabricNode) : list string :=
  sorted_by String.leb (node_id <$> filter (λ n, healthy n = false) nodes).

(** The least healthy replica of one shard. *)
Definition shard_source (nodes : list FabricNode) (s : DistributedStateShard) : res exn (string * string) :=
  if existsb (λ r, bool_decide (r ∉ node_id <$> nodes)) (replica_nodes s)
  then Raise (ValueError "state shard references an unknown node")
  else match sorted_by String.leb
               (filter (λ r, r ∈ node_id <$> filter (λ n, healthy n = true) nodes) (replica_nodes s)) with
  | [] => Raise (RuntimeError "distributed state has no healthy replica")
  | r :: _ => Ok (shard_id s, r)
  end.
Definition sources_of (nodes : list FabricNode) (shards : list DistributedStateShard) : res exn (list (string * string)) :=
  map_res (shard_source nodes) (sorted_by (λ a b, String.leb (shard_id a) (shard_id b)) shards).

(** [next(value for value in ordered if value.stage_id == dependency_id)] *)
Definition find_stage (ordered : list FabricStage) (d : string) : res exn FabricStage :=
  match List.find (λ s, str_eqb (stage_id s) d) ordered with Some s => Ok s | None => Raise StopIteration end.

(** The loop over the dependencies of a stage for one candidate node: [None] when it is
    not feasible. *)
Fixpoint transfer_cost (links : LinkTable) (placed : gmap string StagePlacement) (ordered : list FabricStage)
    (node : string) (deps : list string) (cost : Z) : res exn (option Z) :=
  match deps with
  | [] => Ok (Some cost)
  | d :: deps' =>
      match placed !! d with
      | None => Raise (KeyError d)
      | Some p =>
          if str_eqb (placed_node p) node then transfer_cost links placed ordered node deps' cost
          else match links !! (placed_node p, node) with
          | None => Ok None
          | Some l =>
              match find_stage ordered d with
              | Raise e => Raise e
              | Ok s => transfer_cost links placed ordered node deps' (cost + link_cost l (output_bytes s))
              end
          end
      end
  end.

Record PlanState := mkState {
  remaining : gmap string Z;
  placed : gmap string StagePlacement;
  placed_list : list StagePlacement;
  transfer_list : list FabricTransfer;
}.

Definition Candidate : Type := Z * Z * string.
(** One turn of the loop over the healthy nodes. *)
Definition candidate_of (links : LinkTable) (ordered : list FabricStage) (st : PlanState) (s : FabricStage)
    (n : FabricNode) : res exn (option Candidate) :=
  match remaining st !! node_id n with
  | None => Raise (KeyError (node_id n))
  | Some left_bytes =>
      if bool_decide (required_modality s ∉ modalities n) || (left_bytes <? resident_bytes s) then Ok None
      else match transfer_cost links (placed st) ordered (node_id n) (dependencies s) 0 with
      | Raise e => Raise e
      | Ok None => Ok None
      | Ok (Some c) => Ok (Some (c, memory_capacity_bytes n - left_bytes, node_id n))
      end
  end.
(** Tuples compare lexicographically. *)
Definition candidate_ltb (a b : Candidate) : bool :=
  let '(c, u, i) := a in let '(c', u', i') := b in
  (c <? c') || ((c =? c') && ((u <? u') || ((u =? u') && String.ltb i i'))).
Definition minimum (x : Candidate) (l : list Candidate) : Candidate :=
  foldl (λ m c, if candidate_ltb c m then c else m) x l.

(** The transfers a placed stage needs. *)
Fixpoint add_transfers (links : LinkTable) (placed : gmap string StagePlacement) (ordered : list FabricStage)
    (s : FabricStage) (node : string) (deps : list string) (acc : list FabricTransfer) : res exn (list FabricTransfer) :=
  match deps with
  | [] => Ok acc
  | d :: deps' =>
      match placed !! d with
      | None => Raise (KeyError d)
      | Some p =>
          if str_eqb (placed_node p) node then add_transfers links placed ordered s node deps' acc
          else match links !! (placed_node p, node) with
          | None => Raise (KeyError (placed_node p))
          | Some l =>
              match find_stage ordered d with
              | Raise e => Raise e
              | Ok ds =>
                  add_transfers links placed ordered s node deps'
                    (acc ++ [mkTransfer d (stage_id s) (placed_node p) node (transport l) (output_bytes ds)
                               (link_cost l (output_bytes ds)) (measurement_id l)])
              end
          end
      end
  end.

(** One turn of [for stage in ordered: ...]. *)
Definition place_stage (links : LinkTable) (ordered : list FabricStage) (up : list FabricNode)
    (st : PlanState) (s : FabricStage) : res exn PlanState :=
  match map_res (candidate_of links ordered st s) up with
  | Raise e => Raise e
  | Ok cs =>
      match omap id cs with
      | [] => Raise (RuntimeError ("no qualified node can host stage " +:+ stage_id s))
      | c :: cs' =>
          let node := (minimum c cs').2 in
          let p := mkPlacement (stage_id s) node (resident_bytes s) in
          let placed' := <[stage_id s := p]> (placed st) in
          match add_transfers links placed' ordered s node (dependencies s) (transfer_list st) with
          | Raise e => Raise e
          | Ok ts => Ok (mkState (alter (λ r, r - resident_bytes s) node (remaining st)) placed'
                           (placed_list st ++ [p]) ts)
          end
      end
  end.

Section build.
(** The traversal of a set of strings, and the digest of the plan's identity. *)
Variable set_order : gset string → list string.
Variable plan_digest : list FabricNode → list FabricLink → list FabricStage → list StagePlacement →
  list (string * string) → list string → string.

(** The check against the plan that was running when nodes failed. *)
Definition check_previous (stages : list FabricStage) (failed : list string) (previous : option MultiMacExecutionPlan) : res exn () :=
  match previous with
  | None => Ok ()
  | Some p =>
      if bool_decide (failed = []) then Ok ()
      else fold_res (λ _ i,
             match stages_by_id stages !! i with
             | None => Raise (KeyError i)
             | Some s => check (checkpointable s) (RuntimeError "failed node owned a non-checkpointable stage") ()
             end)
             (set_order (list_to_set (placed_stage <$> filter (λ q, placed_node q ∈ failed) (placements p)))) ()
  end.

Definition link_leb (a b : FabricLink) : bool :=
  match String.compare (source a) (source b) with
  | Lt => true | Gt => false
  | Eq => match String.compare (destination a) (destination b) with
          | Lt => true | Gt => false
          | Eq => String.leb (FabricTransport_value (transport a)) (FabricTransport_value (transport b))
          end
  end.

(** [build_multi_mac_plan] *)
Definition build_multi_mac_plan (nodes : list FabricNode) (links : list FabricLink) (stages : list FabricStage)
    (shards : list DistributedStateShard) (previous : option MultiMacExecutionPlan) : res exn MultiMacExecutionPlan :=
  match checks [check ((1 <=? Zlen nodes) && (Zlen nodes <=? MAX_FABRIC_NODES) && bool_decide (NoDup (node_id <$> nodes)))
                  (ValueError "invalid fabric node set") ();
                check (Zlen links <=? MAX_FABRIC_LINKS) (ValueError "invalid fabric link set") ();
                check ((1 <=? Zlen stages) && (Zlen stages <=? MAX_FABRIC_STAGES)) (ValueError "invalid fabric stage set") ();
                check (bool_decide (NoDup (stage_id <$> stages))) (ValueError "duplicate fabric stage") ();
                check (Zlen shards <=? MAX_STATE_SHARDS) (ValueError "too many distributed state shards") ();
                check (existsb healthy nodes) (RuntimeError "no healthy fabric nodes") ()] with
  | Raise e => Raise e
  | Ok _ =>
  match link_table (node_id <$> nodes) links with
  | Raise e => Raise e
  | Ok table =>
  match topological_stages stages with
  | Raise e => Raise e
  | Ok ordered =>
  let failed := failed_of nodes in
  match check_previous stages failed previous with
  | Raise e => Raise e
  | Ok _ =>
  match sources_of nodes shards with
  | Raise e => Raise e
  | Ok sources =>
  let up := filter (λ n, healthy n = true) nodes in
  match fold_res (place_stage table ordered up)
          ordered (mkState (list_to_map ((λ n, (node_id n, memory_capacity_bytes n)) <$> up)) ∅ [] []) with
  | Raise e => Raise e
  | Ok st =>
      Ok (mkPlan (plan_digest (sorted_by (λ a b, String.leb (node_id a) (node_id b)) nodes) (sorted_by link_leb links)
                    ordered (placed_list st) sources failed)
            (placed_list st) (transfer_list st) sources failed)
  end end end end end end.
End build.


(** ** The topological order *)

Abbreviation stage_edges_before := (deps_before stage_id dependencies).
Abbreviation stage_acyclic := (acyclic stage_id dependencies).

Lemma dict_of_lookup `{Countable K} {A} (key : A → K) (l : list A) k a :
  NoDup (key <$> l) → dict_of key l !! k = Some a ↔ a ∈ l ∧ key a = k.
Proof.
  unfold dict_of. revert k a. induction l as [|x l IH] using rev_ind; intros k a Hnd.
  { cbn. rewrite lookup_empty. split; [done|]. intros [Ha _]. by apply elem_of_nil in Ha. }
  rewrite foldl_snoc. rewrite fmap_app in Hnd. apply NoDup_app in Hnd as (Hnd & Hx & _).
  specialize (Hx (key x)). rewrite elem_of_app, list_elem_of_singleton.
  destruct (decide (k = key x)) as [->|Hne].
  - rewrite lookup_insert_eq. split; [intros [= <-]; auto|]. intros [[Ha| ->] Heq]; [|done].
    exfalso. apply Hx; [|cbn; left]. rewrite <-Heq. by apply (list_elem_of_fmap_2 key).
  - rewrite lookup_insert_ne by done. rewrite IH by done. split; [tauto|]. intros [[Ha| ->] Heq]; [done|congruence].
Qed.
Lemma by_id_lookup stages i s :
  NoDup (stage_id <$> stages) → stages_by_id stages !! i = Some s ↔ s ∈ stages ∧ stage_id s = i.
Proof. apply dict_of_lookup. Qed.
Lemma by_id_dom stages : NoDup (stage_id <$> stages) → elements (dom (stages_by_id stages)) ≡ₚ stage_id <$> stages.
Proof.
  intros Hnd. apply NoDup_Permutation; [apply NoDup_elements|done|]. intros i.
  rewrite elem_of_elements, elem_of_dom, list_elem_of_fmap. split.
  - intros [s Hs]. apply by_id_lookup in Hs as [Hs <-]; [|done]. by exists s.
  - intros (s & -> & Hs). exists s. by apply by_id_lookup.
Qed.

Lemma ready_spec stages pending i :
  NoDup (stage_id <$> stages) →
  i ∈ ready_stages (stages_by_id stages) pending ↔
    i ∈ pending ∧ ∃ s, s ∈ stages ∧ stage_id s = i ∧ ∀ d, d ∈ dependencies s → d ∉ pending.
Proof.
  intros Hnd. unfold ready_stages. rewrite elem_of_sorted_by, list_elem_of_filter, elem_of_elements. unfold is_ready.
  split.
  - intros [Hr Hi]. split; [done|]. destruct (stages_by_id stages !! i) as [s|] eqn:Es; [|done].
    apply by_id_lookup in Es as [Hs Hid]; [|done]. exists s. split_and!; [done|done|]. intros d Hd.
    apply list_elem_of_In in Hd. rewrite forallb_forall in Hr. by apply Hr, bool_decide_eq_true in Hd.
  - intros (Hi & s & Hs & Hid & Hd). split; [|done].
    assert (stages_by_id stages !! i = Some s) as -> by by apply by_id_lookup.
    apply forallb_forall. intros d Hin. apply bool_decide_eq_true, Hd. by apply list_elem_of_In.
Qed.

(** The stages of a list of ids. *)
Lemma omap_by_id stages (ids : list string) :
  NoDup (stage_id <$> stages) → (∀ i, i ∈ ids → i ∈ stage_id <$> stages) →
  let l := omap (λ i, stages_by_id stages !! i) ids in
  stage_id <$> l = ids ∧ ∀ s, s ∈ l → s ∈ stages.
Proof.
  intros Hnd. cbv zeta. induction ids as [|i ids IH]; intros Hin; cbn; [split; [done|intros s Hs; by apply elem_of_nil in Hs]|].
  destruct IH as [IH1 IH2]; [intros j Hj; apply Hin; by right|].
  pose proof (Hin i ltac:(left)) as (s & -> & Hs)%list_elem_of_fmap.
  assert (stages_by_id stages !! stage_id s = Some s) as -> by by apply by_id_lookup. cbn. rewrite IH1.
  split; [done|]. intros x [->|Hx]%elem_of_cons; auto.
Qed.

Lemma stage_order_spec stages fuel : ∀ pending ordered,
  NoDup (stage_id <$> stages) → closed stage_id dependencies stages →
  rounds stage_id dependencies stages ordered (elements pending) → (size pending <= fuel)%nat →
  match topo_loop fuel (stages_by_id stages) pending ordered with
  | Ok l => l ≡ₚ stages ∧ stage_edges_before l
  | Raise e => e = ValueError "fabric stage graph contains a cycle" ∧ ¬ stage_acyclic stages
  end.
Proof.
  induction fuel as [|fuel IH]; intros pending ordered Hnd Hc Hr Hf; cbn [topo_loop];
    destruct (bool_decide (pending = ∅)) eqn:Ep; breflect;
    try (subst; rewrite elements_empty in Hr; split; [by eapply rounds_done|by apply (rounds_before _ _ _ _ _ Hr)]).
  { exfalso. apply Ep, leibniz_equiv, size_empty_iff. lia. }
  destruct (ready_stages (stages_by_id stages) pending) as [|i0 ready] eqn:Er.
  { split; [done|]. apply (rounds_stuck _ _ _ _ _ Hc Hr).
    - intros Hel. apply Ep, leibniz_equiv. by apply elements_empty_iff.
    - intros s Hs Hp. rewrite elem_of_elements in Hp.
      destruct (decide (Exists (λ d, d ∈ pending) (dependencies s))) as [He|Hn].
      + apply Exists_exists in He as (d & Hd & Hdp). exists d. split; [done|]. intros Ho.
        by apply (rounds_disjoint _ _ _ _ _ _ Hnd Hr Ho), elem_of_elements.
      + exfalso. apply (not_elem_of_nil (stage_id s)). rewrite <-Er. apply ready_spec; [done|]. split; [done|].
        exists s. split_and!; [done|done|]. intros d Hd Hdp. apply Hn, Exists_exists. by exists d. }
  set (r := ready_stages (stages_by_id stages) pending) in *.
  assert (Hin : ∀ i, i ∈ r → i ∈ pending) by (intros i Hi; by apply ready_spec in Hi as [? _]).
  destruct (omap_by_id stages r Hnd) as [Hids Hsub].
  { intros i Hi. apply ready_spec in Hi as (_ & s & Hs & <- & _); [|done]. by apply (list_elem_of_fmap_2 stage_id). }
  assert (Hr' : rounds stage_id dependencies stages (ordered ++ omap (λ i, stages_by_id stages !! i) r)
                  (elements (pending ∖ list_to_set r))).
  { eapply rounds_step; [exact Hr|done| |].
    - rewrite Hids. apply NoDup_Permutation; [|apply NoDup_elements|].
      + apply NoDup_app. split_and!; [|intros i Hi; rewrite elem_of_elements, elem_of_difference, elem_of_list_to_set; tauto|apply NoDup_elements].
        subst r. unfold ready_stages. rewrite sorted_by_Permutation. apply NoDup_filter, NoDup_elements.
      + intros i. rewrite elem_of_app, !elem_of_elements, elem_of_difference, elem_of_list_to_set.
        destruct (decide (i ∈ r)); naive_solver.
    - intros s d Hs Hd. assert (Hi : stage_id s ∈ r) by (rewrite <-Hids; by apply (list_elem_of_fmap_2 stage_id)).
      apply ready_spec in Hi as (_ & s' & Hs' & Heq & Hd'); [|done].
      rewrite (name_inj stage_id stages s' s) in Hd' by auto.
      eapply rounds_ordered; [exact Hr|by eapply Hc; [apply Hsub|]|]. rewrite elem_of_elements. by apply Hd'. }
  specialize (IH _ _ Hnd Hc Hr'). rewrite Er in IH. apply IH.
  assert (i0 ∈ pending) by (apply Hin; rewrite Er; left).
  assert ((pending ∖ list_to_set (i0 :: ready) : gset string) ⊂ pending) as Hss by set_solver.
  apply subset_size in Hss. lia.
Qed.

Lemma topological_spec stages :
  NoDup (stage_id <$> stages) →
  match topological_stages stages with
  | Ok l => l ≡ₚ stages ∧ stage_edges_before l
  | Raise e => ¬ closed stage_id dependencies stages ∨ ¬ stage_acyclic stages
  end.
Proof.
  intros Hnd. unfold topological_stages. destruct (existsb _ stages) eqn:E.
  - left. intros Hc. apply existsb_exists in E as (s & Hs & E). apply existsb_exists in E as (d & Hd & E).
    apply list_elem_of_In in Hs, Hd. pose proof (Hc s d Hs Hd) as (x & -> & Hx)%list_elem_of_fmap.
    assert (stages_by_id stages !! stage_id x = Some x) as Hl by by apply by_id_lookup. by rewrite Hl in E.
  - assert (Hc : closed stage_id dependencies stages).
    { intros s d Hs Hd. destruct (stages_by_id stages !! d) as [x|] eqn:Ed.
      - apply by_id_lookup in Ed as [Hx <-]; [|done]. by apply (list_elem_of_fmap_2 stage_id).
      - exfalso. rewrite <-not_true_iff_false in E. apply E, existsb_exists. exists s. split; [by apply list_elem_of_In|].
        apply existsb_exists. exists d. split; [by apply list_elem_of_In|]. by rewrite Ed. }
    pose proof (by_id_dom stages Hnd) as Hdom.
    pose proof (stage_order_spec stages (length stages) (dom (stages_by_id stages)) [] Hnd Hc) as H.
    destruct (topo_loop _ _ _ _); [apply H|right; apply H];
      try (unfold size, set_size; cbn; rewrite Hdom, length_fmap; lia);
      (destruct (rounds_init stage_id dependencies stages) as [H1 H2 H3]; split; [by rewrite Hdom|done|done]).
Qed.

(** ** The links used *)

Definition connects (l : FabricLink) (a b : string) : Prop :=
  (source l = a ∧ destination l = b) ∨ (source l = b ∧ destination l = a).
#[export] Instance connects_dec l a b : Decision (connects l a b).
Proof. unfold connects. apply _. Defined.

(** The first of the links between two nodes that cost least for one byte. *)
Definition best_link (links : list FabricLink) (a b : string) (l : FabricLink) : Prop :=
  connects l a b ∧ ∃ pre post, links = pre ++ l :: post ∧
    (∀ l', l' ∈ pre → connects l' a b → link_cost l 1 < link_cost l' 1) ∧
    (∀ l', l' ∈ post → connects l' a b → link_cost l 1 <= link_cost l' 1).

Lemma best_link_unique links a b l l' : best_link links a b l → best_link links a b l' → l = l'.
Proof.
  intros (Hc & pre & post & -> & H1 & H2) (Hc' & pre' & post' & Heq & H1' & H2').
  apply app_eq_inv in Heq as [([|x k] & -> & Heq)|([|x k] & -> & Heq)]; cbn in Heq; simplify_eq; try done.
  - specialize (H1 x ltac:(set_solver) Hc'). specialize (H2' l ltac:(set_solver) Hc). lia.
  - specialize (H1' x ltac:(set_solver) Hc). specialize (H2 l' ltac:(set_solver) Hc'). lia.
Qed.

Definition table_for (links : list FabricLink) (m : LinkTable) : Prop :=
  ∀ a b, match m !! (a, b) with
         | Some l => best_link links a b l
         | None => ∀ l, l ∈ links → ¬ connects l a b
         end.

Definition better (l : FabricLink) (o : option FabricLink) : FabricLink :=
  match o with Some c => if link_cost l 1 <? link_cost c 1 then l else c | None => l end.
Lemma lookup_put_link l p m q : put_link l p m !! q = if decide (p = q) then Some (better l (m !! p)) else m !! q.
Proof.
  unfold put_link, better. destruct (decide (p = q)) as [<-|Hne].
  - destruct (m !! p) as [c|] eqn:E; [destruct (_ <? _)|]; by rewrite ?lookup_insert_eq, ?E.
  - destruct (m !! p) as [c|]; [destruct (_ <? _)|]; by rewrite ?lookup_insert_ne.
Qed.
Lemma lookup_put_both l m a b :
  put_link l (destination l, source l) (put_link l (source l, destination l) m) !! (a, b) =
    if decide (connects l a b) then Some (better l (m !! (a, b))) else m !! (a, b).
Proof.
  assert (Hiff : connects l a b ↔ (source l, destination l) = (a, b) ∨ (destination l, source l) = (a, b)).
  { unfold connects. rewrite !pair_equal_spec. tauto. }
  rewrite (decide_ext _ _ _ _ Hiff), !lookup_put_link.
  destruct (decide ((destination l, source l) = (a, b))) as [E|E].
  - rewrite (decide_True (P := _ ∨ _)) by auto. f_equal. rewrite E.
    destruct (decide ((source l, destination l) = (a, b))) as [E'|]; [|done]. rewrite E'. unfold better.
    destruct (m !! (a, b)) as [c|]; [|by rewrite Z.ltb_irrefl].
    destruct (link_cost l 1 <? link_cost c 1) eqn:Ec; [by rewrite Z.ltb_irrefl|by rewrite Ec].
  - destruct (decide ((source l, destination l) = (a, b))) as [E'|E'].
    + rewrite (decide_True (P := _ ∨ _)) by auto. by rewrite E'.
    + rewrite (decide_False (P := _ ∨ _)) by tauto. done.
Qed.
Lemma table_step links m l :
  table_for links m → table_for (links ++ [l]) (put_link l (destination l, source l) (put_link l (source l, destination l) m)).
Proof.
  intros Hm a b. specialize (Hm a b). rewrite lookup_put_both. destruct (decide (connects l a b)) as [Hc|Hc].
  - unfold better. destruct (m !! (a, b)) as [c|] eqn:E; [destruct (Z.ltb_spec (link_cost l 1) (link_cost c 1))|].
    + destruct Hm as (Hcc & pre & post & -> & H1 & H2). split; [done|]. exists (pre ++ c :: post), []. split_and!; [done| |set_solver].
      intros l' [Hl| [->|Hl]%elem_of_cons]%elem_of_app Hcl; [specialize (H1 l' Hl Hcl); lia|lia|specialize (H2 l' Hl Hcl); lia].
    + destruct Hm as (Hcc & pre & post & -> & H1 & H2). split; [done|]. exists pre, (post ++ [l]).
      split_and!; [by rewrite <-app_assoc|done|]. intros l' [Hl| ->%list_elem_of_singleton]%elem_of_app Hcl; [by apply H2|lia].
    + split; [done|]. exists links, []. split_and!; [done| |set_solver]. intros l' Hl Hcl. by destruct (Hm l' Hl).
  - destruct (m !! (a, b)) as [c|] eqn:E.
    + destruct Hm as (Hcc & pre & post & -> & H1 & H2). split; [done|]. exists pre, (post ++ [l]).
      split_and!; [by rewrite <-app_assoc|done|]. intros l' [Hl| ->%list_elem_of_singleton]%elem_of_app Hcl; [by apply H2|done].
    + intros l' [Hl| ->%list_elem_of_singleton]%elem_of_app; [by apply Hm|done].
Qed.
Lemma link_table_spec ids links table :
  link_table ids links = Ok table →
  table_for links table ∧ ∀ l, l ∈ links → source l ∈ ids ∧ destination l ∈ ids.
Proof.
  unfold link_table. assert (Hgen : ∀ todo pre m, table_for pre m → (∀ l, l ∈ pre → source l ∈ ids ∧ destination l ∈ ids) →
    fold_res (λ m l, if bool_decide (source l ∉ ids) || bool_decide (destination l ∉ ids)
                     then Raise (ValueError "fabric link references an unknown node")
                     else Ok (put_link l (destination l, source l) (put_link l (source l, destination l) m))) todo m = Ok table →
    table_for (pre ++ todo) table ∧ ∀ l, l ∈ pre ++ todo → source l ∈ ids ∧ destination l ∈ ids).
  { induction todo as [|l todo IH]; intros pre m Hm Hpre; cbn [fold_res]; [intros [= <-]; by rewrite app_nil_r|].
    destruct (_ || _) eqn:E; [done|]. breflect. rewrite cons_middle, app_assoc. apply IH; [by apply table_step|].
    intros l' [?| ->%list_elem_of_singleton]%elem_of_app; [by apply Hpre|].
    by split; apply dec_stable. }
  apply (Hgen links [] ∅).
  - intros a b. rewrite lookup_empty. intros l Hl. by apply elem_of_nil in Hl.
  - intros l Hl. by apply elem_of_nil in Hl.
Qed.
Lemma link_table_total ids links :
  (∀ l, l ∈ links → source l ∈ ids ∧ destination l ∈ ids) → ∃ table, link_table ids links = Ok table.
Proof.
  unfold link_table. generalize (∅ : LinkTable). induction links as [|l links IH]; intros m Hl; cbn [fold_res]; [by eexists|].
  destruct (Hl l ltac:(left)) as [H1 H2]. rewrite !bool_decide_eq_false_2 by tauto. cbn. apply IH. intros l' ?. apply Hl. by right.
Qed.

(** ** What a placement must satisfy *)

(** The bytes reserved on a node. *)
Definition load (pls : list StagePlacement) (node : string) : Z :=
  Zsum (reserved_bytes <$> filter (λ p, placed_node p = node) pls).

(** The cost of bringing the output of [d] to [node], when that is possible. *)
Definition dep_cost (links : list FabricLink) (stages : list FabricStage) (pls : list StagePlacement)
    (node d : string) (c : Z) : Prop :=
  ∃ p s, p ∈ pls ∧ placed_stage p = d ∧ s ∈ stages ∧ stage_id s = d ∧
    if decide (placed_node p = node) then c = 0
    else ∃ l, best_link links (placed_node p) node l ∧ c = link_cost l (output_bytes s).

(** [n] can host [s] at cost [c], once the stages of [pls] are placed. *)
Definition feasible (links : list FabricLink) (stages : list FabricStage) (pls : list StagePlacement)
    (s : FabricStage) (n : FabricNode) (c : Z) : Prop :=
  healthy n = true ∧ required_modality s ∈ modalities n ∧
  load pls (node_id n) + resident_bytes s <= memory_capacity_bytes n ∧
  ∃ cs, Forall2 (dep_cost links stages pls (node_id n)) (dependencies s) cs ∧ c = Zsum cs.

(** The placement [p] of stage [s] after those of [pre] is on the first feasible node in
    the order of cost, memory in use and identifier. *)
Definition well_placed (nodes : list FabricNode) (links : list FabricLink) (stages : list FabricStage)
    (pre : list StagePlacement) (p : StagePlacement) : Prop :=
  ∃ s n c, s ∈ stages ∧ placed_stage p = stage_id s ∧ reserved_bytes p = resident_bytes s ∧
    n ∈ nodes ∧ placed_node p = node_id n ∧ feasible links stages pre s n c ∧
    ∀ n' c', n' ∈ nodes → feasible links stages pre s n' c' →
      candidate_ltb (c', load pre (node_id n'), node_id n') (c, load pre (node_id n), node_id n) = false.

(** The transfer of the output of [d] to stage [s] on [node]. *)
Definition transfer_for (links : list FabricLink) (stages : list FabricStage) (pls : list StagePlacement)
    (s : FabricStage) (node d : string) (t : FabricTransfer) : Prop :=
  ∃ p sd l, p ∈ pls ∧ placed_stage p = d ∧ placed_node p ≠ node ∧ sd ∈ stages ∧ stage_id sd = d ∧
    best_link links (placed_node p) node l ∧
    t = mkTransfer d (stage_id s) (placed_node p) node (transport l) (output_bytes sd)
          (link_cost l (output_bytes sd)) (measurement_id l).
(** Exactly the transfers that stages on different nodes need. *)
Definition transfers_exact (links : list FabricLink) (stages : list FabricStage) (pls : list StagePlacement)
    (ts : list FabricTransfer) : Prop :=
  NoDup ((λ t, (source_stage t, destination_stage t)) <$> ts) ∧
  ∀ t, t ∈ ts ↔ ∃ s p d, s ∈ stages ∧ p ∈ pls ∧ placed_stage p = stage_id s ∧ d ∈ dependencies s ∧
                  transfer_for links stages pls s (placed_node p) d t.

Lemma load_app l1 l2 node : load (l1 ++ l2) node = load l1 node + load l2 node.
Proof. unfold load. by rewrite filter_app, fmap_app, Zsum_app. Qed.
Lemma load_singleton p node : load [p] node = if decide (placed_node p = node) then reserved_bytes p else 0.
Proof. unfold load. rewrite filter_cons, filter_nil. destruct (decide _); cbn; lia. Qed.

(** *** Candidates are compared lexicographically *)

Lemma string_compare_refl a : String.compare a a = Eq.
Proof. induction a as [|c a IH]; cbn; [done|]. unfold Ascii.compare. by rewrite N.compare_refl. Qed.
Lemma string_ltb_irrefl a : String.ltb a a = false.
Proof. unfold String.ltb. by rewrite (string_compare_refl a). Qed.
Lemma string_ltb_trans a b c : String.ltb a b = true → String.ltb b c = true → String.ltb a c = true.
Proof.
  unfold String.ltb. destruct (String.compare a b) eqn:E1, (String.compare b c) eqn:E2; try done.
  by rewrite (string_compare_trans a b c Lt E1 E2).
Qed.
Lemma candidate_ltb_iff c u i c' u' i' :
  candidate_ltb (c, u, i) (c', u', i') = true ↔ c < c' ∨ c = c' ∧ (u < u' ∨ u = u' ∧ String.ltb i i' = true).
Proof.
  unfold candidate_ltb. rewrite !orb_true_iff, !andb_true_iff, !orb_true_iff, !andb_true_iff, !Z.ltb_lt, !Z.eqb_eq. tauto.
Qed.
Lemma candidate_ltb_irrefl a : candidate_ltb a a = false.
Proof.
  destruct a as [[c u] i]. apply not_true_is_false. rewrite candidate_ltb_iff, string_ltb_irrefl. intuition (lia || done).
Qed.
Lemma candidate_ltb_trans x y z : candidate_ltb x y = true → candidate_ltb y z = true → candidate_ltb x z = true.
Proof.
  destruct x as [[c u] i], y as [[c' u'] i'], z as [[c'' u''] i'']. rewrite !candidate_ltb_iff.
  intros [?|[-> [?|[-> H1]]]] [?|[<- [?|[<- H2]]]]; try (left; lia); right; (split; [lia|]); try (left; lia).
  right. split; [done|]. by eapply string_ltb_trans.
Qed.
(** [min] returns an element, and none is smaller. *)
Lemma minimum_spec x l : minimum x l ∈ x :: l ∧ ∀ y, y ∈ x :: l → candidate_ltb y (minimum x l) = false.
Proof.
  unfold minimum. induction l as [|z l [IH1 IH2]] using rev_ind; cbn [foldl].
  { split; [left|]. intros y ->%list_elem_of_singleton. apply candidate_ltb_irrefl. }
  rewrite foldl_snoc. set (m := foldl _ x l) in *. destruct (candidate_ltb z m) eqn:E.
  - split; [set_solver|]. intros y Hy. assert (y ∈ x :: l ∨ y = z) as [Hy'| ->] by set_solver; [|apply candidate_ltb_irrefl].
    destruct (candidate_ltb y z) eqn:E'; [|done]. by rewrite <-(IH2 y Hy'), (candidate_ltb_trans y z m).
  - split; [set_solver|]. intros y Hy. assert (y ∈ x :: l ∨ y = z) as [Hy'| ->] by set_solver; [by apply IH2|done].
Qed.

(** *** The state of the loop *)

Section placing.
Context (nodes : list FabricNode) (links : list FabricLink) (stages ordered : list FabricStage) (table : LinkTable).
Context (Hnodes : NoDup (node_id <$> nodes)) (Hstages : NoDup (stage_id <$> stages)).
Context (Htable : table_for links table) (Hordered : ordered ≡ₚ stages) (Hbefore : stage_edges_before ordered).
Context (Hdeps : ∀ s, s ∈ stages → NoDup (dependencies s)).

Lemma find_stage_spec s : s ∈ stages → find_stage ordered (stage_id s) = Ok s.
Proof.
  intros Hs. unfold find_stage. destruct (List.find _ ordered) as [x|] eqn:E.
  - apply find_some in E as [Hx Hid%bool_decide_eq_true]. apply list_elem_of_In in Hx. rewrite Hordered in Hx.
    by rewrite (name_inj stage_id stages x s).
  - rewrite <-Hordered in Hs. apply list_elem_of_In in Hs. apply (find_none _ _ E) in Hs.
    unfold str_eqb in Hs. by rewrite bool_decide_eq_true_2 in Hs.
Qed.

(** [placed_by_stage] holds the placements made. *)
Definition placed_for (pls : list StagePlacement) (m : gmap string StagePlacement) : Prop :=
  ∀ d p, m !! d = Some p ↔ p ∈ pls ∧ placed_stage p = d.

Lemma placed_unique pls m p q : placed_for pls m → p ∈ pls → q ∈ pls → placed_stage p = placed_stage q → p = q.
Proof.
  intros Hm Hp Hq He. assert (m !! placed_stage p = Some p) as H1 by by apply Hm.
  assert (m !! placed_stage p = Some q) as H2 by by apply Hm. congruence.
Qed.

Lemma dep_cost_unique pls m node d c c' :
  placed_for pls m → dep_cost links stages pls node d c → dep_cost links stages pls node d c' → c = c'.
Proof.
  intros Hm (p & s & Hp & Hpd & Hs & Hsd & Hc) (p' & s' & Hp' & Hpd' & Hs' & Hsd' & Hc').
  rewrite (placed_unique pls m p' p) in Hc' by (done || congruence). rewrite (name_inj stage_id stages s' s) in Hc' by (done || congruence).
  destruct (decide _); [congruence|]. destruct Hc as (l & Hl & ->), Hc' as (l' & Hl' & ->).
  by rewrite (best_link_unique _ _ _ _ _ Hl Hl').
Qed.
Lemma dep_costs_unique pls m node ds cs cs' :
  placed_for pls m → Forall2 (dep_cost links stages pls node) ds cs →
  Forall2 (dep_cost links stages pls node) ds cs' → cs = cs'.
Proof.
  intros Hm H. revert cs'. induction H as [|d c ds cs Hd _ IH]; intros cs' H'; inversion H' as [|? c' ? cs'' Hd' Hrest]; [done|].
  subst. by rewrite (dep_cost_unique _ _ _ _ _ _ Hm Hd Hd'), (IH cs'').
Qed.

(** One dependency: the code's case analysis against [dep_cost]. *)
Lemma transfer_cost_spec pls m node : placed_for pls m → ∀ ds acc,
  (∀ d, d ∈ ds → d ∈ placed_stage <$> pls ∧ d ∈ stage_id <$> stages) →
  ∃ o, transfer_cost table m ordered node ds acc = Ok o ∧
    match o with
    | Some c => ∃ cs, Forall2 (dep_cost links stages pls node) ds cs ∧ c = acc + Zsum cs
    | None => ∀ cs, ¬ Forall2 (dep_cost links stages pls node) ds cs
    end.
Proof.
  intros Hm. induction ds as [|d ds IH]; intros acc Hd; cbn [transfer_cost].
  { eexists. split; [done|]. exists []. split; [constructor|cbn; lia]. }
  destruct (Hd d ltac:(left)) as [(p & -> & Hp)%list_elem_of_fmap (s & Hsd & Hs)%list_elem_of_fmap].
  assert (m !! placed_stage p = Some p) as -> by by apply Hm.
  assert (Hd' : ∀ d, d ∈ ds → d ∈ placed_stage <$> pls ∧ d ∈ stage_id <$> stages) by (intros; apply Hd; by right).
  assert (Hstep : ∀ c, dep_cost links stages pls node (placed_stage p) c → ∃ o,
    transfer_cost table m ordered node ds (acc + c) = Ok o ∧
    match o with
    | Some c => ∃ cs, Forall2 (dep_cost links stages pls node) (placed_stage p :: ds) cs ∧ c = acc + Zsum cs
    | None => ∀ cs, ¬ Forall2 (dep_cost links stages pls node) (placed_stage p :: ds) cs
    end).
  { intros c Hc. destruct (IH (acc + c) Hd') as (o & Ho & Hspec). exists o. split; [done|]. destruct o as [c'|].
    - destruct Hspec as (cs & Hcs & ->). exists (c :: cs). split; [by constructor|change (Zsum (c :: cs)) with (c + Zsum cs); lia].
    - intros cs H. inversion H; subst. by eapply Hspec. }
  destruct (str_eqb (placed_node p) node) eqn:En; unfold str_eqb in En; breflect.
  - destruct (Hstep 0) as (o & Ho & Hspec); [exists p, s; by rewrite decide_True|].
    rewrite Z.add_0_r in Ho. by exists o.
  - specialize (Htable (placed_node p) node). destruct (table !! (placed_node p, node)) as [l|] eqn:El.
    + rewrite Hsd, find_stage_spec by done. rewrite <-Hsd. apply Hstep. exists p, s. rewrite decide_False by done. eauto 10.
    + eexists. split; [done|]. intros cs H. inversion H as [|? c ? ? Hc]; subst.
      destruct Hc as (p' & s' & Hp' & Hpd & _ & _ & Hc). rewrite (placed_unique pls m p' p) in Hc by done.
      rewrite decide_False in Hc by done. destruct Hc as (l & (Hl & pre & post & -> & _) & _). apply (Htable l); [set_solver|done].
Qed.

Lemma add_transfers_spec pls m s node : placed_for pls m → ∀ ds acc,
  NoDup ds → (∀ d, d ∈ ds → d ∈ stage_id <$> stages) →
  (∀ d, d ∈ ds → ∃ p, p ∈ pls ∧ placed_stage p = d ∧ (placed_node p = node ∨ ∃ l, best_link links (placed_node p) node l)) →
  ∃ ts, add_transfers table m ordered s node ds acc = Ok (acc ++ ts) ∧
    (∀ t, t ∈ ts ↔ ∃ d, d ∈ ds ∧ transfer_for links stages pls s node d t) ∧
    NoDup (source_stage <$> ts).
Proof.
  intros Hm. induction ds as [|d ds IH]; intros acc Hnd Hin Hd; cbn [add_transfers].
  { exists []. rewrite app_nil_r. split_and!; [done|set_solver|constructor]. }
  apply NoDup_cons in Hnd as [Hno Hnd].
  destruct (Hd d ltac:(left)) as (p & Hp & Hpd & Hl). assert (m !! d = Some p) as -> by by apply Hm.
  pose proof (Hin d ltac:(left)) as (sd & Hsd & Hs)%list_elem_of_fmap.
  assert (Hin' : ∀ d, d ∈ ds → d ∈ stage_id <$> stages) by (intros; apply Hin; by right).
  assert (Hd' : ∀ d, d ∈ ds → ∃ p, p ∈ pls ∧ placed_stage p = d ∧
    (placed_node p = node ∨ ∃ l, best_link links (placed_node p) node l)) by (intros; apply Hd; by right).
  destruct (str_eqb (placed_node p) node) eqn:En; unfold str_eqb in En; breflect.
  - destruct (IH acc Hnd Hin' Hd') as (ts & Heq & Hts & Hnd'). exists ts. split_and!; [done| |done].
    intros t. rewrite Hts. split; [intros (d' & ? & ?); exists d'; split; [by right|done]|].
    intros (d' & [->|Hin'']%elem_of_cons & Ht); [|by exists d']. exfalso.
    destruct Ht as (p' & _ & _ & Hp' & Hpd' & Hne & _). rewrite (placed_unique pls m p' p) in Hne by (done || congruence). done.
  - destruct Hl as [?|[l Hl]]; [done|]. specialize (Htable (placed_node p) node).
    destruct (table !! (placed_node p, node)) as [l'|] eqn:El.
    2:{ exfalso. destruct Hl as (Hcon & pre & post & -> & _). apply (Htable l); [set_solver|done]. }
    rewrite (best_link_unique _ _ _ _ _ Htable Hl). rewrite Hsd, find_stage_spec by done.
    destruct (IH (acc ++ [mkTransfer (stage_id sd) (stage_id s) (placed_node p) node (transport l) (output_bytes sd)
                (link_cost l (output_bytes sd)) (measurement_id l)]) Hnd Hin' Hd') as (ts & Heq & Hts & Hnd').
    eexists (_ :: ts). rewrite Heq, <-app_assoc. split_and!; [done| |].
    + intros t. rewrite elem_of_cons, Hts. split.
      * intros [->|(d' & ? & ?)]; [|exists d'; split; [by right|done]]. exists (stage_id sd). split; [left|].
        exists p, sd, l. split_and!; done || congruence.
      * intros (d' & [->|Hin'']%elem_of_cons & Ht); [left|right; by exists d'].
        destruct Ht as (p' & sd' & l'' & Hp' & Hpd' & Hne & Hsd' & Hid & Hl'' & ->).
        rewrite (placed_unique pls m p' p) in * by (done || congruence). rewrite (name_inj stage_id stages sd' sd) by (done || congruence).
        by rewrite (best_link_unique _ _ _ _ _ Hl'' Hl).
    + cbn. apply NoDup_cons. split; [|done]. rewrite <-Hsd. intros (t & Ht1 & Ht2)%list_elem_of_fmap.
      apply Hts in Ht2 as (d' & Hd'' & Ht). destruct Ht as (? & ? & ? & _ & _ & _ & _ & _ & _ & ->). cbn in Ht1. by subst.
Qed.

Abbreviation up := (filter (λ n, healthy n = true) nodes).

(** After the stages of [done] are placed. *)
Record place_inv (ran : list FabricStage) (st : PlanState) : Prop := {
  pi_ids : placed_stage <$> placed_list st = stage_id <$> ran;
  pi_map : placed_for (placed_list st) (placed st);
  pi_remaining : ∀ n, n ∈ up → remaining st !! node_id n = Some (memory_capacity_bytes n - load (placed_list st) (node_id n));
  pi_load : ∀ n, n ∈ nodes → 0 <= memory_capacity_bytes n → load (placed_list st) (node_id n) <= memory_capacity_bytes n;
  pi_placed : ∀ pre p post, placed_list st = pre ++ p :: post → well_placed nodes links stages pre p;
  pi_transfer_keys : NoDup ((λ t, (source_stage t, destination_stage t)) <$> transfer_list st);
  pi_transfers : ∀ t, t ∈ transfer_list st ↔ ∃ s p d, s ∈ ran ∧ p ∈ placed_list st ∧ placed_stage p = stage_id s ∧
    d ∈ dependencies s ∧ transfer_for links stages (placed_list st) s (placed_node p) d t;
}.

Lemma candidates_spec ran st s :
  place_inv ran st → (∀ d, d ∈ dependencies s → d ∈ stage_id <$> ran) → (∀ x, x ∈ ran → x ∈ stages) →
  ∃ cs, map_res (candidate_of table ordered st s) up = Ok cs ∧
    ∀ x, x ∈ omap id cs ↔ ∃ n c, n ∈ nodes ∧ feasible links stages (placed_list st) s n c ∧
                              x = (c, load (placed_list st) (node_id n), node_id n).
Proof.
  intros Hinv Hd Hsub.
  assert (Hdeps' : ∀ d, d ∈ dependencies s → d ∈ placed_stage <$> placed_list st ∧ d ∈ stage_id <$> stages).
  { intros d Hin. rewrite (pi_ids _ _ Hinv). specialize (Hd d Hin). split; [done|].
    apply list_elem_of_fmap in Hd as (x & -> & Hx). by apply (list_elem_of_fmap_2 stage_id), Hsub. }
  assert (Hone : ∀ n, n ∈ up → ∃ o, candidate_of table ordered st s n = Ok o ∧
    ∀ x, o = Some x ↔ ∃ c, feasible links stages (placed_list st) s n c ∧
                        x = (c, load (placed_list st) (node_id n), node_id n)).
  { intros n Hn. unfold candidate_of. rewrite (pi_remaining _ _ Hinv n Hn). apply list_elem_of_filter in Hn as [Hup _].
    destruct (_ || _) eqn:E.
    - exists None. split; [done|]. intros x. split; [done|]. intros (c & (_ & Hm & Hl & _) & _). exfalso.
      apply orb_true_iff in E as [E%bool_decide_eq_true|E%Z.ltb_lt]; [done|lia].
    - breflect. destruct (transfer_cost_spec _ _ (node_id n) (pi_map _ _ Hinv) (dependencies s) 0 Hdeps') as (o & -> & Ho).
      exists ((λ c, (c, memory_capacity_bytes n - (memory_capacity_bytes n - load (placed_list st) (node_id n)), node_id n)) <$> o).
      split; [by destruct o|]. destruct o as [c|]; cbn.
      + destruct Ho as (cs & Hcs & ->). intros x. split.
        * intros [= <-]. exists (0 + Zsum cs). split; [|f_equal; f_equal; lia].
          split_and!; [done|by apply dec_stable|lia|exists cs; by split].
        * intros (c & (_ & _ & _ & cs' & Hcs' & ->) & ->). do 3 f_equal; [|lia].
          by rewrite (dep_costs_unique _ _ _ _ _ _ (pi_map _ _ Hinv) Hcs Hcs').
      + intros x. split; [done|]. intros (c & (_ & _ & _ & cs & Hcs & _) & _). by destruct (Ho cs). }
  assert (∃ cs, map_res (candidate_of table ordered st s) up = Ok cs) as [cs Hcs].
  { pose proof (map_res_total (candidate_of table ordered st s) up) as H.
    destruct (map_res _ _) as [cs|e]; [by exists cs|]. exfalso. enough (@is_ok exn (list (option Candidate)) (Raise e) = true) by done.
    apply H. intros n Hn. by destruct (Hone n Hn) as (o & -> & _). }
  exists cs. split; [done|]. apply map_res_Ok in Hcs. intros x. rewrite list_elem_of_omap. split.
  - intros (o & Ho & Hx). cbn in Hx. subst o. apply list_elem_of_lookup in Ho as [i Hi].
    destruct (Forall2_lookup_r _ _ _ _ _ Hcs Hi) as (n & Hn & Hc). apply list_elem_of_lookup_2 in Hn.
    destruct (Hone n Hn) as (o & Ho & Hiff). rewrite Hc in Ho. injection Ho as <-.
    destruct (proj1 (Hiff x) eq_refl) as (c & Hf & ->). apply list_elem_of_filter in Hn as [_ Hn]. by exists n, c.
  - intros (n & c & Hn & Hf & ->). assert (Hu : n ∈ up) by (apply list_elem_of_filter; split; [apply Hf|done]).
    apply list_elem_of_lookup in Hu as [i Hi]. destruct (Forall2_lookup_l _ _ _ _ _ Hcs Hi) as (o & Ho & Hc).
    apply list_elem_of_lookup_2 in Hi, Ho. destruct (Hone n Hi) as (o' & Ho' & Hiff). rewrite Hc in Ho'. injection Ho' as <-.
    exists o. split; [done|]. apply Hiff. by exists c.
Qed.

(** Placing one more stage keeps the transfers of the ones before. *)
Lemma transfer_for_more pls p s node d t :
  d ∈ placed_stage <$> pls → placed_stage p ∉ placed_stage <$> pls →
  transfer_for links stages (pls ++ [p]) s node d t ↔ transfer_for links stages pls s node d t.
Proof.
  intros Hd Hp. split; intros (q & sd & l & Hq & Hqd & H); exists q, sd, l; (split; [|by split]); [|set_solver].
  apply elem_of_app in Hq as [?| ->%list_elem_of_singleton]; [done|]. congruence.
Qed.
Lemma placed_for_insert pls m p :
  placed_for pls m → placed_stage p ∉ placed_stage <$> pls → placed_for (pls ++ [p]) (<[placed_stage p := p]> m).
Proof.
  intros Hm Hp d q. rewrite lookup_insert_Some, elem_of_app, list_elem_of_singleton. specialize (Hm d q).
  split; [naive_solver|]. intros [[Hq| ->] <-]; [|by left]. right. split; [|by apply Hm].
  intros Heq. apply Hp. rewrite Heq. by apply (list_elem_of_fmap_2 placed_stage).
Qed.

(** What the chosen node adds. *)
Lemma well_placed_snoc ran st s n c rest :
  place_inv ran st → ordered = ran ++ s :: rest → n ∈ nodes → feasible links stages (placed_list st) s n c →
  (∀ n' c', n' ∈ nodes → feasible links stages (placed_list st) s n' c' →
     candidate_ltb (c', load (placed_list st) (node_id n'), node_id n') (c, load (placed_list st) (node_id n), node_id n) = false) →
  ∀ pre p post, placed_list st ++ [mkPlacement (stage_id s) (node_id n) (resident_bytes s)] = pre ++ p :: post →
    well_placed nodes links stages pre p.
Proof.
  intros Hinv Ho Hn Hf Hmin pre p post Heq. destruct post as [|q post _] using rev_ind.
  - apply app_inj_tail in Heq as [<- <-]. exists s, n, c. split_and!; try done. rewrite <-Hordered, Ho. set_solver.
  - rewrite app_comm_cons, app_assoc in Heq. apply app_inj_tail in Heq as [Heq _]. by eapply (pi_placed _ _ Hinv).
Qed.

Lemma remaining_step st s n :
  n ∈ up → (∀ m, m ∈ up → remaining st !! node_id m = Some (memory_capacity_bytes m - load (placed_list st) (node_id m))) →
  ∀ m, m ∈ up → alter (λ r, r - resident_bytes s) (node_id n) (remaining st) !! node_id m =
    Some (memory_capacity_bytes m - load (placed_list st ++ [mkPlacement (stage_id s) (node_id n) (resident_bytes s)]) (node_id m)).
Proof.
  intros Hn Hrem m Hm. rewrite load_app, load_singleton. cbn [placed_node reserved_bytes].
  destruct (decide (node_id n = node_id m)) as [E|E].
  - rewrite E, lookup_alter_eq, Hrem by done. cbn. f_equal. lia.
  - rewrite lookup_alter_ne, Hrem by done. f_equal. lia.
Qed.

Lemma transfers_step ran st s p ts :
  place_inv ran st → stage_edges_before ran → placed_stage p ∉ placed_stage <$> placed_list st → placed_stage p = stage_id s →
  (∀ t, t ∈ ts ↔ ∃ d, d ∈ dependencies s ∧ transfer_for links stages (placed_list st ++ [p]) s (placed_node p) d t) →
  NoDup (source_stage <$> ts) →
  NoDup ((λ t, (source_stage t, destination_stage t)) <$> transfer_list st ++ ts) ∧
  ∀ t, t ∈ transfer_list st ++ ts ↔ ∃ s' p' d, s' ∈ ran ++ [s] ∧ p' ∈ placed_list st ++ [p] ∧ placed_stage p' = stage_id s' ∧
    d ∈ dependencies s' ∧ transfer_for links stages (placed_list st ++ [p]) s' (placed_node p') d t.
Proof.
  intros Hinv Hb Hnew Hps Hspec Hnd.
  assert (Hold : ∀ s' p' d t, s' ∈ ran → d ∈ dependencies s' →
    transfer_for links stages (placed_list st ++ [p]) s' (placed_node p') d t ↔
    transfer_for links stages (placed_list st) s' (placed_node p') d t).
  { intros s' p' d t Hs' Hd'. apply transfer_for_more; [|done]. rewrite (pi_ids _ _ Hinv).
    by eapply (deps_before_elem stage_id dependencies ran s'). }
  split.
  - rewrite fmap_app. apply NoDup_app. split_and!; [apply Hinv| |eapply (NoDup_fmap_1 fst); by rewrite <-list_fmap_compose].
    intros k (t & -> & Ht)%list_elem_of_fmap (t' & Hk & Ht')%list_elem_of_fmap.
    apply (pi_transfers _ _ Hinv) in Ht as (s' & p0 & d & Hs' & _ & _ & _ & (q & sd & lk & _ & _ & _ & _ & _ & _ & Et)).
    apply Hspec in Ht' as (d' & _ & (q' & sd' & lk' & _ & _ & _ & _ & _ & _ & Et')).
    rewrite Et, Et' in Hk. cbn in Hk. injection Hk as _ Hk.
    apply Hnew. rewrite (pi_ids _ _ Hinv), Hps, <-Hk. by apply (list_elem_of_fmap_2 stage_id).
  - intros t. rewrite elem_of_app, (pi_transfers _ _ Hinv), Hspec. split.
    + intros [(s' & p' & d & Hs' & Hp' & Hps' & Hd' & Ht)|(d & Hd' & Ht)].
      * exists s', p', d. split_and!; [set_solver|set_solver|done|done|by apply Hold].
      * exists s, p, d. split_and!; [set_solver|set_solver|done|done|done].
    + intros (s' & p' & d & Hs' & Hp' & Hps' & Hd' & Ht).
      apply elem_of_app in Hp' as [Hp'| ->%list_elem_of_singleton]; apply elem_of_app in Hs' as [Hs'| ->%list_elem_of_singleton].
      * left. exists s', p', d. split_and!; [done|done|done|done|by apply Hold].
      * exfalso. apply Hnew. rewrite Hps, <-Hps'. by apply (list_elem_of_fmap_2 placed_stage).
      * exfalso. apply Hnew. rewrite Hps', (pi_ids _ _ Hinv). by apply (list_elem_of_fmap_2 stage_id).
      * right. by exists d.
Qed.

Lemma place_stage_spec ran st s rest :
  place_inv ran st → ordered = ran ++ s :: rest →
  match place_stage table ordered up st s with
  | Ok st' => place_inv (ran ++ [s]) st'
  | Raise e => ∀ n c, n ∈ nodes → ¬ feasible links stages (placed_list st) s n c
  end.
Proof.
  intros Hinv Ho.
  assert (Hin : ∀ x, x ∈ ordered → x ∈ stages) by (intros x; by rewrite Hordered).
  assert (Hs : s ∈ stages) by (apply Hin; rewrite Ho; set_solver).
  assert (Hran : ∀ x, x ∈ ran → x ∈ stages) by (intros x Hx; apply Hin; rewrite Ho; set_solver).
  assert (Hd : ∀ d, d ∈ dependencies s → d ∈ stage_id <$> ran) by by apply (Hbefore ran s rest).
  destruct (candidates_spec ran st s Hinv Hd Hran) as (cs & Hcs & Hc). unfold place_stage. rewrite Hcs.
  destruct (omap id cs) as [|x l] eqn:El.
  { intros n c Hn Hf. eapply not_elem_of_nil, Hc. by exists n, c. }
  destruct (minimum_spec x l) as [Hmin Hleast]. apply Hc in Hmin as (n & c & Hn & Hf & Heq). rewrite Heq. cbn [snd].
  set (p := mkPlacement (stage_id s) (node_id n) (resident_bytes s)).
  assert (Hup : n ∈ up) by (apply list_elem_of_filter; split; [apply Hf|done]).
  assert (Hnew : placed_stage p ∉ placed_stage <$> placed_list st).
  { rewrite (pi_ids _ _ Hinv). intros Hp. pose proof Hstages as Hnd. rewrite <-Hordered, Ho, fmap_app in Hnd.
    apply NoDup_app in Hnd as (_ & Hnd & _). by apply (Hnd _ Hp); left. }
  pose proof (placed_for_insert _ _ p (pi_map _ _ Hinv) Hnew) as Hmap.
  assert (Hdep_stage : ∀ d, d ∈ dependencies s → d ∈ stage_id <$> stages).
  { intros d Hin'. apply Hd in Hin' as (y & -> & Hy)%list_elem_of_fmap. by apply (list_elem_of_fmap_2 stage_id), Hran. }
  destruct (add_transfers_spec _ _ s (node_id n) Hmap (dependencies s) (transfer_list st) (Hdeps s Hs) Hdep_stage)
    as (ts & Hts & Hspec & Hnd).
  { intros d Hdin. destruct Hf as (_ & _ & _ & costs & Hcosts & _).
    apply list_elem_of_lookup in Hdin as [i Hi]. destruct (Forall2_lookup_l _ _ _ _ _ Hcosts Hi) as (k & _ & q & y & Hq & Hqd & _ & _ & Hk).
    exists q. split_and!; [set_solver|done|]. destruct (decide _); [by left|]. right. by destruct Hk as (lk & Hlk & _); exists lk. }
  cbn [placed_stage p] in Hts |- *. rewrite Hts.
  assert (Hbefore_ran : stage_edges_before ran) by (apply (deps_before_prefix _ _ _ (s :: rest)); by rewrite <-Ho).
  split; cbn [placed_list placed remaining transfer_list].
  - rewrite !fmap_app. by rewrite (pi_ids _ _ Hinv).
  - exact Hmap.
  - apply remaining_step; [done|apply Hinv].
  - intros m Hm Hcap. rewrite load_app, load_singleton. pose proof (pi_load _ _ Hinv m Hm Hcap). cbn [placed_node reserved_bytes p].
    destruct (decide (node_id n = node_id m)) as [E|E]; [|lia].
    rewrite (name_inj node_id nodes m n) by done. apply Hf.
  - eapply well_placed_snoc; [done|done|done|done|]. intros n' c' Hn' Hf'. rewrite <-Heq. apply Hleast, Hc. by exists n', c'.
  - apply (transfers_step ran st s p ts Hinv Hbefore_ran Hnew eq_refl Hspec Hnd).
  - apply (transfers_step ran st s p ts Hinv Hbefore_ran Hnew eq_refl Hspec Hnd).
Qed.

Lemma place_loop_spec : ∀ rest ran st,
  place_inv ran st → ordered = ran ++ rest →
  match fold_res (place_stage table ordered up) rest st with
  | Ok st' => place_inv ordered st'
  | Raise e => ∃ pre s post st', ordered = pre ++ s :: post ∧ place_inv pre st' ∧
      ∀ n c, n ∈ nodes → ¬ feasible links stages (placed_list st') s n c
  end.
Proof.
  induction rest as [|s rest IH]; intros ran st Hinv Ho; cbn [fold_res].
  { by rewrite app_nil_r in Ho; subst. }
  pose proof (place_stage_spec _ _ _ _ Hinv Ho) as Hs. destruct (place_stage _ _ _ st s) as [st'|e].
  - apply (IH (ran ++ [s])); [done|]. by rewrite <-app_assoc.
  - by exists ran, s, rest, st.
Qed.

Lemma place_init :
  place_inv [] (mkState (list_to_map ((λ n, (node_id n, memory_capacity_bytes n)) <$> up)) ∅ [] []).
Proof.
  split; cbn [placed_list placed remaining transfer_list]; try done.
  - intros d p. rewrite lookup_empty. split; [done|]. intros [Hp _]. by apply elem_of_nil in Hp.
  - intros n Hn. cbn. rewrite Z.sub_0_r. apply elem_of_list_to_map_1.
    + rewrite <-list_fmap_compose. eapply sublist_NoDup; [exact Hnodes|]. apply fmap_sublist, sublist_filter.
    + by apply (list_elem_of_fmap_2 (λ n, (node_id n, memory_capacity_bytes n))).
  - intros pre p post H. by destruct pre.
  - constructor.
  - intros t. split; [intros H; by apply elem_of_nil in H|]. intros (s & _ & _ & H & _). by apply elem_of_nil in H.
Qed.
End placing.

(** ** The checks before the placement *)

Lemma checks_Ok l : checks l = Ok () ↔ Forall (λ r, r = Ok ()) l.
Proof.
  unfold checks. induction l as [|r l IH]; cbn [fold_res]; [by split|]. rewrite Forall_cons.
  destruct r as [[]|e]; [rewrite IH; tauto|]. split; [done|]. by intros [? _].
Qed.
Lemma check_Ok b e : @check exn () b e () = Ok () ↔ b = true.
Proof. destruct b; cbn; [done|]. by split. Qed.

Definition build_inputs_ok (nodes : list FabricNode) (links : list FabricLink) (stages : list FabricStage)
    (shards : list DistributedStateShard) : Prop :=
  1 <= Zlen nodes <= MAX_FABRIC_NODES ∧ NoDup (node_id <$> nodes) ∧ Zlen links <= MAX_FABRIC_LINKS ∧
  1 <= Zlen stages <= MAX_FABRIC_STAGES ∧ NoDup (stage_id <$> stages) ∧ Zlen shards <= MAX_STATE_SHARDS ∧
  ∃ n, n ∈ nodes ∧ healthy n = true.

Lemma build_checks nodes links stages (shards : list DistributedStateShard) :
  checks [check ((1 <=? Zlen nodes) && (Zlen nodes <=? MAX_FABRIC_NODES) && bool_decide (NoDup (node_id <$> nodes)))
            (ValueError "invalid fabric node set") ();
          check (Zlen links <=? MAX_FABRIC_LINKS) (ValueError "invalid fabric link set") ();
          check ((1 <=? Zlen stages) && (Zlen stages <=? MAX_FABRIC_STAGES)) (ValueError "invalid fabric stage set") ();
          check (bool_decide (NoDup (stage_id <$> stages))) (ValueError "duplicate fabric stage") ();
          check (Zlen shards <=? MAX_STATE_SHARDS) (ValueError "too many distributed state shards") ();
          check (existsb healthy nodes) (RuntimeError "no healthy fabric nodes") ()] = Ok () ↔
  build_inputs_ok nodes links stages shards.
Proof.
  rewrite checks_Ok, !Forall_cons, Forall_nil, !check_Ok, !andb_true_iff, !bool_decide_eq_true, !Z.leb_le, existsb_exists.
  setoid_rewrite <-list_elem_of_In. unfold build_inputs_ok. tauto.
Qed.

Definition up_replicas (nodes : list FabricNode) (s : DistributedStateShard) (r : string) : Prop :=
  r ∈ replica_nodes s ∧ ∃ n, n ∈ nodes ∧ node_id n = r ∧ healthy n = true.
Lemma shard_source_spec nodes s :
  match shard_source nodes s with
  | Ok (i, r) => i = shard_id s ∧ up_replicas nodes s r ∧ ∀ r', up_replicas nodes s r' → String.leb r r' = true
  | Raise e => (∃ r, r ∈ replica_nodes s ∧ r ∉ node_id <$> nodes) ∨ ∀ r, ¬ up_replicas nodes s r
  end.
Proof.
  unfold shard_source. destruct (existsb _ _) eqn:E.
  { left. apply existsb_exists in E as (r & Hr & E%bool_decide_eq_true). exists r. by rewrite list_elem_of_In. }
  clear E. set (l := filter _ (replica_nodes s)).
  assert (Hl : ∀ r, r ∈ l ↔ up_replicas nodes s r).
  { intros r. unfold l, up_replicas. rewrite list_elem_of_filter, list_elem_of_fmap. setoid_rewrite list_elem_of_filter. naive_solver. }
  assert (Hsorted : Sorted.StronglySorted (λ a b, String.leb a b = true) (sorted_by String.leb l)).
  { apply (sorted_by_sorted _ (λ _, True)); [intros; by apply string_leb_total|intros; by eapply string_leb_trans|by apply Forall_true]. }
  pose proof (λ r, elem_of_sorted_by String.leb r l) as Hel. destruct (sorted_by String.leb l) as [|r rs].
  - right. intros r. rewrite <-Hl, <-Hel. apply not_elem_of_nil.
  - split_and!; [done|apply Hl, Hel; left|]. intros r' Hr'%Hl%Hel. apply Sorted.StronglySorted_inv in Hsorted as [_ Hall].
    apply elem_of_cons in Hr' as [->|Hr']; [|by eapply Forall_forall in Hall].
    destruct (String.leb r r) eqn:Er; [done|]. pose proof (string_leb_total _ _ Er). congruence.
Qed.

Lemma failed_of_spec nodes i : i ∈ failed_of nodes ↔ ∃ n, n ∈ nodes ∧ healthy n = false ∧ node_id n = i.
Proof.
  unfold failed_of. rewrite elem_of_sorted_by, list_elem_of_fmap. setoid_rewrite list_elem_of_filter. naive_solver.
Qed.

(** No stage that cannot be resumed was on a failed node. *)
Definition resumable (stages : list FabricStage) (failed : list string) (previous : option MultiMacExecutionPlan) : Prop :=
  ∀ q p, previous = Some q → p ∈ placements q → placed_node p ∈ failed →
    ∃ s, s ∈ stages ∧ stage_id s = placed_stage p ∧ checkpointable s = true.

Lemma check_previous_spec set_order stages failed previous :
  (∀ x, set_order x ≡ₚ elements x) → NoDup (stage_id <$> stages) →
  check_previous set_order stages failed previous = Ok () ↔ resumable stages failed previous.
Proof.
  intros Hset Hnd. unfold resumable, check_previous. destruct previous as [q|]; [|by split].
  destruct (bool_decide (failed = [])) eqn:Ef; breflect.
  { subst. split; [|done]. intros _ q' p _ _ Hp. by apply elem_of_nil in Hp. }
  rewrite fold_res_checks. split.
  - intros H q' p [= <-] Hp Hf. assert (Hin : placed_stage p ∈ set_order (list_to_set (placed_stage <$> filter (λ q, placed_node q ∈ failed) (placements q)))).
    { rewrite Hset, elem_of_elements, elem_of_list_to_set. apply (list_elem_of_fmap_2 placed_stage). by apply list_elem_of_filter. }
    specialize (H _ Hin). destruct (stages_by_id stages !! placed_stage p) as [s|] eqn:Es; [|done].
    apply by_id_lookup in Es as [Hs Hid]; [|done]. apply check_Ok in H. by exists s.
  - intros H i Hi. rewrite Hset, elem_of_elements, elem_of_list_to_set in Hi. apply list_elem_of_fmap in Hi as (p & -> & Hp).
    apply list_elem_of_filter in Hp as [Hf Hp]. destruct (H q p eq_refl Hp Hf) as (s & Hs & Hid & Hck).
    assert (stages_by_id stages !! placed_stage p = Some s) as -> by by apply by_id_lookup. by apply check_Ok.
Qed.

Lemma stage_check_deps s : stage_check s = Ok () → NoDup (dependencies s) ∧ 0 < resident_bytes s.
Proof.
  unfold stage_check. rewrite checks_Ok. intros [_ [_ [H _]%Forall_cons]%Forall_cons]%Forall_cons.
  apply check_Ok in H. breflect. split; [done|lia].
Qed.
Lemma node_check_memory n : node_check n = Ok () → 0 < memory_capacity_bytes n.
Proof.
  unfold node_check. rewrite checks_Ok. intros [_ [H _]%Forall_cons]%Forall_cons. apply check_Ok in H. breflect. lia.
Qed.

Section plans.
Context (set_order : gset string → list string) (Hset : ∀ x, set_order x ≡ₚ elements x).
Context (plan_digest : list FabricNode → list FabricLink → list FabricStage → list StagePlacement →
  list (string * string) → list string → string).

(** What a plan promises. *)
Record valid_plan (nodes : list FabricNode) (links : list FabricLink) (stages : list FabricStage)
    (shards : list DistributedStateShard) (previous : option MultiMacExecutionPlan) (plan : MultiMacExecutionPlan) : Prop := {
  vp_order : ∃ ordered, ordered ≡ₚ stages ∧ stage_edges_before ordered ∧ placed_stage <$> placements plan = stage_id <$> ordered;
  vp_placed : ∀ pre p post, placements plan = pre ++ p :: post → well_placed nodes links stages pre p;
  vp_capacity : ∀ n, n ∈ nodes → load (placements plan) (node_id n) <= memory_capacity_bytes n;
  vp_transfers : transfers_exact links stages (placements plan) (transfers plan);
  vp_sources : Forall2 (λ s o, o.1 = shard_id s ∧ up_replicas nodes s o.2 ∧
                          ∀ r, up_replicas nodes s r → String.leb o.2 r = true)
                 (sorted_by (λ a b, String.leb (shard_id a) (shard_id b)) shards) (state_sources plan);
  vp_failed : ∀ i, i ∈ failed_nodes plan ↔ ∃ n, n ∈ nodes ∧ healthy n = false ∧ node_id n = i;
  vp_resumable : resumable stages (failed_nodes plan) previous;
}.

Lemma build_inputs nodes links stages shards previous plan :
  build_multi_mac_plan set_order plan_digest nodes links stages shards previous = Ok plan → build_inputs_ok nodes links stages shards.
Proof. unfold build_multi_mac_plan. destruct (checks _) as [[]|] eqn:Ec; [|done]. intros _. by apply build_checks. Qed.
Lemma build_valid nodes links stages shards previous plan :
  Forall (λ n, node_check n = Ok ()) nodes → Forall (λ s, stage_check s = Ok ()) stages →
  build_multi_mac_plan set_order plan_digest nodes links stages shards previous = Ok plan →
  valid_plan nodes links stages shards previous plan.
Proof.
  intros Hn Hs. rewrite Forall_forall in Hn. rewrite Forall_forall in Hs. unfold build_multi_mac_plan.
  destruct (checks _) as [[]|] eqn:Ec; [|done]. apply build_checks in Ec as (_ & Hnd & _ & _ & Hnd' & _ & _).
  destruct (link_table _ links) as [table|] eqn:El; [|done]. apply link_table_spec in El as [Htable _].
  pose proof (topological_spec stages Hnd') as Htopo. destruct (topological_stages stages) as [ordered|]; [|done].
  destruct Htopo as [Hord Hbefore]. destruct (check_previous _ _ _ _) as [[]|] eqn:Ep; [|done].
  apply check_previous_spec in Ep; [|done|done]. destruct (sources_of nodes shards) as [srcs|] eqn:Esrc; [|done].
  pose proof (place_loop_spec nodes links stages ordered table Hnd Hnd' Htable Hord Hbefore
    (λ s Hin, proj1 (stage_check_deps s (Hs s Hin))) ordered [] _ (place_init nodes links stages Hnd) eq_refl) as Hloop.
  destruct (fold_res _ ordered _) as [st|]; [|done]. intros [= <-].
  split; cbn [placements transfers state_sources failed_nodes].
  - exists ordered. by rewrite (pi_ids _ _ _ _ _ Hloop).
  - apply Hloop.
  - intros n Hin. apply (pi_load _ _ _ _ _ Hloop n Hin). pose proof (node_check_memory n (Hn n Hin)). lia.
  - split; [apply Hloop|]. intros t. rewrite (pi_transfers _ _ _ _ _ Hloop). by setoid_rewrite Hord.
  - unfold sources_of in Esrc. apply map_res_Ok in Esrc. eapply Forall2_impl; [exact Esrc|]. intros s [i r] H.
    pose proof (shard_source_spec nodes s) as Hspec. rewrite H in Hspec. exact Hspec.
  - intros i. apply failed_of_spec.
  - done.
Qed.

(** C8: a Multi-Mac plan is safe and greedy.  Every stage is placed once, after the
    stages it depends on, on a healthy node with its modality, with room for it and
    with the links its inputs need, and no other such node is cheaper, or as cheap with
    less memory in use; reservations fit the capacity of every node; transfers are
    listed for exactly the dependencies that cross nodes, over the cheapest link
    between the two nodes; every state shard is read from the alphabetically first of
    its healthy replicas; the failed nodes are exactly the unhealthy ones; and none of them
    ran a stage that cannot be resumed. *)
Theorem fabric_plan_correct nodes links stages shards previous plan :
  Forall (λ n, node_check n = Ok ()) nodes → Forall (λ s, stage_check s = Ok ()) stages →
  build_multi_mac_plan set_order plan_digest nodes links stages shards previous = Ok plan →
  valid_plan nodes links stages shards previous plan.
Proof. exact (build_valid nodes links stages shards previous plan). Qed.

(** A node that can host everything. *)
Definition universal (nodes : list FabricNode) (links : list FabricLink) (stages : list FabricStage) (big : FabricNode) : Prop :=
  big ∈ nodes ∧ healthy big = true ∧ Zsum (resident_bytes <$> stages) <= memory_capacity_bytes big ∧
  (∀ s, s ∈ stages → required_modality s ∈ modalities big) ∧
  ∀ n, n ∈ nodes → healthy n = true → node_id n ≠ node_id big → ∃ l, l ∈ links ∧ connects l (node_id n) (node_id big).

Lemma best_link_exists links table a b l : table_for links table → l ∈ links → connects l a b → ∃ l', best_link links a b l'.
Proof.
  intros Ht Hl Hc. specialize (Ht a b). destruct (table !! (a, b)) as [l'|]; [by exists l'|]. by destruct (Ht l Hl).
Qed.
Lemma load_le pls node : Forall (λ p, 0 <= reserved_bytes p) pls → load pls node <= Zsum (reserved_bytes <$> pls).
Proof.
  induction 1 as [|p pls Hp _ IH]; [done|]. change (p :: pls) with ([p] ++ pls) at 1. rewrite load_app, load_singleton.
  change (Zsum (reserved_bytes <$> p :: pls)) with (reserved_bytes p + Zsum (reserved_bytes <$> pls)).
  destruct (decide _); lia.
Qed.

Lemma universal_feasible nodes links stages ordered table big pre s post st :
  NoDup (stage_id <$> stages) → table_for links table → ordered ≡ₚ stages → stage_edges_before ordered →
  (∀ x, x ∈ stages → 0 < resident_bytes x) → universal nodes links stages big →
  ordered = pre ++ s :: post → place_inv nodes links stages pre st → ∃ c, feasible links stages (placed_list st) s big c.
Proof.
  intros Hnd Ht Hord Hb Hpos (Hbig & Hup & Hcap & Hmod & Hlinked) Ho Hinv.
  assert (Hin : ∀ x, x ∈ ordered → x ∈ stages) by (intros x; by rewrite Hord).
  assert (Hs : s ∈ stages) by (apply Hin; rewrite Ho; set_solver).
  assert (Hwell : ∀ p, p ∈ placed_list st → ∃ x n, x ∈ stages ∧ stage_id x = placed_stage p ∧ reserved_bytes p = resident_bytes x ∧
            n ∈ nodes ∧ healthy n = true ∧ placed_node p = node_id n).
  { intros p (p1 & p2 & Hsplit)%list_elem_of_split. destruct (pi_placed _ _ _ _ _ Hinv _ _ _ Hsplit) as (x & n & c & H1 & H2 & H3 & H4 & H5 & H6 & _).
    exists x, n. split_and!; try done. apply H6. }
  assert (Hres : reserved_bytes <$> placed_list st = resident_bytes <$> pre).
  { pose proof (pi_ids _ _ _ _ _ Hinv) as Hids. apply list_eq. intros i. rewrite !list_lookup_fmap.
    assert (Hi : (placed_stage <$> placed_list st) !! i = (stage_id <$> pre) !! i) by by rewrite Hids.
    rewrite !list_lookup_fmap in Hi. destruct (placed_list st !! i) as [p|] eqn:Ep, (pre !! i) as [x|] eqn:Ex; try done. cbn in Hi |- *.
    injection Hi as Hi. f_equal. apply list_elem_of_lookup_2 in Ep, Ex. destruct (Hwell p Ep) as (y & _ & Hy & Hyid & -> & _).
    rewrite (name_inj stage_id stages y x); [done|done|done|apply Hin; rewrite Ho; set_solver|congruence]. }
  assert (Hsum : Zsum (resident_bytes <$> pre) + resident_bytes s <= Zsum (resident_bytes <$> stages)).
  { rewrite <-(Zsum_perm _ _ (fmap_Permutation resident_bytes _ _ Hord)), Ho, fmap_app, Zsum_app, Zsum_fmap_cons.
    enough (0 <= Zsum (resident_bytes <$> post)) by lia. apply Zsum_fmap_nonneg. intros x Hx.
    assert (x ∈ stages) by (apply Hin; rewrite Ho; set_solver). by apply Z.lt_le_incl, Hpos. }
  assert (Hcosts : ∃ cs, Forall2 (dep_cost links stages (placed_list st) (node_id big)) (dependencies s) cs).
  { assert (Hall : ∀ d, d ∈ dependencies s → ∃ c, dep_cost links stages (placed_list st) (node_id big) d c).
    { intros d Hd. pose proof (Hb pre s post Ho d Hd) as Hdn. rewrite <-(pi_ids _ _ _ _ _ Hinv) in Hdn.
      apply list_elem_of_fmap in Hdn as (p & -> & Hp). destruct (Hwell p Hp) as (x & n & Hx & Hxid & _ & Hn & Hnup & Hpn).
      unfold dep_cost. destruct (decide (placed_node p = node_id big)) as [E|E].
      - exists 0, p, x. by rewrite decide_True.
      - destruct (Hlinked n Hn Hnup) as (l & Hl & Hc); [congruence|].
        destruct (best_link_exists links table (placed_node p) (node_id big) l Ht Hl) as [l' Hl']; [by rewrite Hpn|].
        exists (link_cost l' (output_bytes x)), p, x. rewrite decide_False by done. eauto 10. }
    clear -Hall. induction (dependencies s) as [|d ds IH]; [by exists []|].
    destruct (Hall d ltac:(left)) as [c Hc]. destruct IH as [cs Hcs]; [intros; apply Hall; by right|].
    exists (c :: cs). by constructor. }
  destruct Hcosts as [cs Hcs]. exists (Zsum cs). split_and!; [done|by apply Hmod| |by exists cs].
  pose proof (load_le (placed_list st) (node_id big)) as Hle. rewrite Hres in Hle.
  assert (Forall (λ p, 0 <= reserved_bytes p) (placed_list st)); [|specialize (Hle H); lia].
  apply Forall_forall. intros p Hp. destruct (Hwell p Hp) as (x & _ & Hx & _ & -> & _). by apply Z.lt_le_incl, Hpos.
Qed.

(** Planning succeeds whenever one machine could do it alone.  For well-formed
    inputs, an acyclic graph of stages whose dependencies exist, known link ends and a
    healthy replica of every shard, if some healthy node has every modality and room
    for all stages and is linked to every other healthy node, the planner returns a
    plan, however it spread the stages before; after a failure, provided the stages that ran on
    failed nodes can be resumed. *)
Theorem fabric_plan_exists nodes links stages shards previous big :
  Forall (λ s, stage_check s = Ok ()) stages → build_inputs_ok nodes links stages shards →
  closed stage_id dependencies stages → stage_acyclic stages →
  (∀ l, l ∈ links → source l ∈ node_id <$> nodes ∧ destination l ∈ node_id <$> nodes) →
  (∀ s, s ∈ shards → (∀ r, r ∈ replica_nodes s → r ∈ node_id <$> nodes) ∧ ∃ r, up_replicas nodes s r) →
  resumable stages (failed_of nodes) previous → universal nodes links stages big →
  ∃ plan, build_multi_mac_plan set_order plan_digest nodes links stages shards previous = Ok plan.
Proof.
  intros Hs Hin Hc Hac Hlinks Hshards Hprev Hbig. rewrite Forall_forall in Hs. unfold build_multi_mac_plan.
  rewrite (proj2 (build_checks nodes links stages shards) Hin). destruct Hin as (_ & Hnd & _ & _ & Hnd' & _ & _).
  destruct (link_table_total _ _ Hlinks) as [table Etable]. rewrite Etable. apply link_table_spec in Etable as [Htable _].
  pose proof (topological_spec stages Hnd') as Htopo. destruct (topological_stages stages) as [ordered|]; [|by destruct Htopo].
  destruct Htopo as [Hord Hbefore]. rewrite (proj2 (check_previous_spec _ _ _ _ Hset Hnd') Hprev).
  destruct (sources_of nodes shards) as [srcs|] eqn:Esrc.
  2:{ unfold sources_of in Esrc. apply map_res_Raise in Esrc as (s & Hsin & Esrc). rewrite elem_of_sorted_by in Hsin.
      pose proof (shard_source_spec nodes s) as Hspec. rewrite Esrc in Hspec. destruct (Hshards s Hsin) as [H1 [r H2]].
      destruct Hspec as [(r' & Hr' & Hno)|Hno]; [by destruct (Hno (H1 r' Hr'))|by destruct (Hno r)]. }
  pose proof (place_loop_spec nodes links stages ordered table Hnd Hnd' Htable Hord Hbefore
    (λ s Hin, proj1 (stage_check_deps s (Hs s Hin))) ordered [] _ (place_init nodes links stages Hnd) eq_refl) as Hloop.
  destruct (fold_res _ ordered _) as [st|e]; [by eexists|]. exfalso. destruct Hloop as (pre & s & post & st & Ho & Hinv & Hno).
  destruct (universal_feasible nodes links stages ordered table big pre s post st) as [c Hf]; try done.
  - intros x Hx. apply (stage_check_deps x (Hs x Hx)).
  - apply (Hno big c); [by destruct Hbig|done].
Qed.
End plans.

(** ** Examples *)

Definition demo_nodes : list FabricNode :=
  [mkNode "mini" 100 ["text"; "vision"] true; mkNode "studio" 150 ["text"; "vision"] true; mkNode "old" 10 ["text"] false].
Definition demo_links : list FabricLink :=
  [mkLink "studio" "mini" ETHERNET 1000000 500 1500 true "m1"; mkLink "mini" "studio" THUNDERBOLT 4000000 20 1500 true "m2"].
Definition demo_stages : list FabricStage :=
  [mkStage "decode" PIPELINE "text" 60 8 ["encode"; "prefill"] true; mkStage "encode" MODALITY "vision" 30 4000 [] true;
   mkStage "prefill" PIPELINE "text" 50 16 ["encode"] true].
Definition demo_shards : list DistributedStateShard :=
  [mkShard "kv" (String.string_of_list_ascii (replicate 64 (Ascii.ascii_of_nat 97))) 10 ["old"; "studio"]].
Definition demo_previous : MultiMacExecutionPlan := mkPlan "p" [mkPlacement "encode" "old" 30] [] [] [].
Definition demo_digest (_ : list FabricNode) (_ : list FabricLink) (_ : list FabricStage) (_ : list StagePlacement)
  (_ : list (string * string)) (_ : list string) : string := "digest".
Definition demo_build : res exn MultiMacExecutionPlan :=
  build_multi_mac_plan elements demo_digest demo_nodes demo_links demo_stages demo_shards (Some demo_previous).
Definition demo_plan : MultiMacExecutionPlan :=
  mkPlan "digest" [mkPlacement "encode" "mini" 30; mkPlacement "prefill" "mini" 50; mkPlacement "decode" "studio" 60]
    [mkTransfer "encode" "decode" "mini" "studio" THUNDERBOLT 4000 1020 "m2";
     mkTransfer "prefill" "decode" "mini" "studio" THUNDERBOLT 16 24 "m2"]
    [("kv", "studio")] ["old"].

(** A stage that ran on a failed node and is gone from the new stages is looked up
    anyway: the planner raises a [KeyError], not one of its own errors. *)
Lemma removed_stage_key_error :
  build_multi_mac_plan elements demo_digest demo_nodes demo_links demo_stages demo_shards
    (Some (mkPlan "p" [mkPlacement "gone" "old" 30] [] [] [])) = Raise (KeyError "gone").
Proof. vm_compute. reflexivity. Qed.

(** ** Witnesses *)

Lemma fabric_plan_correct_witness :
  load (placements demo_plan) "mini" = 80 ∧ valid_plan demo_nodes demo_links demo_stages demo_shards (Some demo_previous) demo_plan.
Proof.
  split; [reflexivity|].
  apply (fabric_plan_correct elements (λ x, Permutation_refl (elements x)) demo_digest demo_nodes demo_links demo_stages demo_shards (Some demo_previous) demo_plan).
  - repeat constructor.
  - repeat constructor.
  - vm_compute. reflexivity.
Defined.

Lemma demo_inputs_ok : build_inputs_ok demo_nodes demo_links demo_stages demo_shards.
Proof. apply build_checks. vm_compute. reflexivity. Qed.
Lemma demo_acyclic : stage_acyclic demo_stages.
Proof.
  pose proof (topological_spec demo_stages ltac:(refine (bool_decide_eq_true_1 _ _); vm_compute; reflexivity)) as H.
  assert (E : is_ok (topological_stages demo_stages) = true) by (vm_compute; reflexivity).
  destruct (topological_stages demo_stages) as [l|]; [|done]. destruct H as [Hp Hb].
  apply (deps_before_acyclic stage_id dependencies demo_stages l Hp); [refine (bool_decide_eq_true_1 _ _); vm_compute; reflexivity|done].
Qed.

Lemma fabric_plan_exists_witness : ∃ plan, demo_build = Ok plan.
Proof.
  apply (fabric_plan_exists elements (λ x, Permutation_refl (elements x)) demo_digest demo_nodes demo_links demo_stages demo_shards (Some demo_previous)
           (mkNode "studio" 150 ["text"; "vision"] true)).
  - repeat constructor.
  - exact demo_inputs_ok.
  - intros s d Hs Hd. unfold demo_stages in Hs. set_unfold in Hs.
    destruct Hs as [->|[->|[->|[]]]]; cbn in Hd |- *; set_solver.
  - exact demo_acyclic.
  - intros l Hl. unfold demo_links in Hl. set_unfold in Hl. destruct Hl as [->|[->|[]]]; cbn; set_solver.
  - intros s ->%list_elem_of_singleton. split; [cbn; set_solver|]. exists "studio". split; [cbn; set_solver|].
    exists (mkNode "studio" 150 ["text"; "vision"] true). split; [unfold demo_nodes; set_solver|done].
  - intros q p [= <-] ->%list_elem_of_singleton _. exists (mkStage "encode" MODALITY "vision" 30 4000 [] true).
    split; [unfold demo_stages; set_solver|done].
  - split_and!; [unfold demo_nodes; set_solver|done|cbn; lia| |].
    + intros s Hs. unfold demo_stages in Hs. set_unfold in Hs. destruct Hs as [->|[->|[->|[]]]]; cbn; set_solver.
    + intros n Hn Hup Hne. exists (mkLink "mini" "studio" THUNDERBOLT 4000000 20 1500 true "m2").
      unfold demo_nodes in Hn. set_unfold in Hn. destruct Hn as [->|[->|[->|[]]]]; cbn in *; try done.
      split; [unfold demo_links; set_solver|by left].
Defined.

End MultiMac.
