(* ===== verification/MultiMacExecution.v ===== *)
(** * Execution of a plan over several machines (multi_mac_execution.py)

    The coordinator checks a plan against its stages and clients and then runs the
    stages in rounds: all stages whose inputs are there run at once on a thread pool,
    and the next round starts when the last of them is done.  The node and transfer
    clients, the clock and the cancellation event are the environment.  In one
    execution every call the code makes to them has its own place, a [Point] for clock
    and event and the stage for a client, so an environment gives each place its
    answer; it thereby stands for any interleaving of the threads of a round, which
    share nothing that changes during the round. *)

From S2P Require Import Prelude Types PyFloat PyBytes PySort DependencyOrder MultiMac.

Module MultiMacExecution.
Import PyFloat PyBytes PySort DependencyOrder MultiMac.

Abbreviation Payload := PyBytes.bytes.
Definition MAX_MULTI_MAC_RESULT_BYTES : Z := 256 * 1024 * 1024.

(** The exceptions: the two of this file and those of the clients. *)
Inductive ExecError :=
| MultiMacExecutionCancelled (msg : string)
| MemoryError (msg : string)
| Other (e : exn).

Record MultiMacStageResult := mkStageResult {
  result_stage : string;
  result_node : string;
  result_bytes : Z;
  result_sha256 : string;
  result_elapsed : Z;
}.
Record MultiMacExecutionReport := mkReport {
  report_plan : string;
  results : list MultiMacStageResult;
  peak_result_bytes : Z;
  elapsed_nanoseconds : Z;
}.

Record MultiMacExecutionCoordinator := mkCoordinator {
  plan : MultiMacExecutionPlan;
  c_stages : gmap string FabricStage;
  c_placements : gmap string StagePlacement;
  c_transfers : gmap (string * string) FabricTransfer;
  maximum_result_bytes : Z;
}.

(** The check of one edge, and of the edges of one stage. *)
Definition edge_check (placed : gmap string StagePlacement) (edges : gmap (string * string) FabricTransfer)
    (s : FabricStage) (d : string) : res exn () :=
  match placed !! d, placed !! stage_id s with
  | None, _ => Raise (ValueError "execution stage dependency is missing")
  | _, None => Raise (KeyError (stage_id s))
  | Some a, Some b =>
      check (Bool.eqb (negb (str_eqb (placed_node a) (placed_node b))) (negb (is_none (edges !! (d, stage_id s)))))
        (ValueError "execution transfer edges do not match placements") ()
  end.
Definition edges_check (placed : gmap string StagePlacement) (edges : gmap (string * string) FabricTransfer)
    (s : FabricStage) : res exn () :=
  fold_res (λ _ d, edge_check placed edges s d) (dependencies s) ().

(** [MultiMacExecutionCoordinator.__init__]; [clients] are the keys of [node_clients]. *)
Definition new_coordinator (p : MultiMacExecutionPlan) (stages : list FabricStage) (clients : list string)
    (maximum_concurrency maximum_bytes : Z) : res exn MultiMacExecutionCoordinator :=
  if negb ((1 <=? maximum_concurrency) && (maximum_concurrency <=? 64)
           && (1 <=? maximum_bytes) && (maximum_bytes <=? MAX_MULTI_MAC_RESULT_BYTES))
  then Raise (ValueError "invalid Multi-Mac execution limits")
  else
    let by_id := dict_of stage_id stages in
    let placed := dict_of placed_stage (placements p) in
    if bool_decide (stages = []) || negb (Zsize by_id =? Zlen stages) || negb (bool_decide (dom by_id = dom placed))
       || existsb (λ q, match by_id !! q.1 with
                        | Some s => negb (reserved_bytes q.2 =? resident_bytes s)
                        | None => false
                        end) (map_to_list placed)
       || existsb (λ q, bool_decide (placed_node q ∉ clients)) (placements p)
       || (Zsum (output_bytes <$> stages) >? maximum_bytes)
    then Raise (ValueError "execution inputs do not match the Multi-Mac plan")
    else
      let edges := dict_of (λ t, (source_stage t, destination_stage t)) (transfers p) in
      if negb (Zsize edges =? Zlen (transfers p)) then Raise (ValueError "duplicate Multi-Mac transfer edge")
      else match fold_res (λ _ s, edges_check placed edges s) stages () with
           | Raise e => Raise e
           | Ok _ => Ok (mkCoordinator p by_id placed edges maximum_bytes)
           end.

(** ** The environment *)

(** Where the event and the clocks are read. *)
Inductive Point :=
| Begin | End
| RoundStart (n : nat) | RoundEnd (n : nat)
| TaskStart (stage : string) | TaskInputs (stage : string) | TaskCall (stage : string)
| TaskReturn (stage : string) | TaskEnd (stage : string).

(** A client may return something that is not [bytes] ([None]). *)
Record Environment := mkEnvironment {
  cancelled : Point → bool;
  monotonic : Point → float;
  monotonic_ns : Point → Z;
  transfer_client : FabricTransfer → Payload → res exn (option Payload);
  node_client : string → FabricStage → list Payload → res exn (option Payload);
}.

Definition outcome {A} (r : res exn A) : res ExecError A :=
  match r with Ok a => Ok a | Raise e => Raise (Other e) end.

Section execution.
(** SHA-256 as hexadecimal text. *)
Variable sha256 : Payload → string.
Variable env : Environment.
Variable c : MultiMacExecutionCoordinator.
Variable deadline : option float.

(** [_raise_if_cancelled] *)
Definition raise_if_cancelled (at_ : Point) : res ExecError () :=
  if cancelled env at_ then Raise (MultiMacExecutionCancelled "Multi-Mac execution was cancelled")
  else match deadline with
       | Some d => if fleb d (monotonic env at_)
                   then Raise (MultiMacExecutionCancelled "Multi-Mac execution deadline expired") else Ok ()
       | None => Ok ()
       end.

(** One turn of the loop over the dependencies of a stage. *)
Definition stage_input (outputs : gmap string Payload) (s : FabricStage) (d : string) : res ExecError Payload :=
  match outputs !! d with
  | None => Raise (Other (KeyError d))
  | Some payload =>
      match c_transfers c !! (d, stage_id s) with
      | None => Ok payload
      | Some t =>
          match outcome (transfer_client env t payload) with
          | Raise e => Raise e
          | Ok (Some moved) =>
              check (bool_decide (length moved = length payload) && str_eqb (sha256 moved) (sha256 payload))
                (Other (ValueError "Multi-Mac transfer changed its payload")) moved
          | Ok None => Raise (Other (ValueError "Multi-Mac transfer changed its payload"))
          end
      end
  end.

(** [_execute_stage] *)
Definition execute_stage (outputs : gmap string Payload) (s : FabricStage) : res ExecError (Payload * MultiMacStageResult) :=
  match raise_if_cancelled (TaskStart (stage_id s)) with Raise e => Raise e | Ok _ =>
  match c_placements c !! stage_id s with None => Raise (Other (KeyError (stage_id s))) | Some p =>
  match map_res (stage_input outputs s) (dependencies s) with Raise e => Raise e | Ok inputs =>
  match raise_if_cancelled (TaskInputs (stage_id s)) with Raise e => Raise e | Ok _ =>
  match outcome (node_client env (placed_node p) s inputs) with Raise e => Raise e | Ok returned =>
  match raise_if_cancelled (TaskEnd (stage_id s)) with Raise e => Raise e | Ok _ =>
  match returned with
  | Some output =>
      check (Zlen output =? output_bytes s) (Other (ValueError "Multi-Mac stage output does not match its contract"))
        (output, mkStageResult (stage_id s) (placed_node p) (Zlen output) (sha256 output)
                   (monotonic_ns env (TaskReturn (stage_id s)) - monotonic_ns env (TaskCall (stage_id s))))
  | None => Raise (Other (ValueError "Multi-Mac stage output does not match its contract"))
  end end end end end end end.

(** [ready] *)
Definition runnable (outputs : gmap string Payload) (i : string) : bool :=
  match c_stages c !! i with
  | Some s => forallb (λ d, is_some (outputs !! d)) (dependencies s)
  | None => false
  end.
Definition ready_tasks (pending : gset string) (outputs : gmap string Payload) : list string :=
  sorted_by String.leb (filter (λ i, runnable outputs i = true) (elements pending)).

(** The futures of a round, awaited in order: the first exception wins. *)
Definition run_wave (outputs : gmap string Payload) (ready : list string) : res ExecError (list (string * (Payload * MultiMacStageResult))) :=
  map_res (λ i, match c_stages c !! i with
                | None => Raise (Other (KeyError i))
                | Some s => match execute_stage outputs s with Ok r => Ok (i, r) | Raise e => Raise e end
                end) ready.

Record ExecState := mkExec {
  pending : gset string;
  outputs : gmap string Payload;
  stage_results : gmap string MultiMacStageResult;
  peak : Z;
}.

Definition commit (st : ExecState) (w : string * (Payload * MultiMacStageResult)) : ExecState :=
  mkExec (pending st ∖ {[ w.1 ]}) (<[w.1 := w.2.1]> (outputs st)) (<[w.1 := w.2.2]> (stage_results st)) (peak st).

(** One turn of [while pending]. *)
Definition round (n : nat) (st : ExecState) : res ExecError ExecState :=
  match raise_if_cancelled (RoundStart n) with Raise e => Raise e | Ok _ =>
  match ready_tasks (pending st) (outputs st) with
  | [] => Raise (Other (RuntimeError "Multi-Mac execution graph cannot make progress"))
  | ready =>
  match run_wave (outputs st) ready with Raise e => Raise e | Ok wave =>
  match raise_if_cancelled (RoundEnd n) with Raise e => Raise e | Ok _ =>
      let st' := foldl commit st wave in
      let resident := map_sum (λ v, Zlen v) (outputs st') in
      check (resident <=? maximum_result_bytes c) (MemoryError "Multi-Mac result memory exceeded its bound")
        (mkExec (pending st') (outputs st') (stage_results st') (Z.max (peak st') resident))
  end end end end.

Fixpoint rounds_loop (fuel n : nat) (st : ExecState) : res ExecError ExecState :=
  if bool_decide (pending st = ∅) then Ok st
  else match fuel with
  | O => Raise (Other AssertionError)
  | S fuel' => match round n st with Ok st' => rounds_loop fuel' (S n) st' | Raise e => Raise e end
  end.

(** [execute]; a round per stage suffices. *)
Definition execute : res ExecError MultiMacExecutionReport :=
  match rounds_loop (size (c_stages c)) 0 (mkExec (dom (c_stages c)) ∅ ∅ 0) with
  | Raise e => Raise e
  | Ok st =>
      Ok (mkReport (plan_id (plan c))
            (omap (λ i, stage_results st !! i) (sorted_by String.leb (elements (dom (stage_results st)))))
            (peak st) (monotonic_ns env End - monotonic_ns env Begin))
  end.
End execution.

(** ** Sums over maps that agree *)

Lemma map_sum_agree `{Countable K} {A B} (f : A → Z) (g : B → Z) (m1 : gmap K A) : ∀ (m2 : gmap K B),
  (∀ k a, m1 !! k = Some a → ∃ b, m2 !! k = Some b ∧ f a = g b) → (∀ k b, m2 !! k = Some b → 0 <= g b) →
  map_sum f m1 <= map_sum g m2 ∧ (dom m1 = dom m2 → map_sum f m1 = map_sum g m2).
Proof.
  induction m1 as [|k a m1 Hk IH] using map_ind; intros m2 Hag Hpos.
  - rewrite map_sum_empty. split; [by apply map_sum_nonneg|]. rewrite dom_empty_L. intros He.
    assert (m2 = ∅) as -> by by apply dom_empty_inv_L. by rewrite map_sum_empty.
  - destruct (Hag k a) as (b & Hb & Heq); [by rewrite lookup_insert_eq|].
    rewrite map_sum_insert by done. destruct (IH (delete k m2)) as [H1 H2].
    + intros k' a' Hk'. assert (k ≠ k') by congruence. destruct (Hag k' a') as (b' & Hb' & ?); [by rewrite lookup_insert_ne|].
      exists b'. by rewrite lookup_delete_ne.
    + intros k' b' [_ Hk']%lookup_delete_Some. by apply (Hpos k').
    + pose proof (map_sum_delete g m2 k b Hb) as Hd. split; [lia|]. intros Hdom.
      rewrite H2; [lia|]. rewrite dom_delete_L, <-Hdom, dom_insert_L.
      assert (k ∉ dom m1) by by apply not_elem_of_dom. set_solver.
Qed.

Lemma dict_of_elem `{Countable K} {A} (key : A → K) (l : list A) k a : dict_of key l !! k = Some a → a ∈ l ∧ key a = k.
Proof.
  unfold dict_of. induction l as [|x l IH] using rev_ind; [done|]. rewrite foldl_snoc, elem_of_app, list_elem_of_singleton.
  rewrite lookup_insert_Some. intros [[<- <-]|[_ Ha]]; [auto|]. naive_solver.
Qed.
Lemma dict_of_dom `{Countable K} {A} (key : A → K) (l : list A) : dom (dict_of key l) = list_to_set (key <$> l).
Proof.
  unfold dict_of. induction l as [|x l IH] using rev_ind; [cbn; by rewrite dom_empty_L|].
  rewrite foldl_snoc, dom_insert_L, IH, fmap_app, list_to_set_app_L. set_solver.
Qed.
Lemma list_to_set_size_NoDup `{Countable K} (l : list K) :
  (size (list_to_set l : gset K) <= length l)%nat ∧ (size (list_to_set l : gset K) = length l → NoDup l).
Proof.
  induction l as [|x l [IH1 IH2]]; [split; [done|by constructor]|]. cbn [list_to_set length].
  change (list_to_set (x :: l)) with ({[x]} ∪ list_to_set l : gset K).
  destruct (decide (x ∈ l)) as [Hx|Hx].
  - replace ({[x]} ∪ list_to_set l : gset K) with (list_to_set l : gset K) by set_solver. split; [lia|lia].
  - rewrite size_union, size_singleton by set_solver. split; [lia|]. intros Heq. constructor; [done|]. apply IH2. lia.
Qed.
Lemma dict_of_full `{Countable K} {A} (key : A → K) (l : list A) : Zsize (dict_of key l) = Zlen l ↔ NoDup (key <$> l).
Proof.
  unfold Zsize, Zlen. rewrite <-size_dom, dict_of_dom. split.
  - intros Hs. apply list_to_set_size_NoDup. rewrite length_fmap. lia.
  - intros Hnd. rewrite size_list_to_set by done. by rewrite length_fmap.
Qed.

(** ** What the coordinator has checked *)

Record accepted (p : MultiMacExecutionPlan) (stages : list FabricStage) (clients : list string)
    (c : MultiMacExecutionCoordinator) : Prop := {
  ac_plan : plan c = p;
  ac_NoDup : NoDup (stage_id <$> stages);
  ac_stages : ∀ i s, c_stages c !! i = Some s ↔ s ∈ stages ∧ stage_id s = i;
  ac_placed : ∀ i, is_Some (c_placements c !! i) ↔ i ∈ stage_id <$> stages;
  ac_node : ∀ i q, c_placements c !! i = Some q → q ∈ placements p ∧ placed_stage q = i ∧ placed_node q ∈ clients;
  ac_reserved : ∀ s q, s ∈ stages → c_placements c !! stage_id s = Some q → reserved_bytes q = resident_bytes s;
  ac_bound : Zsum (output_bytes <$> stages) <= maximum_result_bytes c;
  ac_closed : closed stage_id dependencies stages;
  ac_transfer : ∀ s d a b, s ∈ stages → d ∈ dependencies s → c_placements c !! d = Some a →
    c_placements c !! stage_id s = Some b →
    (placed_node a ≠ placed_node b ↔ is_Some (c_transfers c !! (d, stage_id s)));
}.

Lemma edge_check_spec placed edges s d :
  edge_check placed edges s d = Ok () ↔
  ∃ a b, placed !! d = Some a ∧ placed !! stage_id s = Some b ∧
    (placed_node a ≠ placed_node b ↔ is_Some (edges !! (d, stage_id s))).
Proof.
  unfold edge_check. destruct (placed !! d) as [a|], (placed !! stage_id s) as [b|]; try (split; [done|naive_solver]).
  rewrite check_Ok, eqb_true_iff. unfold str_eqb. rewrite <-bool_decide_not.
  split.
  - intros H. exists a, b. split_and!; [done|done|]. rewrite <-(bool_decide_eq_true (_ ≠ _)), H.
    destruct (edges !! _); cbn; [by split; [eexists|]|]. split; [done|]. by intros [? ?].
  - intros (? & ? & [= <-] & [= <-] & Hiff). destruct (edges !! _) as [t|]; cbn.
    + apply bool_decide_eq_true. apply Hiff. by eexists.
    + apply bool_decide_eq_false. intros Hne. apply Hiff in Hne as [? ?]. done.
Qed.
Lemma edges_check_spec placed edges s :
  edges_check placed edges s = Ok () ↔
  ∀ d, d ∈ dependencies s → ∃ a b, placed !! d = Some a ∧ placed !! stage_id s = Some b ∧
    (placed_node a ≠ placed_node b ↔ is_Some (edges !! (d, stage_id s))).
Proof.
  unfold edges_check. rewrite fold_res_checks. split.
  - intros H d Hd. apply edge_check_spec. by apply H.
  - intros H d Hd. apply edge_check_spec. by apply H.
Qed.

Lemma new_coordinator_accepted p stages clients concurrency maximum_bytes c :
  new_coordinator p stages clients concurrency maximum_bytes = Ok c → accepted p stages clients c.
Proof.
  unfold new_coordinator. destruct (negb _) eqn:E0; [done|]. cbv zeta.
  destruct (_ || (Zsum _ >? _)) eqn:E1; [done|]. destruct (negb (_ =? Zlen (transfers p))) eqn:E2; [done|].
  destruct (fold_res _ stages ()) as [[]|] eqn:E3; [|done]. intros [= <-]. clear E0 E2.
  rewrite !orb_false_iff, negb_false_iff, Z.eqb_eq in E1. destruct E1 as [[[[[_ Hfull] Hdom] Hres] Hcli] Hsum].
  apply dict_of_full in Hfull as Hnd. apply negb_false_iff, bool_decide_eq_true in Hdom.
  rewrite fold_res_checks in E3.
  pose proof (λ s Hs, proj1 (edges_check_spec _ _ s) (E3 s Hs)) as Hedges.
  assert (Hdomiff : ∀ i, is_Some (dict_of placed_stage (placements p) !! i) ↔ i ∈ stage_id <$> stages).
  { intros i. rewrite <-elem_of_dom, <-Hdom, dict_of_dom. by rewrite elem_of_list_to_set. }
  split; cbn [plan c_stages c_placements c_transfers maximum_result_bytes]; try done.
  - intros i s. by apply dict_of_lookup.
  - intros i q Hq. apply dict_of_elem in Hq as [Hq <-]. split_and!; [done|done|].
    apply dec_stable. intros Hno. rewrite <-not_true_iff_false in Hcli. apply Hcli, existsb_exists. exists q.
    split; [by apply list_elem_of_In|by apply bool_decide_eq_true].
  - intros s q Hs Hq. apply dec_stable. intros Hno. rewrite <-not_true_iff_false in Hres. apply Hres, existsb_exists.
    exists (stage_id s, q). split; [by apply list_elem_of_In, elem_of_map_to_list|]. cbn.
    rewrite (proj2 (dict_of_lookup stage_id stages (stage_id s) s Hnd)) by done. by apply negb_true_iff, Z.eqb_neq.
  - rewrite Z.gtb_ltb, Z.ltb_ge in Hsum. done.
  - intros s d Hs Hd. destruct (Hedges s Hs d Hd) as (a & b & Ha & _). apply Hdomiff. by exists a.
  - intros s d a b Hs Hd Ha Hb. destruct (Hedges s Hs d Hd) as (a' & b' & Ha' & Hb' & Hiff). by simplify_eq.
Qed.

(** ** What a stage has done *)

Section runs.
Context (sha256 : Payload → string) (env : Environment) (deadline : option float).
Context (p : MultiMacExecutionPlan) (stages : list FabricStage) (clients : list string) (c : MultiMacExecutionCoordinator).
Context (Hacc : accepted p stages clients c).
Context (Hsizes : ∀ s, s ∈ stages → 0 <= output_bytes s).

(** The input a stage got for a dependency: its output, or what the transfer client
    returned for it, of the same length and digest. *)
Definition input_of (outs : gmap string Payload) (s : FabricStage) (d : string) (i : Payload) : Prop :=
  ∃ o, outs !! d = Some o ∧
    match c_transfers c !! (d, stage_id s) with
    | None => i = o
    | Some t => transfer_client env t o = Ok (Some i) ∧ length i = length o ∧ sha256 i = sha256 o
    end.

(** Stage [s] ran on its node with its inputs, returned [o] and was reported as [r]. *)
Definition ran (outs : gmap string Payload) (s : FabricStage) (o : Payload) (r : MultiMacStageResult) : Prop :=
  ∃ q inputs, c_placements c !! stage_id s = Some q ∧ Forall2 (input_of outs s) (dependencies s) inputs ∧
    node_client env (placed_node q) s inputs = Ok (Some o) ∧ Zlen o = output_bytes s ∧
    r = mkStageResult (stage_id s) (placed_node q) (Zlen o) (sha256 o)
          (monotonic_ns env (TaskReturn (stage_id s)) - monotonic_ns env (TaskCall (stage_id s))).

Lemma ran_mono outs outs' s o r : outs ⊆ outs' → ran outs s o r → ran outs' s o r.
Proof.
  intros Hsub (q & inputs & H1 & H2 & H3). exists q, inputs. split; [done|]. split; [|done].
  eapply Forall2_impl; [exact H2|]. intros d i (x & Hx & Hi). exists x. split; [by eapply lookup_weaken|done].
Qed.

Lemma stage_input_spec outs s d i : stage_input sha256 env c outs s d = Ok i → input_of outs s d i.
Proof.
  unfold stage_input, input_of. destruct (outs !! d) as [o|]; [|done]. intros H. exists o. split; [done|].
  destruct (c_transfers c !! _) as [t|]; [|by injection H as <-].
  destruct (transfer_client env t o) as [[m|]|e]; cbn in H; try done. unfold check in H.
  destruct (_ && _) eqn:E; [|done]. injection H as <-. apply andb_prop in E as [E1%bool_decide_eq_true E2%bool_decide_eq_true]. done.
Qed.

Lemma execute_stage_spec outs s o r : execute_stage sha256 env c deadline outs s = Ok (o, r) → ran outs s o r.
Proof.
  unfold execute_stage. destruct (raise_if_cancelled _ _ (TaskStart _)); [|done].
  destruct (c_placements c !! stage_id s) as [q|] eqn:Eq; [|done].
  destruct (map_res _ _) as [inputs|] eqn:Ei; [|done]. destruct (raise_if_cancelled _ _ (TaskInputs _)); [|done].
  destruct (node_client env (placed_node q) s inputs) as [ret|] eqn:En; [|done]. cbn [outcome].
  destruct (raise_if_cancelled _ _ (TaskEnd _)); [|done]. destruct ret as [x|]; [|done].
  unfold check. destruct (Z.eqb_spec (Zlen x) (output_bytes s)) as [E|]; [|done]. intros [= <- <-].
  exists q, inputs. split_and!; try done. apply map_res_Ok in Ei. eapply Forall2_impl; [exact Ei|]. apply stage_input_spec.
Qed.

(** ** The rounds *)

Record exec_inv (st : ExecState) : Prop := {
  ei_pending : pending st = dom (c_stages c) ∖ dom (outputs st);
  ei_outputs : ∀ i o, outputs st !! i = Some o → ∃ s r, s ∈ stages ∧ stage_id s = i ∧
    stage_results st !! i = Some r ∧ ran (outputs st) s o r;
  ei_results : dom (stage_results st) = dom (outputs st);
  ei_peak : 0 <= peak st <= map_sum (λ v, Zlen v) (outputs st);
}.

Lemma commit_inv st s o r :
  exec_inv st → s ∈ stages → stage_id s ∈ pending st → ran (outputs st) s o r →
  exec_inv (commit st (stage_id s, (o, r))) ∧ outputs st ⊆ outputs (commit st (stage_id s, (o, r))).
Proof.
  intros [H1 H2 H3 H4] Hs Hp Hr.
  assert (Hfresh : outputs st !! stage_id s = None).
  { rewrite H1 in Hp. apply not_elem_of_dom. set_solver. }
  assert (Hsub : outputs st ⊆ <[stage_id s := o]> (outputs st)) by by apply insert_subseteq.
  split; [|done]. split; cbn [commit pending outputs stage_results peak fst snd].
  - rewrite dom_insert_L, H1. set_solver.
  - intros i x Hx. destruct (decide (i = stage_id s)) as [->|Hne].
    + rewrite lookup_insert_eq in Hx. injection Hx as <-. exists s, r. split_and!; [done|done|apply lookup_insert_eq|].
      by eapply ran_mono.
    + rewrite lookup_insert_ne in Hx by done. destruct (H2 i x Hx) as (s' & r' & Hs' & Hid & Hres & Hran). exists s', r'.
      split_and!; [done|done|by rewrite lookup_insert_ne|by eapply ran_mono].
  - by rewrite !dom_insert_L, H3.
  - rewrite map_sum_insert by done. pose proof (Zlen_nonneg o). lia.
Qed.

Lemma commit_wave_inv outs wave : ∀ st,
  exec_inv st → outs ⊆ outputs st → NoDup wave.*1 → (∀ i, i ∈ wave.*1 → i ∈ pending st) →
  (∀ w, w ∈ wave → ∃ s, s ∈ stages ∧ stage_id s = w.1 ∧ ran outs s w.2.1 w.2.2) →
  exec_inv (foldl commit st wave) ∧ pending (foldl commit st wave) = pending st ∖ list_to_set wave.*1.
Proof.
  induction wave as [|[i [o r]] wave IH]; intros st Hinv Hsub Hnd Hp Hr; cbn [foldl].
  { split; [done|]. cbn. set_solver. }
  destruct (Hr (i, (o, r)) ltac:(left)) as (s & Hs & Hid & Hran). cbn in Hid, Hran. subst i.
  cbn in Hnd. apply NoDup_cons in Hnd as [Hno Hnd].
  destruct (commit_inv st s o r Hinv Hs) as [Hinv' Hsub']; [apply Hp; by left|by eapply ran_mono|].
  destruct (IH (commit st (stage_id s, (o, r))) Hinv') as [H1 H2]; [by etrans|done| | |].
  - intros j Hj. cbn. specialize (Hp j ltac:(by right)). set_solver.
  - intros w Hw. apply Hr. by right.
  - split; [done|]. rewrite H2. cbn. set_solver.
Qed.

Lemma stages_sum : map_sum output_bytes (c_stages c) = Zsum (output_bytes <$> stages).
Proof.
  assert (Hnd : NoDup ((λ s, (stage_id s, s)) <$> stages).*1) by (rewrite <-list_fmap_compose; exact (ac_NoDup _ _ _ _ Hacc)).
  assert (c_stages c = list_to_map ((λ s, (stage_id s, s)) <$> stages)) as ->.
  { apply map_eq. intros i. apply option_eq. intros s. rewrite (ac_stages _ _ _ _ Hacc), <-elem_of_list_to_map, list_elem_of_fmap by done.
    split; [intros [Hs <-]; by exists s|]. intros (s' & [= -> ->] & Hs). done. }
  rewrite map_sum_list_to_map by done. by rewrite <-list_fmap_compose.
Qed.

(** The outputs held never exceed what the stages declare. *)
Lemma resident_bound st :
  exec_inv st → map_sum (λ v, Zlen v) (outputs st) <= Zsum (output_bytes <$> stages) ∧
  (pending st = ∅ → map_sum (λ v, Zlen v) (outputs st) = Zsum (output_bytes <$> stages)).
Proof.
  intros [H1 H2 _ _]. rewrite <-stages_sum.
  assert (Hsub : dom (outputs st) ⊆ dom (c_stages c)).
  { intros i Hi. apply elem_of_dom in Hi as [o Ho]. destruct (H2 i o Ho) as (s & _ & Hs & Hid & _).
    apply elem_of_dom. exists s. by apply (ac_stages _ _ _ _ Hacc). }
  destruct (map_sum_agree (λ v : Payload, Zlen v) output_bytes (outputs st) (c_stages c)) as [Hle Heq].
  - intros i o Ho. destruct (H2 i o Ho) as (s & r & Hs & Hid & _ & (q & ins & _ & _ & _ & Hlen & _)).
    exists s. split; [by apply (ac_stages _ _ _ _ Hacc)|done].
  - intros i s Hs. apply (ac_stages _ _ _ _ Hacc) in Hs as [Hs _]. by apply Hsizes.
  - split; [done|]. intros Hp. apply Heq, (anti_symm (⊆)); [done|]. rewrite H1 in Hp. clear -Hp. set_solver.
Qed.

Lemma runnable_iff outs i :
  runnable c outs i = true ↔ ∃ s, s ∈ stages ∧ stage_id s = i ∧ ∀ d, d ∈ dependencies s → is_Some (outs !! d).
Proof.
  unfold runnable. destruct (c_stages c !! i) as [s|] eqn:Es.
  - apply (ac_stages _ _ _ _ Hacc) in Es as [Hs Hid]. rewrite forallb_forall. setoid_rewrite <-list_elem_of_In. split.
    + intros H. exists s. split_and!; [done|done|]. intros d Hd. specialize (H d Hd). destruct (outs !! d); [by eexists|done].
    + intros (s' & Hs' & Hid' & H) d Hd. rewrite (name_inj stage_id stages s' s) in H by (done || congruence || apply Hacc).
      by destruct (H d Hd) as [o ->].
  - split; [done|]. intros (s & Hs & Hid & _). by rewrite (proj2 (ac_stages _ _ _ _ Hacc i s)) in Es.
Qed.
Lemma ready_iff st i : i ∈ ready_tasks c (pending st) (outputs st) ↔ i ∈ pending st ∧ runnable c (outputs st) i = true.
Proof. unfold ready_tasks. rewrite elem_of_sorted_by, list_elem_of_filter, elem_of_elements. tauto. Qed.
Lemma ready_NoDup st : NoDup (ready_tasks c (pending st) (outputs st)).
Proof. unfold ready_tasks. rewrite sorted_by_Permutation. apply NoDup_filter, NoDup_elements. Qed.

Lemma run_wave_spec outs ready wave :
  run_wave sha256 env c deadline outs ready = Ok wave →
  wave.*1 = ready ∧ ∀ w, w ∈ wave → ∃ s, s ∈ stages ∧ stage_id s = w.1 ∧ ran outs s w.2.1 w.2.2.
Proof.
  intros H. apply map_res_Ok in H. induction H as [|i w ready wave Hw _ [IH1 IH2]]; [split; [done|intros w Hw; by apply elem_of_nil in Hw]|].
  destruct (c_stages c !! i) as [s|] eqn:Es; [|done]. destruct (execute_stage _ _ _ _ _ s) as [[o r]|] eqn:Er; [|done].
  injection Hw as <-. rewrite fmap_cons, IH1. split; [done|]. intros w [->|Hw]%elem_of_cons; [|by apply IH2].
  apply (ac_stages _ _ _ _ Hacc) in Es as [Hs Hid]. exists s. split_and!; [done|done|by apply execute_stage_spec].
Qed.

(** No step of a round raises a [MemoryError] of its own. *)
Definition no_memory_error {A} (x : res ExecError A) : Prop := ∀ m, x ≠ Raise (MemoryError m).
Lemma cancel_no_memory pt : no_memory_error (raise_if_cancelled env deadline pt).
Proof. intros m. unfold raise_if_cancelled. destruct (cancelled env pt), deadline as [d|]; try done. by destruct (fleb _ _). Qed.
Lemma input_no_memory outs s d : no_memory_error (stage_input sha256 env c outs s d).
Proof.
  intros m. unfold stage_input. destruct (outs !! d) as [o|]; [|done]. destruct (c_transfers c !! _) as [t|]; [|done].
  destruct (transfer_client env t o) as [[x|]|]; cbn; try done. unfold check. by destruct (_ && _).
Qed.
Lemma stage_no_memory outs s : no_memory_error (execute_stage sha256 env c deadline outs s).
Proof.
  intros m H. unfold execute_stage in H.
  destruct (raise_if_cancelled _ _ (TaskStart _)) eqn:E1; [|injection H as ->; by apply cancel_no_memory in E1].
  destruct (c_placements c !! _) as [q|]; [|done].
  destruct (map_res _ _) as [ins|] eqn:E2.
  2:{ injection H as ->. apply map_res_Raise in E2 as (d & _ & E2). by apply input_no_memory in E2. }
  destruct (raise_if_cancelled _ _ (TaskInputs _)) eqn:E3; [|injection H as ->; by apply cancel_no_memory in E3].
  destruct (outcome _) as [ret|e] eqn:E4.
  2:{ injection H as ->. by destruct (node_client env (placed_node q) s ins). }
  destruct (raise_if_cancelled _ _ (TaskEnd _)) eqn:E5; [|injection H as ->; by apply cancel_no_memory in E5].
  destruct ret; [|done]. unfold check in H. by destruct (_ =? _).
Qed.
Lemma wave_no_memory outs ready : no_memory_error (run_wave sha256 env c deadline outs ready).
Proof.
  intros m H. apply map_res_Raise in H as (i & _ & H). destruct (c_stages c !! i) as [s|]; [|done].
  destruct (execute_stage _ _ _ _ outs s) as [r|e] eqn:E; [done|]. injection H as ->. by apply stage_no_memory in E.
Qed.

Definition round_inv (st : ExecState) : Prop := exec_inv st ∧ peak st = map_sum (λ v, Zlen v) (outputs st).

Lemma round_spec n st :
  round_inv st →
  match round sha256 env c deadline n st with
  | Ok st' => round_inv st' ∧ pending st' ⊂ pending st
  | Raise e => ∀ m, e ≠ MemoryError m
  end.
Proof.
  intros [Hinv _]. unfold round. destruct (raise_if_cancelled _ _ (RoundStart n)) as [|e] eqn:E1.
  2:{ intros m ->. by apply cancel_no_memory in E1. }
  destruct (ready_tasks c (pending st) (outputs st)) as [|i0 l] eqn:Er; [done|]. rewrite <-Er.
  destruct (run_wave _ _ _ _ _ _) as [wave|e] eqn:Ew.
  2:{ intros m ->. by apply wave_no_memory in Ew. }
  destruct (raise_if_cancelled _ _ (RoundEnd n)) as [|e] eqn:E2; [|intros m ->; by apply cancel_no_memory in E2].
  apply run_wave_spec in Ew as [Hids Hran].
  destruct (commit_wave_inv (outputs st) wave st Hinv) as [Hinv' Hp]; [done|rewrite Hids; apply ready_NoDup| |done|].
  { intros i Hi. rewrite Hids in Hi. by apply ready_iff in Hi as [? _]. }
  cbv zeta. destruct (resident_bound _ Hinv') as [Hle _]. pose proof (ac_bound _ _ _ _ Hacc) as Hb.
  unfold check. destruct (Z.leb_spec (map_sum (λ v, Zlen v) (outputs (foldl commit st wave))) (maximum_result_bytes c)); [|lia].
  destruct Hinv' as [I1 I2 I3 I4]. split.
  - split; [split; cbn [pending outputs stage_results peak]; [done|done|done|lia]|cbn [peak outputs]; lia].
  - cbn [pending]. rewrite Hp, Hids. assert (i0 ∈ pending st ∧ i0 ∈ ready_tasks c (pending st) (outputs st)) as [H0 H1].
    { rewrite Er. split; [|left]. by apply (ready_iff st i0); rewrite Er; left. }
    set_solver.
Qed.

Lemma loop_spec fuel : ∀ n st,
  round_inv st → (size (pending st) <= fuel)%nat →
  match rounds_loop sha256 env c deadline fuel n st with
  | Ok st' => round_inv st' ∧ pending st' = ∅
  | Raise e => ∃ n' st', round_inv st' ∧ pending st' ≠ ∅ ∧ round sha256 env c deadline n' st' = Raise e
  end.
Proof.
  induction fuel as [|fuel IH]; intros n st Hinv Hf; cbn [rounds_loop];
    destruct (bool_decide (pending st = ∅)) eqn:Ep; breflect; try done.
  { exfalso. apply Ep, leibniz_equiv, size_empty_iff. lia. }
  pose proof (round_spec n st Hinv) as Hr. destruct (round _ _ _ _ n st) as [st'|e] eqn:Er.
  - destruct Hr as [Hinv' Hss]. apply IH; [done|]. apply subset_size in Hss. lia.
  - by exists n, st.
Qed.
Lemma init_inv : round_inv (mkExec (dom (c_stages c)) ∅ ∅ 0).
Proof.
  clear Hacc Hsizes. split; [split; cbn [pending outputs stage_results peak]|]; rewrite ?dom_empty_L, ?map_sum_empty; try done.
  by rewrite difference_empty_L.
Qed.

(** When nothing is pending, every stage has an output and a result. *)
Lemma final_dom st : exec_inv st → pending st = ∅ → dom (outputs st) = list_to_set (stage_id <$> stages).
Proof.
  intros [H1 H2 H3 _] Hdone. assert (Hc : dom (c_stages c) = list_to_set (stage_id <$> stages)).
  { apply set_eq. intros i. rewrite elem_of_dom, elem_of_list_to_set, list_elem_of_fmap. split.
    - intros [s Hs]. apply (ac_stages _ _ _ _ Hacc) in Hs as [Hs <-]. by exists s.
    - intros (s & -> & Hs). exists s. by apply (ac_stages _ _ _ _ Hacc). }
  rewrite <-Hc. apply (anti_symm (⊆)); [|rewrite H1 in Hdone; clear -Hdone; set_solver].
  intros i Hi. apply elem_of_dom in Hi as [o Ho]. destruct (H2 i o Ho) as (s & _ & Hs & Hid & _).
  apply elem_of_dom. exists s. by apply (ac_stages _ _ _ _ Hacc).
Qed.
Lemma final_results st i :
  exec_inv st → i ∈ dom (stage_results st) → ∃ s o r, stage_results st !! i = Some r ∧ s ∈ stages ∧ stage_id s = i ∧
    outputs st !! i = Some o ∧ ran (outputs st) s o r ∧ result_stage r = i.
Proof.
  clear Hacc Hsizes. intros [_ H2 H3 _] Hi. rewrite H3 in Hi. apply elem_of_dom in Hi as [o Ho].
  destruct (H2 i o Ho) as (s & r & Hs & Hid & Hr & Hran). exists s, o, r. split_and!; try done.
  by destruct Hran as (q & ins & _ & _ & _ & _ & ->).
Qed.
End runs.

(** ** Plans of the planner are accepted *)

Lemma plan_placement nodes links stages shards previous p q :
  NoDup (stage_id <$> stages) → valid_plan nodes links stages shards previous p → q ∈ placements p →
  ∃ s n pre post, s ∈ stages ∧ stage_id s = placed_stage q ∧ reserved_bytes q = resident_bytes s ∧ n ∈ nodes ∧ placed_node q = node_id n ∧
    placements p = pre ++ q :: post ∧
    ∀ d, d ∈ dependencies s → ∃ c, dep_cost links stages pre (placed_node q) d c.
Proof.
  intros Hnd Hv (pre & post & Hsplit)%list_elem_of_split.
  destruct (vp_placed _ _ _ _ _ _ Hv _ _ _ Hsplit) as (s & n & c & H1 & H2 & H3 & H4 & H5 & (_ & _ & _ & cs & Hcs & _) & _).
  exists s, n, pre, post. split_and!; try done. intros d [i Hi]%list_elem_of_lookup.
  destruct (Forall2_lookup_l _ _ _ _ _ Hcs Hi) as (x & _ & Hx). exists x. by rewrite H5.
Qed.

Section acceptance.
Context (nodes : list FabricNode) (links : list FabricLink) (stages : list FabricStage) (shards : list DistributedStateShard).
Context (previous : option MultiMacExecutionPlan) (p : MultiMacExecutionPlan).
Context (Hnd : NoDup (stage_id <$> stages)) (Hv : valid_plan nodes links stages shards previous p).

Lemma plan_ids : placed_stage <$> placements p ≡ₚ stage_id <$> stages.
Proof. destruct (vp_order _ _ _ _ _ _ Hv) as (ordered & Ho & _ & ->). by rewrite Ho. Qed.
Lemma plan_lookup i q : dict_of placed_stage (placements p) !! i = Some q ↔ q ∈ placements p ∧ placed_stage q = i.
Proof. apply dict_of_lookup. by rewrite plan_ids. Qed.
Lemma plan_acyclic : stage_acyclic stages.
Proof. destruct (vp_order _ _ _ _ _ _ Hv) as (ordered & Ho & Hb & _). by apply (deps_before_acyclic _ _ stages ordered). Qed.

Lemma plan_unique q q' : q ∈ placements p → q' ∈ placements p → placed_stage q = placed_stage q' → q = q'.
Proof. intros Hq Hq' Heq. apply (name_inj placed_stage (placements p)); [by rewrite plan_ids|done..]. Qed.

(** The transfers are exactly the edges that cross nodes. *)
Lemma plan_edges s d :
  s ∈ stages → d ∈ dependencies s →
  ∃ a b, dict_of placed_stage (placements p) !! d = Some a ∧ dict_of placed_stage (placements p) !! stage_id s = Some b ∧
    (placed_node a ≠ placed_node b ↔
     is_Some (dict_of (λ t, (source_stage t, destination_stage t)) (transfers p) !! (d, stage_id s))).
Proof.
  intros Hs Hd. destruct (vp_transfers _ _ _ _ _ _ Hv) as [Hkeys Hiff].
  assert (Hin : stage_id s ∈ placed_stage <$> placements p) by (rewrite plan_ids; by apply (list_elem_of_fmap_2 stage_id)).
  apply list_elem_of_fmap in Hin as (b & Hb & Hbin).
  destruct (plan_placement _ _ _ _ _ _ b Hnd Hv Hbin) as (s' & n & pre & post & Hs' & Hid & _ & _ & _ & Hsplit & Hcost).
  rewrite (name_inj stage_id stages s' s) in Hcost by (done || congruence).
  destruct (Hcost d Hd) as (x & a & sd & Ha & Had & Hsd & Hsdid & Hx).
  assert (Hain : a ∈ placements p) by (rewrite Hsplit; apply elem_of_app; by left).
  exists a, b. split_and!; [by apply plan_lookup|by apply plan_lookup|]. split.
  - intros Hne. rewrite decide_False in Hx by done. destruct Hx as (l & Hl & _).
    exists (mkTransfer d (stage_id s) (placed_node a) (placed_node b) (transport l) (output_bytes sd)
              (link_cost l (output_bytes sd)) (measurement_id l)).
    apply dict_of_lookup; [done|]. split; [|done]. apply Hiff. exists s, b, d. split_and!; try done. by exists a, sd, l.
  - intros [t Ht]. apply dict_of_lookup in Ht as [Ht Hkey]; [|done]. apply Hiff in Ht as (s2 & b2 & d2 & Hs2 & Hb2 & Hbid & _ & Ht).
    destruct Ht as (a2 & sd2 & l2 & Ha2 & Had2 & Hne & _ & _ & _ & ->). cbn in Hkey. injection Hkey as -> Hid2.
    rewrite (plan_unique a a2) by (done || congruence). by rewrite (plan_unique b b2) by (done || congruence).
Qed.

Lemma plan_accepted clients concurrency maximum_bytes :
  stages ≠ [] → (∀ n, n ∈ nodes → node_id n ∈ clients) → 1 <= concurrency <= 64 →
  1 <= maximum_bytes <= MAX_MULTI_MAC_RESULT_BYTES → Zsum (output_bytes <$> stages) <= maximum_bytes →
  ∃ c, new_coordinator p stages clients concurrency maximum_bytes = Ok c.
Proof.
  intros Hne Hcli Hcon Hmax Hsum. unfold new_coordinator.
  replace (negb _) with false by (symmetry; rewrite negb_false_iff, !andb_true_iff, !Z.leb_le; lia). cbv zeta.
  assert (Hall : bool_decide (stages = []) || negb (Zsize (dict_of stage_id stages) =? Zlen stages)
     || negb (bool_decide (dom (dict_of stage_id stages) = dom (dict_of placed_stage (placements p))))
     || existsb (λ q, match dict_of stage_id stages !! q.1 with
                      | Some s => negb (reserved_bytes q.2 =? resident_bytes s)
                      | None => false
                      end) (map_to_list (dict_of placed_stage (placements p)))
     || existsb (λ q, bool_decide (placed_node q ∉ clients)) (placements p)
     || (Zsum (output_bytes <$> stages) >? maximum_bytes) = false).
  { rewrite !orb_false_iff. split_and!.
    - by apply bool_decide_eq_false.
    - apply negb_false_iff, Z.eqb_eq. by apply dict_of_full.
    - apply negb_false_iff, bool_decide_eq_true. rewrite !dict_of_dom. apply set_eq. intros i. by rewrite !elem_of_list_to_set, plan_ids.
    - apply not_true_iff_false. intros ([i q] & Hq & E)%existsb_exists. apply list_elem_of_In, elem_of_map_to_list, plan_lookup in Hq as [Hq Hqi].
      destruct (plan_placement _ _ _ _ _ _ q Hnd Hv Hq) as (s & _ & _ & _ & Hs & Hid & Hres & _). cbn in E, Hqi. subst i.
      rewrite (proj2 (dict_of_lookup stage_id stages (placed_stage q) s Hnd)) in E by done. by rewrite Hres, Z.eqb_refl in E.
    - apply not_true_iff_false. intros (q & Hq & E%bool_decide_eq_true)%existsb_exists. apply list_elem_of_In in Hq.
      destruct (plan_placement _ _ _ _ _ _ q Hnd Hv Hq) as (_ & n & _ & _ & _ & _ & _ & Hn & Hnode & _). apply E. rewrite Hnode. by apply Hcli.
    - rewrite Z.gtb_ltb. by apply Z.ltb_ge. }
  rewrite Hall. clear Hall.
  rewrite (proj2 (dict_of_full (λ t, (source_stage t, destination_stage t)) (transfers p))) by apply (vp_transfers _ _ _ _ _ _ Hv).
  rewrite Z.eqb_refl. cbn [negb].
  assert (fold_res (λ _ s, edges_check (dict_of placed_stage (placements p))
            (dict_of (λ t, (source_stage t, destination_stage t)) (transfers p)) s) stages () = Ok ()) as ->; [|by eexists].
  apply fold_res_checks. intros s Hs. apply edges_check_spec. intros d Hd. by apply plan_edges.
Qed.
End acceptance.

(** ** The report *)

Lemma stage_check_output s : stage_check s = Ok () → 0 <= output_bytes s.
Proof.
  unfold stage_check. rewrite checks_Ok. intros [_ [_ [H _]%Forall_cons]%Forall_cons]%Forall_cons.
  apply check_Ok in H. breflect. lia.
Qed.

(** C9: a report is the trace of a correct run.  When [execute] returns, there is one
    output per stage such that every stage ran on the node of the plan with the outputs
    of its dependencies as inputs, each moved by its transfer when the plan lists one,
    with its length and digest unchanged; the output has the declared length; the
    report has one line per stage, in the order of their names, with its node, length
    and digest; and the peak is the sum of all outputs, within the limit.  When it
    raises, it is never because the outputs exceeded the limit. *)
Theorem execution_faithful sha256 env deadline p stages clients concurrency maximum_bytes c :
  Forall (λ s, stage_check s = Ok ()) stages →
  new_coordinator p stages clients concurrency maximum_bytes = Ok c →
  match execute sha256 env c deadline with
  | Ok report =>
      ∃ outs, dom outs = list_to_set (stage_id <$> stages) ∧
        result_stage <$> results report = sorted_by String.leb (elements (dom outs)) ∧
        (∀ r, r ∈ results report → ∃ s o, s ∈ stages ∧ stage_id s = result_stage r ∧ outs !! stage_id s = Some o ∧
                                    ran sha256 env c outs s o r) ∧
        peak_result_bytes report = Zsum (output_bytes <$> stages) ∧
        peak_result_bytes report <= maximum_bytes ∧ report_plan report = plan_id p
  | Raise e => ∀ m, e ≠ MemoryError m
  end.
Proof.
  intros Hchk Hnew. rewrite Forall_forall in Hchk. pose proof (new_coordinator_accepted _ _ _ _ _ _ Hnew) as Hacc.
  assert (Hmax : maximum_result_bytes c = maximum_bytes).
  { unfold new_coordinator in Hnew. cbv zeta in Hnew. by run_cases Hnew. }
  assert (Hsizes : ∀ s, s ∈ stages → 0 <= output_bytes s) by (intros s Hs; by apply stage_check_output, Hchk).
  unfold execute.
  pose proof (loop_spec sha256 env deadline p stages clients c Hacc Hsizes (size (c_stages c)) 0 _
    (init_inv sha256 env stages c) ltac:(cbn [pending]; by rewrite size_dom)) as Hloop.
  destruct (rounds_loop _ _ _ _ _ _ _) as [st|e].
  2:{ destruct Hloop as (n & st & Hinv & _ & Hr). pose proof (round_spec sha256 env deadline p stages clients c Hacc Hsizes n st Hinv) as H.
      by rewrite Hr in H. }
  destruct Hloop as [[Hinv Hpeak] Hdone].
  destruct (resident_bound sha256 env p stages clients c Hacc Hsizes st Hinv) as [_ Hsum]. specialize (Hsum Hdone).
  pose proof (ac_bound _ _ _ _ Hacc) as Hb.
  pose proof (final_dom _ _ _ _ _ _ Hacc st Hinv Hdone) as Hdom. pose proof (final_results sha256 env stages c st) as Hres.
  pose proof (ei_results _ _ _ _ _ Hinv) as H3.
  exists (outputs st). cbn [results peak_result_bytes report_plan]. split_and!; [done| | |lia|lia|by rewrite (ac_plan _ _ _ _ Hacc)].
  - rewrite <-H3. set (l := sorted_by _ _). assert (Hl : ∀ i, i ∈ l → i ∈ dom (stage_results st)).
    { intros i. unfold l. by rewrite elem_of_sorted_by, elem_of_elements. }
    clearbody l. induction l as [|i l IH]; [done|]. cbn. destruct (Hres i Hinv (Hl i ltac:(left))) as (s & o & r & -> & _ & _ & _ & _ & Hid).
    cbn. rewrite IH, Hid by (intros j Hj; apply Hl; by right). done.
  - intros r (i & Hi & Hr)%list_elem_of_omap. rewrite elem_of_sorted_by, elem_of_elements in Hi.
    destruct (Hres i Hinv Hi) as (s & o & r' & Hr' & Hs & Hid & Ho & Hran & Hri). rewrite Hr in Hr'. injection Hr' as <-.
    exists s, o. subst i. split_and!; [done|by rewrite Hri|done|done].
Qed.

(** ** Completion *)

(** No cancellation, no expired deadline, transfers that deliver what they were given
    and nodes that return outputs of the declared length. *)
Record keeps_contract (env : Environment) (deadline : option float) (stages : list FabricStage) : Prop := {
  kc_event : ∀ pt, cancelled env pt = false;
  kc_clock : ∀ pt d, deadline = Some d → fleb d (monotonic env pt) = false;
  kc_transfer : ∀ t payload, transfer_client env t payload = Ok (Some payload);
  kc_node : ∀ n s inputs, s ∈ stages → ∃ o, node_client env n s inputs = Ok (Some o) ∧ Zlen o = output_bytes s;
}.

Section completion.
Context (sha256 : Payload → string) (env : Environment) (deadline : option float).
Context (p : MultiMacExecutionPlan) (stages : list FabricStage) (clients : list string) (c : MultiMacExecutionCoordinator).
Context (Hacc : accepted p stages clients c) (Hkeep : keeps_contract env deadline stages).

Lemma not_cancelled pt : raise_if_cancelled env deadline pt = Ok ().
Proof.
  unfold raise_if_cancelled. rewrite (kc_event _ _ _ Hkeep). destruct deadline as [d|] eqn:E; [|done].
  by rewrite (kc_clock _ _ _ Hkeep pt d).
Qed.
Lemma stage_completes outs s :
  s ∈ stages → (∀ d, d ∈ dependencies s → is_Some (outs !! d)) → is_ok (execute_stage sha256 env c deadline outs s) = true.
Proof.
  intros Hs Hd. unfold execute_stage. rewrite !not_cancelled.
  destruct (proj2 (ac_placed _ _ _ _ Hacc (stage_id s))) as [q ->]; [by apply (list_elem_of_fmap_2 stage_id)|].
  pose proof (map_res_total (stage_input sha256 env c outs s) (dependencies s)) as Hins.
  destruct (map_res _ _) as [inputs|e].
  2:{ apply Hins. intros d Hin. unfold stage_input. destruct (Hd d Hin) as [o ->]. destruct (c_transfers c !! _) as [t|]; [|done].
      rewrite (kc_transfer _ _ _ Hkeep). cbn. unfold check, str_eqb. by rewrite !bool_decide_eq_true_2. }
  destruct (kc_node _ _ _ Hkeep (placed_node q) s inputs Hs) as (o & -> & Hlen). cbn. unfold check. by rewrite Hlen, Z.eqb_refl.
Qed.

Lemma round_completes n st :
  stage_acyclic stages → (∀ s, s ∈ stages → 0 <= output_bytes s) → round_inv sha256 env stages c st → pending st ≠ ∅ →
  ∃ st', round sha256 env c deadline n st = Ok st'.
Proof.
  intros Hac Hsizes Hinv Hne. pose proof (round_spec sha256 env deadline p stages clients c Hacc Hsizes n st Hinv) as Hspec.
  destruct Hinv as [[H1 _ _ _] _].
  unfold round in *. rewrite !not_cancelled in *. destruct (ready_tasks c (pending st) (outputs st)) as [|i0 l] eqn:Er.
  - exfalso. apply (stuck_cyclic stage_id dependencies stages (elements (pending st))); [apply Hacc| | |done].
    + intros He. by apply Hne, leibniz_equiv, elements_empty_iff.
    + intros i Hi. apply elem_of_elements in Hi. pose proof Hi as Hi'. rewrite H1 in Hi'.
      apply elem_of_difference in Hi' as [[s Hs]%elem_of_dom _]. apply (ac_stages _ _ _ _ Hacc) in Hs as [Hs Hid].
      destruct (decide (Exists (λ d, outputs st !! d = None) (dependencies s))) as [(d & Hd & Hno)%Exists_exists|Hall].
      * exists d. split; [by exists s|]. apply elem_of_elements. rewrite H1. apply elem_of_difference.
        split; [|by apply not_elem_of_dom]. pose proof (ac_closed _ _ _ _ Hacc s d Hs Hd) as (x & -> & Hx)%list_elem_of_fmap.
        apply elem_of_dom. exists x. by apply (ac_stages _ _ _ _ Hacc).
      * exfalso. apply (not_elem_of_nil i). rewrite <-Er. apply ready_iff. split; [done|].
        apply (runnable_iff p stages clients c Hacc). exists s. split_and!; [done|done|]. intros d Hd.
        destruct (outputs st !! d) eqn:E; [done|]. exfalso. apply Hall, Exists_exists. by exists d.
  - rewrite <-Er in *. pose proof (map_res_total (λ i, match c_stages c !! i with
                | None => Raise (Other (KeyError i))
                | Some s => match execute_stage sha256 env c deadline (outputs st) s with Ok r => Ok (i, r) | Raise e => Raise e end
                end) (ready_tasks c (pending st) (outputs st))) as Hwave.
    unfold run_wave in *. destruct (map_res _ _) as [wave|e].
    + cbv zeta in *. unfold check in *. destruct (_ <=? _); [by eexists|]. by destruct (Hspec "Multi-Mac result memory exceeded its bound").
    + exfalso. enough (@is_ok ExecError (list (string * (Payload * MultiMacStageResult))) (Raise e) = true) by done. apply Hwave.
      intros i [_ Hi]%ready_iff. apply (runnable_iff p stages clients c Hacc) in Hi as (s & Hs & Hid & Hd).
      rewrite (proj2 (ac_stages _ _ _ _ Hacc i s)) by done. pose proof (stage_completes (outputs st) s Hs Hd) as H.
      by destruct (execute_stage _ _ _ _ _ s).
Qed.
End completion.

(** C10: what the planner plans, the coordinator accepts and completes.  Given a client
    for every node and outputs that fit the limit, the coordinator accepts a plan the
    planner built for its stages; and with clients that keep their contract and
    neither cancellation nor an expired deadline, [execute] returns a report. *)
Theorem planned_execution_completes set_order plan_digest nodes links stages shards previous p clients concurrency maximum_bytes :
  (∀ x, set_order x ≡ₚ elements x) →
  Forall (λ n, node_check n = Ok ()) nodes → Forall (λ s, stage_check s = Ok ()) stages →
  build_multi_mac_plan set_order plan_digest nodes links stages shards previous = Ok p →
  (∀ n, n ∈ nodes → node_id n ∈ clients) → 1 <= concurrency <= 64 → 1 <= maximum_bytes <= MAX_MULTI_MAC_RESULT_BYTES →
  Zsum (output_bytes <$> stages) <= maximum_bytes →
  ∃ c, new_coordinator p stages clients concurrency maximum_bytes = Ok c ∧
    ∀ sha256 env deadline, keeps_contract env deadline stages → ∃ report, execute sha256 env c deadline = Ok report.
Proof.
  intros Hset Hn Hs Hbuild Hcli Hcon Hmax Hsum.
  destruct (build_inputs _ _ _ _ _ _ _ _ Hbuild) as (_ & _ & _ & Hlen & Hnd & _ & _).
  pose proof (build_valid set_order Hset plan_digest nodes links stages shards previous p Hn Hs Hbuild) as Hv.
  destruct (plan_accepted nodes links stages shards previous p Hnd Hv clients concurrency maximum_bytes) as [c Hc]; try done.
  { intros ->. unfold Zlen in Hlen. cbn in Hlen. lia. }
  exists c. split; [done|]. intros sha256 env deadline Hkeep. pose proof (new_coordinator_accepted _ _ _ _ _ _ Hc) as Hacc.
  assert (Hsizes : ∀ s, s ∈ stages → 0 <= output_bytes s).
  { intros s Hin. rewrite Forall_forall in Hs. by apply stage_check_output, Hs. }
  unfold execute. pose proof (loop_spec sha256 env deadline p stages clients c Hacc Hsizes (size (c_stages c)) 0 _
    (init_inv sha256 env stages c) ltac:(cbn [pending]; by rewrite size_dom)) as Hloop.
  destruct (rounds_loop _ _ _ _ _ _ _) as [st|e]; [by eexists|]. exfalso. destruct Hloop as (n & st & Hinv & Hne & Hr).
  destruct (round_completes sha256 env deadline p stages clients c Hacc Hkeep n st) as [st' Hok]; [|done|done|done|congruence].
  by eapply plan_acyclic.
Qed.

(** ** Witnesses *)

Definition demo_sha (l : Payload) : string := "sha".
Definition demo_env : Environment :=
  mkEnvironment (λ _, false) (λ _, zero) (λ _, 0) (λ _ x, Ok (Some x))
    (λ _ s _, Ok (Some (replicate (Z.to_nat (output_bytes s)) 7))).
Definition demo_coordinator : MultiMacExecutionCoordinator :=
  mkCoordinator demo_plan (dict_of stage_id demo_stages) (dict_of placed_stage (placements demo_plan))
    (dict_of (λ t, (source_stage t, destination_stage t)) (transfers demo_plan)) 5000.
Definition demo_report : MultiMacExecutionReport :=
  mkReport "digest" [mkStageResult "decode" "studio" 8 "sha" 0; mkStageResult "encode" "mini" 4000 "sha" 0;
                     mkStageResult "prefill" "mini" 16 "sha" 0] 4024 0.
Lemma demo_accepted : new_coordinator demo_plan demo_stages ["mini"; "studio"; "old"] 8 5000 = Ok demo_coordinator.
Proof. vm_compute. reflexivity. Qed.
Lemma demo_executes : execute demo_sha demo_env demo_coordinator (Some (of_Z 9)) = Ok demo_report.
Proof. vm_compute. reflexivity. Qed.

Lemma execution_faithful_witness :
  ∃ outs : gmap string Payload, dom outs = list_to_set (stage_id <$> demo_stages) ∧
    ∃ s o, s ∈ demo_stages ∧ stage_id s = "decode" ∧ outs !! stage_id s = Some o ∧
      ran demo_sha demo_env demo_coordinator outs s o (mkStageResult "decode" "studio" 8 "sha" 0).
Proof.
  pose proof (execution_faithful demo_sha demo_env (Some (of_Z 9)) demo_plan demo_stages ["mini"; "studio"; "old"] 8 5000 demo_coordinator
                ltac:(repeat constructor) demo_accepted) as H.
  rewrite demo_executes in H. destruct H as (outs & Hdom & _ & Hr & _). exists outs. split; [exact Hdom|].
  exact (Hr _ ltac:(left)).
Defined.

Lemma demo_keeps : keeps_contract demo_env (Some (of_Z 9)) demo_stages.
Proof.
  split; cbn; try done.
  - intros pt d [= <-]. done.
  - intros n s inputs Hs. eexists. split; [done|]. unfold Zlen. rewrite length_replicate.
    assert (0 <= output_bytes s); [|lia]. apply stage_check_output. revert s Hs. apply Forall_forall. repeat constructor.
Qed.
Lemma planned_execution_completes_witness :
  ∃ c, new_coordinator demo_plan demo_stages ["mini"; "studio"; "old"] 8 5000 = Ok c ∧
    ∃ report, execute demo_sha demo_env c (Some (of_Z 9)) = Ok report.
Proof.
  destruct (planned_execution_completes elements demo_digest demo_nodes demo_links demo_stages demo_shards (Some demo_previous) demo_plan
              ["mini"; "studio"; "old"] 8 5000) as (c & Hc & Hrun).
  - intros x. reflexivity.
  - repeat constructor.
  - repeat constructor.
  - vm_compute. reflexivity.
  - intros n Hn. unfold demo_nodes in Hn. set_unfold in Hn. destruct Hn as [->|[->|[->|[]]]]; cbn; set_solver.
  - lia.
  - unfold MAX_MULTI_MAC_RESULT_BYTES. lia.
  - cbn. lia.
  - exists c. split; [exact Hc|]. exact (Hrun demo_sha demo_env (Some (of_Z 9)) demo_keeps).
Defined.

End MultiMacExecution.
