(* ===== verification/VisionBatching.v ===== *)
(** * Batches of vision encoder requests (vision_batching.py)

    Requests with the same compatibility are put into batches in their order, each as
    large as the limits allow, and no request is split. *)

From S2P Require Import Prelude Types OrderedDict PyBytes.

Module VisionBatching.
Import OrderedDict.

(** [VisionImageInput] of vision_frontend.py. *)
Record VisionImageInput := mkImage { media_type : string; data : PyBytes.bytes; sha256 : string }.

Record VisionBatchCompatibility := mkCompatibility {
  model_revision : string;
  preprocessing_fingerprint : string;
  encoder_fingerprint : string;
  image_shape : list Z;
}.
#[export] Instance compatibility_eq_dec : EqDecision VisionBatchCompatibility.
Proof. solve_decision. Defined.
(** [VisionBatchCompatibility.__post_init__] *)
Definition compatibility_check (c : VisionBatchCompatibility) : res exn () :=
  check (negb (str_eqb (model_revision c) "") && negb (str_eqb (preprocessing_fingerprint c) "")
         && negb (str_eqb (encoder_fingerprint c) "") && (Zlen (image_shape c) =? 3)
         && forallb (λ v, 0 <? v) (image_shape c))
    (ValueError "invalid vision batch compatibility") ().

Record VisionBatchRequest := mkRequest {
  request_id : string;
  compatibility : VisionBatchCompatibility;
  images : list VisionImageInput;
  patches_per_image : Z;
}.
(** [VisionBatchRequest.__post_init__] *)
Definition request_check (r : VisionBatchRequest) : res exn () :=
  check (negb (str_eqb (request_id r) "") && (str_len (request_id r) <=? 128)
         && (1 <=? Zlen (images r)) && (Zlen (images r) <=? 32)
         && (1 <=? patches_per_image r) && (patches_per_image r <=? 1048576))
    (ValueError "invalid vision batch request") ().
Definition image_count (r : VisionBatchRequest) : Z := Zlen (images r).
Definition patch_count (r : VisionBatchRequest) : Z := Zlen (images r) * patches_per_image r.
Definition encoded_bytes (r : VisionBatchRequest) : Z := Zsum ((λ i, Zlen (data i)) <$> images r).

Record VisionBatch := mkBatch {
  batch_compatibility : VisionBatchCompatibility;
  requests : list VisionBatchRequest;
  batch_images : Z;
  batch_patches : Z;
  batch_bytes : Z;
}.
(** [request_ids] *)
Definition request_ids (b : VisionBatch) : list string := request_id <$> requests b.

Record VisionBatchLimits := mkLimits {
  maximum_requests : Z;
  maximum_images : Z;
  maximum_patches : Z;
  maximum_encoded_bytes : Z;
}.
(** [VisionBatchLimits.__post_init__] *)
Definition limits_check (l : VisionBatchLimits) : res exn () :=
  check (forallb (λ v, 0 <? v) [maximum_requests l; maximum_images l; maximum_patches l; maximum_encoded_bytes l])
    (ValueError "invalid vision batch limits") ().

(** [_require_request_fits]; [repr] is the interpreter's. *)
Definition require_request_fits (repr : string → string) (r : VisionBatchRequest) (l : VisionBatchLimits) : res exn () :=
  if (image_count r >? maximum_images l) || (patch_count r >? maximum_patches l)
     || (encoded_bytes r >? maximum_encoded_bytes l)
  then Raise (ValueError ("vision request " +:+ repr (request_id r) +:+ " exceeds batch limits"))
  else Ok ().

(** [_make_batch] *)
Definition make_batch (c : VisionBatchCompatibility) (rs : list VisionBatchRequest) : VisionBatch :=
  mkBatch c rs (Zsum (image_count <$> rs)) (Zsum (patch_count <$> rs)) (Zsum (encoded_bytes <$> rs)).

(** The lists pending for each compatibility, in the order of their first request:
    [pending] and [compatibility_order]. *)
Definition Pending := list (VisionBatchCompatibility * list VisionBatchRequest).
Definition add_pending (p : Pending) (r : VisionBatchRequest) : Pending :=
  match od_get (compatibility r) p with
  | None => p ++ [(compatibility r, [r])]
  | Some rs => od_set (compatibility r) (rs ++ [r]) p
  end.
Definition group (repr : string → string) (l : VisionBatchLimits) (rs : list VisionBatchRequest) : res exn Pending :=
  fold_res (λ p r, match require_request_fits repr r l with Raise e => Raise e | Ok _ => Ok (add_pending p r) end) rs [].

(** [would_overflow] *)
Definition would_overflow (l : VisionBatchLimits) (current : list VisionBatchRequest) (i p b : Z) (r : VisionBatchRequest) : bool :=
  negb (bool_decide (current = []))
  && ((Zlen current + 1 >? maximum_requests l) || (i + image_count r >? maximum_images l)
      || (p + patch_count r >? maximum_patches l) || (b + encoded_bytes r >? maximum_encoded_bytes l)).
(** The loop over the requests of one compatibility. *)
Fixpoint pack (l : VisionBatchLimits) (c : VisionBatchCompatibility) (rs current : list VisionBatchRequest) (i p b : Z)
    : list VisionBatch :=
  match rs with
  | [] => if bool_decide (current = []) then [] else [make_batch c current]
  | r :: rs' =>
      if would_overflow l current i p b r
      then make_batch c current :: pack l c rs' [r] (image_count r) (patch_count r) (encoded_bytes r)
      else pack l c rs' (current ++ [r]) (i + image_count r) (p + patch_count r) (b + encoded_bytes r)
  end.

(** [plan_multimodal_batches] *)
Definition plan_multimodal_batches (repr : string → string) (rs : list VisionBatchRequest) (l : VisionBatchLimits) : res exn (list VisionBatch) :=
  if Zlen rs >? 4096 then Raise (ValueError "too many vision batch requests")
  else if negb (bool_decide (NoDup (request_id <$> rs)))
  then Raise (ValueError "vision batch request identifiers must be unique")
  else match group repr l rs with
  | Raise e => Raise e
  | Ok pending => Ok (mjoin ((λ g, pack l g.1 g.2 [] 0 0 0) <$> pending))
  end.

(** ** The groups *)

(** The compatibilities in the order of their first request. *)
Fixpoint first_uses (seen : list VisionBatchCompatibility) (rs : list VisionBatchRequest) : list VisionBatchCompatibility :=
  match rs with
  | [] => []
  | r :: rs' => if bool_decide (compatibility r ∈ seen) then first_uses seen rs'
                else compatibility r :: first_uses (compatibility r :: seen) rs'
  end.
Definition of_compatibility (c : VisionBatchCompatibility) (rs : list VisionBatchRequest) : list VisionBatchRequest :=
  filter (λ r, compatibility r = c) rs.

Definition fits (l : VisionBatchLimits) (r : VisionBatchRequest) : Prop :=
  image_count r <= maximum_images l ∧ patch_count r <= maximum_patches l ∧ encoded_bytes r <= maximum_encoded_bytes l.
#[export] Instance fits_dec l r : Decision (fits l r).
Proof. unfold fits. apply _. Defined.
Lemma require_fits_iff repr r l : require_request_fits repr r l = if decide (fits l r) then Ok ()
  else Raise (ValueError ("vision request " +:+ repr (request_id r) +:+ " exceeds batch limits")).
Proof.
  unfold require_request_fits. destruct (_ || _) eqn:E; destruct (decide (fits l r)) as [F|F]; try done; exfalso; unfold fits in F.
  - rewrite !orb_true_iff, !Z.gtb_lt in E. lia.
  - rewrite !orb_false_iff, !Z.gtb_ltb, !Z.ltb_ge in E. tauto.
Qed.

Lemma first_uses_snoc rs r : ∀ seen,
  first_uses seen (rs ++ [r]) =
    first_uses seen rs ++ if bool_decide (compatibility r ∈ seen ++ (compatibility <$> rs)) then [] else [compatibility r].
Proof.
  induction rs as [|x rs IH]; intros seen; cbn [first_uses app].
  - rewrite fmap_nil, app_nil_r. by destruct (bool_decide _).
  - destruct (bool_decide (compatibility x ∈ seen)) eqn:E; breflect; rewrite IH.
    + assert (Hiff : compatibility r ∈ seen ++ (compatibility <$> rs) ↔ compatibility r ∈ seen ++ (compatibility <$> x :: rs))
        by (rewrite fmap_cons, !elem_of_app, elem_of_cons; split; [tauto|intros [?|[->|?]]; tauto]).
      by rewrite (bool_decide_ext _ _ Hiff).
    + assert (Hiff : compatibility r ∈ compatibility x :: seen ++ (compatibility <$> rs) ↔
                     compatibility r ∈ seen ++ (compatibility <$> x :: rs))
        by (rewrite fmap_cons, elem_of_cons, !elem_of_app, elem_of_cons; tauto).
      cbn [app]. by rewrite (bool_decide_ext _ _ Hiff).
Qed.
Lemma elem_of_first_uses rs c : ∀ seen, c ∈ first_uses seen rs ↔ c ∈ compatibility <$> rs ∧ c ∉ seen.
Proof.
  induction rs as [|x rs IH]; intros seen; cbn [first_uses]; [set_solver|]. rewrite fmap_cons.
  destruct (bool_decide _) eqn:E; breflect; rewrite ?elem_of_cons, IH, ?elem_of_cons.
  - split; [tauto|]. intros [[->|?] ?]; tauto.
  - destruct (decide (c = compatibility x)) as [->|]; tauto.
Qed.
Lemma first_uses_NoDup rs : ∀ seen, NoDup (first_uses seen rs).
Proof.
  induction rs as [|x rs IH]; intros seen; cbn [first_uses]; [constructor|]. destruct (bool_decide _); [done|].
  apply NoDup_cons. split; [|done]. rewrite elem_of_first_uses, elem_of_cons. tauto.
Qed.

(** The pending lists after the requests [rs]. *)
Definition grouped (rs : list VisionBatchRequest) : Pending := (λ c, (c, of_compatibility c rs)) <$> first_uses [] rs.

Lemma of_compatibility_snoc c rs r :
  of_compatibility c (rs ++ [r]) = of_compatibility c rs ++ if decide (compatibility r = c) then [r] else [].
Proof. unfold of_compatibility. rewrite filter_app, filter_cons, filter_nil. done. Qed.
Lemma of_compatibility_fresh c rs : c ∉ compatibility <$> rs → of_compatibility c rs = [].
Proof.
  intros Hc. unfold of_compatibility. destruct (filter _ rs) as [|r l] eqn:E; [done|]. exfalso.
  assert (Hr : r ∈ filter (λ r, compatibility r = c) rs) by (rewrite E; left).
  apply list_elem_of_filter in Hr as [<- Hr]. by apply Hc, (list_elem_of_fmap_2 compatibility).
Qed.

Lemma od_set_fmap (f g : VisionBatchCompatibility → list VisionBatchRequest) k v cs :
  NoDup cs → k ∈ cs → (∀ c, c ≠ k → f c = g c) → g k = v →
  od_set k v ((λ c, (c, f c)) <$> cs) = (λ c, (c, g c)) <$> cs.
Proof.
  intros Hnd Hk Hfg Hv. induction cs as [|c cs IH]; [by apply elem_of_nil in Hk|]. cbn.
  apply NoDup_cons in Hnd as [Hno Hnd]. destruct (decide (k = c)) as [->|Hne].
  - subst v. f_equal. apply list_fmap_ext. intros i x Hx. apply list_elem_of_lookup_2 in Hx. f_equal. apply Hfg. congruence.
  - rewrite IH by (done || set_solver). by rewrite Hfg.
Qed.
Lemma add_pending_grouped rs r : add_pending (grouped rs) r = grouped (rs ++ [r]).
Proof.
  unfold add_pending, grouped. rewrite first_uses_snoc. cbn [app].
  destruct (bool_decide (compatibility r ∈ compatibility <$> rs)) eqn:E; breflect.
  - assert (Hin : compatibility r ∈ first_uses [] rs) by (apply elem_of_first_uses; split; [done|apply not_elem_of_nil]).
    assert (od_get (compatibility r) ((λ c, (c, of_compatibility c rs)) <$> first_uses [] rs)
            = Some (of_compatibility (compatibility r) rs)) as ->.
    { apply od_get_iff; [|by apply (list_elem_of_fmap_2 (λ c, (c, of_compatibility c rs)))].
      unfold od_wf. rewrite <-list_fmap_compose, list_fmap_id. apply first_uses_NoDup. }
    rewrite app_nil_r. apply od_set_fmap; [apply first_uses_NoDup|done| |].
    + intros c Hc. rewrite of_compatibility_snoc, decide_False by congruence. by rewrite app_nil_r.
    + by rewrite of_compatibility_snoc, decide_True.
  - assert (od_get (compatibility r) ((λ c, (c, of_compatibility c rs)) <$> first_uses [] rs) = None) as ->.
    { apply od_get_None. rewrite <-list_fmap_compose, list_fmap_id, elem_of_first_uses. tauto. }
    rewrite fmap_app. cbn. f_equal.
    + apply list_fmap_ext. intros i c Hc. apply list_elem_of_lookup_2, elem_of_first_uses in Hc as [Hc _].
      f_equal. rewrite of_compatibility_snoc, decide_False by (intros <-; done). by rewrite app_nil_r.
    + by rewrite of_compatibility_snoc, decide_True, of_compatibility_fresh.
Qed.
Lemma group_spec repr l rs :
  match group repr l rs with
  | Ok p => p = grouped rs ∧ Forall (fits l) rs
  | Raise e => ∃ r, r ∈ rs ∧ ¬ fits l r ∧ e = ValueError ("vision request " +:+ repr (request_id r) +:+ " exceeds batch limits")
  end.
Proof.
  unfold group. assert (Hgen : ∀ todo pre, Forall (fits l) pre →
    match fold_res (λ p r, match require_request_fits repr r l with Raise e => Raise e | Ok _ => Ok (add_pending p r) end) todo (grouped pre) with
    | Ok p => p = grouped (pre ++ todo) ∧ Forall (fits l) (pre ++ todo)
    | Raise e => ∃ r, r ∈ pre ++ todo ∧ ¬ fits l r ∧ e = ValueError ("vision request " +:+ repr (request_id r) +:+ " exceeds batch limits")
    end).
  { induction todo as [|r todo IH]; intros pre Hpre; cbn [fold_res]; [by rewrite app_nil_r|].
    rewrite require_fits_iff. destruct (decide (fits l r)) as [F|F].
    - rewrite add_pending_grouped. specialize (IH (pre ++ [r])). rewrite <-app_assoc in IH. apply IH.
      apply Forall_app. by split; [|constructor].
    - exists r. split_and!; [apply elem_of_app; right; left|done|done]. }
  apply (Hgen rs []). constructor.
Qed.

(** ** The batches of a group *)

Record batch_ok (l : VisionBatchLimits) (b : VisionBatch) : Prop := {
  bo_made : b = make_batch (batch_compatibility b) (requests b);
  bo_nonempty : requests b ≠ [];
  bo_requests : Zlen (requests b) <= maximum_requests l;
  bo_images : batch_images b <= maximum_images l;
  bo_patches : batch_patches b <= maximum_patches l;
  bo_bytes : batch_bytes b <= maximum_encoded_bytes l;
}.
(** One more request would not have fitted. *)
Definition full_for (l : VisionBatchLimits) (b : VisionBatch) (r : VisionBatchRequest) : Prop :=
  Zlen (requests b) + 1 > maximum_requests l ∨ batch_images b + image_count r > maximum_images l ∨
  batch_patches b + patch_count r > maximum_patches l ∨ batch_bytes b + encoded_bytes r > maximum_encoded_bytes l.
(** Every batch but the last of a compatibility was full for the request after it. *)
Fixpoint greedy (l : VisionBatchLimits) (bs : list VisionBatch) : Prop :=
  match bs with
  | b :: (b' :: _) as rest =>
      (batch_compatibility b = batch_compatibility b' → ∃ r rs, requests b' = r :: rs ∧ full_for l b r) ∧ greedy l rest
  | _ => True
  end.

Lemma pack_starts l c rs : ∀ r cur i p b, ∃ x rest bs,
  pack l c rs (r :: cur) i p b = x :: bs ∧ requests x = r :: rest ∧ batch_compatibility x = c.
Proof.
  induction rs as [|y rs IH]; intros r cur i p b; cbn [pack]; [by eexists _, _, _|].
  destruct (would_overflow _ _ _ _ _ _); [by eexists _, _, _|]. apply (IH r (cur ++ [y])).
Qed.

Lemma pack_batches_spec l c rs : 1 <= maximum_requests l → Forall (fits l) rs → ∀ cur,
  (cur ≠ [] → batch_ok l (make_batch c cur)) →
  let bs := pack l c rs cur (Zsum (image_count <$> cur)) (Zsum (patch_count <$> cur)) (Zsum (encoded_bytes <$> cur)) in
  mjoin (requests <$> bs) = cur ++ rs ∧ Forall (λ b, batch_ok l b ∧ batch_compatibility b = c) bs ∧ greedy l bs.
Proof.
  intros Hmax Hfits. cbv zeta. induction Hfits as [|r rs Hr _ IH]; intros cur Hcur; cbn [pack].
  - destruct (bool_decide (cur = [])) eqn:E; breflect; [by subst|]. cbn. rewrite !app_nil_r.
    split_and!; [done| |done]. by repeat constructor; apply Hcur.
  - assert (Hone : batch_ok l (make_batch c [r])).
    { destruct Hr as (H1 & H2 & H3). unfold make_batch. by split; cbn; try done; try lia; unfold Zlen; cbn; lia. }
    destruct (would_overflow _ _ _ _ _ _) eqn:E.
    + unfold would_overflow in E. apply andb_prop in E as [Ene Eo]. apply negb_true_iff, bool_decide_eq_false in Ene.
      specialize (IH [r] (λ _, Hone)). cbn [fmap list_fmap Zsum foldr] in IH. rewrite !Z.add_0_r in IH.
      destruct IH as (H1 & H2 & H3). destruct (pack_starts l c rs r [] (image_count r) (patch_count r) (encoded_bytes r))
        as (x & rest & bs & Hx & Hreq & Hc). rewrite Hx in *. split_and!.
      * transitivity (cur ++ mjoin (requests <$> x :: bs)); [done|by rewrite H1].
      * constructor; [|done]. split; [by apply Hcur|done].
      * split; [|done]. intros _. exists r, rest. split; [done|]. unfold full_for. cbn.
        rewrite !orb_true_iff, !Z.gtb_lt in Eo. lia.
    + assert (Hnext : batch_ok l (make_batch c (cur ++ [r]))).
      { unfold would_overflow in E. apply andb_false_iff in E as [E|E].
        - apply negb_false_iff, bool_decide_eq_true in E. by subst.
        - rewrite !orb_false_iff, !Z.gtb_ltb, !Z.ltb_ge in E.
          split; cbn; try done; rewrite ?fmap_app, ?Zsum_app; unfold Zlen in *; rewrite ?length_app; cbn; try lia. by destruct cur. }
      specialize (IH (cur ++ [r]) (λ _, Hnext)). rewrite !fmap_app, !Zsum_app in IH.
      cbn [fmap list_fmap Zsum foldr] in IH. rewrite !Z.add_0_r in IH. by rewrite <-app_assoc in IH.
Qed.
(** ** All batches *)

Lemma classes_Permutation rs cs :
  NoDup cs → mjoin ((λ c, of_compatibility c rs) <$> cs) ≡ₚ filter (λ r, compatibility r ∈ cs) rs.
Proof.
  induction 1 as [|c cs Hno _ IH].
  { cbn. induction rs as [|r rs IH]; [done|]. rewrite filter_cons. destruct (decide _) as [H|]; [by apply elem_of_nil in H|done]. }
  rewrite fmap_cons. transitivity (of_compatibility c rs ++ mjoin ((λ c, of_compatibility c rs) <$> cs)); [done|]. rewrite IH. clear IH.
  unfold of_compatibility. induction rs as [|r rs IH]; [done|]. rewrite !filter_cons.
  destruct (decide (compatibility r = c)) as [E|E]; destruct (decide (compatibility r ∈ cs)) as [E2|E2];
    destruct (decide (compatibility r ∈ c :: cs)) as [E3|E3]; rewrite ?elem_of_cons in E3; try tauto; try congruence.
  - cbn. by rewrite IH.
  - rewrite <-Permutation_middle. by rewrite IH.
Qed.
Lemma batches_of_class (F : VisionBatchCompatibility → list VisionBatch) c cs :
  NoDup cs → (∀ c' b, b ∈ F c' → batch_compatibility b = c') →
  filter (λ b, batch_compatibility b = c) (mjoin (F <$> cs)) = if decide (c ∈ cs) then F c else [].
Proof.
  intros Hnd HF. assert (Hsame : ∀ bs c', (∀ b, b ∈ bs → batch_compatibility b = c') →
    filter (λ b, batch_compatibility b = c) bs = if decide (c' = c) then bs else []).
  { induction bs as [|b bs IH]; intros c' Hb; [by destruct (decide _)|]. rewrite filter_cons, (Hb b ltac:(left)), (IH c');
      [by destruct (decide (c' = c))|intros; apply Hb; by right]. }
  induction Hnd as [|c' cs Hno _ IH]; [done|]. rewrite fmap_cons.
  transitivity (filter (λ b, batch_compatibility b = c) (F c') ++ filter (λ b, batch_compatibility b = c) (mjoin (F <$> cs)));
    [by rewrite <-filter_app|].
  rewrite IH, (Hsame (F c') c') by auto. destruct (decide (c' = c)) as [->|Hne].
  - rewrite decide_False by done. rewrite decide_True by left. apply app_nil_r.
  - cbn. destruct (decide (c ∈ cs)) as [Hin|Hin]; [by rewrite decide_True by (by right)|].
    rewrite decide_False; [done|]. rewrite elem_of_cons. intros [?|?]; congruence.
Qed.

Lemma mjoin_requests (cs : list VisionBatchCompatibility) (F : VisionBatchCompatibility → list VisionBatch) (G : VisionBatchCompatibility → list VisionBatchRequest) :
  (∀ c, mjoin (requests <$> F c) = G c) → mjoin (requests <$> mjoin (F <$> cs)) = mjoin (G <$> cs).
Proof.
  intros HF. induction cs as [|c cs IH]; [done|]. rewrite !fmap_cons.
  transitivity (mjoin (requests <$> (F c ++ mjoin (F <$> cs)))); [done|]. rewrite fmap_app, join_app, HF, IH. done.
Qed.

Lemma filter_all (P : VisionBatchRequest → Prop) `{∀ x, Decision (P x)} (rs : list VisionBatchRequest) : (∀ r, r ∈ rs → P r) → filter P rs = rs.
Proof.
  induction rs as [|r rs IH]; intros Hall; [done|]. rewrite filter_cons, decide_True by (apply Hall; left).
  f_equal. apply IH. intros x Hx. apply Hall. by right.
Qed.

(** The batches hold every request once, and are greedy.  A plan exists exactly
    for at most 4096 requests with distinct identifiers that each fit the limits;
    for every compatibility, in the order of its first request, its batches hold its
    requests in their order; each batch is nonempty, of one compatibility, within all
    four limits, with exact totals; and a batch that is not the last of its
    compatibility had no room for the request after it. *)
Theorem batches_correct repr l rs :
  limits_check l = Ok () →
  match plan_multimodal_batches repr rs l with
  | Ok bs =>
      mjoin (requests <$> bs) ≡ₚ rs ∧
      mjoin (requests <$> bs) = mjoin ((λ c, of_compatibility c rs) <$> first_uses [] rs) ∧
      (∀ b, b ∈ bs → batch_ok l b ∧ ∀ r, r ∈ requests b → compatibility r = batch_compatibility b) ∧
      (∀ c, greedy l (filter (λ b, batch_compatibility b = c) bs))
  | Raise e => Zlen rs > 4096 ∨ ¬ NoDup (request_id <$> rs) ∨ ∃ r, r ∈ rs ∧ ¬ fits l r
  end.
Proof.
  intros Hl. unfold limits_check, check in Hl. destruct (forallb _ _) eqn:El; [|done]. clear Hl.
  assert (Hmax : 1 <= maximum_requests l) by (cbn in El; breflect; lia).
  unfold plan_multimodal_batches. destruct (Z.gtb_spec (Zlen rs) 4096); [left; lia|].
  destruct (negb _) eqn:End; [right; left; by breflect|]. pose proof (group_spec repr l rs) as Hg.
  destruct (group repr l rs) as [p|e]; [|right; right; destruct Hg as (r & ? & ? & _); by exists r].
  destruct Hg as [-> Hfits]. unfold grouped. rewrite <-list_fmap_compose.
  set (F := (λ g, pack l g.1 g.2 [] 0 0 0) ∘ (λ c, (c, of_compatibility c rs))).
  assert (HF : ∀ c, mjoin (requests <$> F c) = of_compatibility c rs ∧
            Forall (λ b, batch_ok l b ∧ batch_compatibility b = c) (F c) ∧ greedy l (F c)).
  { intros c. apply (pack_batches_spec l c (of_compatibility c rs) Hmax); [|done]. rewrite Forall_forall in Hfits |- *.
    intros r Hr. apply list_elem_of_filter in Hr as [_ Hr]. by apply Hfits. }
  pose proof (first_uses_NoDup rs []) as Hnd.
  assert (Hcompat : ∀ c b, b ∈ F c → batch_compatibility b = c).
  { intros c b Hb. destruct (HF c) as (_ & Hall & _). rewrite Forall_forall in Hall. by apply Hall. }
  assert (Heq : mjoin (requests <$> mjoin (F <$> first_uses [] rs)) = mjoin ((λ c, of_compatibility c rs) <$> first_uses [] rs))
    by (apply mjoin_requests; intros c; apply HF).
  split_and!; [| |intros b Hb|intros c].
  - rewrite Heq, (classes_Permutation _ _ Hnd). rewrite filter_all; [done|].
    intros r Hr. apply elem_of_first_uses. split; [by apply (list_elem_of_fmap_2 compatibility)|apply not_elem_of_nil].
  - exact Heq.
  - apply list_elem_of_join in Hb as (bs & Hb & (c & -> & _)%list_elem_of_fmap). destruct (HF c) as (Hreq & Hall & _).
    rewrite Forall_forall in Hall. destruct (Hall b Hb) as [Hok Hc]. split; [done|]. intros r Hr.
    assert (Hin : r ∈ of_compatibility c rs).
    { rewrite <-Hreq. apply list_elem_of_join. exists (requests b). split; [done|]. by apply (list_elem_of_fmap_2 requests). }
    apply list_elem_of_filter in Hin as [Hin _]. congruence.
  - rewrite (batches_of_class F c _ Hnd Hcompat). destruct (decide _); [apply HF|done].
Qed.

(** ** Witness *)

Definition demo_compatibility (rev : string) : VisionBatchCompatibility := mkCompatibility rev "p" "e" [224; 224; 3].
Definition demo_image : VisionImageInput := mkImage "image/png" [1; 2; 3] "d".
Definition demo_requests : list VisionBatchRequest :=
  [mkRequest "a" (demo_compatibility "x") [demo_image; demo_image] 4; mkRequest "b" (demo_compatibility "y") [demo_image] 4;
   mkRequest "c" (demo_compatibility "x") [demo_image; demo_image] 4; mkRequest "d" (demo_compatibility "x") [demo_image] 4].
Definition demo_limits : VisionBatchLimits := mkLimits 8 3 100 100.
Definition demo_batches : list VisionBatch :=
  match plan_multimodal_batches id demo_requests demo_limits with Ok bs => bs | Raise _ => [] end.
Lemma batches_correct_witness :
  request_ids <$> demo_batches = [["a"]; ["c"; "d"]; ["b"]] ∧ mjoin (requests <$> demo_batches) ≡ₚ demo_requests.
Proof.
  split; [vm_compute; reflexivity|]. pose proof (batches_correct id demo_limits demo_requests eq_refl) as H.
  change (plan_multimodal_batches id demo_requests demo_limits) with (@Ok exn _ demo_batches) in H. exact (proj1 H).
Defined.

End VisionBatching.
