(* ===== verification/ExpertPredictor.v ===== *)
(** * Expert prefetch predictor (expert_predictor.py)

    Counts which expert the router chose after which, for a bounded number of
    predecessors, the oldest of which is forgotten first, and ranks the likely
    successors.  Its hints never change what the router selects.  Every method holds
    the lock. *)

From S2P Require Import Prelude Types OrderedDict PySort ExpertResidency.

Module ExpertPredictor.
Import OrderedDict PySort ExpertResidency.

Definition MAX_PREDICTOR_CONTEXTS : Z := 65536.
Definition MAX_PREDICTOR_HISTORY : Z := 65536.

Record ExpertPrefetchHint := mkHint {
  hint_previous : ExpertKey;
  candidates : list ExpertKey;
  hint_observations : Z;
}.

(** [Counter]: the missing keys count zero. *)
Abbreviation Counter := (list (ExpertKey * Z)).
Definition count_of (k : ExpertKey) (c : Counter) : Z := default 0 (od_get k c).
Definition bump (k : ExpertKey) (c : Counter) : Counter := od_set k (count_of k c + 1) c.

Record CorrectnessNeutralExpertPredictor := mkPredictor {
  maximum_contexts : Z;
  maximum_history : Z;
  transitions : list (ExpertKey * Counter);
  order : list ExpertKey;
  history : list ExpertKey;
  observations : Z;
  evictions : Z;
}.

(** [CorrectnessNeutralExpertPredictor.__init__] *)
Definition new_predictor (contexts hist : Z) : res exn CorrectnessNeutralExpertPredictor :=
  check ((1 <=? contexts) && (contexts <=? MAX_PREDICTOR_CONTEXTS) && (1 <=? hist) && (hist <=? MAX_PREDICTOR_HISTORY))
    (ValueError "invalid expert predictor bounds") (mkPredictor contexts hist [] [] [] 0 0).

(** [deque(maxlen=n).append] *)
Definition append_bounded (n : Z) (k : ExpertKey) (l : list ExpertKey) : list ExpertKey :=
  let l' := l ++ [k] in drop (length l' - Z.to_nat n) l'.

(** Room for a new context: the oldest goes. *)
Definition make_room (p : CorrectnessNeutralExpertPredictor) : res exn CorrectnessNeutralExpertPredictor :=
  if Zlen (transitions p) =? maximum_contexts p then
    match order p with
    | [] => Raise (IndexError "pop from an empty deque")
    | victim :: order' =>
        if od_mem victim (transitions p)
        then Ok (mkPredictor (maximum_contexts p) (maximum_history p) (od_del victim (transitions p)) order'
                   (history p) (observations p) (evictions p + 1))
        else Raise (KeyError "victim")
    end
  else Ok p.

(** The counter of [previous] gains one for [selected]. *)
Definition count_transition (previous selected : ExpertKey) (p : CorrectnessNeutralExpertPredictor)
    : res exn CorrectnessNeutralExpertPredictor :=
  match od_get previous (transitions p) with
  | Some c => Ok (mkPredictor (maximum_contexts p) (maximum_history p) (od_set previous (bump selected c) (transitions p))
                    (order p) (history p) (observations p + 1) (evictions p))
  | None =>
      match make_room p with
      | Raise e => Raise e
      | Ok q => Ok (mkPredictor (maximum_contexts q) (maximum_history q)
                      (od_set previous (bump selected []) (transitions q)) (order q ++ [previous]) (history q)
                      (observations q + 1) (evictions q))
      end
  end.

(** [observe] *)
Definition observe (selected : ExpertKey) : Py CorrectnessNeutralExpertPredictor () := λ p,
  let counted := match last (history p) with
                 | None => Ok p
                 | Some previous => count_transition previous selected p
                 end in
  match counted with
  | Raise e => (Raise e, p)
  | Ok q => (Ok (), mkPredictor (maximum_contexts q) (maximum_history q) (transitions q) (order q)
                      (append_bounded (maximum_history q) selected (history q)) (observations q) (evictions q))
  end.

(** The order of [sorted(..., key=lambda item: (-item[1], item[0]))]. *)
Definition key_leb (a b : ExpertKey) : bool :=
  (layer a <? layer b) || ((layer a =? layer b) && (expert a <=? expert b)).
Definition rank_leb (a b : ExpertKey * Z) : bool := (b.2 <? a.2) || ((a.2 =? b.2) && key_leb a.1 b.1).

(** [predict] *)
Definition predict (previous : ExpertKey) (maximum_candidates : Z) (p : CorrectnessNeutralExpertPredictor)
    : res exn ExpertPrefetchHint :=
  if (1 <=? maximum_candidates) && (maximum_candidates <=? 64) then
    let c := default [] (od_get previous (transitions p)) in
    Ok (mkHint previous (take (Z.to_nat maximum_candidates) (sorted_by rank_leb c).*1) (Zsum c.*2))
  else Raise (ValueError "invalid expert prediction request").

Record Snapshot := mkSnapshot { s_contexts : Z; s_history : Z; s_observations : Z; s_evictions : Z }.
(** [snapshot] *)
Definition snapshot (p : CorrectnessNeutralExpertPredictor) : Snapshot :=
  mkSnapshot (Zlen (transitions p)) (Zlen (history p)) (observations p) (evictions p).

(** [resolve] *)
Definition resolve (router_selected : list ExpertKey) (hint : ExpertPrefetchHint) : res exn (list ExpertKey) :=
  if bool_decide (router_selected = []) || (Zlen router_selected >? 64)
  then Raise (ValueError "invalid router selection") else Ok router_selected.

(** ** The log of observations *)

(** The selections observed, in order. *)
Fixpoint observe_all (l : list ExpertKey) (p : CorrectnessNeutralExpertPredictor) : res exn () * CorrectnessNeutralExpertPredictor :=
  match l with
  | [] => (Ok (), p)
  | k :: l' => match observe k p with (Ok _, p') => observe_all l' p' | (Raise e, p') => (Raise e, p') end
  end.

(** How often [b] directly follows [a]. *)
Fixpoint followed (a b : ExpertKey) (l : list ExpertKey) : Z :=
  match l with
  | x :: (y :: _) as rest => (if decide (x = a ∧ y = b) then 1 else 0) + followed a b rest
  | _ => 0
  end.
(** The experts that some other follows. *)
Definition contexts (l : list ExpertKey) : list ExpertKey := remove_dups (take (length l - 1) l).

Lemma followed_snoc a b l x y :
  last l = Some x → followed a b (l ++ [y]) = followed a b l + if decide (x = a ∧ y = b) then 1 else 0.
Proof.
  induction l as [|z [|w l] IH]; [done| |].
  - cbn. intros [= ->]. lia.
  - intros Hl. change (last (w :: l) = Some x) in Hl. specialize (IH Hl). cbn [app followed] in IH |- *. lia.
Qed.
Lemma followed_nonneg a b l : 0 <= followed a b l.
Proof. induction l as [|x [|y l] IH]; cbn; [lia|lia|]. cbn in IH. destruct (decide _); lia. Qed.

Lemma append_bounded_spec n k l : 1 <= n → last (append_bounded n k l) = Some k ∧ Zlen (append_bounded n k l) <= n.
Proof.
  intros Hn. unfold append_bounded. cbv zeta. split.
  - rewrite drop_app_le; [by rewrite last_snoc|]. rewrite length_app. cbn. lia.
  - unfold Zlen. rewrite length_drop, length_app. cbn. lia.
Qed.

Lemma count_bump k k' c : count_of k' (bump k c) = count_of k' c + if decide (k = k') then 1 else 0.
Proof.
  unfold bump, count_of. destruct (decide (k = k')) as [<-|Hne].
  - rewrite od_get_set. cbn. lia.
  - rewrite od_get_set_ne by done. lia.
Qed.
Lemma bump_get k b c n : od_get b (bump k c) = Some n → b = k ∧ n = count_of k c + 1 ∨ b ≠ k ∧ od_get b c = Some n.
Proof.
  unfold bump. destruct (decide (b = k)) as [->|Hne]; [rewrite od_get_set|rewrite od_get_set_ne by done]; [|by right].
  intros [= <-]. by left.
Qed.

Lemma NoDup_incl_length (l1 l2 : list ExpertKey) : NoDup l1 → (∀ x, x ∈ l1 → x ∈ l2) → (length l1 <= length l2)%nat.
Proof. intros Hnd Hin. by apply submseteq_length, NoDup_submseteq. Qed.
Lemma elem_of_contexts_snoc l k x : x ∈ contexts (l ++ [k]) ↔ x ∈ l.
Proof.
  unfold contexts. rewrite length_app. cbn. replace (length l + 1 - 1)%nat with (length l + 0)%nat by lia.
  rewrite take_app_add', elem_of_remove_dups by done. cbn. by rewrite app_nil_r.
Qed.
Lemma contexts_incl l x : x ∈ contexts l → x ∈ l.
Proof. unfold contexts. rewrite elem_of_remove_dups. intros H. eapply elem_of_take in H as (i & Hi & _). by eapply list_elem_of_lookup_2. Qed.
Lemma contexts_NoDup l : NoDup (contexts l).
Proof. apply NoDup_remove_dups. Qed.

(** What the state says of the log [l] of all selections. *)
Record log_inv (l : list ExpertKey) (p : CorrectnessNeutralExpertPredictor) : Prop := {
  li_bounds : 1 <= maximum_contexts p ∧ 1 <= maximum_history p;
  li_order : order p = (transitions p).*1;
  li_wf : od_wf (transitions p);
  li_contexts : Zlen (transitions p) <= maximum_contexts p;
  li_history : last (history p) = last l ∧ Zlen (history p) <= maximum_history p;
  li_observations : observations p = Z.max 0 (Zlen l - 1);
  li_counters : ∀ a c, od_get a (transitions p) = Some c → a ∈ contexts l ∧ od_wf c ∧
    ∀ b n, od_get b c = Some n → 0 < n <= followed a b l;
  li_exact : evictions p = 0 → ∀ a b, count_of b (default [] (od_get a (transitions p))) = followed a b l;
  li_evictions : 0 <= evictions p ∧ (0 < evictions p → maximum_contexts p < Zlen (contexts l));
}.

Lemma make_context_room l p a : log_inv l p → od_get a (transitions p) = None → last l = Some a →
  ∃ q, make_room p = Ok q ∧ maximum_contexts q = maximum_contexts p ∧ maximum_history q = maximum_history p ∧
    history q = history p ∧ observations q = observations p ∧
    order q = (transitions q).*1 ∧ od_wf (transitions q) ∧ Zlen (transitions q) < maximum_contexts p ∧
    (∀ b c, od_get b (transitions q) = Some c → od_get b (transitions p) = Some c) ∧
    ((evictions q = evictions p ∧ transitions q = transitions p) ∨
     (evictions q = evictions p + 1 ∧ ∀ k, maximum_contexts p < Zlen (contexts (l ++ [k])))).
Proof.
  intros [H1 H2 H3 H4 H5 H6 H7 H8 H9] Ha Hl. unfold make_room. destruct (Z.eqb_spec (Zlen (transitions p)) (maximum_contexts p)) as [E|E].
  2:{ exists p. split_and!; try done; [lia|by left]. }
  rewrite H2. destruct (transitions p) as [|[v c] t] eqn:Et; [unfold Zlen in E; cbn in E; lia|]. rewrite fmap_cons. cbn [fst].
  unfold od_mem. cbn [od_get od_del]. rewrite !decide_True by done. cbn [is_some negb is_none].
  eexists. split; [done|]. cbn [maximum_contexts maximum_history history observations order transitions evictions].
  assert (Hnd : (v ∉ t.*1) ∧ NoDup t.*1) by (by apply NoDup_cons). destruct Hnd as [Hv Hnd].
  split_and!; try done.
  - unfold Zlen in *. cbn in E. lia.
  - intros b c' Hb. rewrite decide_False; [done|]. intros ->. apply od_get_None in Hv. congruence.
  - right. split; [done|]. intros k. rewrite <-E. unfold Zlen.
    enough ((length (a :: ((v, c) :: t).*1) <= length (contexts (l ++ [k])))%nat) as Hle by (cbn in Hle |- *; rewrite length_fmap in Hle; lia).
    apply NoDup_incl_length.
    + apply NoDup_cons. split; [by apply od_get_None|done].
    + intros x Hx. apply elem_of_contexts_snoc. apply elem_of_cons in Hx as [->|Hx]; [by apply last_Some_elem_of|].
      destruct (od_get x ((v, c) :: t)) as [c'|] eqn:Ex; [|by apply od_get_None in Ex].
      apply H7 in Ex as [Hx' _]. by apply contexts_incl.
Qed.
Lemma contexts_mono l k : Zlen (contexts l) <= Zlen (contexts (l ++ [k])).
Proof.
  unfold Zlen. apply inj_le, NoDup_incl_length; [apply contexts_NoDup|]. intros x Hx. by apply elem_of_contexts_snoc, contexts_incl.
Qed.
Lemma count_nil b : count_of b [] = 0. Proof. done. Qed.

(** Counting one transition: what changes in the dictionary. *)
Lemma count_transition_spec l p a k :
  log_inv l p → last l = Some a →
  ∃ q, count_transition a k p = Ok q ∧ maximum_contexts q = maximum_contexts p ∧ maximum_history q = maximum_history p ∧
    history q = history p ∧ observations q = observations p + 1 ∧ order q = (transitions q).*1 ∧ od_wf (transitions q) ∧
    Zlen (transitions q) <= maximum_contexts p ∧
    (∀ b, b ≠ a → ∀ c, od_get b (transitions q) = Some c → od_get b (transitions p) = Some c) ∧
    od_get a (transitions q) = Some (bump k (default [] (od_get a (transitions p)))) ∧
    ((evictions q = evictions p ∧ ∀ b, b ≠ a → od_get b (transitions q) = od_get b (transitions p)) ∨
     (evictions q = evictions p + 1 ∧ maximum_contexts p < Zlen (contexts (l ++ [k])))).
Proof.
  intros Hinv Hl. unfold count_transition. destruct (od_get a (transitions p)) as [c|] eqn:Ea.
  - eexists. split; [done|]. cbn [maximum_contexts maximum_history history observations order transitions evictions default].
    assert (Hs : is_Some (od_get a (transitions p))) by by eexists. split_and!; try done.
    + rewrite od_set_keys by done. apply Hinv.
    + apply od_wf_set, Hinv.
    + rewrite od_length_set by done. apply Hinv.
    + intros b Hb c'. by rewrite od_get_set_ne by done.
    + apply od_get_set.
    + left. split; [done|]. intros b Hb. by rewrite od_get_set_ne by done.
  - destruct (make_context_room l p a Hinv Ea Hl) as (q & -> & H1 & H2 & H3 & H4 & H5 & H6 & H7 & H8 & H9).
    assert (Eq : od_get a (transitions q) = None).
    { destruct (od_get a (transitions q)) as [c|] eqn:E; [|done]. apply H8 in E. congruence. }
    eexists. split; [done|]. cbn [maximum_contexts maximum_history history observations order transitions evictions default].
    split_and!; try done; try lia.
    + rewrite od_set_new, fmap_app, H5 by done. done.
    + by apply od_wf_set.
    + rewrite od_set_new by done. unfold Zlen in *. rewrite length_app. cbn. lia.
    + intros b Hb c. rewrite od_get_set_ne by done. apply H8.
    + apply od_get_set.
    + destruct H9 as [[H9 H10]|[H9 H10]]; [left|by right].
      split; [done|]. intros b Hb. rewrite od_get_set_ne by done. by rewrite H10.
Qed.

Lemma observe_keeps l p k : log_inv l p → (observe k p).1 = Ok () ∧ maximum_contexts (observe k p).2 = maximum_contexts p ∧
  maximum_history (observe k p).2 = maximum_history p ∧ log_inv (l ++ [k]) (observe k p).2.
Proof.
  intros Hinv. unfold observe. pose proof (li_history _ _ Hinv) as [Hlast Hh]. rewrite Hlast.
  pose proof (li_bounds _ _ Hinv) as [Hb1 Hb2].
  destruct (last l) as [a|] eqn:El.
  - destruct (count_transition_spec l p a k Hinv El) as (q & -> & H1 & H2 & H3 & H4 & H5 & H6 & H7 & H8 & H9 & H10).
    split; [done|]. cbn [snd maximum_contexts maximum_history]. split; [done|]. split; [done|].
    destruct (append_bounded_spec (maximum_history q) k (history q) ltac:(lia)) as [A1 A2].
    assert (Hf : ∀ x y, followed x y (l ++ [k]) = followed x y l + if decide (a = x ∧ k = y) then 1 else 0)
      by (intros; by apply followed_snoc).
    split; cbn [maximum_contexts maximum_history transitions order history observations evictions]; try done; try lia.
    + split; [by rewrite last_snoc|done].
    + rewrite H4, (li_observations _ _ Hinv). destruct l; [done|]. unfold Zlen. rewrite length_app. cbn. lia.
    + intros x c Hc. destruct (decide (x = a)) as [->|Hne].
      * rewrite H9 in Hc. injection Hc as <-. split; [by apply elem_of_contexts_snoc, last_Some_elem_of|].
        assert (Hold : od_wf (default [] (od_get a (transitions p))) ∧
          ∀ b n, od_get b (default [] (od_get a (transitions p))) = Some n → 0 < n <= followed a b l).
        { destruct (od_get a (transitions p)) as [c|] eqn:Ea; [|split; [apply NoDup_nil_2|done]].
          by destruct (li_counters _ _ Hinv a c Ea) as (_ & ? & ?). }
        destruct Hold as [Hwf Hn]. split; [by apply od_wf_set|]. intros b n Hb. rewrite Hf.
        apply bump_get in Hb as [[-> ->]|[Hne Hb]]; [rewrite decide_True by done|rewrite decide_False by (intros [_ ?]; congruence)].
        -- unfold count_of. destruct (od_get k _) as [m|] eqn:Em; cbn; [specialize (Hn k m Em); lia|].
           pose proof (followed_nonneg a k l). lia.
        -- specialize (Hn b n Hb). lia.
      * apply H8 in Hc; [|done]. destruct (li_counters _ _ Hinv x c Hc) as (Hx & Hwf & Hn).
        split; [by apply elem_of_contexts_snoc, contexts_incl|]. split; [done|]. intros b n Hn'. rewrite Hf, decide_False by (intros [? _]; congruence).
        specialize (Hn b n Hn'). lia.
    + intros He x y. pose proof (li_evictions _ _ Hinv) as [He0 _]. destruct H10 as [[H10 Hsame]|[H10 _]]; [|lia]. rewrite Hf.
      destruct (decide (x = a)) as [->|Hne].
      * rewrite H9. change (default [] (Some ?x)) with x. rewrite count_bump, (li_exact _ _ Hinv) by lia. f_equal.
        destruct (decide (k = y)); [by rewrite decide_True|by rewrite decide_False by tauto].
      * rewrite Hsame, (li_exact _ _ Hinv) by (done || lia). rewrite decide_False by (intros [? _]; congruence). lia.
    + pose proof (li_evictions _ _ Hinv) as [He0 He]. pose proof (contexts_mono l k).
      destruct H10 as [[H10 _]|[H10 Hlt]]; split; lia.
  - destruct l as [|x l]; [|by destruct (last_is_Some (x :: l)) as [_ [? ?]]; [done|congruence]].
    destruct (append_bounded_spec (maximum_history p) k (history p) ltac:(lia)) as [A1 A2].
    destruct Hinv as [I1 I2 I3 I4 I5 I6 I7 I8 [I9 I10]].
    split; [done|]. split; [done|]. split; [done|]. split; cbn [snd maximum_contexts maximum_history transitions order history observations evictions]; try done.
Qed.
Lemma observe_all_inv l : ∀ l0 p, log_inv l0 p →
  (observe_all l p).1 = Ok () ∧ maximum_contexts (observe_all l p).2 = maximum_contexts p ∧
  maximum_history (observe_all l p).2 = maximum_history p ∧ log_inv (l0 ++ l) (observe_all l p).2.
Proof.
  induction l as [|k l IH]; intros l0 p Hinv; cbn [observe_all]; [by rewrite app_nil_r|].
  destruct (observe_keeps l0 p k Hinv) as (H1 & H2 & H3 & H4). destruct (observe k p) as [[[]|e] p'] eqn:E; [|done].
  cbn [snd] in *. specialize (IH (l0 ++ [k]) p' H4). rewrite <-app_assoc, H2, H3 in IH. exact IH.
Qed.
Lemma new_predictor_inv c h p : new_predictor c h = Ok p → log_inv [] p ∧ maximum_contexts p = c ∧ maximum_history p = h.
Proof.
  unfold new_predictor, check. destruct (_ && _) eqn:E; [|done]. intros [= <-]. breflect. split; [|done].
  split; cbn; try done; try lia; [apply NoDup_nil_2|unfold Zlen; cbn; lia|split; [done|unfold Zlen; cbn; lia]].
Qed.

(** ** The ranking *)

Lemma rank_leb_total a b : rank_leb a b = false → rank_leb b a = true.
Proof. unfold rank_leb, key_leb. rewrite !orb_true_iff, !andb_true_iff, !orb_false_iff, !andb_false_iff. lia. Qed.
Lemma rank_leb_trans a b c : rank_leb a b = true → rank_leb b c = true → rank_leb a c = true.
Proof. unfold rank_leb, key_leb. rewrite !orb_true_iff, !andb_true_iff. lia. Qed.

(** The entries of the counter of [a], ranked, against the log. *)
Lemma predict_spec l p a n hint :
  log_inv l p → predict a n p = Ok hint →
  Zlen (candidates hint) <= n ∧ NoDup (candidates hint) ∧ (∀ b, b ∈ candidates hint → 0 < followed a b l) ∧
  (Zlen (contexts l) <= maximum_contexts p →
     (∀ b c, b ∈ candidates hint → (c ∉ candidates hint) → rank_leb (b, followed a b l) (c, followed a c l) = true) ∧
     ((∃ c, (c ∉ candidates hint) ∧ 0 < followed a c l) → Zlen (candidates hint) = n)).
Proof.
  intros Hinv. unfold predict. destruct (_ && _) eqn:En; [|done]. breflect. intros [= <-]. cbn [candidates].
  set (C := default [] (od_get a (transitions p))).
  assert (HC : od_wf C ∧ ∀ b m, od_get b C = Some m → 0 < m <= followed a b l).
  { unfold C. destruct (od_get a (transitions p)) as [c|] eqn:Ea; [|split; [apply NoDup_nil_2|done]].
    by destruct (li_counters _ _ Hinv a c Ea) as (_ & ? & ?). }
  destruct HC as [Hwf Hcount]. set (s := sorted_by rank_leb C).
  assert (Hperm : s.*1 ≡ₚ C.*1) by (by unfold s; rewrite sorted_by_Permutation).
  assert (Hnd : NoDup s.*1) by by rewrite Hperm.
  assert (Hentry : ∀ b m, (b, m) ∈ s ↔ od_get b C = Some m) by (intros; unfold s; rewrite elem_of_sorted_by; by rewrite od_get_iff).
  assert (Htake : (take (Z.to_nat n) s).*1 = take (Z.to_nat n) s.*1) by apply fmap_take.
  split; [unfold Zlen; rewrite length_take; lia|]. split; [eapply sublist_NoDup; [exact Hnd|apply sublist_take]|].
  rewrite <-Htake. split.
  { intros b Hb. apply list_elem_of_fmap in Hb as ([b' m] & -> & Hb). apply elem_of_take in Hb as (i & Hi & _).
    apply list_elem_of_lookup_2, Hentry in Hi. cbn. specialize (Hcount b' m Hi). lia. }
  intros Hfew. assert (Hexact : ∀ b, count_of b C = followed a b l).
  { intros b. apply (li_exact _ _ Hinv). pose proof (li_evictions _ _ Hinv). lia. }
  assert (Hrest : ∀ c, c ∉ (take (Z.to_nat n) s).*1 → 0 < followed a c l →
            (c, followed a c l) ∈ drop (Z.to_nat n) s ∧ (Z.to_nat n <= length s)%nat).
  { intros c Hc Hpos. rewrite <-Hexact in Hpos. unfold count_of in Hpos. destruct (od_get c C) as [m|] eqn:Em; [|cbn in Hpos; lia].
    assert (m = followed a c l) as <- by (rewrite <-Hexact; unfold count_of; by rewrite Em).
    apply Hentry in Em. rewrite <-(take_drop (Z.to_nat n) s) in Em. apply elem_of_app in Em as [Em|Em].
    - exfalso. apply Hc. by apply (list_elem_of_fmap_2 fst _ (c, m)).
    - split; [done|]. destruct (decide (Z.to_nat n <= length s)%nat); [done|]. rewrite drop_ge in Em by lia. by apply elem_of_nil in Em. }
  split.
  - intros b c Hb Hc. apply list_elem_of_fmap in Hb as ([b' m] & -> & Hb). cbn [fst].
    assert (Hm : od_get b' C = Some m) by (apply Hentry; eapply elem_of_take in Hb as (i & Hi & _); by eapply list_elem_of_lookup_2).
    assert (m = followed a b' l) as -> by (rewrite <-Hexact; unfold count_of; by rewrite Hm).
    pose proof (Hcount _ _ Hm). destruct (decide (0 < followed a c l)) as [Hpos|Hz].
    + destruct (Hrest c Hc Hpos) as [Hin _]. apply list_elem_of_split in Hb as (p1 & p2 & Hb), Hin as (q1 & q2 & Hq).
      apply (sorted_by_before rank_leb (λ _, True) (λ _ _ _ _, rank_leb_total _ _) (λ _ _ _ _ _ _, rank_leb_trans _ _ _)
               C p1 _ (p2 ++ q1) _ q2); [by apply Forall_true|].
      change (s = p1 ++ (b', followed a b' l) :: (p2 ++ q1) ++ (c, followed a c l) :: q2).
      rewrite <-(take_drop (Z.to_nat n) s), Hb, Hq. by rewrite <-!app_assoc.
    + pose proof (followed_nonneg a c l). unfold rank_leb. cbn [fst snd]. apply orb_true_iff. left. lia.
  - intros (c & Hc & Hpos). destruct (Hrest c Hc Hpos) as [_ Hlen]. unfold Zlen. rewrite length_fmap, length_take. lia.
Qed.

(** The predictor counts exactly, within its bounds, and never decides.  After any
    sequence of selections it has raised nothing, holds at most the configured contexts
    and history, and has counted one observation per selection but the first.  Every
    candidate of a hint has followed the queried expert; candidates are ranked by
    count and then by key; while the selections had no more predecessors than
    contexts, the counts are exactly how often each successor followed, so a hint
    then reports all of them.  Whatever the hint, [resolve] returns the router's own
    selection. *)
Theorem predictor_counts contexts_limit history_limit p0 l a n hint :
  new_predictor contexts_limit history_limit = Ok p0 →
  let p := (observe_all l p0).2 in
  (observe_all l p0).1 = Ok () ∧ Zlen (transitions p) <= contexts_limit ∧ Zlen (history p) <= history_limit ∧
  observations p = Z.max 0 (Zlen l - 1) ∧
  (predict a n p = Ok hint →
     Zlen (candidates hint) <= n ∧ NoDup (candidates hint) ∧ (∀ b, b ∈ candidates hint → 0 < followed a b l) ∧
     (Zlen (contexts l) <= contexts_limit →
        (∀ b c, b ∈ candidates hint → (c ∉ candidates hint) → rank_leb (b, followed a b l) (c, followed a c l) = true) ∧
        ((∃ c, (c ∉ candidates hint) ∧ 0 < followed a c l) → Zlen (candidates hint) = n))) ∧
  (∀ selected, resolve selected hint = Ok selected ∨ resolve selected hint = Raise (ValueError "invalid router selection")).
Proof.
  intros Hnew. cbv zeta. apply new_predictor_inv in Hnew as (Hinv0 & Hc & Hh).
  destruct (observe_all_inv l [] p0 Hinv0) as (Hok & Hmc & Hmh & Hinv). cbn [app] in Hinv. split; [done|]. set (p := (observe_all l p0).2) in *.
  split_and!.
  - rewrite <-Hc, <-Hmc. apply Hinv.
  - rewrite <-Hh, <-Hmh. apply Hinv.
  - apply Hinv.
  - intros Hp. rewrite <-Hc, <-Hmc. by apply (predict_spec l p a n hint Hinv).
  - intros selected. unfold resolve. destruct (_ || _); auto.
Qed.

(** ** Witness *)

Definition demo_key (n : Z) : ExpertKey := mkKey 0 n.
Definition demo_log : list ExpertKey := demo_key <$> [1; 2; 1; 3; 1; 2; 5].
Definition demo_new : CorrectnessNeutralExpertPredictor := mkPredictor 8 4 [] [] [] 0 0.
Definition demo_hint : ExpertPrefetchHint := mkHint (demo_key 1) [demo_key 2] 3.
Lemma predictor_counts_witness :
  predict (demo_key 1) 1 (observe_all demo_log demo_new).2 = Ok demo_hint ∧ Zlen (candidates demo_hint) <= 1.
Proof.
  assert (Hp : predict (demo_key 1) 1 (observe_all demo_log demo_new).2 = Ok demo_hint) by (vm_compute; reflexivity).
  split; [exact Hp|].
  destruct (predictor_counts 8 4 demo_new demo_log (demo_key 1) 1 demo_hint eq_refl) as (_ & _ & _ & _ & H & _).
  exact (proj1 (H Hp)).
Defined.

End ExpertPredictor.
