(* ===== verification/GenerationAdmission.v ===== *)
(** * Admission to the single generation worker (generation_admission.py)

    Requests arrive on threads of their own; a bounded number may be inside, and one at
    a time runs, in the order in which they queued.  A thread in [admit] is a program
    counter, and every step of it between two points where another thread may run is
    one transition: acquiring the semaphore, a metrics update, a turn of the waiting
    loop under the condition's lock, and the parts of the [finally] block.  The caller's
    callbacks, the body of the [with] statement and the clock are the events of a
    transition. *)

From S2P Require Import Prelude Types PyFloat.

Module GenerationAdmission.
Import PyFloat.

Record Metrics := mkMetrics {
  inflight : Z;
  active : Z;
  started : Z;
  m_cancelled : Z;
  timed_out : Z;
  rejected : Z;
  preparation_failed : Z;
  active_disconnects : Z;
}.
Definition no_metrics : Metrics := mkMetrics 0 0 0 0 0 0 0 0.
(** [_record] *)
Definition add_metrics (a b : Metrics) : Metrics :=
  mkMetrics (inflight a + inflight b) (active a + active b) (started a + started b) (m_cancelled a + m_cancelled b)
    (timed_out a + timed_out b) (rejected a + rejected b) (preparation_failed a + preparation_failed b)
    (active_disconnects a + active_disconnects b).

(** Where a thread is. *)
Inductive Phase :=
| Entered                              (* holds a slot, not yet counted *)
| Preparing                            (* counted; about to call [prepare] *)
| Joining                              (* about to queue *)
| Queued (deadline : float)            (* its ticket is in the queue *)
| Granted                              (* took the worker *)
| Active                               (* in the body of the [with] statement *)
| Leaving (acquired started : bool) (ticket : bool)   (* at the start of [finally] *)
| Unlocking (acquired ticket : bool)   (* before [finally] takes the lock *)
| Releasing.                           (* before the slot is given back *)

Record Admission := mkAdmission {
  maximum : nat;                       (* [maximum_waiters + 1] *)
  timeout : float;
  free : nat;                          (* the value of the semaphore *)
  ready : list nat;                    (* the queued tickets, by thread *)
  busy : bool;
  metrics : Metrics;
  threads : gmap nat Phase;
}.

(** [GenerationAdmission.__init__] *)
Definition new_admission (maximum_waiters : Z) (timeout_seconds : float) : res exn Admission :=
  if negb ((0 <=? maximum_waiters) && (maximum_waiters <=? 128))
  then Raise (ValueError "maximum waiters must be between 0 and 128")
  else if negb (is_finite timeout_seconds) || negb (fltb zero timeout_seconds && fleb timeout_seconds (of_Z 300))
  then Raise (ValueError "queue timeout must be finite and between 0 and 300 seconds")
  else let slots := Z.to_nat (maximum_waiters + 1) in
       Ok (mkAdmission slots timeout_seconds slots [] false no_metrics ∅).

(** What the caller's code answers: a boolean, or an exception. *)
Inductive Answer := Yes | No | Throws.
(** How the body ends: normally, with a broken connection, or with another exception. *)
Inductive BodyEnd := Done | Disconnected | Failed.
(** [prepare]: absent or successful, an [Exception], or another [BaseException]. *)
Inductive Preparation := Prepared | PreparationError | Interrupted.

Inductive Event :=
| Arrive
| Count
| Prepare (outcome : Preparation)
| Join (now : float)
| Poll (cancelled : Answer) (now : float)
| Recheck (cancelled : Answer)
| Body (outcome : BodyEnd)
| Uncount
| Unlock
| Release.

Definition record (d : Metrics) (s : Admission) : Admission :=
  mkAdmission (maximum s) (timeout s) (free s) (ready s) (busy s) (add_metrics (metrics s) d) (threads s).
Definition goto (t : nat) (p : Phase) (s : Admission) : Admission :=
  mkAdmission (maximum s) (timeout s) (free s) (ready s) (busy s) (metrics s) (<[t := p]> (threads s)).
Definition set_queue (r : list nat) (b : bool) (s : Admission) : Admission :=
  mkAdmission (maximum s) (timeout s) (free s) r b (metrics s) (threads s).

Definition counted (i a st c to r pf d : Z) : Metrics := mkMetrics i a st c to r pf d.

(** [acquire(blocking=False)]: a full semaphore rejects, and nothing else changes. *)
Definition arrive (t : nat) (s : Admission) : Admission :=
  match free s with
  | O => record (counted 0 0 0 0 0 1 0 0) s
  | S n => mkAdmission (maximum s) (timeout s) n (ready s) (busy s) (metrics s) (<[t := Entered]> (threads s))
  end.
Definition prepare (t : nat) (outcome : Preparation) (s : Admission) : Admission :=
  match outcome with
  | Prepared => goto t Joining s
  | PreparationError => record (counted 0 0 0 0 0 0 1 0) (goto t (Leaving false false false) s)
  | Interrupted => goto t (Leaving false false false) s
  end.
(** The deadline, and the ticket. *)
Definition join_queue (t : nat) (now : float) (s : Admission) : Admission :=
  goto t (Queued (fadd now (timeout s))) (set_queue (ready s ++ [t]) (busy s) s).
(** One turn of [while not acquired], and the time-out after it. *)
Definition poll (t : nat) (deadline : float) (cancelled : Answer) (now : float) (s : Admission) : Admission :=
  match cancelled with
  | Throws => goto t (Leaving false false true) s
  | Yes => record (counted 0 0 0 1 0 0 0 0) (goto t (Leaving false false true) s)
  | No =>
      if fleb (fsub deadline now) zero then record (counted 0 0 0 0 1 0 0 0) (goto t (Leaving false false true) s)
      else if negb (busy s) && bool_decide (head (ready s) = Some t)
      then goto t Granted (set_queue (tail (ready s)) true s)
      else s
  end.
Definition recheck (t : nat) (cancelled : Answer) (s : Admission) : Admission :=
  match cancelled with
  | Throws => goto t (Leaving true false true) s
  | Yes => record (counted 0 0 0 1 0 0 0 0) (goto t (Leaving true false true) s)
  | No => record (counted 0 1 1 0 0 0 0 0) (goto t Active s)
  end.
Definition body (t : nat) (outcome : BodyEnd) (s : Admission) : Admission :=
  let s' := goto t (Leaving true true true) s in
  match outcome with Disconnected => record (counted 0 0 0 0 0 0 0 1) s' | _ => s' end.
Definition uncount (t : nat) (acquired started ticket : bool) (s : Admission) : Admission :=
  record (counted (-1) (if started then -1 else 0) 0 0 0 0 0 0) (goto t (Unlocking acquired ticket) s).
(** [list.remove]: the first occurrence. *)
Fixpoint remove_first (t : nat) (l : list nat) : option (list nat) :=
  match l with
  | [] => None
  | x :: l' => if decide (x = t) then Some l' else (x ::.) <$> remove_first t l'
  end.
(** The locked part of [finally]; removing a ticket that is not queued would raise. *)
Definition unlock (t : nat) (acquired ticket : bool) (s : Admission) : res exn Admission :=
  if acquired then Ok (goto t Releasing (set_queue (ready s) false s))
  else if ticket then
    match remove_first t (ready s) with
    | Some r => Ok (goto t Releasing (set_queue r (busy s) s))
    | None => Raise (ValueError "deque.remove(x): x not in deque")
    end
  else Ok (goto t Releasing s).
(** [BoundedSemaphore.release] refuses to exceed the initial value. *)
Definition release (t : nat) (s : Admission) : res exn Admission :=
  if (maximum s <=? free s)%nat then Raise (ValueError "Semaphore released too many times")
  else Ok (mkAdmission (maximum s) (timeout s) (S (free s)) (ready s) (busy s) (metrics s) (delete t (threads s))).

(** The transition of thread [t] on an event, when its program counter allows one. *)
Definition transition (t : nat) (e : Event) (s : Admission) : option (res exn Admission) :=
  match e, threads s !! t with
  | Arrive, None => Some (Ok (arrive t s))
  | Count, Some Entered => Some (Ok (record (counted 1 0 0 0 0 0 0 0) (goto t Preparing s)))
  | Prepare o, Some Preparing => Some (Ok (prepare t o s))
  | Join now, Some Joining => Some (Ok (join_queue t now s))
  | Poll c now, Some (Queued d) => Some (Ok (poll t d c now s))
  | Recheck c, Some Granted => Some (Ok (recheck t c s))
  | Body o, Some Active => Some (Ok (body t o s))
  | Uncount, Some (Leaving a st ti) => Some (Ok (uncount t a st ti s))
  | Unlock, Some (Unlocking a ti) => Some (unlock t a ti s)
  | Release, Some Releasing => Some (release t s)
  | _, _ => None
  end.
Definition step (s s' : Admission) : Prop := ∃ t e, transition t e s = Some (Ok s').

(** ** What the phases mean *)

Definition holds (p : Phase) : Z :=
  match p with Granted | Active => 1 | Leaving a _ _ => if a then 1 else 0 | Unlocking a _ => if a then 1 else 0 | _ => 0 end.
Definition is_counted (p : Phase) : Z :=
  match p with Preparing | Joining | Queued _ | Granted | Active | Leaving _ _ _ => 1 | _ => 0 end.
Definition is_active (p : Phase) : Z := match p with Active => 1 | Leaving _ st _ => if st then 1 else 0 | _ => 0 end.
Definition is_queued (p : Phase) : bool :=
  match p with
  | Queued _ => true
  | Leaving a _ ti => negb a && ti
  | Unlocking a ti => negb a && ti
  | _ => false
  end.
(** Only a thread that took the worker has started. *)
Definition phase_ok (p : Phase) : Prop := match p with Leaving a st _ => st = true → a = true | _ => True end.

Record inv (s : Admission) : Prop := {
  inv_slots : Z.of_nat (free s) + map_sum (λ _, 1) (threads s) = Z.of_nat (maximum s);
  inv_busy : map_sum holds (threads s) = if busy s then 1 else 0;
  inv_inflight : inflight (metrics s) = map_sum is_counted (threads s);
  inv_active : active (metrics s) = map_sum is_active (threads s);
  inv_ready : NoDup (ready s) ∧ ∀ t, t ∈ ready s ↔ ∃ p, threads s !! t = Some p ∧ is_queued p = true;
  inv_phases : ∀ t p, threads s !! t = Some p → phase_ok p;
}.
(** A thread moves from [p] to [q]. *)
Lemma move_inv s s' t p q :
  inv s → threads s !! t = Some p → threads s' = <[t := q]> (threads s) → free s' = free s → maximum s' = maximum s →
  (if busy s' then 1 else 0) = (if busy s then 1 else 0) - holds p + holds q →
  inflight (metrics s') = inflight (metrics s) - is_counted p + is_counted q →
  active (metrics s') = active (metrics s) - is_active p + is_active q →
  phase_ok q → NoDup (ready s') → (∀ u, u ∈ ready s' ↔ (u ≠ t ∧ u ∈ ready s) ∨ (u = t ∧ is_queued q = true)) →
  inv s'.
Proof.
  intros [H1 H2 H3 H4 [H5 H6] H7] Ht Hth Hf Hm Hb Hi Ha Hok Hnd Hr. split.
  - rewrite Hth, Hf, Hm, (map_sum_replace _ _ _ _ _ Ht). lia.
  - rewrite Hth, (map_sum_replace _ _ _ _ _ Ht). lia.
  - rewrite Hth, (map_sum_replace _ _ _ _ _ Ht). lia.
  - rewrite Hth, (map_sum_replace _ _ _ _ _ Ht). lia.
  - split; [done|]. intros u. rewrite Hr, Hth, H6. destruct (decide (u = t)) as [->|Hne].
    + rewrite lookup_insert_eq. naive_solver.
    + rewrite lookup_insert_ne by done. naive_solver.
  - intros u x. rewrite Hth. destruct (decide (u = t)) as [->|Hne].
    + rewrite lookup_insert_eq. by intros [= <-].
    + rewrite lookup_insert_ne by done. by apply H7.
Qed.

Lemma ready_same s t p q :
  inv s → threads s !! t = Some p → is_queued q = is_queued p →
  ∀ u, u ∈ ready s ↔ (u ≠ t ∧ u ∈ ready s) ∨ (u = t ∧ is_queued q = true).
Proof.
  intros Hinv Ht Hq u. destruct (inv_ready _ Hinv) as [_ Hr]. destruct (decide (u = t)) as [->|]; [|tauto].
  rewrite Hr, Ht, Hq. naive_solver.
Qed.
Lemma remove_first_spec t l :
  NoDup l → t ∈ l → ∃ r, remove_first t l = Some r ∧ NoDup r ∧ ∀ u, u ∈ r ↔ u ≠ t ∧ u ∈ l.
Proof.
  induction 1 as [|x l Hx Hnd IH]; intros Ht; [by apply elem_of_nil in Ht|]. cbn [remove_first].
  destruct (decide (x = t)) as [->|Hne].
  - exists l. split_and!; [done|done|]. intros u. rewrite elem_of_cons. split; [intros Hu; split; [by intros ->|by right]|].
    intros [Hu [->|?]]; done.
  - apply elem_of_cons in Ht as [->|Ht]; [done|]. destruct (IH Ht) as (r & -> & Hr & Hiff). exists (x :: r). split_and!; [done| |].
    + constructor; [|done]. rewrite Hiff. tauto.
    + intros u. rewrite !elem_of_cons, Hiff. split; [|tauto]. intros [->|[? ?]]; auto.
Qed.
Lemma holds_range p : 0 <= holds p <= 1.
Proof. destruct p as [| | | | | |[] ? ?|[] ?|]; cbn; lia. Qed.

(** Two threads never hold the worker. *)
Lemma holders_unique s t u p q :
  inv s → threads s !! t = Some p → threads s !! u = Some q → holds p = 1 → holds q = 1 → t = u.
Proof.
  intros Hinv Ht Hu Hp Hq. destruct (decide (t = u)) as [|Hne]; [done|]. exfalso.
  pose proof (map_sum_two holds (threads s) t u p q Ht Hu Hne (λ _ x _, proj1 (holds_range x))) as H.
  rewrite (inv_busy _ Hinv) in H. destruct (busy s); lia.
Qed.

(** A move that keeps the queue: [p] and [q] are the phases before and after. *)
Ltac moved Hinv Ht p q :=
  match type of Ht with threads ?s !! ?t = _ =>
    eapply (move_inv s _ t p q); cbn; try done; try lia; try apply (inv_ready _ Hinv);
    try exact (ready_same s t p q Hinv Ht eq_refl)
  end.

Lemma arrive_inv s t : inv s → threads s !! t = None → inv (arrive t s).
Proof.
  intros [H1 H2 H3 H4 [H5 H6] H7] Ht. unfold arrive. destruct (free s) as [|n] eqn:E.
  - split; cbn; try done; lia.
  - split; cbn; rewrite ?map_sum_insert by done; cbn; try lia.
    + split; [done|]. intros u. rewrite H6. destruct (decide (u = t)) as [->|Hne].
      * rewrite lookup_insert_eq, Ht. naive_solver.
      * by rewrite lookup_insert_ne.
    + intros u p [[<- <-]|[_ Hp]]%lookup_insert_Some; [done|by eapply H7].
Qed.
Lemma poll_inv s t d c now : inv s → threads s !! t = Some (Queued d) → inv (poll t d c now s).
Proof.
  intros Hinv Ht. pose proof (inv_ready _ Hinv) as [Hnd Hr]. unfold poll.
  assert (Hleave : ∀ m, inflight m = 0 → active m = 0 → inv (record m (goto t (Leaving false false true) s))).
  { intros m Hm1 Hm2. moved Hinv Ht (Queued d) (Leaving false false true). }
  destruct c; [by apply Hleave| |].
  - destruct (fleb _ _); [by apply Hleave|]. destruct (negb (busy s) && _) eqn:E; [|done]. breflect.
    destruct (ready s) as [|x r] eqn:Er; [done|]. injection H0 as ->. apply NoDup_cons in Hnd as [Hno Hnd].
    eapply (move_inv s _ t (Queued d) Granted); cbn; try done; try lia; [by rewrite H|].
    intros u. rewrite Er, elem_of_cons. split; [intros Hu; left; split; [by intros ->|by right]|]. intros [[? [->|?]]|[_ ?]]; done.
  - moved Hinv Ht (Queued d) (Leaving false false true).
Qed.
Lemma unlock_inv s t a ti : inv s → threads s !! t = Some (Unlocking a ti) → ∃ s', unlock t a ti s = Ok s' ∧ inv s'.
Proof.
  intros Hinv Ht. pose proof (inv_ready _ Hinv) as [Hnd Hr]. unfold unlock. destruct a.
  - eexists. split; [done|]. assert (Hb : busy s = true).
    { pose proof (inv_busy _ Hinv) as Hb. destruct (busy s); [done|].
      pose proof (map_sum_elem holds (threads s) t _ Ht (λ _ x _, proj1 (holds_range x))) as H. cbn in H. lia. }
    moved Hinv Ht (Unlocking true ti) Releasing. by rewrite Hb.
  - destruct ti.
    + assert (Hin : t ∈ ready s) by (apply Hr; by eexists). destruct (remove_first_spec t (ready s) Hnd Hin) as (r & -> & Hndr & Hiff).
      eexists. split; [done|]. eapply (move_inv s _ t (Unlocking false true) Releasing); cbn; try done; try lia.
      intros u. rewrite Hiff. naive_solver.
    + eexists. split; [done|]. moved Hinv Ht (Unlocking false false) Releasing.
Qed.
Lemma release_slot_inv s t : inv s → threads s !! t = Some Releasing → ∃ s', release t s = Ok s' ∧ inv s'.
Proof.
  intros [H1 H2 H3 H4 [H5 H6] H7] Ht. unfold release.
  pose proof (map_sum_elem (λ _ : Phase, 1) (threads s) t _ Ht ltac:(intros; lia)) as Hone. cbn in Hone.
  destruct (Nat.leb_spec (maximum s) (free s)); [lia|]. eexists. split; [done|].
  split; cbn; rewrite ?(map_sum_delete _ _ _ _ Ht); cbn; try lia.
  - split; [done|]. intros u. rewrite H6. destruct (decide (u = t)) as [->|Hne].
    + rewrite lookup_delete_eq, Ht. naive_solver.
    + by rewrite lookup_delete_ne.
  - intros u p [_ Hp]%lookup_delete_Some. by eapply H7.
Qed.

(** No transition raises, and each keeps the invariant. *)
Lemma transition_inv s t e r : inv s → transition t e s = Some r → ∃ s', r = Ok s' ∧ inv s'.
Proof.
  intros Hinv. unfold transition. destruct e, (threads s !! t) as [p|] eqn:Ht; try done; try (destruct p; try done);
    intros [= <-]; try (eexists; split; [reflexivity|]).
  - by apply arrive_inv.
  - moved Hinv Ht Entered Preparing.
  - destruct outcome; cbn [prepare].
    + moved Hinv Ht Preparing Joining.
    + moved Hinv Ht Preparing (Leaving false false false).
    + moved Hinv Ht Preparing (Leaving false false false).
  - pose proof (inv_ready _ Hinv) as [Hnd Hr]. assert (Hno : t ∉ ready s) by (rewrite Hr, Ht; naive_solver).
    eapply (move_inv s _ t Joining (Queued _)); cbn; try done; try lia.
    + apply NoDup_app. split_and!; [done|set_solver|apply NoDup_singleton].
    + intros u. rewrite elem_of_app, list_elem_of_singleton. destruct (decide (u = t)) as [->|]; tauto.
  - by apply poll_inv.
  - destruct cancelled; cbn [recheck].
    + moved Hinv Ht Granted (Leaving true false true).
    + moved Hinv Ht Granted Active.
    + moved Hinv Ht Granted (Leaving true false true).
  - unfold body. cbv zeta. destruct outcome;
      moved Hinv Ht Active (Leaving true true true).
  - pose proof (inv_phases _ Hinv _ _ Ht) as Hok.
    moved Hinv Ht (Leaving acquired started0 ticket) (Unlocking acquired ticket). destruct started0; lia.
  - destruct (unlock_inv s t acquired ticket Hinv Ht) as (s' & -> & Hs'). by exists s'.
  - destruct (release_slot_inv s t Hinv Ht) as (s' & -> & Hs'). by exists s'.
Qed.
Lemma new_admission_inv maximum_waiters timeout_seconds s :
  new_admission maximum_waiters timeout_seconds = Ok s → inv s ∧ Z.of_nat (maximum s) = maximum_waiters + 1.
Proof.
  unfold new_admission. destruct (negb (_ && (_ <=? 128))) eqn:E; [done|]. destruct (_ || _); [done|]. intros [= <-]. breflect.
  split; [|cbn; lia]. split; cbn; rewrite ?map_sum_empty; try done; try lia.
  split; [constructor|]. intros t. rewrite lookup_empty, elem_of_nil. naive_solver.
Qed.
Lemma step_keeps s s' : inv s → step s s' → inv s' ∧ maximum s' = maximum s.
Proof.
  intros Hinv (t & e & H). destruct (transition_inv s t e _ Hinv H) as (s'' & [= <-] & Hinv'). split; [done|]. clear Hinv Hinv'.
  unfold transition in H. destruct e, (threads s !! t) as [p|]; try done; try (destruct p; try done); injection H as H;
    try (rewrite <-H; clear H).
  - unfold arrive. by destruct (free s).
  - done.
  - by destruct outcome.
  - done.
  - unfold poll. destruct cancelled; [done| |done]. destruct (fleb _ _); [done|]. by destruct (_ && _).
  - by destruct cancelled.
  - by destruct outcome.
  - done.
  - unfold unlock in H. destruct acquired; [by injection H as <-|]. destruct ticket; [|by injection H as <-].
    destruct (remove_first t (ready s)); [|done]. by injection H as <-.
  - unfold release in H. destruct (_ <=? _)%nat; [done|]. by injection H as <-.
Qed.
Lemma admission_run_inv maximum_waiters timeout_seconds s0 s :
  new_admission maximum_waiters timeout_seconds = Ok s0 → rtc step s0 s → inv s ∧ Z.of_nat (maximum s) = maximum_waiters + 1.
Proof.
  intros Hn Hr. apply (rtc_invariant step (λ s, inv s ∧ Z.of_nat (maximum s) = maximum_waiters + 1) s0 s); [| |done].
  - intros a b [Ha Hm] Hab. destruct (step_keeps a b Ha Hab) as [Hb ->]. done.
  - by apply new_admission_inv in Hn.
Qed.

(** ** First come, first served *)

(** [t] comes before [u]. *)
Definition before (t u : nat) (l : list nat) : Prop := [t; u] `sublist_of` l.

Lemma before_tail t u x l : t ≠ x → before t u (x :: l) → before t u l.
Proof. intros Hne [H|(k & [= <- _] & _)]%sublist_cons_r; done. Qed.
Lemma before_head t u x l : NoDup (x :: l) → before t u (x :: l) → u ≠ x.
Proof.
  intros [Hno _]%NoDup_cons H ->. apply Hno. apply sublist_cons_r in H as [H|(k & [= <- <-] & H)].
  - eapply elem_of_sublist; [|exact H]. right. left.
  - eapply elem_of_sublist; [|exact H]. left.
Qed.
Lemma sublist_skip (k l1 l2 : list nat) x : x ∉ k → k `sublist_of` l1 ++ x :: l2 → k `sublist_of` l1 ++ l2.
Proof.
  intros Hx (k1 & k2 & -> & H1 & H2)%sublist_app_r. apply sublist_cons_r in H2 as [H2|(k & -> & _)]; [by apply sublist_app|].
  exfalso. apply Hx, elem_of_app. right. left.
Qed.
Lemma remove_first_split x l r : remove_first x l = Some r → ∃ l1 l2, l = l1 ++ x :: l2 ∧ r = l1 ++ l2.
Proof.
  revert r. induction l as [|y l IH]; intros r; cbn; [done|]. destruct (decide (y = x)) as [->|].
  - intros [= <-]. by exists [], l.
  - intros (r' & Hr & ->)%fmap_Some. destruct (IH r' Hr) as (l1 & l2 & -> & ->). by exists (y :: l1), l2.
Qed.

(** The queue keeps its order, and a thread is granted the worker only when no thread
    that queued before it is still queued. *)
Lemma queue_order s s' t u :
  inv s → step s s' → before t u (ready s) → t ∈ ready s' → u ∈ ready s' → before t u (ready s').
Proof.
  intros Hinv (x & e & H) Hb Ht Hu. pose proof (inv_ready _ Hinv) as [Hnd _].
  assert (Hcase : ready s' = ready s ∨ (∃ y, ready s' = ready s ++ [y]) ∨ (∃ y, ready s = y :: ready s') ∨
                  (∃ y, remove_first y (ready s) = Some (ready s'))).
  { unfold transition in H. destruct e, (threads s !! x) as [p|]; try done; try (destruct p; try done); injection H as H;
      try (rewrite <-H; clear H); try (by left); try (unfold arrive; destruct (free s); by left).
    - destruct outcome; by left.
    - right. left. by exists x.
    - unfold poll. destruct cancelled; [by left| |by left]. destruct (fleb _ _); [by left|].
      destruct (negb _ && _) eqn:E; [|by left]. right. right. left. exists x. breflect. destruct (ready s); [done|].
      injection H0 as ->. done.
    - destruct cancelled; by left.
    - destruct outcome; by left.
    - unfold unlock in H. destruct acquired; [injection H as <-; by left|]. destruct ticket; [|injection H as <-; by left].
      destruct (remove_first x (ready s)) as [r|] eqn:Er; [|done]. injection H as <-. right. right. right. by exists x.
    - unfold release in H. destruct (_ <=? _)%nat; [done|]. injection H as <-. by left. }
  destruct Hcase as [->|[(y & ->)|[(y & Hy)|(y & Hy)]]].
  - done.
  - by apply sublist_inserts_r.
  - rewrite Hy in Hb, Hnd. apply NoDup_cons in Hnd as [Hno _]. apply (before_tail t u y); [by intros ->|done].
  - destruct (remove_first_spec y (ready s) Hnd) as (r & Hr & _ & Hiff).
    { destruct (remove_first_split _ _ _ Hy) as (l1 & l2 & -> & _). apply elem_of_app. right. left. }
    rewrite Hr in Hy. injection Hy as ->. destruct (remove_first_split _ _ _ Hr) as (l1 & l2 & Heq & ->).
    unfold before in *. rewrite Heq in Hb. eapply sublist_skip; [|exact Hb].
    apply Hiff in Ht as [Ht _], Hu as [Hu _]. intros [->|[->|Hy]%elem_of_cons]%elem_of_cons; [done|done|by apply elem_of_nil in Hy].
Qed.
Lemma no_overtaking s s' t u :
  inv s → step s s' → before t u (ready s) → threads s' !! u = Some Granted → threads s !! u = Some Granted.
Proof.
  intros Hinv (x & e & H) Hb Hg. pose proof (inv_ready _ Hinv) as [Hnd _].
  destruct (decide (x = u)) as [->|Hne].
  - unfold transition in H. destruct e, (threads s !! u) as [p|] eqn:Eu; try done; try (destruct p; try done); injection H as H;
      try (rewrite <-H in Hg; clear H); cbn in Hg; try (rewrite lookup_insert_eq in Hg; done).
    + unfold arrive in Hg. destruct (free s); cbn in Hg; [congruence|]. by rewrite lookup_insert_eq in Hg.
    + destruct outcome; cbn in Hg; by rewrite lookup_insert_eq in Hg.
    + unfold poll in Hg. destruct cancelled; cbn in Hg; try (by rewrite lookup_insert_eq in Hg).
      destruct (fleb _ _); cbn in Hg; [by rewrite lookup_insert_eq in Hg|]. destruct (negb _ && _) eqn:E; [|congruence].
      exfalso. breflect. destruct (ready s) as [|y r]; [done|]. injection H0 as ->. by apply (before_head t u u r Hnd Hb).
    + destruct outcome; cbn in Hg; by rewrite lookup_insert_eq in Hg.
    + unfold unlock in H. destruct acquired; [|destruct ticket; [destruct (remove_first _ _); [|done]|]];
        injection H as <-; cbn in Hg; by rewrite lookup_insert_eq in Hg.
    + unfold release in H. destruct (_ <=? _)%nat; [done|]. injection H as <-. cbn in Hg. by rewrite lookup_delete_eq in Hg.
  - unfold transition in H. destruct e, (threads s !! x) as [p|]; try done; try (destruct p; try done); injection H as H;
      try (rewrite <-H in Hg; clear H); cbn in Hg; try (by rewrite lookup_insert_ne in Hg).
    + unfold arrive in Hg. destruct (free s); cbn in Hg; [done|]. by rewrite lookup_insert_ne in Hg.
    + destruct outcome; cbn in Hg; by rewrite lookup_insert_ne in Hg.
    + unfold poll in Hg. destruct cancelled; cbn in Hg; try (by rewrite lookup_insert_ne in Hg).
      destruct (fleb _ _); cbn in Hg; [by rewrite lookup_insert_ne in Hg|]. destruct (negb _ && _); [|done].
      cbn in Hg. by rewrite lookup_insert_ne in Hg.
    + destruct cancelled; cbn in Hg; by rewrite lookup_insert_ne in Hg.
    + destruct outcome; cbn in Hg; by rewrite lookup_insert_ne in Hg.
    + unfold unlock in H. destruct acquired; [|destruct ticket; [destruct (remove_first _ _); [|done]|]];
        injection H as <-; cbn in Hg; by rewrite lookup_insert_ne in Hg.
    + unfold release in H. destruct (_ <=? _)%nat; [done|]. injection H as <-. cbn in Hg. by rewrite lookup_delete_ne in Hg.
Qed.
(** A thread at the head of the queue takes a free worker at its next turn. *)
Lemma head_takes s t d now :
  threads s !! t = Some (Queued d) → busy s = false → head (ready s) = Some t → fleb (fsub d now) zero = false →
  ∃ s', transition t (Poll No now) s = Some (Ok s') ∧ threads s' !! t = Some Granted ∧ busy s' = true ∧
    ready s = t :: ready s'.
Proof.
  intros Ht Hb Hh He. unfold transition. rewrite Ht. unfold poll. rewrite He, Hb.
  rewrite bool_decide_eq_true_2 by done. cbn [negb andb]. eexists. split; [done|]. cbn. split_and!; [by rewrite lookup_insert_eq|done|].
  destruct (ready s); [done|]. by injection Hh as ->.
Qed.
Lemma counters_bounded s :
  inv s → 0 <= active (metrics s) <= 1 ∧ active (metrics s) <= inflight (metrics s) <= Z.of_nat (maximum s).
Proof.
  intros Hinv. rewrite (inv_active _ Hinv), (inv_inflight _ Hinv). pose proof (inv_slots _ Hinv) as Hs.
  pose proof (map_sum_nonneg is_active (threads s) ltac:(intros k [] _; cbn; repeat case_match; lia)) as H0.
  pose proof (map_sum_le is_active holds (threads s)) as H1. pose proof (map_sum_le is_active is_counted (threads s)) as H2.
  pose proof (map_sum_le is_counted (λ _, 1) (threads s) ltac:(intros k [] _; cbn; lia)) as H3.
  assert (map_sum is_active (threads s) <= map_sum holds (threads s)) as H1'.
  { apply H1. intros k p Hp. pose proof (inv_phases _ Hinv _ _ Hp) as Hok. destruct p as [| | | | | |[] []|[]|]; cbn in *; try lia.
    all: by specialize (Hok eq_refl). }
  assert (map_sum is_active (threads s) <= map_sum is_counted (threads s)) as H2'.
  { apply H2. intros k p _. destruct p as [| | | | | |? []| |]; cbn; lia. }
  rewrite (inv_busy _ Hinv) in H1'. destruct (busy s); lia.
Qed.
Lemma quiescent s :
  inv s → threads s = ∅ → inflight (metrics s) = 0 ∧ active (metrics s) = 0 ∧ free s = maximum s ∧ ready s = [] ∧ busy s = false.
Proof.
  intros [H1 H2 H3 H4 [H5 H6] H7] He. rewrite He, map_sum_empty in *. split_and!; [done|done|lia| |by destruct (busy s)].
  destruct (ready s) as [|t l]; [done|]. destruct (proj1 (H6 t)) as (p & Hp & _); [left|]. by rewrite lookup_empty in Hp.
Qed.

(** ** The gate *)

(** C13: in every state the gate reaches, whatever the interleaving of the requests, no
    transition raises, at most one request holds the single worker, the gauges of the
    metrics are within their bounds (at most one active, at most [maximum_waiters + 1]
    inside), requests are served in the order in which they queued, a free worker is
    taken by the unexpired head of the queue at its next turn, and once every request has
    left, the gate is as it was made. *)
Theorem admission_exclusive (maximum_waiters : Z) (timeout_seconds : float) (s0 s : Admission) :
  new_admission maximum_waiters timeout_seconds = Ok s0 → rtc step s0 s →
  (∀ t e r, transition t e s = Some r → is_ok r = true) ∧
  (∀ t u p q, threads s !! t = Some p → threads s !! u = Some q → holds p = 1 → holds q = 1 → t = u) ∧
  0 <= active (metrics s) <= 1 ∧ active (metrics s) <= inflight (metrics s) <= maximum_waiters + 1 ∧
  (∀ t u s', step s s' → before t u (ready s) →
     (t ∈ ready s' → u ∈ ready s' → before t u (ready s')) ∧
     (threads s' !! u = Some Granted → threads s !! u = Some Granted)) ∧
  (∀ t d now, threads s !! t = Some (Queued d) → busy s = false → head (ready s) = Some t →
     fleb (fsub d now) zero = false →
     ∃ s', transition t (Poll No now) s = Some (Ok s') ∧ threads s' !! t = Some Granted ∧ busy s' = true ∧
       ready s = t :: ready s') ∧
  (threads s = ∅ → inflight (metrics s) = 0 ∧ active (metrics s) = 0 ∧ free s = maximum s ∧ ready s = [] ∧ busy s = false).
Proof.
  intros Hn Hr. destruct (admission_run_inv _ _ _ _ Hn Hr) as [Hinv Hm]. rewrite <-Hm.
  pose proof (counters_bounded s Hinv) as [Ha Hi]. split_and!; try lia.
  - intros t e r H. by destruct (transition_inv s t e r Hinv H) as (s' & -> & _).
  - intros t u p q. by apply holders_unique.
  - intros t u s' Hs Hb. split; [intros; by eapply queue_order|by eapply no_overtaking].
  - apply head_takes.
  - by apply quiescent.
Qed.

(** Two requests: the second waits while the first runs. *)
Definition demo_events : list (nat * Event) :=
  [(1, Arrive); (2, Arrive); (1, Count); (2, Count); (1, Prepare Prepared); (2, Prepare Prepared); (1, Join zero); (2, Join zero);
   (2, Poll No zero); (1, Poll No zero); (2, Poll No zero); (1, Recheck No); (2, Poll No zero)]%nat.
Fixpoint demo_run (evs : list (nat * Event)) (s : Admission) : res exn Admission :=
  match evs with
  | [] => Ok s
  | (t, e) :: evs' =>
      match transition t e s with
      | Some (Ok s') => demo_run evs' s'
      | Some (Raise x) => Raise x
      | None => demo_run evs' s
      end
  end.
Lemma demo_run_reaches evs s s' : demo_run evs s = Ok s' → rtc step s s'.
Proof.
  revert s. induction evs as [|[t e] evs IH]; intros s; cbn; [by intros [= <-]|].
  destruct (transition t e s) as [[s1|x]|] eqn:E; [|done|apply IH]. intros H. eapply rtc_l; [by exists t, e|by apply IH].
Qed.

Lemma admission_exclusive_witness :
  ∃ s0 s, new_admission 1 (of_Z 30) = Ok s0 ∧ demo_run demo_events s0 = Ok s ∧ rtc step s0 s ∧
    ready s = [2%nat] ∧ busy s = true ∧ active (metrics s) = 1 ∧ inflight (metrics s) = 2 ∧ 0 <= active (metrics s) <= 1.
Proof.
  eexists _, _. split; [vm_compute; reflexivity|]. split; [vm_compute; reflexivity|].
  match goal with |- rtc _ ?a ?b ∧ _ => assert (rtc step a b) as Hr; [apply (demo_run_reaches demo_events); vm_compute; reflexivity|];
    assert (new_admission 1 (of_Z 30) = Ok a) as Hn by (vm_compute; reflexivity) end.
  split; [exact Hr|]. do 4 (split; [reflexivity|]). exact (proj1 (proj2 (proj2 (admission_exclusive 1 (of_Z 30) _ _ Hn Hr)))).
Defined.
End GenerationAdmission.
