(* ===== verification/Submission.v ===== *)
(** * Priority command execution (submission.py)

    Clients submit commands to the scheduler's queue and keep handles; worker threads
    take requests from the scheduler, run their operations and settle the handles;
    clients cancel and shut down meanwhile.

    A thread is a program counter, and a transition is what it does between two points
    where another thread may act: one call of the scheduler, or one critical section.
    [_cancel_pending] calls the scheduler and the handle while it holds the condition,
    so its critical section is several transitions, and [holder] names the thread in it.
    [submit] is one transition: until the command is registered only the scheduler knows
    the token, and no transition that looks at the commands can come between.

    Of the scheduler the threads see where each token is: waiting in the queue, claimed
    by a thread in [admit_next] or [steal_next], or holding a reservation.  The section
    at the end relates this to the operations of BasicScheduler. *)

From S2P Require Import Prelude Types ScheduleQueue Admission Scheduler SchedulerSafety.

Module Submission.

(** Where the scheduler has a token. *)
Inductive Place := Waiting | Claimed | Reserved.
#[export] Instance Place_eq_dec : EqDecision Place.
Proof. solve_decision. Defined.

Section submission.
(** What operations return and raise. *)
Context {Val Err : Type}.

(** ** Handles *)

Inductive HandleState := Pending | Running | Cancelled | Failed | Succeeded.
#[export] Instance HandleState_eq_dec : EqDecision HandleState.
Proof. solve_decision. Defined.
Inductive Outcome := Returned (v : Val) | Raised (e : Err).

Record SubmissionHandle := mkHandle {
  state : HandleState;
  done_event : bool;
  cancel_requested : bool;
  outcome : option Outcome;            (* [_result] or [_error] *)
}.
Definition new_handle : SubmissionHandle := mkHandle Pending false false None.
(** [request_cancellation] *)
Definition request_cancellation (h : SubmissionHandle) : bool * SubmissionHandle :=
  if bool_decide (state h ∈ [Pending; Running])
  then (true, mkHandle (state h) (done_event h) true (outcome h)) else (false, h).
(** [_begin] *)
Definition begin_ (h : SubmissionHandle) : bool * SubmissionHandle :=
  if bool_decide (state h = Pending)
  then (true, mkHandle Running (done_event h) (cancel_requested h) (outcome h)) else (false, h).
(** [_cancelled] *)
Definition cancelled_ (h : SubmissionHandle) : SubmissionHandle :=
  if bool_decide (state h = Pending) then mkHandle Cancelled true (cancel_requested h) (outcome h) else h.
(** [_finish] *)
Definition finish_ (o : Outcome) (h : SubmissionHandle) : SubmissionHandle :=
  if bool_decide (state h = Running)
  then mkHandle (match o with Returned _ => Succeeded | Raised _ => Failed end) true (cancel_requested h) (Some o) else h.
(** What [result] does once the event is set; before that it waits or times out. *)
Inductive ResultAnswer := StillWaiting | IsCancelled | Answer (o : Outcome) | ReturnsNone.
Definition result (h : SubmissionHandle) : ResultAnswer :=
  if negb (done_event h) then StillWaiting
  else if bool_decide (state h = Cancelled) then IsCancelled
  else match outcome h with Some o => Answer o | None => ReturnsNone end.

(** ** Threads *)

Inductive Worker :=
| Looping                              (* at the top of [while True] *)
| Taking                               (* before [steal_next] or [admit_next] *)
| Admitting (t : string)               (* in one of them, with a claim *)
| Rejected (t : string) (e : Err)      (* caught [QueuedAdmissionError] *)
| RejectedBegin (t : string) (e : Err) (* its command was popped *)
| RejectedFinish (t : string) (e : Err)
| Granted (t : string)                (* before looking for the command *)
| Dropping (t : string)                (* there is none *)
| Got (t : string)                     (* before [_begin] *)
| Refused (t : string)                 (* [_begin] returned [False] *)
| Executing (t : string)               (* in the operation *)
| Finishing (t : string) (o : Outcome) (* before [_finish] *)
| Settled (t : string)                 (* before [complete_queued] *)
| Popping (t : string)                 (* before the command is removed *)
| Stopped.
(** A thread that cancels tokens one after the other. *)
Inductive Client :=
| Todo (ts : list string)
| InSection (t : string) (ts : list string)   (* before [scheduler.cancel], in the critical section *)
| Removing (t : string) (ts : list string).   (* it returned [True] *)

Record State := mkState {
  places : gmap string Place;
  handles : gmap string SubmissionHandle;
  commands : gset string;
  stopping : bool;
  holder : option nat;                 (* the client in [_cancel_pending] *)
  workers : gmap nat Worker;
  clients : gmap nat Client;
  started : list string;               (* the operations called, in order *)
  revoked : gset string;               (* reservations that [scheduler.cancel] released *)
}.
(** [GlobalSubmissionScheduler.__init__] and [start] *)
Definition new_state (worker_count : Z) : res exn State :=
  if (worker_count <=? 0) || (worker_count >? 8) then Raise (ValueError "worker_count must be between 1 and 8")
  else Ok (mkState ∅ ∅ ∅ false None (list_to_map ((λ i, (i, Looping)) <$> seq 0 (Z.to_nat worker_count))) ∅ [] ∅).

Definition with_worker (w : nat) (p : Worker) (s : State) : State :=
  mkState (places s) (handles s) (commands s) (stopping s) (holder s) (<[w := p]> (workers s)) (clients s) (started s) (revoked s).
Definition with_client (c : nat) (p : Client) (s : State) : State :=
  mkState (places s) (handles s) (commands s) (stopping s) (holder s) (workers s) (<[c := p]> (clients s)) (started s) (revoked s).
Definition with_places (p : gmap string Place) (s : State) : State :=
  mkState p (handles s) (commands s) (stopping s) (holder s) (workers s) (clients s) (started s) (revoked s).
Definition with_handle (t : string) (h : SubmissionHandle) (s : State) : State :=
  mkState (places s) (<[t := h]> (handles s)) (commands s) (stopping s) (holder s) (workers s) (clients s) (started s) (revoked s).
Definition with_commands (c : gset string) (s : State) : State :=
  mkState (places s) (handles s) c (stopping s) (holder s) (workers s) (clients s) (started s) (revoked s).
Definition with_holder (h : option nat) (s : State) : State :=
  mkState (places s) (handles s) (commands s) (stopping s) h (workers s) (clients s) (started s) (revoked s).
Definition stop (s : State) : State :=
  mkState (places s) (handles s) (commands s) true (holder s) (workers s) (clients s) (started s) (revoked s).
Definition call_operation (t : string) (s : State) : State :=
  mkState (places s) (handles s) (commands s) (stopping s) (holder s) (workers s) (clients s) (started s ++ [t]) (revoked s).
Definition revoke (t : string) (s : State) : State :=
  mkState (places s) (handles s) (commands s) (stopping s) (holder s) (workers s) (clients s) (started s) (revoked s ∪ {[t]}).

(** ** Operations of clients *)

(** [submit]: the scheduler issues a token it has not issued before. *)
Definition submit (t : string) (s : State) : option State :=
  if is_some (holder s) || stopping s || bool_decide (is_Some (handles s !! t)) then None
  else Some (with_commands (commands s ∪ {[t]}) (with_handle t new_handle (with_places (<[t := Waiting]> (places s)) s))).
(** [SubmissionHandle.cancel]: the look at the state, and then [_cancel_pending]. *)
Definition cancel (c : nat) (t : string) (s : State) : option State :=
  match handles s !! t, clients s !! c with
  | Some h, None => Some (if bool_decide (state h = Pending) then with_client c (Todo [t]) s else s)
  | _, _ => None
  end.
(** [shutdown] up to the joins. *)
Definition shutdown (c : nat) (s : State) : option State :=
  if is_some (holder s) || is_some (clients s !! c) then None
  else Some (with_client c (Todo (elements (commands s))) (stop s)).
Definition ask_cancellation (t : string) (s : State) : option State :=
  h ← handles s !! t; Some (with_handle t (request_cancellation h).2 s).

(** [BasicScheduler.cancel]: a waiting or claimed token leaves the queue, and a
    reservation is released. *)
Definition scheduler_cancel (t : string) (s : State) : bool * State :=
  match places s !! t with
  | None => (false, s)
  | Some p => (true, (if bool_decide (p = Reserved) then revoke t else id) (with_places (delete t (places s)) s))
  end.
(** [_cancel_pending] *)
Definition client_step (c : nat) (s : State) : option State :=
  p ← clients s !! c;
  match p with
  | Todo [] => None
  | Todo (t :: ts) =>
      if is_some (holder s) then None
      else match handles s !! t with
           | Some h =>
               if bool_decide (t ∈ commands s) && bool_decide (state h = Pending)
               then Some (with_client c (InSection t ts) (with_holder (Some c) s))
               else Some (with_client c (Todo ts) s)
           | None => Some (with_client c (Todo ts) s)
           end
  | InSection t ts =>
      let '(found, s') := scheduler_cancel t s in
      if found then Some (with_client c (Removing t ts) s') else Some (with_client c (Todo ts) (with_holder None s))
  | Removing t ts =>
      h ← handles s !! t;
      Some (with_client c (Todo ts) (with_holder None (with_handle t (cancelled_ h) (with_commands (commands s ∖ {[t]}) s))))
  end.

(** ** Operations of workers *)

(** How a claim ends: with a reservation, with an error, or, when stealing lacks
    capacity, back in the queue. *)
Inductive AdmissionResult := Gives | Fails (e : Err) | Restores.
Inductive WorkerEvent :=
| Wake                                 (* leave the waiting loop *)
| Claim (t : string)                   (* the queue yields a token *)
| Nothing                              (* it yields none *)
| Admit (r : AdmissionResult)
| Go                                   (* whatever comes next *)
| Returns (o : Outcome).               (* the operation ends *)

Definition complete_queued (t : string) (s : State) : State :=
  if bool_decide (places s !! t = Some Reserved) then with_places (delete t (places s)) s else s.
Definition pop_command (t : string) (s : State) : State := with_commands (commands s ∖ {[t]}) s.
(** [admit_next] and [steal_next] from the claim on; a token that was cancelled
    meanwhile is gone. *)
Definition admission (t : string) (r : AdmissionResult) (w : nat) (s : State) : State :=
  let here := bool_decide (places s !! t = Some Claimed) in
  match r with
  | Gives => if here then with_worker w (Granted t) (with_places (<[t := Reserved]> (places s)) s) else with_worker w Looping s
  | Fails e => with_worker w (Rejected t e) (if here then with_places (delete t (places s)) s else s)
  | Restores => with_worker w Taking (if here then with_places (<[t := Waiting]> (places s)) s else s)
  end.

(** One transition of [_run_worker]; those that take the condition wait for it. *)
Definition worker_step (w : nat) (e : WorkerEvent) (s : State) : option State :=
  p ← workers s !! w;
  let unlocked := is_none (holder s) in
  match p, e with
  | Looping, Wake =>
      if negb unlocked then None
      else if bool_decide (commands s ≠ ∅) then Some (with_worker w Taking s)
      else if stopping s then Some (with_worker w Stopped s) else None
  | Taking, Claim t =>
      if bool_decide (places s !! t = Some Waiting)
      then Some (with_worker w (Admitting t) (with_places (<[t := Claimed]> (places s)) s)) else None
  | Taking, Nothing => Some (with_worker w Looping s)
  | Admitting t, Admit r => Some (admission t r w s)
  | Rejected t err, Go =>
      if negb unlocked then None
      else if bool_decide (t ∈ commands s) then Some (with_worker w (RejectedBegin t err) (pop_command t s))
      else Some (with_worker w Looping s)
  | RejectedBegin t err, Go =>
      h ← handles s !! t;
      let '(ok, h') := begin_ h in
      Some (if ok then with_worker w (RejectedFinish t err) (with_handle t h' s) else with_worker w Looping s)
  | RejectedFinish t err, Go => h ← handles s !! t; Some (with_worker w Looping (with_handle t (finish_ (Raised err) h) s))
  | Granted t, Go =>
      if negb unlocked then None
      else Some (with_worker w (if bool_decide (t ∈ commands s) then Got t else Dropping t) s)
  | Dropping t, Go => Some (with_worker w Looping (complete_queued t s))
  | Got t, Go =>
      h ← handles s !! t;
      let '(ok, h') := begin_ h in
      Some (if ok then call_operation t (with_worker w (Executing t) (with_handle t h' s)) else with_worker w (Refused t) s)
  | Executing t, Returns o => Some (with_worker w (Finishing t o) s)
  | Finishing t o, Go => h ← handles s !! t; Some (with_worker w (Settled t) (with_handle t (finish_ o h) s))
  | Refused t, Go | Settled t, Go => Some (with_worker w (Popping t) (complete_queued t s))
  | Popping t, Go => if negb unlocked then None else Some (with_worker w Looping (pop_command t s))
  | _, _ => None
  end.

Inductive Event :=
| Submit (t : string) | Cancel (c : nat) (t : string) | Shutdown (c : nat) | RequestCancellation (t : string)
| ClientStep (c : nat) | WorkerStep (w : nat) (e : WorkerEvent).
Definition transition (e : Event) (s : State) : option State :=
  match e with
  | Submit t => submit t s
  | Cancel c t => cancel c t s
  | Shutdown c => shutdown c s
  | RequestCancellation t => ask_cancellation t s
  | ClientStep c => client_step c s
  | WorkerStep w e => worker_step w e s
  end.
Definition step (s s' : State) : Prop := ∃ e, transition e s = Some s'.

(** ** What holds of one token

    The state of a token is its place, the state of its handle, whether its command is
    registered, the phase of the worker that carries it, the critical section a client
    is in for it, and whether its operation was called and its reservation revoked. *)

Inductive Kind :=
| KNone | KAdmitting | KRejected | KRejectedBegin | KRejectedFinish | KAdmitted | KDropping | KGot | KRefused
| KExecuting | KFinishing | KSettled | KPopping.
Inductive Section_ := SNone | SIn | SRemoving.
Definition token_of (p : Worker) : option string :=
  match p with
  | Looping | Taking | Stopped => None
  | Admitting t | Rejected t _ | RejectedBegin t _ | RejectedFinish t _ | Granted t | Dropping t | Got t | Refused t
  | Executing t | Finishing t _ | Settled t | Popping t => Some t
  end.
Definition kind_of (p : Worker) : Kind :=
  match p with
  | Looping | Taking | Stopped => KNone
  | Admitting _ => KAdmitting | Rejected _ _ => KRejected | RejectedBegin _ _ => KRejectedBegin
  | RejectedFinish _ _ => KRejectedFinish | Granted _ => KAdmitted | Dropping _ => KDropping | Got _ => KGot
  | Refused _ => KRefused | Executing _ => KExecuting | Finishing _ _ => KFinishing | Settled _ => KSettled
  | Popping _ => KPopping
  end.
Definition terminal (st : HandleState) : bool := match st with Pending | Running => false | _ => true end.

(** The states a token can be in: place, handle, registered, section, called, revoked. *)
Definition legal (k : Kind) (pl : option Place) (st : HandleState) (cmd : bool) (se : Section_) (called rev : bool) : Prop :=
  match k with
  | KNone =>
      match st with
      | Pending => cmd = true ∧ called = false ∧ (pl = Some Waiting ∧ se ≠ SRemoving ∨ pl = None ∧ se = SRemoving)
      | Running => False
      | _ => pl = None ∧ cmd = false ∧ se = SNone ∧ (st = Cancelled → called = false)
      end
  | KAdmitting =>
      called = false ∧
      (st = Pending ∧ cmd = true ∧ (pl = Some Claimed ∧ se ≠ SRemoving ∨ pl = None ∧ se = SRemoving) ∨
       st = Cancelled ∧ cmd = false ∧ pl = None ∧ se = SNone)
  | KRejected => called = false ∧ pl = None ∧ (st = Pending ∧ cmd = true ∨ st = Cancelled ∧ cmd = false ∧ se = SNone)
  | KRejectedBegin => called = false ∧ pl = None ∧ st = Pending ∧ cmd = false ∧ se = SNone
  | KRejectedFinish => called = false ∧ pl = None ∧ st = Running ∧ cmd = false ∧ se = SNone
  | KAdmitted | KGot =>
      called = false ∧
      (st = Pending ∧ cmd = true ∧ (pl = Some Reserved ∧ se ≠ SRemoving ∨ pl = None ∧ se = SRemoving ∧ rev = true) ∨
       st = Cancelled ∧ cmd = false ∧ pl = None ∧ se = SNone)
  | KDropping | KRefused => called = false ∧ st = Cancelled ∧ cmd = false ∧ pl = None ∧ se = SNone
  | KExecuting | KFinishing =>
      called = true ∧ st = Running ∧ (cmd = false → se = SNone) ∧
      (pl = Some Reserved ∧ cmd = true ∧ se ≠ SRemoving ∨ pl = None ∧ rev = true)
  | KSettled =>
      called = true ∧ (st = Succeeded ∨ st = Failed) ∧ (cmd = false → se = SNone) ∧
      (pl = Some Reserved ∧ cmd = true ∧ se ≠ SRemoving ∨ pl = None ∧ rev = true)
  | KPopping =>
      pl = None ∧ (cmd = false → se = SNone) ∧
      ((st = Succeeded ∨ st = Failed) ∧ called = true ∨ st = Cancelled ∧ called = false ∧ cmd = false)
  end.

Definition handle_ok (h : SubmissionHandle) : Prop :=
  done_event h = terminal (state h) ∧
  match state h with
  | Succeeded => ∃ v, outcome h = Some (Returned v)
  | Failed => ∃ e, outcome h = Some (Raised e)
  | _ => outcome h = None
  end.

Definition section_of (s : State) (t : string) : Section_ :=
  match holder s with
  | None => SNone
  | Some c => match clients s !! c with
              | Some (InSection u _) => if decide (u = t) then SIn else SNone
              | Some (Removing u _) => if decide (u = t) then SRemoving else SNone
              | _ => SNone
              end
  end.
Definition carries (s : State) (t : string) (w : nat) (p : Worker) : Prop := workers s !! w = Some p ∧ token_of p = Some t.
Inductive kind (s : State) (t : string) : Kind → Prop :=
| carried w p : carries s t w p → kind s t (kind_of p)
| not_carried : (∀ w p, ¬ carries s t w p) → kind s t KNone.

Definition token_inv (s : State) (t : string) : Prop :=
  match handles s !! t with
  | None => places s !! t = None ∧ (t ∉ commands s) ∧ (∀ w p, ¬ carries s t w p) ∧ section_of s t = SNone ∧ (t ∉ started s)
  | Some h =>
      handle_ok h ∧
      ∀ k, kind s t k → legal k (places s !! t) (state h) (bool_decide (t ∈ commands s)) (section_of s t)
                          (bool_decide (t ∈ started s)) (bool_decide (t ∈ revoked s))
  end.
Record inv (s : State) : Prop := {
  inv_tokens : ∀ t, token_inv s t;
  inv_unique : ∀ t w w' p p', carries s t w p → carries s t w' p' → w = w';
  inv_section : ∀ c t ts, clients s !! c = Some (InSection t ts) ∨ clients s !! c = Some (Removing t ts) → holder s = Some c;
  inv_holder : ∀ c, holder s = Some c → ∃ t ts, clients s !! c = Some (InSection t ts) ∨ clients s !! c = Some (Removing t ts);
  inv_started : NoDup (started s);
}.

(** ** Transitions move one token *)

(** The parts of two states that concern a token. *)
Record same_token (s s' : State) (u : string) : Prop := {
  st_place : places s' !! u = places s !! u;
  st_handle : handles s' !! u = handles s !! u;
  st_command : u ∈ commands s' ↔ u ∈ commands s;
  st_section : section_of s' u = section_of s u;
  st_started : u ∈ started s' ↔ u ∈ started s;
  st_revoked : u ∈ revoked s' ↔ u ∈ revoked s;
  st_carries : ∀ w p, carries s' u w p ↔ carries s u w p;
}.
Lemma same_token_inv s s' u : same_token s s' u → token_inv s u → token_inv s' u.
Proof.
  intros [Hp Hh Hc Hse Hst Hr Hca]. unfold token_inv. rewrite Hh, Hp, Hse. destruct (handles s !! u) as [h|].
  - intros [Hok Hl]. split; [done|]. intros k Hk. rewrite (bool_decide_ext _ _ Hc), (bool_decide_ext _ _ Hst), (bool_decide_ext _ _ Hr).
    apply Hl. destruct Hk as [w p Hw|Hno]; [apply (carried _ _ w p), Hca, Hw|apply not_carried; intros w p Hw; by apply (Hno w p), Hca].
  - rewrite Hc, Hst. setoid_rewrite Hca. done.
Qed.
Lemma kind_unique s t w p k : (∀ w w' p p', carries s t w p → carries s t w' p' → w = w') → carries s t w p → kind s t k → k = kind_of p.
Proof.
  intros Hu Hw [w' p' Hw'|Hno]; [|by destruct (Hno w p)]. pose proof (Hu _ _ _ _ Hw Hw') as <-. destruct Hw as [Hw _], Hw' as [Hw' _]. congruence.
Qed.
Lemma carries_other s s' w p' u w2 p2 :
  workers s' = <[w := p']> (workers s) → w2 ≠ w → carries s' u w2 p2 ↔ carries s u w2 p2.
Proof. intros Hw Hne. unfold carries. by rewrite Hw, lookup_insert_ne. Qed.

(** A worker moves on with its token, or takes or drops it. *)
Lemma worker_moves s s' w p p' t h h' :
  inv s → workers s !! w = Some p → (token_of p = Some t ∨ token_of p = None ∧ places s !! t = Some Waiting) →
  (token_of p' = Some t ∨ token_of p' = None) → workers s' = <[w := p']> (workers s) → holder s' = holder s → clients s' = clients s →
  handles s !! t = Some h → handles s' = <[t := h']> (handles s) → handle_ok h' →
  (∀ u, u ≠ t → places s' !! u = places s !! u) → (∀ u, u ≠ t → u ∈ commands s' ↔ u ∈ commands s) →
  (∀ u, u ≠ t → u ∈ started s' ↔ u ∈ started s) → NoDup (started s') → revoked s' = revoked s →
  (legal (kind_of p) (places s !! t) (state h) (bool_decide (t ∈ commands s)) (section_of s t) (bool_decide (t ∈ started s)) (bool_decide (t ∈ revoked s)) →
   legal (kind_of p') (places s' !! t) (state h') (bool_decide (t ∈ commands s')) (section_of s t) (bool_decide (t ∈ started s')) (bool_decide (t ∈ revoked s))) →
  inv s'.
Proof.
  intros Hinv Hw Hp Hp' Hws Hho Hcl Hh Hhs Hok Hpl Hcm Hst Hnd Hrev Hlegal.
  assert (Hsec : ∀ u, section_of s' u = section_of s u) by (intros u; unfold section_of; by rewrite Hho, Hcl).
  pose proof (inv_tokens _ Hinv t) as Ht. unfold token_inv in Ht. rewrite Hh in Ht. destruct Ht as [_ Ht].
  assert (Hother : ∀ w2 p2, w2 ≠ w → ¬ carries s t w2 p2).
  { intros w2 p2 Hne Hc. destruct Hp as [Hp|[Hp Hwait]]; [by eapply Hne, (inv_unique _ Hinv t); [exact Hc|split]|].
    specialize (Ht _ (carried _ _ _ _ Hc)). rewrite Hwait in Ht. destruct Hc as [_ Hc]. destruct p2; naive_solver. }
  assert (Hk : kind s t (kind_of p)).
  { destruct Hp as [Hp|[Hp _]]; [by apply (carried _ _ w p)|]. replace (kind_of p) with KNone by (by destruct p).
    apply not_carried. intros w2 p2 Hc. destruct (decide (w2 = w)) as [->|Hne]; [|by apply (Hother w2 p2)].
    destruct Hc as [Hc1 Hc2]. congruence. }
  split.
  - intros u. destruct (decide (u = t)) as [->|Hne].
    + unfold token_inv. rewrite Hhs, lookup_insert_eq. split; [done|]. intros k Hk'. rewrite Hsec, Hrev.
      assert (k = kind_of p') as ->; [|by apply Hlegal, Ht].
      destruct Hk' as [w2 p2 Hc|Hno].
      * destruct (decide (w2 = w)) as [->|Hne]; [destruct Hc as [Hc _]; rewrite Hws, lookup_insert_eq in Hc; congruence|].
        by destruct (Hother w2 p2 Hne); apply (carries_other s s' w p').
      * destruct Hp' as [Hp'|Hp']; [|by destruct p']. destruct (Hno w p'). split; [by rewrite Hws, lookup_insert_eq|done].
    + apply (same_token_inv s); [|apply (inv_tokens _ Hinv)]. split; try done; [auto|by rewrite Hhs, lookup_insert_ne|auto|auto|by rewrite Hrev|].
      intros w2 p2. destruct (decide (w2 = w)) as [->|Hne2]; [|by eapply carries_other].
      unfold carries. rewrite Hws, lookup_insert_eq, Hw. split; intros [[= <-] Hc]; exfalso; destruct Hp as [Hp|[Hp _]], Hp'; congruence.
  - intros u w1 w2 p1 p2 H1 H2.
    destruct (decide (w1 = w)) as [->|Hn1], (decide (w2 = w)) as [->|Hn2]; [done|..].
    + apply (carries_other s s' w p') in H2; [|done..]. destruct H1 as [H1 H1']. rewrite Hws, lookup_insert_eq in H1. injection H1 as <-.
      destruct Hp' as [Hp'|Hp']; [|congruence]. assert (u = t) as -> by congruence. by destruct (Hother w2 p2).
    + apply (carries_other s s' w p') in H1; [|done..]. destruct H2 as [H2 H2']. rewrite Hws, lookup_insert_eq in H2. injection H2 as <-.
      destruct Hp' as [Hp'|Hp']; [|congruence]. assert (u = t) as -> by congruence. by destruct (Hother w1 p1).
    + apply (carries_other s s' w p') in H1, H2; [|done..]. by eapply (inv_unique _ Hinv).
  - rewrite Hho, Hcl. apply (inv_section _ Hinv).
  - rewrite Hho, Hcl. apply (inv_holder _ Hinv).
  - done.
Qed.
(** A worker without a token goes from one place to another. *)
Lemma worker_idle s w p p' :
  inv s → workers s !! w = Some p → token_of p = None → token_of p' = None → inv (with_worker w p' s).
Proof.
  intros Hinv Hw Hp Hp'.
  assert (Hc : ∀ u w2 p2, carries (with_worker w p' s) u w2 p2 ↔ carries s u w2 p2).
  { intros u w2 p2. destruct (decide (w2 = w)) as [->|Hne]; [|by eapply carries_other].
    unfold carries. cbn. rewrite lookup_insert_eq, Hw. split; intros [[= <-] ?]; congruence. }
  split; try apply Hinv.
  - intros u. apply (same_token_inv s); [|apply (inv_tokens _ Hinv)]. split; cbn; try done.
  - intros u w1 w2 p1 p2 H1%Hc H2%Hc. by eapply (inv_unique _ Hinv).
Qed.

(** A worker that carries [t]: its handle, and what is legal. *)
Lemma carried_legal s w p t :
  inv s → workers s !! w = Some p → token_of p = Some t →
  ∃ h, handles s !! t = Some h ∧ handle_ok h ∧
    legal (kind_of p) (places s !! t) (state h) (bool_decide (t ∈ commands s)) (section_of s t) (bool_decide (t ∈ started s)) (bool_decide (t ∈ revoked s)).
Proof.
  intros Hinv Hw Hp. pose proof (inv_tokens _ Hinv t) as Ht. unfold token_inv in Ht.
  destruct (handles s !! t) as [h|]; [|by destruct Ht as (_ & _ & Hno & _); destruct (Hno w p)].
  exists h. destruct Ht as [Hok Hl]. split_and!; [done|done|]. by apply Hl, (carried _ _ w p).
Qed.
Lemma unlocked_section s t : holder s = None → section_of s t = SNone.
Proof. intros H. unfold section_of. by rewrite H. Qed.
Lemma same_commands s t u : u ≠ t → u ∈ commands s ∖ {[t]} ↔ u ∈ commands s.
Proof. set_solver. Qed.

Lemma handle_ok_begin h : handle_ok h → state h = Pending → handle_ok (begin_ h).2 ∧ state (begin_ h).2 = Running ∧ (begin_ h).1 = true.
Proof. intros [H1 H2] Hs. unfold begin_. rewrite Hs in *. by rewrite bool_decide_eq_true_2. Qed.
Lemma begin_refused h : state h ≠ Pending → begin_ h = (false, h).
Proof. intros Hs. unfold begin_. by rewrite bool_decide_eq_false_2. Qed.
Lemma handle_ok_finish o h : handle_ok h → state h = Running →
  handle_ok (finish_ o h) ∧ state (finish_ o h) = match o with Returned _ => Succeeded | Raised _ => Failed end.
Proof. intros [H1 H2] Hs. unfold finish_. rewrite Hs in *. rewrite bool_decide_eq_true_2 by done. split; [|done]. destruct o; split; cbn; eauto. Qed.

(** What is legal before a move makes it legal after. *)
Ltac lawful E := revert E; clear; cbn [legal kind_of];
  repeat match goal with |- context [state ?h] => destruct (state h) end; intuition congruence.
Lemma complete_keeps s w p t p' :
  inv s → workers s !! w = Some p → token_of p = Some t →
  (p' = Looping ∧ kind_of p = KDropping ∨ p' = Popping t ∧ (kind_of p = KRefused ∨ kind_of p = KSettled)) →
  inv (with_worker w p' (complete_queued t s)).
Proof.
  intros Hinv Hw Hp Hp'. destruct (carried_legal s w p t Hinv Hw Hp) as (h & Hh & Hok & _).
  unfold complete_queued. destruct (bool_decide (places s !! t = Some Reserved)) eqn:E; breflect.
  - eapply (worker_moves s _ w p p' t h h Hinv Hw); cbn; try done; [by left|destruct Hp' as [[-> _]|[-> _]]; auto|by rewrite insert_id| |apply (inv_started _ Hinv)|].
    + intros u Hu. by rewrite lookup_delete_ne.
    + rewrite lookup_delete_eq, E. destruct Hp' as [[-> Hk]|[-> [Hk|Hk]]]; rewrite Hk; lawful E.
  - eapply (worker_moves s _ w p p' t h h Hinv Hw); cbn; try done; [by left|destruct Hp' as [[-> _]|[-> _]]; auto|by rewrite insert_id|apply (inv_started _ Hinv)|].
    destruct Hp' as [[-> Hk]|[-> [Hk|Hk]]]; rewrite Hk; lawful E.
Qed.
Lemma admission_inv s w t r : inv s → workers s !! w = Some (Admitting t) → inv (admission t r w s).
Proof.
  intros Hinv Hw. destruct (carried_legal s w _ t Hinv Hw eq_refl) as (h & Hh & Hok & _).
  unfold admission. destruct (bool_decide (places s !! t = Some Claimed)) eqn:E; breflect; destruct r.
  all: eapply (worker_moves s _ w (Admitting t) _ t h h Hinv Hw); cbn; try done; auto; try (by rewrite insert_id);
    try apply (inv_started _ Hinv); try (intros u Hu; by rewrite ?lookup_insert_ne, ?lookup_delete_ne by done).
  all: rewrite ?lookup_insert_eq, ?lookup_delete_eq, ?E; lawful E.
Qed.
Lemma claim_keeps s w t : inv s → workers s !! w = Some Taking → places s !! t = Some Waiting →
  inv (with_worker w (Admitting t) (with_places (<[t := Claimed]> (places s)) s)).
Proof.
  intros Hinv Hw Hpl. pose proof (inv_tokens _ Hinv t) as Ht. unfold token_inv in Ht.
  destruct (handles s !! t) as [h|] eqn:Hh; [|by destruct Ht as [Ht _]; rewrite Ht in Hpl]. destruct Ht as [Hok _].
  eapply (worker_moves s _ w Taking _ t h h Hinv Hw); cbn; try done; auto; try (by rewrite insert_id); try apply (inv_started _ Hinv).
  - intros u Hu. by rewrite lookup_insert_ne.
  - rewrite lookup_insert_eq, Hpl. lawful Hpl.
Qed.
(** A worker that takes the command of its token away, while no client is in the
    critical section. *)
Lemma pop_inv s w p t p' :
  inv s → workers s !! w = Some p → token_of p = Some t → holder s = None →
  (∃ e, p = Rejected t e ∧ p' = RejectedBegin t e ∧ t ∈ commands s) ∨ (p = Popping t ∧ p' = Looping) →
  inv (with_worker w p' (pop_command t s)).
Proof.
  intros Hinv Hw Hp Hho Hp'. destruct (carried_legal s w p t Hinv Hw Hp) as (h & Hh & Hok & _).
  eapply (worker_moves s _ w p p' t h h Hinv Hw); cbn; try done; auto; try (by rewrite insert_id); try apply (inv_started _ Hinv).
  - destruct Hp' as [(e & -> & -> & _)|[-> ->]]; auto.
  - intros u Hu. by apply same_commands.
  - rewrite (unlocked_section s t Hho), (bool_decide_eq_false_2 (t ∈ commands s ∖ {[t]})) by set_solver.
    destruct Hp' as [(e & -> & -> & Hc)|[-> ->]]; [rewrite (bool_decide_eq_true_2 _ Hc)|]; lawful Hho.
Qed.
(** A worker that looks for the command of its token. *)
Lemma look_inv s w p t p' :
  inv s → workers s !! w = Some p → token_of p = Some t → holder s = None →
  (∃ e, p = Rejected t e ∧ p' = Looping ∧ t ∉ commands s) ∨
  (p = Granted t ∧ p' = (if bool_decide (t ∈ commands s) then Got t else Dropping t)) →
  inv (with_worker w p' s).
Proof.
  intros Hinv Hw Hp Hho Hp'. destruct (carried_legal s w p t Hinv Hw Hp) as (h & Hh & Hok & _).
  eapply (worker_moves s _ w p p' t h h Hinv Hw); cbn; try done; auto; try (by rewrite insert_id); try apply (inv_started _ Hinv).
  - destruct Hp' as [(e & -> & -> & _)|[-> ->]]; [auto|]. destruct (bool_decide _); auto.
  - rewrite (unlocked_section s t Hho). destruct Hp' as [(e & -> & -> & Hc)|[-> ->]].
    + rewrite (bool_decide_eq_false_2 _ Hc). lawful Hho.
    + destruct (bool_decide (t ∈ commands s)); lawful Hho.
Qed.
(** A worker that begins or finishes the handle of its token. *)
Lemma begin_inv s w p t h p' :
  inv s → workers s !! w = Some p → handles s !! t = Some h → state h = Pending →
  (∃ e, p = RejectedBegin t e ∧ p' = with_worker w (RejectedFinish t e) (with_handle t (begin_ h).2 s)) ∨
  (p = Got t ∧ p' = call_operation t (with_worker w (Executing t) (with_handle t (begin_ h).2 s))) →
  inv p'.
Proof.
  intros Hinv Hw Hh Hs Hp'.
  assert (Hp : token_of p = Some t) by (by destruct Hp' as [(e & -> & _)|[-> _]]).
  destruct (carried_legal s w p t Hinv Hw Hp) as (h' & Hh' & Hok & Hl). assert (h' = h) as -> by congruence.
  destruct (handle_ok_begin h Hok Hs) as (Hok' & Hs' & _). destruct Hp' as [(e & -> & ->)|[-> ->]].
  - eapply (worker_moves s _ w _ _ t h (begin_ h).2 Hinv Hw); cbn; try done; auto; try apply (inv_started _ Hinv).
    rewrite Hs, Hs'. lawful Hs.
  - assert (Hno : t ∉ started s) by (cbn [kind_of legal] in Hl; destruct Hl as [Hl _]; by apply bool_decide_eq_false in Hl).
    eapply (worker_moves s _ w _ _ t h (begin_ h).2 Hinv Hw); cbn; try done; auto; try apply (inv_started _ Hinv).
    + intros u Hu. rewrite elem_of_app, list_elem_of_singleton. tauto.
    + apply NoDup_app. split_and!; [apply (inv_started _ Hinv)| |apply NoDup_singleton]. intros u Hu ->%list_elem_of_singleton. done.
    + rewrite (bool_decide_eq_true_2 (t ∈ started s ++ [t])) by (apply elem_of_app; right; left). rewrite Hs, Hs'. lawful Hs.
Qed.
Lemma refused_inv s w t h : inv s → workers s !! w = Some (Got t) → handles s !! t = Some h → state h ≠ Pending → inv (with_worker w (Refused t) s).
Proof.
  intros Hinv Hw Hh Hs. destruct (carried_legal s w _ t Hinv Hw eq_refl) as (h' & Hh' & Hok & _). assert (h' = h) as -> by congruence.
  eapply (worker_moves s _ w _ _ t h h Hinv Hw); cbn; try done; auto; try (by rewrite insert_id); try apply (inv_started _ Hinv).
  lawful Hs.
Qed.
Lemma finish_inv s w p t h o p' :
  inv s → workers s !! w = Some p → handles s !! t = Some h →
  (∃ e, p = RejectedFinish t e ∧ p' = Looping ∧ o = Raised e) ∨ (p = Finishing t o ∧ p' = Settled t) →
  inv (with_worker w p' (with_handle t (finish_ o h) s)).
Proof.
  intros Hinv Hw Hh Hp'. assert (Hp : token_of p = Some t) by (by destruct Hp' as [(e & -> & _)|[-> _]]).
  destruct (carried_legal s w p t Hinv Hw Hp) as (h' & Hh' & Hok & Hl). assert (h' = h) as -> by congruence.
  assert (Hs : state h = Running) by (destruct Hp' as [(e & -> & _)|[-> _]]; cbn in Hl; tauto).
  destruct (handle_ok_finish o h Hok Hs) as [Hok' Hs'].
  eapply (worker_moves s _ w p p' t h (finish_ o h) Hinv Hw); cbn; try done; auto; try apply (inv_started _ Hinv).
  - destruct Hp' as [(e & -> & -> & _)|[-> ->]]; auto.
  - rewrite Hs, Hs'. destruct Hp' as [(e & -> & -> & ->)|[-> ->]]; [|destruct o]; lawful Hs.
Qed.
Lemma returns_inv s w t o : inv s → workers s !! w = Some (Executing t) → inv (with_worker w (Finishing t o) s).
Proof.
  intros Hinv Hw. destruct (carried_legal s w _ t Hinv Hw eq_refl) as (h & Hh & Hok & _).
  eapply (worker_moves s _ w _ _ t h h Hinv Hw); cbn; try done; auto; try (by rewrite insert_id); apply (inv_started _ Hinv).
Qed.
Lemma rejected_begins s w t e h : inv s → workers s !! w = Some (RejectedBegin t e) → handles s !! t = Some h → state h = Pending.
Proof.
  intros Hinv Hw Hh. destruct (carried_legal s w _ t Hinv Hw eq_refl) as (h' & Hh' & _ & Hl). cbn in Hl.
  assert (h' = h) as -> by congruence. tauto.
Qed.
Lemma is_none_true {A} (o : option A) : is_none o = true → o = None.
Proof. by destruct o. Qed.
Lemma worker_step_inv s w e s' : inv s → worker_step w e s = Some s' → inv s'.
Proof.
  intros Hinv H. unfold worker_step in H. destruct (workers s !! w) as [p|] eqn:Hw; [|done]. cbn [mbind option_bind] in H.
  destruct p, e; try done; cbn [mbind option_bind] in H.
  all: try (injection H as <-; first [by eapply worker_idle|by apply admission_inv|by apply returns_inv|
    by (eapply complete_keeps; [done|exact Hw|done|auto])]).
  all: try (destruct (is_none (holder s)) eqn:Hho; cbn [negb] in H; [apply is_none_true in Hho|done]).
  - destruct (bool_decide _); [injection H as <-; by eapply worker_idle|]. destruct (stopping s); [|done].
    injection H as <-. by eapply worker_idle.
  - destruct (bool_decide _) eqn:E; [|done]. breflect. injection H as <-. by apply claim_keeps.
  - destruct (bool_decide _) eqn:E; breflect; injection H as <-.
    + eapply pop_inv; eauto.
    + eapply look_inv; eauto.
  - destruct (handles s !! t) as [h|] eqn:Hh; [|done]. cbn in H. pose proof (rejected_begins s w t e0 h Hinv Hw Hh) as Hs.
    destruct (begin_ h) as [ok h'] eqn:Eb. unfold begin_ in Eb. rewrite bool_decide_eq_true_2 in Eb by done. injection Eb as <- <-.
    injection H as <-. eapply (begin_inv s w); [done|done|done|done|]. left. exists e0. split; [done|].
    unfold begin_. by rewrite bool_decide_eq_true_2.
  - destruct (handles s !! t) as [h|] eqn:Hh; [|done]. cbn in H. injection H as <-. eapply finish_inv; eauto.
  - injection H as <-. eapply look_inv; eauto.
  - destruct (handles s !! t) as [h|] eqn:Hh; [|done]. cbn in H. destruct (decide (state h = Pending)) as [Hs|Hs].
    + unfold begin_ in H. rewrite bool_decide_eq_true_2 in H by done. injection H as <-.
      eapply (begin_inv s w); [done|done|done|done|]. right. split; [done|]. unfold begin_. by rewrite bool_decide_eq_true_2.
    + rewrite begin_refused in H by done. injection H as <-. by eapply refused_inv.
  - destruct (handles s !! t) as [h|] eqn:Hh; [|done]. cbn in H. injection H as <-. eapply finish_inv; eauto.
  - injection H as <-. eapply pop_inv; eauto.
Qed.

(** ** Clients *)

Lemma section_other s s' u : (∀ c, holder s = Some c → clients s' !! c = clients s !! c) → holder s' = holder s → section_of s' u = section_of s u.
Proof. intros Hc Hh. unfold section_of. rewrite Hh. destruct (holder s) as [c|]; [|done]. by rewrite Hc. Qed.
(** A client outside the critical section changes its list. *)
Lemma client_idle s c p ts : inv s → clients s !! c = p → (∀ t k, p ≠ Some (InSection t k) ∧ p ≠ Some (Removing t k)) →
  inv (with_client c (Todo ts) s).
Proof.
  intros Hinv Hc Hp.
  assert (Hne : holder s ≠ Some c).
  { intros Hh. destruct (inv_holder _ Hinv c Hh) as (t & k & [H|H]); rewrite H in Hc; by destruct (Hp t k). }
  assert (Hother : ∀ u, section_of (with_client c (Todo ts) s) u = section_of s u).
  { intros u. apply section_other; [|done]. intros c' Hc'. cbn. rewrite lookup_insert_ne; [done|congruence]. }
  split; try apply Hinv.
  - intros u. apply (same_token_inv s); [|apply (inv_tokens _ Hinv)]. split; cbn; try done.
  - cbn. intros c' t k. destruct (decide (c' = c)) as [->|Hcc]; [rewrite lookup_insert_eq; by intros [?|?]|].
    rewrite lookup_insert_ne by done. apply (inv_section _ Hinv).
  - cbn. intros c' Hc'. destruct (inv_holder _ Hinv c' Hc') as (t & k & H). exists t, k. by rewrite lookup_insert_ne by congruence.
Qed.
(** A client in the critical section, or entering it, moves on with its token. *)
Lemma client_moves s s' c t ts p' h h' :
  inv s → (holder s = None ∨ clients s !! c = Some (InSection t ts) ∨ clients s !! c = Some (Removing t ts)) →
  clients s' = <[c := p']> (clients s) → workers s' = workers s →
  (p' = InSection t ts ∧ holder s' = Some c ∨ p' = Removing t ts ∧ holder s' = Some c ∨ p' = Todo ts ∧ holder s' = None) →
  handles s !! t = Some h → handles s' = <[t := h']> (handles s) → handle_ok h' → started s' = started s →
  (∀ u, u ≠ t → places s' !! u = places s !! u) → (∀ u, u ≠ t → u ∈ commands s' ↔ u ∈ commands s) → (∀ u, u ≠ t → u ∈ revoked s' ↔ u ∈ revoked s) →
  (∀ k, legal k (places s !! t) (state h) (bool_decide (t ∈ commands s)) (section_of s t) (bool_decide (t ∈ started s)) (bool_decide (t ∈ revoked s)) →
        legal k (places s' !! t) (state h') (bool_decide (t ∈ commands s')) (section_of s' t) (bool_decide (t ∈ started s)) (bool_decide (t ∈ revoked s'))) →
  inv s'.
Proof.
  intros Hinv Hc Hcs Hws Hp' Hh Hhs Hok Hst Hpl Hcm Hrev Hlegal.
  assert (Hhc : holder s = None ∨ holder s = Some c).
  { destruct Hc as [Hc|Hc]; [by left|]. right. by apply (inv_section _ Hinv c t ts). }
  assert (Hsec : ∀ u, u ≠ t → section_of s' u = SNone ∧ section_of s u = SNone).
  { intros u Hu. unfold section_of. split.
    - destruct Hp' as [[-> ->]|[[-> ->]|[-> ->]]]; rewrite ?Hcs, ?lookup_insert_eq; try done; by rewrite decide_False.
    - destruct Hc as [->|Hc]; [done|]. destruct Hhc as [->| ->]; [done|]. destruct Hc as [->| ->]; by rewrite decide_False. }
  assert (Hcar : ∀ u w p, carries s' u w p ↔ carries s u w p) by (intros; unfold carries; by rewrite Hws).
  split.
  - intros u. destruct (decide (u = t)) as [->|Hne].
    + pose proof (inv_tokens _ Hinv t) as Ht. unfold token_inv in *. rewrite Hh in Ht. rewrite Hhs, lookup_insert_eq. destruct Ht as [_ Ht].
      split; [done|]. intros k Hk. rewrite Hst. apply Hlegal, Ht. destruct Hk as [w p Hw|Hno].
      * apply (carried _ _ w p). by apply Hcar.
      * apply not_carried. intros w p Hw. by apply (Hno w p), Hcar.
    + apply (same_token_inv s); [|apply (inv_tokens _ Hinv)]. destruct (Hsec u Hne) as [H1 H2].
      split; auto; [by rewrite Hhs, lookup_insert_ne|congruence|by rewrite Hst].
  - intros u w w' q q' H1%Hcar H2%Hcar. by eapply (inv_unique _ Hinv).
  - intros c' u k. rewrite Hcs. destruct (decide (c' = c)) as [->|Hcc].
    + rewrite lookup_insert_eq. intros [[= ->]|[= ->]]; naive_solver.
    + rewrite lookup_insert_ne by done. intros H. apply (inv_section _ Hinv) in H. destruct Hhc; congruence.
  - intros c' Hc'. rewrite Hcs. destruct Hp' as [[-> Hp']|[[-> Hp']|[-> Hp']]]; rewrite Hp' in Hc'; [..|done];
      injection Hc' as <-; exists t, ts; rewrite lookup_insert_eq; auto.
  - rewrite Hst. apply (inv_started _ Hinv).
Qed.
Lemma handle_ok_cancelled h : handle_ok h → handle_ok (cancelled_ h).
Proof. intros [H1 H2]. unfold cancelled_. case_bool_decide as Hs; [|done]. rewrite Hs in *. by split. Qed.
Lemma in_section s c t ts : inv s → clients s !! c = Some (InSection t ts) ∨ clients s !! c = Some (Removing t ts) →
  section_of s t = match clients s !! c with Some (InSection _ _) => SIn | _ => SRemoving end ∧
  ∃ h, handles s !! t = Some h ∧ handle_ok h.
Proof.
  intros Hinv Hc. pose proof (inv_section _ Hinv c t ts Hc) as Hho.
  assert (Hsec : section_of s t = match clients s !! c with Some (InSection _ _) => SIn | _ => SRemoving end).
  { unfold section_of. rewrite Hho. destruct Hc as [->| ->]; by rewrite decide_True. }
  split; [done|]. pose proof (inv_tokens _ Hinv t) as Ht. unfold token_inv in Ht. destruct (handles s !! t) as [h|].
  - exists h. by destruct Ht.
  - destruct Ht as (_ & _ & _ & Ht & _). rewrite Ht in Hsec. by destruct Hc as [Hc|Hc]; rewrite Hc in Hsec.
Qed.
Lemma client_step_inv s c s' : inv s → client_step c s = Some s' → inv s'.
Proof.
  intros Hinv H. unfold client_step in H. destruct (clients s !! c) as [p|] eqn:Hc; [|done]. cbn [mbind option_bind] in H.
  destruct p as [[|t ts]|t ts|t ts]; [done| | |].
  - destruct (is_some (holder s)) eqn:Hho; [done|]. assert (holder s = None) as Hnone by (by destruct (holder s)).
    assert (Hskip : inv (with_client c (Todo ts) s)) by (apply (client_idle s c (Some (Todo (t :: ts)))); [done|done|by intros; split]).
    destruct (handles s !! t) as [h|] eqn:Hh; [|by injection H as <-]. destruct (bool_decide (t ∈ commands s)) eqn:Ec; [|by injection H as <-].
    destruct (bool_decide (state h = Pending)) eqn:Es; cbn [andb] in H; [|by injection H as <-]. injection H as <-. apply bool_decide_eq_true in Ec, Es.
    pose proof (inv_tokens _ Hinv t) as Ht. unfold token_inv in Ht. rewrite Hh in Ht.
    eapply (client_moves s _ c t ts (InSection t ts) h h); cbn; auto; [by rewrite insert_id|apply Ht|]. intros k.
    rewrite (unlocked_section s t Hnone). unfold section_of. cbn. rewrite lookup_insert_eq, decide_True by done.
    rewrite (bool_decide_eq_true_2 (t ∈ commands s)), Es by done. clear. destruct k; cbn; intuition congruence.
  - destruct (in_section s c t ts Hinv (or_introl Hc)) as (Hsec & h & Hh & Hok). rewrite Hc in Hsec.
    unfold scheduler_cancel in H. destruct (places s !! t) as [pl|] eqn:Hpl; injection H as <-.
    + case_bool_decide as Hr; [subst pl|].
      * eapply (client_moves s _ c t ts (Removing t ts) h h); cbn; auto; [|by rewrite insert_id|..].
        -- right. left. split; [done|]. by apply (inv_section _ Hinv c t ts); left.
        -- intros u Hu. by rewrite lookup_delete_ne.
        -- set_solver.
        -- intros k. rewrite Hsec, Hpl, lookup_delete_eq, (bool_decide_eq_true_2 (t ∈ revoked s ∪ {[t]})) by set_solver.
           unfold section_of. cbn. rewrite (inv_section _ Hinv c t ts) by (by left). rewrite lookup_insert_eq, decide_True by done.
           clear. destruct k; cbn; destruct (state h); intuition congruence.
      * eapply (client_moves s _ c t ts (Removing t ts) h h); cbn; auto; [|by rewrite insert_id|..].
        -- right. left. split; [done|]. by apply (inv_section _ Hinv c t ts); left.
        -- intros u Hu. by rewrite lookup_delete_ne.
        -- intros k. rewrite Hsec, Hpl, lookup_delete_eq.
           unfold section_of. cbn. rewrite (inv_section _ Hinv c t ts) by (by left). rewrite lookup_insert_eq, decide_True by done.
           revert Hr. clear. destruct k; cbn; destruct (state h); intuition congruence.
    + eapply (client_moves s _ c t ts (Todo ts) h h); cbn; auto; [by rewrite insert_id|]. intros k. rewrite Hsec, Hpl.
      clear. destruct k; cbn; destruct (state h); intuition congruence.
  - destruct (in_section s c t ts Hinv (or_intror Hc)) as (Hsec & h & Hh & Hok). rewrite Hc in Hsec. rewrite Hh in H. cbn in H. injection H as <-.
    eapply (client_moves s _ c t ts (Todo ts) h (cancelled_ h)); cbn; auto; [by apply handle_ok_cancelled|intros u Hu; by apply same_commands|].
    intros k. rewrite Hsec. unfold section_of. cbn. rewrite (bool_decide_eq_false_2 (t ∈ commands s ∖ {[t]})) by set_solver.
    unfold cancelled_. destruct (decide (state h = Pending)) as [Hs|Hs].
    + rewrite (bool_decide_eq_true_2 (state h = Pending)) by done. rewrite Hs. clear. destruct k; cbn; intuition congruence.
    + rewrite (bool_decide_eq_false_2 (state h = Pending)) by done. revert Hs. clear. destruct k; cbn; destruct (state h); intuition congruence.
Qed.
Lemma submit_keeps s t s' : inv s → submit t s = Some s' → inv s'.
Proof.
  unfold submit. intros Hinv H. destruct (_ || _) eqn:E; [done|]. injection H as <-. rewrite !orb_false_iff in E.
  destruct E as [[Hho _] Hfresh]. apply bool_decide_eq_false in Hfresh. rewrite <-eq_None_not_Some in Hfresh.
  assert (Hnone : holder s = None) by (by destruct (holder s)).
  pose proof (inv_tokens _ Hinv t) as Ht. unfold token_inv in Ht. rewrite Hfresh in Ht. destruct Ht as (Hpl & Hc & Hno & _ & Hst).
  split; try apply Hinv. intros u. destruct (decide (u = t)) as [->|Hne].
  - unfold token_inv. cbn. rewrite lookup_insert_eq. split; [done|]. intros k Hk.
    assert (k = KNone) as -> by (destruct Hk as [w p Hw|_]; [by destruct (Hno w p)|done]).
    rewrite lookup_insert_eq, (bool_decide_eq_true_2 (t ∈ commands s ∪ {[t]})) by set_solver.
    rewrite (bool_decide_eq_false_2 _ Hst), (unlocked_section _ t) by done. cbn. split_and!; [done|done|by left].
  - apply (same_token_inv s); [|apply (inv_tokens _ Hinv)]. split; cbn; try done; rewrite ?lookup_insert_ne by done; try done. set_solver.
Qed.
Lemma request_ok h : handle_ok h → handle_ok (request_cancellation h).2 ∧ state (request_cancellation h).2 = state h.
Proof. unfold request_cancellation. by case_bool_decide. Qed.
Lemma handle_update_inv s t h h' : inv s → handles s !! t = Some h → handle_ok h' → state h' = state h → inv (with_handle t h' s).
Proof.
  intros Hinv Hh Hok Hs. split; try apply Hinv. intros u. destruct (decide (u = t)) as [->|Hne].
  - pose proof (inv_tokens _ Hinv t) as Ht. unfold token_inv in *. rewrite Hh in Ht. cbn. rewrite lookup_insert_eq, Hs. split; [done|].
    intros k Hk. apply Ht. destruct Hk as [w p Hw|Hno]; [by apply (carried s t w p)|by apply not_carried].
  - apply (same_token_inv s); [|apply (inv_tokens _ Hinv)]. split; cbn; try done. by rewrite lookup_insert_ne.
Qed.
Lemma stop_inv s : inv s → inv (stop s).
Proof. intros Hinv. split; try apply Hinv. intros t. apply (same_token_inv s); [by split|apply (inv_tokens _ Hinv)]. Qed.
Lemma transition_keeps e s s' : inv s → transition e s = Some s' → inv s'.
Proof.
  intros Hinv. destruct e; cbn [transition].
  - by apply submit_keeps.
  - unfold cancel. destruct (handles s !! t) as [h|]; [|done]. destruct (clients s !! c) eqn:Hc; [done|].
    case_bool_decide; intros [= <-]; [by eapply client_idle|done].
  - unfold shutdown. destruct (is_some (holder s)); [done|]. destruct (clients s !! c) eqn:Hc; [done|]. intros [= <-].
    apply (client_idle (stop s) c None); [by apply stop_inv|done|done].
  - unfold ask_cancellation. destruct (handles s !! t) as [h|] eqn:Hh; [|done]. intros [= <-].
    pose proof (inv_tokens _ Hinv t) as Ht. unfold token_inv in Ht. rewrite Hh in Ht.
    destruct (request_ok h (proj1 Ht)). by eapply handle_update_inv.
  - by apply client_step_inv.
  - by apply worker_step_inv.
Qed.
Lemma new_state_inv n s : new_state n = Ok s → inv s.
Proof.
  unfold new_state. destruct (_ || _); [done|]. intros [= <-].
  assert (Hidle : ∀ w p, (list_to_map ((λ i, (i, Looping)) <$> seq 0 (Z.to_nat n)) : gmap nat Worker) !! w = Some p → p = Looping).
  { intros w p H%elem_of_list_to_map_2. by apply list_elem_of_fmap in H as (i & [= _ ->] & _). }
  assert (Hno : ∀ t w p, ¬ carries (mkState ∅ ∅ ∅ false None (list_to_map ((λ i, (i, Looping)) <$> seq 0 (Z.to_nat n))) ∅ [] ∅) t w p).
  { intros t w p [Hw Hp]. by apply Hidle in Hw as ->. }
  split; cbn; try done.
  - intros t. unfold token_inv. cbn. rewrite lookup_empty. split_and!; [done|set_solver|apply Hno|done|apply not_elem_of_nil].
  - intros t w w' p p' Hw. by destruct (Hno t w p).
  - intros c t ts [H|H]; by rewrite lookup_empty in H.
  - constructor.
Qed.
Lemma run_keeps n s0 s : new_state n = Ok s0 → rtc step s0 s → inv s.
Proof.
  intros Hn Hr. apply (rtc_invariant step inv s0 s); [|by eapply new_state_inv|done].
  intros a b Ha [e He]. by eapply transition_keeps.
Qed.

(** ** What holds of every run *)

(** A token without a worker, as the invariant has it. *)
Lemma idle_legal s t h : inv s → handles s !! t = Some h → (∀ w p, ¬ carries s t w p) →
  legal KNone (places s !! t) (state h) (bool_decide (t ∈ commands s)) (section_of s t) (bool_decide (t ∈ started s)) (bool_decide (t ∈ revoked s)).
Proof.
  intros Hinv Hh Hno. pose proof (inv_tokens _ Hinv t) as Ht. unfold token_inv in Ht. rewrite Hh in Ht. by apply Ht, not_carried.
Qed.
(** A token is carried by a worker or by none. *)
Lemma carried_or_not s t : (∃ w p, carries s t w p) ∨ (∀ w p, ¬ carries s t w p).
Proof.
  destruct (decide (map_Exists (λ _ p, token_of p = Some t) (workers s))) as [(w & p & Hw & Hp)|Hno]; [left; by exists w, p|].
  right. intros w p [Hw Hp]. apply Hno. by exists w, p.
Qed.
Lemma any_legal s t h : inv s → handles s !! t = Some h →
  ∃ k, legal k (places s !! t) (state h) (bool_decide (t ∈ commands s)) (section_of s t) (bool_decide (t ∈ started s)) (bool_decide (t ∈ revoked s)).
Proof.
  intros Hinv Hh. destruct (carried_or_not s t) as [(w & p & Hw & Hp)|Hno]; [|by exists KNone; apply idle_legal].
  destruct (carried_legal s w p t Hinv Hw Hp) as (h' & Hh' & _ & Hl). assert (h' = h) as -> by congruence. by exists (kind_of p).
Qed.
(** Settled handles do not change. *)
Lemma operations_keep_settled h : terminal (state h) = true →
  (begin_ h).2 = h ∧ cancelled_ h = h ∧ (∀ o, finish_ o h = h) ∧ (request_cancellation h).2 = h.
Proof. unfold begin_, cancelled_, finish_, request_cancellation. destruct (state h); intros H; try done. Qed.
(** A transition writes at most one handle, by one of the operations. *)
Lemma handles_change e s s' : transition e s = Some s' →
  handles s' = handles s ∨ (∃ u, handles s !! u = None ∧ handles s' = <[u := new_handle]> (handles s)) ∨
  ∃ u h h', handles s !! u = Some h ∧ handles s' = <[u := h']> (handles s) ∧
    (h' = (begin_ h).2 ∨ h' = cancelled_ h ∨ (∃ o, h' = finish_ o h) ∨ h' = (request_cancellation h).2).
Proof.
  intros He.
  destruct e; cbn [transition] in He; unfold submit, cancel, shutdown, ask_cancellation, client_step, worker_step, scheduler_cancel, admission, complete_queued, mbind, option_bind in He.
  all: repeat (case_match; simplify_eq); try done; cbn; repeat case_match; cbn.
  all: repeat match goal with E : begin_ ?k = (_, ?k') |- _ => assert (k' = (begin_ k).2) as -> by (by rewrite E); clear E end.
  all: try (by left); try (right; right; eexists _, _, _; split_and!; [done|reflexivity|]; eauto 6; fail).
  all: right; left; eexists; split; [|reflexivity].
  all: try (rewrite !orb_false_iff in *; destruct_and!; breflect; by apply eq_None_not_Some).
Qed.
Lemma settled_stays s s' t h : step s s' → handles s !! t = Some h → terminal (state h) = true → handles s' !! t = Some h.
Proof.
  intros [e He] Hh Hterm. destruct (handles_change e s s' He) as [->|[(u & Hu & ->)|(u & k & k' & Hk & -> & Hop)]]; [done|..].
  - rewrite lookup_insert_ne; [done|congruence].
  - destruct (decide (u = t)) as [->|Hne]; [|by rewrite lookup_insert_ne]. rewrite lookup_insert_eq. assert (k = h) as -> by congruence.
    destruct (operations_keep_settled h Hterm) as (H1 & H2 & H3 & H4). f_equal.
    by destruct Hop as [->|[->|[[o ->]| ->]]].
Qed.
Lemma settled_forever s s' t h : rtc step s s' → handles s !! t = Some h → terminal (state h) = true → handles s' !! t = Some h.
Proof. induction 1 as [x|x y z Hxy _ IH]; [done|]. intros Hh Hterm. apply IH; [by eapply settled_stays|done]. Qed.

(** Whether anything is under way: no command is registered, no worker has a token, and
    no client is in the critical section. *)
Definition quiescent (s : State) : Prop :=
  commands s = ∅ ∧ holder s = None ∧ ∀ w p, workers s !! w = Some p → token_of p = None.
Definition in_operation (p : Worker) (t : string) : Prop := p = Executing t ∨ ∃ o, p = Finishing t o.
Lemma quiescent_settled s t h : inv s → quiescent s → handles s !! t = Some h → terminal (state h) = true ∧ places s !! t = None.
Proof.
  intros Hinv (Hc & Hho & Hw) Hh. assert (Hno : ∀ w p, ¬ carries s t w p) by (intros w p [H1 H2]; apply Hw in H1; congruence).
  pose proof (idle_legal s t h Hinv Hh Hno) as Hl. rewrite Hc, bool_decide_eq_false_2 in Hl by set_solver.
  destruct (state h); cbn in Hl; intuition congruence.
Qed.
Lemma reserved_carried s t : inv s → places s !! t = Some Reserved → ∃ w p, carries s t w p.
Proof.
  intros Hinv Hpl. destruct (carried_or_not s t) as [H|Hno]; [done|]. destruct (handles s !! t) as [h|] eqn:Hh.
  - pose proof (idle_legal s t h Hinv Hh Hno) as Hl. rewrite Hpl in Hl. destruct (state h); cbn in Hl; intuition congruence.
  - pose proof (inv_tokens _ Hinv t) as Ht. unfold token_inv in Ht. rewrite Hh in Ht. destruct Ht as [Ht _]. congruence.
Qed.
Lemma operation_reserved s w p t : inv s → workers s !! w = Some p → in_operation p t →
  t ∈ started s ∧ (∃ h, handles s !! t = Some h ∧ state h = Running) ∧ (places s !! t = Some Reserved ∨ t ∈ revoked s).
Proof.
  intros Hinv Hw Hp. assert (Htok : token_of p = Some t) by (by destruct Hp as [->|[o ->]]).
  destruct (carried_legal s w p t Hinv Hw Htok) as (h & Hh & _ & Hl).
  assert (H : bool_decide (t ∈ started s) = true ∧ state h = Running ∧ (places s !! t = Some Reserved ∨ bool_decide (t ∈ revoked s) = true))
    by (destruct Hp as [->|[o ->]]; cbn in Hl; tauto).
  destruct H as (H1 & H2 & H3). breflect. split_and!; [done|by exists h|]. destruct H3 as [H3|H3]; breflect; auto.
Qed.
Lemma cancelled_not_started s t h : inv s → handles s !! t = Some h → state h = Cancelled → t ∉ started s.
Proof.
  intros Hinv Hh Hs. destruct (any_legal s t h Hinv Hh) as [k Hl]. rewrite Hs in Hl.
  apply (bool_decide_eq_false (t ∈ started s)). destruct k; cbn in Hl; intuition congruence.
Qed.

(** C11: in every state that clients and workers can reach, whatever the order of their
    steps: no operation is called twice, and none whose handle was cancelled; a handle's
    event is set exactly when it is cancelled, failed or succeeded, with the error or the
    value of the operation, and then it never changes; each reservation belongs to the
    one worker that carries its token, and a worker in an operation has its handle
    running and holds the reservation, unless a cancellation released it; once nothing is
    under way every handle is settled and the scheduler has none of the tokens. *)
Theorem submissions_settled n s0 s : new_state n = Ok s0 → rtc step s0 s →
  NoDup (started s) ∧
  (∀ t h, handles s !! t = Some h →
     handle_ok h ∧ (state h = Cancelled → t ∉ started s) ∧
     (terminal (state h) = true → result h ≠ StillWaiting ∧ ∀ s', rtc step s s' → handles s' !! t = Some h) ∧
     (quiescent s → terminal (state h) = true ∧ places s !! t = None)) ∧
  (∀ t, places s !! t = Some Reserved → ∃ w p, carries s t w p ∧ ∀ w' p', carries s t w' p' → w' = w) ∧
  (∀ w p t, workers s !! w = Some p → in_operation p t →
     t ∈ started s ∧ (∃ h, handles s !! t = Some h ∧ state h = Running) ∧ (places s !! t = Some Reserved ∨ t ∈ revoked s)).
Proof.
  intros Hn Hr. pose proof (run_keeps n s0 s Hn Hr) as Hinv. split_and!.
  - apply (inv_started _ Hinv).
  - intros t h Hh. pose proof (inv_tokens _ Hinv t) as Ht. unfold token_inv in Ht. rewrite Hh in Ht. destruct Ht as [Hok _].
    split_and!; [done|by apply cancelled_not_started| |intros Hq; by apply quiescent_settled].
    intros Hterm. split.
    + destruct Hok as [Hd Ho]. unfold result. rewrite Hd, Hterm. cbn. case_bool_decide; [done|]. by destruct (outcome h).
    + intros s' Hs'. by eapply settled_forever.
  - intros t Ht. destruct (reserved_carried s t Hinv Ht) as (w & p & Hw). exists w, p. split; [done|].
    intros w' p' Hw'. by eapply (inv_unique _ Hinv).
  - intros w p t. by apply operation_reserved.
Qed.
End submission.
#[global] Arguments State : clear implicits.
#[global] Arguments Worker : clear implicits.
#[global] Arguments Event : clear implicits.
#[global] Arguments SubmissionHandle : clear implicits.
#[global] Arguments Outcome : clear implicits.

(** ** A run *)

Definition completion : list (Event Z Z) :=
  [Submit "t"; WorkerStep 0 Wake; WorkerStep 0 (Claim "t"); WorkerStep 0 (Admit Gives); WorkerStep 0 Go; WorkerStep 0 Go;
   WorkerStep 0 (Returns (Returned 7)); WorkerStep 0 Go; WorkerStep 0 Go; WorkerStep 0 Go].
Fixpoint run (es : list (Event Z Z)) (s : State Z Z) : option (State Z Z) :=
  match es with [] => Some s | e :: es' => s' ← transition e s; run es' s' end.
Lemma run_steps es s s' : run es s = Some s' → rtc step s s'.
Proof.
  revert s. induction es as [|e es IH]; intros s; cbn; [intros [= <-]; done|].
  destruct (transition e s) as [s1|] eqn:E; [|done]. cbn. intros H. eapply rtc_l; [by exists e|by apply IH].
Qed.
Definition start1 : State Z Z := mkState ∅ ∅ ∅ false None {[0%nat := Looping]} ∅ [] ∅.
Definition completed : State Z Z := default start1 (run completion start1).
Definition answered : SubmissionHandle Z Z := mkHandle Succeeded true false (Some (Returned 7)).
Lemma submissions_settled_witness :
  new_state 1 = Ok start1 ∧ started completed = ["t"] ∧ handles completed !! "t" = Some answered ∧
  handle_ok answered ∧ result answered ≠ StillWaiting.
Proof.
  split; [vm_compute; reflexivity|]. split; [vm_compute; reflexivity|].
  assert (Hh : handles completed !! "t" = Some answered) by (vm_compute; reflexivity). split; [exact Hh|].
  assert (Hr : rtc step start1 completed) by (apply (run_steps completion); vm_compute; reflexivity).
  destruct (submissions_settled 1 start1 completed eq_refl Hr) as (_ & H & _).
  destruct (H "t" answered Hh) as (Hok & _ & Hterm & _). split; [exact Hok|]. apply Hterm. reflexivity.
Defined.

(** ** A cancellation that races with [_begin]

    A client sees a pending handle, the worker begins the operation, and only then does
    the client call the scheduler, which releases the reservation of the running
    operation; [cancel] has reported success. *)
Definition race : list (Event Z Z) :=
  [Submit "t"; WorkerStep 0 Wake; WorkerStep 0 (Claim "t"); WorkerStep 0 (Admit Gives); WorkerStep 0 Go; Cancel 0 "t"; ClientStep 0;
   WorkerStep 0 Go; ClientStep 0; ClientStep 0].
Lemma cancelled_operation_runs :
  ∃ s0 s, new_state 1 = Ok s0 ∧ run race s0 = Some s ∧ workers s !! 0%nat = Some (Executing "t") ∧
    places s !! "t" = None ∧ commands s = ∅ ∧ clients s !! 0%nat = Some (Todo []) ∧ state <$> (handles s !! "t") = Some Running.
Proof. eexists _, _. split; [vm_compute; reflexivity|]. split; [vm_compute; reflexivity|]. repeat split; vm_compute; reflexivity. Qed.
(** ** Places in the scheduler of Scheduler.v *)

Section places_in_the_scheduler.
Implicit Types s : Scheduler.Scheduler.
Local Abbreviation queue := Scheduler.queue.
Local Abbreviation active := Scheduler.queued_active.
Local Abbreviation waiting := ScheduleQueue.requests.
Local Abbreviation claimed := ScheduleQueue.claimed.

Definition place_of s (t : string) : option Place :=
  if is_some (waiting (queue s) !! t) then Some Waiting
  else if bool_decide (t ∈ claimed (queue s)) then Some Claimed
  else if is_some (active s !! t) then Some Reserved else None.
(** A token of the queue has no reservation yet. *)
Definition one_place s (t : string) : Prop := is_Some (waiting (queue s) !! t) ∨ t ∈ claimed (queue s) → active s !! t = None.

Lemma place_of_other s s' u :
  waiting (queue s') !! u = waiting (queue s) !! u → (u ∈ claimed (queue s') ↔ u ∈ claimed (queue s)) → active s' !! u = active s !! u →
  place_of s' u = place_of s u.
Proof. intros H1 H2 H3. unfold place_of. by rewrite H1, H3, (bool_decide_ext _ _ H2). Qed.
Lemma compact_fields q : waiting (ScheduleQueue.compact_cancelled q) = waiting q ∧ claimed (ScheduleQueue.compact_cancelled q) = claimed q.
Proof. unfold ScheduleQueue.compact_cancelled. repeat case_match; done. Qed.

(** [complete_queued] takes a token from where it is reserved. *)
Lemma complete_places s t : SchedulerSafety.sched_inv s → ∃ s',
  Scheduler.complete_queued t s = (Ok (is_some (active s !! t)), s') ∧ queue s' = queue s ∧ active s' = delete t (active s).
Proof.
  intros Hinv. destruct (active s !! t) as [res|] eqn:Ht.
  - destruct (SchedulerSafety.complete_queued_spec t res s Hinv Ht) as (s2 & H & _ & _ & Hq & Ha). by exists s2.
  - exists s. unfold Scheduler.complete_queued. rewrite Ht. split_and!; [done..|]. by rewrite delete_id.
Qed.
(** [cancel] is [scheduler_cancel] on places. *)
Lemma cancel_places s t : SchedulerSafety.sched_inv s → one_place s t → ∃ s',
  Scheduler.cancel t s = (Ok (is_some (place_of s t)), s') ∧ place_of s' t = None ∧ ∀ u, u ≠ t → place_of s' u = place_of s u.
Proof.
  intros Hinv Hone. unfold place_of at 1. destruct (waiting (queue s) !! t) as [r|] eqn:Hr; cbn [is_some].
  - unfold Scheduler.cancel, bind, Scheduler.on_queue, zoom, ScheduleQueue.cancel. rewrite Hr. eexists. split; [reflexivity|].
    assert (Hc : t ∉ claimed (queue s)).
    { intros Hc. apply (ScheduleQueue.qi_disjoint _ _ (SchedulerSafety.si_queue _ Hinv)) in Hc. congruence. }
    unfold place_of. cbn. rewrite !(proj1 (compact_fields _)), !(proj2 (compact_fields _)). cbn. split.
    + rewrite lookup_delete_eq, bool_decide_eq_false_2, Hone by (done || (left; by eexists)). done.
    + intros u Hu. by rewrite lookup_delete_ne.
  - case_bool_decide as Hc.
    + unfold Scheduler.cancel, bind, Scheduler.on_queue, zoom, ScheduleQueue.cancel. rewrite Hr, decide_True by done.
      eexists. split; [reflexivity|]. unfold place_of. cbn. split.
      * rewrite Hr, bool_decide_eq_false_2, Hone by (set_solver || by right). done.
      * intros u Hu. rewrite (bool_decide_ext (u ∈ claimed (queue s) ∖ {[t]}) (u ∈ claimed (queue s))) by set_solver. done.
    + rewrite (SchedulerSafety.cancel_settled t s Hr Hc). destruct (complete_places s t Hinv) as (s' & H & Hq & Ha).
      exists s'. split; [rewrite H; by destruct (active s !! t)|]. unfold place_of. rewrite Hq, Ha. split.
      * by rewrite Hr, bool_decide_eq_false_2, lookup_delete_eq.
      * intros u Hu. by rewrite lookup_delete_ne.
Qed.
(** A submission that the queue takes puts its token there. *)
Lemma submit_places s t now r s' : Scheduler.submit t now r s = (Ok t, s') →
  place_of s' t = Some Waiting ∧ ∀ u, u ≠ t → place_of s' u = place_of s u.
Proof.
  unfold Scheduler.submit, Scheduler.on_queue, zoom, ScheduleQueue.enqueue. destruct (_ >=? _); intros H; [done|]. injection H as <-. split.
  - unfold place_of. cbn. by rewrite lookup_insert_eq.
  - intros u Hu. apply place_of_other; [|done|done]. cbn. by rewrite lookup_insert_ne.
Qed.
(** [dequeue] turns the waiting token it finds into a claim. *)
Lemma claim_places s t r q : SchedulerSafety.sched_inv s → ScheduleQueue.take_head (queue s) = (Some (t, r), q) →
  place_of s t = Some Waiting ∧ place_of (Scheduler.with_queue q s) t = Some Claimed ∧
  ∀ u, u ≠ t → place_of (Scheduler.with_queue q s) u = place_of s u.
Proof.
  intros Hinv. unfold ScheduleQueue.take_head. pose proof (ScheduleQueue.pop_live_spec (waiting (queue s)) (ScheduleQueue.heap (queue s))) as Hp.
  destruct (ScheduleQueue.pop_live _ _) as [[[e k]|] h]; [|done]. intros [= <- <- <-]. destruct Hp as (dead & _ & He & _).
  split_and!.
  - unfold place_of. by rewrite He.
  - unfold place_of. cbn. by rewrite lookup_delete_eq, bool_decide_eq_true_2 by set_solver.
  - intros u Hu. apply place_of_other; cbn; [by rewrite lookup_delete_ne|set_solver|done].
Qed.
(** The second critical section of [admit_next] turns a claim into a reservation. *)
Lemma register_places s t r res now : SchedulerSafety.sched_inv s → place_of s t = Some Claimed → ∃ a s',
  Scheduler.register t r res now (λ q, q) s = (Ok (Some a), s') ∧ place_of s' t = Some Reserved ∧
  ∀ u, u ≠ t → place_of s' u = place_of s u.
Proof.
  intros Hinv Hpl. unfold place_of in Hpl. destruct (waiting (queue s) !! t) eqn:Hw; [done|]. cbn in Hpl.
  case_bool_decide as Hc; [|by destruct (active s !! t)].
  pose proof (SchedulerSafety.register_spec t r res now (λ q, q) s (SchedulerSafety.si_obs _ Hinv)) as H. cbn in H.
  destruct (decide (t ∈ claimed (queue s))); [|done]. destruct H as (o & _ & H). eexists _, _. split; [exact H|]. split.
  - unfold place_of. cbn. by rewrite Hw, bool_decide_eq_false_2, lookup_insert_eq by set_solver.
  - intros u Hu. apply place_of_other; cbn; [done|set_solver|by rewrite lookup_insert_ne].
Qed.
End places_in_the_scheduler.
End Submission.
