(* ===== verification/VideoCache.v ===== *)
(** * The partitioned video artefact cache (video_cache.py)

    One least-recently-used order over all entries, a byte budget for all of them and one
    for each kind of artefact.  [put] first evicts the oldest entries of its kind and then
    the oldest of all.  SHA-256 is a parameter; keys with one digest are one key. *)

From S2P Require Import Prelude Types OrderedDict EncoderCaches.
Import OrderedDict.

Module VideoCache.

Inductive VideoCacheKind := FRAME | PATCH | EMBEDDING | SCENE.
#[export] Instance VideoCacheKind_eq_dec : EqDecision VideoCacheKind.
Proof. solve_decision. Defined.
Definition VideoCacheKind_members : list VideoCacheKind := [FRAME; PATCH; EMBEDDING; SCENE].
Definition VideoCacheKind_value (k : VideoCacheKind) : string :=
  match k with FRAME => "frame" | PATCH => "patch" | EMBEDDING => "embedding" | SCENE => "scene" end.

Record VideoCacheKey := mkKey {
  kind : VideoCacheKind;
  video_sha256 : string;
  transform_fingerprint : string;
  model_fingerprint : string;
  start_microseconds : Z;
  end_microseconds : Z;
}.
(** [VideoCacheKey.__post_init__] *)
Definition make_key (k : VideoCacheKey) : res exn VideoCacheKey :=
  check (EncoderCaches.is_digest (video_sha256 k) && EncoderCaches.is_digest (transform_fingerprint k)
         && EncoderCaches.is_digest (model_fingerprint k)
         && (0 <=? start_microseconds k) && (start_microseconds k <? end_microseconds k))
    (ValueError "invalid video cache key") k.
(** The JSON text of a key, with sorted names. *)
Definition key_json (k : VideoCacheKey) : string :=
  json_object
    [member "end" (str_of_Z (end_microseconds k)); member "kind" (quoted (VideoCacheKind_value (kind k)));
     member "model" (quoted (model_fingerprint k)); member "start" (str_of_Z (start_microseconds k));
     member "transform" (quoted (transform_fingerprint k)); member "video" (quoted (video_sha256 k))].

Section cache.
Context {V : Type} (sha256 : string → string).

Definition digest (k : VideoCacheKey) : string := sha256 (key_json k).

Record Entry := mkEntry { e_key : VideoCacheKey; e_value : V; e_size_bytes : Z }.
Definition e_kind (e : Entry) : VideoCacheKind := kind (e_key e).
(** A dictionary with a number for every kind. *)
Definition PerKind := VideoCacheKind → Z.
Definition add_to (k : VideoCacheKind) (n : Z) (m : PerKind) : PerKind := λ k', if decide (k' = k) then m k' + n else m k'.

Record VideoArtifactCache := mkCache {
  maximum_entries : Z;
  maximum_bytes : Z;
  tier_maximum_bytes : PerKind;
  entries : list (string * Entry);
  resident_bytes : Z;
  tier_bytes : PerKind;
  hits : PerKind;
  misses : PerKind;
  evictions : PerKind;
  rejected_oversize : Z;
}.
Implicit Types (c : VideoArtifactCache) (e : Entry) (d : string).

(** [__init__]; [tiers] is the mapping of the caller. *)
Definition new_cache (max_entries max_bytes : Z) (tiers : VideoCacheKind → option Z) : res exn VideoArtifactCache :=
  let limits k := default max_bytes (tiers k) in
  check ((1 <=? max_entries) && (max_entries <=? 65536) && (1 <=? max_bytes) && (max_bytes <=? Z.shiftl 1 42)
         && forallb (λ k, (1 <=? limits k) && (limits k <=? max_bytes)) VideoCacheKind_members)
    (ValueError "invalid video cache limits")
    (mkCache max_entries max_bytes limits [] 0 (λ _, 0) (λ _, 0) (λ _, 0) (λ _, 0) 0).

Definition with_entries es resident tiers c : VideoArtifactCache :=
  mkCache (maximum_entries c) (maximum_bytes c) (tier_maximum_bytes c) es resident tiers (hits c) (misses c) (evictions c) (rejected_oversize c).
Definition count_eviction k c : VideoArtifactCache :=
  mkCache (maximum_entries c) (maximum_bytes c) (tier_maximum_bytes c) (entries c) (resident_bytes c) (tier_bytes c) (hits c) (misses c)
    (add_to k 1 (evictions c)) (rejected_oversize c).

(** [get] *)
Definition get (k : VideoCacheKey) c : option V * VideoArtifactCache :=
  match od_get (digest k) (entries c) with
  | None => (None, mkCache (maximum_entries c) (maximum_bytes c) (tier_maximum_bytes c) (entries c) (resident_bytes c) (tier_bytes c)
                     (hits c) (add_to (kind k) 1 (misses c)) (evictions c) (rejected_oversize c))
  | Some e => (Some (e_value e), mkCache (maximum_entries c) (maximum_bytes c) (tier_maximum_bytes c) (od_move_to_end (digest k) (entries c))
                     (resident_bytes c) (tier_bytes c) (add_to (kind k) 1 (hits c)) (misses c) (evictions c) (rejected_oversize c))
  end.

(** [_remove_entry], with [_remove_accounting] *)
Definition remove_entry (d : string) (counted : bool) c : res exn VideoArtifactCache :=
  match od_get d (entries c) with
  | None => Raise (KeyError d)
  | Some e =>
      let c' := with_entries (od_del d (entries c)) (resident_bytes c - e_size_bytes e)
                  (add_to (e_kind e) (- e_size_bytes e) (tier_bytes c)) c in
      Ok (if counted then count_eviction (e_kind e) c' else c')
  end.
(** [next(digest for digest, entry in ... if entry.key.kind is kind)] *)
Fixpoint first_of (k : VideoCacheKind) (es : list (string * Entry)) : option string :=
  match es with
  | [] => None
  | (d, e) :: es' => if decide (e_kind e = k) then Some d else first_of k es'
  end.
(** [_evict_tier]; an entry leaves per round. *)
Fixpoint evict_tier_loop (fuel : nat) (k : VideoCacheKind) c : res exn VideoArtifactCache :=
  if tier_bytes c k >? tier_maximum_bytes c k then
    match fuel with
    | O => Raise (RuntimeError "out of fuel")
    | S fuel' =>
        match first_of k (entries c) with
        | None => Raise StopIteration
        | Some d => match remove_entry d true c with Ok c' => evict_tier_loop fuel' k c' | Raise x => Raise x end
        end
    end
  else Ok c.
Definition evict_tier (k : VideoCacheKind) c := evict_tier_loop (S (length (entries c))) k c.
(** [_evict_global] *)
Fixpoint evict_global_loop (fuel : nat) c : res exn VideoArtifactCache :=
  if (Zlen (entries c) >? maximum_entries c) || (resident_bytes c >? maximum_bytes c) then
    match fuel with
    | O => Raise (RuntimeError "out of fuel")
    | S fuel' =>
        match entries c with
        | [] => Raise StopIteration
        | (d, _) :: _ => match remove_entry d true c with Ok c' => evict_global_loop fuel' c' | Raise x => Raise x end
        end
    end
  else Ok c.
Definition evict_global c := evict_global_loop (S (length (entries c))) c.

(** The previous entry of a digest goes, without counting as an eviction. *)
Definition drop_previous (d : string) c : VideoArtifactCache :=
  match od_get d (entries c) with
  | None => c
  | Some e => with_entries (od_del d (entries c)) (resident_bytes c - e_size_bytes e) (add_to (e_kind e) (- e_size_bytes e) (tier_bytes c)) c
  end.
Definition add_entry (d : string) (e : Entry) c : VideoArtifactCache :=
  with_entries (od_set d e (entries c)) (resident_bytes c + e_size_bytes e) (add_to (e_kind e) (e_size_bytes e) (tier_bytes c)) c.
Definition reject c : VideoArtifactCache :=
  mkCache (maximum_entries c) (maximum_bytes c) (tier_maximum_bytes c) (entries c) (resident_bytes c) (tier_bytes c) (hits c) (misses c)
    (evictions c) (rejected_oversize c + 1).
(** [put] *)
Definition put (k : VideoCacheKey) (v : V) (size_bytes : Z) c : res exn (bool * VideoArtifactCache) :=
  if negb ((1 <=? size_bytes) && (size_bytes <=? Z.min (tier_maximum_bytes c (kind k)) (maximum_bytes c))) then Ok (false, reject c)
  else
    let d := digest k in
    match evict_tier (kind k) (add_entry d (mkEntry k v size_bytes) (drop_previous d c)) with
    | Raise x => Raise x
    | Ok c3 => match evict_global c3 with Raise x => Raise x | Ok c4 => Ok (od_mem d (entries c4), c4) end
    end.

(** [clear] *)
Definition clear (k : option VideoCacheKind) c : res exn VideoArtifactCache :=
  match k with
  | None => Ok (with_entries [] 0 (λ _, 0) c)
  | Some k => fold_res (λ c d, remove_entry d false c)
                (List.filter (λ p, bool_decide (e_kind p.2 = k)) (entries c)).*1 c
  end.

(** [snapshot] *)
Record TierSnapshot := mkTier { t_kind : VideoCacheKind; t_entries : Z; t_resident_bytes : Z; t_hits : Z; t_misses : Z; t_evictions : Z }.
Record VideoCacheSnapshot := mkSnapshot { s_entries : Z; s_resident_bytes : Z; s_rejected_oversize : Z; s_tiers : list TierSnapshot }.
Definition snapshot c : VideoCacheSnapshot :=
  mkSnapshot (Zlen (entries c)) (resident_bytes c) (rejected_oversize c)
    ((λ k, mkTier k (Zsum ((λ p, if decide (e_kind p.2 = k) then 1 else 0) <$> entries c)) (tier_bytes c k) (hits c k) (misses c k) (evictions c k))
       <$> VideoCacheKind_members).

(** ** Reference *)

Definition tier_size (k : VideoCacheKind) (e : Entry) : Z := if decide (e_kind e = k) then e_size_bytes e else 0.
(** What is left when the oldest entries of a kind go until the rest fits. *)
Fixpoint keep_tier (k : VideoCacheKind) (limit : Z) (es : list (string * Entry)) : list (string * Entry) :=
  match es with
  | [] => []
  | (d, e) :: es' =>
      if decide (e_kind e = k) then if od_sum (tier_size k) es >? limit then keep_tier k limit es' else es
      else (d, e) :: keep_tier k limit es'
  end.
(** What is left when the oldest entries go until the rest fits. *)
Fixpoint keep_newest (n limit : Z) (es : list (string * Entry)) : list (string * Entry) :=
  match es with
  | [] => []
  | _ :: es' => if (Zlen es >? n) || (od_sum e_size_bytes es >? limit) then keep_newest n limit es' else es
  end.
(** ** Runs *)

Inductive Op := OGet (k : VideoCacheKey) | OPut (k : VideoCacheKey) (v : V) (n : Z) | OClear (k : option VideoCacheKind).
Definition exec c (o : Op) : res exn VideoArtifactCache :=
  match o with
  | OGet k => Ok (get k c).2
  | OPut k v n => match put k v n c with Ok (_, c') => Ok c' | Raise x => Raise x end
  | OClear k => clear k c
  end.
Definition accepted c (k : VideoCacheKey) (n : Z) : bool := (1 <=? n) && (n <=? tier_maximum_bytes c (kind k)).
(** What an unbounded cache would hold. *)
Definition remember c (m : gmap string (VideoCacheKind * V)) (o : Op) : gmap string (VideoCacheKind * V) :=
  match o with
  | OGet _ => m
  | OPut k v n => if accepted c k n then <[digest k := (kind k, v)]> m else m
  | OClear None => ∅
  | OClear (Some k) => filter (λ p, p.2.1 ≠ k) m
  end.

(** ** Accounting *)

Record accounted c : Prop := {
  ac_wf : od_wf (entries c);
  ac_resident : resident_bytes c = od_sum e_size_bytes (entries c);
  ac_tiers : ∀ k, tier_bytes c k = od_sum (tier_size k) (entries c);
  ac_entry : ∀ d e, (d, e) ∈ entries c → 1 <= e_size_bytes e ∧ d = digest (e_key e);
}.
Record limits_ok c : Prop := {
  lo_entries : 1 <= maximum_entries c;
  lo_tiers : ∀ k, 1 <= tier_maximum_bytes c k <= maximum_bytes c;
}.
Record fits c : Prop := {
  fi_entries : Zlen (entries c) <= maximum_entries c;
  fi_bytes : resident_bytes c <= maximum_bytes c;
  fi_tiers : ∀ k, tier_bytes c k <= tier_maximum_bytes c k;
}.
Record same_limits c c' : Prop := {
  sl_entries : maximum_entries c' = maximum_entries c;
  sl_bytes : maximum_bytes c' = maximum_bytes c;
  sl_tiers : tier_maximum_bytes c' = tier_maximum_bytes c;
}.
Lemma same_limits_refl c : same_limits c c.
Proof. by split. Qed.
Lemma same_limits_trans c1 c2 c3 : same_limits c1 c2 → same_limits c2 c3 → same_limits c1 c3.
Proof. intros [] []. split; congruence. Qed.
Lemma same_limits_ok c c' : same_limits c c' → limits_ok c → limits_ok c'.
Proof. intros [H1 H2 H3] [L1 L2]. split; by rewrite ?H1, ?H2, ?H3. Qed.

Lemma tier_size_nonneg k e : 1 <= e_size_bytes e → 0 <= tier_size k e.
Proof. unfold tier_size. case_decide; lia. Qed.
Lemma add_to_eq k n m : add_to k n m k = m k + n.
Proof. unfold add_to. by rewrite decide_True. Qed.
Lemma add_to_ne k k' n m : k' ≠ k → add_to k n m k' = m k'.
Proof. intros. unfold add_to. by rewrite decide_False. Qed.

(** Entries of a kind, and the evictions that account for those that left. *)
Definition kind_count (k : VideoCacheKind) (es : list (string * Entry)) : Z := od_sum (λ e, if decide (e_kind e = k) then 1 else 0) es.
Definition conserves c c' : Prop :=
  ∀ k, evictions c' k + kind_count k (entries c') = evictions c k + kind_count k (entries c).

Lemma remove_entry_spec d b e c : accounted c → od_get d (entries c) = Some e → ∃ c',
  remove_entry d b c = Ok c' ∧ accounted c' ∧ entries c' = od_del d (entries c) ∧ same_limits c c' ∧
  (b = true → conserves c c').
Proof.
  intros [Hwf Hres Htier Hent] He. unfold remove_entry. rewrite He.
  assert (Hacc : accounted (with_entries (od_del d (entries c)) (resident_bytes c - e_size_bytes e) (add_to (e_kind e) (- e_size_bytes e) (tier_bytes c)) c)).
  { split; cbn.
    - by apply od_wf_del.
    - by rewrite (od_sum_del _ _ _ _ He), Hres.
    - intros k. rewrite (od_sum_del _ _ _ _ He). unfold tier_size at 2. rewrite <-Htier. unfold add_to.
      destruct (decide (k = e_kind e)) as [->|]; [rewrite decide_True by done; lia|rewrite decide_False by done; lia].
    - intros d' e' Hin. apply Hent. rewrite (od_del_Permutation _ _ _ He). by right. }
  destruct b; eexists; (split; [reflexivity|]).
  - split; [by destruct Hacc; split|]. split; [done|]. split; [done|]. intros _ k. cbn. unfold kind_count.
    rewrite (od_sum_del _ _ _ _ He). unfold add_to. destruct (decide (k = e_kind e)) as [->|]; [rewrite decide_True by done; lia|rewrite decide_False by done; lia].
  - done.
Qed.

(** ** Evictions *)

Lemma tier_sum_none k (es : list (string * Entry)) : first_of k es = None → od_sum (tier_size k) es = 0.
Proof.
  induction es as [|[d e] es IH]; [done|]. cbn [first_of]. unfold tier_size. rewrite od_sum_cons. cbn. case_decide as Hk; [done|]. intros H. by apply IH.
Qed.
Lemma keep_tier_fits k limit (es : list (string * Entry)) : od_sum (tier_size k) es <= limit → keep_tier k limit es = es.
Proof.
  induction es as [|[d e] es IH]; [done|]. intros Hle. cbn [keep_tier]. case_decide as Hk.
  - destruct (_ >? _) eqn:E; [breflect; lia|done].
  - f_equal. apply IH. rewrite od_sum_cons in Hle. cbn in Hle. unfold tier_size at 1 in Hle. by rewrite decide_False in Hle.
Qed.
Lemma keep_tier_first k limit d (es : list (string * Entry)) :
  od_wf es → first_of k es = Some d → limit < od_sum (tier_size k) es → keep_tier k limit es = keep_tier k limit (od_del d es).
Proof.
  induction es as [|[d' e] es IH]; [done|]. intros Hwf Hf Hlt. cbn [keep_tier first_of od_del] in *. case_decide as Hk.
  - injection Hf as <-. rewrite decide_True by done. destruct (_ >? _) eqn:E; [done|breflect; lia].
  - assert (Hd : d ≠ d').
    { intros ->. apply NoDup_cons in Hwf as [Hd _]. apply Hd. clear -Hf. induction es as [|[d e'] es IH]; [done|].
      cbn in *. case_decide; [injection Hf as ->; by left|]. right. by apply IH. }
    rewrite decide_False by done. cbn [keep_tier]. rewrite decide_False by done. f_equal.
    apply IH; [by apply NoDup_cons in Hwf as [_ ?]|done|]. rewrite od_sum_cons in Hlt. cbn in Hlt. unfold tier_size at 1 in Hlt.
    by rewrite decide_False in Hlt.
Qed.
Lemma first_of_get k d (es : list (string * Entry)) : first_of k es = Some d → ∃ e, od_get d es = Some e.
Proof.
  induction es as [|[d' e] es IH]; [done|]. cbn. case_decide as Hk; [intros [= ->]; exists e; by rewrite decide_True|].
  intros H. destruct (decide (d = d')); [by exists e|by apply IH].
Qed.
Lemma od_del_length d (es : list (string * Entry)) e : od_get d es = Some e → length es = S (length (od_del d es)).
Proof. intros H. by rewrite (od_del_Permutation _ _ _ H) at 1. Qed.
Lemma evict_tier_loop_spec fuel k c : accounted c → limits_ok c → (length (entries c) <= fuel)%nat → ∃ c',
  evict_tier_loop fuel k c = Ok c' ∧ accounted c' ∧ entries c' = keep_tier k (tier_maximum_bytes c k) (entries c) ∧
  same_limits c c' ∧ conserves c c'.
Proof.
  revert c. induction fuel as [|fuel IH]; intros c Hacc Hlim Hfuel; cbn [evict_tier_loop];
    destruct (tier_bytes c k >? tier_maximum_bytes c k) eqn:E; breflect.
  - rewrite (ac_tiers _ Hacc) in E. destruct (entries c) as [|]; [|cbn in Hfuel; lia]. rewrite od_sum_nil in E.
    pose proof (lo_tiers _ Hlim k). lia.
  - exists c. rewrite keep_tier_fits by (rewrite <-(ac_tiers _ Hacc); lia). by split_and!.
  - rewrite (ac_tiers _ Hacc) in E. destruct (first_of k (entries c)) as [d|] eqn:Hf.
    + destruct (first_of_get _ _ _ Hf) as [e He].
      destruct (remove_entry_spec d true e c Hacc He) as (c1 & -> & Hacc1 & Hent1 & Hsame1 & Hcons1).
      destruct (IH c1 Hacc1 (same_limits_ok _ _ Hsame1 Hlim)) as (c' & Hc' & Hacc' & Hent' & Hsame' & Hcons').
      { rewrite Hent1. pose proof (od_del_length _ _ _ He). lia. }
      exists c'. rewrite Hent', Hent1, (sl_tiers _ _ Hsame1). rewrite (keep_tier_first k _ d (entries c)) by (done || apply (ac_wf _ Hacc)).
      split_and!; [done|done|done|by eapply same_limits_trans|]. intros k'. rewrite (Hcons' k'). by apply Hcons1.
    + rewrite (tier_sum_none _ _ Hf) in E. pose proof (lo_tiers _ Hlim k). lia.
  - exists c. rewrite keep_tier_fits by (rewrite <-(ac_tiers _ Hacc); lia). by split_and!.
Qed.
Lemma evict_global_loop_spec fuel c : accounted c → limits_ok c → (length (entries c) <= fuel)%nat → ∃ c',
  evict_global_loop fuel c = Ok c' ∧ accounted c' ∧ entries c' = keep_newest (maximum_entries c) (maximum_bytes c) (entries c) ∧
  same_limits c c' ∧ conserves c c'.
Proof.
  revert c. induction fuel as [|fuel IH]; intros c Hacc Hlim Hfuel; cbn [evict_global_loop];
    destruct (_ || _) eqn:E; rewrite (ac_resident _ Hacc) in E.
  1, 3: destruct (entries c) as [|[d e] es] eqn:Hes.
  - rewrite od_sum_nil, orb_true_iff in E. unfold Zlen in E. cbn [length] in E. pose proof (lo_entries _ Hlim). pose proof (lo_tiers _ Hlim FRAME).
    destruct E; breflect; lia.
  - cbn in Hfuel. lia.
  - rewrite od_sum_nil, orb_true_iff in E. unfold Zlen in E. cbn [length] in E. pose proof (lo_entries _ Hlim). pose proof (lo_tiers _ Hlim FRAME).
    destruct E; breflect; lia.
  - assert (He : od_get d (entries c) = Some e) by (rewrite Hes; cbn; by rewrite decide_True).
    destruct (remove_entry_spec d true e c Hacc He) as (c1 & -> & Hacc1 & Hent1 & Hsame1 & Hcons1).
    assert (Hes1 : entries c1 = es) by (rewrite Hent1, Hes; cbn; by rewrite decide_True).
    destruct (IH c1 Hacc1 (same_limits_ok _ _ Hsame1 Hlim)) as (c' & Hc' & Hacc' & Hent' & Hsame' & Hcons').
    { rewrite Hes1. cbn in Hfuel. lia. }
    exists c'. cbn [keep_newest]. rewrite E, Hent', Hes1, (sl_entries _ _ Hsame1), (sl_bytes _ _ Hsame1).
    split_and!; [done|done|done|by eapply same_limits_trans|]. intros k'. rewrite (Hcons' k'). by apply Hcons1.
  - exists c. destruct (entries c) as [|p es] eqn:Hes; cbn [keep_newest]; [by split_and!|]. rewrite E. by split_and!.
  - exists c. destruct (entries c) as [|p es] eqn:Hes; cbn [keep_newest]; [by split_and!|]. rewrite E. by split_and!.
Qed.

(** What the evictions keep. *)
Lemma keep_tier_sublist k limit (es : list (string * Entry)) : keep_tier k limit es `sublist_of` es.
Proof. induction es as [|[d e] es IH]; cbn [keep_tier]; [constructor|]. repeat case_match; by constructor. Qed.
Lemma keep_newest_sublist n b (es : list (string * Entry)) : keep_newest n b es `sublist_of` es.
Proof. induction es as [|[d e] es IH]; cbn [keep_newest]; [constructor|]. case_match; by constructor. Qed.
Lemma od_sum_sublist (f : Entry → Z) (es es' : list (string * Entry)) :
  es' `sublist_of` es → (∀ d e, (d, e) ∈ es → 0 <= f e) → od_sum f es' <= od_sum f es.
Proof.
  induction 1 as [|[d e] es1 es2 _ IH|[d e] es1 es2 _ IH]; intros Hf; [done|..]; rewrite ?od_sum_cons; cbn;
    assert (od_sum f es1 <= od_sum f es2) by (apply IH; intros d' e' Hin; apply (Hf d'); by right); [lia|].
  pose proof (Hf d e ltac:(left)). lia.
Qed.
Lemma keep_tier_within k limit (es : list (string * Entry)) : 0 <= limit → od_sum (tier_size k) (keep_tier k limit es) <= limit.
Proof.
  intros Hl. induction es as [|[d e] es IH]; cbn [keep_tier]; [by rewrite od_sum_nil|]. case_decide as Hk.
  - destruct (_ >? _) eqn:E; [done|]. breflect. lia.
  - rewrite od_sum_cons. cbn. unfold tier_size at 1. rewrite decide_False by done. lia.
Qed.
Lemma keep_newest_within n b (es : list (string * Entry)) : 0 <= n → 0 <= b →
  Zlen (keep_newest n b es) <= n ∧ od_sum e_size_bytes (keep_newest n b es) <= b.
Proof.
  intros Hn Hb. induction es as [|[d e] es IH]; cbn [keep_newest]; [rewrite od_sum_nil; unfold Zlen; cbn; lia|].
  destruct (_ || _) eqn:E; [done|]. breflect. lia.
Qed.
(** An entry that fits and is the newest stays. *)
Lemma keep_tier_last k limit (es : list (string * Entry)) d e : tier_size k e <= limit →
  ∃ es', keep_tier k limit (es ++ [(d, e)]) = es' ++ [(d, e)].
Proof.
  intros He. induction es as [|[d' e'] es [es' IH]].
  - exists []. cbn [app]. apply keep_tier_fits. rewrite od_sum_cons, od_sum_nil. cbn. lia.
  - cbn [app keep_tier]. case_decide; [destruct (_ >? _)|]; [by exists es'|by exists ((d', e') :: es)|].
    exists ((d', e') :: es'). by rewrite IH.
Qed.
Lemma keep_newest_last n b (es : list (string * Entry)) d e : 1 <= n → e_size_bytes e <= b →
  ∃ es', keep_newest n b (es ++ [(d, e)]) = es' ++ [(d, e)].
Proof.
  intros Hn He. induction es as [|[d' e'] es [es' IH]].
  - exists []. cbn [app keep_newest]. rewrite od_sum_cons, od_sum_nil. unfold Zlen. cbn [length snd].
    destruct (_ || _) eqn:E; [|done]. rewrite orb_true_iff in E. destruct E; breflect; lia.
  - cbn [app keep_newest]. destruct (_ || _); [by exists es'|]. by exists ((d', e') :: es).
Qed.
Lemma od_wf_sublist (es es' : list (string * Entry)) : es' `sublist_of` es → od_wf es → od_wf es'.
Proof.
  intros Hs Hwf. unfold od_wf. eapply sublist_NoDup; [exact Hwf|]. by apply fmap_sublist.
Qed.
Lemma kept_get (es es' : list (string * Entry)) d e : es' `sublist_of` es → od_wf es → od_get d es' = Some e → od_get d es = Some e.
Proof.
  intros Hs Hwf He%od_get_elem. apply od_get_iff; [done|]. by eapply elem_of_sublist.
Qed.
(** ** Operations *)

Definition good c : Prop := accounted c ∧ limits_ok c ∧ fits c.
(** The entries stay within what the reference remembers. *)
Definition within (m : gmap string (VideoCacheKind * V)) c : Prop :=
  ∀ d e, od_get d (entries c) = Some e → m !! d = Some (e_kind e, e_value e).

Lemma get_effect k c : good c → good (get k c).2 ∧ same_limits c (get k c).2 ∧
  (get k c).1 = e_value <$> od_get (digest k) (entries c) ∧ (∀ d, od_get d (entries (get k c).2) = od_get d (entries c)).
Proof.
  intros ([Hwf Hres Htier Hent] & [L1 L2] & [F1 F2 F3]). unfold get. destruct (od_get (digest k) (entries c)) as [e|] eqn:He; cbn.
  - split; [split; [|split; [by split|]]|].
    + split; cbn; [by apply od_wf_move|by rewrite od_sum_move|intros k'; by rewrite od_sum_move|].
      intros d e' Hin. apply Hent. revert Hin. unfold od_move_to_end. rewrite He, elem_of_app, list_elem_of_singleton.
      intros [Hin|[= -> ->]]; [rewrite (od_del_Permutation _ _ _ He); by right|by apply od_get_elem].
    + split; cbn; [by rewrite od_length_move|done|done].
    + split; [by split|]. split; [done|]. intros d. by apply od_get_move.
  - split; [|by split_and!]. split; [by split|]. split; by split.
Qed.
(** The entries before the evictions of [put]. *)
Definition placed (k : VideoCacheKey) (v : V) (n : Z) c : list (string * Entry) :=
  od_del (digest k) (entries c) ++ [(digest k, mkEntry k v n)].
Lemma fits_sublist c (es : list (string * Entry)) k : accounted c → es `sublist_of` entries c →
  od_sum (tier_size k) es <= od_sum (tier_size k) (entries c) ∧ od_sum e_size_bytes es <= od_sum e_size_bytes (entries c).
Proof.
  intros Hacc Hs. split; apply od_sum_sublist; try done; intros d e Hin; destruct (ac_entry _ Hacc d e Hin); [by apply tier_size_nonneg|lia].
Qed.
Lemma placed_spec k v n c : good c → 1 <= n → let c' := add_entry (digest k) (mkEntry k v n) (drop_previous (digest k) c) in
  accounted c' ∧ entries c' = placed k v n c ∧ same_limits c c' ∧ evictions c' = evictions c ∧
  (∀ kd, kd ≠ kind k → tier_bytes c' kd <= tier_bytes c kd).
Proof.
  intros (Hacc & Hlim & Hfit) Hn c'.
  assert (Hc1 : accounted (drop_previous (digest k) c) ∧ entries (drop_previous (digest k) c) = od_del (digest k) (entries c) ∧
            same_limits c (drop_previous (digest k) c) ∧ evictions (drop_previous (digest k) c) = evictions c ∧
            ∀ kd, tier_bytes (drop_previous (digest k) c) kd <= tier_bytes c kd).
  { unfold drop_previous. destruct (od_get (digest k) (entries c)) as [e|] eqn:He; [|by rewrite od_del_None].
    destruct (remove_entry_spec (digest k) false e c Hacc He) as (c1 & Hc1 & Hacc1 & Hent1 & Hs1 & _).
    unfold remove_entry in Hc1. rewrite He in Hc1. injection Hc1 as Hc1. rewrite Hc1. split_and!; try done; [by rewrite <-Hc1|].
    intros kd. rewrite (ac_tiers _ Hacc1), (ac_tiers _ Hacc), Hent1, (od_sum_del _ _ _ _ He).
    destruct (ac_entry _ Hacc (digest k) e) as [He1 _]; [by apply od_get_elem|]. pose proof (tier_size_nonneg kd e He1). lia. }
  destruct Hc1 as ([Hwf Hres Htier Hent] & Hent1 & Hs1 & Hev1 & Ht1).
  assert (Hnone : od_get (digest k) (entries (drop_previous (digest k) c)) = None) by (rewrite Hent1; apply od_get_del, (ac_wf _ Hacc)).
  unfold c', add_entry. rewrite (od_set_new _ _ _ Hnone). split_and!.
  - split; cbn.
    + by apply od_wf_snoc.
    + by rewrite od_sum_snoc, Hres.
    + intros kd. rewrite od_sum_snoc, <-Htier. unfold tier_size, add_to, e_kind. cbn.
      destruct (decide (kd = kind k)) as [->|]; [by rewrite decide_True|rewrite decide_False; [lia|congruence]].
    + intros d e [Hin|[= -> ->]%list_elem_of_singleton]%elem_of_app; [by apply Hent|done].
  - cbn. by rewrite Hent1.
  - destruct Hs1. by split.
  - done.
  - intros kd Hkd. cbn. rewrite add_to_ne by done. apply Ht1.
Qed.
Lemma put_effect k v n c : good c → accepted c k n = true → ∃ c',
  put k v n c = Ok (true, c') ∧ good c' ∧ same_limits c c' ∧
  entries c' = keep_newest (maximum_entries c) (maximum_bytes c) (keep_tier (kind k) (tier_maximum_bytes c (kind k)) (placed k v n c)) ∧
  od_get (digest k) (entries c') = Some (mkEntry k v n) ∧
  (∀ kd, evictions c' kd + kind_count kd (entries c') = evictions c kd + kind_count kd (placed k v n c)).
Proof.
  intros Hgood Hn. pose proof Hgood as (Hacc & Hlim & Hfit). unfold accepted in Hn. pose proof (lo_tiers _ Hlim (kind k)) as Hlk.
  unfold put. rewrite (Z.min_l (tier_maximum_bytes c (kind k))) by lia. rewrite Hn. cbn [negb]. breflect.
  destruct (placed_spec k v n c Hgood ltac:(lia)) as (Hacc2 & Hpl & Hs2 & Hev2 & Ht2).
  set (c2 := add_entry _ _ _) in *. pose proof (same_limits_ok _ _ Hs2 Hlim) as Hlim2.
  destruct (evict_tier_loop_spec (S (length (entries c2))) (kind k) c2 Hacc2 Hlim2 ltac:(lia)) as (c3 & Hc3 & Hacc3 & Hent3 & Hs3 & Hcons3).
  unfold evict_tier. rewrite Hc3. pose proof (same_limits_trans _ _ _ Hs2 Hs3) as Hs23. pose proof (same_limits_ok _ _ Hs23 Hlim) as Hlim3.
  destruct (evict_global_loop_spec (S (length (entries c3))) c3 Hacc3 Hlim3 ltac:(lia)) as (c4 & Hc4 & Hacc4 & Hent4 & Hs4 & Hcons4).
  unfold evict_global. rewrite Hc4. pose proof (same_limits_trans _ _ _ Hs23 Hs4) as Hs24.
  rewrite (sl_tiers _ _ Hs2), Hpl in Hent3. rewrite (sl_entries _ _ Hs23), (sl_bytes _ _ Hs23), Hent3 in Hent4.
  destruct (keep_tier_last (kind k) (tier_maximum_bytes c (kind k)) (od_del (digest k) (entries c)) (digest k) (mkEntry k v n)) as [es1 Hes1].
  { unfold tier_size, e_kind. cbn. rewrite decide_True by done. lia. }
  destruct (keep_newest_last (maximum_entries c) (maximum_bytes c) es1 (digest k) (mkEntry k v n)) as [es2 Hes2]; [apply Hlim|cbn; lia|].
  assert (Hnew : od_get (digest k) (entries c4) = Some (mkEntry k v n)).
  { apply od_get_iff; [apply (ac_wf _ Hacc4)|]. rewrite Hent4. unfold placed. rewrite Hes1, Hes2. apply elem_of_app. right. left. }
  unfold od_mem. rewrite Hnew. eexists. split; [reflexivity|].
  split; [split; [done|split; [by eapply same_limits_ok|]]|split_and!; try done].
  - destruct (keep_newest_within (maximum_entries c) (maximum_bytes c) (keep_tier (kind k) (tier_maximum_bytes c (kind k)) (placed k v n c)))
      as [W1 W2]; [pose proof (lo_entries _ Hlim); lia|lia|]. rewrite <-Hent4 in W1, W2.
    split; [by rewrite (sl_entries _ _ Hs24)|by rewrite (sl_bytes _ _ Hs24), (ac_resident _ Hacc4)|].
    intros kd. rewrite (sl_tiers _ _ Hs24), (ac_tiers _ Hacc4).
    destruct (fits_sublist c3 (entries c4) kd Hacc3) as [W3 _]; [rewrite Hent4, <-Hent3; apply keep_newest_sublist|].
    destruct (decide (kd = kind k)) as [->|Hkd].
    + pose proof (keep_tier_within (kind k) (tier_maximum_bytes c (kind k)) (placed k v n c) ltac:(lia)). rewrite Hent3 in W3. lia.
    + destruct (fits_sublist c2 (entries c3) kd Hacc2) as [W4 _]; [rewrite Hent3, Hpl; apply keep_tier_sublist|].
      rewrite <-(ac_tiers _ Hacc2) in W4. pose proof (Ht2 kd Hkd). pose proof (fi_tiers _ Hfit kd). lia.
  - intros kd. by rewrite (Hcons4 kd), (Hcons3 kd), Hpl, Hev2.
Qed.
Lemma put_rejected k v n c : limits_ok c → accepted c k n = false → put k v n c = Ok (false, reject c).
Proof.
  intros Hlim Hn. unfold accepted in Hn. unfold put. rewrite (Z.min_l (tier_maximum_bytes c (kind k))) by (pose proof (lo_tiers _ Hlim (kind k)); lia).
  by rewrite Hn.
Qed.
(** [clear] of a kind removes its entries and no others. *)
Lemma clear_loop_spec ds c : good c → NoDup ds → (∀ d, d ∈ ds → is_Some (od_get d (entries c))) → ∃ c',
  fold_res (λ c d, remove_entry d false c) ds c = Ok c' ∧ good c' ∧ same_limits c c' ∧
  ∀ d, od_get d (entries c') = if decide (d ∈ ds) then None else od_get d (entries c).
Proof.
  revert c. induction ds as [|d ds IH]; intros c Hgood Hnd Hin; cbn [fold_res].
  - exists c. split_and!; try done; by apply same_limits_refl.
  - apply NoDup_cons in Hnd as [Hd Hnd]. destruct (Hin d ltac:(left)) as [e He]. destruct Hgood as (Hacc & Hlim & Hfit).
    destruct (remove_entry_spec d false e c Hacc He) as (c1 & -> & Hacc1 & Hent1 & Hs1 & _).
    assert (Hget : ∀ d', d' ≠ d → od_get d' (entries c1) = od_get d' (entries c)) by (intros d' Hne; rewrite Hent1; by apply od_get_del_ne).
    assert (Hgood1 : good c1).
    { split; [done|]. split; [by eapply same_limits_ok|]. destruct Hs1 as [S1 S2 S3]. destruct (ac_entry _ Hacc d e) as [He1 _]; [by apply od_get_elem|].
      split; rewrite ?S1, ?S2, ?S3, ?Hent1.
      - rewrite od_length_del by (by exists e). pose proof (fi_entries _ Hfit). lia.
      - rewrite (ac_resident _ Hacc1), Hent1, (od_sum_del _ _ _ _ He), <-(ac_resident _ Hacc). pose proof (fi_bytes _ Hfit). lia.
      - intros kd. rewrite (ac_tiers _ Hacc1), Hent1, (od_sum_del _ _ _ _ He), <-(ac_tiers _ Hacc). pose proof (fi_tiers _ Hfit kd).
        pose proof (tier_size_nonneg kd e He1). lia. }
    destruct (IH c1 Hgood1 Hnd) as (c' & Hc' & Hgood' & Hs' & Hget').
    { intros d' Hd'. rewrite Hget; [apply Hin; by right|]. congruence. }
    exists c'. split_and!; [done|done|by eapply same_limits_trans|]. intros d'. rewrite Hget'.
    destruct (decide (d' = d)) as [->|Hne].
    + rewrite decide_False by done. rewrite decide_True by left. rewrite Hent1. apply od_get_del, (ac_wf _ Hacc).
    + rewrite (Hget _ Hne). destruct (decide (d' ∈ ds)) as [Hi|Hi]; [by rewrite decide_True by (by right)|].
      rewrite decide_False; [done|]. intros [?|?]%elem_of_cons; done.
Qed.
Lemma clear_effect k c : good c → ∃ c', clear k c = Ok c' ∧ good c' ∧ same_limits c c' ∧
  ∀ d e, od_get d (entries c') = Some e ↔ od_get d (entries c) = Some e ∧ match k with None => False | Some k => e_kind e ≠ k end.
Proof.
  intros Hgood. pose proof Hgood as (Hacc & Hlim & Hfit). destruct k as [k|].
  - assert (Hmem : ∀ d, d ∈ (List.filter (λ p, bool_decide (e_kind p.2 = k)) (entries c)).*1 ↔ ∃ e, od_get d (entries c) = Some e ∧ e_kind e = k).
    { intros d. rewrite list_elem_of_fmap. split.
      - intros ([d' e] & -> & [Hin Hk]%list_elem_of_In%filter_In). breflect. cbn in *. exists e.
        split; [|done]. apply od_get_iff; [apply (ac_wf _ Hacc)|by apply list_elem_of_In].
      - intros (e & He & Hk). exists (d, e). split; [done|]. apply list_elem_of_In, filter_In. split; [|by apply bool_decide_eq_true_2].
        apply list_elem_of_In. by apply od_get_elem. }
    destruct (clear_loop_spec (List.filter (λ p, bool_decide (e_kind p.2 = k)) (entries c)).*1 c Hgood) as (c' & Hc' & Hgood' & Hs' & Hget').
    { eapply sublist_NoDup; [exact (ac_wf _ Hacc)|]. apply fmap_sublist. clear. induction (entries c) as [|p es IH]; [constructor|].
      cbn. case_bool_decide; by constructor. }
    { intros d (e & He & _)%Hmem. by exists e. }
    exists c'. split; [exact Hc'|]. split_and!; [done|done|]. intros d e. rewrite Hget'. destruct (decide _) as [Hd|Hd].
    + split; [done|]. intros [He Hk]. apply Hmem in Hd as (e' & He' & Hk'). congruence.
    + split; [|tauto]. intros He. split; [done|]. intros Hk. apply Hd, Hmem. by exists e.
  - eexists. split; [reflexivity|]. split; [|split; [by split|cbn; intros; split; [done|tauto]]]. split; [|split; [by destruct Hlim; split|]].
    + split; cbn; [constructor|done|done|intros d e Hin; by apply elem_of_nil in Hin].
    + pose proof (lo_entries _ Hlim). split; cbn; [unfold Zlen; cbn; lia|pose proof (lo_tiers _ Hlim FRAME); lia|].
      intros kd. pose proof (lo_tiers _ Hlim kd). lia.
Qed.
Lemma placed_get k v n c d e : od_wf (entries c) → od_get d (placed k v n c) = Some e →
  d = digest k ∧ e = mkEntry k v n ∨ d ≠ digest k ∧ od_get d (entries c) = Some e.
Proof.
  intros Hwf. unfold placed. rewrite od_get_app. destruct (decide (d = digest k)) as [->|Hne].
  - rewrite od_get_del by done. cbn. rewrite decide_True by done. intros [= <-]. by left.
  - rewrite od_get_del_ne by done. cbn. rewrite decide_False by done. destruct (od_get d (entries c)); [|done]. by right.
Qed.
Lemma exec_spec c c0 o m : good c → same_limits c0 c → within m c →
  ∃ c', exec c o = Ok c' ∧ good c' ∧ same_limits c0 c' ∧ within (remember c0 m o) c'.
Proof.
  intros Hgood Hs Hin. destruct o as [k|k v n|k]; cbn [exec remember].
  - destruct (get_effect k c Hgood) as (H1 & H2 & _ & Hget). exists (get k c).2. split_and!; [done|done|by eapply same_limits_trans|].
    intros d e. rewrite Hget. apply Hin.
  - assert (Hacc0 : accepted c0 k n = accepted c k n) by (unfold accepted; by rewrite (sl_tiers _ _ Hs)). rewrite Hacc0.
    destruct (accepted c k n) eqn:Ha.
    + destruct (put_effect k v n c Hgood Ha) as (c' & -> & Hgood' & Hs' & Hent & _). exists c'.
      split_and!; [done|done|by eapply same_limits_trans|]. intros d e He. pose proof Hgood as ([Hwf _ _ _] & _).
      assert (Hp : od_get d (placed k v n c) = Some e).
      { assert (Hwfp : od_wf (placed k v n c)) by (apply od_wf_snoc; [by apply od_wf_del|by apply od_get_del]).
        eapply kept_get; [apply keep_tier_sublist|exact Hwfp|]. eapply kept_get; [apply keep_newest_sublist| |rewrite <-Hent; exact He].
        eapply od_wf_sublist; [apply keep_tier_sublist|done]. }
      apply placed_get in Hp as [[-> ->]|[Hne Hp]]; [by rewrite lookup_insert_eq|rewrite lookup_insert_ne by done; by apply Hin|done].
    + rewrite put_rejected by (done || apply Hgood). exists (reject c). destruct Hgood as ([] & [] & []), Hs. split_and!; [done| |by split|done].
      split; [by split|]. split; by split.
  - destruct (clear_effect k c Hgood) as (c' & -> & Hgood' & Hs' & Hget). exists c'. split_and!; [done|done|by eapply same_limits_trans|].
    intros d e [He Hk]%Hget. apply Hin in He. destruct k as [k|]; [|done]. by apply map_lookup_filter_Some.
Qed.
Lemma run_spec c c0 ops m : good c → same_limits c0 c → within m c →
  ∃ c', fold_res exec ops c = Ok c' ∧ good c' ∧ same_limits c0 c' ∧ within (foldl (remember c0) m ops) c'.
Proof.
  revert c m. induction ops as [|o ops IH]; intros c m Hgood Hs Hin; cbn [fold_res foldl]; [by exists c|].
  destruct (exec_spec c c0 o m Hgood Hs Hin) as (c1 & -> & H1 & H2 & H3). by apply IH.
Qed.
Lemma new_cache_good n b tiers c : new_cache n b tiers = Ok c → good c ∧ within ∅ c.
Proof.
  unfold new_cache, check. case_match eqn:E; [|done]. intros [= <-]. breflect. rewrite forallb_forall in H0.
  assert (Ht : ∀ k, 1 <= default b (tiers k) <= b).
  { intros k. assert (Hk : In k VideoCacheKind_members) by (destruct k; cbn; tauto). apply H0 in Hk. breflect. lia. }
  split; [|done]. split; [|split].
  - split; cbn; [constructor|done|done|intros d e Hin; by apply elem_of_nil in Hin].
  - by split.
  - split; cbn; [unfold Zlen; cbn; lia|lia|intros k; pose proof (Ht k); lia].
Qed.

(** C40: whatever sequence of calls a cache has seen, none of them raised, its counters of
    bytes are exact for all entries and for each kind, and the number of entries, all
    bytes and the bytes of each kind are within their limits.  [get] returns an artefact
    only if it is the last one stored under the digest that no [clear] has removed since.
    [put] answers [True] exactly when the artefact fits the budget of its kind; it then
    holds the artefact, and of the others exactly those that remain when the oldest
    entries of its kind leave until that budget is met and then the oldest of all until
    the global limits are, each departure counted once for its kind; otherwise no entry
    changes. *)
Theorem video_cache_correct n b tiers c0 ops : new_cache n b tiers = Ok c0 → ∃ c,
  fold_res exec ops c0 = Ok c ∧ accounted c ∧ fits c ∧ same_limits c0 c ∧
  (∀ k v, (get k c).1 = Some v → ∃ kd, foldl (remember c0) ∅ ops !! digest k = Some (kd, v)) ∧
  (∀ k v m, ∃ c', put k v m c = Ok (accepted c k m, c') ∧
     if accepted c k m
     then od_get (digest k) (entries c') = Some (mkEntry k v m) ∧
          entries c' = keep_newest n b (keep_tier (kind k) (tier_maximum_bytes c (kind k)) (placed k v m c)) ∧
          (∀ kd, evictions c' kd + kind_count kd (entries c') = evictions c kd + kind_count kd (placed k v m c))
     else entries c' = entries c).
Proof.
  intros Hnew. destruct (new_cache_good _ _ _ _ Hnew) as [Hgood Hin].
  destruct (run_spec c0 c0 ops ∅ Hgood (same_limits_refl c0) Hin) as (c & Hc & Hg & Hs & Hw). exists c.
  assert (Hnb : maximum_entries c = n ∧ maximum_bytes c = b).
  { destruct Hs as [-> -> _]. unfold new_cache, check in Hnew. case_match; [|done]. by injection Hnew as <-. }
  destruct Hnb as [Hn Hb]. split_and!; [done|apply Hg|apply Hg|done| |].
  - intros k v Hget. destruct (get_effect k c Hg) as (_ & _ & Hg1 & _). rewrite Hg1 in Hget.
    destruct (od_get (digest k) (entries c)) as [e|] eqn:He; [|done]. injection Hget as <-. apply Hw in He. by exists (e_kind e).
  - intros k v m. destruct (accepted c k m) eqn:Ha.
    + destruct (put_effect k v m c Hg Ha) as (c' & Hput & _ & _ & Hent & Hnew' & Hcons). rewrite Hn, Hb in Hent. by exists c'.
    + exists (reject c). by rewrite put_rejected by (done || apply Hg).
Qed.
End cache.
#[global] Arguments Entry : clear implicits.
#[global] Arguments VideoArtifactCache : clear implicits.

(** ** A run *)

Definition demo_key (kd : VideoCacheKind) (s : Z) : VideoCacheKey := mkKey kd "v" "t" "m" s (s + 1).
Definition demo_tiers (k : VideoCacheKind) : option Z := match k with FRAME => Some 50 | _ => None end.
Definition demo_ops : list (Op (V := Z)) :=
  [OPut (demo_key FRAME 0) 1 30; OPut (demo_key PATCH 0) 2 40; OGet (demo_key FRAME 0); OPut (demo_key FRAME 1) 3 30].
Lemma video_cache_correct_witness :
  ∃ c0 c : VideoArtifactCache Z, new_cache 3 100 demo_tiers = Ok c0 ∧ fold_res (exec id) demo_ops c0 = Ok c ∧ fits c ∧
    ((λ p, e_value p.2) <$> entries c) = [2; 3].
Proof.
  destruct (video_cache_correct id 3 100 demo_tiers _ demo_ops eq_refl) as (c & Hc & _ & Hf & _).
  eexists _, c. split; [reflexivity|]. split; [exact Hc|]. split; [exact Hf|].
  vm_compute in Hc. injection Hc as <-. vm_compute. reflexivity.
Defined.

End VideoCache.
