(* ===== verification/PyOrder.v ===== *)
(** * Sorting and choosing by tuple keys

    Keys that Python compares with [<] and [==] as a three-way comparison: integers,
    booleans, strings, floats other than nan, tuples of these by their first difference,
    and a field of a record.  [sorted], [min] and [max] with such a key. *)

From Stdlib Require Import Sorted.
From S2P Require Import Prelude PyFloat PySort.

Module PyOrder.
Import PyFloat.

(** What [sorted], [min] and [max] rely on, for the elements in [P]. *)
Class Comparison {A} (P : A → Prop) (c : A → A → comparison) : Prop := {
  cmp_sym : ∀ x y, P x → P y → c y x = CompOpp (c x y);
  cmp_trans : ∀ x y z o, P x → P y → P z → c x y = o → c y z = o → c x z = o;
}.
#[global] Arguments cmp_sym {_} _ _ {_} _ _ _ _.
#[global] Arguments cmp_trans {_} _ _ {_} _ _ _ _ _ _ _ _ _.

Definition everything {A} (x : A) : Prop := True.
#[export] Hint Extern 0 (everything _) => exact I : core.

(** A tuple: the first component that differs. *)
Definition cmp_then {A} (c d : A → A → comparison) (x y : A) : comparison :=
  match c x y with Eq => d x y | o => o end.
(** A key function. *)
Definition cmp_by {A K} (f : A → K) (c : K → K → comparison) (x y : A) : comparison := c (f x) (f y).
(** Floats. *)
Definition fcmp (a b : float) : comparison := if feqb a b then Eq else if fltb a b then Lt else Gt.
(** [False < True] *)
Definition bcmp (a b : bool) : comparison := Z.compare (Z.b2z a) (Z.b2z b).

#[export] Instance Z_comparison : Comparison everything Z.compare.
Proof.
  split.
  - intros x y _ _. apply Z.compare_antisym.
  - intros x y z o _ _ _ H1 H2. destruct o.
    + apply Z.compare_eq in H1 as ->. done.
    + rewrite Z.compare_lt_iff in *. lia.
    + rewrite Z.compare_gt_iff in *. lia.
Qed.
#[export] Instance string_comparison : Comparison everything String.compare.
Proof.
  split.
  - intros x y _ _. apply String.compare_antisym.
  - intros x y z o _ _ _. apply PySort.string_compare_trans.
Qed.
#[export] Instance cmp_by_comparison {A K} (P : A → Prop) (Q : K → Prop) (f : A → K) c `{!Comparison Q c} :
  (∀ x, P x → Q (f x)) → Comparison P (cmp_by f c).
Proof.
  intros HPQ. split; unfold cmp_by.
  - intros x y Hx Hy. apply (cmp_sym Q c); auto.
  - intros x y z o Hx Hy Hz. apply (cmp_trans Q c); auto.
Qed.
#[export] Instance cmp_by_everything {A K} (f : A → K) c `{!Comparison everything c} : Comparison everything (cmp_by f c).
Proof. by apply (cmp_by_comparison everything everything). Qed.
#[export] Instance bool_comparison : Comparison everything bcmp.
Proof. apply (cmp_by_everything Z.b2z Z.compare). Qed.

Definition number (f : float) : Prop := is_nan f = false.
#[export] Instance float_comparison : Comparison number fcmp.
Proof.
  assert (Hlt : ∀ x y, number x → number y → fcmp x y = Lt ↔ fltb x y = true).
  { intros x y Hx Hy. unfold fcmp. destruct (feqb x y) eqn:E; [|by destruct (fltb x y)]. split; [done|]. intros F.
    apply feqb_key in E; [|done..]. apply fltb_key in F; [|done..]. rewrite E in F. destruct (key y) as [[? ?] ?]. cbn in F. lia. }
  assert (Heq : ∀ x y, number x → number y → fcmp x y = Eq ↔ key x = key y).
  { intros x y Hx Hy. rewrite <-feqb_key by done. unfold fcmp. destruct (feqb x y); [done|]. by destruct (fltb x y). }
  assert (Hgt : ∀ x y, number x → number y → fcmp x y = Gt ↔ fltb y x = true).
  { intros x y Hx Hy. rewrite fltb_key by done. destruct (fcmp x y) eqn:E.
    - apply Heq in E; [|done..]. rewrite E. split; [done|]. destruct (key y) as [[? ?] ?]. cbn. lia.
    - apply Hlt in E; [|done..]. apply fltb_key in E; [|done..]. split; [done|].
      destruct (key x) as [[? ?] ?], (key y) as [[? ?] ?]. cbn in *. lia.
    - split; [intros _|done]. destruct (lex_total (key x) (key y)) as [H|[H|H]]; [| |done].
      + apply fltb_key in H; [|done..]. apply Hlt in H; [|done..]. congruence.
      + apply Heq in H; [|done..]. congruence. }
  split.
  - intros x y Hx Hy. destruct (fcmp x y) eqn:E; cbn.
    + apply Heq; [done..|]. symmetry. by apply Heq.
    + apply Hgt; [done..|]. by apply Hlt.
    + apply Hlt; [done..|]. by apply Hgt.
  - intros x y z [] Hx Hy Hz.
    + rewrite !Heq by done. congruence.
    + rewrite !Hlt by done. by apply fltb_trans.
    + rewrite !Hgt by done. intros H1 H2. by apply (fltb_trans z y x).
Qed.

Section laws.
Context {A} (P : A → Prop).

Lemma cmp_refl c `{!Comparison P c} x : P x → c x x = Eq.
Proof. intros Hx. pose proof (cmp_sym P c x x Hx Hx) as H. by destruct (c x x). Qed.
Lemma cmp_eq_l c `{!Comparison P c} x y z : P x → P y → P z → c x y = Eq → c x z = c y z.
Proof.
  intros Hx Hy Hz E. destruct (c y z) eqn:F.
  - by apply (cmp_trans P c x y z Eq).
  - destruct (c x z) eqn:G; [|done|].
    + assert (c y x = Eq) by (rewrite (cmp_sym P c x y), E; done).
      assert (c y z = Eq) by (by apply (cmp_trans P c y x z Eq)). congruence.
    + assert (c z x = Lt) by (rewrite (cmp_sym P c x z), G; done).
      assert (c y x = Lt) by (by apply (cmp_trans P c y z x Lt)). rewrite (cmp_sym P c x y), E in * by done. done.
  - destruct (c x z) eqn:G; [| |done].
    + assert (c y x = Eq) by (rewrite (cmp_sym P c x y), E; done).
      assert (c y z = Eq) by (by apply (cmp_trans P c y x z Eq)). congruence.
    + assert (c z x = Gt) by (rewrite (cmp_sym P c x z), G; done).
      assert (c y x = Gt) by (by apply (cmp_trans P c y z x Gt)). rewrite (cmp_sym P c x y), E in * by done. done.
Qed.
Lemma cmp_eq_r c `{!Comparison P c} x y z : P x → P y → P z → c y z = Eq → c x y = c x z.
Proof.
  intros Hx Hy Hz E. rewrite (cmp_sym P c y x), (cmp_sym P c z x) by done. f_equal. by apply cmp_eq_l.
Qed.
#[export] Instance cmp_then_comparison c d `{!Comparison P c, !Comparison P d} : Comparison P (cmp_then c d).
Proof.
  split; unfold cmp_then.
  - intros x y Hx Hy. rewrite (cmp_sym P c x y ) by done. destruct (c x y); cbn; [by apply (cmp_sym P d)|done|done].
  - intros x y z o Hx Hy Hz. destruct (c x y) eqn:E.
    + rewrite (cmp_eq_l c x y z) by done. destruct (c y z); [by apply (cmp_trans P d)|done|done].
    + intros <-. destruct (c y z) eqn:F; [|by rewrite (cmp_trans P c x y z Lt)|done]. intros _.
      rewrite <-(cmp_eq_r c x y z) by done. by rewrite E.
    + intros <-. destruct (c y z) eqn:F; [|done|by rewrite (cmp_trans P c x y z Gt)]. intros _.
      rewrite <-(cmp_eq_r c x y z) by done. by rewrite E.
Qed.
End laws.

(** ** [sorted], [min] and [max] *)

Definition le_by {A} (c : A → A → comparison) (x y : A) : bool := match c x y with Gt => false | _ => true end.
Definition sorted_with {A} (c : A → A → comparison) (l : list A) : list A := PySort.sorted_by (le_by c) l.
(** [min] and [max] keep the first of the elements they cannot separate. *)
Definition min_with {A} (c : A → A → comparison) (x : A) (l : list A) : A :=
  foldl (λ best y, match c y best with Lt => y | _ => best end) x l.
Definition max_with {A} (c : A → A → comparison) (x : A) (l : list A) : A :=
  foldl (λ best y, match c y best with Gt => y | _ => best end) x l.

Section choose.
Context {A} (P : A → Prop) (c : A → A → comparison) `{!Comparison P c}.

Lemma le_by_total x y : P x → P y → le_by c x y = false → le_by c y x = true.
Proof. intros Hx Hy. unfold le_by. rewrite (cmp_sym P c x y) by done. by destruct (c x y). Qed.
Lemma le_by_trans x y z : P x → P y → P z → le_by c x y = true → le_by c y z = true → le_by c x z = true.
Proof.
  intros Hx Hy Hz. unfold le_by. destruct (c x y) eqn:E; [|destruct (c y z) eqn:F|done]; try done; intros _.
  - by rewrite (cmp_eq_l P c x y z).
  - by rewrite <-(cmp_eq_r P c x y z), E.
  - by rewrite (cmp_trans P c x y z Lt).
Qed.
Lemma sorted_with_Permutation l : sorted_with c l ≡ₚ l.
Proof. apply PySort.sorted_by_Permutation. Qed.
Lemma elem_of_sorted_with x l : x ∈ sorted_with c l ↔ x ∈ l.
Proof. by rewrite sorted_with_Permutation. Qed.
Lemma sorted_with_sorted l : Forall P l → StronglySorted (λ a b, le_by c a b = true) (sorted_with c l).
Proof. apply (PySort.sorted_by_sorted (le_by c) P le_by_total le_by_trans). Qed.
(** The first element of the sorted list is a smallest one. *)
Lemma sorted_with_head l x rest : Forall P l → sorted_with c l = x :: rest → x ∈ l ∧ ∀ y, y ∈ l → le_by c x y = true.
Proof.
  intros Hl E. pose proof (sorted_with_sorted l Hl) as Hs. rewrite E in Hs.
  assert (Hx : x ∈ l) by (rewrite <-elem_of_sorted_with, E; left). split; [done|]. intros y Hy.
  rewrite <-elem_of_sorted_with, E in Hy. apply elem_of_cons in Hy as [->|Hy].
  - unfold le_by. rewrite (cmp_refl P); [done|done|]. by eapply Forall_forall in Hl.
  - apply StronglySorted_inv in Hs as [_ Hs]. by eapply Forall_forall in Hs.
Qed.
Lemma min_with_spec x l :
  Forall P (x :: l) → min_with c x l ∈ x :: l ∧ ∀ y, y ∈ x :: l → le_by c (min_with c x l) y = true.
Proof.
  revert x. induction l as [|z l IH]; intros x [Hx Hl]%Forall_cons.
  - split; [left|]. intros y ->%list_elem_of_singleton. unfold le_by. cbn. by rewrite (cmp_refl P).
  - apply Forall_cons in Hl as [Hz Hl]. cbn [min_with foldl]. fold (min_with c).
    set (b := match c z x with Lt => z | _ => x end). destruct (IH b) as [H1 H2].
    { constructor; [|done]. unfold b. by destruct (c z x). }
    assert (Hin : foldl (λ best y, match c y best with Lt => y | _ => best end) b l = min_with c b l) by done. rewrite Hin.
    assert (HPm : P (min_with c b l)).
    { eapply (Forall_forall P (b :: l)); [constructor; [unfold b; by destruct (c z x)|done]|done]. }
    assert (Hb : b = x ∨ b = z) by (unfold b; destruct (c z x); auto). split.
    { apply elem_of_cons in H1 as [->|H1]; [|by do 2 right]. destruct Hb as [->| ->]; [left|right; left]. }
    assert (Hbx : le_by c b x = true ∧ le_by c b z = true).
    { unfold b, le_by. destruct (c z x) eqn:E; rewrite ?(cmp_refl P), ?(cmp_sym P c z x), ?E by done; done. }
    assert (HPb : P b) by (unfold b; by destruct (c z x)).
    intros y [->|[->|Hy]%elem_of_cons]%elem_of_cons.
    + apply (le_by_trans _ b x); try done; [apply H2; left|tauto].
    + apply (le_by_trans _ b z); try done; [apply H2; left|tauto].
    + apply H2. by right.
Qed.
End choose.

(** [max] is [min] for the reversed order. *)
Definition flipped {A} (c : A → A → comparison) (x y : A) : comparison := c y x.
Lemma flipped_comparison {A} (P : A → Prop) c `{!Comparison P c} : Comparison P (flipped c).
Proof.
  split; unfold flipped.
  - intros x y Hx Hy. by apply (cmp_sym P c).
  - intros x y z o Hx Hy Hz H1 H2. by apply (cmp_trans P c z y x).
Qed.
Lemma max_with_spec {A} (P : A → Prop) (c : A → A → comparison) `{!Comparison P c} x l :
  Forall P (x :: l) → max_with c x l ∈ x :: l ∧ ∀ y, y ∈ x :: l → le_by c y (max_with c x l) = true.
Proof.
  intros Hl. assert (max_with c x l = min_with (flipped c) x l) as ->; [|by apply (min_with_spec P (flipped c) (Comparison0 := flipped_comparison P c))].
  revert x Hl. induction l as [|z l IH]; intros x Hx; [done|]. apply Forall_cons in Hx as [Hx [Hz Hl]%Forall_cons].
  unfold max_with, min_with, flipped in *. cbn [foldl]. rewrite (cmp_sym P c z x) by done.
  destruct (c z x); cbn; apply IH; by constructor.
Qed.

End PyOrder.
