(* ===== verification/VideoSampling.v ===== *)
(** * Scene-aware temporal sampling of video frames (video_temporal_sampler.py)

    The first and last frame, then the salient frames in order of salience, then the
    frames farthest in time from those chosen, each at least the minimum interval from
    every frame chosen before it.  The set of chosen identifiers is the list of them in
    the order in which they were added. *)

From Stdlib Require Import Sorted.
From S2P Require Import Prelude Types PyFloat PySort PyOrder.

Module VideoSampling.
Import PyFloat PyOrder.

Definition MAX_VIDEO_SAMPLE_FRAMES : Z := 768.

Section payload.
Context {T : Type}.

Record TemporalVideoFrame := mkFrame {
  frame_id : string;
  presentation_seconds : float;
  payload : T;
  keyframe : bool;
  scene_change_score : float;
}.
(** [TemporalVideoFrame.__post_init__] *)
Definition frame_check (f : TemporalVideoFrame) : res exn () :=
  check (negb (str_eqb (frame_id f) "" || (str_len (frame_id f) >? 128)
              || negb (is_finite (presentation_seconds f)) || fltb (presentation_seconds f) zero
              || negb (is_finite (scene_change_score f))
              || negb (fleb zero (scene_change_score f) && fleb (scene_change_score f) (of_Z 1))))
    (ValueError "invalid temporal video frame") ().

Record TemporalSamplingReport := mkReport {
  input_frames : Z;
  selected_frames : list TemporalVideoFrame;
  dropped_frames : Z;
  keyframes_selected : Z;
  scene_changes_selected : Z;
  report_maximum : Z;
}.

(** The three keys. *)
Definition time_cmp : TemporalVideoFrame → TemporalVideoFrame → comparison :=
  cmp_then (cmp_by presentation_seconds fcmp) (cmp_by frame_id String.compare).
Definition salience_cmp : TemporalVideoFrame → TemporalVideoFrame → comparison :=
  cmp_then (cmp_by (λ f, negb (keyframe f)) bcmp)
    (cmp_then (cmp_by (λ f, fneg (scene_change_score f)) fcmp) time_cmp).
Definition salient (threshold : float) (f : TemporalVideoFrame) : bool :=
  keyframe f || fleb threshold (scene_change_score f).

(** [abs(a - b)] *)
Definition distance (f g : TemporalVideoFrame) : float := fabs (fsub (presentation_seconds f) (presentation_seconds g)).

(** [_far_enough]; an identifier that is not in the dictionary raises. *)
Definition far_enough (f : TemporalVideoFrame) (selected : list string) (by_id : gmap string TemporalVideoFrame)
    (minimum_interval : float) : res exn bool :=
  fold_res (λ ok i, match by_id !! i with
                    | Some g => Ok (ok && fleb minimum_interval (distance f g))
                    | None => Raise (KeyError i) end) selected true.
(** [_nearest_distance]: [min] of the distances. *)
Definition nearest_distance (f : TemporalVideoFrame) (selected : list string) (by_id : gmap string TemporalVideoFrame) : res exn float :=
  match map_res (λ i, match by_id !! i with Some g => Ok (distance f g) | None => Raise (KeyError i) end) selected with
  | Raise e => Raise e
  | Ok [] => Raise (ValueError "min() iterable argument is empty")
  | Ok (d :: ds) => Ok (min_with fcmp d ds)
  end.

(** The loop over the salient frames. *)
Fixpoint add_salient (maximum : Z) (minimum_interval : float) (by_id : gmap string TemporalVideoFrame)
    (l : list TemporalVideoFrame) (selected : list string) : res exn (list string) :=
  match l with
  | [] => Ok selected
  | f :: l' =>
      if maximum <=? Zlen selected then Ok selected
      else match far_enough f selected by_id minimum_interval with
           | Raise e => Raise e
           | Ok true => add_salient maximum minimum_interval by_id l' (selected ++ [frame_id f])
           | Ok false => add_salient maximum minimum_interval by_id l' selected
           end
  end.

(** A list comprehension whose condition may raise. *)
Fixpoint filter_res (p : TemporalVideoFrame → res exn bool) (l : list TemporalVideoFrame) : res exn (list TemporalVideoFrame) :=
  match l with
  | [] => Ok []
  | f :: l' => match p f with
               | Raise e => Raise e
               | Ok b => match filter_res p l' with Raise e => Raise e | Ok r => Ok (if b then f :: r else r) end
               end
  end.
(** The key of [max]: nearest distance, score, and the earlier. *)
Definition gap_cmp : float * TemporalVideoFrame → float * TemporalVideoFrame → comparison :=
  cmp_then (cmp_by fst fcmp)
    (cmp_then (cmp_by (λ p, scene_change_score p.2) fcmp) (cmp_by (λ p, fneg (presentation_seconds p.2)) fcmp)).
Definition farthest (selected : list string) (by_id : gmap string TemporalVideoFrame) (f : TemporalVideoFrame)
    (l : list TemporalVideoFrame) : res exn TemporalVideoFrame :=
  match map_res (λ g, match nearest_distance g selected by_id with Ok d => Ok (d, g) | Raise e => Raise e end) (f :: l) with
  | Raise e => Raise e
  | Ok [] => Raise (ValueError "max() iterable argument is empty")
  | Ok (p :: ps) => Ok (max_with gap_cmp p ps).2
  end.

(** The loop that fills the gaps: every turn takes a frame out of [remaining]. *)
Fixpoint fill (fuel : nat) (maximum : Z) (minimum_interval : float) (by_id : gmap string TemporalVideoFrame)
    (remaining : list TemporalVideoFrame) (selected : list string) : res exn (list string) :=
  match fuel with
  | O => Ok selected
  | S fuel' =>
      if (maximum <=? Zlen selected) || bool_decide (length remaining = 0%nat) then Ok selected
      else match filter_res (λ f, far_enough f selected by_id minimum_interval) remaining with
           | Raise e => Raise e
           | Ok [] => Ok selected
           | Ok (f :: eligible) =>
               match farthest selected by_id f eligible with
               | Raise e => Raise e
               | Ok candidate =>
                   fill fuel' maximum minimum_interval by_id
                     (List.filter (λ g, negb (str_eqb (frame_id g) (frame_id candidate))) remaining)
                     (selected ++ [frame_id candidate])
               end
           end
  end.

(** [ordered[1:-1]] *)
Definition interior (l : list TemporalVideoFrame) : list TemporalVideoFrame := removelast (tail l).
Definition identifiers_of (f g : TemporalVideoFrame) (maximum : Z) : list string :=
  frame_id f :: (if (1 <? maximum) && negb (str_eqb (frame_id g) (frame_id f)) then [frame_id g] else []).
Definition is_selected (selected : list string) (f : TemporalVideoFrame) : bool := bool_decide (frame_id f ∈ selected).

(** [sample_temporal_frames] *)
Definition sample_temporal_frames (frames : list TemporalVideoFrame) (maximum_frames : Z) (minimum_interval_seconds scene_change_threshold : float)
    : res exn TemporalSamplingReport :=
  if negb ((1 <=? maximum_frames) && (maximum_frames <=? MAX_VIDEO_SAMPLE_FRAMES)) || (Zlen frames >? 1000000)
     || negb (is_finite minimum_interval_seconds) || fltb minimum_interval_seconds zero
     || negb (is_finite scene_change_threshold)
     || negb (fleb zero scene_change_threshold && fleb scene_change_threshold (of_Z 1))
  then Raise (ValueError "invalid temporal sampling configuration")
  else if negb (bool_decide (NoDup (frame_id <$> frames)))
  then Raise (ValueError "temporal frame identifiers must be unique")
  else
    let ordered := sorted_with time_cmp frames in
    match ordered with
    | [] => Ok (mkReport 0 [] 0 0 0 maximum_frames)
    | first :: _ =>
        let by_id := list_to_map ((λ f, (frame_id f, f)) <$> ordered) in
        let selected0 := identifiers_of first (List.last ordered first) maximum_frames in
        let chosen := sorted_with salience_cmp (List.filter (salient scene_change_threshold) (interior ordered)) in
        match add_salient maximum_frames minimum_interval_seconds by_id chosen selected0 with
        | Raise e => Raise e
        | Ok selected1 =>
            let remaining := List.filter (λ f, negb (is_selected selected1 f)) ordered in
            match fill (length remaining) maximum_frames minimum_interval_seconds by_id remaining selected1 with
            | Raise e => Raise e
            | Ok ids =>
                let selected := List.filter (is_selected ids) ordered in
                Ok (mkReport (Zlen ordered) selected (Zlen ordered - Zlen selected)
                      (Zlen (List.filter keyframe selected))
                      (Zlen (List.filter (λ f, fleb scene_change_threshold (scene_change_score f)) selected)) maximum_frames)
            end
        end
    end.

(** ** The distance of two frames *)

Definition timed (f : TemporalVideoFrame) : Prop := is_finite (presentation_seconds f) = true ∧ is_finite (scene_change_score f) = true.
Lemma sampled_frame_timed f : frame_check f = Ok () → timed f.
Proof.
  unfold frame_check. destruct (negb _) eqn:E; [|done]. intros _. rewrite negb_true_iff, !orb_false_iff, !negb_false_iff in E. split; tauto.
Qed.
Lemma finite_not_nan f : is_finite f = true → is_nan f = false.
Proof. by destruct f. Qed.
Lemma abs_round_aux s m e l : fabs (SpecFloat.binary_round_aux prec emax s m e l) = fabs (SpecFloat.binary_round_aux prec emax false m e l).
Proof.
  unfold SpecFloat.binary_round_aux. destruct (SpecFloat.shr_fexp _ _ m e l) as [r e1]. destruct (SpecFloat.shr_fexp _ _ _ e1 _) as [r2 e2].
  destruct (SpecFloat.shr_m r2); [done|by destruct (_ <=? _)|done].
Qed.
Lemma abs_normalize m e s s' : fabs (SpecFloat.binary_normalize prec emax (- m) e s) = fabs (SpecFloat.binary_normalize prec emax m e s').
Proof.
  unfold SpecFloat.binary_normalize, SpecFloat.binary_round. destruct m as [|m|m]; [done|..];
    rewrite ?Pos2Z.opp_pos, ?Pos2Z.opp_neg; destruct (SpecFloat.shl_align _ _ _); by rewrite !(abs_round_aux true).
Qed.
Lemma distance_sym f g : timed f → timed g → distance f g = distance g f.
Proof.
  unfold distance. intros [Hf _] [Hg _]. destruct (presentation_seconds f) as [sa|sa| |sa ma ea], (presentation_seconds g) as [sb|sb| |sb mb eb]; try done.
  - by destruct sa, sb.
  - unfold fsub, SpecFloat.SFsub. rewrite (Z.min_comm eb ea).
    match goal with |- fabs (_ _ _ (?a - ?b) ?e ?s) = fabs (_ _ _ ?c _ ?s') => replace c with (- (a - b)) by lia end.
    symmetry. apply abs_normalize.
Qed.
Lemma distance_number f g : timed f → timed g → number (distance f g).
Proof.
  intros [Hf _] [Hg _]. unfold number, distance. pose proof (fsub_not_nan _ _ Hf Hg) as H. by destruct (fsub _ _).
Qed.
Lemma field_comparison {K} (Q : K → Prop) (f : TemporalVideoFrame → K) c `{!Comparison Q c} :
  (∀ x, timed x → Q (f x)) → Comparison timed (cmp_by f c).
Proof. intros. by apply (cmp_by_comparison timed Q). Qed.
#[local] Instance time_comparison : Comparison timed time_cmp.
Proof.
  unfold time_cmp. apply cmp_then_comparison; [|apply (field_comparison everything); [apply _|done]].
  apply (field_comparison number); [apply _|]. intros f [Hf _]. by apply finite_not_nan.
Qed.
#[local] Instance salience_comparison : Comparison timed salience_cmp.
Proof.
  unfold salience_cmp. apply cmp_then_comparison; [apply (field_comparison everything); [apply _|done]|].
  apply cmp_then_comparison; [|apply _]. apply (field_comparison number); [apply _|].
  intros f [_ Hf]. unfold number, fneg. by destruct (scene_change_score f).
Qed.

Lemma str_eqb_eq a b : str_eqb a b = true ↔ a = b.
Proof. apply bool_decide_eq_true. Qed.

(** ** Growing a selection *)

Section selection.
Variables (ordered : list TemporalVideoFrame) (by_id : gmap string TemporalVideoFrame) (maximum : Z) (interval : float).
Hypothesis Htimed : Forall timed ordered.
Hypothesis Hid : ∀ f, f ∈ ordered → by_id !! frame_id f = Some f.

Abbreviation ids S := (fmap frame_id S).
Definition far (f : TemporalVideoFrame) (S : list TemporalVideoFrame) : bool := forallb (λ g, fleb interval (distance f g)) S.
Definition near (f : TemporalVideoFrame) (S : list TemporalVideoFrame) : Prop := ∃ g, g ∈ S ∧ fleb interval (distance f g) = false.
(** A frame far from every chosen one, and eligible in the sense of [Q], is added. *)
Inductive grow (Q : list TemporalVideoFrame → TemporalVideoFrame → Prop) (S : list TemporalVideoFrame)
    : list TemporalVideoFrame → Prop :=
| grow_add f : f ∈ ordered → f ∉ S → far f S = true → Q S f → grow Q S (S ++ [f]).


Lemma far_false f S : far f S = false → near f S.
Proof.
  induction S as [|g S IH]; cbn; [done|]. intros [E|E]%andb_false_iff.
  - exists g. by split; [left|].
  - destruct (IH E) as (h & Hh & He). exists h. by split; [right|].
Qed.
Lemma near_more f S S' : S ⊆ S' → near f S → near f S'.
Proof. intros Hs (g & Hg & He). exists g. by split; [apply Hs|]. Qed.
Lemma far_app f S S' : far f (S ++ S') = far f S && far f S'.
Proof. apply forallb_app. Qed.

Lemma grows_prefix Q S S' : rtc (grow Q) S S' → ∃ added, S' = S ++ added.
Proof.
  induction 1 as [|S S1 S' [f _ _ _ _] _ (added & ->)]; [exists []; by rewrite app_nil_r|].
  exists ([f] ++ added). by rewrite app_assoc.
Qed.
Lemma grows_inv Q S S' : rtc (grow Q) S S' → NoDup S → S ⊆ ordered → NoDup S' ∧ S' ⊆ ordered.
Proof.
  induction 1 as [|S S1 S' [f Hf Hno _ _] _ IH]; [done|]. intros Hnd Hs. apply IH.
  - apply NoDup_app. split_and!; [done| |apply NoDup_singleton]. intros g Hg ->%list_elem_of_singleton. done.
  - intros g [Hg| ->%list_elem_of_singleton]%elem_of_app; [by apply Hs|done].
Qed.
(** Two chosen frames are far apart unless both were there at the start. *)
Lemma grows_far Q S S' : rtc (grow Q) S S' → S ⊆ ordered → ∀ f g, f ∈ S' → g ∈ S' → f ≠ g →
  (f ∈ S ∧ g ∈ S) ∨ fleb interval (distance f g) = true.
Proof.
  intros Hr Hs. rewrite Forall_forall in Htimed.
  cut (S' ⊆ ordered ∧ ∀ f g, f ∈ S' → g ∈ S' → f ≠ g → (f ∈ S ∧ g ∈ S) ∨ fleb interval (distance f g) = true); [tauto|].
  revert S' Hr. refine (rtc_ind_r _ _ _ _); [split; [done|tauto]|].
  intros S1 S2 _ Hg [Hs1 IH]. destruct Hg as [h Hh Hno Hfar _]. unfold far in Hfar. rewrite forallb_forall in Hfar. split.
  - intros g [Hg| ->%list_elem_of_singleton]%elem_of_app; [by apply Hs1|done].
  - intros f g [Hf| ->%list_elem_of_singleton]%elem_of_app [Hg| ->%list_elem_of_singleton]%elem_of_app Hne; [by apply IH| | |done].
    + right. rewrite distance_sym by auto. by apply Hfar, list_elem_of_In.
    + right. by apply Hfar, list_elem_of_In.
Qed.

Lemma far_enough_spec f S :
  S ⊆ ordered → far_enough f (ids S) by_id interval = Ok (far f S).
Proof.
  intros Hs. unfold far_enough, far. enough (Hgen : ∀ ok, fold_res (λ ok i, match by_id !! i with
    | Some g => Ok (ok && fleb interval (distance f g)) | None => Raise (KeyError i) end) (ids S) ok
    = Ok (ok && forallb (λ g, fleb interval (distance f g)) S)) by apply Hgen.
  revert Hs. clear -Hid. induction S as [|g S IH]; intros Hs ok; cbn; [by rewrite andb_true_r|].
  rewrite Hid by (apply Hs; left). rewrite IH by (intros h Hh; apply Hs; by right). by rewrite andb_assoc.
Qed.
Lemma ids_elem f S : S ⊆ ordered → f ∈ ordered → frame_id f ∈ ids S → f ∈ S.
Proof.
  intros Hs Hf (g & He & Hg)%list_elem_of_fmap. pose proof (Hid f Hf) as H1. pose proof (Hid g (Hs _ Hg)) as H2.
  rewrite He in H1. congruence.
Qed.

Lemma add_salient_spec (Q : TemporalVideoFrame → Prop) l : ∀ S,
  NoDup l → l ⊆ ordered → (∀ f, f ∈ l → Q f) → S ⊆ ordered → NoDup S → (∀ f, f ∈ l → f ∉ S) → Zlen S <= maximum →
  ∃ S', add_salient maximum interval by_id l (ids S) = Ok (ids S') ∧ rtc (grow (λ _, Q)) S S' ∧ Zlen S' <= maximum ∧
    (∀ f, f ∈ S' → f ∈ S ∨ f ∈ l) ∧ (maximum <= Zlen S' ∨ ∀ f, f ∈ l → f ∈ S' ∨ near f S').
Proof.
  induction l as [|f l IH]; intros S Hnd Hl HQ Hs HndS Hdis Hmax; cbn [add_salient].
  { exists S. split_and!; [done|apply rtc_refl|done|tauto|]. right. intros f Hf. by apply elem_of_nil in Hf. }
  unfold Zlen at 1. rewrite length_fmap. fold (Zlen S). destruct (Z.leb_spec maximum (Zlen S)).
  { exists S. split_and!; [done|apply rtc_refl|done|tauto|]. by left. }
  rewrite far_enough_spec by done. apply NoDup_cons in Hnd as [Hno Hnd].
  assert (Hf : f ∈ ordered) by (apply Hl; left). assert (HfS : f ∉ S) by (apply Hdis; left).
  assert (Hl' : l ⊆ ordered) by (intros g Hg; apply Hl; by right).
  assert (HQ' : ∀ g, g ∈ l → Q g) by (intros g Hg; apply HQ; by right).
  destruct (far f S) eqn:E.
  - destruct (IH (S ++ [f])) as (S' & Hadd & Hgr & Hm & Hsub & Hall); try done.
    + intros g [Hg| ->%list_elem_of_singleton]%elem_of_app; [by apply Hs|done].
    + apply NoDup_app. split_and!; [done| |apply NoDup_singleton]. intros g Hg ->%list_elem_of_singleton. done.
    + intros g Hg [HgS| ->%list_elem_of_singleton]%elem_of_app; [|done]. by apply (Hdis g); [right|].
    + unfold Zlen in *. rewrite length_app. cbn. lia.
    + rewrite fmap_app in Hadd. exists S'. destruct (grows_prefix _ _ _ Hgr) as (added & HS'). split_and!; [done| |done| |].
      * eapply rtc_l; [apply (grow_add _ S f); try done; apply HQ; left|done].
      * intros g Hg. destruct (Hsub g Hg) as [[?| ->%list_elem_of_singleton]%elem_of_app|?]; [by left|right; left|right; by right].
      * destruct Hall as [?|Hall]; [by left|]. right. intros g [->|Hg]%elem_of_cons; [|by apply Hall]. left.
        rewrite HS', !elem_of_app. left. right. left.
  - destruct (IH S) as (S' & Hadd & Hgr & Hm & Hsub & Hall); try done.
    + intros g Hg. apply Hdis. by right.
    + exists S'. destruct (grows_prefix _ _ _ Hgr) as (added & HS'). split_and!; [done|done|done| |].
      * intros g Hg. destruct (Hsub g Hg); [by left|right; by right].
      * destruct Hall as [?|Hall]; [by left|]. right. intros g [->|Hg]%elem_of_cons; [|by apply Hall]. right.
        apply (near_more _ S); [|by apply far_false]. rewrite HS'. intros h Hh. apply elem_of_app. by left.
Qed.

Lemma filter_res_spec (p : TemporalVideoFrame → res exn bool) (q : TemporalVideoFrame → bool) l :
  (∀ f, f ∈ l → p f = Ok (q f)) → filter_res p l = Ok (List.filter q l).
Proof.
  induction l as [|f l IH]; intros Hp; cbn; [done|]. rewrite Hp by left. rewrite IH by (intros; apply Hp; by right).
  by destruct (q f).
Qed.
Lemma elem_of_bfilter {A} (q : A → bool) l x : x ∈ List.filter q l ↔ x ∈ l ∧ q x = true.
Proof. rewrite !list_elem_of_In. apply filter_In. Qed.
Lemma bfilter_NoDup {A} (q : A → bool) (l : list A) : NoDup l → NoDup (List.filter q l).
Proof. rewrite !NoDup_ListNoDup. apply List.NoDup_filter. Qed.

(** The frame taken has the greatest distance to the nearest chosen one. *)
Definition gap (S : list TemporalVideoFrame) (f : TemporalVideoFrame) : float :=
  match S with [] => zero | g :: S' => min_with fcmp (distance f g) ((distance f) <$> S') end.
Lemma nearest_distance_spec f S : S ≠ [] → S ⊆ ordered → nearest_distance f (ids S) by_id = Ok (gap S f).
Proof.
  intros Hne Hs. unfold nearest_distance.
  assert (map_res (λ i, match by_id !! i with Some g => Ok (distance f g) | None => Raise (KeyError i) end) (ids S)
          = Ok ((distance f) <$> S)) as ->; [|by destruct S].
  apply map_res_Ok. revert Hs. clear -Hid. induction S as [|g S IH]; intros Hs; cbn; constructor.
  - by rewrite Hid by (apply Hs; left).
  - apply IH. intros h Hh. apply Hs. by right.
Qed.
Lemma gap_number S f : S ⊆ ordered → timed f → number (gap S f).
Proof.
  intros Hs Hf. rewrite Forall_forall in Htimed. destruct S as [|g S]; [done|]. cbn.
  assert (Hall : Forall number (distance f g :: (distance f <$> S))).
  { rewrite <-(fmap_cons (distance f) g S). apply Forall_fmap, Forall_forall. intros h Hh.
    apply distance_number; [done|]. apply Htimed, Hs, Hh. }
  destruct (min_with_spec number fcmp _ _ Hall) as [Hin _]. rewrite Forall_forall in Hall. by apply Hall.
Qed.
Lemma farthest_spec S f l :
  S ≠ [] → S ⊆ ordered → Forall timed (f :: l) →
  ∃ c, farthest (ids S) by_id f l = Ok c ∧ c ∈ f :: l ∧ ∀ g, g ∈ f :: l → fltb (gap S c) (gap S g) = false.
Proof.
  intros Hne Hs Hl. unfold farthest.
  assert (map_res (λ g, match nearest_distance g (ids S) by_id with Ok d => Ok (d, g) | Raise e => Raise e end) (f :: l)
          = Ok ((λ g, (gap S g, g)) <$> f :: l)) as ->.
  { apply map_res_Ok. apply Forall2_fmap_r, Forall_Forall2_diag, Forall_true. intros g. by rewrite nearest_distance_spec. }
  rewrite fmap_cons. set (P := λ p : float * TemporalVideoFrame, number p.1 ∧ timed p.2).
  assert (HP : Forall P ((gap S f, f) :: ((λ g, (gap S g, g)) <$> l))).
  { rewrite <-(fmap_cons (λ g, (gap S g, g)) f l). apply Forall_fmap. eapply Forall_impl; [exact Hl|]. intros g Hg. split; [by apply gap_number|done]. }
  assert (Hcmp : Comparison P gap_cmp).
  { unfold gap_cmp. apply cmp_then_comparison; [|apply cmp_then_comparison].
    - apply (cmp_by_comparison P number); [apply _|]. by intros p [? _].
    - apply (cmp_by_comparison P number); [apply _|]. intros p [_ [_ Hp]]. by apply finite_not_nan.
    - apply (cmp_by_comparison P number); [apply _|]. intros p [_ [Hp _]]. unfold number, fneg. by destruct (presentation_seconds p.2). }
  destruct (max_with_spec P gap_cmp _ _ HP) as [Hin Hmax]. eexists. split; [reflexivity|].
  rewrite <-(fmap_cons (λ g, (gap S g, g)) f l) in Hin. apply list_elem_of_fmap in Hin as (c & Heq & Hc). rewrite Heq in *. cbn [snd].
  split; [done|]. intros g Hg.
  assert (Hpg : (gap S g, g) ∈ (λ g, (gap S g, g)) <$> f :: l) by (by apply (list_elem_of_fmap_2 (λ g, (gap S g, g)))).
  specialize (Hmax _ Hpg).
  destruct (fltb (gap S c) (gap S g)) eqn:E; [|done]. exfalso. revert Hmax.
  unfold le_by, gap_cmp, cmp_then at 1, cmp_by at 1. cbn [fst].
  assert (fcmp (gap S g) (gap S c) = Gt) as ->; [|done].
  rewrite Forall_forall in Hl. rewrite (cmp_sym number fcmp (gap S c)); [|apply gap_number; auto..].
  unfold fcmp. rewrite E. destruct (feqb _ _) eqn:F; [|done]. exfalso.
  apply feqb_key in F; [|apply gap_number; auto..]. apply fltb_key in E; [|apply gap_number; auto..].
  rewrite F in E. destruct (key _) as [[? ?] ?]. cbn in E. lia.
Qed.

(** No other frame that may be added is farther from those chosen. *)
Definition farthest_first (S : list TemporalVideoFrame) (c : TemporalVideoFrame) : Prop :=
  ∀ g, g ∈ ordered → g ∉ S → far g S = true → fltb (gap S c) (gap S g) = false.
Lemma frames_decidable (f : TemporalVideoFrame) S : f ∈ ordered → S ⊆ ordered → f ∈ S ∨ f ∉ S.
Proof.
  intros Hf Hs. destruct (decide (frame_id f ∈ ids S)) as [H|H]; [left; by apply ids_elem|].
  right. intros Hin. by apply H, list_elem_of_fmap_2.
Qed.
Lemma fill_gaps_spec fuel : ∀ R S,
  (length R <= fuel)%nat → NoDup R → R ⊆ ordered → S ≠ [] → S ⊆ ordered → NoDup S → (∀ f, f ∈ R ↔ f ∈ ordered ∧ f ∉ S) →
  Zlen S <= maximum →
  ∃ S', fill fuel maximum interval by_id R (ids S) = Ok (ids S') ∧ rtc (grow farthest_first) S S' ∧ Zlen S' <= maximum ∧
    (maximum <= Zlen S' ∨ ∀ f, f ∈ ordered → f ∈ S' ∨ near f S').
Proof.
  induction fuel as [|fuel IH]; intros R S Hfuel Hnd HR Hne Hs HndS Hiff Hmax; cbn [fill];
    (destruct (decide (R = [])) as [->|HRne];
      [exists S; split_and!; [|apply rtc_refl|done|right; intros f Hf; left;
        destruct (frames_decidable f S Hf Hs) as [|Hno]; [done|]; exfalso; by apply (elem_of_nil f), Hiff]|]).
  - done.
  - destruct R; [done|cbn in Hfuel; lia].
  - by rewrite orb_true_r.
  - rewrite (bool_decide_eq_false_2 (length R = 0%nat)) by (by destruct R). rewrite orb_false_r.
    unfold Zlen at 1. rewrite length_fmap. fold (Zlen S). destruct (Z.leb_spec maximum (Zlen S)).
    { exists S. split_and!; [done|apply rtc_refl|done|by left]. }
    rewrite (filter_res_spec _ (λ f, far f S)) by (intros f _; by apply far_enough_spec).
    destruct (List.filter (λ f, far f S) R) as [|f l] eqn:E.
    { exists S. split_and!; [done|apply rtc_refl|done|]. right. intros f Hf.
      destruct (frames_decidable f S Hf Hs) as [|Hno]; [by left|]. right. apply far_false. apply not_true_iff_false. intros Hfar.
      apply (elem_of_nil f). rewrite <-E. apply (elem_of_bfilter (λ f, far f S)). by rewrite Hiff. }
    assert (Hel : ∀ g, g ∈ f :: l ↔ g ∈ R ∧ far g S = true) by (intros g; rewrite <-E; apply (elem_of_bfilter (λ f, far f S))).
    destruct (farthest_spec S f l) as (c & -> & Hc & Hbest); [done|done| |].
    { apply Forall_forall. intros g Hg. rewrite Forall_forall in Htimed. apply Htimed, HR. by apply (Hel g). }
    apply Hel in Hc as [HcR Hcfar]. destruct (proj1 (Hiff c) HcR) as [Hco HcS].
    assert (Hsame : ∀ g, g ∈ R → str_eqb (frame_id g) (frame_id c) = true → g = c).
    { intros g Hg Heq%str_eqb_eq. pose proof (Hid g (HR _ Hg)) as H1. pose proof (Hid c Hco) as H2. rewrite Heq in H1. congruence. }
    destruct (IH (List.filter (λ g, negb (str_eqb (frame_id g) (frame_id c))) R) (S ++ [c])) as (S' & Hfill & Hgr & Hm & Hall).
    + enough (length (List.filter (λ g, negb (str_eqb (frame_id g) (frame_id c))) R) < length R)%nat by lia.
      destruct (list_elem_of_split R c HcR) as (l1 & l2 & ->). rewrite List.filter_app. cbn [List.filter].
      rewrite (proj2 (str_eqb_eq _ _) eq_refl). cbn [negb]. rewrite !length_app. cbn [length].
      pose proof (List.filter_length_le (λ g, negb (str_eqb (frame_id g) (frame_id c))) l1).
      pose proof (List.filter_length_le (λ g, negb (str_eqb (frame_id g) (frame_id c))) l2). lia.
    + by apply bfilter_NoDup.
    + intros g [Hg _]%elem_of_bfilter. by apply HR.
    + by destruct S.
    + intros g [Hg| ->%list_elem_of_singleton]%elem_of_app; [by apply Hs|done].
    + apply NoDup_app. split_and!; [done| |apply NoDup_singleton]. intros g Hg ->%list_elem_of_singleton. done.
    + intros g. rewrite elem_of_bfilter, Hiff, elem_of_app, list_elem_of_singleton, negb_true_iff. split.
      * intros [[Hg HgS] Hneq]. split; [done|]. intros [?| ->]; [done|]. apply not_true_iff_false in Hneq.
        apply Hneq. by apply str_eqb_eq.
      * intros [Hg Hn]. split; [tauto|]. apply not_true_iff_false. intros Heq. apply Hn. right. apply Hsame; [|done].
        apply Hiff. tauto.
    + unfold Zlen in *. rewrite length_app. cbn. lia.
    + rewrite fmap_app in Hfill. exists S'. split_and!; [done| |done|done]. eapply rtc_l; [|exact Hgr].
      apply grow_add; [done..|]. intros g Hg HgS Hgf. apply Hbest, Hel. by rewrite Hiff.
Qed.
End selection.

(** ** The sampler *)

Definition valid_config (frames : list TemporalVideoFrame) (maximum : Z) (interval threshold : float) : Prop :=
  1 <= maximum <= 768 ∧ Zlen frames <= 1000000 ∧ is_finite interval = true ∧ fltb interval zero = false ∧
  is_finite threshold = true ∧ fleb zero threshold = true ∧ fleb threshold (of_Z 1) = true.
(** The frames that are always chosen: the first, and the last when two are asked for. *)
Definition endpoints (ordered : list TemporalVideoFrame) (maximum : Z) : list TemporalVideoFrame :=
  match ordered with
  | [] => []
  | f :: _ => let g := List.last ordered f in f :: (if (1 <? maximum) && negb (str_eqb (frame_id g) (frame_id f)) then [g] else [])
  end.

Lemma last_elem_of {A} (x : A) l : List.last (x :: l) x ∈ x :: l.
Proof.
  destruct l as [|y l]; [left|]. right. change (List.last (x :: y :: l) x) with (List.last (y :: l) x).
  rewrite (app_removelast_last x (l := y :: l)) at 2 by done. apply elem_of_app. right. left.
Qed.
Lemma interior_elem (x : TemporalVideoFrame) l f : f ∈ x :: l → f = x ∨ f ∈ interior (x :: l) ∨ f = List.last (x :: l) x.
Proof.
  intros [->|Hf]%elem_of_cons; [by left|]. right. unfold interior. cbn [tail].
  assert (Hl : l ≠ []) by (intros ->; by apply elem_of_nil in Hf).
  rewrite (app_removelast_last x Hl) in Hf. apply elem_of_app in Hf as [Hf| ->%list_elem_of_singleton]; [by left|].
  right. by destruct l.
Qed.
Lemma interior_sub (x : TemporalVideoFrame) l f : f ∈ interior (x :: l) → f ∈ x :: l.
Proof.
  unfold interior. cbn [tail]. intros Hf. right. destruct (decide (length l = 0%nat)) as [E|E]; [by destruct l|].
  rewrite (app_removelast_last x); [|by destruct l]. apply elem_of_app. by left.
Qed.
Lemma interior_fresh (x : TemporalVideoFrame) l maximum : NoDup (x :: l) → NoDup (interior (x :: l)) ∧
  ∀ f, f ∈ interior (x :: l) → f ∉ endpoints (x :: l) maximum.
Proof.
  intros [Hx Hl]%NoDup_cons. unfold interior. cbn [tail]. destruct (decide (length l = 0%nat)) as [E|E].
  { destruct l; [|done]. split; [constructor|]. intros f Hf. by apply elem_of_nil in Hf. }
  assert (Hne : l ≠ []) by (by destruct l). rewrite (app_removelast_last x Hne) in Hl. apply NoDup_app in Hl as (H1 & H2 & _).
  split; [done|]. intros f Hf Hin. unfold endpoints in Hin. cbv zeta in Hin. apply elem_of_cons in Hin as [->|Hin].
  - apply Hx. rewrite (app_removelast_last x Hne). apply elem_of_app. by left.
  - destruct (_ && _); [|by apply elem_of_nil in Hin]. apply list_elem_of_singleton in Hin as ->. apply (H2 _ Hf).
    replace (List.last (x :: l) x) with (List.last l x) by (by destruct l). left.
Qed.


Lemma endpoints_NoDup ordered maximum : NoDup (endpoints ordered maximum).
Proof.
  unfold endpoints. destruct ordered as [|f l]; [constructor|]. cbv zeta. destruct (_ && _) eqn:E; [|apply NoDup_singleton].
  apply NoDup_cons. split; [|apply NoDup_singleton]. intros Heq%list_elem_of_singleton. rewrite <-Heq in E.
  unfold str_eqb in E. rewrite bool_decide_eq_true_2 in E by done. by rewrite andb_false_r in E.
Qed.
Lemma endpoints_length f l maximum : 1 <= maximum → Zlen (endpoints (f :: l) maximum) <= maximum.
Proof. intros. unfold endpoints, Zlen. cbv zeta. destruct (Z.ltb_spec 1 maximum); cbn [andb]; [destruct (negb _)|]; cbn; lia. Qed.
(** When two frames are asked for, the last one is always chosen. *)
Lemma last_endpoint f l maximum : NoDup (frame_id <$> f :: l) → 1 < maximum → List.last (f :: l) f ∈ endpoints (f :: l) maximum.
Proof.
  intros Hnd Hm. unfold endpoints. cbv zeta. rewrite (proj2 (Z.ltb_lt _ _) Hm). cbn [andb].
  destruct (str_eqb _ _) eqn:E; cbn [negb]; [|right; left]. apply str_eqb_eq in E.
  destruct l as [|g l]; [left|]. exfalso. rewrite fmap_cons in Hnd. apply NoDup_cons in Hnd as [Hno _]. apply Hno. rewrite <-E.
  apply list_elem_of_fmap_2. change (List.last (f :: g :: l) f) with (List.last (g :: l) f).
  rewrite (app_removelast_last f (l := g :: l)) at 2 by done. apply elem_of_app. right. left.
Qed.

Lemma sample_spec frames maximum interval threshold :
  Forall (λ f, frame_check f = Ok ()) frames → valid_config frames maximum interval threshold → NoDup (frame_id <$> frames) →
  ∃ r ordered S1 S2, sample_temporal_frames frames maximum interval threshold = Ok r ∧
    ordered = sorted_with time_cmp frames ∧ Forall timed ordered ∧ endpoints ordered maximum ⊆ ordered ∧
    rtc (grow ordered interval (λ _ f, salient threshold f = true)) (endpoints ordered maximum) S1 ∧
    rtc (grow ordered interval (farthest_first ordered interval)) S1 S2 ∧ NoDup S2 ∧ S2 ⊆ ordered ∧ Zlen S2 <= maximum ∧
    (Zlen S1 < maximum → ∀ f, f ∈ ordered → salient threshold f = true → f ∈ S1 ∨ near interval f S1) ∧
    (Zlen S2 < maximum → ∀ f, f ∈ ordered → f ∈ S2 ∨ near interval f S2) ∧
    let selected := List.filter (is_selected (frame_id <$> S2)) ordered in
    r = mkReport (Zlen ordered) selected (Zlen ordered - Zlen selected) (Zlen (List.filter keyframe selected))
          (Zlen (List.filter (λ f, fleb threshold (scene_change_score f)) selected)) maximum.
Proof.
  intros Hframes (Hmax & Hn & Hi1 & Hi2 & Ht1 & Ht2 & Ht3) Hnd. unfold sample_temporal_frames.
  rewrite Hi1, Hi2, Ht1, Ht2, Ht3, (bool_decide_eq_true_2 _ Hnd). unfold MAX_VIDEO_SAMPLE_FRAMES.
  assert (negb ((1 <=? maximum) && (maximum <=? 768)) || (Zlen frames >? 1000000) = false) as -> by lia. cbn [negb orb andb].
  pose proof (sorted_with_Permutation time_cmp frames) as Hperm. set (ordered := sorted_with time_cmp frames) in *. clearbody ordered.
  assert (Htm : Forall timed ordered).
  { rewrite Hperm. eapply Forall_impl; [exact Hframes|]. apply sampled_frame_timed. }
  rewrite <-Hperm in Hnd. clear Hframes Hperm frames Hn. destruct ordered as [|first rest] eqn:Eo.
  { eexists _, [], [], []. split; [done|]. split_and!; first [done|by intros ? f Hf%elem_of_nil|apply rtc_refl|unfold Zlen; cbn; lia|constructor]. }
  rewrite <-Eo in *. assert (Hne : ordered ≠ []) by (by rewrite Eo).
  set (by_id := list_to_map _). assert (Hid : ∀ f, f ∈ ordered → by_id !! frame_id f = Some f).
  { intros f Hf. apply elem_of_list_to_map_1.
    - rewrite <-list_fmap_compose. apply Hnd.
    - by apply (list_elem_of_fmap_2 (λ f, (frame_id f, f))). }
  assert (identifiers_of first (List.last ordered first) maximum = frame_id <$> endpoints ordered maximum) as ->.
  { rewrite Eo. unfold endpoints, identifiers_of. cbv zeta. by destruct (_ && _). }
  assert (Hends : endpoints ordered maximum ⊆ ordered).
  { rewrite Eo. unfold endpoints. cbv zeta. intros f [->|Hf]%elem_of_cons; [left|].
    destruct (_ && _); [|by apply elem_of_nil in Hf]. apply list_elem_of_singleton in Hf as ->. apply last_elem_of. }
  assert (HndF : NoDup ordered) by (by eapply NoDup_fmap_1).
  destruct (add_salient_spec ordered by_id maximum interval Hid (λ f, salient threshold f = true)
    (sorted_with salience_cmp (List.filter (salient threshold) (interior ordered))) (endpoints ordered maximum))
    as (S1 & -> & Hg1 & Hm1 & _ & Hall1).
  { rewrite sorted_with_Permutation. apply bfilter_NoDup. rewrite Eo in *. by apply (interior_fresh first rest maximum). }
  { intros f [Hf _]%elem_of_sorted_with%elem_of_bfilter. rewrite Eo in *. by apply interior_sub. }
  { by intros f [_ Hf]%elem_of_sorted_with%elem_of_bfilter. }
  { done. }
  { by apply endpoints_NoDup. }
  { intros f [Hf _]%elem_of_sorted_with%elem_of_bfilter. rewrite Eo in HndF, Hf |- *.
    exact (proj2 (interior_fresh first rest maximum HndF) f Hf). }
  { rewrite Eo. apply endpoints_length; lia. }
  destruct (grows_inv _ _ _ _ _ Hg1) as [HndS1 HS1]; [by apply endpoints_NoDup|done|].
  assert (Hsel : ∀ S f, S ⊆ ordered → f ∈ ordered → is_selected (frame_id <$> S) f = true ↔ f ∈ S).
  { intros S f HS Hf. unfold is_selected. rewrite bool_decide_eq_true. split; [by apply (ids_elem ordered by_id Hid)|].
    intros Hin. by apply list_elem_of_fmap_2. }
  destruct (fill_gaps_spec ordered by_id maximum interval Htm Hid (length (List.filter (λ f, negb (is_selected (frame_id <$> S1) f)) ordered))
    (List.filter (λ f, negb (is_selected (frame_id <$> S1) f)) ordered) S1) as (S2 & -> & Hg2 & Hm2 & Hall2); try done.
  { by apply bfilter_NoDup. }
  { by intros f [Hf _]%elem_of_bfilter. }
  { destruct (grows_prefix _ _ _ _ _ Hg1) as (a & ->). by rewrite Eo. }
  { intros f. rewrite elem_of_bfilter, negb_true_iff, <-not_true_iff_false. split; intros [Hf Hno]; (split; [done|]).
    - by rewrite <-(Hsel S1).
    - by rewrite (Hsel S1). }
  destruct (grows_inv _ _ _ _ _ Hg2) as [HndS2 HS2]; [done..|].
  eexists _, ordered, S1, S2. split; [reflexivity|]. split_and!; try done.
  - intros Hlt f Hf Hsal. destruct Hall1 as [?|Hall1]; [lia|]. rewrite Eo in Hf.
    destruct (grows_prefix _ _ _ _ _ Hg1) as (a & HS1'). destruct (interior_elem first rest f Hf) as [->|[Hin| ->]].
    + left. rewrite HS1', Eo. apply elem_of_app. left. left.
    + apply Hall1, elem_of_sorted_with, elem_of_bfilter. by rewrite Eo.
    + left. rewrite HS1'. apply elem_of_app. left. rewrite <-Eo. rewrite Eo. apply last_endpoint; [by rewrite <-Eo|].
      rewrite HS1', Eo in Hlt. unfold Zlen in Hlt. cbn in Hlt. lia.
  - intros Hlt. destruct Hall2 as [?|Hall2]; [lia|done].
Qed.

Lemma bfilter_sublist {A} (q : A → bool) (l : list A) : List.filter q l `sublist_of` l.
Proof. induction l as [|x l IH]; cbn; [done|]. destruct (q x); by constructor. Qed.
Lemma selected_elements (ordered S : list TemporalVideoFrame) :
  NoDup (frame_id <$> ordered) → S ⊆ ordered → NoDup S → List.filter (is_selected (frame_id <$> S)) ordered ≡ₚ S.
Proof.
  intros Hnd HS HndS. assert (NoDup ordered) by (by eapply NoDup_fmap_1). apply NoDup_Permutation; [by apply bfilter_NoDup|done|].
  intros f. rewrite elem_of_bfilter. unfold is_selected. rewrite bool_decide_eq_true. split.
  - intros [Hf (g & He & Hg)%list_elem_of_fmap]. assert (f = g) as ->; [|done].
    apply list_elem_of_lookup in Hf as [i Hi]. pose proof (HS _ Hg) as [j Hj]%list_elem_of_lookup.
    assert (i = j) as ->; [|congruence]. apply (NoDup_lookup (frame_id <$> ordered) i j (frame_id f) Hnd); rewrite list_lookup_fmap.
    + by rewrite Hi.
    + by rewrite Hj, He.
  - intros Hf. split; [by apply HS|]. by apply list_elem_of_fmap_2.
Qed.

(** Sampling fails only for an invalid configuration or repeated identifiers.
    Otherwise the report lists, in order of time, at most the maximum number of frames:
    the first frame, and the last when two are asked for; then salient frames; then
    frames that are each farthest from those chosen before.  Two chosen frames are at
    least the minimum interval apart unless they are the first and the last; when there
    was room left, every frame that is not chosen is too close to a chosen one, and a
    salient one is too close to a frame chosen before any frame that is not salient. *)
Theorem sampling_correct (frames : list TemporalVideoFrame) (maximum : Z) (interval threshold : float) :
  Forall (λ f, frame_check f = Ok ()) frames →
  match sample_temporal_frames frames maximum interval threshold with
  | Raise e => ¬ valid_config frames maximum interval threshold ∧ e = ValueError "invalid temporal sampling configuration" ∨
      ¬ NoDup (frame_id <$> frames) ∧ e = ValueError "temporal frame identifiers must be unique"
  | Ok r =>
      let ordered := sorted_with time_cmp frames in
      ordered ≡ₚ frames ∧ StronglySorted (λ f g, le_by time_cmp f g = true) ordered ∧
      ∃ S1 S2,
        rtc (grow ordered interval (λ _ f, salient threshold f = true)) (endpoints ordered maximum) S1 ∧
        rtc (grow ordered interval (farthest_first ordered interval)) S1 S2 ∧
        selected_frames r `sublist_of` ordered ∧ selected_frames r ≡ₚ S2 ∧ Zlen (selected_frames r) <= maximum ∧
        (∀ f g, f ∈ selected_frames r → g ∈ selected_frames r → f ≠ g →
           (f ∈ endpoints ordered maximum ∧ g ∈ endpoints ordered maximum) ∨ fleb interval (distance f g) = true) ∧
        (Zlen S1 < maximum → ∀ f, f ∈ frames → salient threshold f = true → f ∈ S1 ∨ near interval f S1) ∧
        (Zlen (selected_frames r) < maximum → ∀ f, f ∈ frames → f ∈ selected_frames r ∨ near interval f (selected_frames r)) ∧
        input_frames r = Zlen frames ∧ dropped_frames r = Zlen frames - Zlen (selected_frames r) ∧
        keyframes_selected r = Zlen (List.filter keyframe (selected_frames r)) ∧
        scene_changes_selected r = Zlen (List.filter (λ f, fleb threshold (scene_change_score f)) (selected_frames r))
  end.
Proof.
  intros Hframes. destruct (decide (valid_config frames maximum interval threshold ∧ NoDup (frame_id <$> frames))) as [[Hv Hnd]|Hbad].
  - destruct (sample_spec frames maximum interval threshold Hframes Hv Hnd)
      as (r & ordered & S1 & S2 & -> & Ho & Htm & Hends & Hg1 & Hg2 & HndS & HS & Hmax & Hsal & Hall & ->). cbn.
    rewrite <-Ho. assert (Hperm : ordered ≡ₚ frames) by (rewrite Ho; apply sorted_with_Permutation).
    assert (Hsel : List.filter (is_selected (frame_id <$> S2)) ordered ≡ₚ S2).
    { apply selected_elements; [by rewrite Hperm|done|done]. }
    assert (Hlen : Zlen (List.filter (is_selected (frame_id <$> S2)) ordered) = Zlen S2) by (unfold Zlen; by rewrite Hsel).
    assert (Hn : Zlen ordered = Zlen frames) by (unfold Zlen; by rewrite Hperm).
    split; [done|]. split.
    { rewrite Ho. apply (sorted_with_sorted timed); [apply _|]. by rewrite <-Hperm. }
    exists S1, S2. rewrite Hlen, Hn. split_and!; try done.
    + apply bfilter_sublist.
    + intros f g Hf Hg Hne. rewrite Hsel in Hf, Hg.
      destruct (grows_inv _ _ _ _ _ Hg1) as [_ HS1]; [apply endpoints_NoDup|done|].
      destruct (grows_far ordered interval Htm _ _ _ Hg2 HS1 f g Hf Hg Hne) as [[Hf1 Hg1']|?]; [|by right].
      apply (grows_far ordered interval Htm _ _ _ Hg1 Hends f g Hf1 Hg1' Hne).
    + intros Hlt f Hf. apply Hsal; [done|by rewrite Hperm].
    + intros Hlt f Hf. destruct (Hall Hlt f) as [?|Hnear]; [by rewrite Hperm|left; by rewrite Hsel|right].
      eapply near_more; [|exact Hnear]. intros g Hg. by rewrite Hsel.
  - unfold sample_temporal_frames. unfold MAX_VIDEO_SAMPLE_FRAMES. destruct (_ || _) eqn:E.
    + left. split; [|done]. intros (H1 & H2 & H3 & H4 & H5 & H6 & H7). rewrite H3, H4, H5, H6, H7 in E. cbn in E.
      rewrite orb_true_iff in E. lia.
    + destruct (bool_decide_reflect (NoDup (frame_id <$> frames))) as [Hn|Hn]; cbn [negb]; [|by right]. exfalso. apply Hbad. split; [|done].
      rewrite !orb_false_iff, !negb_false_iff, !andb_true_iff in E. unfold valid_config. split_and!; first [tauto|lia].
Qed.

End payload.
#[global] Arguments TemporalVideoFrame : clear implicits.
#[global] Arguments TemporalSamplingReport : clear implicits.

Definition demo_frame (i : string) (t : Z) (k : bool) : TemporalVideoFrame Z := mkFrame i (of_Z t) 0 k zero.
Definition demo_frames := [demo_frame "a" 0 false; demo_frame "d" 9 false; demo_frame "c" 7 true; demo_frame "b" 4 false; demo_frame "e" 10 false].
Example demo_samples : (λ r, (frame_id <$> selected_frames r)) <$> (match sample_temporal_frames demo_frames 4 (of_Z 2) (of_Z 1) with Ok r => Some r | _ => None end) = Some ["a"; "b"; "c"; "e"].
Proof. vm_compute. reflexivity. Qed.
Definition demo_report : TemporalSamplingReport Z :=
  match sample_temporal_frames demo_frames 4 (of_Z 2) (of_Z 1) with Ok r => r | Raise _ => mkReport 0 [] 0 0 0 0 end.
Lemma sampling_correct_witness :
  (frame_id <$> selected_frames demo_report) = ["a"; "b"; "c"; "e"] ∧ Zlen (selected_frames demo_report) <= 4.
Proof.
  split; [vm_compute; reflexivity|].
  assert (E : sample_temporal_frames demo_frames 4 (of_Z 2) (of_Z 1) = Ok demo_report) by (vm_compute; reflexivity).
  pose proof (sampling_correct demo_frames 4 (of_Z 2) (of_Z 1) ltac:(repeat constructor)) as H. rewrite E in H.
  destruct H as (_ & _ & S1 & S2 & _ & _ & _ & _ & Hm & _). exact Hm.
Defined.
End VideoSampling.
