(* ===== verification/NumericRouting.v ===== *)
(** * Eligibility and routes of numeric formats (numeric_routing.py)

    Which numeric conversions are qualified for a backend and operator, and the choice
    of the cheapest measured route within a memory ceiling. *)

From S2P Require Import Prelude Types PyOrder NumericLayout.

Module NumericRouting.
Import PyOrder.

Definition MAX_NUMERIC_CAPABILITIES : Z := 512.
Definition MAX_ROUTE_PROFILES : Z := 128.

Inductive NumericFormat :=
| NVFP4_E2M1 | MXFP4_E2M1 | MXFP6_E2M3 | MXFP6_E3M2 | MXFP8_E4M3 | MXFP8_E5M2 | FP8_E4M3FN | FP8_E5M2
| FP32 | BF16 | FP16 | INT8 | UINT8 | INT4 | UINT4 | INT2 | UINT2 | NF4.
#[export] Instance NumericFormat_eq_dec : EqDecision NumericFormat.
Proof. solve_decision. Defined.
Definition format_value (f : NumericFormat) : string :=
  match f with
  | NVFP4_E2M1 => "nvfp4_e2m1" | MXFP4_E2M1 => "mxfp4_e2m1" | MXFP6_E2M3 => "mxfp6_e2m3" | MXFP6_E3M2 => "mxfp6_e3m2"
  | MXFP8_E4M3 => "mxfp8_e4m3" | MXFP8_E5M2 => "mxfp8_e5m2" | FP8_E4M3FN => "fp8_e4m3fn" | FP8_E5M2 => "fp8_e5m2"
  | FP32 => "fp32" | BF16 => "bf16" | FP16 => "fp16" | INT8 => "int8" | UINT8 => "uint8" | INT4 => "int4"
  | UINT4 => "uint4" | INT2 => "int2" | UINT2 => "uint2" | NF4 => "nf4"
  end.
Definition all_formats : list NumericFormat :=
  [NVFP4_E2M1; MXFP4_E2M1; MXFP6_E2M3; MXFP6_E3M2; MXFP8_E4M3; MXFP8_E5M2; FP8_E4M3FN; FP8_E5M2; FP32; BF16; FP16; INT8;
   UINT8; INT4; UINT4; INT2; UINT2; NF4].
(** [NumericFormat(value)] *)
Definition format_of_value (s : string) : option NumericFormat := List.find (λ f, str_eqb (format_value f) s) all_formats.
Lemma format_of_value_spec s f : format_of_value s = Some f ↔ format_value f = s.
Proof.
  unfold format_of_value. split.
  - intros [_ H]%find_some. by apply bool_decide_eq_true in H.
  - intros <-. by destruct f.
Qed.

Inductive NumericTensorRole := WEIGHT | ACTIVATION | KV_STATE | RECURRENT_STATE | EXPERT | VISION | AUDIO | DIFFUSION.
#[export] Instance NumericTensorRole_eq_dec : EqDecision NumericTensorRole.
Proof. solve_decision. Defined.
Inductive NumericRouteStrategy := LOAD_CONVERT | FIRST_USE_CONVERT | CACHED_CONVERT | FUSED_EVERY_USE.
#[export] Instance NumericRouteStrategy_eq_dec : EqDecision NumericRouteStrategy.
Proof. solve_decision. Defined.
Definition strategy_value (s : NumericRouteStrategy) : string :=
  match s with
  | LOAD_CONVERT => "load_convert" | FIRST_USE_CONVERT => "first_use_convert"
  | CACHED_CONVERT => "cached_convert" | FUSED_EVERY_USE => "fused_every_use"
  end.

(** [_digest] *)
Definition digest (value : string) : bool :=
  (str_len value =? 64)
  && forallb (λ c, existsb (Ascii.eqb c) (String.list_ascii_of_string "0123456789abcdef")) (String.list_ascii_of_string value).

Record NumericCapability := mkCapability {
  source_format : NumericFormat;
  compute_format : NumericFormat;
  tensor_role : NumericTensorRole;
  backend : ExecutionBackend;
  operator : string;
  minimum_elements : Z;
  maximum_elements : Z;
  recipe_id : string;
  evidence_id : string;
  qualified : bool;
}.
#[export] Instance NumericCapability_eq_dec : EqDecision NumericCapability.
Proof. solve_decision. Defined.
(** [NumericCapability.__post_init__] *)
Definition capability_check (c : NumericCapability) : res exn () :=
  if str_eqb (operator c) "" || (str_len (operator c) >? 128)
     || negb ((1 <=? minimum_elements c) && (minimum_elements c <=? maximum_elements c) && (maximum_elements c <=? 2 ^ 40))
     || negb (NumericLayout.identifier (recipe_id c)) || negb (digest (evidence_id c))
  then Raise (ValueError "invalid numeric capability") else Ok ().

Record NumericEligibilityRequest := mkRequest {
  r_source_format : NumericFormat;
  r_compute_format : NumericFormat;
  r_tensor_role : NumericTensorRole;
  r_backend : ExecutionBackend;
  r_operator : string;
  elements : Z;
  r_recipe_id : string;
}.
(** [NumericEligibilityRequest.__post_init__] *)
Definition request_check (r : NumericEligibilityRequest) : res exn () :=
  if str_eqb (r_operator r) "" || (str_len (r_operator r) >? 128) || negb ((1 <=? elements r) && (elements r <=? 2 ^ 40))
     || negb (NumericLayout.identifier (r_recipe_id r))
  then Raise (ValueError "invalid numeric eligibility request") else Ok ().

Record NumericEligibilityDecision := mkDecision {
  eligible : bool;
  reason : string;
  d_capability_id : option string;
  d_evidence_id : option string;
}.

(** The capability is for the request. *)
Definition matches (r : NumericEligibilityRequest) (c : NumericCapability) : bool :=
  bool_decide (source_format c = r_source_format r) && bool_decide (compute_format c = r_compute_format r)
  && bool_decide (tensor_role c = r_tensor_role r) && bool_decide (backend c = r_backend r)
  && str_eqb (operator c) (r_operator r) && str_eqb (recipe_id c) (r_recipe_id r)
  && (minimum_elements c <=? elements r) && (elements r <=? maximum_elements c).

Record NumericRouteProfile := mkProfile {
  p_capability_id : string;
  phase : WorkloadPhase;
  strategy : NumericRouteStrategy;
  conversion_nanoseconds : Z;
  synchronization_nanoseconds : Z;
  compute_nanoseconds : Z;
  peak_memory_bytes : Z;
  amortized_uses : Z;
  output_digest : string;
}.
(** [NumericRouteProfile.__post_init__] *)
Definition profile_check (p : NumericRouteProfile) : res exn () :=
  if negb (digest (p_capability_id p)) || negb (digest (output_digest p))
     || (Z.min (Z.min (conversion_nanoseconds p) (synchronization_nanoseconds p)) (compute_nanoseconds p) <? 0)
     || (compute_nanoseconds p =? 0) || negb ((0 <=? peak_memory_bytes p) && (peak_memory_bytes p <=? 2 ^ 50))
     || negb ((1 <=? amortized_uses p) && (amortized_uses p <=? 1000000))
  then Raise (ValueError "invalid numeric route profile") else Ok ().
(** The time all uses take together. *)
Definition total_nanoseconds (p : NumericRouteProfile) : Z :=
  let one_time := conversion_nanoseconds p in
  let one_time := if bool_decide (strategy p = FUSED_EVERY_USE) then one_time * amortized_uses p else one_time in
  one_time + synchronization_nanoseconds p + compute_nanoseconds p * amortized_uses p.
(** [amortized_nanoseconds] *)
Definition amortized_nanoseconds (p : NumericRouteProfile) : Z :=
  (total_nanoseconds p + amortized_uses p - 1) / amortized_uses p.

Record NumericRouteDecision := mkRoute {
  route_strategy : NumericRouteStrategy;
  route_nanoseconds : Z;
  route_memory : Z;
}.
Definition route_cmp : NumericRouteProfile → NumericRouteProfile → comparison :=
  cmp_then (cmp_by amortized_nanoseconds Z.compare)
    (cmp_then (cmp_by peak_memory_bytes Z.compare) (cmp_by (λ p, strategy_value (strategy p)) String.compare)).
#[export] Instance route_comparison : Comparison everything route_cmp.
Proof. unfold route_cmp. apply _. Qed.
Definition route_matches (capability_id : string) (ph : WorkloadPhase) (ceiling : Z) (p : NumericRouteProfile) : bool :=
  str_eqb (p_capability_id p) capability_id && bool_decide (phase p = ph) && (peak_memory_bytes p <=? ceiling).

(** [choose_numeric_route] *)
Definition choose_numeric_route (profiles : list NumericRouteProfile) (capability_id : string) (ph : WorkloadPhase)
    (memory_ceiling_bytes : Z) : res exn NumericRouteDecision :=
  if bool_decide (profiles = []) || (Zlen profiles >? MAX_ROUTE_PROFILES) || negb (digest capability_id)
     || negb ((1 <=? memory_ceiling_bytes) && (memory_ceiling_bytes <=? 2 ^ 50))
  then Raise (ValueError "invalid numeric route selection")
  else match List.filter (route_matches capability_id ph memory_ceiling_bytes) profiles with
       | [] => Raise (ValueError "no qualified numeric route within memory ceiling")
       | p :: rest =>
           if negb (Z.of_nat (size (list_to_set (output_digest <$> p :: rest) : gset string)) =? 1)
           then Raise (ValueError "numeric route output mismatch")
           else let selected := min_with route_cmp p rest in
                Ok (mkRoute (strategy selected) (amortized_nanoseconds selected) (peak_memory_bytes selected))
       end.

Section capability_digest.
(** SHA-256 of the capability's fields in JSON. *)
Context (capability_id : NumericCapability → string).

(** [NumericEligibilityMatrix.__init__]; the matrix is its capabilities. *)
Definition new_matrix (capabilities : list NumericCapability) : res exn (list NumericCapability) :=
  if bool_decide (capabilities = []) || (Zlen capabilities >? MAX_NUMERIC_CAPABILITIES)
     || negb (Z.of_nat (size (list_to_set (capability_id <$> capabilities) : gset string)) =? Zlen capabilities)
  then Raise (ValueError "invalid numeric capability matrix") else Ok capabilities.
(** [NumericEligibilityMatrix.decide] *)
Definition decide_request (capabilities : list NumericCapability) (r : NumericEligibilityRequest) : NumericEligibilityDecision :=
  match List.filter (matches r) capabilities with
  | [] => mkDecision false "unsupported_recipe" None None
  | [c] => if qualified c then mkDecision true "qualified" (Some (capability_id c)) (Some (evidence_id c))
           else mkDecision false "capability_not_qualified" (Some (capability_id c)) (Some (evidence_id c))
  | _ => mkDecision false "ambiguous_capability" None None
  end.

(** ** Eligibility *)

Lemma bfilter_one {A} (q : A → bool) l x : List.filter q l = [x] ↔
  ∃ l1 l2, l = l1 ++ x :: l2 ∧ q x = true ∧ ∀ y, y ∈ l1 ++ l2 → q y = false.
Proof.
  split.
  - induction l as [|y l IH]; cbn; [done|]. destruct (q y) eqn:E.
    + intros [= -> Hl]. exists [], l. split_and!; [done|done|]. intros z Hz. apply not_true_iff_false. intros Hq.
      apply (elem_of_nil z). rewrite <-Hl. apply list_elem_of_In, filter_In. split; [by apply list_elem_of_In|done].
    + intros Hl. destruct (IH Hl) as (l1 & l2 & -> & Hx & Hno). exists (y :: l1), l2. split_and!; [done|done|].
      intros z [->|Hz]%elem_of_cons; [done|by apply Hno].
  - intros (l1 & l2 & -> & Hx & Hno). rewrite List.filter_app. cbn. rewrite Hx.
    assert (Hnil : ∀ k, (∀ y, y ∈ k → q y = false) → List.filter q k = []).
    { induction k as [|y k IHk]; intros Hk; cbn; [done|]. rewrite Hk by left. apply IHk. intros z Hz. apply Hk. by right. }
    rewrite !Hnil; [done|..]; intros y Hy; apply Hno, elem_of_app; auto.
Qed.

(** [c] is the only capability for the request. *)
Definition only_match (capabilities : list NumericCapability) (r : NumericEligibilityRequest) (c : NumericCapability) : Prop :=
  ∃ l1 l2, capabilities = l1 ++ c :: l2 ∧ matches r c = true ∧ ∀ c', c' ∈ l1 ++ l2 → matches r c' = false.

(** A request is eligible exactly when one capability of the matrix is for it and
    that one is qualified; a decision names a capability and its evidence exactly when
    it is the only one for the request. *)
Theorem eligibility_fail_closed (capabilities m : list NumericCapability) (r : NumericEligibilityRequest) :
  new_matrix capabilities = Ok m →
  (eligible (decide_request m r) = true ↔ ∃ c, only_match capabilities r c ∧ qualified c = true) ∧
  (∀ i, d_capability_id (decide_request m r) = Some i ↔ ∃ c, only_match capabilities r c ∧ i = capability_id c) ∧
  (∀ e, d_evidence_id (decide_request m r) = Some e ↔ ∃ c, only_match capabilities r c ∧ e = evidence_id c).
Proof.
  unfold new_matrix. destruct (_ || _); [done|]. intros [= <-]. unfold decide_request.
  assert (Hiff : ∀ c, only_match capabilities r c ↔ List.filter (matches r) capabilities = [c]).
  { intros c. symmetry. apply bfilter_one. }
  setoid_rewrite Hiff. clear Hiff.
  destruct (List.filter (matches r) capabilities) as [|c [|c2 rest]]; [| |].
  - cbn. split_and!; naive_solver.
  - destruct (qualified c) eqn:Eq; cbn; split_and!; naive_solver.
  - cbn. split_and!; naive_solver.
Qed.
End capability_digest.

(** ** Routes *)

Lemma amortized_spec p : 1 <= amortized_uses p →
  (amortized_nanoseconds p - 1) * amortized_uses p < total_nanoseconds p <= amortized_nanoseconds p * amortized_uses p.
Proof.
  intros H. unfold amortized_nanoseconds. set (t := total_nanoseconds p). set (u := amortized_uses p) in *.
  pose proof (Z.div_mod (t + u - 1) u ltac:(lia)) as Hd. pose proof (Z.mod_pos_bound (t + u - 1) u ltac:(lia)). nia.
Qed.
Lemma one_digest (l : list string) : Z.of_nat (size (list_to_set l : gset string)) = 1 → ∀ x y, x ∈ l → y ∈ l → x = y.
Proof.
  intros H x y Hx Hy. assert (Hs : size (list_to_set l : gset string) = 1%nat) by lia.
  by apply (size_singleton_inv (list_to_set l : gset string)); [|apply elem_of_list_to_set..].
Qed.

(** A route is refused only for an invalid request, when no profile of the
    capability and phase fits the memory ceiling, or when those that fit disagree on
    the output; the route chosen is one of these profiles, and none of them is faster
    per use, or as fast with less memory; the time per use, rounded up, covers the
    measured total. *)
Theorem route_cheapest (profiles : list NumericRouteProfile) (capability : string) (ph : WorkloadPhase) (ceiling : Z) :
  Forall (λ p, profile_check p = Ok ()) profiles →
  let fits p := p ∈ profiles ∧ p_capability_id p = capability ∧ phase p = ph ∧ peak_memory_bytes p <= ceiling in
  match choose_numeric_route profiles capability ph ceiling with
  | Ok d =>
      ∃ p, fits p ∧ d = mkRoute (strategy p) (amortized_nanoseconds p) (peak_memory_bytes p) ∧
        (∀ q, fits q → output_digest q = output_digest p ∧
           (amortized_nanoseconds p < amortized_nanoseconds q ∨
            amortized_nanoseconds p = amortized_nanoseconds q ∧ peak_memory_bytes p <= peak_memory_bytes q)) ∧
        (route_nanoseconds d - 1) * amortized_uses p < total_nanoseconds p <= route_nanoseconds d * amortized_uses p
  | Raise e =>
      e = ValueError "invalid numeric route selection" ∨
      e = ValueError "no qualified numeric route within memory ceiling" ∧ (∀ p, ¬ fits p) ∨
      e = ValueError "numeric route output mismatch" ∧ ∃ p q, fits p ∧ fits q ∧ output_digest p ≠ output_digest q
  end.
Proof.
  intros Hok fits. unfold choose_numeric_route. destruct (_ || _); [by left|].
  assert (Hfits : ∀ p, p ∈ List.filter (route_matches capability ph ceiling) profiles ↔ fits p).
  { intros p. rewrite list_elem_of_In, filter_In, <-list_elem_of_In. unfold route_matches, fits, str_eqb.
    rewrite !andb_true_iff, !bool_decide_eq_true, Z.leb_le. tauto. }
  destruct (List.filter _ profiles) as [|p rest]; [right; left; split; [done|]; intros p Hp%Hfits; by apply elem_of_nil in Hp|].
  destruct (Z.eqb_spec (Z.of_nat (size (list_to_set (output_digest <$> p :: rest) : gset string))) 1) as [E|E]; cbn [negb].
  - destruct (min_with_spec everything route_cmp p rest) as [Hin Hmin]; [by apply Forall_true|].
    assert (Hsize : 1 <= amortized_uses (min_with route_cmp p rest)).
    { apply Hfits in Hin as [Hin _]. rewrite Forall_forall in Hok. specialize (Hok _ Hin). unfold profile_check in Hok.
      destruct (_ || _) eqn:Ep in Hok; [done|]. rewrite !orb_false_iff, !negb_false_iff in Ep. lia. }
    exists (min_with route_cmp p rest). split_and!; [by apply Hfits|done| |..].
    + intros q Hq%Hfits. split.
      * apply (one_digest _ E); by apply list_elem_of_fmap_2.
      * specialize (Hmin q Hq). revert Hmin. generalize (min_with route_cmp p rest). intros m. unfold le_by, route_cmp, cmp_then, cmp_by.
        destruct (Z.compare_spec (amortized_nanoseconds m) (amortized_nanoseconds q)); [|intros _; lia|done].
        destruct (Z.compare_spec (peak_memory_bytes m) (peak_memory_bytes q)); [intros _; lia|intros _; lia|done].
    + by apply amortized_spec.
    + by apply amortized_spec.
  - right. right. split; [done|]. destruct (Forall_Exists_dec (λ q, output_digest q = output_digest p) (λ q, output_digest q ≠ output_digest p)
      (λ q, decide _) rest) as [Hall|Hex].
    + exfalso. apply E. assert (list_to_set (output_digest <$> p :: rest) ≡ ({[output_digest p]} : gset string)) as ->;
        [|by rewrite size_singleton]. intros x. rewrite elem_of_list_to_set, elem_of_singleton, fmap_cons, elem_of_cons. split; [|auto].
      rewrite Forall_forall in Hall. intros [?|(q & -> & Hq)%list_elem_of_fmap]; [done|by apply Hall].
    + apply Exists_exists in Hex as (q & Hq & Hne). exists p, q. split_and!; [apply Hfits; left|apply Hfits; by right|done].
Qed.

Definition demo_digest : string := str_join "" (repeat "0123456789abcdef" 4).
Definition demo_profile (s : NumericRouteStrategy) (conversion compute peak : Z) : NumericRouteProfile :=
  mkProfile demo_digest DECODE s conversion 5 compute peak 10 demo_digest.
Definition demo_profiles : list NumericRouteProfile :=
  [demo_profile FUSED_EVERY_USE 30 100 4096; demo_profile CACHED_CONVERT 300 100 8192; demo_profile LOAD_CONVERT 10 10 (2 ^ 40)].
Lemma route_cheapest_witness :
  choose_numeric_route demo_profiles demo_digest DECODE 10000 = Ok (mkRoute FUSED_EVERY_USE 131 4096) ∧
  (∃ p, p ∈ demo_profiles ∧ mkRoute FUSED_EVERY_USE 131 4096 = mkRoute (strategy p) (amortized_nanoseconds p) (peak_memory_bytes p)).
Proof.
  assert (E : choose_numeric_route demo_profiles demo_digest DECODE 10000 = Ok (mkRoute FUSED_EVERY_USE 131 4096)) by (vm_compute; reflexivity).
  split; [exact E|].
  pose proof (route_cheapest demo_profiles demo_digest DECODE 10000 ltac:(repeat constructor)) as H. cbv zeta in H. rewrite E in H.
  destruct H as (p & [Hp _] & Hd & _). exists p. split; [exact Hp|exact Hd].
Defined.

Definition demo_capability (q : bool) (i : string) : NumericCapability :=
  mkCapability MXFP4_E2M1 FP16 WEIGHT NATIVE_METAL "matmul" 1 1024 i demo_digest q.
Definition demo_request (i : string) : NumericEligibilityRequest :=
  mkRequest MXFP4_E2M1 FP16 WEIGHT NATIVE_METAL "matmul" 64 i.
Lemma eligibility_fail_closed_witness :
  let m := [demo_capability true "a"; demo_capability false "b"] in
  new_matrix recipe_id m = Ok m ∧
  ∃ c, only_match m (demo_request "a") c ∧ qualified c = true.
Proof.
  cbv zeta. assert (E : new_matrix recipe_id [demo_capability true "a"; demo_capability false "b"]
    = Ok [demo_capability true "a"; demo_capability false "b"]) by (vm_compute; reflexivity).
  split; [exact E|]. apply (eligibility_fail_closed recipe_id _ _ (demo_request "a") E). vm_compute. reflexivity.
Defined.
End NumericRouting.
