(* ===== verification/NumericContainer.v ===== *)
(** * Metadata of numeric artifacts (numeric_container.py)

    The adapters that read the metadata of a safetensors, GGUF, MLX or Core ML artifact
    into one descriptor, and the declarative description of what they accept. *)

From S2P Require Import Prelude Types NumericLayout NumericRouting.

Module NumericContainer.
Import NumericRouting.

Inductive NumericContainer := SAFETENSORS | GGUF | MLX | COREML.
#[export] Instance NumericContainer_eq_dec : EqDecision NumericContainer.
Proof. solve_decision. Defined.
Inductive QuantizationRecipe := NONE | GPTQ | AWQ | MLX_AFFINE | COREML_LINEAR | GGUF_Q4_0 | GGUF_Q4_K | GGUF_Q8_0.
#[export] Instance QuantizationRecipe_eq_dec : EqDecision QuantizationRecipe.
Proof. solve_decision. Defined.
Definition recipe_value (r : QuantizationRecipe) : string :=
  match r with
  | NONE => "none" | GPTQ => "gptq" | AWQ => "awq" | MLX_AFFINE => "mlx_affine" | COREML_LINEAR => "coreml_linear"
  | GGUF_Q4_0 => "gguf_q4_0" | GGUF_Q4_K => "gguf_q4_k" | GGUF_Q8_0 => "gguf_q8_0"
  end.

(** The values metadata holds: text, integers, and other values that can or cannot be
    hashed ([True], [1.5], [None]; lists and dictionaries). *)
Inductive Value := Text (s : string) | Int (n : Z) | Other (hashable : bool).
#[export] Instance Value_eq_dec : EqDecision Value.
Proof. solve_decision. Defined.
Abbreviation Metadata := (gmap string Value).

Record NumericArtifactDescriptor := mkDescriptor {
  container : NumericContainer;
  recipe : QuantizationRecipe;
  storage_format : NumericFormat;
  compute_format : NumericFormat;
  bits : Z;
  group_size : option Z;
  packing : string;
  exporter : string;
}.
(** [NumericArtifactDescriptor.__post_init__] *)
Definition new_descriptor (c : NumericContainer) (r : QuantizationRecipe) (s f : NumericFormat) (b : Z) (g : option Z)
    (p e : string) : res exn NumericArtifactDescriptor :=
  if bool_decide (b ∉ [2; 4; 8; 16; 32])
     || match g with None => false | Some n => negb ((1 <=? n) && (n <=? 2 ^ 20)) end
     || negb (NumericLayout.identifier p) || negb (NumericLayout.identifier e)
  then Raise (ValueError "invalid numeric artifact descriptor")
  else Ok (mkDescriptor c r s f b g p e).

(** [_format] *)
Definition aliases (s : string) : string :=
  if str_eqb s "float16" then "fp16" else if str_eqb s "bfloat16" then "bf16" else if str_eqb s "float32" then "fp32" else s.
Definition format (v : option Value) : res exn NumericFormat :=
  let unsupported := Raise (ValueError "unsupported numeric compute format") in
  match v with
  | Some (Text s) =>
      match format_of_value (aliases s) with
      | None => unsupported
      | Some f => if bool_decide (f ∈ [FP16; BF16; FP32]) then Ok f else unsupported
      end
  | _ => unsupported
  end.
(** [_group] *)
Definition group (v : option Value) : res exn Z :=
  match v with
  | Some (Int n) => if (1 <=? n) && (n <=? 2 ^ 20) then Ok n else Raise (ValueError "invalid numeric quantization group size")
  | _ => Raise (ValueError "invalid numeric quantization group size")
  end.
(** [_required_identifier] *)
Definition required_identifier (md : Metadata) (key : string) : res exn string :=
  match md !! key with
  | Some (Text s) => if NumericLayout.identifier s then Ok s else Raise (ValueError ("invalid numeric artifact " +:+ key))
  | _ => Raise (ValueError ("invalid numeric artifact " +:+ key))
  end.
Definition keys_are (md : Metadata) (keys : list string) : bool := bool_decide (dom md = list_to_set keys).
(** The integer formats by their width, for the widths allowed. *)
Definition width_format (b : Z) : NumericFormat := if b =? 2 then INT2 else if b =? 4 then INT4 else INT8.
Definition width_of (v : option Value) (allowed : list Z) (e : string) : res exn Z :=
  match v with
  | Some (Int b) => if bool_decide (b ∈ allowed) then Ok b else Raise (ValueError e)
  | _ => Raise (ValueError e)
  end.

(** The arguments of a constructor are evaluated in order; the first that raises wins. *)
Definition and_then {A B} (r : res exn A) (k : A → res exn B) : res exn B :=
  match r with Ok a => k a | Raise e => Raise e end.

(** [_gptq_awq] *)
Definition gptq_awq (c : NumericContainer) (md : Metadata) (r : QuantizationRecipe) : res exn NumericArtifactDescriptor :=
  if negb (bool_decide (c = SAFETENSORS))
     || negb (keys_are md ["quant_method"; "bits"; "group_size"; "packing"; "compute_dtype"; "exporter"])
  then Raise (ValueError "invalid GPTQ/AWQ metadata")
  else and_then (width_of (md !! "bits") [2; 4; 8] "unsupported GPTQ/AWQ bit width") (λ b,
       and_then (format (md !! "compute_dtype")) (λ f,
       and_then (group (md !! "group_size")) (λ g,
       and_then (required_identifier md "packing") (λ p,
       and_then (required_identifier md "exporter") (λ e,
       new_descriptor c r (width_format b) f b (Some g) p e))))).
(** [_mlx] *)
Definition mlx (md : Metadata) : res exn NumericArtifactDescriptor :=
  if negb (keys_are md ["quant_method"; "bits"; "group_size"; "compute_dtype"; "exporter"])
  then Raise (ValueError "invalid MLX affine metadata")
  else and_then (width_of (md !! "bits") [2; 4; 8] "unsupported MLX affine bit width") (λ b,
       and_then (format (md !! "compute_dtype")) (λ f,
       and_then (group (md !! "group_size")) (λ g,
       and_then (required_identifier md "exporter") (λ e,
       new_descriptor MLX MLX_AFFINE (width_format b) f b (Some g) "mlx_affine" e)))).
(** [_coreml] *)
Definition coreml (md : Metadata) : res exn NumericArtifactDescriptor :=
  if negb (keys_are md ["quant_method"; "bits"; "compute_dtype"; "exporter"])
  then Raise (ValueError "invalid Core ML linear metadata")
  else and_then (width_of (md !! "bits") [4; 8] "unsupported Core ML linear bit width") (λ b,
       and_then (format (md !! "compute_dtype")) (λ f,
       and_then (required_identifier md "exporter") (λ e,
       new_descriptor COREML COREML_LINEAR (width_format b) f b None "coreml_linear" e))).
(** The table of [_gguf]. *)
Definition ggml_types : list (string * (QuantizationRecipe * NumericFormat * Z * string)) :=
  [("Q4_0", (GGUF_Q4_0, INT4, 32, "gguf_q4_0")); ("Q4_K", (GGUF_Q4_K, INT4, 256, "gguf_q4_k"));
   ("Q8_0", (GGUF_Q8_0, INT8, 32, "gguf_q8_0"))].
(** [_gguf] *)
Definition gguf (md : Metadata) : res exn NumericArtifactDescriptor :=
  if negb (keys_are md ["ggml_type"; "compute_dtype"; "exporter"]) then Raise (ValueError "invalid GGUF metadata")
  else match md !! "ggml_type" with
       | Some (Text t) =>
           match List.find (λ p, str_eqb p.1 t) ggml_types with
           | None => Raise (ValueError "unsupported GGUF tensor type")
           | Some (_, (r, s, g, p)) =>
               and_then (format (md !! "compute_dtype")) (λ f,
               and_then (required_identifier md "exporter") (λ e,
               new_descriptor GGUF r s f (if bool_decide (s = INT4) then 4 else 8) (Some g) p e))
           end
       | _ => Raise (ValueError "unsupported GGUF tensor type")
       end.

Definition is_text (v : option Value) (s : string) : bool := bool_decide (v = Some (Text s)).
Definition float_bits (f : NumericFormat) : option Z :=
  match f with FP16 | BF16 => Some 16 | FP32 => Some 32 | _ => None end.
(** The branch for unquantized tensors. *)
Definition plain (c : NumericContainer) (md : Metadata) : res exn NumericArtifactDescriptor :=
  and_then (format (md !! "dtype")) (λ f,
  match float_bits f with
  | Some b =>
      if negb (keys_are md ["quant_method"; "dtype"; "exporter"])
      then Raise (ValueError "unsupported unquantized artifact metadata")
      else and_then (required_identifier md "exporter") (λ e, new_descriptor c NONE f f b None "native" e)
  | None => Raise (ValueError "unsupported unquantized artifact metadata")
  end).
(** [inspect_numeric_artifact_metadata]; testing an unhashable method for membership
    raises. *)
Definition inspect_numeric_artifact_metadata (c : NumericContainer) (md : Metadata) : res exn NumericArtifactDescriptor :=
  let method := md !! "quant_method" in
  if bool_decide (c = GGUF) then gguf md
  else match method with
  | Some (Other false) => Raise (TypeError "unhashable type")
  | _ =>
      if is_text method "gptq" then gptq_awq c md GPTQ
      else if is_text method "awq" then gptq_awq c md AWQ
      else if bool_decide (c = MLX) && is_text method "affine" then mlx md
      else if bool_decide (c = COREML) && is_text method "linear" then coreml md
      else if is_text method "none" then plain c md
      else Raise (ValueError "unsupported numeric artifact recipe")
  end.

(** ** What is accepted *)

Definition names (s : string) (f : NumericFormat) : Prop := f ∈ [FP16; BF16; FP32] ∧ aliases s = format_value f.
Definition is_identifier (s : string) : Prop := NumericLayout.identifier s = true.
Definition dict (l : list (string * Value)) : Metadata := list_to_map l.

Inductive describes : NumericContainer → Metadata → NumericArtifactDescriptor → Prop :=
| unquantized c t f b e : c ≠ GGUF → names t f → float_bits f = Some b → is_identifier e →
    describes c (dict [("quant_method", Text "none"); ("dtype", Text t); ("exporter", Text e)])
      (mkDescriptor c NONE f f b None "native" e)
| gptq_or_awq r b g p t f e : r ∈ [GPTQ; AWQ] → b ∈ [2; 4; 8] → 1 <= g <= 2 ^ 20 → is_identifier p → names t f → is_identifier e →
    describes SAFETENSORS
      (dict [("quant_method", Text (recipe_value r)); ("bits", Int b); ("group_size", Int g); ("packing", Text p);
             ("compute_dtype", Text t); ("exporter", Text e)])
      (mkDescriptor SAFETENSORS r (width_format b) f b (Some g) p e)
| mlx_affine b g t f e : b ∈ [2; 4; 8] → 1 <= g <= 2 ^ 20 → names t f → is_identifier e →
    describes MLX
      (dict [("quant_method", Text "affine"); ("bits", Int b); ("group_size", Int g); ("compute_dtype", Text t); ("exporter", Text e)])
      (mkDescriptor MLX MLX_AFFINE (width_format b) f b (Some g) "mlx_affine" e)
| coreml_linear b t f e : b ∈ [4; 8] → names t f → is_identifier e →
    describes COREML
      (dict [("quant_method", Text "linear"); ("bits", Int b); ("compute_dtype", Text t); ("exporter", Text e)])
      (mkDescriptor COREML COREML_LINEAR (width_format b) f b None "coreml_linear" e)
| gguf_tensor ty r s g p t f e : (ty, (r, s, g, p)) ∈ ggml_types → names t f → is_identifier e →
    describes GGUF (dict [("ggml_type", Text ty); ("compute_dtype", Text t); ("exporter", Text e)])
      (mkDescriptor GGUF r s f (if bool_decide (s = INT4) then 4 else 8) (Some g) p e).

(** ** The parts *)

Lemma and_then_Ok {A B} (r : res exn A) (k : A → res exn B) b : and_then r k = Ok b ↔ ∃ a, r = Ok a ∧ k a = Ok b.
Proof. destruct r; cbn; naive_solver. Qed.
Lemma format_Ok v f : format v = Ok f ↔ ∃ s, v = Some (Text s) ∧ names s f.
Proof.
  unfold format, names. split.
  - destruct v as [[s| |]|]; try done. destruct (format_of_value (aliases s)) as [f'|] eqn:E; [|done].
    destruct (bool_decide _) eqn:Eb; [|done]. breflect. intros [= <-]. exists s. split_and!; [done|done|].
    by apply format_of_value_spec in E.
  - intros (s & -> & Hf & Hs). symmetry in Hs. apply format_of_value_spec in Hs. rewrite Hs. by rewrite bool_decide_eq_true_2.
Qed.
Lemma group_Ok v g : group v = Ok g ↔ v = Some (Int g) ∧ 1 <= g <= 2 ^ 20.
Proof.
  unfold group. destruct v as [[|n|]|]; try naive_solver. destruct ((1 <=? n) && (n <=? 2 ^ 20)) eqn:E.
  - split; [intros [= <-]; split; [done|lia]|]. by intros [[= <-] _].
  - split; [done|]. intros [[= <-] H]. lia.
Qed.
Lemma required_Ok md k s : required_identifier md k = Ok s ↔ md !! k = Some (Text s) ∧ is_identifier s.
Proof.
  unfold required_identifier, is_identifier. destruct (md !! k) as [[t| |]|]; try naive_solver.
  destruct (NumericLayout.identifier t) eqn:E.
  - split; [by intros [= <-]|]. by intros [[= <-] _].
  - split; [done|]. intros [[= <-] H]. congruence.
Qed.
Lemma width_Ok v allowed e b : width_of v allowed e = Ok b ↔ v = Some (Int b) ∧ b ∈ allowed.
Proof.
  unfold width_of. destruct v as [[|n|]|]; try naive_solver. destruct (bool_decide _) eqn:E; breflect.
  - split; [by intros [= <-]|]. by intros [[= <-] _].
  - split; [done|]. by intros [[= <-] H].
Qed.
Lemma new_descriptor_Ok c r s f b g p e d :
  new_descriptor c r s f b g p e = Ok d ↔
    d = mkDescriptor c r s f b g p e ∧ b ∈ [2; 4; 8; 16; 32] ∧ (∀ n, g = Some n → 1 <= n <= 2 ^ 20) ∧ is_identifier p ∧ is_identifier e.
Proof.
  unfold new_descriptor, is_identifier. destruct (_ || _) eqn:E.
  - split; [done|]. intros (_ & Hb & Hg & Hp & He). exfalso. rewrite Hp, He, bool_decide_eq_false_2 in E by tauto.
    cbn in E. rewrite !orb_false_r in E. destruct g as [n|]; [|done]. specialize (Hg n eq_refl). lia.
  - rewrite !orb_false_iff, !negb_false_iff, bool_decide_eq_false in E. destruct E as [[[Hb Hg] Hp] He].
    split; [|by intros [-> _]]. intros [= <-]. split_and!; [done|by apply dec_stable| |done|done].
    intros n ->. lia.
Qed.

(** Metadata with exactly the keys of [l] and its values. *)
Lemma dict_eq md l : NoDup l.*1 → dom md = list_to_set l.*1 → Forall (λ p, md !! p.1 = Some p.2) l → md = dict l.
Proof.
  intros Hnd Hd Hall. apply map_eq. intros k. unfold dict. rewrite Forall_forall in Hall.
  destruct (decide (k ∈ l.*1)) as [Hk|Hk].
  - apply list_elem_of_fmap in Hk as ([k' v] & -> & Hin). rewrite (Hall _ Hin). symmetry. by apply elem_of_list_to_map_1.
  - rewrite not_elem_of_list_to_map_1 by done. apply not_elem_of_dom. rewrite Hd. by rewrite elem_of_list_to_set.
Qed.
Lemma keys_are_dict l keys : keys = l.*1 → keys_are (dict l) keys = true.
Proof. intros ->. unfold keys_are, dict. apply bool_decide_eq_true. apply dom_list_to_map_L. Qed.

Lemma float_bits_named s f : names s f → ∃ b, float_bits f = Some b ∧ b ∈ [2; 4; 8; 16; 32].
Proof.
  intros [Hf _]. rewrite !elem_of_cons in Hf. destruct Hf as [->|[->|[->|Hf]]]; [..|by apply elem_of_nil in Hf];
    (eexists; split; [done|]; rewrite !elem_of_cons; tauto).
Qed.
Lemma integer_bits b : b ∈ [2; 4; 8] → b ∈ [2; 4; 8; 16; 32].
Proof. rewrite !elem_of_cons. tauto. Qed.
Lemma gguf_row ty r s g p : (ty, (r, s, g, p)) ∈ ggml_types ↔ List.find (λ p, str_eqb p.1 ty) ggml_types = Some (ty, (r, s, g, p)).
Proof.
  split.
  - unfold ggml_types. intros H. repeat (apply elem_of_cons in H as [[= -> -> -> -> ->]|H]; [done|]). by apply elem_of_nil in H.
  - intros [H _]%find_some. by apply list_elem_of_In.
Qed.
Lemma gguf_row_valid ty r s g p : (ty, (r, s, g, p)) ∈ ggml_types →
  1 <= g <= 2 ^ 20 ∧ is_identifier p ∧ (if bool_decide (s = INT4) then 4 else 8) ∈ [2; 4; 8; 16; 32].
Proof.
  unfold ggml_types. intros H.
  repeat (apply elem_of_cons in H as [[= -> -> -> -> ->]|H]; [split_and!; [lia|lia|done|]; cbn; rewrite !elem_of_cons; tauto|]). by apply elem_of_nil in H.
Qed.

Lemma dict_lookup l k : dict l !! k = snd <$> List.find (λ p, str_eqb p.1 k) l.
Proof.
  induction l as [|[k' v] l IH]; [done|]. unfold dict in *. cbn [list_to_map foldr fst snd List.find]. unfold str_eqb at 1.
  destruct (bool_decide_reflect (k' = k)) as [->|Hne]; [by rewrite lookup_insert_eq|by rewrite lookup_insert_ne].
Qed.
Lemma is_text_Some a b : is_text (Some (Text a)) b = str_eqb a b.
Proof. unfold is_text, str_eqb. apply bool_decide_ext. naive_solver. Qed.
(** An entry of a dictionary written out, and comparisons of literals. *)
Ltac look := rewrite dict_lookup; reflexivity.
Ltac texts := rewrite ?is_text_Some;
  repeat match goal with |- context [str_eqb ?a ?b] => let v := eval vm_compute in (str_eqb a b) in change (str_eqb a b) with v end;
  cbn [andb orb negb].
(** Read one required entry. *)
Ltac read x H := apply and_then_Ok; exists x; split; [apply H; first [by rewrite dict_lookup|by eexists; split; [look|]]|].

(** Every description is read back. *)
Lemma described_read c md d : describes c md d → inspect_numeric_artifact_metadata c md = Ok d.
Proof.
  destruct 1 as [c t f b e Hc Ht Hb He|r b g p t f e Hr Hb Hg Hp Ht He|b g t f e Hb Hg Ht He|b t f e Hb Ht He|ty r s g p t f e Hrow Ht He];
    unfold inspect_numeric_artifact_metadata.
  - rewrite bool_decide_eq_false_2 by done.
    replace (dict _ !! "quant_method") with (Some (Text "none")) by (symmetry; look). cbv zeta. texts. rewrite !andb_false_r. unfold plain.
    read f format_Ok. rewrite Hb, keys_are_dict by done. cbn [negb]. read e required_Ok. apply new_descriptor_Ok.
    destruct (float_bits_named t f Ht) as (b' & Hb' & Hin). split_and!; [done|congruence|done|done|done].
  - rewrite bool_decide_eq_false_2 by done.
    replace (dict _ !! "quant_method") with (Some (Text (recipe_value r))) by (symmetry; look). cbv zeta.
    assert (Hread : gptq_awq SAFETENSORS (dict [("quant_method", Text (recipe_value r)); ("bits", Int b); ("group_size", Int g);
        ("packing", Text p); ("compute_dtype", Text t); ("exporter", Text e)]) r
      = Ok (mkDescriptor SAFETENSORS r (width_format b) f b (Some g) p e)).
    { unfold gptq_awq. rewrite keys_are_dict, bool_decide_eq_true_2 by done. cbn [negb orb].
      read b width_Ok. read f format_Ok. read g group_Ok. read p required_Ok. read e required_Ok. apply new_descriptor_Ok.
      split_and!; [done|by apply integer_bits|by intros n [= <-]|done|done]. }
    rewrite !elem_of_cons in Hr. destruct Hr as [->|[->|Hr]]; [..|by apply elem_of_nil in Hr]; cbn [recipe_value] in *; by texts.
  - replace (dict _ !! "quant_method") with (Some (Text "affine")) by (symmetry; look). rewrite bool_decide_eq_false_2 by done.
    cbv zeta. texts. rewrite bool_decide_eq_true_2 by done. cbn [andb]. unfold mlx. rewrite keys_are_dict by done. cbn [negb].
    read b width_Ok. read f format_Ok. read g group_Ok. read e required_Ok. apply new_descriptor_Ok.
    split_and!; [done|by apply integer_bits|by intros n [= <-]|done|done].
  - replace (dict _ !! "quant_method") with (Some (Text "linear")) by (symmetry; look). rewrite bool_decide_eq_false_2 by done.
    cbv zeta. texts. rewrite bool_decide_eq_false_2, bool_decide_eq_true_2 by done. cbn [andb]. unfold coreml.
    rewrite keys_are_dict by done. cbn [negb]. read b width_Ok. read f format_Ok. read e required_Ok. apply new_descriptor_Ok.
    split_and!; [done|apply integer_bits; by right|done|done|done].
  - rewrite bool_decide_eq_true_2 by done. unfold gguf. rewrite keys_are_dict by done. cbn [negb].
    replace (dict _ !! "ggml_type") with (Some (Text ty)) by (symmetry; look).
    destruct (gguf_row_valid _ _ _ _ _ Hrow) as (Hg & Hp & Hb). apply gguf_row in Hrow. rewrite Hrow.
    read f format_Ok. read e required_Ok. apply new_descriptor_Ok. split_and!; [done|done|by intros n [= <-]|done|done].
Qed.

(** Whatever is read has been described. *)
Lemma gptq_awq_described c md r d :
  gptq_awq c md r = Ok d → md !! "quant_method" = Some (Text (recipe_value r)) → r ∈ [GPTQ; AWQ] → describes c md d.
Proof.
  unfold gptq_awq. intros H Hm Hr. destruct (bool_decide _) eqn:Ec; [|done]. destruct (keys_are md _) eqn:Ek; [|done].
  apply bool_decide_eq_true in Ec as ->. apply bool_decide_eq_true in Ek. cbn [negb orb] in H.
  apply and_then_Ok in H as (b & [Hb Hbin]%width_Ok & H). apply and_then_Ok in H as (f & (t & Ht & Hn)%format_Ok & H).
  apply and_then_Ok in H as (g & [Hg Hgr]%group_Ok & H). apply and_then_Ok in H as (p & [Hp Hpi]%required_Ok & H).
  apply and_then_Ok in H as (e & [He Hei]%required_Ok & H). apply new_descriptor_Ok in H as (-> & _).
  rewrite (dict_eq md [("quant_method", Text (recipe_value r)); ("bits", Int b); ("group_size", Int g); ("packing", Text p);
             ("compute_dtype", Text t); ("exporter", Text e)]); [by apply gptq_or_awq|vm_compute; repeat constructor; set_solver|done|by repeat constructor].
Qed.
Lemma mlx_described md d : mlx md = Ok d → md !! "quant_method" = Some (Text "affine") → describes MLX md d.
Proof.
  unfold mlx. intros H Hm. destruct (keys_are md _) eqn:Ek; [|done]. apply bool_decide_eq_true in Ek. cbn [negb] in H.
  apply and_then_Ok in H as (b & [Hb Hbin]%width_Ok & H). apply and_then_Ok in H as (f & (t & Ht & Hn)%format_Ok & H).
  apply and_then_Ok in H as (g & [Hg Hgr]%group_Ok & H). apply and_then_Ok in H as (e & [He Hei]%required_Ok & H).
  apply new_descriptor_Ok in H as (-> & _).
  rewrite (dict_eq md [("quant_method", Text "affine"); ("bits", Int b); ("group_size", Int g); ("compute_dtype", Text t);
    ("exporter", Text e)]); [by apply mlx_affine|vm_compute; repeat constructor; set_solver|done|by repeat constructor].
Qed.
Lemma coreml_described md d : coreml md = Ok d → md !! "quant_method" = Some (Text "linear") → describes COREML md d.
Proof.
  unfold coreml. intros H Hm. destruct (keys_are md _) eqn:Ek; [|done]. apply bool_decide_eq_true in Ek. cbn [negb] in H.
  apply and_then_Ok in H as (b & [Hb Hbin]%width_Ok & H). apply and_then_Ok in H as (f & (t & Ht & Hn)%format_Ok & H).
  apply and_then_Ok in H as (e & [He Hei]%required_Ok & H). apply new_descriptor_Ok in H as (-> & _).
  rewrite (dict_eq md [("quant_method", Text "linear"); ("bits", Int b); ("compute_dtype", Text t); ("exporter", Text e)]);
    [by apply coreml_linear|vm_compute; repeat constructor; set_solver|done|by repeat constructor].
Qed.
Lemma gguf_described md d : gguf md = Ok d → describes GGUF md d.
Proof.
  unfold gguf. destruct (keys_are md _) eqn:Ek; [|done]. cbn [negb]. apply bool_decide_eq_true in Ek.
  destruct (md !! "ggml_type") as [[ty| |]|] eqn:Ety; try done. destruct (List.find _ _) as [[ty' [[[r s] g] p]]|] eqn:Ef; [|done].
  intros H. apply and_then_Ok in H as (f & (t & Ht & Hn)%format_Ok & H). apply and_then_Ok in H as (e & [He Hei]%required_Ok & H).
  apply new_descriptor_Ok in H as (-> & _).
  assert (ty' = ty) as -> by (apply find_some in Ef as [_ Ef]; by apply bool_decide_eq_true in Ef).
  rewrite (dict_eq md [("ggml_type", Text ty); ("compute_dtype", Text t); ("exporter", Text e)]);
    [|vm_compute; repeat constructor; set_solver|done|by repeat constructor].
  apply gguf_tensor; [by apply gguf_row|done|done].
Qed.
Lemma plain_described c md d : plain c md = Ok d → md !! "quant_method" = Some (Text "none") → c ≠ GGUF → describes c md d.
Proof.
  unfold plain. intros H Hm Hc. apply and_then_Ok in H as (f & (t & Ht & Hn)%format_Ok & H).
  destruct (float_bits f) as [b|] eqn:Eb; [|done]. destruct (keys_are md _) eqn:Ek; [|done]. apply bool_decide_eq_true in Ek. cbn [negb] in H.
  apply and_then_Ok in H as (e & [He Hei]%required_Ok & H). apply new_descriptor_Ok in H as (-> & _).
  rewrite (dict_eq md [("quant_method", Text "none"); ("dtype", Text t); ("exporter", Text e)]);
    [by apply unquantized|vm_compute; repeat constructor; set_solver|done|by repeat constructor].
Qed.
Lemma read_described c md d : inspect_numeric_artifact_metadata c md = Ok d → describes c md d.
Proof.
  unfold inspect_numeric_artifact_metadata. destruct (bool_decide (c = GGUF)) eqn:Ec; breflect; [subst c; apply gguf_described|].
  destruct (md !! "quant_method") as [[m| |[]]|] eqn:Em; try done; try (unfold is_text; rewrite !bool_decide_eq_false_2 by done; by rewrite !andb_false_r).
  rewrite !is_text_Some. unfold str_eqb.
  destruct (bool_decide_reflect (m = "gptq")) as [->|_]; [intros H; apply (gptq_awq_described _ _ _ _ H Em); left|].
  destruct (bool_decide_reflect (m = "awq")) as [->|_]; [intros H; apply (gptq_awq_described _ _ _ _ H Em); right; left|].
  destruct (bool_decide (c = MLX) && bool_decide (m = "affine")) eqn:E1.
  { apply andb_true_iff in E1 as [->%bool_decide_eq_true ->%bool_decide_eq_true]. intros H. by apply mlx_described. }
  destruct (bool_decide (c = COREML) && bool_decide (m = "linear")) eqn:E2.
  { apply andb_true_iff in E2 as [->%bool_decide_eq_true ->%bool_decide_eq_true]. intros H. by apply coreml_described. }
  destruct (bool_decide_reflect (m = "none")) as [->|_]; [|done]. intros H. by apply plain_described.
Qed.

(** ** Errors *)

Definition value_error {A} (r : res exn A) : Prop := ∀ e, r = Raise e → ∃ m, e = ValueError m.
Lemma and_then_error {A B} (r : res exn A) (k : A → res exn B) : value_error r → (∀ a, value_error (k a)) → value_error (and_then r k).
Proof. intros Hr Hk. destruct r as [a|e]; cbn; [apply Hk|]. intros e' [= <-]. by apply Hr. Qed.
Lemma raises_value_error {A} m : value_error (Raise (ValueError m) : res exn A).
Proof. intros e [= <-]. by eexists. Qed.
Lemma returns_value_error {A} (a : A) : value_error (Ok a : res exn A).
Proof. by intros e. Qed.
Create HintDb value_errors.
#[local] Hint Resolve and_then_error raises_value_error returns_value_error : value_errors.
Ltac errors := repeat first [progress (auto with value_errors)|case_match|apply and_then_error; [|intros ?]].
Lemma readers_value_error c md r : value_error (gptq_awq c md r) ∧ value_error (mlx md) ∧ value_error (coreml md) ∧
  value_error (gguf md) ∧ value_error (plain c md).
Proof.
  assert (H1 : ∀ v, value_error (format v)) by (intros v; unfold format; errors).
  assert (H2 : ∀ v, value_error (group v)) by (intros v; unfold group; errors).
  assert (H3 : ∀ k, value_error (required_identifier md k)) by (intros k; unfold required_identifier; errors).
  assert (H4 : ∀ v a m, value_error (width_of v a m)) by (intros v a m; unfold width_of; errors).
  assert (H5 : ∀ c r s f b g p e, value_error (new_descriptor c r s f b g p e)) by (intros; unfold new_descriptor; errors).
  split_and!; unfold gptq_awq, mlx, coreml, gguf, plain; errors.
Qed.

(** The adapters read metadata into a descriptor exactly when it is one of the
    five documented forms, with exactly its keys, an identifier for the exporter, a
    floating-point compute format and a width and group in range; anything else is
    refused with a [ValueError], except that an unhashable method raises [TypeError]. *)
Theorem metadata_read_exactly (c : NumericContainer) (md : Metadata) :
  (∀ d, inspect_numeric_artifact_metadata c md = Ok d ↔ describes c md d) ∧
  (∀ e, inspect_numeric_artifact_metadata c md = Raise e →
     (∃ m, e = ValueError m) ∨ c ≠ GGUF ∧ md !! "quant_method" = Some (Other false) ∧ e = TypeError "unhashable type").
Proof.
  split; [intros d; split; [apply read_described|apply described_read]|].
  intros e. pose proof (readers_value_error c md GPTQ) as (Hg & Hm & Hc & Hgg & Hp). pose proof (readers_value_error c md AWQ) as (Ha & _).
  unfold inspect_numeric_artifact_metadata. destruct (bool_decide (c = GGUF)) eqn:Ec; breflect; [left; by apply Hgg|].
  destruct (md !! "quant_method") as [[m| |[]]|] eqn:Em; try (intros [= <-]; by right);
    repeat (match goal with |- (if ?b then _ else _) = _ → _ => destruct b end; [left; by eauto|]); left; naive_solver.
Qed.

(** A method that cannot be hashed escapes the module's [ValueError]. *)
Lemma unhashable_method : inspect_numeric_artifact_metadata MLX (dict [("quant_method", Other false)]) = Raise (TypeError "unhashable type").
Proof. vm_compute. reflexivity. Qed.
Example demo_gguf : is_ok (inspect_numeric_artifact_metadata GGUF
  (dict [("ggml_type", Text "Q4_K"); ("compute_dtype", Text "float16"); ("exporter", Text "llama.cpp")])) = true.
Proof. vm_compute. reflexivity. Qed.
End NumericContainer.
