(* ===== verification/NumericStream.v ===== *)
(** * Numeric tile streams (numeric_streaming.py)

    A stream copies the tiles of a source, or of a provider, into one or two reusable
    buffers and hands out leases on them.  Providers and the cancellation signal belong to
    the host: a provider is a state with the operations [read_tile] and [close], which may
    raise, and a call of the signal is an argument of the operation that makes it.  SHA-256
    is a parameter on byte strings.  Every method runs under the stream's lock. *)

From S2P Require Import Prelude Types PyFloat PyBytes.
Import PyFloat PyBytes.

Module NumericStream.

Definition MAX_NUMERIC_TILE_BYTES : Z := 8 * 1024 * 1024.
Definition MAX_NUMERIC_STREAM_BYTES : Z := Z.shiftl 1 40.
(** [len(_ZERO_BLOCK)] *)
Definition ZERO_BLOCK_BYTES : Z := 64 * 1024.

(** ** Buffers *)

(** [b[off:off + len(data)] = data], within [b] *)
Definition slice_set (off : nat) (data b : bytes) : bytes := take off b ++ data ++ drop (off + length data) b.
(** [b[off:off + n]] *)
Definition slice (off n : Z) (b : bytes) : bytes := take (Z.to_nat n) (drop (Z.to_nat off) b).
(** The loop of [_zero_buffer], from [offset]; at least a byte is cleared per round. *)
Fixpoint zero_blocks (fuel : nat) (offset : Z) (b : bytes) : bytes :=
  match fuel with
  | O => b
  | S fuel' =>
      if offset <? Zlen b then
        let n := Z.min ZERO_BLOCK_BYTES (Zlen b - offset) in
        zero_blocks fuel' (offset + ZERO_BLOCK_BYTES) (slice_set (Z.to_nat offset) (replicate (Z.to_nat n) 0) b)
      else b
  end.
Definition zero_buffer (b : bytes) : bytes := zero_blocks (length b) 0 b.

(** *** Lemmas about buffers *)

Lemma length_slice_set off data b : (off + length data <= length b)%nat → length (slice_set off data b) = length b.
Proof. intros H. unfold slice_set. rewrite !length_app, length_take, length_drop. lia. Qed.
Lemma zero_blocks_spec fuel off b : 0 <= off → Zlen b - off <= Z.of_nat fuel →
  take (Z.to_nat off) b = replicate (Nat.min (Z.to_nat off) (length b)) 0 → zero_blocks fuel off b = replicate (length b) 0.
Proof.
  assert (Hend : ∀ o (c : bytes), (length c <= o)%nat → take o c = replicate (Nat.min o (length c)) 0 → c = replicate (length c) 0).
  { intros o c Hle Ht. rewrite take_ge, Nat.min_r in Ht by lia. done. }
  revert off b. induction fuel as [|fuel IH]; intros off b Hoff Hfuel Htake; cbn [zero_blocks].
  - apply (Hend (Z.to_nat off)); [unfold Zlen in Hfuel; lia|done].
  - destruct (off <? Zlen b) eqn:E; breflect; [|apply (Hend (Z.to_nat off)); [unfold Zlen in E; lia|done]].
    unfold Zlen in E, Hfuel |- *. set (n := Z.min ZERO_BLOCK_BYTES (Z.of_nat (length b) - off)).
    assert (Hn : 0 < n <= Z.of_nat (length b) - off) by (unfold n, ZERO_BLOCK_BYTES; lia).
    set (b' := slice_set (Z.to_nat off) (replicate (Z.to_nat n) 0) b).
    assert (Hlen : length b' = length b) by (apply length_slice_set; rewrite length_replicate; lia).
    rewrite <-Hlen. apply IH; [unfold ZERO_BLOCK_BYTES; lia|unfold Zlen; rewrite Hlen; unfold n, ZERO_BLOCK_BYTES in *; lia|].
    rewrite Hlen. unfold b', slice_set. rewrite Htake, length_replicate, Nat.min_l by lia.
    rewrite app_assoc, <-replicate_add. destruct (decide (Z.to_nat (off + ZERO_BLOCK_BYTES) <= length b)%nat) as [Hle|Hgt].
    + assert (n = ZERO_BLOCK_BYTES) as -> by (unfold n; lia). rewrite Nat.min_l by done. rewrite take_app_le by (rewrite length_replicate; unfold ZERO_BLOCK_BYTES; lia).
      rewrite take_replicate. f_equal. unfold ZERO_BLOCK_BYTES. lia.
    + rewrite drop_ge by (unfold n in *; lia). rewrite app_nil_r, take_replicate. f_equal. unfold n in *. lia.
Qed.
(** [_zero_buffer] writes zeros everywhere. *)
Lemma zero_buffer_eq b : zero_buffer b = replicate (length b) 0.
Proof. unfold zero_buffer. apply zero_blocks_spec; [done|unfold Zlen; lia|done]. Qed.
Lemma slice_install b data : slice 0 (Zlen data) (slice_set 0 data b) = data.
Proof. unfold slice, slice_set, Zlen. rewrite Nat2Z.id, drop_0, take_0. cbn [app]. by rewrite take_app_length. Qed.

(** ** Plans *)

Record NumericStreamingPlan := mkPlan {
  source_digest : string;
  source_bytes : Z;
  tile_bytes : Z;
  buffer_count : Z;
  alignment_bytes : Z;
  schema_version : Z;
}.
Definition is_hex_lower (c : Ascii.ascii) : bool :=
  let n := Ascii.nat_of_ascii c in (Nat.leb 48 n && Nat.leb n 57) || (Nat.leb 97 n && Nat.leb n 102).
Definition is_digest (s : string) : bool := (str_len s =? 64) && forallb is_hex_lower (String.list_ascii_of_string s).
Definition in_range (v m : Z) : bool := (1 <=? v) && (v <=? m).
(** [NumericStreamingPlan.__post_init__] *)
Definition make_plan (p : NumericStreamingPlan) : res exn NumericStreamingPlan :=
  if negb (schema_version p =? 1) then Raise (ValueError "unsupported numeric streaming plan version")
  else if negb (is_digest (source_digest p)) then Raise (ValueError "numeric stream source digest is invalid")
  else if negb (in_range (source_bytes p) MAX_NUMERIC_STREAM_BYTES) then Raise (ValueError "numeric stream source size is invalid")
  else if negb (in_range (tile_bytes p) MAX_NUMERIC_TILE_BYTES) then Raise (ValueError "numeric stream tile size is invalid")
  else if negb (in_range (alignment_bytes p) MAX_NUMERIC_TILE_BYTES) then Raise (ValueError "numeric stream alignment is invalid")
  else if tile_bytes p >? source_bytes p then Raise (ValueError "numeric stream tile exceeds its source")
  else if negb (tile_bytes p mod alignment_bytes p =? 0) then Raise (ValueError "numeric stream tile does not satisfy its alignment")
  else if negb ((buffer_count p =? 1) || (buffer_count p =? 2)) then Raise (ValueError "numeric stream requires one or two buffers")
  else Ok p.
(** [tile_count]: [math.ceil] of a quotient of floats. *)
Definition tile_count (p : NumericStreamingPlan) : Z := ceil (int_div (source_bytes p) (tile_bytes p)).
Definition active_buffer_count (p : NumericStreamingPlan) : Z := Z.min (buffer_count p) (tile_count p).
Definition working_set_bytes (p : NumericStreamingPlan) : Z := tile_bytes p * active_buffer_count p.
Definition plan_json (p : NumericStreamingPlan) : string :=
  json_object
    [member "alignment_bytes" (str_of_Z (alignment_bytes p)); member "buffer_count" (str_of_Z (buffer_count p));
     member "schema_version" (str_of_Z (schema_version p)); member "source_bytes" (str_of_Z (source_bytes p));
     member "source_digest" (quoted (source_digest p)); member "tile_bytes" (str_of_Z (tile_bytes p))].

Record NumericTileLease := mkLease { slot : nat; generation : Z; index : Z; offset : Z; length_ : Z }.

Section stream.
Context {P : Type} (read_tile : Z → Z → Z → Py P bytes) (close_provider : Py P ()) (sha256 : bytes → string).

Definition plan_id (p : NumericStreamingPlan) : string := sha256 (ascii_bytes (plan_json p)).

Record NumericDoubleBufferStream := mkStream {
  plan : NumericStreamingPlan;
  source : option bytes;
  provider : option P;
  observed : bytes;                    (* what [_observed_digest] has seen *)
  digest_verified : bool;
  buffers : list bytes;
  active : list bool;
  generations : list Z;
  next_index : Z;
  closed : bool;
  cancelled : bool;
}.
Implicit Types (s : NumericDoubleBufferStream) (p : NumericStreamingPlan) (l : NumericTileLease).

(** [__init__] *)
Definition new_stream p (src : option bytes) (prov : option P) : res exn NumericDoubleBufferStream :=
  if eqb (is_none src) (is_none prov) then Raise (ValueError "numeric stream requires exactly one source")
  else
    let start := mkStream p src prov [] (is_some src) (replicate (Z.to_nat (active_buffer_count p)) (replicate (Z.to_nat (tile_bytes p)) 0))
                   (replicate (Z.to_nat (active_buffer_count p)) false) (replicate (Z.to_nat (active_buffer_count p)) 0) 0 false false in
    match src with
    | None => Ok start
    | Some b =>
        if negb (Zlen b =? source_bytes p) then Raise (ValueError "numeric stream source size mismatch")
        else if negb (str_eqb (sha256 b) (source_digest p)) then Raise (ValueError "numeric stream source digest mismatch")
        else Ok start
    end.

Definition with_provider pr s := mkStream (plan s) (source s) pr (observed s) (digest_verified s) (buffers s) (active s) (generations s) (next_index s) (closed s) (cancelled s).
Definition verified s := mkStream (plan s) (source s) (provider s) (observed s) true (buffers s) (active s) (generations s) (next_index s) (closed s) (cancelled s).
Definition cleared s := mkStream (plan s) None (provider s) (observed s) (digest_verified s) (zero_buffer <$> buffers s)
  ((λ _, false) <$> active s) (Z.succ <$> generations s) (next_index s) (closed s) (cancelled s).
Definition closing (c : bool) s := mkStream (plan s) (source s) (provider s) (observed s) (digest_verified s) (buffers s) (active s) (generations s) (next_index s) true c.
(** [_close_locked]: when the provider cannot be closed the stream stays open, with its
    buffers cleared. *)
Definition close_locked (c : bool) : Py NumericDoubleBufferStream () := λ s,
  if closed s then (Ok (), s)
  else
    let s1 := cleared s in
    match provider s1 with
    | None => (Ok (), closing c s1)
    | Some pr =>
        match close_provider pr with
        | (Ok _, _) => (Ok (), closing c (with_provider None s1))
        | (Raise e, pr') => (Raise e, with_provider (Some pr') s1)
        end
    end.
(** [_check_open_locked]; [cancel] is what [is_set] says. *)
Definition check_open (cancel : bool) : Py NumericDoubleBufferStream () := λ s,
  if closed s then (Raise (ValueError "numeric stream is closed"), s)
  else if cancel then (close_locked true ;;; raise (NumericStreamingCancelled "numeric stream was cancelled")) s
  else (Ok (), s).
(** [self._active.index(False)] *)
Fixpoint free_slot (l : list bool) : option nat :=
  match l with [] => None | false :: _ => Some O | true :: l' => S <$> free_slot l' end.
(** The tile that [acquire_next] copies. *)
Definition fetch (i off n : Z) : Py NumericDoubleBufferStream bytes := λ s,
  match provider s with
  | None => match source s with
            | Some b => (Ok (slice off n b), s)
            | None => (Raise (TypeError "memoryview: a bytes-like object is required"), s)
            end
  | Some pr =>
      match read_tile i off n pr with
      | (Raise e, pr') => (Raise e, with_provider (Some pr') s)
      | (Ok b, pr') =>
          let s' := with_provider (Some pr') s in
          if negb (Zlen b =? n) then (Raise (ValueError "numeric stream provider returned an invalid tile"), s')
          else (Ok b, mkStream (plan s') (source s') (provider s') (observed s' ++ b) (digest_verified s') (buffers s') (active s') (generations s')
                        (next_index s') (closed s') (cancelled s'))
      end
  end.
Definition install (k : nat) (b : bytes) s : NumericDoubleBufferStream :=
  mkStream (plan s) (source s) (provider s) (observed s) (digest_verified s) (alter (slice_set 0 b) k (buffers s)) (<[k := true]> (active s))
    (alter Z.succ k (generations s)) (next_index s + 1) (closed s) (cancelled s).
(** [acquire_next] *)
Definition acquire_next (cancel : bool) : Py NumericDoubleBufferStream (option NumericTileLease) :=
  check_open cancel ;;; λ s,
  if next_index s >=? tile_count (plan s) then
    if digest_verified s then (Ok None, s)
    else if negb (str_eqb (sha256 (observed s)) (source_digest (plan s)))
    then (close_locked false ;;; raise (ValueError "numeric stream provider digest mismatch")) s
    else (Ok None, verified s)
  else
    match free_slot (active s) with
    | None => (Raise (RuntimeError "numeric stream buffers are all leased"), s)
    | Some k =>
        let i := next_index s in
        let off := i * tile_bytes (plan s) in
        let n := Z.min (tile_bytes (plan s)) (source_bytes (plan s) - off) in
        match fetch i off n s with
        | (Raise e, s') => (Raise e, s')
        | (Ok b, s') => (Ok (Some (mkLease k (default 0 (generations s' !! k) + 1) i off n)), install k b s')
        end
    end.
(** [poll_cancellation], [close] *)
Definition poll_cancellation := check_open.
Definition close : Py NumericDoubleBufferStream () := close_locked false.
(** [_check_lease_locked] *)
Definition lease_valid l s : bool :=
  negb (closed s) && bool_decide (active s !! slot l = Some true) && bool_decide (generations s !! slot l = Some (generation l)).
Definition check_lease l : Py NumericDoubleBufferStream () := λ s,
  if lease_valid l s then (Ok (), s) else (Raise (ValueError "numeric tile lease is invalid or already released"), s).
(** [NumericTileLease.read] *)
Definition read l : Py NumericDoubleBufferStream bytes :=
  check_lease l ;;; λ s, (Ok (slice 0 (length_ l) (default [] (buffers s !! slot l))), s).
(** [NumericTileLease.view]: the range of a buffer, which the view shares. *)
Definition view l : Py NumericDoubleBufferStream (nat * Z) := check_lease l ;;; ret (slot l, length_ l).
Definition view_bytes (v : nat * Z) s : bytes := slice 0 v.2 (default [] (buffers s !! v.1)).
(** [NumericTileLease.release] *)
Definition release l : Py NumericDoubleBufferStream () :=
  check_lease l ;;; λ s,
  (Ok (), mkStream (plan s) (source s) (provider s) (observed s) (digest_verified s) (alter zero_buffer (slot l) (buffers s))
            (<[slot l := false]> (active s)) (generations s) (next_index s) (closed s) (cancelled s)).

(** [snapshot] *)
Record Snapshot := mkSnapshot {
  s_plan_id : string; s_tile_count : Z; s_next_tile_index : Z; s_in_flight_tiles : Z; s_buffer_count : Z; s_working_set_bytes : Z;
  s_cancelled : bool; s_closed : bool;
}.
Definition in_flight s : Z := Zsum ((λ b : bool, if b then 1 else 0) <$> active s).
Definition snapshot s : Snapshot :=
  mkSnapshot (plan_id (plan s)) (tile_count (plan s)) (next_index s) (in_flight s) (Zlen (buffers s)) (working_set_bytes (plan s)) (cancelled s) (closed s).

(** ** Plans that the constructor accepts *)

Record plan_ok p : Prop := {
  po_source : 1 <= source_bytes p <= MAX_NUMERIC_STREAM_BYTES;
  po_tile : 1 <= tile_bytes p <= MAX_NUMERIC_TILE_BYTES;
  po_fits : tile_bytes p <= source_bytes p;
  po_buffers : buffer_count p = 1 ∨ buffer_count p = 2;
}.
Lemma make_plan_ok p q : make_plan p = Ok q → q = p ∧ plan_ok p.
Proof.
  unfold make_plan. intros H. repeat (case_match; [done|]). injection H as <-. breflect. unfold in_range in *. breflect.
  split; [done|]. split; lia.
Qed.
(** The division of floats gives the exact number of tiles. *)
Lemma tile_count_exact p : plan_ok p → tile_count p = (source_bytes p + tile_bytes p - 1) / tile_bytes p.
Proof.
  intros [H1 H2 _ _]. unfold tile_count. change MAX_NUMERIC_STREAM_BYTES with (2 ^ 40) in H1.
  change MAX_NUMERIC_TILE_BYTES with (2 ^ 23) in H2. apply ceil_int_div; lia.
Qed.
Lemma tile_count_bounds p : plan_ok p →
  1 <= tile_count p ∧ (tile_count p - 1) * tile_bytes p < source_bytes p <= tile_count p * tile_bytes p.
Proof.
  intros Hp. rewrite (tile_count_exact p Hp). destruct Hp as [H1 H2 H3 _].
  pose proof (Z.div_mod (source_bytes p + tile_bytes p - 1) (tile_bytes p) ltac:(lia)).
  pose proof (Z.mod_pos_bound (source_bytes p + tile_bytes p - 1) (tile_bytes p) ltac:(lia)).
  set (n := (source_bytes p + tile_bytes p - 1) / tile_bytes p) in *. clearbody n. nia.
Qed.
Lemma active_buffers_bounds p : plan_ok p → 1 <= active_buffer_count p <= 2.
Proof. intros Hp. destruct (tile_count_bounds p Hp) as [H _]. destruct (po_buffers p Hp); unfold active_buffer_count; lia. Qed.

(** ** Invariant

    The tiles handed out so far, each with the bytes it was given. *)
Definition Issued := list (NumericTileLease * bytes).
Implicit Types (iss : Issued).
Definition buffer_number p : nat := Z.to_nat (active_buffer_count p).
(** Where the bytes come from: [origin] is the source given to the constructor. *)
Definition origin_ok (origin : option bytes) s iss : Prop :=
  match origin with
  | Some src =>
      Zlen src = source_bytes (plan s) ∧ sha256 src = source_digest (plan s) ∧ provider s = None ∧ digest_verified s = true ∧
      (closed s = false → source s = Some src) ∧ mjoin iss.*2 = take (Z.to_nat (Zlen iss * tile_bytes (plan s))) src
  | None =>
      mjoin iss.*2 = observed s ∧ source s = None ∧ (closed s = false → is_Some (provider s)) ∧
      (digest_verified s = true → Zlen iss = tile_count (plan s) ∧ sha256 (observed s) = source_digest (plan s))
  end.
Record tile_ok p (i : nat) l (b : bytes) : Prop := {
  to_index : index l = Z.of_nat i;
  to_offset : offset l = Z.of_nat i * tile_bytes p;
  to_length : length_ l = Z.min (tile_bytes p) (source_bytes p - offset l);
  to_bytes : Zlen b = length_ l;
}.
Record stream_inv (origin : option bytes) s iss : Prop := {
  si_plan : plan_ok (plan s);
  si_buffers : length (buffers s) = buffer_number (plan s);
  si_actives : length (active s) = buffer_number (plan s);
  si_generations : length (generations s) = buffer_number (plan s);
  si_buffer : ∀ k b, buffers s !! k = Some b → length b = Z.to_nat (tile_bytes (plan s)) ∧ (active s !! k = Some true ∨ b = replicate (length b) 0);
  si_next : next_index s = Zlen iss;
  si_count : next_index s <= tile_count (plan s);
  si_tiles : ∀ i l b, iss !! i = Some (l, b) → tile_ok (plan s) i l b;
  si_live : ∀ l b, (l, b) ∈ iss → ∃ g, generations s !! slot l = Some g ∧ generation l <= g ∧
    (active s !! slot l = Some true → generation l = g → ∃ buf, buffers s !! slot l = Some buf ∧ slice 0 (length_ l) buf = b);
  si_unique : ∀ i j l l' b b', iss !! i = Some (l, b) → iss !! j = Some (l', b') → slot l = slot l' → generation l = generation l' → i = j;
  si_active : ∀ k, active s !! k = Some true → ∃ l b, (l, b) ∈ iss ∧ slot l = k ∧ generations s !! k = Some (generation l);
  si_closed : closed s = true → ∀ k a, active s !! k = Some a → a = false;
  si_origin : origin_ok origin s iss;
}.

Lemma free_slot_spec (l : list bool) :
  match free_slot l with Some k => l !! k = Some false | None => ∀ k a, l !! k = Some a → a = true end.
Proof.
  induction l as [|[] l IH]; cbn; [done| |done]. destruct (free_slot l) as [k|]; cbn; [done|].
  intros [|k] a; cbn; [by intros [= <-]|]. apply IH.
Qed.
(** Fields that hold the buffers and leases. *)
Record same_slots s s' : Prop := {
  ss_plan : plan s' = plan s;
  ss_buffers : buffers s' = buffers s;
  ss_active : active s' = active s;
  ss_generations : generations s' = generations s;
  ss_next : next_index s' = next_index s;
  ss_closed : closed s' = closed s;
}.
Lemma same_slots_inv origin s s' iss : stream_inv origin s iss → same_slots s s' → origin_ok origin s' iss → stream_inv origin s' iss.
Proof. intros [] [H1 H2 H3 H4 H5 H6] Ho. split; by rewrite ?H1, ?H2, ?H3, ?H4, ?H5, ?H6. Qed.

(** *** Closing *)

(** Clearing the buffers ends every lease. *)
Lemma cleared_slots_inv origin s s' iss : stream_inv origin s iss → plan s' = plan s → next_index s' = next_index s →
  buffers s' = buffers (cleared s) → active s' = active (cleared s) → generations s' = generations (cleared s) →
  origin_ok origin s' iss → stream_inv origin s' iss.
Proof.
  intros [I1 I2 I3 I4 I5 I6 I7 I8 I9 I10 I11 I12 _] E1 E7 E4 E5 E6 Ho.
  split; rewrite ?E1, ?E4, ?E5, ?E6, ?E7; cbn; try done; rewrite ?length_fmap; try done.
  - intros k b Hb. apply list_lookup_fmap_Some in Hb as (b0 & -> & Hb0). rewrite zero_buffer_eq, length_replicate.
    split; [by apply (I5 k)|by right].
  - intros l b Hin. destruct (I9 l b Hin) as (g & Hg & Hle & _). exists (Z.succ g). rewrite list_lookup_fmap, Hg. split; [done|].
    split; [lia|]. intros Hact. apply list_lookup_fmap_Some in Hact as (a & Ha & _). done.
  - intros k Hact. apply list_lookup_fmap_Some in Hact as (a & Ha & _). done.
  - intros _ k a Hact. by apply list_lookup_fmap_Some in Hact as (? & -> & _).
Qed.
Lemma close_locked_inv origin s iss c : stream_inv origin s iss → stream_inv origin (close_locked c s).2 iss.
Proof.
  intros Hinv. pose proof (si_origin _ _ _ Hinv) as Ho. unfold close_locked. destruct (closed s) eqn:Hc; [done|].
  destruct (provider (cleared s)) as [pr|] eqn:Hp; cbn in Hp.
  - destruct (close_provider pr) as [[[]|e] pr']; cbn; apply (cleared_slots_inv origin s); try done; destruct origin; cbn in *; naive_solver.
  - apply (cleared_slots_inv origin s); try done. destruct origin; cbn in *; naive_solver.
Qed.
Lemma close_locked_returns c s : is_ok (close_locked c s).1 = true → closed (close_locked c s).2 = true.
Proof.
  unfold close_locked. destruct (closed s) eqn:Hc; [done|]. cbn. destruct (provider s) as [pr|]; [|done].
  by destruct (close_provider pr) as [[[]|e] pr'].
Qed.
Lemma check_open_inv origin s iss c : stream_inv origin s iss →
  stream_inv origin (check_open c s).2 iss ∧ ((check_open c s).1 = Ok () → check_open c s = (Ok (), s) ∧ closed s = false ∧ c = false).
Proof.
  intros Hinv. unfold check_open. destruct (closed s) eqn:Hc; [done|]. destruct c; [|done]. unfold bind, raise.
  pose proof (close_locked_inv origin s iss true Hinv) as H. by destruct (close_locked true s) as [[[]|e] s'].
Qed.

(** *** Handing out a tile *)

Lemma alter_lookup {A} (f : A → A) (l : list A) k k' : alter f k l !! k' = if decide (k' = k) then f <$> l !! k else l !! k'.
Proof. case_decide as H; [subst; apply list_lookup_alter_eq|by apply list_lookup_alter_ne]. Qed.
Lemma insert_lookup {A} (x : A) (l : list A) k k' : (k < length l)%nat → <[k := x]> l !! k' = if decide (k' = k) then Some x else l !! k'.
Proof. intros Hk. case_decide as H; [subst; by apply list_lookup_insert_eq|by apply list_lookup_insert_ne]. Qed.
Lemma install_inv origin s iss k b g :
  stream_inv origin s iss → closed s = false → next_index s < tile_count (plan s) → active s !! k = Some false → generations s !! k = Some g →
  let off := next_index s * tile_bytes (plan s) in
  let n := Z.min (tile_bytes (plan s)) (source_bytes (plan s) - off) in
  let l := mkLease k (g + 1) (next_index s) off n in
  Zlen b = n → ∀ s', same_slots s s' → origin_ok origin (install k b s') (iss ++ [(l, b)]) → stream_inv origin (install k b s') (iss ++ [(l, b)]).
Proof.
  intros [I1 I2 I3 I4 I5 I6 I7 I8 I9 I10 I11 I12 _] Hopen Hnext Hk Hg off n l Hb s' [S1 S2 S3 S4 S5 S6] Ho.
  assert (Hkn : (k < length (active s))%nat) by (by apply lookup_lt_Some in Hk).
  assert (Hn : 0 <= n <= tile_bytes (plan s)).
  { destruct (tile_count_bounds _ I1) as (_ & Hlt & _). pose proof (po_tile _ I1). unfold n, off. nia. }
  assert (Hold : ∀ l' b', (l', b') ∈ iss → slot l' = k → generation l' <> g + 1).
  { intros l' b' Hin Hs. destruct (I9 l' b' Hin) as (g' & Hg' & Hle & _). rewrite Hs, Hg in Hg'. injection Hg' as <-. lia. }
  split; cbn; rewrite ?S1, ?S2, ?S3, ?S4, ?S5, ?S6; try done; rewrite ?length_alter, ?length_insert; try done.
  - intros k' b'. rewrite alter_lookup, insert_lookup by done. case_decide as Hkk; [|apply I5].
    destruct (buffers s !! k) as [b0|] eqn:Hb0; [|done]. intros [= <-]. destruct (I5 k b0 Hb0) as [Hl _]. split; [|by left].
    rewrite length_slice_set; [done|]. unfold Zlen in Hb. lia.
  - rewrite I6. unfold Zlen. rewrite length_app. cbn. lia.
  - lia.
  - intros i l' b' Hi. apply lookup_app_Some in Hi as [Hi|[Hge Hi]]; [by eapply I8|].
    destruct (i - length iss)%nat eqn:E; [|done]. injection Hi as <- <-. assert (Z.of_nat i = next_index s) by (rewrite I6; unfold Zlen; lia).
    split; cbn; [done|unfold off; congruence|done|done].
  - intros l' b' [Hin|[= -> ->]%list_elem_of_singleton]%elem_of_app.
    + destruct (I9 l' b' Hin) as (g' & Hg' & Hle & Hlive). rewrite !alter_lookup, insert_lookup by done.
      destruct (decide (slot l' = k)) as [Hs|Hs]; [|by exists g'].
      rewrite Hg. exists (Z.succ g). split; [done|]. rewrite Hs, Hg in Hg'. injection Hg' as <-. split; [lia|]. intros _ Hgen. lia.
    + cbn. rewrite !alter_lookup, insert_lookup, !decide_True, Hg by done. exists (Z.succ g). split; [done|]. split; [lia|]. intros _ _.
      destruct (lookup_lt_is_Some_2 (buffers s) k) as [b0 Hb0]; [lia|]. rewrite Hb0. cbn. eexists. split; [done|]. rewrite <-Hb. apply slice_install.
  - intros i j l1 l2 b1 b2 Hi Hj Hs Hgen. apply lookup_app_Some in Hi as [Hi|[Hi1 Hi]], Hj as [Hj|[Hj1 Hj]]; [by eapply I10| | |].
    + apply list_lookup_singleton_Some in Hj as [_ [= <- <-]]. cbn in Hs, Hgen. exfalso. eapply Hold; [eapply list_elem_of_lookup_2, Hi|done|done].
    + apply list_lookup_singleton_Some in Hi as [_ [= <- <-]]. cbn in Hs, Hgen. exfalso. eapply (Hold l2); [eapply list_elem_of_lookup_2, Hj|done|done].
    + apply list_lookup_singleton_Some in Hi as [? _], Hj as [? _]. lia.
  - intros k'. rewrite alter_lookup, insert_lookup by done. case_decide as Hkk.
    + intros _. exists l, b. split; [apply elem_of_app; right; left|]. subst k'. split; [done|]. by rewrite Hg.
    + intros Hact. destruct (I11 k' Hact) as (l' & b' & Hin & H). exists l', b'. split; [apply elem_of_app; by left|done].
  - congruence.
Qed.

Lemma take_tile (src : bytes) (i tile total : Z) : Zlen src = total → 0 <= i → 0 < tile → i * tile < total →
  take (Z.to_nat (i * tile)) src ++ slice (i * tile) (Z.min tile (total - i * tile)) src = take (Z.to_nat ((i + 1) * tile)) src.
Proof.
  intros Hlen Hi Ht Hlt. unfold slice. rewrite <-(take_drop (Z.to_nat (i * tile)) (take (Z.to_nat ((i + 1) * tile)) src)).
  rewrite take_take, Nat.min_l by nia. f_equal.
  destruct (decide (tile <= total - i * tile)) as [Hle|Hgt].
  - rewrite Z.min_l by lia. rewrite skipn_firstn_comm. f_equal. nia.
  - rewrite Z.min_r by lia. rewrite (take_ge src (Z.to_nat ((i + 1) * tile))) by (unfold Zlen in Hlen; nia).
    apply take_ge. rewrite length_drop. unfold Zlen in Hlen. nia.
Qed.
(** The bytes of a tile that is handed out, and where they come from. *)
Lemma fetch_spec origin s iss off n : stream_inv origin s iss → closed s = false → next_index s < tile_count (plan s) →
  off = next_index s * tile_bytes (plan s) → n = Z.min (tile_bytes (plan s)) (source_bytes (plan s) - off) →
  let '(r, s') := fetch (next_index s) off n s in
  same_slots s s' ∧
  match r with
  | Ok b => Zlen b = n ∧ ∀ k l, origin_ok origin (install k b s') (iss ++ [(l, b)])
  | Raise _ => origin_ok origin s' iss
  end.
Proof.
  intros Hinv Hopen Hlt -> ->. pose proof (si_origin _ _ _ Hinv) as Ho. pose proof (si_next _ _ _ Hinv) as Hnext.
  pose proof (si_plan _ _ _ Hinv) as Hp. pose proof (po_tile _ Hp) as Htile. destruct (tile_count_bounds _ Hp) as (_ & Hb & _).
  assert (Hoff : next_index s * tile_bytes (plan s) < source_bytes (plan s)) by nia.
  assert (Hlen : ∀ l (b : bytes), Zlen (iss ++ [(l, b)]) = next_index s + 1) by (intros; rewrite Hnext; unfold Zlen; rewrite length_app; cbn; lia).
  unfold fetch. destruct origin as [src|]; cbn in Ho.
  - destruct Ho as (H1 & H2 & H3 & H4 & H5 & H6). rewrite H3, H5 by done. split; [done|].
    assert (Hsl : Zlen (slice (next_index s * tile_bytes (plan s)) (Z.min (tile_bytes (plan s)) (source_bytes (plan s) - next_index s * tile_bytes (plan s))) src)
              = Z.min (tile_bytes (plan s)) (source_bytes (plan s) - next_index s * tile_bytes (plan s))).
    { unfold slice, Zlen. rewrite length_take, length_drop. unfold Zlen in H1. unfold Zlen in Hnext. lia. }
    split; [exact Hsl|]. intros k l. cbn. split_and!; try done. rewrite Hlen, fmap_app, join_app, H6, <-Hnext. cbn. rewrite app_nil_r.
    apply take_tile; [done|unfold Zlen in Hnext; lia|lia|done].
  - destruct Ho as (H1 & H2 & H3 & H4). destruct (H3 Hopen) as [pr Hpr]. rewrite Hpr.
    assert (Hver : digest_verified s = false).
    { destruct (digest_verified s); [|done]. destruct (H4 eq_refl) as [H5 _]. lia. }
    destruct (read_tile _ _ _ pr) as [[b|e] pr']; [destruct (negb _) eqn:E|].
    + split; [done|]. cbn. by split_and!.
    + breflect. split; [done|]. split; [done|]. intros k l. cbn. rewrite fmap_app, join_app, H1. cbn. rewrite app_nil_r, Hver. by split_and!.
    + split; [done|]. cbn. by split_and!.
Qed.
Lemma acquire_effect origin s iss c : stream_inv origin s iss →
  let '(r, s') := acquire_next c s in
  match r with
  | Ok (Some l) => stream_inv origin s' (iss ++ [(l, view_bytes (slot l, length_ l) s')])
  | Ok None => stream_inv origin s' iss ∧ Zlen iss = tile_count (plan s) ∧ plan s' = plan s ∧
               (origin = None → sha256 (observed s') = source_digest (plan s'))
  | Raise _ => stream_inv origin s' iss
  end.
Proof.
  intros Hinv. unfold acquire_next, bind. destruct (check_open_inv origin s iss c Hinv) as [Hraise Hok].
  destruct (check_open c s) as [[[]|e] s0]; [|done]. destruct (Hok eq_refl) as ([= ->] & Hopen & _). clear Hok Hraise.
  pose proof (si_next _ _ _ Hinv) as Hnext. pose proof (si_count _ _ _ Hinv) as Hcount.
  destruct (next_index s >=? tile_count (plan s)) eqn:E; breflect.
  - destruct (digest_verified s) eqn:Hv; [|destruct (negb _) eqn:Ed].
    + split; [done|]. split; [lia|]. split; [done|]. intros ->. pose proof (si_origin _ _ _ Hinv) as (_ & _ & _ & Ho). by apply Ho.
    + unfold bind, raise. pose proof (close_locked_inv origin s iss false Hinv) as H. by destruct (close_locked false s) as [[[]|e] s'].
    + breflect. unfold str_eqb in Ed. apply bool_decide_eq_true in Ed. split; [|split; [lia|split; [done|by intros _]]].
      apply (same_slots_inv _ s); [done|done|]. pose proof (si_origin _ _ _ Hinv) as Ho. destruct origin; cbn in *; [naive_solver|].
      destruct Ho as (H1 & H2 & H3 & H4). split_and!; try done. intros _. split; [lia|done].
  - pose proof (free_slot_spec (active s)) as Hfree. destruct (free_slot (active s)) as [k|]; [|done].
    pose proof (fetch_spec origin s iss _ _ Hinv Hopen E eq_refl eq_refl) as Hf. destruct (fetch _ _ _ s) as [[b|e] s'].
    + destruct Hf as [Hs (Hb & Ho)]. destruct (lookup_lt_is_Some_2 (generations s) k) as [g Hg].
      { apply lookup_lt_Some in Hfree. rewrite (si_generations _ _ _ Hinv). by rewrite (si_actives _ _ _ Hinv) in Hfree. }
      rewrite (ss_generations _ _ Hs), Hg. cbn [default].
      replace (view_bytes _ _) with b; [by apply (install_inv origin s)|]. unfold view_bytes. cbn. rewrite list_lookup_alter_eq, (ss_buffers _ _ Hs).
      destruct (lookup_lt_is_Some_2 (buffers s) k) as [b0 ->]; [|cbn; rewrite <-Hb at 1; symmetry; apply slice_install].
      apply lookup_lt_Some in Hfree. rewrite (si_buffers _ _ _ Hinv). by rewrite (si_actives _ _ _ Hinv) in Hfree.
    + destruct Hf as [Hs Ho]. by apply (same_slots_inv _ s).
Qed.
Lemma check_lease_spec l s : (check_lease l s).2 = s ∧ ((check_lease l s).1 = Ok () ↔ lease_valid l s = true).
Proof. unfold check_lease. by destruct (lease_valid l s). Qed.
(** A valid lease reads the bytes it was given. *)
Lemma read_spec origin s iss l b : stream_inv origin s iss → (l, b) ∈ iss →
  read l s = if lease_valid l s then (Ok b, s) else (Raise (ValueError "numeric tile lease is invalid or already released"), s).
Proof.
  intros Hinv Hin. unfold read, check_lease, bind. destruct (lease_valid l s) eqn:Hv; [|done]. unfold lease_valid in Hv. breflect.
  destruct (si_live _ _ _ Hinv l b Hin) as (g & Hg & _ & Hlive). destruct Hlive as (buf & Hbuf & Hb); [done|congruence|].
  by rewrite Hbuf, <-Hb.
Qed.
Lemma release_keeps origin s iss l : stream_inv origin s iss → stream_inv origin (release l s).2 iss.
Proof.
  intros Hinv. unfold release, check_lease, bind. destruct (lease_valid l s) eqn:Hv; [|done]. unfold lease_valid in Hv. breflect.
  destruct Hinv as [I1 I2 I3 I4 I5 I6 I7 I8 I9 I10 I11 I12 Ho]. assert (Hk : (slot l < length (active s))%nat) by (by eapply lookup_lt_Some).
  split; cbn; rewrite ?length_alter, ?length_insert; try done.
  - intros k b. rewrite alter_lookup, insert_lookup by done. case_decide as Hkk; [|apply I5].
    destruct (buffers s !! slot l) as [b0|] eqn:Hb0; [|done]. intros [= <-]. rewrite zero_buffer_eq, length_replicate.
    split; [by apply (I5 (slot l))|by right].
  - intros l' b' Hin. destruct (I9 l' b' Hin) as (g & Hg & Hle & Hlive). exists g. split; [done|]. split; [done|].
    rewrite insert_lookup, alter_lookup by done. case_decide as Hkk; [done|]. done.
  - intros k. rewrite insert_lookup by done. case_decide as Hkk; [done|]. apply I11.
  - intros Hc k a. rewrite insert_lookup by done. case_decide as Hkk; [by intros [= <-]|]. by apply I12.
Qed.

(** ** Runs *)

(** A call, and the tile it may hand out with the bytes then in its buffer. *)
Inductive stream_step : NumericDoubleBufferStream * Issued → NumericDoubleBufferStream * Issued → Prop :=
| step_acquire s iss c l s' :
    acquire_next c s = (Ok (Some l), s') → stream_step (s, iss) (s', iss ++ [(l, view_bytes (slot l, length_ l) s')])
| step_no_tile s iss c r s' :
    acquire_next c s = (r, s') → (∀ l, r ≠ Ok (Some l)) → stream_step (s, iss) (s', iss)
| step_release s iss l : stream_step (s, iss) ((release l s).2, iss)
| step_poll s iss c : stream_step (s, iss) ((poll_cancellation c s).2, iss)
| step_close s iss : stream_step (s, iss) ((close s).2, iss).

Lemma new_stream_inv p q src prov s : make_plan p = Ok q → new_stream q src prov = Ok s → stream_inv src s [] ∧ plan s = q.
Proof.
  intros Hq Hnew. destruct (make_plan_ok p q Hq) as [-> Hp]. unfold new_stream in Hnew.
  set (start := mkStream p src prov [] _ _ _ _ 0 false false) in *.
  assert (Hinv : origin_ok src start [] → stream_inv src start []).
  { intros Ho. split; cbn; rewrite ?length_replicate; try done.
    - intros k b [-> _]%lookup_replicate. rewrite length_replicate. split; [done|by right].
    - pose proof (tile_count_bounds p Hp). lia.
    - intros l b Hin. by apply elem_of_nil in Hin.
    - by intros k [? _]%lookup_replicate. }
  destruct (eqb _ _) eqn:E; [done|]. apply eqb_false_iff in E. destruct src as [b|].
  - destruct (negb (Zlen b =? source_bytes p)) eqn:E1; [done|]. destruct (negb (str_eqb (sha256 b) (source_digest p))) eqn:E2; [done|].
    injection Hnew as <-. breflect. unfold str_eqb in E2. apply bool_decide_eq_true in E2. destruct prov; [done|]. split; [|done].
    apply Hinv. cbn. split_and!; try done.
  - destruct prov as [pr|]; [|done]. injection Hnew as <-. split; [|done]. apply Hinv. cbn. split_and!; try done.
Qed.
(** No call changes the plan. *)
Lemma close_plan c s : plan (close_locked c s).2 = plan s.
Proof. unfold close_locked. destruct (closed s); [done|]. cbn. destruct (provider s) as [pr|]; [|done]. by destruct (close_provider pr) as [[[]|e] pr']. Qed.
Lemma check_open_plan c s : plan (check_open c s).2 = plan s.
Proof.
  unfold check_open. destruct (closed s); [done|]. destruct c; [|done]. unfold bind, raise. pose proof (close_plan true s).
  by destruct (close_locked true s) as [[[]|e] s0].
Qed.
Lemma fetch_plan i off n s : plan (fetch i off n s).2 = plan s.
Proof. unfold fetch. repeat case_match; done. Qed.
Lemma acquire_plan c s : plan (acquire_next c s).2 = plan s.
Proof.
  unfold acquire_next, bind. pose proof (check_open_plan c s). destruct (check_open c s) as [[[]|e] s0]; [|done]. cbn in H. rewrite <-H.
  destruct (next_index s0 >=? _).
  - destruct (digest_verified s0); [done|]. destruct (negb _); [|done]. unfold bind, raise. pose proof (close_plan false s0).
    by destruct (close_locked false s0) as [[[]|e] s1].
  - destruct (free_slot _) as [k|]; [|done]. pose proof (fetch_plan (next_index s0) (next_index s0 * tile_bytes (plan s0))
      (Z.min (tile_bytes (plan s0)) (source_bytes (plan s0) - next_index s0 * tile_bytes (plan s0))) s0). by destruct (fetch _ _ _ s0) as [[b|e] s1].
Qed.
Lemma release_plan l s : plan (release l s).2 = plan s.
Proof. unfold release, check_lease, bind. by destruct (lease_valid l s). Qed.
Lemma stream_step_inv origin x y : stream_step x y → stream_inv origin x.1 x.2 → stream_inv origin y.1 y.2 ∧ plan y.1 = plan x.1.
Proof.
  intros [s iss c l s' Ha|s iss c r s' Ha Hr|s iss l|s iss c|s iss] Hinv; cbn in *.
  - pose proof (acquire_effect origin s iss c Hinv) as H. pose proof (acquire_plan c s) as Hp. by rewrite Ha in H, Hp.
  - pose proof (acquire_effect origin s iss c Hinv) as H. pose proof (acquire_plan c s) as Hp. rewrite Ha in H, Hp. split; [|done].
    destruct r as [[l|]|e]; [by destruct (Hr l)|apply H|done].
  - split; [by apply release_keeps|apply release_plan].
  - split; [by apply check_open_inv|apply check_open_plan].
  - split; [by apply close_locked_inv|apply close_plan].
Qed.
Lemma stream_run_inv origin x y : rtc stream_step x y → stream_inv origin x.1 x.2 → stream_inv origin y.1 y.2 ∧ plan y.1 = plan x.1.
Proof.
  induction 1 as [x|x y z Hxy _ IH]; intros Hinv; [done|]. destruct (stream_step_inv origin x y Hxy Hinv) as [H1 H2].
  destruct (IH H1) as [H3 H4]. split; [done|congruence].
Qed.

(** *** Leases that are over stay over *)

(** What a call leaves of the slots. *)
Definition ended s s' : Prop := same_slots s s' ∨ active s' = (λ _, false) <$> active s.
Lemma close_ended c s : ended s (close_locked c s).2.
Proof.
  unfold close_locked. destruct (closed s); [by left|]. cbn. right. destruct (provider s) as [pr|]; [|done]. by destruct (close_provider pr) as [[[]|e] pr'].
Qed.
Lemma check_open_ended c s : ended s (check_open c s).2 ∧ ((check_open c s).1 = Ok () → (check_open c s).2 = s ∧ closed s = false).
Proof.
  unfold check_open. destruct (closed s); [split; [by left|done]|]. destruct c; [|split; [by left|done]]. unfold bind, raise. pose proof (close_ended true s).
  by destruct (close_locked true s) as [[[]|e] s0].
Qed.
Lemma fetch_slots i off n s : same_slots s (fetch i off n s).2.
Proof. unfold fetch. repeat case_match; done. Qed.
Lemma acquire_shape c s : let '(r, s') := acquire_next c s in
  match r with
  | Ok (Some l) => ∃ b s1, same_slots s s1 ∧ closed s = false ∧ active s !! slot l = Some false ∧ s' = install (slot l) b s1 ∧
                           generation l = default 0 (generations s !! slot l) + 1
  | _ => ended s s'
  end.
Proof.
  unfold acquire_next, bind. destruct (check_open_ended c s) as [Hend Hok]. destruct (check_open c s) as [[[]|e] s0]; [|done].
  destruct (Hok eq_refl) as [Heq Hopen]. cbn in Heq. subst s0. destruct (next_index s >=? _).
  - destruct (digest_verified s); [done|]. destruct (negb _); [|by left]. unfold bind, raise. pose proof (close_ended false s).
    by destruct (close_locked false s) as [[[]|e] s1].
  - pose proof (free_slot_spec (active s)) as Hf. destruct (free_slot _) as [k|]; [|done].
    pose proof (fetch_slots (next_index s) (next_index s * tile_bytes (plan s))
      (Z.min (tile_bytes (plan s)) (source_bytes (plan s) - next_index s * tile_bytes (plan s))) s) as Hs.
    destruct (fetch _ _ _ s) as [[b|e] s1]; cbn in Hs; [|by left]. exists b, s1. by rewrite (ss_generations _ _ Hs).
Qed.
Lemma ended_over s s' l : ended s s' → lease_valid l s = false → lease_valid l s' = false.
Proof.
  intros [[S1 S2 S3 S4 S5 S6]|Hact]; unfold lease_valid; [by rewrite S3, S4, S6|]. intros _. rewrite Hact, list_lookup_fmap.
  rewrite (bool_decide_eq_false_2 ((λ _, false) <$> active s !! slot l = Some true)); [by rewrite andb_false_r|]. by destruct (active s !! slot l).
Qed.
Lemma lease_over_step origin x y l : stream_inv origin x.1 x.2 → stream_step x y → l ∈ x.2.*1 → lease_valid l x.1 = false → lease_valid l y.1 = false.
Proof.
  intros Hinv Hstep Hin Hv. destruct Hstep as [s iss c l0 s' Ha|s iss c r s' Ha Hr|s iss l0|s iss c|s iss]; cbn in *.
  - pose proof (acquire_shape c s) as H. rewrite Ha in H. destruct H as (b & s1 & [S1 S2 S3 S4 S5 S6] & Hopen & Hfree & -> & Hgen).
    apply list_elem_of_fmap in Hin as ([l' b'] & -> & Hin). cbn in *. destruct (si_live _ _ _ Hinv l' b' Hin) as (g & Hg & Hle & _).
    unfold lease_valid in *. cbn. rewrite S3, S4, S6, insert_lookup, alter_lookup by (by apply lookup_lt_Some in Hfree).
    destruct (decide (slot l' = slot l0)) as [Heq|Hne]; [|done]. rewrite <-Heq, Hg.
    rewrite (bool_decide_eq_false_2 (Z.succ <$> Some g = Some (generation l'))); [by rewrite andb_false_r|]. cbn. intros [= H]. lia.
  - pose proof (acquire_shape c s) as H. rewrite Ha in H. apply (ended_over s); [|done]. destruct r as [[l0|]|e]; [by destruct (Hr l0)|done|done].
  - unfold release, check_lease, bind. destruct (lease_valid l0 s) eqn:Hv0; [|done]. unfold lease_valid in *. cbn.
    destruct (decide (slot l = slot l0)) as [Heq|Hne].
    + rewrite Heq, list_lookup_insert_eq; [by rewrite andb_false_r|]. breflect. by eapply lookup_lt_Some.
    + by rewrite list_lookup_insert_ne.
  - apply (ended_over s); [apply check_open_ended|done].
  - apply (ended_over s); [apply close_ended|done].
Qed.
Lemma lease_over_run origin x y l : rtc stream_step x y → stream_inv origin x.1 x.2 → l ∈ x.2.*1 → lease_valid l x.1 = false → lease_valid l y.1 = false.
Proof.
  induction 1 as [x|x y z Hxy _ IH]; intros Hinv Hin Hv; [done|]. apply IH; [by apply (stream_step_inv origin x)| |by eapply lease_over_step].
  destruct Hxy; cbn in *; try done. rewrite fmap_app. apply elem_of_app. by left.
Qed.

(** *** A consumer that takes one tile after the other *)

Fixpoint consume (fuel : nat) (acc : bytes) : Py NumericDoubleBufferStream bytes :=
  let! tile := acquire_next false in
  match tile with
  | None => ret acc
  | Some l =>
      match fuel with
      | O => raise (RuntimeError "out of fuel")
      | S fuel' => let! b := read l in release l ;;; consume fuel' (acc ++ b)
      end
  end.
Lemma release_free s l : lease_valid l s = true → release l s = (Ok (), (release l s).2) ∧
  active (release l s).2 = <[slot l := false]> (active s) ∧ closed (release l s).2 = closed s ∧ next_index (release l s).2 = next_index s.
Proof. intros Hv. unfold release, check_lease, bind. by rewrite Hv. Qed.
(** With an open stream, no lease out and no cancellation, the next tile is handed out. *)
Lemma acquire_progress src s iss : stream_inv (Some src) s iss → closed s = false → (∀ k a, active s !! k = Some a → a = false) →
  next_index s < tile_count (plan s) → ∃ l s', acquire_next false s = (Ok (Some l), s') ∧ lease_valid l s' = true ∧ closed s' = false ∧
    (∀ k a, active s' !! k = Some a → k ≠ slot l → a = false) ∧ next_index s' = next_index s + 1.
Proof.
  intros Hinv Hopen Hidle Hlt. pose proof (acquire_shape false s) as Hshape. unfold acquire_next, bind, check_open in *. rewrite Hopen in *.
  destruct (next_index s >=? tile_count (plan s)) eqn:E; breflect; [lia|]. pose proof (free_slot_spec (active s)) as Hf.
  pose proof (active_buffers_bounds _ (si_plan _ _ _ Hinv)) as Hn.
  destruct (free_slot (active s)) as [k|] eqn:Efree.
  2: { destruct (lookup_lt_is_Some_2 (active s) 0) as [a Ha]; [rewrite (si_actives _ _ _ Hinv); unfold buffer_number; lia|].
       pose proof (Hf _ _ Ha). pose proof (Hidle _ _ Ha). congruence. }
  pose proof (si_origin _ _ _ Hinv) as (_ & _ & Hp & _ & Hs & _). unfold fetch in *. rewrite Hp, (Hs Hopen) in *.
  eexists _, _. split; [reflexivity|]. assert (Hk : (k < length (active s))%nat) by (by apply lookup_lt_Some in Hf).
  destruct (lookup_lt_is_Some_2 (generations s) k) as [g Hg]; [rewrite (si_generations _ _ _ Hinv), <-(si_actives _ _ _ Hinv); done|].
  unfold lease_valid. cbn. rewrite Hopen, insert_lookup, alter_lookup, !decide_True, Hg by done. cbn. split_and!; try done.
  - by rewrite !bool_decide_eq_true_2 by (cbn; f_equal; lia).
  - intros k' a Ha Hne. rewrite list_lookup_insert_ne in Ha by done. by eapply Hidle.
Qed.
Lemma consume_spec src fuel s iss : stream_inv (Some src) s iss → closed s = false → (∀ k a, active s !! k = Some a → a = false) →
  tile_count (plan s) - next_index s <= Z.of_nat fuel → ∃ s', consume fuel (mjoin iss.*2) s = (Ok src, s') ∧ in_flight s' = 0 ∧ closed s' = false.
Proof.
  revert s iss. induction fuel as [|fuel IH]; intros s iss Hinv Hopen Hidle Hfuel; cbn [consume]; unfold bind;
    destruct (decide (next_index s < tile_count (plan s))) as [Hlt|Hge]; [lia| | |].
  2: { destruct (acquire_progress src s iss Hinv Hopen Hidle Hlt) as (l & s1 & Ha & Hv & Hopen1 & Hidle1 & Hnext1). rewrite Ha.
    pose proof (acquire_effect (Some src) s iss false Hinv) as Hinv1. rewrite Ha in Hinv1. set (b := view_bytes _ _) in *.
    rewrite (read_spec _ s1 _ l b Hinv1), Hv by (apply elem_of_app; right; left). destruct (release_free s1 l Hv) as (Hr & Hract & Hrcl & Hrn).
    rewrite Hr. replace (mjoin iss.*2 ++ b) with (mjoin (iss ++ [(l, b)]).*2) by (rewrite fmap_app, join_app; cbn; by rewrite app_nil_r).
    apply IH; [by apply release_keeps|congruence| |].
    - intros k a. rewrite Hract. assert (Hk : (slot l < length (active s1))%nat).
      { unfold lease_valid in Hv. breflect. by eapply lookup_lt_Some. }
      rewrite insert_lookup by done. case_decide; [by intros [= <-]|]. intros Hk'. by eapply Hidle1.
    - rewrite release_plan, Hrn, Hnext1. pose proof (acquire_plan false s) as Hp. rewrite Ha in Hp. cbn in Hp. rewrite Hp. lia. }
  all: assert (Ha : acquire_next false s = (Ok None, s)) by
    (unfold acquire_next, bind, check_open; rewrite Hopen; destruct (next_index s >=? _) eqn:E; breflect; [|lia];
     pose proof (si_origin _ _ _ Hinv) as (_ & _ & _ & Hd & _); by rewrite Hd).
  all: rewrite Ha; exists s; split; [|split; [|done]].
  1, 3: unfold ret; do 2 f_equal; pose proof (si_origin _ _ _ Hinv) as (Hlen & _ & _ & _ & _ & Hj); rewrite Hj; apply take_ge;
    destruct (tile_count_bounds _ (si_plan _ _ _ Hinv)) as (_ & _ & Hb); pose proof (si_next _ _ _ Hinv) as Hn; pose proof (po_tile _ (si_plan _ _ _ Hinv));
    assert (source_bytes (plan s) <= Zlen iss * tile_bytes (plan s)) by (rewrite <-Hn; nia); unfold Zlen in *; lia.
  all: unfold in_flight; clear -Hidle; induction (active s) as [|a l IH]; [done|]; rewrite Zsum_fmap_cons, IH by (intros k; apply (Hidle (S k)));
    by rewrite (Hidle O a eq_refl).
Qed.

(** ** Theorems *)

Lemma tiles_length p iss : plan_ok p → Zlen iss <= tile_count p → (∀ i l b, iss !! i = Some (l, b) → tile_ok p i l b) →
  Zlen (mjoin iss.*2) = Z.min (Zlen iss * tile_bytes p) (source_bytes p).
Proof.
  intros Hp. destruct (tile_count_bounds p Hp) as (_ & Hb & _). pose proof (po_tile p Hp) as Ht.
  induction iss as [|[l b] iss IH] using rev_ind; intros Hn Htiles.
  - unfold Zlen. cbn. pose proof (po_source p Hp). lia.
  - assert (Hl : Zlen (iss ++ [(l, b)]) = Zlen iss + 1) by (unfold Zlen; rewrite length_app; cbn; lia). rewrite Hl in *.
    destruct (Htiles (length iss) l b) as [T1 T2 T3 T4]; [by apply list_lookup_middle|].
    rewrite fmap_app, join_app. cbn. rewrite app_nil_r. unfold Zlen at 1. rewrite length_app, Nat2Z.inj_add. fold (Zlen (mjoin iss.*2)) (Zlen b).
    rewrite T4, T3, T2, IH; [change (Z.of_nat (length iss)) with (Zlen iss); nia|lia|].
    intros i l' b' Hi. apply Htiles. by apply lookup_app_l_Some.
Qed.
(** The bytes handed out by a stream that has no more. *)
Lemma all_delivered origin s iss c s' : stream_inv origin s iss → acquire_next c s = (Ok None, s') →
  Zlen iss = tile_count (plan s) ∧ Zlen (mjoin iss.*2) = source_bytes (plan s) ∧ sha256 (mjoin iss.*2) = source_digest (plan s) ∧
  (∀ src, origin = Some src → mjoin iss.*2 = src).
Proof.
  intros Hinv Ha. pose proof (acquire_effect origin s iss c Hinv) as H. rewrite Ha in H. destruct H as (Hinv' & Hall & Hp & Hdig).
  destruct (tile_count_bounds _ (si_plan _ _ _ Hinv)) as (_ & _ & Hb).
  split; [done|]. split; [|].
  - rewrite (tiles_length (plan s)); [rewrite Hall; lia|apply Hinv|lia|apply Hinv].
  - pose proof (si_origin _ _ _ Hinv') as Ho. destruct origin as [src|]; cbn in Ho.
    + destruct Ho as (H1 & H2 & _ & _ & _ & H6). rewrite Hp in *. assert (mjoin iss.*2 = src) as ->; [|by split; [|intros ? [= ->]]].
      rewrite H6. apply take_ge. unfold Zlen in *. rewrite Hall. lia.
    + destruct Ho as (H1 & _). split; [|done]. rewrite H1, <-Hp. by apply Hdig.
Qed.

(** C20: in every state that calls of a stream can reach, the tiles handed out are the first
    ones of the source, in order, each with the index, offset and length its position
    determines, and together they are the prefix of the source, or all that the provider
    has supplied.  A lease reads exactly the bytes of its tile until it is released or the
    stream closes, and from then on it is refused for good; two leases that are in force
    have different buffers, of which there are at most two, and every buffer that is not
    leased holds zeros.  A stream reports its end only after every tile, when the bytes
    handed out have the length and the digest of the plan. *)
Theorem numeric_stream_correct p q src prov s0 s iss :
  make_plan p = Ok q → new_stream q src prov = Ok s0 → rtc stream_step (s0, []) (s, iss) →
  (∀ i l b, iss !! i = Some (l, b) → tile_ok q i l b) ∧
  mjoin iss.*2 = match src with Some v => take (Z.to_nat (Zlen iss * tile_bytes q)) v | None => observed s end ∧
  (∀ l b, (l, b) ∈ iss →
     read l s = (if lease_valid l s then Ok b else Raise (ValueError "numeric tile lease is invalid or already released"), s) ∧
     (lease_valid l s = false → ∀ y, rtc stream_step (s, iss) y → lease_valid l y.1 = false)) ∧
  (∀ i j l l' b b', iss !! i = Some (l, b) → iss !! j = Some (l', b') → lease_valid l s = true → lease_valid l' s = true →
     slot l = slot l' → i = j) ∧
  Zlen (buffers s) <= 2 ∧
  (∀ k b, buffers s !! k = Some b → active s !! k ≠ Some true → b = replicate (Z.to_nat (tile_bytes q)) 0) ∧
  (∀ c s', acquire_next c s = (Ok None, s') →
     Zlen iss = tile_count q ∧ Zlen (mjoin iss.*2) = source_bytes q ∧ sha256 (mjoin iss.*2) = source_digest q ∧
     ∀ v, src = Some v → mjoin iss.*2 = v).
Proof.
  intros Hq Hnew Hrun. destruct (new_stream_inv p q src prov s0 Hq Hnew) as [Hinv0 Hp0].
  destruct (stream_run_inv src _ _ Hrun Hinv0) as [Hinv Hplan]. cbn in Hinv, Hplan. rewrite Hp0 in Hplan. rewrite <-Hplan.
  split_and!.
  - apply (si_tiles _ _ _ Hinv).
  - pose proof (si_origin _ _ _ Hinv) as Ho. destruct src; apply Ho.
  - intros l b Hin. split; [rewrite (read_spec src s iss l b Hinv Hin); by destruct (lease_valid l s)|].
    intros Hv y Hy. apply (lease_over_run src (s, iss) y l Hy Hinv); [|done]. apply list_elem_of_fmap. by exists (l, b).
  - intros i j l l' b b' Hi Hj Hv Hv' Hs. unfold lease_valid in *. breflect. rewrite Hs in *.
    eapply (si_unique _ _ _ Hinv); [exact Hi|exact Hj|done|congruence].
  - pose proof (active_buffers_bounds _ (si_plan _ _ _ Hinv)). unfold Zlen. rewrite (si_buffers _ _ _ Hinv). unfold buffer_number. lia.
  - intros k b Hb Hk. destruct (si_buffer _ _ _ Hinv k b Hb) as [Hl [?|Hz]]; [done|]. by rewrite Hl in Hz.
  - intros c s' Ha. by apply (all_delivered src s iss c s').
Qed.

(** A consumer that takes, reads and releases one tile after the other receives exactly
    the source, in [tile_count] tiles, the exact quotient of the sizes rounded up, and
    leaves no tile leased. *)
Theorem stream_delivers_source p q v s0 : make_plan p = Ok q → new_stream q (Some v) None = Ok s0 →
  tile_count q = (source_bytes q + tile_bytes q - 1) / tile_bytes q ∧
  ∃ s', consume (Z.to_nat (tile_count q)) [] s0 = (Ok v, s') ∧ in_flight s' = 0.
Proof.
  intros Hq Hnew. destruct (new_stream_inv p q (Some v) None s0 Hq Hnew) as [Hinv Hp]. split.
  - apply tile_count_exact. rewrite <-Hp. apply Hinv.
  - unfold new_stream in Hnew. cbn in Hnew. repeat (case_match; [done|]). injection Hnew as Hs0.
    destruct (consume_spec v (Z.to_nat (tile_count q)) s0 [] Hinv) as (s' & Hc & Hf & _); [by subst s0| |rewrite Hp; subst s0; cbn; lia|by exists s'].
    intros k a. subst s0. cbn. by intros [-> _]%lookup_replicate.
Qed.
End stream.
#[global] Arguments NumericDoubleBufferStream : clear implicits.

(** ** Runs of a stream over three bytes *)

Definition no_tile (i off n : Z) : Py unit bytes := raise (ValueError "no provider").
Definition no_close : Py unit () := ret ().
Definition demo_digest : string := "0000000000000000000000000000000000000000000000000000000000000000".
Definition demo_sha (b : bytes) : string := demo_digest.
Definition demo_plan : NumericStreamingPlan := mkPlan demo_digest 3 2 2 1 1.
Definition demo_stream : NumericDoubleBufferStream unit :=
  mkStream demo_plan (Some [1; 2; 3]) None [] true [[0; 0]; [0; 0]] [false; false] [0; 0] 0 false false.
Definition demo_after : NumericDoubleBufferStream unit := (acquire_next no_tile no_close demo_sha false demo_stream).2.
Lemma demo_steps : rtc (stream_step no_tile no_close demo_sha) (demo_stream, []) (demo_after, [(mkLease 0 1 0 0 2, [1; 2])]).
Proof.
  eapply rtc_l; [|reflexivity]. change [(mkLease 0 1 0 0 2, [1; 2])] with
    ([] ++ [(mkLease 0 1 0 0 2, view_bytes (P := unit) (slot (mkLease 0 1 0 0 2), length_ (mkLease 0 1 0 0 2)) demo_after)]).
  apply (step_acquire no_tile no_close demo_sha demo_stream [] false). vm_compute. reflexivity.
Qed.
Lemma numeric_stream_correct_witness :
  new_stream demo_sha demo_plan (Some [1; 2; 3]) None = Ok demo_stream ∧ read (mkLease 0 1 0 0 2) demo_after = (Ok [1; 2], demo_after).
Proof.
  split; [vm_compute; reflexivity|].
  destruct (numeric_stream_correct no_tile no_close demo_sha demo_plan demo_plan (Some [1; 2; 3]) None demo_stream _ _
    ltac:(vm_compute; reflexivity) ltac:(vm_compute; reflexivity) demo_steps) as (_ & _ & H & _).
  exact (proj1 (H (mkLease 0 1 0 0 2) [1; 2] ltac:(left))).
Defined.
Lemma stream_delivers_source_witness :
  ∃ s', consume no_tile no_close demo_sha (Z.to_nat (tile_count demo_plan)) [] demo_stream = (Ok [1; 2; 3], s') ∧ in_flight s' = 0.
Proof.
  exact (proj2 (stream_delivers_source no_tile no_close demo_sha demo_plan demo_plan [1; 2; 3] demo_stream
    ltac:(vm_compute; reflexivity) ltac:(vm_compute; reflexivity))).
Defined.
(** A view shares its buffer: after the release it reads zeros, and then the next tile. *)
Definition demo_released : NumericDoubleBufferStream unit := (release (mkLease 0 1 0 0 2) demo_after).2.
Lemma view_outlives_lease :
  (view (mkLease 0 1 0 0 2) demo_after).1 = Ok (0%nat, 2) ∧ view_bytes (0%nat, 2) demo_after = [1; 2] ∧
  view_bytes (0%nat, 2) demo_released = [0; 0] ∧
  view_bytes (0%nat, 2) (acquire_next no_tile no_close demo_sha false demo_released).2 = [3; 0].
Proof. by vm_compute. Qed.

End NumericStream.
