(* ===== verification/TensorAdmission.v ===== *)
(** * Memory admission of tensor loads (qwen4_component_loader.py)

    [Qwen4MemoryAdmission] reserves memory for the source, the destination and the scratch
    of a load, within a capacity and within limits of components; [Qwen4ComponentLoader]
    lends a reservation to a block of code.  Descriptors are dictionaries read from files:
    a field that is absent or not of the type the code tests for is [None].  The tensor
    reader, which reads those files, is a parameter. *)

From S2P Require Import Prelude Types NumericStream.

Module TensorAdmission.

Definition MAX_ACTIVE_TENSOR_LOADS : Z := 1024.
(** [_TARGET_DTYPE_BYTES] *)
Definition dtype_bytes (dtype : string) : option Z :=
  if str_eqb dtype "BF16" then Some 2 else if str_eqb dtype "F16" then Some 2 else if str_eqb dtype "F32" then Some 4 else None.

Record Descriptor := mkDescriptor {
  d_active : bool;                     (* [descriptor.get("active") is True] *)
  d_component : option string;
  d_shape : option (list (option Z));
  d_dtype : option string;
  d_bytes : option Z;
}.
Record TensorLoadReservation := mkReservation {
  reservation_id : Z;
  tensor_name : string;
  component : string;
  source_stream_bytes : Z;
  destination_bytes : Z;
  scratch_bytes : Z;
  reserved_bytes : Z;
  stream_tile_bytes : Z;
  stream_buffer_count : Z;
}.
#[export] Instance TensorLoadReservation_eq_dec : EqDecision TensorLoadReservation.
Proof. solve_decision. Defined.

Record Qwen4MemoryAdmission := mkAdmission {
  capacity_bytes : Z;
  component_limits : gmap string Z;
  next_id : Z;
  reservations : gmap Z TensorLoadReservation;
  total_bytes : Z;                     (* [_reserved_bytes] *)
  component_bytes : gmap string Z;
}.
Implicit Types (a : Qwen4MemoryAdmission) (r : TensorLoadReservation).

(** [__init__] *)
Definition new_admission (capacity : Z) (limits : gmap string Z) : res exn Qwen4MemoryAdmission :=
  if capacity <=? 0 then Raise (ValueError "Qwen4 loader memory capacity is invalid")
  else if negb (bool_decide (map_Forall (λ name v, name ≠ ""%string ∧ 0 < v ∧ v <= capacity) limits))
  then Raise (ValueError "Qwen4 loader component memory limit is invalid")
  else Ok (mkAdmission capacity limits 1 ∅ 0 ∅).

(** The loop of [reserve] over the shape; [size] is that of an element. *)
Definition shape_elements (capacity size : Z) (shape : list (option Z)) : res exn Z :=
  fold_res (λ elements dimension,
    match dimension with
    | None => Raise (ValueError "Qwen4 loader tensor shape is invalid")
    | Some n =>
        if n <? 0 then Raise (ValueError "Qwen4 loader tensor shape is invalid")
        else if elements * n * size >? capacity then Raise (MemoryError "Qwen4 tensor destination exceeds the loader memory capacity")
        else Ok (elements * n)
    end) shape 1.
Definition component_total (c : string) a : Z := default 0 (component_bytes a !! c).
Definition component_limit (c : string) a : Z := default (capacity_bytes a) (component_limits a !! c).
(** [reserve] *)
Definition reserve (name : string) (d : Descriptor) (target_dtype : string) (source scratch : Z) : Py Qwen4MemoryAdmission TensorLoadReservation := λ a,
  match d_component d, d_shape d with
  | Some c, Some shape =>
      match dtype_bytes target_dtype with
      | None => (Raise (ValueError "Qwen4 loader target dtype is unsupported"), a)
      | Some size =>
          if (source <? 0) || (scratch <? 0) then (Raise (ValueError "Qwen4 loader transient memory request is invalid"), a)
          else
            match shape_elements (capacity_bytes a) size shape with
            | Raise e => (Raise e, a)
            | Ok elements =>
                let destination := elements * size in
                let bytes := source + destination + scratch in
                let after := component_total c a + bytes in
                if (Zsize (reservations a) >=? MAX_ACTIVE_TENSOR_LOADS) || (total_bytes a + bytes >? capacity_bytes a) || (after >? component_limit c a)
                then (Raise (MemoryError "Qwen4 tensor load memory admission rejected the reservation"), a)
                else
                  let r := mkReservation (next_id a) name c source destination scratch bytes 0 0 in
                  (Ok r, mkAdmission (capacity_bytes a) (component_limits a) (next_id a + 1) (<[next_id a := r]> (reservations a))
                           (total_bytes a + bytes) (<[c := after]> (component_bytes a)))
            end
      end
  | _, _ => (Raise (ValueError "Qwen4 loader tensor descriptor is invalid"), a)
  end.
Definition streamed (plan : NumericStream.NumericStreamingPlan) r : TensorLoadReservation :=
  mkReservation (reservation_id r) (tensor_name r) (component r) (source_stream_bytes r) (destination_bytes r) (scratch_bytes r) (reserved_bytes r)
    (NumericStream.tile_bytes plan) (NumericStream.active_buffer_count plan).
Definition put_reservation r a : Qwen4MemoryAdmission :=
  mkAdmission (capacity_bytes a) (component_limits a) (next_id a) (<[reservation_id r := r]> (reservations a)) (total_bytes a) (component_bytes a).
(** [reserve_numeric_stream]; [others] is what other threads do before the lock is taken
    again. *)
Definition reserve_numeric_stream (others : Qwen4MemoryAdmission → Qwen4MemoryAdmission) (name : string) (d : Descriptor) (target_dtype : string)
    (plan : NumericStream.NumericStreamingPlan) (metadata scratch : Z) : Py Qwen4MemoryAdmission TensorLoadReservation :=
  if (metadata <? 0) || (scratch <? 0) then raise (ValueError "Qwen4 numeric stream memory request is invalid")
  else
    let! r := reserve name d target_dtype (NumericStream.working_set_bytes plan + metadata) scratch in
    modify others ;;; λ a,
    if bool_decide (reservations a !! reservation_id r = Some r) then (Ok (streamed plan r), put_reservation (streamed plan r) a)
    else (Raise (ValueError "Qwen4 numeric stream reservation changed during creation"), a).
(** [release]: the entry is removed before it is compared. *)
Definition release r : Py Qwen4MemoryAdmission () := λ a,
  let a1 := mkAdmission (capacity_bytes a) (component_limits a) (next_id a) (delete (reservation_id r) (reservations a)) (total_bytes a) (component_bytes a) in
  if negb (bool_decide (reservations a !! reservation_id r = Some r))
  then (Raise (ValueError "Qwen4 tensor load reservation is unknown or already released"), a1)
  else
    let with_components t m := mkAdmission (capacity_bytes a) (component_limits a) (next_id a) (delete (reservation_id r) (reservations a)) t m in
    let total := total_bytes a - reserved_bytes r in
    match component_bytes a !! component r with
    | None => (Raise (KeyError (component r)), with_components total (component_bytes a))
    | Some n =>
        let after := n - reserved_bytes r in
        (Ok (), with_components total (if after =? 0 then delete (component r) (component_bytes a) else <[component r := after]> (component_bytes a)))
    end.
Definition retained r : TensorLoadReservation :=
  mkReservation (reservation_id r) (tensor_name r) (component r) 0 (destination_bytes r) 0 (destination_bytes r) 0 0.
(** [retain_destination] *)
Definition retain_destination r : Py Qwen4MemoryAdmission TensorLoadReservation := λ a,
  if negb (bool_decide (reservations a !! reservation_id r = Some r))
  then (Raise (ValueError "Qwen4 tensor load reservation is unknown or already changed"), a)
  else
    let k := retained r in
    let freed := reserved_bytes r - reserved_bytes k in
    let with_components m := mkAdmission (capacity_bytes a) (component_limits a) (next_id a) (<[reservation_id r := k]> (reservations a))
                               (total_bytes a - freed) m in
    match component_bytes a !! component r with
    | None => (Raise (KeyError (component r)), with_components (component_bytes a))
    | Some n => (Ok k, with_components (<[component r := n - freed]> (component_bytes a)))
    end.
(** [snapshot] *)
Record Snapshot := mkSnapshot { s_capacity : Z; s_reserved : Z; s_remaining : Z; s_active : Z; s_components : gmap string Z }.
Definition snapshot a : Snapshot :=
  mkSnapshot (capacity_bytes a) (total_bytes a) (capacity_bytes a - total_bytes a) (Zsize (reservations a)) (component_bytes a).

(** ** The component loader *)

Section loader.
Context {Chunks : Type} (descriptor : string → res exn Descriptor) (maximum_chunk_bytes : Z).
Context (iter_tensor_chunks : string → res exn Chunks) (iter_tensor_axis0_slice : string → Z → Z → res exn Chunks).

(** [axis0_slice_descriptor] *)
Definition axis0_slice_descriptor (name : string) (start count : Z) : res exn Descriptor :=
  match descriptor name with
  | Raise e => Raise e
  | Ok d =>
      let invalid := Raise (ValueError "Qwen4 component loader axis-0 slice is invalid") in
      if negb (d_active d) || negb (bool_decide (d_component d = Some "mixture_of_experts"%string)) || negb (str_contains ".experts." name) then invalid
      else match d_shape d, d_bytes d with
           | Some (Some rows :: dims), Some bytes =>
               if (rows <=? 0) || negb (bytes mod rows =? 0) || (start <? 0) || (count <=? 0) || (start + count >? rows) then invalid
               else Ok (mkDescriptor (d_active d) (d_component d) (Some (Some count :: dims)) (d_dtype d) (Some (bytes / rows * count)))
           | _, _ => invalid
           end
  end.
(** The lease that [open_tensor] yields. *)
Record TensorLoadLease := mkLease { l_reservation : TensorLoadReservation; l_descriptor : Descriptor; l_chunks : Chunks }.
(** What both context managers do around the block [body]; the iterator is made outside the
    [try]. *)
Definition with_reservation {X} (name : string) (d : Descriptor) (target_dtype : string) (source scratch : Z) (chunks : res exn Chunks)
    (body : TensorLoadLease → Py Qwen4MemoryAdmission X) : Py Qwen4MemoryAdmission X :=
  let! r := reserve name d target_dtype source scratch in
  let! c := lift chunks in
  finally (body (mkLease r d c)) (release r).
(** [open_tensor] *)
Definition open_tensor {X} (name target_dtype : string) (scratch : Z) (body : TensorLoadLease → Py Qwen4MemoryAdmission X) : Py Qwen4MemoryAdmission X :=
  let! d := lift (descriptor name) in
  if negb (d_active d) then raise (ValueError "Qwen4 tensor is disabled for the requested mode")
  else match d_bytes d with
       | Some n => if n <? 0 then raise (ValueError "Qwen4 loader source tensor size is invalid")
                   else with_reservation name d target_dtype (Z.min n maximum_chunk_bytes) scratch (iter_tensor_chunks name) body
       | None => raise (ValueError "Qwen4 loader source tensor size is invalid")
       end.
(** [open_tensor_axis0_slice] *)
Definition open_tensor_axis0_slice {X} (name : string) (start count : Z) (target_dtype : string) (scratch : Z)
    (body : TensorLoadLease → Py Qwen4MemoryAdmission X) : Py Qwen4MemoryAdmission X :=
  let! d := lift (axis0_slice_descriptor name start count) in
  with_reservation name d target_dtype (Z.min (default 0 (d_bytes d)) maximum_chunk_bytes) scratch (iter_tensor_axis0_slice name start count) body.
End loader.

(** ** Accounting *)

Definition share (c : string) r : Z := if decide (component r = c) then reserved_bytes r else 0.
Record reservation_ok r : Prop := {
  ro_source : 0 <= source_stream_bytes r;
  ro_destination : 0 <= destination_bytes r;
  ro_scratch : 0 <= scratch_bytes r;
  ro_sum : reserved_bytes r = source_stream_bytes r + destination_bytes r + scratch_bytes r;
}.
(** The accounts when the reservations [lost] left the table with their bytes still
    counted. *)
Record books (lost : list TensorLoadReservation) a : Prop := {
  ai_total : total_bytes a = map_sum reserved_bytes (reservations a) + Zsum (reserved_bytes <$> lost);
  ai_component : ∀ c, component_total c a = map_sum (share c) (reservations a) + Zsum (share c <$> lost);
  ai_capacity : total_bytes a <= capacity_bytes a;
  ai_limits : 0 < capacity_bytes a ∧ map_Forall (λ _ v, 0 < v) (component_limits a);
  ai_limit : ∀ c, component_total c a <= component_limit c a;
  ai_reservation : ∀ i r, reservations a !! i = Some r → reservation_id r = i ∧ i < next_id a ∧ reservation_ok r;
  ai_count : Zsize (reservations a) <= MAX_ACTIVE_TENSOR_LOADS;
  ai_lost : Forall reservation_ok lost;
}.
Arguments ai_total {lost} a _.
Arguments ai_component {lost} a _ _.
Arguments ai_capacity {lost} a _.
Arguments ai_limits {lost} a _.
Arguments ai_limit {lost} a _ _.
Arguments ai_reservation {lost} a _ _ _ _.
Arguments ai_count {lost} a _.
Arguments ai_lost {lost} a _.
(** The accounts of the table alone. *)
Abbreviation admission_inv := (books []).
Lemma reserved_nonneg r : reservation_ok r → 0 <= reserved_bytes r.
Proof. intros []. lia. Qed.
Lemma share_nonneg c r : reservation_ok r → 0 <= share c r.
Proof. intros Hr. unfold share. case_decide; [by apply reserved_nonneg|done]. Qed.
Lemma shape_elements_spec capacity size shape n : 0 < size → shape_elements capacity size shape = Ok n →
  0 <= n ∧ ∃ dims, shape = Some <$> dims ∧ n = foldr Z.mul 1 dims ∧ Forall (λ m, 0 <= m) dims ∧ (dims ≠ [] → n * size <= capacity).
Proof.
  unfold shape_elements. intros Hsize.
  set (body := λ (elements : Z) (dimension : option Z), _).
  enough (∀ e, 0 <= e → fold_res body shape e = Ok n → 0 <= n ∧ ∃ dims, shape = Some <$> dims ∧ n = e * foldr Z.mul 1 dims ∧ Forall (λ m, 0 <= m) dims ∧ (dims ≠ [] → n * size <= capacity)) as H.
  { intros Hf. destruct (H 1 ltac:(lia) Hf) as (H1 & dims & H2 & H3 & H4 & H5). split; [done|]. exists dims. split_and!; try done. lia. }
  induction shape as [|d shape IH]; intros e He; cbn [fold_res].
  - intros [= <-]. split; [done|]. exists []. split_and!; [done|cbn; lia|constructor|done].
  - unfold body at 1. destruct d as [m|]; [|done]. destruct (m <? 0) eqn:E1; [done|]. destruct (_ >? capacity) eqn:E2; [done|]. breflect.
    intros Hf. destruct (IH (e * m) ltac:(nia) Hf) as (H1 & dims & -> & -> & Hd & Hc). split; [done|]. exists (m :: dims).
    split_and!; [done|cbn; ring|by constructor|]. intros _. destruct dims as [|m' dims]; [cbn; rewrite Z.mul_1_r; lia|by apply Hc].
Qed.
Lemma share_le c r : reservation_ok r → share c r <= reserved_bytes r.
Proof. intros Hr. unfold share. case_decide; [done|by apply reserved_nonneg]. Qed.
Lemma lost_share c (lost : list TensorLoadReservation) : Forall reservation_ok lost →
  0 <= Zsum (share c <$> lost) <= Zsum (reserved_bytes <$> lost).
Proof.
  induction 1 as [|r lost Hr _ IH]; [done|]. cbn. pose proof (share_le c r Hr). pose proof (share_nonneg c r Hr). unfold Zsum in *. lia.
Qed.
Lemma component_limit_pos {lost} c a : books lost a → 0 < component_limit c a.
Proof.
  intros Ha. destruct (ai_limits _ Ha) as [H1 H2]. unfold component_limit. destruct (component_limits a !! c) as [v|] eqn:E; [|done].
  by apply (H2 c).
Qed.
Lemma total_share {lost} c a : books lost a → 0 <= component_total c a <= total_bytes a.
Proof.
  intros Ha. rewrite (ai_component _ Ha), (ai_total _ Ha). pose proof (lost_share c _ (ai_lost _ Ha)). split.
  - assert (0 <= map_sum (share c) (reservations a)); [|lia].
    apply map_sum_nonneg. intros i r Hr. apply share_nonneg. by apply (ai_reservation _ Ha i).
  - assert (map_sum (share c) (reservations a) <= map_sum reserved_bytes (reservations a)); [|lia].
    apply map_sum_le. intros i r Hr. apply share_le. by apply (ai_reservation _ Ha i).
Qed.
Lemma component_insert c c' n m : default 0 ((<[c := n]> m : gmap string Z) !! c') = if decide (c' = c) then n else default 0 (m !! c').
Proof. case_decide as H; [subst; by rewrite lookup_insert_eq|by rewrite lookup_insert_ne]. Qed.
Lemma loader_admission_inv capacity limits a : new_admission capacity limits = Ok a → admission_inv a ∧ reservations a = ∅.
Proof.
  unfold new_admission. destruct (capacity <=? 0) eqn:E; [done|]. destruct (negb _) eqn:E2; [done|]. intros [= <-]. breflect. split; [|done].
  assert (Hl : map_Forall (λ _ v, 0 < v) limits) by (intros k v Hk; by destruct (E2 k v Hk) as (_ & ? & _)).
  split; cbn [total_bytes reservations capacity_bytes component_limits]; [by rewrite map_sum_empty|intros c; by rewrite map_sum_empty|lia|by split| |done|done|constructor].
  intros c. unfold component_total, component_limit. cbn. rewrite lookup_empty. destruct (limits !! c) as [v|] eqn:Ev; cbn; [apply Hl in Ev; lia|lia].
Qed.

(** A reservation takes exactly what it says, and only where it fits. *)
Lemma reserve_effect {lost} name d target source scratch a : books lost a →
  match reserve name d target source scratch a with
  | (Ok r, a') => books lost a' ∧ reservation_id r = next_id a ∧ reservations a' = <[next_id a := r]> (reservations a) ∧
      capacity_bytes a' = capacity_bytes a ∧ next_id a' = next_id a + 1 ∧ reservation_ok r ∧ d_component d = Some (component r) ∧
      source_stream_bytes r = source ∧ scratch_bytes r = scratch ∧
      ∃ dims size, d_shape d = Some (Some <$> dims) ∧ dtype_bytes target = Some size ∧ destination_bytes r = foldr Z.mul 1 dims * size ∧ Forall (λ m, 0 <= m) dims
  | (Raise _, a') => a' = a
  end.
Proof.
  intros Ha. unfold reserve. destruct (d_component d) as [c|], (d_shape d) as [shape|]; try done.
  destruct (dtype_bytes target) as [size|] eqn:Hsize; [|done]. destruct (_ || _) eqn:E1; [done|]. breflect.
  assert (Hpos : 0 < size) by (unfold dtype_bytes in Hsize; repeat case_match; simplify_eq; lia).
  destruct (shape_elements _ _ _) as [n|e] eqn:Hn; [|done]. destruct (shape_elements_spec _ _ _ _ Hpos Hn) as (Hn0 & dims & -> & -> & Hdims & _).
  set (dest := foldr Z.mul 1 dims * size) in *. set (bytes := source + dest + scratch) in *.
  destruct (_ || _) eqn:E2; [done|]. breflect. set (r := mkReservation _ _ _ _ _ _ _ _ _).
  assert (Hdest : 0 <= dest) by (unfold dest; nia). assert (Hr : reservation_ok r) by (split; cbn; try done; lia).
  assert (Hfresh : reservations a !! next_id a = None).
  { destruct (reservations a !! next_id a) as [r'|] eqn:E; [|done]. destruct (ai_reservation _ Ha _ _ E) as (_ & ? & _). lia. }
  split. 2: { split_and!; try done. exists dims, size. split_and!; done. }
  split; cbn.
  - rewrite map_sum_insert, (ai_total _ Ha) by done. cbn. lia.
  - intros c'. unfold component_total in *. cbn. rewrite component_insert, map_sum_insert by done. pose proof (ai_component _ Ha c') as Hcc. unfold component_total in Hcc. unfold share at 1. cbn.
    case_decide as Hc; [subst c'; rewrite decide_True by done; fold bytes; lia|rewrite decide_False by done; lia].
  - lia.
  - apply (ai_limits _ Ha).
  - intros c'. unfold component_total, component_limit in *. cbn. rewrite component_insert. case_decide as Hc; [subst c'; lia|]. apply (ai_limit _ Ha).
  - intros i r'. rewrite lookup_insert_Some. intros [[<- <-]|[Hne Hr']]; [cbn; split_and!; [done|lia|done]|].
    destruct (ai_reservation _ Ha _ _ Hr') as (H6 & H7 & H8). split_and!; [done|lia|done].
  - rewrite Zsize_insert_fresh by done. lia.
  - apply (ai_lost _ Ha).
Qed.
(** An entry shrinks. *)
Lemma shrink_inv {lost} r k a a' : books lost a → reservations a !! reservation_id r = Some r → reservation_id k = reservation_id r → component k = component r →
  reservation_ok k → reserved_bytes k <= reserved_bytes r →
  capacity_bytes a' = capacity_bytes a → component_limits a' = component_limits a → next_id a' = next_id a →
  reservations a' = <[reservation_id r := k]> (reservations a) → total_bytes a' = total_bytes a - (reserved_bytes r - reserved_bytes k) →
  (∀ c, component_total c a' = component_total c a - (if decide (c = component r) then reserved_bytes r - reserved_bytes k else 0)) → books lost a'.
Proof.
  intros Ha Hr Hid Hc Hk Hle E1 E2 E3 E4 E5 E6. split; unfold component_limit; rewrite ?E1, ?E2, ?E3, ?E4, ?E5.
  - rewrite (map_sum_replace _ _ _ _ _ Hr), (ai_total _ Ha). lia.
  - intros c. rewrite E6, (map_sum_replace _ _ _ _ _ Hr), (ai_component _ Ha). unfold share. rewrite Hc. repeat case_decide; simplify_eq; lia.
  - pose proof (ai_capacity _ Ha). lia.
  - apply (ai_limits _ Ha).
  - intros c. rewrite E6. pose proof (ai_limit _ Ha c) as Hl. unfold component_limit in Hl. case_decide; lia.
  - intros i r'. rewrite lookup_insert_Some. intros [[<- <-]|[_ Hr']]; [|by apply (ai_reservation _ Ha)].
    destruct (ai_reservation _ Ha _ _ Hr) as (_ & ? & _). by split_and!.
  - unfold Zsize. rewrite map_size_insert_Some by (by exists r). apply (ai_count _ Ha).
  - apply (ai_lost _ Ha).
Qed.
(** An entry goes. *)
Lemma delete_inv {lost} r a a' : books lost a → reservations a !! reservation_id r = Some r →
  capacity_bytes a' = capacity_bytes a → component_limits a' = component_limits a → next_id a' = next_id a →
  reservations a' = delete (reservation_id r) (reservations a) → total_bytes a' = total_bytes a - reserved_bytes r →
  (∀ c, component_total c a' = component_total c a - (if decide (c = component r) then reserved_bytes r else 0)) → books lost a'.
Proof.
  intros Ha Hr E1 E2 E3 E4 E5 E6. destruct (ai_reservation _ Ha _ _ Hr) as (_ & _ & Hok). pose proof (reserved_nonneg r Hok).
  split; unfold component_limit; rewrite ?E1, ?E2, ?E3, ?E4, ?E5.
  - rewrite (map_sum_delete _ _ _ _ Hr), (ai_total _ Ha). lia.
  - intros c. rewrite E6, (map_sum_delete _ _ _ _ Hr), (ai_component _ Ha). unfold share. repeat case_decide; simplify_eq; lia.
  - pose proof (ai_capacity _ Ha). lia.
  - apply (ai_limits _ Ha).
  - intros c. rewrite E6. pose proof (ai_limit _ Ha c) as Hl. unfold component_limit in Hl. case_decide; lia.
  - intros i r' [_ Hr']%lookup_delete_Some. by apply (ai_reservation _ Ha).
  - rewrite (Zsize_delete _ _ _ Hr). pose proof (ai_count _ Ha). lia.
  - apply (ai_lost _ Ha).
Qed.
(** A component without an entry holds reservations of no bytes only. *)
Lemma missing_component {lost} r a : books lost a → reservations a !! reservation_id r = Some r → component_bytes a !! component r = None → reserved_bytes r = 0.
Proof.
  intros Ha Hr Hc. destruct (ai_reservation _ Ha _ _ Hr) as (_ & _ & Hok). pose proof (reserved_nonneg r Hok).
  pose proof (ai_component _ Ha (component r)) as Ht. unfold component_total in Ht. rewrite Hc in Ht. cbn in Ht.
  pose proof (lost_share (component r) _ (ai_lost _ Ha)).
  assert (share (component r) r <= map_sum (share (component r)) (reservations a)).
  { apply (map_sum_elem _ _ (reservation_id r)); [done|]. intros i b Hb. apply share_nonneg. by apply (ai_reservation _ Ha i). }
  unfold share at 1 in H1. rewrite decide_True in H1 by done. lia.
Qed.
Lemma component_delete c c' (m : gmap string Z) : default 0 (delete c m !! c') = if decide (c' = c) then 0 else default 0 (m !! c').
Proof. case_decide as H; [subst; by rewrite lookup_delete_eq|by rewrite lookup_delete_ne]. Qed.
Lemma release_effect {lost} r a : books lost a → reservations a !! reservation_id r = Some r →
  let '(x, a') := release r a in
  books lost a' ∧ reservations a' = delete (reservation_id r) (reservations a) ∧ total_bytes a' = total_bytes a - reserved_bytes r ∧
  next_id a' = next_id a ∧ capacity_bytes a' = capacity_bytes a ∧ (0 < reserved_bytes r → x = Ok ()) ∧
  (x = Ok () ∨ x = Raise (KeyError (component r)) ∧ component_bytes a !! component r = None).
Proof.
  intros Ha Hr. unfold release. rewrite bool_decide_eq_true_2 by done. cbn [negb].
  destruct (component_bytes a !! component r) as [n|] eqn:Hc.
  - split; [|by split_and!; auto]. apply (delete_inv r a); try done. intros c. unfold component_total. cbn.
    destruct (n - reserved_bytes r =? 0) eqn:E; breflect; rewrite ?component_delete, ?component_insert; case_decide as Hcc;
      try (subst c; rewrite Hc; cbn); lia.
  - pose proof (missing_component r a Ha Hr Hc). split; [|split_and!; try done; [lia|by right]].
    apply (delete_inv r a); try done. intros c. unfold component_total. cbn. case_decide; lia.
Qed.
Lemma retained_ok r : reservation_ok r → reservation_ok (retained r) ∧ reserved_bytes (retained r) <= reserved_bytes r.
Proof. intros []. split; [split; cbn; lia|cbn; lia]. Qed.
Lemma retain_effect {lost} r a : books lost a → reservations a !! reservation_id r = Some r →
  let '(x, a') := retain_destination r a in
  books lost a' ∧ reservations a' = <[reservation_id r := retained r]> (reservations a) ∧ next_id a' = next_id a ∧ capacity_bytes a' = capacity_bytes a ∧
  (0 < reserved_bytes r → x = Ok (retained r)) ∧ (x = Ok (retained r) ∨ x = Raise (KeyError (component r)) ∧ component_bytes a !! component r = None).
Proof.
  intros Ha Hr. destruct (ai_reservation _ Ha _ _ Hr) as (_ & _ & Hok). destruct (retained_ok r Hok) as [Hk Hle].
  unfold retain_destination. rewrite bool_decide_eq_true_2 by done. cbn [negb]. destruct (component_bytes a !! component r) as [n|] eqn:Hc.
  - split; [|by split_and!; auto]. apply (shrink_inv r (retained r) a); try done. intros c. unfold component_total. cbn.
    rewrite component_insert. case_decide as Hcc; [subst c; rewrite Hc; cbn; lia|lia].
  - pose proof (missing_component r a Ha Hr Hc). pose proof (reserved_nonneg _ Hk). split; [|split_and!; try done; [lia|by right]].
    apply (shrink_inv r (retained r) a); try done. intros c. unfold component_total. cbn [component_bytes]. case_decide; lia.
Qed.
Lemma put_reservation_inv {lost} r a k : books lost a → reservations a !! reservation_id r = Some r → reservation_id k = reservation_id r → component k = component r →
  reservation_ok k → reserved_bytes k = reserved_bytes r → books lost (put_reservation k a).
Proof.
  intros Ha Hr H1 H2 H3 H4. apply (shrink_inv r k a); try done; [lia|cbn; by rewrite H1|cbn; lia|]. intros c. unfold component_total. cbn. case_decide; lia.
Qed.

(** What [release] drops without giving back: the entry under the number of a reservation
    that is not the one in the table. *)
Definition dropped r a : list TensorLoadReservation :=
  match reservations a !! reservation_id r with
  | Some q => if decide (q = r) then [] else [q]
  | None => []
  end.
Lemma release_refused lost r a : books lost a → reservations a !! reservation_id r ≠ Some r →
  let '(x, a') := release r a in
  books (dropped r a ++ lost) a' ∧ (∃ m, x = Raise (ValueError m)) ∧
  reservations a' = delete (reservation_id r) (reservations a) ∧ total_bytes a' = total_bytes a ∧ ∀ c, component_total c a' = component_total c a.
Proof.
  intros Ha Hr. unfold release. rewrite bool_decide_eq_false_2 by done. cbn [negb]. split; [|by split_and!; eauto].
  unfold dropped. destruct (reservations a !! reservation_id r) as [q|] eqn:Hq.
  - rewrite decide_False by congruence. destruct (ai_reservation _ Ha _ _ Hq) as (_ & _ & Hok).
    destruct Ha as [H1 H2 H3 H4 H5 H6 H7 H8]. split; cbn; try done.
    + rewrite (map_sum_delete _ _ _ _ Hq), H1. unfold Zsum. cbn. lia.
    + intros c. rewrite (map_sum_delete _ _ _ _ Hq). unfold component_total in *. cbn. rewrite (H2 c). unfold Zsum. cbn. lia.
    + intros i r' [_ Hr']%lookup_delete_Some. by apply H6.
    + rewrite (Zsize_delete _ _ _ Hq). lia.
    + by constructor.
  - destruct Ha as [H1 H2 H3 H4 H5 H6 H7 H8]. split; cbn; rewrite ?delete_id by done; done.
Qed.
Lemma dropped_current r a : reservations a !! reservation_id r = Some r → dropped r a = [].
Proof. intros Hr. unfold dropped. by rewrite Hr, decide_True. Qed.

(** ** Runs *)

(** Calls by threads that pass on what they were given: a reservation is released or
    retained as it is in the table. *)
Inductive astep a : Qwen4MemoryAdmission → Prop :=
| as_reserve name d target source scratch : astep a (reserve name d target source scratch a).2
| as_stream r plan : reservations a !! reservation_id r = Some r → astep a (put_reservation (streamed plan r) a)
| as_retain r : reservations a !! reservation_id r = Some r → astep a (retain_destination r a).2
| as_release r : reservations a !! reservation_id r = Some r → astep a (release r a).2.
Lemma astep_inv {lost} a a' : books lost a → astep a a' → books lost a'.
Proof.
  intros Ha [name d target source scratch|r plan Hr|r Hr|r Hr].
  - pose proof (reserve_effect name d target source scratch a Ha) as H. destruct (reserve _ _ _ _ _ a) as [[r|e] a1]; cbn; [by destruct H|by subst].
  - destruct (ai_reservation _ Ha _ _ Hr) as (_ & _ & []). by apply (put_reservation_inv r).
  - pose proof (retain_effect r a Ha Hr) as H. destruct (retain_destination r a). apply H.
  - pose proof (release_effect r a Ha Hr) as H. destruct (release r a). apply H.
Qed.
(** Calls by any threads with any arguments, and what refused releases dropped. *)
Inductive tstep : Qwen4MemoryAdmission * list TensorLoadReservation → Qwen4MemoryAdmission * list TensorLoadReservation → Prop :=
| ts_reserve name d target source scratch a lost : tstep (a, lost) ((reserve name d target source scratch a).2, lost)
| ts_stream r plan a lost : reservations a !! reservation_id r = Some r → tstep (a, lost) (put_reservation (streamed plan r) a, lost)
| ts_retain r a lost : tstep (a, lost) ((retain_destination r a).2, lost)
| ts_release r a lost : tstep (a, lost) ((release r a).2, dropped r a ++ lost).
Lemma retain_refused r a : reservations a !! reservation_id r ≠ Some r → ∃ m, retain_destination r a = (Raise (ValueError m), a).
Proof. intros Hr. unfold retain_destination. rewrite bool_decide_eq_false_2 by done. by eexists. Qed.
Lemma tstep_inv s s' : books s.2 s.1 → tstep s s' → books s'.2 s'.1.
Proof.
  intros Ha Hs. destruct Hs as [name d target source scratch a lost|r plan a lost Hr|r a lost|r a lost]; cbn in *.
  - apply (astep_inv a); [done|constructor].
  - apply (astep_inv a); [done|by constructor].
  - destruct (decide (reservations a !! reservation_id r = Some r)) as [Hr|Hr]; [apply (astep_inv a); [done|by constructor]|].
    by destruct (retain_refused r a Hr) as [m ->].
  - destruct (decide (reservations a !! reservation_id r = Some r)) as [Hr|Hr].
    + rewrite dropped_current by done. apply (astep_inv a); [done|by constructor].
    + pose proof (release_refused lost r a Ha Hr) as H. destruct (release r a). apply H.
Qed.
Lemma trun_inv s s' : books s.2 s.1 → rtc tstep s s' → books s'.2 s'.1.
Proof. intros Ha Hr. by apply (rtc_invariant tstep (λ s, books s.2 s.1) s s' tstep_inv). Qed.
(** [reserve_numeric_stream] is the first two steps, whatever comes between them. *)
Lemma reserve_stream_steps others name d target plan metadata scratch a : admission_inv a → (∀ b, rtc astep b (others b)) →
  rtc astep a (reserve_numeric_stream others name d target plan metadata scratch a).2.
Proof.
  intros Ha Ho. unfold reserve_numeric_stream. destruct (_ || _); [done|]. unfold bind, modify.
  pose proof (as_reserve a name d target (NumericStream.working_set_bytes plan + metadata) scratch) as Hs.
  destruct (reserve _ _ _ _ _ a) as [[r|e] a1]; cbn in Hs |- *; [|by apply rtc_once]. eapply rtc_l; [exact Hs|].
  case_bool_decide as Hr; [|apply Ho]. eapply rtc_r; [apply Ho|]. by constructor.
Qed.

(** ** Theorems *)

(** C19: in every state that calls of any threads with any arguments can reach, the
    reserved bytes are exactly those of the reservations in the table and of those that a
    release of a reservation not in the table dropped, within the capacity, and so are
    those of each component, within its limit; at most 1024 loads are active, and with none
    left and none dropped nothing is reserved.  Releasing a reservation of the table takes
    it out and gives back its bytes, and retaining it gives back all but the destination's;
    both return, or raise [KeyError] for a reservation of no bytes.  A refused release
    raises [ValueError] and changes no total, but takes out the entry under its number; a
    refused retention or request changes nothing. *)
Theorem admission_exact capacity limits a0 a lost : new_admission capacity limits = Ok a0 → rtc tstep (a0, []) (a, lost) →
  total_bytes a = map_sum reserved_bytes (reservations a) + Zsum (reserved_bytes <$> lost) ∧ 0 <= total_bytes a <= capacity_bytes a ∧
  (∀ c, component_total c a = map_sum (share c) (reservations a) + Zsum (share c <$> lost) ∧ 0 <= component_total c a <= component_limit c a) ∧
  Zsize (reservations a) <= MAX_ACTIVE_TENSOR_LOADS ∧
  (reservations a = ∅ → lost = [] → total_bytes a = 0 ∧ ∀ c, component_total c a = 0) ∧
  (∀ i r, reservations a !! i = Some r →
     (∃ x a', release r a = (x, a') ∧ reservations a' = delete i (reservations a) ∧ total_bytes a' = total_bytes a - reserved_bytes r ∧
        (x = Ok () ∨ x = Raise (KeyError (component r)) ∧ reserved_bytes r = 0)) ∧
     (∃ x a', retain_destination r a = (x, a') ∧ reservations a' = <[i := retained r]> (reservations a) ∧
        total_bytes a' = total_bytes a - source_stream_bytes r - scratch_bytes r ∧
        (x = Ok (retained r) ∨ x = Raise (KeyError (component r)) ∧ reserved_bytes r = 0))) ∧
  (∀ r, reservations a !! reservation_id r ≠ Some r →
     (∃ m a', release r a = (Raise (ValueError m), a') ∧ reservations a' = delete (reservation_id r) (reservations a) ∧
        total_bytes a' = total_bytes a ∧ ∀ c, component_total c a' = component_total c a) ∧
     ∃ m, retain_destination r a = (Raise (ValueError m), a)) ∧
  (∀ name d target source scratch e a', reserve name d target source scratch a = (Raise e, a') → a' = a).
Proof.
  intros Hnew Hrun. pose proof (trun_inv (a0, []) (a, lost) (proj1 (loader_admission_inv _ _ _ Hnew)) Hrun) as Ha. cbn in Ha.
  pose proof (ai_total _ Ha) as Hsum. pose proof (total_share ""%string a Ha). split_and!; try lia.
  - apply (ai_capacity _ Ha).
  - intros c. pose proof (total_share c a Ha). pose proof (ai_limit _ Ha c). split; [apply (ai_component _ Ha)|lia].
  - apply (ai_count _ Ha).
  - intros He ->. rewrite He, map_sum_empty in Hsum. split; [done|]. intros c. by rewrite (ai_component _ Ha), He, map_sum_empty.
  - intros i r Hr. destruct (ai_reservation _ Ha _ _ Hr) as (Hid & _ & Hok). rewrite <-Hid in Hr |- *.
    pose proof (release_effect r a Ha Hr) as Hrel. pose proof (retain_effect r a Ha Hr) as Hret.
    pose proof (missing_component r a Ha Hr) as Hmiss. split.
    + destruct (release r a) as [x a']. exists x, a'. destruct Hrel as (_ & H1 & H2 & _ & _ & _ & H3). split_and!; try done. naive_solver.
    + destruct (retain_destination r a) as [x a']. exists x, a'. destruct Hret as (Ha' & H1 & _ & _ & _ & H3). split; [done|]. split; [done|].
      split; [|naive_solver]. rewrite (ai_total _ Ha'), H1, (map_sum_replace _ _ _ _ _ Hr), Hsum. cbn. rewrite (ro_sum _ Hok). lia.
  - intros r Hr. split; [|by apply retain_refused]. pose proof (release_refused lost r a Ha Hr) as Hrel.
    destruct (release r a) as [x a']. destruct Hrel as (_ & [m ->] & ? & ? & ?). by exists m, a'.
  - intros name d target source scratch e a' Hres. pose proof (reserve_effect name d target source scratch a Ha) as H1. by rewrite Hres in H1.
Qed.
Definition demo_tensor : Descriptor := mkDescriptor true (Some "mlp"%string) (Some [Some 4; Some 8]) (Some "F32"%string) (Some 128).
Definition demo_admission : Qwen4MemoryAdmission := mkAdmission 1000 ∅ 1 ∅ 0 ∅.
Definition demo_reserved : Qwen4MemoryAdmission := (reserve "w" demo_tensor "F32" 64 32 demo_admission).2.
Lemma admission_exact_witness : new_admission 1000 ∅ = Ok demo_admission ∧ total_bytes demo_reserved = 224 ∧
  total_bytes demo_reserved = map_sum reserved_bytes (reservations demo_reserved) + 0.
Proof.
  assert (Hn : new_admission 1000 ∅ = Ok demo_admission) by (vm_compute; reflexivity). split; [exact Hn|]. split; [vm_compute; reflexivity|].
  exact (proj1 (admission_exact 1000 ∅ demo_admission demo_reserved [] Hn
    (rtc_once _ _ (ts_reserve "w" demo_tensor "F32" 64 32 demo_admission [])))).
Defined.

(** *** The loader gives its reservation back *)

Section loader_spec.
Context {Chunks : Type} (descriptor : string → res exn Descriptor) (maximum_chunk_bytes : Z).
Context (iter_tensor_chunks : string → res exn Chunks) (iter_tensor_axis0_slice : string → Z → Z → res exn Chunks).

(** Whatever the block does with other reservations, also when it raises. *)
Lemma with_reservation_gives_back {X} name d target source scratch c (body : TensorLoadLease (Chunks := Chunks) → Py Qwen4MemoryAdmission X) a :
  admission_inv a →
  (∀ r a1, admission_inv a1 → reservations a1 !! reservation_id r = Some r →
     let a2 := (body (mkLease r d c) a1).2 in admission_inv a2 ∧ reservations a2 !! reservation_id r = Some r ∧ next_id a1 <= next_id a2) →
  admission_inv (with_reservation name d target source scratch (Ok c) body a).2 ∧
  reservations (with_reservation name d target source scratch (Ok c) body a).2 !! next_id a = None.
Proof.
  intros Ha Hbody. unfold with_reservation, bind, lift, finally. pose proof (reserve_effect name d target source scratch a Ha) as Hres.
  assert (Hnone : reservations a !! next_id a = None).
  { destruct (reservations a !! next_id a) as [r'|] eqn:E; [|done]. destruct (ai_reservation _ Ha _ _ E) as (_ & ? & _). lia. }
  destruct (reserve _ _ _ _ _ a) as [[r|e] a1]; [|by subst]. destruct Hres as (Ha1 & Hid & Hr & _).
  assert (Hin : reservations a1 !! reservation_id r = Some r) by (by rewrite Hr, Hid, lookup_insert_eq).
  destruct (Hbody r a1 Ha1 Hin) as (Ha2 & Hin2 & _). destruct (body _ a1) as [x a2]. cbn in *.
  pose proof (release_effect r a2 Ha2 Hin2) as Hrel. destruct (release r a2) as [[[]|e] a3]; cbn; destruct Hrel as (Ha3 & -> & _);
    by rewrite <-Hid, lookup_delete_eq.
Qed.
(** A slice along the first axis is the same share of the rows and of the bytes. *)
Lemma axis0_slice_share name start count d : axis0_slice_descriptor descriptor name start count = Ok d → ∃ full rows dims,
  descriptor name = Ok full ∧ d_shape full = Some (Some rows :: dims) ∧ d_shape d = Some (Some count :: dims) ∧
  0 <= start ∧ 0 < count ∧ start + count <= rows ∧
  ∃ bytes part, d_bytes full = Some bytes ∧ d_bytes d = Some part ∧ part * rows = bytes * count.
Proof.
  unfold axis0_slice_descriptor. destruct (descriptor name) as [full|]; [|done]. destruct (_ || _); [done|].
  destruct (d_shape full) as [[|[rows|] dims]|] eqn:Hs; try done. destruct (d_bytes full) as [bytes|] eqn:Hb; [|done].
  destruct (_ || _) eqn:E; [done|]. intros [= <-]. breflect. exists full, rows, dims. split_and!; try done; try lia.
  exists bytes, (bytes / rows * count). split_and!; try done. pose proof (Z.div_mod bytes rows ltac:(lia)). nia.
Qed.
End loader_spec.

(** *** Releases that do not give back *)

(** The reservation that [reserve] returned is stale once its destination is retained:
    releasing it raises, and drops the entry with its bytes still counted. *)
Definition demo_empty : Descriptor := mkDescriptor true (Some "mlp"%string) (Some [Some 0]) (Some "F32"%string) (Some 0).
Lemma stale_release_leaks : ∃ r a1 k a2 a3, reserve "w" demo_tensor "F32" 64 32 demo_admission = (Ok r, a1) ∧
  retain_destination r a1 = (Ok k, a2) ∧ is_ok (release r a2).1 = false ∧ (release r a2).2 = a3 ∧ reservations a3 = ∅ ∧ total_bytes a3 = 128.
Proof. do 5 eexists. repeat split; vm_compute; reflexivity. Qed.
(** Of a reservation with bytes and one without in a component, the release of the first
    removes the component's entry, and the release of the second raises [KeyError]. *)
Lemma empty_release_key_error : ∃ r a1 q a2 a3, reserve "w" demo_tensor "F32" 64 32 demo_admission = (Ok r, a1) ∧
  reserve "e" demo_empty "F32" 0 0 a1 = (Ok q, a2) ∧ release r a2 = (Ok (), a3) ∧ (release q a3).1 = Raise (KeyError "mlp").
Proof. do 5 eexists. repeat split; vm_compute; reflexivity. Qed.
End TensorAdmission.
