(* ===== verification/NumericFileStream.v ===== *)
(** * Tiles converted from files (numeric_file_stream.py)

    [NVFP4FileTileProvider] converts the tiles of an NVFP4 tensor on demand from two open
    files, for the streams of NumericStream.v.  The calls of the operating system are the
    operations of a class over a state of the host, which a provider carries with it. *)

From S2P Require Import Prelude Types PyFloat PyBytes NumericLayout NumericFormats NumericStream.
Import PyFloat PyBytes.

Module NumericFileStream.
Import NumericLayout NumericFormats.

Definition HASH_CHUNK_BYTES : Z := 1024 * 1024.

(** What [os.fstat] says of a file; the first field is [stat.S_ISREG]. *)
Record Stat := mkStat { st_regular : bool; st_uid : Z; st_mode : Z; st_dev : Z; st_ino : Z; st_size : Z; st_mtime_ns : Z }.
(** [os.open] for reading without following links, [os.fstat], [os.pread] of a number of
    bytes at an offset, [os.close], [os.getuid]. *)
Class OS (H : Type) := {
  os_open : string → Py H Z;
  os_fstat : Z → Py H Stat;
  os_pread : Z → Z → Z → Py H bytes;
  os_close : Z → Py H ();
  os_getuid : Z;
}.
(** The tuple that identifies an open file. *)
Definition Identity : Type := Z * Z * Z * Z.
Definition identity_of (st : Stat) : Identity := (st_dev st, st_ino st, st_size st, st_mtime_ns st).
Definition identity_size (i : Identity) : Z := i.1.2.

Section provider.
Context {H : Type} `{OS H}.
Context (sha_bytes : bytes → string) (sha_text : string → string) (plan_id : AnyPlan → string) (float_hex : float → string).

Record NVFP4FileTileProvider := mkProvider {
  descriptor : NumericFormatDescriptor;
  geometry : option TensorGeometry;
  plan : AnyPlan;
  global_scale : float;
  packed_fd : option Z;
  packed_identity : Identity;
  scales_fd : option Z;
  scales_identity : Identity;
  scaled_payload_sha256 : string;
  source_digest : string;
  target_digest : string;
  next_index : Z;
  closed : bool;
  os : H;
}.
Implicit Types (p : NVFP4FileTileProvider) (h : H).
Definition with_os h p : NVFP4FileTileProvider :=
  mkProvider (descriptor p) (geometry p) (plan p) (global_scale p) (packed_fd p) (packed_identity p) (scales_fd p) (scales_identity p)
    (scaled_payload_sha256 p) (source_digest p) (target_digest p) (next_index p) (closed p) h.
Definition with_files (a : option Z) (b : option Z) (i : Identity) p : NVFP4FileTileProvider :=
  mkProvider (descriptor p) (geometry p) (plan p) (global_scale p) a (packed_identity p) b i
    (scaled_payload_sha256 p) (source_digest p) (target_digest p) (next_index p) (closed p) (os p).
Definition with_progress (n : Z) (c : bool) p : NVFP4FileTileProvider :=
  mkProvider (descriptor p) (geometry p) (plan p) (global_scale p) (packed_fd p) (packed_identity p) (scales_fd p) (scales_identity p)
    (scaled_payload_sha256 p) (source_digest p) (target_digest p) n c (os p).
(** A call of the operating system by a method. *)
Definition system {A} (m : Py H A) : Py NVFP4FileTileProvider A := zoom os with_os m.

(** [_open_region] *)
Definition open_region (path : string) (expected_size : Z) (label : string) : Py H (Z * Identity) :=
  let! fd := os_open path in
  catch
    (let! info := os_fstat fd in
     if negb (st_regular info) || negb (st_uid info =? os_getuid) || negb (Z.land (st_mode info) 63 =? 0) || negb (st_size info =? expected_size)
     then raise (ValueError ("file-backed NVFP4 " +:+ label +:+ " file is unsafe"))
     else ret (fd, identity_of info))
    (λ e, os_close fd ;;; raise e).
(** [_check_identity]; a descriptor of [None] is refused by [os.fstat]. *)
Definition check_identity (fd : option Z) (identity : Identity) (label : string) : Py H () :=
  match fd with
  | None => raise (TypeError "argument should be integer")
  | Some fd =>
      let! info := os_fstat fd in
      if bool_decide (identity_of info = identity) then ret ()
      else raise (ValueError ("file-backed NVFP4 " +:+ label +:+ " file changed during streaming"))
  end.
Definition read_at (fd : option Z) (n off : Z) : Py H bytes :=
  match fd with None => raise (TypeError "argument should be integer") | Some fd => os_pread fd n off end.
(** The test of [_hash_fd] on one scale. *)
Definition valid_scale (g : float) (code : Z) : res exn () :=
  match scale code with
  | Raise e => Raise e
  | Ok s => check (is_finite (fmul (fmul s g) (of_Z 6))) (ValueError "file-backed NVFP4 scale is invalid") ()
  end.
(** The loop of [_hash_fd], from [offset], over what was hashed; at least a byte is read per
    round. *)
Fixpoint hash_loop (fuel : nat) (fd : option Z) (size : Z) (validate : option float) (offset : Z) (acc : bytes) : Py H bytes :=
  match fuel with
  | O => ret acc
  | S fuel' =>
      if offset <? size then
        let! chunk := read_at fd (Z.min HASH_CHUNK_BYTES (size - offset)) offset in
        match chunk with
        | [] => raise (ValueError "file-backed NVFP4 source is truncated")
        | _ =>
            lift (match validate with None => Ok () | Some g => fold_res (λ _ code, valid_scale g code) chunk () end) ;;;
            hash_loop fuel' fd size validate (offset + Zlen chunk) (acc ++ chunk)
        end
      else ret acc
  end.
(** [_hash_fd]; [validate] is the global scale when the scales are checked. *)
Definition hash_fd (fd : option Z) (identity : Identity) (validate : option float) : Py H string :=
  let! data := hash_loop (S (Z.to_nat (identity_size identity))) fd (identity_size identity) validate 0 [] in
  check_identity fd identity "source" ;;; ret (sha_bytes data).

(** [close] *)
Definition close : Py NVFP4FileTileProvider () :=
  let close_one (fd : option Z) := match fd with None => ret () | Some fd => system (os_close fd) end in
  let! p := get in
  close_one (packed_fd p) ;;; modify (λ p, with_files None (scales_fd p) (scales_identity p) p) ;;;
  close_one (scales_fd p) ;;; modify (λ p, with_files (packed_fd p) None (scales_identity p) p) ;;;
  modify (λ p, with_progress (next_index p) true p).
(** The number of block scales of the constructor. *)
Definition scale_count (d : NumericFormatDescriptor) (geo : option TensorGeometry) : Z :=
  match geo with None => (elements d + block_size d - 1) / block_size d | Some g => geo_scale_count g end.
(** The constructor's test of the last nibble. *)
Definition check_padding p : Py NVFP4FileTileProvider () :=
  if elements (descriptor p) mod 2 =? 0 then ret ()
  else
    let! l := system (read_at (packed_fd p) 1 (identity_size (packed_identity p) - 1)) in
    let padding := match l with
      | [b] => if str_eqb (packing (descriptor p)) "low_nibble_first" then Z.shiftr b 4 else Z.land b 15
      | _ => 1
      end in
    guard_raise (negb (padding =? 0)) (ValueError "file-backed NVFP4 padding nibble is invalid").
(** The body of the constructor's [try]: a provider whose packed file is open. *)
Definition construct (scales_path packed_sha scales_sha : string) : Py NVFP4FileTileProvider () :=
  let! p := get in
  let! s := system (open_region scales_path (scale_count (descriptor p) (geometry p)) "scale") in
  modify (λ p, with_files (packed_fd p) (Some s.1) s.2 p) ;;;
  let! actual_packed := system (hash_fd (packed_fd p) (packed_identity p) None) in
  let! actual_scales := system (hash_fd (Some s.1) s.2 (Some (global_scale p))) in
  if negb (str_eqb actual_packed packed_sha) || negb (str_eqb actual_scales scales_sha)
  then raise (ValueError "file-backed NVFP4 source hash mismatch")
  else
    check_padding p ;;;
    let digest payload role := numeric_content_digest_from_hashes sha_text plan_id float_hex (plan p) payload actual_scales (global_scale p) role in
    let mismatch := ValueError "file-backed NVFP4 content binding mismatch" in
    let! source := lift (digest actual_packed "source") in
    guard_raise (negb (str_eqb source (source_digest p))) mismatch ;;;
    let! target := lift (digest (scaled_payload_sha256 p) "target") in
    guard_raise (negb (str_eqb target (target_digest p))) mismatch.
(** [__init__] *)
Definition new_provider (packed_path scales_path : string) (d : NumericFormatDescriptor) (geo : option TensorGeometry) (g : float)
    (packed_sha scales_sha payload_sha source target : string) : Py H NVFP4FileTileProvider :=
  let! pl := lift (plan_for d geo) in
  if negb (is_finite g) || fltb g zero then raise (ValueError "file-backed NVFP4 global scale is invalid")
  else
    let! f := open_region packed_path ((elements d + 1) / 2) "packed" in
    λ h,
    let p := mkProvider d geo pl g (Some f.1) f.2 None (0, 0, 0, 0) payload_sha source target 0 false h in
    match construct scales_path packed_sha scales_sha p with
    | (Ok _, p') => (Ok p', os p')
    | (Raise e, p') => match close p' with
                       | (Ok _, p'') => (Raise e, os p'')
                       | (Raise e', p'') => (Raise e', os p'')
                       end
    end.
(** [streaming_plan] *)
Definition streaming_plan (tile_bytes buffer_count : Z) p : res exn NumericStream.NumericStreamingPlan :=
  NumericStream.make_plan (NumericStream.mkPlan (scaled_payload_sha256 p) (elements (descriptor p)) (Z.min tile_bytes (elements (descriptor p))) buffer_count 1 1).
(** The code of an element, read from a tile that starts at a byte. *)
Definition tile_code (packed : bytes) (order : string) (first_byte element : Z) : res exn Z :=
  let shift := if str_eqb order "low_nibble_first" then 4 * (element mod 2) else 4 * (1 - element mod 2) in
  match packed !! Z.to_nat (element / 2 - first_byte) with
  | Some b => Ok (Z.land (Z.shiftr b shift) 15)
  | None => Raise (IndexError "index out of range")
  end.
(** [read_tile] *)
Definition read_tile (index offset length : Z) : Py NVFP4FileTileProvider bytes := λ p,
  if closed p then (Raise (ValueError "file-backed NVFP4 provider is closed"), p)
  else if negb (index =? next_index p) || (offset <? 0) || (length <=? 0) || (offset + length >? elements (descriptor p))
  then (Raise (ValueError "file-backed NVFP4 tile request is invalid or out of order"), p)
  else
    let first_byte := offset / 2 in
    let final_byte := (offset + length + 1) / 2 in
    (system (check_identity (packed_fd p) (packed_identity p) "packed") ;;;
     system (check_identity (scales_fd p) (scales_identity p) "scale") ;;;
     let! packed := system (read_at (packed_fd p) (final_byte - first_byte) first_byte) in
     if negb (Zlen packed =? final_byte - first_byte) then raise (ValueError "file-backed NVFP4 packed tile is truncated")
     else
       let! codes := lift (map_res (tile_code packed (packing (descriptor p)) first_byte) (Z.add offset <$> range length)) in
       modify (λ p, with_progress (next_index p + 1) (closed p) p) ;;; ret (int8_of <$> codes)) p.
(** [scale_code] *)
Definition scale_code (element_index : Z) : Py NVFP4FileTileProvider Z := λ p,
  if closed p || negb ((0 <=? element_index) && (element_index <? elements (descriptor p)))
  then (Raise (ValueError "file-backed NVFP4 scale request is invalid"), p)
  else
    match match geometry p with None => Ok (element_index / block_size (descriptor p)) | Some g => scale_index g element_index end with
    | Raise e => (Raise e, p)
    | Ok i =>
        (let! value := system (read_at (scales_fd p) 1 i) in
         match value with [b] => ret b | _ => raise (ValueError "file-backed NVFP4 scale is truncated") end) p
    end.
(** [verify_unchanged] *)
Definition verify_unchanged : Py NVFP4FileTileProvider () := λ p,
  if closed p then (Raise (ValueError "file-backed NVFP4 provider is closed"), p)
  else (system (check_identity (packed_fd p) (packed_identity p) "packed") ;;; system (check_identity (scales_fd p) (scales_identity p) "scale")) p.
End provider.
#[global] Arguments NVFP4FileTileProvider : clear implicits.

(** ** Streams over a provider that supplies a source

    [at_ i pr]: the provider's state when the tiles below [i] were read. *)

Section supplier.
Context {P : Type} (read_tile : Z → Z → Z → Py P bytes) (close_provider : Py P ()) (sha256 : bytes → string).
Context (v : bytes) (at_ : Z → P → Prop).
Hypothesis supplies : ∀ i off n pr, at_ i pr → 0 <= off → 0 < n → off + n <= Zlen v →
  ∃ pr', read_tile i off n pr = (Ok (NumericStream.slice off n v), pr') ∧ at_ (i + 1) pr'.
Import NumericStream.
Implicit Types (s : NumericDoubleBufferStream P) (iss : Issued).
Abbreviation acquire_next := (acquire_next read_tile close_provider sha256).
Abbreviation consume := (consume read_tile close_provider sha256).

(** An open stream with no tile leased, whose provider has supplied a prefix of [v]. *)
Record supplied s iss : Prop := {
  su_inv : stream_inv sha256 None s iss;
  su_open : closed s = false;
  su_idle : ∀ k a, active s !! k = Some a → a = false;
  su_source : source_bytes (plan s) = Zlen v;
  su_provider : ∃ pr, provider s = Some pr ∧ at_ (next_index s) pr;
  su_observed : observed s = take (Z.to_nat (next_index s * tile_bytes (plan s))) v;
}.
(** The next tile is handed out and given back. *)
Lemma supplied_round s iss : supplied s iss → next_index s < tile_count (plan s) →
  ∃ l s1 s2 b, acquire_next false s = (Ok (Some l), s1) ∧ read l s1 = (Ok b, s1) ∧ release l s1 = (Ok (), s2) ∧
    supplied s2 (iss ++ [(l, b)]) ∧ plan s2 = plan s ∧ next_index s2 = next_index s + 1 ∧
    digest_verified s2 = digest_verified s.
Proof.
  intros [Hinv Hopen Hidle Hsrc (pr & Hpr & Hat) Hobs] Hlt. pose proof (si_plan _ _ _ _ Hinv) as Hp. pose proof (po_tile _ Hp) as Htile.
  destruct (tile_count_bounds _ Hp) as (_ & Hb & _). pose proof (active_buffers_bounds _ Hp) as Hbuf.
  pose proof (si_next _ _ _ _ Hinv) as Hnext. pose proof (Zlen_nonneg iss) as Hpos.
  assert (Hoff : 0 <= next_index s * tile_bytes (plan s) < source_bytes (plan s)) by nia.
  destruct (supplies (next_index s) (next_index s * tile_bytes (plan s))
    (Z.min (tile_bytes (plan s)) (source_bytes (plan s) - next_index s * tile_bytes (plan s))) pr Hat) as (pr' & Hread & Hat'); [lia..|].
  destruct (free_slot (active s)) as [k|] eqn:Efree; [|exfalso].
  2: { pose proof (free_slot_spec (active s)) as Hf. rewrite Efree in Hf.
       destruct (lookup_lt_is_Some_2 (active s) 0) as [a Ha]; [rewrite (si_actives _ _ _ _ Hinv); unfold buffer_number; lia|].
       pose proof (Hf _ _ Ha). pose proof (Hidle _ _ Ha). congruence. }
  pose proof (acquire_effect read_tile close_provider sha256 None s iss false Hinv) as Heff.
  pose proof (acquire_plan read_tile close_provider sha256 false s) as Hplan.
  unfold NumericStream.acquire_next, bind, check_open in Heff, Hplan. unfold NumericStream.acquire_next at 1, bind, check_open.
  rewrite Hopen in *. destruct (next_index s >=? tile_count (plan s)) eqn:E; breflect; [lia|]. rewrite Efree in *.
  unfold fetch in *. rewrite Hpr, Hread in *. set (b := slice _ _ v) in *.
  assert (Hblen : Zlen b = Z.min (tile_bytes (plan s)) (source_bytes (plan s) - next_index s * tile_bytes (plan s))).
  { unfold b, slice, Zlen. rewrite length_take, length_drop. unfold Zlen in Hsrc. nia. }
  rewrite Hblen, Z.eqb_refl in *. cbn [negb] in *.
  set (l := mkLease k _ _ _ _) in *. set (s1 := install k b _) in *. pose proof (free_slot_spec (active s)) as Hk. rewrite Efree in Hk.
  assert (Hkl : (k < length (active s))%nat) by (by apply lookup_lt_Some in Hk).
  destruct (lookup_lt_is_Some_2 (generations s) k) as [gen Hgen]; [rewrite (si_generations _ _ _ _ Hinv), <-(si_actives _ _ _ _ Hinv); done|].
  assert (Hv : lease_valid l s1 = true).
  { unfold lease_valid, s1, l. cbn. rewrite Hopen, insert_lookup, alter_lookup, !decide_True, Hgen by done. cbn.
    by rewrite !bool_decide_eq_true_2 by (cbn; f_equal; lia). }
  destruct (release_free s1 l Hv) as (Hrel & Hract & Hrcl & Hrn).
  eexists l, s1, _, (view_bytes (slot l, length_ l) s1). split; [reflexivity|].
  split; [|split; [exact Hrel|]].
  { rewrite (read_spec _ _ s1 _ l (view_bytes (slot l, length_ l) s1) Heff), Hv by (apply elem_of_app; right; left). done. }
  assert (Hrp : plan (release l s1).2 = plan s1 ∧ provider (release l s1).2 = provider s1 ∧ observed (release l s1).2 = observed s1 ∧
    digest_verified (release l s1).2 = digest_verified s1) by (unfold release, check_lease, bind; by rewrite Hv).
  destruct Hrp as (Hp1 & Hp2 & Hp3 & Hp4). split; [|split; [by rewrite Hp1|split; [by rewrite Hrn|by rewrite Hp4]]].
  split; rewrite ?Hp1, ?Hp2, ?Hp3, ?Hp4, ?Hrcl, ?Hrn; cbn.
  - by apply release_keeps.
  - done.
  - intros k' a. rewrite Hract. unfold s1, l. cbn. rewrite list_insert_insert_eq, insert_lookup by done.
    case_decide; [by intros [= <-]|apply Hidle].
  - done.
  - by exists pr'.
  - rewrite Hobs. unfold b. rewrite Hsrc. apply take_tile; [done|lia|lia|lia].
Qed.
(** A consumer receives the source when it has the digest of the plan, and is told at the
    end when it has not. *)
Lemma consume_supplied fuel s iss : supplied s iss → tile_count (plan s) - next_index s <= Z.of_nat fuel →
  digest_verified s = false →
  if str_eqb (sha256 v) (source_digest (plan s)) then ∃ s', consume fuel (mjoin iss.*2) s = (Ok v, s') ∧ in_flight s' = 0
  else is_ok (consume fuel (mjoin iss.*2) s).1 = false.
Proof.
  revert s iss. induction fuel as [|fuel IH]; intros s iss Hs Hfuel Hver; cbn [NumericStream.consume]; unfold bind;
    destruct (decide (next_index s < tile_count (plan s))) as [Hlt|Hge]; [lia| | |].
  2: { destruct (supplied_round s iss Hs Hlt) as (l & s1 & s2 & b & Ha & Hr & Hrel & Hs2 & Hp & Hn & Hd). rewrite Ha, Hr, Hrel.
    replace (mjoin iss.*2 ++ b) with (mjoin (iss ++ [(l, b)]).*2) by (rewrite fmap_app, join_app; cbn; by rewrite app_nil_r).
    rewrite <-Hp. apply IH; [done|rewrite Hp, Hn; lia|by rewrite Hd]. }
  all: destruct Hs as [Hinv Hopen Hidle Hsrc _ Hobs]; pose proof (si_origin _ _ _ _ Hinv) as (Hj & _);
    assert (Hall : observed s = v) by
      (rewrite Hobs; apply take_ge; destruct (tile_count_bounds _ (si_plan _ _ _ _ Hinv)) as (_ & _ & Hb); pose proof (po_tile _ (si_plan _ _ _ _ Hinv));
       assert (source_bytes (plan s) <= next_index s * tile_bytes (plan s)) by nia; unfold Zlen in Hsrc; lia).
  all: unfold NumericStream.acquire_next, bind, check_open; rewrite Hopen; destruct (next_index s >=? _) eqn:E; breflect; [|lia];
    rewrite Hver, Hall, Hj, Hall; destruct (str_eqb _ _); cbn [negb].
  1, 3: exists (verified s); split; [done|]; unfold in_flight; change (active (verified s)) with (active s); clear -Hidle; induction (active s) as [|a l IH]; [done|];
    rewrite Zsum_fmap_cons, IH by (intros k; apply (Hidle (S k))); by rewrite (Hidle O a eq_refl).
  all: unfold bind, raise; by destruct (close_locked close_provider false s) as [[[]|e] s'].
Qed.
End supplier.

(** ** Files that nobody changes *)

(** Reading and examining the files changes nothing, and says what they hold. *)
Class StableFiles (H : Type) `{OS H} (content : Z → bytes) (stats : Z → Stat) : Prop := {
  stable_read : ∀ fd n off h, 0 <= n → 0 <= off → os_pread fd n off h = (Ok (NumericStream.slice off n (content fd)), h);
  stable_stat : ∀ fd h, os_fstat fd h = (Ok (stats fd), h);
  stable_size : ∀ fd, st_size (stats fd) = Zlen (content fd);
}.

Section stable.
Context {H : Type} `{!OS H} (content : Z → bytes) (stats : Z → Stat) `{!StableFiles H content stats}.
Context (sha_bytes : bytes → string) (sha_text : string → string) (plan_id : AnyPlan → string) (float_hex : float → string).
Hypothesis sha_bytes_hex : ∀ b, is_hex64 (sha_bytes b) = true.
Hypothesis sha_text_hex : ∀ s, is_hex64 (sha_text s) = true.
Implicit Types (p : NVFP4FileTileProvider H) (h : H).
Abbreviation convert := (convert_nvfp4_to_int8 sha_bytes sha_text plan_id float_hex).
Abbreviation new_provider := (new_provider sha_bytes sha_text plan_id float_hex).
Abbreviation construct := (construct sha_bytes sha_text plan_id float_hex).

Lemma open_region_inv path size label h x h' : open_region path size label h = (Ok x, h') →
  x.2 = identity_of (stats x.1) ∧ Zlen (content x.1) = size.
Proof.
  unfold open_region, bind. destruct (os_open path h) as [[fd|e] h1]; [|done]. unfold catch. rewrite stable_stat.
  destruct (_ || _) eqn:E; unfold raise, ret.
  - by destruct (os_close fd h1) as [[[]|e] h2].
  - intros [= <- <-]. cbn. apply orb_false_elim in E as [_ E]. breflect. by rewrite <-stable_size.
Qed.
Lemma check_identity_stable fd label h : check_identity (Some fd) (identity_of (stats fd)) label h = (Ok (), h).
Proof. unfold check_identity, bind. rewrite stable_stat. by rewrite bool_decide_eq_true_2. Qed.
Lemma slice_nonempty (off n : Z) (b : bytes) : 0 <= off < Zlen b → 0 < n →
  0 < Zlen (NumericStream.slice off n b) <= Zlen b - off ∧
  take (Z.to_nat off) b ++ NumericStream.slice off n b = take (Z.to_nat (off + Zlen (NumericStream.slice off n b))) b.
Proof.
  intros Ho Hn. unfold NumericStream.slice, Zlen in *. rewrite length_take, length_drop. split; [lia|].
  rewrite <-(take_drop (Z.to_nat off) (take (Z.to_nat (off + _)) b)), take_take, Nat.min_l by lia. f_equal.
  rewrite skipn_firstn_comm. apply list_eq. intros i. destruct (decide (i < Z.to_nat n)%nat) as [Hi|Hi].
  - rewrite lookup_take_lt by done. destruct (drop (Z.to_nat off) b !! i) as [x|] eqn:Ex.
    + rewrite lookup_take_lt; [done|]. apply lookup_lt_Some in Ex. rewrite length_drop in Ex. lia.
    + symmetry. apply lookup_ge_None. rewrite length_take. apply lookup_ge_None in Ex. lia.
  - rewrite !lookup_take_ge by lia. done.
Qed.
(** A file is hashed whole, and its scales are checked. *)
Lemma hash_loop_stable fuel fd validate offset h data h' :
  0 <= offset → Zlen (content fd) - offset < Z.of_nat fuel →
  hash_loop fuel (Some fd) (Zlen (content fd)) validate offset (take (Z.to_nat offset) (content fd)) h = (Ok data, h') →
  (∀ g, validate = Some g → Forall (λ c, valid_scale g c = Ok ()) (take (Z.to_nat offset) (content fd))) →
  data = content fd ∧ h' = h ∧ (∀ g, validate = Some g → Forall (λ c, valid_scale g c = Ok ()) (content fd)).
Proof.
  revert offset. induction fuel as [|fuel IH]; intros offset Ho Hf Hrun Hval; cbn [hash_loop] in Hrun.
  - injection Hrun as <- <-. rewrite take_ge in Hval |- * by (unfold Zlen in Hf; lia). done.
  - destruct (offset <? Zlen (content fd)) eqn:E; breflect.
    2: { injection Hrun as <- <-. rewrite take_ge in Hval |- * by (unfold Zlen in E; lia). done. }
    unfold bind, read_at in Hrun. rewrite stable_read in Hrun by (unfold HASH_CHUNK_BYTES; lia).
    destruct (slice_nonempty offset (Z.min HASH_CHUNK_BYTES (Zlen (content fd) - offset)) (content fd)) as [Hl Ht];
      [lia|unfold HASH_CHUNK_BYTES; lia|].
    set (chunk := NumericStream.slice _ _ _) in *. destruct chunk as [|c chunk'] eqn:Ec; [unfold Zlen in Hl; cbn in Hl; lia|].
    rewrite <-Ec in *. unfold lift in Hrun. destruct (match validate with None => Ok () | Some g => _ end) as [[]|e] eqn:Ev; [|done].
    rewrite Ht in Hrun. apply IH in Hrun; [done|lia|lia|]. intros g Hg. rewrite <-Ht. apply Forall_app. split; [by apply Hval|].
    subst validate. apply Forall_forall. apply (fold_res_checks (valid_scale g)). exact Ev.
Qed.
Lemma hash_fd_stable fd validate h digest h' : hash_fd sha_bytes (Some fd) (identity_of (stats fd)) validate h = (Ok digest, h') →
  digest = sha_bytes (content fd) ∧ h' = h ∧ (∀ g, validate = Some g → Forall (λ c, valid_scale g c = Ok ()) (content fd)).
Proof.
  unfold hash_fd, bind. change (identity_size (identity_of (stats fd))) with (st_size (stats fd)). rewrite stable_size.
  destruct (hash_loop _ _ _ _ 0 [] h) as [[data|e] h1] eqn:E; [|done].
  apply (hash_loop_stable _ fd validate 0) in E as (-> & -> & Hv); [|done|unfold Zlen; lia|intros; constructor].
  rewrite check_identity_stable. by intros [= <- <-].
Qed.
(** What the constructor has checked. *)
Record opened (p : NVFP4FileTileProvider H) (fd1 fd2 : Z) : Prop := {
  op_packed : packed_fd p = Some fd1 ∧ packed_identity p = identity_of (stats fd1);
  op_scales : scales_fd p = Some fd2 ∧ scales_identity p = identity_of (stats fd2);
  op_valid : validated (descriptor p) (content fd1) (content fd2) (global_scale p) (geometry p) (plan p);
  op_source : content_digest sha_bytes sha_text plan_id float_hex (plan p) (content fd1) (content fd2) (global_scale p) "source" = Ok (source_digest p);
  op_target : numeric_content_digest_from_hashes sha_text plan_id float_hex (plan p) (scaled_payload_sha256 p) (sha_bytes (content fd2)) (global_scale p) "target"
              = Ok (target_digest p);
  op_start : next_index p = 0 ∧ closed p = false;
}.
Lemma system_inv {A} (m : Py H A) p x p' : system m p = (x, p') → ∃ h', m (os p) = (x, h') ∧ p' = with_os h' p.
Proof. unfold system, zoom. destruct (m (os p)) as [y h']. intros [= <- <-]. by exists h'. Qed.
Lemma valid_scale_spec g c : valid_scale g c = Ok () → ∃ s, scale c = Ok s ∧ is_finite (fmul (fmul s g) (of_Z 6)) = true.
Proof. unfold valid_scale, check. destruct (scale c) as [s|]; [|done]. destruct (is_finite _) eqn:E; [|done]. intros _. by exists s. Qed.
Lemma plan_block_size d geo pl : plan_for d geo = Ok pl → block_size d = 16.
Proof.
  intros (Hp & _)%plan_for_spec. unfold conversion_plan, NumericFormats.plan, DEFAULT_CONVERSION_REGISTRY in Hp. cbn [omap list_omap] in Hp.
  unfold candidate in Hp. cbn [adapter_source adapter_target adapter_id] in Hp.
  destruct (bool_decide (with_elements d 1 = default_format "nvfp4_e2m1" "low_nibble_first" one)) eqn:E1;
    [|destruct (bool_decide (with_elements d 1 = default_format "nvfp4_e2m1" "high_nibble_first" one)) eqn:E2; [|done]];
    breflect; [apply (f_equal block_size) in E1|apply (f_equal block_size) in E2]; done.
Qed.
Lemma last_slice (b : bytes) : 0 < Zlen b → NumericStream.slice (Zlen b - 1) 1 b = [default 0 (last b)].
Proof.
  unfold NumericStream.slice, Zlen. intros Hb. destruct b as [|x b] using rev_ind; [cbn in Hb; lia|]. rewrite last_snoc, length_app. cbn [length default].
  replace (Z.to_nat (Z.of_nat (length b + 1) - 1)) with (length b) by lia. by rewrite drop_app_length.
Qed.
Lemma check_padding_inv p fd q q' : packed_fd p = Some fd → packed_identity p = identity_of (stats fd) →
  Zlen (content fd) = (elements (descriptor p) + 1) / 2 → 0 < elements (descriptor p) → check_padding p q = (Ok (), q') →
  (elements (descriptor p) mod 2 ≠ 0 → last_nibble (packing (descriptor p)) (content fd) = 0) ∧ ∃ h, q' = with_os h q.
Proof.
  intros Hfd Hid Hlen Hel. unfold check_padding. destruct (elements (descriptor p) mod 2 =? 0) eqn:Eodd; breflect.
  - intros [= <-]. split; [done|]. exists (os q). by destruct q.
  - unfold bind. destruct (system (read_at _ _ _) q) as [[l|e] q1] eqn:E; [|done]. apply system_inv in E as (h & E & ->).
    rewrite Hfd, Hid in E. cbn in E. assert (0 < Zlen (content fd)) by (rewrite Hlen; apply Z.div_str_pos; lia).
    change (identity_size _) with (st_size (stats fd)) in E. rewrite stable_size, stable_read, last_slice in E by lia. injection E as <- <-.
    unfold guard_raise, last_nibble. destruct (negb (_ =? 0)) eqn:Ep; [done|]. intros [= <-]. breflect. split; [done|by eexists].
Qed.
Lemma construct_inv scales_path packed_sha scales_sha p p' fd :
  packed_fd p = Some fd → packed_identity p = identity_of (stats fd) → Zlen (content fd) = (elements (descriptor p) + 1) / 2 →
  0 < elements (descriptor p) → plan_for (descriptor p) (geometry p) = Ok (plan p) →
  is_finite (global_scale p) = true → fltb (global_scale p) zero = false → next_index p = 0 → closed p = false →
  construct scales_path packed_sha scales_sha p = (Ok (), p') →
  ∃ fd2, opened p' fd fd2 ∧ descriptor p' = descriptor p ∧ geometry p' = geometry p ∧ global_scale p' = global_scale p ∧ plan p' = plan p ∧
    source_digest p' = source_digest p ∧ target_digest p' = target_digest p ∧ scaled_payload_sha256 p' = scaled_payload_sha256 p.
Proof.
  intros Hfd Hid Hlen Hel Hplan Hfin Hneg Hn Hc. unfold NumericFileStream.construct, bind, get, modify, lift, guard_raise.
  destruct (system (open_region _ _ _) p) as [[[fd2 id2]|e] p1] eqn:E1; [|done]. apply system_inv in E1 as (h1 & E1 & ->).
  apply open_region_inv in E1 as [Hid2 Hlen2]. cbn in Hid2, Hlen2. cbn [fst snd].
  destruct (system (hash_fd _ (packed_fd p) _ _) _) as [[a|e] p2] eqn:E2; [|done]. apply system_inv in E2 as (h2 & E2 & ->).
  rewrite Hfd, Hid in E2. apply hash_fd_stable in E2 as (-> & -> & _).
  destruct (system (hash_fd _ (Some fd2) _ _) _) as [[b|e] p3] eqn:E3; [|done]. apply system_inv in E3 as (h3 & E3 & ->).
  subst id2. apply hash_fd_stable in E3 as (-> & -> & Hvalid). destruct (_ || _); [done|]. cbn [os with_os with_files].
  destruct (check_padding p _) as [[[]|e] p4] eqn:E4; [|done].
  apply (check_padding_inv p fd) in E4 as (Hpad & h4 & ->); [|done..].
  cbn [plan global_scale with_os with_files].
  destruct (numeric_content_digest_from_hashes _ _ _ _ (sha_bytes (content fd)) _ _ _) as [src|e] eqn:E6; [|done].
  destruct (negb (str_eqb src _)) eqn:E7; [done|]. destruct (numeric_content_digest_from_hashes _ _ _ _ (scaled_payload_sha256 p) _ _ _) as [tgt|e] eqn:E8; [|done].
  destruct (negb (str_eqb tgt _)) eqn:E9; [done|]. unfold str_eqb in E7, E9. breflect. intros [= <-]. subst src tgt.
  exists fd2. split; [|by split_and!]. split; cbn; try done. split; try done.
  - rewrite Hlen2. unfold scale_count. destruct (geometry p); [done|]. rewrite (plan_block_size _ _ _ Hplan). f_equal. lia.
  - eapply Forall_impl; [by apply Hvalid|]. apply valid_scale_spec.
Qed.
Lemma system_same {A} (m : Py H A) p x : m (os p) = (x, os p) → system m p = (x, p).
Proof. unfold system, zoom. intros ->. by destruct p. Qed.
(** A tile's codes are those of the whole file. *)
Lemma tile_codes packed order n cs off len : codes packed n order = Ok cs → Zlen packed = (n + 1) / 2 →
  0 <= off → 0 < len → off + len <= n →
  map_res (tile_code (NumericStream.slice (off / 2) ((off + len + 1) / 2 - off / 2) packed) order (off / 2)) (Z.add off <$> range len)
    = Ok (NumericStream.slice off len cs).
Proof.
  unfold codes. destruct (negb _); [done|]. intros Hcs Hlen Hoff Hl Hle. apply map_res_Ok in Hcs as Hall.
  pose proof (Forall2_length _ _ _ Hall) as Hn. rewrite length_range in Hn. apply map_res_Ok, Forall2_same_length_lookup. unfold NumericStream.slice. split.
  - rewrite length_fmap, length_range, length_take, length_drop. lia.
  - intros j e c He Hc. apply list_lookup_fmap_Some in He as (j' & -> & Hj). unfold range in Hj. apply list_lookup_fmap_Some in Hj as (k & -> & Hk).
    apply lookup_seq in Hk as [-> Hj]. rewrite lookup_take_lt, lookup_drop in Hc by done.
    assert (Hnib : nibble packed order (off + Z.of_nat (0 + j)) = Ok c).
    { refine (Forall2_lookup_lr (λ x y, nibble packed order x = Ok y) _ _ (Z.to_nat off + j)%nat _ _ Hall _ Hc). unfold range. rewrite list_lookup_fmap, lookup_seq_lt by lia.
      cbn. f_equal. lia. }
    unfold nibble in Hnib. unfold tile_code. set (e := off + Z.of_nat (0 + j)) in *.
    assert (He : off / 2 <= e / 2 < (off + len + 1) / 2) by (unfold e; split; [apply Z.div_le_mono; lia|Z.to_euclidean_division_equations; lia]).
    assert (0 <= off / 2) by (apply Z.div_pos; lia).
    rewrite lookup_take_lt, lookup_drop by lia. replace (Z.to_nat (off / 2) + Z.to_nat (e / 2 - off / 2))%nat with (Z.to_nat (e / 2)) by lia.
    by destruct (packed !! Z.to_nat (e / 2)).
Qed.
Lemma slice_fmap (f : Z → Z) (l : list Z) off n : f <$> NumericStream.slice off n l = NumericStream.slice off n (f <$> l).
Proof. unfold NumericStream.slice. by rewrite fmap_take, fmap_drop. Qed.
Lemma slice_full (b : bytes) off n : 0 <= off → 0 <= n → off + n <= Zlen b → Zlen (NumericStream.slice off n b) = n.
Proof. unfold NumericStream.slice, Zlen. rewrite length_take, length_drop. lia. Qed.
(** The provider supplies the tiles of the reference conversion. *)
Lemma read_tile_supplies p fd1 fd2 cs i off n : opened p fd1 fd2 → codes (content fd1) (elements (descriptor p)) (packing (descriptor p)) = Ok cs →
  0 <= off → 0 < n → off + n <= elements (descriptor p) →
  read_tile i off n (with_progress i false p) = (Ok (NumericStream.slice off n (int8_of <$> cs)), with_progress (i + 1) false p).
Proof.
  intros [[F1 I1] [F2 I2] Hv _ _ _] Hcs Hoff Hn Hle. unfold read_tile. cbn [closed next_index descriptor with_progress packed_fd packed_identity scales_fd scales_identity].
  assert (Hguard : negb (i =? i) || (off <? 0) || (n <=? 0) || (off + n >? elements (descriptor p)) = false).
  { rewrite Z.gtb_ltb, Z.eqb_refl. cbn. rewrite (proj2 (Z.ltb_ge off 0)), (proj2 (Z.leb_gt n 0)), (proj2 (Z.ltb_ge _ _)) by lia. done. }
  rewrite Hguard, F1, I1, F2, I2. unfold bind at 1 2 3. rewrite !(system_same (check_identity _ _ _) _ (Ok ())) by apply check_identity_stable.
  pose proof (va_packed _ _ _ _ _ _ Hv) as Hlen.
  assert (0 <= off / 2) by (apply Z.div_pos; lia).
  assert (Hlast : off / 2 <= (off + n + 1) / 2 <= (elements (descriptor p) + 1) / 2) by (split; apply Z.div_le_mono; lia).
  rewrite (system_same (read_at (Some fd1) _ _) _ (Ok (NumericStream.slice (off / 2) ((off + n + 1) / 2 - off / 2) (content fd1)))) by (apply stable_read; lia).
  rewrite slice_full, Z.eqb_refl by lia. cbn [negb]. unfold bind, lift. rewrite (tile_codes _ _ (elements (descriptor p)) cs) by done.
  cbn. by rewrite slice_fmap.
Qed.
Lemma scale_code_reads p fd1 fd2 i : opened p fd1 fd2 → (∀ geo, geometry p = Some geo → geometry_check geo = Ok ()) →
  0 <= i < elements (descriptor p) → ∃ k c, content fd2 !! k = Some c ∧ scale_code i p = (Ok c, p) ∧
  element_scale (content fd2) (geometry p) i = scale c.
Proof.
  intros [_ [F2 _] Hv _ _ [_ Hc]] Hgeo Hi. unfold scale_code, element_scale. rewrite Hc.
  rewrite (proj2 (Z.leb_le 0 i)), (proj2 (Z.ltb_lt i _)) by lia. cbn [orb negb andb].
  pose proof (va_plan _ _ _ _ _ _ Hv) as Hp. pose proof (va_scales _ _ _ _ _ _ Hv) as Hs. rewrite (plan_block_size _ _ _ Hp).
  apply plan_for_spec in Hp as (_ & _ & Hel).
  assert (Hplace : ∃ k, match geometry p with None => Ok (i / 16) | Some g => scale_index g i end = Ok k ∧ 0 <= k < Zlen (content fd2)).
  { rewrite Hs. destruct (geometry p) as [geo|].
    - rewrite <-Hel in Hi. destruct (scale_index_value geo (Hgeo geo eq_refl) i Hi) as (_ & _ & -> & Hw). eexists. split; [done|]. by apply value_range.
    - eexists. split; [done|]. Z.to_euclidean_division_equations; lia. }
  destruct Hplace as (k & -> & Hk). destruct (lookup_lt_is_Some_2 (content fd2) (Z.to_nat k)) as [c Hck]; [unfold Zlen in Hk; lia|].
  exists (Z.to_nat k), c. rewrite Hck. split; [done|]. split; [|done]. unfold bind, read_at. rewrite F2.
  rewrite (system_same _ _ (Ok [c])); [done|]. rewrite stable_read by lia. do 2 f_equal. unfold NumericStream.slice.
  rewrite (drop_S _ c) by done. done.
Qed.
(** A provider that the constructor returns, and the reference conversion of its files. *)
Lemma new_provider_inv packed_path scales_path d geo g psha ssha paysha src tgt h p h' : format_check d = Ok () →
  new_provider packed_path scales_path d geo g psha ssha paysha src tgt h = (Ok p, h') →
  ∃ fd1 fd2, opened p fd1 fd2 ∧ descriptor p = d ∧ geometry p = geo ∧ global_scale p = g ∧
    source_digest p = src ∧ target_digest p = tgt ∧ scaled_payload_sha256 p = paysha.
Proof.
  intros Hd. unfold NumericFileStream.new_provider, bind, lift. destruct (plan_for d geo) as [pl|] eqn:Hp; [|done]. destruct (_ || _) eqn:Eg; [done|].
  destruct (open_region packed_path _ _ h) as [[[fd id]|e] h1] eqn:Eo; [|done]. apply open_region_inv in Eo as [Hid Hlen]. cbn in Hid, Hlen. breflect.
  destruct (construct _ _ _ _) as [[[]|e] p1] eqn:Ec; [|by destruct (close _) as [[[]|e'] p2]].
  intros [= <- <-]. cbn [fst snd] in Ec. subst id.
  apply (construct_inv scales_path psha ssha _ p1 fd) in Ec as (fd2 & Ho & E1 & E2 & E3 & E4 & E5 & E6 & E7); try done.
  - exists fd, fd2. by split_and!.
  - by apply elements_positive.
Qed.
Lemma opened_converts p fd1 fd2 : opened p fd1 fd2 → format_check (descriptor p) = Ok () → ∃ cs t,
  codes (content fd1) (elements (descriptor p)) (packing (descriptor p)) = Ok cs ∧ Zlen cs = elements (descriptor p) ∧
  convert (descriptor p) (content fd1) (content fd2) (global_scale p) (geometry p) = Ok t ∧ payload t = int8_of <$> cs ∧
  NumericFormats.source_digest t = source_digest p ∧
  (sha_bytes (payload t) = scaled_payload_sha256 p → NumericFormats.target_digest t = target_digest p).
Proof.
  intros [_ _ Hv Hsrc Htgt _] Hd. destruct (codes_total _ _ _ _ _ _ Hd Hv) as (cs & Hcs & Hlen & Hdig).
  destruct (conversion_constructs sha_bytes sha_text plan_id float_hex sha_bytes_hex sha_text_hex _ _ _ _ _ _ cs Hd Hv Hlen Hdig)
    as (t & Hck & Htp & Htl & Hbs & Hgs & Hsd & Htd).
  exists cs, t. split_and!; try done.
  - unfold convert_nvfp4_to_int8. rewrite (proj2 (validate_spec _ _ _ _ _ _) Hv), Hcs. cbv zeta. rewrite Hsd, Htd, <-Hck.
    f_equal. destruct t. cbn in *. by subst.
  - rewrite Hsrc in Hsd. by injection Hsd.
  - intros Heq. unfold content_digest in Htd. rewrite <-Htl, Heq, Htgt in Htd. by injection Htd.
Qed.
Lemma stream_over_provider p fd1 fd2 cs tile count q s0 : opened p fd1 fd2 → format_check (descriptor p) = Ok () →
  codes (content fd1) (elements (descriptor p)) (packing (descriptor p)) = Ok cs → Zlen cs = elements (descriptor p) →
  streaming_plan tile count p = Ok q → NumericStream.new_stream sha_bytes q None (Some p) = Ok s0 →
  let run := NumericStream.consume read_tile close sha_bytes (Z.to_nat (NumericStream.tile_count q)) [] s0 in
  if str_eqb (sha_bytes (int8_of <$> cs)) (scaled_payload_sha256 p)
  then ∃ s', run = (Ok (int8_of <$> cs), s') ∧ NumericStream.in_flight s' = 0 else is_ok run.1 = false.
Proof.
  intros Ho Hd Hcs Hlen Hq Hnew run. pose proof (NumericStream.make_plan_ok _ _ Hq) as [Hqe Hok].
  destruct (NumericStream.new_stream_inv sha_bytes _ q None (Some p) s0 Hq Hnew) as [Hinv Hplan].
  assert (Hsrc : NumericStream.source_digest q = scaled_payload_sha256 p) by (by rewrite Hqe). rewrite <-Hsrc.
  assert (Hel : NumericStream.source_bytes q = elements (descriptor p)) by (by rewrite Hqe).
  unfold NumericStream.new_stream in Hnew. cbn in Hnew. injection Hnew as Hs0.
  assert (Hstart : supplied sha_bytes (int8_of <$> cs) (λ i pr, pr = with_progress i false p) s0 []).
  { split; [done|by subst s0| | | |by subst s0].
    - subst s0. cbn. by intros k a [-> _]%lookup_replicate.
    - subst s0. cbn. rewrite Hel. unfold Zlen. rewrite length_fmap. unfold Zlen in Hlen. lia.
    - exists p. subst s0. split; [done|]. cbn. destruct (op_start _ _ _ Ho) as [Hn Hc]. destruct p. cbn in *. by subst. }
  assert (Hsup : ∀ i off n pr, pr = with_progress i false p → 0 <= off → 0 < n → off + n <= Zlen (int8_of <$> cs) →
    ∃ pr', read_tile i off n pr = (Ok (NumericStream.slice off n (int8_of <$> cs)), pr') ∧ pr' = with_progress (i + 1) false p).
  { intros i off n pr -> Hoff Hn Hle. eexists. split; [|done]. apply (read_tile_supplies p fd1 fd2); try done.
    unfold Zlen in Hle, Hlen. rewrite length_fmap in Hle. lia. }
  pose proof (consume_supplied read_tile close sha_bytes _ _ Hsup (Z.to_nat (NumericStream.tile_count q)) s0 [] Hstart) as Hrun.
  rewrite Hplan in Hrun. apply Hrun; subst s0; [cbn; lia|done].
Qed.

(** C21: a provider over files that nobody changes streams the reference conversion.  When
    the constructor accepts two files, the tensor they hold converts, with the declared
    source digest; the codes of the block scales are those of the conversion; and a stream
    over the provider, of any tile size and number of buffers, delivers exactly the payload
    of the converted tensor when the declared digest of the payload is right, and then the
    declared target digest is that of the tensor, and otherwise refuses it. *)
Theorem file_stream_is_conversion packed_path scales_path d geo g psha ssha paysha src tgt h p h' :
  format_check d = Ok () → (∀ geo', geo = Some geo' → geometry_check geo' = Ok ()) →
  new_provider packed_path scales_path d geo g psha ssha paysha src tgt h = (Ok p, h') →
  ∃ fd1 fd2 t, packed_fd p = Some fd1 ∧ scales_fd p = Some fd2 ∧
    convert d (content fd1) (content fd2) g geo = Ok t ∧ NumericFormats.source_digest t = src ∧
    (∀ i, 0 <= i < elements d → ∃ c, scale_code i p = (Ok c, p) ∧ element_scale (content fd2) geo i = scale c) ∧
    ∀ tile count q s0, streaming_plan tile count p = Ok q → NumericStream.new_stream sha_bytes q None (Some p) = Ok s0 →
      let run := NumericStream.consume read_tile close sha_bytes (Z.to_nat (NumericStream.tile_count q)) [] s0 in
      if str_eqb (sha_bytes (payload t)) paysha
      then (∃ s', run = (Ok (payload t), s') ∧ NumericStream.in_flight s' = 0) ∧ NumericFormats.target_digest t = tgt
      else is_ok run.1 = false.
Proof.
  intros Hd Hgeo Hnew. destruct (new_provider_inv _ _ _ _ _ _ _ _ _ _ _ _ _ Hd Hnew) as (fd1 & fd2 & Ho & <- & <- & <- & <- & <- & <-).
  destruct (opened_converts p fd1 fd2 Ho Hd) as (cs & t & Hcs & Hlen & Hconv & Hpay & Hsrc & Htgt).
  exists fd1, fd2, t. split_and!; try done; try by apply Ho.
  - intros i Hi. destruct (scale_code_reads p fd1 fd2 i Ho Hgeo Hi) as (k & c & _ & Hc & He). by exists c.
  - intros tile count q s0 Hq Hs. pose proof (stream_over_provider p fd1 fd2 cs tile count q s0 Ho Hd Hcs Hlen Hq Hs) as Hrun. rewrite Hpay in Htgt |- *.
    cbv zeta in *. destruct (str_eqb (sha_bytes (int8_of <$> cs)) _) eqn:E; [|done]. split; [done|]. apply Htgt. unfold str_eqb in E. by breflect.
Qed.
End stable.

(** ** Three elements in two files *)

Definition demo_content (fd : Z) : bytes := if fd =? 3 then [33; 9] else [56].
Definition demo_stat (fd : Z) : Stat := mkStat true 501 384 1 fd (Zlen (demo_content fd)) 0.
#[local] Instance demo_os : OS () := {
  os_open path := ret (if str_eqb path "packed" then 3 else 4);
  os_fstat fd := ret (demo_stat fd);
  os_pread fd n off := ret (NumericStream.slice off n (demo_content fd));
  os_close _ := ret ();
  os_getuid := 501;
}.
#[local] Instance demo_stable : StableFiles () demo_content demo_stat.
Proof. split; done. Qed.
Definition demo_sha (_ : bytes) : string := demo_digest.
Definition demo_text (_ : string) : string := demo_digest.
Definition demo_plan_id (_ : AnyPlan) : string := demo_digest.
Definition demo_hex (_ : float) : string := "0x1.0p+0".
Definition demo_d : NumericFormatDescriptor := with_elements (default_format "nvfp4_e2m1" "low_nibble_first" one) 3.
Definition demo_open : res exn (NVFP4FileTileProvider ()) :=
  (new_provider demo_sha demo_text demo_plan_id demo_hex "packed" "scales" demo_d None one demo_digest demo_digest demo_digest demo_digest demo_digest ()).1.
Lemma file_stream_is_conversion_witness : ∃ p, demo_open = Ok p ∧ ∃ fd1 fd2 t, packed_fd p = Some fd1 ∧ scales_fd p = Some fd2 ∧
  convert_nvfp4_to_int8 demo_sha demo_text demo_plan_id demo_hex demo_d (demo_content fd1) (demo_content fd2) one None = Ok t.
Proof.
  destruct demo_open as [p|] eqn:E; [|vm_compute in E; discriminate E]. exists p. split; [reflexivity|].
  destruct (file_stream_is_conversion demo_content demo_stat demo_sha demo_text demo_plan_id demo_hex ltac:(intros; vm_compute; reflexivity)
    ltac:(intros; vm_compute; reflexivity) "packed" "scales" demo_d None one demo_digest demo_digest demo_digest demo_digest demo_digest () p
    (new_provider demo_sha demo_text demo_plan_id demo_hex "packed" "scales" demo_d None one demo_digest demo_digest demo_digest demo_digest demo_digest ()).2
    ltac:(vm_compute; reflexivity) ltac:(intros geo' Hg; discriminate Hg)) as (fd1 & fd2 & t & H1 & H2 & H3 & _).
  - unfold demo_open in E. rewrite <-E. by destruct (new_provider _ _ _ _ _ _ _ _ _ _ _ _ _ _ _).
  - exists fd1, fd2, t. split; [exact H1|]. split; [exact H2|exact H3].
Defined.
(** The codes 1, 2 and 9 as doubled integers. *)
Lemma demo_tiles : ∃ p, demo_open = Ok p ∧ (read_tile 0 0 2 p).1 = Ok [1; 2] ∧ (read_tile 0 0 3 p).1 = Ok [1; 2; 255].
Proof. destruct demo_open as [p|] eqn:E; [|by vm_compute in E]. exists p. vm_compute in E. injection E as <-. by vm_compute. Qed.

End NumericFileStream.
