(* ===== verification/NumericPrecision.v ===== *)
(** * Precision policies and execution contracts (numeric_precision.py)

    The data that binds a numeric tensor to a target type and a tolerance, with the texts
    that are hashed into identifiers.  SHA-256 and the text [repr] gives a float are
    parameters. *)

From S2P Require Import Prelude Types PyFloat NumericFormats.
Import PyFloat.

Module NumericPrecision.

Record NumericPrecisionPolicy := mkPolicy {
  absolute_tolerance : float;
  relative_tolerance : float;
  allow_underflow : bool;
  policy_version : Z;
}.
(** [NumericPrecisionPolicy.__post_init__] *)
Definition make_policy (p : NumericPrecisionPolicy) : res exn NumericPrecisionPolicy :=
  if negb (policy_version p =? 1) then Raise (ValueError "unsupported precision policy version")
  else if existsb (λ v, negb (is_finite v) || fltb v zero) [absolute_tolerance p; relative_tolerance p]
  then Raise (ValueError "precision tolerance must be finite and nonnegative")
  else Ok p.

Record PrecisionExecutionContract := mkContract {
  tensor_digest : string;
  target_dtype : string;
  policy : NumericPrecisionPolicy;
  contract_version : Z;
}.
(** [PrecisionExecutionContract.__post_init__] *)
Definition make_contract (c : PrecisionExecutionContract) : res exn PrecisionExecutionContract :=
  if negb (contract_version c =? 1) then Raise (ValueError "unsupported precision contract version")
  else if negb (NumericFormats.is_hex64 (tensor_digest c)) then Raise (ValueError "invalid tensor digest")
  else if negb (bool_decide (target_dtype c ∈ ["F32"; "F16"; "BF16"])) then Raise (ValueError "unsupported precision target")
  else Ok c.

Section identifiers.
Context (sha_text : string → string) (float_repr : float → string).

(** [float(v) or 0.0]: a negative zero becomes zero. *)
Definition or_zero (v : float) : float := if feqb v zero then zero else v.
Definition braces (members : list string) : string := ("{" +:+ str_join ", " members +:+ "}")%string.
(** The text of [to_dict], with sorted names. *)
Definition policy_json (p : NumericPrecisionPolicy) : string :=
  braces [NumericFormats.spaced "absolute_tolerance" (float_repr (or_zero (absolute_tolerance p)));
          NumericFormats.spaced "allow_underflow" (if allow_underflow p then "true" else "false");
          NumericFormats.spaced "relative_tolerance" (float_repr (or_zero (relative_tolerance p)));
          NumericFormats.spaced "schema_version" (str_of_Z (policy_version p))].
Definition policy_id (p : NumericPrecisionPolicy) : string := sha_text (policy_json p).
Definition contract_json (c : PrecisionExecutionContract) : string :=
  braces [NumericFormats.spaced "bridge" (quoted "scaled_int8_via_f32_rne_v1"); NumericFormats.spaced "policy" (policy_json (policy c));
          NumericFormats.spaced "schema_version" (str_of_Z (contract_version c)); NumericFormats.spaced "target_dtype" (quoted (target_dtype c));
          NumericFormats.spaced "tensor_digest" (quoted (tensor_digest c))].
Definition contract_id (c : PrecisionExecutionContract) : string := sha_text (contract_json c).
End identifiers.

End NumericPrecision.
