(* ===== verification/ResidentStore.v ===== *)
(** * The store of resident tensors (qwen4_resident_store.py)

    [Qwen4ResidentStore] composes the memory admission of TensorAdmission.v, the streams of
    NumericStream.v and the file provider of NumericFileStream.v with a backend that holds
    the loaded tensors.  The backend, the reader and [secrets.token_hex] belong to the host.
    Every method runs under the store's lock; what other threads do with the admission while
    a stream is being reserved is a function argument. *)

From S2P Require Import Prelude Types OrderedDict PyFloat PyBytes NumericFormats NumericStream NumericFileStream NumericPrecision TensorAdmission.
Import PyBytes OrderedDict.

Module ResidentStore.
Import TensorAdmission.

Definition MAX_RESIDENT_TENSORS : Z := 4096.

Record ResidentBackendAllocation {R : Type} := mkAllocation {
  resource : R;
  backend : string;
  backend_version : string;
  output_shape : list Z;
  output_bytes : Z;
  output_digest : string;
  precision_contract_id : option string;
  precision_policy_id : option string;
  precision_checked : bool;
  numeric_streaming_plan_id : option string;
}.
#[global] Arguments ResidentBackendAllocation : clear implicits.
#[global] Arguments mkAllocation {R}.

(** A stream of tiles as the store makes it, over bytes or over a file provider. *)
Abbreviation Stream F := (NumericStream.NumericDoubleBufferStream (NumericFileStream.NVFP4FileTileProvider F)).

(** [Qwen4ResidentBackend].  [load] also says how many bytes of the chunks it has consumed;
    the loads of numeric tensors may be absent, and those that take a stream leave it in a
    new state, also when they raise. *)
Class Qwen4ResidentBackend (H R F Chunks : Type) := {
  b_load : Chunks → string → string → list Z → Z → Py H (ResidentBackendAllocation R * Z);
  b_load_scaled_int8 : option (NumericFormats.ScaledInt8Tensor → string → NumericPrecision.PrecisionExecutionContract → Z → Py H (ResidentBackendAllocation R));
  b_load_scaled_int8_streaming :
    option (NumericFormats.ScaledInt8Tensor → string → NumericPrecision.PrecisionExecutionContract → Z → Py (H * Stream F) (ResidentBackendAllocation R));
  b_load_nvfp4_file_stream : option (string → NumericPrecision.PrecisionExecutionContract → Z → Py (H * Stream F) (ResidentBackendAllocation R));
  b_release : R → Py H ();
  b_close_chunks : Chunks → Py H ();
}.

Section store.
Context {H R F Chunks : Type} `{!Qwen4ResidentBackend H R F Chunks} `{!NumericFileStream.OS F}.
(** The reader, the draws of [token_hex], digests and the text of floats. *)
Context (descriptor : string → res exn Descriptor) (maximum_chunk_bytes : Z).
Context (iter_tensor_chunks : string → res exn Chunks) (iter_tensor_axis0_slice : string → Z → Z → res exn Chunks).
Context (tokens : nat → string).
Context (sha_bytes : bytes → string) (sha_text : string → string) (conversion_plan_id : NumericFormats.AnyPlan → string).
Context (float_hex float_repr : PyFloat.float → string).
Abbreviation Allocation := (ResidentBackendAllocation R).

(** [_ResidentRecord] *)
Record ResidentRecord := mkRecord {
  allocation : Allocation;
  reservation : TensorLoadReservation;
  r_component : string;
  r_target_dtype : string;
}.
Record Qwen4ResidentStore := mkStore {
  admission : Qwen4MemoryAdmission;
  records : list (string * ResidentRecord);
  quarantined : list (string * ResidentRecord);
  host : H;
  drawn : nat;
}.
Implicit Types (s : Qwen4ResidentStore).
(** [__init__] *)
Definition new_store (a : Qwen4MemoryAdmission) (h : H) : Qwen4ResidentStore := mkStore a [] [] h 0.

Definition with_admission a s := mkStore a (records s) (quarantined s) (host s) (drawn s).
Definition with_host h s := mkStore (admission s) (records s) (quarantined s) h (drawn s).
Definition with_records r s := mkStore (admission s) r (quarantined s) (host s) (drawn s).
Definition with_quarantined q s := mkStore (admission s) (records s) q (host s) (drawn s).
Definition on_admission {A} (m : Py Qwen4MemoryAdmission A) : Py Qwen4ResidentStore A := zoom admission with_admission m.
Definition on_host {A} (m : Py H A) : Py Qwen4ResidentStore A := zoom host with_host m.

(** [secrets.token_hex(16)] *)
Definition token_hex : Py Qwen4ResidentStore string := λ s,
  (Ok (tokens (drawn s)), mkStore (admission s) (records s) (quarantined s) (host s) (S (drawn s))).
(** [while handle in self._records: handle = secrets.token_hex(16)] *)
Fixpoint fresh_from (fuel : nat) (handle : string) : Py Qwen4ResidentStore string := λ s,
  if od_mem handle (records s) then
    match fuel with O => (Ok handle, s) | S fuel' => (let! h := token_hex in fresh_from fuel' h) s end
  else (Ok handle, s).
Definition fresh_handle : Py Qwen4ResidentStore string := let! h := token_hex in λ s, fresh_from (length (records s)) h s.

(** ** What the loads share *)

(** The end of a load: the destination is retained and the tensor recorded. *)
Definition keep (al : Allocation) (r : TensorLoadReservation) (component dtype : string) : Py Qwen4ResidentStore string :=
  let! k := on_admission (retain_destination r) in
  let! h := fresh_handle in
  modify (λ s, with_records (od_set h (mkRecord al k component dtype) (records s)) s) ;;; ret h.
Definition quarantine (al : Allocation) (r : TensorLoadReservation) (component dtype : string) : Py Qwen4ResidentStore () :=
  let! h := token_hex in modify (λ s, with_quarantined (od_set h (mkRecord al r component dtype) (quarantined s)) s).
(** An operation of the store in a method that has a local state. *)
Definition on_store {L A} (m : Py Qwen4ResidentStore A) : Py (Qwen4ResidentStore * L) A := zoom fst (λ x p, (x, p.2)) m.
(** The [except] of every load, after the backend has allocated: the allocation is released,
    or quarantined with its reservation when the backend cannot release it. *)
Definition abandon {L A} (al : Allocation) (r : TensorLoadReservation) (component dtype message : string) (e : exn) : Py (Qwen4ResidentStore * L) A := λ p,
  match on_store (on_host (b_release (resource al))) p with
  | (Ok _, p1) => (on_store (on_admission (release r)) ;;; raise e) p1
  | (Raise _, p1) => (on_store (quarantine al r component dtype) ;;; raise (RuntimeError message)) p1
  end.
(** The [try] of every load, over a local state [L] besides the store: [load] allocates and
    [evidence] tests the allocation. *)
Definition settle {L} (r : TensorLoadReservation) (component dtype message : string) (load : Py (H * L) Allocation) (evidence : Allocation → Py L ())
    : Py (Qwen4ResidentStore * L) string := λ p,
  match zoom (λ p, (host p.1, p.2)) (λ x p, (with_host x.1 p.1, x.2)) load p with
  | (Raise e, p1) => (on_store (on_admission (release r)) ;;; raise e) p1
  | (Ok al, p1) =>
      match (zoom snd (λ x p, (p.1, x)) (evidence al) ;;; on_store (keep al r component dtype)) p1 with
      | (Ok h, p2) => (Ok h, p2)
      | (Raise e, p2) => abandon al r component dtype message e p2
      end
  end.
(** A method that has a local state. *)
Definition with_local {L A} (l : L) (m : Py (Qwen4ResidentStore * L) A) : Py Qwen4ResidentStore A := λ s,
  let '(r, (s', _)) := m (s, l) in (r, s').
Definition limit_reached : exn := MemoryError "Qwen4 resident tensor handle limit reached".
Definition room {S} (get_records : S → list (string * ResidentRecord)) : Py S () := λ st,
  guard_raise (Zlen (get_records st) >=? MAX_RESIDENT_TENSORS) limit_reached st.

(** ** [load] *)

(** [_shape_bytes] *)
Definition shape_bytes (shape : list Z) (dtype : string) : res exn Z :=
  match dtype_bytes dtype with
  | None => Raise (ValueError "Qwen4 resident target dtype is invalid")
  | Some size => Ok (foldl Z.mul 1 shape * size)
  end.
Definition load_evidence (r : TensorLoadReservation) (shape : list Z) (dtype : string) (source : Z) (al : Allocation) : Py Z () := λ consumed,
  let invalid := (Raise (ValueError "Qwen4 resident backend allocation evidence is invalid"), consumed) in
  if negb (consumed =? source) || negb (bool_decide (output_shape al = shape)) || negb (output_bytes al =? destination_bytes r) then invalid
  else
    match shape_bytes shape dtype with
    | Raise e => (Raise e, consumed)
    | Ok n =>
        if negb (output_bytes al =? n) || negb (NumericFormats.is_hex64 (output_digest al)) || precision_checked al
           || is_some (precision_contract_id al) || is_some (precision_policy_id al) || is_some (numeric_streaming_plan_id al)
        then invalid else (Ok (), consumed)
    end.
(** The descriptor and the chunks that [load] asks the reader for. *)
Definition source_of (name : string) (axis0_slice : option (Z * Z)) : res exn (Descriptor * Chunks) :=
  match axis0_slice with
  | None => match descriptor name with
            | Ok d => match iter_tensor_chunks name with Ok c => Ok (d, c) | Raise e => Raise e end
            | Raise e => Raise e
            end
  | Some (start, count) =>
      match axis0_slice_descriptor descriptor name start count with
      | Ok d => match iter_tensor_axis0_slice name start count with Ok c => Ok (d, c) | Raise e => Raise e end
      | Raise e => Raise e
      end
  end.
(** [load] *)
Definition load (name target_dtype : string) (scratch : Z) (axis0_slice : option (Z * Z)) : Py Qwen4ResidentStore string :=
  room records ;;;
  let! dc := lift (source_of name axis0_slice) in
  let d := dc.1 in
  if negb (d_active d) then raise (ValueError "Qwen4 resident tensor is disabled for the requested mode")
  else
    match d_shape d, d_dtype d, d_bytes d, d_component d with
    | Some shape, Some source_dtype, Some source_bytes, Some component =>
        let! r := on_admission (reserve name d target_dtype (Z.min source_bytes maximum_chunk_bytes) scratch) in
        let dims := omap id shape in
        let allocate : Py (H * Z) Allocation := λ p,
          match b_load dc.2 source_dtype target_dtype dims (reserved_bytes r) p.1 with
          | (Ok (al, consumed), h) => (Ok al, (h, consumed))
          | (Raise e, h) => (Raise e, (h, p.2))
          end in
        finally (with_local 0 (settle r component target_dtype "Qwen4 failed resident allocation was quarantined" allocate
                                 (load_evidence r dims target_dtype source_bytes)))
          (on_host (b_close_chunks dc.2))
    | _, _, _, _ => raise (ValueError "Qwen4 resident tensor descriptor is invalid")
    end.

(** ** Numeric tensors *)

(** The tests of the component's name and the scratch. *)
Definition metadata_ok (component : string) (scratch : Z) : bool :=
  (1 <=? str_len component) && (str_len component <=? 128)
  && forallb (λ c, (32 <=? Ascii.nat_of_ascii c)%nat) (String.list_ascii_of_string component) && (0 <=? scratch).
Definition tensor_shape (t : NumericFormats.ScaledInt8Tensor) : list Z :=
  match NumericFormats.geometry_of (NumericFormats.tensor_plan t) with
  | Some g => NumericFormats.shape g
  | None => [Zlen (NumericFormats.payload t)]
  end.
Definition numeric_descriptor (component : string) (shape : list Z) : Descriptor := mkDescriptor false (Some component) (Some (Some <$> shape)) None None.
(** The evidence that the numeric loads share. *)
Definition numeric_evidence (r : TensorLoadReservation) (shape : list Z) (contract : NumericPrecision.PrecisionExecutionContract) (plan : option string)
    (al : Allocation) : bool :=
  bool_decide (output_shape al = shape) && (output_bytes al =? destination_bytes r) && NumericFormats.is_hex64 (output_digest al) && precision_checked al
  && bool_decide (precision_contract_id al = Some (NumericPrecision.contract_id sha_text float_repr contract))
  && bool_decide (precision_policy_id al = Some (NumericPrecision.policy_id sha_text float_repr (NumericPrecision.policy contract)))
  && bool_decide (numeric_streaming_plan_id al = plan).
Definition contract_matches (contract : NumericPrecision.PrecisionExecutionContract) (digest dtype : string) : bool :=
  str_eqb (NumericPrecision.tensor_digest contract) digest && str_eqb (NumericPrecision.target_dtype contract) dtype.
(** [_DTYPE_BYTES[target_dtype]] *)
Definition dtype_size {S} (dtype : string) : Py S Z := match dtype_bytes dtype with Some n => ret n | None => raise (KeyError dtype) end.

(** [load_scaled_int8] *)
Definition load_scaled_int8 (t : NumericFormats.ScaledInt8Tensor) (target_dtype : string) (contract : NumericPrecision.PrecisionExecutionContract)
    (component : string) (scratch : Z) : Py Qwen4ResidentStore string :=
  room records ;;;
  let! t := lift (NumericFormats.scaled_check sha_bytes sha_text conversion_plan_id float_hex t) in
  if negb (contract_matches contract (NumericFormats.target_digest t) target_dtype)
  then raise (ValueError "Qwen4 resident precision contract mismatch")
  else if negb (metadata_ok component scratch) then raise (ValueError "Qwen4 resident numeric load metadata is invalid")
  else
    let shape := tensor_shape t in
    let n := Zlen (NumericFormats.payload t) in
    let! size := dtype_size target_dtype in
    let! r := on_admission (reserve ("numeric:" +:+ NumericFormats.target_digest t) (numeric_descriptor component shape) target_dtype
                              (n + Zlen (NumericFormats.block_scales t)) (n * 4 + n * size + scratch)) in
    with_local ()
      (settle r component target_dtype "Qwen4 failed resident numeric allocation was quarantined"
         (match b_load_scaled_int8 with
          | None => raise (ValueError "Qwen4 resident backend lacks scaled INT8 support")
          | Some f => zoom fst (λ x p, (x, p.2)) (f t target_dtype contract (reserved_bytes r))
          end)
         (λ al, guard_raise (negb (numeric_evidence r shape contract None al)) (ValueError "Qwen4 resident numeric allocation evidence is invalid"))).

(** Closing a local stream, or the provider no stream was made for. *)
Definition close_local (l : NumericFileStream.NVFP4FileTileProvider F + Stream F) : res exn () :=
  match l with
  | inl p => (NumericFileStream.close p).1
  | inr st => (NumericStream.close NumericFileStream.close st).1
  end.
Definition finally_close {A} (m : Py (Qwen4ResidentStore * (NumericFileStream.NVFP4FileTileProvider F + Stream F)) A)
    : Py (Qwen4ResidentStore * (NumericFileStream.NVFP4FileTileProvider F + Stream F)) A :=
  finally m (λ p, (close_local p.2, p)).
(** A load over the stream of the local state; [stream] makes it. *)
Definition over_stream (stream : NumericFileStream.NVFP4FileTileProvider F + Stream F → res exn (Stream F))
    (f : option (Py (H * Stream F) Allocation)) (lacks : exn) : Py (H * (NumericFileStream.NVFP4FileTileProvider F + Stream F)) Allocation := λ p,
  match stream p.2 with
  | Raise e => (Raise e, p)
  | Ok st =>
      match f with
      | None => (Raise lacks, (p.1, inr st))
      | Some f => let '(r, (h, st')) := f (p.1, st) in (r, (h, inr st'))
      end
  end.
(** The tests of an allocation against the state of its stream. *)
Definition stream_evidence (r : TensorLoadReservation) (shape : list Z) (contract : NumericPrecision.PrecisionExecutionContract)
    (plan : NumericStream.NumericStreamingPlan) (message : string) (al : Allocation) : Py (Stream F) () := λ st,
  (if numeric_evidence r shape contract (Some (NumericStream.plan_id sha_bytes plan)) al
      && (NumericStream.in_flight st =? 0) && (NumericStream.next_index st =? NumericStream.tile_count plan)
   then Ok () else Raise (ValueError message), st).
Definition on_stream {L A} (m : Py (Stream F) A) : Py (L + Stream F) A := λ l,
  match l with inl _ => (Raise (TypeError "'NoneType' object has no attribute 'snapshot'"), l) | inr st => let '(r, st') := m st in (r, inr st') end.

(** [load_scaled_int8_streaming] *)
Definition load_scaled_int8_streaming (others : Qwen4MemoryAdmission → Qwen4MemoryAdmission) (t : NumericFormats.ScaledInt8Tensor)
    (plan : NumericStream.NumericStreamingPlan) (target_dtype : string) (contract : NumericPrecision.PrecisionExecutionContract)
    (component : string) (scratch : Z) : Py Qwen4ResidentStore string :=
  room records ;;;
  let! t := lift (NumericFormats.scaled_check sha_bytes sha_text conversion_plan_id float_hex t) in
  let n := Zlen (NumericFormats.payload t) in
  if negb (NumericStream.source_bytes plan =? n) || negb (contract_matches contract (NumericFormats.target_digest t) target_dtype)
  then raise (ValueError "Qwen4 resident numeric streaming contract mismatch")
  else if negb (metadata_ok component scratch) then raise (ValueError "Qwen4 resident numeric streaming metadata is invalid")
  else
    let shape := tensor_shape t in
    let! size := dtype_size target_dtype in
    let! r := on_admission (reserve_numeric_stream others ("numeric:" +:+ NumericFormats.target_digest t) (numeric_descriptor component shape) target_dtype
                              plan (n + Zlen (NumericFormats.block_scales t)) (n * 4 + n * size + scratch)) in
    λ s,
    match NumericStream.new_stream sha_bytes plan (Some (NumericFormats.payload t)) None with
    | Raise e => (on_admission (release r) ;;; raise e) s
    | Ok st =>
        with_local (inr st)
          (finally_close
             (settle r component target_dtype "Qwen4 failed resident numeric streaming allocation was quarantined"
                (over_stream (λ _, Ok st) ((λ f, f t target_dtype contract (reserved_bytes r)) <$> b_load_scaled_int8_streaming)
                   (ValueError "Qwen4 resident backend lacks numeric streaming support"))
                (λ al, on_stream (stream_evidence r shape contract plan "Qwen4 resident numeric streaming evidence is invalid" al)))) s
    end.

(** [provider.verify_unchanged()], of the provider that the stream holds until it is closed. *)
Definition verify_provider : Py (Stream F) () := λ st,
  match NumericStream.provider st with
  | None => (Raise (ValueError "file-backed NVFP4 provider is closed"), st)
  | Some p => let '(r, p') := NumericFileStream.verify_unchanged p in (r, NumericStream.with_provider (Some p') st)
  end.
Definition provider_shape (p : NumericFileStream.NVFP4FileTileProvider F) : list Z :=
  match NumericFileStream.geometry p with
  | Some g => NumericFormats.shape g
  | None => [NumericFormats.elements (NumericFileStream.descriptor p)]
  end.
(** [load_nvfp4_file_stream] *)
Definition load_nvfp4_file_stream (others : Qwen4MemoryAdmission → Qwen4MemoryAdmission) (p : NumericFileStream.NVFP4FileTileProvider F)
    (tile_bytes : Z) (target_dtype : string) (contract : NumericPrecision.PrecisionExecutionContract) (buffer_count : Z)
    (component : string) (scratch : Z) : Py Qwen4ResidentStore string :=
  with_local (inl p)
    (finally_close
       (room (λ q, records q.1) ;;;
        if negb (contract_matches contract (NumericFileStream.target_digest p) target_dtype)
        then raise (ValueError "Qwen4 file-backed NVFP4 contract mismatch")
        else if negb (metadata_ok component scratch) then raise (ValueError "Qwen4 file-backed NVFP4 metadata is invalid")
        else
          let! plan := lift (NumericFileStream.streaming_plan tile_bytes buffer_count p) in
          let n := NumericFormats.elements (NumericFileStream.descriptor p) in
          let shape := provider_shape p in
          let! size := dtype_size target_dtype in
          let! r := on_store (on_admission
            (reserve_numeric_stream others ("numeric:" +:+ NumericFileStream.target_digest p) (numeric_descriptor component shape) target_dtype
               plan 0 (n * 4 + n * size + scratch))) in
          settle r component target_dtype "Qwen4 failed file-backed allocation was quarantined"
            (over_stream (λ _, NumericStream.new_stream sha_bytes plan None (Some p))
               ((λ f, f target_dtype contract (reserved_bytes r)) <$> b_load_nvfp4_file_stream)
               (ValueError "Qwen4 resident backend lacks file-backed NVFP4 support"))
            (λ al, on_stream (verify_provider ;;; stream_evidence r shape contract plan "Qwen4 file-backed NVFP4 allocation evidence is invalid" al)))).

(** ** Unloading *)

(** [unload] *)
Definition unload (handle : string) : Py Qwen4ResidentStore () := λ s,
  match od_get handle (records s) with
  | None => (Raise (KeyError "unknown Qwen4 resident tensor handle"), s)
  | Some r =>
      (on_host (b_release (resource (allocation r))) ;;; on_admission (release (reservation r)) ;;;
       modify (λ s, with_records (od_del handle (records s)) s)) s
  end.
(** The loops over the items of a dictionary that release what the backend lets go; [drop]
    deletes the entry. *)
Fixpoint release_each (drop : string → Qwen4ResidentStore → Qwen4ResidentStore) (items : list (string * ResidentRecord)) (released : Z)
    : Py Qwen4ResidentStore Z :=
  match items with
  | [] => ret released
  | (h, r) :: items' => λ s,
      match on_host (b_release (resource (allocation r))) s with
      | (Raise _, s') => release_each drop items' released s'
      | (Ok _, s') => (on_admission (release (reservation r)) ;;; modify (drop h) ;;; release_each drop items' (released + 1)) s'
      end
  end.
Definition drop_record (h : string) s := with_records (od_del h (records s)) s.
Definition drop_quarantined (h : string) s := with_quarantined (od_del h (quarantined s)) s.
(** [retry_quarantined_releases] *)
Definition retry_quarantined_releases : Py Qwen4ResidentStore Z := λ s, release_each drop_quarantined (quarantined s) 0 s.
(** [snapshot] *)
Record StoreSnapshot := mkStoreSnapshot { n_resident : Z; n_quarantined : Z; resident_components : gmap string Z; memory : Snapshot }.
Definition store_snapshot s : StoreSnapshot :=
  mkStoreSnapshot (Zlen (records s)) (Zlen (quarantined s))
    (foldl (λ m p, <[r_component p.2 := default 0 (m !! r_component p.2) + 1]> m) ∅ (records s)) (snapshot (admission s)).
(** [shutdown] *)
Definition shutdown : Py Qwen4ResidentStore StoreSnapshot :=
  (λ s, release_each drop_record (records s) 0 s) ;;; (λ s, release_each drop_quarantined (quarantined s) 0 s) ;;; λ s, (Ok (store_snapshot s), s).
End store.

(** ** Other users of the admission

    Steps of other threads, which release and retain what they were given and nothing the
    store owns. *)
Inductive fstep (own : Z → Prop) (a : Qwen4MemoryAdmission) : Qwen4MemoryAdmission → Prop :=
| fs_reserve name d target source scratch : fstep own a (reserve name d target source scratch a).2
| fs_stream r plan : reservations a !! reservation_id r = Some r → ¬ own (reservation_id r) → fstep own a (put_reservation (streamed plan r) a)
| fs_retain r : reservations a !! reservation_id r = Some r → ¬ own (reservation_id r) → fstep own a (retain_destination r a).2
| fs_release r : reservations a !! reservation_id r = Some r → ¬ own (reservation_id r) → fstep own a (release r a).2.
Lemma fstep_keeps own a a' : admission_inv a → fstep own a a' →
  admission_inv a' ∧ next_id a <= next_id a' ∧ ∀ i r, own i → reservations a !! i = Some r → reservations a' !! i = Some r.
Proof.
  intros Ha Hs. split; [apply (astep_inv a); [done|]; destruct Hs; by constructor|]. destruct Hs as [name d target source scratch|r plan Hr Ho|r Hr Ho|r Hr Ho].
  - pose proof (reserve_effect name d target source scratch a Ha) as H. destruct (reserve _ _ _ _ _ a) as [[r|e] a1]; cbn; [|by subst].
    destruct H as (_ & _ & -> & _ & -> & _). split; [lia|]. intros i q _ Hi. rewrite lookup_insert_ne; [done|]. intros <-.
    destruct (ai_reservation _ Ha _ _ Hi) as (_ & ? & _). lia.
  - split; [done|]. intros i q Hi Hq. cbn. rewrite lookup_insert_ne; [done|]. intros <-. by apply Ho.
  - pose proof (retain_effect r a Ha Hr) as H. destruct (retain_destination r a) as [x a1]. destruct H as (_ & H1 & H2 & _). cbn. rewrite H1, H2.
    split; [done|]. intros i q Hi Hq. rewrite lookup_insert_ne; [done|]. intros <-. by apply Ho.
  - pose proof (release_effect r a Ha Hr) as H. destruct (release r a) as [x a1]. destruct H as (_ & H1 & _ & H2 & _). cbn. rewrite H1, H2.
    split; [done|]. intros i q Hi Hq. rewrite lookup_delete_ne; [done|]. intros <-. by apply Ho.
Qed.
Lemma frun_keeps own a a' : admission_inv a → rtc (fstep own) a a' →
  admission_inv a' ∧ next_id a <= next_id a' ∧ ∀ i r, own i → reservations a !! i = Some r → reservations a' !! i = Some r.
Proof.
  intros Ha Hr. revert Ha. induction Hr as [a|a b c Hs _ IH]; intros Ha; [done|]. destruct (fstep_keeps own a b Ha Hs) as (Hb & H1 & H2).
  destruct (IH Hb) as (Hc & H3 & H4). split_and!; [done|lia|]. intros i r Hi Hir. by apply H4, H2.
Qed.

(** ** Invariant *)

Section spec.
Context {H R F Chunks : Type} `{!Qwen4ResidentBackend H R F Chunks} `{!NumericFileStream.OS F}.
(** The resources that the backend holds in a state of the host, for the store. *)
Context (live : H → list R).
(** What the store relies on: a load that returns has made one resource, a load that raises
    none, and a release takes exactly the resource it is given unless it raises. *)
Definition allocates {L} (m : Py (H * L) (ResidentBackendAllocation R)) : Prop :=
  ∀ p, match m p with
       | (Ok al, p') => live p'.1 ≡ₚ resource al :: live p.1
       | (Raise _, p') => live p'.1 ≡ₚ live p.1
       end.
Class BackendLaws : Prop := {
  law_load c source target dims n h :
    match b_load c source target dims n h with
    | (Ok (al, _), h') => live h' ≡ₚ resource al :: live h
    | (Raise _, h') => live h' ≡ₚ live h
    end;
  law_scaled f t d k n h : b_load_scaled_int8 (Chunks := Chunks) (F := F) = Some f →
    match f t d k n h with
    | (Ok al, h') => live h' ≡ₚ resource al :: live h
    | (Raise _, h') => live h' ≡ₚ live h
    end;
  law_streaming f t d k n : b_load_scaled_int8_streaming (Chunks := Chunks) = Some f → allocates (f t d k n);
  law_file f d k n : b_load_nvfp4_file_stream (Chunks := Chunks) = Some f → allocates (f d k n);
  law_release x h : x ∈ live h →
    match b_release (F := F) (Chunks := Chunks) x h with
    | (Ok _, h') => live h ≡ₚ x :: live h'
    | (Raise _, h') => live h' ≡ₚ live h
    end;
  law_close c h : live (b_close_chunks (R := R) (F := F) c h).2 ≡ₚ live h;
}.
Context `{!BackendLaws}.
Context (tokens : nat → string) `{!Inj (=) (=) tokens}.
Implicit Types (s : Qwen4ResidentStore (H := H) (R := R)) (r : TensorLoadReservation) (rec : ResidentRecord (R := R)).

Definition held s : list ResidentRecord := (records s ++ quarantined s).*2.
Definition record_id rec : Z := reservation_id (reservation rec).
Definition record_resource rec : R := resource (allocation rec).
(** [extra]: resources that a load has allocated and not yet recorded. *)
Record inv_with (extra : list R) s : Prop := {
  iv_admission : admission_inv (admission s);
  iv_entry : ∀ rec, rec ∈ held s → reservations (admission s) !! record_id rec = Some (reservation rec) ∧ 0 < reserved_bytes (reservation rec);
  iv_distinct : NoDup (record_id <$> held s);
  iv_records : NoDup (records s).*1;
  iv_quarantined : NoDup (quarantined s).*1;
  iv_drawn : ∀ k, k ∈ (records s).*1 ∨ k ∈ (quarantined s).*1 → ∃ n, (n < drawn s)%nat ∧ k = tokens n;
  iv_live : live (host s) ≡ₚ extra ++ (record_resource <$> held s);
  iv_resident : ∀ rec, rec ∈ (records s).*2 → reserved_bytes (reservation rec) = output_bytes (allocation rec);
}.
Abbreviation store_inv := (inv_with []).
(** A reservation of the load under way. *)
Record pending r s : Prop := {
  pe_entry : reservations (admission s) !! reservation_id r = Some r;
  pe_destination : 0 < destination_bytes r;
  pe_bytes : 0 < reserved_bytes r;
  pe_unowned : reservation_id r ∉ record_id <$> held s;
}.
Lemma host_inv extra extra' s h : inv_with extra s → live h ≡ₚ extra' ++ (record_resource <$> held s) → inv_with extra' (with_host h s).
Proof. intros [] Hl. by split. Qed.
Lemma admission_frame extra s a : inv_with extra s → admission_inv a →
  (∀ rec, rec ∈ held s → reservations a !! record_id rec = reservations (admission s) !! record_id rec) → inv_with extra (with_admission a s).
Proof. intros [I1 I2 I3 I4 I5 I6 I7 I8] Ha Hf. split; try done. cbn. intros rec Hr. rewrite Hf by done. by apply I2. Qed.
Lemma pending_ne r s rec : pending r s → rec ∈ held s → record_id rec ≠ reservation_id r.
Proof. intros [_ _ _ Hu] Hr Heq. apply Hu. rewrite <-Heq. by apply list_elem_of_fmap_2. Qed.
(** The reservation of a failed load is given back. *)
Lemma release_pending extra r s : inv_with extra s → pending r s →
  ∃ a, on_admission (release r) s = (Ok (), with_admission a s) ∧ inv_with extra (with_admission a s).
Proof.
  intros Hs Hp. pose proof (release_effect r (admission s) (iv_admission _ _ Hs) (pe_entry _ _ Hp)) as He. unfold on_admission, zoom.
  destruct (release r (admission s)) as [x a] eqn:E. destruct He as (Ha & Hr & _ & _ & _ & Hok & _). rewrite (Hok (pe_bytes _ _ Hp)). exists a. split; [done|].
  apply admission_frame; [done|done|]. intros rec Hrec. rewrite Hr, lookup_delete_ne; [done|]. intros Heq. by apply (pending_ne r s rec).
Qed.
(** The first token is fresh: no handle is drawn twice. *)
Lemma token_fresh s extra : inv_with extra s → od_get (tokens (drawn s)) (records s) = None ∧ od_get (tokens (drawn s)) (quarantined s) = None.
Proof.
  intros Hs. split; apply od_get_None; intros Hin; destruct (iv_drawn _ _ Hs (tokens (drawn s))) as (n & Hn & Heq); auto;
    apply (inj tokens) in Heq; lia.
Qed.
Definition next_drawn s : Qwen4ResidentStore := mkStore (admission s) (records s) (quarantined s) (host s) (S (drawn s)).
Lemma fresh_handle_first s extra : inv_with extra s → fresh_handle tokens s = (Ok (tokens (drawn s)), next_drawn s).
Proof.
  intros Hs. destruct (token_fresh s extra Hs) as [Hr _]. unfold fresh_handle, token_hex, bind. cbn [records].
  assert (Hm : od_mem (tokens (drawn s)) (records s) = false) by (unfold od_mem; by rewrite Hr).
  destruct (length (records s)); cbn [fresh_from records]; by rewrite Hm.
Qed.
(** A pending load's tensor becomes resident. *)
Lemma keep_spec al r component dtype s : inv_with [resource al] s → pending r s → output_bytes al = destination_bytes r →
  ∃ a, let rec := mkRecord al (retained r) component dtype in
  let s' := mkStore a (records s ++ [(tokens (drawn s), rec)]) (quarantined s) (host s) (S (drawn s)) in
  keep tokens al r component dtype s = (Ok (tokens (drawn s)), s') ∧ store_inv s'.
Proof.
  intros Hs Hp Hout. pose proof (retain_effect r (admission s) (iv_admission _ _ Hs) (pe_entry _ _ Hp)) as He.
  destruct (token_fresh s _ Hs) as [Hfresh _]. unfold keep, bind at 1, on_admission, zoom.
  destruct (retain_destination r (admission s)) as [x a] eqn:E. destruct He as (Ha & Hr & _ & _ & Hok & _). rewrite (Hok (pe_bytes _ _ Hp)).
  assert (Hframe : inv_with [resource al] (with_admission a s)).
  { apply admission_frame; [done|done|]. intros rec Hrec. rewrite Hr, lookup_insert_ne; [done|]. intros Heq. by apply (pending_ne r s rec). }
  exists a. unfold bind. rewrite (fresh_handle_first _ _ Hframe). unfold modify, ret, with_records. cbn. rewrite od_set_new by done. split; [done|].
  destruct Hframe as [I1 I2 I3 I4 I5 I6 I7 I8]. cbn in *. set (rec := mkRecord al (retained r) component dtype). set (s' := mkStore _ _ _ _ _).
  assert (Hheld : held s' ≡ₚ rec :: held s).
  { unfold held, s'. cbn. rewrite !fmap_app. cbn. rewrite <-app_assoc. cbn. by rewrite <-Permutation_middle. }
  split; try done.
  - intros q. rewrite Hheld. intros [->|Hq]%elem_of_cons; [|by apply I2]. cbn. rewrite Hr. unfold record_id. cbn. rewrite lookup_insert_eq.
    split; [done|apply (pe_destination _ _ Hp)].
  - rewrite Hheld. cbn. apply NoDup_cons. split; [apply (pe_unowned _ _ Hp)|done].
  - cbn. rewrite fmap_app. apply NoDup_app. split_and!; [done| |apply NoDup_singleton]. cbn. intros k Hk ->%list_elem_of_singleton.
    by apply od_get_None in Hfresh.
  - cbn. intros k Hk. rewrite fmap_app, elem_of_app in Hk. cbn in Hk. destruct Hk as [[Hk|Hk%list_elem_of_singleton]|Hk].
    + destruct (I6 k) as (n & ? & ?); [by left|]. exists n. split; [lia|done].
    + exists (drawn s). split; [lia|done].
    + destruct (I6 k) as (n & ? & ?); [by right|]. exists n. split; [lia|done].
  - rewrite Hheld. cbn. rewrite I7. done.
  - cbn. intros q. rewrite fmap_app, elem_of_app. cbn. intros [Hq| ->%list_elem_of_singleton]; [by apply I8|]. cbn. done.
Qed.
Lemma quarantine_spec al r component dtype s : inv_with [resource al] s → pending r s →
  let rec := mkRecord al r component dtype in
  let s' := mkStore (admission s) (records s) (quarantined s ++ [(tokens (drawn s), rec)]) (host s) (S (drawn s)) in
  quarantine tokens al r component dtype s = (Ok (), s') ∧ store_inv s'.
Proof.
  intros Hs Hp rec s'. destruct (token_fresh s _ Hs) as [_ Hfresh]. unfold quarantine, bind, token_hex, modify, with_quarantined. cbn.
  rewrite od_set_new by done. split; [done|]. destruct Hs as [I1 I2 I3 I4 I5 I6 I7 I8].
  assert (Hheld : held s' ≡ₚ rec :: held s).
  { unfold held, s'. cbn. rewrite !fmap_app. cbn. rewrite app_assoc. symmetry. apply Permutation_cons_append. }
  split; try done.
  - intros q. rewrite Hheld. intros [->|Hq]%elem_of_cons; [|by apply I2]. cbn. split; [apply (pe_entry _ _ Hp)|apply (pe_bytes _ _ Hp)].
  - rewrite Hheld. cbn. apply NoDup_cons. split; [apply (pe_unowned _ _ Hp)|done].
  - cbn. rewrite fmap_app. apply NoDup_app. split_and!; [done| |apply NoDup_singleton]. cbn. intros k Hk ->%list_elem_of_singleton.
    by apply od_get_None in Hfresh.
  - cbn. intros k Hk. rewrite fmap_app, elem_of_app in Hk. cbn in Hk. destruct Hk as [Hk|[Hk|Hk%list_elem_of_singleton]].
    + destruct (I6 k) as (n & ? & ?); [by left|]. exists n. split; [lia|done].
    + destruct (I6 k) as (n & ? & ?); [by right|]. exists n. split; [lia|done].
    + exists (drawn s). split; [lia|done].
  - rewrite Hheld. cbn. rewrite I7. done.
Qed.
(** What a load leaves behind: the tensor resident, or nothing, or the allocation in
    quarantine. *)
Definition load_outcome (r_name : string) (x : res exn string) s s' : Prop :=
  match x with
  | Ok h => ∃ rec, records s' = records s ++ [(h, rec)] ∧ quarantined s' = quarantined s ∧ h = tokens (drawn s) ∧
              tensor_name (reservation rec) = r_name ∧ reserved_bytes (reservation rec) = output_bytes (allocation rec)
  | Raise _ => records s' = records s ∧ (quarantined s' = quarantined s ∨ ∃ h rec, quarantined s' = quarantined s ++ [(h, rec)] ∧ tensor_name (reservation rec) = r_name)
  end.
Definition load_ok (name : string) s (y : res exn string * Qwen4ResidentStore) : Prop := store_inv y.2 ∧ load_outcome name y.1 s y.2.
(** The result and the store of a method that has a local state. *)
Definition store_part {L} (y : res exn string * (Qwen4ResidentStore (H := H) (R := R) * L)) : res exn string * Qwen4ResidentStore (H := H) (R := R) := (y.1, y.2.1).
Lemma load_ok_raise name s e : store_inv s → load_ok name s (Raise e, s).
Proof. intros Hs. split; [done|]. split; [done|by left]. Qed.
Lemma pending_host r s h : pending r s → pending r (with_host h s).
Proof. by intros []. Qed.
Lemma abandon_spec {L} al r component dtype message e s (l : L) : inv_with [resource al] s → pending r s →
  load_ok (tensor_name r) s (store_part (abandon (A := string) tokens al r component dtype message e (s, l))).
Proof.
  intros Hs Hp. unfold store_part, abandon, on_store, on_host, zoom. cbn [fst snd]. pose proof (iv_live _ _ Hs) as Hl.
  pose proof (law_release (resource al) (host s)) as Hrel. rewrite Hl in Hrel at 1. specialize (Hrel ltac:(left)).
  destruct (b_release (resource al) (host s)) as [[[]|e'] h]; unfold bind, raise; cbn [fst snd].
  - assert (K : store_inv (with_host h s)) by (apply (host_inv _ [] s h Hs), (Permutation_cons_inv (a := resource al)); by rewrite <-Hrel, Hl).
    destruct (release_pending _ r _ K (pending_host r s h Hp)) as (a & Hr & K2). rewrite Hr. split; [done|]. split; [done|by left].
  - assert (K : inv_with [resource al] (with_host h s)) by (apply (host_inv _ _ s h Hs); by rewrite Hrel, Hl).
    destruct (quarantine_spec al r component dtype _ K (pending_host r s h Hp)) as [Hq K2]. rewrite Hq.
    split; [done|]. split; [done|]. right. by do 2 eexists.
Qed.
Lemma settle_spec {L} r component dtype message (load : Py (H * L) (ResidentBackendAllocation R)) evidence s l :
  store_inv s → pending r s → allocates load → (∀ al l l', evidence al l = (Ok (), l') → output_bytes al = destination_bytes r) →
  load_ok (tensor_name r) s (store_part (settle tokens r component dtype message load evidence (s, l))).
Proof.
  intros Hs Hp Hload Hev. unfold store_part, settle, on_store. cbv [zoom]. cbn [fst snd]. specialize (Hload (host s, l)).
  destruct (load (host s, l)) as [[al|e] [h l1]]; cbn in Hload; unfold bind; cbn [fst snd].
  - assert (K : inv_with [resource al] (with_host h s)) by (apply (host_inv [] _ s h Hs); cbn; by rewrite Hload, (iv_live _ _ Hs)).
    pose proof (pending_host r s h Hp) as Hp1. destruct (evidence al l1) as [[[]|e] l2] eqn:Eev; [|exact (abandon_spec al r component dtype message e (with_host h s) l2 K Hp1)].
    destruct (keep_spec al r component dtype _ K Hp1 (Hev _ _ _ Eev)) as (a & Hk & K2). cbn [fst snd]. rewrite Hk. cbn. split; [done|].
    eexists. split_and!; try done. cbn. symmetry. by eapply Hev.
  - assert (K : store_inv (with_host h s)) by (apply (host_inv [] _ s h Hs); cbn; by rewrite Hload, (iv_live _ _ Hs)).
    destruct (release_pending _ r _ K (pending_host r s h Hp)) as (a & Hr & K2). rewrite Hr. split; [done|]. split; [done|by left].
Qed.
(** A reservation just made is pending. *)
Lemma reserve_pending name d target source scratch s : store_inv s → (∀ shape, d_shape d = Some shape → Some 0 ∉ shape) →
  match on_admission (reserve name d target source scratch) s with
  | (Ok r, s') => ∃ a, s' = with_admission a s ∧ store_inv s' ∧ pending r s' ∧ tensor_name r = name ∧ next_id a = next_id (admission s) + 1 ∧
                       reservation_id r = next_id (admission s)
  | (Raise _, s') => s' = s
  end.
Proof.
  intros Hs Hpos. pose proof (reserve_effect name d target source scratch (admission s) (iv_admission _ _ Hs)) as He. unfold on_admission, zoom.
  assert (Hname : ∀ r a, reserve name d target source scratch (admission s) = (Ok r, a) → tensor_name r = name).
  { intros r a. unfold reserve. repeat case_match; intros; simplify_eq; done. }
  destruct (reserve _ _ _ _ _ (admission s)) as [[r|e] a] eqn:E; [|subst a; by destruct s].
  destruct He as (Ha & Hid & Hr & _ & Hnext & Hok & _ & _ & _ & dims & size & Hshape & Hsize & Hdest & Hdims).
  assert (Hd : 0 < destination_bytes r).
  { rewrite Hdest. apply Z.mul_pos_pos; [|unfold dtype_bytes in Hsize; repeat case_match; simplify_eq; lia].
    specialize (Hpos _ Hshape). clear -Hdims Hpos. induction Hdims as [|m dims Hm _ IH]; cbn; [lia|]. cbn in Hpos.
    apply not_elem_of_cons in Hpos as [Hne Hpos]. apply Z.mul_pos_pos; [|by apply IH]. assert (m ≠ 0) by congruence. lia. }
  assert (Hbelow : ∀ rec, rec ∈ held s → record_id rec < next_id (admission s)).
  { intros rec Hrec. destruct (iv_entry _ _ Hs rec Hrec) as [Hl _]. by destruct (ai_reservation _ (iv_admission _ _ Hs) _ _ Hl) as (_ & ? & _). }
  exists a. split; [done|]. split; [|split_and!; try done; [|by eapply Hname]].
  - apply admission_frame; [done|done|]. intros rec Hrec. rewrite Hr, lookup_insert_ne; [done|]. pose proof (Hbelow rec Hrec). lia.
  - split; cbn; [rewrite Hr, Hid; by rewrite lookup_insert_eq|done|destruct Hok; lia|]. intros (rec & Heq & Hrec)%list_elem_of_fmap.
    pose proof (Hbelow rec Hrec). lia.
Qed.

(** ** Loads *)

(** The handle of a load is lost when what it closes at the end raises. *)
Definition load_left (name : string) (s : Qwen4ResidentStore) (y : res exn string * Qwen4ResidentStore) : Prop :=
  store_inv y.2 ∧ (load_outcome name y.1 s y.2 ∨ is_ok y.1 = false ∧ ∃ h, load_outcome name (Ok h) s y.2).
Lemma load_left_ok name s y : load_ok name s y → load_left name s y.
Proof. intros [Hi Ho]. split; [done|by left]. Qed.
Lemma load_left_raise name s e : store_inv s → load_left name s (Raise e, s).
Proof. intros Hs. by apply load_left_ok, load_ok_raise. Qed.
Lemma load_ok_with_admission name s a y : load_ok name (with_admission a s) y → load_ok name s y.
Proof. done. Qed.
Lemma room_spec {S} (get_records : S → list (string * ResidentRecord (R := R))) (st : S) : (room get_records st).2 = st.
Proof. unfold room, guard_raise. by destruct (_ >=? _). Qed.

Section loads.
Context (descriptor : string → res exn Descriptor) (maximum_chunk_bytes : Z).
Context (iter_tensor_chunks : string → res exn Chunks) (iter_tensor_axis0_slice : string → Z → Z → res exn Chunks).
Context (sha_bytes : bytes → string) (sha_text : string → string) (conversion_plan_id : NumericFormats.AnyPlan → string).
Context (float_hex float_repr : PyFloat.float → string).
Abbreviation load := (load descriptor maximum_chunk_bytes iter_tensor_chunks iter_tensor_axis0_slice tokens (H := H) (R := R) (F := F)).
Abbreviation load_scaled_int8 := (load_scaled_int8 tokens sha_bytes sha_text conversion_plan_id float_hex float_repr (H := H) (R := R) (F := F) (Chunks := Chunks)).
Abbreviation load_streaming := (load_scaled_int8_streaming tokens sha_bytes sha_text conversion_plan_id float_hex float_repr (H := H) (R := R) (F := F) (Chunks := Chunks)).
Abbreviation load_file := (load_nvfp4_file_stream tokens sha_bytes sha_text float_repr (H := H) (R := R) (F := F) (Chunks := Chunks)).

Lemma load_spec name dtype scratch axis0 s : store_inv s →
  (∀ dc shape, source_of descriptor iter_tensor_chunks iter_tensor_axis0_slice name axis0 = Ok dc → d_shape dc.1 = Some shape → Some 0 ∉ shape) →
  load_left name s (load name dtype scratch axis0 s).
Proof.
  intros Hs Hpos. unfold ResidentStore.load, bind at 1. pose proof (room_spec records s) as Hroom. destruct (room records s) as [[[]|e] s0]; cbn in Hroom; subst s0; [|by apply load_left_raise].
  unfold bind at 1, lift. destruct (source_of _ _ _ name axis0) as [[d c]|e] eqn:Esrc; [|by apply load_left_raise]. cbn [fst snd].
  destruct (negb (d_active d)); [by apply load_left_raise|]. destruct (d_shape d) as [shape|] eqn:Eshape; [|by apply load_left_raise].
  destruct (d_dtype d) as [sd|]; [|by apply load_left_raise]. destruct (d_bytes d) as [n|]; [|by apply load_left_raise].
  destruct (d_component d) as [component|]; [|by apply load_left_raise]. unfold bind at 1.
  pose proof (reserve_pending name d dtype (Z.min n maximum_chunk_bytes) scratch s Hs (λ sh Hsh, Hpos (d, c) sh eq_refl Hsh)) as Hres.
  destruct (on_admission (reserve _ _ _ _ _) s) as [[r|e] s1]; [|subst s1; by apply load_left_raise].
  destruct Hres as (a & -> & Hs1 & Hp & <- & _). unfold finally, with_local.
  match goal with |- context [settle tokens r component dtype ?m ?ld ?ev (with_admission a s, 0)] =>
    assert (Halloc : allocates ld); [|assert (Hev : ∀ al k k', ev al k = (Ok (), k') → output_bytes al = destination_bytes r);
      [|pose proof (settle_spec r component dtype m ld ev _ 0 Hs1 Hp Halloc Hev) as Hset;
        destruct (settle tokens r component dtype m ld ev (with_admission a s, 0)) as [x [s2 l2]]]] end.
  { intros [h k]. cbn. pose proof (law_load c sd dtype (omap (M := list) id shape) (reserved_bytes r) h) as Hl.
    by destruct (b_load _ _ _ _ _ h) as [[[al m]|e] h']. }
  { intros al k k'. unfold load_evidence. destruct (_ || _) eqn:E; [done|]. by breflect. }
  cbn [fst snd] in Hset. destruct Hset as [Hi Ho]. unfold on_host, zoom.
  pose proof (law_close c (host s2)) as Hc. destruct (b_close_chunks c (host s2)) as [[u|e] h]; cbn in Hc.
  all: assert (Hi2 : store_inv (with_host h s2)) by (apply (host_inv [] _ s2 h Hi); cbn; rewrite Hc; apply (iv_live _ _ Hi)).
  - split; [done|by left].
  - split; [done|]. destruct x as [hd|e']; [right; split; [done|by exists hd]|left; exact Ho].
Qed.
Lemma tensor_descriptor_pos component dims : 0 ∉ dims → ∀ shape, d_shape (numeric_descriptor component dims) = Some shape → Some 0 ∉ shape.
Proof. intros Hd shape [= <-] (x & Heq & Hx)%list_elem_of_fmap. congruence. Qed.
Lemma numeric_evidence_bytes r dims contract plan al : numeric_evidence sha_text float_repr r dims contract plan al = true → output_bytes (R := R) al = destination_bytes r.
Proof. unfold numeric_evidence. intros E. by breflect. Qed.

Lemma load_scaled_spec t dtype contract component scratch s : store_inv s → 0 ∉ tensor_shape t →
  ∃ name, load_left name s (load_scaled_int8 t dtype contract component scratch s).
Proof.
  intros Hs Hpos. unfold ResidentStore.load_scaled_int8, bind at 1. pose proof (room_spec records s) as Hroom.
  exists ("numeric:" +:+ NumericFormats.target_digest t)%string.
  destruct (room records s) as [[[]|e] s0]; cbn in Hroom; subst s0; [|by apply load_left_raise].
  unfold bind at 1, lift. destruct (NumericFormats.scaled_check _ _ _ _ t) as [t'|e] eqn:Et; [|by apply load_left_raise].
  assert (t' = t) as ->.
  { unfold NumericFormats.scaled_check, check in Et. repeat case_match; try done; by simplify_eq. }
  destruct (negb _); [by apply load_left_raise|]. destruct (negb _); [by apply load_left_raise|]. unfold bind at 1, dtype_size.
  destruct (dtype_bytes dtype) as [size|]; [|by apply load_left_raise]. unfold ret, bind at 1.
  match goal with |- context [on_admission (reserve ?a ?b ?c ?d ?e) s] =>
    pose proof (reserve_pending a b c d e s Hs (tensor_descriptor_pos _ _ Hpos)) as Hres; destruct (on_admission (reserve a b c d e) s) as [[r|e'] s1] end;
    [|subst s1; by apply load_left_raise].
  destruct Hres as (a & -> & Hs1 & Hp & <- & _). apply load_left_ok, (load_ok_with_admission _ s a). unfold with_local.
  match goal with |- context [settle tokens r component dtype ?m ?ld ?ev (with_admission a s, ())] =>
    assert (Halloc : allocates ld); [|pose proof (settle_spec r component dtype m ld ev _ () Hs1 Hp Halloc) as Hset;
      destruct (settle tokens r component dtype m ld ev (with_admission a s, ())) as [x [s2 []]]] end.
  - intros [h []]. destruct b_load_scaled_int8 as [f|] eqn:Ef; [|cbn; done]. unfold zoom. cbn. pose proof (law_scaled f t dtype contract (reserved_bytes r) h Ef) as Hl.
    by destruct (f t dtype contract (reserved_bytes r) h) as [[al|e] h'].
  - apply Hset. intros al l l'. unfold guard_raise. destruct (negb _) eqn:E; [done|]. intros _. breflect. by eapply numeric_evidence_bytes.
Qed.
(** A stream's reservation, whatever other threads do with their own. *)
Lemma stream_pending others name d dtype plan metadata scratch s : store_inv s → (∀ shape, d_shape d = Some shape → Some 0 ∉ shape) →
  (∀ a, rtc (fstep (λ i, i ∈ record_id <$> held s ∨ i = next_id (admission s))) a (others a)) →
  match on_admission (reserve_numeric_stream others name d dtype plan metadata scratch) s with
  | (Ok r, s') => ∃ a, s' = with_admission a s ∧ store_inv s' ∧ pending r s' ∧ tensor_name r = name
  | (Raise _, s') => store_inv s' ∧ ∃ a, s' = with_admission a s
  end.
Proof.
  intros Hs Hpos Ho. unfold on_admission, zoom, reserve_numeric_stream.
  assert (Hsame : store_inv (with_admission (admission s) s) ∧ ∃ a, with_admission (admission s) s = with_admission a s) by (destruct s; split; [done|by eexists]).
  destruct (_ || _); [done|]. unfold bind at 1.
  pose proof (reserve_pending name d dtype (NumericStream.working_set_bytes plan + metadata) scratch s Hs Hpos) as Hres. unfold on_admission, zoom in Hres.
  destruct (reserve _ _ _ _ _ (admission s)) as [[r|e] a1]; [|rewrite Hres; by destruct s; split; [|by eexists]].
  destruct Hres as (a & Ha & Hs1 & Hp & Hname & Hnext & Hid). assert (a1 = a) as -> by (by injection Ha). clear Ha. unfold bind, modify.
  destruct (frun_keeps _ a (others a) (iv_admission _ _ Hs1) (Ho a)) as (Ha2 & _ & Hk).
  pose proof (Hk _ _ (or_intror Hid) (pe_entry _ _ Hp)) as Hr. cbn. rewrite bool_decide_eq_true_2 by done.
  assert (Hs2 : store_inv (with_admission (others a) s)).
  { apply (admission_frame [] (with_admission a s) (others a) Hs1 Ha2). intros rec Hrec. destruct (iv_entry _ _ Hs1 rec Hrec) as [Hl _]. rewrite Hl. apply Hk; [|done].
    left. by apply list_elem_of_fmap_2. }
  assert (Hs3 : store_inv (with_admission (put_reservation (streamed plan r) (others a)) s)).
  { apply (admission_frame [] (with_admission (others a) s) _ Hs2).
    - destruct (ai_reservation _ Ha2 _ _ Hr) as (_ & _ & []). by apply (put_reservation_inv r).
    - intros rec Hrec. cbn. rewrite lookup_insert_ne; [done|]. intros Heq. by apply (pending_ne r _ rec Hp). }
  eexists. split; [done|]. split; [done|]. split; [|done]. split; cbn; [by rewrite lookup_insert_eq|apply (pe_destination _ _ Hp)|apply (pe_bytes _ _ Hp)|apply (pe_unowned _ _ Hp)].
Qed.
Abbreviation Local := (NumericFileStream.NVFP4FileTileProvider F + Stream F)%type.
Lemma over_stream_allocates (stream : Local → res exn (Stream F)) f lacks : (∀ g, f = Some g → allocates g) → allocates (over_stream stream f lacks).
Proof.
  intros Hf [h l]. unfold over_stream. cbn. destruct (stream l) as [st|e]; [|done]. destruct f as [g|]; [|done].
  specialize (Hf g eq_refl (h, st)). destruct (g (h, st)) as [[al|e] [h' st']]; done.
Qed.
Lemma on_stream_inv {A} (m : Py (Stream F) A) (l l' : Local) x : on_stream m l = (Ok x, l') → ∃ st st', m st = (Ok x, st').
Proof. destruct l as [p|st]; [done|]. cbn. destruct (m st) as [y st'] eqn:E. intros [= -> _]. by exists st, st'. Qed.
Lemma stream_evidence_bytes r dims contract plan m al (st st' : Stream F) :
  stream_evidence sha_bytes sha_text float_repr r dims contract plan m al st = (Ok (), st') → output_bytes (R := R) al = destination_bytes r.
Proof. unfold stream_evidence. destruct (_ && _) eqn:E; [|done]. intros _. breflect. by eapply numeric_evidence_bytes. Qed.
(** A method that closes its local stream or provider at the end. *)
Lemma closing_spec name s (l : Local) (m : Py (Qwen4ResidentStore * Local) string) :
  load_ok name s (store_part (m (s, l))) → load_left name s (with_local l (finally_close m) s).
Proof.
  unfold store_part, with_local, finally_close, finally. destruct (m (s, l)) as [x [s' l']]. cbn. intros [Hi Ho].
  destruct (close_local l') as [u|e]; [split; [done|by left]|]. split; [done|]. destruct x as [h|e']; [right; split; [done|by exists h]|left; exact Ho].
Qed.
Lemma load_streaming_spec others t plan dtype contract component scratch s : store_inv s → 0 ∉ tensor_shape t →
  (∀ a, rtc (fstep (λ i, i ∈ record_id <$> held s ∨ i = next_id (admission s))) a (others a)) →
  ∃ name, load_left name s (load_streaming others t plan dtype contract component scratch s).
Proof.
  intros Hs Hpos Ho. unfold ResidentStore.load_scaled_int8_streaming, bind at 1. pose proof (room_spec records s) as Hroom.
  exists ("numeric:" +:+ NumericFormats.target_digest t)%string.
  destruct (room records s) as [[[]|e] s0]; cbn in Hroom; subst s0; [|by apply load_left_raise].
  unfold bind at 1, lift. destruct (NumericFormats.scaled_check _ _ _ _ t) as [t'|e] eqn:Et; [|by apply load_left_raise].
  assert (t' = t) as ->.
  { unfold NumericFormats.scaled_check, check in Et. repeat case_match; try done; by simplify_eq. }
  destruct (_ || _); [by apply load_left_raise|]. destruct (negb _); [by apply load_left_raise|]. unfold bind at 1, dtype_size.
  destruct (dtype_bytes dtype) as [size|]; [|by apply load_left_raise]. unfold ret, bind at 1.
  match goal with |- context [on_admission (reserve_numeric_stream ?o ?a ?b ?c ?d ?e ?f) s] =>
    pose proof (stream_pending o a b c d e f s Hs (tensor_descriptor_pos _ _ Hpos) Ho) as Hres; destruct (on_admission (reserve_numeric_stream o a b c d e f) s) as [[r|e'] s1] end.
  2: { destruct Hres as (Hs1 & a & ->). apply load_left_ok, (load_ok_with_admission _ s a), load_ok_raise, Hs1. }
  destruct Hres as (a & -> & Hs1 & Hp & <-). destruct (NumericStream.new_stream _ _ _ _) as [st|e].
  - apply (closing_spec _ (with_admission a s)), settle_spec; [done|done| |].
    + apply over_stream_allocates. intros g (f & Hf & ->)%fmap_Some. by apply (law_streaming f).
    + intros al l l' (x & x' & Hev)%on_stream_inv. by eapply stream_evidence_bytes.
  - unfold bind, raise. destruct (release_pending _ r _ Hs1 Hp) as (a2 & Hr & Hs2). rewrite Hr. apply load_left_ok, (load_ok_with_admission _ s a2), load_ok_raise, Hs2.
Qed.
Lemma load_file_spec others p tile dtype contract count component scratch s : store_inv s → 0 ∉ provider_shape p →
  (∀ a, rtc (fstep (λ i, i ∈ record_id <$> held s ∨ i = next_id (admission s))) a (others a)) →
  ∃ name, load_left name s (load_file others p tile dtype contract count component scratch s).
Proof.
  intros Hs Hpos Ho. exists ("numeric:" +:+ NumericFileStream.target_digest p)%string.
  unfold ResidentStore.load_nvfp4_file_stream. apply closing_spec. unfold bind at 1.
  pose proof (room_spec (λ q : Qwen4ResidentStore * Local, records q.1) (s, inl p)) as Hroom.
  destruct (room _ (s, inl p)) as [[[]|e] s0]; cbn in Hroom; subst s0; [|by apply load_ok_raise].
  destruct (negb _); [by apply load_ok_raise|]. destruct (negb _); [by apply load_ok_raise|]. unfold bind at 1, lift.
  destruct (NumericFileStream.streaming_plan _ _ p) as [plan|e]; [|by apply load_ok_raise]. unfold bind at 1, dtype_size.
  destruct (dtype_bytes dtype) as [size|]; [|by apply load_ok_raise]. unfold ret, bind at 1, on_store, zoom. cbn [fst snd].
  match goal with |- context [on_admission (reserve_numeric_stream ?o ?a ?b ?c ?d ?e ?f) s] =>
    pose proof (stream_pending o a b c d e f s Hs (tensor_descriptor_pos _ _ Hpos) Ho) as Hres; destruct (on_admission (reserve_numeric_stream o a b c d e f) s) as [[r|e'] s1] end.
  2: { destruct Hres as (Hs1 & a & ->). apply (load_ok_with_admission _ s a), load_ok_raise, Hs1. }
  destruct Hres as (a & -> & Hs1 & Hp & <-). apply (load_ok_with_admission _ s a), settle_spec; [done|done| |].
  - apply over_stream_allocates. intros g (f & Hf & ->)%fmap_Some. by apply (law_file f).
  - intros al l l' (x & x' & Hev)%on_stream_inv. unfold bind in Hev. destruct (verify_provider x) as [[u|e] x1]; [|done]. by eapply stream_evidence_bytes.
Qed.
End loads.

(** ** Releases *)

(** The two dictionaries of the store. *)
Definition dict (which : bool) s := if which then records s else quarantined s.
Definition drop_from (which : bool) := if which then drop_record (H := H) (R := R) else drop_quarantined (H := H) (R := R).
Lemma dict_drop which h s : dict which (drop_from which h s) = od_del h (dict which s) ∧ dict (negb which) (drop_from which h s) = dict (negb which) s.
Proof. by destruct which. Qed.
Lemma held_dict which s : held s ≡ₚ (dict which s).*2 ++ (dict (negb which) s).*2.
Proof. unfold held. rewrite fmap_app. destruct which; [done|apply Permutation_app_comm]. Qed.
Lemma dict_drop_any which b h s : (dict b (drop_from which h s)).*1 ⊆ (dict b s).*1 ∧ (dict b (drop_from which h s)).*2 ⊆ (dict b s).*2 ∧
  (NoDup (dict b s).*1 → NoDup (dict b (drop_from which h s)).*1).
Proof.
  destruct (decide (b = which)) as [->|Hne]; [|assert (b = negb which) as -> by (destruct b, which; done); by rewrite (proj2 (dict_drop which h s))].
  rewrite (proj1 (dict_drop which h s)). split_and!; [| |by apply od_wf_del].
  all: destruct (od_get h (dict which s)) as [v|] eqn:E; [|by rewrite od_del_None].
  all: rewrite (fmap_Permutation _ _ _ (od_del_Permutation h v _ E)); cbn; set_solver.
Qed.
(** A record whose resource the backend has let go leaves the store. *)
Lemma remove_spec which h rec s h' : store_inv s → od_get h (dict which s) = Some rec → live (host s) ≡ₚ record_resource rec :: live h' →
  ∃ a, release (reservation rec) (admission s) = (Ok (), a) ∧ total_bytes a = total_bytes (admission s) - reserved_bytes (reservation rec) ∧
    store_inv (drop_from which h (with_admission a (with_host h' s))).
Proof.
  intros Hs Hget Hlive. assert (Hin : rec ∈ held s).
  { rewrite (held_dict which). apply elem_of_app. left. apply od_get_elem in Hget. by apply (list_elem_of_fmap_2 snd) in Hget. }
  destruct (iv_entry _ _ Hs rec Hin) as [Hrec Hpos]. pose proof (release_effect (reservation rec) (admission s) (iv_admission _ _ Hs) Hrec) as He.
  destruct (release (reservation rec) (admission s)) as [x a]. destruct He as (Ha & Hr & Ht & _ & _ & Hok & _). rewrite (Hok Hpos). exists a. split; [done|]. split; [done|].
  set (s' := with_admission a (with_host h' s)). set (s'' := drop_from which h s').
  assert (Hheld : held s ≡ₚ rec :: held s'').
  { rewrite (held_dict which s), (held_dict which s''). destruct (dict_drop which h s') as [E1 E2]. fold s'' in E1, E2. rewrite E1, E2.
    change (dict which s') with (dict which s). change (dict (negb which) s') with (dict (negb which) s).
    pose proof (fmap_Permutation snd _ _ (od_del_Permutation h rec _ Hget)) as Hp. cbn in Hp. rewrite Hp. done. }
  assert (Hfields : admission s'' = a ∧ host s'' = h' ∧ drawn s'' = drawn s) by (by unfold s'', s'; destruct which).
  destruct Hfields as (F1 & F2 & F3). destruct Hs as [I1 I2 I3 I4 I5 I6 I7 I8]. rewrite Hheld in I3, I7. cbn in I3, I7. apply NoDup_cons in I3 as [Hnew I3].
  pose proof (dict_drop_any which true h s') as (S1 & S2 & S3). pose proof (dict_drop_any which false h s') as (T1 & _ & T3). fold s'' in S1, S2, S3, T1, T3.
  split; rewrite ?F1, ?F2, ?F3; try done.
  - intros q Hq. destruct (I2 q) as [Hl Hb]; [rewrite Hheld; by right|]. split; [|done]. rewrite Hr, lookup_delete_ne; [done|]. intros Heq. apply Hnew.
    unfold record_id at 1. rewrite Heq. by apply list_elem_of_fmap_2.
  - by apply S3.
  - by apply T3.
  - intros k [Hk|Hk]; apply I6; [left; by apply S1|right; by apply T1].
  - cbn. apply (Permutation_cons_inv (a := record_resource rec)). by rewrite <-Hlive.
  - intros q Hq. apply I8. by apply S2.
Qed.
Lemma keep_host s x : store_inv s → live x ≡ₚ live (host s) → store_inv (with_host x s).
Proof. intros Hs Hl. apply (host_inv [] _ s x Hs). rewrite Hl. apply (iv_live _ _ Hs). Qed.
Lemma held_live s rec : store_inv s → rec ∈ held s → record_resource rec ∈ live (host s).
Proof. intros Hs Hin. rewrite (iv_live _ _ Hs). cbn. by apply list_elem_of_fmap_2. Qed.
(** [unload]: the record goes with its bytes, or the backend raises and it stays. *)
Lemma unload_spec h s : store_inv s → store_inv (unload (Chunks := Chunks) (F := F) h s).2 ∧
  match od_get h (records s) with
  | None => unload (Chunks := Chunks) (F := F) h s = (Raise (KeyError "unknown Qwen4 resident tensor handle"), s)
  | Some rec =>
      let '(x, h') := b_release (Chunks := Chunks) (F := F) (record_resource rec) (host s) in
      let '(y, s') := unload (Chunks := Chunks) (F := F) h s in
      host s' = h' ∧ quarantined s' = quarantined s ∧
      match x with
      | Ok _ => y = Ok () ∧ records s' = od_del h (records s) ∧ total_bytes (admission s') = total_bytes (admission s) - output_bytes (allocation rec)
      | Raise e => y = Raise e ∧ records s' = records s ∧ admission s' = admission s
      end
  end.
Proof.
  intros Hs. unfold unload. destruct (od_get h (records s)) as [rec|] eqn:E; [|done]. unfold bind, on_host, zoom. fold (record_resource rec).
  assert (Hin : (rec : ResidentRecord (R := R)) ∈ (records s).*2) by (apply od_get_elem in E; by apply (list_elem_of_fmap_2 snd) in E).
  assert (Hheld : rec ∈ held s) by (unfold held; rewrite fmap_app; apply elem_of_app; by left).
  pose proof (law_release (record_resource rec) (host s) (held_live s rec Hs Hheld)) as Hrel.
  destruct (b_release (record_resource rec) (host s)) as [[[]|e] h'].
  - destruct (remove_spec true h rec s h' Hs E Hrel) as (a & Hr & Ht & Hi). unfold on_admission, zoom. cbn [admission with_host]. rewrite Hr.
    unfold modify. split; [exact Hi|]. cbn. rewrite Ht, (iv_resident _ _ Hs rec Hin). done.
  - split; [by apply keep_host|]. by destruct s.
Qed.
Section each.
Context (which : bool).
Abbreviation each := (release_each (H := H) (R := R) (F := F) (Chunks := Chunks) (drop_from which)).
(** The loops release what the backend lets go and keep the rest. *)
Lemma release_each_spec items n s : store_inv s → NoDup items.*1 → (∀ h rec, (h, rec) ∈ items → od_get h (dict which s) = Some rec) →
  ∃ s', each items n s = (Ok (n + (Zlen (dict which s) - Zlen (dict which s'))), s') ∧ store_inv s' ∧ dict (negb which) s' = dict (negb which) s ∧
    (∀ h, h ∉ items.*1 → od_get h (dict which s') = od_get h (dict which s)) ∧
    ((∀ x k, is_ok (b_release (R := R) (Chunks := Chunks) (F := F) x k).1 = true) → ∀ h, h ∈ items.*1 → od_get h (dict which s') = None).
Proof.
  revert n s. induction items as [|[h rec] items IH]; intros n s Hs Hnd Hall; cbn [release_each].
  - exists s. unfold ret. rewrite Z.sub_diag, Z.add_0_r. split_and!; try done. intros _ h Hh. cbn in Hh. by apply elem_of_nil in Hh.
  - cbn in Hnd. apply NoDup_cons in Hnd as [Hh Hnd]. assert (Hget : od_get h (dict which s) = Some rec) by (apply Hall; left).
    assert (Hheld : rec ∈ held s).
    { rewrite (held_dict which). apply elem_of_app. left. apply od_get_elem in Hget. by apply (list_elem_of_fmap_2 snd) in Hget. }
    pose proof (law_release (record_resource rec) (host s) (held_live s rec Hs Hheld)) as Hrel. unfold on_host at 1, zoom. fold (record_resource rec).
    destruct (b_release (record_resource rec) (host s)) as [[[]|e] h'] eqn:Eb.
    + destruct (remove_spec which h rec s h' Hs Hget Hrel) as (a & Hr & _ & Hi). unfold bind at 1, on_admission, zoom. cbn [admission with_host]. rewrite Hr.
      unfold bind, modify. set (s1 := drop_from which h _) in *. destruct (dict_drop which h (with_admission a (with_host h' s))) as [D1 D2]. fold s1 in D1, D2.
      change (dict which (with_admission a (with_host h' s))) with (dict which s) in D1. change (dict (negb which) (with_admission a (with_host h' s))) with (dict (negb which) s) in D2.
      destruct (IH (n + 1) s1 Hi Hnd) as (s' & Hrun & Hi' & Ho & Hout & Hall').
      { intros k q Hk. rewrite D1, od_get_del_ne; [apply Hall; by right|]. intros ->. apply Hh. by apply (list_elem_of_fmap_2 fst) in Hk. }
      exists s'. rewrite Hrun. assert (Hlen : Zlen (dict which s1) = Zlen (dict which s) - 1) by (rewrite D1; by apply od_length_del).
      assert (Hnone : od_get h (dict which s') = None).
      { rewrite Hout by done. rewrite D1. apply od_get_del. destruct which; [apply (iv_records _ _ Hs)|apply (iv_quarantined _ _ Hs)]. }
      split_and!; [do 2 f_equal; lia|done|congruence| |].
      * intros k Hk. cbn in Hk. apply not_elem_of_cons in Hk as [Hne Hk]. rewrite Hout, D1 by done. by apply od_get_del_ne.
      * intros Hok k Hk. cbn in Hk. apply elem_of_cons in Hk as [->|Hk]; [done|by apply Hall'].
    + destruct (IH n (with_host h' s)) as (s' & Hrun & Hi' & Ho & Hout & Hall'); [by apply keep_host|done|intros k q Hk; apply Hall; by right|].
      exists s'. rewrite Hrun. split_and!; try done.
      * intros k Hk. cbn in Hk. apply not_elem_of_cons in Hk as [Hne Hk]. by apply Hout.
      * intros Hok. specialize (Hok (record_resource rec) (host s)). by rewrite Eb in Hok.
Qed.
End each.
Lemma items_found (d : list (string * ResidentRecord (R := R))) : NoDup d.*1 → ∀ h rec, (h, rec) ∈ d → od_get h d = Some rec.
Proof. intros Hd h rec Hin. by apply od_get_iff. Qed.
Lemma all_gone (d d' : list (string * ResidentRecord (R := R))) : (∀ h, h ∉ d.*1 → od_get h d' = od_get h d) → (∀ h, h ∈ d.*1 → od_get h d' = None) → d' = [].
Proof.
  intros H2 H3. destruct d' as [|[h rec] d']; [done|]. assert (Hh : od_get h ((h, rec) :: d') = Some rec) by (cbn; by rewrite decide_True).
  destruct (decide (h ∈ d.*1)) as [Hin|Hin]; [rewrite (H3 h Hin) in Hh; done|]. rewrite (H2 h Hin) in Hh. apply od_get_elem in Hh.
  exfalso. apply Hin. by apply (list_elem_of_fmap_2 fst) in Hh.
Qed.
Lemma retry_spec s : store_inv s → ∃ n s', retry_quarantined_releases (Chunks := Chunks) (F := F) s = (Ok n, s') ∧ store_inv s' ∧ records s' = records s ∧
  n = Zlen (quarantined s) - Zlen (quarantined s').
Proof.
  intros Hs. destruct (release_each_spec false (quarantined s) 0 s Hs (iv_quarantined _ _ Hs) (items_found _ (iv_quarantined _ _ Hs))) as (s' & Hrun & Hi & Ho & _).
  eexists _, s'. split; [exact Hrun|]. by split_and!.
Qed.
(** [shutdown] always returns, and leaves nothing when the backend lets everything go. *)
Lemma shutdown_spec s : store_inv s → ∃ s', shutdown (Chunks := Chunks) (F := F) s = (Ok (store_snapshot s'), s') ∧ store_inv s' ∧
  ((∀ x k, is_ok (b_release (R := R) (Chunks := Chunks) (F := F) x k).1 = true) → records s' = [] ∧ quarantined s' = []).
Proof.
  intros Hs. destruct (release_each_spec true (records s) 0 s Hs (iv_records _ _ Hs) (items_found _ (iv_records _ _ Hs))) as (s1 & Hrun1 & Hi1 & Ho1 & Hout1 & Hall1).
  destruct (release_each_spec false (quarantined s1) 0 s1 Hi1 (iv_quarantined _ _ Hi1) (items_found _ (iv_quarantined _ _ Hi1))) as (s2 & Hrun2 & Hi2 & Ho2 & Hout2 & Hall2).
  exists s2. cbn in *. unfold shutdown, bind. rewrite Hrun1, Hrun2. split; [done|]. split; [done|]. intros Hok. split.
  - rewrite Ho2. apply (all_gone (records s)); [done|by apply Hall1].
  - apply (all_gone (quarantined s1)); [done|by apply Hall2].
Qed.

(** ** Runs *)

(** The bytes of distinct reservations are part of the total. *)
Lemma held_bytes (l : list (ResidentRecord (R := R))) (m : gmap Z TensorLoadReservation) :
  NoDup (record_id <$> l) → (∀ rec, rec ∈ l → m !! record_id rec = Some (reservation rec)) → (∀ i r, m !! i = Some r → 0 <= reserved_bytes r) →
  Zsum ((λ rec, reserved_bytes (reservation rec)) <$> l) <= map_sum reserved_bytes m.
Proof.
  revert m. induction l as [|rec l IH]; intros m Hnd Hl Hpos; [apply map_sum_nonneg; exact Hpos|]. cbn in Hnd. apply NoDup_cons in Hnd as [Hn Hnd].
  rewrite Zsum_fmap_cons. pose proof (Hl rec ltac:(left)) as Hrec. pose proof (map_sum_delete reserved_bytes m _ _ Hrec) as Hd.
  assert (Zsum ((λ rec, reserved_bytes (reservation rec)) <$> l) <= map_sum reserved_bytes (delete (record_id rec) m)); [|lia].
  apply IH; [done| |].
  - intros q Hq. rewrite lookup_delete_ne; [apply Hl; by right|]. intros Heq. apply Hn. rewrite Heq. by apply list_elem_of_fmap_2.
  - intros i r [_ Hi]%lookup_delete_Some. by eapply Hpos.
Qed.
Lemma new_store_inv a h : admission_inv a → live h = [] → store_inv (new_store a h).
Proof.
  intros Ha Hl. split; cbn; [done| |apply NoDup_nil_2..| |by rewrite Hl|].
  - intros rec Hrec. by apply elem_of_nil in Hrec.
  - intros k [Hk|Hk]; by apply elem_of_nil in Hk.
  - intros rec Hrec. by apply elem_of_nil in Hrec.
Qed.
Lemma others_inv s a : store_inv s → rtc (fstep (λ i, i ∈ record_id <$> held s)) (admission s) a → store_inv (with_admission a s).
Proof.
  intros Hs Hr. destruct (frun_keeps _ _ a (iv_admission _ _ Hs) Hr) as (Ha & _ & Hk). apply admission_frame; [done|done|]. intros rec Hrec.
  destruct (iv_entry _ _ Hs rec Hrec) as [Hl _]. rewrite Hl. apply Hk; [by apply list_elem_of_fmap_2|done].
Qed.

Section runs.
Context (descriptor : string → res exn Descriptor) (maximum_chunk_bytes : Z).
Context (iter_tensor_chunks : string → res exn Chunks) (iter_tensor_axis0_slice : string → Z → Z → res exn Chunks).
Context (sha_bytes : bytes → string) (sha_text : string → string) (conversion_plan_id : NumericFormats.AnyPlan → string).
Context (float_hex float_repr : PyFloat.float → string).
Abbreviation load := (load descriptor maximum_chunk_bytes iter_tensor_chunks iter_tensor_axis0_slice tokens (H := H) (R := R) (F := F)).
Abbreviation load_scaled_int8 := (load_scaled_int8 tokens sha_bytes sha_text conversion_plan_id float_hex float_repr (H := H) (R := R) (F := F) (Chunks := Chunks)).
Abbreviation load_streaming := (load_scaled_int8_streaming tokens sha_bytes sha_text conversion_plan_id float_hex float_repr (H := H) (R := R) (F := F) (Chunks := Chunks)).
Abbreviation load_file := (load_nvfp4_file_stream tokens sha_bytes sha_text float_repr (H := H) (R := R) (F := F) (Chunks := Chunks)).
Abbreviation unload := (unload (H := H) (R := R) (Chunks := Chunks) (F := F)).
Abbreviation shutdown := (shutdown (H := H) (R := R) (Chunks := Chunks) (F := F)).
Abbreviation others_run s others := (∀ a, rtc (fstep (λ i, i ∈ record_id <$> held s ∨ i = next_id (admission s))) a (others a)).

(** Calls of the store, of tensors without an empty dimension, and what other threads do
    with the admission and the backend in between. *)
Inductive rstep s : Qwen4ResidentStore → Prop :=
| rs_load name dtype scratch axis0 :
    (∀ dc shape, source_of descriptor iter_tensor_chunks iter_tensor_axis0_slice name axis0 = Ok dc → d_shape dc.1 = Some shape → Some 0 ∉ shape) →
    rstep s (load name dtype scratch axis0 s).2
| rs_scaled t dtype contract label scratch : 0 ∉ tensor_shape t → rstep s (load_scaled_int8 t dtype contract label scratch s).2
| rs_streaming others t plan dtype contract label scratch : 0 ∉ tensor_shape t → others_run s others →
    rstep s (load_streaming others t plan dtype contract label scratch s).2
| rs_file others p tile dtype contract count label scratch : 0 ∉ provider_shape p → others_run s others →
    rstep s (load_file others p tile dtype contract count label scratch s).2
| rs_unload h : rstep s (unload h s).2
| rs_retry : rstep s (retry_quarantined_releases (H := H) (R := R) (Chunks := Chunks) (F := F) s).2
| rs_shutdown : rstep s (shutdown s).2
| rs_others a : rtc (fstep (λ i, i ∈ record_id <$> held s)) (admission s) a → rstep s (with_admission a s)
| rs_host h : live h ≡ₚ live (host s) → rstep s (with_host h s).
Lemma rstep_inv s s' : store_inv s → rstep s s' → store_inv s'.
Proof.
  intros Hs [].
  - by apply load_spec.
  - by destruct (load_scaled_spec sha_bytes sha_text conversion_plan_id float_hex float_repr t dtype contract label scratch s) as (? & ? & _).
  - by destruct (load_streaming_spec sha_bytes sha_text conversion_plan_id float_hex float_repr others t plan dtype contract label scratch s) as (? & ? & _).
  - by destruct (load_file_spec sha_bytes sha_text float_repr others p tile dtype contract count label scratch s) as (? & ? & _).
  - by apply unload_spec.
  - destruct (retry_spec s Hs) as (n & s1 & -> & ? & _). done.
  - destruct (shutdown_spec s Hs) as (s1 & -> & ? & _). done.
  - by apply others_inv.
  - by apply keep_host.
Qed.

End runs.
End spec.

(** ** A backend that numbers its resources *)

(** The next resource, those that are live, and whether closing chunks fails. *)
Record DemoHost := mkHost { next_resource : Z; live_resources : list Z; close_fails : bool }.
Fixpoint remove_one (x : Z) (l : list Z) : list Z :=
  match l with [] => [] | y :: l' => if decide (x = y) then l' else y :: remove_one x l' end.
Lemma remove_one_perm x l : x ∈ l → l ≡ₚ x :: remove_one x l.
Proof.
  induction l as [|y l IH]; [by intros ?%elem_of_nil|]. cbn. case_decide as Hxy; [by subst|]. intros [->|Hin]%elem_of_cons; [done|].
  rewrite (IH Hin) at 1. apply Permutation_swap.
Qed.
Definition demo_digest : string := "0123456789abcdef0123456789abcdef0123456789abcdef0123456789abcdef".
#[local] Instance demo_backend : Qwen4ResidentBackend DemoHost Z () Z := {
  b_load c source target dims n := λ h,
    (Ok (mkAllocation (next_resource h) "demo" "1" dims (foldl Z.mul 1 dims * 4) demo_digest None None false None, c),
     mkHost (next_resource h + 1) (next_resource h :: live_resources h) (close_fails h));
  b_load_scaled_int8 := None;
  b_load_scaled_int8_streaming := None;
  b_load_nvfp4_file_stream := None;
  b_release x := λ h, (Ok (), mkHost (next_resource h) (remove_one x (live_resources h)) (close_fails h));
  b_close_chunks c := λ h, (if close_fails h then Raise (OSError "close") else Ok (), h);
}.
#[local] Existing Instance NumericFileStream.demo_os.
#[local] Instance demo_laws : BackendLaws (F := ()) (Chunks := Z) live_resources.
Proof.
  split; try done.
  - intros c source target dims n h. cbn. reflexivity.
  - intros x h Hin. cbn. by apply remove_one_perm.
Qed.
Definition demo_tokens (n : nat) : string := pretty n.
#[local] Instance demo_tokens_inj : Inj (=) (=) demo_tokens := pretty_nat_inj.
(** A tensor of 128 bytes and one of none, of the same component. *)
Definition demo_descriptor (name : string) : res exn Descriptor :=
  Ok (mkDescriptor true (Some "mlp"%string) (Some (if str_eqb name "empty" then [Some 0] else [Some 4; Some 8])) (Some "BF16"%string)
        (Some (if str_eqb name "empty" then 0 else 64))).
Definition demo_chunks (name : string) : res exn Z := Ok (if str_eqb name "empty" then 0 else 64).
Definition demo_slice (name : string) (start count : Z) : res exn Z := Ok 0.
Definition demo_load (name : string) := load (F := ()) demo_descriptor 16 demo_chunks demo_slice demo_tokens name "F32" 0 None.
Definition demo_store (fails : bool) : Qwen4ResidentStore := new_store (R := Z) (mkAdmission 1000 ∅ 1 ∅ 0 ∅) (mkHost 1 [] fails).
Definition demo_loaded : Qwen4ResidentStore := (demo_load "w" (demo_store false)).2.
Lemma demo_no_empty dc shape : source_of demo_descriptor demo_chunks demo_slice "w" None = Ok dc → d_shape dc.1 = Some shape → Some 0 ∉ shape.
Proof. intros [= <-] [= <-]. cbn. by intros [[=]|[[=]|?%elem_of_nil]%elem_of_cons]%elem_of_cons. Qed.

(** ** What the store loses *)

(** When closing the chunks raises, the tensor stays resident and its handle is lost. *)
Lemma close_error_loses_handle :
  (demo_load "w" (demo_store true)).1 = Raise (OSError "close") ∧ Zlen (records (demo_load "w" (demo_store true)).2) = 1.
Proof. by vm_compute. Qed.
(** An empty tensor that is unloaded after the last one with bytes of its component: the
    backend lets its resource go, the release in the admission raises, and the record stays
    with a resource that is gone, to be released again. *)
Definition demo_both : Qwen4ResidentStore := (demo_load "empty" demo_loaded).2.
Definition demo_one : Qwen4ResidentStore := (unload (Chunks := Z) (F := ()) (demo_tokens 0) demo_both).2.
Lemma empty_unload_sticks :
  (demo_load "empty" demo_loaded).1 = Ok (demo_tokens 1) ∧ (unload (Chunks := Z) (F := ()) (demo_tokens 0) demo_both).1 = Ok () ∧
  (unload (Chunks := Z) (F := ()) (demo_tokens 1) demo_one).1 = Raise (KeyError "mlp") ∧
  let s := (unload (Chunks := Z) (F := ()) (demo_tokens 1) demo_one).2 in Zlen (records s) = 1 ∧ live_resources (host s) = [].
Proof. by vm_compute. Qed.
End ResidentStore.
