(* ===== verification/Json.v ===== *)
(** * JSON values and their canonical text

    The values [json.loads] gives and the text [json.dumps] gives them with sorted keys and
    compact separators, and that the text determines the value up to the order of keys.
    Dictionaries are association lists; strings are ASCII; the text of a float is a
    parameter. *)

From S2P Require Import Prelude Types OrderedDict PySort PyFloat PyBytes.
Import OrderedDict PySort PyBytes.

Module Json.

Inductive json :=
| JNull
| JBool (b : bool)
| JInt (n : Z)
| JFloat (f : PyFloat.float)
| JStr (s : string)
| JArr (l : list json)
| JObj (l : list (string * json)).

Section induction.
Context (P : json → Prop).
Context (Pnull : P JNull) (Pbool : ∀ b, P (JBool b)) (Pint : ∀ n, P (JInt n)) (Pfloat : ∀ f, P (JFloat f)) (Pstr : ∀ s, P (JStr s)).
Context (Parr : ∀ l, Forall P l → P (JArr l)) (Pobj : ∀ l, Forall (λ p, P p.2) l → P (JObj l)).
Fixpoint json_induction (v : json) : P v :=
  match v with
  | JNull => Pnull | JBool b => Pbool b | JInt n => Pint n | JFloat f => Pfloat f | JStr s => Pstr s
  | JArr l => Parr l ((fix go l : Forall P l := match l with [] => Forall_nil_2 P | v :: l' => Forall_cons_2 P _ _ (json_induction v) (go l') end) l)
  | JObj l => Pobj l ((fix go l : Forall (λ p, P p.2) l :=
      match l with [] => Forall_nil_2 _ | p :: l' => Forall_cons_2 (λ p, P p.2) _ _ (json_induction p.2) (go l') end) l)
  end.
End induction.

(** Keys compared as [sort_keys] does. *)
Definition key_leb {A} (p q : string * A) : bool := String.leb p.1 q.1.
(** A value with the keys of its dictionaries in order. *)
Fixpoint normal (v : json) : json :=
  match v with
  | JArr l => JArr (normal <$> l)
  | JObj l => JObj (sorted_by key_leb ((λ p, (p.1, normal p.2)) <$> l))
  | _ => v
  end.
Section text.
Context (float_repr : PyFloat.float → string).
Fixpoint print (v : json) : string :=
  match v with
  | JNull => "null"
  | JBool b => json_bool b
  | JInt n => str_of_Z n
  | JFloat f => float_repr f
  | JStr s => json_string s
  | JArr l => json_array (print <$> l)
  | JObj l => json_object ((λ p, (json_string p.1 +:+ ":" +:+ print p.2)%string) <$> l)
  end.
(** [json.dumps(v, sort_keys=True, separators=(",", ":"))] *)
Definition dumps (v : json) : string := print (normal v).
End text.

(** ** Codes

    [s] ends where its reader sees a delimiter. *)
Definition is_delimiter (c : Ascii.ascii) : bool := let n := Ascii.nat_of_ascii c in Nat.eqb n 44 || Nat.eqb n 93 || Nat.eqb n 125.  (* , ] } *)
Definition starts (p : Ascii.ascii → bool) (s : string) : bool := match s with EmptyString => false | String c _ => p c end.
Definition delimited (s : string) : Prop := s = ""%string ∨ starts is_delimiter s = true.
(** Characters of numbers and names. *)
Definition atom_char (c : Ascii.ascii) : bool :=
  let n := Ascii.nat_of_ascii c in negb (is_delimiter c) && negb (Nat.eqb n 34 || Nat.eqb n 91 || Nat.eqb n 123).  (* not a quote, [ or { *)
Definition is_atom (s : string) : bool := negb (str_eqb s "") && forallb atom_char (String.list_ascii_of_string s).

Lemma app_cons_inv c d (s t : string) : String c s = String d t → c = d ∧ s = t.
Proof. by intros [= -> ->]. Qed.
Lemma atom_unique s t x y : forallb atom_char (String.list_ascii_of_string s) = true → forallb atom_char (String.list_ascii_of_string t) = true →
  delimited x → delimited y → (s +:+ x)%string = (t +:+ y)%string → s = t ∧ x = y.
Proof.
  assert (Hd : ∀ z c w, delimited z → z = String c w → atom_char c = true → False).
  { intros z c w [->|Hz] Heq Hc; [done|]. subst z. cbn in Hz. unfold atom_char in Hc. by rewrite Hz in Hc. }
  revert t. induction s as [|c s IH]; intros [|d t] Hs Ht Hx Hy; cbn in *; try done; breflect.
  - intros Heq. exfalso. by eapply (Hd x).
  - intros Heq. exfalso. by eapply (Hd y).
  - intros [-> Heq]%app_cons_inv. destruct (IH t) as [-> ->]; [done..|by split].
Qed.

(** *** Strings *)

Definition all_below (k : nat) (p : nat → bool) : bool := forallb p (seq 0 k).
Lemma all_below_spec k p n : all_below k p = true → (n < k)%nat → p n = true.
Proof. unfold all_below. intros H Hn. rewrite forallb_forall in H. apply H, list_elem_of_In, elem_of_seq. lia. Qed.
(** No escape begins another, nor with a quote. *)
Definition escape_of (n : nat) : string := json_escape (Ascii.ascii_of_nat n).
Lemma escapes_prefix_free : all_below 256 (λ n, all_below 256 (λ m, implb (String.prefix (escape_of n) (escape_of m)) (Nat.eqb n m))) = true.
Proof. vm_compute. reflexivity. Qed.
Lemma escapes_start : all_below 256 (λ n, negb (starts (Ascii.eqb (Ascii.ascii_of_nat 34)) (escape_of n)) && negb (str_eqb (escape_of n) "")) = true.
Proof. vm_compute. reflexivity. Qed.
Lemma escape_of_ascii c : json_escape c = escape_of (Ascii.nat_of_ascii c).
Proof. unfold escape_of. by rewrite Ascii.ascii_nat_embedding. Qed.
Lemma escape_prefix c d : String.prefix (json_escape c) (json_escape d) = true → c = d.
Proof.
  rewrite !escape_of_ascii. intros Hp. pose proof (all_below_spec 256 _ (Ascii.nat_of_ascii c) escapes_prefix_free (Ascii.nat_ascii_bounded c)) as H.
  cbv beta in H. apply (all_below_spec 256 _ (Ascii.nat_of_ascii d)) in H; [|apply Ascii.nat_ascii_bounded]. cbv beta in H. rewrite Hp in H.
  apply Nat.eqb_eq in H. rewrite <-(Ascii.ascii_nat_embedding c), <-(Ascii.ascii_nat_embedding d). by rewrite H.
Qed.
Lemma escape_start c : starts (Ascii.eqb (Ascii.ascii_of_nat 34)) (json_escape c) = false ∧ json_escape c ≠ ""%string.
Proof.
  rewrite escape_of_ascii. pose proof (all_below_spec 256 _ (Ascii.nat_of_ascii c) escapes_start (Ascii.nat_ascii_bounded c)) as H.
  cbv beta in H. apply andb_prop in H as [H1 H2]. unfold str_eqb in H2. by breflect.
Qed.
Lemma append_assoc (a b c : string) : ((a +:+ b) +:+ c)%string = (a +:+ (b +:+ c))%string.
Proof. induction a as [|x a IH]; [done|]. exact (f_equal (String x) IH). Qed.
Lemma append_prefix (a b x y : string) : (a +:+ x)%string = (b +:+ y)%string → String.prefix a b = true ∨ String.prefix b a = true.
Proof.
  revert b. induction a as [|c a IH]; intros b; [intros _; left; by destruct b|]. destruct b as [|d b]; [intros _; by right|]. cbn. intros [-> Heq]%app_cons_inv.
  destruct (Ascii.ascii_dec d d) as [_|]; [|done]. destruct (IH b Heq); auto.
Qed.
Lemma append_cancel (a x y : string) : (a +:+ x)%string = (a +:+ y)%string → x = y.
Proof. induction a as [|c a IH]; [done|]. cbn. by intros [_ H]%app_cons_inv; apply IH. Qed.
Lemma escapes_unique s t x y : (json_escapes s +:+ quote +:+ x)%string = (json_escapes t +:+ quote +:+ y)%string → s = t ∧ x = y.
Proof.
  assert (Hq : ∀ c u v, (json_escape c +:+ u)%string = (quote +:+ v)%string → False).
  { intros c u v Heq. destruct (escape_start c) as [Hs Hn]. destruct (json_escape c) as [|e w]; [done|]. cbn in Heq, Hs.
    apply app_cons_inv in Heq as [-> _]. done. }
  revert t. induction s as [|c s IH]; intros [|d t]; cbn [json_escapes].
  - intros Heq. apply (append_cancel quote) in Heq. by subst.
  - rewrite append_assoc. intros Heq. symmetry in Heq. by apply Hq in Heq.
  - rewrite append_assoc. intros Heq. by apply Hq in Heq.
  - rewrite !append_assoc. intros Heq. assert (c = d) as ->.
    { destruct (append_prefix _ _ _ _ Heq) as [Hp|Hp]; apply escape_prefix in Hp; done. }
    apply append_cancel in Heq. destruct (IH t Heq) as [-> ->]. by split.
Qed.
Lemma json_string_unique s t x y : (json_string s +:+ x)%string = (json_string t +:+ y)%string → s = t ∧ x = y.
Proof. unfold json_string, quoted. rewrite !append_assoc. intros Heq. apply append_cancel in Heq. by apply escapes_unique in Heq. Qed.

(** *** Integers *)

Definition digit_char (n : nat) : bool := Nat.eqb n 45 || (Nat.leb 48 n && Nat.leb n 57).
Lemma digit_chars_atoms c : digit_char (Ascii.nat_of_ascii c) = true → atom_char c = true.
Proof.
  unfold digit_char, atom_char, is_delimiter. intros H. set (n := Ascii.nat_of_ascii c) in *. clearbody n.
  destruct (Nat.eqb_spec n 44), (Nat.eqb_spec n 93), (Nat.eqb_spec n 125), (Nat.eqb_spec n 34), (Nat.eqb_spec n 91), (Nat.eqb_spec n 123); subst; done.
Qed.
Definition digits (s : string) : bool := forallb (λ c, digit_char (Ascii.nat_of_ascii c)) (String.list_ascii_of_string s).
Lemma pretty_digits x s : digits s = true → digits (pretty_N_go x s) = true.
Proof.
  revert s. induction (N.lt_wf_0 x) as [x _ IH]; intros s Hs. assert (x = 0 ∨ 0 < x)%N as [->|Hx] by lia; [by rewrite pretty_N_go_0|].
  rewrite pretty_N_go_step by done. apply IH; [by apply N.div_lt|]. unfold digits in *. cbn. rewrite Hs, andb_true_r.
  unfold pretty_N_char. by repeat case_match.
Qed.
Lemma pretty_N_digits (n : N) : digits (pretty n) = true ∧ pretty n ≠ ""%string.
Proof.
  unfold pretty, pretty_N. case_decide as Hn; [done|]. split; [by apply pretty_digits|]. rewrite pretty_N_go_step by lia.
  assert (Hlen : ∀ x s, s ≠ ""%string → pretty_N_go x s ≠ ""%string); [|by apply Hlen].
  intros x. induction (N.lt_wf_0 x) as [x _ IH]; intros s Hs. assert (x = 0 ∨ 0 < x)%N as [->|Hx] by lia; [by rewrite pretty_N_go_0|].
  rewrite pretty_N_go_step by done. by apply IH; [apply N.div_lt|].
Qed.
Lemma str_of_Z_digits n : digits (str_of_Z n) = true ∧ str_of_Z n ≠ ""%string.
Proof.
  unfold str_of_Z. destruct n as [|p|p]; [done|apply pretty_N_digits|]. split; [|done].
  change (digits (String (Ascii.ascii_of_nat 45) (pretty (N.pos p))) = true). exact (proj1 (pretty_N_digits (N.pos p))).
Qed.
Lemma str_of_Z_atom n : is_atom (str_of_Z n) = true.
Proof.
  destruct (str_of_Z_digits n) as [Hd Hn]. unfold is_atom, str_eqb. rewrite bool_decide_eq_false_2 by done. apply forallb_forall. intros c Hc.
  unfold digits in Hd. rewrite forallb_forall in Hd. by apply digit_chars_atoms, Hd.
Qed.

(** *** Lists *)

Section lists.
Context {A : Type} (f : A → string).
Definition code_at (a : A) : Prop := ∀ b x y, delimited x → delimited y → (f a +:+ x)%string = (f b +:+ y)%string → a = b ∧ x = y.
Hypothesis f_starts : ∀ a, starts (λ c, negb (is_delimiter c)) (f a) = true.
Definition tail_text (l : list A) (r : string) : string := match l with [] => r | _ => ("," +:+ str_join "," (f <$> l) +:+ r)%string end.
Lemma join_cons a l r : (str_join "," (f <$> a :: l) +:+ r)%string = (f a +:+ tail_text l r)%string.
Proof. destruct l as [|b l]; [done|]. cbn [fmap list_fmap str_join tail_text]. by rewrite !append_assoc. Qed.
Lemma tail_delimited l c x : is_delimiter c = true → delimited (tail_text l (String c x)).
Proof. intros Hc. right. by destruct l. Qed.
Lemma tail_unique l l' c x y : Forall code_at l → is_delimiter c = true → c ≠ Ascii.ascii_of_nat 44 →
  tail_text l (String c x) = tail_text l' (String c y) → l = l' ∧ x = y.
Proof.
  intros Hl Hc Hne. revert l'. induction Hl as [|a l Ha Hl IH]; intros [|b l']; unfold tail_text at 1 2.
  - intros [_ ->]%app_cons_inv. done.
  - intros [-> _]%app_cons_inv. done.
  - intros [<- _]%app_cons_inv. done.
  - intros Heq. apply (append_cancel ",") in Heq. rewrite !join_cons in Heq. apply Ha in Heq as [-> Heq]; [|by apply tail_delimited..].
    by destruct (IH l' Heq) as [-> ->].
Qed.
Lemma join_unique l l' c x y : Forall code_at l → is_delimiter c = true → c ≠ Ascii.ascii_of_nat 44 →
  (str_join "," (f <$> l) +:+ String c x)%string = (str_join "," (f <$> l') +:+ String c y)%string → l = l' ∧ x = y.
Proof.
  intros Hl Hc Hne. assert (Hmix : ∀ b u v, String c u = (f b +:+ v)%string → False).
  { intros b u v Heq. pose proof (f_starts b) as Hs. destruct (f b) as [|d w]; [done|]. cbn in Heq, Hs. apply app_cons_inv in Heq as [<- _]. by rewrite Hc in Hs. }
  destruct l as [|a l], l' as [|b l']; rewrite ?join_cons.
  - intros [_ ->]%app_cons_inv. done.
  - intros Heq. by apply Hmix in Heq.
  - intros Heq. symmetry in Heq. by apply Hmix in Heq.
  - intros Heq. apply Forall_cons in Hl as [Ha Hl]. apply Ha in Heq as [-> Heq]; [|by apply tail_delimited..].
    by destruct (tail_unique l l' c x y Hl Hc Hne Heq) as [-> ->].
Qed.
End lists.

(** ** The text determines the value *)

(** What the text of floats is relied on for: no delimiters, and neither an integer nor a
    name nor the text of another float. *)
Class FloatText (float_repr : PyFloat.float → string) : Prop := {
  float_atom f : is_atom (float_repr f) = true;
  float_inj :: Inj (=) (=) float_repr;
  float_not_int f n : float_repr f ≠ str_of_Z n;
  float_not_name f : float_repr f ∉ ["null"; "true"; "false"]%string;
}.
Section unique.
Context (float_repr : PyFloat.float → string) `{!FloatText float_repr}.
Abbreviation print := (print float_repr).
Abbreviation dumps := (dumps float_repr).

(** Values whose text is an atom. *)
Definition is_scalar (v : json) : bool := match v with JNull | JBool _ | JInt _ | JFloat _ => true | _ => false end.
Lemma scalar_atom v : is_scalar v = true → is_atom (print v) = true.
Proof. destruct v as [|[]|n|f| | |]; try done; intros _; [exact (str_of_Z_atom n)|exact (float_atom f)]. Qed.
Lemma int_not_name n : str_of_Z n ∉ ["null"; "true"; "false"]%string.
Proof.
  destruct (str_of_Z_digits n) as [Hd _]. intros Hin. rewrite !elem_of_cons in Hin. destruct Hin as [E|[E|[E|Hin]]];
    [rewrite E in Hd; done..|by apply elem_of_nil in Hin].
Qed.
Lemma scalar_unique v w : is_scalar v = true → is_scalar w = true → print v = print w → v = w.
Proof.
  assert (Hb : ∀ b, json_bool b ∈ ["null"; "true"; "false"]%string) by (intros []; set_solver).
  destruct v as [|b|n|f| | |], w as [|b'|n'|f'| | |]; try done; intros _ _; cbn; intros Heq.
  all: first
    [ by destruct b, b' | by destruct b' | by destruct b | by apply (inj pretty) in Heq as -> | by apply (inj float_repr) in Heq as ->
    | by apply float_not_int in Heq | by symmetry in Heq; apply float_not_int in Heq
    | exfalso; apply (int_not_name n'); rewrite <-Heq; first [apply Hb|left]
    | exfalso; apply (int_not_name n); rewrite Heq; first [apply Hb|left]
    | exfalso; apply (float_not_name f'); rewrite <-Heq; first [apply Hb|left]
    | exfalso; apply (float_not_name f); rewrite Heq; first [apply Hb|left] ].
Qed.
(** What the text begins with. *)
Lemma print_starts v : starts (λ c, negb (is_delimiter c)) (print v) = true.
Proof.
  destruct (is_scalar v) eqn:Hv; [|by destruct v]. pose proof (scalar_atom v Hv) as Ha. unfold is_atom, str_eqb in Ha. apply andb_prop in Ha as [Hn Hc].
  destruct (print v) as [|c s]; [done|]. cbn in *. apply andb_prop in Hc as [Hc _]. unfold atom_char in Hc. by apply andb_prop in Hc as [Hc _].
Qed.
Lemma atom_starts v n x s : is_scalar v = true → (n = 34 ∨ n = 91 ∨ n = 123)%nat → (print v +:+ x)%string = String (Ascii.ascii_of_nat n) s → False.
Proof.
  intros Hv Hn Heq. pose proof (scalar_atom v Hv) as Ha. unfold is_atom, str_eqb in Ha. apply andb_prop in Ha as [Hne Hc].
  destruct (print v) as [|c t]; [done|]. apply app_cons_inv in Heq as [-> _]. cbn in Hc. by destruct Hn as [->|[->| ->]].
Qed.
Abbreviation member := (λ p : string * json, (json_string p.1 +:+ ":" +:+ print p.2)%string).
Lemma member_code k v : code_at print v → code_at member (k, v).
Proof.
  intros Hv [k' v'] x y Hx Hy. cbn [fst snd]. rewrite !append_assoc. intros Heq. apply json_string_unique in Heq as [-> Heq].
  apply (append_cancel ":") in Heq. by destruct (Hv v' x y Hx Hy Heq) as [-> ->].
Qed.
Lemma scalar_code v : is_scalar v = true → code_at print v.
Proof.
  intros Hv w x y Hx Hy Heq. destruct (is_scalar w) eqn:Hw.
  - pose proof (scalar_atom v Hv) as Ha1. pose proof (scalar_atom w Hw) as Ha2. unfold is_atom in Ha1, Ha2.
    apply andb_prop in Ha1 as [_ Ha1]. apply andb_prop in Ha2 as [_ Ha2]. destruct (atom_unique _ _ x y Ha1 Ha2 Hx Hy Heq) as [Ht ->].
    split; [by apply scalar_unique|done].
  - exfalso. destruct w as [| | | |s|l|l]; try done.
    + apply (atom_starts v 34 x _ Hv) in Heq; [done|by left].
    + apply (atom_starts v 91 x _ Hv) in Heq; [done|by right; left].
    + apply (atom_starts v 123 x _ Hv) in Heq; [done|by right; right].
Qed.
(** A printed value is read back from any text it begins. *)
Lemma print_unique v : code_at print v.
Proof.
  induction v as [|b|n|f|s|l IH|l IH] using json_induction; [by apply scalar_code..| | |]; intros w x y Hx Hy Heq.
  - destruct (is_scalar w) eqn:Hw; [exfalso; symmetry in Heq; by apply (atom_starts w 34 y _ Hw) in Heq; [|left]|].
    destruct w as [| | | |t| |]; try done. cbn in Heq. by apply json_string_unique in Heq as [-> ->].
  - destruct (is_scalar w) eqn:Hw; [exfalso; symmetry in Heq; by apply (atom_starts w 91 y _ Hw) in Heq; [|right; left]|].
    destruct w as [| | | | |l'|]; try done. cbn in Heq. unfold json_array in Heq. apply (append_cancel "[") in Heq. rewrite !append_assoc in Heq.
    destruct (join_unique print print_starts l l' (Ascii.ascii_of_nat 93) x y IH eq_refl ltac:(done) Heq) as [-> ->]. done.
  - destruct (is_scalar w) eqn:Hw; [exfalso; symmetry in Heq; by apply (atom_starts w 123 y _ Hw) in Heq; [|right; right]|].
    destruct w as [| | | | | |l']; try done. cbn in Heq. unfold json_object in Heq. apply (append_cancel "{") in Heq. rewrite !append_assoc in Heq.
    assert (IH' : Forall (code_at member) l) by (eapply Forall_impl; [exact IH|]; intros [k v]; apply member_code).
    destruct (join_unique member ltac:(done) l l' (Ascii.ascii_of_nat 125) x y IH' eq_refl ltac:(done) Heq) as [-> ->]. done.
Qed.
Lemma print_inj v w : print v = print w → v = w.
Proof.
  intros Heq. destruct (print_unique v w "" "") as [-> _]; [by left..| |done]. by rewrite Heq.
Qed.
Lemma dumps_normal v w : dumps v = dumps w → normal v = normal w.
Proof. apply print_inj. Qed.
End unique.

(** ** Fields *)

(** [v[k]] of a dictionary *)
Definition field (k : string) (v : json) : option json := match v with JObj l => od_get k l | _ => None end.
Definition keys (v : json) : list string := match v with JObj l => l.*1 | _ => [] end.
(** [set(v) == set(names)] *)
Definition same_keys (names : list string) (v : json) : bool :=
  forallb (λ k, bool_decide (k ∈ names)) (keys v) && forallb (λ k, bool_decide (k ∈ keys v)) names.
(** [isinstance(v, int)], with the value: a Boolean is an integer. *)
Definition as_int (v : json) : option Z := match v with JInt n => Some n | JBool b => Some (if b then 1 else 0) | _ => None end.
(** An integer that is not a Boolean. *)
Definition strict_int (v : json) : option Z := match v with JInt n => Some n | _ => None end.
Definition as_str (v : json) : option string := match v with JStr s => Some s | _ => None end.
(** [v == 1] *)
Definition equals_one (v : json) : bool :=
  match v with JInt n => n =? 1 | JBool b => b | JFloat f => PyFloat.feqb f (PyFloat.of_Z 1) | _ => false end.
(** [v in names] for a set of strings: a list or a dictionary has no hash. *)
Definition in_set (v : json) (names : list string) : res exn bool :=
  match v with
  | JStr s => Ok (bool_decide (s ∈ names))
  | JArr _ => Raise (TypeError "unhashable type: 'list'")
  | JObj _ => Raise (TypeError "unhashable type: 'dict'")
  | _ => Ok false
  end.
(** Equal texts have the same fields. *)
Lemma normal_fields l l' k : NoDup l.*1 → NoDup l'.*1 → normal (JObj l) = normal (JObj l') → normal <$> od_get k l = normal <$> od_get k l'.
Proof.
  intros Hl Hl' Heq. cbn in Heq. assert (Hs : sorted_by key_leb ((λ p, (p.1, normal p.2)) <$> l) = sorted_by key_leb ((λ p, (p.1, normal p.2)) <$> l')) by (by injection Heq).
  assert (Hp : (λ p, (p.1, normal p.2)) <$> l ≡ₚ (λ p, (p.1, normal p.2)) <$> l').
  { rewrite <-(sorted_by_Permutation key_leb), Hs. apply sorted_by_Permutation. }
  assert (Hhalf : ∀ d d' v, NoDup d'.*1 → (λ p, (p.1, normal p.2)) <$> d ≡ₚ (λ p, (p.1, normal p.2)) <$> d' → od_get k d = Some v →
    normal <$> od_get k d' = Some (normal v)).
  { intros d d' v Hd' Hdd Hv%od_get_elem. assert (Hin : (k, normal v) ∈ (λ p : string * json, (p.1, normal p.2)) <$> d').
    { rewrite <-Hdd. apply list_elem_of_fmap. by exists (k, v). }
    apply list_elem_of_fmap in Hin as ([k' v'] & [= -> ->] & Hin). by rewrite (proj2 (od_get_iff k' v' d' Hd') Hin). }
  destruct (od_get k l) as [v|] eqn:E; [symmetry; by apply (Hhalf l l')|]. destruct (od_get k l') as [v'|] eqn:E'; [|done].
  pose proof (Hhalf l' l v' Hl (symmetry Hp) E') as Hx. by rewrite E in Hx.
Qed.
Lemma dumps_fields float_repr `{!FloatText float_repr} l l' k : NoDup l.*1 → NoDup l'.*1 →
  dumps float_repr (JObj l) = dumps float_repr (JObj l') → normal <$> od_get k l = normal <$> od_get k l'.
Proof. intros Hl Hl' Heq. apply normal_fields; [done..|]. by apply (dumps_normal float_repr). Qed.
End Json.
