(* ===== verification/RuntimeProtocol.v ===== *)
(** * The runtime's command protocol (qwen4_runtime_protocol.py)

    Requests and responses are JSON dictionaries that are checked on both sides; a service
    executes the requests of one session in the order of their sequence numbers and keeps
    its last responses, so that a request sent again is answered without being executed
    again.  The store and the reader of numeric artifacts are classes; what other threads do
    while a request is executed is a function argument.  Strings are ASCII. *)

From S2P Require Import Prelude Types OrderedDict PyFloat PyBytes Json NumericFormats NumericStream NumericFileStream NumericPrecision.
Import OrderedDict PyBytes Json.

Module RuntimeProtocol.

Definition QWEN4_RUNTIME_ABI_VERSION : Z := 1.
Definition MAX_RUNTIME_MESSAGE_BYTES : Z := 16 * 1024.
Definition MAX_CACHED_RESPONSES : Z := 256.
Definition OPERATIONS : list string :=
  ["load"; "load_numeric"; "load_numeric_streaming"; "unload"; "status"; "retry_quarantine"; "cancel"; "shutdown"]%string.
Definition DTYPES : list string := ["BF16"; "F16"; "F32"]%string.

Definition hex_string (n : Z) (s : string) : bool := (str_len s =? n) && forallb NumericStream.is_hex_lower (String.list_ascii_of_string s).
(** [_identifier], [_sha256] *)
Definition identifier (v : json) : bool := match as_str v with Some s => hex_string 32 s | None => false end.
Definition sha256_text (v : json) : bool := match as_str v with Some s => hex_string 64 s | None => false end.

(** ** Requests *)

Definition common : list string := ["abi_version"; "session_id"; "sequence"; "request_id"; "operation"]%string.
(** The fields of an operation. *)
Definition fields (operation : string) : list string :=
  common ++
  (if str_eqb operation "load" then ["tensor_name"; "target_dtype"; "scratch_bytes"; "axis0_slice"]
   else if str_eqb operation "load_numeric" then ["artifact_name"; "artifact_digest"; "target_dtype"; "scratch_bytes"]
   else if str_eqb operation "load_numeric_streaming" then ["artifact_name"; "artifact_digest"; "target_dtype"; "tile_bytes"; "buffer_count"; "scratch_bytes"]
   else if str_eqb operation "unload" then ["handle"]
   else if str_eqb operation "cancel" then ["target_request_id"]
   else [])%string%list.
(** What a request asks for, once its fields are known to be well-formed. *)
Inductive Operation :=
| Load (tensor_name target_dtype : string) (scratch : Z) (axis0_slice : option (Z * Z))
| LoadNumeric (artifact_name artifact_digest target_dtype : string) (scratch : Z)
| LoadNumericStreaming (artifact_name artifact_digest target_dtype : string) (tile_bytes buffer_count scratch : Z)
| Unload (handle : string)
| Status
| RetryQuarantine
| Cancel (target : string)
| Shutdown.
Record Request := mkRequest { r_session : string; r_sequence : Z; r_id : string; r_operation : Operation; r_payload : json }.
Definition operation_name (o : Operation) : string :=
  match o with
  | Load _ _ _ _ => "load" | LoadNumeric _ _ _ _ => "load_numeric" | LoadNumericStreaming _ _ _ _ _ _ => "load_numeric_streaming"
  | Unload _ => "unload" | Status => "status" | RetryQuarantine => "retry_quarantine" | Cancel _ => "cancel" | Shutdown => "shutdown"
  end.
Definition plain_text (s : string) : bool := forallb (λ c, (32 <=? Ascii.nat_of_ascii c)%nat) (String.list_ascii_of_string s).
Definition in_bounds (lo hi n : Z) : bool := (lo <=? n) && (n <=? hi).
Definition text_of (o : option json) : option string := o ≫= as_str.
Definition int_of (o : option json) : option Z := o ≫= strict_int.
Definition field_set (o : option json) (names : list string) : res exn bool := in_set (default JNull o) names.
(** [endswith] *)
Definition ends_with (suffix s : string) : bool :=
  (str_len suffix <=? str_len s) && str_eqb (String.substring (String.length s - String.length suffix) (String.length suffix) s) suffix.
Definition artifact_char (c : Ascii.ascii) : bool :=
  let n := Ascii.nat_of_ascii c in
  ((48 <=? n)%nat && (n <=? 57)%nat) || ((65 <=? n)%nat && (n <=? 90)%nat) || ((97 <=? n)%nat && (n <=? 122)%nat) || bool_decide (n ∈ [45; 95; 46]%nat).
(** The tests of an artifact's name. *)
Definition artifact_name_ok (s : string) : bool :=
  in_bounds 1 128 (str_len s) && negb (String.prefix "." s) && ends_with ".json" s && forallb artifact_char (String.list_ascii_of_string s).
(** The fields of [load]. *)
Definition parse_load (v : json) : res exn Operation :=
  let invalid := Raise (ValueError "Qwen4 runtime load request is invalid") in
  let bad_slice := Raise (ValueError "Qwen4 runtime load slice is invalid") in
  match text_of (field "tensor_name" v) with
  | None => invalid
  | Some name =>
      if negb (in_bounds 1 1024 (str_len name)) || negb (plain_text name) then invalid
      else
        match field_set (field "target_dtype" v) DTYPES with
        | Raise e => Raise e
        | Ok known =>
            match int_of (field "scratch_bytes" v), text_of (field "target_dtype" v) with
            | Some scratch, Some dtype =>
                if negb known || (scratch <? 0) then invalid
                else
                  match field "axis0_slice" v with
                  | Some JNull | None => Ok (Load name dtype scratch None)
                  | Some slice =>
                      match slice with
                      | JObj _ =>
                          match same_keys ["start"; "count"]%string slice, int_of (field "start" slice), int_of (field "count" slice) with
                          | true, Some start, Some count => if (start <? 0) || (count <=? 0) then bad_slice else Ok (Load name dtype scratch (Some (start, count)))
                          | _, _, _ => bad_slice
                          end
                      | _ => bad_slice
                      end
                  end
            | _, _ => invalid
            end
        end
  end.
(** The fields of the numeric loads. *)
Definition parse_numeric (streaming : bool) (v : json) : res exn Operation :=
  let invalid := Raise (ValueError "Qwen4 runtime numeric load request is invalid") in
  match text_of (field "artifact_name" v) with
  | None => invalid
  | Some name =>
      if negb (artifact_name_ok name) || negb (sha256_text (default JNull (field "artifact_digest" v))) then invalid
      else
        match field_set (field "target_dtype" v) DTYPES with
        | Raise e => Raise e
        | Ok known =>
            match int_of (field "scratch_bytes" v), text_of (field "target_dtype" v), text_of (field "artifact_digest" v) with
            | Some scratch, Some dtype, Some digest =>
                if negb known || (scratch <? 0) then invalid
                else if streaming then
                  match int_of (field "tile_bytes" v), int_of (field "buffer_count" v) with
                  | Some tile, Some count =>
                      if negb (in_bounds 1 NumericStream.MAX_NUMERIC_TILE_BYTES tile) || negb (in_bounds 1 2 count)
                      then Raise (ValueError "Qwen4 runtime numeric streaming request is invalid")
                      else Ok (LoadNumericStreaming name digest dtype tile count scratch)
                  | _, _ => Raise (ValueError "Qwen4 runtime numeric streaming request is invalid")
                  end
                else Ok (LoadNumeric name digest dtype scratch)
            | _, _, _ => invalid
            end
        end
  end.
Definition parse_operation (name : string) (v : json) : res exn Operation :=
  if str_eqb name "load" then parse_load v
  else if str_eqb name "load_numeric" then parse_numeric false v
  else if str_eqb name "load_numeric_streaming" then parse_numeric true v
  else if str_eqb name "cancel" then
    match text_of (field "target_request_id" v) with
    | Some t => if hex_string 32 t then Ok (Cancel t) else Raise (ValueError "Qwen4 runtime cancel target is invalid")
    | None => Raise (ValueError "Qwen4 runtime cancel target is invalid")
    end
  else if str_eqb name "unload" then
    match text_of (field "handle" v) with
    | Some h => if hex_string 32 h then Ok (Unload h) else Raise (ValueError "Qwen4 runtime unload handle is invalid")
    | None => Raise (ValueError "Qwen4 runtime unload handle is invalid")
    end
  else Ok (if str_eqb name "status" then Status else if str_eqb name "retry_quarantine" then RetryQuarantine else Shutdown).

Section protocol.
Context (float_repr : PyFloat.float → string).
Abbreviation dumps := (dumps float_repr).

(** [parse_qwen4_runtime_request] *)
Definition parse_request (v : json) : res exn Request :=
  if negb (match v with JObj _ => forallb (λ k, bool_decide (k ∈ keys v)) common | _ => false end)
  then Raise (ValueError "Qwen4 runtime request schema is invalid")
  else
    let bad_operation := Raise (ValueError "Qwen4 runtime request operation schema is invalid") in
    match text_of (field "operation" v) with
    | None => bad_operation
    | Some name =>
        if negb (bool_decide (name ∈ OPERATIONS)) || negb (same_keys (fields name) v) then bad_operation
        else
          let bad_identity := Raise (ValueError "Qwen4 runtime request identity is invalid") in
          match text_of (field "session_id" v), text_of (field "request_id" v), int_of (field "sequence" v) with
          | Some session, Some id, Some sequence =>
              if negb (equals_one (default JNull (field "abi_version" v))) || negb (hex_string 32 session) || negb (hex_string 32 id) || (sequence <=? 0)
              then bad_identity
              else
                match parse_operation name v with
                | Raise e => Raise e
                | Ok o =>
                    if str_len (dumps v) >? MAX_RUNTIME_MESSAGE_BYTES then Raise (ValueError "Qwen4 runtime request exceeds the bounded limit")
                    else Ok (mkRequest session sequence id o v)
                end
          | _, _, _ => bad_identity
          end
    end.

(** ** Responses *)

Definition response_fields : list string :=
  ["abi_version"; "session_id"; "sequence"; "request_id"; "operation"; "passed"; "result"; "error_code"]%string.
Definition status_fields : list string :=
  ["schema_version"; "resident_tensors"; "quarantined_tensors"; "resident_components"; "memory"; "stores_tensor_names"]%string.
Definition is_dict (v : json) : bool := match v with JObj _ => true | _ => false end.
Definition at_least_zero (o : option Z) : bool := match o with Some n => 0 <=? n | None => false end.
(** The tests of the result of an operation that passed. *)
Definition result_ok (operation : string) (result : json) : res exn () :=
  let f k := default JNull (field k result) in
  if str_eqb operation "load" then
    check (same_keys ["handle"]%string result && identifier (f "handle"%string)) (ValueError "Qwen4 runtime load response is invalid") ()
  else if str_eqb operation "load_numeric" || str_eqb operation "load_numeric_streaming" then
    if negb (same_keys ["handle"; "artifact_state"]%string result && identifier (f "handle"%string))
    then Raise (ValueError "Qwen4 runtime numeric load response is invalid")
    else match in_set (f "artifact_state"%string) ["consumed"; "quarantined"]%string with
         | Raise e => Raise e
         | Ok known => check known (ValueError "Qwen4 runtime numeric load response is invalid") ()
         end
  else if str_eqb operation "unload" then
    check (same_keys ["unloaded"]%string result && equals_one (f "unloaded"%string)) (ValueError "Qwen4 runtime unload response is invalid") ()
  else if str_eqb operation "cancel" then
    check (same_keys ["cancelled"]%string result && match f "cancelled"%string with JBool _ => true | _ => false end)
      (ValueError "Qwen4 runtime cancel response is invalid") ()
  else if str_eqb operation "retry_quarantine" then
    check (same_keys ["released"]%string result && at_least_zero (strict_int (f "released"%string))) (ValueError "Qwen4 runtime quarantine response is invalid") ()
  else if str_eqb operation "shutdown" then
    check (same_keys ["shutdown"]%string result && equals_one (f "shutdown"%string)) (ValueError "Qwen4 runtime shutdown response is invalid") ()
  else
    check (same_keys status_fields result && equals_one (f "schema_version"%string)
           && match f "stores_tensor_names"%string with JBool false => true | _ => false end
           && at_least_zero (strict_int (f "resident_tensors"%string)) && at_least_zero (strict_int (f "quarantined_tensors"%string))
           && is_dict (f "resident_components"%string) && is_dict (f "memory"%string))
      (ValueError "Qwen4 runtime status response is invalid") ().
(** [parse_qwen4_runtime_response] *)
Definition parse_response (v : json) : res exn json :=
  let f k := default JNull (field k v) in
  if negb (is_dict v && same_keys response_fields v) then Raise (ValueError "Qwen4 runtime response schema is invalid")
  else
    let bad := Raise (ValueError "Qwen4 runtime response identity is invalid") in
    if negb (equals_one (f "abi_version"%string)) || negb (identifier (f "session_id"%string)) || negb (identifier (f "request_id"%string))
       || negb (match as_int (f "sequence"%string) with Some n => 0 <? n | None => false end)
    then bad
    else
      match in_set (f "operation"%string) OPERATIONS with
      | Raise e => Raise e
      | Ok known =>
          match known, f "passed"%string, as_str (f "operation"%string) with
          | true, JBool passed, Some operation =>
              if negb (is_dict (f "result"%string)) || (if passed then negb (match f "error_code"%string with JNull => true | _ => false end) else is_none (as_str (f "error_code"%string)))
              then bad
              else if str_len (dumps v) >? MAX_RUNTIME_MESSAGE_BYTES then Raise (ValueError "Qwen4 runtime response exceeds the bounded limit")
              else if negb passed then
                match f "result"%string with
                | JObj [] => Ok v
                | _ => Raise (ValueError "Qwen4 failed runtime response must not contain a result")
                end
              else match result_ok operation (f "result"%string) with Ok _ => Ok v | Raise e => Raise e end
          | _, _, _ => bad
          end
      end.
End protocol.

(** ** The service *)

(** A cancellation signal: what its polls see, in their order. *)
Abbreviation Signal := (nat → bool).
(** [_CombinedCancellationSignal.is_set] *)
Definition is_set (explicit : Signal) (transport : option Signal) : Signal := λ k, explicit k || match transport with Some t => t k | None => false end.

(** [Qwen4RuntimeStore]: the operations of the store, whose snapshots are dictionaries. *)
Class Qwen4RuntimeStore (S F : Type) := {
  rt_load : string → string → Z → option (Z * Z) → Py S string;
  rt_load_scaled_int8 : NumericFormats.ScaledInt8Tensor → string → NumericPrecision.PrecisionExecutionContract → Z → Py S string;
  rt_load_scaled_int8_streaming :
    NumericFormats.ScaledInt8Tensor → NumericStream.NumericStreamingPlan → string → NumericPrecision.PrecisionExecutionContract → Z → Signal → Py S string;
  rt_load_nvfp4_file_stream :
    NumericFileStream.NVFP4FileTileProvider F → Z → Z → string → NumericPrecision.PrecisionExecutionContract → Z → Signal → Py S string;
  rt_unload : string → Py S ();
  rt_snapshot : Py S json;
  rt_retry : Py S Z;
  rt_shutdown : Py S json;
}.
(** [NumericArtifactReader], and what a claimed artifact holds. *)
Class NumericArtifactReader (A L F : Type) := {
  ar_claim : string → string → Py A L;
  ar_consume : L → Py A ();
  ar_contract : L → NumericPrecision.PrecisionExecutionContract;
  ar_content : L → NumericFormats.ScaledInt8Tensor + NumericFileStream.NVFP4FileTileProvider F;
}.

Section service.
Context {S F A L : Type} `{!Qwen4RuntimeStore S F} `{!NumericArtifactReader A L F} `{!NumericFileStream.OS F}.
Context (float_repr : PyFloat.float → string) (sha_bytes : bytes → string).
Abbreviation dumps := (dumps float_repr).

(** [_cache] maps a sequence number to the canonical request and its response; [_active]
    the requests under way to whether they were cancelled. *)
Record Qwen4RuntimeCommandService := mkService {
  session_id : string;
  store : S;
  reader : option A;
  active : gmap string bool;
  cancel_requests : Z;
  cancel_hits : Z;
  artifacts_consumed : Z;
  artifacts_quarantined : Z;
  last_sequence : Z;
  closed : bool;
  cache : list (Z * (string * json));
}.
Implicit Types (s : Qwen4RuntimeCommandService).
(** [__init__] *)
Definition new_service (session : string) (st : S) (r : option A) : res exn Qwen4RuntimeCommandService :=
  if negb (hex_string 32 session) then Raise (ValueError "Qwen4 runtime session ID is invalid")
  else Ok (mkService session st r ∅ 0 0 0 0 0 false []).

Definition with_store st s := mkService (session_id s) st (reader s) (active s) (cancel_requests s) (cancel_hits s) (artifacts_consumed s) (artifacts_quarantined s) (last_sequence s) (closed s) (cache s).
Definition with_reader r s := mkService (session_id s) (store s) r (active s) (cancel_requests s) (cancel_hits s) (artifacts_consumed s) (artifacts_quarantined s) (last_sequence s) (closed s) (cache s).
Definition with_active m s := mkService (session_id s) (store s) (reader s) m (cancel_requests s) (cancel_hits s) (artifacts_consumed s) (artifacts_quarantined s) (last_sequence s) (closed s) (cache s).
Definition with_cancels m n k s := mkService (session_id s) (store s) (reader s) m n k (artifacts_consumed s) (artifacts_quarantined s) (last_sequence s) (closed s) (cache s).
Definition with_artifacts n k s := mkService (session_id s) (store s) (reader s) (active s) (cancel_requests s) (cancel_hits s) n k (last_sequence s) (closed s) (cache s).
Definition with_closed c s := mkService (session_id s) (store s) (reader s) (active s) (cancel_requests s) (cancel_hits s) (artifacts_consumed s) (artifacts_quarantined s) (last_sequence s) c (cache s).
Definition with_answers n c s := mkService (session_id s) (store s) (reader s) (active s) (cancel_requests s) (cancel_hits s) (artifacts_consumed s) (artifacts_quarantined s) n (closed s) c.
Definition on_store {B} (m : Py S B) : Py Qwen4RuntimeCommandService B := zoom store with_store m.
Definition on_reader {B} (m : Py A B) : Py Qwen4RuntimeCommandService B := λ s,
  match reader s with
  | None => (Raise (ValueError "Qwen4 runtime numeric artifact loading is disabled"), s)
  | Some a => let '(r, a') := m a in (r, with_reader (Some a') s)
  end.

(** The exceptions that [handle] answers, with the code it gives them. *)
Definition is_os_error (e : exn) : bool := match e with OSError _ | TimeoutError _ => true | _ => false end.
Definition error_code (e : exn) : option string :=
  match e with
  | MemoryError _ => Some "memory_admission_rejected"%string
  | TypeError _ | IndexError _ | AssertionError | StopIteration | OverflowError | ZeroDivisionError => None  (* the rest: [KeyError], [OSError], [RuntimeError], [ValueError] *)
  | _ => Some "operation_failed"%string
  end.
(** [except (OSError, ValueError)] around [consume]. *)
Definition quarantines (e : exn) : bool := is_os_error e || match e with ValueError _ => true | _ => false end.
(** The end of a numeric load: the artifact is consumed, or stays in quarantine. *)
Definition consume_artifact (loaded : L) : Py Qwen4RuntimeCommandService string := λ s,
  match on_reader (ar_consume loaded) s with
  | (Ok _, s') => (Ok "consumed"%string, with_artifacts (artifacts_consumed s' + 1) (artifacts_quarantined s') s')
  | (Raise e, s') =>
      if quarantines e then (Ok "quarantined"%string, with_artifacts (artifacts_consumed s') (artifacts_quarantined s' + 1) s') else (Raise e, s')
  end.
(** The numeric loads of [_execute]; [stream] is the tile size and the number of buffers of
    a streaming load. *)
Definition execute_numeric (name digest dtype : string) (scratch : Z) (stream : option (Z * Z)) (cancellation : Signal) : Py Qwen4RuntimeCommandService json :=
  let! loaded := on_reader (ar_claim name digest) in
  let contract := ar_contract loaded in
  let close_file : Py Qwen4RuntimeCommandService () := match ar_content loaded with inl _ => ret () | inr p => lift (NumericFileStream.close p).1 end in
  if negb (str_eqb (NumericPrecision.target_dtype contract) dtype)
  then close_file ;;; raise (ValueError "Qwen4 runtime numeric target dtype mismatch")
  else
    let! handle :=
      match ar_content loaded, stream with
      | inr p, None => close_file ;;; raise (ValueError "file-backed numeric artifacts require streaming load")
      | inr p, Some (tile, count) => on_store (rt_load_nvfp4_file_stream p tile count dtype contract scratch cancellation)
      | inl t, Some (tile, count) =>
          let n := Zlen (NumericFormats.payload t) in
          let! plan := lift (NumericStream.make_plan (NumericStream.mkPlan (sha_bytes (NumericFormats.payload t)) n (Z.min tile n) count 1 1)) in
          on_store (rt_load_scaled_int8_streaming (F := F) t plan dtype contract scratch cancellation)
      | inl t, None => on_store (rt_load_scaled_int8 (F := F) t dtype contract scratch)
      end in
    if negb (hex_string 32 handle) then raise (ValueError "Qwen4 runtime store returned an invalid numeric handle")
    else
      let! state := consume_artifact loaded in
      ret (JObj [("handle", JStr handle); ("artifact_state", JStr state)]%string).
(** [snapshot.get(name)] as a condition *)
Definition truthy (v : option json) : bool :=
  match v with
  | None | Some JNull => false
  | Some (JBool b) => b
  | Some (JInt n) => negb (n =? 0)
  | Some (JFloat f) => negb (PyFloat.feqb f PyFloat.zero)
  | Some (JStr s) => negb (str_eqb s "")
  | Some (JArr l) => negb (Zlen l =? 0)
  | Some (JObj l) => negb (Zlen l =? 0)
  end.
(** [_execute] *)
Definition execute (o : Operation) (cancellation : Signal) : Py Qwen4RuntimeCommandService json :=
  match o with
  | Load name dtype scratch slice =>
      let! handle := on_store (rt_load (F := F) name dtype scratch slice) in
      if negb (hex_string 32 handle) then raise (ValueError "Qwen4 runtime store returned an invalid handle")
      else ret (JObj [("handle", JStr handle)]%string)
  | LoadNumeric name digest dtype scratch => execute_numeric name digest dtype scratch None cancellation
  | LoadNumericStreaming name digest dtype tile count scratch => execute_numeric name digest dtype scratch (Some (tile, count)) cancellation
  | Unload handle => on_store (rt_unload (F := F) handle) ;;; ret (JObj [("unloaded", JBool true)]%string)
  | Status => on_store (rt_snapshot (F := F))
  | RetryQuarantine => let! n := on_store (rt_retry (F := F)) in ret (JObj [("released", JInt n)]%string)
  | Cancel _ | Shutdown =>
      let! snapshot := on_store (rt_shutdown (F := F)) in
      if truthy (field "resident_tensors" snapshot) || truthy (field "quarantined_tensors" snapshot)
      then raise (RuntimeError "Qwen4 runtime shutdown retained resources")
      else modify (with_closed true) ;;; ret (JObj [("shutdown", JBool true)]%string)
  end.
(** The response to a request. *)
Definition response (session : string) (r : Request) (passed : bool) (result : json) (code : option string) : json :=
  JObj [("abi_version", JInt QWEN4_RUNTIME_ABI_VERSION); ("session_id", JStr session); ("sequence", JInt (r_sequence r)); ("request_id", JStr (r_id r));
        ("operation", JStr (operation_name (r_operation r))); ("passed", JBool passed); ("result", result);
        ("error_code", match code with Some c => JStr c | None => JNull end)]%string.
Definition other_session : exn := ValueError "Qwen4 runtime request belongs to another session".
(** The cancellation branch of [handle]: it takes no part in the order of requests. *)
Definition cancel (r : Request) (target : string) : Py Qwen4RuntimeCommandService json := λ s,
  if negb (str_eqb (r_session r) (session_id s)) then (Raise other_session, s)
  else
    let hit := is_some (active s !! target) in
    let s' := with_cancels (if hit then <[target := true]> (active s) else active s) (cancel_requests s + 1) (if hit then cancel_hits s + 1 else cancel_hits s) s in
    (parse_response float_repr (response (session_id s) r true (JObj [("cancelled", JBool hit)]%string) None), s').
(** [while len(self._cache) > MAX_CACHED_RESPONSES: self._cache.popitem(last=False)] *)
Fixpoint trim (c : list (Z * (string * json))) : list (Z * (string * json)) :=
  match c with [] => [] | _ :: c' => if Zlen c >? MAX_CACHED_RESPONSES then trim c' else c end.
(** The answer to an executed request; [handle] is left with the exception when the answer
    is not a valid response. *)
Definition answer (r : Request) (canonical : string) (passed : bool) (result : json) (code : option string) : Py Qwen4RuntimeCommandService json := λ s,
  match parse_response float_repr (response (session_id s) r passed result code) with
  | Raise e => (Raise e, s)
  | Ok v => (Ok v, with_answers (r_sequence r) (trim (od_set (r_sequence r) (canonical, v) (cache s))) s)
  end.
(** What goes on while a request is executed: the cancellations of other threads, what the
    polls of the request's own event see of them, and the transport's signal. *)
Record Call := mkCall { c_during : Qwen4RuntimeCommandService → Qwen4RuntimeCommandService; c_event : Signal; c_transport : option Signal }.
(** The requests that are executed. *)
Definition run (call : Call) (r : Request) : Py Qwen4RuntimeCommandService json := λ s,
  let canonical := dumps (r_payload r) in
  if negb (str_eqb (r_session r) (session_id s)) then (Raise other_session, s)
  else
    match od_get (r_sequence r) (cache s) with
    | Some (c, v) =>
        if str_eqb c canonical then (Ok v, s) else (Raise (ValueError "Qwen4 runtime sequence was reused with different content"), s)
    | None =>
        if negb (r_sequence r =? last_sequence s + 1) then (Raise (ValueError "Qwen4 runtime request sequence is not contiguous"), s)
        else if closed s then (Raise (ValueError "Qwen4 runtime session is closed"), s)
        else
          let s1 := c_during call (with_active (<[r_id r := false]> (active s)) s) in
          let '(x, s2) := execute (r_operation r) (is_set (c_event call) (c_transport call)) s1 in
          let s3 := with_active (delete (r_id r) (active s2)) s2 in
          match x with
          | Ok result => answer r canonical true result None s3
          | Raise e => match error_code e with
                       | Some code => answer r canonical false (JObj []) (Some code) s3
                       | None => (Raise e, s3)
                       end
          end
    end.
(** [handle] *)
Definition handle (call : Call) (payload : json) : Py Qwen4RuntimeCommandService json :=
  let! r := lift (parse_request float_repr payload) in
  match r_operation r with
  | Cancel target => cancel r target
  | _ => run call r
  end.
(** [numeric_diagnostics_snapshot] *)
Record Diagnostics := mkDiagnostics { d_active : Z; d_requests : Z; d_hits : Z; d_consumed : Z; d_quarantined : Z }.
Definition numeric_diagnostics_snapshot s : Diagnostics :=
  mkDiagnostics (Zsize (active s)) (cancel_requests s) (cancel_hits s) (artifacts_consumed s) (artifacts_quarantined s).
End service.

(** ** What a run keeps *)

Section spec.
Context {S F A L : Type} `{!Qwen4RuntimeStore S F} `{!NumericArtifactReader A L F} `{!NumericFileStream.OS F}.
Context (float_repr : PyFloat.float → string) `{!FloatText float_repr} (sha_bytes : bytes → string).
Abbreviation Service := (Qwen4RuntimeCommandService (S := S) (A := A)).
Abbreviation dumps := (dumps float_repr).
Abbreviation handle := (handle float_repr sha_bytes).
Implicit Types (s : Service) (r : Request) (v : json).

(** The fields that order the requests. *)
Record frame s s' : Prop := {
  fr_session : session_id s' = session_id s;
  fr_sequence : last_sequence s' = last_sequence s;
  fr_cache : cache s' = cache s;
}.
#[export] Instance frame_preorder : PreOrder frame.
Proof. split; [by intros s|]. intros s1 s2 s3 [] []. split; congruence. Qed.
(** [m] moves the service along [Rel]. *)
Definition moves (Rel : Service → Service → Prop) {B} (m : Py Service B) : Prop := ∀ s, Rel s (m s).2.
(** A relation that the operations of the store, the reader and the service's own fields keep
    to, for tensors and providers of which [tensor_ok] and [provider_ok] hold. *)
Class ServiceMoves (Rel : Service → Service → Prop) (tensor_ok : NumericFormats.ScaledInt8Tensor → Prop)
    (provider_ok : NumericFileStream.NVFP4FileTileProvider F → Prop) : Prop := {
  sm_preorder :: PreOrder Rel;
  sm_load name dtype scratch slice : moves Rel (on_store (rt_load (F := F) name dtype scratch slice));
  sm_scaled t dtype contract scratch : tensor_ok t → moves Rel (on_store (rt_load_scaled_int8 (F := F) t dtype contract scratch));
  sm_streaming t plan dtype contract scratch signal : tensor_ok t → moves Rel (on_store (rt_load_scaled_int8_streaming (F := F) t plan dtype contract scratch signal));
  sm_file p tile count dtype contract scratch signal : provider_ok p → moves Rel (on_store (rt_load_nvfp4_file_stream p tile count dtype contract scratch signal));
  sm_unload h : moves Rel (on_store (rt_unload (F := F) h));
  sm_snapshot : moves Rel (on_store (rt_snapshot (F := F)));
  sm_retry : moves Rel (on_store (rt_retry (F := F)));
  sm_shutdown : moves Rel (on_store (rt_shutdown (F := F)));
  sm_reader {B} (m : Py A B) : moves Rel (on_reader m);
  sm_artifacts n k s : Rel s (with_artifacts n k s);
}.
(** What the artifacts of the reader hold. *)
Definition artifacts_ok (tensor_ok : NumericFormats.ScaledInt8Tensor → Prop) (provider_ok : NumericFileStream.NVFP4FileTileProvider F → Prop) : Prop :=
  ∀ l : L, match ar_content (A := A) l with inl t => tensor_ok t | inr p => provider_ok p end.
Create HintDb moves.
Section moves.
Context (Rel : Service → Service → Prop) (tensor_ok : NumericFormats.ScaledInt8Tensor → Prop) (provider_ok : NumericFileStream.NVFP4FileTileProvider F → Prop).
Context `{!ServiceMoves Rel tensor_ok provider_ok}.
Lemma moves_bind {B C} (m : Py Service B) (k : B → Py Service C) : moves Rel m → (∀ b, moves Rel (k b)) → moves Rel (bind m k).
Proof. intros Hm Hk s. unfold bind. pose proof (Hm s) as Hs. destruct (m s) as [[b|e] s1]; [|done]. etrans; [exact Hs|apply Hk]. Qed.
Lemma moves_ret {B} (b : B) : moves Rel (ret b).
Proof. by intros s. Qed.
Lemma moves_raise {B} e : moves Rel (raise e : Py Service B).
Proof. by intros s. Qed.
Lemma moves_lift {B} (x : res exn B) : moves Rel (lift x).
Proof. by intros s. Qed.
Lemma moves_reader {B} (m : Py A B) : moves Rel (on_reader m).
Proof. apply sm_reader. Qed.
Lemma moves_load name dtype scratch slice : moves Rel (on_store (rt_load (F := F) name dtype scratch slice)).
Proof. apply sm_load. Qed.
Lemma moves_unload h : moves Rel (on_store (rt_unload (F := F) h)).
Proof. apply sm_unload. Qed.
Lemma moves_snapshot : moves Rel (on_store (rt_snapshot (F := F))).
Proof. apply sm_snapshot. Qed.
Lemma moves_retry : moves Rel (on_store (rt_retry (F := F))).
Proof. apply sm_retry. Qed.
Lemma moves_shutdown : moves Rel (on_store (rt_shutdown (F := F))).
Proof. apply sm_shutdown. Qed.
Lemma moves_if {B} (b : bool) (m n : Py Service B) : moves Rel m → moves Rel n → moves Rel (if b then m else n).
Proof. by destruct b. Qed.
Lemma moves_consume l : moves Rel (consume_artifact (F := F) l).
Proof.
  intros s. unfold consume_artifact. pose proof (sm_reader (ar_consume l) s) as Hs. destruct (on_reader _ s) as [[u|e] s1]; cbn in Hs |- *; [|destruct (quarantines e)];
    try exact Hs; etrans; try exact Hs; apply sm_artifacts.
Qed.
#[local] Hint Resolve moves_bind moves_ret moves_raise moves_lift moves_if moves_consume moves_reader moves_unload moves_snapshot moves_retry moves_shutdown moves_load : moves.
Lemma moves_numeric name digest dtype scratch stream signal : artifacts_ok tensor_ok provider_ok →
  moves Rel (execute_numeric (L := L) (F := F) sha_bytes name digest dtype scratch stream signal).
Proof.
  intros Hok. unfold execute_numeric. apply moves_bind; [auto with moves|]. intros l. specialize (Hok l). apply moves_if; [destruct (ar_content l); auto with moves|].
  apply moves_bind; [|auto 6 with moves]. destruct (ar_content l) as [t|p], stream as [[tile count]|]; auto with moves.
  - apply moves_bind; [auto with moves|]. intros plan. by apply sm_streaming.
  - by apply sm_scaled.
  - by apply sm_file.
Qed.
(** Only a shutdown closes the session. *)
Definition closes (o : Operation) : bool := match o with Cancel _ | Shutdown => true | _ => false end.
Lemma moves_execute o signal : artifacts_ok tensor_ok provider_ok → (closes o = true → ∀ s, Rel s (with_closed true s)) →
  moves Rel (execute (L := L) (F := F) sha_bytes o signal).
Proof.
  intros Hok Hcl. destruct o; cbn in Hcl |- *; try by apply moves_numeric; auto 8 with moves.
  all: try (apply moves_bind; [auto with moves|]; intros v; apply moves_if; [auto with moves|]).
  all: auto 8 with moves.
  all: apply moves_bind; [intros s; by apply Hcl|auto with moves].
Qed.
End moves.
#[export] Instance frame_moves : ServiceMoves frame (λ _, True) (λ _, True).
Proof.
  assert (Hstore : ∀ B (m : Py S B), moves frame (on_store m)) by (intros B m s; unfold on_store, zoom; by destruct (m (store s))).
  split; try done; try (intros; apply Hstore); [apply frame_preorder|..].
  intros B m s. unfold on_reader. destruct (reader s) as [a|]; [|done]. by destruct (m a).
Qed.
Lemma framed_execute o signal : moves frame (execute (L := L) (F := F) sha_bytes o signal).
Proof. apply (moves_execute frame (λ _, True) (λ _, True)); [intros l; by destruct (ar_content l)|by split]. Qed.

(** Cancellations by other threads. *)
Definition cstep s s' : Prop := ∃ r target, s' = (cancel float_repr r target s).2.
Lemma cstep_keeps s s' : rtc cstep s s' → frame s s' ∧ closed s' = closed s ∧ store s' = store s.
Proof.
  induction 1 as [s|s1 s2 s3 (r & target & ->) _ (IH1 & IH2 & IH3)]; [done|]. unfold cancel in *.
  destruct (negb _); cbn in *; split_and!; try done. etrans; [|exact IH1]. by split.
Qed.
Lemma framed_cancel r target : moves frame (cancel float_repr r target).
Proof. intros s. unfold cancel. by destruct (negb _). Qed.

(** ** The order of requests *)

Lemma trim_drop c : trim c = drop (length c - Z.to_nat MAX_CACHED_RESPONSES) c.
Proof.
  induction c as [|e c IH]; [done|]. cbn [trim length]. unfold Zlen. destruct (_ >? _) eqn:E; breflect.
  - rewrite IH. cbn [length] in E. change (Z.to_nat MAX_CACHED_RESPONSES) with 256%nat in *. unfold MAX_CACHED_RESPONSES in E.
    replace (Datatypes.S (length c) - 256)%nat with (Datatypes.S (length c - 256)) by lia. done.
  - cbn [length] in E. change (Z.to_nat MAX_CACHED_RESPONSES) with 256%nat. unfold MAX_CACHED_RESPONSES in E.
    replace (Datatypes.S (length c) - 256)%nat with O by lia. done.
Qed.
(** An answered request: its number, its canonical text and the response. *)
Abbreviation Log := (list (Z * (string * json))).
(** A response that is bound to its request. *)
Definition bound r v : Prop :=
  field "session_id" v = Some (JStr (r_session r)) ∧ field "sequence" v = Some (JInt (r_sequence r)) ∧ field "request_id" v = Some (JStr (r_id r)) ∧
  field "operation" v = Some (JStr (operation_name (r_operation r))).
Lemma response_bound r passed result code : bound r (response (r_session r) r passed result code).
Proof. done. Qed.
Record log_inv s (log : Log) : Prop := {
  li_sequence : last_sequence s = Zlen log;
  li_numbers : ∀ i e, log !! i = Some e → e.1 = Z.of_nat i + 1;
  li_cache : cache s = drop (length log - Z.to_nat MAX_CACHED_RESPONSES) log;
  li_answers : ∀ n c v, (n, (c, v)) ∈ log → parse_response float_repr v = Ok v ∧
    ∃ payload r, NoDup (keys payload) ∧ parse_request float_repr payload = Ok r ∧ c = dumps payload ∧ r_session r = session_id s ∧ r_sequence r = n ∧ bound r v;
}.
Lemma log_keys (log : Log) : (∀ i e, log !! i = Some e → e.1 = Z.of_nat i + 1) → NoDup log.*1.
Proof.
  intros Hn. apply NoDup_alt. intros i j n Hi Hj. apply list_lookup_fmap_Some in Hi as (e & -> & Hi). apply list_lookup_fmap_Some in Hj as (e' & Heq & Hj).
  rewrite (Hn _ _ Hi), (Hn _ _ Hj) in Heq. lia.
Qed.
Lemma NoDup_drop' {B} (l : list B) k : NoDup l → NoDup (drop k l).
Proof. rewrite <-(take_drop k l) at 1. intros Hl. by apply NoDup_app in Hl as (_ & _ & ?). Qed.
(** What is cached: the last answers. *)
Lemma cache_lookup s log n : log_inv s log → 
  od_get n (cache s) = if decide (Zlen log - MAX_CACHED_RESPONSES < n ∧ 1 <= n) then (λ e, e.2) <$> log !! Z.to_nat (n - 1) else None.
Proof.
  intros [Hseq Hnum Hc _]. pose proof (log_keys log Hnum) as Hnd. rewrite Hc. set (k := (length log - Z.to_nat MAX_CACHED_RESPONSES)%nat).
  assert (Hnd' : od_wf (drop k log)) by (unfold od_wf; rewrite fmap_drop; by apply NoDup_drop').
  assert (Hpos : Z.to_nat MAX_CACHED_RESPONSES = 256%nat) by done. unfold MAX_CACHED_RESPONSES, Zlen.
  case_decide as Hd.
  - destruct (log !! Z.to_nat (n - 1)) as [[m [c v]]|] eqn:E; cbn.
    + assert (m = n) as -> by (pose proof (Hnum _ _ E) as Hm; cbn in Hm; lia). apply od_get_iff; [done|]. apply list_elem_of_lookup. exists (Z.to_nat (n - 1) - k)%nat.
      rewrite lookup_drop. replace (k + (Z.to_nat (n - 1) - k))%nat with (Z.to_nat (n - 1)) by (unfold k; lia). done.
    + apply od_get_None. rewrite fmap_drop. intros Hin. apply list_elem_of_lookup in Hin as [i Hi]. rewrite lookup_drop in Hi.
      apply list_lookup_fmap_Some in Hi as (e & -> & Hi). rewrite (Hnum _ _ Hi) in E. replace (Z.to_nat _) with (k + i)%nat in E by lia. congruence.
  - apply od_get_None. rewrite fmap_drop. intros Hin. apply list_elem_of_lookup in Hin as [i Hi]. rewrite lookup_drop in Hi.
    apply list_lookup_fmap_Some in Hi as (e & -> & Hi). rewrite (Hnum _ _ Hi) in Hd. apply Hd. unfold k. lia.
Qed.

(** *** What a parsed request holds *)

Lemma parse_load_name v o : parse_load v = Ok o → operation_name o = "load"%string.
Proof. unfold parse_load. intros Hp. repeat case_match; simplify_eq; done. Qed.
Lemma parse_numeric_name streaming v o : parse_numeric streaming v = Ok o →
  operation_name o = if streaming then "load_numeric_streaming"%string else "load_numeric"%string.
Proof. unfold parse_numeric. intros Hp. repeat case_match; simplify_eq; done. Qed.
Lemma parse_operation_name name v o : name ∈ OPERATIONS → parse_operation name v = Ok o → operation_name o = name.
Proof.
  unfold OPERATIONS, parse_operation. rewrite !elem_of_cons. intros Hn. destruct Hn as [->|[->|[->|[->|[->|[->|[->|[->|Hn]]]]]]]]; [..|by apply elem_of_nil in Hn]; cbn;
    [apply parse_load_name|apply (parse_numeric_name false)|apply (parse_numeric_name true)|..];
    intros Hp; repeat case_match; by simplify_eq.
Qed.
Lemma text_of_Some o t : text_of o = Some t → o = Some (JStr t).
Proof. destruct o as [[]|]; cbn; try done. by intros [= ->]. Qed.
Lemma int_of_Some o n : int_of o = Some n → o = Some (JInt n).
Proof. destruct o as [[]|]; cbn; try done. by intros [= ->]. Qed.
Lemma parse_request_inv v r : parse_request float_repr v = Ok r →
  (∃ l, v = JObj l) ∧ r_payload r = v ∧ bound r v ∧ hex_string 32 (r_session r) = true ∧ hex_string 32 (r_id r) = true ∧ 0 < r_sequence r.
Proof.
  unfold parse_request. intros Hp. destruct (negb _) eqn:Hc in Hp; [done|]. destruct (text_of (field "operation" v)) as [name|] eqn:Ho; [|done].
  destruct (negb _ || _) eqn:Hn in Hp; [done|]. destruct (text_of (field "session_id" v)) as [session|] eqn:Hs; [|done].
  destruct (text_of (field "request_id" v)) as [id|] eqn:Hi; [|done]. destruct (int_of (field "sequence" v)) as [n|] eqn:Hq; [|done].
  destruct (_ || _) eqn:Hb in Hp; [done|]. destruct (parse_operation name v) as [o|] eqn:Hpo; [|done]. destruct (_ >? _); [done|]. injection Hp as <-.
  apply text_of_Some in Ho, Hs, Hi. apply int_of_Some in Hq. breflect. apply parse_operation_name in Hpo; [|done]. unfold bound. cbn. subst name. split_and!; try done.
  destruct v; try done. by eexists.
Qed.
Lemma parse_response_id v w : parse_response float_repr v = Ok w → w = v.
Proof. unfold parse_response. intros Hp. repeat case_match; by simplify_eq. Qed.
(** The response to a request is bound to every request of the same canonical text. *)
Lemma same_text_bound p p' r r' v : NoDup (keys p) → NoDup (keys p') → parse_request float_repr p = Ok r → parse_request float_repr p' = Ok r' →
  dumps p = dumps p' → bound r v → bound r' v.
Proof.
  intros Hk Hk' Hp Hp' Heq. apply parse_request_inv in Hp as ([l ->] & _ & (S1 & S2 & S3 & S4) & _). apply parse_request_inv in Hp' as ([l' ->] & _ & (T1 & T2 & T3 & T4) & _).
  assert (Hf : ∀ k, normal <$> field k (JObj l) = normal <$> field k (JObj l')) by (intros k; by apply (dumps_fields float_repr)).
  pose proof (Hf "session_id"%string) as F1. pose proof (Hf "sequence"%string) as F2. pose proof (Hf "request_id"%string) as F3. pose proof (Hf "operation"%string) as F4.
  rewrite S1, T1 in F1. rewrite S2, T2 in F2. rewrite S3, T3 in F3. rewrite S4, T4 in F4. cbn in F1, F2, F3, F4.
  injection F1 as F1. injection F2 as F2. injection F3 as F3. injection F4 as F4. unfold bound. by rewrite F1, F2, F3, F4.
Qed.
Lemma bound_text r v : bound r v → ∀ r', bound r' v → r_session r = r_session r' ∧ r_sequence r = r_sequence r' ∧ r_id r = r_id r' ∧
  operation_name (r_operation r) = operation_name (r_operation r').
Proof. unfold bound. intros (A1 & A2 & A3 & A4) r' (B1 & B2 & B3 & B4). split_and!; congruence. Qed.

(** *** Steps *)

(** A call of [handle], with the answered requests so far: the answer of a request that was
    executed is added to them. *)
Inductive step : Service * Log → Service * Log → Prop :=
| step_handle call payload s log x s' :
    NoDup (keys payload) → (∀ s1, rtc cstep s1 (c_during call s1)) → handle call payload s = (x, s') →
    step (s, log)
      (s', match x with
           | Ok v => if last_sequence s' =? last_sequence s then log else log ++ [(last_sequence s', (dumps payload, v))]
           | Raise _ => log
           end).

(** A request that is next in order is executed, and answered unless [handle] is left with
    an exception. *)
Lemma run_next call r s : (∀ s1, rtc cstep s1 (c_during call s1)) → r_session r = session_id s → od_get (r_sequence r) (cache s) = None →
  r_sequence r = last_sequence s + 1 → closed s = false →
  ∃ s3, frame s s3 ∧ ((∃ e, run (L := L) (F := F) float_repr sha_bytes call r s = (Raise e, s3)) ∨
    ∃ v, bound r v ∧ parse_response float_repr v = Ok v ∧
      run (L := L) (F := F) float_repr sha_bytes call r s =
        (Ok v, with_answers (r_sequence r) (trim (od_set (r_sequence r) (dumps (r_payload r), v) (cache s))) s3)).
Proof.
  intros Hd Hs Hc Hn Ho. unfold run. rewrite Hc, Hn, Z.eqb_refl, Ho, <-Hs. unfold str_eqb. rewrite bool_decide_eq_true_2 by done. cbn [negb]. rewrite <-Hn.
  set (s0 := with_active (<[r_id r := false]> (active s)) s). set (signal := is_set _ _).
  assert (F0 : frame s s0) by by split. pose proof (proj1 (cstep_keeps _ _ (Hd s0))) as F1. pose proof (framed_execute (r_operation r) signal (c_during call s0)) as F2.
  destruct (execute _ _ _ _) as [x s2]. cbn in F2. set (s3 := with_active (delete (r_id r) (active s2)) s2). exists s3.
  assert (F3 : frame s s3) by (etrans; [exact F0|]; etrans; [exact F1|]; etrans; [exact F2|]; by split). split; [done|].
  assert (Ha : ∀ passed result code, (∃ e, answer float_repr r (dumps (r_payload r)) passed result code s3 = (Raise e, s3)) ∨
    ∃ v, bound r v ∧ parse_response float_repr v = Ok v ∧ answer float_repr r (dumps (r_payload r)) passed result code s3 =
      (Ok v, with_answers (r_sequence r) (trim (od_set (r_sequence r) (dumps (r_payload r), v) (cache s))) s3)).
  { intros passed result code. unfold answer. rewrite (fr_session _ _ F3), (fr_cache _ _ F3), <-Hs. destruct (parse_response _ _) as [v|e] eqn:E; [|by left; exists e].
    right. pose proof (parse_response_id _ _ E) as Hv. exists v. split_and!; [subst v; apply response_bound|by rewrite Hv in E |- *|done]. }
  destruct x as [result|e]; [apply Ha|]. destruct (error_code e); [apply Ha|left; by exists e].
Qed.
Lemma log_inv_frame s s' log : frame s s' → log_inv s log → log_inv s' log.
Proof. intros [E1 E2 E3] [I1 I2 I3 I4]. split; rewrite ?E1, ?E2, ?E3; done. Qed.
Lemma Zsnoc {B} (l : list B) x : Zlen (l ++ [x]) = Zlen l + 1.
Proof. unfold Zlen. rewrite length_app. cbn. lia. Qed.
Lemma log_inv_extend s s3 log payload r v : log_inv s log → frame s s3 → NoDup (keys payload) → parse_request float_repr payload = Ok r →
  r_session r = session_id s → r_sequence r = last_sequence s + 1 → bound r v → parse_response float_repr v = Ok v →
  log_inv (with_answers (r_sequence r) (trim (od_set (r_sequence r) (dumps (r_payload r), v) (cache s))) s3) (log ++ [(r_sequence r, (dumps payload, v))]).
Proof.
  intros Hinv Hf Hk Hp Hs Hn Hb Hv. pose proof Hinv as [I1 I2 I3 I4]. pose proof (parse_request_inv _ _ Hp) as (_ & -> & _). split; cbn.
  - rewrite Zsnoc. lia.
  - intros i e [Hi|[Hle Hi]]%lookup_app_Some; [by apply I2|]. apply list_lookup_singleton_Some in Hi as [Hi <-]. cbn. unfold Zlen in *. lia.
  - rewrite od_set_new.
    + rewrite trim_drop, I3, !length_app, length_drop. cbn [length]. set (k := Z.to_nat MAX_CACHED_RESPONSES). clearbody k.
      assert (Hd : drop (length log - k) log ++ [(r_sequence r, (dumps payload, v))] = drop (length log - k) (log ++ [(r_sequence r, (dumps payload, v))])).
      { rewrite drop_app_le by lia. done. }
      rewrite Hd, drop_drop. f_equal. lia.
    + rewrite (cache_lookup s log _ Hinv). case_decide; [|done]. rewrite lookup_ge_None_2; [done|]. unfold Zlen in *. lia.
  - intros n c w [Hin|Hin]%elem_of_app.
    + destruct (I4 _ _ _ Hin) as (Hw & p & r' & H1' & H2' & H3' & H4' & H5' & H6'). split; [done|]. exists p, r'. split_and!; try done. by rewrite (fr_session _ _ Hf).
    + apply list_elem_of_singleton in Hin as [= -> -> ->]. split; [done|]. exists payload, r. split_and!; try done. by rewrite (fr_session _ _ Hf).
Qed.
(** What a request that is not a cancellation gives, after the answers of [log]. *)
Definition outcome s (log : Log) payload r (x : res exn json) s' : Prop :=
  let n := r_sequence r in
  let refused := s' = s ∧ ∃ m, x = Raise (ValueError m) in
  if negb (str_eqb (r_session r) (session_id s)) then refused
  else if (1 <=? n) && (n <=? last_sequence s) then
    if n <=? last_sequence s - MAX_CACHED_RESPONSES then refused
    else ∃ c v, log !! Z.to_nat (n - 1) = Some (n, (c, v)) ∧ if str_eqb c (dumps payload) then s' = s ∧ x = Ok v else refused
  else if (n =? last_sequence s + 1) && negb (closed s) then
    (∃ e, x = Raise e ∧ frame s s') ∨
    (∃ v, x = Ok v ∧ session_id s' = session_id s ∧ last_sequence s' = n ∧ od_get n (cache s') = Some (dumps payload, v) ∧ log_inv s' (log ++ [(n, (dumps payload, v))]))
  else refused.
Lemma run_outcome call payload r s log : log_inv s log → (∀ s1, rtc cstep s1 (c_during call s1)) → NoDup (keys payload) →
  parse_request float_repr payload = Ok r →
  let y := run (L := L) (F := F) float_repr sha_bytes call r s in
  outcome s log payload r y.1 y.2 ∧ ∀ v, y.1 = Ok v → bound r v ∧ parse_response float_repr v = Ok v.
Proof.
  intros Hinv Hd Hk Hp y. subst y. pose proof (parse_request_inv _ _ Hp) as (_ & Hpay & _ & _ & _ & Hpos). unfold outcome. cbv zeta.
  destruct (str_eqb (r_session r) (session_id s)) eqn:Hs; cbn [negb].
  2: { unfold run. rewrite Hs. split; [split; [done|by eexists]|done]. }
  pose proof Hs as Hse. unfold str_eqb in Hs. apply bool_decide_eq_true in Hs. pose proof (cache_lookup s log (r_sequence r) Hinv) as Hc. rewrite (li_sequence _ _ Hinv). unfold MAX_CACHED_RESPONSES in *.
  replace (1 <=? r_sequence r) with true by (symmetry; apply Z.leb_le; lia). cbn [andb].
  destruct (r_sequence r <=? Zlen log) eqn:Hle; breflect; [destruct (r_sequence r <=? Zlen log - 256) eqn:Hold; breflect|].
  - rewrite decide_False in Hc by lia. unfold run. rewrite Hse. rewrite Hc, (li_sequence _ _ Hinv). cbn [negb].
    destruct (_ =? _) eqn:E; breflect; [lia|]. cbn. split; [split; [done|by eexists]|done].
  - rewrite decide_True in Hc by lia. destruct (log !! Z.to_nat (r_sequence r - 1)) as [[m [c v]]|] eqn:E.
    2: { apply lookup_ge_None in E. unfold Zlen in *. lia. }
    cbn in Hc. pose proof (li_numbers _ _ Hinv _ _ E) as Hm. cbn in Hm. assert (m = r_sequence r) as -> by lia.
    unfold run. rewrite Hse. rewrite Hc, Hpay. cbn [negb].
    destruct (str_eqb c (dumps payload)) eqn:Ec; cbn; (split; [exists c, v; split; [done|]; rewrite Ec|]); [done| |split; [done|by eexists]|done].
    intros w [= <-]. destruct (li_answers _ _ Hinv _ _ _ (list_elem_of_lookup_2 _ _ _ E)) as (Hw & p & r' & Hk' & Hp' & -> & _ & _ & Hb).
    unfold str_eqb in Ec. apply bool_decide_eq_true in Ec. split; [|done]. by apply (same_text_bound p payload r' r).
  - assert (Hnone : od_get (r_sequence r) (cache s) = None).
    { rewrite Hc. case_decide; [|done]. rewrite lookup_ge_None_2; [done|]. unfold Zlen in *. lia. }
    destruct ((r_sequence r =? Zlen log + 1) && negb (closed s)) eqn:Hnext.
    + apply andb_prop in Hnext as [Hnext Ho]. apply Z.eqb_eq in Hnext. apply negb_true_iff in Ho. rewrite <-(li_sequence _ _ Hinv) in Hnext.
      destruct (run_next call r s Hd Hs Hnone Hnext Ho) as (s3 & Hf & [[e ->]|(v & Hb & Hv & ->)]); cbn.
      * split; [left; by exists e|done].
      * split; [right; exists v|by intros w [= <-]].
        pose proof (log_inv_extend _ _ _ _ _ _ Hinv Hf Hk Hp Hs Hnext Hb Hv) as Hinv'. split_and!; [done|apply Hf|done| |done].
        rewrite (cache_lookup _ _ _ Hinv'), decide_True by (rewrite Zsnoc; unfold MAX_CACHED_RESPONSES, Zlen in *; lia).
        rewrite lookup_app_r by (unfold Zlen in *; lia). replace (_ - _)%nat with O by (rewrite (li_sequence _ _ Hinv) in Hnext; unfold Zlen in *; lia). done.
    + unfold run. rewrite Hse. rewrite Hnone, (li_sequence _ _ Hinv). cbn [negb].
      destruct (_ =? _); cbn in *; [rewrite (proj1 (negb_false_iff _) Hnext)|]; cbn; (split; [split; [done|by eexists]|done]).
Qed.
Lemma handle_run call payload r s : parse_request float_repr payload = Ok r → (∀ t, r_operation r ≠ Cancel t) →
  handle call payload s = run (L := L) (F := F) float_repr sha_bytes call r s.
Proof. intros Hp Hr. unfold RuntimeProtocol.handle, bind, lift. rewrite Hp. destruct (r_operation r) eqn:E; try done. by destruct (Hr target). Qed.
Lemma step_log_inv w w' : step w w' → log_inv w.1 w.2 → log_inv w'.1 w'.2 ∧ session_id w'.1 = session_id w.1.
Proof.
  intros Hstep Hinv. destruct Hstep as [call payload s log x s' Hk Hd Hh]. cbn [fst snd] in *.
  destruct (parse_request float_repr payload) as [r|e] eqn:Hp.
  2: { unfold RuntimeProtocol.handle, bind, lift in Hh. rewrite Hp in Hh. by injection Hh as <- <-. }
  assert ((∃ t, r_operation r = Cancel t) ∨ ∀ t, r_operation r ≠ Cancel t) as [[t Ht]|Hr] by (destruct (r_operation r) eqn:E; [by right..|left; by eexists|by right]).
  - unfold RuntimeProtocol.handle, bind, lift in Hh. rewrite Hp, Ht in Hh. pose proof (framed_cancel r t s) as Hf. rewrite Hh in Hf. cbn in Hf.
    rewrite (fr_sequence _ _ Hf), Z.eqb_refl. split; [destruct x; by eapply log_inv_frame|apply Hf].
  - rewrite (handle_run _ _ _ _ Hp Hr) in Hh. pose proof (run_outcome call payload r s log Hinv Hd Hk Hp) as [Ho _]. cbv zeta in Ho. rewrite Hh in Ho. cbn [fst snd] in Ho.
    assert (Hsame : s' = s → log_inv s' match x with Ok v => if last_sequence s' =? last_sequence s then log else log ++ [(last_sequence s', (dumps payload, v))] | Raise _ => log end ∧ session_id s' = session_id s).
    { intros ->. rewrite Z.eqb_refl. split; [by destruct x|done]. }
    unfold outcome in Ho. cbv zeta in Ho. destruct (negb _); [by apply Hsame, Ho|]. destruct (_ && _).
    + destruct (_ <=? _); [by apply Hsame, Ho|]. destruct Ho as (c & v & _ & Ho). apply Hsame. by destruct (str_eqb _ _); apply Ho.
    + destruct (_ && _) eqn:En; [|by apply Hsame, Ho]. destruct Ho as [(e & -> & Hf)|(v & -> & Hi & Hs & _ & Hl)]; [split; [by eapply log_inv_frame|apply Hf]|split; [|done]].
      apply andb_prop in En as [En _]. breflect. destruct (_ =? _) eqn:E; breflect; [lia|]. by rewrite Hs.
Qed.

(** C14: the runtime answers every request of a session at most once and in order: after any
    calls of [handle] on a new service, during which other threads may cancel requests, the
    answered requests are numbered 1, 2, ... up to the last sequence number, and the cache
    holds the last 256 of them.  A request that is not a cancellation is refused, with
    nothing changed, when it belongs to another session, when its number was answered too
    long ago or lies beyond the next one, when its number was answered for a request of
    another content, and when the session is closed; a request that was answered before gets
    the answer again, with nothing changed, so that it is not executed a second time; the
    next request in order is executed, and either it is answered and recorded or [handle] is
    left with an exception and the order stays where it was.  Every answer carries the
    session, the number, the identity and the operation of the request it is given to, and
    passes the checks of the client. *)
Theorem protocol_at_most_once session st rd s0 s log :
  new_service session st rd = Ok s0 → rtc step (s0, []) (s, log) →
  session_id s = session ∧ last_sequence s = Zlen log ∧ (∀ i e, log !! i = Some e → e.1 = Z.of_nat i + 1) ∧
  cache s = drop (length log - Z.to_nat MAX_CACHED_RESPONSES) log ∧
  ∀ call payload r, (∀ s1, rtc cstep s1 (c_during call s1)) → NoDup (keys payload) → parse_request float_repr payload = Ok r →
    (∀ t, r_operation r ≠ Cancel t) →
    let y := handle call payload s in
    outcome s log payload r y.1 y.2 ∧ ∀ v, y.1 = Ok v → bound r v ∧ parse_response float_repr v = Ok v.
Proof.
  unfold new_service. destruct (negb _); [done|]. intros [= <-] Hr. set (s0 := mkService _ _ _ _ _ _ _ _ _ _ _) in *.
  assert (Hinv0 : log_inv s0 []) by (split; [done|by intros i e Hi|done|by intros n c v Hin%elem_of_nil]).
  assert (Hinv : log_inv s log ∧ session_id s = session).
  { assert (Hall : ∀ w, rtc step (s0, []) w → log_inv w.1 w.2 ∧ session_id w.1 = session); [|exact (Hall _ Hr)].
    apply rtc_ind_r; [by split|]. intros w1 w2 _ Hstep [IH IHs].
    destruct (step_log_inv _ _ Hstep IH) as [Hi Hs]. split; [done|congruence]. }
  destruct Hinv as [Hinv Hs]. split_and!; try apply Hinv; [done|]. intros call payload r Hd Hk Hp Hc. rewrite (handle_run _ _ _ _ Hp Hc). by apply run_outcome.
Qed.

(** ** What a session does to its store *)

Lemma on_reader_same {B} (m : Py A B) s : store (on_reader m s).2 = store s ∧ closed (on_reader m s).2 = closed s.
Proof. unfold on_reader. destruct (reader s) as [a|]; [|done]. by destruct (m a). Qed.
(** A relation on stores that the operations keep to. *)
Definition along (T : S → S → Prop) s s' : Prop := T (store s) (store s') ∧ closed s' = closed s.
Class StoreMoves (T : S → S → Prop) (tensor_ok : NumericFormats.ScaledInt8Tensor → Prop)
    (provider_ok : NumericFileStream.NVFP4FileTileProvider F → Prop) : Prop := {
  st_preorder :: PreOrder T;
  st_load name dtype scratch slice x : T x (rt_load (F := F) name dtype scratch slice x).2;
  st_scaled t dtype contract scratch x : tensor_ok t → T x (rt_load_scaled_int8 (F := F) t dtype contract scratch x).2;
  st_streaming t plan dtype contract scratch signal x : tensor_ok t → T x (rt_load_scaled_int8_streaming (F := F) t plan dtype contract scratch signal x).2;
  st_file p tile count dtype contract scratch signal x : provider_ok p → T x (rt_load_nvfp4_file_stream p tile count dtype contract scratch signal x).2;
  st_unload h x : T x (rt_unload (F := F) h x).2;
  st_snapshot x : T x (rt_snapshot (F := F) x).2;
  st_retry x : T x (rt_retry (F := F) x).2;
  st_shutdown x : T x (rt_shutdown (F := F) x).2;
}.
Lemma on_store_along (T : S → S → Prop) {B} (m : Py S B) : (∀ x, T x (m x).2) → moves (along T) (on_store m).
Proof. intros Hm s. unfold along, on_store, zoom. specialize (Hm (store s)). by destruct (m (store s)). Qed.
#[export] Instance along_preorder T `{!PreOrder T} : PreOrder (along T).
Proof. split; [by intros s|]. intros s1 s2 s3 [H1 E1] [H2 E2]. split; [by etrans|congruence]. Qed.
#[export] Instance along_moves T tensor_ok provider_ok `{!StoreMoves T tensor_ok provider_ok} : ServiceMoves (along T) tensor_ok provider_ok.
Proof.
  split; intros; try apply along_preorder; try apply st_preorder;
    try (apply on_store_along; intros; by apply st_load || by apply st_scaled || by apply st_streaming || by apply st_file || by apply st_unload || by apply st_snapshot || by apply st_retry || by apply st_shutdown).
  - intros s. unfold along. destruct (on_reader_same m s) as [-> ->]. done.
  - done.
Qed.
Section store.
Context (T : S → S → Prop) (tensor_ok : NumericFormats.ScaledInt8Tensor → Prop) (provider_ok : NumericFileStream.NVFP4FileTileProvider F → Prop).
Context `{!StoreMoves T tensor_ok provider_ok} (Hart : artifacts_ok tensor_ok provider_ok).
(** An execution moves the store; it closes the session only after a shutdown that found
    nothing left. *)
Definition shut (x : S) : Prop :=
  ∃ y snapshot, rt_shutdown (F := F) y = (Ok snapshot, x) ∧ truthy (field "resident_tensors" snapshot) = false ∧ truthy (field "quarantined_tensors" snapshot) = false.
Lemma execute_store o signal s : let s' := (execute (L := L) (F := F) sha_bytes o signal s).2 in
  T (store s) (store s') ∧ (closed s' = closed s ∨ closed s' = true ∧ shut (store s')).
Proof.
  destruct (closes o) eqn:Ho.
  - assert (Hsd : let s' := (execute (L := L) (F := F) sha_bytes Shutdown signal s).2 in T (store s) (store s') ∧ (closed s' = closed s ∨ closed s' = true ∧ shut (store s'))).
    { cbn. unfold bind, on_store, zoom. pose proof (st_shutdown (store s)) as Ht. destruct (rt_shutdown (store s)) as [[snapshot|e] x] eqn:E; cbn in Ht |- *; [|by auto].
      destruct (truthy (field "resident_tensors" snapshot)) eqn:E1; [by auto|]. destruct (truthy (field "quarantined_tensors" snapshot)) eqn:E2; [by auto|].
      cbn. split; [done|]. right. split; [done|]. by exists (store s), snapshot. }
    by destruct o.
  - destruct (moves_execute (along T) tensor_ok provider_ok o signal Hart ltac:(congruence) s) as [Ht Hc]. cbv zeta. auto.
Qed.
(** So does a call of [handle]; nothing happens to the store of a closed session. *)
Lemma handle_store call payload s : (∀ s1, rtc cstep s1 (c_during call s1)) → let s' := (handle call payload s).2 in
  T (store s) (store s') ∧ (closed s = true → store s' = store s ∧ closed s' = true) ∧ (closed s = false → closed s' = true → shut (store s')).
Proof.
  intros Hd. cbv zeta. unfold RuntimeProtocol.handle, bind, lift. destruct (parse_request float_repr payload) as [r|e]; [|cbn; split_and!; [reflexivity|done|congruence]].
  assert (Hsame : ∀ s', store s' = store s → closed s' = closed s → T (store s) (store s') ∧ (closed s = true → store s' = store s ∧ closed s' = true) ∧ (closed s = false → closed s' = true → shut (store s'))).
  { intros s' -> ->. split_and!; [reflexivity|done|congruence]. }
  assert (Hrun : let s' := (run (L := L) (F := F) float_repr sha_bytes call r s).2 in
    T (store s) (store s') ∧ (closed s = true → store s' = store s ∧ closed s' = true) ∧ (closed s = false → closed s' = true → shut (store s'))).
  { unfold run. destruct (negb _); [by apply Hsame|]. destruct (od_get _ _) as [[c v]|]; [destruct (str_eqb _ _); by apply Hsame|]. destruct (negb _); [by apply Hsame|].
    destruct (closed s) eqn:Hc; [split_and!; [reflexivity|done|done]|]. set (s0 := with_active _ s). destruct (cstep_keeps _ _ (Hd s0)) as (_ & Hc1 & Hs1).
    pose proof (execute_store (r_operation r) (is_set (c_event call) (c_transport call)) (c_during call s0)) as [Ht Hcl]. rewrite Hs1, Hc1 in *. cbn [closed store s0 with_active] in Ht, Hcl.
    destruct (execute _ _ _ _) as [x s2]. cbn [snd] in Ht, Hcl. rewrite Hc in Hcl. set (s3 := with_active _ s2).
    assert (Hend : ∀ s', store s' = store s2 → closed s' = closed s2 → T (store s) (store s') ∧ (false = true → store s' = store s ∧ closed s' = true) ∧ (false = false → closed s' = true → shut (store s'))).
    { intros s' -> ->. split_and!; [done|done|]. intros _ Hx. destruct Hcl as [Hcl|[_ ?]]; [congruence|done]. }
    destruct x as [result|e]; [|destruct (error_code e)]; try by apply Hend.
    all: unfold answer; destruct (parse_response _ _); by apply Hend. }
  destruct (r_operation r); try exact Hrun. apply Hsame; unfold cancel; by destruct (negb _).
Qed.
End store.
End spec.

(** ** A store that counts *)

Definition float_code (f : PyFloat.float) : nat * bool * positive * Z :=
  match f with
  | SpecFloat.S754_zero b => (0%nat, b, 1%positive, 0)
  | SpecFloat.S754_infinity b => (1%nat, b, 1%positive, 0)
  | SpecFloat.S754_nan => (2%nat, true, 1%positive, 0)
  | SpecFloat.S754_finite b m e => (3%nat, b, m, e)
  end.
#[local] Instance float_code_inj : Inj (=) (=) float_code.
Proof. intros [] []; cbn; intros Heq; by simplify_eq. Qed.
Definition demo_float (f : PyFloat.float) : string := String (Ascii.ascii_of_nat 120) (pretty (N.pos (encode (float_code f)))).
#[local] Instance demo_float_text : FloatText demo_float.
Proof.
  split.
  - intros f. unfold demo_float, is_atom. cbn. apply forallb_forall. intros c Hc. pose proof (proj1 (pretty_N_digits (N.pos (encode (float_code f))))) as Hd.
    unfold digits in Hd. rewrite forallb_forall in Hd. by apply digit_chars_atoms, Hd.
  - intros f g Heq. unfold demo_float in Heq. injection Heq as Heq. apply (inj pretty) in Heq. injection Heq as Heq. by apply (inj encode), (inj float_code) in Heq.
  - intros f n Heq. pose proof (proj1 (str_of_Z_digits n)) as Hd. by rewrite <-Heq in Hd.
  - intros f Hin. unfold demo_float in Hin. set_unfold in Hin. by destruct_or! Hin.
Qed.
#[local] Instance demo_store : Qwen4RuntimeStore Z () := {
  rt_load _ _ _ _ := ret "0123456789abcdef0123456789abcdef"%string;
  rt_load_scaled_int8 _ _ _ _ := raise (MemoryError "full");
  rt_load_scaled_int8_streaming _ _ _ _ _ _ := raise (MemoryError "full");
  rt_load_nvfp4_file_stream _ _ _ _ _ _ _ := raise (MemoryError "full");
  rt_unload _ := modify (Z.add 1);
  rt_snapshot := ret (JObj []);
  rt_retry := ret 0;
  rt_shutdown := ret (JObj []);
}.
#[local] Instance demo_reader : NumericArtifactReader () Empty_set () := {
  ar_claim _ _ := raise (ValueError "no artifact");
  ar_consume _ := ret ();
  ar_contract l := match l with end;
  ar_content l := match l with end;
}.
#[local] Existing Instance NumericFileStream.demo_os.
Definition demo_id : string := "0123456789abcdef0123456789abcdef".
Definition demo_unload (n : Z) : json :=
  JObj [("operation", JStr "unload"); ("sequence", JInt n); ("session_id", JStr demo_id); ("request_id", JStr demo_id);
        ("handle", JStr demo_id); ("abi_version", JInt 1)]%string.
Abbreviation DemoService := (Qwen4RuntimeCommandService (S := Z) (A := ())).
Definition demo_call : Call (S := Z) (A := ()) := mkCall id (λ _, false) None.
Definition demo_handle (payload : json) : Py DemoService json := handle (F := ()) (L := Empty_set) demo_float (λ _, demo_id) demo_call payload.
Definition demo_service : DemoService := mkService demo_id 0 None ∅ 0 0 0 0 0 false [].
Definition demo_served : DemoService := (demo_handle (demo_unload 1) demo_service).2.
(** The request is executed once, and answered twice. *)
Example demo_once : store demo_served = 1 ∧ (demo_handle (demo_unload 1) demo_served).2 = demo_served ∧
  (demo_handle (demo_unload 1) demo_served).1 = (demo_handle (demo_unload 1) demo_service).1 ∧ is_ok (demo_handle (demo_unload 3) demo_served).1 = false.
Proof. vm_compute. split_and!; reflexivity. Qed.
Lemma demo_step : ∃ log, rtc (step (F := ()) (L := Empty_set) demo_float (λ _, demo_id)) (demo_service, []) (demo_served, log).
Proof.
  eexists. apply rtc_once. unfold demo_served. apply (step_handle _ _ demo_call (demo_unload 1) demo_service [] (demo_handle (demo_unload 1) demo_service).1).
  - apply (bool_decide_eq_true_1 (NoDup (keys (demo_unload 1)))). vm_compute. reflexivity.
  - intros s. apply rtc_refl.
  - unfold demo_handle. by destruct (handle _ _ _ _ _).
Qed.
Lemma protocol_at_most_once_witness : ∃ log, last_sequence demo_served = Zlen log ∧
  ∀ n r, parse_request demo_float (demo_unload n) = Ok r → r_operation r = Unload demo_id →
    outcome demo_float demo_served log (demo_unload n) r (demo_handle (demo_unload n) demo_served).1 (demo_handle (demo_unload n) demo_served).2.
Proof.
  destruct demo_step as [log Hlog]. exists log.
  destruct (protocol_at_most_once demo_float (λ _, demo_id) demo_id 0 None demo_service demo_served log ltac:(vm_compute; reflexivity) Hlog)
    as (_ & H1 & _ & _ & H2).
  split; [exact H1|]. intros n r Hr Ho. refine (proj1 (H2 demo_call (demo_unload n) r _ _ Hr _)).
  - intros s. apply rtc_refl.
  - apply (bool_decide_eq_true_1 (NoDup (keys (demo_unload n)))). vm_compute. reflexivity.
  - intros t E. rewrite Ho in E. discriminate E.
Defined.
(** A request whose dtype is a list is not refused with [ValueError]. *)
Lemma unhashable_dtype : parse_request demo_float
  (JObj [("operation", JStr "load"); ("sequence", JInt 1); ("session_id", JStr demo_id); ("request_id", JStr demo_id); ("abi_version", JInt 1);
         ("tensor_name", JStr "w"); ("target_dtype", JArr []); ("scratch_bytes", JInt 0); ("axis0_slice", JNull)]%string) =
  Raise (TypeError "unhashable type: 'list'").
Proof. vm_compute. reflexivity. Qed.
End RuntimeProtocol.
