(* ===== verification/ManagedEngine.v ===== *)
(** * A native engine on a thread of its own (managed_engine.py)

    [ThreadAffineInferenceEngine] creates, calls and closes an engine on one thread; other
    threads queue commands for it and wait.  The threads interleave: every thread is a
    program counter, and what it does between two points where others may run is one
    transition.  A call of [chat_completions_with_request_context] is a thread whose number
    names its command, and so is a call of [close].  The engine is a program over a state of
    its own; the contexts' cancellation and the outcome of the factory are the events of a
    transition.  A command's event and its completion are set one after the other, and
    nobody waits for the second, so they are one flag here.  The queue's count of
    unfinished tasks, which nothing reads, is left out. *)

From S2P Require Import Prelude Types PyFloat.

Module ManagedEngine.
Import PyFloat.

Section engine.
Context {Q D V Mo : Type}.
(** The engine's [chat_completions_with_request_context] and [close]. *)
Context (method : Q → Py D V) (close_delegate : Py D ()).

(** [_Command]; [done]: the event and the completion. *)
Record Command := mkCommand { request : Q; cancelled : bool; result : option V; error : option exn; done : bool }.
(** What follows when a thread has finished the commands it took out of the queue. *)
Inductive After := ToOffer | ToRaise (msg : string) | ToJoin.
Inductive Thread :=
| Called (q : Q)                       (* about to look at its own context *)
| Sweeping (a : After)                 (* about to discard the cancelled commands *)
| Finishing (todo : list nat) (a : After)
| Offering                             (* about to take the state lock and queue its command *)
| Waiting
| Returned (r : res exn V)
| Closing                              (* about to take the state lock *)
| Draining (pending : list nat)        (* holds it *)
| Joining
| Left (stopped : bool).
Inductive Owner := Starting | Polling | Serving (c : nat) | Answered (c : nat) | Exiting | Exited.
(** The last three fields are history: the engine as it was created, the commands in the
    order in which they were queued, and those the engine was called for. *)
Record Engine := mkEngine {
  maximum_pending : nat;
  queue : list (option nat);           (* [None] asks the owner to leave *)
  commands : gmap nat Command;
  closed : bool;
  lock : option nat;                   (* who holds the state lock across transitions *)
  owner : Owner;
  delegate : option D;
  ready_flag : bool;
  model_list : list Mo;
  startup_error : option exn;
  published : option (res exn ());     (* how the constructor ended *)
  threads : gmap nat Thread;
  initial : option D;
  accepted : list nat;
  served : list nat;
}.
Implicit Types (s : Engine) (t c : nat).

Definition with_queue q s := mkEngine (maximum_pending s) q (commands s) (closed s) (lock s) (owner s) (delegate s) (ready_flag s) (model_list s) (startup_error s) (published s) (threads s) (initial s) (accepted s) (served s).
Definition with_commands m s := mkEngine (maximum_pending s) (queue s) m (closed s) (lock s) (owner s) (delegate s) (ready_flag s) (model_list s) (startup_error s) (published s) (threads s) (initial s) (accepted s) (served s).
Definition with_closed (b : bool) l s := mkEngine (maximum_pending s) (queue s) (commands s) b l (owner s) (delegate s) (ready_flag s) (model_list s) (startup_error s) (published s) (threads s) (initial s) (accepted s) (served s).
Definition with_owner o s := mkEngine (maximum_pending s) (queue s) (commands s) (closed s) (lock s) o (delegate s) (ready_flag s) (model_list s) (startup_error s) (published s) (threads s) (initial s) (accepted s) (served s).
Definition with_delegate d s := mkEngine (maximum_pending s) (queue s) (commands s) (closed s) (lock s) (owner s) d (ready_flag s) (model_list s) (startup_error s) (published s) (threads s) (initial s) (accepted s) (served s).
Definition with_started r ms e s := mkEngine (maximum_pending s) (queue s) (commands s) (closed s) (lock s) (owner s) (delegate s) r ms e (published s) (threads s) (initial s) (accepted s) (served s).
Definition with_published p s := mkEngine (maximum_pending s) (queue s) (commands s) (closed s) (lock s) (owner s) (delegate s) (ready_flag s) (model_list s) (startup_error s) p (threads s) (initial s) (accepted s) (served s).
Definition with_threads m s := mkEngine (maximum_pending s) (queue s) (commands s) (closed s) (lock s) (owner s) (delegate s) (ready_flag s) (model_list s) (startup_error s) (published s) m (initial s) (accepted s) (served s).
Definition with_history i a l s := mkEngine (maximum_pending s) (queue s) (commands s) (closed s) (lock s) (owner s) (delegate s) (ready_flag s) (model_list s) (startup_error s) (published s) (threads s) i a l.
Definition goto t th s := with_threads (<[t := th]> (threads s)) s.

(** [__init__] up to the start of the owner. *)
Definition new_engine (maximum_pending_requests : Z) (startup_timeout_seconds : float) : res exn Engine :=
  if negb ((1 <=? maximum_pending_requests) && (maximum_pending_requests <=? 64)) ||
     negb (fltb zero startup_timeout_seconds && fleb startup_timeout_seconds (of_Z 1800))
  then Raise (ValueError "invalid thread-affine engine configuration")
  else Ok (mkEngine (Z.to_nat maximum_pending_requests) [] ∅ false None Starting None false [] None None ∅ None [] []).

(** ** Commands *)

Definition cancelled_error (msg : string) : exn := InferenceRequestCancelled msg.
Definition queued_message : string := "inference request cancelled while queued".
(** The exception of a command that is taken out of the queue. *)
Definition abandon (msg : string) (cmd : Command) : Command :=
  mkCommand (request cmd) (cancelled cmd) (result cmd) (Some (cancelled_error msg)) (done cmd).
Definition mark (cmd : Command) : Command := mkCommand (request cmd) true (result cmd) (error cmd) (done cmd).
Definition answered (r : res exn V) (cmd : Command) : Command :=
  match r with
  | Ok v => mkCommand (request cmd) (cancelled cmd) (Some v) (error cmd) (done cmd)
  | Raise e => mkCommand (request cmd) (cancelled cmd) (result cmd) (Some e) (done cmd)
  end.
(** [finish]: the completion refuses a second result. *)
Definition finish c s : res exn Engine :=
  match commands s !! c with
  | Some cmd =>
      if done cmd then Raise (RuntimeError "InvalidStateError")
      else Ok (with_commands (<[c := mkCommand (request cmd) (cancelled cmd) (result cmd) (error cmd) true]> (commands s)) s)
  | None => Raise (RuntimeError "unknown command")
  end.
(** [discard_cancelled] under the queue's mutex; [gone]: what the contexts of the queued
    commands raise. *)
Definition leaves (gone : nat → option string) (m : gmap nat Command) c : bool :=
  match m !! c with Some cmd => cancelled cmd || is_some (gone c) | None => false end.
Definition stays (gone : nat → option string) (m : gmap nat Command) (o : option nat) : bool :=
  match o with Some c => negb (leaves gone m c) | None => true end.
Definition discard (gone : nat → option string) s : list nat * Engine :=
  let removed := filter (λ c, leaves gone (commands s) c = true) (omap id (queue s)) in
  (removed,
   with_commands (map_imap (λ c cmd, Some (if bool_decide (c ∈ removed)
       then mark (abandon (if cancelled cmd then queued_message else default queued_message (gone c)) cmd) else cmd)) (commands s))
     (with_queue (filter (λ o, stays gone (commands s) o = true) (queue s)) s)).

(** ** The owner *)

Inductive Creation := Failed (e : exn) | ModelsFailed (d : D) (ready : bool) (e : exn) | Created (d : D) (ready : bool) (models : list Mo).
(** The start of [_run]. *)
Definition create (o : Creation) s : Engine :=
  match o with
  | Failed e => with_owner Exiting (with_started (ready_flag s) (model_list s) (Some e) s)
  | ModelsFailed d ready e =>
      let s := with_history (Some d) (accepted s) (served s) (with_delegate (Some d) s) in
      if closed s then with_owner Exiting s else with_owner Exiting (with_started ready (model_list s) (Some e) s)
  | Created d ready models =>
      let s := with_history (Some d) (accepted s) (served s) (with_delegate (Some d) s) in
      if closed s then with_owner Exiting s else with_owner Polling (with_started ready models (startup_error s) s)
  end.
(** [self._commands.get()] *)
Definition get s : option Engine :=
  match queue s with
  | [] => None
  | None :: q => Some (with_owner Exiting (with_queue q s))
  | Some c :: q => Some (with_owner (Serving c) (with_queue q s))
  end.
(** The body of the loop: [gone] is what the command's context raises. *)
Definition serve c (gone : option string) s : Engine :=
  match commands s !! c, delegate s with
  | Some cmd, Some d =>
      let answer r s := with_owner (Answered c) (with_commands (<[c := answered r cmd]> (commands s)) s) in
      if cancelled cmd || closed s then answer (Raise (cancelled_error queued_message)) s
      else match gone with
           | Some msg => answer (Raise (cancelled_error msg)) s
           | None =>
               let '(r, d') := method (request cmd) d in
               answer r (with_history (initial s) (accepted s) (served s ++ [c]) (with_delegate (Some d') s))
           end
  | _, _ => s
  end.
(** The outer [finally]; whatever [close] raises, the thread ends. *)
Definition stop_owner s : Engine :=
  with_owner Exited (with_delegate (match delegate s with Some d => Some (close_delegate d).2 | None => None end)
    (with_started false (model_list s) (startup_error s) s)).

(** ** Callers *)

Definition check_context t (q : Q) (gone : option string) s : Engine :=
  match gone with
  | Some msg => goto t (Returned (Raise (cancelled_error msg))) s
  | None => goto t (Sweeping ToOffer) (with_commands (<[t := mkCommand q false None None false]> (commands s)) s)
  end.
Definition proceed t (a : After) s : Engine :=
  goto t (match a with ToOffer => Offering | ToRaise msg => Returned (Raise (cancelled_error msg)) | ToJoin => Joining end) s.
(** Under the state lock: [put_nowait]. *)
Definition offer t s : Engine :=
  if closed s then goto t (Returned (Raise (RuntimeError "thread-affine engine is closed"))) s
  else if (maximum_pending s <=? length (queue s))%nat
  then goto t (Returned (Raise (InferenceEngineBusy "inference engine queue is full"))) s
  else goto t Waiting (with_history (initial s) (accepted s ++ [t]) (served s) (with_queue (queue s ++ [Some t]) s)).
(** A turn of the waiting loop; [late]: the command was finished only after the wait timed out. *)
Definition wake t (late : bool) (gone : option string) s : Engine :=
  match commands s !! t with
  | Some cmd =>
      if done cmd && negb late then
        goto t (Returned (match error cmd, result cmd with Some e, _ => Raise e | None, Some v => Ok v | None, None => Raise AssertionError end)) s
      else match gone with
           | None => s
           | Some msg => goto t (Sweeping (ToRaise msg)) (with_commands (<[t := mark cmd]> (commands s)) s)
           end
  | None => s
  end.
(** A turn of the draining loop of [_request_close], and the sentinel at its end. *)
Definition drain t (pending : list nat) s : res exn Engine :=
  match queue s with
  | Some c :: q => Ok (goto t (Draining (pending ++ [c])) (with_commands (alter (abandon "inference engine is closing") c (commands s)) (with_queue q s)))
  | None :: q => Ok (with_queue q s)
  | [] =>
      if (maximum_pending s <=? 0)%nat then Raise (RuntimeError "Full")
      else Ok (goto t (Finishing pending ToJoin) (with_closed (closed s) None (with_queue [None] s)))
  end.
Definition begin_close t s : Engine :=
  if closed s then goto t Joining s else goto t (Draining []) (with_closed true (Some t) s).

Inductive Event :=
| Create (o : Creation) | Publish | StartTimeout t | Get | Serve (gone : option string) | Answer | Stop
| Call t (q : Q) | Check_ t (gone : option string) | Sweep t (gone : nat → option string) | Finish t | Offer t | Wake t (late : bool) (gone : option string)
| Close t | BeginClose t | Drain t | Join t.
(** The transition of an event, when the threads are where it happens. *)
Definition transition (e : Event) s : option (res exn Engine) :=
  match e with
  | Create o => match owner s with Starting => Some (Ok (create o s)) | _ => None end
  | Publish =>
      match owner s, published s with
      | Starting, _ | _, Some _ => None
      | _, None => Some (Ok (with_published (Some (match startup_error s with Some _ => Raise (RuntimeError "thread-affine engine startup failed") | None => Ok () end)) s))
      end
  | StartTimeout t =>
      match published s, threads s !! t with
      | None, None => Some (Ok (goto t Closing (with_published (Some (Raise (TimeoutError "thread-affine engine startup timed out"))) s)))
      | _, _ => None
      end
  | Get => match owner s with Polling => Ok <$> get s | _ => None end
  | Serve gone => match owner s with Serving c => Some (Ok (serve c gone s)) | _ => None end
  | Answer => match owner s with Answered c => Some (match finish c s with Ok s' => Ok (with_owner Polling s') | Raise x => Raise x end) | _ => None end
  | Stop => match owner s with Exiting => Some (Ok (stop_owner s)) | _ => None end
  | Call t q => match published s, threads s !! t with Some (Ok _), None => Some (Ok (goto t (Called q) s)) | _, _ => None end
  | Close t => match published s, threads s !! t with Some (Ok _), None => Some (Ok (goto t Closing s)) | _, _ => None end
  | Check_ t gone => match threads s !! t with Some (Called q) => Some (Ok (check_context t q gone s)) | _ => None end
  | Sweep t gone => match threads s !! t with Some (Sweeping a) => let '(removed, s') := discard gone s in Some (Ok (goto t (Finishing removed a) s')) | _ => None end
  | Finish t =>
      match threads s !! t with
      | Some (Finishing [] a) => Some (Ok (proceed t a s))
      | Some (Finishing (c :: todo) a) => Some (match finish c s with Ok s' => Ok (goto t (Finishing todo a) s') | Raise x => Raise x end)
      | _ => None
      end
  | Offer t => match threads s !! t, lock s with Some Offering, None => Some (Ok (offer t s)) | _, _ => None end
  | Wake t late gone => match threads s !! t with Some Waiting => Some (Ok (wake t late gone s)) | _ => None end
  | BeginClose t => match threads s !! t, lock s with Some Closing, None => Some (Ok (begin_close t s)) | _, _ => None end
  | Drain t => match threads s !! t with Some (Draining pending) => Some (drain t pending s) | _ => None end
  | Join t => match threads s !! t with Some Joining => Some (Ok (goto t (Left (match owner s with Exited => true | _ => false end)) s)) | _ => None end
  end.
Definition step s s' : Prop := ∃ e, transition e s = Some (Ok s').
(** [ready] *)
Definition ready s : bool := ready_flag s && negb (closed s).

(** ** Where a command is *)

Inductive Place := New | InQueue | WithOwner | With (t : nat) | Over.
#[local] Instance place_eq : EqDecision Place.
Proof. solve_decision. Defined.
Definition held (o : Owner) : list nat := match o with Serving c | Answered c => [c] | _ => [] end.
Definition todo (th : Thread) : list nat := match th with Finishing l _ | Draining l => l | _ => [] end.
(** One of a result and an exception. *)
Definition has_answer (cmd : Command) : Prop := (is_Some (result cmd) ∧ error cmd = None) ∨ (result cmd = None ∧ is_Some (error cmd)).
Definition no_answer (cmd : Command) : Prop := result cmd = None ∧ error cmd = None.
Definition command_ok (o : Owner) (p : Place) (cmd : Command) : Prop :=
  match p with
  | New | InQueue => no_answer cmd ∧ done cmd = false
  | WithOwner => done cmd = false ∧ match o with Answered _ => has_answer cmd | _ => no_answer cmd end
  | With _ => done cmd = false ∧ has_answer cmd
  | Over => done cmd = true ∧ has_answer cmd
  end.
(** What the program counter of thread [t] says of its command. *)
Definition thread_ok (p : Place) (m : option Command) (th : Thread) : Prop :=
  match th with
  | Sweeping ToOffer | Finishing _ ToOffer | Offering => is_Some m ∧ p = New
  | Waiting | Sweeping (ToRaise _) | Finishing _ (ToRaise _) => is_Some m ∧ p ≠ New
  | Returned (Ok v) => ∃ cmd, m = Some cmd ∧ p = Over ∧ result cmd = Some v
  | Returned (Raise _) => True
  | Sweeping ToJoin => False
  | Called _ | Closing | Draining _ | Finishing _ ToJoin | Joining | Left _ => m = None
  end.
Record placed (P : nat → Place) s : Prop := {
  pl_queue c : Some c ∈ queue s ↔ P c = InQueue;
  pl_nodup : NoDup (omap id (queue s));
  pl_owner c : c ∈ held (owner s) ↔ P c = WithOwner;
  pl_todo t th c : threads s !! t = Some th → (c ∈ todo th ↔ P c = With t);
  pl_with c t : P c = With t → is_Some (threads s !! t);
  pl_todos t th : threads s !! t = Some th → NoDup (todo th);
  pl_command c cmd : commands s !! c = Some cmd → is_Some (threads s !! c) ∧ command_ok (owner s) (P c) cmd;
  pl_new c : commands s !! c = None → P c = New;
  pl_thread t th : threads s !! t = Some th → thread_ok (P t) (commands s !! t) th;
}.
Definition at_place c p (P : nat → Place) : nat → Place := λ x, if decide (x = c) then p else P x.

Lemma placed_ext P s s' : queue s' = queue s → commands s' = commands s → owner s' = owner s → threads s' = threads s → placed P s → placed P s'.
Proof. intros E1 E2 E3 E4 []. split; rewrite ?E1, ?E2, ?E3, ?E4; done. Qed.
(** A thread moves on with the same commands in its hands. *)
Lemma placed_goto P t th s : placed P s → (∀ c, c ∈ todo th ↔ P c = With t) → NoDup (todo th) → thread_ok (P t) (commands s !! t) th → placed P (goto t th s).
Proof.
  intros [] Htodo Hnd Hok. split; cbn; try done.
  - intros u th' c [[<- <-]|[_ Hu]]%lookup_insert_Some; [apply Htodo|by apply pl_todo0].
  - intros c u Hc%pl_with0. rewrite lookup_insert_is_Some. destruct (decide (t = u)); auto.
  - intros u th' [[<- <-]|[_ Hu]]%lookup_insert_Some; [done|by eapply pl_todos0].
  - intros c cmd Hc. destruct (pl_command0 c cmd Hc) as [Ht Hcmd]. split; [|done]. rewrite lookup_insert_is_Some. destruct (decide (t = c)); auto.
  - intros u th' [[<- <-]|[_ Hu]]%lookup_insert_Some; [done|by apply pl_thread0].
Qed.
Lemma placed_goto_same P t th th' s : placed P s → threads s !! t = Some th → todo th' = todo th → thread_ok (P t) (commands s !! t) th' → placed P (goto t th' s).
Proof.
  intros Hp Ht Htodo Hok. apply placed_goto; [done| | |done]; rewrite Htodo.
  - intros c. by apply (pl_todo _ _ Hp).
  - by eapply (pl_todos _ _ Hp).
Qed.
Lemma placed_goto_new P t th s : placed P s → threads s !! t = None → todo th = [] → thread_ok New None th → placed P (goto t th s).
Proof.
  intros Hp Ht Htodo Hok. assert (Hc : commands s !! t = None).
  { destruct (commands s !! t) eqn:E; [|done]. destruct (pl_command _ _ Hp _ _ E) as [[? ?] _]. congruence. }
  apply placed_goto; [done| | |]; rewrite ?Htodo.
  - intros c. rewrite elem_of_nil. split; [done|]. intros Hw%(pl_with _ _ Hp). destruct Hw as [? ?]. congruence.
  - apply NoDup_nil_2.
  - by rewrite (pl_new _ _ Hp _ Hc), Hc.
Qed.
(** The owner moves on between phases that hold the same command. *)
Lemma placed_owner P o s : placed P s → (∀ c, c ∈ held o ↔ P c = WithOwner) → (∀ c cmd, commands s !! c = Some cmd → P c = WithOwner → command_ok o WithOwner cmd) → placed P (with_owner o s).
Proof.
  intros [] Hheld Hok. split; cbn; try done. intros c cmd Hc. destruct (pl_command0 c cmd Hc) as [Ht Hcmd]. split; [done|].
  destruct (P c) eqn:E; try done. by apply (Hok c).
Qed.
Lemma placed_idle P o s : placed P s → held (owner s) = [] → held o = [] → placed P (with_owner o s).
Proof.
  intros Hp Hs Ho. assert (Hno : ∀ c, P c ≠ WithOwner) by (intros c Hc%(pl_owner _ _ Hp); rewrite Hs in Hc; by apply elem_of_nil in Hc).
  apply placed_owner; [done| |by intros c cmd _ Hc%Hno]. intros c. rewrite Ho, elem_of_nil. split; [done|]. by intros ?%Hno.
Qed.
(** A command is rewritten in its place. *)
Lemma placed_command P c cmd cmd' s : placed P s → commands s !! c = Some cmd → command_ok (owner s) (P c) cmd' →
  (∀ v, result cmd = Some v → result cmd' = Some v) → placed P (with_commands (<[c := cmd']> (commands s)) s).
Proof.
  intros Hp Hc Hok Hres. pose proof (pl_thread _ _ Hp) as Hth. destruct Hp. split; cbn; try done.
  - intros x cmdx [[<- <-]|[_ Hx]]%lookup_insert_Some; [|by apply pl_command0]. split; [|done]. by apply (pl_command0 c cmd).
  - intros x [Hx _]%lookup_insert_None. by apply pl_new0.
  - intros t th Ht. specialize (Hth t th Ht). destruct (decide (t = c)) as [->|Hne]; [|by rewrite lookup_insert_ne by done].
    rewrite lookup_insert_eq. rewrite Hc in Hth. destruct th as [| [] |? []| | |[v|]| | | |]; cbn in *; naive_solver.
Qed.

(** *** Moves *)

Lemma at_place_eq c p P : at_place c p P c = p.
Proof. unfold at_place. by rewrite decide_True. Qed.
Lemma at_place_ne c p P x : x ≠ c → at_place c p P x = P x.
Proof. intros Hx. unfold at_place. by rewrite decide_False. Qed.
Lemma elem_omap_id (q : list (option nat)) c : c ∈ omap id q ↔ Some c ∈ q.
Proof. rewrite list_elem_of_omap. split; [intros (o & Ho & He); cbn in He; by subst o|by exists (Some c)]. Qed.
Lemma thread_ok_over p m th : thread_ok p m th → p ≠ New → p ≠ Over → thread_ok Over m th.
Proof. destruct th as [|[]|? []| | |[]| | | |]; cbn; try done; naive_solver. Qed.
Lemma thread_ok_move p p' m th : thread_ok p m th → p ≠ New → p ≠ Over → p' ≠ New → thread_ok p' m th.
Proof. destruct th as [|[]|? []| | |[]| | | |]; cbn; try done; naive_solver. Qed.

(** The owner takes the first command. *)
Lemma placed_served P c q s : placed P s → queue s = Some c :: q → owner s = Polling →
  placed (at_place c WithOwner P) (with_owner (Serving c) (with_queue q s)).
Proof.
  intros [] Hq Ho. assert (Hc : P c = InQueue) by (apply pl_queue0; rewrite Hq; by left). rewrite Hq in pl_nodup0. cbn in pl_nodup0. apply NoDup_cons in pl_nodup0 as [Hout Hnd].
  assert (Hno : ∀ x, P x ≠ WithOwner) by (intros x Hx%pl_owner0; rewrite Ho in Hx; by apply elem_of_nil in Hx).
  split; cbn; try done; unfold at_place.
  - intros x. destruct (decide (x = c)) as [->|Hne]; [split; [|done]; by intros Hin%elem_omap_id|]. rewrite <-pl_queue0, Hq, elem_of_cons. naive_solver.
  - intros x. rewrite list_elem_of_singleton. destruct (decide (x = c)) as [->|Hne]; [done|]. split; [done|by intros ?%Hno].
  - intros t th x Ht. rewrite (pl_todo0 t th x Ht). destruct (decide (x = c)) as [->|Hne]; [by rewrite Hc|done].
  - intros x t. destruct (decide (x = c)); [done|apply pl_with0].
  - intros x cmd Hx. destruct (pl_command0 x cmd Hx) as [Ht Hok]. split; [done|]. destruct (decide (x = c)) as [->|Hne]; [rewrite Hc in Hok; cbn in *; tauto|].
    destruct (P x) eqn:E; try done. by apply Hno in E.
  - intros x Hx. destruct (decide (x = c)) as [->|Hne]; [|by apply pl_new0]. by rewrite (pl_new0 _ Hx) in Hc.
  - intros t th Ht. destruct (decide (t = c)) as [->|Hne]; [|by apply pl_thread0]. eapply (thread_ok_move (P c)); [by apply pl_thread0|by rewrite Hc..|done].
Qed.
(** A finished command is nobody's. *)
Lemma placed_finished P c cmd s : placed P s → commands s !! c = Some cmd → (P c = WithOwner ∨ ∃ t, P c = With t) → has_answer cmd →
  ∀ s', queue s' = queue s → commands s' = <[c := mkCommand (request cmd) (cancelled cmd) (result cmd) (error cmd) true]> (commands s) →
  (∀ x, x ∈ held (owner s') ↔ x ∈ held (owner s) ∧ x ≠ c) → ((owner s' = owner s) ∨ held (owner s') = []) →
  (∀ t, is_Some (threads s' !! t) ↔ is_Some (threads s !! t)) →
  (∀ t th', threads s' !! t = Some th' → ∃ th, threads s !! t = Some th ∧ (∀ x, x ∈ todo th' ↔ x ∈ todo th ∧ x ≠ c) ∧ (NoDup (todo th) → NoDup (todo th')) ∧
    (∀ p m, thread_ok p m th → thread_ok p m th')) →
  placed (at_place c Over P) s'.
Proof.
  intros [] Hc Hplace Ha s' Eq Ec Ho Ho' Hdom Hth. assert (Hpc : P c ≠ New ∧ P c ≠ Over ∧ P c ≠ InQueue) by (destruct Hplace as [->|[t ->]]; done).
  split; rewrite ?Eq, ?Ec; try done; unfold at_place.
  - intros x. rewrite pl_queue0. destruct (decide (x = c)) as [->|Hne]; [|done]. split; [by intros ?%Hpc|done].
  - intros x. rewrite Ho, pl_owner0. destruct (decide (x = c)) as [->|Hne]; naive_solver.
  - intros t th' x Ht. destruct (Hth t th' Ht) as (th & Ht0 & Htodo & _). rewrite Htodo, (pl_todo0 t th x Ht0). destruct (decide (x = c)) as [->|Hne]; naive_solver.
  - intros x t. destruct (decide (x = c)); [done|]. rewrite Hdom. apply pl_with0.
  - intros t th' Ht. destruct (Hth t th' Ht) as (th & Ht0 & _ & Hnd & _). by apply Hnd, (pl_todos0 t).
  - intros x cmdx [[<- <-]|[Hne Hx]]%lookup_insert_Some.
    + rewrite decide_True, Hdom by done. split; [by apply (pl_command0 c cmd)|done].
    + rewrite decide_False, Hdom by done. destruct (pl_command0 x cmdx Hx) as [Ht Hok]. split; [done|]. destruct Ho' as [->|Hnil]; [done|].
      destruct (P x) eqn:E; try done. apply pl_owner0 in E. assert (Hx' : x ∈ held (owner s')) by (by apply Ho). rewrite Hnil in Hx'. by apply elem_of_nil in Hx'.
  - intros x [Hx Hne]%lookup_insert_None. rewrite decide_False by done. by apply pl_new0.
  - intros t th' Ht. destruct (Hth t th' Ht) as (th & Ht0 & _ & _ & Himp). apply Himp. specialize (pl_thread0 t th Ht0). destruct (decide (t = c)) as [->|Hne].
    + rewrite lookup_insert_eq. apply (thread_ok_move (P c)); try apply Hpc; [|done]. rewrite Hc in pl_thread0.
      destruct th as [|[]|? []| | |[v|]| | | |]; cbn in *; naive_solver.
    + by rewrite lookup_insert_ne by done.
Qed.
(** Queued commands move into a thread's hands, with an exception each. *)
Lemma placed_taken P t th th' (taken : list nat) q m s : placed P s → threads s !! t = Some th → NoDup taken →
  (∀ c, c ∈ taken → P c = InQueue) → (∀ c, Some c ∈ q ↔ Some c ∈ queue s ∧ c ∉ taken) → NoDup (omap id q) →
  (∀ c, c ∉ taken → m !! c = commands s !! c) →
  (∀ c, c ∈ taken → ∃ cmd cmd', commands s !! c = Some cmd ∧ m !! c = Some cmd' ∧ result cmd' = result cmd ∧ done cmd' = done cmd ∧ is_Some (error cmd')) →
  todo th' = todo th ++ taken → (∀ p x, thread_ok p x th → thread_ok p x th') →
  placed (λ c, if decide (c ∈ taken) then With t else P c) (goto t th' (with_commands m (with_queue q s))).
Proof.
  intros [] Ht Hnd Htaken Hq Hndq Hm Hm' Htodo Himp. split; cbn; try done.
  - intros c. rewrite Hq, pl_queue0. destruct (decide (c ∈ taken)); naive_solver.
  - intros c. rewrite pl_owner0. destruct (decide (c ∈ taken)) as [Hin|]; [|done]. rewrite (Htaken c Hin). done.
  - intros u th0 c [[<- <-]|[Hne Hu]]%lookup_insert_Some.
    + rewrite Htodo, elem_of_app, (pl_todo0 t th c Ht). destruct (decide (c ∈ taken)); naive_solver.
    + rewrite (pl_todo0 u th0 c Hu). destruct (decide (c ∈ taken)) as [Hin|]; [|done]. rewrite (Htaken c Hin). naive_solver.
  - intros c u Hc. rewrite lookup_insert_is_Some. destruct (decide (t = u)) as [->|]; [by left|]. right. split; [done|]. destruct (decide (c ∈ taken)); [congruence|by apply (pl_with0 c)].
  - intros u th0 [[<- <-]|[Hne Hu]]%lookup_insert_Some; [|by apply (pl_todos0 u)]. rewrite Htodo. apply NoDup_app. split_and!; [by apply (pl_todos0 t)| |done].
    intros c Hc%(pl_todo0 t th c Ht) Hin. by rewrite (Htaken c Hin) in Hc.
  - intros c cmd' Hc. rewrite lookup_insert_is_Some. assert (Hth : ∀ u, is_Some (threads s !! u) → t = u ∨ t ≠ u ∧ is_Some (threads s !! u)) by (intros u; destruct (decide (t = u)); auto).
    destruct (decide (c ∈ taken)) as [Hin|Hin].
    + destruct (Hm' c Hin) as (cmd & cmd0 & E & E' & Hr & Hd & He). assert (cmd0 = cmd') as -> by congruence. destruct (pl_command0 c cmd E) as [Hs Hok].
      rewrite (Htaken c Hin) in Hok. destruct Hok as [[Hr0 _] Hd0]. split; [by apply Hth|]. split; [congruence|]. right. split; [congruence|done].
    + rewrite (Hm c Hin) in Hc. destruct (pl_command0 c cmd' Hc) as [Hs Hok]. split; [by apply Hth|done].
  - intros c Hc. destruct (decide (c ∈ taken)) as [Hin|Hin]; [|apply pl_new0; by rewrite <-Hm]. destruct (Hm' c Hin) as (cmd & cmd0 & E & E' & _). congruence.
  - assert (Hgen : ∀ u th0, threads s !! u = Some th0 → thread_ok (if decide (u ∈ taken) then With t else P u) (m !! u) th0).
    { intros u th0 Hu. specialize (pl_thread0 u th0 Hu). destruct (decide (u ∈ taken)) as [Hin|Hin]; [|by rewrite Hm].
      destruct (Hm' u Hin) as (cmd & cmd0 & E & E' & _). rewrite (Htaken u Hin), E in pl_thread0. rewrite E'.
      destruct th0 as [|[]|? []| | |[v|]| | | |]; cbn in *; try done; naive_solver. }
    intros u th0 [[<- <-]|[Hne Hu]]%lookup_insert_Some; [by apply Himp, Hgen|by apply Hgen].
Qed.
(** A command is queued. *)
Lemma placed_offered P t s h : placed P s → threads s !! t = Some Offering →
  placed (at_place t InQueue P) (goto t Waiting (with_history (initial s) h (served s) (with_queue (queue s ++ [Some t]) s))).
Proof.
  intros [] Ht. pose proof (pl_thread0 t _ Ht) as [[cmd Hcmd] Hnew]. assert (Hnq : t ∉ omap id (queue s)) by (rewrite elem_omap_id, pl_queue0, Hnew; done).
  split; cbn; try done; unfold at_place.
  - intros c. rewrite elem_of_app, list_elem_of_singleton, pl_queue0. destruct (decide (c = t)) as [->|]; naive_solver.
  - rewrite omap_app. cbn. apply NoDup_app. split_and!; [done| |apply NoDup_singleton]. intros c Hc Hin. apply list_elem_of_singleton in Hin as ->. done.
  - intros c. rewrite pl_owner0. destruct (decide (c = t)) as [->|]; [by rewrite Hnew|done].
  - intros u th c [[<- <-]|[Hne Hu]]%lookup_insert_Some; cbn.
    + rewrite elem_of_nil. destruct (decide (c = t)) as [->|]; [done|]. rewrite <-(pl_todo0 t _ c Ht). cbn. by rewrite elem_of_nil.
    + rewrite (pl_todo0 u th c Hu). destruct (decide (c = t)) as [->|]; [by rewrite Hnew|done].
  - intros c u Hc. rewrite lookup_insert_is_Some. destruct (decide (t = u)); [by left|]. right. split; [done|]. destruct (decide (c = t)); [done|by apply (pl_with0 c)].
  - intros u th [[<- <-]|[Hne Hu]]%lookup_insert_Some; [apply NoDup_nil_2|by apply (pl_todos0 u)].
  - intros c cmdc Hc. destruct (pl_command0 c cmdc Hc) as [Hs Hok]. rewrite lookup_insert_is_Some. split; [destruct (decide (t = c)); auto|].
    destruct (decide (c = t)) as [->|]; [|done]. by rewrite Hnew in Hok.
  - intros c Hc. destruct (decide (c = t)) as [->|]; [congruence|by apply pl_new0].
  - intros u th [[<- <-]|[Hne Hu]]%lookup_insert_Some; [by rewrite decide_True, Hcmd by done|]. rewrite decide_False by done. by apply pl_thread0.
Qed.

(** *** Every transition keeps commands in their places *)

Definition settled (r : res exn Engine) : Prop := ∃ s' P', r = Ok s' ∧ placed P' s'.
Lemma settled_ok P s : placed P s → settled (Ok s).
Proof. intros Hp. by exists s, P. Qed.
#[local] Hint Resolve settled_ok : core.
Lemma create_placed P o s : placed P s → owner s = Starting → settled (Ok (create o s)).
Proof.
  intros Hp Ho. apply (settled_ok P). assert (Hidle : ∀ s' o', queue s' = queue s → commands s' = commands s → owner s' = owner s → threads s' = threads s → held o' = [] →
    placed P (with_owner o' s')).
  { intros s' o' E1 E2 E3 E4 Hh. apply placed_idle; [by apply (placed_ext P s)|by rewrite E3, Ho|done]. }
  destruct o; cbn; try destruct (closed s); by apply Hidle.
Qed.
Lemma get_placed P s s' : placed P s → owner s = Polling → get s = Some s' → settled (Ok s').
Proof.
  intros Hp Ho. unfold get. destruct (queue s) as [|[c|] q] eqn:Hq; [done| |]; intros [= <-].
  - eapply settled_ok. by apply placed_served.
  - apply (settled_ok P). apply placed_idle; [|by cbn; rewrite Ho|done]. destruct Hp. rewrite Hq in pl_queue0, pl_nodup0. split; cbn; try done.
    intros c. rewrite <-pl_queue0, elem_of_cons. naive_solver.
Qed.
Lemma serve_placed P s c gone : placed P s → owner s = Serving c → settled (Ok (serve c gone s)).
Proof.
  intros Hp Ho. unfold serve. destruct (commands s !! c) as [cmd|] eqn:Hc; [|by eauto]. destruct (delegate s) as [d|]; [|by eauto].
  assert (Hw : P c = WithOwner) by (apply (pl_owner _ _ Hp); rewrite Ho; by left).
  destruct (pl_command _ _ Hp c cmd Hc) as [_ Hok]. rewrite Hw, Ho in Hok. destruct Hok as [Hd [Hr He]].
  assert (Hans : ∀ r s', queue s' = queue s → commands s' = commands s → threads s' = threads s → owner s' = owner s →
    settled (Ok (with_owner (Answered c) (with_commands (<[c := answered r cmd]> (commands s')) s')))).
  { intros r s' E1 E2 E3 E4. apply (settled_ok P). assert (Hp' : placed P s') by by apply (placed_ext P s).
    split; cbn; try apply Hp'.
    - intros x. rewrite <-(pl_owner _ _ Hp), Ho. done.
    - intros x cmdx [[<- <-]|[Hne Hx]]%lookup_insert_Some; rewrite ?E3.
      + split; [by apply (pl_command _ _ Hp c cmd)|]. rewrite Hw. destruct r; cbn; (split; [done|]); unfold has_answer; cbn; rewrite ?Hr, ?He; eauto.
      + rewrite E2 in Hx. destruct (pl_command _ _ Hp x cmdx Hx) as [Ht Hok]. split; [done|]. destruct (P x) eqn:E; try done.
        apply (pl_owner _ _ Hp) in E. rewrite Ho in E. apply list_elem_of_singleton in E. done.
    - intros x [Hx Hne]%lookup_insert_None. apply (pl_new _ _ Hp). by rewrite <-E2.
    - intros t th Ht. rewrite E3 in Ht. rewrite E2. pose proof (pl_thread _ _ Hp t th Ht) as Hth. destruct (decide (t = c)) as [->|Hne]; [|by rewrite lookup_insert_ne by done].
      rewrite lookup_insert_eq. rewrite Hc in Hth. rewrite Hw in Hth |- *. destruct th as [|[]|? []| | |[v|]| | | |]; cbn in *; naive_solver. }
  cbv zeta. destruct (_ || _); [by apply Hans|]. destruct gone; [by apply Hans|]. destruct (method (request cmd) d) as [r d']. by apply Hans.
Qed.
Lemma finish_placed P c s : placed P s → (P c = WithOwner ∧ (∃ c', owner s = Answered c') ∨ ∃ t, P c = With t) →
  ∃ cmd, commands s !! c = Some cmd ∧ has_answer cmd ∧ finish c s = Ok (with_commands (<[c := mkCommand (request cmd) (cancelled cmd) (result cmd) (error cmd) true]> (commands s)) s).
Proof.
  intros Hp Hw. unfold finish. destruct (commands s !! c) as [cmd|] eqn:Hc.
  2: { rewrite (pl_new _ _ Hp c Hc) in Hw. naive_solver. }
  destruct (pl_command _ _ Hp c cmd Hc) as [_ Hok]. exists cmd. destruct Hw as [[Hw [c' Ho]]|[t Hw]]; rewrite Hw in Hok; [rewrite Ho in Hok|]; destruct Hok as [-> Ha]; done.
Qed.
Lemma answer_placed P c s : placed P s → owner s = Answered c → settled (match finish c s with Ok s' => Ok (with_owner Polling s') | Raise x => Raise x end).
Proof.
  intros Hp Ho. assert (Hw : P c = WithOwner) by (apply (pl_owner _ _ Hp); rewrite Ho; by left).
  destruct (finish_placed P c s Hp) as (cmd & Hc & Ha & ->); [left; eauto|]. eapply settled_ok.
  eapply (placed_finished P c cmd s Hp Hc); cbn; [by left|done..| | |done|].
  - intros x. rewrite Ho, elem_of_nil. cbn. rewrite list_elem_of_singleton. naive_solver.
  - by right.
  - intros t th Ht. exists th. split_and!; try done. intros x. split; [|by intros [? _]]. intros Hx. split; [done|]. intros ->. apply (pl_todo _ _ Hp t th c Ht) in Hx. congruence.
Qed.
Lemma omap_filter_sublist (f : option nat → bool) (q : list (option nat)) : omap id (filter (λ o, f o = true) q) `sublist_of` omap id q.
Proof.
  induction q as [|o q IH]; [done|]. rewrite filter_cons. case_decide; destruct o as [c|]; cbn; [by constructor|done|by constructor|done].
Qed.
Lemma sweep_placed P t a gone s : placed P s → threads s !! t = Some (Sweeping a) → settled (Ok (let '(removed, s') := discard gone s in goto t (Finishing removed a) s')).
Proof.
  intros Hp Ht. unfold discard. set (removed := filter _ _). cbv zeta. set (m := map_imap _ _). set (q := filter _ (queue s)).
  assert (Hrem : ∀ c, c ∈ removed ↔ Some c ∈ queue s ∧ leaves gone (commands s) c = true) by (intros c; unfold removed; rewrite list_elem_of_filter, elem_omap_id; tauto).
  assert (Hm : ∀ c, m !! c = commands s !! c ≫= λ cmd, Some (if bool_decide (c ∈ removed) then mark (abandon (if cancelled cmd then queued_message else default queued_message (gone c)) cmd) else cmd))
    by (intros c; unfold m; by rewrite map_lookup_imap).
  eapply settled_ok, (placed_taken P t (Sweeping a) (Finishing removed a) removed q m s Hp Ht).
  - apply NoDup_filter, Hp.
  - intros c [Hc _]%Hrem. by apply (pl_queue _ _ Hp).
  - intros c. unfold q. rewrite list_elem_of_filter, Hrem. cbn. destruct (leaves _ _ _); naive_solver.
  - eapply sublist_NoDup; [apply Hp|apply omap_filter_sublist].
  - intros c Hc. rewrite Hm, bool_decide_eq_false_2 by done. by destruct (commands s !! c).
  - intros c Hc. pose proof Hc as [_ Hl]%Hrem. unfold leaves in Hl. rewrite Hm, bool_decide_eq_true_2 by done. destruct (commands s !! c) as [cmd|]; [|done].
    exists cmd. eexists. split_and!; [done..|by eexists].
  - done.
  - intros p x. by destruct a.
Qed.
Lemma finishing_placed P t l a s : placed P s → threads s !! t = Some (Finishing l a) →
  settled (match l with [] => Ok (proceed t a s) | c :: todo => match finish c s with Ok s' => Ok (goto t (Finishing todo a) s') | Raise x => Raise x end end).
Proof.
  intros Hp Ht. pose proof (pl_thread _ _ Hp t _ Ht) as Hok. destruct l as [|c l].
  { apply (settled_ok P). unfold proceed. eapply placed_goto_same; [done..|by destruct a|by destruct a]. }
  assert (Hw : P c = With t) by (apply (pl_todo _ _ Hp t _ c Ht); by left). destruct (finish_placed P c s Hp) as (cmd & Hc & Ha & ->); [right; eauto|]. eapply settled_ok.
  pose proof (pl_todos _ _ Hp t _ Ht) as [Hout Hnd]%NoDup_cons.
  eapply (placed_finished P c cmd s Hp Hc); cbn; [right; eauto|done..| |by left| |].
  - intros x. split; [|by intros [? _]]. intros Hx. split; [done|]. intros ->. apply (pl_owner _ _ Hp) in Hx. congruence.
  - intros u. rewrite lookup_insert_is_Some. destruct (decide (t = u)) as [->|]; [|naive_solver]. split; [by rewrite Ht|by left].
  - intros u th' [[<- <-]|[Hne Hu]]%lookup_insert_Some.
    + eexists. split; [exact Ht|]. cbn. split_and!; [|by intros _|by destruct a]. intros x. rewrite elem_of_cons. split; [intros Hx; split; [by right|by intros ->]|naive_solver].
    + exists th'. split_and!; try done. intros x. split; [|by intros [? _]]. intros Hx. split; [done|]. intros ->. apply (pl_todo _ _ Hp u th' c Hu) in Hx. congruence.
Qed.
Lemma check_placed P t q gone s : placed P s → threads s !! t = Some (Called q) → settled (Ok (check_context t q gone s)).
Proof.
  intros Hp Ht. pose proof (pl_thread _ _ Hp t _ Ht) as Hok. cbn in Hok. apply (settled_ok P). unfold check_context. destruct gone; [by eapply placed_goto_same|].
  pose proof (pl_new _ _ Hp t Hok) as Hnew. destruct Hp. split; cbn; try done.
  - intros u th c [[<- <-]|[Hne Hu]]%lookup_insert_Some; [by rewrite <-(pl_todo0 t _ c Ht)|by apply pl_todo0].
  - intros c u Hc%pl_with0. rewrite lookup_insert_is_Some. destruct (decide (t = u)); auto.
  - intros u th [[<- <-]|[Hne Hu]]%lookup_insert_Some; [apply NoDup_nil_2|by eapply pl_todos0].
  - intros c cmd. rewrite lookup_insert_is_Some. intros [[<- <-]|[Hne Hc]]%lookup_insert_Some; [rewrite Hnew; split; [by left|by split]|].
    destruct (pl_command0 c cmd Hc) as [Hs Hcmd]. auto.
  - intros c [Hc _]%lookup_insert_None. by apply pl_new0.
  - intros u th [[<- <-]|[Hne Hu]]%lookup_insert_Some; [by rewrite lookup_insert_eq|]. rewrite lookup_insert_ne by done. by apply pl_thread0.
Qed.
Lemma offer_placed P t s : placed P s → threads s !! t = Some Offering → settled (Ok (offer t s)).
Proof.
  intros Hp Ht. pose proof (pl_thread _ _ Hp t _ Ht) as Hok. unfold offer. destruct (closed s); [|destruct (_ <=? _)%nat].
  1, 2: apply (settled_ok P); by eapply placed_goto_same.
  eapply settled_ok. by apply placed_offered.
Qed.
Lemma wake_placed P t late gone s : placed P s → threads s !! t = Some Waiting → settled (Ok (wake t late gone s)).
Proof.
  intros Hp Ht. pose proof (pl_thread _ _ Hp t _ Ht) as [[cmd Hc] Hne]. unfold wake. rewrite Hc. destruct (pl_command _ _ Hp t cmd Hc) as [_ Hok]. apply (settled_ok P).
  destruct (done cmd && negb late) eqn:Hdl.
  - apply andb_prop in Hdl as [Hd _]. eapply placed_goto_same; [done..|]. assert (Ho : P t = Over) by (destruct (P t); cbn in Hok; [done|destruct Hok; congruence..|done]). rewrite Ho, Hc in *.
    destruct Hok as [_ [[[v Hv] He]|[Hv [e He]]]]; rewrite He, ?Hv; cbn; eauto.
  - destruct gone; [|done]. assert (Hp' : placed P (with_commands (<[t := mark cmd]> (commands s)) s)) by (by apply (placed_command P t cmd)).
    eapply placed_goto_same; [done..|]. cbn. by rewrite lookup_insert_eq.
Qed.
Lemma drain_placed P t l s : placed P s → (1 <= maximum_pending s)%nat → threads s !! t = Some (Draining l) → settled (drain t l s).
Proof.
  intros Hp Hcap Ht. pose proof (pl_thread _ _ Hp t _ Ht) as Hok. unfold drain. destruct (queue s) as [|[c|] q] eqn:Hq.
  - destruct (_ <=? 0)%nat eqn:E; [apply Nat.leb_le in E; lia|]. apply (settled_ok P). eapply (placed_goto_same P t (Draining l)); [|done..].
    destruct Hp. rewrite Hq in pl_queue0. split; cbn; try done; [|by apply NoDup_nil_2]. intros x. rewrite <-pl_queue0, list_elem_of_singleton, elem_of_nil. naive_solver.
  - assert (Hc : P c = InQueue) by (apply (pl_queue _ _ Hp); rewrite Hq; by left).
    pose proof (pl_nodup _ _ Hp) as Hnd. rewrite Hq in Hnd. cbn in Hnd. apply NoDup_cons in Hnd as [Hout Hnd].
    eapply settled_ok, (placed_taken P t (Draining l) _ [c] q _ s Hp Ht); [apply NoDup_singleton|..|done|done].
    + by intros x ->%list_elem_of_singleton.
    + intros x. rewrite Hq, elem_of_cons, list_elem_of_singleton. split; [|naive_solver]. intros Hx. split; [by right|]. intros ->. by apply Hout, elem_omap_id.
    + done.
    + intros x. rewrite list_elem_of_singleton. intros Hx. by rewrite lookup_alter_ne by done.
    + intros x ->%list_elem_of_singleton. destruct (commands s !! c) as [cmd|] eqn:E; [|by rewrite (pl_new _ _ Hp c E) in Hc].
      exists cmd. eexists. rewrite lookup_alter_eq, E. split_and!; [done..|by eexists].
  - apply (settled_ok P). destruct Hp. rewrite Hq in pl_queue0, pl_nodup0. split; cbn; try done. intros x. rewrite <-pl_queue0, elem_of_cons. naive_solver.
Qed.
(** The transition's effect, for every event at once. *)
Lemma transition_placed P e s r : placed P s → (1 <= maximum_pending s)%nat → transition e s = Some r → settled r.
Proof.
  intros Hp Hcap. assert (Hst : ∀ s', queue s' = queue s → commands s' = commands s → owner s' = owner s → threads s' = threads s → placed P s') by (intros; by apply (placed_ext P s)).
  destruct e as [o| |t| |gone| | |t q|t gone|t gone|t|t|t late gone|t|t|t|t]; cbn.
  - destruct (owner s) eqn:Ho; try done. intros [= <-]. by eapply create_placed.
  - destruct (owner s) eqn:Ho, (published s); try done; intros [= <-]; apply (settled_ok P), Hst; by rewrite ?Ho.
  - destruct (published s), (threads s !! t) eqn:Ht; try done. intros [= <-]. apply (settled_ok P). by apply placed_goto_new; [apply Hst|..].
  - destruct (owner s) eqn:Ho; try done. destruct (get s) as [s'|] eqn:Hg; [|done]. intros [= <-]. by eapply get_placed.
  - destruct (owner s) eqn:Ho; try done. intros [= <-]. by eapply serve_placed.
  - destruct (owner s) eqn:Ho; try done. intros [= <-]. by eapply answer_placed.
  - destruct (owner s) eqn:Ho; try done. intros [= <-]. apply (settled_ok P). apply placed_idle; [by apply Hst|by cbn; rewrite Ho|done].
  - destruct (published s) as [[]|], (threads s !! t) eqn:Ht; try done. intros [= <-]. apply (settled_ok P). by apply placed_goto_new.
  - destruct (threads s !! t) as [[]|] eqn:Ht; try done. intros [= <-]. by eapply check_placed.
  - destruct (threads s !! t) as [[]|] eqn:Ht; try done. pose proof (sweep_placed P t a gone s Hp Ht) as Hs. unfold discard. intros [= <-]. exact Hs.
  - destruct (threads s !! t) as [[| |todo a| | | | | | |]|] eqn:Ht; try done. pose proof (finishing_placed P t todo a s Hp Ht) as Hs. destruct todo; intros [= <-]; exact Hs.
  - destruct (threads s !! t) as [[]|] eqn:Ht; try done. destruct (lock s); [done|]. intros [= <-]. by eapply offer_placed.
  - destruct (threads s !! t) as [[]|] eqn:Ht; try done. intros [= <-]. by eapply wake_placed.
  - destruct (published s) as [[]|], (threads s !! t) eqn:Ht; try done. intros [= <-]. apply (settled_ok P). by apply placed_goto_new.
  - destruct (threads s !! t) as [[]|] eqn:Ht; try done. destruct (lock s); [done|]. intros [= <-]. apply (settled_ok P). unfold begin_close.
    pose proof (pl_thread _ _ Hp t _ Ht) as Hok. destruct (closed s); eapply placed_goto_same; try done. by apply Hst.
  - destruct (threads s !! t) as [[]|] eqn:Ht; try done. intros [= <-]. by eapply drain_placed.
  - destruct (threads s !! t) as [[]|] eqn:Ht; try done. intros [= <-]. apply (settled_ok P). pose proof (pl_thread _ _ Hp t _ Ht) as Hok. by eapply placed_goto_same.
Qed.

(** ** Opening and closing *)

Definition gone_owner (o : Owner) : Prop := o = Exiting ∨ o = Exited.
Record life s : Prop := {
  lf_capacity : (1 <= maximum_pending s)%nat;
  lf_bound : (length (queue s) <= maximum_pending s)%nat;
  lf_lock t : lock s = Some t ↔ ∃ l, threads s !! t = Some (Draining l);
  lf_open : closed s = false → lock s = None ∧ None ∉ queue s;
  lf_drain : is_Some (lock s) → None ∉ queue s;
  lf_end : closed s = true → lock s = None → (∃ l, queue s = (Some <$> l) ++ [None]) ∨ (queue s = [] ∧ gone_owner (owner s));
  lf_start : owner s = Starting → published s ≠ Some (Ok ());
  lf_failed : is_Some (startup_error s) → gone_owner (owner s) ∧ published s ≠ Some (Ok ());
  lf_over : published s = Some (Ok ()) → gone_owner (owner s) → closed s = true ∧ lock s = None ∧ queue s = [];
  lf_unpublished : published s = None → closed s = false ∧ (gone_owner (owner s) → is_Some (startup_error s));
}.
Definition is_draining (th : Thread) : bool := match th with Draining _ => true | _ => false end.
(** The fields [life] looks at, other than the threads. *)
Definition same_life s s' : Prop :=
  maximum_pending s' = maximum_pending s ∧ queue s' = queue s ∧ closed s' = closed s ∧ lock s' = lock s ∧ owner s' = owner s ∧
  startup_error s' = startup_error s ∧ published s' = published s.
Lemma life_same s s' : same_life s s' → (∀ t, (∃ l, threads s' !! t = Some (Draining l)) ↔ ∃ l, threads s !! t = Some (Draining l)) → life s → life s'.
Proof. intros (E1 & E2 & E3 & E4 & E5 & E6 & E7) Ht []. split; rewrite ?E1, ?E2, ?E3, ?E4, ?E5, ?E6, ?E7; try done. intros t. by rewrite Ht. Qed.
Lemma draining_goto t th (m : gmap nat Thread) : is_draining th = false → (∀ l, m !! t ≠ Some (Draining l)) →
  ∀ u, (∃ l, <[t := th]> m !! u = Some (Draining l)) ↔ ∃ l, m !! u = Some (Draining l).
Proof.
  intros Hth Hm u. destruct (decide (t = u)) as [->|Hne]; [|by rewrite lookup_insert_ne]. rewrite lookup_insert_eq. split; [intros [l [= ->]]; done|]. intros [l Hl]. by apply Hm in Hl.
Qed.
(** A thread that does not drain moves on. *)
Lemma life_goto t th s s' : threads s' = <[t := th]> (threads s) → life s → is_draining th = false → (∀ l, threads s !! t ≠ Some (Draining l)) → same_life s s' → life s'.
Proof. intros E Hl Hth Ht Hs. apply (life_same s); [done| |done]. intros u. rewrite E. by apply draining_goto. Qed.
Lemma life_owner o s s' : life s → owner s ≠ Starting → o ≠ Starting → ¬ gone_owner o → ¬ gone_owner (owner s) → same_life s (with_owner (owner s) s') → threads s' = threads s → owner s' = o → life s'.
Proof.
  intros [] H1 H2 H3 H4 (E1 & E2 & E3 & E4 & _ & E6 & E7) Et Eo. cbn in *. split; rewrite ?E1, ?E2, ?E3, ?E4, ?E6, ?E7, ?Et, ?Eo; try done.
  - intros Hc Hk. destruct (lf_end0 Hc Hk) as [|[_ Hg]]; [by left|by destruct H4].
  - intros Hf%lf_failed0. naive_solver.
  - intros Hp%lf_unpublished0. naive_solver.
Qed.
Lemma life_started s s' : life s → owner s = Starting →
  maximum_pending s' = maximum_pending s → queue s' = queue s → closed s' = closed s → lock s' = lock s → published s' = published s → threads s' = threads s →
  (owner s' = Polling ∧ startup_error s' = None) ∨ (owner s' = Exiting ∧ (closed s = true ∨ is_Some (startup_error s'))) → life s'.
Proof.
  intros [] Ho E1 E2 E3 E4 E5 E6 Hcase. specialize (lf_start0 Ho). split; rewrite ?E1, ?E2, ?E3, ?E4, ?E5, ?E6; try done.
  - intros Hc Hk. destruct (lf_end0 Hc Hk) as [|[_ [Hx|Hx]]]; [by left|congruence..].
  - intros He. split; [|done]. destruct Hcase as [[_ He']|[-> _]]; [rewrite He' in He; by destruct He|by left].
  - intros Hp%lf_unpublished0. destruct Hp as [Hc _]. split; [done|]. intros Hg. destruct Hcase as [[Ho' _]|[_ [|]]]; [|congruence|done]. destruct Hg; congruence.
Qed.
Lemma life_create o s : life s → owner s = Starting → life (create o s).
Proof.
  intros Hl Ho. assert (Hns : startup_error s = None).
  { destruct (startup_error s) eqn:E; [|done]. destruct (lf_failed _ Hl) as [[Hx|Hx] _]; [by eexists|congruence..]. }
  apply (life_started s); try done; destruct o as [e|d b e|d b ms]; cbn; try done; try (destruct (closed s) eqn:Hc; cbn; congruence).
  - right. split; [done|]. right. by eexists.
  - destruct (closed s) eqn:Hc; cbn; right; (split; [done|]); [by left|right; by eexists].
  - destruct (closed s) eqn:Hc; cbn; [right; split; [done|by left]|by left].
Qed.
Lemma polling_stays s : owner s = Polling → ¬ gone_owner (owner s).
Proof. intros -> [|]; done. Qed.
Lemma life_get_command c q s : life s → owner s = Polling → queue s = Some c :: q → life (with_owner (Serving c) (with_queue q s)).
Proof.
  intros Hl Ho Hq. apply (life_owner (Serving c) (with_queue q s)); cbn; try done; [|by rewrite Ho|by intros [|]|by apply polling_stays].
  destruct Hl. rewrite Hq in *. split; cbn in *; try done; try lia.
  - intros [Hk Hn]%lf_open0. split; [done|]. intros Hin. apply Hn. by right.
  - intros Hk%lf_drain0 Hin. apply Hk. by right.
  - intros Hc Hk. destruct (lf_end0 Hc Hk) as [[l Hx]|[? _]]; [|done]. left. destruct l as [|x l]; cbn in Hx; [done|]. injection Hx as _ Hx. eauto.
  - intros _ Hg. by destruct (polling_stays s Ho).
Qed.
(** The sentinel is the last in the queue. *)
Lemma life_get_sentinel q s : life s → owner s = Polling → queue s = None :: q → life (with_owner Exiting (with_queue q s)).
Proof.
  intros [] Ho Hq. rewrite Hq in *. assert (Hc : closed s = true) by (destruct (closed s); [done|]; destruct (lf_open0 eq_refl) as [_ Hn]; destruct Hn; by left).
  assert (Hk : lock s = None) by (destruct (lock s); [|done]; destruct (lf_drain0 ltac:(by eexists)); by left).
  assert (Hnil : q = []) by (destruct (lf_end0 Hc Hk) as [[[|x l] Hx]|[? _]]; cbn in *; [by injection Hx|done..]). subst q. split; cbn; try done; try congruence.
  - lia.
  - rewrite Hk. by intros [].
  - intros _ _. right. split; [done|by left].
  - intros He. destruct (lf_failed0 He) as [Hg _]. by destruct (polling_stays s Ho).
  - intros Hp. destruct (lf_unpublished0 Hp). congruence.
Qed.
Lemma life_get s s' : life s → owner s = Polling → get s = Some s' → life s'.
Proof.
  intros Hl Ho. unfold get. destruct (queue s) as [|[c|] q] eqn:Hq; [done| |]; intros [= <-]; [by apply life_get_command|by apply life_get_sentinel].
Qed.
Lemma life_sweep t a gone s : life s → threads s !! t = Some (Sweeping a) → life (let '(removed, s') := discard gone s in goto t (Finishing removed a) s').
Proof.
  intros Hl Ht. unfold discard. cbv zeta. eapply (life_goto t _ (with_queue (filter (λ o, stays gone (commands s) o = true) (queue s)) s) _); [done| |done| |done].
  2: { cbn. rewrite Ht. by intros l [=]. }
  destruct Hl. assert (Hsub : ∀ o, o ∈ filter (λ o, stays gone (commands s) o = true) (queue s) → o ∈ queue s) by (intros o Hin; by apply list_elem_of_filter in Hin as [_ ?]).
  split; cbn; try done.
  - etrans; [apply length_filter|done].
  - intros [Hk Hn]%lf_open0. auto.
  - intros Hk%lf_drain0. auto.
  - intros Hc Hk. destruct (lf_end0 Hc Hk) as [[l Hx]|[Hx Hg]]; rewrite Hx; [left|by right]. rewrite filter_app. cbn.
    exists (filter (λ c, stays gone (commands s) (Some c) = true) l). f_equal. clear. induction l as [|c l IH]; [done|]. cbn [fmap list_fmap]. rewrite !filter_cons. case_decide; [|by apply IH].
    cbn. by f_equal.
  - intros Hp Hg. destruct (lf_over0 Hp Hg) as (? & ? & ->). done.
Qed.
Lemma life_offer t s : life s → threads s !! t = Some Offering → lock s = None → life (offer t s).
Proof.
  intros Hl Ht Hk. assert (Hnd : ∀ l, threads s !! t ≠ Some (Draining l)) by (rewrite Ht; by intros l [=]). unfold offer.
  destruct (closed s) eqn:Hc; [|destruct (_ <=? _)%nat eqn:Hf]. 1, 2: by eapply (life_goto t _ s).
  apply Nat.leb_gt in Hf. eapply (life_goto t Waiting (with_queue (queue s ++ [Some t]) s)); [done| |done|done|done].
  destruct Hl. split; cbn; try done; try congruence.
  - rewrite length_app. cbn. lia.
  - intros _. split; [done|]. destruct (lf_open0 Hc) as [_ Hn]. by intros [?|Hin%list_elem_of_singleton]%elem_of_app.
  - rewrite Hk. by intros [].
  - intros Hp Hg. destruct (lf_over0 Hp Hg). congruence.
Qed.
Lemma life_begin_close t s : life s → threads s !! t = Some Closing → lock s = None → published s ≠ None → life (begin_close t s).
Proof.
  intros Hl Ht Hk Hpub. assert (Hnd : ∀ l, threads s !! t ≠ Some (Draining l)) by (rewrite Ht; by intros l [=]). unfold begin_close.
  destruct (closed s) eqn:Hc; [by eapply (life_goto t _ s)|]. destruct Hl. split; cbn; try done.
  - intros u. split; [intros [= <-]; rewrite lookup_insert_eq; eauto|]. intros [l Hl]. apply lookup_insert_Some in Hl as [[-> _]|[_ Hl]]; [done|].
    assert (Hx : lock s = Some u) by (apply lf_lock0; eauto). congruence.
  - intros _. by apply lf_open0.
  - intros Hp Hg. destruct (lf_over0 Hp Hg). congruence.
Qed.
Lemma life_drain t l s s' : life s → threads s !! t = Some (Draining l) → drain t l s = Ok s' → life s'.
Proof.
  intros Hl Ht. assert (Hk : lock s = Some t) by (apply (lf_lock _ Hl); eauto). assert (Hc : closed s = true) by (destruct (closed s) eqn:E; [done|]; destruct (lf_open _ Hl E); congruence).
  destruct Hl. assert (Hn : None ∉ queue s) by (apply lf_drain0; eauto). unfold drain. destruct (queue s) as [|[c|] q] eqn:Hq.
  - destruct (_ <=? 0)%nat eqn:E; [done|]. apply Nat.leb_gt in E. intros [= <-]. split; cbn; try done; try congruence.
    + intros u. split; [done|]. intros [l' Hl]. apply lookup_insert_Some in Hl as [[-> Hx]|[Hne Hl]]; [done|]. assert (Hx : lock s = Some u) by (apply lf_lock0; eauto). congruence.
    + intros _ _. left. by exists [].
    + intros Hp Hg. destruct (lf_over0 Hp Hg) as (_ & ? & _). congruence.
  - intros [= <-]. assert (Hn' : None ∉ q) by (intros Hin; apply Hn; by right). split; cbn in *; try done; try congruence; try lia.
    + intros u. rewrite Hk. split; [intros [= <-]; rewrite lookup_insert_eq; eauto|]. intros [l' Hl]. apply lookup_insert_Some in Hl as [[-> _]|[_ Hl]]; [done|].
      rewrite <-Hk. apply lf_lock0. eauto.
    + intros Hp Hg. destruct (lf_over0 Hp Hg) as (_ & ? & _). congruence.
  - destruct Hn. by left.
Qed.
Lemma life_publish s : life s → owner s ≠ Starting → published s = None →
  life (with_published (Some (match startup_error s with Some _ => Raise (RuntimeError "thread-affine engine startup failed") | None => Ok () end)) s).
Proof.
  intros [] Ho Hp. destruct (lf_unpublished0 Hp) as [Hc Hg]. split; cbn; try done.
  - intros He. split; [by apply lf_failed0|]. by destruct He as [e ->].
  - intros Hx Hgo. destruct (Hg Hgo) as [e He]. by rewrite He in Hx.
Qed.
Lemma life_stop s : life s → owner s = Exiting → life (stop_owner s).
Proof.
  intros [] Ho. rewrite Ho in *. assert (Hg : gone_owner Exiting ∧ gone_owner Exited) by (split; [by left|by right]). destruct Hg as [Hg Hg']. split; cbn; try done.
  - intros Hc Hk. destruct (lf_end0 Hc Hk) as [|[? _]]; [by left|by right].
  - intros He. destruct (lf_failed0 He) as [_ ?]. done.
  - intros Hp _. by apply lf_over0.
  - intros Hp. destruct (lf_unpublished0 Hp) as [? Hu]. split; [done|]. intros _. by apply Hu.
Qed.
Lemma serve_fields c gone s : let s' := serve c gone s in
  maximum_pending s' = maximum_pending s ∧ queue s' = queue s ∧ closed s' = closed s ∧ lock s' = lock s ∧ startup_error s' = startup_error s ∧
  published s' = published s ∧ threads s' = threads s ∧ (s' = s ∨ owner s' = Answered c).
Proof.
  unfold serve. destruct (commands s !! c), (delegate s); cbn; try (split_and!; by auto). destruct (_ || _); [cbn; split_and!; by auto|].
  destruct gone; [cbn; split_and!; by auto|]. destruct (method _ _). cbn. split_and!; by auto.
Qed.
Lemma finish_fields c s s' : finish c s = Ok s' → ∃ m, s' = with_commands m s.
Proof. unfold finish. destruct (commands s !! c) as [cmd|]; [|done]. destruct (done cmd); [done|]. intros [= <-]. eauto. Qed.
Lemma not_draining s t th : threads s !! t = Some th → is_draining th = false → ∀ l, threads s !! t ≠ Some (Draining l).
Proof. intros -> Hth l [= ->]. done. Qed.
Lemma transition_life e s s' : life s → (published s = None → threads s = ∅) → transition e s = Some (Ok s') → life s'.
Proof.
  intros Hl Hpub. assert (Hmove : ∀ t th s1 th1, threads s1 = <[t := th]> (threads s) → threads s !! t = Some th1 → is_draining th1 = false → is_draining th = false → same_life s s1 → life s1).
  { intros t th s1 th1 E Ht Hd1 Hd Hs. apply (life_goto t th s); try done. by eapply not_draining. }
  assert (Hnew : ∀ t th s1, threads s !! t = None → is_draining th = false → same_life s s1 → threads s1 = <[t := th]> (threads s) → life s1).
  { intros t th s1 Ht Hd Hs E. apply (life_goto t th s); try done. by rewrite Ht. }
  destruct e as [o| |t| |gone| | |t q|t gone|t gone|t|t|t late gone|t|t|t|t]; cbn.
  - destruct (owner s) eqn:Ho; try done. intros [= <-]. by apply life_create.
  - destruct (owner s) eqn:Ho, (published s) eqn:Hp; try done; intros [= <-]; (apply life_publish; [done|by rewrite Ho|done]).
  - destruct (published s) eqn:Hp, (threads s !! t) eqn:Ht; try done. intros [= <-]. apply (life_goto t Closing (with_published (Some (Raise (TimeoutError "thread-affine engine startup timed out"))) s)); try done; [|by cbn; rewrite Ht].
    destruct Hl. destruct (lf_unpublished0 Hp) as [Hc Hu]. split; cbn; try done. intros He. split; [by apply lf_failed0|done].
  - destruct (owner s) eqn:Ho; try done. destruct (get s) as [s1|] eqn:Hg; [|done]. intros [= <-]. by apply (life_get s).
  - destruct (owner s) as [| |c| | |] eqn:Ho; try done. intros [= <-]. destruct (serve_fields c gone s) as (E1 & E2 & E3 & E4 & E5 & E6 & E7 & [->|E8]); [done|].
    apply (life_owner (Answered c) s); rewrite ?Ho; try done; by intros [|].
  - destruct (owner s) as [| | |c| |] eqn:Ho; try done. destruct (finish c s) as [s1|] eqn:Hf; [|done]. intros [= <-]. apply finish_fields in Hf as [m ->].
    apply (life_owner Polling s); rewrite ?Ho; try done; by intros [|].
  - destruct (owner s) eqn:Ho; try done. intros [= <-]. by apply life_stop.
  - destruct (published s) as [[]|], (threads s !! t) eqn:Ht; try done. intros [= <-]. by apply (Hnew t (Called q)).
  - destruct (threads s !! t) as [[]|] eqn:Ht; try done. intros [= <-]. unfold check_context. destruct gone; by eapply Hmove.
  - destruct (threads s !! t) as [[]|] eqn:Ht; try done. pose proof (life_sweep t a gone s Hl Ht) as Hs. unfold discard. intros [= <-]. exact Hs.
  - destruct (threads s !! t) as [[| |todo0 a| | | | | | |]|] eqn:Ht; try done. destruct todo0 as [|c l]; [intros [= <-]; by destruct a; eapply Hmove|].
    destruct (finish c s) as [s1|] eqn:Hf; [|done]. intros [= <-]. apply finish_fields in Hf as [m ->]. by eapply Hmove.
  - destruct (threads s !! t) as [[]|] eqn:Ht; try done. destruct (lock s) eqn:Hk; [done|]. intros [= <-]. by apply life_offer.
  - destruct (threads s !! t) as [[]|] eqn:Ht; try done. intros [= <-]. unfold wake. destruct (commands s !! t) as [cmd|]; [|done]. destruct (done cmd && negb late); [by eapply Hmove|]. destruct gone; [by eapply Hmove|done].
  - destruct (published s) as [[]|], (threads s !! t) eqn:Ht; try done. intros [= <-]. by apply (Hnew t Closing).
  - destruct (threads s !! t) as [[]|] eqn:Ht; try done. destruct (lock s) eqn:Hk; [done|]. intros [= <-]. apply life_begin_close; [done..|]. intros Hp. rewrite (Hpub Hp) in Ht. by rewrite lookup_empty in Ht.
  - destruct (threads s !! t) as [[]|] eqn:Ht; try done. intros [= Hd]. by eapply life_drain.
  - destruct (threads s !! t) as [[]|] eqn:Ht; try done. intros [= <-]. by eapply Hmove.
Qed.

(** ** What the engine was called for *)

(** The engine called for the commands of [l], one after the other. *)
Fixpoint replay (m : gmap nat Command) (d : D) (l : list nat) : list (res exn V) * D :=
  match l with
  | [] => ([], d)
  | c :: l' =>
      match m !! c with
      | Some cmd => let '(r, d') := method (request cmd) d in let '(rs, d'') := replay m d' l' in (r :: rs, d'')
      | None => replay m d l'
      end
  end.
Definition outcome_is (r : res exn V) (cmd : Command) : Prop :=
  match r with Ok v => result cmd = Some v ∧ error cmd = None | Raise e => result cmd = None ∧ error cmd = Some e end.
Definition answered_with (m : gmap nat Command) c (r : res exn V) : Prop := ∃ cmd, m !! c = Some cmd ∧ outcome_is r cmd.
(** The commands of [l] keep their requests and their answers. *)
Definition kept (m m' : gmap nat Command) (l : list nat) : Prop :=
  ∀ c cmd, c ∈ l → m !! c = Some cmd → ∃ cmd', m' !! c = Some cmd' ∧ request cmd' = request cmd ∧ result cmd' = result cmd ∧ error cmd' = error cmd.
Lemma kept_refl m l : kept m m l.
Proof. intros c cmd _ Hc. by exists cmd. Qed.
Lemma replay_kept m m' l d rs : kept m m' l → Forall2 (answered_with m) l rs → replay m' d l = replay m d l ∧ Forall2 (answered_with m') l rs.
Proof.
  intros Hk Ha. revert d. induction Ha as [|c r l rs (cmd & Hc & Ho) Ha IH]; intros d; [by split|]. destruct (Hk c cmd ltac:(by left) Hc) as (cmd' & Hc' & Hq & Hr & He).
  assert (Hk' : kept m m' l) by (intros x cmdx Hx; apply Hk; by right). cbn. rewrite Hc, Hc', Hq. destruct (method (request cmd) d) as [r' d']. destruct (IH Hk' d') as [-> Hf].
  split; [done|]. constructor; [|done]. exists cmd'. split; [done|]. destruct r; cbn in *; by rewrite Hr, He.
Qed.
Lemma replay_snoc m d l c cmd : m !! c = Some cmd →
  replay m d (l ++ [c]) = let '(rs, d') := replay m d l in let '(r, d'') := method (request cmd) d' in (rs ++ [r], d'').
Proof.
  intros Hc. revert d. induction l as [|x l IH]; intros d; cbn; [rewrite Hc; by destruct (method _ _)|]. destruct (m !! x); [|apply IH].
  destruct (method _ _) as [r d']. rewrite IH. destruct (replay m d' l) as [rs d1]. by destruct (method (request cmd) d1).
Qed.
Definition serving (o : Owner) : list nat := match o with Serving c => [c] | _ => [] end.
(** The thread has queued its command, or never will. *)
Definition past (th : Thread) : bool := match th with Called _ | Sweeping ToOffer | Finishing _ ToOffer | Offering => false | _ => true end.
Record hist s : Prop := {
  hs_threads : published s = None → threads s = ∅;
  hs_nodup : NoDup (accepted s);
  hs_past c : c ∈ accepted s → ∃ th, threads s !! c = Some th ∧ past th = true;
  hs_order : (served s ++ serving (owner s) ++ omap id (queue s)) `sublist_of` accepted s;
  hs_delegate : match owner s with
    | Starting => initial s = None ∧ delegate s = None
    | Polling | Serving _ | Answered _ => is_Some (delegate s)
    | _ => True
    end;
  hs_initial : initial s = None → delegate s = None ∧ served s = [];
  hs_replay d0 : initial s = Some d0 →
    (owner s ≠ Exited → delegate s = Some (replay (commands s) d0 (served s)).2) ∧ Forall2 (answered_with (commands s)) (served s) (replay (commands s) d0 (served s)).1;
  hs_result c cmd v : commands s !! c = Some cmd → result cmd = Some v → c ∈ served s;
}.
(** A transition that neither creates nor calls the engine nor queues a command. *)
Lemma hist_keep s s' : hist s → kept (commands s) (commands s') (served s) →
  (∀ c cmd' v, commands s' !! c = Some cmd' → result cmd' = Some v → ∃ cmd, commands s !! c = Some cmd ∧ result cmd = Some v) →
  accepted s' = accepted s → served s' = served s → initial s' = initial s → delegate s' = delegate s →
  (published s' = None → threads s' = ∅) → (∀ c th, threads s !! c = Some th → past th = true → ∃ th', threads s' !! c = Some th' ∧ past th' = true) →
  (serving (owner s') ++ omap id (queue s')) `sublist_of` (serving (owner s) ++ omap id (queue s)) →
  (owner s' = owner s ∨ owner s' = Exiting ∧ owner s ≠ Exited ∨ owner s ≠ Starting ∧ owner s ≠ Exiting ∧ owner s ≠ Exited ∧ owner s' ≠ Starting ∧ owner s' ≠ Exited) → hist s'.
Proof.
  intros [] Hk Hr E1 E2 E3 E4 Hpub Hpast Hsub Ho. split; rewrite ?E1, ?E2, ?E3, ?E4; try done.
  - intros c (th & Ht & Hth)%hs_past0. by eapply Hpast.
  - etrans; [|exact hs_order0]. by apply sublist_app.
  - destruct Ho as [->|[[-> _]|(H1 & H2 & H3 & H4 & H5)]]; [done..|]. by destruct (owner s), (owner s').
  - intros d0 Hd. destruct (hs_replay0 d0 Hd) as [Hdel Hf]. destruct (replay_kept _ _ _ d0 _ Hk Hf) as [-> Hf']. split; [|done].
    intros Hne. apply Hdel. destruct Ho as [<-|[[_ Hx]|(_ & _ & Hx & _)]]; done.
  - intros c cmd' v Hc Hv. destruct (Hr c cmd' v Hc Hv) as (cmd & Hc' & Hv'). by eapply hs_result0.
Qed.
Lemma accepted_split s : hist s → ∀ c, c ∈ served s → (c ∉ serving (owner s)) ∧ (Some c ∉ queue s).
Proof.
  intros Hh c Hc. pose proof (sublist_NoDup _ _ (hs_nodup _ Hh) (hs_order _ Hh)) as (_ & Hd & _)%NoDup_app. specialize (Hd c Hc). rewrite elem_of_app, elem_omap_id in Hd. tauto.
Qed.
Lemma hist_thread t th th' s s' : threads s' = <[t := th]> (threads s) → hist s → threads s !! t = Some th' → (past th' = true → past th = true) → published s ≠ None →
  commands s' = commands s → accepted s' = accepted s → served s' = served s → initial s' = initial s → delegate s' = delegate s →
  published s' = published s → queue s' = queue s → owner s' = owner s → hist s'.
Proof.
  intros E0 Hh Ht Hth Hpub E1 E2 E3 E4 E5 E6 E7 E8. apply (hist_keep s); rewrite ?E0, ?E1, ?E2, ?E3, ?E4, ?E5, ?E6, ?E7, ?E8; try done.
  - apply kept_refl.
  - intros c cmd v; by eauto.
  - intros c thc Hc Hp. destruct (decide (t = c)) as [->|Hne]; [|rewrite lookup_insert_ne by done; eauto]. rewrite lookup_insert_eq. simplify_eq. eauto.
  - by left.
Qed.
Lemma hist_new t th s s' : threads s' = <[t := th]> (threads s) → hist s → threads s !! t = None → commands s' = commands s → accepted s' = accepted s → served s' = served s →
  initial s' = initial s → delegate s' = delegate s → is_Some (published s') → queue s' = queue s → owner s' = owner s → hist s'.
Proof.
  intros E0 Hh Ht E1 E2 E3 E4 E5 [p E6] E7 E8. apply (hist_keep s); rewrite ?E0, ?E1, ?E2, ?E3, ?E4, ?E5, ?E6, ?E7, ?E8; try done.
  - apply kept_refl.
  - intros c cmd v; by eauto.
  - intros c thc Hc Hp. exists thc. split; [|done]. rewrite lookup_insert_ne; [done|congruence].
  - by left.
Qed.
Lemma hist_published s : hist s → ∀ t th, threads s !! t = Some th → published s ≠ None.
Proof. intros Hh t th Ht Hp. rewrite (hs_threads _ Hh Hp) in Ht. by rewrite lookup_empty in Ht. Qed.
Lemma hist_create o s : hist s → owner s = Starting → hist (create o s).
Proof.
  intros [] Ho. rewrite Ho in *. destruct hs_delegate0 as [Hi Hd]. destruct (hs_initial0 Hi) as [_ Hs]. rewrite Hs in *.
  assert (Hgo : ∀ s1, published s1 = published s → threads s1 = threads s → accepted s1 = accepted s → served s1 = served s → queue s1 = queue s → commands s1 = commands s →
    initial s1 = delegate s1 → (owner s1 = Exiting ∨ owner s1 = Polling ∧ is_Some (delegate s1)) → hist s1).
  { intros s1 E1 E2 E3 E4 E5 E6 E7 E8. rewrite Hs in E4. split; rewrite ?E1, ?E2, ?E3, ?E4, ?E5, ?E6; try done.
    - by destruct E8 as [->|[-> _]].
    - by destruct E8 as [->|[-> ?]].
    - intros Hn. rewrite E7 in Hn. done.
    - intros d0 Hd0. cbn. split; [|constructor]. intros _. congruence. }
  destruct o; cbn; try destruct (closed s); apply Hgo; cbn; rewrite ?Hi, ?Hd; auto; right; eauto.
Qed.
Lemma hist_get s s' : hist s → owner s = Polling → get s = Some s' → hist s'.
Proof.
  intros Hh Ho. assert (Hkeep : ∀ s1 o q, s1 = with_owner o (with_queue q s) → (serving o ++ omap id q) `sublist_of` omap id (queue s) → o = Exiting ∨ o ≠ Starting ∧ o ≠ Exited → hist s1).
  { intros s1 o q -> Hsub Hx. apply (hist_keep s); try done; cbn; rewrite ?Ho.
    - apply kept_refl.
    - intros c cmd v; by eauto.
    - apply Hh.
    - eauto.
    - done.
    - right. destruct Hx as [->|[? ?]]; [by left|by right]. }
  unfold get. destruct (queue s) as [|[c|] q] eqn:Hq; [done| |]; intros [= <-].
  - apply (Hkeep _ (Serving c) q); [done|done|by right].
  - apply (Hkeep _ Exiting q); [done|done|by left].
Qed.
(** The command in hand gets an answer of its own. *)
Lemma kept_insert c cmd s l : commands s !! c = Some cmd → c ∉ l → ∀ cmd', kept (commands s) (<[c := cmd']> (commands s)) l.
Proof. intros Hc Hl cmd' x cmdx Hx E. exists cmdx. rewrite lookup_insert_ne by (by intros ->). done. Qed.
Lemma hist_replayed s d : hist s → delegate s = Some d → owner s ≠ Exited →
  ∃ d0, initial s = Some d0 ∧ d = (replay (commands s) d0 (served s)).2 ∧ Forall2 (answered_with (commands s)) (served s) (replay (commands s) d0 (served s)).1.
Proof.
  intros [] Hd Ho. destruct (initial s) as [d0|] eqn:Hi; [|destruct (hs_initial0 eq_refl); congruence]. exists d0. destruct (hs_replay0 d0 eq_refl) as [Hr Hf]. specialize (Hr Ho). split_and!; [done|congruence|done].
Qed.
Lemma hist_serve P c gone s : placed P s → hist s → owner s = Serving c → hist (serve c gone s).
Proof.
  intros Hp Hh Ho. assert (Hc : P c = WithOwner) by (apply (pl_owner _ _ Hp); rewrite Ho; by left). unfold serve. destruct (commands s !! c) as [cmd|] eqn:Hcmd; [|done].
  destruct (delegate s) as [d|] eqn:Hd; [|done]. destruct (pl_command _ _ Hp c cmd Hcmd) as [_ Hok]. rewrite Hc, Ho in Hok. destruct Hok as [_ [Hr He]].
  assert (Hnot : c ∉ served s) by (intros Hin; destruct (accepted_split s Hh c Hin) as [Hx _]; rewrite Ho in Hx; apply Hx; by left).
  assert (Herr : ∀ e, hist (with_owner (Answered c) (with_commands (<[c := answered (Raise e) cmd]> (commands s)) s))).
  { intros e. apply (hist_keep s); try done; cbn; rewrite ?Ho; cbn.
    - by apply (kept_insert c cmd).
    - intros x cmdx v [[<- <-]|[Hne Hx]]%lookup_insert_Some Hv; [|eauto]. cbn in Hv. congruence.
    - apply Hh.
    - eauto.
    - by apply sublist_cons.
    - by right; right. }
  cbv zeta. destruct (_ || _); [apply Herr|]. destruct gone; [apply Herr|]. destruct (method (request cmd) d) as [r d'] eqn:Hm.
  destruct (hist_replayed s d Hh Hd) as (d0 & Hi & Hdel & Hf); [by rewrite Ho|].
  set (m' := <[c := answered r cmd]> (commands s)). destruct (replay_kept _ m' _ d0 _ (kept_insert c cmd s _ Hcmd Hnot _) Hf) as [Er Hf'].
  assert (Hc' : m' !! c = Some (answered r cmd)) by (unfold m'; by rewrite lookup_insert_eq).
  assert (Hq : request (answered r cmd) = request cmd) by by destruct r. destruct Hh. split; cbn; try done.
  - rewrite Ho in hs_order0. cbn in hs_order0. by rewrite <-(app_assoc (served s) [c]).
  - congruence.
  - intros d1 Hd1. assert (d1 = d0) as -> by congruence. fold m'. rewrite (replay_snoc m' d0 _ c _ Hc'), Er, Hq. destruct (replay (commands s) d0 (served s)) as [rs d1] eqn:Ed. cbn in Hdel, Hf'. subst d1. rewrite Hm. cbn.
    split; [done|]. apply Forall2_app; [done|]. constructor; [|done]. eexists. split; [exact Hc'|]. destruct r; cbn; rewrite ?Hr, ?He; done.
  - intros x cmdx v [[<- <-]|[Hne Hx]]%lookup_insert_Some Hv; rewrite elem_of_app; [right; by left|left; by eapply hs_result0].
Qed.
(** A command taken out of the queue is rewritten. *)
Lemma kept_queue s m : hist s → (∀ c cmd, commands s !! c = Some cmd → Some c ∉ queue s → m !! c = Some cmd) → kept (commands s) m (served s).
Proof. intros Hh Hm c cmd Hc E. exists cmd. split; [|done]. apply Hm; [done|]. by apply accepted_split. Qed.
Lemma sublist_serving s q : (omap id q) `sublist_of` omap id (queue s) → (serving (owner s) ++ omap id q) `sublist_of` (serving (owner s) ++ omap id (queue s)).
Proof. intros Hq. by apply sublist_app. Qed.
Lemma hist_sweep t a gone s : hist s → threads s !! t = Some (Sweeping a) → hist (let '(removed, s') := discard gone s in goto t (Finishing removed a) s').
Proof.
  intros Hh Ht. unfold discard. cbv zeta. set (removed := filter _ (omap id (queue s))).
  assert (Hrem : ∀ c, c ∈ removed → Some c ∈ queue s) by (intros c; unfold removed; rewrite list_elem_of_filter, elem_omap_id; by intros [_ ?]).
  apply (hist_keep s); try done; cbn.
  - apply kept_queue; [done|]. intros c cmd Hc Hq. rewrite map_lookup_imap, Hc. cbn. rewrite bool_decide_eq_false_2; [done|]. by intros ?%Hrem.
  - intros c cmd' v. rewrite map_lookup_imap. destruct (commands s !! c) as [cmd|]; [|done]. cbn. intros [= <-] Hv. exists cmd. split; [done|]. by case_bool_decide.
  - intros Hp. by destruct (hist_published s Hh t _ Ht).
  - intros c th Hc Hpast. destruct (decide (t = c)) as [->|Hne]; [|rewrite lookup_insert_ne by done; eauto]. rewrite lookup_insert_eq. rewrite Ht in Hc. injection Hc as <-. eexists. split; [done|]. by destruct a.
  - apply sublist_serving, omap_filter_sublist.
  - by left.
Qed.
Lemma hist_finish c s s' : hist s → finish c s = Ok s' → hist s'.
Proof.
  intros Hh. unfold finish. destruct (commands s !! c) as [cmd|] eqn:Hc; [|done]. destruct (done cmd); [done|]. intros [= <-]. apply (hist_keep s); try done; cbn.
  - intros x cmdx Hx E. destruct (decide (c = x)) as [->|Hne]; [|exists cmdx; by rewrite lookup_insert_ne]. rewrite lookup_insert_eq. eexists. split; [done|]. simplify_eq. done.
  - intros x cmdx v [[<- <-]|[Hne Hx]]%lookup_insert_Some Hv; eauto.
  - apply Hh.
  - eauto.
  - by left.
Qed.
Lemma hist_answer c s s' : hist s → owner s = Answered c → finish c s = Ok s' → hist (with_owner Polling s').
Proof.
  intros Hh Ho Hf. pose proof (hist_finish c s s' Hh Hf) as Hh'. apply finish_fields in Hf as [m ->]. apply (hist_keep (with_commands m s)); try done; cbn; rewrite ?Ho.
  - apply kept_refl.
  - intros x cmd v; by eauto.
  - apply Hh.
  - eauto.
  - done.
  - by right; right.
Qed.
Lemma hist_check t q gone s : hist s → threads s !! t = Some (Called q) → commands s !! t = None → hist (check_context t q gone s).
Proof.
  intros Hh Ht Hc. pose proof (hist_published s Hh t _ Ht) as Hpub. unfold check_context. destruct gone; [by eapply hist_thread|].
  assert (Hh' : hist (with_commands (<[t := mkCommand q false None None false]> (commands s)) s)).
  { apply (hist_keep s); try done; cbn.
    - intros c cmd _ E. exists cmd. rewrite lookup_insert_ne; [done|congruence].
    - intros c cmd v [[<- <-]|[Hne E]]%lookup_insert_Some Hv; [done|eauto].
    - eauto.
    - by left. }
  by eapply (hist_thread t _ _ (with_commands _ s)).
Qed.
Lemma hist_offer t s : hist s → threads s !! t = Some Offering → hist (offer t s).
Proof.
  intros Hh Ht. pose proof (hist_published s Hh t _ Ht) as Hpub. unfold offer. destruct (closed s); [|destruct (_ <=? _)%nat]; [by eapply hist_thread..|].
  destruct Hh. split; cbn; try done.
  - apply NoDup_app. split_and!; [done| |apply NoDup_singleton]. intros c Hc ->%list_elem_of_singleton. destruct (hs_past0 t Hc) as (th & E & Hp). simplify_eq.
  - intros c [Hc|Hc%list_elem_of_singleton]%elem_of_app; [|subst c; rewrite lookup_insert_eq; by eexists]. destruct (hs_past0 c Hc) as (th & E & Hp). exists th. split; [|done].
    rewrite lookup_insert_ne; [done|]. intros ->. simplify_eq.
  - rewrite omap_app, (app_assoc (serving _)), (app_assoc (served s)). apply sublist_app; [|done]. done.
Qed.
Lemma hist_wake t late gone s : hist s → threads s !! t = Some Waiting → hist (wake t late gone s).
Proof.
  intros Hh Ht. pose proof (hist_published s Hh t _ Ht) as Hpub. unfold wake. destruct (commands s !! t) as [cmd|] eqn:Hc; [|done]. destruct (done cmd && negb late); [by eapply hist_thread|].
  destruct gone; [|done]. assert (Hh' : hist (with_commands (<[t := mark cmd]> (commands s)) s)).
  { apply (hist_keep s); try done; cbn.
    - intros c cmdc _ E. destruct (decide (t = c)) as [->|Hne]; [|exists cmdc; by rewrite lookup_insert_ne]. rewrite lookup_insert_eq. simplify_eq. by eexists.
    - intros c cmdc v [[<- <-]|[Hne E]]%lookup_insert_Some Hv; eauto.
    - eauto.
    - by left. }
  by eapply (hist_thread t _ _ (with_commands _ s)).
Qed.
Lemma hist_drain t l s s' : hist s → threads s !! t = Some (Draining l) → drain t l s = Ok s' → hist s'.
Proof.
  intros Hh Ht. pose proof (hist_published s Hh t _ Ht) as Hpub. unfold drain.
  assert (Hpast : ∀ th, past th = true → ∀ c thc, threads s !! c = Some thc → past thc = true → ∃ th', <[t := th]> (threads s) !! c = Some th' ∧ past th' = true).
  { intros th Hth c thc Hc Hp. destruct (decide (t = c)) as [->|Hne]; [rewrite lookup_insert_eq; eauto|rewrite lookup_insert_ne by done; eauto]. }
  destruct (queue s) as [|[c|] q] eqn:Hq.
  - destruct (_ <=? _)%nat; [done|]. intros [= <-]. apply (hist_keep s); try done; cbn; rewrite ?Hq; try done; [apply kept_refl|intros c cmd v; by eauto|by apply Hpast|by left].
  - intros [= <-]. apply (hist_keep s); try done; cbn.
    + apply kept_queue; [done|]. intros x cmd Hx Hn. rewrite lookup_alter_ne; [done|]. intros ->. apply Hn. rewrite Hq. by left.
    + intros x cmd' v Hx Hv. destruct (decide (c = x)) as [->|Hne]; [|rewrite lookup_alter_ne in Hx by done; eauto]. rewrite lookup_alter_eq in Hx.
      destruct (commands s !! x) as [cmd|]; [|done]. cbn in Hx. injection Hx as <-. by exists cmd.
    + by apply Hpast.
    + apply sublist_serving. rewrite Hq. cbn. by apply sublist_cons.
    + by left.
  - intros [= <-]. apply (hist_keep s); try done; cbn; [apply kept_refl|intros c cmd v; by eauto|eauto|apply sublist_serving; rewrite Hq; done|by left].
Qed.
Lemma hist_stop s : hist s → owner s = Exiting → hist (stop_owner s).
Proof.
  intros [] Ho. rewrite Ho in *. split; cbn; try done.
  - intros Hi. destruct (hs_initial0 Hi) as [-> Hs]. done.
  - intros d0 Hd. destruct (hs_replay0 d0 Hd) as [_ Hf]. done.
Qed.
Lemma hist_publish p s : hist s → published s = None → hist (with_published (Some p) s).
Proof. intros [] Hp. by split. Qed.
Lemma transition_hist P e s s' : placed P s → hist s → transition e s = Some (Ok s') → hist s'.
Proof.
  intros Hp Hh. assert (Hmove : ∀ t th th1, threads s !! t = Some th1 → (past th1 = true → past th = true) → hist (goto t th s)).
  { intros t th th1 Ht Hth. eapply hist_thread; try done. by eapply hist_published. }
  destruct e as [o| |t| |gone| | |t q|t gone|t gone|t|t|t late gone|t|t|t|t]; cbn.
  - destruct (owner s) eqn:Ho; try done. intros [= <-]. by apply hist_create.
  - destruct (owner s) eqn:Ho, (published s) eqn:Hp'; try done; intros [= <-]; by apply hist_publish.
  - destruct (published s) eqn:Hp', (threads s !! t) eqn:Ht; try done. intros [= <-].
    by eapply (hist_new t Closing (with_published (Some (Raise (TimeoutError "thread-affine engine startup timed out"))) s)); [done|apply hist_publish|..].
  - destruct (owner s) eqn:Ho; try done. destruct (get s) as [s1|] eqn:Hg; [|done]. intros [= <-]. by apply (hist_get s).
  - destruct (owner s) as [| |c| | |] eqn:Ho; try done. intros [= <-]. by eapply hist_serve.
  - destruct (owner s) as [| | |c| |] eqn:Ho; try done. destruct (finish c s) as [s1|] eqn:Hf; [|done]. intros [= <-]. by eapply hist_answer.
  - destruct (owner s) eqn:Ho; try done. intros [= <-]. by apply hist_stop.
  - destruct (published s) as [[]|] eqn:Hpub, (threads s !! t) eqn:Ht; try done. intros [= <-]. by eapply hist_new.
  - destruct (threads s !! t) as [[]|] eqn:Ht; try done. intros [= <-]. apply hist_check; [done..|]. exact (pl_thread _ _ Hp t _ Ht).
  - destruct (threads s !! t) as [[]|] eqn:Ht; try done. pose proof (hist_sweep t a gone s Hh Ht) as Hs. unfold discard. intros [= <-]. exact Hs.
  - destruct (threads s !! t) as [[| |todo0 a| | | | | | |]|] eqn:Ht; try done. destruct todo0 as [|c l]; [intros [= <-]; by destruct a; eapply Hmove|].
    destruct (finish c s) as [s1|] eqn:Hf; [|done]. intros [= <-]. pose proof (hist_finish c s s1 Hh Hf) as Hh1. apply finish_fields in Hf as [m ->].
    eapply (hist_thread t _ (Finishing (c :: l) a) (with_commands m s)); try done; try (by destruct a); by eapply hist_published.
  - destruct (threads s !! t) as [[]|] eqn:Ht; try done. destruct (lock s) eqn:Hk; [done|]. intros [= <-]. by apply hist_offer.
  - destruct (threads s !! t) as [[]|] eqn:Ht; try done. intros [= <-]. by apply hist_wake.
  - destruct (published s) as [[]|] eqn:Hpub, (threads s !! t) eqn:Ht; try done. intros [= <-]. by eapply hist_new.
  - destruct (threads s !! t) as [[]|] eqn:Ht; try done. destruct (lock s) eqn:Hk; [done|]. intros [= <-]. unfold begin_close. destruct (closed s); [by eapply Hmove|].
    eapply (hist_thread t _ _ s); try done. by eapply hist_published.
  - destruct (threads s !! t) as [[]|] eqn:Ht; try done. intros [= Hd]. by eapply hist_drain.
  - destruct (threads s !! t) as [[]|] eqn:Ht; try done. intros [= <-]. by eapply Hmove.
Qed.

(** ** Calls and closes *)

Definition closer (th : Thread) : bool :=
  match th with Closing | Draining _ | Joining | Left _ | Sweeping ToJoin | Finishing _ ToJoin => true | _ => false end.
Record calls s : Prop := {
  cl_published t th : threads s !! t = Some th → closer th = false → published s = Some (Ok ());
  cl_left t : threads s !! t = Some (Left true) → owner s = Exited;
}.
Lemma calls_move t th th' s s' : calls s → threads s' = <[t := th']> (threads s) → threads s !! t = Some th → closer th' = closer th → th' ≠ Left true →
  published s' = published s → owner s' = owner s → calls s'.
Proof.
  intros [] E Ht Hc Hl E1 E2. split; rewrite ?E, ?E1, ?E2.
  - intros u thu [[<- <-]|[_ Hu]]%lookup_insert_Some Hu'; [eapply cl_published0; [done|congruence]|by eapply cl_published0].
  - intros u [[<- Hu]|[_ Hu]]%lookup_insert_Some; [done|by eapply cl_left0].
Qed.
Lemma calls_same s s' : calls s → threads s' = threads s → published s' = published s → (owner s = Exited → owner s' = Exited) → calls s'.
Proof. intros [] E E1 E2. split; rewrite ?E, ?E1; [done|]. intros u Hu. by eapply E2, cl_left0. Qed.
Lemma calls_new t th s s' : calls s → threads s' = <[t := th]> (threads s) → (closer th = false → published s' = Some (Ok ())) → th ≠ Left true →
  (published s' = published s ∨ published s = None) → owner s' = owner s → calls s'.
Proof.
  intros [] E Hc Hl E1 E2. split; rewrite ?E, ?E2.
  - intros u thu [[<- <-]|[_ Hu]]%lookup_insert_Some Hu'; [by apply Hc|]. pose proof (cl_published0 u thu Hu Hu') as Hp. destruct E1; congruence.
  - intros u [[<- Hu]|[_ Hu]]%lookup_insert_Some; [done|by eapply cl_left0].
Qed.
Lemma transition_calls e s s' : calls s → hist s → transition e s = Some (Ok s') → calls s'.
Proof.
  intros Hc Hh. destruct e as [o| |t| |gone| | |t q|t gone|t gone|t|t|t late gone|t|t|t|t]; cbn.
  - destruct (owner s) eqn:Ho; try done. intros [= <-]. apply (calls_same s); [done|..]; destruct o; cbn; try destruct (closed s); cbn; congruence.
  - destruct (owner s) eqn:Ho, (published s) eqn:Hp; try done; intros [= <-]; split; cbn; rewrite (hs_threads _ Hh Hp); intros u *; by rewrite lookup_empty.
  - destruct (published s) eqn:Hp, (threads s !! t) eqn:Ht; try done. intros [= <-]. eapply (calls_new t Closing s); try done. by right.
  - destruct (owner s) eqn:Ho; try done. destruct (get s) as [s1|] eqn:Hg; [|done]. intros [= <-]. unfold get in Hg. destruct (queue s) as [|[c|] q]; [done|..];
      injection Hg as <-; apply (calls_same s); try done; congruence.
  - destruct (owner s) as [| |c| | |] eqn:Ho; try done. intros [= <-]. destruct (serve_fields c gone s) as (_ & _ & _ & _ & _ & E6 & E7 & _). apply (calls_same s); [done..|congruence].
  - destruct (owner s) as [| | |c| |] eqn:Ho; try done. destruct (finish c s) as [s1|] eqn:Hf; [|done]. intros [= <-]. apply finish_fields in Hf as [m ->]. apply (calls_same s); [done..|congruence].
  - destruct (owner s) eqn:Ho; try done. intros [= <-]. by apply (calls_same s).
  - destruct (published s) as [[[]|]|] eqn:Hp, (threads s !! t) eqn:Ht; try done. intros [= <-]. eapply (calls_new t (Called q) s); try done. by left.
  - destruct (threads s !! t) as [[]|] eqn:Ht; try done. intros [= <-]. unfold check_context. destruct gone; by eapply calls_move.
  - destruct (threads s !! t) as [[|a| | | | | | | |]|] eqn:Ht; try done. unfold discard. intros [= <-]. eapply (calls_move t (Sweeping a)); try done; by destruct a.
  - destruct (threads s !! t) as [[| |todo0 a| | | | | | |]|] eqn:Ht; try done. destruct todo0 as [|c l]; [intros [= <-]; destruct a; by eapply calls_move|].
    destruct (finish c s) as [s1|] eqn:Hf; [|done]. intros [= <-]. apply finish_fields in Hf as [m ->]. eapply (calls_move t (Finishing (c :: l) a)); try done; by destruct a.
  - destruct (threads s !! t) as [[]|] eqn:Ht; try done. destruct (lock s) eqn:Hk; [done|]. intros [= <-]. unfold offer. destruct (closed s); [by eapply calls_move|].
    destruct (_ <=? _)%nat; by eapply calls_move.
  - destruct (threads s !! t) as [[]|] eqn:Ht; try done. intros [= <-]. unfold wake. destruct (commands s !! t) as [cmd|]; [|done]. destruct (done cmd && negb late); [by eapply calls_move|].
    destruct gone; [by eapply calls_move|done].
  - destruct (published s) as [[[]|]|] eqn:Hp, (threads s !! t) eqn:Ht; try done. intros [= <-]. eapply (calls_new t Closing s); try done. by left.
  - destruct (threads s !! t) as [[]|] eqn:Ht; try done. destruct (lock s) eqn:Hk; [done|]. intros [= <-]. unfold begin_close. destruct (closed s); by eapply calls_move.
  - destruct (threads s !! t) as [[| | | | | | |l| |]|] eqn:Ht; try done. unfold drain. intros [= Hd]. destruct (queue s) as [|[c|] q].
    + destruct (_ <=? _)%nat; [done|]. injection Hd as <-. by eapply calls_move.
    + injection Hd as <-. by eapply calls_move.
    + injection Hd as <-. by apply (calls_same s).
  - destruct (threads s !! t) as [[]|] eqn:Ht; try done. intros [= <-]. destruct Hc. split; cbn.
    + intros u thu [[<- <-]|[_ Hu]]%lookup_insert_Some; [done|by eapply cl_published0].
    + intros u [[<- Hu]|[_ Hu]]%lookup_insert_Some; [by destruct (owner s)|by eapply cl_left0].
Qed.
Lemma transition_maximum e s s' : transition e s = Some (Ok s') → maximum_pending s' = maximum_pending s.
Proof.
  destruct e as [o| |t| |gone| | |t q|t gone|t gone|t|t|t late gone|t|t|t|t]; cbn; unfold create, get, discard, check_context, offer, wake, begin_close, drain, finish;
    intros He; repeat case_match; simplify_eq/=; try done; apply (serve_fields _ _ s).
Qed.
Definition inv s : Prop := (∃ P, placed P s) ∧ life s ∧ hist s ∧ calls s.
Lemma new_engine_inv maximum timeout s : new_engine maximum timeout = Ok s → inv s ∧ maximum_pending s = Z.to_nat maximum.
Proof.
  unfold new_engine. destruct (negb _ || _) eqn:Hc; [done|]. intros [= <-]. split; [|done]. breflect. split_and!.
  - exists (λ _, New). split; cbn; try done; try (by intros *; rewrite elem_of_nil); try (by intros *; rewrite lookup_empty). apply NoDup_nil_2.
  - split; cbn; try done; try lia.
    + intros t. split; [done|]. intros [l Hl]. by rewrite lookup_empty in Hl.
    + intros _. split; [done|]. by intros ?%elem_of_nil.
    + intros _. split; [done|]. by intros [|].
  - split; cbn; try done; try (by intros *; rewrite lookup_empty). { apply NoDup_nil_2. } by intros c ?%elem_of_nil.
  - by split; cbn; intros *; rewrite lookup_empty.
Qed.
Lemma engine_transition_inv e s r : inv s → transition e s = Some r → ∃ s', r = Ok s' ∧ inv s' ∧ maximum_pending s' = maximum_pending s.
Proof.
  intros ([P Hp] & Hl & Hh & Hc) He. destruct (transition_placed P e s r Hp (lf_capacity _ Hl) He) as (s' & P' & -> & Hp'). exists s'. split; [done|].
  split; [|by eapply transition_maximum]. split_and!; [by exists P'|..].
  - apply (transition_life e s); [done| |done]. by apply hs_threads.
  - by apply (transition_hist P e s).
  - by apply (transition_calls e s).
Qed.
Lemma exited_stays e s s' : owner s = Exited → transition e s = Some (Ok s') → owner s' = Exited ∧ served s' = served s.
Proof.
  intros Ho. destruct e as [o| |t| |gone| | |t q|t gone|t gone|t|t|t late gone|t|t|t|t]; cbn; rewrite ?Ho; try done; unfold discard, check_context, offer, wake, begin_close, drain, finish;
    intros He; repeat case_match; simplify_eq/=; done.
Qed.
(** Nobody waits in vain: a command that is not finished is with a thread that can go on. *)
Definition other_event (e : Event) : Prop := match e with Get | Serve _ | Answer | Finish _ | Drain _ => True | _ => False end.
Lemma waiting_progress t s : inv s → threads s !! t = Some Waiting →
  ∃ cmd, commands s !! t = Some cmd ∧ (done cmd = true ∨ ∃ e, other_event e ∧ is_Some (transition e s)).
Proof.
  intros ([P Hp] & Hl & Hh & Hc) Ht. destruct (pl_thread _ _ Hp t _ Ht) as [[cmd Hcmd] Hne]. exists cmd. split; [done|].
  pose proof (cl_published _ Hc t _ Ht eq_refl) as Hpub. destruct (pl_command _ _ Hp t cmd Hcmd) as [_ Hok]. destruct (P t) as [| | |u|] eqn:Ep; [done|..].
  - right. apply (pl_queue _ _ Hp) in Ep. destruct (owner s) as [| |c|c| |] eqn:Ho.
    + by destruct (lf_start _ Hl Ho).
    + exists Get. split; [done|]. cbn. rewrite Ho. unfold get. destruct (queue s) as [|[]]; [by apply elem_of_nil in Ep|by eexists..].
    + exists (Serve None). split; [done|]. cbn. rewrite Ho. by eexists.
    + exists Answer. split; [done|]. cbn. rewrite Ho. by eexists.
    + destruct (lf_over _ Hl Hpub) as (_ & _ & Hq); [left; done|]. rewrite Hq in Ep. by apply elem_of_nil in Ep.
    + destruct (lf_over _ Hl Hpub) as (_ & _ & Hq); [right; done|]. rewrite Hq in Ep. by apply elem_of_nil in Ep.
  - right. apply (pl_owner _ _ Hp) in Ep. destruct (owner s) as [| |c|c| |] eqn:Ho; cbn in Ep; try by apply elem_of_nil in Ep.
    + exists (Serve None). split; [done|]. cbn. rewrite Ho. by eexists.
    + exists Answer. split; [done|]. cbn. rewrite Ho. by eexists.
  - right. destruct (pl_with _ _ Hp t u Ep) as [th Hu]. apply (pl_todo _ _ Hp u th t Hu) in Ep. destruct th; cbn in Ep; try by apply elem_of_nil in Ep.
    + exists (Finish u). split; [done|]. cbn. rewrite Hu. destruct todo0; by eexists.
    + exists (Drain u). split; [done|]. cbn. rewrite Hu. by eexists.
  - left. by destruct Hok.
Qed.
(** What a caller gets is what the engine answered when it was called for the command. *)
Lemma returned_replay t v s : inv s → threads s !! t = Some (Returned (Ok v)) →
  ∃ d0 i, initial s = Some d0 ∧ served s !! i = Some t ∧ (replay (commands s) d0 (served s)).1 !! i = Some (Ok v).
Proof.
  intros ([P Hp] & _ & Hh & _) Ht. destruct (pl_thread _ _ Hp t _ Ht) as (cmd & Hc & _ & Hv). pose proof (hs_result _ Hh t cmd v Hc Hv) as [i Hi]%list_elem_of_lookup.
  destruct (initial s) as [d0|] eqn:Hd; [|destruct (hs_initial _ Hh Hd) as [_ Hs]; rewrite Hs in Hi; done]. exists d0, i. split_and!; [done..|].
  destruct (hs_replay _ Hh d0 Hd) as [_ Hf]. destruct (Forall2_lookup_l _ _ _ _ _ Hf Hi) as (r & Hr & cmd' & Hc' & Ho). assert (cmd' = cmd) as -> by congruence.
  rewrite Hr. destruct r; cbn in Ho; naive_solver.
Qed.

(** C12: a thread-affine engine serves its callers as one caller would be served.  After any
    interleaving of its threads -- callers that queue commands, give up and discard
    cancelled commands, closers, and the owner, with contexts that may be cancelled at any
    time -- no transition raises: no completion is set twice and the closing sentinel always
    fits.  The queue is within its bound.  The engine was called for commands in the order
    in which they were queued, each at most once, and its state is what calling it for these
    alone, one after the other, leaves; a caller that got a result got the one of its own
    command in that run, and a command that was never called for left no trace.  A caller
    that waits is answered, or some other thread that holds its command can go on.  When
    [close] reports success the owner has left, nothing is queued and the engine is not
    called again. *)
Theorem engine_serves_in_order maximum timeout s0 s :
  new_engine maximum timeout = Ok s0 → rtc step s0 s →
  (∀ e r, transition e s = Some r → is_ok r = true) ∧
  Zlen (queue s) <= maximum ∧
  NoDup (accepted s) ∧ served s `sublist_of` accepted s ∧
  (∀ d0, initial s = Some d0 → owner s ≠ Exited → delegate s = Some (replay (commands s) d0 (served s)).2) ∧
  (∀ t v, threads s !! t = Some (Returned (Ok v)) →
     ∃ d0 i, initial s = Some d0 ∧ served s !! i = Some t ∧ (replay (commands s) d0 (served s)).1 !! i = Some (Ok v)) ∧
  (∀ t, threads s !! t = Some Waiting →
     ∃ cmd, commands s !! t = Some cmd ∧ (done cmd = true ∨ ∃ e, other_event e ∧ is_Some (transition e s))) ∧
  (∀ t, threads s !! t = Some (Left true) → owner s = Exited ∧
     (published s = Some (Ok ()) → queue s = []) ∧ ∀ s', rtc step s s' → owner s' = Exited ∧ served s' = served s).
Proof.
  intros Hnew Hr. destruct (new_engine_inv _ _ _ Hnew) as [Hinv0 Hmax].
  assert (Hinv : inv s ∧ maximum_pending s = Z.to_nat maximum).
  { apply (rtc_invariant step (λ s, inv s ∧ maximum_pending s = Z.to_nat maximum) s0); [|done|done].
    intros a b [Ha Hm] [e He]. destruct (engine_transition_inv e a _ Ha He) as (b' & [= <-] & Hb & Hm'). split; [done|congruence]. }
  destruct Hinv as [Hinv Hm]. pose proof Hinv as ([P Hp] & Hl & Hh & Hc). split_and!.
  - intros e r He. by destruct (engine_transition_inv e s r Hinv He) as (s' & -> & _).
  - pose proof (lf_bound _ Hl). pose proof (lf_capacity _ Hl). unfold Zlen. lia.
  - apply Hh.
  - etrans; [|apply (hs_order _ Hh)]. by apply sublist_inserts_r.
  - intros d0 Hd Ho. by apply (hs_replay _ Hh d0 Hd).
  - intros t v Ht. by apply returned_replay.
  - intros t Ht. by apply waiting_progress.
  - intros t Ht. pose proof (cl_left _ Hc t Ht) as Ho. split_and!; [done| |].
    + intros Hpub. destruct (lf_over _ Hl Hpub) as (_ & _ & ?); [by right|done].
    + intros s' Hs'. apply (rtc_invariant step (λ x, owner x = Exited ∧ served x = served s) s s'); [|done|done].
      intros a b [Ha Hsa] [e He]. destruct (exited_stays e a b Ha He). split; [done|congruence].
Qed.
End engine.

(** ** An engine that adds *)

#[local] Abbreviation DemoEngine := (@Engine Z Z Z ()).
Definition demo_method (q : Z) : Py Z Z := λ d, if q <? 0 then (Raise (ValueError "negative"), d) else (Ok (q + d), d + 1).
Definition demo_transition : Event → DemoEngine → option (res exn DemoEngine) := transition demo_method (ret ()).
Fixpoint demo_run (es : list (Event (Q := Z) (D := Z) (Mo := ()))) (s : DemoEngine) : option DemoEngine :=
  match es with
  | [] => Some s
  | e :: es' => match demo_transition e s with Some (Ok s') => demo_run es' s' | _ => None end
  end.
Lemma demo_run_steps es s s' : demo_run es s = Some s' → rtc (step demo_method (ret ())) s s'.
Proof.
  revert s. induction es as [|e es IH]; intros s; cbn; [by intros [= ->]|]. destruct (demo_transition e s) as [[s1|]|] eqn:E; [|done..]. intros H.
  eapply rtc_l; [by exists e|by apply IH].
Qed.
Definition demo_ask (t : nat) (q : Z) : list (Event (Q := Z) (D := Z) (Mo := ())) := [Call t q; Check_ t None; Sweep t (λ _, None); Finish t; Offer t].
(** Three callers: the second gives up while it is queued; then a close. *)
Definition demo_events : list (Event (Q := Z) (D := Z) (Mo := ())) :=
  [Create (Created 10 true []); Publish] ++ demo_ask 1 5 ++ demo_ask 2 6 ++ [Get] ++ demo_ask 3 7 ++
  [Wake 2 false (Some "inference request timed out"%string); Sweep 2 (λ _, None); Finish 2; Finish 2; Serve None; Answer; Wake 1 false None; Get; Serve None; Answer; Wake 3 false None;
   Close 4; BeginClose 4; Drain 4; Finish 4; Get; Stop; Join 4].
Definition demo_start : DemoEngine := mkEngine 2 [] ∅ false None Starting None false [] None None ∅ None [] [].
Lemma engine_serves_in_order_witness : ∃ s, demo_run demo_events demo_start = Some s ∧
  threads s !! 3%nat = Some (Returned (Ok 18)) ∧ threads s !! 2%nat = Some (Returned (Raise (InferenceRequestCancelled "inference request timed out"))) ∧
  served s = [1; 3]%nat ∧ (served s `sublist_of` accepted s) ∧
  (∃ d0 i, initial s = Some d0 ∧ served s !! i = Some 3%nat ∧ (replay demo_method (commands s) d0 (served s)).1 !! i = Some (Ok 18)).
Proof.
  destruct (demo_run demo_events demo_start) as [s|] eqn:E; [|vm_compute in E; discriminate E]. exists s. split; [reflexivity|].
  destruct (engine_serves_in_order demo_method (ret ()) 2 (PyFloat.of_Z 1) demo_start s ltac:(vm_compute; reflexivity) (demo_run_steps _ _ _ E))
    as (_ & _ & _ & H1 & _ & H2 & _).
  vm_compute in E. injection E as E. assert (H3 : threads s !! 3%nat = Some (Returned (Ok 18))) by (rewrite <-E; reflexivity).
  split; [exact H3|]. split; [rewrite <-E; reflexivity|]. split; [rewrite <-E; reflexivity|]. split; [exact H1|exact (H2 3%nat 18 H3)].
Defined.
End ManagedEngine.
