(* ===== verification/RuntimeWorker.v ===== *)
(** * The runtime worker (qwen4_runtime_worker.py)

    The command service of RuntimeProtocol over the tensor store of ResidentStore: the
    store's operations are an instance of the class the service uses, with its snapshots as
    dictionaries, and what the store promises of its own calls holds of every session.
    The polls of a cancellation signal are made by the backend's programs, which stand for
    what they see.  The session file and the socket are left out. *)

From S2P Require Import Prelude Types OrderedDict PySort PyFloat PyBytes Json NumericFormats NumericStream NumericFileStream NumericPrecision TensorAdmission ResidentStore RuntimeProtocol.
Import OrderedDict PySort PyBytes Json ResidentStore.

Module RuntimeWorker.
Import RuntimeProtocol.

(** ** The store as the service sees it *)

(** [dict(sorted(counts.items()))] *)
Definition counts_json (m : gmap string Z) : json := JObj (sorted_by key_leb ((λ p, (p.1, JInt p.2)) <$> map_to_list m)).
(** [Qwen4MemoryAdmission.snapshot] *)
Definition admission_json (x : TensorAdmission.Snapshot) : json :=
  JObj [("capacity_bytes", JInt (TensorAdmission.s_capacity x)); ("reserved_bytes", JInt (TensorAdmission.s_reserved x));
        ("remaining_bytes", JInt (TensorAdmission.s_remaining x)); ("active_reservations", JInt (TensorAdmission.s_active x));
        ("component_bytes", counts_json (TensorAdmission.s_components x))]%string.
(** [Qwen4ResidentStore.snapshot] *)
Definition snapshot_json (x : StoreSnapshot) : json :=
  JObj [("schema_version", JInt 1); ("resident_tensors", JInt (n_resident x)); ("quarantined_tensors", JInt (n_quarantined x));
        ("resident_components", counts_json (resident_components x)); ("memory", admission_json (memory x)); ("stores_tensor_names", JBool false)]%string.
(** The default of [component]. *)
Definition numeric_component : string := "numeric_compatibility".

Section worker.
Context {H R F Chunks A L : Type} `{!Qwen4ResidentBackend H R F Chunks} `{!NumericFileStream.OS F} `{!NumericArtifactReader A L F}.
Context (descriptor : string → res exn TensorAdmission.Descriptor) (maximum_chunk_bytes : Z).
Context (iter_tensor_chunks : string → res exn Chunks) (iter_tensor_axis0_slice : string → Z → Z → res exn Chunks).
Context (tokens : nat → string).
Context (sha_bytes : bytes → string) (sha_text : string → string) (conversion_plan_id : NumericFormats.AnyPlan → string).
Context (float_hex float_repr : PyFloat.float → string).
Abbreviation Store := (Qwen4ResidentStore (H := H) (R := R)).

(** Nobody else uses the worker's admission. *)
Definition resident_runtime : Qwen4RuntimeStore Store F := {|
  rt_load name dtype scratch axis0 := ResidentStore.load (F := F) descriptor maximum_chunk_bytes iter_tensor_chunks iter_tensor_axis0_slice tokens name dtype scratch axis0;
  rt_load_scaled_int8 t dtype contract scratch :=
    ResidentStore.load_scaled_int8 (F := F) (Chunks := Chunks) tokens sha_bytes sha_text conversion_plan_id float_hex float_repr t dtype contract numeric_component scratch;
  rt_load_scaled_int8_streaming t plan dtype contract scratch _ :=
    ResidentStore.load_scaled_int8_streaming (F := F) (Chunks := Chunks) tokens sha_bytes sha_text conversion_plan_id float_hex float_repr id t plan dtype contract numeric_component scratch;
  rt_load_nvfp4_file_stream p tile count dtype contract scratch _ :=
    ResidentStore.load_nvfp4_file_stream (Chunks := Chunks) tokens sha_bytes sha_text float_repr id p tile dtype contract count numeric_component scratch;
  rt_unload h := ResidentStore.unload (F := F) (Chunks := Chunks) h;
  rt_snapshot := λ s, (Ok (snapshot_json (store_snapshot s)), s);
  rt_retry := retry_quarantined_releases (F := F) (Chunks := Chunks);
  rt_shutdown := let! x := ResidentStore.shutdown (F := F) (Chunks := Chunks) in ret (snapshot_json x);
|}.
#[local] Existing Instance resident_runtime.
Abbreviation Service := (Qwen4RuntimeCommandService (S := Store) (A := A)).
Abbreviation handle := (handle (L := L) (F := F) float_repr sha_bytes).
(** [Qwen4RuntimeWorker.__init__]; [h] is the host of the backend. *)
Definition new_worker (session : string) (memory_capacity_bytes : Z) (component_limits : gmap string Z) (h : H) (numeric_reader : option A) : res exn Service :=
  match TensorAdmission.new_admission memory_capacity_bytes component_limits with
  | Raise e => Raise e
  | Ok a => new_service session (new_store a h) numeric_reader
  end.
(** [close] *)
Definition close_worker : Py Service StoreSnapshot := on_store (ResidentStore.shutdown (F := F) (Chunks := Chunks)).

(** ** Sessions *)

Context (live : H → list R) `{!BackendLaws (F := F) (Chunks := Chunks) live} `{!Inj (=) (=) tokens}.
Abbreviation rstep := (rstep live tokens descriptor maximum_chunk_bytes iter_tensor_chunks iter_tensor_axis0_slice sha_bytes sha_text conversion_plan_id float_hex float_repr (F := F)).
Abbreviation store_inv := (inv_with live tokens []).
(** Tensors without an empty dimension: of the checkpoint, and of the artifacts. *)
Class NoEmptyTensors : Prop := {
  checkpoint_dimensions name axis0 dc shape :
    source_of descriptor iter_tensor_chunks iter_tensor_axis0_slice name axis0 = Ok dc → TensorAdmission.d_shape dc.1 = Some shape → Some 0 ∉ shape;
  artifact_dimensions : artifacts_ok (L := L) (A := A) (λ t, 0 ∉ tensor_shape t) (λ p, 0 ∉ provider_shape p);
}.
Context `{!NoEmptyTensors}.
#[local] Instance resident_moves : StoreMoves (rtc rstep) (λ t, 0 ∉ tensor_shape t) (λ p, 0 ∉ provider_shape p).
Proof.
  split; cbn; intros.
  - apply _.
  - apply rtc_once. constructor. intros dc shape. apply checkpoint_dimensions.
  - apply rtc_once. by constructor.
  - apply rtc_once. constructor; [done|]. intros a. apply rtc_refl.
  - apply rtc_once. constructor; [done|]. intros a. apply rtc_refl.
  - apply rtc_once. constructor.
  - apply rtc_refl.
  - apply rtc_once. constructor.
  - apply rtc_once. unfold bind. pose proof (rs_shutdown live tokens descriptor maximum_chunk_bytes iter_tensor_chunks iter_tensor_axis0_slice sha_bytes sha_text conversion_plan_id float_hex float_repr x) as Hr.
    by destruct (ResidentStore.shutdown x) as [[]].
Qed.
Inductive wstep (s : Service) : Service → Prop :=
| ws_handle call payload : (∀ s1, rtc (cstep float_repr) s1 (c_during call s1)) → wstep s (handle call payload s).2.
Definition nothing_left (x : Store) : Prop := records x = [] ∧ quarantined x = [] ∧ live (host x) = [].
Record session_inv (s : Service) : Prop := {
  ss_store : store_inv (store s);
  ss_closed : closed s = true → nothing_left (store s);
}.
(** A shutdown that finds nothing left has let everything go. *)
Lemma shutdown_result y sn x : ResidentStore.shutdown (H := H) (R := R) (F := F) (Chunks := Chunks) y = (Ok sn, x) → sn = store_snapshot x.
Proof. unfold ResidentStore.shutdown, bind. intros Hs. repeat case_match; by simplify_eq. Qed.
Lemma shut_left x : shut (F := F) (S := Store) x → store_inv x → nothing_left x.
Proof.
  intros (y & sn & Hs & K1 & K2) Hi. cbn in Hs. unfold bind in Hs. destruct (ResidentStore.shutdown y) as [[sn0|e] x0] eqn:E; [|done]. injection Hs as <- <-.
  apply shutdown_result in E as ->. cbn in K1, K2. apply negb_false_iff, Z.eqb_eq in K1, K2. unfold Zlen in *.
  assert (Hr : records x0 = []) by (apply length_zero_iff_nil; lia). assert (Hq : quarantined x0 = []) by (apply length_zero_iff_nil; lia).
  split_and!; [done..|]. pose proof (iv_live _ _ _ _ Hi) as Hl. unfold held in Hl. rewrite Hr, Hq in Hl. by apply Permutation_nil_r in Hl.
Qed.
Lemma rsteps_inv x y : store_inv x → rtc rstep x y → store_inv y.
Proof.
  intros Hx Hr. apply (rtc_invariant rstep store_inv x y); [|done|done]. intros a b. by apply rstep_inv.
Qed.
Lemma wstep_inv s s' : session_inv s → wstep s s' → session_inv s'.
Proof.
  intros [Hst Hcl] [call payload Hd]. destruct (handle_store float_repr sha_bytes (rtc rstep) (λ t, 0 ∉ tensor_shape t) (λ p, 0 ∉ provider_shape p) artifact_dimensions call payload s Hd) as (Hr & Hc & Ho).
  pose proof (rsteps_inv _ _ Hst Hr) as Hi. split; [done|]. intros Hclosed. destruct (closed s) eqn:E.
  - destruct (Hc eq_refl) as [-> _]. by apply Hcl.
  - apply shut_left; [|done]. by apply Ho.
Qed.

Lemma wstep_closed s s' : closed s = true → wstep s s' → closed s' = true.
Proof.
  intros Hc [call payload Hd]. destruct (handle_store float_repr sha_bytes (rtc rstep) (λ t, 0 ∉ tensor_shape t) (λ p, 0 ∉ provider_shape p) artifact_dimensions call payload s Hd) as (_ & Hx & _).
  by apply Hx.
Qed.

(** C15: what the store promises of its calls holds of every session of the worker that owns
    it, as long as the backend keeps its contract ([BackendLaws]) and no tensor of the
    checkpoint and of the artifacts has an empty dimension ([NoEmptyTensors]; the unload of
    such a tensor can fail, [ResidentStore.empty_unload_sticks]).  Whatever requests are handled, in whatever order, and however many are repeated,
    refused, cancelled or fail, the resources live in the backend are exactly those of the
    resident and the quarantined records, each with a reservation of its own of exactly its
    bytes in the admission, within the capacity; once the session is closed the store and
    the backend hold nothing, and stay so; and closing the worker always returns, and leaves
    nothing when the backend lets everything go. *)
Theorem worker_session_exact session capacity limits h rd s0 s :
  new_worker session capacity limits h rd = Ok s0 → live h = [] → rtc wstep s0 s →
  live (host (store s)) ≡ₚ (record_resource <$> held (store s)) ∧
  (∀ rec, rec ∈ held (store s) → TensorAdmission.reservations (admission (store s)) !! record_id rec = Some (reservation rec)) ∧ NoDup (record_id <$> held (store s)) ∧
  (∀ rec, rec ∈ (records (store s)).*2 → TensorAdmission.reserved_bytes (reservation rec) = output_bytes (allocation rec)) ∧
  TensorAdmission.total_bytes (admission (store s)) <= TensorAdmission.capacity_bytes (admission (store s)) ∧
  (closed s = true → nothing_left (store s) ∧ ∀ s', rtc wstep s s' → closed s' = true ∧ nothing_left (store s')) ∧
  (∃ s', close_worker s = (Ok (store_snapshot (store s')), s') ∧
     ((∀ x k, is_ok (b_release (R := R) (Chunks := Chunks) (F := F) x k).1 = true) → nothing_left (store s'))).
Proof.
  unfold new_worker. destruct (TensorAdmission.new_admission capacity limits) as [a|] eqn:Ea; [|done]. unfold new_service. destruct (negb _); [done|]. intros [= <-] Hl Hrun.
  apply TensorAdmission.loader_admission_inv in Ea as [Ha _].
  assert (Hs : session_inv s) by (refine (rtc_invariant wstep session_inv _ s wstep_inv _ Hrun); split; [by apply new_store_inv|done]).
  pose proof (ss_store _ Hs) as Hi. split_and!; try apply Hi.

  - intros Hc. split; [by apply Hs|]. intros s' Hr. apply (rtc_invariant wstep (λ x, session_inv x ∧ closed x = true) s s') in Hr as [Hx Hc']; [split; [done|by apply Hx]| |done].
    intros x y [Hx Hcx] Hxy. split; [by eapply wstep_inv|]. by eapply wstep_closed.
  - destruct (shutdown_spec live tokens (store s) Hi) as (x & Hsd & Hix & Hall). exists (with_store x s). unfold close_worker, on_store, zoom. rewrite Hsd. split; [done|].
    intros Hok. destruct (Hall Hok) as [K1 K2]. split_and!; [done..|]. pose proof (iv_live _ _ _ _ Hix) as Hlive. unfold held in Hlive. cbn. rewrite K1, K2 in Hlive.
    by apply Permutation_nil_r in Hlive.
Qed.
End worker.

(** ** A session that loads a tensor and shuts down *)

#[local] Existing Instance ResidentStore.demo_backend.
#[local] Existing Instance ResidentStore.demo_laws.
#[local] Existing Instance NumericFileStream.demo_os.
#[local] Existing Instance RuntimeProtocol.demo_reader.
Definition hex_tokens (n : nat) : string := match n with O => RuntimeProtocol.demo_id | S n => String (Ascii.ascii_of_nat 120) (pretty n) end.
#[local] Instance hex_tokens_inj : Inj (=) (=) hex_tokens.
Proof. intros [|n] [|m]; cbn; try done. intros Heq. injection Heq as Heq. apply (inj pretty) in Heq. by subst. Qed.
Definition filled_descriptor (name : string) : res exn TensorAdmission.Descriptor :=
  Ok (TensorAdmission.mkDescriptor true (Some "mlp"%string) (Some [Some 4; Some 8]) (Some "BF16"%string) (Some 64)).
Definition filled_chunks (name : string) : res exn Z := Ok 64.
Abbreviation DemoService := (Qwen4RuntimeCommandService (S := Qwen4ResidentStore (H := DemoHost) (R := Z)) (A := ())).
Definition demo_handle (payload : json) : Py DemoService json :=
  RuntimeProtocol.handle (S := Qwen4ResidentStore (H := DemoHost) (R := Z)) (F := ()) (L := Empty_set) (Qwen4RuntimeStore0 :=
    resident_runtime filled_descriptor 16 filled_chunks ResidentStore.demo_slice hex_tokens (λ _, "") (λ _, "") (λ _, "") (λ _, "") RuntimeProtocol.demo_float)
    RuntimeProtocol.demo_float (λ _, ""%string) (mkCall id (λ _, false) None) payload.
Definition demo_request (n : Z) (operation : string) (more : list (string * json)) : json :=
  JObj ([("operation", JStr operation); ("sequence", JInt n); ("session_id", JStr RuntimeProtocol.demo_id); ("request_id", JStr RuntimeProtocol.demo_id); ("abi_version", JInt 1)]%string ++ more).
Definition demo_requests : list json :=
  [demo_request 1 "load" [("tensor_name", JStr "w"); ("target_dtype", JStr "F32"); ("scratch_bytes", JInt 0); ("axis0_slice", JNull)]%string; demo_request 2 "shutdown" []].
Definition demo_worker : res exn DemoService := new_worker RuntimeProtocol.demo_id 1000 ∅ (mkHost 1 [] false) None.
Definition demo_session (payloads : list json) : res exn DemoService :=
  match demo_worker with Ok s => Ok (foldl (λ s payload, (demo_handle payload s).2) s payloads) | Raise e => Raise e end.
(** The tensor is resident after the load, and the shutdown closes the session. *)
Example demo_loads : (λ s : DemoService, (Zlen (records (store s)), closed s)) <$> (match demo_session (take 1 demo_requests) with Ok s => Some s | _ => None end) = Some (1, false).
Proof. vm_compute. reflexivity. Qed.
#[local] Instance demo_no_empty_tensors : NoEmptyTensors (L := Empty_set) (A := ()) (F := ()) filled_descriptor filled_chunks ResidentStore.demo_slice.
Proof.
  split; [|by intros []]. intros name [[start count]|] [d c] shape; cbn.
  - unfold TensorAdmission.axis0_slice_descriptor, filled_descriptor. intros Hs Hd. repeat case_match; simplify_eq/=.
  - intros [= <- <-] [= <-]. rewrite !elem_of_cons, elem_of_nil. by intros [[=]|[[=]|[]]].
Qed.
Lemma worker_demo_steps payloads (s : DemoService) : rtc (wstep (L := Empty_set) (F := ()) filled_descriptor 16 filled_chunks ResidentStore.demo_slice hex_tokens (λ _, ""%string) (λ _, ""%string) (λ _, ""%string) (λ _, ""%string) RuntimeProtocol.demo_float)
  s (foldl (λ s payload, (demo_handle payload s).2) s payloads).
Proof.
  revert s. induction payloads as [|p ps IH]; intros s; [apply rtc_refl|]. cbn [foldl]. eapply rtc_l; [|apply IH]. unfold demo_handle. apply (ws_handle _ _ _ _ _ _ _ _ _ _ s (mkCall id (λ _, false) None) p). intros s1. apply rtc_refl.
Qed.
Lemma worker_session_exact_witness : ∃ s, demo_session demo_requests = Ok s ∧ closed s = true ∧ nothing_left live_resources (store s).
Proof.
  destruct demo_worker as [s0|] eqn:E0; [|vm_compute in E0; discriminate E0]. unfold demo_session. rewrite E0. set (s := foldl _ s0 demo_requests). exists s. split; [reflexivity|].
  assert (Hc : closed s = true) by (subst s; vm_compute in E0; injection E0 as <-; vm_compute; reflexivity). split; [exact Hc|].
  exact (proj1 (proj1 (proj2 (proj2 (proj2 (proj2 (proj2 (worker_session_exact filled_descriptor 16 filled_chunks ResidentStore.demo_slice hex_tokens
    (λ _, ""%string) (λ _, ""%string) (λ _, ""%string) (λ _, ""%string) RuntimeProtocol.demo_float live_resources
    RuntimeProtocol.demo_id 1000 ∅ (mkHost 1 [] false) None s0 s E0 eq_refl (worker_demo_steps demo_requests s0))))))) Hc)).
Defined.
End RuntimeWorker.
