(* ===== verification/CacheContract.v ===== *)
(** * The cache contract of Qwen4 models

    qwen4_cache_contract.py: the layout of a model's caches read from its configuration, the
    state of the caches after any number of tokens, and the checks on a state; with the
    inspection of model.py the layout starts with.  Configurations are the JSON values of
    Json.v; SHA-256 and the text of a float are parameters. *)

From S2P Require Import Prelude Types OrderedDict PySort PyFloat PyBytes Json.
From S2P Require NumericStream.
Import OrderedDict PySort PyBytes Json.

Module CacheContract.

Definition MAX_CACHE_TOKENS : Z := 16777216.
Definition MAX_ADVANCE_TOKENS : Z := 8192.

(** ** The architecture of a configuration (model.py) *)

Record ModelArchitectureCapability := mkCapability {
  architecture : string;
  required_features : list string;
  modes : list string;
  native_context_tokens : option Z;
  extended_context_tokens : option Z;
}.
(** [config.get(key, default)] *)
Definition get_or (k : string) (d : json) (v : json) : json := default d (field k v).
Definition is_obj (v : json) : bool := match v with JObj _ => true | _ => false end.
(** [" ".join(names).lower()] *)
Definition normalized_names (config : json) : string :=
  let name := match field "model_type" config with Some (JStr s) => s | _ => "unknown"%string end in
  let more := match field "architectures" config with Some (JArr l) => omap as_str l | _ => [] end in
  str_lower (str_join " " (name :: more)).
(** [str(rope.get("rope_type") or "").lower() == "yarn"]: only a string has that text. *)
Definition is_yarn (rope : json) : bool :=
  match field "rope_type" rope with Some (JStr s) => str_eqb (str_lower s) "yarn" | _ => false end.
(** [min(16_777_216, int(native_context * factor))] *)
Definition extended_context (native : Z) (factor : option json) : res exn Z :=
  let invalid := Raise (ModelInspectionError "qwen4_exp YaRN factor is invalid") in
  match factor with
  | Some (JInt n) => if n <=? 1 then invalid else Ok (Z.min 16777216 (native * n))
  | Some (JFloat f) =>
      if PyFloat.fleb f (PyFloat.of_Z 1) then invalid
      else match PyFloat.scaled native f with Ok n => Ok (Z.min 16777216 n) | Raise e => Raise e end
  | _ => invalid
  end.
(** The branch of [inspect_model_architecture] for Qwen4. *)
Definition inspect_qwen4 (config : json) : res exn ModelArchitectureCapability :=
  let error m := Raise (ModelInspectionError m) in
  let text := get_or "text_config" config config in
  if negb (is_obj text) then error "qwen4_exp text_config is missing"
  else
    match get_or "language_model_only" (JBool true) config, strict_int (get_or "mtp_num_hidden_layers" (JInt 0) text) with
    | JBool only, mtp =>
        match mtp with
        | None => error "qwen4_exp MTP layer count is invalid"
        | Some n =>
            if n <? 0 then error "qwen4_exp MTP layer count is invalid"
            else if negb only && negb (is_obj (get_or "vision_config" JNull config)) then error "qwen4_exp vision_config is missing"
            else
              match strict_int (get_or "max_position_embeddings" JNull text) with
              | None => error "qwen4_exp native context is invalid"
              | Some native =>
                  if negb ((1 <=? native) && (native <=? 16777216)) then error "qwen4_exp native context is invalid"
                  else
                    let modes := ["text"%string] ++ (if 0 <? n then ["mtp"%string] else []) ++ (if only then [] else ["vision"%string]) in
                    let features :=
                      ["gated_deltanet"; "qwen_sparse_attention"; "mixture_of_experts"; "gated_residual"; "ngram_embedding"]%string
                      ++ (if 0 <? n then ["multi_token_prediction"%string] else []) ++ (if only then [] else ["vision_encoder"%string])
                      ++ ["native_long_context"]%string in
                    let rope := get_or "rope_parameters" (get_or "rope_scaling" JNull text) text in
                    if is_obj rope && is_yarn rope then
                      match extended_context native (field "factor" rope) with
                      | Raise e => Raise e
                      | Ok extended =>
                          Ok (mkCapability "qwen4_exp" (features ++ ["yarn_extended_context"]%string) (modes ++ ["yarn"]%string) (Some native) (Some extended))
                      end
                    else Ok (mkCapability "qwen4_exp" features modes (Some native) None)
              end
        end
    | _, _ => error "qwen4_exp language_model_only must be boolean"
    end.
Definition inspect_model_architecture (config : json) : res exn ModelArchitectureCapability :=
  let names := normalized_names config in
  if str_contains "qwen4_exp" names || str_contains "qwen3.8-flash-next" names then inspect_qwen4 config
  else Ok (mkCapability (match field "model_type" config with Some (JStr s) => s | _ => "unknown"%string end) [] ["text"%string] None None).

(** ** Layouts *)

Record Qwen4CacheLayout := mkLayout {
  l_config_fingerprint : string;
  linear_layers : Z;
  full_attention_layers : Z;
  ple_layers : Z;
  ngram_context_tokens : Z;
  l_gdn_conv_tokens : Z;
  l_ple_conv_tokens : Z;
  qsa_compress_ratio : Z;
  qsa_token_budget : Z;
}.
Record Qwen4CacheState := mkState {
  config_fingerprint : string;
  tokens_seen : Z;
  token_chain_sha256 : string;
  ngram_tail : list Z;
  gdn_conv_tokens : Z;
  ple_conv_tokens : Z;
  recurrent_initialized : bool;
  kv_tokens_per_full_layer : Z;
  indexer_tokens_per_full_layer : Z;
  qsa_complete_blocks : Z;
  qsa_tail_tokens : Z;
}.
Definition state_to_dict (s : Qwen4CacheState) : json :=
  JObj
    [("schema_version", JInt 1); ("config_fingerprint", JStr (config_fingerprint s)); ("tokens_seen", JInt (tokens_seen s));
     ("token_chain_sha256", JStr (token_chain_sha256 s)); ("ngram_tail", JArr (JInt <$> ngram_tail s)); ("gdn_conv_tokens", JInt (gdn_conv_tokens s));
     ("ple_conv_tokens", JInt (ple_conv_tokens s)); ("recurrent_initialized", JBool (recurrent_initialized s));
     ("kv_tokens_per_full_layer", JInt (kv_tokens_per_full_layer s)); ("indexer_tokens_per_full_layer", JInt (indexer_tokens_per_full_layer s));
     ("qsa_complete_blocks", JInt (qsa_complete_blocks s)); ("qsa_tail_tokens", JInt (qsa_tail_tokens s)); ("stores_tensor_values", JBool false)]%string.
#[global] Instance Qwen4CacheState_eq_dec : EqDecision Qwen4CacheState.
Proof. solve_decision. Defined.

(** [bytes.hex()] *)
Fixpoint bytes_hex (l : bytes) : string :=
  match l with
  | [] => EmptyString
  | b :: l' => String (hex_digit (Z.to_nat b / 16)) (String (hex_digit (Z.to_nat b mod 16)) (bytes_hex l'))
  end.
Definition hex_value (c : Ascii.ascii) : option Z :=
  let n := Z.of_nat (Ascii.nat_of_ascii c) in
  if (48 <=? n) && (n <=? 57) then Some (n - 48)
  else if (97 <=? n) && (n <=? 102) then Some (n - 87)
  else if (65 <=? n) && (n <=? 70) then Some (n - 55)
  else None.
(** [bytes.fromhex] of a text without spaces *)
Fixpoint bytes_fromhex (s : string) : res exn bytes :=
  match s with
  | EmptyString => Ok []
  | String c (String d s') =>
      match hex_value c, hex_value d, bytes_fromhex s' with
      | Some x, Some y, Ok l => Ok (x * 16 + y :: l)
      | _, _, _ => Raise (ValueError "non-hexadecimal number found in fromhex() arg")
      end
  | String _ EmptyString => Raise (ValueError "non-hexadecimal number found in fromhex() arg")
  end.
(** The escapes of [json.dumps] with [ensure_ascii=False]: only quotes, backslashes and the
    characters below the space. *)
Definition raw_escape (c : Ascii.ascii) : string := if Nat.leb 127 (Ascii.nat_of_ascii c) then String c EmptyString else json_escape c.
Fixpoint raw_escapes (s : string) : string :=
  match s with EmptyString => EmptyString | String c s' => (raw_escape c +:+ raw_escapes s')%string end.
(** The strings of [layer_types] that equal [name]. *)
Definition count_layers (name : string) (l : list json) : Z := Zlen (filter (λ v, as_str v = Some name) l).
(** [isinstance(value, int)]: booleans are integers. *)
Definition loose_int (v : json) : option Z :=
  match v with JInt n => Some n | JBool b => Some (if b then 1 else 0) | _ => None end.

(** A digest has 32 bytes. *)
Class Digest32 (f : bytes → bytes) : Prop := digest32 : ∀ b, length (f b) = 32%nat ∧ bytes_ok (f b).

Section contract.
Context (sha256 : bytes → bytes) (float_repr : PyFloat.float → string).

Definition raw_string (s : string) : string := quoted (raw_escapes s).
(** [json.dumps(v, sort_keys=True, separators=(",", ":"), ensure_ascii=False)] *)
Fixpoint raw_print (v : json) : string :=
  match v with
  | JNull => "null"
  | JBool b => json_bool b
  | JInt n => str_of_Z n
  | JFloat f => float_repr f
  | JStr s => raw_string s
  | JArr l => json_array (raw_print <$> l)
  | JObj l => json_object ((λ p, (raw_string p.1 +:+ ":" +:+ raw_print p.2)%string) <$> l)
  end.
Definition canonical (config : json) : string := raw_print (normal config).

Definition dimension (k : string) (text : json) : option Z :=
  match strict_int (get_or k JNull text) with
  | Some n => if (1 <=? n) && (n <=? MAX_CACHE_TOKENS) then Some n else None
  | None => None
  end.
Definition qwen4_cache_layout (config : json) : res exn Qwen4CacheLayout :=
  match inspect_model_architecture config with
  | Raise e => Raise e
  | Ok capability =>
      if negb (str_eqb (architecture capability) "qwen4_exp") then Raise (ValueError "cache contract requires Qwen4-Exp metadata")
      else
        let text := get_or "text_config" config config in
        match field "layer_types" text with
        | Some (JArr (v :: l')) =>
            let layer_types := v :: l' in
            let linear := count_layers "linear_attention" layer_types in
            let full := count_layers "full_attention" layer_types in
            if negb (linear + full =? Zlen layer_types) || (linear =? 0) || (full =? 0) then Raise (ValueError "Qwen4 cache layer topology is invalid")
            else
              match dimension "ngram_size" text, dimension "linear_conv_kernel_dim" text, dimension "ple_conv_kernel_size" text,
                    dimension "indexer_compress_ratio" text, dimension "indexer_budget" text with
              | Some ngram, Some gdn, Some ple, Some ratio, Some budget =>
                  match get_or "ple_layer_ids" (JArr []) text with
                  | JArr ids =>
                      if forallb (λ v, match loose_int v with Some i => (1 <=? i) && (i <=? Zlen layer_types) | None => false end) ids then
                        Ok (mkLayout (bytes_hex (sha256 (ascii_bytes (canonical config)))) linear full (Zlen ids)
                              (ngram - 1) (gdn - 1) (ple - 1) ratio budget)
                      else Raise (ValueError "Qwen4 cache PLE layers are invalid")
                  | _ => Raise (ValueError "Qwen4 cache PLE layers are invalid")
                  end
              | _, _, _, _, _ => Raise (ValueError "Qwen4 cache dimensions are invalid")
              end
        | _ => Raise (ValueError "Qwen4 cache layer types are invalid")
        end
  end.

(** ** States *)

Definition empty_qwen4_cache (layout : Qwen4CacheLayout) : Qwen4CacheState :=
  mkState (l_config_fingerprint layout) 0 (bytes_hex (sha256 [])) [] 0 0 false 0 0 0 0.
(** [tuple(l[-n:])] for positive [n], and [()] otherwise. *)
Definition last_tokens (n : Z) (l : list Z) : list Z := if n =? 0 then [] else drop (length l - Z.to_nat n) l.
(** [digest = hashlib.sha256(digest + token.to_bytes(4, "big")).digest()] *)
Definition chain_token (digest : bytes) (token : Z) : bytes := sha256 (digest ++ be_bytes 4 token).
Definition advance_qwen4_cache (layout : Qwen4CacheLayout) (state : Qwen4CacheState) (token_ids : list Z) : res exn Qwen4CacheState :=
  if negb (str_eqb (config_fingerprint state) (l_config_fingerprint layout)) then Raise (ValueError "Qwen4 cache config fingerprint mismatch")
  else if negb (NumericStream.NumericStream.is_digest (token_chain_sha256 state)) then Raise (ValueError "Qwen4 cache token digest is invalid")
  else if negb ((1 <=? Zlen token_ids) && (Zlen token_ids <=? MAX_ADVANCE_TOKENS)) then Raise (ValueError "Qwen4 cache advance size is invalid")
  else if negb (forallb (λ t, (0 <=? t) && (t <? 2 ^ 32)) token_ids) then Raise (ValueError "Qwen4 cache token id is invalid")
  else
    let total := tokens_seen state + Zlen token_ids in
    if MAX_CACHE_TOKENS <? total then Raise (ValueError "Qwen4 cache token limit exceeded")
    else
      match bytes_fromhex (token_chain_sha256 state) with
      | Raise e => Raise e
      | Ok digest =>
          Ok (mkState (l_config_fingerprint layout) total (bytes_hex (foldl chain_token digest token_ids))
                (last_tokens (ngram_context_tokens layout) (ngram_tail state ++ token_ids))
                (Z.min total (l_gdn_conv_tokens layout)) (if ple_layers layout =? 0 then 0 else Z.min total (l_ple_conv_tokens layout))
                (0 <? total) total total (total / qsa_compress_ratio layout) (total mod qsa_compress_ratio layout))
      end.
Definition verify_qwen4_cache_state (layout : Qwen4CacheLayout) (state : Qwen4CacheState) : res exn () :=
  if negb (str_eqb (config_fingerprint state) (l_config_fingerprint layout)) then Raise (ValueError "Qwen4 cache config fingerprint mismatch")
  else if negb ((0 <=? tokens_seen state) && (tokens_seen state <=? MAX_CACHE_TOKENS)) then Raise (ValueError "Qwen4 cache token count is invalid")
  else if negb (NumericStream.NumericStream.is_digest (token_chain_sha256 state)) then Raise (ValueError "Qwen4 cache token digest is invalid")
  else if negb (Zlen (ngram_tail state) =? Z.min (tokens_seen state) (ngram_context_tokens layout)) then Raise (ValueError "Qwen4 cache ngram tail is invalid")
  else if negb (gdn_conv_tokens state =? Z.min (tokens_seen state) (l_gdn_conv_tokens layout))
       || negb (ple_conv_tokens state =? (if ple_layers layout =? 0 then 0 else Z.min (tokens_seen state) (l_ple_conv_tokens layout)))
       || negb (qsa_complete_blocks state =? tokens_seen state / qsa_compress_ratio layout)
       || negb (qsa_tail_tokens state =? tokens_seen state mod qsa_compress_ratio layout)
       || negb (kv_tokens_per_full_layer state =? tokens_seen state)
       || negb (indexer_tokens_per_full_layer state =? tokens_seen state)
       || negb (eqb (recurrent_initialized state) (0 <? tokens_seen state))
  then Raise (ValueError "Qwen4 cache state invariants are invalid")
  else Ok ().

(** ** The fixture *)

Definition fixture_tokens : list Z := [248044; 11; 22; 33; 44; 55; 66; 77; 248044].
(** [advance(segmented, tokens[offset : offset + width]); offset += width] *)
Definition segment (layout : Qwen4CacheLayout) (p : Qwen4CacheState * Z) (width : Z) : res exn (Qwen4CacheState * Z) :=
  match advance_qwen4_cache layout p.1 (take (Z.to_nat width) (drop (Z.to_nat p.2) fixture_tokens)) with
  | Ok s => Ok (s, p.2 + width)
  | Raise e => Raise e
  end.
Definition run_qwen4_cache_fixture (config : json) : res exn json :=
  match qwen4_cache_layout config with
  | Raise e => Raise e
  | Ok layout =>
      let empty := empty_qwen4_cache layout in
      match advance_qwen4_cache layout empty fixture_tokens with
      | Raise e => Raise e
      | Ok prefill =>
          match fold_res (segment layout) [4; 2; 3] (empty, 0) with
          | Raise e => Raise e
          | Ok (segmented, _) =>
              match fold_res (λ s token, advance_qwen4_cache layout s [token]) fixture_tokens empty with
              | Raise e => Raise e
              | Ok decode =>
                  match fold_res (λ _ s, verify_qwen4_cache_state layout s) [prefill; segmented; decode] () with
                  | Raise e => Raise e
                  | Ok _ =>
                      let matches := bool_decide (prefill = segmented) && bool_decide (segmented = decode) in
                      Ok (JObj
                        [("schema_version", JInt 1); ("passed", JBool matches); ("architecture", JStr "qwen4_exp");
                         ("config_fingerprint", JStr (l_config_fingerprint layout)); ("fixture_tokens", JInt (Zlen fixture_tokens));
                         ("chunkings_compared", JInt 3); ("token_chain_sha256", JStr (token_chain_sha256 prefill));
                         ("prefill_segmented_decode_match", JBool matches); ("linear_layers", JInt (linear_layers layout));
                         ("full_attention_layers", JInt (full_attention_layers layout)); ("ple_layers", JInt (ple_layers layout));
                         ("ngram_tail_tokens", JInt (Zlen (ngram_tail prefill))); ("qsa_complete_blocks", JInt (qsa_complete_blocks prefill));
                         ("qsa_tail_tokens", JInt (qsa_tail_tokens prefill)); ("stores_token_ids", JBool false);
                         ("stores_tensor_values", JBool false); ("allocates_model_or_metal", JBool false)]%string)
                  end
              end
          end
      end
  end.

(** ** What the states mean

    The state of a model's caches when it has seen exactly [tokens]. *)
Definition after (layout : Qwen4CacheLayout) (tokens : list Z) : Qwen4CacheState :=
  mkState (l_config_fingerprint layout) (Zlen tokens) (bytes_hex (foldl chain_token (sha256 []) tokens))
    (last_tokens (ngram_context_tokens layout) tokens)
    (Z.min (Zlen tokens) (l_gdn_conv_tokens layout)) (if ple_layers layout =? 0 then 0 else Z.min (Zlen tokens) (l_ple_conv_tokens layout))
    (0 <? Zlen tokens) (Zlen tokens) (Zlen tokens) (Zlen tokens / qsa_compress_ratio layout) (Zlen tokens mod qsa_compress_ratio layout).
(** What one call may be given. *)
Definition sized (chunk : list Z) : Prop := 1 <= Zlen chunk <= MAX_ADVANCE_TOKENS.
Definition is_token (t : Z) : Prop := 0 <= t < 2 ^ 32.
Record layout_ok (layout : Qwen4CacheLayout) : Prop := {
  lo_ngram : 0 <= ngram_context_tokens layout;
  lo_gdn : 0 <= l_gdn_conv_tokens layout;
  lo_ple : 0 <= l_ple_conv_tokens layout;
  lo_ratio : 1 <= qsa_compress_ratio layout;
}.
Lemma dimension_bounds k text n : dimension k text = Some n → 1 <= n <= MAX_CACHE_TOKENS.
Proof. unfold dimension. destruct (strict_int _) as [m|]; [|done]. destruct ((1 <=? m) && (m <=? MAX_CACHE_TOKENS)) eqn:E; [|done]. intros [= <-]. by breflect. Qed.
Lemma layout_bounds config layout : qwen4_cache_layout config = Ok layout → layout_ok layout.
Proof.
  unfold qwen4_cache_layout. destruct (inspect_model_architecture config) as [c|]; [|done]. destruct (negb _); [done|].
  destruct (field _ _) as [[| | | | |[|v l']|]|]; try done. destruct (_ || _); [done|].
  destruct (dimension "ngram_size" _) as [a|] eqn:Ea; [|done]. destruct (dimension "linear_conv_kernel_dim" _) as [b|] eqn:Eb; [|done].
  destruct (dimension "ple_conv_kernel_size" _) as [d|] eqn:Ed; [|done]. destruct (dimension "indexer_compress_ratio" _) as [e|] eqn:Ee; [|done].
  destruct (dimension "indexer_budget" _); [|done]. destruct (get_or "ple_layer_ids" _ _); try done. destruct (forallb _ _); [|done].
  intros [= <-]. apply dimension_bounds in Ea, Eb, Ed, Ee. split; cbn; lia.
Qed.

(** ** Lemmas *)

Lemma Zlen_join {A} (l t : list A) : Zlen (l ++ t) = Zlen l + Zlen t.
Proof. unfold Zlen. rewrite length_app. lia. Qed.
Lemma last_tokens_app n l t : 0 <= n → last_tokens n (last_tokens n l ++ t) = last_tokens n (l ++ t).
Proof.
  intros Hn. unfold last_tokens. destruct (n =? 0) eqn:E; [done|]. breflect. rewrite !length_app, length_drop.
  destruct (decide (length l <= Z.to_nat n)%nat) as [Hl|Hl]; [by replace (length l - Z.to_nat n)%nat with O by lia; rewrite Nat.sub_0_r|].
  destruct (decide (length t <= Z.to_nat n)%nat) as [Ht|Ht].
  - rewrite !drop_app_le by (rewrite ?length_drop; lia). rewrite drop_drop. do 2 f_equal. lia.
  - rewrite !drop_app_ge by (rewrite ?length_drop; lia). rewrite length_drop. f_equal. lia.
Qed.
Lemma last_tokens_length n l : 0 <= n → Zlen (last_tokens n l) = Z.min (Zlen l) n.
Proof. intros Hn. unfold last_tokens, Zlen. destruct (n =? 0) eqn:E; breflect; [subst; cbn; lia|]. rewrite length_drop. lia. Qed.

Lemma hex_digit_spec n : (n < 16)%nat → hex_value (hex_digit n) = Some (Z.of_nat n) ∧ NumericStream.NumericStream.is_hex_lower (hex_digit n) = true.
Proof. intros Hn. do 16 (destruct n as [|n]; [done|]). lia. Qed.
Lemma hex_round_trip l : bytes_ok l → bytes_fromhex (bytes_hex l) = Ok l.
Proof.
  induction 1 as [|b l Hb _ IH]; [done|]. cbn [bytes_hex bytes_fromhex].
  assert (Hd : (Z.to_nat b / 16 < 16)%nat) by (apply Nat.Div0.div_lt_upper_bound; lia).
  rewrite (proj1 (hex_digit_spec _ Hd)), (proj1 (hex_digit_spec _ (Nat.mod_upper_bound (Z.to_nat b) 16 ltac:(lia)))), IH.
  do 2 f_equal. rewrite Nat2Z.inj_div, Nat2Z.inj_mod, Z2Nat.id by lia. pose proof (Z.div_mod b 16). lia.
Qed.
Lemma hex_is_digest l : bytes_ok l → length l = 32%nat → NumericStream.NumericStream.is_digest (bytes_hex l) = true.
Proof.
  intros Hl Hlen. unfold NumericStream.NumericStream.is_digest, str_len. apply andb_true_intro. split.
  - apply Z.eqb_eq. assert (String.length (bytes_hex l) = 2 * length l)%nat as ->; [|lia]. clear. induction l as [|b l IH]; [done|]. cbn in *. lia.
  - clear Hlen. induction Hl as [|b l Hb _ IH]; [done|]. cbn [bytes_hex String.list_ascii_of_string forallb].
    assert (Hd : (Z.to_nat b / 16 < 16)%nat) by (apply Nat.Div0.div_lt_upper_bound; lia).
    by rewrite (proj2 (hex_digit_spec _ Hd)), (proj2 (hex_digit_spec _ (Nat.mod_upper_bound (Z.to_nat b) 16 ltac:(lia)))), IH.
Qed.

Context `{Hsha : !Digest32 sha256}.
Lemma chain_digest tokens d : length d = 32%nat → bytes_ok d → length (foldl chain_token d tokens) = 32%nat ∧ bytes_ok (foldl chain_token d tokens).
Proof. revert d. induction tokens as [|t tokens IH]; intros d Hl Hd; [done|]. apply IH; apply Hsha. Qed.
Lemma after_digest tokens :
  NumericStream.NumericStream.is_digest (bytes_hex (foldl chain_token (sha256 []) tokens)) = true
  ∧ bytes_fromhex (bytes_hex (foldl chain_token (sha256 []) tokens)) = Ok (foldl chain_token (sha256 []) tokens).
Proof. destruct (chain_digest tokens (sha256 [])) as [Hl Hb]; [apply Hsha..|]. split; [by apply hex_is_digest|by apply hex_round_trip]. Qed.
Lemma is_token_spec tokens : forallb (λ t, (0 <=? t) && (t <? 2 ^ 32)) tokens = true ↔ Forall is_token tokens.
Proof. rewrite forallb_forall, Forall_forall. unfold is_token. split; intros H t Ht; specialize (H t); rewrite <-list_elem_of_In in *; specialize (H Ht); breflect; lia. Qed.

Lemma advance_after layout l t : layout_ok layout → sized t → Forall is_token t → Zlen (l ++ t) <= MAX_CACHE_TOKENS →
  advance_qwen4_cache layout (after layout l) t = Ok (after layout (l ++ t)).
Proof.
  intros Hlo [Hs1 Hs2] Ht Hmax. destruct (after_digest l) as [Hd Hf]. unfold advance_qwen4_cache. cbn [config_fingerprint token_chain_sha256 tokens_seen ngram_tail after].
  unfold str_eqb. rewrite bool_decide_true by done. rewrite Hd. cbn [negb]. rewrite (proj2 (is_token_spec t) Ht).
  rewrite (proj2 (Z.leb_le _ _) Hs1), (proj2 (Z.leb_le _ _) Hs2). cbn [andb negb].
  rewrite Zlen_join in Hmax. destruct (Z.ltb_spec MAX_CACHE_TOKENS (Zlen l + Zlen t)); [lia|]. rewrite Hf. unfold after.
  by rewrite Zlen_join, foldl_app, last_tokens_app by apply Hlo.
Qed.
Lemma empty_after layout : layout_ok layout → empty_qwen4_cache layout = after layout [].
Proof.
  intros []. unfold empty_qwen4_cache, after, last_tokens, Zlen. cbn. rewrite !Z.min_l, Z.mod_0_l, Z.div_0_l by lia.
  by destruct (_ =? 0), (_ =? 0).
Qed.
Lemma verify_after layout l : layout_ok layout → Zlen l <= MAX_CACHE_TOKENS → verify_qwen4_cache_state layout (after layout l) = Ok ().
Proof.
  intros Hlo Hl. pose proof (Zlen_nonneg l). unfold verify_qwen4_cache_state. cbn [config_fingerprint token_chain_sha256 tokens_seen ngram_tail after
    gdn_conv_tokens ple_conv_tokens qsa_complete_blocks qsa_tail_tokens kv_tokens_per_full_layer indexer_tokens_per_full_layer recurrent_initialized].
  unfold str_eqb. rewrite bool_decide_true by done. rewrite (proj1 (after_digest l)), last_tokens_length by apply Hlo. rewrite !Z.eqb_refl, eqb_reflx.
  rewrite (proj2 (Z.leb_le _ _) H), (proj2 (Z.leb_le _ _) Hl). done.
Qed.
Lemma segments_after layout chunks l : layout_ok layout → Forall sized chunks → Forall is_token (concat chunks) → Zlen (l ++ concat chunks) <= MAX_CACHE_TOKENS →
  fold_res (advance_qwen4_cache layout) chunks (after layout l) = Ok (after layout (l ++ concat chunks)).
Proof.
  intros Hlo. revert l. induction chunks as [|c chunks IH]; intros l Hs Ht Hmax; cbn in *; [by rewrite app_nil_r|].
  apply Forall_cons in Hs as [Hc Hs]. apply Forall_app in Ht as [Htc Ht]. rewrite app_assoc in *.
  rewrite advance_after; [by apply IH|done..|]. rewrite Zlen_join in Hmax. pose proof (Zlen_nonneg (concat chunks)). lia.
Qed.
Lemma fixture_passes config layout : qwen4_cache_layout config = Ok layout → layout_ok layout →
  ∃ report, run_qwen4_cache_fixture config = Ok (JObj report) ∧ od_get "passed"%string report = Some (JBool true)
    ∧ od_get "prefill_segmented_decode_match"%string report = Some (JBool true).
Proof.
  intros Hl Hlo. assert (Hmax : ∀ l : list Z, (length l <= 9)%nat → Zlen l <= MAX_CACHE_TOKENS) by (intros; unfold Zlen, MAX_CACHE_TOKENS; lia).
  assert (Ht : Forall is_token fixture_tokens) by (unfold fixture_tokens, is_token; repeat constructor; lia).
  assert (Hsegs : ∀ l, concat l = fixture_tokens → Forall sized l → fold_res (advance_qwen4_cache layout) l (empty_qwen4_cache layout) = Ok (after layout fixture_tokens)).
  { intros l Hc Hs. rewrite empty_after, <-Hc by done. apply (segments_after layout l []); [done|done|by rewrite Hc|]. cbn [app]. rewrite Hc. apply Hmax. cbn. lia. }
  assert (Hone : advance_qwen4_cache layout (empty_qwen4_cache layout) fixture_tokens = Ok (after layout fixture_tokens)).
  { pose proof (Hsegs [fixture_tokens] eq_refl ltac:(repeat constructor; unfold sized; done)) as H. cbn [fold_res] in H. by destruct (advance_qwen4_cache _ _ _). }
  assert (Hseg : fold_res (segment layout) [4; 2; 3] (empty_qwen4_cache layout, 0) = Ok (after layout fixture_tokens, 9)).
  { pose proof (Hsegs [take 4 fixture_tokens; take 2 (drop 4 fixture_tokens); drop 6 fixture_tokens] eq_refl ltac:(repeat constructor; unfold sized; done)) as H.
    cbn [fold_res] in H. unfold segment. cbn [fold_res fst snd]. change (drop (Z.to_nat 0) fixture_tokens) with fixture_tokens.
    change (take (Z.to_nat 4) fixture_tokens) with (take 4 fixture_tokens). destruct (advance_qwen4_cache layout (empty_qwen4_cache layout) (take 4 fixture_tokens)) as [s1|]; [|done]. cbn [fst snd].
    change (take (Z.to_nat 2) (drop (Z.to_nat (0 + 4)) fixture_tokens)) with (take 2 (drop 4 fixture_tokens)). destruct (advance_qwen4_cache layout s1 _) as [s2|]; [|done]. cbn [fst snd].
    change (take (Z.to_nat 3) (drop (Z.to_nat (0 + 4 + 2)) fixture_tokens)) with (drop 6 fixture_tokens). destruct (advance_qwen4_cache layout s2 _) as [s3|]; [|done]. by injection H as ->. }
  assert (Hdec : fold_res (λ s token, advance_qwen4_cache layout s [token]) fixture_tokens (empty_qwen4_cache layout) = Ok (after layout fixture_tokens)).
  { rewrite <-(fold_res_fmap (advance_qwen4_cache layout) (λ t, [t])). apply Hsegs; [done|]. unfold sized. repeat constructor; done. }
  unfold run_qwen4_cache_fixture. rewrite Hl, Hone, Hseg, Hdec. cbn [fold_res]. rewrite verify_after by (done || apply Hmax; cbn; lia).
  rewrite bool_decide_true by done. eauto.
Qed.

(** What [verify] asks of a state. *)
Record verified (layout : Qwen4CacheLayout) (s : Qwen4CacheState) : Prop := {
  vf_fingerprint : config_fingerprint s = l_config_fingerprint layout;
  vf_seen : 0 <= tokens_seen s <= MAX_CACHE_TOKENS;
  vf_digest : NumericStream.NumericStream.is_digest (token_chain_sha256 s) = true;
  vf_tail : Zlen (ngram_tail s) = Z.min (tokens_seen s) (ngram_context_tokens layout);
  vf_gdn : gdn_conv_tokens s = Z.min (tokens_seen s) (l_gdn_conv_tokens layout);
  vf_ple : ple_conv_tokens s = if ple_layers layout =? 0 then 0 else Z.min (tokens_seen s) (l_ple_conv_tokens layout);
  vf_blocks : qsa_complete_blocks s = tokens_seen s / qsa_compress_ratio layout;
  vf_rest : qsa_tail_tokens s = tokens_seen s mod qsa_compress_ratio layout;
  vf_kv : kv_tokens_per_full_layer s = tokens_seen s;
  vf_indexer : indexer_tokens_per_full_layer s = tokens_seen s;
  vf_recurrent : recurrent_initialized s = (0 <? tokens_seen s);
}.
Lemma verify_iff layout s : verify_qwen4_cache_state layout s = Ok () ↔ verified layout s.
Proof.
  unfold verify_qwen4_cache_state, str_eqb. split.
  - destruct (negb (bool_decide _)) eqn:E1; [done|]. destruct (negb (_ && _)) eqn:E2; [done|]. destruct (negb (NumericStream.NumericStream.is_digest _)) eqn:E3; [done|].
    destruct (negb (Zlen _ =? _)) eqn:E4; [done|]. destruct (_ || negb (eqb _ _)) eqn:E5; [done|]. intros _.
    repeat (apply orb_false_elim in E5 as [E5 ?]). repeat match goal with H : negb _ = false |- _ => apply negb_false_iff in H end.
    breflect. apply eqb_prop in H. split; done || lia.
  - intros [H1 [H2 H2'] H3 H4 H5 H6 H7 H8 H9 H10 H11]. rewrite bool_decide_true by done. rewrite (proj2 (Z.leb_le _ _) H2), (proj2 (Z.leb_le _ _) H2'), H3, H4, H5, H6, H7, H8, H9, H10, H11.
    by rewrite !Z.eqb_refl, eqb_reflx.
Qed.
Lemma hex_lower_value c : NumericStream.NumericStream.is_hex_lower c = true → ∃ v, hex_value c = Some v ∧ 0 <= v < 16.
Proof.
  unfold NumericStream.NumericStream.is_hex_lower, hex_value. set (n := Ascii.nat_of_ascii c). clearbody n. intros H.
  destruct ((48 <=? Z.of_nat n) && (Z.of_nat n <=? 57)) eqn:E1; [eexists; split; [done|]; breflect; lia|].
  destruct ((97 <=? Z.of_nat n) && (Z.of_nat n <=? 102)) eqn:E2; [eexists; split; [done|]; breflect; lia|].
  exfalso. apply orb_prop in H as [H|H]; apply andb_prop in H as [Ha%Nat.leb_le Hb%Nat.leb_le].
  - apply andb_false_iff in E1 as [E1|E1]; apply Z.leb_gt in E1; lia.
  - apply andb_false_iff in E2 as [E2|E2]; apply Z.leb_gt in E2; lia.
Qed.
Lemma fromhex_total k s : String.length s = (2 * k)%nat → forallb NumericStream.NumericStream.is_hex_lower (String.list_ascii_of_string s) = true →
  ∃ l, bytes_fromhex s = Ok l ∧ length l = k ∧ bytes_ok l.
Proof.
  revert s. induction k as [|k IH]; intros s Hl Hs.
  - destruct s; [|done]. exists []. repeat split. constructor.
  - destruct s as [|c [|d s]]; cbn in Hl; try lia. cbn in Hs. apply andb_prop in Hs as [Hc [Hd Hs]%andb_prop].
    destruct (hex_lower_value c Hc) as (x & Hx & Hxb), (hex_lower_value d Hd) as (y & Hy & Hyb). destruct (IH s) as (l & Hf & Hll & Hb); [lia|done|].
    exists (x * 16 + y :: l). cbn [bytes_fromhex length]. rewrite Hx, Hy, Hf. split; [done|]. split; [lia|]. constructor; [lia|done].
Qed.
Lemma digest_fromhex s : NumericStream.NumericStream.is_digest s = true → ∃ l, bytes_fromhex s = Ok l ∧ length l = 32%nat ∧ bytes_ok l.
Proof. unfold NumericStream.NumericStream.is_digest, str_len. intros [H1%Z.eqb_eq H2]%andb_prop. apply fromhex_total; [lia|done]. Qed.

(** A verified state stays verified, and only the documented checks refuse tokens. *)
Lemma advance_verified layout state tokens : layout_ok layout → verify_qwen4_cache_state layout state = Ok () →
  match advance_qwen4_cache layout state tokens with
  | Ok state' => verify_qwen4_cache_state layout state' = Ok () ∧ tokens_seen state' = tokens_seen state + Zlen tokens
  | Raise e => (∃ m, e = ValueError m) ∧ (¬ sized tokens ∨ ¬ Forall is_token tokens ∨ MAX_CACHE_TOKENS < tokens_seen state + Zlen tokens)
  end.
Proof.
  intros Hlo Hv%verify_iff. destruct (digest_fromhex _ (vf_digest _ _ Hv)) as (d & Hd & Hdl & Hdb). unfold advance_qwen4_cache, str_eqb.
  rewrite bool_decide_true by apply Hv. rewrite (vf_digest _ _ Hv). cbn [negb].
  destruct (negb (_ && _)) eqn:E1; [split; [eauto|left; unfold sized; breflect; lia]|].
  destruct (negb (forallb _ _)) eqn:E2; [split; [eauto|right; left; rewrite <-is_token_spec; by apply negb_true_iff in E2; rewrite E2]|].
  destruct (Z.ltb_spec MAX_CACHE_TOKENS (tokens_seen state + Zlen tokens)); [split; [eauto|by right; right]|].
  rewrite Hd. split; [|done]. apply verify_iff. pose proof (vf_seen _ _ Hv). pose proof (vf_tail _ _ Hv). pose proof (Zlen_nonneg tokens).
  split; cbn; try done; [lia| |].
  - destruct (chain_digest tokens d Hdl Hdb). by apply hex_is_digest.
  - rewrite last_tokens_length, Zlen_join by apply Hlo. pose proof (lo_ngram _ Hlo). lia.
Qed.

(** C17: the cache contract does not depend on how tokens are cut into calls: from the empty
    state, any chunks of legal sizes lead to the one state their tokens determine, which the
    verifier accepts.  A verified state advances to a verified state that has seen the new
    tokens as well, and is refused only with ValueError for an illegal size, an illegal token
    or the limit.  The fixture passes for every configuration that has a layout. *)
Theorem cache_contract_exact config layout : qwen4_cache_layout config = Ok layout →
  (∀ chunks, Forall sized chunks → Forall is_token (concat chunks) → Zlen (concat chunks) <= MAX_CACHE_TOKENS →
    fold_res (advance_qwen4_cache layout) chunks (empty_qwen4_cache layout) = Ok (after layout (concat chunks))
    ∧ verify_qwen4_cache_state layout (after layout (concat chunks)) = Ok ())
  ∧ (∀ state tokens, verify_qwen4_cache_state layout state = Ok () →
      match advance_qwen4_cache layout state tokens with
      | Ok state' => verify_qwen4_cache_state layout state' = Ok () ∧ tokens_seen state' = tokens_seen state + Zlen tokens
      | Raise e => (∃ m, e = ValueError m) ∧ (¬ sized tokens ∨ ¬ Forall is_token tokens ∨ MAX_CACHE_TOKENS < tokens_seen state + Zlen tokens)
      end)
  ∧ ∃ report, run_qwen4_cache_fixture config = Ok (JObj report) ∧ od_get "passed"%string report = Some (JBool true).
Proof.
  intros Hl. pose proof (layout_bounds _ _ Hl) as Hlo. split; [|split].
  - intros chunks Hs Ht Hmax. split; [|by apply verify_after]. rewrite empty_after by done. by apply (segments_after layout chunks []).
  - intros state tokens. by apply advance_verified.
  - destruct (fixture_passes _ _ Hl Hlo) as (report & Hr & Hp & _). eauto.
Qed.
End contract.

(** ** Witness *)

Definition demo_text : json := JObj
  [("layer_types", JArr [JStr "linear_attention"; JStr "full_attention"]); ("ngram_size", JInt 3); ("linear_conv_kernel_dim", JInt 4);
   ("ple_conv_kernel_size", JInt 4); ("indexer_compress_ratio", JInt 4); ("indexer_budget", JInt 64); ("ple_layer_ids", JArr [JInt 1]);
   ("max_position_embeddings", JInt 4096)]%string.
Definition demo_config : json := JObj [("model_type", JStr "qwen4_exp"); ("text_config", demo_text)]%string.
Definition demo_sha (l : bytes) : bytes := replicate 32 (foldl (λ n b, (n * 31 + b) mod 256) 7 l).
#[global] Instance demo_sha_shape : Digest32 demo_sha.
Proof.
  intros l. unfold demo_sha, bytes_ok. split; [by rewrite length_replicate|]. apply Forall_replicate. destruct l as [|b l] using rev_ind; [done|].
  rewrite foldl_app. apply Z.mod_pos_bound. lia.
Qed.
Definition demo_layout : Qwen4CacheLayout :=
  mkLayout (bytes_hex (demo_sha (ascii_bytes (canonical (λ _, ""%string) demo_config)))) 1 1 1 2 3 3 4 64.
Lemma cache_contract_exact_witness :
  qwen4_cache_layout demo_sha (λ _, ""%string) demo_config = Ok demo_layout
  ∧ fold_res (advance_qwen4_cache demo_sha demo_layout) [[5; 6]; [7]; [8; 9]] (empty_qwen4_cache demo_sha demo_layout)
    = fold_res (advance_qwen4_cache demo_sha demo_layout) [[5]; [6; 7; 8; 9]] (empty_qwen4_cache demo_sha demo_layout)
  ∧ qsa_complete_blocks (after demo_sha demo_layout [5; 6; 7; 8; 9]) = 1.
Proof.
  assert (Hl : qwen4_cache_layout demo_sha (λ _, ""%string) demo_config = Ok demo_layout) by (vm_compute; reflexivity).
  destruct (cache_contract_exact demo_sha (λ _, ""%string) demo_config demo_layout Hl) as [Hc _].
  split; [exact Hl|]. split; [|vm_compute; reflexivity].
  rewrite (proj1 (Hc [[5; 6]; [7]; [8; 9]] ltac:(repeat constructor; unfold sized; vm_compute; congruence)
    ltac:(cbn; unfold is_token; repeat constructor; lia) ltac:(vm_compute; congruence))).
  rewrite (proj1 (Hc [[5]; [6; 7; 8; 9]] ltac:(repeat constructor; unfold sized; vm_compute; congruence)
    ltac:(cbn; unfold is_token; repeat constructor; lia) ltac:(vm_compute; congruence))). reflexivity.
Defined.

(** An infinite YaRN factor is not refused as invalid: the conversion to an integer raises. *)
Example infinite_factor :
  extended_context 4096 (Some (JFloat (SpecFloat.S754_infinity false))) = Raise OverflowError.
Proof. reflexivity. Qed.
End CacheContract.
