(* ===== verification/CoreMLWorkerCache.v ===== *)
(** * The cache of Core ML workers

    coreml_worker_cache.py: subprocesses that hold loaded models, kept under the identity of
    the model and leased to callers; and the checks of its configuration in ane_probe.py.  The
    workers themselves belong to the host. *)

From S2P Require Import Prelude Types OrderedDict PySort PyFloat PyBytes Json.
From S2P Require NumericStream.
Import OrderedDict PySort PyBytes Json.

Module CoreMLWorkerCache.

(** ** Configurations and keys *)

Record CoreMLANEModelProbeConfig := mkConfig {
  model_path : string;
  integrity_manifest_path : string;
  model_root_sha256 : string;
  input_name : string;
  output_name : string;
  input_values : list PyFloat.float;
  expected_values : list PyFloat.float;
  baseline_latency_nanoseconds : Z;
  maximum_absolute_error : PyFloat.float;
}.
Definition in_bounds (low high n : Z) : bool := (low <=? n) && (n <=? high).
(** [CoreMLANEModelProbeConfig.__post_init__] *)
Definition make_config (c : CoreMLANEModelProbeConfig) : res exn CoreMLANEModelProbeConfig :=
  if negb (NumericStream.NumericStream.is_digest (model_root_sha256 c)) then Raise (ValueError "invalid ANE fixture digest")
  else if negb (in_bounds 1 128 (str_len (input_name c)) && in_bounds 1 128 (str_len (output_name c))) then Raise (ValueError "invalid ANE fixture feature name")
  else if negb (in_bounds 1 4096 (Zlen (input_values c))) || negb (in_bounds 1 4096 (Zlen (expected_values c)))
       || negb (forallb PyFloat.is_finite (input_values c ++ expected_values c)) || (baseline_latency_nanoseconds c <=? 0)
       || negb (PyFloat.is_finite (maximum_absolute_error c)) || PyFloat.fltb (maximum_absolute_error c) PyFloat.zero
  then Raise (ValueError "invalid ANE fixture bounds")
  else Ok c.

Record CoreMLWorkerCacheKey := mkKey {
  k_hardware_fingerprint : string;
  k_os_version : string;
  k_model_root_sha256 : string;
  k_input_name : string;
  k_output_name : string;
  k_input_count : Z;
}.
#[global] Instance CoreMLWorkerCacheKey_eq_dec : EqDecision CoreMLWorkerCacheKey.
Proof. solve_decision. Defined.
(** [CoreMLWorkerCacheKey.__post_init__] *)
Definition make_key (k : CoreMLWorkerCacheKey) : res exn CoreMLWorkerCacheKey :=
  check (in_bounds 1 128 (str_len (k_hardware_fingerprint k)) && in_bounds 1 128 (str_len (k_os_version k))
         && NumericStream.NumericStream.is_digest (k_model_root_sha256 k) && in_bounds 1 128 (str_len (k_input_name k))
         && in_bounds 1 128 (str_len (k_output_name k)) && in_bounds 1 4096 (k_input_count k))
    (ValueError "invalid Core ML worker cache key") k.
Definition from_config (c : CoreMLANEModelProbeConfig) (hardware_fingerprint os_version : string) : res exn CoreMLWorkerCacheKey :=
  make_key (mkKey hardware_fingerprint os_version (model_root_sha256 c) (input_name c) (output_name c) (Zlen (input_values c))).
(** The identifier, with SHA-256 and the text of floats as parameters. *)
Definition cache_id (sha256 : string → string) (float_repr : PyFloat.float → string) (k : CoreMLWorkerCacheKey) : string :=
  String.substring 0 24 (sha256 (dumps float_repr (JObj
    [("hardware_fingerprint", JStr (k_hardware_fingerprint k)); ("os_version", JStr (k_os_version k));
     ("model_root_sha256", JStr (k_model_root_sha256 k)); ("input_name", JStr (k_input_name k));
     ("output_name", JStr (k_output_name k)); ("input_count", JInt (k_input_count k))]%string))).

(** ** The cache

    Workers are numbered in the order the factory makes them, leases in the order they are
    handed out.  [calls] records what was done to the workers. *)

Inductive call := Created (w : nat) | Closed (w : nat) | Predicted (w : nat).
#[global] Instance call_eq_dec : EqDecision call.
Proof. solve_decision. Defined.
Record Entry := mkEntry { worker : nat; lease_count : Z; last_used : Z }.
(** Where the thread that uses a lease is in a method of it: in none, about to use the
    worker after the test of [predict], about to set the flag after the test of [release],
    or about to give the count back. *)
Inductive Stage := Ready | Predicting | Releasing | Owing.
#[global] Instance Stage_eq_dec : EqDecision Stage.
Proof. solve_decision. Defined.
Record Lease := mkLease { l_key : CoreMLWorkerCacheKey; l_worker : nat; released : bool; stage : Stage }.
Record CoreMLWorkerCache (H : Type) := mkCache {
  maximum : Z;
  entries : list (CoreMLWorkerCacheKey * Entry);
  clock : Z;
  closed : bool;
  leases : list Lease;
  made : nat;
  calls : list call;
  host : H;
}.
Arguments mkCache {H} _ _ _ _ _ _ _ _.
Arguments maximum {H} _. Arguments entries {H} _. Arguments clock {H} _. Arguments closed {H} _.
Arguments leases {H} _. Arguments made {H} _. Arguments calls {H} _. Arguments host {H} _.

(** The factory and the methods of a worker. *)
Class WorkerHost (H Values Prediction : Type) := {
  wh_factory : CoreMLANEModelProbeConfig → nat → M exn H ();
  wh_close : nat → M exn H ();
  wh_predict : nat → Values → M exn H Prediction;
}.

Section cache.
Context {H Values Prediction : Type} `{!WorkerHost H Values Prediction}.
Implicit Types s : CoreMLWorkerCache H.

Definition with_entries d s := mkCache (maximum s) d (clock s) (closed s) (leases s) (made s) (calls s) (host s).
Definition with_leases l s := mkCache (maximum s) (entries s) (clock s) (closed s) l (made s) (calls s) (host s).
Definition with_host (h : H) s := mkCache (maximum s) (entries s) (clock s) (closed s) (leases s) (made s) (calls s) h.
Definition record_call c s := mkCache (maximum s) (entries s) (clock s) (closed s) (leases s) (made s) (calls s ++ [c]) (host s).
Definition tick s := mkCache (maximum s) (entries s) (clock s + 1) (closed s) (leases s) (made s) (calls s) (host s).
Definition make_worker s := mkCache (maximum s) (entries s) (clock s) (closed s) (leases s) (S (made s)) (calls s ++ [Created (made s)]) (host s).
Definition set_closed s := mkCache (maximum s) [] (clock s) true (leases s) (made s) (calls s) (host s).
Abbreviation Cached A := (M exn (CoreMLWorkerCache H) A).
Definition on_host {A} (m : M exn H A) : Cached A := zoom host with_host m.

(** [CoreMLWorkerCache.__init__] *)
Definition init_cache (maximum_workers : Z) (h : H) : res exn (CoreMLWorkerCache H) :=
  check (in_bounds 1 16 maximum_workers) (ValueError "invalid Core ML worker cache configuration")
    (mkCache maximum_workers [] 0 false [] 0 [] h).

(** [worker.close()] *)
Definition close_worker (w : nat) : Cached () := modify (record_call (Closed w)) ;;; on_host (wh_close w).
(** [min(idle, key=lambda item: item[0])]: the first of the least. *)
Fixpoint least (cur : Z * CoreMLWorkerCacheKey) (l : list (Z * CoreMLWorkerCacheKey)) : Z * CoreMLWorkerCacheKey :=
  match l with [] => cur | x :: l' => least (if x.1 <? cur.1 then x else cur) l' end.
Definition idle_entries (d : list (CoreMLWorkerCacheKey * Entry)) : list (Z * CoreMLWorkerCacheKey) :=
  (λ p, (last_used p.2, p.1)) <$> filter (λ p, lease_count p.2 = 0) d.
Definition evict_idle : Cached () := λ s,
  match idle_entries (entries s) with
  | [] => (Raise (RuntimeError "Core ML worker cache capacity is fully leased"), s)
  | x :: l =>
      let victim := (least x l).2 in
      match od_get victim (entries s) with
      | Some e => close_worker (worker e) (with_entries (od_del victim (entries s)) s)
      | None => (Raise (KeyError "victim"), s)
      end
  end.
(** [worker = self._factory(config)], and the entry *)
Definition add_worker (key : CoreMLWorkerCacheKey) (config : CoreMLANEModelProbeConfig) : Cached () := λ s,
  (on_host (wh_factory config (made s)) ;;;
   modify make_worker ;;;
   modify (λ s', with_entries (od_set key (mkEntry (made s) 0 (clock s')) (entries s')) s')) s.
(** The last lines of [acquire]; the lease is returned by its number. *)
Definition lend (key : CoreMLWorkerCacheKey) : Cached nat := λ s,
  match od_get key (entries s) with
  | None => (Raise AssertionError, s)
  | Some e =>
      (Ok (length (leases s)),
       with_leases (leases s ++ [mkLease key (worker e) false Ready]) (with_entries (od_set key (mkEntry (worker e) (lease_count e + 1) (clock s)) (entries s)) s))
  end.
Definition ensure_entry (key : CoreMLWorkerCacheKey) (config : CoreMLANEModelProbeConfig) : Cached () := λ s,
  match od_get key (entries s) with
  | Some _ => (Ok (), s)
  | None => ((if maximum s <=? Zlen (entries s) then evict_idle else ret ()) ;;; add_worker key config) s
  end.
(** [CoreMLWorkerCache.acquire] *)
Definition acquire (key : CoreMLWorkerCacheKey) (config : CoreMLANEModelProbeConfig) : Cached nat :=
  let! expected := lift (from_config config (k_hardware_fingerprint key) (k_os_version key)) in
  guard_raise (negb (bool_decide (key = expected))) (ValueError "Core ML worker cache key does not match model configuration") ;;;
  let! s := get in
  guard_raise (closed s) (RuntimeError "Core ML worker cache is closed") ;;;
  modify tick ;;;
  ensure_entry key config ;;;
  lend key.
(** [CoreMLWorkerCache._release] *)
Definition release_key (key : CoreMLWorkerCacheKey) : Cached () := λ s,
  match od_get key (entries s) with
  | Some e =>
      if lease_count e <=? 0 then (Raise (RuntimeError "Core ML worker cache lease accounting failed"), s)
      else let s1 := tick s in (Ok (), with_entries (od_set key (mkEntry (worker e) (lease_count e - 1) (clock s1)) (entries s1)) s1)
  | None => (Raise (RuntimeError "Core ML worker cache lease accounting failed"), s)
  end.
(** The methods of a lease hold no lock: each is the sequence of what it does at once. *)
Definition set_lease (i : nat) (l : Lease) s := with_leases (<[i := l]> (leases s)) s.
Definition at_stage (l : Lease) (st : Stage) : Lease := mkLease (l_key l) (l_worker l) (released l) st.
(** [if not self._released]; a lease that does not exist is not released. *)
Definition release_test (i : nat) : Cached bool := λ s,
  match leases s !! i with
  | Some l => if released l then (Ok false, s) else (Ok true, set_lease i (at_stage l Releasing) s)
  | None => (Ok false, s)
  end.
(** [self._released = True] *)
Definition release_set (i : nat) : Cached () := λ s,
  match leases s !! i with
  | Some l => (Ok (), set_lease i (mkLease (l_key l) (l_worker l) true Owing) s)
  | None => (Ok (), s)
  end.
(** [self._cache._release(self.key)] *)
Definition release_count (i : nat) : Cached () := λ s,
  match leases s !! i with
  | Some l => release_key (l_key l) (set_lease i (at_stage l Ready) s)
  | None => (Ok (), s)
  end.
(** [CoreMLWorkerLease.release], and [close] and [__exit__]. *)
Definition release (i : nat) : Cached () :=
  let! unreleased := release_test i in
  if unreleased then release_set i ;;; release_count i else ret ().
(** [if self._released: raise ...] *)
Definition predict_test (i : nat) : Cached () := λ s,
  match leases s !! i with
  | Some l =>
      if released l then (Raise (RuntimeError "Core ML worker cache lease was released"), s)
      else (Ok (), set_lease i (at_stage l Predicting) s)
  | None => (Ok (), s)
  end.
(** [self.worker.predict(values)] *)
Definition predict_call (i : nat) (values : Values) : Cached (option Prediction) := λ s,
  match leases s !! i with
  | Some l =>
      (modify (record_call (Predicted (l_worker l))) ;;; let! p := on_host (wh_predict (l_worker l) values) in ret (Some p))
        (set_lease i (at_stage l Ready) s)
  | None => (Ok None, s)
  end.
(** [CoreMLWorkerLease.predict] *)
Definition predict (i : nat) (values : Values) : Cached (option Prediction) := predict_test i ;;; predict_call i values.
(** [for entry in entries: try: entry.worker.close() except ...] *)
Fixpoint close_all (l : list Entry) : Cached (list string) :=
  match l with
  | [] => ret []
  | e :: l' =>
      let! failed := (λ s, match close_worker (worker e) s with (Ok _, s') => (Ok [], s') | (Raise x, s') => (Ok [exn_name x], s') end) in
      let! more := close_all l' in ret (failed ++ more)
  end.
(** [repr] of a list of names *)
Definition names_repr (l : list string) : string := ("[" +:+ str_join ", " ((λ n, ("'" +:+ n +:+ "'")%string) <$> l) +:+ "]")%string.
(** The locked part of [close]: the entries to close. *)
Definition close_begin : Cached (list Entry) := λ s,
  if closed s then (Ok [], s)
  else if existsb (λ p, negb (lease_count p.2 =? 0)) (entries s) then (Raise (RuntimeError "cannot close Core ML worker cache with active leases"), s)
  else (Ok (entries s).*2, set_closed s).
(** [CoreMLWorkerCache.close] *)
Definition close : Cached () :=
  let! found := close_begin in
  let! failures := close_all found in
  match failures with
  | [] => ret ()
  | _ => raise (RuntimeError ("Core ML worker cache shutdown failures: " +:+ names_repr failures)%string)
  end.
(** [CoreMLWorkerCache.snapshot] *)
Record Snapshot := mkSnapshot { maximum_workers : Z; resident_workers : Z; active_leases : Z; cache_ids : list string }.
Definition snapshot (sha256 : string → string) (float_repr : PyFloat.float → string) s : Snapshot :=
  mkSnapshot (maximum s) (Zlen (entries s)) (od_sum lease_count (entries s))
    (sorted_by String.leb ((λ p, cache_id sha256 float_repr p.1) <$> entries s)).

(** ** Runs *)

(** Threads that acquire, use and release leases and close the cache, with the workers
    that a [close] has taken and not closed yet.  What holds the lock is one step; a lease
    is in one method at a time, so one thread at a time uses it. *)
Definition found (r : res exn (list Entry)) : list nat := match r with Ok l => worker <$> l | Raise _ => [] end.
Inductive wstep : list nat * CoreMLWorkerCache H → list nat * CoreMLWorkerCache H → Prop :=
| w_acquire key config p s : wstep (p, s) (p, (acquire key config s).2)
| w_predict_test i l p s : leases s !! i = Some l → stage l = Ready → wstep (p, s) (p, (predict_test i s).2)
| w_predict_call i l values p s : leases s !! i = Some l → stage l = Predicting → wstep (p, s) (p, (predict_call i values s).2)
| w_release_test i l p s : leases s !! i = Some l → stage l = Ready → wstep (p, s) (p, (release_test i s).2)
| w_release_set i l p s : leases s !! i = Some l → stage l = Releasing → wstep (p, s) (p, (release_set i s).2)
| w_release_count i l p s : leases s !! i = Some l → stage l = Owing → wstep (p, s) (p, (release_count i s).2)
| w_close_begin p s : wstep (p, s) (p ++ found (close_begin s).1, (close_begin s).2)
| w_close_one w p s : wstep (w :: p, s) (p, (close_worker w s).2).

(** ** Invariant *)

(** A worker is created once, used between, and closed once. *)
Definition allowed (l : list call) (c : call) : Prop :=
  match c with
  | Created w => Created w ∉ l
  | Closed w | Predicted w => Created w ∈ l ∧ Closed w ∉ l
  end.
Inductive lifecycle : list call → Prop :=
| lifecycle_nil : lifecycle []
| lifecycle_snoc l c : lifecycle l → allowed l c → lifecycle (l ++ [c]).
Definition alive s (w : nat) : Prop := Created w ∈ calls s ∧ Closed w ∉ calls s.
Definition workers s : list nat := worker <$> (entries s).*2.
(** A lease that is not released, or whose release still owes the count. *)
Definition counted (l : Lease) : bool := negb (released l) || bool_decide (stage l = Owing).
Definition holds (k : CoreMLWorkerCacheKey) (l : Lease) : Prop := l_key l = k ∧ counted l = true.
(** The flag is set only on the way from [Releasing] to [Owing]. *)
Definition staged (l : Lease) : Prop :=
  match stage l with Ready => True | Predicting | Releasing => released l = false | Owing => released l = true end.
#[local] Instance holds_dec k l : Decision (holds k l).
Proof. unfold holds. apply _. Defined.
(** The leases that count on a key. *)
Definition held (k : CoreMLWorkerCacheKey) s : Z := Zlen (filter (holds k) (leases s)).

(** [pending]: workers that have left the cache and are still to be closed. *)
Record inv (pending : list nat) s : Prop := {
  i_bound : Zlen (entries s) <= maximum s;
  i_wf : od_wf (entries s);
  i_count : ∀ k e, od_get k (entries s) = Some e → lease_count e = held k s;
  i_held : ∀ l, l ∈ leases s → counted l = true → ∃ e, od_get (l_key l) (entries s) = Some e ∧ worker e = l_worker l;
  i_alive : ∀ w, w ∈ workers s ++ pending ↔ alive s w;
  i_unique : NoDup (workers s ++ pending);
  i_made : ∀ w, Created w ∈ calls s ↔ (w < made s)%nat;
  i_calls : lifecycle (calls s);
  i_used : ∀ k e, od_get k (entries s) = Some e → last_used e <= clock s;
  i_closed : closed s = true → entries s = [];
  i_stage : ∀ l, l ∈ leases s → staged l;
}.

Lemma inv_host pending h s : inv pending s → inv pending (with_host h s).
Proof. intros []. by split. Qed.
Lemma inv_on_host {A} pending (m : M exn H A) s : inv pending s → inv pending (on_host m s).2.
Proof. intros Hs. unfold on_host, zoom. destruct (m (host s)). by apply inv_host. Qed.
Lemma inv_tick pending s : inv pending s → inv pending (tick s).
Proof. intros []. split; try done. cbn. intros k e Hk. pose proof (i_used0 k e Hk). lia. Qed.
Lemma init_cache_inv n h s : init_cache n h = Ok s → inv [] s.
Proof.
  unfold init_cache, check. destruct (in_bounds 1 16 n) eqn:E; [|done]. intros [= <-]. unfold in_bounds in E. breflect.
  split; cbn; try done; [unfold Zlen; cbn; lia|constructor| | |constructor|intros w|constructor|].
  - intros l Hl. by apply elem_of_nil in Hl.
  - intros w. unfold workers, alive. cbn. split; [by intros Hw%elem_of_nil|by intros [Hw%elem_of_nil _]].
  - split; [by intros Hw%elem_of_nil|lia].
  - intros l Hl. by apply elem_of_nil in Hl.
Qed.

(** Calls are only added. *)
Lemma in_snoc {A} (x y : A) l : x ∈ l ++ [y] ↔ x ∈ l ∨ x = y.
Proof. by rewrite elem_of_app, list_elem_of_singleton. Qed.
Lemma inv_used pending w s : inv pending s → w ∈ workers s ++ pending → inv pending (record_call (Predicted w) s).
Proof.
  intros [] Hw. split; try done; cbn; unfold alive; cbn.
  - intros v. rewrite !in_snoc. rewrite i_alive0. unfold alive. naive_solver.
  - intros v. rewrite in_snoc. rewrite <-i_made0. naive_solver.
  - constructor; [done|]. by apply i_alive0.
Qed.
Lemma inv_close_worker pending w s : inv (w :: pending) s → inv pending (close_worker w s).2.
Proof.
  intros Hs. unfold close_worker, bind, modify. apply inv_on_host. destruct Hs. assert (Hw : alive s w) by (apply i_alive0; rewrite elem_of_app, elem_of_cons; auto).
  assert (Hperm : workers s ++ w :: pending ≡ₚ w :: workers s ++ pending) by (symmetry; apply Permutation_middle). rewrite Hperm in i_unique0. apply NoDup_cons in i_unique0 as [Hn Hu].
  split; try done; cbn; unfold alive; cbn.
  - intros v. specialize (i_alive0 v). rewrite Hperm, elem_of_cons in i_alive0. unfold alive in i_alive0. rewrite !in_snoc.
    destruct (decide (v = w)) as [->|Hv]; [split; [done|]; intros [_ Hc]; exfalso; apply Hc; by right|].
    assert (Closed v ≠ Closed w) by congruence. naive_solver.
  - intros v. rewrite in_snoc, <-i_made0. naive_solver.
  - by constructor.
Qed.
(** An entry without leases may leave. *)
Lemma held_zero k s : held k s = 0 → ∀ l, l ∈ leases s → counted l = true → l_key l ≠ k.
Proof.
  unfold held. intros Hz l Hl Hr Hk. assert (Hin : l ∈ filter (holds k) (leases s)) by (apply list_elem_of_filter; by split).
  destruct (filter _ _); [by apply elem_of_nil in Hin|]. unfold Zlen in Hz. cbn in Hz. lia.
Qed.
Lemma inv_remove pending k e s : inv pending s → od_get k (entries s) = Some e → lease_count e = 0 → inv (worker e :: pending) (with_entries (od_del k (entries s)) s).
Proof.
  intros [] Hk He. pose proof (od_del_Permutation _ _ _ Hk) as Hp.
  assert (Hw : workers s ≡ₚ worker e :: (worker <$> (od_del k (entries s)).*2)) by (exact (Permutation_map worker (Permutation_map snd Hp))).
  assert (Hget : ∀ k' e', od_get k' (od_del k (entries s)) = Some e' → k' ≠ k ∧ od_get k' (entries s) = Some e').
  { intros k' e' Hk'. destruct (decide (k' = k)) as [->|Hne]; [by rewrite od_get_del in Hk'|]. by rewrite od_get_del_ne in Hk'. }
  assert (Hall : (worker <$> (od_del k (entries s)).*2) ++ worker e :: pending ≡ₚ workers s ++ pending) by (rewrite Hw; symmetry; apply Permutation_middle).
  split; try done; unfold workers in *; cbn.
  - rewrite od_length_del by eauto. lia.
  - by apply od_wf_del.
  - intros k' e' [_ Hk']%Hget. by apply i_count0.
  - intros l Hl Hr. destruct (i_held0 l Hl Hr) as (e' & He' & Hwe). exists e'. split; [|done]. rewrite od_get_del_ne; [done|].
    intros ->. apply (held_zero (l_key l) s) with l; [|done..]. rewrite <-(i_count0 _ _ Hk). done.
  - intros w. by rewrite Hall.
  - by rewrite Hall.
  - intros k' e' [_ Hk']%Hget. by apply (i_used0 k').
  - intros Hc. by rewrite (i_closed0 Hc) in Hk.
Qed.
(** A new worker and its entry. *)
Lemma inv_make k s : inv [] s → od_get k (entries s) = None → held k s = 0 → Zlen (entries s) < maximum s → closed s = false →
  let s1 := make_worker s in inv [] (with_entries (od_set k (mkEntry (made s) 0 (clock s)) (entries s)) s1).
Proof.
  intros [] Hk Hh Hb Hc s1. assert (Hget : ∀ k' e', od_get k' (od_set k (mkEntry (made s) 0 (clock s)) (entries s)) = Some e' →
    (k' = k ∧ e' = mkEntry (made s) 0 (clock s)) ∨ (k' ≠ k ∧ od_get k' (entries s) = Some e')).
  { intros k' e' Hk'. destruct (decide (k' = k)) as [->|Hne]; [left; rewrite od_get_set in Hk'; naive_solver|right; by rewrite od_get_set_ne in Hk']. }
  assert (Hfresh : made s ∉ workers s ++ []). { rewrite i_alive0. intros [Hcr _]. apply i_made0 in Hcr. lia. }
  rewrite app_nil_r in *. unfold workers in *.
  split; subst s1; cbn; rewrite ?app_nil_r; unfold workers; cbn; try done.
  - rewrite od_set_new by done. unfold Zlen in *. rewrite length_app. cbn. lia.
  - by apply od_wf_set.
  - intros k' e' [[-> ->]|[_ Hk']]%Hget; [by rewrite <-Hh|by apply i_count0].
  - intros l Hl Hr. destruct (i_held0 l Hl Hr) as (e' & He' & Hwe). exists e'. split; [|done]. rewrite od_get_set_ne; [done|]. intros Heq. rewrite <-Heq in He'. congruence.
  - intros w. rewrite od_set_new, !fmap_app by done. cbn. rewrite in_snoc, i_alive0. unfold alive. cbn. rewrite !in_snoc.
    assert (Hcl : Closed w ∉ calls s ∨ Created w ∈ calls s).
    { destruct (decide (Closed w ∈ calls s)) as [Hin|]; [right|by left]. clear -i_calls0 Hin. induction i_calls0 as [|l c Hl IH Ha]; [by apply elem_of_nil in Hin|].
      apply in_snoc in Hin as [Hin| <-]; apply in_snoc; left; [by apply IH|by apply Ha]. }
    assert (Created w = Created (made s) ↔ w = made s) by naive_solver. assert (Closed w ≠ Created (made s)) by done.
    assert (w = made s → Created w ∉ calls s) by (intros ->; rewrite i_made0; lia). naive_solver.
  - rewrite od_set_new, !fmap_app by done. cbn. apply NoDup_app. split; [done|]. split; [|by apply NoDup_singleton].
    intros w Hw ->%list_elem_of_singleton. by apply Hfresh.
  - intros w. rewrite in_snoc, i_made0. split; [intros [Hw|[= ->]]; lia|]. intros Hw. destruct (decide (w = made s)) as [->|]; [by right|left; lia].
  - constructor; [done|]. cbn. rewrite i_made0. lia.
  - intros k' e' [[-> ->]|[_ Hk']]%Hget; cbn; [lia|by apply (i_used0 k')].
  - by rewrite Hc.
Qed.

(** ** Operations *)

Lemma held_positive s i l : leases s !! i = Some l → counted l = true → 1 <= held (l_key l) s.
Proof.
  intros Hi Hr. unfold held, Zlen. assert (Hin : l ∈ filter (holds (l_key l)) (leases s)) by (apply list_elem_of_filter; split; [done|by eapply list_elem_of_lookup_2]).
  destruct (filter _ _); [by apply elem_of_nil in Hin|]. cbn. lia.
Qed.
Lemma held_absent pending k s : inv pending s → od_get k (entries s) = None → held k s = 0.
Proof.
  intros Hs Hk. unfold held. destruct (filter _ _) as [|l ls] eqn:E; [done|]. exfalso.
  assert (Hin : l ∈ filter (holds k) (leases s)) by (rewrite E; left). apply list_elem_of_filter in Hin as [[Hlk Hr] Hin].
  destruct (i_held _ _ Hs l Hin Hr) as (e & He & _). congruence.
Qed.
Lemma held_snoc k s l : held k (with_leases (leases s ++ [l]) s) = held k s + (if decide (holds k l) then 1 else 0).
Proof. unfold held. cbn [leases with_leases]. rewrite filter_app, filter_cons, filter_nil. unfold Zlen. rewrite length_app. case_decide; cbn; lia. Qed.
Lemma held_set k s i l l' : leases s !! i = Some l →
  held k (set_lease i l' s) = held k s - (if decide (holds k l) then 1 else 0) + (if decide (holds k l') then 1 else 0).
Proof.
  intros Hi. unfold held. cbn [leases with_leases set_lease]. rewrite (insert_take_drop _ i) by (by eapply lookup_lt_Some).
  rewrite <-(take_drop_middle _ _ _ Hi) at 3. rewrite !filter_app, !filter_cons. unfold Zlen. rewrite !length_app.
  repeat case_decide; cbn; lia.
Qed.
(** A lease of the list after one was replaced. *)
Lemma set_lease_in i l l' x s : leases s !! i = Some l → x ∈ leases (set_lease i l' s) → x = l' ∨ x ∈ leases s.
Proof.
  intros Hi Hx. cbn in Hx. apply list_elem_of_lookup in Hx as [j Hj]. destruct (decide (i = j)) as [->|Hne].
  - rewrite list_lookup_insert_eq in Hj by (by eapply lookup_lt_Some). injection Hj as <-. by left.
  - rewrite list_lookup_insert_ne in Hj by done. right. by eapply list_elem_of_lookup_2.
Qed.
(** A thread moves inside a method of its lease. *)
Lemma inv_restage pending i l l' s : inv pending s → leases s !! i = Some l → l_key l' = l_key l → l_worker l' = l_worker l →
  counted l' = counted l → staged l' → inv pending (set_lease i l' s).
Proof.
  intros Hs Hi Hk Hw Hc Hst. pose proof (λ k, held_set k s i l l' Hi) as Hheld. pose proof (λ x, set_lease_in i l l' x s Hi) as Hin.
  destruct Hs. split; try done; cbn.
  - intros k e He. rewrite Hheld, (i_count0 k e He). assert (Heq : holds k l' ↔ holds k l) by (unfold holds; by rewrite Hk, Hc). repeat case_decide; first [lia|tauto].
  - intros x [->|Hx]%Hin Hcx; [|by apply i_held0]. rewrite Hk, Hw. apply i_held0; [by eapply list_elem_of_lookup_2|by rewrite <-Hc].
  - intros x [->|Hx]%Hin; [done|by apply i_stage0].
Qed.
(** An entry whose leases change by one. *)
Lemma inv_update s s' key e n u ls : inv [] s → od_get key (entries s) = Some e → clock s <= clock s' → u <= clock s' →
  s' = mkCache (maximum s) (od_set key (mkEntry (worker e) n u) (entries s)) (clock s') (closed s) ls (made s) (calls s) (host s') →
  (∀ k e', od_get k (od_set key (mkEntry (worker e) n u) (entries s)) = Some e' → lease_count e' = held k s') →
  (∀ l, l ∈ ls → counted l = true → ∃ e', od_get (l_key l) (entries s) = Some e' ∧ worker e' = l_worker l) →
  (∀ l, l ∈ ls → staged l) → inv [] s'.
Proof.
  intros [] Hk Hc Hu Hs' Hcount Hheld Hst. assert (Hw : workers s' = workers s).
  { rewrite Hs'. unfold workers. cbn. destruct (od_split key e (entries s) Hk) as (d1 & d2 & Hd & _ & Hset). rewrite Hset, Hd, !fmap_app. done. }
  assert (Hsome : is_Some (od_get key (entries s))) by eauto. rewrite Hs' in Hw |- *. unfold workers in *.
  split; unfold workers, alive in *; cbn in *; rewrite ?Hw; try done.
  - by rewrite od_length_set.
  - by apply od_wf_set.
  - intros k e' He'. rewrite (Hcount k e' He'), Hs'. done.
  - intros l Hl Hr. destruct (Hheld l Hl Hr) as (e' & He' & Hwe). destruct (decide (key = l_key l)) as [->|Hne].
    + eexists. split; [apply od_get_set|]. cbn. congruence.
    + exists e'. by rewrite od_get_set_ne.
  - intros k e' He'. destruct (decide (key = k)) as [->|Hne]; [rewrite od_get_set in He'; injection He' as <-; done|].
    rewrite od_get_set_ne in He' by done. pose proof (i_used0 _ _ He'). lia.
  - intros Hcl. rewrite (i_closed0 Hcl) in Hk. done.
Qed.
Lemma inv_lend s key e : inv [] s → od_get key (entries s) = Some e → 
  let '(r, s') := lend key s in
  r = Ok (length (leases s)) ∧ inv [] s' ∧ leases s' = leases s ++ [mkLease key (worker e) false Ready] ∧ calls s' = calls s.
Proof.
  intros Hs Hk. unfold lend. rewrite Hk. split; [done|]. split; [|done].
  eapply (inv_update s _ key e (lease_count e + 1) (clock s) (leases s ++ [mkLease key (worker e) false Ready])); [done|done| | |reflexivity| | |]; cbn [clock with_leases with_entries]; [lia|lia| | |].
  - intros k e' He'. pose proof (held_snoc k s (mkLease key (worker e) false Ready)) as Hh. unfold held in *. cbn [leases with_leases with_entries] in *. rewrite Hh.
    destruct (decide (key = k)) as [->|Hne].
    + rewrite od_get_set in He'. injection He' as <-. rewrite decide_True by done. cbn. by rewrite (i_count _ _ Hs _ _ Hk).
    + rewrite od_get_set_ne in He' by done. rewrite (i_count _ _ Hs _ _ He'), decide_False by (intros [? _]; done). unfold held. lia.
  - intros l [Hl| ->]%in_snoc Hr; [by apply (i_held _ _ Hs)|]. by exists e.
  - intros l [Hl| ->]%in_snoc; [by apply (i_stage _ _ Hs)|done].
Qed.
Lemma release_count_ok s i l : inv [] s → leases s !! i = Some l → stage l = Owing →
  let '(r, s') := release_count i s in r = Ok () ∧ inv [] s' ∧ leases s' = <[i := at_stage l Ready]> (leases s) ∧ calls s' = calls s.
Proof.
  intros Hs Hi Ho. pose proof (i_stage _ _ Hs l (list_elem_of_lookup_2 _ _ _ Hi)) as Hr. unfold staged in Hr. rewrite Ho in Hr. unfold release_count. rewrite Hi. unfold release_key. cbn [entries with_leases set_lease].
  assert (Hcl : counted l = true) by (unfold counted; by rewrite Hr, Ho).
  assert (Hcl' : counted (at_stage l Ready) = false) by (unfold counted; cbn; by rewrite Hr).
  destruct (i_held _ _ Hs l (list_elem_of_lookup_2 _ _ _ Hi) Hcl) as (e & He & Hw). rewrite He. pose proof (held_positive s i l Hi Hcl) as Hp.
  rewrite <-(i_count _ _ Hs _ _ He) in Hp. destruct (Z.leb_spec (lease_count e) 0); [lia|]. split; [done|]. split; [|done].
  eapply (inv_update s _ (l_key l) e (lease_count e - 1) (clock s + 1)); [done|done| | |reflexivity| | |]; cbn [clock with_leases with_entries tick set_lease]; [lia|lia| | |].
  - intros k e' He'. pose proof (held_set k s i l (at_stage l Ready) Hi) as Hh. unfold held in *. cbn [leases with_leases with_entries tick set_lease] in *. rewrite Hh.
    rewrite (decide_False (P := holds k (at_stage l Ready))) by (unfold holds; rewrite Hcl'; by intros [_ ?]).
    destruct (decide (l_key l = k)) as [<-|Hne].
    + rewrite od_get_set in He'. injection He' as <-. cbn. rewrite (i_count _ _ Hs _ _ He). unfold held. rewrite decide_True by done. lia.
    + rewrite od_get_set_ne in He' by done. rewrite (i_count _ _ Hs _ _ He'). unfold held. rewrite (decide_False (P := holds k l)) by (by intros [? _]). lia.
  - intros x [->|Hx]%(set_lease_in i l _ x s Hi) Hcx; [congruence|by apply (i_held _ _ Hs)].
  - intros x [->|Hx]%(set_lease_in i l _ x s Hi); [done|by apply (i_stage _ _ Hs)].
Qed.
(** The worker of a lease that counts is alive. *)
Lemma lease_alive pending s l : inv pending s → l ∈ leases s → counted l = true → l_worker l ∈ workers s.
Proof.
  intros Hs Hl Hr. destruct (i_held _ _ Hs l Hl Hr) as (e & He & <-). unfold workers. apply list_elem_of_fmap. exists e. split; [done|].
  apply list_elem_of_fmap. exists (l_key l, e). split; [done|by apply od_get_elem].
Qed.
Lemma unreleased_counted l : released l = false → counted l = true.
Proof. intros Hr. unfold counted. by rewrite Hr. Qed.
Lemma inv_predict_test pending i s : inv pending s → inv pending (predict_test i s).2.
Proof.
  intros Hs. unfold predict_test. destruct (leases s !! i) as [l|] eqn:Hi; [|done]. destruct (released l) eqn:Hr; [done|].
  apply (inv_restage _ _ l); try done. unfold counted. cbn. by rewrite Hr.
Qed.
Lemma inv_release_test pending i s : inv pending s → inv pending (release_test i s).2.
Proof.
  intros Hs. unfold release_test. destruct (leases s !! i) as [l|] eqn:Hi; [|done]. destruct (released l) eqn:Hr; [done|].
  apply (inv_restage _ _ l); try done. unfold counted. cbn. by rewrite Hr.
Qed.
Lemma inv_release_set pending i l s : inv pending s → leases s !! i = Some l → stage l = Releasing → inv pending (release_set i s).2.
Proof.
  intros Hs Hi Hst. unfold release_set. rewrite Hi. apply (inv_restage _ _ l); try done.
  pose proof (i_stage _ _ Hs l (list_elem_of_lookup_2 _ _ _ Hi)) as Hr. unfold staged in Hr. rewrite Hst in Hr. unfold counted. cbn. by rewrite Hr.
Qed.
Lemma inv_predict_call pending i l v s : inv pending s → leases s !! i = Some l → stage l = Predicting → inv pending (predict_call i v s).2.
Proof.
  intros Hs Hi Hst. pose proof (i_stage _ _ Hs l (list_elem_of_lookup_2 _ _ _ Hi)) as Hr. unfold staged in Hr. rewrite Hst in Hr. unfold predict_call. rewrite Hi.
  assert (Hb : inv pending (set_lease i (at_stage l Ready) s)).
  { apply (inv_restage _ _ l); try done. unfold counted. cbn. by rewrite Hr, Hst. }
  assert (Hu : inv pending (record_call (Predicted (l_worker l)) (set_lease i (at_stage l Ready) s))).
  { apply inv_used; [done|]. apply elem_of_app. left. apply (lease_alive pending s l Hs); [by eapply list_elem_of_lookup_2|by apply unreleased_counted]. }
  unfold bind, modify, on_host, zoom. destruct (wh_predict _ _ _) as [[p|x] h]; cbn; by apply inv_host.
Qed.
(** What closing a worker leaves alone. *)
Lemma close_worker_frame w s : let s' := (close_worker w s).2 in
  leases s' = leases s ∧ entries s' = entries s ∧ maximum s' = maximum s ∧ closed s' = closed s ∧ clock s' = clock s ∧ made s' = made s ∧ calls s' = calls s ++ [Closed w].
Proof. unfold close_worker, bind, modify, on_host, zoom. destruct (wh_close _ _) as [[]]; done. Qed.

Lemma least_spec x l : least x l ∈ x :: l ∧ ∀ y, y ∈ x :: l → (least x l).1 <= y.1.
Proof.
  revert x. induction l as [|z l IH]; intros x; cbn [least].
  - split; [left|]. intros y ->%list_elem_of_singleton. lia.
  - destruct (IH (if z.1 <? x.1 then z else x)) as [Hin Hle]. split.
    + apply elem_of_cons in Hin as [->|Hin]; [destruct (_ <? _); set_solver|set_solver].
    + pose proof (Hle _ (list_elem_of_here _ _)) as Hc. intros y [->|[->|Hy]%elem_of_cons]%elem_of_cons.
      * destruct (Z.ltb_spec z.1 x.1); lia.
      * destruct (Z.ltb_spec z.1 x.1); lia.
      * apply Hle. by right.
Qed.
(** The entry that leaves: idle, and no idle one was used less recently. *)
Definition least_recent s (w : nat) : Prop :=
  ∃ k e, od_get k (entries s) = Some e ∧ worker e = w ∧ lease_count e = 0
    ∧ ∀ k' e', od_get k' (entries s) = Some e' → lease_count e' = 0 → last_used e <= last_used e'.
Lemma idle_iff s u k : od_wf (entries s) → (u, k) ∈ idle_entries (entries s) ↔ ∃ e, od_get k (entries s) = Some e ∧ lease_count e = 0 ∧ last_used e = u.
Proof.
  intros Hwf. unfold idle_entries. rewrite list_elem_of_fmap. split.
  - intros ([k' e] & [= -> ->] & [Hz Hin]%list_elem_of_filter). exists e. split; [by apply od_get_iff|done].
  - intros (e & He & Hz & <-). exists (k, e). split; [done|]. apply list_elem_of_filter. split; [done|by apply od_get_elem].
Qed.
Lemma inv_evict s : inv [] s → let '(r, s') := evict_idle s in
  (s' = s ∧ r = Raise (RuntimeError "Core ML worker cache capacity is fully leased") ∧ ∀ k e, od_get k (entries s) = Some e → lease_count e ≠ 0)
  ∨ (inv [] s' ∧ leases s' = leases s ∧ closed s' = closed s ∧ maximum s' = maximum s ∧ Zlen (entries s') = Zlen (entries s) - 1
     ∧ (∀ k, od_get k (entries s) = None → od_get k (entries s') = None)
     ∧ ∃ w, least_recent s w ∧ calls s' = calls s ++ [Closed w] ∧ ∃ h, r = (wh_close w h).1).
Proof.
  intros Hs. pose proof (i_wf _ _ Hs) as Hwf. unfold evict_idle. destruct (idle_entries (entries s)) as [|x l] eqn:E.
  - cbv beta iota. left. split; [done|]. split; [done|]. intros k e He Hz. assert (Hin : (last_used e, k) ∈ idle_entries (entries s)) by (apply idle_iff; eauto).
    rewrite E in Hin. by apply elem_of_nil in Hin.
  - destruct (least_spec x l) as [Hin Hle]. destruct (least x l) as [u victim]. cbn [snd fst] in *. rewrite <-E in Hin.
    apply idle_iff in Hin as (e & He & Hz & Hu); [|done]. rewrite He. set (s1 := with_entries _ _).
    pose proof (inv_close_worker [] (worker e) s1 (inv_remove [] victim e s Hs He Hz)) as Hinv. destruct (close_worker_frame (worker e) s1) as (Hl & Hd & Hm & Hc & _ & _ & Hcalls).
    assert (Hr : (close_worker (worker e) s1).1 = (wh_close (worker e) (host s)).1).
    { unfold close_worker, bind, modify, on_host, zoom. cbn. destruct (wh_close _ _) as [[]]; done. }
    destruct (close_worker _ _) as [r s'] eqn:Ecw. cbn [snd fst] in *. right. split; [done|]. split; [done|]. split; [done|]. split; [done|].
    split; [rewrite Hd; cbn; by apply od_length_del; eauto|]. split.
    + intros k Hk. rewrite Hd. cbn. destruct (decide (k = victim)) as [->|Hne]; [congruence|]. by rewrite od_get_del_ne.
    + exists (worker e). split; [|split; [done|by eexists]]. exists victim, e. split; [done|]. split; [done|]. split; [done|].
      intros k' e' He' Hz'. rewrite Hu. apply (Hle (last_used e', k')). rewrite <-E. apply idle_iff; eauto.
Qed.

(** A host whose workers start and stop. *)
Definition quiet : Prop := (∀ c w h, is_ok (wh_factory c w h).1 = true) ∧ (∀ w h, is_ok (wh_close w h).1 = true).
(** A call to [acquire] can be served. *)
Definition servable key s : Prop :=
  is_Some (od_get key (entries s)) ∨ Zlen (entries s) < maximum s ∨ ∃ k e, od_get k (entries s) = Some e ∧ lease_count e = 0.

Lemma inv_add key config s : inv [] s → od_get key (entries s) = None → Zlen (entries s) < maximum s → closed s = false →
  let '(r, s') := add_worker key config s in
  inv [] s' ∧ leases s' = leases s
  ∧ match r with
    | Ok _ => is_Some (od_get key (entries s')) ∧ calls s' = calls s ++ [Created (made s)]
    | Raise e => calls s' = calls s ∧ ∃ h, (wh_factory config (made s) h).1 = Raise e
    end.
Proof.
  intros Hs Hk Hb Hc. unfold add_worker, bind, modify, on_host, zoom. destruct (wh_factory config (made s) (host s)) as [[[]|x] h] eqn:E.
  - split; [|split; [done|split; [|done]]].
    + exact (inv_make key (with_host h s) (inv_host _ h s Hs) Hk (held_absent [] key s Hs Hk) Hb Hc).
    + cbn. rewrite od_get_set. eauto.
  - split; [by apply inv_host|]. split; [done|]. split; [done|]. exists (host s). by rewrite E.
Qed.
Lemma inv_ensure key config s : inv [] s → closed s = false →
  let '(r, s') := ensure_entry key config s in
  inv [] s' ∧ leases s' = leases s
  ∧ (∀ w, Closed w ∈ calls s' → Closed w ∈ calls s ∨ od_get key (entries s) = None ∧ Zlen (entries s) = maximum s ∧ least_recent s w)
  ∧ (is_ok r = true → is_Some (od_get key (entries s')))
  ∧ (∀ e, od_get key (entries s) = Some e → r = Ok () ∧ s' = s)
  ∧ (quiet → is_ok r = true ↔ servable key s).
Proof.
  intros Hs Hc. unfold ensure_entry. destruct (od_get key (entries s)) as [e|] eqn:Hk.
  { split; [done|]. split; [done|]. split; [by left|]. split; [by rewrite Hk|]. split; [done|]. intros _. split; [|done]. intros _. left. by rewrite Hk. }
  pose proof (i_bound _ _ Hs) as Hb. unfold bind at 1. destruct (Z.leb_spec (maximum s) (Zlen (entries s))) as [Hfull|Hroom].
  - pose proof (inv_evict s Hs) as He. destruct (evict_idle s) as [r s1].
    destruct He as [(-> & -> & Hnone)|(Hs1 & Hl & Hcl & Hm & Hlen & Hkeep & w & Hw & Hcalls & h & Hr)].
    { split; [done|]. split; [done|]. split; [by left|]. split; [done|]. split; [done|]. intros _. split; [done|].
      intros [[e He]|[Hlt|(k & e & He & Hz)]]; [congruence|lia|]. by destruct (Hnone k e He). }
    assert (Hev : ∀ v, Closed v ∈ calls s1 → Closed v ∈ calls s ∨ None = @None Entry ∧ Zlen (entries s) = maximum s ∧ least_recent s v).
    { intros v. rewrite Hcalls, in_snoc. intros [Hv|[= ->]]; [by left|right]. split; [done|]. split; [lia|done]. }
    assert (Hserv : servable key s). { destruct Hw as (k & e & He & _ & Hz & _). right; right; eauto. }
    destruct r as [[]|x].
    + pose proof (inv_add key config s1 Hs1 (Hkeep key Hk) ltac:(lia) ltac:(congruence)) as Ha. destruct (add_worker key config s1) as [[[]|x] s2].
      * destruct Ha as (Hs2 & Hl2 & Hk2 & Hc2). split; [done|]. split; [congruence|]. split; [|split; [done|split; [done|by split]]].
        intros v. rewrite Hc2, in_snoc. intros [Hv|?]; [by apply Hev|done].
      * destruct Ha as (Hs2 & Hl2 & Hc2 & h2 & Hx). split; [done|]. split; [congruence|]. split; [by rewrite Hc2|]. split; [done|]. split; [done|].
        intros [Hq _]. specialize (Hq config (made s1) h2). by rewrite Hx in Hq.
    + split; [done|]. split; [done|]. split; [done|]. split; [done|]. split; [done|]. intros [_ Hq]. specialize (Hq w h). by rewrite <-Hr in Hq.
  - pose proof (inv_add key config s Hs Hk Hroom Hc) as Ha. cbn [ret]. destruct (add_worker key config s) as [[[]|x] s2].
    + destruct Ha as (Hs2 & Hl2 & Hk2 & Hc2). split; [done|]. split; [done|]. split; [|split; [done|split; [done|]]].
      * intros v. rewrite Hc2, in_snoc. intros [Hv|?]; [by left|done].
      * intros _. split; [|done]. intros _. right. by left.
    + destruct Ha as (Hs2 & Hl2 & Hc2 & h2 & Hx). split; [done|]. split; [done|]. split; [rewrite Hc2; by left|]. split; [done|]. split; [done|].
      intros [Hq _]. specialize (Hq config (made s) h2). by rewrite Hx in Hq.
Qed.
Lemma acquire_closed key config s : closed s = true → (acquire key config s).2 = s ∧ is_ok (acquire key config s).1 = false.
Proof.
  intros Hc. unfold acquire, bind, lift, guard_raise. destruct (from_config _ _ _) as [expected|x]; [|done].
  destruct (negb _); [done|]. unfold get, ret. by rewrite Hc.
Qed.
(** Every outcome of [acquire]. *)
Lemma acquire_outcomes key config s : inv [] s →
  let '(r, s') := acquire key config s in
  inv [] s'
  ∧ (∀ w, Closed w ∈ calls s' → Closed w ∈ calls s ∨ od_get key (entries s) = None ∧ Zlen (entries s) = maximum s ∧ least_recent s w)
  ∧ match r with
    | Ok i => i = length (leases s) ∧ ∃ w, leases s' = leases s ++ [mkLease key w false Ready] ∧ w ∈ workers s'
                ∧ ∀ e, od_get key (entries s) = Some e → w = worker e ∧ calls s' = calls s
    | Raise _ => leases s' = leases s
    end
  ∧ (quiet → is_ok r = true ↔ from_config config (k_hardware_fingerprint key) (k_os_version key) = Ok key ∧ closed s = false ∧ servable key s).
Proof.
  intros Hs. unfold acquire. unfold bind at 1, lift. destruct (from_config _ _ _) as [expected|x]; [|split; [done|split; [by left|split; [done|naive_solver]]]].
  unfold bind at 1, guard_raise at 1. destruct (decide (key = expected)) as [<-|Hne].
  2: { rewrite bool_decide_false by done. split; [done|]. split; [by left|]. split; [done|]. intros _. split; [done|]. intros [[= ->] _]. done. }
  rewrite bool_decide_true by done. cbn [negb ret]. unfold bind at 1, get, bind at 1, guard_raise, ret at 1.
  destruct (closed s) eqn:Hc; [split; [done|split; [by left|split; [done|naive_solver]]]|].
  unfold ret, bind at 1, modify, bind at 1. pose proof (inv_ensure key config (tick s) (inv_tick _ _ Hs) Hc) as He.
  destruct (ensure_entry key config (tick s)) as [[[]|x] s1]; destruct He as (Hs1 & Hl & Hev & Hk & Hres & Hq).
  - destruct (Hk eq_refl) as [e He]. pose proof (inv_lend s1 key e Hs1 He) as Hlend. destruct (lend key s1) as [r s2]. destruct Hlend as (-> & Hs2 & Hl2 & Hc2).
    split; [done|]. split; [by rewrite Hc2|]. split; [|intros Hqq; specialize (Hq Hqq); cbn in *; naive_solver]. rewrite Hl in *. split; [done|]. exists (worker e). split; [done|]. split.
    + apply (lease_alive [] s2 (mkLease key (worker e) false Ready) Hs2); [rewrite Hl2; apply in_snoc; by right|done].
    + intros e0 He0. destruct (Hres e0 He0) as [_ ->]. cbn in He, Hc2. split; [congruence|done].
  - split; [done|]. split; [done|]. split; [done|]. intros Hqq. specialize (Hq Hqq). cbn in *. naive_solver.
Qed.

Lemma inv_close_all l s : inv (worker <$> l) s → entries s = [] →
  let '(r, s') := close_all l s in (∃ names, r = Ok names) ∧ inv [] s' ∧ leases s' = leases s ∧ entries s' = [] ∧ closed s' = closed s.
Proof.
  revert s. induction l as [|e l IH]; intros s Hs Hd; cbn [close_all]; [split_and!; eauto|]. unfold bind. cbn in Hs. pose proof (inv_close_worker _ _ _ Hs) as H1.
  destruct (close_worker_frame (worker e) s) as (Hl & He & _ & Hc & _). destruct (close_worker (worker e) s) as [r s1]. cbn [snd] in *.
  specialize (IH s1 H1 ltac:(congruence)).
  destruct r as [[]|x]; cbn; destruct (close_all l s1) as [r2 s2]; destruct IH as ([names ->] & Hs2 & Hl2 & He2 & Hc2); cbn; split_and!; eauto; congruence.
Qed.
Lemma inv_set_closed s : inv [] s → (∀ l, l ∈ leases s → counted l = false) → inv (worker <$> (entries s).*2) (set_closed s).
Proof.
  intros [] Hr. split; try done; unfold workers, alive in *; cbn; rewrite ?app_nil_r in *; try done.
  - unfold Zlen in *. cbn. lia.
  - constructor.
  - intros l Hl Hrl. rewrite (Hr l Hl) in Hrl. done.
Qed.
Lemma active_leases_iff s : inv [] s → existsb (λ p, negb (lease_count p.2 =? 0)) (entries s) = true ↔ ∃ l, l ∈ leases s ∧ counted l = true.
Proof.
  intros Hs. rewrite existsb_exists. split.
  - intros ([k e] & Hin%list_elem_of_In & Hn). cbn in Hn. breflect. apply (proj2 (od_get_iff k e _ (i_wf _ _ Hs))) in Hin.
    rewrite (i_count _ _ Hs _ _ Hin) in Hn. unfold held in Hn. destruct (filter _ _) as [|l ls] eqn:E; [done|]. exists l.
    assert (Hl : l ∈ filter (holds k) (leases s)) by (rewrite E; left). apply list_elem_of_filter in Hl as [[_ Hr] Hl]. done.
  - intros (l & Hl & Hr). destruct (i_held _ _ Hs l Hl Hr) as (e & He & _). exists (l_key l, e). split; [by apply list_elem_of_In, od_get_elem|]. cbn.
    rewrite (i_count _ _ Hs _ _ He). apply list_elem_of_lookup in Hl as [i Hi]. pose proof (held_positive s i l Hi Hr). apply negb_true_iff, Z.eqb_neq. lia.
Qed.
(** Every outcome of the locked part of [close] on a cache that is open. *)
Lemma close_begin_outcomes s : inv [] s → closed s = false →
  (∃ l, l ∈ leases s ∧ counted l = true) ∧ (close_begin s).2 = s ∧ (∃ m, (close_begin s).1 = Raise (RuntimeError m))
  ∨ (∀ l, l ∈ leases s → counted l = false) ∧ close_begin s = (Ok (entries s).*2, set_closed s) ∧ inv (worker <$> (entries s).*2) (set_closed s).
Proof.
  intros Hs Hc. unfold close_begin. rewrite Hc. pose proof (active_leases_iff s Hs) as Ha. destruct (existsb _ _) eqn:E.
  - left. split; [by apply Ha|]. eauto.
  - right. assert (Hall : ∀ l, l ∈ leases s → counted l = false).
    { intros l Hl. destruct (counted l) eqn:Hr; [|done]. assert (false = true) by (apply Ha; eauto). done. }
    split; [done|]. split; [done|]. by apply inv_set_closed.
Qed.
(** Every outcome of [close] on a cache that is open. *)
Lemma close_outcomes s : inv [] s → closed s = false →
  let '(r, s') := close s in
  ((∃ l, l ∈ leases s ∧ counted l = true) → s' = s ∧ is_ok r = false)
  ∧ ((∀ l, l ∈ leases s → counted l = false) → closed s' = true ∧ ∀ w, ¬ alive s' w).
Proof.
  intros Hs Hc. unfold close, bind. destruct (close_begin_outcomes s Hs Hc) as [((l & Hl & Hcl) & Hsame & [m Hr])|(Hall & Hcb & Hp)].
  - destruct (close_begin s) as [r s1]. cbn in Hsame, Hr. subst r s1. split; [done|]. intros Hall. rewrite (Hall l Hl) in Hcl. done.
  - rewrite Hcb. pose proof (inv_close_all (entries s).*2 (set_closed s) Hp eq_refl) as Hca. destruct (close_all _ _) as [r s1].
    destruct Hca as ([names ->] & Hs1 & _ & He & Hc1). cbn in Hc1. assert (Hdead : ∀ w, ¬ alive s1 w).
    { intros w Hw. apply (i_alive _ _ Hs1) in Hw. unfold workers in Hw. rewrite He in Hw. by apply elem_of_nil in Hw. }
    assert (Hno : ¬ ∃ l, l ∈ leases s ∧ counted l = true) by (intros (l & Hl & Hr); by rewrite (Hall l Hl) in Hr).
    destruct names; cbn; (split; [by intros ?|done]).
Qed.

(** ** Interleavings *)

(** Workers wait to be closed only in a closed cache. *)
Definition run_inv (x : list nat * CoreMLWorkerCache H) : Prop := inv x.1 x.2 ∧ (x.1 ≠ [] → closed x.2 = true).
Lemma open_none p s : run_inv (p, s) → closed s = false → p = [].
Proof. intros [_ Hp] Hc. destruct p; [done|]. cbn in Hp. by rewrite Hp in Hc. Qed.
Lemma counted_open p s l : run_inv (p, s) → l ∈ leases s → counted l = true → closed s = false.
Proof.
  intros [Hs _] Hl Hc. destruct (closed s) eqn:E; [|done]. destruct (i_held _ _ Hs l Hl Hc) as (e & He & _).
  cbn in *. by rewrite (i_closed _ _ Hs E) in He.
Qed.
(** What the steps of a lease leave alone. *)
Lemma lease_steps_closed i s : closed (predict_test i s).2 = closed s ∧ closed (release_test i s).2 = closed s ∧ closed (release_set i s).2 = closed s.
Proof. unfold predict_test, release_test, release_set. destruct (leases s !! i) as [l|]; [|done]. by destruct (released l). Qed.
Lemma predict_call_closed i v s : closed (predict_call i v s).2 = closed s.
Proof.
  unfold predict_call, bind, modify, on_host, zoom. destruct (leases s !! i) as [l|]; [|done]. by destruct (wh_predict _ _ _) as [[p|x] h].
Qed.
Lemma leased_step_inv x y : run_inv x → wstep x y → run_inv y.
Proof.
  intros Hx Hst. destruct Hst as [key config p s|i l p s Hi Hl|i l v p s Hi Hl|i l p s Hi Hl|i l p s Hi Hl|i l p s Hi Hl|p s|w p s].
  - destruct (closed s) eqn:Hc; [by rewrite (proj1 (acquire_closed key config s Hc))|]. pose proof (open_none p s Hx Hc) as ->. destruct Hx as [Hs _].
    pose proof (acquire_outcomes key config s Hs) as Ha. destruct (acquire key config s). by split; [apply Ha|].
  - split; cbn; [by apply inv_predict_test, Hx|]. rewrite (proj1 (lease_steps_closed i s)). apply Hx.
  - split; cbn; [by eapply inv_predict_call; [apply Hx|..]|]. rewrite predict_call_closed. apply Hx.
  - split; cbn; [by apply inv_release_test, Hx|]. rewrite (proj1 (proj2 (lease_steps_closed i s))). apply Hx.
  - split; cbn; [by eapply inv_release_set; [apply Hx|..]|]. rewrite (proj2 (proj2 (lease_steps_closed i s))). apply Hx.
  - assert (Hin : l ∈ leases s) by (by eapply list_elem_of_lookup_2).
    assert (Hcl : counted l = true) by (unfold counted; rewrite Hl; by rewrite orb_true_r).
    pose proof (open_none p s Hx (counted_open p s l Hx Hin Hcl)) as ->. destruct Hx as [Hs _].
    pose proof (release_count_ok s i l Hs Hi Hl) as Hr. destruct (release_count i s). by split; [apply Hr|].
  - destruct (closed s) eqn:Hc; [unfold close_begin; rewrite Hc; cbn; by rewrite app_nil_r|]. pose proof (open_none p s Hx Hc) as ->. destruct Hx as [Hs _].
    destruct (close_begin_outcomes s Hs Hc) as [(_ & Hsame & [m Hr])|(_ & -> & Hp)]; [|by split].
    rewrite Hsame, Hr. by split.
  - destruct Hx as [Hs Hp]. destruct (close_worker_frame w s) as (_ & _ & _ & Hc & _). split; cbn in *; [by apply inv_close_worker|]. intros _. rewrite Hc. by apply Hp.
Qed.

(** C18: in every interleaving of threads that acquire, use and release leases and close the
    cache, each lease used by one thread at a time, the worker cache holds at most its
    maximum of workers; every worker was made once, is closed at most once and is never used
    after that, and the workers alive are those cached and those a [close] is about to
    close, which happens only in a closed cache.  The worker of a lease that is not released,
    or whose release has not given its count back, is alive, an entry counts these leases,
    and giving the count back never raises.  [acquire] leases the cached worker or a new one;
    it closes a worker only when the cache is full, and then the idle one used least
    recently; with a host that works it succeeds exactly when its key fits the configuration,
    the cache is open and an entry, room or an idle worker is there.  A [close] of an open
    cache changes nothing while a lease counts and leaves no worker alive otherwise. *)
Theorem worker_cache_correct n h s0 p s : init_cache n h = Ok s0 → rtc wstep ([], s0) (p, s) →
  (Zlen (entries s) <= maximum s ∧ lifecycle (calls s) ∧ (∀ w, alive s w ↔ w ∈ workers s ++ p) ∧ (p ≠ [] → closed s = true))
  ∧ (∀ i l, leases s !! i = Some l → counted l = true → alive s (l_worker l))
  ∧ (∀ k e, od_get k (entries s) = Some e → lease_count e = held k s)
  ∧ (∀ i l, leases s !! i = Some l → stage l = Owing → (release_count i s).1 = Ok ())
  ∧ (∀ key config, let '(r, s') := acquire key config s in
      (∀ w, Closed w ∈ calls s' → Closed w ∈ calls s ∨ od_get key (entries s) = None ∧ Zlen (entries s) = maximum s ∧ least_recent s w)
      ∧ match r with
        | Ok i => i = length (leases s) ∧ ∃ w, leases s' = leases s ++ [mkLease key w false Ready] ∧ w ∈ workers s'
                    ∧ ∀ e, od_get key (entries s) = Some e → w = worker e ∧ calls s' = calls s
        | Raise _ => leases s' = leases s
        end
      ∧ (quiet → is_ok r = true ↔ from_config config (k_hardware_fingerprint key) (k_os_version key) = Ok key ∧ closed s = false ∧ servable key s))
  ∧ (closed s = false → let '(r, s') := close s in
      ((∃ l, l ∈ leases s ∧ counted l = true) → s' = s ∧ is_ok r = false)
      ∧ ((∀ l, l ∈ leases s → counted l = false) → closed s' = true ∧ ∀ w, ¬ alive s' w)).
Proof.
  intros H0 Hrun. assert (Hi0 : run_inv ([], s0)) by (split; [by eapply init_cache_inv|done]).
  pose proof (rtc_invariant wstep run_inv _ (p, s) leased_step_inv Hi0 Hrun) as Hx.
  destruct (id Hx) as [Hs Hp]. cbn in Hs, Hp. split; [|split; [|split; [|split; [|split]]]].
  - split; [apply Hs|]. split; [apply Hs|]. split; [|done]. intros w. by rewrite (i_alive _ _ Hs).
  - intros i l Hi Hr. apply (i_alive _ _ Hs), elem_of_app. left. by apply (lease_alive p s l Hs); [eapply list_elem_of_lookup_2|].
  - apply Hs.
  - intros i l Hi Hl. assert (Hcl : counted l = true) by (unfold counted; rewrite Hl; by rewrite orb_true_r).
    pose proof (open_none p s Hx (counted_open p s l Hx (list_elem_of_lookup_2 _ _ _ Hi) Hcl)) as ->.
    pose proof (release_count_ok s i l Hs Hi Hl) as Hr. destruct (release_count i s). apply Hr.
  - intros key config. destruct (closed s) eqn:Hc.
    + destruct (acquire_closed key config s Hc) as [E1 E2]. destruct (acquire key config s) as [[i|x] s']; [done|]. cbn in E1. subst s'.
      split; [by left|]. split; [done|]. intros _. by split; [|intros (_ & ? & _)].
    + pose proof (open_none p s Hx Hc) as ->. pose proof (acquire_outcomes key config s Hs) as Ha. rewrite Hc in Ha. destruct (acquire key config s). apply Ha.
  - intros Hc. pose proof (open_none p s Hx Hc) as ->. by apply close_outcomes.
Qed.
End cache.

(** ** Witness: a host that counts the workers it has started. *)

#[global] Instance demo_host : WorkerHost Z Z Z := {
  wh_factory := λ _ _ h, (Ok (), h + 1);
  wh_close := λ _ h, (Ok (), h - 1);
  wh_predict := λ w v h, (Ok (v + Z.of_nat w), h);
}.
Definition demo_digest : string := "0123456789abcdef0123456789abcdef0123456789abcdef0123456789abcdef".
Definition demo_config (name : string) : CoreMLANEModelProbeConfig :=
  mkConfig "model.mlpackage" "manifest.json" demo_digest name "y" [PyFloat.of_Z 1] [PyFloat.of_Z 1] 1 PyFloat.zero.
Definition demo_key (name : string) : CoreMLWorkerCacheKey := mkKey "m3" "15.1" demo_digest name "y" 1.
Definition demo_cache : CoreMLWorkerCache Z := mkCache 1 [] 0 false [] 0 [] 0.
Definition with_two : CoreMLWorkerCache Z :=
  (acquire (Values := Z) (Prediction := Z) (demo_key "a") (demo_config "a")
    (acquire (Values := Z) (Prediction := Z) (demo_key "a") (demo_config "a") demo_cache).2).2.
(** Two leases of a model; one is used and given back while the other is used. *)
Definition demo_mixed : CoreMLWorkerCache Z :=
  let s := (predict_test 0 with_two).2 in
  let s := (predict_test 1 s).2 in
  let s := (predict_call (Values := Z) (Prediction := Z) 0 5 s).2 in
  let s := (release_test 0 s).2 in
  let s := (release_set 0 s).2 in
  let s := (predict_call (Values := Z) (Prediction := Z) 1 6 s).2 in
  (release_count 0 s).2.
Definition demo_replaced : CoreMLWorkerCache Z :=
  (acquire (Values := Z) (Prediction := Z) (demo_key "b") (demo_config "b") (release (H := Z) 1 demo_mixed).2).2.
Lemma demo_mixed_run : rtc wstep ([], demo_cache) ([], demo_mixed).
Proof.
  unfold demo_mixed.
  eapply rtc_l; [exact (w_acquire (demo_key "a") (demo_config "a") [] demo_cache)|].
  eapply rtc_l; [exact (w_acquire (demo_key "a") (demo_config "a") [] _)|].
  eapply rtc_l; [eapply (w_predict_test 0); reflexivity|].
  eapply rtc_l; [eapply (w_predict_test 1); reflexivity|].
  eapply rtc_l; [eapply (w_predict_call 0 _ 5); reflexivity|].
  eapply rtc_l; [eapply (w_release_test 0); reflexivity|].
  eapply rtc_l; [eapply (w_release_set 0); reflexivity|].
  eapply rtc_l; [eapply (w_predict_call 1 _ 6); reflexivity|].
  eapply rtc_l; [eapply (w_release_count 0); reflexivity|].
  apply rtc_refl.
Qed.
Lemma worker_cache_correct_witness :
  calls demo_mixed = [Created 0; Predicted 0; Predicted 0] ∧ lifecycle (calls demo_mixed)
  ∧ (acquire (Values := Z) (Prediction := Z) (demo_key "b") (demo_config "b") demo_mixed).1 = Raise (RuntimeError "Core ML worker cache capacity is fully leased")
  ∧ calls demo_replaced = [Created 0; Predicted 0; Predicted 0; Closed 0; Created 1].
Proof.
  split; [vm_compute; reflexivity|]. split; [|split; vm_compute; reflexivity].
  exact (proj1 (proj2 (proj1 (worker_cache_correct (Values := Z) (Prediction := Z) 1 0 demo_cache [] demo_mixed eq_refl demo_mixed_run)))).
Defined.

(** Two threads that release one lease at once can both pass its test.  The second then takes
    the count of another lease, and the next model closes the worker that lease still uses. *)
Definition raced : CoreMLWorkerCache Z :=
  let s := (release_test 0 (release_test 0 with_two).2).2 in
  let s := (release_count 0 (release_set 0 (release_count 0 (release_set 0 s).2).2).2).2 in
  (acquire (Values := Z) (Prediction := Z) (demo_key "b") (demo_config "b") s).2.
Example release_race : leases raced !! 1%nat = Some (mkLease (demo_key "a") 0 false Ready) ∧ calls raced = [Created 0; Closed 0; Created 1].
Proof. vm_compute. split; reflexivity. Qed.
End CoreMLWorkerCache.
